(* ===== verification/_CoqProject ===== *)
-Q . S2P
Prelude.v
UtilMath.v
PackUnpack.v
Storage.v
ByteArray.v
ByteStream.v
Bits.v
CompactUintArray.v
SortedOffsets.v
StaticArray.v
BitSets.v
RLEStream.v
UnaryCode.v
UnionFind.v
HashTable.v
SetFuncs.v
IndexOps.v
ItemIndexDE.v
ItemIndexRleDE.v
ItemIndexFused.v
ItemIndexNative.v
ItemIndex.v
ItemIndexEF.v
ItemIndexWAH.v
ItemIndexWAHOps.v
ItemIndexWAHMany.v
RefCount.v
RWLock.v
ItemIndexFactory.v
CellMerge.v
CellQuery.v
ItemIndexStore.v
Workers.v
CellQueryConv.v
IndexAdder.v
IndexFlush.v
TreedQuery.v
TreedQueryOk.v
TreedEval.v
