(* ===== verification/Prelude.v ===== *)
(** Verification of the serialization core of sserialize.

    * The program

    sserialize is a C++ library for compact, directly readable data structures. At its
    bottom are functions that pack integers into bytes; above them byte storages behind
    one interface and [UByteArrayAdapter], a window with a get and a put position on such
    a storage; on the adapter live the containers: arrays of fixed-width integers, bit
    sets, the run-length coded stream and the item indexes (sorted lists of ids) with
    their set operations. On the item indexes work the spatial queries: a query result
    is a sorted list of cells, each with all or some of its items. This development
    models that stack from the bottom up, and the free-standing algorithms next to it,
    and proves what each layer promises to the one above.

    * Files and what they model (paths below [src/])

    - [Prelude]: machine integers as [Z] with their wrap-around ([u32], [u64], ...),
      the error monad [result], byte vectors with bounds-checked reads and writes,
      lemmas and tactics shared by all files.
    - [UtilMath]: [algorithm/utilmath.h], [utilmath.cpp], [utility/checks.h]. The
      lock-free [AtomicMax]/[AtomicMin] are a step relation of threads between load and
      compare-exchange.
    - [PackUnpack]: [storage/pack_unpack_functions.h] and [.cpp]. A pack function
      returns the bytes it stores, an unpack function gets the bytes from its pointer on.
    - [Storage]: [storage/UByteArrayAdapterPrivates/]. The class [Backend] is the virtual
      interface [UByteArrayAdapterPrivate], [BackendOk] its laws; [Vec] and [Cont] are the
      vector and the non-contiguous container back ends and keep the laws.
    - [ByteArray]: windows, positions, positional and streaming access of
      [storage/UByteArrayAdapter.cpp]. [uba] has the fields of the adapter; the storage
      the C++ object shares through a pointer is passed and returned explicitly, so two
      adapters alias exactly when they are used with the same storage value.
      [buf s a l] says that the window [a] on [s] holds the bytes [l].
    - [ByteStream]: sequences of streaming puts and gets over the adapter, on any
      [Backend] that keeps its laws.
    - [Bits]: the bytes of a window as one little-endian bit string; fields of it.
    - [CompactUintArray]: [containers/CompactUintArray.cpp] and its header, with the
      bounded array.
    - [SortedOffsets]: [containers/SortedOffsetIndex.cpp] and
      [containers/SortedOffsetIndexPrivate.h], [.cpp]: sorted numbers as distances from a line.
    - [StaticArray]: [Static/Array.h], for every type with the interface [Serial].
    - [BitSets]: [containers/SimpleBitVector.cpp] (module [Simple]) and
      [containers/DynamicBitSet.cpp] with its iterator.
    - [RLEStream]: [containers/RLEStream.cpp], creator and reader.
    - [UnaryCode]: [iterator/UnaryCodeIterator.h] and [.cpp], creator and iterator.
    - [UnionFind]: [containers/UnionFind.h].
    - [HashTable]: [containers/OADHashTable.h], open addressing with double hashing.
    - [SetFuncs]: [algorithm/utilsetfuncs.h], [algorithm/find_key_in_array_functions.h].
    - [IndexOps]: what the item indexes share: the four set operations as operation
      structs, [merge] on sorted lists as their specification, the generic operations of
      [ItemIndexPrivate] and its [find], and the interface [PrivIndex] of the private
      index types with its laws [PrivIndexOk].
    - [ItemIndexDE], [ItemIndexRleDE], [ItemIndexFused], [ItemIndexNative]: the
      delta-coded index, the run-length delta-coded index, its operations on several
      indexes at once, the native and the vector-backed index
      ([containers/ItemIndexPrivates/]).
    - [ItemIndex]: [containers/ItemIndex.cpp] over all of these types, which one
      operation may mix; every type is an instance of [PrivIndex].
    - [ItemIndexEF]: the Elias-Fano index
      ([containers/ItemIndexPrivates/ItemIndexPrivateEliasFano.cpp]), another instance of
      [PrivIndex], which [ItemIndex] does not dispatch to; its set operations take any
      other instance as second operand.
    - [ItemIndexWAH], [ItemIndexWAHOps], [ItemIndexWAHMany]: the word-aligned hybrid index
      ([containers/ItemIndexPrivates/ItemIndexPrivateWAH.cpp] and its header, with the
      iterators of [iterator/UDWIterator.h], [UDWConstrainedIterator.h]): creation, lookups
      and bit sets; the set operations on two indexes; the constrained ones on many. The ids
      of an index are the set bits of a number in blocks of 31 bits ([bids], [blocks]).
    - [RefCount]: [utility/refcounting.h] and [.cpp], threads that copy, reset and hand
      over handles, step by step.
    - [RWLock]: [mt/MultiReaderSingleWriterLock.h] and [.cpp] with the guards.
    - [ItemIndexFactory]: the static functions [create] and [range] of
      [containers/ItemIndexFactory.h].
    - [ItemIndexStore]: [Static/ItemIndexStore.cpp], a serialized sequence of indexes.
    - [IndexAdder]: the rest of [containers/ItemIndexFactory.h] and [.cpp]: the
      deduplicating store, filled by many threads, with the invariant of its steps; and
      [IndexFlush]: that the flushed data is the store of what was added.
    - [CellMerge]: no code, but the specification of merging two lists of cells.
    - [CellQuery]: [spatial/CellQueryResultPrivate.cpp]: cells, constructors, the lazily
      fetched indexes, set operations. The index store and the information about the
      cells are the interfaces [IndexStore] and [cell_info]; [ItemIndexStore] keeps the first.
      [cqr_rep] says which cells with which ids a result stands for.
    - [Workers]: the loop of worker threads around an atomic counter, for any job.
    - [CellQueryConv]: the conversions between global and cell-local ids, which run on
      such workers, [items], [selfCheck] and the comparison of results.
    - [TreedQuery]: [spatial/TreedCQRImp.cpp], [.h] and the operators of [TreedCQR.cpp]:
      query results that only note the set operations, as trees in one vector of nodes,
      and evaluate them in [toCQR]. [TreedQueryOk] says what the nodes stand for ([enc],
      [sem], [treed_rep]) and proves the operations, [TreedEval] the evaluation and the
      constructors, and compares with [CellQuery].

    * How the model reads

    An operation is a function of the same name (prefixed by its class where names
    collide) from the state to a [result]; [Err] is the exception thrown, with the name
    of its class. [UndefinedBehaviour] and [AssertionFailed] mark what C++ leaves open
    and failed asserts. Memory outside a storage is modelled as out of bounds, not as
    garbage. Loops are structural where they count down or walk over a list, otherwise
    they take fuel and return [OutOfFuel] when it does not suffice. No property allows
    that: each states that the result is [Ok], or which other error it is; only
    [oad_refines] and [oad_crowded_diverges] also speak of any fuel, since putting a key into
    a hash table need not end. The fuel is part of the definition and is enough because
    - [msb_loop] shifts a 64-bit number, at most 64 times; [minStorageBitsFullBytes]
      takes one byte a step, at most 8;
    - [p_v_loop] and [psize_v_loop] write 7 bits a step, 10 for 64 bits;
    - [varbits_at_loop] and [varbits_set_loop] handle one byte of an element of at most
      64 bits a step;
    - binary searches halve an interval that is below 2^64 ([binarySearch_loop] and
      [findSorted_loop], 66) or below 2^32 ([find_loop] of [IndexOps], 34);
    - [getSet_word] and [skip_bits] shift a word or a byte (65 and 9);
    - [de_decode] decodes one id a step and an index has [de_size] of them; [generic_loop]
      and the merge loops of [SetFuncs] consume an element of one of the two lists;
    - [rd_decode] and the loops that copy a run-length coded index read a word a step, and
      a word takes at least one byte; [rd_loop] consumes an id a step; the fused
      operations get the number of all ids and two more steps;
    - [uc_zeros] and [uc_load_loop] write or read a byte a step, [uc_scan] looks at a bit of
      a byte a step (9); [ef_fill] decodes an id a step;
    - [wa_fill], [wb_loop] and [wo_rest] read a word a step, [wo_loop] is at the end of a word
      of one operand after each step, [wf_loop] reads a byte of the bit set a step and
      [wf_read] at most five for a block; [wa_put_bits] shifts a block (31) and [wm_emit] a
      word (32); the rounds of [wm_loop] take a block of every index, so that any fuel above
      2^32/31 is enough;
    - [ns_loop] and [execute] get the sizes of both operands and one more step;
    - [find] of [UnionFind] climbs parents whose ranks grow, fewer than there are
      elements; [withTree] halves a list;
    - [cell_loop], [tloop], [merge_cells] and [t_merge] consume a cell a step and get the
      number of cells and one more; [flattenCell] visits a tree once and gets its size and
      one more;
    - [best_loop] looks at one bit of the types a step (32); [run_add] has five sections;
      [sa_find_loop] looks at an element a step;
    - [findBucket_loop] tries at most [m_maxCollisions] slots and [place] takes a value a
      step; how often a hash table grows depends on the hash functions: the statements that
      a put returns get one step for each growth that [settles] or [sizes] speaks of;
    - copying between storages moves at least one byte a step, and is given one more step
      than there are bytes.

    Threads are schedules: a list of thread numbers in the order of their steps, where a
    step is what the code does without another thread being able to see a part of it. The
    properties hold for every schedule.

    * What is proved

    - Round trips: packed integers ([p_v_up_v_roundtrip], [signed_roundtrip]), streams of
      values ([stream_roundtrip]), the bounded array, offset indexes and serialized arrays
      ([soi_roundtrip], [array_roundtrip]), the run-length coded stream
      ([rle_roundtrip]), the unary code ([unary_roundtrip]), the delta-coded, run-length
      coded, native, Elias-Fano and word-aligned hybrid index ([de_roundtrip],
      [rd_roundtrip], [native_roundtrip], [ef_roundtrip], [wah_roundtrip]), bit sets and
      such an index ([wah_bit_sets]), the conversion of query
      results ([cqr_convert_roundtrip]).
    - Memory: accesses stay in the window and change nothing else ([positional_access],
      [sub_windows]).
    - Equivalence with a reference: the unrolled packers with the canonical encoding
      ([p_v_specializations]), the width-specific array accessors with fields of one bit
      string ([cua_access]).
    - Abstract specification and refinement: bit sets as numbers ([dbs_algebra] and its
      companions), union-find as a partition ([union_find_correct]), the item index
      operations as operations on sets ([item_index_ops], [item_index_trees],
      [ef_set_operations], [wah_set_operations], [constrainedIntersect_correct],
      [wah_constrainedIntersect_correct]), where
      [merge] on sorted lists is the specification between the coded form and the sets;
      query results as sets of (cell, id) pairs ([cqr_set_operations],
      [treed_set_operations]), where [cmerge] on lists of cells is the specification in
      between; a hash table as an association list ([oad_refines]); delayed and immediate evaluation
      agree, but for the cells that the immediate differences lose ([treed_equals_immediate]); a store of
      indexes as a list of lists of ids ([index_store_opens]).
    - Termination and bounds of searches, iterators, ranks and hash tables
      ([oad_put_terminates], but [oad_crowded_diverges]).
    - Concurrency, for every interleaving: the lock-free maximum
      ([atomic_minmax_correct]), reference counting ([refcount_safe], [refcount_live]),
      the lock ([rwlock_excludes]), the converting workers ([cqr_conversions]), the
      threads that fill an index factory: the flushed store has what they added
      ([threads_fill_store]), equal lists once ([threads_dedup]), and they end
      ([threads_terminate]).
    - What the code does where it does something else than it means to:
      [fusedIntersectDifference_correct], [last_index_forgotten], [ef_putInto_after_at],
      [ef_not_closed], [wah_fusedIntersectDifference_exact] and the lemmas [bounded_empty_size],
      [range_check_wraps], [rle_long_run], [rle_hasNext_early], [dbs_observers],
      [and_assign_resurrects], [findKey_correct], [uniteK_loses_ids], [diff_loses_cell],
      [removeEmpty_overflow], [removeEmpty_full_fetched], [conversion_full_fetched],
      [cells_zeros], [plus_empty], [toCQR_stale].

    * Assumptions

    The host is little-endian. The two operands of a binary bit set operation are on
    different storages, or the operation only reads them; results of creators go to a
    storage of their own, as in the code. A handle of [UnionFind] is a natural number
    below 2^36; a handle of a reference-counted object belongs to one thread. Lengths are
    bounded where the fields of the format are: an index has less than 2^30 ids (its cache
    has a 32-bit byte size), the operands of a set operation less than 2^29 ids together
    (so that the coded result is below 2^32 bytes), and those of run-length coded indexes
    ids below 2^31, since a difference is stored shifted by one; bit sets have less than
    2^28 bytes. Negating the smallest signed number, which C++ leaves undefined, wraps in
    the flush of the run-length coder and is shown as an overflow in [signed_roundtrip].
    The operands of a query operation are different objects on the same index store, whose
    indexes have one type and less than 2^28 ids each; fewer than 2^31 threads convert a
    result. The regression line of an offset index, which the code computes
    in floating point, is any line that does not overflow; the number of lower bits of an
    Elias-Fano index, which it computes from logarithms, is any number below 32, and the
    data of such an index ends below 2^59; the ids of a word-aligned hybrid index are below
    2^32-4, so that its blocks have less than 2^32 bits, and it is put into bit sets with
    room for them on contiguous storage; the SHA3 digest is any function that
    separates the data added. A thread copies its data to its place in one step, since no
    other thread touches these bytes. The nodes of the operands of a delayed operation, and two for each cell, fit in
    32 bits, the width of the positions in the vector of nodes.

    * What is not modelled

    Back ends that do I/O (files, memory maps, compressed storages),
    floating-point packing and geometry, the thread pool and caches of the operating
    system, printing, generated Unicode tables, bindings and vendored code. The remaining
    private index types (simple, regression line, FoR, PFoR), word-aligned hybrid indexes
    over Huffman codes,
    index stores with Huffman or LZO coded data, inserting a whole store in a factory, the
    other containers built from the arrays (tries, range generators), the caches, the Huffman tree and the geographic hierarchy are built on
    the parts above and are not modelled yet; of the query results flattening, ranking,
    boundaries and iterators are missing. *)

From stdpp Require Export base numbers list.
From Stdlib Require Export ZArith Lia Bool Btauto.

#[global] Open Scope Z_scope.

(** * Notations *)

Declare Scope mach_scope.
Delimit Scope mach_scope with mach.

Notation "a <<< n" := (Z.shiftl a n) (at level 31, left associativity) : mach_scope.
Notation "a >>> n" := (Z.shiftr a n) (at level 31, left associativity) : mach_scope.
Notation "a &&& b" := (Z.land a b) (at level 40, left associativity) : mach_scope.
Notation "a ^^^ b" := (Z.lxor a b) (at level 50, left associativity) : mach_scope.
Notation "a ||| b" := (Z.lor a b) (at level 50, left associativity) : mach_scope.

#[global] Open Scope mach_scope.

(** * Machine integers

    An unsigned w-bit value is a [Z] in [0, 2^w); a conversion to the type is
    the reduction modulo [2^w].  Signed values are two's complement. *)

Definition wrap (w x : Z) : Z := x mod 2 ^ w.
Definition swrap (w x : Z) : Z := (x + 2 ^ (w - 1)) mod 2 ^ w - 2 ^ (w - 1).

Abbreviation u8 := (wrap 8).
Abbreviation u16 := (wrap 16).
Abbreviation u32 := (wrap 32).
Abbreviation u64 := (wrap 64).
Abbreviation s32 := (swrap 32).
Abbreviation s64 := (swrap 64).

Definition max_u32 : Z := 4294967295.
Definition max_u64 : Z := 18446744073709551615.

Definition fits (w x : Z) : Prop := 0 <= x < 2 ^ w.
Definition sfits (w x : Z) : Prop := - 2 ^ (w - 1) <= x < 2 ^ (w - 1).

#[global] Instance fits_dec w x : Decision (fits w x).
Proof. unfold fits. apply _. Defined.
#[global] Instance sfits_dec w x : Decision (sfits w x).
Proof. unfold sfits. apply _. Defined.

(** A byte and a byte sequence. *)
Abbreviation byte_ok := (fits 8).
Definition bytes_ok (l : list Z) : Prop := Forall (fits 8) l.

#[global] Instance bytes_ok_dec l : Decision (bytes_ok l).
Proof. unfold bytes_ok. apply _. Defined.

(** * Results: the exceptions of the code, and undefined behaviour *)

Inductive exc :=
  | OutOfBoundsException
  | IOException
  | TypeOverflowException
  | AllocationException
  | CreationException
  | TypeMissMatchException
  | UnimplementedFunctionException
  | CorruptDataException
  | VersionMissMatchException
  | StdOutOfRange
  | StdOverflowError
  | StdDomainError
  | AssertionFailed
  | UndefinedBehaviour
  | OutOfFuel.

#[global] Instance exc_eq_dec : EqDecision exc.
Proof. solve_decision. Defined.

Inductive result (A : Type) : Type :=
  | Ok (a : A)
  | Err (e : exc).
Arguments Ok {A} a.
Arguments Err {A} e.

#[global] Instance result_ret : MRet result := fun A a => Ok a.
#[global] Instance result_bind : MBind result :=
  fun A B f m => match m with Ok a => f a | Err e => Err e end.
#[global] Instance result_fmap : FMap result :=
  fun A B f m => match m with Ok a => Ok (f a) | Err e => Err e end.
#[global] Instance result_eq_dec {A} `{EqDecision A} : EqDecision (result A).
Proof. solve_decision. Defined.

Definition throw_if (b : bool) (e : exc) : result () := if b then Err e else Ok ().

Lemma bind_ok {A B} (m : result A) (f : A -> result B) b :
  (m ≫= f) = Ok b <-> exists a, m = Ok a /\ f a = Ok b.
Proof. destruct m; simpl; split; naive_solver. Qed.

Lemma bind_ok_l {A B} (a : A) (f : A -> result B) : (Ok a ≫= f) = f a.
Proof. reflexivity. Qed.

Lemma throw_if_ok b e u : throw_if b e = Ok u <-> b = false.
Proof. destruct b, u; simpl; naive_solver. Qed.

(** Invert every [bind] equation and [throw_if] of the context. *)
Ltac inv_result :=
  repeat match goal with
  | H : (_ ≫= _) = Ok _ |- _ =>
      apply bind_ok in H; let a := fresh "a" in destruct H as (a & ? & H)
  | H : throw_if _ _ = Ok _ |- _ => apply throw_if_ok in H
  | H : mret _ = Ok _ |- _ => unfold mret, result_ret in H
  | H : Ok _ = Ok _ |- _ => injection H as H; try subst
  | H : Err _ = Ok _ |- _ => discriminate H
  end.

(** * Machine integer lemmas *)

Create HintDb mach.

Lemma wrap_small w x : fits w x -> wrap w x = x.
Proof. unfold fits, wrap. intros. apply Z.mod_small. lia. Qed.

Lemma pow2_pos w : 0 <= w -> 0 < 2 ^ w.
Proof. intros. by apply Z.pow_pos_nonneg. Qed.

Lemma wrap_fits w x : 0 <= w -> fits w (wrap w x).
Proof. intros. unfold fits, wrap. apply Z.mod_pos_bound. by apply pow2_pos. Qed.

Lemma wrap_wrap w x : wrap w (wrap w x) = wrap w x.
Proof.
  unfold wrap. destruct (Z.ltb_spec w 0).
  - rewrite Z.pow_neg_r by done. rewrite !Z.mod_0_r. done.
  - apply Z.mod_mod. pose proof (pow2_pos w). lia.
Qed.

Lemma swrap_small w x : 0 < w -> sfits w x -> swrap w x = x.
Proof.
  unfold sfits, swrap. intros.
  replace (2 ^ w) with (2 * 2 ^ (w - 1))
    by (rewrite <- Z.pow_succ_r by lia; f_equal; lia).
  rewrite Z.mod_small; lia.
Qed.

Lemma fits_mono v w x : v <= w -> fits v x -> fits w x.
Proof.
  unfold fits. intros Hv Hx. pose proof (Z.pow_le_mono_r 2 v w ltac:(lia) Hv). lia.
Qed.

(** [testbit] of every operation, for positions known to be non-negative. *)
Lemma testbit_wrap w x i : 0 <= w -> Z.testbit (wrap w x) i = (i <? w) && Z.testbit x i.
Proof. intros. unfold wrap. apply Z.testbit_mod_pow2. done. Qed.

Lemma testbit_fits_high w x i : fits w x -> w <= i -> Z.testbit x i = false.
Proof.
  intros Hx Hi. destruct (Z.ltb_spec w 0) as [Hw|Hw].
  { unfold fits in Hx. rewrite Z.pow_neg_r in Hx by done. lia. }
  rewrite <- (wrap_small w x) by done. rewrite testbit_wrap by lia.
  replace (i <? w) with false by lia. done.
Qed.

Lemma fits_testbit w x :
  0 <= w -> 0 <= x -> (forall i, w <= i -> Z.testbit x i = false) -> fits w x.
Proof.
  intros Hw Hx H. enough (x = wrap w x) as -> by (by apply wrap_fits).
  apply Z.bits_inj'. intros i Hi. rewrite testbit_wrap by done.
  destruct (Z.ltb_spec i w); [done|]. rewrite H by lia. done.
Qed.

Lemma testbit_shiftl' x n i : 0 <= n -> 0 <= i ->
  Z.testbit (Z.shiftl x n) i = (n <=? i) && Z.testbit x (i - n).
Proof.
  intros. rewrite Z.shiftl_spec by lia.
  destruct (Z.leb_spec n i); [done|]. rewrite Z.testbit_neg_r by lia. done.
Qed.

Lemma testbit_pow2' n i : 0 <= n -> Z.testbit (2 ^ n) i = (n =? i).
Proof. intros. by apply Z.pow2_bits_eqb. Qed.

Lemma testbit_ones' n i : 0 <= n -> 0 <= i -> Z.testbit (Z.ones n) i = (i <? n).
Proof. intros. by apply Z.testbit_ones_nonneg. Qed.

Lemma testbit_m1' i : 0 <= i -> Z.testbit (-1) i = true.
Proof. intros. by apply Z.bits_m1. Qed.

Create Rewrite HintDb testbit.

#[export] Hint Rewrite
  Z.land_spec Z.lor_spec Z.lxor_spec Z.ldiff_spec Z.bits_0 : testbit.
#[export] Hint Rewrite testbit_wrap testbit_shiftl' Z.shiftr_spec Z.lnot_spec
  testbit_pow2' testbit_ones' testbit_m1' using lia : testbit.

(** Case analysis on the bit-position comparisons of the goal. *)
Ltac split_cmp :=
  repeat match goal with
  | |- context [?a <? ?b] =>
      first [ replace (a <? b) with true by lia
            | replace (a <? b) with false by lia
            | destruct (Z.ltb_spec a b) ]
  | |- context [?a <=? ?b] =>
      first [ replace (a <=? b) with true by lia
            | replace (a <=? b) with false by lia
            | destruct (Z.leb_spec a b) ]
  | |- context [?a =? ?b] =>
      first [ replace (a =? b) with true by lia
            | replace (a =? b) with false by lia
            | destruct (Z.eqb_spec a b) ]
  end.

Ltac bits_step :=
  autorewrite with testbit; split_cmp;
  rewrite ?andb_true_l, ?andb_true_r, ?andb_false_l, ?andb_false_r,
    ?orb_true_l, ?orb_true_r, ?orb_false_l, ?orb_false_r.

(** Bits above the width of a value known to fit. *)
Ltac high_bits :=
  repeat match goal with
  | H : fits ?w ?x |- context [Z.testbit ?x ?i] =>
      rewrite (testbit_fits_high w x i H) by lia
  end.

(** Equality of two integers bit by bit. *)
Ltac bitwise :=
  apply Z.bits_inj'; intros ?i ?Hi; bits_step; high_bits; bits_step; high_bits;
  try solve [ reflexivity | btauto | f_equal; lia | repeat f_equal; lia ].

(** [wrap] under the operations the packing code uses. *)
Lemma land_ones_wrap w x : 0 <= w -> Z.land x (Z.ones w) = wrap w x.
Proof. intros. unfold wrap. by apply Z.land_ones. Qed.

Lemma wrap_div_mod w x : 0 <= w -> x = wrap w x + 2 ^ w * (x >>> w).
Proof.
  intros. rewrite Z.shiftr_div_pow2 by done. unfold wrap.
  pose proof (pow2_pos w ltac:(done)).
  pose proof (Z.div_mod x (2 ^ w)). lia.
Qed.

Lemma shiftr_fits w n m x :
  0 <= n -> 0 <= m -> w = n + m -> fits w x -> fits m (x >>> n).
Proof.
  intros Hn Hm -> [H0 Hx]. unfold fits. rewrite Z.shiftr_div_pow2 by lia.
  pose proof (pow2_pos n Hn). split; [by apply Z.div_pos|].
  apply Z.div_lt_upper_bound; [done|]. by rewrite <- Z.pow_add_r.
Qed.

Lemma lor_fits w x y : 0 <= w -> fits w x -> fits w y -> fits w (x ||| y).
Proof.
  intros Hw Hx Hy. apply fits_testbit; [done| |].
  - apply Z.lor_nonneg. unfold fits in *. lia.
  - intros i Hi. rewrite Z.lor_spec. high_bits. done.
Qed.

Lemma land_fits_l w x y : 0 <= w -> fits w x -> fits w (x &&& y).
Proof.
  intros Hw Hx. apply fits_testbit; [done| |].
  - apply Z.land_nonneg. unfold fits in *. lia.
  - intros i Hi. rewrite Z.land_spec. high_bits. done.
Qed.

Lemma lxor_fits w x y : 0 <= w -> fits w x -> fits w y -> fits w (x ^^^ y).
Proof.
  intros Hw Hx Hy. apply fits_testbit; [done| |].
  - apply Z.lxor_nonneg. unfold fits in *. lia.
  - intros i Hi. rewrite Z.lxor_spec. high_bits. done.
Qed.

(** [wrap] absorbs inner reductions of sums, differences and products. *)
Section wrap_arith.
Context (w : Z) (Hw : 0 <= w).
Implicit Types x y : Z.

Local Lemma pow_nz : 2 ^ w <> 0.
Proof using Hw. pose proof (pow2_pos w Hw). lia. Qed.

Lemma wrap_add_l x y : wrap w (wrap w x + y) = wrap w (x + y).
Proof using Hw. apply Z.add_mod_idemp_l, pow_nz. Qed.
Lemma wrap_add_r x y : wrap w (x + wrap w y) = wrap w (x + y).
Proof using Hw. apply Z.add_mod_idemp_r, pow_nz. Qed.
Lemma wrap_mul_l x y : wrap w (wrap w x * y) = wrap w (x * y).
Proof using Hw. apply Z.mul_mod_idemp_l, pow_nz. Qed.
Lemma wrap_mul_r x y : wrap w (x * wrap w y) = wrap w (x * y).
Proof using Hw. apply Z.mul_mod_idemp_r, pow_nz. Qed.
Lemma wrap_sub_l x y : wrap w (wrap w x - y) = wrap w (x - y).
Proof using Hw. apply Zminus_mod_idemp_l. Qed.
Lemma wrap_sub_r x y : wrap w (x - wrap w y) = wrap w (x - y).
Proof using Hw. apply Zminus_mod_idemp_r. Qed.
Lemma wrap_add_ll x y z : wrap w (wrap w x + y + z) = wrap w (x + y + z).
Proof using Hw. by rewrite <- !Z.add_assoc, wrap_add_l. Qed.
End wrap_arith.

Create Rewrite HintDb wrap.

#[export] Hint Rewrite wrap_add_l wrap_add_r wrap_add_ll wrap_mul_l wrap_mul_r wrap_sub_l
  wrap_sub_r using lia : wrap.
#[export] Hint Rewrite wrap_wrap : wrap.

#[export] Hint Resolve wrap_fits lor_fits land_fits_l lxor_fits : mach.

(** * Sequences indexed by machine integers

    [vget], [vput], [vread] and [vwrite] are the element and block accesses of
    a C array or [std::vector]; an access out of range is undefined
    behaviour. *)

Abbreviation zlen l := (Z.of_nat (length l)).

Definition in_range {A} (l : list A) (pos n : Z) : bool :=
  (0 <=? pos) && (0 <=? n) && (pos + n <=? zlen l).

Definition vget {A} (l : list A) (pos : Z) : result A :=
  if in_range l pos 1
  then match l !! Z.to_nat pos with Some x => Ok x | None => Err UndefinedBehaviour end
  else Err UndefinedBehaviour.

Definition vput {A} (l : list A) (pos : Z) (x : A) : result (list A) :=
  if in_range l pos 1 then Ok (<[Z.to_nat pos := x]> l) else Err UndefinedBehaviour.

Definition vread {A} (l : list A) (pos n : Z) : result (list A) :=
  if in_range l pos n
  then Ok (take (Z.to_nat n) (drop (Z.to_nat pos) l))
  else Err UndefinedBehaviour.

Definition splice {A} (l : list A) (pos : Z) (bs : list A) : list A :=
  take (Z.to_nat pos) l ++ bs ++ drop (Z.to_nat pos + length bs) l.

Definition vwrite {A} (l : list A) (pos : Z) (bs : list A) : result (list A) :=
  if in_range l pos (zlen bs) then Ok (splice l pos bs) else Err UndefinedBehaviour.

(** [std::vector::resize]: truncate or append copies of [x]. *)
Definition vresize {A} (l : list A) (n : Z) (x : A) : list A :=
  take (Z.to_nat n) l ++ replicate (Z.to_nat n - length l) x.

Section vectors.
Context {A : Type}.
Implicit Types (l bs : list A) (x : A).

Lemma in_range_spec l pos n :
  in_range l pos n = true <-> 0 <= pos /\ 0 <= n /\ pos + n <= zlen l.
Proof. unfold in_range. lia. Qed.

Lemma vget_ok l pos x : vget l pos = Ok x <-> 0 <= pos /\ l !! Z.to_nat pos = Some x.
Proof.
  unfold vget. destruct (in_range l pos 1) eqn:E.
  - apply in_range_spec in E. destruct (l !! Z.to_nat pos) eqn:El; naive_solver.
  - split; [done|]. intros [Hp Hl]. apply lookup_lt_Some in Hl.
    exfalso. enough (in_range l pos 1 = true) by congruence.
    apply in_range_spec. lia.
Qed.

Lemma vget_lt l pos : 0 <= pos < zlen l -> exists x, vget l pos = Ok x /\ l !! Z.to_nat pos = Some x.
Proof.
  intros. destruct (lookup_lt_is_Some_2 l (Z.to_nat pos)) as [x Hx]; [lia|].
  exists x. split; [|done]. apply vget_ok. split; [lia|done].
Qed.

Lemma vput_ok l pos x l' :
  vput l pos x = Ok l' <-> (0 <= pos < zlen l) /\ l' = <[Z.to_nat pos := x]> l.
Proof.
  unfold vput. destruct (in_range l pos 1) eqn:E.
  - apply in_range_spec in E. naive_solver lia.
  - split; [done|]. intros [Hp ->]. exfalso.
    enough (in_range l pos 1 = true) by congruence. apply in_range_spec. lia.
Qed.

Lemma vread_ok l pos n bs :
  vread l pos n = Ok bs <->
  0 <= pos /\ 0 <= n /\ pos + n <= zlen l /\
  bs = take (Z.to_nat n) (drop (Z.to_nat pos) l).
Proof.
  unfold vread. destruct (in_range l pos n) eqn:E.
  - apply in_range_spec in E. naive_solver.
  - split; [done|]. intros (?&?&?&->). exfalso.
    enough (in_range l pos n = true) by congruence. apply in_range_spec. lia.
Qed.

Lemma vwrite_ok l pos bs l' :
  vwrite l pos bs = Ok l' <-> (0 <= pos /\ pos + zlen bs <= zlen l) /\ l' = splice l pos bs.
Proof.
  unfold vwrite. destruct (in_range l pos (zlen bs)) eqn:E.
  - apply in_range_spec in E. naive_solver.
  - split; [done|]. intros [? ->]. exfalso.
    enough (in_range l pos (zlen bs) = true) by congruence. apply in_range_spec. lia.
Qed.

Lemma length_splice l pos bs :
  0 <= pos -> pos + zlen bs <= zlen l -> length (splice l pos bs) = length l.
Proof. intros. unfold splice. rewrite !length_app, length_take, length_drop. lia. Qed.

Lemma lookup_splice l pos bs (i : nat) :
  0 <= pos -> pos + zlen bs <= zlen l ->
  splice l pos bs !! i =
    if (Z.of_nat i <? pos) || (pos + zlen bs <=? Z.of_nat i) then l !! i
    else bs !! (i - Z.to_nat pos)%nat.
Proof.
  intros. unfold splice.
  assert (length (take (Z.to_nat pos) l) = Z.to_nat pos) as Hl
    by (rewrite length_take; lia).
  destruct (Z.ltb_spec (Z.of_nat i) pos); simpl.
  { rewrite lookup_app_l by lia. by rewrite lookup_take_lt by lia. }
  rewrite lookup_app_r by lia. rewrite Hl.
  destruct (Z.leb_spec (pos + zlen bs) (Z.of_nat i)).
  - rewrite lookup_app_r by lia. rewrite lookup_drop. f_equal. lia.
  - by rewrite lookup_app_l by lia.
Qed.

Lemma vread_vwrite_same l pos bs l' n :
  vwrite l pos bs = Ok l' -> n = zlen bs -> vread l' pos n = Ok bs.
Proof.
  intros [[? ?] ->]%vwrite_ok ->. apply vread_ok.
  rewrite length_splice by lia. repeat split; try lia.
  unfold splice. rewrite drop_app_ge by (rewrite length_take; lia).
  rewrite length_take. replace (Z.to_nat pos - _)%nat with 0%nat by lia.
  rewrite drop_0, Nat2Z.id. by rewrite take_app_length.
Qed.

Lemma vread_vwrite_other l pos bs l' p n :
  vwrite l pos bs = Ok l' -> p + n <= pos \/ pos + zlen bs <= p ->
  vread l' p n = vread l p n.
Proof.
  intros [[? ?] ->]%vwrite_ok Hd. unfold vread, in_range. rewrite length_splice by lia.
  destruct ((0 <=? p) && (0 <=? n) && (p + n <=? zlen l)) eqn:E; [|done].
  f_equal. apply list_eq. intros i. rewrite !lookup_take, !lookup_drop.
  case_decide; [|done]. rewrite lookup_splice by lia.
  destruct (Z.ltb_spec (Z.of_nat (Z.to_nat p + i)) pos); [done|].
  destruct (Z.leb_spec (pos + zlen bs) (Z.of_nat (Z.to_nat p + i))); [done|lia].
Qed.

Lemma length_vresize l n x : 0 <= n -> zlen (vresize l n x) = n.
Proof.
  intros. unfold vresize. rewrite length_app, length_take, length_replicate. lia.
Qed.

Lemma lookup_vresize l n x (i : nat) : 0 <= n ->
  vresize l n x !! i =
    if Z.of_nat i <? n then Some (default x (l !! i)) else None.
Proof.
  intros. unfold vresize. destruct (Z.ltb_spec (Z.of_nat i) n).
  - destruct (decide (i < length l)%nat) as [Hi|Hi].
    + rewrite lookup_app_l by (rewrite length_take; lia).
      rewrite lookup_take_lt by lia.
      destruct (lookup_lt_is_Some_2 l i Hi) as [y Hy]. by rewrite Hy.
    + rewrite lookup_app_r by (rewrite length_take; lia).
      rewrite (lookup_ge_None_2 l) by lia. simpl.
      apply lookup_replicate. split; [done|]. rewrite length_take. lia.
  - apply lookup_ge_None_2. rewrite length_app, length_take, length_replicate. lia.
Qed.
End vectors.

Lemma Forall_splice {A} (P : A -> Prop) l pos bs :
  Forall P l -> Forall P bs -> Forall P (splice l pos bs).
Proof. intros. unfold splice. rewrite !Forall_app. auto using Forall_take, Forall_drop. Qed.

Lemma Forall_vresize {A} (P : A -> Prop) l n x :
  Forall P l -> P x -> Forall P (vresize l n x).
Proof.
  intros. unfold vresize. apply Forall_app. auto using Forall_take, Forall_replicate.
Qed.
