(* ===== verification/UtilMath.v ===== *)
(** Integer helpers of [include/sserialize/algorithm/utilmath.h],
    [src/algorithm/utilmath.cpp] and [include/sserialize/utility/checks.h]:
    widening multiply/divide, bit masks, the most significant bit, population
    count, checked narrowing, and the lock-free maximum. *)

From S2P Require Import Prelude.

(** ** Multiply, then divide or reduce *)

Definition multiplyDiv32 (a b c : Z) : Z := u32 (u64 (a * b) / c).
Definition multiplyMod32 (a b c : Z) : Z := u32 (u64 (a * b) mod c).

(** [__builtin_mul_overflow] on [uint64_t]: (overflowed, wrapped product). *)
Definition mul_overflow64 (a b : Z) : bool * Z := (max_u64 <? a * b, u64 (a * b)).

(** The portable branch of the overflow case, without a 128-bit type. *)
Definition multiplyDiv64_portable (a b c : Z) : Z :=
  let a_c := a / c in
  let r_a := a mod c in
  let b_c := b / c in
  let r_b := b mod c in
  u64 (u64 (u64 (u64 (u64 (a_c * b_c) * c) + u64 (a_c * r_b)) + u64 (b_c * r_a))
       + u64 (r_a * r_b) / c).

(** The branch with a 128-bit type: the product is a signed [__int128_t] (its
    overflow is undefined), the quotient is narrowed to the return type. *)
Definition multiplyDiv64_int128 (a b c : Z) : result Z :=
  if a * b <? 2 ^ 127 then Ok (u64 (Z.quot (a * b) c)) else Err UndefinedBehaviour.

Definition multiplyDiv64 (has_int128 : bool) (a b c : Z) : result Z :=
  let '(ov, ab) := mul_overflow64 a b in
  if negb ov then Ok (ab / c)
  else if has_int128 then multiplyDiv64_int128 a b c
  else Ok (multiplyDiv64_portable a b c).

Definition multiplyMod64 (has_int128 : bool) (a b c : Z) : result Z :=
  let '(ov, ab) := mul_overflow64 a b in
  if negb ov then Ok (ab mod c)
  else if has_int128 then
    (if a * b <? 2 ^ 127 then Ok (u64 (Z.rem (a * b) c)) else Err UndefinedBehaviour)
  else
    let r_a := a mod c in
    let r_b := b mod c in
    Ok (u64 (r_a * r_b) mod c).

(** ** Sign, masks, saturation *)

Definition sgn (v : Z) : Z := Z.b2z (0 <? v) - Z.b2z (v <? 0).

Definition createMask (bpn : Z) : Z :=
  if bpn =? 32 then max_u32 else u32 (u32 (1 <<< bpn) - 1).
Definition createMask64 (bpn : Z) : Z :=
  if bpn =? 64 then max_u64 else u64 (u64 (1 <<< bpn) - 1).

Definition saturatedAdd32 (a b : Z) : Z :=
  if u32 (max_u32 - b) <? a then max_u32 else u32 (a + b).

(** ** Most significant bit *)

(** The generic template: [while (num >>= 1) ++r]. *)
Fixpoint msb_loop (fuel : nat) (num r : Z) : result Z :=
  match fuel with
  | O => Err OutOfFuel
  | S fuel =>
      let num := num >>> 1 in
      if num =? 0 then Ok r else msb_loop fuel num (u32 (r + 1))
  end.

Definition msb_template (num : Z) : result Z := msb_loop 64 num 0.

Definition MultiplyDeBruijnBitPosition : list Z :=
  [0; 9; 1; 10; 13; 21; 2; 29; 11; 14; 16; 18; 22; 25; 3; 30;
   8; 12; 20; 28; 15; 17; 24; 7; 19; 27; 23; 6; 26; 5; 4; 31].

(** Round down to one less than a power of two. *)
Definition smear (v : Z) : Z :=
  let v := v ||| (v >>> 1) in
  let v := v ||| (v >>> 2) in
  let v := v ||| (v >>> 4) in
  let v := v ||| (v >>> 8) in
  v ||| (v >>> 16).

Definition msb32 (v : Z) : result Z :=
  vget MultiplyDeBruijnBitPosition (u32 (smear v * 0x07C4ACDD) >>> 27).

Definition msb64 (v : Z) : result Z :=
  if negb (v >>> 32 =? 0)
  then r ← msb32 (u32 (v >>> 32)); mret (u32 (r + 32))
  else msb32 (u32 v).

(** ** Population count ([__builtin_popcount], [__builtin_popcountll]) *)

Fixpoint popcount_bits (w : nat) (v : Z) : Z :=
  match w with
  | O => 0
  | S w => Z.b2z (Z.testbit v (Z.of_nat w)) + popcount_bits w v
  end.

Definition popCount (w : nat) (v : Z) : Z := popcount_bits w v.

(** ** Checked narrowing *)

Inductive ity := Unsigned (w : Z) | Signed (w : Z).

Definition ity_min (t : ity) : Z :=
  match t with Unsigned _ => 0 | Signed w => - 2 ^ (w - 1) end.
Definition ity_max (t : ity) : Z :=
  match t with Unsigned w => 2 ^ w - 1 | Signed w => 2 ^ (w - 1) - 1 end.
Definition ity_cast (t : ity) (x : Z) : Z :=
  match t with Unsigned w => wrap w x | Signed w => swrap w x end.

(** [NarrowCheck<To, From>::cast], one branch per specialization. *)
Definition narrow_check (to from : ity) (value : Z) : result Z :=
  let fail :=
    match to, from with
    | Signed _, Signed _ => (value <? ity_min to) || (ity_max to <? value)
    | Signed _, Unsigned _ => ity_max to <? value
    | Unsigned _, Signed w => (value <? 0) || (ity_max to <? wrap w value)
    | Unsigned _, Unsigned _ => ity_max to <? value
    end in
  if fail then Err TypeOverflowException else Ok (ity_cast to value).

(** [checked_add], [checked_mult], [checked_sub] with a result type [t]. *)
Definition checked_op (op : Z -> Z -> Z) (t : ity) (a b : Z) : result Z :=
  let r := op a b in
  if (ity_min t <=? r) && (r <=? ity_max t) then Ok r else Err TypeOverflowException.

Definition checked_add := checked_op Z.add.
Definition checked_mult := checked_op Z.mul.
Definition checked_sub := checked_op Z.sub.

(** ** Minimum and maximum of a stream *)

Record MinMax := mkMinMax { mm_max : Z; mm_min : Z }.

Section minmax.
Context (t : ity).

Definition MinMax_new : MinMax := mkMinMax (ity_min t) (ity_max t).
Definition MinMax_update (m : MinMax) (v : Z) : MinMax :=
  mkMinMax (Z.max (mm_max m) v) (Z.min (mm_min m) v).
Definition MinMax_merge (m o : MinMax) : MinMax :=
  mkMinMax (Z.max (mm_max m) (mm_max o)) (Z.min (mm_min m) (mm_min o)).
Definition MinMax_reset (m : MinMax) : MinMax := MinMax_new.
End minmax.

Record MinMaxMean := mkMinMaxMean { mmm_minmax : MinMax; mmm_sum : Z; mmm_count : Z }.

Section minmaxmean.
Context (t : ity).

Definition MinMaxMean_new : MinMaxMean := mkMinMaxMean (MinMax_new t) 0 0.
Definition MinMaxMean_update (m : MinMaxMean) (v : Z) : MinMaxMean :=
  mkMinMaxMean (MinMax_update (mmm_minmax m) v) (ity_cast t (mmm_sum m + v)) (u64 (mmm_count m + 1)).
Definition MinMaxMean_merge (m o : MinMaxMean) : MinMaxMean :=
  mkMinMaxMean (MinMax_merge (mmm_minmax m) (mmm_minmax o))
    (ity_cast t (mmm_sum m + mmm_sum o)) (u64 (mmm_count m + mmm_count o)).
Definition MinMaxMean_reset (m : MinMaxMean) : MinMaxMean := MinMaxMean_new.
Definition MinMaxMean_mean (m : MinMaxMean) : result Z :=
  if mmm_count m =? 0 then Err UndefinedBehaviour else Ok (Z.quot (mmm_sum m) (mmm_count m)).
End minmaxmean.

(** ** The lock-free maximum and minimum

    [AtomicMax::update] loads the shared value and retries a weak
    compare-exchange while its copy is smaller.  Any number of threads run
    [update]; [better] is the loop guard ([prevV < v] for the maximum,
    [prevV > v] for the minimum). *)

Module Atomic.

Inductive tstate :=
  | Start (v : Z)              (** about to load *)
  | Loop (prevV v : Z)         (** at the loop guard *)
  | Done (v : Z).              (** [update(v)] returned *)

Record state := mkState { m_v : Z; threads : list tstate }.

Definition arg (t : tstate) : Z :=
  match t with Start v | Loop _ v | Done v => v end.

Section step.
Context (better : Z -> Z -> bool).

(** One atomic action of one thread: new shared value and thread state.
    [spurious] is the failure a weak compare-exchange may have. *)
Definition tstep (spurious : bool) (m : Z) (t : tstate) : option (Z * tstate) :=
  match t with
  | Start v => Some (m, Loop m v)
  | Loop p v =>
      if better p v then
        if (m =? p) && negb spurious then Some (v, Done v) else Some (m, Loop m v)
      else Some (m, Done v)
  | Done _ => None
  end.

Inductive step : state -> state -> Prop :=
  | step_thread i t sp m' t' s :
      threads s !! i = Some t ->
      tstep sp (m_v s) t = Some (m', t') ->
      step s (mkState m' (<[i := t']> (threads s))).

Inductive steps : state -> state -> Prop :=
  | steps_refl s : steps s s
  | steps_cons s1 s2 s3 : step s1 s2 -> steps s2 s3 -> steps s1 s3.
End step.

Definition max_better (p v : Z) : bool := p <? v.
Definition min_better (p v : Z) : bool := v <? p.

Definition init (m : Z) (vs : list Z) : state := mkState m (map Start vs).
Definition all_done (s : state) : Prop := Forall (fun t => exists v, t = Done v) (threads s).
End Atomic.

(** * Masks *)

Lemma createMask_ones bpn : 0 <= bpn <= 32 -> createMask bpn = Z.ones bpn.
Proof.
  intros H. unfold createMask. destruct (Z.eqb_spec bpn 32) as [->|]; [done|].
  rewrite Z.shiftl_1_l. rewrite !wrap_small.
  - rewrite Z.ones_equiv. lia.
  - unfold fits. pose proof (Z.pow_lt_mono_r 2 bpn 32). pose proof (pow2_pos bpn). lia.
  - rewrite wrap_small; unfold fits;
      pose proof (Z.pow_lt_mono_r 2 bpn 32); pose proof (pow2_pos bpn); lia.
Qed.

Lemma createMask64_ones bpn : 0 <= bpn <= 64 -> createMask64 bpn = Z.ones bpn.
Proof.
  intros H. unfold createMask64. destruct (Z.eqb_spec bpn 64) as [->|]; [done|].
  rewrite Z.shiftl_1_l. rewrite !wrap_small.
  - rewrite Z.ones_equiv. lia.
  - unfold fits. pose proof (Z.pow_lt_mono_r 2 bpn 64). pose proof (pow2_pos bpn). lia.
  - rewrite wrap_small; unfold fits;
      pose proof (Z.pow_lt_mono_r 2 bpn 64); pose proof (pow2_pos bpn); lia.
Qed.

Lemma createMask_range :
  forallb (fun n => createMask (Z.of_nat n) =? Z.ones (Z.of_nat n)) (seq 0 33) = true.
Proof. reflexivity. Qed.

(** * Most significant bit *)

(** The bits [k-m+1 .. k] of [v] are set and none above [k]. *)
Definition top_run (k m v : Z) : Prop :=
  0 <= v /\ (forall i, 0 <= i -> k - m < i <= k -> Z.testbit v i = true) /\
  (forall i, k < i -> Z.testbit v i = false).

Lemma smear_step k m v :
  0 < m -> top_run k m v -> top_run k (2 * m) (v ||| (v >>> m)).
Proof.
  intros Hm (Hv & Hrun & Hhigh). split; [|split].
  - apply Z.lor_nonneg. rewrite Z.shiftr_nonneg. lia.
  - intros i Hi0 Hi. rewrite Z.lor_spec, Z.shiftr_spec by done.
    destruct (Z.ltb_spec (k - m) i); [by rewrite Hrun by lia|].
    rewrite (Hrun (i + m)) by lia. apply orb_true_r.
  - intros i Hi. destruct (Z.ltb_spec i 0); [by rewrite Z.testbit_neg_r|].
    rewrite Z.lor_spec, Z.shiftr_spec, !Hhigh by lia. done.
Qed.

Lemma top_run_log2 v : 0 < v -> top_run (Z.log2 v) 1 v.
Proof.
  intros Hv. split; [lia|split].
  - intros i Hi0 Hi. replace i with (Z.log2 v) by lia. apply Z.bit_log2. lia.
  - intros i Hi. apply Z.bits_above_log2; lia.
Qed.

Lemma top_run_ones k m v : 0 <= k < m -> top_run k m v -> v = Z.ones (k + 1).
Proof.
  intros Hk (Hv & Hrun & Hhigh). apply Z.bits_inj'. intros i Hi.
  rewrite testbit_ones' by lia. destruct (Z.ltb_spec i (k + 1)).
  - apply Hrun; lia.
  - apply Hhigh; lia.
Qed.

Lemma smear_ones v : 0 < v -> fits 32 v -> smear v = Z.ones (Z.log2 v + 1).
Proof.
  intros Hv Hf. assert (Z.log2 v < 32) by (apply Z.log2_lt_pow2; unfold fits in Hf; lia).
  pose proof (Z.log2_nonneg v). pose proof (top_run_log2 v Hv) as H1.
  apply (smear_step _ 1) in H1; [|lia]. apply (smear_step _ 2) in H1; [|lia].
  apply (smear_step _ 4) in H1; [|lia]. apply (smear_step _ 8) in H1; [|lia].
  apply (smear_step _ 16) in H1; [|lia].
  apply (top_run_ones _ 32) in H1; [exact H1|lia].
Qed.

(** The multiply-and-look-up step, checked on the 32 possible masks. *)
Lemma debruijn_table :
  forallb (fun k => bool_decide
    (vget MultiplyDeBruijnBitPosition
       (u32 (Z.ones (Z.of_nat k + 1) * 0x07C4ACDD) >>> 27) = Ok (Z.of_nat k)))
    (seq 0 32) = true.
Proof. vm_compute. reflexivity. Qed.

Lemma msb32_log2 v : fits 32 v -> msb32 v = Ok (Z.log2 v).
Proof.
  intros Hf. destruct (Z.eqb_spec v 0) as [->|Hv]; [reflexivity|].
  assert (0 < v) by (unfold fits in Hf; lia).
  assert (Z.log2 v < 32) by (apply Z.log2_lt_pow2; unfold fits in Hf; lia).
  pose proof (Z.log2_nonneg v). unfold msb32. rewrite smear_ones by done.
  pose proof debruijn_table as Ht. rewrite forallb_forall in Ht.
  specialize (Ht (Z.to_nat (Z.log2 v))). rewrite in_seq in Ht.
  specialize (Ht ltac:(lia)). apply bool_decide_eq_true in Ht.
  rewrite Z2Nat.id in Ht by lia. exact Ht.
Qed.

Lemma msb64_log2 v : fits 64 v -> msb64 v = Ok (Z.log2 v).
Proof.
  intros Hf. unfold msb64.
  assert (fits 32 (v >>> 32)) as Hh by (apply (shiftr_fits 64); [lia|lia|lia|done]).
  destruct (Z.eqb_spec (v >>> 32) 0) as [E|E]; cbn [negb].
  - rewrite wrap_small; [apply msb32_log2|];
      unfold fits in *; rewrite Z.shiftr_div_pow2 in E by lia;
      apply Z.div_small_iff in E; lia.
  - rewrite (wrap_small 32 (v >>> 32)) by done. rewrite msb32_log2 by done. rewrite bind_ok_l.
    assert (0 < v) by (unfold fits in *; destruct (Z.eqb_spec v 0) as [->|]; [done|lia]).
    rewrite Z.log2_shiftr by done. unfold mret, result_ret. f_equal.
    assert (32 <= Z.log2 v).
    { apply Z.log2_le_pow2; [done|]. rewrite Z.shiftr_div_pow2 in E by lia.
      unfold fits in Hf. destruct (Z.leb_spec (2 ^ 32) v); [done|].
      rewrite Z.div_small in E by lia. done. }
    assert (Z.log2 v < 64) by (apply Z.log2_lt_pow2; unfold fits in Hf; lia).
    rewrite Z.max_r by lia. rewrite wrap_small; [lia|unfold fits; lia].
Qed.

Lemma msb_loop_log2 fuel num r :
  0 <= num -> Z.log2 num < Z.of_nat fuel -> 0 <= r -> r + Z.of_nat fuel < 2 ^ 32 ->
  msb_loop fuel num r = Ok (r + Z.log2 num).
Proof.
  revert num r. induction fuel as [|fuel IH]; intros num r Hn Hl Hr Hb.
  { pose proof (Z.log2_nonneg num). lia. }
  cbn [msb_loop].
  destruct (Z.eqb_spec (num >>> 1) 0) as [E|E].
  - assert (Z.log2 num = 0) as ->; [|f_equal; lia].
    rewrite Z.shiftr_div_pow2 in E by lia. apply Z.div_small_iff in E; [|lia].
    destruct (decide (num = 0)) as [->|]; [done|]. replace num with 1 by lia. done.
  - assert (0 < num) by (destruct (decide (num = 0)) as [->|]; [done|lia]).
    assert (1 <= Z.log2 num).
    { apply Z.log2_le_pow2; [done|]. rewrite Z.shiftr_div_pow2 in E by lia.
      destruct (Z.leb_spec (2 ^ 1) num); [done|]. rewrite Z.div_small in E by lia. done. }
    rewrite (wrap_small 32) by (unfold fits; lia).
    assert (Z.log2 (num >>> 1) = Z.log2 num - 1) as Hs
      by (rewrite Z.log2_shiftr by done; lia).
    rewrite IH; [rewrite Hs; f_equal; lia| |lia|lia|lia].
    rewrite Z.shiftr_nonneg. lia.
Qed.

(** The three implementations of [msb] agree with the binary logarithm: the
    multiply-and-table version for 32 bits, its 64-bit extension and the shift
    loop of the template all return [log2 v] (0 for 0), and none of them
    reads outside the table. *)
Theorem msb_correct v :
  (fits 32 v -> msb32 v = Ok (Z.log2 v)) /\
  (fits 64 v -> msb64 v = Ok (Z.log2 v) /\ msb_template v = Ok (Z.log2 v)).
Proof.
  split; [apply msb32_log2|]. intros Hf. split; [by apply msb64_log2|].
  unfold msb_template. rewrite msb_loop_log2; [done|unfold fits in Hf; lia| |lia|lia].
  destruct (decide (v = 0)) as [->|]; [done|].
  apply Z.log2_lt_pow2; unfold fits in Hf; simpl; lia.
Qed.

(** * Multiplication and division without overflow *)

Lemma mul_div_split a b c :
  0 < c ->
  a * b / c = a / c * (b / c) * c + a / c * (b mod c) + b / c * (a mod c)
              + a mod c * (b mod c) / c.
Proof.
  intros Hc. rewrite (Z.div_mod a c) at 1 by lia. rewrite (Z.div_mod b c) at 1 by lia.
  generalize (a / c) (b / c) (a mod c) (b mod c). intros qa qb ra rb.
  replace ((c * qa + ra) * (c * qb + rb))
    with (ra * rb + (qa * qb * c + qa * rb + qb * ra) * c) by ring.
  rewrite Z.div_add by lia. lia.
Qed.

Lemma multiplyDiv64_portable_eq a b c :
  0 < c < 2 ^ 32 -> multiplyDiv64_portable a b c = u64 (a * b / c).
Proof.
  intros Hc. unfold multiplyDiv64_portable.
  pose proof (Z.mod_pos_bound a c). pose proof (Z.mod_pos_bound b c).
  rewrite (wrap_small 64 (a mod c * (b mod c))) by (unfold fits; nia).
  autorewrite with wrap. rewrite (mul_div_split a b c) by lia. done.
Qed.

(** [multiplyDiv64] returns [a * b / c] (reduced to 64 bits) on every
    branch: without overflow, on the portable branch whatever the operands,
    and on the 128-bit branch as long as the product is below [2^127]. *)
Theorem multiplyDiv64_correct a b c :
  fits 64 a -> fits 64 b -> 0 < c < 2 ^ 32 ->
  multiplyDiv64 false a b c = Ok (u64 (a * b / c)) /\
  (a * b < 2 ^ 127 -> multiplyDiv64 true a b c = Ok (u64 (a * b / c))).
Proof.
  intros Ha Hb Hc. unfold multiplyDiv64, mul_overflow64.
  assert (0 <= a * b) by (unfold fits in *; nia).
  destruct (Z.ltb_spec max_u64 (a * b)) as [Ho|Ho]; cbn [negb].
  - split; [by rewrite multiplyDiv64_portable_eq|]. intros Hs.
    unfold multiplyDiv64_int128. replace (a * b <? 2 ^ 127) with true by lia.
    by rewrite Z.quot_div_nonneg by lia.
  - assert (fits 64 (a * b)) by (unfold fits, max_u64 in *; lia).
    rewrite (wrap_small 64 (a * b)) by done.
    assert (fits 64 (a * b / c)).
    { unfold fits in *. split; [apply Z.div_pos; lia|]. apply Z.div_lt_upper_bound; [lia|]. nia. }
    rewrite wrap_small by done. done.
Qed.

Lemma multiplyDiv64_correct_witness :
  let a := 2 ^ 40 + 5 in
  (max_u64 < a * a) /\ multiplyDiv64 true a a 8 = Ok (u64 (a * a / 8)).
Proof.
  split; [vm_compute; reflexivity|].
  refine (proj2 (multiplyDiv64_correct (2 ^ 40 + 5) (2 ^ 40 + 5) 8 _ _ _) _);
    unfold fits; lia.
Defined.

Lemma multiplyDiv64_no_overflow hb a b c :
  0 <= a * b < 2 ^ 64 -> multiplyDiv64 hb a b c = Ok (a * b / c).
Proof.
  intros H. unfold multiplyDiv64, mul_overflow64.
  replace (max_u64 <? a * b) with false by (unfold max_u64; lia). cbn [negb].
  by rewrite wrap_small.
Qed.

Lemma multiplyMod64_no_overflow hb a b c :
  0 <= a * b < 2 ^ 64 -> multiplyMod64 hb a b c = Ok (a * b mod c).
Proof.
  intros H. unfold multiplyMod64, mul_overflow64.
  replace (max_u64 <? a * b) with false by (unfold max_u64; lia). cbn [negb].
  by rewrite wrap_small.
Qed.

(** * Checked narrowing *)

Definition ity_wf (t : ity) : Prop := match t with Unsigned w | Signed w => 0 < w end.
Definition in_ity (t : ity) (x : Z) : Prop := ity_min t <= x <= ity_max t.

#[global] Instance in_ity_dec t x : Decision (in_ity t x).
Proof. unfold in_ity. apply _. Defined.

Lemma ity_cast_id t x : ity_wf t -> in_ity t x -> ity_cast t x = x.
Proof.
  destruct t; unfold in_ity; cbn; intros.
  - apply wrap_small. unfold fits. lia.
  - apply swrap_small; [done|]. unfold sfits. lia.
Qed.

(** [narrow_check] is exact for every pair of integral types: a value of
    the source type is returned unchanged when the target type can represent
    it, and otherwise [TypeOverflowException] is thrown. *)
Theorem narrow_check_exact to from x :
  ity_wf to -> ity_wf from -> in_ity from x ->
  narrow_check to from x =
    (if decide (in_ity to x) then Ok x else Err TypeOverflowException).
Proof.
  intros Ht Hf Hx. unfold narrow_check.
  assert (forall b : bool, b = negb (bool_decide (in_ity to x)) ->
    (if b then Err TypeOverflowException else Ok (ity_cast to x)) =
    (if decide (in_ity to x) then Ok x else Err TypeOverflowException)) as Hgo.
  { intros b ->. destruct (decide (in_ity to x)) as [Hin|Hin].
    - rewrite bool_decide_true by done. cbn. by rewrite ity_cast_id.
    - by rewrite bool_decide_false by done. }
  apply Hgo.
  destruct (decide (in_ity to x)) as [Hin|Hin];
    [rewrite bool_decide_true by done|rewrite bool_decide_false by done];
    destruct to as [wt|wt], from as [wf|wf]; unfold in_ity in *; cbn in *;
    pose proof (pow2_pos (wt - 1)); try lia.
  - rewrite wrap_small; [lia|]. unfold fits.
    pose proof (Z.pow_le_mono_r 2 (wf - 1) wf). lia.
  - destruct (Z.ltb_spec x 0); [done|]. rewrite wrap_small; [lia|].
    unfold fits. pose proof (Z.pow_le_mono_r 2 (wf - 1) wf). lia.
Qed.

Lemma narrow_check_exact_witness :
  narrow_check (Unsigned 32) (Signed 64) (-1) = Err TypeOverflowException /\
  narrow_check (Signed 32) (Signed 64) (-7) = Ok (-7).
Proof.
  split.
  - apply (narrow_check_exact (Unsigned 32) (Signed 64) (-1)); [done|done|unfold in_ity; cbn; lia].
  - apply (narrow_check_exact (Signed 32) (Signed 64) (-7)); [done|done|unfold in_ity; cbn; lia].
Defined.

(** * The lock-free maximum: every interleaving computes the maximum *)

Section atomic_proof.
Context (key : Z -> Z) (better : Z -> Z -> bool).
Context (better_spec : forall p v, better p v = (key p <? key v)).
Context (m0 : Z) (vs : list Z).

Definition thread_inv (m : Z) (t : Atomic.tstate) : Prop :=
  match t with
  | Atomic.Start _ => True
  | Atomic.Loop p _ => key p <= key m
  | Atomic.Done v => key v <= key m
  end.

Record atomic_inv (s : Atomic.state) : Prop := {
  ai_args : map Atomic.arg (Atomic.threads s) = vs;
  ai_lower : key m0 <= key (Atomic.m_v s);
  ai_origin : Atomic.m_v s = m0 \/ In (Atomic.m_v s) vs;
  ai_threads : Forall (thread_inv (Atomic.m_v s)) (Atomic.threads s);
}.

Lemma tstep_inv sp m t m' t' :
  thread_inv m t -> Atomic.tstep better sp m t = Some (m', t') ->
  Atomic.arg t' = Atomic.arg t /\ key m <= key m' /\
  (m' = m \/ m' = Atomic.arg t) /\ thread_inv m' t'.
Proof using better_spec.
  intros Ht Hs. destruct t as [v|p v|v]; cbn in Hs, Ht |- *; [|destruct (better p v) eqn:E|done].
  - simplify_eq. cbn. repeat split; auto with lia.
  - rewrite better_spec in E. destruct (Z.eqb_spec m p), sp; cbn in Hs; simplify_eq; cbn;
      repeat split; auto with lia.
  - rewrite better_spec in E. simplify_eq. cbn. repeat split; auto with lia.
Qed.

Lemma step_inv s s' : atomic_inv s -> Atomic.step better s s' -> atomic_inv s'.
Proof using better_spec.
  intros [Ha Hl Ho Ht] Hstep. destruct Hstep as [i t sp m' t' s Hi Hs].
  pose proof (Forall_lookup_1 _ _ _ _ Ht Hi) as Hti.
  destruct (tstep_inv _ _ _ _ _ Hti Hs) as (Harg & Hle & Hm & Hinv).
  split; cbn.
  - rewrite <- Ha. apply list_eq. intros j. rewrite !list_lookup_fmap.
    destruct (decide (i = j)) as [->|].
    + rewrite list_lookup_insert_eq by (eapply lookup_lt_Some; done).
      rewrite Hi. cbn. congruence.
    + by rewrite list_lookup_insert_ne.
  - lia.
  - destruct Hm as [->| ->]; [done|]. right. rewrite <- Ha. apply in_map.
    apply list_elem_of_In. by eapply list_elem_of_lookup_2.
  - apply Forall_insert; [|done]. eapply Forall_impl; [exact Ht|].
    intros [v|p v|v]; cbn; lia.
Qed.

Lemma steps_inv s s' : atomic_inv s -> Atomic.steps better s s' -> atomic_inv s'.
Proof using better_spec. intros Hi Hs. induction Hs; eauto using step_inv. Qed.

Lemma init_inv : atomic_inv (Atomic.init m0 vs).
Proof using.
  split; cbn; [|lia|by left|].
  - rewrite map_map. cbn. apply map_id.
  - apply Forall_forall. intros t Hin. apply list_elem_of_fmap in Hin as (v & -> & _). done.
Qed.

Lemma atomic_final s :
  Atomic.steps better (Atomic.init m0 vs) s -> Atomic.all_done s ->
  (Atomic.m_v s = m0 \/ In (Atomic.m_v s) vs) /\
  Forall (fun v => key v <= key (Atomic.m_v s)) (m0 :: vs).
Proof using better_spec.
  intros Hs Hd. destruct (steps_inv _ _ init_inv Hs) as [Ha Hl Ho Ht].
  split; [done|]. constructor; [done|]. rewrite <- Ha. apply Forall_map.
  apply Forall_forall. intros t Hin. unfold Atomic.all_done in Hd.
  rewrite Forall_forall in Ht, Hd. specialize (Ht t Hin).
  destruct (Hd t Hin) as [v ->]. done.
Qed.
End atomic_proof.

Lemma list_max_spec (m : Z) vs r :
  (r = m \/ In r vs) -> Forall (fun v => v <= r) (m :: vs) -> r = foldr Z.max m vs.
Proof.
  intros Ho Hf. inversion Hf as [|? ? Hm Hvs]; subst.
  assert (foldr Z.max m vs <= r) as Hle.
  { clear -Hm Hvs. induction Hvs; cbn; lia. }
  enough (r <= foldr Z.max m vs) by lia. clear -Ho.
  induction vs as [|v vs IH]; cbn in *.
  - destruct Ho as [->|[]]; lia.
  - destruct Ho as [Hr|[Hr|Hin]].
    + specialize (IH (or_introl Hr)). lia.
    + lia.
    + specialize (IH (or_intror Hin)). lia.
Qed.

Lemma list_min_spec (m : Z) vs r :
  (r = m \/ In r vs) -> Forall (fun v => r <= v) (m :: vs) -> r = foldr Z.min m vs.
Proof.
  intros Ho Hf. inversion Hf as [|? ? Hm Hvs]; subst.
  assert (r <= foldr Z.min m vs) as Hle.
  { clear -Hm Hvs. induction Hvs; cbn; lia. }
  enough (foldr Z.min m vs <= r) by lia. clear -Ho.
  induction vs as [|v vs IH]; cbn in *.
  - destruct Ho as [->|[]]; lia.
  - destruct Ho as [Hr|[Hr|Hin]].
    + specialize (IH (or_introl Hr)). lia.
    + lia.
    + specialize (IH (or_intror Hin)). lia.
Qed.

(** C39: whatever the interleaving of the threads and the spurious failures of
    the compare-exchange, once every [AtomicMax::update] has returned the
    shared value is the maximum of the initial value and all arguments; dually
    for [AtomicMin]. *)
Theorem atomic_minmax_correct m0 vs s :
  Atomic.all_done s ->
  (Atomic.steps Atomic.max_better (Atomic.init m0 vs) s -> Atomic.m_v s = foldr Z.max m0 vs) /\
  (Atomic.steps Atomic.min_better (Atomic.init m0 vs) s -> Atomic.m_v s = foldr Z.min m0 vs).
Proof.
  intros Hd. split; intros Hs.
  - destruct (atomic_final (fun z => z) Atomic.max_better (fun _ _ => eq_refl) m0 vs s Hs Hd)
      as [Ho Hf].
    by apply list_max_spec.
  - assert (forall p v, Atomic.min_better p v = (- p <? - v)) as Hspec.
    { intros p v. unfold Atomic.min_better. destruct (Z.ltb_spec v p), (Z.ltb_spec (-p) (-v)); lia. }
    destruct (atomic_final Z.opp Atomic.min_better Hspec m0 vs s Hs Hd) as [Ho Hf].
    apply list_min_spec; [done|]. eapply Forall_impl; [exact Hf|]. cbn. lia.
Qed.

(** Two threads, interleaved: the second one loads before the first one's
    exchange and has to retry. *)
Lemma atomic_minmax_correct_witness :
  let s := Atomic.mkState 9 [Atomic.Done 7; Atomic.Done 9] in
  Atomic.steps Atomic.max_better (Atomic.init 3 [7; 9]) s /\ Atomic.m_v s = foldr Z.max 3 [7; 9].
Proof.
  assert (Atomic.steps Atomic.max_better (Atomic.init 3 [7; 9])
            (Atomic.mkState 9 [Atomic.Done 7; Atomic.Done 9])) as Hs.
  { eapply Atomic.steps_cons; [eapply (Atomic.step_thread _ 0%nat _ false); reflexivity|].
    eapply Atomic.steps_cons; [eapply (Atomic.step_thread _ 1%nat _ false); reflexivity|].
    eapply Atomic.steps_cons; [eapply (Atomic.step_thread _ 0%nat _ false); reflexivity|].
    eapply Atomic.steps_cons; [eapply (Atomic.step_thread _ 1%nat _ false); reflexivity|].
    eapply Atomic.steps_cons; [eapply (Atomic.step_thread _ 1%nat _ false); reflexivity|].
    apply Atomic.steps_refl. }
  split; [exact Hs|].
  refine (proj1 (atomic_minmax_correct 3 [7; 9] _ _) Hs).
  repeat constructor; eexists; reflexivity.
Defined.
