(* ===== verification/PackUnpack.v ===== *)
(** Integer packing: [include/sserialize/storage/pack_unpack_functions.h] and
    [src/storage/pack_unpack_functions.cpp].

    An unpack function gets the bytes from the source pointer on; a pack
    function returns the bytes it stores from the destination pointer on. *)

From S2P Require Import Prelude.

(** ** Fixed width, little endian *)

Fixpoint le_val (bs : list Z) : Z :=
  match bs with [] => 0 | b :: bs => b ||| (le_val bs <<< 8) end.

Fixpoint le_bytes (n : nat) (v : Z) : list Z :=
  match n with O => [] | S n => u8 v :: le_bytes n (v >>> 8) end.

(** [memcpy] of n bytes into a zero-initialised integer, then [leNtoh]. *)
Definition up_le (n : Z) (src : list Z) : result Z :=
  bs ← vread src 0 n; mret (le_val bs).

Definition up_u8 (src : list Z) : result Z := vget src 0.
Definition up_u16 (src : list Z) : result Z := up_le 2 src.
Definition up_u32 (src : list Z) : result Z := up_le 4 src.
Definition up_u64 (src : list Z) : result Z := up_le 8 src.
Definition up_u24 (src : list Z) : result Z := up_le 3 src.
Definition up_u40 (src : list Z) : result Z := up_le 5 src.

Definition up_s8 (src : list Z) : result Z := v ← vget src 0; mret (swrap 8 v).
Definition up_s16 (src : list Z) : result Z := v ← up_u16 src; mret (swrap 16 v).
Definition up_s24 (src : list Z) : result Z :=
  tmp ← up_u24 src;
  mret (if Z.odd tmp then s32 (u32 (- (tmp >>> 1))) else s32 (tmp >>> 1)).
Definition up_s32 (src : list Z) : result Z := v ← up_u32 src; mret (s32 v).
Definition up_s40 (src : list Z) : result Z :=
  tmp ← up_u40 src;
  mret (if Z.odd tmp then s64 (u64 (- (tmp >>> 1))) else s64 (tmp >>> 1)).
Definition up_s64 (src : list Z) : result Z := v ← up_u64 src; mret (s64 v).

Definition p_u8 (v : Z) : list Z := [u8 v].
Definition p_u16 (v : Z) : list Z := le_bytes 2 v.
Definition p_u32 (v : Z) : list Z := le_bytes 4 v.
Definition p_u64 (v : Z) : list Z := le_bytes 8 v.
Definition p_u24 (v : Z) : list Z := take 3 (p_u32 v).
Definition p_u40 (v : Z) : list Z := take 5 (p_u64 v).

(** Negation of a signed w-bit value; overflow is undefined. *)
Definition sneg (w v : Z) : result Z :=
  if v =? - 2 ^ (w - 1) then Err UndefinedBehaviour else Ok (- v).

Definition p_s8 (v : Z) : list Z := [u8 v].
Definition p_s16 (v : Z) : list Z := p_u16 (u16 v).
Definition p_s24 (src : Z) : result (list Z) :=
  if src <? 0 then n ← sneg 32 src; mret (p_u24 (u32 (u32 n <<< 1) ||| 1))
  else mret (p_u24 (u32 (u32 src <<< 1))).
Definition p_s32 (v : Z) : list Z := p_u32 (u32 v).
Definition p_s40 (s : Z) : result (list Z) :=
  if s <? 0 then n ← sneg 64 s; mret (p_u40 (u64 (u64 n <<< 1) ||| 1))
  else mret (p_u40 (u64 (u64 s <<< 1))).
Definition p_s64 (v : Z) : list Z := p_u64 (u64 v).

(** ** Variable length: 7 bits a byte, the high bit marks a continuation

    [p_v s avail] packs [s] where [avail = e - d] bytes are available: the
    returned [int] and the bytes stored. *)

(** ceil (digits / 7) *)
Definition maxBytes (w : Z) : Z := w / 7 + (if 0 <? w mod 7 then 1 else 0).

(** The generic template, its bounds-checked and its unchecked loop. *)
Fixpoint p_v_loop (fuel : nat) (checked : bool) (s avail i : Z) (out : list Z) : result (Z * list Z) :=
  match fuel with
  | O => Err OutOfFuel
  | S fuel =>
      if checked && (avail <=? i) then Ok (- i, out)
      else
        let b := u8 (s &&& 127) in
        let s := s >>> 7 in
        let b := if s =? 0 then b else b ||| 128 in
        if s =? 0 then Ok (i + 1, out ++ [b])
        else p_v_loop fuel checked s avail (i + 1) (out ++ [b])
  end.

Definition p_v_generic (w s avail : Z) : result (Z * list Z) :=
  p_v_loop (Z.to_nat (maxBytes w)) (avail <? maxBytes w) s avail 0 [].

(** The unrolled 32-bit specialization; [Cb k] is a continuation byte taken
    at shift [k], [Lb k] the last byte. *)
Section p_v_u32.
Context (s : Z).
Local Notation COMPARE_S n := (s >>> n =? 0).
Local Notation Cb k := (u8 ((s >>> k) ||| 128)).
Local Notation Lb k := (u8 (s >>> k)).

Definition p_v_u32_fast : Z * list Z :=
  if COMPARE_S (1*7) then (1, [Lb 0])
  else if COMPARE_S (2*7) then (2, [Cb 0; Lb 7])
  else if COMPARE_S (3*7) then (3, [Cb 0; Cb 7; Lb 14])
  else if COMPARE_S (4*7) then (4, [Cb 0; Cb 7; Cb 14; Lb 21])
  else (5, [Cb 0; Cb 7; Cb 14; Cb 21; Lb 28]).

Definition p_v_u32_slow (avail : Z) : Z * list Z :=
  if COMPARE_S (1*7) then
    if avail <? 1 then (-1, []) else (1, [Lb 0])
  else if COMPARE_S (2*7) then
    if avail <? 2 then (-2, []) else (2, [Cb 0; Lb 7])
  else if COMPARE_S (3*7) then
    if avail <? 3 then (-3, []) else (3, [Cb 0; Cb 7; Lb 14])
  else if COMPARE_S (4*7) then
    if avail <? 4 then (-4, []) else (4, [Cb 0; Cb 7; Cb 14; Lb 21])
  else
    if avail <? 5 then (-5, []) else (5, [Cb 0; Cb 7; Cb 14; Cb 21; Lb 28]).

Definition p_v_u32 (avail : Z) : Z * list Z :=
  if 5 <=? avail then p_v_u32_fast else p_v_u32_slow avail.
End p_v_u32.

(** The unrolled 64-bit specialization: a binary search on the length. *)
Section p_v_u64.
Context (s : Z).
Local Notation COMPARE_S n := (s >>> n =? 0).
Local Notation Cb k := (u8 ((s >>> k) ||| 128)).
Local Notation Lb k := (u8 (s >>> k)).

Definition p_v_u64_fast : Z * list Z :=
  if COMPARE_S (4*7) then
    if COMPARE_S (2*7) then
      if COMPARE_S 7 then (1, [Lb 0])
      else (2, [Cb 0; Lb 7])
    else
      if COMPARE_S (3*7) then (3, [Cb 0; Cb 7; Lb 14])
      else (4, [Cb 0; Cb 7; Cb 14; Lb 21])
  else
    if COMPARE_S (6*7) then
      if COMPARE_S (5*7) then (5, [Cb 0; Cb 7; Cb 14; Cb 21; Lb 28])
      else (6, [Cb 0; Cb 7; Cb 14; Cb 21; Cb 28; Lb 35])
    else
      if COMPARE_S (8*7) then
        if COMPARE_S (7*7) then (7, [Cb 0; Cb 7; Cb 14; Cb 21; Cb 28; Cb 35; Lb 42])
        else (8, [Cb 0; Cb 7; Cb 14; Cb 21; Cb 28; Cb 35; Cb 42; Lb 49])
      else
        if COMPARE_S (9*7)
        then (9, [Cb 0; Cb 7; Cb 14; Cb 21; Cb 28; Cb 35; Cb 42; Cb 49; Lb 56])
        else (10, [Cb 0; Cb 7; Cb 14; Cb 21; Cb 28; Cb 35; Cb 42; Cb 49; Cb 56; Lb 63]).

Definition p_v_u64_slow (avail : Z) : Z * list Z :=
  if COMPARE_S (4*7) then
    if COMPARE_S (2*7) then
      if COMPARE_S 7 then
        if avail <? 1 then (-1, []) else (1, [Lb 0])
      else
        if avail <? 2 then (-2, []) else (2, [Cb 0; Lb 7])
    else
      if COMPARE_S (3*7) then
        if avail <? 3 then (-3, []) else (3, [Cb 0; Cb 7; Lb 14])
      else
        if avail <? 4 then (-4, []) else (4, [Cb 0; Cb 7; Cb 14; Lb 21])
  else
    if COMPARE_S (6*7) then
      if COMPARE_S (5*7) then
        if avail <? 5 then (-5, []) else (5, [Cb 0; Cb 7; Cb 14; Cb 21; Lb 28])
      else
        if avail <? 6 then (-6, []) else (6, [Cb 0; Cb 7; Cb 14; Cb 21; Cb 28; Lb 35])
    else
      if COMPARE_S (8*7) then
        if COMPARE_S (7*7) then
          if avail <? 7 then (-7, [])
          else (7, [Cb 0; Cb 7; Cb 14; Cb 21; Cb 28; Cb 35; Lb 42])
        else
          if avail <? 8 then (-8, [])
          else (8, [Cb 0; Cb 7; Cb 14; Cb 21; Cb 28; Cb 35; Cb 42; Lb 49])
      else
        if COMPARE_S (9*7) then
          if avail <? 9 then (-9, [])
          else (9, [Cb 0; Cb 7; Cb 14; Cb 21; Cb 28; Cb 35; Cb 42; Cb 49; Lb 56])
        else
          if avail <? 10 then (-10, [])
          else (10, [Cb 0; Cb 7; Cb 14; Cb 21; Cb 28; Cb 35; Cb 42; Cb 49; Cb 56; Lb 63]).

Definition p_v_u64 (avail : Z) : Z * list Z :=
  if 10 <=? avail then p_v_u64_fast else p_v_u64_slow avail.
End p_v_u64.

(** The sign goes to bit 0, the magnitude above it. *)
Definition zigzag (w s : Z) : result Z :=
  if s <? 0 then n ← sneg w s; mret (wrap w (wrap w n <<< 1) ||| 1)
  else mret (wrap w (wrap w s <<< 1)).

Definition unzigzag (w tmp : Z) : Z :=
  let stmp := swrap w (tmp >>> 1) in
  if Z.odd tmp then - stmp else stmp.

Definition p_vu32 (s avail : Z) : Z * list Z := let '(r, bs) := p_v_u32 s avail in (u32 r, bs).
Definition p_vu64 (s avail : Z) : Z * list Z := p_v_u64 s avail.
Definition p_vs32 (s avail : Z) : result (Z * list Z) :=
  tmp ← zigzag 32 s; mret (p_v_u32 tmp avail).
Definition p_vs64 (s avail : Z) : result (Z * list Z) :=
  tmp ← zigzag 64 s; mret (p_v_u64 tmp avail).

(** Four bytes whatever the value: all but the last carry the continuation bit. *)
Fixpoint pad4_loop (n : nat) (s : Z) : list Z :=
  match n with
  | O => []
  | S n => u8 ((s &&& 127) ||| 128) :: pad4_loop n (s >>> 7)
  end.

Definition p_vu32pad4 (s : Z) : Z * list Z :=
  let d := pad4_loop 4 s in
  (4, match d with [d0; d1; d2; d3] => [d0; d1; d2; d3 &&& 127] | _ => d end).

Definition p_vs32pad4 (s : Z) : result (Z * list Z) :=
  tmp ← zigzag 32 s; mret (p_vu32pad4 tmp).

(** [up_v]: the value and the number of bytes read, negated when the bytes
    [s .. e) end before the number does. *)
Fixpoint up_v_loop (fuel : nat) (w : Z) (checked : bool) (s : list Z) (retVal myLen myShift : Z)
    : result (Z * Z) :=
  match fuel with
  | O => Err OutOfFuel
  | S fuel =>
      if checked && (zlen s <=? 0) then Ok (retVal, myLen * -1)
      else
        b ← vget s 0;
        let retVal := retVal ||| wrap w ((b &&& 127) <<< myShift) in
        let myLen := myLen + 1 in
        if (myLen <? maxBytes w) && negb (b &&& 128 =? 0)
        then up_v_loop fuel w checked (drop 1 s) retVal myLen (myShift + 7)
        else Ok (retVal, myLen)
  end.

Definition up_v (w : Z) (s : list Z) : result (Z * Z) :=
  up_v_loop (Z.to_nat (maxBytes w)) w (zlen s <? maxBytes w) s 0 0 0.

Definition up_v_signed (w : Z) (s : list Z) : result (Z * Z) :=
  '(tmp, len) ← up_v w s; mret (unzigzag w tmp, len).

Definition up_vu32 := up_v 32.
Definition up_vu64 := up_v 64.
Definition up_vs32 := up_v_signed 32.
Definition up_vs64 := up_v_signed 64.

(** Packed size. *)
Fixpoint psize_v_loop (fuel : nat) (s i : Z) : result Z :=
  match fuel with
  | O => Err OutOfFuel
  | S fuel =>
      let s := s >>> 7 in
      if s =? 0 then Ok (i + 1) else psize_v_loop fuel s (i + 1)
  end.

Definition psize_v (w s : Z) : result Z := psize_v_loop (Z.to_nat (maxBytes w)) s 0.
Definition psize_v_signed (w s : Z) : result Z := tmp ← zigzag w s; psize_v w tmp.
Definition psize_vu32 := psize_v 32.
Definition psize_vu64 := psize_v 64.
Definition psize_vs32 := psize_v_signed 32.
Definition psize_vs64 := psize_v_signed 64.

(** * Packed lengths and the canonical encoding *)

(** The number of 7-bit groups of [s], at least one. *)
Definition packed_len (s : Z) : Z := Z.log2 s / 7 + 1.

Fixpoint vbytes (n : nat) (s : Z) : list Z :=
  match n with
  | O => []
  | S O => [u8 s]
  | S n => u8 (s ||| 128) :: vbytes n (s >>> 7)
  end.

Lemma length_vbytes n s : length (vbytes n s) = n.
Proof. revert s. induction n as [|[|n] IH]; intros s; cbn; [done|done|]. by rewrite <- (IH (s >>> 7)). Qed.

Lemma packed_len_pos s : 1 <= packed_len s.
Proof. unfold packed_len. pose proof (Z.log2_nonneg s). pose proof (Z.div_pos (Z.log2 s) 7). lia. Qed.

Lemma packed_len_le s k : 0 <= s -> 0 < k -> packed_len s <= k <-> s < 2 ^ (7 * k).
Proof.
  intros Hs Hk. unfold packed_len. pose proof (Z.log2_nonneg s).
  destruct (decide (s = 0)) as [->|].
  { split; [intros; apply pow2_pos; lia|]. change (Z.log2 0 / 7) with 0. lia. }
  rewrite Z.log2_lt_pow2 by lia.
  pose proof (Z.div_mod (Z.log2 s) 7). pose proof (Z.mod_pos_bound (Z.log2 s) 7). lia.
Qed.

Lemma shiftr_eqb_0 s n : 0 <= s -> 0 <= n -> (s >>> n =? 0) = (s <? 2 ^ n).
Proof.
  intros Hs Hn. rewrite Z.shiftr_div_pow2 by done. pose proof (pow2_pos n Hn).
  destruct (Z.ltb_spec s (2 ^ n)); [by rewrite Z.div_small|].
  apply Z.eqb_neq. intros E. apply Z.div_small_iff in E; lia.
Qed.

Lemma compare_packed s k : 0 <= s -> 0 < k -> (s >>> (k * 7) =? 0) = (packed_len s <=? k).
Proof.
  intros Hs Hk. rewrite shiftr_eqb_0 by lia. pose proof (packed_len_le s k Hs Hk) as H.
  rewrite Z.mul_comm. destruct (Z.ltb_spec s (2 ^ (7 * k))), (Z.leb_spec (packed_len s) k); lia.
Qed.

Lemma packed_len_bound s w k : fits w s -> 0 < k -> w <= 7 * k -> packed_len s <= k.
Proof.
  intros Hf Hk Hw. apply packed_len_le; [unfold fits in Hf; lia|done|].
  apply (fits_mono w (7 * k)) in Hf; [|done]. unfold fits in Hf. lia.
Qed.

Lemma packed_len_shift s : 128 <= s -> packed_len s = packed_len (s >>> 7) + 1.
Proof.
  intros Hs. unfold packed_len. rewrite Z.log2_shiftr by lia.
  assert (7 <= Z.log2 s) by (apply Z.log2_le_pow2; lia).
  rewrite Z.max_r by lia. replace (Z.log2 s) with (Z.log2 s - 7 + 1 * 7) at 1 by lia.
  rewrite Z.div_add by lia. lia.
Qed.

(** What a bounds-respecting packer returns. *)
Definition p_v_spec (s avail : Z) : Z * list Z :=
  let n := packed_len s in
  if avail <? n then (- n, []) else (n, vbytes (Z.to_nat n) s).

Ltac vbytes_eq := repeat f_equal; rewrite ?Z.shiftr_shiftr, ?Z.shiftr_0_r by lia; reflexivity.

Lemma p_v_u32_eq s avail : fits 32 s -> p_v_u32 s avail = p_v_spec s avail.
Proof.
  intros Hf. pose proof (packed_len_bound s 32 5 Hf ltac:(lia) ltac:(lia)) as Hb.
  pose proof (packed_len_pos s). assert (0 <= s) by (unfold fits in Hf; lia).
  unfold p_v_u32, p_v_u32_fast, p_v_u32_slow, p_v_spec.
  rewrite !compare_packed by lia.
  assert (packed_len s = 1 \/ packed_len s = 2 \/ packed_len s = 3 \/
          packed_len s = 4 \/ packed_len s = 5) as Hn by lia.
  destruct (Z.leb_spec 5 avail);
    repeat destruct Hn as [Hn|Hn]; rewrite Hn; cbn [Z.leb Z.compare Pos.compare Pos.compare_cont];
    (case_match; [try lia|]; try done; try vbytes_eq).
Qed.

Lemma p_v_u64_eq s avail : fits 64 s -> p_v_u64 s avail = p_v_spec s avail.
Proof.
  intros Hf. pose proof (packed_len_bound s 64 10 Hf ltac:(lia) ltac:(lia)) as Hb.
  pose proof (packed_len_pos s). assert (0 <= s) by (unfold fits in Hf; lia).
  unfold p_v_u64, p_v_u64_fast, p_v_u64_slow, p_v_spec.
  change (s >>> 7 =? 0) with (s >>> (1 * 7) =? 0). rewrite !compare_packed by lia.
  assert (packed_len s = 1 \/ packed_len s = 2 \/ packed_len s = 3 \/
          packed_len s = 4 \/ packed_len s = 5 \/ packed_len s = 6 \/ packed_len s = 7 \/
          packed_len s = 8 \/ packed_len s = 9 \/ packed_len s = 10) as Hn by lia.
  destruct (Z.leb_spec 10 avail);
    repeat destruct Hn as [Hn|Hn]; rewrite Hn; cbn [Z.leb Z.compare Pos.compare Pos.compare_cont];
    (case_match; [try lia|]; try done; try vbytes_eq).
Qed.

(** ** The generic template *)

Lemma land_127 s : s &&& 127 = wrap 7 s.
Proof. change 127 with (Z.ones 7). by apply land_ones_wrap. Qed.

Lemma cont_byte s : u8 (s &&& 127) ||| 128 = u8 (s ||| 128).
Proof. rewrite land_127. change 128 with (2 ^ 7). bitwise. Qed.

Lemma last_byte s : s < 128 -> 0 <= s -> u8 (s &&& 127) = u8 s.
Proof. intros. rewrite land_127, (wrap_small 7); [done|]. unfold fits. lia. Qed.

Lemma vbytes_S n s : (0 < n)%nat -> vbytes (S n) s = u8 (s ||| 128) :: vbytes n (s >>> 7).
Proof. destruct n; [lia|done]. Qed.

(** The loop stores the canonical bytes; when the space ends before the number
    does it returns minus the number of bytes already stored. *)
Lemma p_v_loop_eq fuel checked s avail i out :
  0 <= s -> packed_len s <= Z.of_nat fuel -> (checked = true -> i <= avail) ->
  p_v_loop fuel checked s avail i out =
    let n := packed_len s in
    if checked && (avail <? i + n)
    then Ok (- avail, out ++ take (Z.to_nat (avail - i)) (vbytes (Z.to_nat n) s))
    else Ok (i + n, out ++ vbytes (Z.to_nat n) s).
Proof.
  revert s i out. induction fuel as [|fuel IH]; intros s i out Hs Hn Ha.
  { pose proof (packed_len_pos s). lia. }
  cbn [p_v_loop]. pose proof (packed_len_pos s) as Hp.
  destruct (checked && (avail <=? i)) eqn:Ec.
  { destruct checked; [|done]. specialize (Ha eq_refl). cbn [andb] in *.
    assert (avail = i) as -> by lia. replace (i <? _) with true by lia.
    rewrite Z.sub_diag. cbn. by rewrite app_nil_r. }
  rewrite shiftr_eqb_0 by lia. destruct (Z.ltb_spec s (2 ^ 7)) as [Hlt|Hge].
  - assert (packed_len s = 1) as Hl.
    { pose proof (proj2 (packed_len_le s 1 Hs ltac:(lia))). lia. }
    cbn zeta. rewrite Hl. rewrite last_byte by lia.
    replace (checked && (avail <? i + 1)) with false; [done|].
    destruct checked; cbn [andb] in *; lia.
  - pose proof (packed_len_shift s ltac:(lia)) as Hl.
    pose proof (packed_len_pos (s >>> 7)) as Hp'.
    rewrite cont_byte, IH; cycle 1.
    { rewrite Z.shiftr_nonneg. lia. } { lia. } { destruct checked; cbn [andb] in *; lia. }
    cbn zeta. rewrite Hl.
    replace (i + 1 + packed_len (s >>> 7)) with (i + (packed_len (s >>> 7) + 1)) by lia.
    replace (Z.to_nat (packed_len (s >>> 7) + 1)) with (S (Z.to_nat (packed_len (s >>> 7)))) by lia.
    rewrite vbytes_S by lia. rewrite <- !app_assoc.
    destruct checked; cbn [andb] in *; [|done].
    case_match; [|done].
    by replace (Z.to_nat (avail - i)) with (S (Z.to_nat (avail - (i + 1)))) by lia.
Qed.

Lemma p_v_generic_eq w s avail :
  (w = 32 \/ w = 64) -> fits w s -> 0 <= avail ->
  p_v_generic w s avail =
    let n := packed_len s in
    if avail <? n then Ok (- avail, take (Z.to_nat avail) (vbytes (Z.to_nat n) s))
    else Ok (n, vbytes (Z.to_nat n) s).
Proof.
  intros Hw Hf Ha. unfold p_v_generic.
  assert (w <= 7 * maxBytes w /\ 0 < maxBytes w) as [Hm Hm0] by (by destruct Hw; subst w).
  pose proof (packed_len_bound s w _ Hf Hm0 Hm) as Hb.
  rewrite p_v_loop_eq; [|unfold fits in Hf; lia|lia|lia].
  cbn zeta. rewrite Z.sub_0_r, Z.add_0_l. cbn [app].
  destruct (Z.ltb_spec avail (maxBytes w)); cbn [andb]; [done|].
  by replace (avail <? packed_len s) with false by lia.
Qed.

(** The unrolled 32- and 64-bit packers return, on every branch, the
    canonical 7-bit encoding of the value when it fits into the available
    bytes and otherwise minus the number of bytes needed without storing
    anything, and they agree with the generic loop of the template whenever
    the space suffices. *)
Theorem p_v_specializations s avail :
  0 <= avail ->
  (fits 32 s ->
     p_v_u32 s avail = p_v_spec s avail /\
     (packed_len s <= avail -> p_v_generic 32 s avail = Ok (p_v_u32 s avail))) /\
  (fits 64 s ->
     p_v_u64 s avail = p_v_spec s avail /\
     (packed_len s <= avail -> p_v_generic 64 s avail = Ok (p_v_u64 s avail))).
Proof.
  intros Ha. split; intros Hf.
  - rewrite p_v_u32_eq by done. split; [done|]. intros Hl.
    rewrite p_v_generic_eq by auto. unfold p_v_spec.
    by replace (avail <? packed_len s) with false by lia.
  - rewrite p_v_u64_eq by done. split; [done|]. intros Hl.
    rewrite p_v_generic_eq by auto. unfold p_v_spec.
    by replace (avail <? packed_len s) with false by lia.
Qed.

Lemma p_v_specializations_witness :
  p_v_u32 300 2 = p_v_spec 300 2 /\ p_v_generic 32 300 2 = Ok (p_v_u32 300 2).
Proof.
  destruct (p_v_specializations 300 2 ltac:(lia)) as [H _].
  destruct (H ltac:(unfold fits; lia)) as [H1 H2]. split; [exact H1|]. apply H2.
  vm_compute. discriminate.
Defined.

(** ** Unpacking *)

Lemma zlen_cons_leb_0 {A} (x : A) l : (zlen (x :: l) <=? 0) = false.
Proof. apply Z.leb_gt. cbn [length]. lia. Qed.

Lemma vget_cons_0 {A} (x : A) l : vget (x :: l) 0 = Ok x.
Proof. apply vget_ok. done. Qed.

Lemma up_step_bits w s shift :
  0 <= shift -> 7 + shift <= w -> fits (w - shift) s ->
  wrap w ((u8 (s ||| 128) &&& 127) <<< shift) ||| ((s >>> 7) <<< (shift + 7)) = s <<< shift.
Proof.
  intros Hs Hw Hf. change 127 with (Z.ones 7). change 128 with (2 ^ 7).
  bitwise.
Qed.

Lemma up_v_loop_ok fuel w checked s rest ret len shift n :
  0 <= shift -> fits (w - shift) s -> 0 <= w - shift -> n = packed_len s ->
  n <= Z.of_nat fuel -> len + n <= maxBytes w ->
  up_v_loop fuel w checked (vbytes (Z.to_nat n) s ++ rest) ret len shift =
    Ok (ret ||| (s <<< shift), len + n).
Proof.
  revert s ret len shift n.
  induction fuel as [|fuel IH]; intros s ret len shift n Hsh Hf Hw Hn Hfu Hl.
  { pose proof (packed_len_pos s). lia. }
  assert (0 <= s) as Hs0 by (unfold fits in Hf; lia).
  cbn [up_v_loop]. pose proof (packed_len_pos s) as Hp.
  destruct (decide (s < 128)) as [Hlt|Hge].
  - assert (n = 1) as ->.
    { pose proof (proj2 (packed_len_le s 1 Hs0 ltac:(lia))). lia. }
    change (vbytes (Z.to_nat 1) s) with [u8 s]. cbn [app].
    rewrite zlen_cons_leb_0, andb_false_r, vget_cons_0, bind_ok_l.
    assert (fits 7 s) as H7 by (unfold fits; lia).
    rewrite (wrap_small 8 s) by (apply (fits_mono 7); [lia|done]).
    replace (s &&& 128 =? 0) with true; cycle 1.
    { symmetry. apply Z.eqb_eq. change 128 with (2 ^ 7).
      bitwise. }
    rewrite andb_false_r. do 3 f_equal.
    rewrite land_127, (wrap_small 7) by done. apply wrap_small.
    unfold fits in *. rewrite Z.shiftl_mul_pow2 by done.
    replace w with (w - shift + shift) by lia. rewrite Z.pow_add_r by lia.
    pose proof (pow2_pos shift Hsh). nia.
  - pose proof (packed_len_shift s ltac:(lia)) as Hpl.
    pose proof (packed_len_pos (s >>> 7)) as Hp'.
    assert (7 < w - shift).
    { unfold fits in Hf. destruct (Z.ltb_spec 7 (w - shift)); [done|].
      pose proof (Z.pow_le_mono_r 2 (w - shift) 7). lia. }
    replace (Z.to_nat n) with (S (Z.to_nat (packed_len (s >>> 7)))) by lia.
    rewrite vbytes_S by lia. cbn [app].
    rewrite zlen_cons_leb_0, andb_false_r, vget_cons_0, bind_ok_l.
    replace (u8 (s ||| 128) &&& 128 =? 0) with false; cycle 1.
    { symmetry. apply Z.eqb_neq. intros E. apply (f_equal (fun z => Z.testbit z 7)) in E.
      change 128 with (2 ^ 7) in E. revert E. bits_step. done. }
    replace (len + 1 <? maxBytes w) with true by lia. cbn [andb negb skipn].
    rewrite drop_0, IH; [| lia | | lia | done | lia | lia].
    + f_equal. f_equal; [|lia]. rewrite <- Z.lor_assoc. f_equal.
      apply up_step_bits; [lia|lia|done].
    + apply (shiftr_fits (w - shift)); [lia|lia|lia|done].
Qed.

Definition vl_width (w : Z) : Prop := w = 32 \/ w = 64.

Lemma maxBytes_enough w s :
  vl_width w -> fits w s -> 0 < maxBytes w /\ packed_len s <= maxBytes w.
Proof.
  intros Hw Hf. assert (w <= 7 * maxBytes w /\ 0 < maxBytes w) as [? ?]
    by (by destruct Hw; subst w).
  split; [done|]. by apply (packed_len_bound s w).
Qed.

Lemma up_v_vbytes w s rest :
  vl_width w -> fits w s ->
  up_v w (vbytes (Z.to_nat (packed_len s)) s ++ rest) = Ok (s, packed_len s).
Proof.
  intros Hw Hf. destruct (maxBytes_enough w s Hw Hf).
  unfold up_v. rewrite up_v_loop_ok with (n := packed_len s); try lia.
  - f_equal.
  - rewrite Z.sub_0_r. done.
  - destruct Hw; lia.
Qed.

(** A number cut off after [k] bytes is reported as [-k]. *)
Lemma up_v_loop_cut fuel w s ret len shift n k :
  0 <= s -> n = packed_len s -> 0 <= k < n -> n <= Z.of_nat fuel -> len + n <= maxBytes w ->
  exists v, up_v_loop fuel w true (take (Z.to_nat k) (vbytes (Z.to_nat n) s)) ret len shift
            = Ok (v, - (len + k)).
Proof.
  revert s ret len shift n k.
  induction fuel as [|fuel IH]; intros s ret len shift n k Hs Hn Hk Hfu Hl; [lia|].
  pose proof (packed_len_pos (s >>> 7)) as Hp'.
  destruct (decide (k = 0)) as [->|Hk0].
  { exists ret. cbn. f_equal. f_equal. lia. }
  assert (128 <= s).
  { destruct (Z.leb_spec 128 s); [done|].
    pose proof (proj2 (packed_len_le s 1 Hs ltac:(lia))). lia. }
  pose proof (packed_len_shift s ltac:(lia)) as Hpl.
  replace (Z.to_nat n) with (S (Z.to_nat (packed_len (s >>> 7)))) by lia.
  rewrite vbytes_S by lia.
  replace (Z.to_nat k) with (S (Z.to_nat (k - 1))) by lia.
  cbn [take up_v_loop]. rewrite zlen_cons_leb_0. cbn [andb]. rewrite vget_cons_0, bind_ok_l.
  replace (u8 (s ||| 128) &&& 128 =? 0) with false; cycle 1.
  { symmetry. apply Z.eqb_neq. intros E. apply (f_equal (fun z => Z.testbit z 7)) in E.
    change 128 with (2 ^ 7) in E. revert E. bits_step. done. }
  replace (len + 1 <? maxBytes w) with true by lia. cbn [andb negb skipn]. rewrite drop_0.
  replace (- (len + k)) with (- (len + 1 + (k - 1))) by lia.
  apply IH; [rewrite Z.shiftr_nonneg; lia|lia|lia|lia|lia].
Qed.

Lemma psize_v_loop_eq fuel s i :
  0 <= s -> packed_len s <= Z.of_nat fuel -> psize_v_loop fuel s i = Ok (i + packed_len s).
Proof.
  revert s i. induction fuel as [|fuel IH]; intros s i Hs Hn; pose proof (packed_len_pos s); [lia|].
  cbn [psize_v_loop]. rewrite shiftr_eqb_0 by lia. destruct (Z.ltb_spec s (2 ^ 7)).
  - pose proof (proj2 (packed_len_le s 1 Hs ltac:(lia))). do 2 f_equal. lia.
  - pose proof (packed_len_shift s ltac:(lia)). rewrite IH; [f_equal; lia| |lia].
    rewrite Z.shiftr_nonneg. lia.
Qed.

Lemma psize_v_eq w s : vl_width w -> fits w s -> psize_v w s = Ok (packed_len s).
Proof.
  intros Hw Hf. destruct (maxBytes_enough w s Hw Hf). unfold psize_v.
  rewrite psize_v_loop_eq; [done|unfold fits in Hf; lia|lia].
Qed.

(** The packer of width [w]. *)
Definition p_v (w s avail : Z) : Z * list Z :=
  if w =? 32 then p_v_u32 s avail else p_v_u64 s avail.

Lemma p_v_eq w s avail : vl_width w -> fits w s -> p_v w s avail = p_v_spec s avail.
Proof. intros [->| ->] Hf; [by apply p_v_u32_eq|by apply p_v_u64_eq]. Qed.

(** Round trip of the unsigned packing, for 32 and 64 bits.  When the
    packed number fits into the [avail] bytes, the packer returns a length
    equal to [psize_v] and stores that many bytes, unpacking them (whatever
    follows) gives the number and the length back; unpacking any proper prefix
    reports the truncation by a non-positive length. *)
Theorem p_v_up_v_roundtrip w s avail rest :
  vl_width w -> fits w s -> packed_len s <= avail ->
  exists n bs,
    p_v w s avail = (n, bs) /\ psize_v w s = Ok n /\ zlen bs = n /\
    up_v w (bs ++ rest) = Ok (s, n) /\
    (forall k, 0 <= k < n -> exists v, up_v w (take (Z.to_nat k) bs) = Ok (v, - k)).
Proof.
  intros Hw Hf Ha. pose proof (packed_len_pos s).
  exists (packed_len s), (vbytes (Z.to_nat (packed_len s)) s).
  rewrite p_v_eq by done. unfold p_v_spec.
  replace (avail <? packed_len s) with false by lia.
  split; [done|]. split; [by apply psize_v_eq|]. rewrite length_vbytes.
  split; [lia|]. split; [by apply up_v_vbytes|]. intros k Hk.
  destruct (maxBytes_enough w s Hw Hf). unfold up_v.
  assert (zlen (take (Z.to_nat k) (vbytes (Z.to_nat (packed_len s)) s)) <? maxBytes w = true)
    as -> by (apply Z.ltb_lt; rewrite length_take, length_vbytes; lia).
  apply (up_v_loop_cut _ w s 0 0 0 (packed_len s) k); unfold fits in Hf; lia.
Qed.

Lemma p_v_up_v_roundtrip_witness :
  exists n bs, p_v 32 123456789 5 = (n, bs) /\ up_v 32 (bs ++ [1]) = Ok (123456789, n).
Proof.
  destruct (p_v_up_v_roundtrip 32 123456789 5 [1]) as (n & bs & H1 & _ & _ & H2 & _).
  - by left.
  - unfold fits. lia.
  - vm_compute. discriminate.
  - exists n, bs. split; [exact H1|exact H2].
Defined.

(** ** Signed numbers *)

Lemma zigzag_ok w s :
  1 < w -> sfits w s -> s <> - 2 ^ (w - 1) ->
  exists t, zigzag w s = Ok t /\ fits w t /\ unzigzag w t = s.
Proof.
  intros Hw Hs Hm. unfold sfits in Hs.
  assert (2 ^ w = 2 * 2 ^ (w - 1)) as Hp.
  { rewrite <- Z.pow_succ_r by lia. f_equal. lia. }
  assert (forall x, 0 <= x < 2 ^ (w - 1) -> wrap w (wrap w x <<< 1) = 2 * x) as Hd.
  { intros x Hx. rewrite (wrap_small w x) by (unfold fits; lia).
    rewrite Z.shiftl_mul_pow2 by lia. rewrite wrap_small; [lia|unfold fits; lia]. }
  unfold zigzag. destruct (Z.ltb_spec s 0).
  - unfold sneg. replace (s =? - 2 ^ (w - 1)) with false by lia. rewrite bind_ok_l, Hd by lia.
    assert (2 * - s ||| 1 = 2 * - s + 1) as ->.
    { rewrite Z.add_nocarry_lxor, Z.lxor_lor; [done|..];
        apply Z.bits_inj'; intros i Hi; rewrite Z.land_spec, Z.bits_0;
        (destruct (decide (i = 0)) as [->|]; [by rewrite Z.testbit_even_0|]);
        rewrite (Z.bits_above_log2 1) by (cbn; lia); apply andb_false_r. }
    eexists. split; [done|]. split; [unfold fits; lia|]. unfold unzigzag.
    rewrite Z.odd_add, Z.odd_mul. cbn [Z.odd xorb andb].
    rewrite Z.shiftr_div_pow2 by lia. change (2 ^ 1) with 2.
    replace ((2 * - s + 1) / 2) with (- s) by (apply (Z.div_unique _ _ _ 1); lia).
    rewrite swrap_small; [lia|lia|unfold sfits; lia].
  - rewrite Hd by lia. eexists. split; [done|]. split; [unfold fits; lia|]. unfold unzigzag.
    rewrite Z.odd_mul. cbn [Z.odd andb].
    rewrite Z.shiftr_div_pow2 by lia. change (2 ^ 1) with 2.
    rewrite Z.mul_comm, Z.div_mul by lia. apply swrap_small; [lia|unfold sfits; lia].
Qed.

(** Every signed 32- or 64-bit number except the smallest one survives
    packing and unpacking with exact lengths; negating the smallest one
    overflows before anything is stored. *)
Theorem signed_roundtrip s rest :
  (sfits 32 s ->
     (s = - 2 ^ 31 -> p_vs32 s 5 = Err UndefinedBehaviour) /\
     (s <> - 2 ^ 31 -> exists n bs, p_vs32 s 5 = Ok (n, bs) /\ psize_vs32 s = Ok n /\
        zlen bs = n /\ 1 <= n <= 5 /\ up_vs32 (bs ++ rest) = Ok (s, n))) /\
  (sfits 64 s ->
     (s = - 2 ^ 63 -> p_vs64 s 10 = Err UndefinedBehaviour) /\
     (s <> - 2 ^ 63 -> exists n bs, p_vs64 s 10 = Ok (n, bs) /\ psize_vs64 s = Ok n /\
        zlen bs = n /\ 1 <= n <= 10 /\ up_vs64 (bs ++ rest) = Ok (s, n))).
Proof.
  assert (forall w t, vl_width w -> fits w t ->
    exists bs, p_v w t (maxBytes w) = (packed_len t, bs) /\ psize_v w t = Ok (packed_len t) /\
      zlen bs = packed_len t /\ 1 <= packed_len t <= maxBytes w /\
      up_v w (bs ++ rest) = Ok (t, packed_len t)) as Hgo.
  { intros w t Hw Ht. destruct (maxBytes_enough w t Hw Ht). pose proof (packed_len_pos t).
    exists (vbytes (Z.to_nat (packed_len t)) t). rewrite p_v_eq by done. unfold p_v_spec.
    replace (maxBytes w <? packed_len t) with false by lia. rewrite length_vbytes.
    repeat split; try lia; [by apply psize_v_eq|by apply up_v_vbytes]. }
  split; intros Hs; (split; [intros ->; reflexivity|]); intros Hm.
  - destruct (zigzag_ok 32 s ltac:(lia) Hs Hm) as (t & Hz & Ht & Hu).
    destruct (Hgo 32 t (or_introl eq_refl) Ht) as (bs & Hp & Hps & Hl & Hr & Hup).
    exists (packed_len t), bs. unfold p_vs32, psize_vs32, psize_v_signed, up_vs32, up_v_signed.
    rewrite Hz, Hup, !bind_ok_l. change (p_v_u32 t 5) with (p_v 32 t (maxBytes 32)).
    rewrite Hp, Hu. done.
  - destruct (zigzag_ok 64 s ltac:(lia) Hs Hm) as (t & Hz & Ht & Hu).
    destruct (Hgo 64 t (or_intror eq_refl) Ht) as (bs & Hp & Hps & Hl & Hr & Hup).
    exists (packed_len t), bs. unfold p_vs64, psize_vs64, psize_v_signed, up_vs64, up_v_signed.
    rewrite Hz, Hup, !bind_ok_l. change (p_v_u64 t 10) with (p_v 64 t (maxBytes 64)).
    rewrite Hp, Hu. done.
Qed.

Lemma signed_roundtrip_witness :
  exists n bs, p_vs32 (-300) 5 = Ok (n, bs) /\ up_vs32 (bs ++ [7]) = Ok (-300, n).
Proof.
  destruct (signed_roundtrip (-300) [7]) as [H _].
  destruct (H ltac:(unfold sfits; lia)) as [_ H'].
  destruct (H' ltac:(lia)) as (n & bs & H1 & _ & _ & _ & H2).
  exists n, bs. split; [exact H1|exact H2].
Defined.

(** ** Fixed width *)

Lemma length_le_bytes n v : length (le_bytes n v) = n.
Proof. revert v. induction n as [|n IH]; intros v; cbn; [done|]. by rewrite IH. Qed.

Lemma le_bytes_ok n v : bytes_ok (le_bytes n v).
Proof.
  revert v. induction n as [|n IH]; intros v; cbn; constructor; [|apply IH].
  apply wrap_fits. lia.
Qed.

Lemma take_le_bytes n m v : (n <= m)%nat -> take n (le_bytes m v) = le_bytes n v.
Proof.
  revert m v. induction n as [|n IH]; intros [|m] v H; cbn; [done..|lia|].
  by rewrite IH by lia.
Qed.

Lemma le_val_le_bytes n v : le_val (le_bytes n v) = wrap (8 * Z.of_nat n) v.
Proof.
  revert v. induction n as [|n IH]; intros v; cbn [le_val le_bytes].
  { unfold wrap. by rewrite Z.mod_1_r. }
  rewrite IH. replace (8 * Z.of_nat (S n)) with (8 * Z.of_nat n + 8) by lia. bitwise.
Qed.

Lemma le_bytes_le_val bs : bytes_ok bs -> le_bytes (length bs) (le_val bs) = bs.
Proof.
  induction 1 as [|b bs Hb Hbs IH]; cbn [le_val le_bytes length]; [done|]. f_equal.
  - bitwise.
  - etrans; [|exact IH]. f_equal. bitwise.
Qed.

Lemma le_val_fits bs : bytes_ok bs -> fits (8 * zlen bs) (le_val bs).
Proof.
  intros H. rewrite <- (le_bytes_le_val bs H) at 2. rewrite le_val_le_bytes.
  apply wrap_fits. lia.
Qed.

Lemma up_le_app n bs rest : zlen bs = n -> up_le n (bs ++ rest) = Ok (le_val bs).
Proof.
  intros <-. unfold up_le.
  assert (vread (bs ++ rest) 0 (zlen bs) = Ok bs) as ->; [|done].
  apply vread_ok. rewrite length_app. repeat split; try lia.
  rewrite Nat2Z.id. cbn. by rewrite drop_0, take_app_length.
Qed.

Lemma up_le_le_bytes n v rest :
  up_le (Z.of_nat n) (le_bytes n v ++ rest) = Ok (wrap (8 * Z.of_nat n) v).
Proof. rewrite up_le_app by (by rewrite length_le_bytes). by rewrite le_val_le_bytes. Qed.

Lemma swrap_wrap_eq w x : swrap w (wrap w x) = swrap w x.
Proof. unfold wrap, swrap. by rewrite Zplus_mod_idemp_l. Qed.

(** Sign in bit 0, magnitude above, in [w] bits stored out of a [v]-bit word. *)
Lemma sign_magnitude_ok v w s :
  1 < w <= v -> - 2 ^ (w - 1) < s < 2 ^ (w - 1) ->
  exists t, zigzag v s = Ok t /\ wrap w t = t /\
    (if Z.odd t then swrap v (wrap v (- (t >>> 1))) else swrap v (t >>> 1)) = s.
Proof.
  intros Hw Hs.
  assert (2 ^ (w - 1) <= 2 ^ (v - 1)) by (apply Z.pow_le_mono_r; lia).
  assert (2 ^ v = 2 * 2 ^ (v - 1)) as Hpv.
  { rewrite <- Z.pow_succ_r by lia. f_equal. lia. }
  assert (2 ^ w = 2 * 2 ^ (w - 1)) as Hpw.
  { rewrite <- Z.pow_succ_r by lia. f_equal. lia. }
  destruct (zigzag_ok v s ltac:(lia)) as (t & Hz & Ht & Hu); [unfold sfits; lia|lia|].
  exists t. split; [done|]. unfold unzigzag in Hu. unfold fits in Ht.
  assert (t >>> 1 = t / 2) as Hsh by (by rewrite Z.shiftr_div_pow2).
  pose proof (Z.div_mod t 2 ltac:(lia)) as Hdm. rewrite Zmod_odd in Hdm.
  assert (0 <= t / 2 < 2 ^ (v - 1)) as Hr
    by (split; [apply Z.div_pos; lia|apply Z.div_lt_upper_bound; lia]).
  rewrite swrap_small in Hu by (unfold sfits; lia).
  destruct (Z.odd t).
  - split; [apply wrap_small; unfold fits; lia|].
    rewrite swrap_wrap_eq, swrap_small; [lia|lia|unfold sfits; lia].
  - split; [apply wrap_small; unfold fits; lia|].
    rewrite swrap_small; [lia|lia|unfold sfits; lia].
Qed.

Lemma swrap_wrap w x : 0 < w -> sfits w x -> swrap w (wrap w x) = x.
Proof. intros Hw Hx. rewrite swrap_wrap_eq. by apply swrap_small. Qed.

(** The fixed-width packers store the number in little-endian order and
    unpacking returns it, reduced to the stored width: 16, 24, 32, 40 and 64
    bits unsigned, 16, 32 and 64 bits two's complement, and 24 and 40 bits
    with the sign in bit 0, whose range is symmetric. *)
Theorem fixed_width_roundtrip v s rest :
  up_u16 (p_u16 v ++ rest) = Ok (wrap 16 v) /\
  up_u24 (p_u24 v ++ rest) = Ok (wrap 24 v) /\
  up_u32 (p_u32 v ++ rest) = Ok (wrap 32 v) /\
  up_u40 (p_u40 v ++ rest) = Ok (wrap 40 v) /\
  up_u64 (p_u64 v ++ rest) = Ok (wrap 64 v) /\
  (sfits 16 s -> up_s16 (p_s16 s ++ rest) = Ok s) /\
  (sfits 32 s -> up_s32 (p_s32 s ++ rest) = Ok s) /\
  (sfits 64 s -> up_s64 (p_s64 s ++ rest) = Ok s) /\
  (- 2 ^ 23 < s < 2 ^ 23 -> exists bs, p_s24 s = Ok bs /\ up_s24 (bs ++ rest) = Ok s) /\
  (- 2 ^ 39 < s < 2 ^ 39 -> exists bs, p_s40 s = Ok bs /\ up_s40 (bs ++ rest) = Ok s).
Proof.
  assert (forall n m x, (n <= m)%nat ->
    up_le (Z.of_nat n) (take n (le_bytes m x) ++ rest) = Ok (wrap (8 * Z.of_nat n) x)) as Htake.
  { intros n m x Hn. rewrite take_le_bytes by done. apply up_le_le_bytes. }
  split; [exact (up_le_le_bytes 2 v rest)|]. split; [exact (Htake 3%nat 4%nat v ltac:(lia))|].
  split; [exact (up_le_le_bytes 4 v rest)|]. split; [exact (Htake 5%nat 8%nat v ltac:(lia))|].
  split; [exact (up_le_le_bytes 8 v rest)|].
  assert (forall w n x, 0 < w -> w = 8 * Z.of_nat n -> sfits w x ->
    (y ← up_le (Z.of_nat n) (le_bytes n (wrap w x) ++ rest); mret (swrap w y)) = Ok x) as Hs.
  { intros w n x Hw -> Hx. rewrite up_le_le_bytes, bind_ok_l, wrap_wrap.
    unfold mret, result_ret. by rewrite swrap_wrap. }
  split; [intros; by apply (Hs 16 2%nat)|]. split; [intros; by apply (Hs 32 4%nat)|].
  split; [intros; by apply (Hs 64 8%nat)|].
  split; intros Hb.
  - destruct (sign_magnitude_ok 32 24 s ltac:(lia) Hb) as (t & Hz & Ht & Hu).
    assert (up_u24 (p_u24 t ++ rest) = Ok (wrap 24 t)) as He
      by exact (Htake 3%nat 4%nat t ltac:(lia)). rewrite Ht in He.
    exists (p_u24 t). unfold p_s24, up_s24. revert Hz. unfold zigzag.
    destruct (s <? 0); [destruct (sneg 32 s); [|done]|]; cbn [mbind result_bind];
      intros [= ->]; (split; [done|]);
      rewrite He, bind_ok_l; unfold mret, result_ret; destruct (Z.odd t); by rewrite Hu.
  - destruct (sign_magnitude_ok 64 40 s ltac:(lia) Hb) as (t & Hz & Ht & Hu).
    assert (up_u40 (p_u40 t ++ rest) = Ok (wrap 40 t)) as He
      by exact (Htake 5%nat 8%nat t ltac:(lia)). rewrite Ht in He.
    exists (p_u40 t). unfold p_s40, up_s40. revert Hz. unfold zigzag.
    destruct (s <? 0); [destruct (sneg 64 s); [|done]|]; cbn [mbind result_bind];
      intros [= ->]; (split; [done|]);
      rewrite He, bind_ok_l; unfold mret, result_ret; destruct (Z.odd t); by rewrite Hu.
Qed.

Lemma fixed_width_roundtrip_witness :
  exists bs, p_s24 (-70000) = Ok bs /\ up_s24 (bs ++ [1; 2]) = Ok (-70000).
Proof.
  destruct (fixed_width_roundtrip 5 (-70000) [1; 2]) as (_&_&_&_&_&_&_&_&H&_).
  apply H. lia.
Defined.
