(* ===== verification/Storage.v ===== *)
(** Storage backends of the byte-array adapter:
    [src/storage/UByteArrayAdapterPrivates/].

    [Backend] is the interface [UByteArrayAdapterPrivate] of the adapter;
    [BackendOk] states what the adapter may rely on.  Two implementations are
    modelled: [Vec], the contiguous backend over a [std::vector]
    ([UByteArrayAdapterPrivateVector] with the accessors it inherits from
    [UByteArrayAdapterPrivateArray]), and [Cont], the element-wise backend over
    a non-contiguous container ([UByteArrayAdapterPrivateContainer]). *)

From S2P Require Import Prelude PackUnpack.

(** The fixed-width integers of the interface, one constructor per
    [getX]/[putX] pair, and the variable-length ones. *)
Inductive scalar :=
  Uint8 | Uint16 | Uint24 | Uint32 | Uint64 | Int32 | Int64 | Offset | NegativeOffset.
Inductive vlscalar := VlUint32 | VlUint64 | VlInt32 | VlInt64.

#[global] Instance scalar_eq_dec : EqDecision scalar.
Proof. solve_decision. Defined.
#[global] Instance vlscalar_eq_dec : EqDecision vlscalar.
Proof. solve_decision. Defined.

(** Bytes a value occupies ([SerializationInfo<T>::length]). *)
Definition scalar_len (t : scalar) : Z :=
  match t with
  | Uint8 => 1 | Uint16 => 2 | Uint24 => 3 | Uint32 => 4 | Uint64 => 8
  | Int32 => 4 | Int64 => 8 | Offset => 5 | NegativeOffset => 5
  end.

Definition vl_max_len (t : vlscalar) : Z :=
  match t with VlUint32 | VlInt32 => 5 | VlUint64 | VlInt64 => 10 end.

(** The packing function behind each type. *)
Definition scalar_pack (t : scalar) (v : Z) : result (list Z) :=
  match t with
  | Uint8 => Ok (p_u8 v) | Uint16 => Ok (p_u16 v) | Uint24 => Ok (p_u24 v)
  | Uint32 => Ok (p_u32 v) | Uint64 => Ok (p_u64 v)
  | Int32 => Ok (p_s32 v) | Int64 => Ok (p_s64 v)
  | Offset => Ok (p_u40 v) | NegativeOffset => p_s40 v
  end.

Definition scalar_unpack (t : scalar) (src : list Z) : result Z :=
  match t with
  | Uint8 => up_u8 src | Uint16 => up_u16 src | Uint24 => up_u24 src
  | Uint32 => up_u32 src | Uint64 => up_u64 src
  | Int32 => up_s32 src | Int64 => up_s64 src
  | Offset => up_u40 src | NegativeOffset => up_s40 src
  end.

Definition vl_pack (t : vlscalar) (v avail : Z) : result (Z * list Z) :=
  match t with
  | VlUint32 => let '(r, bs) := p_vu32 v avail in Ok (s32 r, bs)
  | VlUint64 => Ok (p_vu64 v avail)
  | VlInt32 => p_vs32 v avail
  | VlInt64 => p_vs64 v avail
  end.

Definition vl_unpack (t : vlscalar) (src : list Z) : result (Z * Z) :=
  match t with
  | VlUint32 => up_vu32 src | VlUint64 => up_vu64 src
  | VlInt32 => up_vs32 src | VlInt64 => up_vs64 src
  end.

(** The four-byte padded packers (only for 32-bit numbers). *)
Definition pad4_pack (signed : bool) (v : Z) : result (Z * list Z) :=
  if signed then p_vs32pad4 v else Ok (p_vu32pad4 v).

(** * The interface *)

Class Backend (S : Type) := {
  bk_size : S -> result Z;
  bk_isContiguous : bool;
  bk_shrinkStorage : S -> Z -> S * bool;
  bk_growStorage : S -> Z -> S * bool;
  bk_getUint8 : S -> Z -> result Z;
  bk_get : scalar -> S -> Z -> result Z;
  (** [length] bytes may be read; the second result is the [int] returned through it *)
  bk_getVl : vlscalar -> S -> Z -> Z -> result (Z * Z);
  bk_getData : S -> Z -> Z -> result (list Z);
  bk_put : scalar -> S -> Z -> Z -> result S;
  bk_putVl : vlscalar -> S -> Z -> Z -> Z -> result (S * Z);
  bk_putPad4 : bool -> S -> Z -> Z -> Z -> result (S * Z);
  bk_putData : S -> Z -> list Z -> result S;
}.

(** * The vector backend *)

Module Vec.
Record t := mk { data : list Z }.

#[global] Instance t_eq_dec : EqDecision t.
Proof. solve_decision. Defined.

Definition size (s : t) : result Z := Ok (zlen (data s)).

(** The argument is subtracted from the size of the vector. *)
Definition shrinkStorage (s : t) (size : Z) : t * bool :=
  let size := if zlen (data s) <? size then zlen (data s) else size in
  (mk (vresize (data s) (zlen (data s) - size) 0), true).

Definition growStorage (s : t) (size : Z) : t * bool :=
  if zlen (data s) <? size then (mk (vresize (data s) size 0), true) else (s, true).

(** [m_data + pos]: the bytes from [pos] on. *)
Definition ptr (s : t) (pos : Z) : result (list Z) :=
  vread (data s) pos (zlen (data s) - pos).

Definition getUint8 (s : t) (pos : Z) : result Z := vget (data s) pos.

Definition get (ty : scalar) (s : t) (pos : Z) : result Z :=
  p ← ptr s pos;
  match ty with
  | Int64 => up_s64 p | Uint64 => up_u64 p | Int32 => up_s32 p | Uint32 => up_u32 p
  | Uint24 => up_u24 p | Uint16 => up_u16 p | Uint8 => vget p 0
  | NegativeOffset => up_s40 p | Offset => up_u40 p
  end.

(** [up_v( data()+pos, data()+pos+*length, length)] *)
Definition getVl (ty : vlscalar) (s : t) (pos length : Z) : result (Z * Z) :=
  p ← vread (data s) pos length;
  match ty with
  | VlUint64 => up_vu64 p | VlInt64 => up_vs64 p | VlUint32 => up_vu32 p | VlInt32 => up_vs32 p
  end.

Definition getData (s : t) (pos len : Z) : result (list Z) := vread (data s) pos len.

Definition store (s : t) (pos : Z) (bs : list Z) : result t :=
  d ← vwrite (data s) pos bs; mret (mk d).

Definition put (ty : scalar) (s : t) (pos value : Z) : result t :=
  match ty with
  | Uint64 => store s pos (p_u64 value)
  | Int64 => store s pos (p_s64 value)
  | Int32 => store s pos (p_s32 value)
  | Uint32 => store s pos (p_u32 value)
  | Uint24 => store s pos (p_u24 value)
  | Uint16 => store s pos (p_u16 value)
  | Uint8 => store s pos (p_u8 value)
  | Offset => store s pos (p_u40 value)
  | NegativeOffset => bs ← p_s40 value; store s pos bs
  end.

Definition putVl (ty : vlscalar) (s : t) (pos value maxLen : Z) : result (t * Z) :=
  '(len, bs) ←
    match ty with
    | VlUint64 => Ok (p_vu64 value maxLen)
    | VlInt64 => p_vs64 value maxLen
    | VlUint32 => let '(r, bs) := p_vu32 value maxLen in Ok (s32 r, bs)
    | VlInt32 => p_vs32 value maxLen
    end;
  s ← store s pos bs; mret (s, len).

Definition putPad4 (signed : bool) (s : t) (pos value maxLen : Z) : result (t * Z) :=
  '(len, bs) ← (if signed then p_vs32pad4 value else Ok (p_vu32pad4 value));
  s ← store s pos bs; mret (s, len).

Definition putData (s : t) (pos : Z) (src : list Z) : result t := store s pos src.
End Vec.

#[global] Instance Vec_backend : Backend Vec.t := {
  bk_size := Vec.size;
  bk_isContiguous := true;
  bk_shrinkStorage := Vec.shrinkStorage;
  bk_growStorage := Vec.growStorage;
  bk_getUint8 := Vec.getUint8;
  bk_get := Vec.get;
  bk_getVl := Vec.getVl;
  bk_getData := Vec.getData;
  bk_put := Vec.put;
  bk_putVl := Vec.putVl;
  bk_putPad4 := Vec.putPad4;
  bk_putData := Vec.putData;
}.

(** * The container backend *)

Module Cont.
Record t := mk { data : list Z }.

#[global] Instance t_eq_dec : EqDecision t.
Proof. solve_decision. Defined.

Definition size (s : t) : result Z := Ok (zlen (data s)).

Definition shrinkStorage (s : t) (size : Z) : t * bool :=
  let size := if zlen (data s) <? size then zlen (data s) else size in
  (mk (vresize (data s) (zlen (data s) - size) 0), true).

Definition growStorage (s : t) (size : Z) : t * bool :=
  if zlen (data s) <? size then (mk (vresize (data s) size 0), true) else (s, true).

Definition getUint8 (s : t) (pos : Z) : result Z := vget (data s) pos.

(** The accessors copy the n bytes from [pos] on into a local array. *)
Definition get (ty : scalar) (s : t) (pos : Z) : result Z :=
  match ty with
  | Int64 => tmp ← vread (data s) pos 8; up_s64 tmp
  | Uint64 => tmp ← vread (data s) pos 8; up_u64 tmp
  | Int32 => tmp ← vread (data s) pos 4; up_s32 tmp
  | Uint32 => tmp ← vread (data s) pos 4; up_u32 tmp
  | Uint24 => tmp ← vread (data s) pos 3; up_u24 tmp
  | Uint16 => tmp ← vread (data s) pos 2; up_u16 tmp
  | Uint8 => vget (data s) pos
  | NegativeOffset => tmp ← vread (data s) pos 5; up_s40 tmp
  | Offset => tmp ← vread (data s) pos 5; up_u40 tmp
  end.

Definition getVl (ty : vlscalar) (s : t) (pos length : Z) : result (Z * Z) :=
  match ty with
  | VlUint64 => buf ← vread (data s) pos (Z.min 10 length); up_vu64 buf
  | VlInt64 => buf ← vread (data s) pos (Z.min 10 length); up_vs64 buf
  | VlUint32 => buf ← vread (data s) pos (if 5 <? length then 5 else length); up_vu32 buf
  | VlInt32 => buf ← vread (data s) pos (if 5 <? length then 5 else length); up_vs32 buf
  end.

Definition getData (s : t) (pos len : Z) : result (list Z) := vread (data s) pos len.

(** The loop that copies a local buffer to [pos]. *)
Definition store (s : t) (pos : Z) (buf : list Z) : result t :=
  d ← vwrite (data s) pos buf; mret (mk d).

Definition put (ty : scalar) (s : t) (pos value : Z) : result t :=
  match ty with
  | Int64 => store s pos (p_s64 value)
  | Uint64 => store s pos (p_u64 value)
  | Int32 => store s pos (p_s32 value)
  | Uint32 => store s pos (p_u32 value)
  | Uint24 => store s pos (p_u24 value)
  | Uint16 => store s pos (p_u16 value)
  | Uint8 => store s pos (p_u8 value)
  | Offset => store s pos (p_u40 value)
  | NegativeOffset => buf ← p_s40 value; store s pos buf
  end.

(** Packs into a local buffer that is always large enough: [maxLen] is ignored. *)
Definition putVl (ty : vlscalar) (s : t) (pos value maxLen : Z) : result (t * Z) :=
  '(len, buf) ←
    match ty with
    | VlUint64 => Ok (p_vu64 value 10)
    | VlInt64 => p_vs64 value 10
    | VlUint32 => let '(r, bs) := p_vu32 value 5 in Ok (s32 r, bs)
    | VlInt32 => p_vs32 value 5
    end;
  if 0 <? len then s ← store s pos buf; mret (s, len) else mret (s, len).

Definition putPad4 (signed : bool) (s : t) (pos value maxLen : Z) : result (t * Z) :=
  '(len, buf) ← (if signed then p_vs32pad4 value else Ok (p_vu32pad4 value));
  if 0 <? len then s ← store s pos buf; mret (s, len) else mret (s, len).

Definition putData (s : t) (pos : Z) (src : list Z) : result t := store s pos src.
End Cont.

#[global] Instance Cont_backend : Backend Cont.t := {
  bk_size := Cont.size;
  bk_isContiguous := false;
  bk_shrinkStorage := Cont.shrinkStorage;
  bk_growStorage := Cont.growStorage;
  bk_getUint8 := Cont.getUint8;
  bk_get := Cont.get;
  bk_getVl := Cont.getVl;
  bk_getData := Cont.getData;
  bk_put := Cont.put;
  bk_putVl := Cont.putVl;
  bk_putPad4 := Cont.putPad4;
  bk_putData := Cont.putData;
}.

(** * The laws of a backend *)

Class BackendOk (S : Type) {B : Backend S} := {
  bk_data : S -> list Z;
  bk_size_ok s : bk_size s = Ok (zlen (bk_data s));
  bk_getUint8_ok s pos : bk_getUint8 s pos = vget (bk_data s) pos;
  bk_get_ok ty s pos :
    bk_get ty s pos = (bs ← vread (bk_data s) pos (scalar_len ty); scalar_unpack ty bs);
  bk_getVl_ok ty s pos len :
    0 <= len <= vl_max_len ty ->
    bk_getVl ty s pos len = (bs ← vread (bk_data s) pos len; vl_unpack ty bs);
  bk_getData_ok s pos len : bk_getData s pos len = vread (bk_data s) pos len;
  bk_put_ok ty s pos v :
    bk_data <$> bk_put ty s pos v = (bs ← scalar_pack ty v; vwrite (bk_data s) pos bs);
  bk_putPad4_ok sg s pos v maxLen :
    prod_map bk_data id <$> bk_putPad4 sg s pos v maxLen =
      ('(len, bs) ← pad4_pack sg v; d ← vwrite (bk_data s) pos bs; mret (d, len));
  bk_putData_ok s pos src : bk_data <$> bk_putData s pos src = vwrite (bk_data s) pos src;
  (** the variable-length writer, when the number fits into the space given *)
  bk_putVl_ok ty s pos v maxLen len bs :
    0 <= pos -> vl_pack ty v maxLen = Ok (len, bs) -> 0 < len ->
    prod_map bk_data id <$> bk_putVl ty s pos v maxLen =
      (d ← vwrite (bk_data s) pos bs; mret (d, len));
  (** growing keeps the contents and reaches at least the size asked for *)
  bk_grow_ok s n s' b :
    0 <= n -> bk_growStorage s n = (s', b) ->
    b = true /\ bk_data s' = vresize (bk_data s) (Z.max n (zlen (bk_data s))) 0;
}.

Lemma vresize_same {A} (l : list A) x : vresize l (zlen l) x = l.
Proof.
  unfold vresize. rewrite Nat2Z.id, firstn_all, Nat.sub_diag. cbn. apply app_nil_r.
Qed.

Lemma vread_all {A} (l : list A) n :
  n = zlen l -> vread l 0 n = Ok l.
Proof.
  intros ->. apply vread_ok. cbn [Z.to_nat]. rewrite drop_0, Nat2Z.id, firstn_all.
  repeat split; lia.
Qed.

(** The bytes from [pos] on contain those of any block at [pos]. *)
Lemma vread_suffix {A} (l : list A) pos n :
  0 <= n -> vread l pos n = (p ← vread l pos (zlen l - pos); vread p 0 n).
Proof.
  intros Hn. destruct (vread l pos n) as [bs|e] eqn:E.
  - apply vread_ok in E as (Hp & _ & Hl & ->).
    assert (vread l pos (zlen l - pos) = Ok (drop (Z.to_nat pos) l)) as ->.
    { apply vread_ok. repeat split; try lia. symmetry. apply take_ge. rewrite length_drop. lia. }
    rewrite bind_ok_l. symmetry. apply vread_ok. rewrite length_drop. cbn [Z.to_nat].
    rewrite drop_0. repeat split; lia.
  - destruct (vread l pos (zlen l - pos)) as [p|e'] eqn:E'; cbn [mbind result_bind].
    + apply vread_ok in E' as (Hp & Hq & _ & ->).
      destruct (vread _ 0 n) as [bs|e'] eqn:E'.
      * apply vread_ok in E' as (_ & _ & Hl & _). rewrite length_take, length_drop in Hl.
        unfold vread in E. assert (in_range l pos n = true) as Hr
          by (apply in_range_spec; lia). by rewrite Hr in E.
      * unfold vread in E, E'. by do 2 case_match; simplify_eq.
    + unfold vread in E, E'. by do 2 case_match; simplify_eq.
Qed.

(** [f] looks at the first [n] bytes only. *)
Definition reads_prefix (n : Z) (f : list Z -> result Z) : Prop :=
  forall p, f p = (bs ← vread p 0 n; f bs).

Lemma reads_prefix_suffix n f l pos :
  0 <= n -> reads_prefix n f ->
  (p ← vread l pos (zlen l - pos); f p) = (bs ← vread l pos n; f bs).
Proof.
  intros Hn Hf. rewrite (vread_suffix l pos n Hn).
  destruct (vread l pos (zlen l - pos)); cbn [mbind result_bind]; [apply Hf|done].
Qed.

Lemma up_le_prefix n : 0 <= n -> reads_prefix n (up_le n).
Proof.
  intros Hn p. unfold up_le. destruct (vread p 0 n) as [bs|] eqn:E; [|done]. rewrite !bind_ok_l.
  rewrite vread_all; [done|]. apply vread_ok in E as (_ & _ & Hl & ->).
  rewrite length_take, length_drop. lia.
Qed.

Lemma bind_prefix n f g :
  reads_prefix n f -> reads_prefix n (fun p => v ← f p; g v).
Proof. intros Hf p. rewrite Hf. by destruct (vread p 0 n). Qed.

Lemma up_u8_prefix : reads_prefix 1 up_u8.
Proof.
  intros p. unfold up_u8. destruct p as [|b p]; [done|].
  assert (vread (b :: p) 0 1 = Ok [b]) as ->; [|by rewrite bind_ok_l, !vget_cons_0].
  apply vread_ok. cbn [length]. repeat split; lia.
Qed.

Lemma scalar_unpack_prefix ty : reads_prefix (scalar_len ty) (scalar_unpack ty).
Proof.
  destruct ty; cbn [scalar_len scalar_unpack]; [apply up_u8_prefix|..];
    first [apply up_le_prefix; lia
          |refine (bind_prefix _ _ _ _); apply up_le_prefix; lia].
Qed.

Lemma vget_vread {A} (l : list A) pos : vget l pos = (p ← vread l pos (zlen l - pos); vget p 0).
Proof.
  destruct (vget l pos) as [x|] eqn:E.
  - apply vget_ok in E as [Hp Hx]. pose proof (lookup_lt_Some _ _ _ Hx).
    assert (vread l pos (zlen l - pos) = Ok (drop (Z.to_nat pos) l)) as ->.
    { apply vread_ok. repeat split; try lia. symmetry. apply take_ge. rewrite length_drop. lia. }
    rewrite bind_ok_l. symmetry. apply vget_ok. split; [done|]. cbn [Z.to_nat].
    by rewrite lookup_drop, Nat.add_0_r.
  - destruct (vread l pos (zlen l - pos)) as [p|] eqn:E'; cbn [mbind result_bind].
    + apply vread_ok in E' as (Hp & Hq & _ & ->).
      destruct (vget _ 0) as [x|] eqn:E''.
      * apply vget_ok in E'' as [_ Hx]. apply lookup_lt_Some in Hx. cbn [Z.to_nat] in Hx.
        rewrite length_take, length_drop in Hx.
        destruct (vget_lt l pos) as (y & Hy & _); [lia|]. congruence.
      * unfold vget in E, E''. by repeat case_match; simplify_eq.
    + unfold vget, vread in E, E'. by repeat case_match; simplify_eq.
Qed.

Lemma fmap_store {S} (mk : list Z -> S) (data : S -> list Z) l pos bs :
  (forall d, data (mk d) = d) ->
  data <$> (d ← vwrite l pos bs; mret (mk d)) = vwrite l pos bs.
Proof. intros H. destruct (vwrite l pos bs); cbn; by rewrite ?H. Qed.

(** * The implementations satisfy the laws *)

#[global] Program Instance Vec_ok : BackendOk Vec.t := {| bk_data := Vec.data |}.
Next Obligation. reflexivity. Qed.
Next Obligation. reflexivity. Qed.
Next Obligation.
  intros ty [l] pos. cbn [bk_get Vec_backend]. unfold Vec.get, Vec.ptr. cbn [Vec.data].
  pose proof (reads_prefix_suffix (scalar_len ty) (scalar_unpack ty) l pos) as H.
  rewrite <- H; [|by destruct ty|apply scalar_unpack_prefix].
  destruct (vread l pos (zlen l - pos)); cbn [mbind result_bind]; [|done]. by destruct ty.
Qed.
Next Obligation. intros ty [l] pos len Hl. by destruct ty. Qed.
Next Obligation. reflexivity. Qed.
Next Obligation.
  intros ty [l] pos v. cbn [bk_put Vec_backend].
  destruct ty; cbn [Vec.put scalar_pack Vec.data]; rewrite ?bind_ok_l;
    try by apply fmap_store.
  destruct (p_s40 v); cbn [mbind result_bind]; [|done]. by apply fmap_store.
Qed.
Next Obligation.
  intros sg [l] pos v maxLen. cbn [bk_putPad4 Vec_backend]. unfold Vec.putPad4, pad4_pack.
  destruct (if sg then _ else _) as [[n bs]|]; cbn [mbind result_bind]; [|done].
  unfold Vec.store. cbn [Vec.data]. by destruct (vwrite l pos bs).
Qed.
Next Obligation. intros [l] pos src. by apply fmap_store. Qed.
Next Obligation.
  intros ty [l] pos v maxLen len bs Hp Hpk Hl. cbn [bk_putVl Vec_backend]. unfold Vec.putVl.
  unfold vl_pack in Hpk. destruct ty; rewrite Hpk, bind_ok_l;
    unfold Vec.store; cbn [Vec.data]; by destruct (vwrite l pos bs).
Qed.
Next Obligation.
  intros [l] n s' b Hn. cbn [bk_growStorage Vec_backend]. unfold Vec.growStorage.
  cbn [Vec.data]. destruct (Z.ltb_spec (zlen l) n); intros [= <- <-]; split; try done; cbn [Vec.data].
  - by rewrite Z.max_l by lia.
  - rewrite Z.max_r by lia. by rewrite vresize_same.
Qed.

(** A packer that reports success stores the same bytes whatever the space. *)
Lemma p_v_u32_enough s avail len bs :
  p_v_u32 s avail = (len, bs) -> 0 < len -> p_v_u32 s 5 = (len, bs).
Proof.
  unfold p_v_u32. change (5 <=? 5) with true. cbn match. destruct (5 <=? avail); [done|].
  unfold p_v_u32_slow, p_v_u32_fast. intros H Hl.
  repeat case_match; simplify_eq; try done; lia.
Qed.

Lemma p_v_u64_enough s avail len bs :
  p_v_u64 s avail = (len, bs) -> 0 < len -> p_v_u64 s 10 = (len, bs).
Proof.
  unfold p_v_u64. change (10 <=? 10) with true. cbn match. destruct (10 <=? avail); [done|].
  unfold p_v_u64_slow, p_v_u64_fast. intros H Hl.
  repeat case_match; simplify_eq; try done; lia.
Qed.

Lemma s32_u32 r : sfits 32 r -> s32 (u32 r) = r.
Proof. intros. by apply swrap_wrap. Qed.

Lemma p_v_u32_ret s avail : sfits 32 (p_v_u32 s avail).1.
Proof.
  unfold p_v_u32, p_v_u32_fast, p_v_u32_slow, sfits. repeat case_match; cbn; lia.
Qed.

(** [p_vu32] returns the [int] through a [uint32_t]; converted back it is unchanged. *)
Lemma vl_pack_u32 v avail : vl_pack VlUint32 v avail = Ok (p_v_u32 v avail).
Proof.
  cbn [vl_pack]. unfold p_vu32. pose proof (p_v_u32_ret v avail) as H.
  destruct (p_v_u32 v avail) as [r bs]. cbn in H. by rewrite s32_u32.
Qed.

Lemma vl_pack_enough ty v maxLen len bs :
  vl_pack ty v maxLen = Ok (len, bs) -> 0 < len -> vl_pack ty v (vl_max_len ty) = Ok (len, bs).
Proof.
  intros H Hl. destruct ty; cbn [vl_max_len].
  - rewrite vl_pack_u32 in *. f_equal. eapply p_v_u32_enough; [|done]. by injection H as H.
  - cbn [vl_pack] in *. unfold p_vu64 in *. f_equal. eapply p_v_u64_enough; [|done]. by injection H as H.
  - cbn [vl_pack] in *. unfold p_vs32 in *. destruct (zigzag 32 v); cbn in *; [|done].
    f_equal. eapply p_v_u32_enough; [|done]. by injection H as H.
  - cbn [vl_pack] in *. unfold p_vs64 in *. destruct (zigzag 64 v); cbn in *; [|done].
    f_equal. eapply p_v_u64_enough; [|done]. by injection H as H.
Qed.

#[global] Program Instance Cont_ok : BackendOk Cont.t := {| bk_data := Cont.data |}.
Next Obligation. reflexivity. Qed.
Next Obligation. reflexivity. Qed.
Next Obligation.
  intros ty [l] pos. cbn [bk_get Cont_backend]. unfold Cont.get. cbn [Cont.data].
  destruct ty; cbn [scalar_len scalar_unpack]; try done.
  pose proof (reads_prefix_suffix 1 up_u8 l pos ltac:(lia) up_u8_prefix) as <-.
  apply vget_vread.
Qed.
Next Obligation.
  intros ty [l] pos len Hl. cbn [bk_getVl Cont_backend]. unfold Cont.getVl. cbn [Cont.data].
  destruct ty; cbn [vl_max_len vl_unpack] in *.
  - by replace (if 5 <? len then 5 else len) with len by (destruct (Z.ltb_spec 5 len); lia).
  - by rewrite Z.min_r by lia.
  - by replace (if 5 <? len then 5 else len) with len by (destruct (Z.ltb_spec 5 len); lia).
  - by rewrite Z.min_r by lia.
Qed.
Next Obligation. reflexivity. Qed.
Next Obligation.
  intros ty [l] pos v. cbn [bk_put Cont_backend].
  destruct ty; cbn [Cont.put scalar_pack Cont.data]; rewrite ?bind_ok_l;
    try by apply fmap_store.
  destruct (p_s40 v); cbn [mbind result_bind]; [|done]. by apply fmap_store.
Qed.
Next Obligation.
  intros sg [l] pos v maxLen. cbn [bk_putPad4 Cont_backend]. unfold Cont.putPad4, pad4_pack.
  destruct (if sg then _ else _) as [[n bs]|] eqn:E; cbn [mbind result_bind]; [|done].
  assert (n = 4) as ->.
  { destruct sg; [|by injection E]. revert E. unfold p_vs32pad4.
    destruct (zigzag 32 v); cbn; [|done]. by intros [= <- <-]. }
  cbn [Z.ltb Z.compare]. unfold Cont.store. cbn [Cont.data]. by destruct (vwrite l pos bs).
Qed.
Next Obligation. intros [l] pos src. by apply fmap_store. Qed.
Next Obligation.
  intros ty [l] pos v maxLen len bs Hp Hpk Hl. cbn [bk_putVl Cont_backend]. unfold Cont.putVl.
  apply vl_pack_enough in Hpk; [|done]. unfold vl_pack in Hpk.
  destruct ty; cbn [vl_max_len] in Hpk; rewrite Hpk, bind_ok_l;
    rewrite (proj2 (Z.ltb_lt 0 len) Hl);
    unfold Cont.store; cbn [Cont.data]; by destruct (vwrite l pos bs).
Qed.
Next Obligation.
  intros [l] n s' b Hn. cbn [bk_growStorage Cont_backend]. unfold Cont.growStorage.
  cbn [Cont.data]. destruct (Z.ltb_spec (zlen l) n); intros [= <- <-]; split; try done; cbn [Cont.data].
  - by rewrite Z.max_l by lia.
  - rewrite Z.max_r by lia. by rewrite vresize_same.
Qed.
