(* ===== verification/ByteArray.v ===== *)
(** The byte-array adapter: [src/storage/UByteArrayAdapter.cpp].

    An adapter is a window [m_offSet, m_offSet + m_len) into a storage shared
    with its copies, with a get and a put position relative to the window.  The
    storage is passed explicitly: adapters over the same backend take and
    return the same storage value. *)

From S2P Require Import Prelude PackUnpack Storage.

Record uba := mkUba { m_offSet : Z; m_len : Z; m_getPtr : Z; m_putPtr : Z }.

#[global] Instance uba_eq_dec : EqDecision uba.
Proof. solve_decision. Defined.

(** ** Constructors *)

Definition uba_new (offSet len : Z) : uba := mkUba offSet len 0 0.

(** [UByteArrayAdapter(adapter, addOffset)].  The comparisons use the members
    of the object under construction, which are still 0. *)
Definition uba_from (adapter : uba) (addOffset : Z) : uba :=
  let off := m_offSet adapter in
  let len := m_len adapter in
  let addOffset := if len <? addOffset then len else addOffset in
  let off := u64 (off + addOffset) in
  let len := len - addOffset in
  let getPtr :=
    if 0 <? addOffset then 0
    else let g := u64 (m_getPtr adapter - addOffset) in if len <=? g then len else g in
  let putPtr :=
    if 0 <? addOffset then 0
    else let p := u64 (m_putPtr adapter - addOffset) in if len <=? p then len else p in
  mkUba off len getPtr putPtr.

(** [UByteArrayAdapter(adapter, addOffset, smallerLen)] *)
Definition uba_from_len (adapter : uba) (addOffset smallerLen : Z) : uba :=
  let off := m_offSet adapter in
  let len := m_len adapter in
  let addOffset := if len <? addOffset then len else addOffset in
  let off := u64 (off + addOffset) in
  let len := len - addOffset in
  let len := if smallerLen <? len then smallerLen else len in
  let getPtr :=
    if 0 <? addOffset then 0
    else let g := u64 (m_getPtr adapter - addOffset) in if len <=? g then len else g in
  let putPtr :=
    if 0 <? addOffset then 0
    else let p := u64 (m_putPtr adapter - addOffset) in if len <=? p then len else p in
  mkUba off len getPtr putPtr.

(** ** Get and put positions *)

Definition setPutPtr (a : uba) (pos : Z) : uba :=
  let pos := if m_len a <=? pos then m_len a else pos in
  mkUba (m_offSet a) (m_len a) (m_getPtr a) pos.
Definition incPutPtr (a : uba) (num : Z) : uba := setPutPtr a (u64 (m_putPtr a + num)).
Definition decPutPtr (a : uba) (num : Z) : uba :=
  setPutPtr a (m_putPtr a - Z.min num (m_putPtr a)).
Definition resetPutPtr (a : uba) : uba := mkUba (m_offSet a) (m_len a) (m_getPtr a) 0.

(** [m_putPtr] is cleared before [m_getPtr] is compared with it. *)
Definition shrinkToPutPtr (a : uba) : uba :=
  let putPtr := if m_len a <? m_putPtr a then m_len a else m_putPtr a in
  let off := u64 (m_offSet a + putPtr) in
  let len := m_len a - putPtr in
  let putPtr := 0 in
  let getPtr := if m_getPtr a <? putPtr then 0 else m_getPtr a - putPtr in
  mkUba off len getPtr putPtr.

Definition getPtrHasNext (a : uba) : bool := m_getPtr a <? m_len a.

Definition setGetPtr (a : uba) (pos : Z) : uba :=
  let pos := if m_len a <=? pos then m_len a else pos in
  mkUba (m_offSet a) (m_len a) pos (m_putPtr a).
Definition incGetPtr (a : uba) (num : Z) : uba := setGetPtr a (u64 (m_getPtr a + num)).
Definition decGetPtr (a : uba) (num : Z) : uba :=
  setGetPtr a (m_getPtr a - Z.min num (m_getPtr a)).
Definition resetGetPtr (a : uba) : uba := mkUba (m_offSet a) (m_len a) 0 (m_putPtr a).

Definition shrinkToGetPtr (a : uba) : uba :=
  let getPtr := if m_len a <? m_getPtr a then m_len a else m_getPtr a in
  let off := u64 (m_offSet a + getPtr) in
  let len := m_len a - getPtr in
  let getPtr := 0 in
  let putPtr := if m_putPtr a <? getPtr then 0 else m_putPtr a - getPtr in
  mkUba off len getPtr putPtr.

Definition resetPtrs (a : uba) : uba := resetPutPtr (resetGetPtr a).

Definition fromGetPtr (a : uba) : uba := shrinkToGetPtr a.
Definition fromPutPtr (a : uba) : uba := shrinkToPutPtr a.

(** ** Iterator interface *)

Definition uba_plus (a : uba) (offSet : Z) : uba := uba_from a offSet.

Definition uba_incr (a : uba) : uba :=
  if 0 <? m_len a then
    mkUba (u64 (m_offSet a + 1)) (m_len a - 1)
      (if 0 <? m_getPtr a then m_getPtr a - 1 else m_getPtr a)
      (if 0 <? m_putPtr a then m_putPtr a - 1 else m_putPtr a)
  else a.

Definition uba_decr (a : uba) : uba :=
  if 0 <? m_offSet a then
    mkUba (m_offSet a - 1) (u64 (m_len a + 1)) (u64 (m_getPtr a + 1)) (u64 (m_putPtr a + 1))
  else a.

Definition uba_plus_assign (a : uba) (offSet : Z) : uba :=
  let offSet := if m_len a <? offSet then m_len a else offSet in
  mkUba (u64 (m_offSet a + offSet)) (m_len a - offSet)
    (if m_getPtr a <? offSet then 0 else m_getPtr a - offSet)
    (if m_putPtr a <? offSet then 0 else m_putPtr a - offSet).

Definition uba_minus_assign (a : uba) (offSet : Z) : uba :=
  let offSet := if m_offSet a <? offSet then m_offSet a else offSet in
  mkUba (m_offSet a - offSet) (u64 (m_len a + offSet))
    (u64 (m_getPtr a + offSet)) (u64 (m_putPtr a + offSet)).

Definition uba_begin (a : uba) : uba := a.
Definition uba_end (a : uba) : uba := uba_from a (m_len a).

(** [equal]: the same window of the same backend at the same positions. *)
Definition uba_equal (same_priv : bool) (a b : uba) : bool :=
  (m_offSet a =? m_offSet b) && (m_len a =? m_len b) && same_priv &&
  (m_getPtr a =? m_getPtr b) && (m_putPtr a =? m_putPtr b).

(** [range_check]: the sum is computed in 64 bits. *)
Definition range_check (a : uba) (pos length : Z) : result () :=
  throw_if (m_len a <? u64 (pos + length)) OutOfBoundsException.

Section adapter.
Context {S : Type} `{Backend S}.

(** ** Storage size *)

Definition uba_shrinkStorage (s : S) (a : uba) (byte : Z) : result (S * uba) :=
  let byte := if m_len a <? byte then m_len a else byte in
  let '(s, ok) := bk_shrinkStorage s (u64 (m_offSet a + m_len a - byte)) in
  if ok : bool then Ok (s, mkUba (m_offSet a) (m_len a - byte) (m_getPtr a) (m_putPtr a))
  else Err AllocationException.

Definition growStorage (s : S) (a : uba) (byte : Z) : S * uba * bool :=
  let '(s, ok) :=
    if u64 (m_offSet a + m_len a + byte) <? u64 (m_offSet a + m_len a) then (s, false)
    else bk_growStorage s (u64 (m_offSet a + m_len a + byte)) in
  if ok : bool
  then (s, mkUba (m_offSet a) (u64 (m_len a + byte)) (m_getPtr a) (m_putPtr a), true)
  else (s, a, false).

Definition uba_resize (s : S) (a : uba) (byte : Z) : S * uba * bool :=
  if byte <? m_len a then
    (s, mkUba (m_offSet a) byte
          (if byte <? m_getPtr a then byte else m_getPtr a)
          (if byte <? m_putPtr a then byte else m_putPtr a), true)
  else growStorage s a (byte - m_len a).

Definition resetToStorage (s : S) (a : uba) : result uba :=
  n ← bk_size s; mret (mkUba 0 n 0 0).

Definition reserveFromPutPtr (s : S) (a : uba) (bytes : Z) : S * uba * bool :=
  if (m_putPtr a <? m_len a) && (bytes <=? m_len a - m_putPtr a) then (s, a, true)
  else growStorage s a (u64 (u64 (m_putPtr a + bytes) - m_len a)).

Definition resizeForPush (s : S) (a : uba) (pos length : Z) : S * uba * bool :=
  if m_len a <? u64 (pos + length) then growStorage s a (u64 (u64 (pos + length) - m_len a))
  else (s, a, true).

(** ** Positional access *)

(** [at], [operator[]] and [getUint8] *)
Definition uba_at (s : S) (a : uba) (pos : Z) : result Z :=
  _ ← range_check a pos 1; bk_getUint8 s (u64 (m_offSet a + pos)).

(** assignment through [operator[]] *)
Definition uba_set (s : S) (a : uba) (pos v : Z) : result S :=
  _ ← range_check a pos 1; bk_put Uint8 s (u64 (m_offSet a + pos)) v.

Definition uba_get (ty : scalar) (s : S) (a : uba) (pos : Z) : result Z :=
  _ ← range_check a pos (scalar_len ty); bk_get ty s (u64 (m_offSet a + pos)).

(** value and [*length] *)
Definition uba_getVl (ty : vlscalar) (s : S) (a : uba) (pos : Z) : result (Z * Z) :=
  _ ← range_check a pos 1;
  let len := Z.min (vl_max_len ty) (u64 (m_len a - pos)) in
  '(res, len) ← bk_getVl ty s (u64 (m_offSet a + pos)) len;
  if len <? 0 then Err OutOfBoundsException else Ok (res, len).

Definition uba_getString (s : S) (a : uba) (pos : Z) : result (list Z * Z) :=
  '(strLen, len) ← uba_getVl VlUint32 s a pos;
  _ ← range_check a pos (u32 (len + strLen));
  str ← bk_getData s (u64 (m_offSet a + pos + len)) strLen;
  mret (str, u32 (strLen + len)).

Definition uba_getStringData (s : S) (a : uba) (pos : Z) : result (uba * Z) :=
  '(strLen, len) ← uba_getVl VlUint32 s a pos;
  _ ← range_check a pos (u32 (len + strLen));
  mret (uba_from_len a (u64 (pos + len)) strLen, u32 (strLen + len)).

Definition uba_getData (s : S) (a : uba) (pos len : Z) : result (list Z) :=
  _ ← range_check a pos 0;
  let len := if m_len a <? u64 (pos + len) then m_len a - pos else len in
  bk_getData s (u64 (m_offSet a + pos)) len.

Definition uba_put (ty : scalar) (s : S) (a : uba) (pos value : Z) : result S :=
  _ ← range_check a pos (scalar_len ty); bk_put ty s (u64 (m_offSet a + pos)) value.

Definition uba_putVl (ty : vlscalar) (s : S) (a : uba) (pos value : Z) : result (S * Z) :=
  _ ← range_check a pos 1;
  '(s, len) ← bk_putVl ty s (u64 (m_offSet a + pos)) value (u64 (m_len a - pos));
  if len <? 0 then Err OutOfBoundsException else Ok (s, len).

Definition uba_putPad4 (signed : bool) (s : S) (a : uba) (pos value : Z) : result (S * Z) :=
  _ ← range_check a pos 1;
  '(s, len) ← bk_putPad4 signed s (u64 (m_offSet a + pos)) value (u64 (m_len a - pos));
  if len <? 0 then Err OutOfBoundsException else Ok (s, len).

(** [putData(pos, const uint8_t*, len)], also for vectors and memory views *)
Definition uba_putData (s : S) (a : uba) (pos : Z) (data : list Z) : result S :=
  if zlen data =? 0 then Ok s
  else _ ← range_check a pos (zlen data); bk_putData s (u64 (m_offSet a + pos)) data.

Definition uba_putString (s : S) (a : uba) (pos : Z) (str : list Z) : result (S * Z) :=
  psz ← psize_vu32 (u32 (zlen str));
  let needSize := u64 (psz + zlen str) in
  _ ← range_check a pos needSize;
  '(s, len) ← uba_putVl VlUint32 s a pos (u32 (zlen str));
  s ← uba_putData s a (u64 (pos + len)) str;
  mret (s, s32 needSize).

(** ** Streaming access *)

Definition advGet (a : uba) (n : Z) : uba :=
  mkUba (m_offSet a) (m_len a) (u64 (m_getPtr a + n)) (m_putPtr a).
Definition advPut (a : uba) (n : Z) : uba :=
  mkUba (m_offSet a) (m_len a) (m_getPtr a) (u64 (m_putPtr a + n)).

(** the [UBA_STREAMING_GET_FUNC] family *)
Definition uba_sget (ty : scalar) (s : S) (a : uba) : result (uba * Z) :=
  res ← uba_get ty s a (m_getPtr a); mret (advGet a (scalar_len ty), res).

Definition uba_sgetVl (ty : vlscalar) (s : S) (a : uba) : result (uba * Z) :=
  '(res, len) ← uba_getVl ty s a (m_getPtr a);
  mret (if 0 <? len then advGet a len else a, res).

(** [for (i < n) res[i] = getUint8(pos+i)] *)
Fixpoint uba_getBytes (n : nat) (s : S) (a : uba) (pos : Z) : result (list Z) :=
  match n with
  | O => Ok []
  | Datatypes.S n =>
      b ← uba_at s a pos; bs ← uba_getBytes n s a (u64 (pos + 1)); mret (b :: bs)
  end.

Definition uba_sgetString (s : S) (a : uba) : result (uba * list Z) :=
  '(a, strLen) ← uba_sgetVl VlUint32 s a;
  if (strLen =? 0) || (m_len a <? u64 (m_getPtr a + strLen)) then Ok (a, [])
  else res ← uba_getBytes (Z.to_nat strLen) s a (m_getPtr a);
       mret (advGet a (zlen res), res).

Definition uba_sgetStringData (s : S) (a : uba) : result (uba * uba) :=
  '(d, len) ← uba_getStringData s a (m_getPtr a);
  mret (if 0 <? len then advGet a len else a, d).

Definition uba_sgetData (s : S) (a : uba) (len : Z) : result (uba * list Z) :=
  d ← uba_getData s a (m_getPtr a) len; mret (advGet a (zlen d), d).

(** the [UBA_PUT_STREAMING_FUNC] family *)
Definition uba_sput (ty : scalar) (s : S) (a : uba) (value : Z) : result (S * uba) :=
  let '(s, a, ok) := resizeForPush s a (m_putPtr a) (scalar_len ty) in
  if ok : bool then s ← uba_put ty s a (m_putPtr a) value; mret (s, advPut a (scalar_len ty))
  else Err IOException.

Definition uba_sputData (s : S) (a : uba) (data : list Z) : result (S * uba) :=
  let '(s, a, ok) := resizeForPush s a (m_putPtr a) (zlen data) in
  if ok : bool then s ← uba_putData s a (m_putPtr a) data; mret (s, advPut a (zlen data))
  else Err IOException.

(** the [UBA_PUT_VL_STREAMING_FUNC] family: packs into a local buffer *)
Definition uba_sputVl (ty : vlscalar) (s : S) (a : uba) (value : Z) : result (S * uba * Z) :=
  '(len, tmp) ← vl_pack ty value (vl_max_len ty);
  if len <? 0 then Ok (s, a, -1)
  else '(s, a) ← uba_sputData s a tmp; mret (s, a, len).

(** returns [false], i.e. 0, when growing fails *)
Definition uba_sputPad4Uint32 (s : S) (a : uba) (value : Z) : result (S * uba * Z) :=
  let '(s, a, ok) := resizeForPush s a (m_putPtr a) 4 in
  if negb ok then Ok (s, a, 0)
  else '(s, len) ← uba_putPad4 false s a (m_putPtr a) value;
       mret (s, if 0 <? len then advPut a len else a, len).

(** stores the unpadded variable-length form *)
Definition uba_sputPad4Int32 (s : S) (a : uba) (value : Z) : result (S * uba * Z) :=
  let '(s, a, ok) := resizeForPush s a (m_putPtr a) 4 in
  if negb ok then Err IOException
  else '(s, len) ← uba_putVl VlInt32 s a (m_putPtr a) value;
       mret (s, if 0 <? len then advPut a len else a, len).

Definition uba_sputString (s : S) (a : uba) (str : list Z) : result (S * uba) :=
  psz ← psize_vu32 (u32 (zlen str));
  let needSize := u64 (psz + zlen str) in
  let '(s, a, ok) := resizeForPush s a (m_putPtr a) needSize in
  if negb ok then Err IOException
  else '(s, pushed) ← uba_putString s a (m_putPtr a) str;
       mret (s, if 0 <=? pushed then advPut a needSize else a).

(** ** Whole-window operations *)

Definition uba_toString (s : S) (a : uba) : result (list Z) :=
  uba_getBytes (Z.to_nat (m_len a)) s a 0.

(** [equalContent], both windows on backends of the same kind *)
Fixpoint equal_loop (n : nat) (s : S) (a : uba) (t : S) (b : uba) (i : Z) : result bool :=
  match n with
  | O => Ok true
  | Datatypes.S n =>
      x ← uba_at s a i; y ← uba_at t b i;
      if x =? y then equal_loop n s a t b (u64 (i + 1)) else Ok false
  end.
Definition uba_equalContent (s : S) (a : uba) (t : S) (b : uba) : result bool :=
  if m_len a =? m_len b then equal_loop (Z.to_nat (m_len a)) s a t b 0 else Ok false.

(** [fill]: [memset] on contiguous storage, else block-wise stores that run
    to the end of the window *)
Fixpoint fill_loop (fuel : nat) (s : S) (a : uba) (value bufLen i : Z) : result S :=
  match fuel with
  | O => Err OutOfFuel
  | Datatypes.S fuel =>
      if i <? m_len a then
        s ← uba_putData s a i (replicate (Z.to_nat (Z.min (m_len a - i) bufLen)) value);
        fill_loop fuel s a value bufLen (u64 (i + bufLen))
      else Ok s
  end.

Definition uba_fill (fuel : nat) (s : S) (a : uba) (value start length : Z) : result S :=
  if m_len a <? start then Ok s
  else if bk_isContiguous (S := S) then
    _ ← range_check a start 1;
    bk_putData s (u64 (m_offSet a + start))
      (replicate (Z.to_nat (Z.min length (m_len a - start))) value)
  else
    fill_loop fuel s a value (u32 (Z.min length (4 * 1024 * 1024))) start.

Definition uba_zero (fuel : nat) (s : S) (a : uba) : result S :=
  if bk_isContiguous (S := S) then
    _ ← range_check a 0 1;
    bk_putData s (m_offSet a) (replicate (Z.to_nat (m_len a)) 0)
  else fill_loop fuel s a 0 (1024 * 1024) 0.

(** [putData(pos, adapter)] with the source window on the same storage: the
    contiguous case falls through to the buffered copy *)
Fixpoint copy_loop (fuel : nat) (s : S) (a : uba) (pos : Z) (src : uba) (bufLen i : Z) : result S :=
  match fuel with
  | O => Err OutOfFuel
  | Datatypes.S fuel =>
      if i <? m_len src then
        let len := Z.min (m_len src - i) bufLen in
        buf ← uba_getData s src i len;
        s ← uba_putData s a (u64 (pos + i)) buf;
        copy_loop fuel s a pos src bufLen (u64 (i + len))
      else Ok s
  end.

Definition uba_putAdapter (fuel : nat) (s : S) (a : uba) (pos : Z) (src : uba) : result S :=
  if m_len src =? 0 then Ok s
  else
    _ ← range_check a pos (m_len src);
    s ← (if bk_isContiguous (S := S)
         then d ← bk_getData s (m_offSet src) (m_len src); uba_putData s a pos d
         else Ok s);
    copy_loop fuel s a pos src (Z.min (m_len src) (4 * 1024 * 1024)) 0.
End adapter.

(** [createCache(size, MM_PROGRAM_MEMORY)]: at least one byte, zeroed. *)
Definition createCache (size : Z) : Vec.t * uba :=
  let size := if size =? 0 then 1 else size in
  (Vec.mk (replicate (Z.to_nat size) 0), uba_new 0 size).

(** An adapter over a vector of the caller. *)
Definition uba_of_vector (data : list Z) : Vec.t * uba :=
  (Vec.mk data, uba_new 0 (zlen data)).

(** * The window of an adapter *)

(** The bytes an adapter sees, and when its window lies inside the storage.
    The storage is smaller than the address space. *)
Definition view (d : list Z) (a : uba) : list Z :=
  take (Z.to_nat (m_len a)) (drop (Z.to_nat (m_offSet a)) d).

Record uba_wf (d : list Z) (a : uba) : Prop := {
  wf_off : 0 <= m_offSet a;
  wf_len : 0 <= m_len a;
  wf_in : m_offSet a + m_len a <= zlen d;
  wf_size : zlen d < 2 ^ 64;
  wf_get : fits 64 (m_getPtr a);
  wf_put : fits 64 (m_putPtr a);
  wf_bytes : bytes_ok d;
}.

(** Well-formedness of a concrete adapter. *)
Ltac uba_wf_tac :=
  split; cbn; unfold bytes_ok, fits; first [lia | repeat constructor; unfold fits; lia].

Section window.
Implicit Types (d bs : list Z) (a : uba).

Lemma length_view d a : uba_wf d a -> zlen (view d a) = m_len a.
Proof. intros []. unfold view. rewrite length_take, length_drop. lia. Qed.

Lemma lookup_view d a i : uba_wf d a ->
  view d a !! i = if Z.of_nat i <? m_len a then d !! (Z.to_nat (m_offSet a) + i)%nat else None.
Proof.
  intros []. unfold view. destruct (Z.ltb_spec (Z.of_nat i) (m_len a)).
  - rewrite lookup_take_lt by lia. apply lookup_drop.
  - apply lookup_take_ge. lia.
Qed.

Lemma vread_view d a pos n : uba_wf d a ->
  0 <= pos -> pos + n <= m_len a -> vread d (m_offSet a + pos) n = vread (view d a) pos n.
Proof.
  intros Hwf Hp Hl. pose proof (length_view d a Hwf). destruct Hwf.
  unfold vread, in_range. rewrite H.
  destruct (Z.leb_spec 0 n); [|by rewrite !andb_false_r].
  replace (0 <=? m_offSet a + pos) with true by lia. replace (0 <=? pos) with true by lia.
  replace (m_offSet a + pos + n <=? zlen d) with true by lia.
  replace (pos + n <=? m_len a) with true by lia. cbn [andb]. f_equal.
  apply list_eq. intros i. unfold view. rewrite !lookup_take.
  case_decide; [|done]. rewrite !lookup_drop, lookup_take_lt, lookup_drop by lia. f_equal. lia.
Qed.

Lemma vget_view d a pos : uba_wf d a -> 0 <= pos < m_len a ->
  vget d (m_offSet a + pos) = vget (view d a) pos.
Proof.
  intros Hwf Hp. pose proof (length_view d a Hwf).
  destruct (vget_lt (view d a) pos ltac:(lia)) as (x & -> & Hx).
  apply vget_ok. rewrite (lookup_view d a _ Hwf) in Hx. destruct Hwf.
  case_match; [|done]. split; [lia|]. rewrite <- Hx. f_equal. lia.
Qed.

Lemma splice_wf d a pos bs :
  uba_wf d a -> bytes_ok bs -> 0 <= pos -> pos + zlen bs <= m_len a ->
  uba_wf (splice d (m_offSet a + pos) bs) a.
Proof.
  intros [] Hbs Hp Hl. split; try done; rewrite ?length_splice; try lia. by apply Forall_splice.
Qed.

Lemma splice_view d a pos bs :
  uba_wf d a -> bytes_ok bs -> 0 <= pos -> pos + zlen bs <= m_len a ->
  view (splice d (m_offSet a + pos) bs) a = splice (view d a) pos bs.
Proof.
  intros Hwf Hbs Hp Hl. pose proof (length_view d a Hwf). pose proof Hwf as [].
  apply list_eq. intros i.
  rewrite lookup_splice by lia. rewrite !lookup_view by (done || by apply splice_wf).
  destruct (Z.ltb_spec (Z.of_nat i) (m_len a)) as [Hi|Hi].
  - rewrite lookup_splice by lia.
    destruct (Z.ltb_spec (Z.of_nat i) pos), (Z.leb_spec (pos + zlen bs) (Z.of_nat i));
    destruct (Z.ltb_spec (Z.of_nat (Z.to_nat (m_offSet a) + i)) (m_offSet a + pos)),
      (Z.leb_spec (m_offSet a + pos + zlen bs) (Z.of_nat (Z.to_nat (m_offSet a) + i)));
      cbn [orb]; try lia; try done. f_equal. lia.
  - destruct (Z.ltb_spec (Z.of_nat i) pos), (Z.leb_spec (pos + zlen bs) (Z.of_nat i));
      cbn [orb]; try done; lia.
Qed.

End window.

Lemma range_check_eq a pos n :
  fits 64 (pos + n) ->
  range_check a pos n = if m_len a <? pos + n then Err OutOfBoundsException else Ok ().
Proof. intros. unfold range_check. rewrite wrap_small by done. done. Qed.

(** [buf s a l]: the adapter's window on the storage holds the bytes [l]. *)
Section buffers.
Context {S : Type} {B : Backend S} {BO : BackendOk S}.

Definition buf (s : S) (a : uba) (l : list Z) : Prop :=
  uba_wf (bk_data s) a /\ view (bk_data s) a = l.

Lemma buf_len s a l : buf s a l -> m_len a = zlen l.
Proof using. intros [Hwf <-]. symmetry. by apply length_view. Qed.

Lemma buf_bytes s a l : buf s a l -> bytes_ok l.
Proof using. intros [Hwf <-]. apply Forall_take, Forall_drop, Hwf. Qed.

Lemma buf_fits s a l : buf s a l ->
  0 <= m_offSet a /\ m_offSet a + zlen l < 2 ^ 64 /\ 0 <= zlen l.
Proof using. intros Hb. pose proof (buf_len _ _ _ Hb). destruct Hb as [[] _]. lia. Qed.

Lemma buf_at s a l pos :
  buf s a l -> 0 <= pos -> pos + 1 < 2 ^ 64 ->
  uba_at s a pos = if zlen l <? pos + 1 then Err OutOfBoundsException else vget l pos.
Proof using.
  intros Hb Hp Hq. pose proof (buf_len _ _ _ Hb) as Hl. pose proof (buf_fits _ _ _ Hb).
  destruct Hb as [Hwf <-]. unfold uba_at. rewrite range_check_eq by (unfold fits; lia). rewrite Hl.
  destruct (Z.ltb_spec (zlen (view (bk_data s) a)) (pos + 1)); [done|]. rewrite bind_ok_l.
  rewrite wrap_small by (unfold fits; lia). rewrite bk_getUint8_ok. apply vget_view; [done|lia].
Qed.

Lemma buf_get ty s a l pos :
  buf s a l -> 0 <= pos -> pos + scalar_len ty < 2 ^ 64 ->
  uba_get ty s a pos =
    if zlen l <? pos + scalar_len ty then Err OutOfBoundsException
    else (bs ← vread l pos (scalar_len ty); scalar_unpack ty bs).
Proof using.
  intros Hb Hp Hq. pose proof (buf_len _ _ _ Hb) as Hl. pose proof (buf_fits _ _ _ Hb).
  assert (0 < scalar_len ty) by (by destruct ty).
  destruct Hb as [Hwf <-]. unfold uba_get. rewrite range_check_eq by (unfold fits; lia). rewrite Hl.
  destruct (Z.ltb_spec (zlen (view (bk_data s) a)) (pos + scalar_len ty)); [done|].
  rewrite bind_ok_l, wrap_small by (unfold fits; lia).
  by rewrite bk_get_ok, vread_view by (done || lia).
Qed.

(** A store into the window. *)
Lemma buf_store s s' a l pos bs :
  buf s a l -> bytes_ok bs -> 0 <= pos -> pos + zlen bs <= zlen l ->
  bk_data s' = splice (bk_data s) (m_offSet a + pos) bs -> buf s' a (splice l pos bs).
Proof using.
  intros Hb Hbs Hp Hl Hs. pose proof (buf_len _ _ _ Hb) as Hlen. destruct Hb as [Hwf <-].
  split; rewrite Hs; [apply splice_wf; [done|done|lia|lia]|by rewrite splice_view by (done || lia)].
Qed.

Lemma vwrite_in (d : list Z) pos bs :
  0 <= pos -> pos + zlen bs <= zlen d -> vwrite d pos bs = Ok (splice d pos bs).
Proof using. intros. by apply vwrite_ok. Qed.

Lemma buf_put ty s a l pos v bs :
  buf s a l -> 0 <= pos -> pos + scalar_len ty <= zlen l ->
  scalar_pack ty v = Ok bs -> zlen bs = scalar_len ty -> bytes_ok bs ->
  exists s', uba_put ty s a pos v = Ok s' /\ buf s' a (splice l pos bs) /\
    vwrite (bk_data s) (m_offSet a + pos) bs = Ok (bk_data s').
Proof using.
  intros Hb Hp Hl Hpk Hbs Hok. pose proof (buf_len _ _ _ Hb) as Hlen.
  pose proof (buf_fits _ _ _ Hb). unfold uba_put.
  rewrite range_check_eq by (unfold fits; lia).
  rewrite (proj2 (Z.ltb_ge _ _)) by lia. rewrite bind_ok_l, wrap_small by (unfold fits; lia).
  pose proof (bk_put_ok ty s (m_offSet a + pos) v) as Hw. rewrite Hpk, bind_ok_l in Hw.
  rewrite vwrite_in in Hw by (destruct Hb as [[] _]; lia).
  destruct (bk_put ty s (m_offSet a + pos) v) as [s'|]; cbn in Hw; [|done].
  exists s'. split; [done|]. split; [apply (buf_store s); [done|done|lia|lia|congruence]|].
  rewrite vwrite_in by (destruct Hb as [[] _]; lia). congruence.
Qed.

Lemma buf_putData s a l pos bs :
  buf s a l -> bytes_ok bs -> 0 <= pos -> pos + zlen bs <= zlen l ->
  exists s', uba_putData s a pos bs = Ok s' /\ buf s' a (splice l pos bs).
Proof using.
  intros Hb Hok Hp Hl. pose proof (buf_len _ _ _ Hb) as Hlen. pose proof (buf_fits _ _ _ Hb).
  unfold uba_putData. destruct (Z.eqb_spec (zlen bs) 0) as [E|E].
  - exists s. split; [done|]. destruct bs; [|cbn [length] in E; lia].
    unfold splice. cbn [length app]. rewrite Nat.add_0_r, take_drop. done.
  - rewrite range_check_eq by (unfold fits; lia).
    rewrite (proj2 (Z.ltb_ge _ _)) by lia. rewrite bind_ok_l, wrap_small by (unfold fits; lia).
    pose proof (bk_putData_ok s (m_offSet a + pos) bs) as Hw.
    rewrite vwrite_in in Hw by (destruct Hb as [[] _]; lia).
    destruct (bk_putData s (m_offSet a + pos) bs) as [s'|]; cbn in Hw; [|done].
    exists s'. split; [done|]. apply (buf_store s); [done|done|lia|lia|congruence].
Qed.
End buffers.

(** ** Sub-windows *)

Section sub_windows.
Context (d : list Z) (a : uba) (Hwf : uba_wf d a).

(** A window inside the window of [a]. *)
Lemma sub_window o n b :
  0 <= o -> 0 <= n -> o + n <= m_len a ->
  m_offSet b = m_offSet a + o -> m_len b = n -> fits 64 (m_getPtr b) -> fits 64 (m_putPtr b) ->
  uba_wf d b /\ view d b = take (Z.to_nat n) (drop (Z.to_nat o) (view d a)).
Proof using Hwf.
  intros Ho Hn Hl Hbo Hbl Hg Hp. destruct Hwf. split.
  - split; try done; lia.
  - unfold view. rewrite Hbo, Hbl. apply list_eq. intros i.
    rewrite !lookup_take. case_decide; [|done].
    rewrite !lookup_drop, lookup_take_lt, lookup_drop by lia. f_equal. lia.
Qed.

Lemma off_fits o : 0 <= o <= m_len a -> u64 (m_offSet a + o) = m_offSet a + o.
Proof using Hwf. destruct Hwf. intros. apply wrap_small. unfold fits. lia. Qed.
End sub_windows.

Ltac sub_window_tac :=
  match goal with
  | H : uba_wf ?d ?a |- uba_wf ?d ?b /\ view ?d ?b = take (Z.to_nat ?n) (drop (Z.to_nat ?o) _) =>
      pose proof H as []; apply (sub_window d a H o n);
      cbn; try lia; repeat case_match; rewrite ?(off_fits d a H) by lia;
      try (apply wrap_fits; lia); unfold fits in *; try lia
  end.

(** C40: sub-windows.  For an adapter whose window lies inside its storage and
    arguments that are 64-bit values, the sub-range constructors, [operator+],
    [operator+=] and the shrink operations all yield an adapter whose window
    lies inside the storage, and which sees exactly the bytes named: arguments
    past the end are clipped.  Growing the window back with [operator-=] gives
    the original window. *)
Theorem sub_windows d a o n :
  uba_wf d a -> fits 64 o -> fits 64 n ->
  let skip x := drop (Z.to_nat x) (view d a) in
  (uba_wf d (uba_from a o) /\ view d (uba_from a o) = skip o) /\
  (uba_wf d (uba_from_len a o n) /\ view d (uba_from_len a o n) = take (Z.to_nat n) (skip o)) /\
  (uba_wf d (uba_plus_assign a o) /\ view d (uba_plus_assign a o) = skip o) /\
  (uba_wf d (shrinkToGetPtr a) /\ view d (shrinkToGetPtr a) = skip (m_getPtr a)) /\
  (uba_wf d (shrinkToPutPtr a) /\ view d (shrinkToPutPtr a) = skip (m_putPtr a)) /\
  (o <= m_len a -> view d (uba_minus_assign (uba_plus_assign a o) o) = view d a).
Proof.
  intros Hwf Ho Hn skip. pose proof (length_view d a Hwf) as Hlv.
  assert (forall o n b, 0 <= o -> 0 <= n ->
    uba_wf d b /\ view d b = take (Z.to_nat (Z.min n (m_len a - Z.min o (m_len a))))
                                  (drop (Z.to_nat (Z.min o (m_len a))) (view d a)) ->
    uba_wf d b /\ view d b = take (Z.to_nat n) (drop (Z.to_nat o) (view d a))) as Hclip.
  { intros o' n' b Ho' Hn' [Hb ->]. split; [done|]. apply list_eq. intros i.
    rewrite !lookup_take, !lookup_drop.
    destruct (decide (i < Z.to_nat n' /\ Z.to_nat o' + i < length (view d a))%nat).
    - rewrite !decide_True by lia. f_equal. lia.
    - destruct (decide (i < Z.to_nat n')%nat); [|by rewrite !decide_False by lia].
      rewrite (lookup_ge_None_2 (view d a) (Z.to_nat o' + i)) by lia.
      case_decide; [lia|done]. }
  assert (forall o b, 0 <= o ->
    uba_wf d b /\ view d b = take (Z.to_nat (m_len a)) (drop (Z.to_nat o) (view d a)) ->
    uba_wf d b /\ view d b = drop (Z.to_nat o) (view d a)) as Hfull.
  { intros o' b Ho' [Hb ->]. split; [done|]. apply take_ge. rewrite length_drop. lia. }
  pose proof Hwf as [? ? ? ? Hgp Hpp _]. unfold fits in Ho, Hn, Hgp, Hpp.
  split; [apply Hfull, Hclip; [lia..|]; unfold uba_from; sub_window_tac|].
  split; [apply Hclip; [lia..|]; unfold uba_from_len; sub_window_tac|].
  split; [apply Hfull, Hclip; [lia..|]; unfold uba_plus_assign; sub_window_tac|].
  split; [apply Hfull, Hclip; [lia..|]; unfold shrinkToGetPtr; sub_window_tac|].
  split; [apply Hfull, Hclip; [lia..|]; unfold shrinkToPutPtr; sub_window_tac|].
  intros Hol. unfold view. unfold uba_minus_assign, uba_plus_assign.
  rewrite (proj2 (Z.ltb_ge (m_len a) o)) by lia. cbn. rewrite (off_fits d a Hwf) by lia.
  rewrite (proj2 (Z.ltb_ge (m_offSet a + o) o)) by lia.
  rewrite (wrap_small 64 (m_len a - o + o)) by (unfold fits; lia). do 2 f_equal; [lia|f_equal; lia].
Qed.

(** What happens to the positions.  [operator+=] moves both positions with
    the window, clipping at its start, so they keep pointing at the same
    bytes; [shrinkToGetPtr] and [shrinkToPutPtr] clear the position they
    shrink to first and compare with that 0, so the other position is not
    moved; the sub-range constructors reset both positions to 0 for any
    non-zero offset. *)
Theorem window_positions d a o :
  uba_wf d a -> 0 < o <= m_len a ->
  (o <= m_getPtr a -> o <= m_putPtr a ->
     m_offSet (uba_plus_assign a o) + m_getPtr (uba_plus_assign a o) = m_offSet a + m_getPtr a /\
     m_offSet (uba_plus_assign a o) + m_putPtr (uba_plus_assign a o) = m_offSet a + m_putPtr a) /\
  m_putPtr (shrinkToGetPtr a) = m_putPtr a /\ m_getPtr (shrinkToGetPtr a) = 0 /\
  m_getPtr (shrinkToPutPtr a) = m_getPtr a /\ m_putPtr (shrinkToPutPtr a) = 0 /\
  (forall n, m_getPtr (uba_from a o) = 0 /\ m_putPtr (uba_from a o) = 0 /\
     m_getPtr (uba_from_len a o n) = 0 /\ m_putPtr (uba_from_len a o n) = 0).
Proof.
  intros Hwf Ho. pose proof Hwf as [? ? ? ? [? _] [? _] _]. split.
  { intros Hg Hp. unfold uba_plus_assign. rewrite (proj2 (Z.ltb_ge (m_len a) o)) by lia. cbn.
    rewrite (off_fits d a Hwf) by lia. split; case_match; lia. }
  unfold shrinkToGetPtr, shrinkToPutPtr, uba_from, uba_from_len. cbn.
  rewrite (proj2 (Z.ltb_ge (m_putPtr a) 0)), (proj2 (Z.ltb_ge (m_getPtr a) 0)) by lia.
  rewrite (proj2 (Z.ltb_ge (m_len a) o)), (proj2 (Z.ltb_lt 0 o)) by lia.
  rewrite !Z.sub_0_r. by repeat split.
Qed.

Lemma window_positions_witness :
  m_putPtr (shrinkToGetPtr (mkUba 0 4 2 3)) = 3.
Proof.
  refine (proj1 (proj2 (window_positions [1; 2; 3; 4] (mkUba 0 4 2 3) 1 _ _))).
  - uba_wf_tac.
  - cbn. lia.
Defined.

Lemma sub_windows_witness :
  view [1; 2; 3; 4; 5] (uba_from_len (mkUba 1 4 0 0) 1 2) = [3; 4].
Proof.
  refine (proj2 (proj1 (proj2 (sub_windows [1; 2; 3; 4; 5] (mkUba 1 4 0 0) 1 2 _ _ _)))).
  - uba_wf_tac.
  - unfold fits; lia.
  - unfold fits; lia.
Defined.
