(* ===== verification/ByteStream.v ===== *)
(** Streams of values over the byte-array adapter: the streaming getters and
    putters of [src/storage/UByteArrayAdapter.cpp] and the string and data
    forms, verified against the laws of a storage backend.

    [item] is one value with its wire type; [put_item] and [get_item] are the
    streaming calls.  The central facts are [put_items_ok] (a sequence of puts
    writes the concatenated encodings at the put position, growing the storage
    as needed) and [get_items_ok] (a sequence of gets reads them back). *)

From S2P Require Import Prelude PackUnpack Storage ByteArray.

(** ** Ranges of the wire types *)

Definition scalar_ok (t : scalar) (v : Z) : Prop :=
  match t with
  | Uint8 => fits 8 v | Uint16 => fits 16 v | Uint24 => fits 24 v
  | Uint32 => fits 32 v | Uint64 => fits 64 v
  | Int32 => sfits 32 v | Int64 => sfits 64 v
  | Offset => fits 40 v | NegativeOffset => - 2 ^ 39 < v < 2 ^ 39
  end.

Definition vl_ok (t : vlscalar) (v : Z) : Prop :=
  match t with
  | VlUint32 => fits 32 v | VlUint64 => fits 64 v
  | VlInt32 => - 2 ^ 31 < v < 2 ^ 31 | VlInt64 => - 2 ^ 63 < v < 2 ^ 63
  end.

Lemma up_le_exact n m v : (n <= m)%nat -> fits (8 * Z.of_nat n) v ->
  up_le (Z.of_nat n) (take n (le_bytes m v)) = Ok v.
Proof.
  intros Hn Hv. rewrite take_le_bytes by done. rewrite <- (app_nil_r (le_bytes n v)).
  rewrite up_le_app by (by rewrite length_le_bytes).
  by rewrite le_val_le_bytes, wrap_small.
Qed.

(** The packed form of a scalar has its declared length and unpacks to it. *)
Lemma scalar_pack_ok ty v : scalar_ok ty v ->
  exists bs, scalar_pack ty v = Ok bs /\ zlen bs = scalar_len ty /\ bytes_ok bs /\
    scalar_unpack ty bs = Ok v.
Proof.
  intros Hv.
  assert (forall n m x, (n <= m)%nat -> fits (8 * Z.of_nat n) x ->
    exists bs, Ok (take n (le_bytes m x)) = Ok bs /\ zlen bs = Z.of_nat n /\ bytes_ok bs /\
      up_le (Z.of_nat n) bs = Ok x) as Hu.
  { intros n m x Hn Hx. eexists. split; [done|]. split.
    - rewrite length_take, length_le_bytes. lia.
    - split; [apply Forall_take, le_bytes_ok|by apply up_le_exact]. }
  assert (forall n w, w = 8 * Z.of_nat n -> (0 < n)%nat -> sfits w v ->
    exists bs, Ok (le_bytes n (wrap w v)) = Ok bs /\ zlen bs = Z.of_nat n /\ bytes_ok bs /\
      (x ← up_le (Z.of_nat n) bs; mret (swrap w x)) = Ok v) as Hs.
  { intros n w -> Hn Hx. eexists. split; [done|]. split; [by rewrite length_le_bytes|].
    split; [apply le_bytes_ok|].
    rewrite <- (take_ge (le_bytes n _) n) by (rewrite length_le_bytes; lia).
    rewrite up_le_exact by (try lia; apply wrap_fits; lia).
    rewrite bind_ok_l. unfold mret, result_ret. by rewrite swrap_wrap by (done || lia). }
  destruct ty; cbn [scalar_ok scalar_pack scalar_len scalar_unpack] in *.
  - exists [u8 v]. repeat split; [|].
    + repeat constructor; apply wrap_fits; lia.
    + unfold up_u8. by rewrite vget_cons_0, wrap_small.
  - exact (Hu 2%nat 2%nat v ltac:(lia) Hv).
  - exact (Hu 3%nat 4%nat v ltac:(lia) Hv).
  - exact (Hu 4%nat 4%nat v ltac:(lia) Hv).
  - exact (Hu 8%nat 8%nat v ltac:(lia) Hv).
  - exact (Hs 4%nat 32 eq_refl ltac:(lia) Hv).
  - exact (Hs 8%nat 64 eq_refl ltac:(lia) Hv).
  - exact (Hu 5%nat 8%nat v ltac:(lia) Hv).
  - destruct (sign_magnitude_ok 64 40 v ltac:(lia) Hv) as (t & Hz & Ht & Hr).
    destruct (Hu 5%nat 8%nat t ltac:(lia)) as (bs & Hbs & Hl & Hok & He).
    { rewrite <- Ht. apply wrap_fits. lia. }
    exists bs. injection Hbs as Hbs. unfold p_s40, up_s40.
    assert (up_u40 bs = Ok t) as -> by exact He.
    rewrite bind_ok_l. split; [|split; [done|split; [done|]]].
    + revert Hz. unfold zigzag. destruct (v <? 0); [destruct (sneg 64 v); [|done]|];
        cbn [mbind result_bind]; intros [= ->]; unfold mret, result_ret; f_equal; exact Hbs.
    + unfold mret, result_ret. f_equal. by destruct (Z.odd t).
Qed.

Lemma vbytes_ok n v : bytes_ok (vbytes n v).
Proof.
  revert v. induction n as [|[|n] IH]; intros v; cbn; repeat constructor; try apply wrap_fits; try lia.
  apply IH.
Qed.

Lemma p_v_spec_enough s avail : packed_len s <= avail ->
  p_v_spec s avail = (packed_len s, vbytes (Z.to_nat (packed_len s)) s).
Proof. intros. unfold p_v_spec. by rewrite (proj2 (Z.ltb_ge _ _)) by lia. Qed.

(** A number packs into [zlen bs] bytes whenever that many are available, and
    unpacks from them whatever follows. *)
Lemma vl_pack_ok ty v : vl_ok ty v ->
  exists bs, 1 <= zlen bs <= vl_max_len ty /\ bytes_ok bs /\
    (forall avail, zlen bs <= avail -> vl_pack ty v avail = Ok (zlen bs, bs)) /\
    (forall rest, vl_unpack ty (bs ++ rest) = Ok (v, zlen bs)) /\
    (ty = VlUint32 -> zlen bs = packed_len v).
Proof.
  intros Hv.
  assert (forall w t, vl_width w -> fits w t -> let bs := vbytes (Z.to_nat (packed_len t)) t in
    zlen bs = packed_len t /\ 1 <= zlen bs <= maxBytes w /\
    (forall avail, zlen bs <= avail -> p_v w t avail = (zlen bs, bs)) /\
    (forall rest, up_v w (bs ++ rest) = Ok (t, zlen bs))) as Hgo.
  { intros w t Hw Ht bs. destruct (maxBytes_enough w t Hw Ht). pose proof (packed_len_pos t).
    assert (zlen bs = packed_len t) as Hl by (unfold bs; rewrite length_vbytes; lia).
    rewrite Hl. split; [done|]. split; [lia|]. split; intros.
    - by rewrite p_v_eq, p_v_spec_enough.
    - by apply up_v_vbytes. }
  assert (vl_width 32 /\ vl_width 64) as [W32 W64] by (split; [by left|by right]).
  destruct ty; cbn [vl_ok vl_max_len vl_unpack] in *.
  - destruct (Hgo 32 v W32 Hv) as (Hl & Hr & Hp & Hu). eexists. split; [exact Hr|].
    split; [apply vbytes_ok|]. split; [|by split]. intros avail Ha. rewrite vl_pack_u32. f_equal. by apply (Hp avail).
  - destruct (Hgo 64 v W64 Hv) as (Hl & Hr & Hp & Hu). eexists. split; [exact Hr|].
    split; [apply vbytes_ok|]. split; [|by split]. intros avail Ha. cbn [vl_pack]. f_equal. by apply (Hp avail).
  - destruct (zigzag_ok 32 v) as (t & Hz & Ht & Ht'); [lia|unfold sfits; lia|lia|].
    destruct (Hgo 32 t W32 Ht) as (Hl & Hr & Hp & Hu). eexists. split; [exact Hr|].
    split; [apply vbytes_ok|]. split; [|split; [|done]].
    + intros avail Ha. cbn [vl_pack]. unfold p_vs32. rewrite Hz, bind_ok_l. unfold mret, result_ret.
      f_equal. by apply (Hp avail).
    + intros rest. unfold up_vs32, up_v_signed. by rewrite Hu, bind_ok_l, Ht'.
  - destruct (zigzag_ok 64 v) as (t & Hz & Ht & Ht'); [lia|unfold sfits; lia|lia|].
    destruct (Hgo 64 t W64 Ht) as (Hl & Hr & Hp & Hu). eexists. split; [exact Hr|].
    split; [apply vbytes_ok|]. split; [|split; [|done]].
    + intros avail Ha. cbn [vl_pack]. unfold p_vs64. rewrite Hz, bind_ok_l. unfold mret, result_ret.
      f_equal. by apply (Hp avail).
    + intros rest. unfold up_vs64, up_v_signed. by rewrite Hu, bind_ok_l, Ht'.
Qed.

Section streams.
Context {S : Type} {B : Backend S} {BO : BackendOk S}.

(** ** Growing at the put position *)

Lemma growStorage_ok (s : S) a l n :
  buf s a l -> 0 <= n -> m_offSet a + zlen l + n < 2 ^ 64 ->
  exists s' ext,
    growStorage s a n = (s', mkUba (m_offSet a) (zlen l + n) (m_getPtr a) (m_putPtr a), true) /\
    buf s' (mkUba (m_offSet a) (zlen l + n) (m_getPtr a) (m_putPtr a)) (l ++ ext) /\
    zlen ext = n.
Proof using.
  intros Hb Hn Hf. pose proof (buf_len _ _ _ Hb) as Hl. pose proof (buf_fits _ _ _ Hb).
  unfold growStorage. rewrite Hl, !(wrap_small 64) by (unfold fits; lia).
  rewrite (proj2 (Z.ltb_ge _ _)) by lia.
  destruct (bk_growStorage s (m_offSet a + zlen l + n)) as [s' b] eqn:Eg.
  apply bk_grow_ok in Eg as [-> Hd]; [|lia].
  destruct Hb as [Hwf Hv]. pose proof Hwf as [? ? Hin Hsz ? ? ?].
  set (a' := mkUba _ _ _ _).
  assert (zlen (bk_data s') = Z.max (m_offSet a + zlen l + n) (zlen (bk_data s))) as Hlen
    by (rewrite Hd, length_vresize; lia).
  assert (uba_wf (bk_data s') a') as Hwf'.
  { split; cbn; try done; try lia. rewrite Hd. apply Forall_vresize; [done|unfold fits; lia]. }
  pose proof (length_view _ _ Hwf') as Hl'. cbn in Hl'.
  exists s', (drop (length l) (view (bk_data s') a')). split; [done|]. split.
  - split; [done|]. rewrite <- (take_drop (length l) (view (bk_data s') a')) at 1. f_equal.
    rewrite <- Hv at 2. apply list_eq. intros i.
    destruct (decide (i < length l)%nat) as [Hi|Hi].
    + rewrite lookup_take_lt by lia. rewrite !lookup_view by done. cbn.
      rewrite !(proj2 (Z.ltb_lt _ _)) by lia.
      rewrite Hd, lookup_vresize by lia. rewrite (proj2 (Z.ltb_lt _ _)) by lia.
      destruct (lookup_lt_is_Some_2 (bk_data s) (Z.to_nat (m_offSet a) + i)) as [x ->]; [lia|done].
    + rewrite lookup_take_ge by lia. rewrite lookup_view by done.
      rewrite (proj2 (Z.ltb_ge _ _)) by lia. done.
  - rewrite length_drop. lia.
Qed.

Lemma resizeForPush_ok (s : S) a l p n :
  buf s a l -> 0 <= p <= zlen l -> 0 <= n -> m_offSet a + p + n < 2 ^ 64 ->
  exists s' a' ext,
    resizeForPush s a p n = (s', a', true) /\ buf s' a' (l ++ ext) /\
    zlen l + zlen ext = Z.max (zlen l) (p + n) /\
    m_offSet a' = m_offSet a /\ m_getPtr a' = m_getPtr a /\ m_putPtr a' = m_putPtr a.
Proof using.
  intros Hb Hp Hn Hf. pose proof (buf_len _ _ _ Hb) as Hl. pose proof (buf_fits _ _ _ Hb).
  unfold resizeForPush. rewrite Hl, (wrap_small 64 (p + n)) by (unfold fits; lia).
  destruct (Z.ltb_spec (zlen l) (p + n)).
  - rewrite wrap_small by (unfold fits; lia).
    destruct (growStorage_ok s a l (p + n - zlen l) Hb) as (s' & ext & -> & Hb' & He); [lia|lia|].
    eexists _, _, _. split; [done|]. split; [exact Hb'|]. cbn. split; [lia|done].
  - exists s, a, []. rewrite app_nil_r. cbn [length]. split; [done|]. split; [done|].
    split; [lia|done].
Qed.

Lemma splice_grown (l ext bs : list Z) p :
  0 <= p <= zlen l -> zlen l + zlen ext = Z.max (zlen l) (p + zlen bs) ->
  splice (l ++ ext) p bs = splice l p bs.
Proof using.
  intros Hp He. unfold splice. rewrite take_app_le by lia. do 2 f_equal.
  destruct (decide (ext = [])) as [->|Hne]; [by rewrite app_nil_r|].
  assert (0 < zlen ext) by (destruct ext; [done|cbn [length]; lia]).
  rewrite !drop_ge; [done|lia|rewrite length_app; lia].
Qed.

(** [bs] went to the put position, which moved behind it. *)
Record pushed (a : uba) (l bs : list Z) (s' : S) (a' : uba) : Prop := {
  pushed_buf : buf s' a' (splice l (m_putPtr a) bs);
  pushed_off : m_offSet a' = m_offSet a;
  pushed_get : m_getPtr a' = m_getPtr a;
  pushed_put : m_putPtr a' = m_putPtr a + zlen bs;
}.

Lemma buf_ptrs (s : S) a l g p :
  buf s a l -> fits 64 g -> fits 64 p -> buf s (mkUba (m_offSet a) (m_len a) g p) l.
Proof using. intros [[] Hv] Hg Hp. by split. Qed.

(** Every streaming putter grows the window, stores and advances. *)
Lemma pushed_intro (s' : S) a a' l ext bs :
  0 <= m_putPtr a <= zlen l -> zlen l + zlen ext = Z.max (zlen l) (m_putPtr a + zlen bs) ->
  m_offSet a' = m_offSet a /\ m_getPtr a' = m_getPtr a /\ m_putPtr a' = m_putPtr a ->
  buf s' a' (splice (l ++ ext) (m_putPtr a) bs) ->
  pushed a l bs s' (advPut a' (zlen bs)).
Proof using.
  intros Hp He (Ho & Hg & Hpp) Hb. rewrite splice_grown in Hb by done.
  pose proof (buf_fits _ _ _ Hb).
  assert (zlen (splice l (m_putPtr a) bs) = Z.max (zlen l) (m_putPtr a + zlen bs)) as Hl.
  { unfold splice. rewrite !length_app, length_take, length_drop. lia. }
  unfold advPut. rewrite Hpp, wrap_small by (unfold fits; lia).
  split; cbn; try done. apply buf_ptrs; [done|apply Hb|unfold fits; lia].
Qed.

Section put.
Context (s : S) (a : uba) (l : list Z).
Context (Hb : buf s a l) (Hp : 0 <= m_putPtr a <= zlen l).

Lemma sput_ok ty v bs :
  scalar_pack ty v = Ok bs -> zlen bs = scalar_len ty -> bytes_ok bs ->
  m_offSet a + m_putPtr a + zlen bs < 2 ^ 64 ->
  exists s' a', uba_sput ty s a v = Ok (s', a') /\ pushed a l bs s' a'.
Proof using Hb Hp.
  intros Hpk Hl Hok Hf. unfold uba_sput. rewrite <- Hl.
  destruct (resizeForPush_ok s a l (m_putPtr a) (zlen bs) Hb Hp)
    as (s1 & a1 & ext & -> & Hb1 & He & Ho & Hg & Hpp); [lia|lia|].
  destruct (buf_put ty s1 a1 (l ++ ext) (m_putPtr a1) v bs Hb1) as (s' & Hput & Hb' & _);
    [lia|rewrite length_app; lia|done|done|done|].
  rewrite Hput, bind_ok_l. eexists _, _. split; [done|].
  eapply pushed_intro; [done|exact He|done|by rewrite <- Hpp].
Qed.

Lemma sputData_ok bs :
  bytes_ok bs -> m_offSet a + m_putPtr a + zlen bs < 2 ^ 64 ->
  exists s' a', uba_sputData s a bs = Ok (s', a') /\ pushed a l bs s' a'.
Proof using Hb Hp.
  intros Hok Hf. unfold uba_sputData.
  destruct (resizeForPush_ok s a l (m_putPtr a) (zlen bs) Hb Hp)
    as (s1 & a1 & ext & -> & Hb1 & He & Ho & Hg & Hpp); [lia|lia|].
  destruct (buf_putData s1 a1 (l ++ ext) (m_putPtr a1) bs Hb1 Hok) as (s' & Hput & Hb');
    [lia|rewrite length_app; lia|].
  rewrite Hput, bind_ok_l. eexists _, _. split; [done|].
  eapply pushed_intro; [done|exact He|done|by rewrite <- Hpp].
Qed.

Lemma sputVl_ok ty v bs :
  vl_pack ty v (vl_max_len ty) = Ok (zlen bs, bs) -> bytes_ok bs ->
  m_offSet a + m_putPtr a + zlen bs < 2 ^ 64 ->
  exists s' a', uba_sputVl ty s a v = Ok (s', a', zlen bs) /\ pushed a l bs s' a'.
Proof using Hb Hp.
  intros Hpk Hok Hf. unfold uba_sputVl. rewrite Hpk, bind_ok_l.
  rewrite (proj2 (Z.ltb_ge _ _)) by lia.
  destruct (sputData_ok bs Hok Hf) as (s' & a' & -> & Hpu). by exists s', a'.
Qed.
End put.

Lemma zlen_splice_grow (l bs : list Z) p : 0 <= p <= zlen l -> zlen (splice l p bs) = Z.max (zlen l) (p + zlen bs).
Proof using. clear. intros Hp. unfold splice. rewrite !length_app, length_take, length_drop. lia. Qed.

Lemma splice_splice (l b1 b2 : list Z) p :
  0 <= p <= zlen l ->
  splice (splice l p b1) (p + zlen b1) b2 = splice l p (b1 ++ b2).
Proof using.
  intros Hp. unfold splice. rewrite <- !app_assoc.
  assert (length (take (Z.to_nat p) l) = Z.to_nat p) as Ht by (rewrite length_take; lia).
  replace (Z.to_nat (p + zlen b1)) with (Z.to_nat p + length b1)%nat by lia.
  rewrite take_app_ge by lia. rewrite Ht.
  replace (Z.to_nat p + length b1 - Z.to_nat p)%nat with (length b1) by lia.
  rewrite take_app_length, <- app_assoc. do 3 f_equal.
  rewrite drop_app_ge by lia. rewrite drop_app_ge by lia. rewrite drop_drop, length_app, Ht.
  f_equal. lia.
Qed.

Lemma buf_putVl ty (s : S) a l pos v bs :
  buf s a l -> 0 <= pos -> pos + zlen bs <= zlen l -> 0 < zlen bs ->
  vl_pack ty v (zlen l - pos) = Ok (zlen bs, bs) -> bytes_ok bs ->
  exists s', uba_putVl ty s a pos v = Ok (s', zlen bs) /\ buf s' a (splice l pos bs).
Proof using.
  intros Hb Hp Hl H0 Hpk Hok. pose proof (buf_len _ _ _ Hb) as Hlen. pose proof (buf_fits _ _ _ Hb).
  unfold uba_putVl. rewrite range_check_eq by (unfold fits; lia).
  rewrite (proj2 (Z.ltb_ge _ _)) by lia.
  rewrite bind_ok_l, !wrap_small by (unfold fits; lia). rewrite Hlen.
  pose proof (bk_putVl_ok ty s (m_offSet a + pos) v (zlen l - pos) _ _ ltac:(lia) Hpk H0) as Hw.
  rewrite vwrite_in in Hw by (destruct Hb as [[] _]; lia).
  destruct (bk_putVl ty s (m_offSet a + pos) v (zlen l - pos)) as [[s' n]|]; cbn in Hw; [|done].
  injection Hw as Hd ->. rewrite bind_ok_l, (proj2 (Z.ltb_ge _ _)) by lia.
  exists s'. split; [done|]. by apply (buf_store s); [| |lia|lia|].
Qed.

Definition string_ok (str : list Z) : Prop := zlen str + 5 < 2 ^ 31 /\ bytes_ok str.

(** Length prefix and characters. *)
Definition string_bytes (str : list Z) : list Z :=
  vbytes (Z.to_nat (packed_len (zlen str))) (zlen str) ++ str.

Lemma string_prefix str : string_ok str ->
  let bs := vbytes (Z.to_nat (packed_len (zlen str))) (zlen str) in
  fits 32 (zlen str) /\ zlen bs = packed_len (zlen str) /\ 1 <= zlen bs <= 5 /\
  (forall avail, zlen bs <= avail -> vl_pack VlUint32 (zlen str) avail = Ok (zlen bs, bs)) /\
  (forall rest, vl_unpack VlUint32 (bs ++ rest) = Ok (zlen str, zlen bs)).
Proof using.
  intros [Hs _] bs. assert (fits 32 (zlen str)) as Hf by (unfold fits; lia).
  assert (zlen bs = packed_len (zlen str)) as Hl.
  { unfold bs. rewrite length_vbytes. pose proof (packed_len_pos (zlen str)). lia. }
  split; [done|]. split; [done|]. split.
  { rewrite Hl. split; [apply packed_len_pos|]. by apply (packed_len_bound _ 32). }
  rewrite Hl. split; intros.
  - rewrite vl_pack_u32, p_v_u32_eq by done. f_equal. by apply p_v_spec_enough.
  - apply up_v_vbytes; [by left|done].
Qed.

(** A string goes into a window that has room for it. *)
Lemma buf_putString (s : S) a l pos str :
  buf s a l -> 0 <= pos -> string_ok str -> pos + zlen (string_bytes str) <= zlen l ->
  exists s', uba_putString s a pos str = Ok (s', zlen (string_bytes str)) /\
    buf s' a (splice l pos (string_bytes str)).
Proof using.
  intros Hb Hp Hs Hl. pose proof (buf_len _ _ _ Hb) as Hlen. pose proof (buf_fits _ _ _ Hb).
  pose proof (string_prefix str Hs) as (Hf & Hpl & Hr & Hpk & _).
  set (pre := vbytes _ _) in *. unfold string_bytes in *. fold pre in Hl |- *.
  pose proof (proj1 Hs). rewrite length_app in Hl.
  unfold uba_putString, psize_vu32. rewrite (wrap_small 32) by done.
  rewrite psize_v_eq by (by left || done). rewrite bind_ok_l, <- Hpl.
  rewrite wrap_small by (unfold fits; lia). rewrite range_check_eq by (unfold fits; lia).
  rewrite (proj2 (Z.ltb_ge _ _)) by lia. rewrite bind_ok_l.
  destruct (buf_putVl VlUint32 s a l pos (zlen str) pre Hb) as (s1 & -> & Hb1);
    [done|lia|lia|apply Hpk; lia|apply vbytes_ok|].
  rewrite bind_ok_l, wrap_small by (unfold fits; lia).
  destruct (buf_putData s1 a _ (pos + zlen pre) str Hb1) as (s2 & -> & Hb2); [apply Hs|lia| |].
  { rewrite length_splice; lia. }
  rewrite bind_ok_l. exists s2. split.
  - unfold mret, result_ret. do 2 f_equal. rewrite length_app, swrap_small; [lia|lia|].
    unfold sfits. lia.
  - by rewrite splice_splice in Hb2 by lia.
Qed.

Lemma sputString_ok (s : S) a l str :
  buf s a l -> 0 <= m_putPtr a <= zlen l -> string_ok str ->
  m_offSet a + m_putPtr a + zlen (string_bytes str) < 2 ^ 64 ->
  exists s' a', uba_sputString s a str = Ok (s', a') /\ pushed a l (string_bytes str) s' a'.
Proof using.
  intros Hb Hp Hs Hf. pose proof (string_prefix str Hs) as (Hfs & Hpl & Hr & Hpk & _).
  assert (zlen (string_bytes str) = packed_len (zlen str) + zlen str) as Hl.
  { unfold string_bytes. rewrite length_app. lia. }
  pose proof (buf_fits _ _ _ Hb). pose proof (proj1 Hs).
  unfold uba_sputString, psize_vu32. rewrite (wrap_small 32) by done.
  rewrite psize_v_eq by (by left || done). rewrite bind_ok_l.
  rewrite wrap_small by (unfold fits; lia). rewrite <- Hl.
  destruct (resizeForPush_ok s a l (m_putPtr a) (zlen (string_bytes str)) Hb Hp)
    as (s1 & a1 & ext & -> & Hb1 & He & Ho & Hg & Hpp); [lia|lia|]. cbn [negb].
  destruct (buf_putString s1 a1 (l ++ ext) (m_putPtr a1) str Hb1) as (s' & Hput & Hb');
    [lia|done|rewrite length_app; lia|].
  rewrite Hput, bind_ok_l. rewrite (proj2 (Z.leb_le _ _)) by lia.
  eexists _, _. split; [done|].
  eapply pushed_intro; [done|exact He|done|by rewrite <- Hpp].
Qed.

(** ** Reading at the get position *)

Lemma vread_middle (pre bs rest : list Z) n :
  n = zlen bs -> vread (pre ++ bs ++ rest) (zlen pre) n = Ok bs.
Proof using.
  intros ->. apply vread_ok. rewrite !length_app, !Nat2Z.id, drop_app_length, take_app_length.
  repeat split; lia.
Qed.

Lemma buf_get_middle ty (s : S) a pre bs rest v :
  buf s a (pre ++ bs ++ rest) -> zlen bs = scalar_len ty -> scalar_unpack ty bs = Ok v ->
  uba_get ty s a (zlen pre) = Ok v.
Proof using.
  intros Hb Hl Hu. pose proof (buf_fits _ _ _ Hb) as Hf. rewrite !length_app in Hf.
  rewrite (buf_get _ _ _ _ _ Hb) by lia. rewrite !length_app, (proj2 (Z.ltb_ge _ _)) by lia.
  by rewrite vread_middle, bind_ok_l by done.
Qed.

Lemma vread_middle_more (pre bs rest : list Z) n :
  zlen bs <= n <= zlen (bs ++ rest) ->
  exists rest', vread (pre ++ bs ++ rest) (zlen pre) n = Ok (bs ++ rest').
Proof using.
  intros [H1 H2]. exists (take (Z.to_nat n - length bs) rest).
  apply vread_ok. rewrite length_app, Nat2Z.id, drop_app_length.
  rewrite take_app_ge by lia. repeat split; lia.
Qed.

Lemma buf_getVl_middle ty (s : S) a pre bs rest v :
  buf s a (pre ++ bs ++ rest) -> 1 <= zlen bs <= vl_max_len ty ->
  (forall rest, vl_unpack ty (bs ++ rest) = Ok (v, zlen bs)) ->
  uba_getVl ty s a (zlen pre) = Ok (v, zlen bs).
Proof using.
  intros Hb Hl Hu. pose proof (buf_len _ _ _ Hb) as Hlen. pose proof (buf_fits _ _ _ Hb) as Hf.
  assert (vl_max_len ty <= 10) by (by destruct ty).
  rewrite !length_app in Hlen, Hf.
  unfold uba_getVl. rewrite range_check_eq by (unfold fits; lia).
  rewrite (proj2 (Z.ltb_ge _ _)) by lia. rewrite bind_ok_l, !wrap_small by (unfold fits; lia).
  rewrite bk_getVl_ok by lia. rewrite vread_view by (apply Hb || lia). rewrite (proj2 Hb).
  destruct (vread_middle_more pre bs rest (Z.min (vl_max_len ty) (m_len a - zlen pre)))
    as [rest' ->]; [rewrite length_app; lia|].
  rewrite bind_ok_l, Hu, bind_ok_l. by rewrite (proj2 (Z.ltb_ge _ _)) by lia.
Qed.

Lemma buf_getBytes (s : S) a pre bs rest :
  buf s a (pre ++ bs ++ rest) -> uba_getBytes (length bs) s a (zlen pre) = Ok bs.
Proof using.
  revert pre. induction bs as [|b bs IH]; intros pre Hb; [done|].
  cbn [length uba_getBytes]. pose proof (buf_fits _ _ _ Hb) as Hf.
  rewrite !length_app in Hf. cbn [length] in Hf.
  rewrite (buf_at _ _ _ _ Hb) by lia.
  rewrite !length_app, (proj2 (Z.ltb_ge _ _)) by (cbn [length]; lia).
  assert (vget (pre ++ (b :: bs) ++ rest) (zlen pre) = Ok b) as ->.
  { apply vget_ok. split; [lia|]. rewrite Nat2Z.id. by apply list_lookup_middle. }
  rewrite bind_ok_l, wrap_small by (unfold fits; lia).
  specialize (IH (pre ++ [b])). rewrite <- app_assoc in IH. specialize (IH Hb).
  rewrite length_app in IH. cbn [length] in IH.
  replace (zlen pre + 1) with (Z.of_nat (length pre + 1)) by lia.
  by rewrite IH, bind_ok_l.
Qed.

Lemma buf_getData_middle (s : S) a pre bs rest :
  buf s a (pre ++ bs ++ rest) -> uba_getData s a (zlen pre) (zlen bs) = Ok bs.
Proof using.
  intros Hb. pose proof (buf_len _ _ _ Hb) as Hlen. pose proof (buf_fits _ _ _ Hb) as Hf.
  rewrite !length_app in Hlen, Hf.
  unfold uba_getData. rewrite range_check_eq by (unfold fits; lia).
  rewrite (proj2 (Z.ltb_ge (m_len a) (zlen pre + 0))) by lia.
  rewrite bind_ok_l, !wrap_small by (unfold fits; lia).
  rewrite (proj2 (Z.ltb_ge (m_len a) (zlen pre + zlen bs))) by lia. rewrite bk_getData_ok, vread_view by (apply Hb || lia).
  by rewrite (proj2 Hb), vread_middle.
Qed.

(** ** Streams of items *)

Inductive item :=
  | IScalar (ty : scalar) (v : Z)
  | IVl (ty : vlscalar) (v : Z)
  | IString (str : list Z)
  | IData (bs : list Z).

Definition item_ok (it : item) : Prop :=
  match it with
  | IScalar ty v => scalar_ok ty v
  | IVl ty v => vl_ok ty v
  | IString str => string_ok str
  | IData bs => bytes_ok bs
  end.

(** The streaming putter of an item. *)
Definition put_item (s : S) (a : uba) (it : item) : result (S * uba) :=
  match it with
  | IScalar ty v => uba_sput ty s a v
  | IVl ty v => '(s, a, _) ← uba_sputVl ty s a v; mret (s, a)
  | IString str => uba_sputString s a str
  | IData bs => uba_sputData s a bs
  end.

(** The streaming getter that matches it; only the type of the item, and the
    length of raw data, are used. *)
Definition get_item (s : S) (a : uba) (shape : item) : result (uba * item) :=
  match shape with
  | IScalar ty _ => '(a, v) ← uba_sget ty s a; mret (a, IScalar ty v)
  | IVl ty _ => '(a, v) ← uba_sgetVl ty s a; mret (a, IVl ty v)
  | IString _ => '(a, str) ← uba_sgetString s a; mret (a, IString str)
  | IData bs => '(a, d) ← uba_sgetData s a (zlen bs); mret (a, IData d)
  end.

Fixpoint put_items (s : S) (a : uba) (its : list item) : result (S * uba) :=
  match its with
  | [] => Ok (s, a)
  | it :: its => '(s, a) ← put_item s a it; put_items s a its
  end.

Fixpoint get_items (s : S) (a : uba) (shapes : list item) : result (uba * list item) :=
  match shapes with
  | [] => Ok (a, [])
  | it :: its => '(a, x) ← get_item s a it; '(a, xs) ← get_items s a its; mret (a, x :: xs)
  end.

(** The bytes of an item, and what reading them back means. *)
Definition item_bytes (it : item) : list Z :=
  match it with
  | IScalar ty v => match scalar_pack ty v with Ok bs => bs | Err _ => [] end
  | IVl ty v => match vl_pack ty v (vl_max_len ty) with Ok (_, bs) => bs | Err _ => [] end
  | IString str => string_bytes str
  | IData bs => bs
  end.

Record encodes (it : item) (bs : list Z) : Prop := {
  enc_put (s : S) a l :
    buf s a l -> 0 <= m_putPtr a <= zlen l -> m_offSet a + m_putPtr a + zlen bs < 2 ^ 64 ->
    exists s' a', put_item s a it = Ok (s', a') /\ pushed a l bs s' a';
  enc_get (s : S) a pre rest :
    buf s a (pre ++ bs ++ rest) -> m_getPtr a = zlen pre ->
    get_item s a it = Ok (advGet a (zlen bs), it);
}.

Lemma item_encodes it : item_ok it -> encodes it (item_bytes it).
Proof using BO.
  intros Hok. destruct it as [ty v|ty v|str|bs]; cbn [item_ok item_bytes] in *.
  - destruct (scalar_pack_ok ty v Hok) as (bs & Hpk & Hl & Hbo & Hu). rewrite Hpk. split.
    + intros. by eapply sput_ok.
    + intros s a pre rest Hb Hg. cbn [get_item]. unfold uba_sget. rewrite Hg.
      by rewrite (buf_get_middle ty s a pre bs rest v Hb Hl Hu), bind_ok_l, <- Hl.
  - destruct (vl_pack_ok ty v Hok) as (bs & Hl & Hbo & Hpk & Hu & _).
    rewrite (Hpk _ (proj2 Hl)). split.
    + intros s a l Hb Hp Hf. cbn [put_item].
      destruct (sputVl_ok s a l Hb Hp ty v bs (Hpk _ (proj2 Hl)) Hbo Hf) as (s' & a' & -> & ?).
      by exists s', a'.
    + intros s a pre rest Hb Hg. cbn [get_item]. unfold uba_sgetVl. rewrite Hg.
      rewrite (buf_getVl_middle ty s a pre bs rest v Hb Hl Hu), !bind_ok_l.
      by rewrite (proj2 (Z.ltb_lt _ _)) by lia.
  - split; [intros; by apply sputString_ok|].
    intros s a pre rest Hb Hg. cbn [get_item]. unfold uba_sgetString, uba_sgetVl. rewrite Hg.
    pose proof (string_prefix str Hok) as (Hf & _ & Hr & _ & Hu).
    pose proof (buf_fits _ _ _ Hb) as Hfit.
    unfold string_bytes in *. set (len := vbytes _ _) in *.
    rewrite <- app_assoc in Hb. rewrite !length_app in Hfit.
    rewrite (buf_getVl_middle VlUint32 s a pre len (str ++ rest) (zlen str) Hb Hr Hu).
    rewrite bind_ok_l, (proj2 (Z.ltb_lt _ _)) by lia.
    pose proof (buf_len _ _ _ Hb) as Hlen. rewrite !length_app in Hlen.
    unfold advGet in *. unfold mret, result_ret. rewrite bind_ok_l. cbn [m_len m_getPtr].
    rewrite Hg, (wrap_small 64 (zlen pre + zlen len)) by (unfold fits; lia).
    rewrite (wrap_small 64 (zlen pre + zlen len + zlen str)) by (unfold fits; lia).
    rewrite (proj2 (Z.ltb_ge _ _)) by lia. rewrite orb_false_r, length_app.
    destruct (Z.eqb_spec (zlen str) 0) as [E|E].
    { destruct str; [|cbn [length] in E; lia]. cbn [length m_offSet m_len m_putPtr].
      rewrite bind_ok_l, Nat.add_0_r. by rewrite wrap_small by (unfold fits; lia). }
    rewrite Nat2Z.id. specialize (buf_getBytes s (advGet a (zlen len)) (pre ++ len) str rest).
    rewrite length_app, Nat2Z.inj_add, <- app_assoc. unfold advGet. rewrite Hg.
    rewrite (wrap_small 64) by (unfold fits; lia). intros ->.
    + rewrite !bind_ok_l. cbn [m_offSet m_len m_putPtr m_getPtr].
      rewrite !(wrap_small 64) by (unfold fits; lia).
      unfold mret, result_ret. do 3 f_equal. lia.
    + apply buf_ptrs; [done|unfold fits; lia|apply Hb].
  - split; [intros; by apply sputData_ok|].
    intros s a pre rest Hb Hg. cbn [get_item]. unfold uba_sgetData. rewrite Hg.
    by rewrite (buf_getData_middle s a pre bs rest Hb), !bind_ok_l.
Qed.

(** Putting a list of items stores the concatenation of their encodings. *)
Lemma put_items_ok its bss : Forall2 encodes its bss -> forall (s : S) a l,
  buf s a l -> 0 <= m_putPtr a <= zlen l -> m_offSet a + m_putPtr a + zlen (concat bss) < 2 ^ 64 ->
  exists s' a', put_items s a its = Ok (s', a') /\ pushed a l (concat bss) s' a'.
Proof using.
  induction 1 as [|it bs its bss Henc _ IH]; intros s a l Hb Hp Hf; cbn [concat put_items] in *.
  - exists s, a. split; [done|]. split; try done; [|cbn [length]; lia].
    unfold splice. cbn [app length]. by rewrite Nat.add_0_r, take_drop.
  - rewrite length_app in Hf.
    destruct (enc_put _ _ Henc s a l Hb Hp) as (s1 & a1 & Hput & [Hb1 Ho1 Hg1 Hp1]); [lia|].
    assert (zlen (splice l (m_putPtr a) bs) = Z.max (zlen l) (m_putPtr a + zlen bs)) as Hl1.
    { unfold splice. rewrite !length_app, length_take, length_drop. lia. }
    destruct (IH s1 a1 _ Hb1) as (s2 & a2 & Hputs & [Hb2 Ho2 Hg2 Hp2]); [lia|lia|].
    rewrite Hput, bind_ok_l, Hputs. exists s2, a2. split; [done|].
    split; [|congruence|congruence|rewrite length_app; lia].
    assert (splice (splice l (m_putPtr a) bs) (m_putPtr a1) (concat bss)
            = splice l (m_putPtr a) (bs ++ concat bss)) as <-; [|done].
    by rewrite Hp1, splice_splice.
Qed.

Lemma get_items_ok its bss : Forall2 encodes its bss -> forall (s : S) a pre rest,
  buf s a (pre ++ concat bss ++ rest) -> m_getPtr a = zlen pre ->
  exists a', get_items s a its = Ok (a', its) /\
    m_getPtr a' = zlen pre + zlen (concat bss) /\ m_putPtr a' = m_putPtr a.
Proof using.
  induction 1 as [|it bs its bss Henc _ IH]; intros s a pre rest Hb Hg; cbn [concat get_items] in *.
  - exists a. cbn [length]. split; [done|]. split; [lia|done].
  - rewrite <- app_assoc in Hb. pose proof (buf_fits _ _ _ Hb) as Hf. rewrite !length_app in Hf.
    rewrite (enc_get _ _ Henc s a pre _ Hb Hg), bind_ok_l.
    assert (m_getPtr (advGet a (zlen bs)) = zlen (pre ++ bs)) as Hg'.
    { cbn [advGet m_getPtr]. rewrite Hg, wrap_small, length_app; [lia|unfold fits; lia]. }
    destruct (IH s (advGet a (zlen bs)) (pre ++ bs) rest) as (a' & -> & Hga & Hpa); [|done|].
    { rewrite <- app_assoc. unfold advGet. apply buf_ptrs; [done|apply wrap_fits; lia|apply Hb]. }
    exists a'. rewrite !bind_ok_l, Hga, !length_app. split; [done|]. split; [lia|done].
Qed.

Lemma items_encode its : Forall item_ok its -> Forall2 encodes its (map item_bytes its).
Proof using BO. induction 1; cbn [map]; constructor; auto using item_encodes. Qed.
(** The window holds [pre ++ rest] and the get position is behind [pre]. *)
Definition reading (s : S) (d : uba) (pre rest : list Z) : Prop :=
  buf s d (pre ++ rest) /\ m_getPtr d = zlen pre.

Lemma read_vl ty v (s : S) d pre rest : vl_ok ty v ->
  reading s d pre (item_bytes (IVl ty v) ++ rest) ->
  exists d', uba_sgetVl ty s d = Ok (d', v) /\ reading s d' (pre ++ item_bytes (IVl ty v)) rest.
Proof using BO.
  intros Hv [Hb Hg]. pose proof (enc_get _ _ (item_encodes (IVl ty v) Hv) s d pre rest Hb Hg) as He.
  set (bs := item_bytes (IVl ty v)) in *. cbn [get_item] in He.
  destruct (uba_sgetVl ty s d) as [[d' x]|e]; [|done]. rewrite bind_ok_l in He. unfold mret, result_ret in He.
  injection He as -> ->. eexists. split; [done|].
  pose proof (buf_fits _ _ _ Hb) as Hf. rewrite !length_app in Hf. split.
  - unfold advGet. apply buf_ptrs; [by rewrite <- app_assoc|apply wrap_fits; lia|apply Hb].
  - cbn [advGet m_getPtr]. rewrite Hg, length_app, wrap_small by (unfold fits; lia). lia.
Qed.

End streams.

(** ** Windows of a window *)

Section windows.
Context {S : Type} {B : Backend S} {BO : BackendOk S} (s : S) (a : uba) (l : list Z) (Hb : buf s a l).

(** [n] bytes from position [o] on. *)
Lemma buf_sub b o n :
  0 <= o -> 0 <= n -> o + n <= zlen l -> m_offSet b = m_offSet a + o -> m_len b = n ->
  fits 64 (m_getPtr b) -> fits 64 (m_putPtr b) -> buf s b (take (Z.to_nat n) (drop (Z.to_nat o) l)).
Proof using Hb.
  intros Ho Hn Hin Hoff Hlen Hg Hp. pose proof (buf_len _ _ _ Hb) as Hl. destruct Hb as [Hwf <-].
  destruct (sub_window (bk_data s) a Hwf o n b) as [Hwf' Hv]; try done; try lia.
Qed.

(** A window from position [o] of [a] on. *)
Lemma buf_tail b o :
  0 <= o <= zlen l -> m_offSet b = m_offSet a + o -> m_len b = zlen l - o ->
  fits 64 (m_getPtr b) -> fits 64 (m_putPtr b) -> buf s b (drop (Z.to_nat o) l).
Proof using Hb.
  intros Ho Hoff Hlen Hg Hp. rewrite <- (take_ge (drop (Z.to_nat o) l) (Z.to_nat (zlen l - o))).
  - apply buf_sub; try done; lia.
  - rewrite length_drop. lia.
Qed.

Local Lemma ptr_fits x y c d : 0 <= c -> c <= m_len a -> 0 <= d <= m_len a -> fits 64 x -> fits 64 y ->
  fits 64 (if 0 <? c then 0 else let g := u64 (x - c) in if d <=? g then d else g) /\
  fits 64 (if y <? c then 0 else y - c).
Proof using Hb.
  intros. pose proof (buf_len _ _ _ Hb). pose proof (buf_fits _ _ _ Hb). split.
  - case_match; [unfold fits; lia|]. cbv zeta. case_match; [unfold fits; lia|apply wrap_fits; lia].
  - unfold fits in *. destruct (Z.ltb_spec y c); lia.
Qed.

Lemma uba_from_ok m : 0 <= m <= zlen l -> buf s (uba_from a m) (drop (Z.to_nat m) l).
Proof using Hb.
  intros Hm. pose proof (buf_len _ _ _ Hb) as Hlen. pose proof (buf_fits _ _ _ Hb). pose proof Hb as [[] _].
  unfold uba_from. rewrite (proj2 (Z.ltb_ge _ _)) by lia.
  apply buf_tail; cbn [m_offSet m_len m_getPtr m_putPtr]; try lia.
  - apply wrap_small. unfold fits in *. lia.
  - apply (ptr_fits (m_getPtr a) (m_getPtr a)); done || lia.
  - apply (ptr_fits (m_putPtr a) (m_putPtr a)); done || lia.
Qed.

(** A length beyond the end is cut. *)
Lemma uba_from_len_ok o n : 0 <= o <= zlen l -> 0 <= n ->
  buf s (uba_from_len a o n) (take (Z.to_nat n) (drop (Z.to_nat o) l)).
Proof using Hb.
  intros Ho Hn. pose proof (buf_len _ _ _ Hb) as Hlen. pose proof (buf_fits _ _ _ Hb). pose proof Hb as [[] _].
  assert (take (Z.to_nat n) (drop (Z.to_nat o) l) = take (Z.to_nat (Z.min n (zlen l - o))) (drop (Z.to_nat o) l)) as ->.
  { destruct (Z.le_ge_cases n (zlen l - o)); [by rewrite Z.min_l by lia|].
    rewrite !take_ge; [done|rewrite length_drop; lia|rewrite length_drop; lia]. }
  unfold uba_from_len. rewrite (proj2 (Z.ltb_ge (m_len a) o)) by lia.
  assert ((if n <? m_len a - o then n else m_len a - o) = Z.min n (zlen l - o)) as ->.
  { destruct (Z.ltb_spec n (m_len a - o)); lia. }
  apply buf_sub; cbn [m_offSet m_len m_getPtr m_putPtr]; try lia.
  - apply wrap_small. unfold fits in *. lia.
  - apply (ptr_fits (m_getPtr a) (m_getPtr a)); done || lia.
  - apply (ptr_fits (m_putPtr a) (m_putPtr a)); done || lia.
Qed.

Lemma plus_assign_drop o : 0 <= o <= zlen l -> buf s (uba_plus_assign a o) (drop (Z.to_nat o) l).
Proof using Hb.
  intros Ho. pose proof (buf_len _ _ _ Hb) as Hlen. pose proof (buf_fits _ _ _ Hb). pose proof Hb as [[] _].
  unfold uba_plus_assign. rewrite (proj2 (Z.ltb_ge (m_len a) o)) by lia.
  apply buf_tail; cbn [m_offSet m_len m_getPtr m_putPtr]; try lia.
  - apply wrap_small. unfold fits in *. lia.
  - apply (ptr_fits (m_getPtr a) (m_getPtr a) o 0); done || lia.
  - apply (ptr_fits (m_putPtr a) (m_putPtr a) o 0); done || lia.
Qed.
End windows.

Lemma plus_assign_ok {S : Type} {B : Backend S} {BO : BackendOk S} (s : S) a bs rest :
  buf s a (bs ++ rest) -> buf s (uba_plus_assign a (zlen bs)) rest.
Proof.
  intros Hb. pose proof (plus_assign_drop s a _ Hb (zlen bs)) as Hd. rewrite Nat2Z.id, drop_app_length in Hd.
  apply Hd. rewrite length_app. lia.
Qed.

(** ** Numbers of variable length *)

Abbreviation vl_bytes ty v := (item_bytes (IVl ty v)).

Lemma vl_bytes_len ty v : vl_ok ty v -> 1 <= zlen (vl_bytes ty v) <= vl_max_len ty.
Proof.
  intros Hv. cbn [item_bytes]. destruct (vl_pack_ok ty v Hv) as (bs & Hl & _ & Hpk & _).
  by rewrite (Hpk _ (proj2 Hl)).
Qed.

(** Reading the number at the front and stepping behind it. *)
Lemma front_vl {S : Type} {B : Backend S} {BO : BackendOk S} ty v (s : S) a rest :
  vl_ok ty v -> buf s a (vl_bytes ty v ++ rest) ->
  uba_getVl ty s a 0 = Ok (v, zlen (vl_bytes ty v)) /\
  buf s (uba_plus_assign a (zlen (vl_bytes ty v))) rest.
Proof.
  intros Hv Hb. split; [|by apply plus_assign_ok]. revert Hb. cbn [item_bytes].
  destruct (vl_pack_ok ty v Hv) as (bs & Hl & _ & Hpk & Hu & _). rewrite (Hpk _ (proj2 Hl)). intros Hb.
  by apply (buf_getVl_middle ty s a [] bs rest v Hb).
Qed.

Lemma sput_vl {S : Type} {B : Backend S} {BO : BackendOk S} ty v (s : S) a l :
  vl_ok ty v -> buf s a l -> 0 <= m_putPtr a <= zlen l ->
  m_offSet a + m_putPtr a + zlen (vl_bytes ty v) < 2 ^ 64 ->
  exists s' a', uba_sputVl ty s a v = Ok (s', a', zlen (vl_bytes ty v)) /\ pushed a l (vl_bytes ty v) s' a'.
Proof.
  intros Hv Hb Hp. cbn [item_bytes].
  destruct (vl_pack_ok ty v Hv) as (bs & Hl & Hbo & Hpk & _). rewrite (Hpk _ (proj2 Hl)).
  intros Hf. apply sputVl_ok; try done. apply Hpk, Hl.
Qed.

(** The size functions agree. *)
Lemma vl_bytes_psize v :
  (fits 64 v -> psize_vu64 v = Ok (zlen (vl_bytes VlUint64 v))) /\
  (fits 32 v -> psize_vu32 v = Ok (zlen (vl_bytes VlUint32 v))) /\
  (- 2 ^ 63 < v < 2 ^ 63 -> psize_vs64 v = Ok (zlen (vl_bytes VlInt64 v))).
Proof.
  assert (forall w t, vl_width w -> fits w t ->
    psize_v w t = Ok (zlen (p_v w t (maxBytes w)).2)) as Hgo.
  { intros w t Hw Ht. destruct (maxBytes_enough w t Hw Ht). pose proof (packed_len_pos t).
    rewrite (psize_v_eq w t Hw Ht), (p_v_eq w t _ Hw Ht), p_v_spec_enough by lia. cbn [snd].
    rewrite length_vbytes. f_equal. lia. }
  split; [|split]; intros Hv; cbn [item_bytes vl_max_len].
  - unfold psize_vu64. rewrite (Hgo 64 v (or_intror eq_refl) Hv). change (maxBytes 64) with 10.
    cbn [vl_pack]. unfold p_vu64. change (p_v 64 v 10) with (p_v_u64 v 10). by destruct (p_v_u64 v 10).
  - unfold psize_vu32. rewrite (Hgo 32 v (or_introl eq_refl) Hv). change (maxBytes 32) with 5.
    rewrite vl_pack_u32. change (p_v 32 v 5) with (p_v_u32 v 5). by destruct (p_v_u32 v 5).
  - cbn [vl_pack]. unfold psize_vs64, psize_v_signed, p_vs64.
    destruct (zigzag_ok 64 v) as (t & -> & Ht & _); [lia|unfold sfits; lia|lia|].
    rewrite !bind_ok_l. rewrite (Hgo 64 t (or_intror eq_refl) Ht). change (maxBytes 64) with 10.
    unfold mret, result_ret. change (p_v 64 t 10) with (p_v_u64 t 10). by destruct (p_v_u64 t 10).
Qed.

(** ** What a write leaves alone *)

Section frames.
Context {S : Type} {B : Backend S} {BO : BackendOk S}.

(** The bytes of the storage in front of [o] are still there. *)
Definition frame (o : Z) (s s' : S) : Prop :=
  forall (i : nat) x, Z.of_nat i < o -> bk_data s !! i = Some x -> bk_data s' !! i = Some x.

Lemma frame_refl o s : frame o s s.
Proof using. by intros i x. Qed.

Lemma frame_trans o s1 s2 s3 : frame o s1 s2 -> frame o s2 s3 -> frame o s1 s3.
Proof using. intros H1 H2 i x Hi Hx. auto. Qed.

Lemma frame_le o o' s s' : o <= o' -> frame o' s s' -> frame o s s'.
Proof using. intros Ho H i x Hi Hx. apply H; [lia|done]. Qed.

Lemma frame_vwrite o s s' q bs : o <= q -> vwrite (bk_data s) q bs = Ok (bk_data s') -> frame o s s'.
Proof using.
  intros Hq Hw i x Hi Hx. apply vwrite_ok in Hw as [[H0 Hl] ->]. rewrite lookup_splice by lia.
  by rewrite (proj2 (Z.ltb_lt _ _)) by lia.
Qed.

Lemma growStorage_frame o s a n s' a' b : growStorage s a n = (s', a', b) ->
  frame o s s' /\ m_offSet a' = m_offSet a /\ m_putPtr a' = m_putPtr a.
Proof using.
  unfold growStorage. intros Hg. assert (frame o s s') as Hf.
  { destruct (_ <? _); [by simplify_eq; apply frame_refl|].
    destruct (bk_growStorage s _) as [s1 ok] eqn:E. apply bk_grow_ok in E as [-> Hd]; [|apply wrap_fits; lia].
    injection Hg as <- _ _. intros i x Hi Hx. pose proof (lookup_lt_Some _ _ _ Hx) as Hlt.
    rewrite Hd, lookup_vresize by lia. by rewrite (proj2 (Z.ltb_lt _ _)), Hx by lia. }
  split; [done|]. destruct (_ <? _); [by simplify_eq|]. destruct (bk_growStorage s _) as [s1 []]; by simplify_eq.
Qed.

Lemma resizeForPush_frame o s a p n s' a' b : resizeForPush s a p n = (s', a', b) ->
  frame o s s' /\ m_offSet a' = m_offSet a /\ m_putPtr a' = m_putPtr a.
Proof using.
  unfold resizeForPush. destruct (_ <? _); intros Hg; [by eapply growStorage_frame|].
  injection Hg as <- <- _. split; [apply frame_refl|done].
Qed.

Lemma put_frame ty s a pos v s' : fits 64 (m_offSet a + pos) -> 0 <= pos -> uba_put ty s a pos v = Ok s' -> frame (m_offSet a) s s'.
Proof using.
  intros Hf Hp. unfold uba_put. intros H. inv_result. rewrite wrap_small in H by done.
  pose proof (bk_put_ok ty s (m_offSet a + pos) v) as Hw. rewrite H in Hw. cbn in Hw.
  destruct (scalar_pack ty v) as [bs|]; [|done]. symmetry in Hw. apply (frame_vwrite (m_offSet a) s s' (m_offSet a + pos) _ ltac:(lia) Hw).
Qed.

Lemma putData_frame s a pos bs s' : fits 64 (m_offSet a + pos) -> 0 <= pos -> uba_putData s a pos bs = Ok s' -> frame (m_offSet a) s s'.
Proof using.
  intros Hf Hp. unfold uba_putData. destruct (_ =? _); [intros [= ->]; apply frame_refl|]. intros H. inv_result.
  rewrite wrap_small in H by done. pose proof (bk_putData_ok s (m_offSet a + pos) bs) as Hw. rewrite H in Hw. cbn in Hw.
  symmetry in Hw. apply (frame_vwrite (m_offSet a) s s' (m_offSet a + pos) _ ltac:(lia) Hw).
Qed.

Lemma sput_frame ty s a v s' a' : 0 <= m_putPtr a -> fits 64 (m_offSet a + m_putPtr a) ->
  uba_sput ty s a v = Ok (s', a') -> frame (m_offSet a) s s'.
Proof using.
  intros Hp Hf. unfold uba_sput. destruct (resizeForPush s a _ _) as [[s1 a1] []] eqn:E; [|done].
  apply (resizeForPush_frame (m_offSet a)) in E as (Hfr & Ho & Hpp). intros H. inv_result.
  eapply frame_trans; [exact Hfr|]. rewrite <- Ho. eapply (put_frame ty _ a1 (m_putPtr a1)); try done; rewrite ?Ho, Hpp; done.
Qed.

Lemma sputData_frame s a bs s' a' : 0 <= m_putPtr a -> fits 64 (m_offSet a + m_putPtr a) ->
  uba_sputData s a bs = Ok (s', a') -> frame (m_offSet a) s s'.
Proof using.
  intros Hp Hf. unfold uba_sputData. destruct (resizeForPush s a _ _) as [[s1 a1] []] eqn:E; [|done].
  apply (resizeForPush_frame (m_offSet a)) in E as (Hfr & Ho & Hpp). intros H. inv_result.
  eapply frame_trans; [exact Hfr|]. rewrite <- Ho. eapply (putData_frame _ a1 (m_putPtr a1)); try done; rewrite ?Ho, Hpp; done.
Qed.

Lemma sputVl_frame ty s a v s' a' n : 0 <= m_putPtr a -> fits 64 (m_offSet a + m_putPtr a) ->
  uba_sputVl ty s a v = Ok (s', a', n) -> frame (m_offSet a) s s'.
Proof using.
  intros Hp Hf. unfold uba_sputVl. intros H. apply bind_ok in H as ([len tmp] & _ & H).
  destruct (len <? 0); [injection H as <- _ _; apply frame_refl|].
  apply bind_ok in H as ([s1 a1] & H1 & H). injection H as -> _ _. by apply sputData_frame in H1.
Qed.

Lemma putVl_frame ty s a pos v s' n len bs : fits 64 (m_offSet a + pos) -> 0 <= pos -> 0 <= m_offSet a ->
  vl_pack ty v (u64 (m_len a - pos)) = Ok (len, bs) -> 0 < len ->
  uba_putVl ty s a pos v = Ok (s', n) -> frame (m_offSet a) s s'.
Proof using.
  intros Hf Hp Ho Hpk Hl. unfold uba_putVl. intros H. apply bind_ok in H as (_ & _ & H). rewrite wrap_small in H by done.
  pose proof (bk_putVl_ok ty s (m_offSet a + pos) v _ len bs ltac:(lia) Hpk Hl) as Hw.
  destruct (bk_putVl ty s (m_offSet a + pos) v _) as [[s1 m]|]; [|done]. rewrite bind_ok_l in H. cbn in Hw.
  assert (s1 = s') as -> by (destruct (m <? 0); [done|by injection H]).
  destruct (vwrite (bk_data s) _ bs) as [d|] eqn:E; [|done]. cbn in Hw. injection Hw as Hd _.
  rewrite <- Hd in E. apply (frame_vwrite (m_offSet a) s s' (m_offSet a + pos) _ ltac:(lia) E).
Qed.

Lemma sputString_frame s a l str s' a' : buf s a l -> 0 <= m_putPtr a <= zlen l -> string_ok str ->
  m_offSet a + m_putPtr a + zlen (string_bytes str) < 2 ^ 64 ->
  uba_sputString s a str = Ok (s', a') -> frame (m_offSet a) s s'.
Proof using.
  intros Hb Hp Hs Hf. pose proof (string_prefix str Hs) as (Hfs & Hpl & Hr & Hpk & _). pose proof (proj1 Hs).
  assert (zlen (string_bytes str) = packed_len (zlen str) + zlen str) as Hl by (unfold string_bytes; rewrite length_app; lia).
  pose proof (buf_fits _ _ _ Hb). unfold uba_sputString, psize_vu32. rewrite (wrap_small 32) by done.
  rewrite psize_v_eq by (by left || done). rewrite bind_ok_l, wrap_small by (unfold fits; lia). rewrite <- Hl.
  destruct (resizeForPush_ok s a l (m_putPtr a) (zlen (string_bytes str)) Hb Hp)
    as (s1 & a1 & ext & Hres & Hb1 & He & Ho & Hg & Hpp); [lia|lia|].
  destruct (resizeForPush_frame (m_offSet a) _ _ _ _ _ _ _ Hres) as (Hfr & _ & _). rewrite Hres. cbn [negb].
  intros H2. apply bind_ok in H2 as ([s2 pushed] & H2 & H3). assert (s2 = s') as -> by (by injection H3).
  eapply frame_trans; [exact Hfr|]. unfold uba_putString in H2. clear H3.
  apply bind_ok in H2 as (x & _ & H2). apply bind_ok in H2 as ([] & _ & H2).
  apply bind_ok in H2 as ([s3 len] & H3 & H2). apply bind_ok in H2 as (s4 & H4 & H2). injection H2 as -> _.
  pose proof (buf_len _ _ _ Hb1) as Hl1. rewrite length_app in Hl1. rewrite (wrap_small 32) in H3 by done.
  pose proof (buf_putVl VlUint32 s1 a1 (l ++ ext) (m_putPtr a1) (zlen str) (vbytes (Z.to_nat (packed_len (zlen str))) (zlen str)) Hb1 ltac:(lia)) as Hput.
  destruct Hput as (s5 & Hput & Hb5); [rewrite length_app; lia|lia|apply Hpk; rewrite length_app; lia|apply vbytes_ok|].
  rewrite Hput in H3. injection H3 as <- <-. rewrite <- Ho. eapply frame_trans.
  - eapply (putVl_frame VlUint32); [| | |apply Hpk| |exact Hput]; try lia; try (unfold fits; lia). rewrite wrap_small by (unfold fits; lia). lia.
  - eapply putData_frame; [| |exact H4]; rewrite wrap_small by (unfold fits; lia); [unfold fits; lia|lia].
Qed.

(** A window in front of [o] does not see the writes. *)
Lemma frame_buf o s s' a l : buf s a l -> frame o s s' -> m_offSet a + zlen l <= o ->
  zlen (bk_data s') < 2 ^ 64 -> bytes_ok (bk_data s') -> buf s' a l.
Proof using.
  intros Hb Hf Ho Hl Hok. pose proof (buf_len _ _ _ Hb) as Hlen. destruct Hb as [Hwf Hv]. pose proof Hwf as [].
  assert (forall i : nat, (i < length l)%nat -> bk_data s' !! (Z.to_nat (m_offSet a) + i)%nat = l !! i) as Heq.
  { intros i Hi. destruct (lookup_lt_is_Some_2 l i Hi) as [x Hx]. rewrite Hx. apply Hf; [lia|].
    rewrite <- Hv, (lookup_view _ _ _ Hwf) in Hx. by rewrite (proj2 (Z.ltb_lt _ _)) in Hx by lia. }
  assert (uba_wf (bk_data s') a) as Hwf'.
  { split; try done. destruct (decide (length l = 0%nat)) as [E|E].
    - destruct (Z_le_gt_dec (m_offSet a) (zlen (bk_data s'))); [lia|]. exfalso.
      destruct (lookup_lt_is_Some_2 (bk_data s) (length (bk_data s'))) as [x Hx]; [lia|].
      apply Hf in Hx; [|lia]. apply lookup_lt_Some in Hx. lia.
    - assert (is_Some (l !! (length l - 1)%nat)) as Hs by (apply lookup_lt_is_Some_2; lia).
      rewrite <- Heq in Hs by lia. apply lookup_lt_is_Some_1 in Hs. lia. }
  split; [done|]. apply list_eq. intros i. rewrite (lookup_view _ _ _ Hwf').
  destruct (Z.ltb_spec (Z.of_nat i) (m_len a)).
  - apply Heq. lia.
  - symmetry. apply lookup_ge_None_2. lia.
Qed.
End frames.

#[export] Hint Resolve frame_refl : core.

(** C1: round trip of a stream.  On any backend, putting a list of integers of
    fixed or variable length, strings and raw data in their ranges at the put
    position succeeds, growing the storage where needed; it stores exactly the
    concatenated encodings there and leaves every other byte of the window
    unchanged; getting items of the same types from that position on returns
    the list and leaves the get position at the put position. *)
Theorem stream_roundtrip {S} {B : Backend S} {BO : BackendOk S} (s : S) a l its :
  buf s a l -> 0 <= m_putPtr a <= zlen l -> Forall item_ok its ->
  m_offSet a + m_putPtr a + zlen (concat (map item_bytes its)) < 2 ^ 64 ->
  exists s' a' a'',
    put_items s a its = Ok (s', a') /\
    buf s' a' (splice l (m_putPtr a) (concat (map item_bytes its))) /\
    m_putPtr a' = m_putPtr a + zlen (concat (map item_bytes its)) /\
    get_items s' (setGetPtr a' (m_putPtr a)) its = Ok (a'', its) /\
    m_getPtr a'' = m_putPtr a'.
Proof.
  intros Hb Hp Hok Hf. apply items_encode in Hok.
  set (bs := concat _) in *.
  destruct (put_items_ok its _ Hok s a l Hb Hp Hf) as (s' & a' & Hput & [Hb' Ho' Hg' Hp']).
  fold bs in Hb', Hp'. pose proof (buf_len _ _ _ Hb') as Hl. pose proof (buf_fits _ _ _ Hb') as Hfit.
  assert (zlen (splice l (m_putPtr a) bs) = Z.max (zlen l) (m_putPtr a + zlen bs)) as Hsl.
  { unfold splice. rewrite !length_app, length_take, length_drop. lia. }
  assert (setGetPtr a' (m_putPtr a) = mkUba (m_offSet a') (m_len a') (m_putPtr a) (m_putPtr a')) as Hs.
  { unfold setGetPtr. f_equal. destruct (Z.leb_spec (m_len a') (m_putPtr a)); lia. }
  assert (zlen (take (Z.to_nat (m_putPtr a)) l) = m_putPtr a) as Ht by (rewrite length_take; lia).
  destruct (get_items_ok its _ Hok s' (setGetPtr a' (m_putPtr a))
    (take (Z.to_nat (m_putPtr a)) l) (drop (Z.to_nat (m_putPtr a) + length bs) l))
    as (a'' & Hget & Hga & _).
  - rewrite Hs. apply buf_ptrs; [exact Hb'|unfold fits; lia|apply Hb'].
  - rewrite Hs, Ht. done.
  - exists s', a', a''. rewrite Ht in Hga. split; [done|]. split; [done|]. split; [done|].
    split; [done|]. by rewrite Hga, Hp'.
Qed.

Lemma stream_roundtrip_witness :
  exists s' a' a'',
    put_items (Vec.mk [1; 2]) (mkUba 0 2 0 1)
      [IScalar Int32 (-5); IVl VlUint64 1000000; IString [104; 105]; IData [9]] = Ok (s', a') /\
    get_items s' (setGetPtr a' 1)
      [IScalar Int32 (-5); IVl VlUint64 1000000; IString [104; 105]; IData [9]] =
      Ok (a'', [IScalar Int32 (-5); IVl VlUint64 1000000; IString [104; 105]; IData [9]]).
Proof.
  destruct (stream_roundtrip (Vec.mk [1; 2]) (mkUba 0 2 0 1) [1; 2]
    [IScalar Int32 (-5); IVl VlUint64 1000000; IString [104; 105]; IData [9]])
    as (s' & a' & a'' & H1 & _ & _ & H2 & _).
  - split; [|reflexivity]. uba_wf_tac.
  - cbn. lia.
  - repeat constructor; vm_compute; try done.
  - vm_compute. reflexivity.
  - exists s', a', a''. split; [exact H1|exact H2].
Defined.

(** ** Positional access *)

Section positional.
Context {S : Type} {B : Backend S} {BO : BackendOk S}.



(** Every byte of the window in order. *)
Lemma buf_toString (s : S) a l : buf s a l -> uba_toString s a = Ok l.
Proof using.
  intros Hb. unfold uba_toString. rewrite (buf_len _ _ _ Hb), Nat2Z.id.
  rewrite <- (app_nil_r l) in Hb. apply (buf_getBytes s a [] l [] Hb).
Qed.

Lemma equal_loop_eq n (s t : S) a b l1 l2 i :
  buf s a l1 -> buf t b l2 -> zlen l1 = zlen l2 -> 0 <= i -> i + Z.of_nat n = zlen l1 ->
  equal_loop n s a t b i = Ok (bool_decide (drop (Z.to_nat i) l1 = drop (Z.to_nat i) l2)).
Proof using.
  intros Ha Hb Hl. revert i. induction n as [|n IH]; intros i Hi Hn; cbn [equal_loop].
  - rewrite !drop_ge by lia. done.
  - pose proof (buf_fits _ _ _ Ha). pose proof (buf_fits _ _ _ Hb).
    rewrite (buf_at _ _ _ _ Ha), (buf_at _ _ _ _ Hb) by lia.
    rewrite !(proj2 (Z.ltb_ge _ _)) by lia.
    destruct (vget_lt l1 i) as (x & -> & Hx); [lia|].
    destruct (vget_lt l2 i) as (y & -> & Hy); [lia|]. rewrite !bind_ok_l.
    rewrite (drop_S l1 x _ Hx), (drop_S l2 y _ Hy).
    destruct (Z.eqb_spec x y) as [->|Hne].
    + rewrite wrap_small by (unfold fits; lia). rewrite IH by lia.
      replace (Z.to_nat (i + 1)) with (Datatypes.S (Z.to_nat i)) by lia.
      f_equal. apply bool_decide_ext. split; congruence.
    + f_equal. symmetry. apply bool_decide_eq_false. congruence.
Qed.
End positional.



(** [toString] returns the window, and [equalContent] of two windows holds
    exactly when they see the same bytes. *)
Theorem content_observers {S} {B : Backend S} {BO : BackendOk S} (s t : S) a b l1 l2 :
  buf s a l1 -> buf t b l2 ->
  uba_toString s a = Ok l1 /\ uba_equalContent s a t b = Ok (bool_decide (l1 = l2)).
Proof.
  intros Ha Hb. split; [by apply buf_toString|]. unfold uba_equalContent.
  rewrite (buf_len _ _ _ Ha), (buf_len _ _ _ Hb). destruct (Z.eqb_spec (zlen l1) (zlen l2)) as [E|E].
  - rewrite Nat2Z.id. rewrite (equal_loop_eq _ s t a b l1 l2 0) by (done || lia).
    cbn [Z.to_nat]. by rewrite !drop_0.
  - f_equal. symmetry. apply bool_decide_eq_false. congruence.
Qed.

Lemma content_observers_witness :
  uba_equalContent (Vec.mk [1; 2; 3]) (mkUba 1 2 0 0) (Vec.mk [2; 3; 4]) (mkUba 0 2 1 1) = Ok true.
Proof.
  refine (proj2 (content_observers (Vec.mk [1; 2; 3]) (Vec.mk [2; 3; 4])
    (mkUba 1 2 0 0) (mkUba 0 2 1 1) [2; 3] [2; 3] _ _));
    (split; [uba_wf_tac|reflexivity]).
Defined.

(** The bounds check of the adapter adds position and length modulo
    [2^64], so a byte access at position [2^64 - 1] passes it on any window and
    reads the byte before the window. *)
Theorem range_check_wraps {S} {B : Backend S} {BO : BackendOk S} (s : S) a :
  uba_wf (bk_data s) a -> 0 < m_offSet a ->
  uba_at s a (2 ^ 64 - 1) = vget (bk_data s) (m_offSet a - 1) /\
  exists x, uba_at s a (2 ^ 64 - 1) = Ok x.
Proof.
  intros [? ? ? ? _ _ _] Ho. unfold uba_at, range_check.
  change (u64 (2 ^ 64 - 1 + 1)) with 0.
  rewrite (proj2 (Z.ltb_ge _ _)) by lia. unfold throw_if. rewrite bind_ok_l.
  assert (u64 (m_offSet a + (2 ^ 64 - 1)) = m_offSet a - 1) as ->.
  { replace (m_offSet a + (2 ^ 64 - 1)) with (m_offSet a - 1 + 1 * 2 ^ 64) by lia.
    unfold wrap. rewrite Z.mod_add by lia. apply Z.mod_small. lia. }
  rewrite bk_getUint8_ok.
  split; [done|]. destruct (vget_lt (bk_data s) (m_offSet a - 1)) as (x & -> & _); [lia|]. by exists x.
Qed.

Lemma range_check_wraps_witness :
  uba_at (Vec.mk [7; 8]) (mkUba 1 1 0 0) (2 ^ 64 - 1) = Ok 7.
Proof.
  refine (proj1 (range_check_wraps (Vec.mk [7; 8]) (mkUba 1 1 0 0) _ _)).
  - uba_wf_tac.
  - cbn; lia.
Defined.
