(* ===== verification/Bits.v ===== *)
(** Byte sequences as little-endian bit strings.

    Bit [8k+j] of the number [le_val l] is bit [j] of byte [k] of [l].  The
    packed arrays store fixed-width fields in this bit string; [field] reads
    one and [set_field] replaces one. *)

From S2P Require Import Prelude PackUnpack.

Section bits.
Implicit Types (l : list Z) (b : Z).

Lemma le_val_nonneg l : bytes_ok l -> 0 <= le_val l.
Proof. intros H. apply le_val_fits in H. unfold fits in H. lia. Qed.

Lemma testbit_le_val_cons b l i :
  byte_ok b -> 0 <= i ->
  Z.testbit (le_val (b :: l)) i = if i <? 8 then Z.testbit b i else Z.testbit (le_val l) (i - 8).
Proof.
  intros Hb Hi. cbn [le_val]. rewrite Z.lor_spec, testbit_shiftl' by lia.
  destruct (Z.ltb_spec i 8).
  - rewrite (proj2 (Z.leb_gt 8 i)) by lia. cbn [andb]. apply orb_false_r.
  - rewrite (proj2 (Z.leb_le 8 i)) by lia. by rewrite (testbit_fits_high 8 b i Hb) by lia.
Qed.

Lemma testbit_le_val l k b j :
  bytes_ok l -> l !! k = Some b -> 0 <= j < 8 ->
  Z.testbit (le_val l) (8 * Z.of_nat k + j) = Z.testbit b j.
Proof.
  intros Hl. revert k. induction Hl as [|c l Hc Hl IH]; intros [|k] Hk Hj; [done..| |].
  - injection Hk as ->. rewrite testbit_le_val_cons by (done || lia).
    by rewrite (proj2 (Z.ltb_lt _ 8)) by lia.
  - rewrite testbit_le_val_cons by (done || lia).
    rewrite (proj2 (Z.ltb_ge _ 8)) by lia. rewrite <- (IH k Hk Hj). f_equal. lia.
Qed.

(** A byte is eight bits of the string. *)
Lemma le_val_byte l k b :
  bytes_ok l -> l !! k = Some b -> b = wrap 8 (le_val l >>> (8 * Z.of_nat k)).
Proof.
  intros Hl Hk. assert (byte_ok b) as Hb by exact (Forall_lookup_1 _ _ _ _ Hl Hk).
  apply Z.bits_inj'. intros i Hi. rewrite testbit_wrap, Z.shiftr_spec by lia.
  destruct (Z.ltb_spec i 8); cbn [andb].
  - rewrite <- (testbit_le_val l k b i) by (done || lia). f_equal. lia.
  - by rewrite (testbit_fits_high 8 b i Hb) by lia.
Qed.

(** A block of bytes is a field of the string. *)
Lemma le_val_app l1 l2 :
  bytes_ok l1 -> le_val (l1 ++ l2) = le_val l1 ||| (le_val l2 <<< (8 * zlen l1)).
Proof.
  induction 1 as [|b l1 Hb Hl IH]; cbn [le_val app length].
  - cbn. by rewrite Z.shiftl_0_r.
  - rewrite IH. rewrite Z.shiftl_lor, Z.shiftl_shiftl by lia.
    rewrite Z.lor_assoc. do 2 f_equal. lia.
Qed.

Lemma le_val_take n l : bytes_ok l -> le_val (take n l) = wrap (8 * Z.of_nat n) (le_val l).
Proof.
  intros Hl. assert (bytes_ok (take n l)) as Ht by (by apply Forall_take).
  destruct (decide (n <= length l)%nat).
  - rewrite <- (take_drop n l) at 2. rewrite le_val_app by done.
    pose proof (le_val_fits _ Ht) as Hf. rewrite length_take in Hf |- *.
    replace (Z.of_nat (n `min` length l)) with (Z.of_nat n) in * by lia. bitwise.
  - rewrite take_ge by lia. symmetry. apply wrap_small. apply le_val_fits in Hl.
    eapply fits_mono; [|done]. lia.
Qed.

Lemma le_val_drop n l : bytes_ok l -> le_val (drop n l) = le_val l >>> (8 * Z.of_nat n).
Proof.
  intros Hl. destruct (decide (n <= length l)%nat).
  - rewrite <- (take_drop n l) at 2. rewrite le_val_app by (by apply Forall_take).
    pose proof (le_val_fits _ (Forall_take _ n _ Hl)) as Hf. rewrite length_take in Hf |- *.
    replace (Z.of_nat (n `min` length l)) with (Z.of_nat n) in * by lia.
    rewrite Z.shiftr_lor, Z.shiftr_shiftl_l, Z.sub_diag, Z.shiftl_0_r by lia.
    enough (le_val (take n l) >>> (8 * Z.of_nat n) = 0) as -> by done.
    rewrite Z.shiftr_div_pow2 by lia. apply Z.div_small. exact Hf.
  - rewrite drop_ge by lia. cbn. symmetry. rewrite Z.shiftr_div_pow2 by lia.
    apply Z.div_small. pose proof (le_val_fits _ Hl) as Hf.
    apply (fits_mono _ (8 * Z.of_nat n)) in Hf; [exact Hf|lia].
Qed.

Lemma le_val_block l p n bs :
  bytes_ok l -> vread l p n = Ok bs -> le_val bs = wrap (8 * n) (le_val l >>> (8 * p)).
Proof.
  intros Hl (Hp & Hn & Hin & ->)%vread_ok.
  rewrite le_val_take by (by apply Forall_drop). rewrite le_val_drop by done.
  by rewrite !Z2Nat.id by lia.
Qed.

(** Replacing a byte replaces its eight bits. *)
Lemma testbit_le_val_insert l k b i :
  bytes_ok l -> byte_ok b -> (k < length l)%nat -> 0 <= i ->
  Z.testbit (le_val (<[k := b]> l)) i =
    if (8 * Z.of_nat k <=? i) && (i <? 8 * Z.of_nat k + 8)
    then Z.testbit b (i - 8 * Z.of_nat k) else Z.testbit (le_val l) i.
Proof.
  intros Hl Hb. revert k i. induction Hl as [|c l Hc Hl IH]; intros [|k] i Hk Hi;
    cbn [length] in Hk; [lia..| |]; cbn [insert list_insert].
  - rewrite !testbit_le_val_cons by done. replace (8 * Z.of_nat 0) with 0 by lia.
    rewrite (proj2 (Z.leb_le 0 i)) by lia. rewrite andb_true_l, Z.sub_0_r, Z.add_0_l.
    by destruct (Z.ltb_spec i 8).
  - rewrite !testbit_le_val_cons by done. destruct (Z.ltb_spec i 8).
    + rewrite (proj2 (Z.leb_gt (8 * Z.of_nat (S k)) i)) by lia. done.
    + rewrite IH by lia.
      replace (8 * Z.of_nat (S k) <=? i) with (8 * Z.of_nat k <=? i - 8)
        by (destruct (Z.leb_spec (8 * Z.of_nat k) (i - 8)), (Z.leb_spec (8 * Z.of_nat (S k)) i); lia).
      replace (i <? 8 * Z.of_nat (S k) + 8) with (i - 8 <? 8 * Z.of_nat k + 8)
        by (destruct (Z.ltb_spec (i - 8) (8 * Z.of_nat k + 8)), (Z.ltb_spec i (8 * Z.of_nat (S k) + 8)); lia).
      destruct (_ && _); f_equal; lia.
Qed.

(** ** Fields of fixed width *)

(** Field [i] of [w] bits. *)
Definition field (w : Z) (l : list Z) (i : Z) : Z := wrap w (le_val l >>> (i * w)).

Lemma field_fits w l i : 0 <= w -> fits w (field w l i).
Proof. intros. by apply wrap_fits. Qed.

Lemma testbit_field w l i j : 0 <= w -> 0 <= i -> 0 <= j ->
  Z.testbit (field w l i) j = (j <? w) && Z.testbit (le_val l) (j + i * w).
Proof. intros. unfold field. rewrite testbit_wrap, Z.shiftr_spec by lia. done. Qed.

(** [l'] is [l] with the bits [off .. off+n) replaced by the lowest bits of [v]. *)
Definition bits_replaced (l l' : list Z) (off n v : Z) : Prop :=
  forall i, 0 <= i -> Z.testbit (le_val l') i =
    if (off <=? i) && (i <? off + n) then Z.testbit v (i - off) else Z.testbit (le_val l) i.

Lemma field_replaced_same w l l' i v :
  0 <= w -> 0 <= i -> bits_replaced l l' (i * w) w v -> field w l' i = wrap w v.
Proof.
  intros Hw Hi Hr. apply Z.bits_inj'. intros j Hj. rewrite testbit_field, testbit_wrap by lia.
  destruct (Z.ltb_spec j w); [|done]. cbn [andb]. rewrite Hr by nia.
  rewrite (proj2 (Z.leb_le (i * w) (j + i * w))), (proj2 (Z.ltb_lt (j + i * w) (i * w + w))) by lia.
  cbn [andb]. f_equal. lia.
Qed.

Lemma field_replaced_other w l l' i k v :
  0 <= w -> 0 <= i -> 0 <= k -> i <> k -> bits_replaced l l' (i * w) w v ->
  field w l' k = field w l k.
Proof.
  intros Hw Hi Hk Hne Hr. apply Z.bits_inj'. intros j Hj. rewrite !testbit_field by lia.
  destruct (Z.ltb_spec j w); [|done]. cbn [andb]. rewrite Hr by nia.
  destruct (Z.leb_spec (i * w) (j + k * w)), (Z.ltb_spec (j + k * w) (i * w + w)); try done.
  exfalso. apply Hne. nia.
Qed.

(** Bits of a concatenation and of an overwritten block. *)
Lemma testbit_le_val_app l1 l2 i :
  bytes_ok l1 -> 0 <= i ->
  Z.testbit (le_val (l1 ++ l2)) i =
    if i <? 8 * zlen l1 then Z.testbit (le_val l1) i else Z.testbit (le_val l2) (i - 8 * zlen l1).
Proof.
  intros Hl Hi. rewrite le_val_app, Z.lor_spec, testbit_shiftl' by (done || lia).
  pose proof (le_val_fits _ Hl) as Hf. destruct (Z.ltb_spec i (8 * zlen l1)).
  - rewrite (proj2 (Z.leb_gt (8 * zlen l1) i)) by lia. by rewrite orb_false_r.
  - rewrite (proj2 (Z.leb_le (8 * zlen l1) i)) by lia.
    by rewrite (testbit_fits_high _ _ i Hf) by lia.
Qed.

Lemma bits_replaced_splice l p bs :
  bytes_ok l -> bytes_ok bs -> 0 <= p -> p + zlen bs <= zlen l ->
  bits_replaced l (splice l p bs) (8 * p) (8 * zlen bs) (le_val bs).
Proof.
  intros Hl Hbs Hp Hin i Hi. unfold splice.
  assert (zlen (take (Z.to_nat p) l) = p) as Ht by (rewrite length_take; lia).
  rewrite testbit_le_val_app by (by apply Forall_take || lia). rewrite Ht.
  destruct (Z.ltb_spec i (8 * p)).
  - rewrite (proj2 (Z.leb_gt (8 * p) i)) by lia. cbn [andb].
    rewrite le_val_take by done. rewrite testbit_wrap by lia.
    by rewrite (proj2 (Z.ltb_lt _ _)) by lia.
  - rewrite (proj2 (Z.leb_le (8 * p) i)) by lia. cbn [andb].
    rewrite testbit_le_val_app by (done || lia).
    destruct (Z.ltb_spec (i - 8 * p) (8 * zlen bs)), (Z.ltb_spec i (8 * p + 8 * zlen bs)); try lia; [done|].
    rewrite le_val_drop by done. rewrite Z.shiftr_spec by lia. f_equal. lia.
Qed.

(** Consecutive replacements of adjacent runs of bits combine. *)
Lemma bits_replaced_app l l1 l2 off n m v v1 :
  0 <= n -> 0 <= m -> 0 <= off ->
  bits_replaced l l1 off n v -> bits_replaced l1 l2 (off + n) m v1 ->
  (forall i, 0 <= i < m -> Z.testbit v1 i = Z.testbit v (n + i)) ->
  bits_replaced l l2 off (n + m) v.
Proof.
  intros Hn Hm Ho H1 H2 Hv i Hi. rewrite H2 by done.
  destruct (Z.leb_spec (off + n) i), (Z.ltb_spec i (off + n + m)); cbn [andb].
  - rewrite (proj2 (Z.leb_le off i)), (proj2 (Z.ltb_lt i (off + (n + m)))) by lia. cbn [andb].
    rewrite Hv by lia. f_equal. lia.
  - rewrite H1 by done. rewrite (proj2 (Z.ltb_ge i (off + n))), (proj2 (Z.ltb_ge i (off + (n + m)))) by lia.
    by rewrite !andb_false_r.
  - rewrite H1 by done. rewrite (proj2 (Z.ltb_lt i (off + n))), (proj2 (Z.ltb_lt i (off + (n + m)))) by lia.
    done.
  - rewrite H1 by done. lia.
Qed.

Lemma bits_replaced_refl l off v : bits_replaced l l off 0 v.
Proof.
  intros i Hi. rewrite Z.add_0_r.
  destruct (Z.leb_spec off i), (Z.ltb_spec i off); cbn [andb]; done || lia.
Qed.
End bits.
