(* ===== verification/CompactUintArray.v ===== *)
(** Arrays of fixed-width unsigned integers:
    [src/containers/CompactUintArray.cpp] and its header.

    The width-specific accessors ([CompactUintArrayPrivate*]) are one operation
    [priv_at]/[priv_set] on a [cua_kind]; [cua] is the array with its bounds
    check.  [BoundedCompactUintArray] prefixes the array with its size and
    width. *)

From S2P Require Import Prelude UtilMath PackUnpack Storage ByteArray Bits ByteStream.

Inductive cua_kind :=
  KEmpty | KVarBits (bpn : Z) | KVarBits64 (bpn : Z) | KU8 | KU16 | KU24 | KU32.

#[global] Instance cua_kind_eq_dec : EqDecision cua_kind.
Proof. solve_decision. Defined.

Definition priv_bpn (k : cua_kind) : Z :=
  match k with
  | KEmpty => 0 | KVarBits bpn => bpn | KVarBits64 bpn => bpn
  | KU8 => 8 | KU16 => 16 | KU24 => 24 | KU32 => 32
  end.

(** The constructors check, or clamp, the width. *)
Definition KVarBits_new (bpn : Z) : result cua_kind :=
  if bpn =? 0 then Err TypeOverflowException
  else if 32 <? bpn then Err TypeOverflowException
  else Ok (KVarBits bpn).

Definition KVarBits64_new (bpn : Z) : cua_kind :=
  KVarBits64 (if bpn =? 0 then 1 else if 64 <? bpn then 64 else bpn).

Record cua := mkCua { cua_kind_of : cua_kind; m_data : uba; m_maxCount : Z }.

Definition npos : Z := max_u64.

(** ** Widths and sizes *)

Definition minStorageBits (number : Z) : result Z :=
  m ← msb64 number; mret (Z.max 1 (u32 (m + 1))).

Fixpoint minStorageBitsFullBytes_loop (fuel : nat) (number res : Z) : result Z :=
  match fuel with
  | O => Err OutOfFuel
  | S fuel =>
      let number := number >>> 8 in
      let res := res + 8 in
      if number =? 0 then Ok res else minStorageBitsFullBytes_loop fuel number res
  end.
Definition minStorageBitsFullBytes (number : Z) : result Z :=
  minStorageBitsFullBytes_loop 8 number 0.

Definition minStorageBytes (bpn count : Z) : Z :=
  let bits := u64 (count * bpn) in
  u64 (bits / 8 + (if 0 <? bits mod 8 then 1 else 0)).

Section cua.
Context {S : Type} `{Backend S}.
(** whether the compiler has a 128-bit integer type *)
Context (i128 : bool).

(** ** Element access *)

Definition calcBegin (pos bpn : Z) : result (Z * Z) :=
  posStart ← multiplyDiv64 i128 pos bpn 8;
  initShift ← (if pos =? 0 then Ok 0
               else m ← multiplyMod64 i128 pos bpn 8; narrow_check (Unsigned 8) (Unsigned 64) m);
  mret (posStart, initShift).

(** The remaining bytes of the number, in a [w]-bit accumulator. *)
Fixpoint varbits_at_loop (fuel : nat) (w : Z) (s : S) (a : uba)
    (posStart bpn byteShift bitsRead i res : Z) : result Z :=
  match fuel with
  | O => Err OutOfFuel
  | Datatypes.S fuel =>
      if bitsRead <? bpn then
        newByte ← uba_at s a (u64 (posStart + i));
        let newByte := wrap w (newByte <<< (8 * i + byteShift)) in
        varbits_at_loop fuel w s a posStart bpn byteShift (bitsRead + 8) (i + 1) (res ||| newByte)
      else Ok res
  end.

Definition varbits_at (w mask : Z) (s : S) (a : uba) (bpn pos : Z) : result Z :=
  '(posStart, initShift) ← calcBegin pos bpn;
  b ← uba_at s a posStart;
  let res := b >>> initShift in
  let byteShift := 8 - initShift in
  res ← varbits_at_loop 9 w s a (u64 (posStart + 1)) bpn byteShift byteShift 0 res;
  mret (res &&& mask).

(** [uint8_t & d = m_data[pos]; d = (uint8_t) f(d)] *)
Definition modify (s : S) (a : uba) (pos : Z) (f : Z -> Z) : result S :=
  d ← uba_at s a pos; uba_set s a pos (u8 (f d)).

Fixpoint varbits_set_loop (fuel : nat) (s : S) (a : uba)
    (startPos value bpn lastByteBitCount curShift count : Z) : result (S * Z) :=
  match fuel with
  | O => Err OutOfFuel
  | Datatypes.S fuel =>
      if curShift + lastByteBitCount <? bpn then
        s ← uba_set s a (u64 (startPos + count)) (u8 ((value >>> curShift) &&& 255));
        varbits_set_loop fuel s a startPos value bpn lastByteBitCount (curShift + 8) (count + 1)
      else Ok (s, count)
  end.

Definition varbits_set (mask : Z) (s : S) (a : uba) (bpn pos value : Z) : result (S * Z) :=
  let value := value &&& mask in
  '(startPos, initShift) ← calcBegin pos bpn;
  if initShift + bpn <=? 8 then
    let mask := u8 (createMask initShift) in
    let mask := u8 (mask ||| u32 (Z.lnot (createMask (initShift + bpn)))) in
    s ← modify s a startPos (fun d => u8 (d &&& mask) ||| u64 (value <<< initShift));
    mret (s, value)
  else
    let mask := u8 (createMask initShift) in
    s ← modify s a startPos (fun d => u8 (d &&& mask) ||| (u64 (value <<< initShift) &&& 255));
    let bitsSet := 8 - initShift in
    let lastByteBitCount := u8 ((bpn + initShift) mod 8) in
    '(s, count) ← varbits_set_loop 8 s a startPos value bpn lastByteBitCount bitsSet 1;
    if 0 <? lastByteBitCount then
      s ← modify s a (u64 (startPos + count))
            (fun d => u8 (d &&& u32 (Z.lnot (createMask lastByteBitCount)))
                      ||| (value >>> (bpn - lastByteBitCount)));
      mret (s, value)
    else mret (s, value).

Definition VarBits_at (s : S) (a : uba) (bpn pos : Z) : result Z :=
  varbits_at 32 (createMask bpn) s a bpn pos.
Definition VarBits_set (s : S) (a : uba) (bpn pos value : Z) : result (S * Z) :=
  varbits_set (createMask bpn) s a bpn pos value.
Definition VarBits64_at (s : S) (a : uba) (bpn pos : Z) : result Z :=
  varbits_at 64 (createMask64 bpn) s a bpn pos.
Definition VarBits64_set (s : S) (a : uba) (bpn pos value : Z) : result (S * Z) :=
  varbits_set (createMask64 bpn) s a bpn pos value.

Definition priv_at (k : cua_kind) (s : S) (a : uba) (pos : Z) : result Z :=
  match k with
  | KEmpty => Ok 0
  | KVarBits bpn => VarBits_at s a bpn pos
  | KVarBits64 bpn => VarBits64_at s a bpn pos
  | KU8 => uba_get Uint8 s a pos
  | KU16 => uba_get Uint16 s a (u64 (2 * pos))
  | KU24 => uba_get Uint24 s a (u64 (3 * pos))
  | KU32 => uba_get Uint32 s a (u64 (4 * pos))
  end.

(** Returns the value set. *)
Definition priv_set (k : cua_kind) (s : S) (a : uba) (pos value : Z) : result (S * Z) :=
  match k with
  | KEmpty => Ok (s, u64 (Z.lnot value))
  | KVarBits bpn => VarBits_set s a bpn pos value
  | KVarBits64 bpn => VarBits64_set s a bpn pos value
  | KU8 => s ← uba_put Uint8 s a pos (u8 value); mret (s, value)
  | KU16 => s ← uba_put Uint16 s a (u64 (2 * pos)) (u16 value); mret (s, u16 value)
  | KU24 => s ← uba_put Uint24 s a (u64 (3 * pos)) (u32 value); mret (s, value)
  | KU32 => s ← uba_put Uint32 s a (u64 (4 * pos)) (u32 value); mret (s, value)
  end.

(** ** The array *)

Definition setPrivate (array : uba) (bitsPerNumber : Z) : result cua :=
  let bitsPerNumber :=
    if bitsPerNumber =? 0 then 1 else if 64 <? bitsPerNumber then 64 else bitsPerNumber in
  let maxCount := Z.min (u64 (m_len array * 8) / bitsPerNumber) max_u64 in
  k ← (if bitsPerNumber =? 8 then Ok KU8
       else if bitsPerNumber =? 16 then Ok KU16
       else if bitsPerNumber =? 24 then Ok KU24
       else if bitsPerNumber =? 32 then Ok KU32
       else if bitsPerNumber <=? 32 then KVarBits_new bitsPerNumber
       else Ok (KVarBits64_new bitsPerNumber));
  mret (mkCua k array maxCount).

Definition cua_empty (maxCount : Z) : cua := mkCua KEmpty (uba_new 0 0) maxCount.

Definition cua_new_max (array : uba) (bitsPerNumber max_size : Z) : result cua :=
  c ← setPrivate array bitsPerNumber;
  if m_len array <? minStorageBytes bitsPerNumber max_size then Err OutOfBoundsException
  else mret (mkCua (cua_kind_of c) (m_data c) max_size).

Definition cua_bpn (c : cua) : Z := priv_bpn (cua_kind_of c).

Definition cua_getSizeInBytes (c : cua) : Z :=
  let tmp := u64 (m_maxCount c * cua_bpn c) in
  tmp / 8 + (if tmp mod 8 =? 0 then 0 else 1).

(** Bounds-checked access. *)
Definition cua_at (s : S) (c : cua) (pos : Z) : result Z :=
  if m_maxCount c <=? pos then Err OutOfBoundsException
  else priv_at (cua_kind_of c) s (m_data c) pos.

Definition cua_set (s : S) (c : cua) (pos value : Z) : result (S * Z) :=
  if m_maxCount c <=? pos then Err OutOfBoundsException
  else priv_set (cua_kind_of c) s (m_data c) pos value.

(** Binary search in the first [len] numbers; the positions are signed. *)
Fixpoint findSorted_loop (fuel : nat) (s : S) (c : cua) (key left right mid tk : Z) : result Z :=
  match fuel with
  | O => Err OutOfFuel
  | Datatypes.S fuel =>
      if left <? right then
        if tk =? key then Ok mid
        else
          let left' := if tk <? key then mid + 1 else left in
          let right' := if tk <? key then right else mid - 1 in
          let mid := Z.quot (right' - left') 2 + left' in
          tk ← priv_at (cua_kind_of c) s (m_data c) mid;
          findSorted_loop fuel s c key left' right' mid tk
      else Ok (if tk =? key then mid else npos)
  end.

Definition findSorted (s : S) (c : cua) (key len : Z) : result Z :=
  if len =? 0 then Ok npos
  else
    let right := s64 (len - 1) in
    let mid := Z.quot right 2 in
    tk ← priv_at (cua_kind_of c) s (m_data c) mid;
    findSorted_loop 66 s c key 0 right mid tk.

Definition cua_reserve (s : S) (c : cua) (newMaxCount : Z) : S * cua * bool :=
  if newMaxCount <=? m_maxCount c then (s, c, true)
  else
    let neededByteCount := minStorageBytes (cua_bpn c) newMaxCount in
    let haveByteCount := m_len (m_data c) in
    let '(s, a, ok) := growStorage s (m_data c) (u64 (neededByteCount - haveByteCount)) in
    if ok : bool then (s, mkCua (cua_kind_of c) a newMaxCount, true)
    else (s, mkCua (cua_kind_of c) a (m_maxCount c), false).

(** [for(pos = 0; it != end; ++it, ++pos) carr.set64(pos, *it)] *)
Fixpoint cua_fill (s : S) (c : cua) (pos : Z) (src : list Z) : result S :=
  match src with
  | [] => Ok s
  | v :: src => '(s, _) ← cua_set s c pos v; cua_fill s c (u64 (pos + 1)) src
  end.

(** [create(src, dest, bits)]: the array is written at the put position. *)
Definition cua_create_bits (s : S) (src : list Z) (dest : uba) (bits : Z) : result (S * uba * Z) :=
  let spaceNeed := minStorageBytes bits (zlen src) in
  let '(s, dest, ok) := reserveFromPutPtr s dest spaceNeed in
  if negb ok then Ok (s, dest, 0)
  else
    carr ← setPrivate (shrinkToPutPtr dest) bits;
    s ← cua_fill s carr 0 src;
    mret (s, incPutPtr dest spaceNeed, bits).

Definition list_max (src : list Z) : Z := foldr Z.max 0 src.

Definition cua_create (s : S) (src : list Z) (dest : uba) : result (S * uba * Z) :=
  match src with
  | [] => Ok (s, dest, 0)
  | _ => bits ← minStorageBits (list_max src); cua_create_bits s src dest bits
  end.

(** ** With size and width in front *)

Record bounded := mkBounded { b_cua : cua; m_size : Z }.

Definition bounded_create (s : S) (src : list Z) (dest : uba) : result (S * uba * Z) :=
  match src with
  | [] => '(s, dest, _) ← uba_sputVl VlUint64 s dest 0; mret (s, dest, 1)
  | _ =>
      bits ← minStorageBits (list_max src);
      '(s, dest, _) ← uba_sputVl VlUint64 s dest (u64 (zlen src <<< 6) ||| u32 (bits - 1));
      cua_create_bits s src dest bits
  end.

Definition bounded_new (s : S) (d : uba) : result bounded :=
  '(sizeBits, len) ← uba_getVl VlUint64 s d 0;
  if len <? 0 then Err IOException
  else
    size ← narrow_check (Unsigned 64) (Unsigned 64) (sizeBits >>> 6);
    let bits := u32 ((sizeBits &&& 63) + 1) in
    let dSize := minStorageBytes bits size in
    if size =? 0 then mret (mkBounded (cua_empty size) size)
    else c ← setPrivate (uba_from_len d (u32 len) dSize) bits; mret (mkBounded c size).

Definition bounded_getSizeInBytes (b : bounded) : result Z :=
  let bits := cua_bpn (b_cua b) in
  let sb := u64 (m_size b <<< 6) ||| u32 (bits - 1) in
  n ← psize_vu64 sb; mret (u64 (n + minStorageBytes bits (m_size b))).

(** The consuming constructor moves the adapter behind the array. *)
Definition bounded_consume (s : S) (d : uba) : result (bounded * uba) :=
  b ← bounded_new s d; n ← bounded_getSizeInBytes b; mret (b, uba_plus_assign d n).
End cua.

(** * Access through the bit string *)

Section access.
Context {S : Type} {B : Backend S} {BO : BackendOk S} (i128 : bool).

Lemma calcBegin_ok pos bpn :
  0 <= pos -> 0 <= bpn -> pos * bpn < 2 ^ 64 ->
  calcBegin i128 pos bpn = Ok (pos * bpn / 8, pos * bpn mod 8).
Proof using.
  intros Hp Hb Hf. unfold calcBegin.
  rewrite multiplyDiv64_no_overflow by (unfold fits; nia). rewrite bind_ok_l.
  destruct (Z.eqb_spec pos 0) as [->|]; [done|].
  rewrite multiplyMod64_no_overflow by (unfold fits; nia). rewrite bind_ok_l.
  pose proof (Z.mod_pos_bound (pos * bpn) 8 ltac:(lia)).
  unfold narrow_check. cbn [ity_max ity_cast]. rewrite (proj2 (Z.ltb_ge _ _)) by lia.
  rewrite wrap_small by (unfold fits; lia). done.
Qed.

Lemma buf_byte (s : S) a l p :
  buf s a l -> bytes_ok l -> 0 <= p < zlen l ->
  uba_at s a p = Ok (wrap 8 (le_val l >>> (8 * p))).
Proof using.
  intros Hb Hl Hp. pose proof (buf_fits _ _ _ Hb). rewrite (buf_at _ _ _ _ Hb) by lia.
  rewrite (proj2 (Z.ltb_ge _ _)) by lia.
  destruct (vget_lt l p Hp) as (x & -> & Hx). f_equal.
  rewrite (le_val_byte l _ x Hl Hx). by rewrite Z2Nat.id by lia.
Qed.

Lemma varbits_at_loop_ok fuel w (s : S) a l o q r bpn byteShift bitsRead i res :
  buf s a l -> bytes_ok l -> 0 <= o -> o = 8 * q + r -> 0 <= r < 8 -> bpn <= w ->
  o + bpn <= 8 * zlen l -> 0 <= i -> byteShift = 8 - r -> bitsRead = byteShift + 8 * i ->
  res = wrap (Z.min w bitsRead) (le_val l >>> o) ->
  (0 < fuel)%nat -> bpn - bitsRead + 8 <= 8 * Z.of_nat fuel ->
  exists n, bpn <= n /\
    varbits_at_loop fuel w s a (q + 1) bpn byteShift bitsRead i res
      = Ok (wrap (Z.min w n) (le_val l >>> o)).
Proof using BO.
  intros Hb Hl Ho Hoq Hr Hw Hin Hi Hbs. pose proof (buf_fits _ _ _ Hb).
  revert bitsRead i res Hi. induction fuel as [|fuel IH]; intros bitsRead i res Hi Hbr Hres Hf Hfu;
    [lia|]. cbn [varbits_at_loop]. destruct (Z.ltb_spec bitsRead bpn).
  - rewrite wrap_small by (unfold fits; lia). rewrite (buf_byte s a l _ Hb Hl) by lia.
    rewrite bind_ok_l. apply IH; [lia|lia| |lia|lia]. subst res.
    replace (8 * i + byteShift) with bitsRead by lia.
    replace (8 * (q + 1 + i)) with (o + bitsRead) by lia.
    rewrite (Z.min_r w bitsRead) by lia. bitwise.
  - exists bitsRead. split; [done|]. by rewrite Hres.
Qed.

(** Reading a number is reading the field. *)
Lemma varbits_at_ok w (s : S) a l bpn pos :
  buf s a l -> bytes_ok l -> 0 <= pos -> 1 <= bpn <= w -> w = 32 \/ w = 64 ->
  (pos + 1) * bpn <= 8 * zlen l -> 8 * zlen l < 2 ^ 64 ->
  varbits_at i128 w (Z.ones bpn) s a bpn pos = Ok (field bpn l pos).
Proof using BO.
  intros Hb Hl Hp Hbpn Hw Hin Hf. unfold varbits_at.
  rewrite calcBegin_ok by nia. rewrite bind_ok_l.
  set (o := pos * bpn). assert (0 <= o) by (unfold o; nia).
  pose proof (Z.div_mod o 8 ltac:(lia)) as Hdm. pose proof (Z.mod_pos_bound o 8 ltac:(lia)) as Hmb.
  set (q := o / 8) in *. set (r := o mod 8) in *.
  rewrite (buf_byte s a l q Hb Hl) by (subst o; lia). rewrite bind_ok_l.
  rewrite wrap_small by (unfold fits; subst o; lia).
  destruct (varbits_at_loop_ok 9 w s a l o q r bpn (8 - r) (8 - r) 0
    (wrap 8 (le_val l >>> (8 * q)) >>> r) Hb Hl) as (n & Hn & ->); try (subst o; lia).
  - replace o with (8 * q + r) by lia. rewrite Z.min_r by lia. bitwise.
  - rewrite bind_ok_l. unfold mret, result_ret, field. f_equal. fold o.
    rewrite land_ones_wrap by lia. bitwise.
Qed.

(** ** Writing *)

(** Two storages that differ at most inside the window of [a]. *)
Record same_outside (a : uba) (s s' : S) : Prop := {
  outside_len : length (bk_data s') = length (bk_data s);
  outside_at (i : nat) : Z.of_nat i < m_offSet a \/ m_offSet a + m_len a <= Z.of_nat i ->
    bk_data s' !! i = bk_data s !! i;
}.

Lemma same_outside_refl a s : same_outside a s s.
Proof using. by split. Qed.
Hint Resolve same_outside_refl : core.

Lemma same_outside_trans a s1 s2 s3 :
  same_outside a s1 s2 -> same_outside a s2 s3 -> same_outside a s1 s3.
Proof using.
  intros [H1 H1'] [H2 H2']. split; [congruence|]. intros i Hi. by rewrite H2', H1'.
Qed.

Lemma vwrite_outside a (s s' : S) pos bs :
  0 <= pos -> pos + zlen bs <= m_len a ->
  vwrite (bk_data s) (m_offSet a + pos) bs = Ok (bk_data s') -> same_outside a s s'.
Proof using.
  intros Hp Hl [[H1 H2] Hd]%vwrite_ok. split; rewrite Hd; [apply length_splice; lia|].
  intros i Hi. rewrite lookup_splice by lia.
  destruct (Z.ltb_spec (Z.of_nat i) (m_offSet a + pos)),
    (Z.leb_spec (m_offSet a + pos + zlen bs) (Z.of_nat i)); cbn [orb]; done || lia.
Qed.

(** A write that replaces a run of bits inside the window. *)
Record stored (s : S) (a : uba) (l : list Z) (off n v : Z) (s' : S) (l' : list Z) : Prop := {
  stored_buf : buf s' a l';
  stored_bytes : bytes_ok l';
  stored_len : length l' = length l;
  stored_bits : bits_replaced l l' off n v;
  stored_outside : same_outside a s s';
}.

Lemma splice_1 {A} (l : list A) p x :
  0 <= p < zlen l -> splice l p [x] = <[Z.to_nat p := x]> l.
Proof using.
  intros Hp. apply list_eq. intros i. rewrite lookup_splice by (cbn [length]; lia).
  cbn [length]. destruct (decide (i = Z.to_nat p)) as [->|Hne].
  - rewrite list_lookup_insert_eq by lia. rewrite Nat.sub_diag.
    rewrite (proj2 (Z.ltb_ge _ _)), (proj2 (Z.leb_gt _ _)) by lia. done.
  - rewrite list_lookup_insert_ne by done.
    destruct (Z.ltb_spec (Z.of_nat i) p), (Z.leb_spec (p + Z.of_nat 1) (Z.of_nat i)); cbn [orb]; done || lia.
Qed.

Lemma uba_set_ok (s : S) a l p b off n v :
  buf s a l -> bytes_ok l -> 0 <= p < zlen l -> byte_ok b ->
  8 * p <= off -> 0 <= n -> off + n <= 8 * p + 8 ->
  (forall j, 0 <= j < 8 -> Z.testbit b j =
     if (off - 8 * p <=? j) && (j <? off - 8 * p + n) then Z.testbit v (j - (off - 8 * p))
     else Z.testbit (le_val l) (j + 8 * p)) ->
  exists s' l', uba_set s a p b = Ok s' /\ stored s a l off n v s' l'.
Proof using BO.
  intros Hb Hl Hp Hbb Ho Hn Hon Hbits.
  destruct (buf_put Uint8 s a l p b [u8 b] Hb) as (s' & Hput & Hb' & Hw);
    [lia|cbn [scalar_len]; lia|done|done|repeat constructor; apply wrap_fits; lia|].
  rewrite (wrap_small 8 b Hbb), splice_1 in Hb' by done.
  apply vwrite_outside in Hw; [|lia|rewrite (buf_len _ _ _ Hb); cbn [length]; lia].
  exists s', (<[Z.to_nat p := b]> l). split; [exact Hput|].
  split; [done|by apply Forall_insert|by rewrite length_insert| |done].
  intros i Hi. rewrite testbit_le_val_insert by (done || lia). rewrite Z2Nat.id by lia.
  destruct (Z.leb_spec (8 * p) i), (Z.ltb_spec i (8 * p + 8)); cbn [andb].
    + rewrite Hbits by lia.
      destruct (Z.leb_spec off i), (Z.ltb_spec i (off + n)),
        (Z.leb_spec (off - 8 * p) (i - 8 * p)), (Z.ltb_spec (i - 8 * p) (off - 8 * p + n));
        cbn [andb]; try lia; f_equal; lia.
    + destruct (Z.leb_spec off i), (Z.ltb_spec i (off + n)); cbn [andb]; done || lia.
    + destruct (Z.leb_spec off i), (Z.ltb_spec i (off + n)); cbn [andb]; done || lia.
    + lia.
Qed.

Lemma modify_ok (s : S) a l p f off n v :
  buf s a l -> bytes_ok l -> 0 <= p < zlen l ->
  8 * p <= off -> 0 <= n -> off + n <= 8 * p + 8 ->
  (forall d j, 0 <= j < 8 -> Z.testbit (f d) j =
     if (off - 8 * p <=? j) && (j <? off - 8 * p + n) then Z.testbit v (j - (off - 8 * p))
     else Z.testbit d j) ->
  exists s' l', modify s a p f = Ok s' /\ stored s a l off n v s' l'.
Proof using BO.
  intros Hb Hl Hp Ho Hn Hon Hbits. unfold modify.
  rewrite (buf_byte s a l p Hb Hl Hp), bind_ok_l.
  apply uba_set_ok; try done; [apply wrap_fits; lia|].
  intros j Hj. rewrite testbit_wrap, (proj2 (Z.ltb_lt j 8)) by lia. cbn [andb].
  rewrite Hbits by lia. destruct (_ && _); [done|].
  rewrite testbit_wrap, (proj2 (Z.ltb_lt j 8)), Z.shiftr_spec by lia. done.
Qed.

Lemma stored_app a l l1 off n m v v1 (s s1 s2 : S) l2 :
  0 <= n -> 0 <= m -> 0 <= off ->
  stored s a l off n v s1 l1 -> stored s1 a l1 (off + n) m v1 s2 l2 ->
  (forall i, 0 <= i < m -> Z.testbit v1 i = Z.testbit v (n + i)) ->
  stored s a l off (n + m) v s2 l2.
Proof using.
  intros Hn Hm Ho [? ? Hl1 H1 ?] [? ? Hl2 H2 ?] Hv. split; [done|done|congruence| |].
  - by eapply bits_replaced_app.
  - by eapply same_outside_trans.
Qed.

(** The loop over the bytes the number covers completely. *)
Lemma varbits_set_loop_ok fuel (s : S) a l q bpn v last curShift count :
  buf s a l -> bytes_ok l -> 0 <= v -> 0 <= q -> 0 <= last < 8 -> 0 <= curShift -> 0 <= count ->
  (bpn - curShift - last) mod 8 = 0 -> curShift + last <= bpn ->
  8 * (q + count) + (bpn - curShift) <= 8 * zlen l ->
  (0 < fuel)%nat -> bpn - curShift - last < 8 * Z.of_nat fuel ->
  exists s' l', let m := bpn - last - curShift in
    varbits_set_loop fuel s a q v bpn last curShift count = Ok (s', count + m / 8) /\
    stored s a l (8 * (q + count)) m (v >>> curShift) s' l'.
Proof using BO.
  intros Hb Hl Hv Hq Hlast. revert s l curShift count Hb Hl.
  induction fuel as [|fuel IH]; intros s l curShift count Hb Hl Hc Hct Hmod Hle Hin Hf Hfu; [lia|].
  cbn [varbits_set_loop]. pose proof (buf_fits _ _ _ Hb) as Hfit.
  destruct (Z.ltb_spec (curShift + last) bpn) as [Hlt|Hge].
  - pose proof (Z.div_mod (bpn - curShift - last) 8 ltac:(lia)) as Hdm. rewrite Hmod in Hdm.
    set (k := (bpn - curShift - last) / 8) in *.
    rewrite wrap_small by (unfold fits; lia).
    destruct (uba_set_ok s a l (q + count) (u8 ((v >>> curShift) &&& 255))
      (8 * (q + count)) 8 (v >>> curShift) Hb Hl) as (s1 & l1 & -> & Hst1); try lia.
    { apply wrap_fits. lia. }
    { intros j Hj. rewrite Z.sub_diag, Z.add_0_l, Z.sub_0_r.
      rewrite (proj2 (Z.leb_le 0 j)), (proj2 (Z.ltb_lt j 8)) by lia.
      change 255 with (Z.ones 8). by bits_step. }
    rewrite bind_ok_l. pose proof Hst1 as [Hb1 Hl1 Hlen1 _ _].
    destruct (IH s1 l1 (curShift + 8) (count + 1) Hb1 Hl1) as (s2 & l2 & Hloop & Hst2); try lia.
    { replace (bpn - (curShift + 8) - last) with ((k - 1) * 8) by lia. apply Z.mod_mul. lia. }
    exists s2, l2. cbn zeta. split.
    + rewrite Hloop. do 2 f_equal. replace (bpn - last - curShift) with (bpn - last - (curShift + 8) + 1 * 8) by lia.
      rewrite Z.div_add by lia. lia.
    + replace (bpn - last - curShift) with (8 + (bpn - last - (curShift + 8))) by lia.
      eapply stored_app; [lia|lia|lia|exact Hst1| |].
      * replace (8 * (q + count) + 8) with (8 * (q + (count + 1))) by lia. exact Hst2.
      * intros i Hi. rewrite !Z.shiftr_spec by lia. f_equal. lia.
  - exists s, l. cbn zeta. replace (bpn - last - curShift) with 0 by lia. split.
    + do 2 f_equal. change (0 / 8) with 0. lia.
    + split; [done|done|done|apply bits_replaced_refl|done].
Qed.

Lemma stored_ext a l off n v v' (s s' : S) l' :
  stored s a l off n v s' l' -> (forall i, 0 <= i < n -> Z.testbit v' i = Z.testbit v i) ->
  stored s a l off n v' s' l'.
Proof using.
  intros [? ? ? Hr ?] Hv. split; try done. intros i Hi. rewrite Hr by done.
  destruct (Z.leb_spec off i), (Z.ltb_spec i (off + n)); cbn [andb]; try done.
  symmetry. apply Hv. lia.
Qed.

(** Masks of the first and last byte. *)
Lemma first_mask_bits r bpn v d j :
  0 <= r < 8 -> 0 <= bpn -> r + bpn <= 8 -> fits bpn v -> 0 <= j < 8 ->
  Z.testbit (u8 (d &&& u8 (u8 (Z.ones r) ||| u32 (Z.lnot (Z.ones (r + bpn))))) ||| u64 (v <<< r)) j =
    if (r <=? j) && (j <? r + bpn) then Z.testbit v (j - r) else Z.testbit d j.
Proof using.
  intros Hr Hb Hrb Hv Hj. bits_step; high_bits; bits_step; try reflexivity; try btauto.
Qed.

Lemma split_mask_bits r v d j :
  0 <= r < 8 -> 0 <= j < 8 ->
  Z.testbit (u8 (d &&& u8 (Z.ones r)) ||| (u64 (v <<< r) &&& 255)) j =
    if (r <=? j) && (j <? r + (8 - r)) then Z.testbit v (j - r) else Z.testbit d j.
Proof using.
  intros Hr Hj. change 255 with (Z.ones 8). bits_step; try reflexivity; try btauto.
Qed.

Lemma last_mask_bits n v d j :
  0 <= n < 8 -> fits n v -> 0 <= j < 8 ->
  Z.testbit (u8 (d &&& u32 (Z.lnot (Z.ones n))) ||| v) j =
    if (0 <=? j) && (j <? n) then Z.testbit v (j - 0) else Z.testbit d j.
Proof using.
  intros Hn Hv Hj. rewrite Z.sub_0_r. bits_step; high_bits; bits_step; try reflexivity; try btauto.
Qed.

Lemma varbits_set_ok (s : S) a l bpn pos value :
  buf s a l -> bytes_ok l -> 0 <= pos -> 1 <= bpn <= 64 -> fits 64 value ->
  (pos + 1) * bpn <= 8 * zlen l -> 8 * zlen l < 2 ^ 64 ->
  exists s' l', varbits_set i128 (Z.ones bpn) s a bpn pos value = Ok (s', wrap bpn value) /\
    stored s a l (pos * bpn) bpn value s' l'.
Proof using BO.
  intros Hb Hl Hp Hbpn Hval Hin Hf. unfold varbits_set. rewrite land_ones_wrap by lia.
  pose proof (wrap_fits bpn value ltac:(lia)) as Hv. set (v := wrap bpn value) in *.
  assert (forall s' l', stored s a l (pos * bpn) bpn v s' l' -> stored s a l (pos * bpn) bpn value s' l')
    as Hext.
  { intros s' l' Hst. eapply stored_ext; [exact Hst|]. intros i Hi. unfold v.
    rewrite testbit_wrap, (proj2 (Z.ltb_lt _ _)) by lia. done. }
  rewrite calcBegin_ok by nia. rewrite bind_ok_l.
  set (o := pos * bpn) in *. assert (0 <= o) by (unfold o; nia).
  pose proof (Z.div_mod o 8 ltac:(lia)) as Hdm. pose proof (Z.mod_pos_bound o 8 ltac:(lia)) as Hr.
  set (q := o / 8) in *. set (r := o mod 8) in *. assert (o + bpn <= 8 * zlen l) by (unfold o; lia).
  clearbody o q r. destruct (Z.leb_spec (r + bpn) 8) as [Hone|Hmany].
  - rewrite !createMask_ones by lia.
    match goal with |- context [modify s a q ?f] =>
      destruct (modify_ok s a l q f o bpn v Hb Hl) as (s' & l' & Hm & Hst) end;
      [lia..| |rewrite Hm, bind_ok_l; exists s', l'; split; [done|by apply Hext]].
    intros d j Hj. replace (o - 8 * q) with r by lia. apply first_mask_bits; done || lia.
  - rewrite (createMask_ones r) by lia.
    pose proof (Z.div_mod (bpn + r) 8 ltac:(lia)) as Hdm'.
    pose proof (Z.mod_pos_bound (bpn + r) 8 ltac:(lia)) as Hlast.
    rewrite (wrap_small 8 ((bpn + r) mod 8)) by (unfold fits; lia).
    set (last := (bpn + r) mod 8) in *. set (k := (bpn + r) / 8) in *. clearbody last k.
    match goal with |- context [modify s a q ?f] =>
      destruct (modify_ok s a l q f o (8 - r) v Hb Hl) as (s1 & l1 & Hm1 & Hst1) end;
      [lia..| |rewrite Hm1, bind_ok_l].
    { intros d j Hj. replace (o - 8 * q) with r by lia. apply split_mask_bits; done || lia. }
    clear Hm1. pose proof Hst1 as [Hb1 Hl1 Hlen1 _ _].
    destruct (varbits_set_loop_ok 8 s1 a l1 q bpn v last (8 - r) 1 Hb1 Hl1)
      as (s2 & l2 & Hloop & Hst2); try lia.
    { unfold fits in Hv. lia. }
    { replace (bpn - (8 - r) - last) with ((k - 1) * 8) by lia. apply Z.mod_mul. lia. }
    cbn zeta in Hloop, Hst2. rewrite Hloop, bind_ok_l. clear Hloop.
    assert ((bpn - last - (8 - r)) / 8 = k - 1) as ->.
    { replace (bpn - last - (8 - r)) with ((k - 1) * 8) by lia. apply Z.div_mul. lia. }
    replace (8 * (q + 1)) with (o + (8 - r)) in Hst2 by lia.
    assert (stored s a l o (bpn - last) v s2 l2) as Hst12.
    { replace (bpn - last) with ((8 - r) + (bpn - last - (8 - r))) by lia.
      eapply stored_app; [lia|lia|lia|exact Hst1|exact Hst2|].
      intros i Hi. rewrite Z.shiftr_spec by lia. f_equal. lia. }
    pose proof Hst12 as [Hb2 Hl2 Hlen2 _ _]. clear Hst1 Hst2.
    destruct (Z.ltb_spec 0 last) as [Hpos|Hzero].
    + rewrite wrap_small by (unfold fits; pose proof (buf_fits _ _ _ Hb); lia).
      rewrite createMask_ones by lia.
      match goal with |- context [modify s2 a ?p ?f] =>
        destruct (modify_ok s2 a l2 p f (8 * (q + k)) last (v >>> (bpn - last)) Hb2 Hl2)
          as (s3 & l3 & Hm3 & Hst3) end; [lia..| |rewrite Hm3, bind_ok_l].
      { intros d j Hj. replace (8 * (q + k) - 8 * (q + (1 + (k - 1)))) with 0 by lia.
        rewrite Z.add_0_l. apply last_mask_bits; [lia| |done].
        apply (shiftr_fits bpn (bpn - last) last); [lia|lia|lia|exact Hv]. }
      exists s3, l3. split; [done|]. apply Hext. replace bpn with (bpn - last + last) by lia.
      eapply stored_app; [lia|lia|lia|exact Hst12| |].
      * replace (o + (bpn - last)) with (8 * (q + k)) by lia. exact Hst3.
      * intros i Hi. rewrite Z.shiftr_spec by lia. f_equal. lia.
    + exists s2, l2. split; [done|]. apply Hext. by replace (bpn - last) with bpn in Hst12 by lia.
Qed.

(** ** All widths *)

Definition kind_ok (k : cua_kind) : Prop :=
  match k with
  | KEmpty => False
  | KVarBits bpn => 1 <= bpn <= 32
  | KVarBits64 bpn => 1 <= bpn <= 64
  | _ => True
  end.

Lemma kind_bpn k : kind_ok k -> 1 <= priv_bpn k <= 64.
Proof using. destruct k; cbn; intros; done || lia. Qed.

Lemma up_le_exact_block n (bs : list Z) : zlen bs = n -> up_le n bs = Ok (le_val bs).
Proof using. intros. rewrite <- (app_nil_r bs) at 1. by apply up_le_app. Qed.

Lemma uba_get_field ty n (s : S) a l pos :
  buf s a l -> bytes_ok l -> scalar_len ty = n -> 0 < n ->
  (forall bs, bytes_ok bs -> zlen bs = n -> scalar_unpack ty bs = Ok (le_val bs)) ->
  0 <= pos -> (pos + 1) * (8 * n) <= 8 * zlen l ->
  uba_get ty s a (u64 (n * pos)) = Ok (field (8 * n) l pos).
Proof using BO.
  intros Hb Hl Hn H0 Hu Hp Hin. pose proof (buf_fits _ _ _ Hb).
  rewrite wrap_small by (unfold fits; nia). rewrite (buf_get _ _ _ _ _ Hb) by (rewrite ?Hn; nia).
  rewrite Hn, (proj2 (Z.ltb_ge _ _)) by lia.
  destruct (vread l (n * pos) n) as [bs|] eqn:E.
  - rewrite bind_ok_l. pose proof (le_val_block l _ _ bs Hl E) as Hv.
    apply vread_ok in E as (? & ? & ? & ->). rewrite Hu.
    + unfold field. rewrite Hv. do 3 f_equal. lia.
    + by apply Forall_take, Forall_drop.
    + rewrite length_take, length_drop. lia.
  - unfold vread in E. assert (in_range l (n * pos) n = true) as Hr by (apply in_range_spec; nia).
    by rewrite Hr in E.
Qed.

Lemma priv_at_ok k (s : S) a l pos :
  buf s a l -> bytes_ok l -> kind_ok k -> 0 <= pos ->
  (pos + 1) * priv_bpn k <= 8 * zlen l -> 8 * zlen l < 2 ^ 64 ->
  priv_at i128 k s a pos = Ok (field (priv_bpn k) l pos).
Proof using BO.
  intros Hb Hl Hk Hp Hin Hf. pose proof (buf_fits _ _ _ Hb).
  destruct k; cbn [priv_at priv_bpn kind_ok] in *; [done| | | | | |].
  - unfold VarBits_at. rewrite createMask_ones by lia. apply varbits_at_ok; auto; lia.
  - unfold VarBits64_at. rewrite createMask64_ones by lia. apply varbits_at_ok; auto; lia.
  - assert (uba_get Uint8 s a (u64 (1 * pos)) = Ok (field (8 * 1) l pos)) as Hg.
    { apply uba_get_field; try done; try lia. intros bs _ Hbs.
      destruct bs as [|b [|]]; cbn [length] in Hbs; try lia.
      cbn [scalar_unpack]. unfold up_u8. rewrite vget_cons_0. cbn [le_val].
      by rewrite Z.shiftl_0_l, Z.lor_0_r. }
    by rewrite wrap_small, Z.mul_1_l in Hg by (unfold fits; lia).
  - apply (uba_get_field Uint16 2); try done; try lia. intros. by apply up_le_exact_block.
  - apply (uba_get_field Uint24 3); try done; try lia. intros. by apply up_le_exact_block.
  - apply (uba_get_field Uint32 4); try done; try lia. intros. by apply up_le_exact_block.
Qed.

Lemma uba_put_field ty n (s : S) a l pos v bs :
  buf s a l -> bytes_ok l -> scalar_len ty = n -> 0 < n -> scalar_pack ty v = Ok bs ->
  zlen bs = n -> bytes_ok bs -> 0 <= pos -> (pos + 1) * (8 * n) <= 8 * zlen l ->
  exists s' l', uba_put ty s a (u64 (n * pos)) v = Ok s' /\
    stored s a l (pos * (8 * n)) (8 * n) (le_val bs) s' l'.
Proof using BO.
  intros Hb Hl Hn H0 Hpk Hbs Hok Hp Hin. pose proof (buf_fits _ _ _ Hb).
  rewrite wrap_small by (unfold fits; nia).
  destruct (buf_put ty s a l (n * pos) v bs Hb) as (s' & -> & Hb' & Hw); [nia|nia|done|lia|done|].
  exists s', (splice l (n * pos) bs). split; [done|]. split; [done| | | |].
  - by apply Forall_splice.
  - apply length_splice; nia.
  - assert (bits_replaced l (splice l (n * pos) bs) (8 * (n * pos)) (8 * zlen bs) (le_val bs)) as Hr
      by (apply bits_replaced_splice; try done; nia).
    rewrite Hbs in Hr. by replace (pos * (8 * n)) with (8 * (n * pos)) by lia.
  - apply vwrite_outside in Hw; [done|nia|]. rewrite (buf_len _ _ _ Hb). nia.
Qed.

(** What the setter reports: the wide fixed-width kinds do not mask it. *)
Definition set_returns (k : cua_kind) (v : Z) : Z :=
  match k with KU8 | KU24 | KU32 => v | _ => wrap (priv_bpn k) v end.

Lemma le_bytes_stored n m v : (n <= m)%nat ->
  zlen (take n (le_bytes m v)) = Z.of_nat n /\ bytes_ok (take n (le_bytes m v)) /\
  le_val (take n (le_bytes m v)) = wrap (8 * Z.of_nat n) v.
Proof using.
  intros Hn. rewrite take_le_bytes by done. rewrite length_le_bytes.
  split; [done|]. split; [apply le_bytes_ok|apply le_val_le_bytes].
Qed.

Lemma priv_set_ok k (s : S) a l pos v :
  buf s a l -> bytes_ok l -> kind_ok k -> 0 <= pos -> fits 64 v ->
  (pos + 1) * priv_bpn k <= 8 * zlen l -> 8 * zlen l < 2 ^ 64 ->
  exists s' l', priv_set i128 k s a pos v = Ok (s', set_returns k v) /\
    stored s a l (pos * priv_bpn k) (priv_bpn k) v s' l'.
Proof using BO.
  intros Hb Hl Hk Hp Hv Hin Hf. pose proof (buf_fits _ _ _ Hb).
  assert (forall ty n m w x, w = 8 * Z.of_nat n -> (0 < n <= m)%nat ->
    scalar_len ty = Z.of_nat n -> scalar_pack ty x = Ok (take n (le_bytes m x)) ->
    wrap w x = wrap w v -> (pos + 1) * w <= 8 * zlen l ->
    exists s' l', uba_put ty s a (u64 (Z.of_nat n * pos)) x = Ok s' /\
      stored s a l (pos * w) w v s' l') as Hgo.
  { intros ty n m w x -> Hn Hty Hpk Hx Hpos. destruct (le_bytes_stored n m x) as (H1 & H2 & H3); [lia|].
    destruct (uba_put_field ty _ s a l pos x _ Hb Hl Hty ltac:(lia) Hpk H1 H2 Hp) as (s' & l' & Hput & Hst).
    { lia. }
    exists s', l'. split; [done|]. eapply stored_ext; [exact Hst|]. intros i Hi.
    rewrite H3, Hx, testbit_wrap, (proj2 (Z.ltb_lt _ _)) by lia. done. }
  destruct k; cbn [priv_set priv_bpn kind_ok set_returns] in *; [done| | | | | |].
  - unfold VarBits_set. rewrite createMask_ones by lia. apply varbits_set_ok; auto; lia.
  - unfold VarBits64_set. rewrite createMask64_ones by lia. apply varbits_set_ok; auto; lia.
  - destruct (Hgo Uint8 1%nat 1%nat 8 (u8 v)) as (s' & l' & Hput & Hst); try done; [lia|apply wrap_wrap|].
    rewrite wrap_small in Hput by (unfold fits; lia).
    replace (Z.of_nat 1 * pos) with pos in Hput by lia. rewrite Hput. by exists s', l'.
  - destruct (Hgo Uint16 2%nat 2%nat 16 (u16 v)) as (s' & l' & Hput & Hst); try done; [lia|apply wrap_wrap|].
    change (Z.of_nat 2) with 2 in Hput. rewrite Hput. by exists s', l'.
  - destruct (Hgo Uint24 3%nat 4%nat 24 (u32 v)) as (s' & l' & Hput & Hst); try done; [lia|bitwise|].
    change (Z.of_nat 3) with 3 in Hput. rewrite Hput. by exists s', l'.
  - destruct (Hgo Uint32 4%nat 4%nat 32 (u32 v)) as (s' & l' & Hput & Hst); try done; [lia|apply wrap_wrap|].
    change (Z.of_nat 4) with 4 in Hput. rewrite Hput. by exists s', l'.
Qed.

(** An array over a window that holds all its numbers. *)
Record cua_ok (s : S) (c : cua) (l : list Z) : Prop := {
  cua_buf : buf s (m_data c) l;
  cua_kind_ok : kind_ok (cua_kind_of c);
  cua_fits : 8 * zlen l < 2 ^ 64;
  cua_count : 0 <= m_maxCount c;
  cua_room : m_maxCount c * cua_bpn c <= 8 * zlen l;
}.

Lemma cua_priv_at (s : S) c l pos : cua_ok s c l -> 0 <= pos < m_maxCount c ->
  priv_at i128 (cua_kind_of c) s (m_data c) pos = Ok (field (cua_bpn c) l pos).
Proof using BO.
  intros [] Hp. pose proof (kind_bpn _ cua_kind_ok0). unfold cua_bpn in *.
  apply priv_at_ok; first [done|by eapply buf_bytes|nia].
Qed.

Lemma cua_set_ok (s : S) c l pos v :
  cua_ok s c l -> 0 <= pos < m_maxCount c -> fits 64 v ->
  exists s' l', cua_set i128 s c pos v = Ok (s', set_returns (cua_kind_of c) v) /\
    stored s (m_data c) l (pos * cua_bpn c) (cua_bpn c) v s' l' /\ cua_ok s' c l'.
Proof using BO.
  intros [] Hp Hv. pose proof (kind_bpn _ cua_kind_ok0). unfold cua_bpn in *.
  unfold cua_set. rewrite (proj2 (Z.leb_gt _ _)) by lia.
  destruct (priv_set_ok (cua_kind_of c) s (m_data c) l pos v) as (s' & l' & -> & Hst);
    [done|by eapply buf_bytes|done|lia|done|nia|lia|].
  exists s', l'. split; [done|]. split; [done|]. pose proof Hst as [? ? Hlen ? ?].
  split; try done; by rewrite Hlen.
Qed.

(** ** Binary search *)

Lemma findSorted_loop_ok fuel (s : S) c l key len left right mid tk :
  let f := field (cua_bpn c) l in
  cua_ok s c l -> len <= m_maxCount c ->
  (forall i j, 0 <= i -> i <= j -> j < len -> f i <= f j) ->
  0 <= left -> right < len -> left <= right + 1 ->
  mid = Z.quot (right - left) 2 + left -> 0 <= mid < len -> tk = f mid ->
  (forall i, 0 <= i < len -> f i = key -> left <= i <= right) ->
  (0 < fuel)%nat -> right - left < 2 ^ (Z.of_nat fuel - 1) ->
  exists r, findSorted_loop i128 fuel s c key left right mid tk = Ok r /\
    (0 <= r < len /\ f r = key \/ r = npos /\ forall i, 0 <= i < len -> f i <> key).
Proof using BO.
  intros f Hc Hlen Hs. revert left right mid tk.
  induction fuel as [|fuel IH]; intros left right mid tk Hl0 Hr Hlr Hmid Hmr Htk Hin Hf Hfu; [lia|].
  cbn [findSorted_loop]. destruct (Z.ltb_spec left right) as [Hlt|Hge].
  - destruct (Z.eqb_spec tk key) as [E|E].
    { exists mid. split; [done|]. left. split; [done|congruence]. }
    rewrite Z.quot_div_nonneg in Hmid by lia.
    pose proof (Z.div_mod (right - left) 2 ltac:(lia)) as Hdm.
    pose proof (Z.mod_pos_bound (right - left) 2 ltac:(lia)) as Hmb.
    assert (fuel <> 0%nat) by (intros ->; cbn in Hfu; lia).
    assert (2 ^ (Z.of_nat (Datatypes.S fuel) - 1) = 2 * 2 ^ (Z.of_nat fuel - 1)) as Hpow.
    { rewrite <- Z.pow_succ_r by lia. f_equal. lia. }
    set (left' := if tk <? key then mid + 1 else left).
    set (right' := if tk <? key then right else mid - 1).
    assert (left <= left' /\ right' <= right /\ left' <= right' + 1 /\
            2 * (right' - left') <= right - left /\ left' <= right) as (H1 & H2 & H3 & H4 & H5).
    { unfold left', right'. destruct (tk <? key); lia. }
    assert (forall x, -1 <= x -> 0 <= Z.quot x 2 /\ 2 * Z.quot x 2 <= Z.max 0 x) as Hq.
    { intros x Hx. destruct (decide (x = -1)) as [->|]; [change (Z.quot (-1) 2) with 0; lia|].
      rewrite Z.quot_div_nonneg by lia.
      pose proof (Z.div_mod x 2 ltac:(lia)). pose proof (Z.mod_pos_bound x 2 ltac:(lia)). lia. }
    specialize (Hq (right' - left') ltac:(lia)).
    rewrite (cua_priv_at s c l _ Hc) by lia. rewrite bind_ok_l.
    apply IH; try done; try lia. intros i Hi Hfi. specialize (Hin i Hi Hfi).
    unfold left', right'. destruct (Z.ltb_spec tk key).
    + split; [|lia]. destruct (Z.leb_spec (mid + 1) i); [done|].
      pose proof (Hs i mid ltac:(lia) ltac:(lia) ltac:(lia)). lia.
    + split; [lia|]. destruct (Z.leb_spec i (mid - 1)); [done|].
      pose proof (Hs mid i ltac:(lia) ltac:(lia) ltac:(lia)). lia.
  - destruct (Z.eqb_spec tk key) as [E|E].
    + exists mid. split; [done|]. left. split; [done|congruence].
    + exists npos. split; [done|]. right. split; [done|]. intros i Hi Hfi.
      specialize (Hin i Hi Hfi). assert (right = left) as -> by lia.
      rewrite Z.sub_diag in Hmid. change (Z.quot 0 2) with 0 in Hmid.
      apply E. rewrite Htk, <- Hfi. f_equal. lia.
Qed.
End access.

(** C2: access to a packed array of any width, on any backend.  Positions at or
    behind the bound throw; at a position below it the getter returns the
    field of that width of the little-endian bit string, and the setter stores
    the number reduced to the width into exactly these bits: reading it back
    gives the reduced number, every other element is unchanged, and so is every
    other bit of the window.  The setter returns the reduced number except for
    the 8-, 24- and 32-bit arrays, which return the argument. *)
Theorem cua_access {S} {B : Backend S} {BO : BackendOk S} i128 (s : S) c l pos v :
  cua_ok s c l -> 0 <= pos -> fits 64 v ->
  (m_maxCount c <= pos ->
     cua_at i128 s c pos = Err OutOfBoundsException /\
     cua_set i128 s c pos v = Err OutOfBoundsException) /\
  (pos < m_maxCount c ->
     cua_at i128 s c pos = Ok (field (cua_bpn c) l pos) /\
     exists s' l', cua_set i128 s c pos v = Ok (s', set_returns (cua_kind_of c) v) /\
       cua_ok s' c l' /\
       cua_at i128 s' c pos = Ok (wrap (cua_bpn c) v) /\
       (forall q, 0 <= q < m_maxCount c -> q <> pos -> cua_at i128 s' c q = cua_at i128 s c q) /\
       (forall i, 0 <= i -> i < pos * cua_bpn c \/ (pos + 1) * cua_bpn c <= i ->
          Z.testbit (le_val l') i = Z.testbit (le_val l) i)).
Proof.
  intros Hc Hp Hv. pose proof (kind_bpn _ (cua_kind_ok _ _ _ Hc)) as Hb. fold (cua_bpn c) in Hb.
  assert (forall s l q, cua_ok s c l -> 0 <= q < m_maxCount c ->
    cua_at i128 s c q = Ok (field (cua_bpn c) l q)) as Hat.
  { intros s' l' q Hc' Hq. unfold cua_at. rewrite (proj2 (Z.leb_gt _ _)) by lia.
    by apply cua_priv_at. }
  split; intros Hpos.
  { unfold cua_at, cua_set. by rewrite (proj2 (Z.leb_le _ _)) by lia. }
  split; [by apply Hat|].
  destruct (cua_set_ok i128 s c l pos v Hc ltac:(lia) Hv) as (s' & l' & Hset & [_ _ _ Hr _] & Hc').
  exists s', l'. split; [done|]. split; [done|]. split; [|split].
  - rewrite (Hat s' l') by (done || lia). f_equal. apply (field_replaced_same _ l); lia || done.
  - intros q Hq Hne. rewrite (Hat s' l'), (Hat s l) by done. f_equal.
    apply (field_replaced_other _ _ _ pos _ v); lia || done.
  - intros i Hi Hout. rewrite Hr by done.
    destruct (Z.leb_spec (pos * cua_bpn c) i), (Z.ltb_spec i (pos * cua_bpn c + cua_bpn c));
      cbn [andb]; done || nia.
Qed.

(** C3: [findSorted] on a sorted prefix terminates without leaving the array
    and returns the position of the key when the prefix contains it, and
    [npos] when it does not. *)
Theorem findSorted_correct {S} {B : Backend S} {BO : BackendOk S} i128 (s : S) c l key len :
  cua_ok s c l -> 0 <= len <= m_maxCount c -> len < 2 ^ 63 ->
  (forall i j, 0 <= i -> i <= j -> j < len ->
     field (cua_bpn c) l i <= field (cua_bpn c) l j) ->
  exists r, findSorted i128 s c key len = Ok r /\
    (0 <= r < len /\ field (cua_bpn c) l r = key \/
     r = npos /\ forall i, 0 <= i < len -> field (cua_bpn c) l i <> key).
Proof.
  intros Hc Hlen Hbig Hs. unfold findSorted. destruct (Z.eqb_spec len 0) as [->|Hne].
  { exists npos. split; [done|]. right. split; [done|]. lia. }
  rewrite swrap_small by (unfold sfits; lia). rewrite Z.quot_div_nonneg by lia.
  assert (0 <= (len - 1) / 2 < len) as Hm.
  { split; [apply Z.div_pos; lia|apply Z.div_lt_upper_bound; lia]. }
  rewrite (cua_priv_at i128 s c l _ Hc) by lia. rewrite bind_ok_l.
  apply (findSorted_loop_ok i128 66 s c l key len); try done; try lia.
  rewrite Z.sub_0_r, Z.add_0_r, Z.quot_div_nonneg by lia. done.
Qed.

Lemma cua_access_witness :
  exists s' l', cua_set true (Vec.mk [255; 255; 255]) (mkCua (KVarBits 5) (mkUba 0 3 0 0) 4) 1 70
      = Ok (s', 6) /\
    cua_at true s' (mkCua (KVarBits 5) (mkUba 0 3 0 0) 4) 1 = Ok 6 /\
    cua_ok s' (mkCua (KVarBits 5) (mkUba 0 3 0 0) 4) l'.
Proof.
  destruct (cua_access true (Vec.mk [255; 255; 255]) (mkCua (KVarBits 5) (mkUba 0 3 0 0) 4)
    [255; 255; 255] 1 70) as [_ H].
  - split; cbn; try lia.
    split; [uba_wf_tac|reflexivity].
  - lia.
  - unfold fits; lia.
  - destruct H as (_ & s' & l' & H1 & H2 & H3 & _); [cbn; lia|]. exists s', l'.
    split; [exact H1|]. split; [exact H3|exact H2].
Defined.

Lemma findSorted_correct_witness :
  exists r, findSorted true (Vec.mk [1; 4; 9]) (mkCua KU8 (mkUba 0 3 0 0) 3) 4 3 = Ok r.
Proof.
  destruct (findSorted_correct true (Vec.mk [1; 4; 9]) (mkCua KU8 (mkUba 0 3 0 0) 3) [1; 4; 9] 4 3)
    as (r & H & _).
  - split; cbn; try lia.
    split; [uba_wf_tac|reflexivity].
  - cbn; lia.
  - lia.
  - intros i j Hi Hij Hj.
    assert (i = 0 \/ i = 1 \/ i = 2) as Hi' by lia. assert (j = 0 \/ j = 1 \/ j = 2) as Hj' by lia.
    destruct Hi' as [->|[->| ->]], Hj' as [->|[->| ->]]; vm_compute; done || lia.
  - exists r. exact H.
Defined.

(** * Creating arrays *)

Lemma log2_fits v : 0 <= v -> fits (Z.max 1 (Z.log2 v + 1)) v.
Proof.
  intros Hv. unfold fits. split; [done|]. destruct (decide (v = 0)) as [->|].
  { apply pow2_pos. lia. }
  pose proof (Z.log2_nonneg v). rewrite Z.max_r by lia. apply Z.log2_lt_pow2; lia.
Qed.

Lemma minStorageBits_ok v : fits 64 v ->
  exists b, minStorageBits v = Ok b /\ 1 <= b <= 64 /\ fits b v /\
    (forall b', 1 <= b' < b -> ~ fits b' v).
Proof.
  intros Hv. unfold minStorageBits. rewrite msb64_log2, bind_ok_l by done.
  pose proof (Z.log2_nonneg v). assert (Z.log2 v < 64).
  { destruct (decide (v = 0)) as [->|]; [cbn; lia|]. apply Z.log2_lt_pow2; unfold fits in Hv; lia. }
  rewrite wrap_small by (unfold fits; lia).
  eexists. split; [done|]. split; [lia|]. split; [apply log2_fits; unfold fits in Hv; lia|].
  intros b' Hb' [Hf0 Hf]. assert (v <> 0) by (intros ->; change (Z.log2 0) with 0 in *; lia).
  apply Z.log2_lt_pow2 in Hf; lia.
Qed.

Lemma minStorageBytes_ok b count :
  0 <= b -> 0 <= count -> count * b < 2 ^ 64 - 8 ->
  0 <= minStorageBytes b count /\ count * b <= 8 * minStorageBytes b count < count * b + 8.
Proof.
  intros Hb Hc Hf. unfold minStorageBytes.
  assert (0 <= count * b) by nia.
  rewrite (wrap_small 64 (count * b)) by (unfold fits; lia).
  pose proof (Z.div_mod (count * b) 8 ltac:(lia)) as Hdm.
  pose proof (Z.mod_pos_bound (count * b) 8 ltac:(lia)).
  destruct (Z.ltb_spec 0 ((count * b) mod 8)); rewrite wrap_small by (unfold fits; lia); lia.
Qed.

Lemma src_max_spec src : Forall (fits 64) src ->
  fits 64 (list_max src) /\ Forall (fun v => 0 <= v <= list_max src) src.
Proof.
  induction 1 as [|v src Hv Hs [IH1 IH2]]; cbn [list_max foldr].
  - split; [unfold fits; lia|done].
  - fold (list_max src). unfold fits in *. split; [lia|]. constructor; [lia|].
    eapply Forall_impl; [exact IH2|]. cbn. lia.
Qed.

Section creation.
Context {S : Type} {B : Backend S} {BO : BackendOk S} (i128 : bool).

(** The kind chosen for a width has that width. *)
Lemma setPrivate_ok a bits :
  1 <= bits <= 64 -> 0 <= m_len a -> 8 * m_len a < 2 ^ 64 ->
  exists k, setPrivate a bits = Ok (mkCua k a (8 * m_len a / bits)) /\
    kind_ok k /\ priv_bpn k = bits.
Proof using.
  intros Hb Hl Hf. unfold setPrivate.
  rewrite (proj2 (Z.eqb_neq bits 0)), (proj2 (Z.ltb_ge 64 bits)) by lia.
  rewrite (wrap_small 64) by (unfold fits; lia).
  rewrite (Z.mul_comm (m_len a) 8).
  assert (8 * m_len a / bits <= 8 * m_len a) by (apply Z.div_le_upper_bound; nia).
  rewrite Z.min_l by (unfold max_u64; lia).
  destruct (Z.eqb_spec bits 8) as [->|]; [by exists KU8|].
  destruct (Z.eqb_spec bits 16) as [->|]; [by exists KU16|].
  destruct (Z.eqb_spec bits 24) as [->|]; [by exists KU24|].
  destruct (Z.eqb_spec bits 32) as [->|]; [by exists KU32|].
  destruct (Z.leb_spec bits 32).
  - exists (KVarBits bits). unfold KVarBits_new.
    rewrite (proj2 (Z.eqb_neq bits 0)), (proj2 (Z.ltb_ge 32 bits)) by lia.
    split; [done|]. split; [cbn; lia|done].
  - exists (KVarBits64 bits). unfold KVarBits64_new.
    rewrite (proj2 (Z.eqb_neq bits 0)), (proj2 (Z.ltb_ge 64 bits)) by lia.
    split; [done|]. split; [cbn; lia|done].
Qed.

Lemma setPrivate_cua_ok (s : S) a l bits :
  buf s a l -> 1 <= bits <= 64 -> 8 * zlen l < 2 ^ 64 ->
  exists c, setPrivate a bits = Ok c /\ cua_ok s c l /\ cua_bpn c = bits /\
    m_data c = a /\ m_maxCount c = 8 * zlen l / bits.
Proof using.
  intros Hb Hbits Hf. pose proof (buf_len _ _ _ Hb) as Hl.
  destruct (setPrivate_ok a bits) as (k & -> & Hk & Hkb); [lia|lia|lia|].
  rewrite Hl. eexists. split; [done|]. split; [|done].
  pose proof (Z.mul_div_le (8 * zlen l) bits ltac:(lia)).
  split; cbn; try done; [apply Z.div_pos; lia|]. unfold cua_bpn. cbn. lia.
Qed.

(** Storing a list of numbers from position [pos] on. *)
Record filled (w : Z) (l l' : list Z) (pos : Z) (src : list Z) : Prop := {
  filled_len : length l' = length l;
  filled_at (i : nat) v : src !! i = Some v -> field w l' (pos + Z.of_nat i) = wrap w v;
  filled_other i : 0 <= i -> i < pos * w \/ (pos + zlen src) * w <= i ->
    Z.testbit (le_val l') i = Z.testbit (le_val l) i;
}.

Lemma cua_fill_ok c src : Forall (fits 64) src -> forall (s : S) l pos,
  cua_ok s c l -> 0 <= pos -> pos + zlen src <= m_maxCount c ->
  exists s' l', cua_fill i128 s c pos src = Ok s' /\ cua_ok s' c l' /\
    filled (cua_bpn c) l l' pos src /\ same_outside (m_data c) s s'.
Proof using BO.
  induction 1 as [|v src Hv Hs IH]; intros s l pos Hc Hp Hle; cbn [cua_fill].
  { exists s, l. split; [done|]. split; [done|]. split; [split; done|apply same_outside_refl]. }
  cbn [length] in Hle.
  pose proof (kind_bpn _ (cua_kind_ok _ _ _ Hc)) as Hb. fold (cua_bpn c) in Hb.
  destruct (cua_set_ok i128 s c l pos v Hc ltac:(lia) Hv) as (s1 & l1 & -> & [_ _ Hl1 Hr1 Ho1] & Hc1).
  rewrite bind_ok_l. pose proof (cua_room _ _ _ Hc). pose proof (cua_fits _ _ _ Hc).
  rewrite wrap_small by (unfold fits; nia).
  destruct (IH s1 l1 (pos + 1) Hc1) as (s2 & l2 & Hfill & Hc2 & [Hl2 Hat Hoth] & Ho2); [lia|lia|].
  exists s2, l2. split; [done|]. split; [done|]. split; [|by eapply same_outside_trans].
  cbn [length]. split.
  - congruence.
  - intros [|i] x Hx; cbn [lookup list_lookup] in Hx.
    + injection Hx as ->. rewrite <- (field_replaced_same (cua_bpn c) l l1 pos x) by (lia || done).
      apply Z.bits_inj'. intros j Hj. rewrite !testbit_field by lia.
      destruct (Z.ltb_spec j (cua_bpn c)); [|done]. cbn [andb].
      replace (pos + Z.of_nat 0) with pos by lia. apply Hoth; nia.
    + rewrite <- (Hat i x Hx). f_equal. lia.
  - intros i Hi Hout. cbn [length] in Hout. rewrite Nat2Z.inj_succ in Hout.
    rewrite Hoth, Hr1; [|done|done|destruct Hout; [left; nia|right; nia]].
    destruct (Z.leb_spec (pos * cua_bpn c) i), (Z.ltb_spec i (pos * cua_bpn c + cua_bpn c));
      cbn [andb]; done || nia.
Qed.

(** ** Room at the put position *)

Lemma reserveFromPutPtr_ok (s : S) a l n :
  buf s a l -> 0 <= m_putPtr a <= zlen l -> 0 <= n -> m_offSet a + m_putPtr a + n < 2 ^ 64 ->
  exists s' a' ext,
    reserveFromPutPtr s a n = (s', a', true) /\ buf s' a' (l ++ ext) /\
    zlen l + zlen ext = Z.max (zlen l) (m_putPtr a + n) /\
    m_offSet a' = m_offSet a /\ m_getPtr a' = m_getPtr a /\ m_putPtr a' = m_putPtr a.
Proof using BO.
  intros Hb Hp Hn Hf. pose proof (buf_len _ _ _ Hb) as Hl. pose proof (buf_fits _ _ _ Hb).
  unfold reserveFromPutPtr. rewrite Hl. rewrite (wrap_small 64 (m_putPtr a + n)) by (unfold fits; lia).
  destruct ((m_putPtr a <? zlen l) && (n <=? zlen l - m_putPtr a)) eqn:E.
  - exists s, a, []. rewrite app_nil_r. cbn [length]. split; [done|]. split; [done|]. split; [lia|done].
  - assert (zlen l <= m_putPtr a + n) by (destruct (Z.ltb_spec (m_putPtr a) (zlen l)); cbn [andb] in E; lia).
    rewrite wrap_small by (unfold fits; lia).
    destruct (growStorage_ok s a l (m_putPtr a + n - zlen l) Hb) as (s' & ext & -> & Hb' & He); [lia|lia|].
    eexists _, _, _. split; [done|]. split; [exact Hb'|]. cbn. split; [lia|done].
Qed.

Lemma reserveFromPutPtr_frame (s : S) a n s' a' b : reserveFromPutPtr s a n = (s', a', b) -> frame (m_offSet a) s s'.
Proof using BO.
  unfold reserveFromPutPtr. destruct (_ && _); [by intros [= <- _ _]|]. intros Hg. by eapply growStorage_frame.
Qed.

Lemma same_outside_frame (b : uba) (s s' : S) o : o <= m_offSet b -> same_outside b s s' -> frame o s s'.
Proof using. intros Ho [_ Hs] i x Hi Hx. rewrite Hs; [done|lia]. Qed.

(** [a] after its window from position [o] on changed. *)
Lemma buf_outer (s s' : S) a b l l' o :
  buf s a l -> 0 <= o <= zlen l -> m_offSet b = m_offSet a + o -> m_len b = zlen l - o ->
  buf s' b l' -> same_outside b s s' -> buf s' a (take (Z.to_nat o) l ++ l').
Proof using.
  intros Hb Ho Hoff Hlen Hb' [Hdl Hda]. pose proof (buf_len _ _ _ Hb) as Hl.
  pose proof (buf_len _ _ _ Hb') as Hl'. destruct Hb as [Hwf Hv]. destruct Hb' as [Hwf' Hv'].
  pose proof Hwf as [? ? ? ? ? ? ?].
  assert (uba_wf (bk_data s') a) as Hwf2 by (split; rewrite ?Hdl; try done; apply Hwf').
  split; [done|]. apply list_eq. intros i. rewrite (lookup_view _ _ _ Hwf2).
  destruct (decide (i < Z.to_nat o)%nat) as [Hi|Hi].
  - rewrite lookup_app_l by (rewrite length_take; lia). rewrite lookup_take_lt by lia.
    rewrite <- Hv, (lookup_view _ _ _ Hwf). rewrite (proj2 (Z.ltb_lt (Z.of_nat i) (m_len a))) by lia.
    apply Hda. lia.
  - rewrite lookup_app_r by (rewrite length_take; lia). rewrite length_take.
    rewrite <- Hv', (lookup_view _ _ _ Hwf').
    destruct (Z.ltb_spec (Z.of_nat i) (m_len a)),
      (Z.ltb_spec (Z.of_nat (i - Z.to_nat o `min` length l)) (m_len b)); try lia; [|done].
    f_equal. lia.
Qed.

(** Equal bits are equal bytes. *)
Lemma le_val_inj l1 l2 : bytes_ok l1 -> bytes_ok l2 -> length l1 = length l2 ->
  le_val l1 = le_val l2 -> l1 = l2.
Proof using.
  intros H1 H2 Hl He. rewrite <- (le_bytes_le_val l1 H1), <- (le_bytes_le_val l2 H2). by rewrite Hl, He.
Qed.

Lemma filled_tail w l l' src n :
  bytes_ok l -> bytes_ok l' -> 0 <= w -> filled w l l' 0 src -> zlen src * w <= 8 * Z.of_nat n ->
  drop n l' = drop n l.
Proof using.
  intros Hl Hl' Hw [Hlen _ Hoth] Hn. apply le_val_inj.
  - by apply Forall_drop.
  - by apply Forall_drop.
  - rewrite !length_drop. lia.
  - rewrite !le_val_drop by done. apply Z.bits_inj'. intros i Hi. rewrite !Z.shiftr_spec by lia.
    apply Hoth; lia.
Qed.

Lemma field_take w l n i : bytes_ok l -> 0 <= w -> 0 <= i -> (i + 1) * w <= 8 * Z.of_nat n ->
  field w (take n l) i = field w l i.
Proof using.
  intros Hl Hw Hi Hin. apply Z.bits_inj'. intros j Hj. rewrite !testbit_field by lia.
  destruct (Z.ltb_spec j w); [|done]. cbn [andb]. rewrite le_val_take by done.
  rewrite testbit_wrap by lia. rewrite (proj2 (Z.ltb_lt _ _)) by nia. done.
Qed.

(** What a packed list of numbers looks like. *)
Record packs (w : Z) (src body : list Z) : Prop := {
  packs_len : zlen body = minStorageBytes w (zlen src);
  packs_at (i : nat) v : src !! i = Some v -> field w body (Z.of_nat i) = wrap w v;
}.

Definition small_enough (a : uba) (l : list Z) (n : Z) : Prop :=
  8 * (m_offSet a + zlen l + n) < 2 ^ 64 - 16.

(** Filling an array over the window [b] from position [p] of [a] on. *)
Lemma fill_window_ok (s : S) a l b p src bits :
  buf s a l -> 0 <= p -> p + minStorageBytes bits (zlen src) <= zlen l ->
  m_offSet b = m_offSet a + p -> m_len b = zlen l - p -> fits 64 (m_getPtr b) -> fits 64 (m_putPtr b) ->
  Forall (fits 64) src -> 1 <= bits <= 64 -> 8 * zlen l < 2 ^ 64 -> zlen src * bits < 2 ^ 64 - 8 ->
  exists c s' body, setPrivate b bits = Ok c /\ cua_fill i128 s c 0 src = Ok s' /\
    packs bits src body /\ buf s' a (splice l p body) /\ same_outside b s s'.
Proof using BO.
  intros Hb Hp Hin Hbo Hbl Hbg Hbp Hsrc Hbits Hf Hsf.
  destruct (minStorageBytes_ok bits (zlen src)) as (Hn0 & Hn1 & Hn2); [lia|lia|lia|].
  set (n := minStorageBytes bits (zlen src)) in *.
  assert (buf s b (drop (Z.to_nat p) l)) as Hbb by (apply (buf_tail s a l Hb b p); try done; lia).
  set (d := drop _ _) in *.
  assert (zlen d = zlen l - p) as Hdl by (unfold d; rewrite length_drop; lia).
  destruct (setPrivate_cua_ok s b d bits Hbb Hbits) as (c & -> & Hc & Hcb & Hcd & Hcm); [lia|].
  destruct (cua_fill_ok c src Hsrc s d 0 Hc) as (s2 & d' & Hfl2 & Hc2 & Hfill & Hout); [lia| |].
  { rewrite Hcm. apply Z.div_le_lower_bound; lia. }
  rewrite Hcd in Hout. rewrite Hcb in Hfill.
  pose proof (cua_buf _ _ _ Hc2) as Hb2. rewrite Hcd in Hb2.
  pose proof (buf_bytes _ _ _ Hb2) as Hd2. pose proof (buf_bytes _ _ _ Hbb) as Hd1.
  pose proof (filled_len _ _ _ _ _ Hfill) as Hfl.
  exists c, s2, (take (Z.to_nat n) d'). split; [done|]. split; [done|]. split; [split|split; [|done]].
  - rewrite length_take. lia.
  - intros i v Hi. pose proof (lookup_lt_Some _ _ _ Hi). rewrite field_take; [|done|lia|lia|nia].
    rewrite <- (filled_at _ _ _ _ _ Hfill i v Hi). f_equal.
  - assert (take (Z.to_nat p) l ++ d' = splice l p (take (Z.to_nat n) d')) as <-.
    + unfold splice. f_equal. rewrite <- (take_drop (Z.to_nat n) d') at 1. f_equal.
      rewrite (filled_tail bits d d' src _ Hd1 Hd2 ltac:(lia) Hfill) by lia.
      unfold d. rewrite drop_drop, length_take. f_equal. lia.
    + eapply (buf_outer s s2 a b l d' p); try done; lia.
Qed.

Lemma incPutPtr_in a n : 0 <= n -> 0 <= m_putPtr a -> m_putPtr a + n <= m_len a -> m_len a < 2 ^ 64 ->
  incPutPtr a n = mkUba (m_offSet a) (m_len a) (m_getPtr a) (m_putPtr a + n).
Proof using.
  intros Hn Hp Hl Hf. unfold incPutPtr, setPutPtr. rewrite wrap_small by (unfold fits; lia). f_equal.
  destruct (Z.leb_spec (m_len a) (m_putPtr a + n)); lia.
Qed.

Lemma cua_create_bits_ok (s : S) a l src bits :
  buf s a l -> 0 <= m_putPtr a <= zlen l -> Forall (fits 64) src -> 1 <= bits <= 64 ->
  small_enough a l (zlen src * bits) ->
  exists s' a' body, cua_create_bits i128 s src a bits = Ok (s', a', bits) /\
    packs bits src body /\ pushed a l body s' a' /\ frame (m_offSet a) s s'.
Proof using BO.
  intros Hb Hp Hsrc Hbits Hsm. unfold small_enough in Hsm. pose proof (buf_fits _ _ _ Hb).
  destruct (minStorageBytes_ok bits (zlen src)) as (Hn0 & Hn1 & Hn2); [lia|lia|lia|].
  unfold cua_create_bits. set (n := minStorageBytes bits (zlen src)) in *.
  destruct (reserveFromPutPtr_ok s a l n Hb Hp Hn0) as (s1 & a1 & ext & Hres & Hb1 & He & Ho & Hg & Hpp); [lia|].
  pose proof (reserveFromPutPtr_frame _ _ _ _ _ _ Hres) as Hfr. rewrite Hres. cbn [negb].
  pose proof (buf_len _ _ _ Hb1) as Hl1. rewrite length_app in Hl1.
  pose proof Hb1 as [[? ? ? ? Hgw Hpw ?] _]. pose proof (buf_fits _ _ _ Hb1) as Hf1. rewrite length_app in Hf1.
  set (b := shrinkToPutPtr a1).
  assert (m_offSet b = m_offSet a1 + m_putPtr a /\ m_len b = zlen (l ++ ext) - m_putPtr a /\
          m_putPtr b = 0 /\ m_getPtr b = m_getPtr a1) as (Hbo & Hbl & Hbp & Hbg).
  { unfold b, shrinkToPutPtr. rewrite Hpp, Hl1. rewrite (proj2 (Z.ltb_ge _ (m_putPtr a))) by lia.
    cbn. rewrite wrap_small by (unfold fits; lia). rewrite length_app.
    unfold fits in Hgw. rewrite (proj2 (Z.ltb_ge _ 0)) by lia. repeat split; lia. }
  destruct (fill_window_ok s1 a1 (l ++ ext) b (m_putPtr a) src bits Hb1)
    as (c & s2 & body & -> & Hfill & Hpk & Hfin & Hout); try done; try (rewrite ?length_app; lia).
  { by rewrite Hbg. }
  rewrite bind_ok_l, Hfill, bind_ok_l. exists s2, (incPutPtr a1 n), body. split; [done|]. split; [done|].
  split; [|eapply frame_trans; [exact Hfr|]; apply (same_outside_frame b); [lia|done]].
  pose proof (packs_len _ _ _ Hpk) as Hbl'. fold n in Hbl'.
  rewrite incPutPtr_in by lia. rewrite splice_grown in Hfin by lia.
  split; cbn [m_offSet m_getPtr m_putPtr]; try lia.
  apply buf_ptrs; [exact Hfin|done|unfold fits; lia].
Qed.
End creation.

(** * The bounded array *)

Section bounded.
Context {S : Type} {B : Backend S} {BO : BackendOk S} (i128 : bool).

(** Size and width in one number: the width minus one in the low six bits. *)
Definition header (n bits : Z) : Z := u64 (n <<< 6) ||| u32 (bits - 1).

Lemma header_ok n bits : 0 <= n < 2 ^ 58 -> 1 <= bits <= 64 ->
  fits 64 (header n bits) /\ header n bits >>> 6 = n /\ u32 ((header n bits &&& 63) + 1) = bits.
Proof using.
  intros Hn Hb. assert (fits 6 (bits - 1)) as Hf by (unfold fits; lia).
  assert (fits 58 n) as Hfn by (unfold fits; lia).
  assert (header n bits = (n <<< 6) ||| (bits - 1)) as ->.
  { unfold header. rewrite (wrap_small 32) by (unfold fits; lia). f_equal. apply wrap_small.
    unfold fits. rewrite Z.shiftl_mul_pow2 by lia. lia. }
  split; [|split].
  - apply lor_fits; [lia| |eapply fits_mono; [|exact Hf]; lia].
    unfold fits. rewrite Z.shiftl_mul_pow2 by lia. lia.
  - bitwise.
  - assert (((n <<< 6) ||| (bits - 1)) &&& 63 = bits - 1) as ->.
    { change 63 with (Z.ones 6). bitwise. }
    rewrite wrap_small by (unfold fits; lia). lia.
Qed.

Lemma pushed_app (s1 s2 : S) a l b1 b2 a1 a2 :
  0 <= m_putPtr a <= zlen l -> pushed a l b1 s1 a1 ->
  pushed a1 (splice l (m_putPtr a) b1) b2 s2 a2 -> pushed a l (b1 ++ b2) s2 a2.
Proof using.
  intros Hp [Hb1 Ho1 Hg1 Hp1] [Hb2 Ho2 Hg2 Hp2]. rewrite Hp1, splice_splice in Hb2 by done.
  split; [done|congruence|congruence|rewrite length_app; lia].
Qed.

(** The encoding: header, then the packed numbers. *)
Definition bounded_encodes (src enc : list Z) (bits : Z) : Prop :=
  exists hdr body, enc = hdr ++ body /\ 1 <= bits <= 64 /\ Forall (fits bits) src /\
    hdr = vbytes (Z.to_nat (packed_len (header (zlen src) bits))) (header (zlen src) bits) /\
    packs bits src body.

Lemma bounded_create_ok (s : S) a l src :
  buf s a l -> 0 <= m_putPtr a <= zlen l -> Forall (fits 64) src -> src <> [] ->
  zlen src < 2 ^ 58 -> small_enough a l (zlen src * 64 + 10) ->
  exists s' a' bits enc, bounded_create i128 s src a = Ok (s', a', bits) /\
    bounded_encodes src enc bits /\ pushed a l enc s' a'.
Proof using BO.
  intros Hb Hp Hsrc Hne Hlen Hsm. unfold small_enough in Hsm. pose proof (buf_fits _ _ _ Hb).
  destruct (src_max_spec src Hsrc) as [Hmf Hmx].
  destruct (minStorageBits_ok (list_max src) Hmf) as (bits & Hmb & Hbits & Hbf & _).
  destruct (header_ok (zlen src) bits ltac:(lia) Hbits) as (Hhf & _ & _).
  set (h := header (zlen src) bits) in *. set (hdr := vbytes (Z.to_nat (packed_len h)) h).
  assert (bounded_create i128 s src a =
    ('(s, dest, _) ← uba_sputVl VlUint64 s a h; cua_create_bits i128 s src dest bits)) as ->.
  { unfold bounded_create. destruct src; [done|]. by rewrite Hmb, bind_ok_l. }
  pose proof (packed_len_pos h). pose proof (packed_len_bound h 64 10 Hhf ltac:(lia) ltac:(lia)).
  assert (zlen hdr = packed_len h) as Hhl by (unfold hdr; rewrite length_vbytes; lia).
  destruct (sputVl_ok s a l Hb Hp VlUint64 h hdr) as (s1 & a1 & -> & Hpu1).
  { cbn [vl_pack vl_max_len]. unfold p_vu64. rewrite p_v_u64_eq, p_v_spec_enough by (done || lia).
    by rewrite Hhl. }
  { apply vbytes_ok. }
  { lia. }
  rewrite bind_ok_l. pose proof Hpu1 as [Hb1 Ho1 Hg1 Hp1].
  assert (zlen (splice l (m_putPtr a) hdr) = Z.max (zlen l) (m_putPtr a + zlen hdr)) as Hl1.
  { unfold splice. rewrite !length_app, length_take, length_drop. lia. }
  destruct (cua_create_bits_ok i128 s1 a1 _ src bits Hb1) as (s2 & a2 & body & -> & Hpk & Hpu2 & _);
    [lia|done|done|unfold small_enough; nia|].
  exists s2, a2, bits, (hdr ++ body). split; [done|]. split; [|by eapply pushed_app].
  exists hdr, body. split; [done|]. split; [done|]. split; [|done].
  eapply Forall_impl; [exact Hmx|]. unfold fits in *. cbn. lia.
Qed.

Lemma uba_from_len_fields a o n :
  0 <= m_offSet a -> m_offSet a + m_len a < 2 ^ 64 -> 0 < o <= m_len a -> 0 <= n <= m_len a - o ->
  uba_from_len a o n = mkUba (m_offSet a + o) n 0 0.
Proof using.
  intros Ha Hal Ho Hn. unfold uba_from_len.
  rewrite (proj2 (Z.ltb_ge (m_len a) o)), (proj2 (Z.ltb_lt 0 o)) by lia.
  rewrite wrap_small by (unfold fits; lia). f_equal.
  destruct (Z.ltb_spec n (m_len a - o)); lia.
Qed.

(** Reading an encoded array, whatever follows it. *)
Lemma bounded_new_ok (s : S) d src enc rest bits :
  buf s d (enc ++ rest) -> bounded_encodes src enc bits -> 0 < zlen src < 2 ^ 58 ->
  8 * zlen (enc ++ rest) < 2 ^ 64 - 16 ->
  exists b body, bounded_new s d = Ok b /\ m_size b = zlen src /\
    cua_ok s (b_cua b) body /\ cua_bpn (b_cua b) = bits /\ packs bits src body /\
    m_maxCount (b_cua b) = 8 * zlen body / bits /\
    bounded_getSizeInBytes b = Ok (zlen enc).
Proof using BO.
  intros Hb (hdr & body & -> & Hbits & _ & Hhdr & Hpk) Hn Hf. rewrite <- app_assoc in *.
  destruct (header_ok (zlen src) bits ltac:(lia) Hbits) as (Hhf & Hh1 & Hh2).
  set (h := header (zlen src) bits) in *.
  pose proof (packed_len_pos h). pose proof (packed_len_bound h 64 10 Hhf ltac:(lia) ltac:(lia)).
  assert (zlen hdr = packed_len h) as Hhl by (subst hdr; rewrite length_vbytes; lia).
  rewrite !length_app in Hf. pose proof (buf_len _ _ _ Hb) as Hlen. rewrite !length_app in Hlen.
  pose proof (packs_len _ _ _ Hpk) as Hbl.
  assert (zlen src * bits <= 8 * zlen body < zlen src * bits + 8) as Hbr.
  { rewrite Hbl. apply minStorageBytes_ok; nia. }
  unfold bounded_new.
  assert (uba_getVl VlUint64 s d 0 = Ok (h, zlen hdr)) as ->.
  { apply (buf_getVl_middle VlUint64 s d [] hdr (body ++ rest) h Hb); [cbn [vl_max_len]; lia|].
    intros r. rewrite Hhl. subst hdr. apply up_v_vbytes; [by right|done]. }
  rewrite bind_ok_l. rewrite (proj2 (Z.ltb_ge _ _)) by lia.
  unfold narrow_check. cbn [ity_max ity_cast]. rewrite Hh1, Hh2.
  rewrite (proj2 (Z.ltb_ge _ _)) by lia. rewrite bind_ok_l, (wrap_small 64) by (unfold fits; lia).
  rewrite (proj2 (Z.eqb_neq _ 0)) by lia. rewrite <- Hbl, (wrap_small 32) by (unfold fits; lia).
  pose proof Hb as [[? ? ? ? ? ? ?] _].
  rewrite uba_from_len_fields by lia. set (w := mkUba _ _ _ _).
  assert (buf s w body) as Hw.
  { destruct Hb as [Hwf Hv].
    destruct (sub_window (bk_data s) d Hwf (zlen hdr) (zlen body) w) as [Hwf' Hv'];
      try done; try lia; try (cbn; unfold fits; lia).
    split; [done|]. rewrite Hv', Hv, !Nat2Z.id, drop_app_length. apply take_app_length. }
  destruct (setPrivate_cua_ok s w body bits Hw Hbits) as (c & -> & Hc & Hcb & _ & Hcm); [lia|].
  rewrite bind_ok_l. exists (mkBounded c (zlen src)), body. split; [done|].
  split; [done|]. split; [done|]. split; [done|]. split; [done|]. split; [done|].
  unfold bounded_getSizeInBytes. cbn [b_cua m_size]. rewrite Hcb. fold (header (zlen src) bits). fold h.
  unfold psize_vu64. rewrite psize_v_eq by (by right || done). rewrite bind_ok_l, <- Hbl, <- Hhl.
  unfold mret, result_ret. f_equal. rewrite length_app, wrap_small by (unfold fits; lia). lia.
Qed.
End bounded.

(** Round trip of the bounded array.  Creating one from a non-empty list of
    64-bit numbers at the put position succeeds and stores an encoding there;
    an adapter that starts with this encoding, whatever follows it, opens as an
    array with the size and the numbers of the list, whose reported size in
    bytes is the length of the encoding; the consuming constructor leaves the
    adapter at the byte behind it.  (The element bound of the opened array is
    the number of fields its bytes have room for.) *)
Theorem bounded_roundtrip {S} {B : Backend S} {BO : BackendOk S} i128 (s : S) a l src :
  buf s a l -> 0 <= m_putPtr a <= zlen l -> Forall (fits 64) src -> src <> [] ->
  zlen src < 2 ^ 58 -> small_enough a l (zlen src * 64 + 10) ->
  exists s' a' bits enc, bounded_create i128 s src a = Ok (s', a', bits) /\
    pushed a l enc s' a' /\
    forall (t : S) d rest, buf t d (enc ++ rest) -> 8 * zlen (enc ++ rest) < 2 ^ 64 - 16 ->
      exists b d', bounded_consume t d = Ok (b, d') /\ bounded_new t d = Ok b /\
        m_size b = zlen src /\ bounded_getSizeInBytes b = Ok (zlen enc) /\
        m_maxCount (b_cua b) = 8 * minStorageBytes bits (zlen src) / bits /\
        (forall (i : nat) v, src !! i = Some v -> cua_at i128 t (b_cua b) (Z.of_nat i) = Ok v) /\
        buf t d' rest.
Proof.
  intros Hb Hp Hsrc Hne Hlen Hsm.
  destruct (bounded_create_ok i128 s a l src Hb Hp Hsrc Hne Hlen Hsm) as (s' & a' & bits & enc & Hcr & Henc & Hpu).
  exists s', a', bits, enc. split; [done|]. split; [done|]. intros t d rest Hd Hf.
  assert (0 < zlen src) by (destruct src; [done|cbn [length]; lia]).
  destruct (bounded_new_ok t d src enc rest bits Hd Henc ltac:(lia) Hf)
    as (b & body & Hnew & Hsz & Hc & Hbpn & Hpk & Hmc & Hgs).
  pose proof Henc as (_ & _ & _ & Hbits & Hfits & _).
  exists b, (uba_plus_assign d (zlen enc)). rewrite (packs_len _ _ _ Hpk) in Hmc.
  split; [unfold bounded_consume; by rewrite Hnew, bind_ok_l, Hgs|]. split; [done|]. split; [done|]. split; [done|].
  split; [done|]. pose proof (buf_len _ _ _ Hd) as Hl. pose proof (buf_fits _ _ _ Hd) as Hfit.
  rewrite length_app in Hl, Hfit, Hf. split.
  - intros i v Hi. pose proof (lookup_lt_Some _ _ _ Hi).
    assert (zlen src <= m_maxCount (b_cua b)).
    { rewrite Hmc. apply Z.div_le_lower_bound; [lia|].
      destruct (minStorageBytes_ok bits (zlen src)); nia. }
    unfold cua_at. rewrite (proj2 (Z.leb_gt _ _)) by lia.
    rewrite (cua_priv_at i128 t _ body _ Hc) by lia. rewrite Hbpn, (packs_at _ _ _ Hpk i v Hi).
    f_equal. apply wrap_small. exact (Forall_lookup_1 _ _ _ _ Hfits Hi).
  - by apply (plus_assign_ok t d enc).
Qed.

Lemma bounded_roundtrip_witness :
  exists s' a' bits, bounded_create true (Vec.mk [9]) [5; 0; 300] (mkUba 0 1 0 1) = Ok (s', a', bits).
Proof.
  destruct (bounded_roundtrip true (Vec.mk [9]) (mkUba 0 1 0 1) [9] [5; 0; 300])
    as (s' & a' & bits & enc & H & _).
  - split; [uba_wf_tac|reflexivity].
  - cbn. lia.
  - repeat constructor; unfold fits; lia.
  - discriminate.
  - cbn. lia.
  - unfold small_enough. cbn. lia.
  - exists s', a', bits. exact H.
Defined.

(** The empty bounded array is written as one byte, but an array opened
    from it reports a size of five bytes (the width minus one wraps around in
    32 bits), so the consuming constructor skips up to four bytes of what
    follows. *)
Theorem bounded_empty_size {S} {B : Backend S} {BO : BackendOk S} i128 (s : S) a l :
  buf s a l -> 0 <= m_putPtr a <= zlen l -> m_offSet a + m_putPtr a + 1 < 2 ^ 64 ->
  (exists s' a', bounded_create i128 s [] a = Ok (s', a', 1) /\ pushed a l [0] s' a') /\
  forall (t : S) d rest, buf t d (0 :: rest) -> 4 <= zlen rest ->
    exists b d', bounded_consume t d = Ok (b, d') /\ m_size b = 0 /\
      bounded_getSizeInBytes b = Ok 5 /\ buf t d' (drop 4 rest).
Proof.
  intros Hb Hp Hf. split.
  - unfold bounded_create.
    destruct (sputVl_ok s a l Hb Hp VlUint64 0 [0]) as (s' & a' & -> & Hpu);
      [done|repeat constructor; unfold fits; lia|cbn [length]; lia|].
    by exists s', a'.
  - intros t d rest Hd Hr. pose proof (buf_len _ _ _ Hd) as Hl. pose proof (buf_fits _ _ _ Hd) as Hfit.
    cbn [length] in Hl, Hfit.
    exists (mkBounded (cua_empty 0) 0), (uba_plus_assign d 5).
    assert (bounded_new t d = Ok (mkBounded (cua_empty 0) 0)) as Hnew.
    { unfold bounded_new. assert (uba_getVl VlUint64 t d 0 = Ok (0, 1)) as ->; [|done].
      apply (buf_getVl_middle VlUint64 t d [] [0] rest 0 Hd); [cbn; lia|]. intros r.
      apply (up_v_vbytes 64 0 r); [by right|unfold fits; lia]. }
    assert (bounded_getSizeInBytes (mkBounded (cua_empty 0) 0) = Ok 5) as Hgs by reflexivity.
    split; [unfold bounded_consume; by rewrite Hnew, bind_ok_l, Hgs|]. split; [done|]. split; [done|].
    apply (plus_assign_drop t d (0 :: rest) Hd 5). cbn [length]. lia.
Qed.

Lemma bounded_empty_size_witness :
  exists b d', bounded_consume (Vec.mk [0; 1; 2; 3; 4; 5]) (mkUba 0 6 0 0) = Ok (b, d') /\
    bounded_getSizeInBytes b = Ok 5.
Proof.
  destruct (bounded_empty_size true (Vec.mk [0; 1; 2; 3; 4; 5]) (mkUba 0 6 0 0) [0; 1; 2; 3; 4; 5])
    as [_ H].
  - split; [uba_wf_tac|reflexivity].
  - cbn. lia.
  - cbn. lia.
  - destruct (H (Vec.mk [0; 1; 2; 3; 4; 5]) (mkUba 0 6 0 0) [1; 2; 3; 4; 5]) as (b & d' & H1 & _ & H2 & _).
    + split; [uba_wf_tac|reflexivity].
    + cbn. lia.
    + exists b, d'. split; [exact H1|exact H2].
Defined.
