(* ===== verification/SortedOffsets.v ===== *)
(** Sorted offsets: [src/containers/SortedOffsetIndexPrivate.cpp] with its header, and the
    wrapper [src/containers/SortedOffsetIndex.cpp].

    The offsets are stored as differences from a line, in a packed array.  The slope and
    the intercept of the line are the result of a linear regression in floating-point
    arithmetic; here it is a parameter, [regression], that may return any line, or throw. *)

From Stdlib Require Import Sorting.Sorted.
From S2P Require Import Prelude UtilMath PackUnpack Storage ByteArray ByteStream Bits CompactUintArray.

(** Signed 64-bit arithmetic; overflow is undefined. *)
Definition signed (r : Z) : result Z :=
  if (- 2 ^ 63 <=? r) && (r <? 2 ^ 63) then Ok r else Err UndefinedBehaviour.

(** [sserialize::narrow] in the 128-bit branch *)
Definition getRegLineSlopeCorrectionValue (slopenom size pos : Z) : result Z :=
  let n := u64 (size - 1) in
  if n =? 0 then Err UndefinedBehaviour
  else
    let int_part := u64 (slopenom / n * pos) in
    let frac := slopenom mod n * pos in
    frac_part ← (if 2 ^ 64 <=? frac then narrow_check (Unsigned 64) (Unsigned 128) (frac / n) else Ok (frac / n));
    mret (u64 (int_part + frac_part)).

Record soi := mkSoi { so_idStore : cua; so_size : Z; so_slopenom : Z; so_yintercept : Z; so_idOffset : Z }.

(** The default constructor leaves an empty array. *)
Definition soi_empty : soi := mkSoi (cua_empty 0) 0 0 0 0.

Definition IdBits : Z := 6.
Definition MaxSize : Z := Z.ones (64 - IdBits).

Section offsets.
Context {S : Type} `{Backend S} (i128 : bool).

(** ** Opening and access *)

Definition soi_init (s : S) (data : uba) : result soi :=
  '(size, curLen) ← uba_getVl VlUint64 s data 0;
  throw_if (curLen <? 0) CorruptDataException;;
  let data := uba_plus_assign data curLen in
  let bpn := u8 ((size &&& 63) + 1) in
  n ← narrow_check (Unsigned 64) (Unsigned 64) (size >>> 6);
  if 1 <? n then
    '(yintercept, curLen) ← uba_getVl VlInt64 s data 0;
    throw_if (curLen <? 0) CorruptDataException;;
    let data := uba_plus_assign data curLen in
    '(slopenom, curLen) ← uba_getVl VlUint64 s data 0;
    throw_if (curLen <? 0) CorruptDataException;;
    let data := uba_plus_assign data curLen in
    '(idOffset, curLen) ← uba_getVl VlUint64 s data 0;
    throw_if (curLen <? 0) CorruptDataException;;
    let data := uba_plus_assign data curLen in
    c ← setPrivate data bpn;
    throw_if (m_maxCount c <? n) CorruptDataException;;
    mret (mkSoi c n slopenom yintercept (s64 idOffset))
  else if negb (n =? 0) then
    '(y, curLen) ← uba_getVl VlUint64 s data 0;
    throw_if (curLen <? 0) CorruptDataException;;
    mret (mkSoi (cua_empty 0) n 0 (s64 y) 0)
  else mret soi_empty.

Definition soi_getSizeInBytes (o : soi) : result Z :=
  if so_size o =? 0 then Ok 1
  else if so_size o =? 1 then n ← psize_vu64 (u64 (so_yintercept o)); mret (u64 (1 + n))
  else
    a ← psize_vu64 (u64 (so_size o <<< 6));
    b ← psize_vu64 (so_slopenom o);
    c ← psize_vs64 (so_yintercept o);
    d ← psize_vu64 (u64 (so_idOffset o));
    let idStoreBitCount := u64 (so_size o * cua_bpn (so_idStore o)) in
    mret (u64 (a + b + c + d + (idStoreBitCount / 8 + (if idStoreBitCount mod 8 =? 0 then 0 else 1)))).

Definition soi_at (s : S) (o : soi) (pos : Z) : result Z :=
  throw_if (so_size o <=? pos) OutOfBoundsException;;
  if 1 <? so_size o then
    line ← getRegLineSlopeCorrectionValue (so_slopenom o) (so_size o) pos;
    id ← cua_at i128 s (so_idStore o) pos;
    let positive := u64 (line + id) in
    negative ← signed (so_yintercept o - so_idOffset o);
    if 0 <? negative then mret (u64 (positive + negative))
    else n ← sneg 64 negative; mret (u64 (positive - n))
  else mret (u64 (so_yintercept o)).

(** [SortedOffsetIndex(data, ConsumeTag)] *)
Definition soi_consume (s : S) (data : uba) : result (soi * uba) :=
  o ← soi_init s data; n ← soi_getSizeInBytes o; mret (o, uba_plus_assign data n).

(** ** Creation *)

(** The value of the line at a position, and the distance of an offset from it. *)
Definition offSetCorrection (slopenom yintercept size count : Z) : result Z :=
  v ← getRegLineSlopeCorrectionValue slopenom size count; signed (s64 v + yintercept).

Fixpoint neededBits_loop (ids : list Z) (slopenom yintercept size count maxPositive minNegative : Z) :
    result (Z * Z) :=
  match ids with
  | [] => Ok (maxPositive, minNegative)
  | id :: ids =>
      curOffSetCorrection ← offSetCorrection slopenom yintercept size count;
      curDiff ← signed (s64 id - curOffSetCorrection);
      let maxPositive := if maxPositive <? curDiff then curDiff else maxPositive in
      let minNegative := if curDiff <? minNegative then curDiff else minNegative in
      neededBits_loop ids slopenom yintercept size (u64 (count + 1)) maxPositive minNegative
  end.

(** Returns the width and the offset of the ids. *)
Definition getNeededBitsForLinearRegression (ids : list Z) (slopenom yintercept : Z) : result (Z * Z) :=
  '(maxPositive, minNegative) ← neededBits_loop ids slopenom yintercept (zlen ids) 0 0 0;
  d ← signed (maxPositive - minNegative);
  d ← signed (d + 1);
  range ← narrow_check (Unsigned 64) (Signed 64) d;
  idOffset ← (if minNegative <? 0 then sneg 64 minNegative else Ok minNegative);
  bits ← minStorageBits range;
  mret (u8 bits, idOffset).

Fixpoint putIds (s : S) (carr : cua) (src : list Z) (slopenom yintercept idOffset size count : Z) : result S :=
  match src with
  | [] => Ok s
  | i :: src =>
      v ← getRegLineSlopeCorrectionValue slopenom size count;
      curOffSetCorrection ← signed (yintercept + s64 v);
      d ← signed (s64 i - curOffSetCorrection);
      offSetCorrectedId ← signed (d + s64 idOffset);
      '(s, _) ← cua_set i128 s carr count (u64 offSetCorrectedId);
      putIds s carr src slopenom yintercept idOffset size (u64 (count + 1))
  end.

(** Behind [destination]'s put position: room, a packed array in it, the ids. *)
Definition soi_putBody (s : S) (dest : uba) (src : list Z) (bits slopenom yintercept idOffset : Z) :
    result (S * uba * bool) :=
  let idStorageNeed := minStorageBytes bits (zlen src) in
  let '(s, dest, _) := growStorage s dest idStorageNeed in
  carr ← setPrivate (uba_plus dest (m_putPtr dest)) bits;
  let dest := incPutPtr dest idStorageNeed in
  s ← putIds s carr src slopenom yintercept idOffset (zlen src) 0;
  mret (s, dest, true).

Definition soi_put (s : S) (dest : uba) (src : list Z) (bits slopenom yintercept idOffset : Z) :
    result (S * uba * bool) :=
  let countTypeHeader := u64 (zlen src <<< IdBits) ||| u64 (bits - 1) in
  '(s, dest, n) ← uba_sputVl VlUint64 s dest countTypeHeader;
  if n <? 0 then Ok (s, dest, false)
  else
    '(s, dest, n) ← uba_sputVl VlInt64 s dest yintercept;
    if n <? 0 then Ok (s, dest, false)
    else
      '(s, dest, n) ← uba_sputVl VlUint64 s dest slopenom;
      if n <? 0 then Ok (s, dest, false)
      else
        '(s, dest, n) ← uba_sputVl VlUint64 s dest idOffset;
        if n <? 0 then Ok (s, dest, false)
        else soi_putBody s dest src bits slopenom yintercept idOffset.

(** [getLinearRegressionParamsInteger]: slope, intercept, width, id offset. *)
Definition getLinearRegressionParamsInteger (regression : list Z -> result (Z * Z)) (ids : list Z) : result (Z * Z * Z * Z) :=
  '(slopenom, yintercept) ← regression ids;
  '(bpn, idOffset) ← getNeededBitsForLinearRegression ids slopenom yintercept;
  mret (slopenom, yintercept, bpn, idOffset).

Definition soi_create (regression : list Z -> result (Z * Z)) (s : S) (src : list Z) (dest : uba) : result (S * uba * bool) :=
  throw_if (MaxSize <? zlen src) OutOfBoundsException;;
  match src with
  | [] => '(s, dest) ← uba_sput Uint8 s dest 0; mret (s, dest, true)
  | [x] =>
      '(s, dest) ← uba_sput Uint8 s dest 64;
      '(s, dest, _) ← uba_sputVl VlUint64 s dest x;
      mret (s, dest, true)
  | _ =>
      '(slopenom, yintercept, bitsForIds, idOffset) ← getLinearRegressionParamsInteger regression src;
      plain ← minStorageBits (List.last src 0);
      if plain <=? bitsForIds then soi_put s dest src (u8 plain) 0 0 0
      else soi_put s dest src bitsForIds slopenom yintercept idOffset
  end.
End offsets.

(** * The line *)

Definition line (slopenom size pos : Z) : Z := slopenom * pos / (size - 1).

(** Whole and fractional part together are the exact quotient. *)
Lemma slope_correction_ok slopenom size pos :
  fits 64 slopenom -> 1 < size < 2 ^ 64 -> 0 <= pos < size ->
  getRegLineSlopeCorrectionValue slopenom size pos = Ok (line slopenom size pos) /\
  0 <= line slopenom size pos <= slopenom.
Proof.
  intros Hs Hn Hp. unfold getRegLineSlopeCorrectionValue, line. unfold fits in Hs.
  rewrite (wrap_small 64 (size - 1)) by (unfold fits; lia). rewrite (proj2 (Z.eqb_neq _ 0)) by lia.
  set (n := size - 1). assert (0 < n) as H0 by lia. assert (pos <= n) as Hpn by lia.
  pose proof (Z.div_mod slopenom n ltac:(lia)) as Hdm. pose proof (Z.mod_pos_bound slopenom n H0) as Hmb.
  set (q := slopenom / n) in *. set (r := slopenom mod n) in *.
  assert (0 <= q) by (apply Z.div_pos; lia).
  assert (0 <= slopenom * pos / n <= slopenom) as Hle.
  { split; [apply Z.div_pos; nia|]. apply Z.div_le_upper_bound; nia. }
  assert (slopenom * pos / n = q * pos + r * pos / n) as He.
  { rewrite Hdm. replace ((n * q + r) * pos) with (r * pos + q * pos * n) by lia. rewrite Z.div_add by lia. lia. }
  assert (0 <= r * pos / n) by (apply Z.div_pos; nia).
  assert (0 <= q * pos) by nia.
  assert (forall x, 0 <= x < 2 ^ 64 -> wrap 64 x = x) as Hw by (intros; by apply wrap_small).
  rewrite (Hw (q * pos)) by lia. split; [|done].
  destruct (Z.leb_spec (2 ^ 64) (r * pos)).
  - unfold narrow_check. cbn [ity_max ity_cast]. rewrite (proj2 (Z.ltb_ge _ _)) by lia.
    rewrite (Hw (r * pos / n)), bind_ok_l, Hw by lia. unfold mret, result_ret. by rewrite He.
  - rewrite bind_ok_l, Hw by lia. unfold mret, result_ret. by rewrite He.
Qed.

(** Offsets, slope and intercept in the range where no sum overflows. *)
Record line_ok (src : list Z) (slopenom yintercept : Z) : Prop := {
  line_slope : fits 61 slopenom;
  line_yint : - 2 ^ 61 < yintercept < 2 ^ 61;
  line_src : Forall (fits 61) src;
  line_size : 1 < zlen src < 2 ^ 58;
}.

(** How far an offset is from the line. *)
Definition dist (slopenom yintercept size count x : Z) : Z := x - (line slopenom size count + yintercept).

Lemma signed_ok r : sfits 64 r -> signed r = Ok r.
Proof.
  unfold sfits, signed. intros Hr. change (64 - 1) with 63 in Hr.
  by rewrite (proj2 (Z.leb_le _ _)), (proj2 (Z.ltb_lt _ _)) by lia.
Qed.

Section line.
Context (src : list Z) (slopenom yintercept : Z) (Hline : line_ok src slopenom yintercept).

Lemma dist_bound count x : 0 <= count < zlen src -> fits 61 x ->
  getRegLineSlopeCorrectionValue slopenom (zlen src) count = Ok (line slopenom (zlen src) count) /\
  fits 61 (line slopenom (zlen src) count) /\
  - 2 ^ 62 < dist slopenom yintercept (zlen src) count x < 2 ^ 62.
Proof using Hline.
  intros Hc Hx. destruct Hline as [Hs Hy _ Hn].
  destruct (slope_correction_ok slopenom (zlen src) count) as [-> Hl]; [unfold fits in *; lia|lia|done|].
  split; [done|]. unfold dist, fits in *. lia.
Qed.

Lemma neededBits_loop_ok ids : forall count mp mn,
  0 <= count -> count + zlen ids = zlen src -> Forall (fits 61) ids ->
  0 <= mp < 2 ^ 62 -> - 2 ^ 62 < mn <= 0 ->
  exists mp' mn', neededBits_loop ids slopenom yintercept (zlen src) count mp mn = Ok (mp', mn') /\
    mp <= mp' < 2 ^ 62 /\ - 2 ^ 62 < mn' <= mn /\
    (forall (i : nat) x, ids !! i = Some x -> mn' <= dist slopenom yintercept (zlen src) (count + Z.of_nat i) x <= mp').
Proof using Hline.
  induction ids as [|x ids IH]; intros count mp mn Hc Hn Hids Hmp Hmn; cbn [neededBits_loop].
  { exists mp, mn. split; [done|]. split; [lia|]. split; [lia|]. intros i y Hi. by rewrite lookup_nil in Hi. }
  cbn [length] in Hn. apply Forall_cons in Hids as [Hx Hids].
  destruct (dist_bound count x) as (Hg & Hl & Hd); [lia|done|]. pose proof (line_yint _ _ _ Hline).
  unfold offSetCorrection. rewrite Hg, bind_ok_l.
  assert (s64 (line slopenom (zlen src) count) = line slopenom (zlen src) count) as ->.
  { apply swrap_small; unfold fits, sfits in *; lia. }
  rewrite signed_ok by (unfold fits, sfits in *; lia). rewrite bind_ok_l.
  rewrite (swrap_small 64 x) by (unfold fits, sfits in *; lia).
  fold (dist slopenom yintercept (zlen src) count x). set (d := dist _ _ _ _ _) in *.
  rewrite signed_ok by (unfold sfits; lia). rewrite bind_ok_l.
  pose proof (line_size _ _ _ Hline). rewrite wrap_small by (unfold fits; lia).
  destruct (IH (count + 1) (if mp <? d then d else mp) (if d <? mn then d else mn))
    as (mp' & mn' & -> & Hmp' & Hmn' & Hall); [lia|lia|done|destruct (Z.ltb_spec mp d); lia|destruct (Z.ltb_spec d mn); lia|].
  exists mp', mn'. split; [done|].
  assert (mp <= mp' /\ d <= mp') by (destruct (Z.ltb_spec mp d); lia).
  assert (mn' <= mn /\ mn' <= d) by (destruct (Z.ltb_spec d mn); lia).
  split; [lia|]. split; [lia|]. intros [|i] y Hi; cbn [lookup list_lookup] in Hi.
  - injection Hi as <-. rewrite Z.add_0_r. fold d. lia.
  - specialize (Hall i y Hi). by replace (count + Z.of_nat (Datatypes.S i)) with (count + 1 + Z.of_nat i) by lia.
Qed.

(** The chosen width holds every shifted distance. *)
Lemma neededBits_ok :
  exists bits off, getNeededBitsForLinearRegression src slopenom yintercept = Ok (bits, off) /\
    1 <= bits <= 64 /\ fits 62 off /\
    forall (i : nat) x, src !! i = Some x -> fits bits (dist slopenom yintercept (zlen src) (Z.of_nat i) x + off).
Proof using Hline.
  unfold getNeededBitsForLinearRegression.
  destruct (neededBits_loop_ok src 0 0 0) as (mp & mn & -> & Hmp & Hmn & Hall); try lia; [apply Hline|].
  rewrite bind_ok_l, signed_ok by (unfold sfits; lia). rewrite bind_ok_l, signed_ok by (unfold sfits; lia). rewrite bind_ok_l.
  unfold narrow_check. cbn [ity_max ity_cast]. rewrite !(wrap_small 64) by (unfold fits; lia).
  rewrite (proj2 (Z.ltb_ge (mp - mn + 1) 0)), (proj2 (Z.ltb_ge (2 ^ 64 - 1) (mp - mn + 1))) by lia. cbn [orb]. rewrite bind_ok_l.
  assert ((if mn <? 0 then sneg 64 mn else Ok mn) = Ok (- mn)) as ->.
  { destruct (Z.ltb_spec mn 0); [|f_equal; lia]. unfold sneg. by rewrite (proj2 (Z.eqb_neq _ _)) by lia. }
  rewrite bind_ok_l.
  destruct (minStorageBits_ok (mp - mn + 1)) as (bits & -> & Hb & Hf & _); [unfold fits; lia|].
  rewrite bind_ok_l, wrap_small by (unfold fits; lia). exists bits, (- mn). split; [done|]. split; [done|].
  split; [unfold fits; lia|]. intros i x Hi. specialize (Hall i x Hi). unfold fits in *. rewrite Z.add_0_l in Hall. lia.
Qed.

(** What the array holds. *)
Definition ids_of (off : Z) (l : list Z) (count : Z) : list Z :=
  imap (fun i x => dist slopenom yintercept (zlen src) (count + Z.of_nat i) x + off) l.

Lemma ids_of_cons off x l count :
  ids_of off (x :: l) count = (dist slopenom yintercept (zlen src) count x + off) :: ids_of off l (count + 1).
Proof using.
  clear Hline.
  unfold ids_of. rewrite imap_cons. rewrite Z.add_0_r. apply (f_equal (cons _)).
  apply imap_ext. intros i y _. unfold compose. do 2 f_equal. lia.
Qed.

Lemma lookup_ids_of off l count i :
  ids_of off l count !! i = (fun x => dist slopenom yintercept (zlen src) (count + Z.of_nat i) x + off) <$> l !! i.
Proof using. clear Hline. unfold ids_of. by rewrite list_lookup_imap. Qed.

Lemma putIds_fill {S : Type} {B : Backend S} i128 off carr l : forall (s : S) count,
  0 <= count -> count + zlen l = zlen src -> Forall (fits 61) l -> fits 62 off ->
  (forall (i : nat) x, l !! i = Some x -> 0 <= dist slopenom yintercept (zlen src) (count + Z.of_nat i) x + off) ->
  putIds i128 s carr l slopenom yintercept off (zlen src) count = cua_fill i128 s carr count (ids_of off l count).
Proof using Hline.
  induction l as [|x l IH]; intros s count Hc Hn Hl Ho Hpos; [done|].
  rewrite ids_of_cons. cbn [putIds cua_fill]. cbn [length] in Hn. apply Forall_cons in Hl as [Hx Hl].
  destruct (dist_bound count x) as (Hg & Hli & Hd); [lia|done|]. pose proof (line_yint _ _ _ Hline).
  specialize (Hpos 0%nat x eq_refl) as H0. rewrite Z.add_0_r in H0.
  rewrite Hg, bind_ok_l. rewrite (swrap_small 64 (line _ _ _)) by (unfold fits, sfits in *; lia).
  rewrite signed_ok by (unfold fits, sfits in *; lia). rewrite bind_ok_l.
  rewrite (swrap_small 64 x) by (unfold fits, sfits in *; lia).
  replace (x - (yintercept + line slopenom (zlen src) count)) with (dist slopenom yintercept (zlen src) count x)
    by (unfold dist; lia).
  rewrite signed_ok by (unfold sfits; lia). rewrite bind_ok_l.
  rewrite (swrap_small 64 off) by (unfold fits, sfits in *; lia).
  rewrite signed_ok by (unfold fits, sfits in *; lia). rewrite bind_ok_l.
  rewrite (wrap_small 64 (_ + off)) by (unfold fits in *; lia).
  destruct (cua_set i128 s carr count _) as [[s' v]|e]; [|done]. rewrite !bind_ok_l.
  pose proof (line_size _ _ _ Hline). rewrite wrap_small by (unfold fits; lia). apply IH; try done; try lia.
  intros i y Hi. specialize (Hpos (Datatypes.S i) y Hi).
  by replace (count + 1 + Z.of_nat i) with (count + Z.of_nat (Datatypes.S i)) by lia.
Qed.
End line.

(** * The image of a list of offsets *)

Inductive soi_image : list Z -> list Z -> Prop :=
  | image_none : soi_image [] [0]
  | image_one x : fits 61 x -> soi_image [x] (64 :: vl_bytes VlUint64 x)
  | image_many src bits slopenom yintercept off body :
      line_ok src slopenom yintercept -> 1 <= bits <= 64 -> fits 62 off ->
      (forall (i : nat) x, src !! i = Some x -> fits bits (dist slopenom yintercept (zlen src) (Z.of_nat i) x + off)) ->
      packs bits (ids_of src slopenom yintercept off src 0) body ->
      soi_image src (vl_bytes VlUint64 (header (zlen src) bits) ++ vl_bytes VlInt64 yintercept ++
        vl_bytes VlUint64 slopenom ++ vl_bytes VlUint64 off ++ body).

Lemma length_ids_of src slopenom yintercept off l count : length (ids_of src slopenom yintercept off l count) = length l.
Proof. unfold ids_of. apply length_imap. Qed.

(** The width does not change the length of the header. *)
Lemma header_size n bits : 0 < n < 2 ^ 58 -> 1 <= bits <= 64 ->
  psize_vu64 (u64 (n <<< 6)) = Ok (zlen (vl_bytes VlUint64 (header n bits))).
Proof.
  intros Hn Hb. destruct (header_ok n bits ltac:(lia) Hb) as (Hf & Hh & _).
  rewrite <- (proj1 (vl_bytes_psize (header n bits)) Hf). unfold psize_vu64.
  assert (fits 64 (n <<< 6)) as Hnf by (unfold fits; rewrite Z.shiftl_mul_pow2 by lia; lia).
  rewrite wrap_small by done. rewrite !psize_v_eq by (done || by right). f_equal. unfold packed_len.
  generalize dependent (header n bits). intros h Hf Hh.
  enough (Z.log2 (n <<< 6) = Z.log2 h) as -> by done.
  rewrite Z.log2_shiftl by lia.
  assert (0 < h) as H0.
  { destruct (Z.eq_dec h 0) as [E|]; [|unfold fits in Hf; lia]. rewrite E in Hh. rewrite Z.shiftr_0_l in Hh. lia. }
  pose proof (Z.log2_shiftr h 6 H0) as Hl. rewrite Hh in Hl. pose proof (Z.log2_nonneg n).
  destruct (Z_lt_ge_dec (Z.log2 h) 6); [|lia].
  exfalso. apply Z.log2_lt_pow2 in l; [|done]. rewrite Z.shiftr_div_pow2, Z.div_small in Hh by lia. lia.
Qed.

Section opening.
Context {S : Type} {B : Backend S} {BO : BackendOk S} (i128 : bool).

(** An array opened on these bytes. *)
Record soi_opened (s : S) (o : soi) (src enc : list Z) : Prop := {
  opened_size : so_size o = zlen src;
  opened_at (i : nat) x : src !! i = Some x -> soi_at i128 s o (Z.of_nat i) = Ok x;
  opened_out pos : zlen src <= pos -> soi_at i128 s o pos = Err OutOfBoundsException;
  opened_bytes : soi_getSizeInBytes o = Ok (zlen enc);
}.

Lemma soi_at_out (s : S) o pos : so_size o <= pos -> soi_at i128 s o pos = Err OutOfBoundsException.
Proof using. intros. unfold soi_at. by rewrite (proj2 (Z.leb_le _ _)) by lia. Qed.

Lemma soi_open_one (s : S) data x rest : fits 61 x -> buf s data ((64 :: vl_bytes VlUint64 x) ++ rest) ->
  exists o, soi_init s data = Ok o /\ soi_opened s o [x] (64 :: vl_bytes VlUint64 x).
Proof using BO.
  intros Hx Hb. assert (fits 64 x) as Hx64 by (unfold fits in *; lia).
  destruct (front_vl VlUint64 64 s data (vl_bytes VlUint64 x ++ rest)) as [Hg Hb1]; [cbn; unfold fits; lia|done|].
  change (zlen (vl_bytes VlUint64 64)) with 1 in *.
  destruct (front_vl VlUint64 x s (uba_plus_assign data 1) rest) as [Hg2 _]; [done|done|].
  unfold soi_init. rewrite Hg, bind_ok_l. cbn [throw_if Z.ltb Z.compare]. rewrite bind_ok_l.
  change (narrow_check (Unsigned 64) (Unsigned 64) (64 >>> 6)) with (Ok 1). rewrite bind_ok_l.
  cbn [Z.ltb Z.compare Z.eqb negb Pos.compare Pos.compare_cont]. rewrite Hg2, bind_ok_l.
  pose proof (vl_bytes_len VlUint64 x Hx64) as Hl. rewrite (proj2 (Z.ltb_ge _ _)) by lia.
  cbn [throw_if]. rewrite bind_ok_l. rewrite (swrap_small 64 x) by (unfold fits, sfits in *; lia).
  eexists. split; [done|]. split; cbn [so_size length].
  - lia.
  - intros [|i] y Hi; [|by rewrite lookup_cons in Hi; cbn in Hi]. injection Hi as <-. transitivity (Ok (u64 x)); [reflexivity|by rewrite wrap_small].
  - intros. apply soi_at_out. cbn [so_size]. lia.
  - unfold soi_getSizeInBytes. cbn [so_size so_yintercept Z.eqb Pos.eqb]. rewrite wrap_small by done.
    rewrite (proj1 (vl_bytes_psize x) Hx64), bind_ok_l. cbn [vl_max_len] in Hl. rewrite wrap_small by (unfold fits; lia).
    unfold mret, result_ret. f_equal. lia.
Qed.

Lemma header_width n bits : 0 <= n < 2 ^ 58 -> 1 <= bits <= 64 -> u8 ((header n bits &&& 63) + 1) = bits.
Proof using.
  intros Hn Hb. destruct (header_ok n bits Hn Hb) as (_ & _ & Hw).
  assert (fits 6 (header n bits &&& 63)) as Hf.
  { change 63 with (Z.ones 6). rewrite land_ones_wrap by lia. by apply wrap_fits. }
  rewrite wrap_small in Hw by (unfold fits in *; lia). rewrite wrap_small; [done|]. rewrite Hw. unfold fits. lia.
Qed.

Lemma many_at (s : S) c body rest src bits slopenom yintercept off i x :
  line_ok src slopenom yintercept -> 1 <= bits <= 64 -> fits 62 off ->
  (forall (i : nat) x, src !! i = Some x -> fits bits (dist slopenom yintercept (zlen src) (Z.of_nat i) x + off)) ->
  packs bits (ids_of src slopenom yintercept off src 0) body ->
  cua_ok s c (body ++ rest) -> cua_bpn c = bits -> zlen src <= m_maxCount c -> src !! i = Some x ->
  soi_at i128 s (mkSoi c (zlen src) slopenom yintercept off) (Z.of_nat i) = Ok x.
Proof using BO.
  intros Hline Hb Ho Hfit Hpk Hc Hcb Hmax Hi. pose proof (lookup_lt_Some _ _ _ Hi) as Hlt.
  pose proof (line_size _ _ _ Hline). pose proof (line_yint _ _ _ Hline).
  assert (fits 61 x) as Hx by exact (Forall_lookup_1 _ _ _ _ (line_src _ _ _ Hline) Hi).
  destruct (dist_bound src slopenom yintercept Hline (Z.of_nat i) x) as (Hg & Hl & Hd); [lia|done|].
  unfold soi_at. cbn [so_size so_slopenom so_idStore so_yintercept so_idOffset].
  rewrite (proj2 (Z.leb_gt _ _)) by lia. cbn [throw_if]. rewrite bind_ok_l, (proj2 (Z.ltb_lt _ _)) by lia.
  rewrite Hg, bind_ok_l. unfold cua_at. rewrite (proj2 (Z.leb_gt _ _)) by lia.
  rewrite (cua_priv_at i128 s c _ _ Hc) by lia. rewrite bind_ok_l, Hcb.
  pose proof (packs_len _ _ _ Hpk) as Hbl. rewrite length_ids_of in Hbl.
  destruct (minStorageBytes_ok bits (zlen src)) as (_ & Hm1 & _); [lia|lia|nia|]. rewrite <- Hbl in Hm1.
  rewrite <- (field_take bits (body ++ rest) (length body)), take_app_length
    by (exact (buf_bytes _ _ _ (cua_buf _ _ _ Hc)) || nia).
  specialize (Hfit i x Hi).
  rewrite (packs_at _ _ _ Hpk i (dist slopenom yintercept (zlen src) (Z.of_nat i) x + off))
    by (rewrite lookup_ids_of, Hi; done).
  rewrite (wrap_small bits) by done. unfold dist, fits in *. rewrite signed_ok by (unfold sfits; lia). rewrite bind_ok_l.
  match goal with |- context [u64 (?l + (?d + off))] => replace (l + (d + off)) with (x - yintercept + off) by lia end.
  rewrite (wrap_small 64 (x - yintercept + off)) by (unfold fits; lia). unfold mret, result_ret.
  destruct (Z.ltb_spec 0 (yintercept - off)).
  - rewrite wrap_small by (unfold fits; lia). f_equal. lia.
  - unfold sneg. rewrite (proj2 (Z.eqb_neq _ _)) by lia. rewrite bind_ok_l, wrap_small by (unfold fits; lia). f_equal. lia.
Qed.

Lemma soi_open_many (s : S) data src bits slopenom yintercept off body rest :
  let enc := vl_bytes VlUint64 (header (zlen src) bits) ++ vl_bytes VlInt64 yintercept ++
    vl_bytes VlUint64 slopenom ++ vl_bytes VlUint64 off ++ body in
  line_ok src slopenom yintercept -> 1 <= bits <= 64 -> fits 62 off ->
  (forall (i : nat) x, src !! i = Some x -> fits bits (dist slopenom yintercept (zlen src) (Z.of_nat i) x + off)) ->
  packs bits (ids_of src slopenom yintercept off src 0) body ->
  buf s data (enc ++ rest) -> 8 * zlen (enc ++ rest) < 2 ^ 64 - 16 ->
  exists o, soi_init s data = Ok o /\ soi_opened s o src enc.
Proof using BO.
  intros enc Hline Hb Ho Hfit Hpk Hbuf Hf. unfold enc in Hbuf, Hf. repeat rewrite <- app_assoc in Hbuf. rewrite !length_app in Hf.
  pose proof (line_size _ _ _ Hline). pose proof (line_yint _ _ _ Hline). pose proof (line_slope _ _ _ Hline).
  destruct (header_ok (zlen src) bits ltac:(lia) Hb) as (Hhf & Hh1 & _).
  assert (fits 64 slopenom /\ fits 64 off) as [Hs64 Ho64] by (unfold fits in *; lia).
  assert (vl_ok VlInt64 yintercept) as Hy by (cbn [vl_ok]; lia).
  destruct (front_vl VlUint64 _ s _ _ Hhf Hbuf) as [G1 B1]. pose proof (vl_bytes_len VlUint64 _ Hhf) as L1.
  destruct (front_vl VlInt64 _ s _ _ Hy B1) as [G2 B2]. pose proof (vl_bytes_len VlInt64 _ Hy) as L2.
  destruct (front_vl VlUint64 _ s _ _ Hs64 B2) as [G3 B3]. pose proof (vl_bytes_len VlUint64 _ Hs64) as L3.
  destruct (front_vl VlUint64 _ s _ _ Ho64 B3) as [G4 B4]. pose proof (vl_bytes_len VlUint64 _ Ho64) as L4.
  pose proof (packs_len _ _ _ Hpk) as Hbl. rewrite length_ids_of in Hbl.
  destruct (minStorageBytes_ok bits (zlen src)) as (_ & Hm1 & Hm2); [lia|lia|nia|]. rewrite <- Hbl in Hm1, Hm2.
  destruct (setPrivate_cua_ok s _ _ bits B4 Hb) as (c & Hset & Hc & Hcb & _ & Hcm); [rewrite length_app; lia|].
  unfold soi_init. rewrite G1, bind_ok_l, (proj2 (Z.ltb_ge _ 0)) by lia. cbn [throw_if]. rewrite bind_ok_l, Hh1.
  unfold narrow_check at 1. cbn [ity_max ity_cast]. rewrite (proj2 (Z.ltb_ge (2 ^ 64 - 1) _)) by lia.
  rewrite bind_ok_l, (wrap_small 64 (zlen src)) by (unfold fits; lia). rewrite (proj2 (Z.ltb_lt 1 _)) by lia.
  rewrite header_width by lia.
  rewrite G2, bind_ok_l, (proj2 (Z.ltb_ge _ 0)) by lia. cbn [throw_if]. rewrite bind_ok_l.
  rewrite G3, bind_ok_l, (proj2 (Z.ltb_ge _ 0)) by lia. cbn [throw_if]. rewrite bind_ok_l.
  rewrite G4, bind_ok_l, (proj2 (Z.ltb_ge _ 0)) by lia. cbn [throw_if]. rewrite bind_ok_l.
  rewrite Hset, bind_ok_l, Hcm. rewrite length_app in Hcm |- *.
  assert (zlen src <= m_maxCount c) as Hmax by (rewrite Hcm; apply Z.div_le_lower_bound; lia).
  rewrite (proj2 (Z.ltb_ge _ (zlen src))) by lia. cbn [throw_if]. rewrite bind_ok_l.
  rewrite (swrap_small 64 off) by (unfold sfits, fits in *; lia).
  eexists. split; [done|]. split; cbn [so_size]; [done| |intros; by apply soi_at_out|].
  - intros i x Hi. by eapply (many_at s c body rest src bits).
  - unfold soi_getSizeInBytes. cbn [so_size so_slopenom so_yintercept so_idOffset so_idStore].
    rewrite !(proj2 (Z.eqb_neq _ _)) by lia. rewrite (header_size (zlen src) bits) by lia.
    rewrite (proj1 (vl_bytes_psize slopenom) Hs64), (proj2 (proj2 (vl_bytes_psize yintercept)) Hy).
    rewrite (wrap_small 64 off) by done. rewrite (proj1 (vl_bytes_psize off) Ho64), !bind_ok_l, Hcb.
    rewrite (wrap_small 64 (_ * bits)) by (unfold fits; nia). unfold enc. rewrite !length_app.
    cbn [vl_max_len] in *. unfold mret, result_ret. f_equal.
    assert (zlen src * bits / 8 + (if zlen src * bits mod 8 =? 0 then 0 else 1) = zlen body) as ->; [|rewrite wrap_small by (unfold fits; lia); lia].
    pose proof (Z.div_mod (zlen src * bits) 8 ltac:(lia)). pose proof (Z.mod_pos_bound (zlen src * bits) 8 ltac:(lia)).
    destruct (Z.eqb_spec (zlen src * bits mod 8) 0); lia.
Qed.

Lemma soi_open_ok (s : S) data src enc rest :
  soi_image src enc -> buf s data (enc ++ rest) -> 8 * zlen (enc ++ rest) < 2 ^ 64 - 16 ->
  exists o, soi_init s data = Ok o /\ soi_opened s o src enc.
Proof using BO.
  intros [|x Hx|src' bits sl yi off body Hline Hb Ho Hfit Hpk] Hbuf Hf.
  - destruct (front_vl VlUint64 0 s data rest) as [Hg _]; [cbn; unfold fits; lia|done|].
    change (zlen (vl_bytes VlUint64 0)) with 1 in Hg.
    exists soi_empty. split; [unfold soi_init; by rewrite Hg|]. split; try done.
    intros pos Hp. by apply soi_at_out.
  - by apply (soi_open_one s data x rest).
  - by apply (soi_open_many s data src' bits sl yi off body rest).
Qed.
End opening.

(** * Creation *)

Section creating.
Context {S : Type} {B : Backend S} {BO : BackendOk S} (i128 : bool).

(** [bs] went to the put position; the window may have grown beyond it. *)
Record wrote (s : S) (a : uba) (l bs : list Z) (s' : S) (a' : uba) (ext : list Z) : Prop := {
  wrote_buf : buf s' a' (splice l (m_putPtr a) bs ++ ext);
  wrote_ext : zlen ext <= zlen l - m_putPtr a;
  wrote_off : m_offSet a' = m_offSet a;
  wrote_get : m_getPtr a' = m_getPtr a;
  wrote_put : m_putPtr a' = m_putPtr a + zlen bs;
  wrote_frame : frame (m_offSet a) s s';
}.

Lemma pushed_wrote s a l bs s' a' : 0 <= m_putPtr a <= zlen l -> frame (m_offSet a) s s' -> pushed a l bs s' a' -> wrote s a l bs s' a' [].
Proof using. intros Hp Hf [Hb Ho Hg Hpp]. split; try done; [by rewrite app_nil_r|cbn [length]; lia]. Qed.

Lemma splice_app_ext (l ext bs : list Z) p : 0 <= p <= zlen l ->
  splice (l ++ ext) p bs = splice l p bs ++ drop (Z.to_nat (p + zlen bs - zlen l)) ext.
Proof using.
  clear B BO. intros Hp. unfold splice. rewrite take_app_le by lia. rewrite <- !app_assoc. do 2 f_equal.
  rewrite drop_app. f_equal. f_equal. lia.
Qed.

(** A push in front of a write. *)
Lemma wrote_after (s1 s2 s3 : S) a l b1 a1 b2 a2 ext :
  0 <= m_putPtr a <= zlen l -> frame (m_offSet a) s1 s2 -> pushed a l b1 s2 a1 ->
  wrote s2 a1 (splice l (m_putPtr a) b1) b2 s3 a2 ext -> wrote s1 a l (b1 ++ b2) s3 a2 ext.
Proof using.
  intros Hp Hf [Hb1 Ho1 Hg1 Hp1] [Hb2 He2 Ho2 Hg2 Hp2 Hf2].
  rewrite Hp1, splice_splice in Hb2 by done. rewrite Hp1, zlen_splice_grow in He2 by done.
  split; [done|lia|congruence|congruence|rewrite length_app; lia|]. rewrite Ho1 in Hf2. by eapply frame_trans.
Qed.

(** One push of a number. *)
Lemma sput_vl_frame ty v (s : S) a l :
  vl_ok ty v -> buf s a l -> 0 <= m_putPtr a <= zlen l -> m_offSet a + m_putPtr a + 10 < 2 ^ 64 ->
  exists s' a', uba_sputVl ty s a v = Ok (s', a', zlen (vl_bytes ty v)) /\ pushed a l (vl_bytes ty v) s' a' /\
    frame (m_offSet a) s s' /\ 0 <= m_putPtr a' <= zlen (splice l (m_putPtr a) (vl_bytes ty v)).
Proof using.
  intros Hv Hb Hp Hf. pose proof (vl_bytes_len ty v Hv). pose proof (buf_fits _ _ _ Hb).
  assert (vl_max_len ty <= 10) by (by destruct ty).
  destruct (sput_vl ty v s a l Hv Hb Hp) as (s' & a' & He & Hpu); [lia|]. exists s', a'. split; [done|]. split; [done|].
  split; [eapply sputVl_frame; [| |exact He]; [lia|unfold fits; lia]|].
  rewrite (pushed_put _ _ _ _ _ Hpu), zlen_splice_grow by done. lia.
Qed.

Section body.
Context (src : list Z) (bits slopenom yintercept off : Z).
Context (Hline : line_ok src slopenom yintercept) (Hbits : 1 <= bits <= 64) (Hoff : fits 62 off).
Context (Hfit : forall (i : nat) x, src !! i = Some x -> fits bits (dist slopenom yintercept (zlen src) (Z.of_nat i) x + off)).

Lemma ids_fit : Forall (fits 64) (ids_of src slopenom yintercept off src 0).
Proof using Hline Hbits Hoff Hfit.
  apply Forall_lookup_2. intros i y Hi. rewrite lookup_ids_of in Hi. apply fmap_Some in Hi as (x & Hx & ->).
  rewrite Z.add_0_l. eapply fits_mono; [|by apply Hfit]. lia.
Qed.

Lemma soi_putBody_ok (s : S) a l : buf s a l -> 0 <= m_putPtr a <= zlen l -> small_enough a l (zlen src * 64) ->
  exists s' a' body ext, soi_putBody i128 s a src bits slopenom yintercept off = Ok (s', a', true) /\
    packs bits (ids_of src slopenom yintercept off src 0) body /\ wrote s a l body s' a' ext.
Proof using BO Hline Hbits Hoff Hfit.
  intros Hb Hp Hsm. unfold small_enough in Hsm. pose proof (buf_fits _ _ _ Hb). pose proof (line_size _ _ _ Hline).
  destruct (minStorageBytes_ok bits (zlen src)) as (Hn0 & Hn1 & Hn2); [lia|lia|nia|].
  unfold soi_putBody. set (n := minStorageBytes bits (zlen src)) in *.
  destruct (growStorage_ok s a l n Hb Hn0) as (s1 & ext & Hg & Hb1 & He); [nia|].
  destruct (growStorage_frame (m_offSet a) _ _ _ _ _ _ Hg) as (Hfr & _ & _). rewrite Hg.
  set (a1 := mkUba _ _ _ _) in *. cbn [m_putPtr] in *.
  pose proof (uba_from_ok s1 a1 _ Hb1 (m_putPtr a)) as Hw. rewrite length_app in Hw. specialize (Hw ltac:(lia)).
  change (m_putPtr a1) with (m_putPtr a). set (b := uba_plus a1 (m_putPtr a)).
  change (uba_from a1 (m_putPtr a)) with b in Hw.
  pose proof (buf_len _ _ _ Hw) as Hbl. rewrite length_drop, length_app in Hbl.
  pose proof (buf_fits _ _ _ Hb1) as Hf1. rewrite length_app in Hf1. cbn [m_offSet a1] in Hf1.
  assert (m_offSet b = m_offSet a1 + m_putPtr a) as Hbo.
  { unfold b, uba_plus, uba_from. cbn [m_offSet m_len a1]. rewrite (proj2 (Z.ltb_ge _ _)) by lia.
    apply wrap_small. unfold fits. lia. }
  pose proof Hw as [[_ _ _ _ Hwg Hwp _] _].
  assert (zlen src * bits <= zlen src * 64) by nia.
  destruct (fill_window_ok i128 s1 a1 (l ++ ext) b (m_putPtr a) (ids_of src slopenom yintercept off src 0) bits Hb1)
    as (c & s2 & body & Hset & Hfill & Hpk & Hfin & Hout);
    [lia|rewrite length_ids_of, length_app; fold n; lia|exact Hbo|rewrite length_app; lia|exact Hwg|exact Hwp|apply ids_fit|done|
     rewrite length_app; lia|rewrite length_ids_of; lia|].
  pose proof (packs_len _ _ _ Hpk) as Hbl'. rewrite length_ids_of in Hbl'. fold n in Hbl'.
  rewrite Hset, bind_ok_l, (putIds_fill src slopenom yintercept Hline).
  - rewrite Hfill, bind_ok_l.
    exists s2, (incPutPtr a1 n), body, (drop (Z.to_nat (m_putPtr a + zlen body - zlen l)) ext).
    split; [done|]. split; [done|]. rewrite incPutPtr_in by (cbn [m_putPtr m_len a1]; lia). cbn [m_offSet m_len m_getPtr m_putPtr a1].
    rewrite splice_app_ext in Hfin by lia.
    split; cbn [m_offSet m_getPtr m_putPtr]; try lia.
    + apply (buf_ptrs s2 a1); [exact Hfin|apply Hb|unfold fits; lia].
    + rewrite length_drop. lia.
    + eapply frame_trans; [exact Hfr|]. apply (same_outside_frame b); [|done]. rewrite Hbo. cbn [m_offSet a1]. lia.
  - lia.
  - lia.
  - apply Hline.
  - done.
  - intros i x Hi. rewrite Z.add_0_l. apply (Hfit i x Hi).
Qed.

Lemma soi_put_ok (s : S) a l : buf s a l -> 0 <= m_putPtr a <= zlen l -> small_enough a l (zlen src * 64 + 40) ->
  exists s' a' body ext, soi_put i128 s a src bits slopenom yintercept off = Ok (s', a', true) /\
    packs bits (ids_of src slopenom yintercept off src 0) body /\
    wrote s a l (vl_bytes VlUint64 (header (zlen src) bits) ++ vl_bytes VlInt64 yintercept ++
      vl_bytes VlUint64 slopenom ++ vl_bytes VlUint64 off ++ body) s' a' ext.
Proof using BO Hline Hbits Hoff Hfit.
  intros Hb Hp Hsm. unfold small_enough in Hsm. pose proof (buf_fits _ _ _ Hb). pose proof (line_size _ _ _ Hline).
  pose proof (line_yint _ _ _ Hline). pose proof (line_slope _ _ _ Hline).
  destruct (header_ok (zlen src) bits ltac:(lia) Hbits) as (Hhf & _ & _).
  assert (fits 64 slopenom /\ fits 64 off) as [Hs64 Ho64] by (unfold fits in *; lia).
  assert (vl_ok VlInt64 yintercept) as Hy by (cbn [vl_ok]; lia).
  pose proof (vl_bytes_len VlUint64 _ Hhf) as L1. pose proof (vl_bytes_len VlInt64 _ Hy) as L2.
  pose proof (vl_bytes_len VlUint64 _ Hs64) as L3. pose proof (vl_bytes_len VlUint64 _ Ho64) as L4. cbn [vl_max_len] in *.
  assert (u64 (zlen src <<< IdBits) ||| u64 (bits - 1) = header (zlen src) bits) as Hh.
  { unfold header. by rewrite !(wrap_small _ (bits - 1)) by (unfold fits; lia). }
  unfold soi_put. rewrite Hh.
  destruct (sput_vl_frame VlUint64 _ s a l Hhf Hb Hp) as (s1 & a1 & -> & P1 & F1 & Q1); [lia|].
  rewrite bind_ok_l, (proj2 (Z.ltb_ge _ 0)) by lia. pose proof (pushed_put _ _ _ _ _ P1) as E1. pose proof (pushed_off _ _ _ _ _ P1) as O1.
  destruct (sput_vl_frame VlInt64 _ s1 a1 _ Hy (pushed_buf _ _ _ _ _ P1) Q1) as (s2 & a2 & -> & P2 & F2 & Q2); [lia|].
  rewrite bind_ok_l, (proj2 (Z.ltb_ge _ 0)) by lia. pose proof (pushed_put _ _ _ _ _ P2) as E2. pose proof (pushed_off _ _ _ _ _ P2) as O2.
  destruct (sput_vl_frame VlUint64 _ s2 a2 _ Hs64 (pushed_buf _ _ _ _ _ P2) Q2) as (s3 & a3 & -> & P3 & F3 & Q3); [lia|].
  rewrite bind_ok_l, (proj2 (Z.ltb_ge _ 0)) by lia. pose proof (pushed_put _ _ _ _ _ P3) as E3. pose proof (pushed_off _ _ _ _ _ P3) as O3.
  destruct (sput_vl_frame VlUint64 _ s3 a3 _ Ho64 (pushed_buf _ _ _ _ _ P3) Q3) as (s4 & a4 & -> & P4 & F4 & Q4); [lia|].
  rewrite bind_ok_l, (proj2 (Z.ltb_ge _ 0)) by lia. pose proof (pushed_off _ _ _ _ _ P4) as O4.
  destruct (soi_putBody_ok s4 a4 _ (pushed_buf _ _ _ _ _ P4) Q4) as (s5 & a5 & body & ext & Hput & Hpk & Hw).
  { unfold small_enough. rewrite !zlen_splice_grow by lia. lia. }
  exists s5, a5, body, ext. split; [done|]. split; [done|].
  eapply (wrote_after s s1); [done|done|exact P1|]. eapply (wrote_after s1 s2); [done|done|exact P2|].
  eapply (wrote_after s2 s3); [done|done|exact P3|]. by eapply (wrote_after s3 s4); [done|done|exact P4|].
Qed.
End body.
End creating.

Lemma dist_zero size i x : dist 0 0 size i x = x.
Proof. unfold dist, line. rewrite Z.mul_0_l, Zdiv_0_l. lia. Qed.

Lemma sorted_le_last src i x : StronglySorted Z.le src -> src !! i = Some x -> x <= List.last src 0.
Proof.
  intros Hs. revert i x. induction Hs as [|y src Hs IH Hy]; intros i x Hi; [by rewrite lookup_nil in Hi|].
  destruct src as [|z src].
  - destruct i; [injection Hi as <-; cbn; lia|by rewrite lookup_cons in Hi].
  - change (List.last (y :: z :: src) 0) with (List.last (z :: src) 0).
    destruct i as [|i]; [|by apply (IH i x)]. injection Hi as <-.
    apply Forall_cons in Hy as [Hyz _]. specialize (IH 0%nat z eq_refl). lia.
Qed.

Section create.
Context {S : Type} {B : Backend S} {BO : BackendOk S} (i128 : bool) (regression : list Z -> result (Z * Z)).

(** What the list and the line of the regression have to be. *)
Record offsets_ok (src : list Z) : Prop := {
  offsets_sorted : StronglySorted Z.le src;
  offsets_fit : Forall (fits 61) src;
  offsets_few : zlen src < 2 ^ 58;
  offsets_line : 1 < zlen src -> exists slopenom yintercept, regression src = Ok (slopenom, yintercept) /\
    fits 61 slopenom /\ - 2 ^ 61 < yintercept < 2 ^ 61;
}.

Lemma soi_image_len src enc : soi_image src enc -> 1 <= zlen enc <= 8 * zlen src + 41.
Proof using.
  clear. intros [|x Hx|src' bits sl yi off body Hline Hb Ho _ Hpk].
  - cbn. lia.
  - assert (fits 64 x) as Hf by (unfold fits in *; lia). pose proof (vl_bytes_len VlUint64 x Hf) as H. cbn [vl_max_len length] in *. lia.
  - pose proof (line_size _ _ _ Hline). pose proof (line_yint _ _ _ Hline). pose proof (line_slope _ _ _ Hline).
    destruct (header_ok (zlen src') bits ltac:(lia) Hb) as (Hhf & _ & _).
    pose proof (vl_bytes_len VlUint64 _ Hhf) as L1. pose proof (vl_bytes_len VlInt64 yi ltac:(cbn [vl_ok]; lia)) as L2.
    pose proof (vl_bytes_len VlUint64 sl ltac:(cbn [vl_ok]; unfold fits in *; lia)) as L3.
    pose proof (vl_bytes_len VlUint64 off ltac:(cbn [vl_ok]; unfold fits in *; lia)) as L4. cbn [vl_max_len] in *.
    pose proof (packs_len _ _ _ Hpk) as Hbl. rewrite length_ids_of in Hbl.
    assert (zlen src' * bits <= zlen src' * 64) by nia.
    destruct (minStorageBytes_ok bits (zlen src')) as (_ & _ & Hm); [lia|lia|lia|]. rewrite !length_app. lia.
Qed.

Lemma soi_create_ok (s : S) a l src :
  buf s a l -> 0 <= m_putPtr a <= zlen l -> offsets_ok src -> small_enough a l (zlen src * 64 + 40) ->
  exists s' a' enc ext, soi_create i128 regression s src a = Ok (s', a', true) /\ soi_image src enc /\ wrote s a l enc s' a' ext.
Proof using BO.
  intros Hb Hp [Hs Hfit Hn Hreg] Hsm. pose proof Hsm as Hsm'. unfold small_enough in Hsm'. pose proof (buf_fits _ _ _ Hb) as Hbf.
  unfold soi_create. change MaxSize with (2 ^ 58 - 1). rewrite (proj2 (Z.ltb_ge _ _)) by lia. cbn [throw_if]. rewrite bind_ok_l.
  destruct src as [|x [|y src]].
  - destruct (sput_ok s a l Hb Hp Uint8 0 [0]) as (s' & a' & He & Hpu); [done|done|repeat constructor; unfold fits; lia|cbn [length]; lia|].
    exists s', a', [0], []. rewrite He, bind_ok_l. split; [done|]. split; [constructor|]. apply pushed_wrote; [done| |done].
    eapply sput_frame; [| |exact He]; [lia|unfold fits; lia].
  - apply Forall_cons in Hfit as [Hx _]. cbn [length] in Hsm'. assert (fits 64 x) as Hx64 by (unfold fits in *; lia).
    destruct (sput_ok s a l Hb Hp Uint8 64 [64]) as (s1 & a1 & He & Hpu); [done|done|repeat constructor; unfold fits; lia|cbn [length]; lia|].
    rewrite He, bind_ok_l. pose proof Hpu as [Hb1 Ho1 Hg1 Hp1]. cbn [length] in Hp1.
    destruct (sput_vl_frame VlUint64 x s1 a1 _ Hx64 Hb1) as (s2 & a2 & -> & Hpu2 & Hf2 & Hq2); [rewrite zlen_splice_grow by done; cbn [length]; lia|lia|].
    rewrite bind_ok_l. exists s2, a2, ([64] ++ vl_bytes VlUint64 x), []. split; [done|]. split; [by constructor|].
    eapply (wrote_after s s1); [done|eapply sput_frame; [| |exact He]; [lia|unfold fits; lia]|exact Hpu|].
    apply pushed_wrote; [rewrite zlen_splice_grow by done; cbn [length]; lia|done|done].
  - set (src' := x :: y :: src) in *. assert (1 < zlen src') as H1 by (unfold src'; cbn [length]; lia).
    destruct (Hreg H1) as (sl & yi & Hr & Hsl & Hyi). assert (line_ok src' sl yi) as Hline by (split; done || lia).
    destruct (neededBits_ok src' sl yi Hline) as (bits & off & Hnb & Hbits & Hoff & Hall).
    assert (fits 61 (List.last src' 0)) as Hlast.
    { destruct (exists_last (l := src') ltac:(done)) as (l' & z & E). rewrite E, last_last.
      rewrite E in Hfit. apply Forall_app in Hfit as [_ Hz]. by apply Forall_cons in Hz as [Hz _]. }
    destruct (minStorageBits_ok (List.last src' 0)) as (plain & Hpl & Hplb & Hplf & _); [unfold fits in *; lia|].
    unfold getLinearRegressionParamsInteger. rewrite Hr, bind_ok_l, Hnb, !bind_ok_l, Hpl, bind_ok_l.
    destruct (Z.leb_spec plain bits).
    + rewrite (wrap_small 8 plain) by (unfold fits; lia).
      assert (line_ok src' 0 0) as Hline0 by (split; try done; unfold fits; lia).
      assert (forall (i : nat) z, src' !! i = Some z -> fits plain (dist 0 0 (zlen src') (Z.of_nat i) z + 0)) as Hall0.
      { intros i z Hi. rewrite dist_zero, Z.add_0_r. pose proof (sorted_le_last _ _ _ Hs Hi).
        pose proof (Forall_lookup_1 _ _ _ _ Hfit Hi). unfold fits in *. cbv beta in *. lia. }
      assert (fits 62 0) as H0 by (unfold fits; lia).
      destruct (soi_put_ok i128 src' plain 0 0 0 Hline0 Hplb H0 Hall0 s a l Hb Hp Hsm) as (s' & a' & body & ext & -> & Hpk & Hw).
      eexists s', a', _, ext. split; [done|]. split; [|exact Hw]. by constructor.
    + destruct (soi_put_ok i128 src' bits sl yi off Hline Hbits Hoff Hall s a l Hb Hp Hsm) as (s' & a' & body & ext & -> & Hpk & Hw).
      eexists s', a', _, ext. split; [done|]. split; [|exact Hw]. by constructor.
Qed.
End create.

(** C8: round trip of an offset index.  Whatever line the regression returns,
    as long as no sum can overflow: creating an index from sorted
    offsets at the put position succeeds and stores an encoding there; the rest of the
    window, and the storage in front of it, keep their bytes; the window ends at most
    where it ended or behind the encoding.  An adapter that starts with the encoding, whatever
    follows it, opens as an index of that size, which returns every offset,
    throws behind the last one, and reports the length of the encoding as its size in
    bytes. *)
Theorem soi_roundtrip {S} {B : Backend S} {BO : BackendOk S} i128 regression (s : S) a l src :
  buf s a l -> 0 <= m_putPtr a <= zlen l -> offsets_ok regression src -> small_enough a l (zlen src * 64 + 40) ->
  exists s' a' enc ext, soi_create i128 regression s src a = Ok (s', a', true) /\
    buf s' a' (splice l (m_putPtr a) enc ++ ext) /\ zlen ext <= zlen l - m_putPtr a /\
    m_putPtr a' = m_putPtr a + zlen enc /\ frame (m_offSet a) s s' /\
    forall (t : S) d rest, buf t d (enc ++ rest) -> 8 * zlen (enc ++ rest) < 2 ^ 64 - 16 ->
      exists o d', soi_init t d = Ok o /\ soi_consume t d = Ok (o, d') /\ so_size o = zlen src /\
        (forall (i : nat) x, src !! i = Some x -> soi_at i128 t o (Z.of_nat i) = Ok x) /\
        (forall pos, zlen src <= pos -> soi_at i128 t o pos = Err OutOfBoundsException) /\
        soi_getSizeInBytes o = Ok (zlen enc) /\ buf t d' rest.
Proof.
  intros Hb Hp Hsrc Hsm.
  destruct (soi_create_ok i128 regression s a l src Hb Hp Hsrc Hsm) as (s' & a' & enc & ext & Hcr & Himg & [Hb' He _ _ Hp' Hf]).
  exists s', a', enc, ext. do 5 (split; [done|]). intros t d rest Hd Hl.
  destruct (soi_open_ok i128 t d src enc rest Himg Hd Hl) as (o & Ho & [Hsz Hat Hout Hby]).
  exists o, (uba_plus_assign d (zlen enc)). split; [done|]. split; [unfold soi_consume; by rewrite Ho, bind_ok_l, Hby|].
  do 4 (split; [done|]). by apply (plus_assign_ok t d enc).
Qed.

(** A line through offsets that grow by about 300. *)
Lemma soi_roundtrip_witness :
  let reg := fun _ : list Z => Ok (900, 95) in
  exists s' a' enc ext, soi_create true reg (Vec.mk [9]) [100; 400; 690; 1005] (mkUba 0 1 0 1) = Ok (s', a', true) /\
    buf s' a' ([9] ++ enc ++ ext) /\ zlen ext = 0 /\
    exists o, soi_init s' (uba_plus_assign a' 1) = Ok o /\ soi_at true s' o 2 = Ok 690 /\ soi_getSizeInBytes o = Ok (zlen enc).
Proof.
  intros reg.
  destruct (soi_roundtrip true reg (Vec.mk [9]) (mkUba 0 1 0 1) [9] [100; 400; 690; 1005])
    as (s' & a' & enc & ext & Hcr & Hb & He & _ & _ & Hopen).
  - split; [uba_wf_tac|reflexivity].
  - cbn. lia.
  - split; [repeat constructor; lia|repeat constructor; unfold fits; lia|cbn; lia|].
    intros _. exists 900, 95. split; [reflexivity|unfold fits; lia].
  - unfold small_enough. cbn. lia.
  - exists s', a', enc, ext. split; [exact Hcr|]. cbn [length m_putPtr] in *.
    change (splice [9] 1 enc) with ([9] ++ enc ++ drop (1 + length enc) [9]) in Hb.
    assert (drop (1 + length enc) [9] = []) as E by (apply drop_ge; cbn [length]; lia).
    rewrite E, app_nil_r in Hb. split; [by rewrite app_assoc|]. split; [lia|].
    rewrite <- app_assoc in Hb. pose proof (plus_assign_ok s' a' [9] _ Hb) as Hb'. change (zlen [9]) with 1 in Hb'.
    destruct (Hopen s' (uba_plus_assign a' 1) ext Hb') as (o & d' & Ho & _ & _ & Hat & _ & Hsz & _).
    + vm_compute in Hcr. injection Hcr as <- <-. pose proof (buf_len _ _ _ Hb') as Hl. rewrite <- Hl. vm_compute. reflexivity.
    + exists o. split; [exact Ho|]. split; [exact (Hat 2%nat 690 eq_refl)|exact Hsz].
Defined.
