(* ===== verification/StaticArray.v ===== *)
(** Serialized arrays: [include/sserialize/Static/Array.h].

    [ArrayCreator] writes version, a place for the length of the data, the elements one after
    another, and behind them what is needed to find an element: nothing for integral
    types, the length of an element for other types of fixed length, an offset index else.
    [Array] is the view of such bytes.  How a type is written and read is the
    interface [Serial]. *)

From Stdlib Require Import Sorting.Sorted.
From S2P Require Import Prelude UtilMath PackUnpack Storage ByteArray ByteStream Bits CompactUintArray SortedOffsets.

(** * Serializable types *)

(** [SerializationInfo], [std::is_integral], [SerializationSupport], the stream
    operators and the deserializer of a type: [P] is what is written, [V] what is read. *)
Class Serial (P V : Type) := {
  ser_fixed : option Z;
  ser_integral : bool;
  ser_support : bool;
  ser_min_length : Z;
  ser_put {S : Type} `{Backend S} : S -> uba -> P -> result (S * uba);
  ser_new {S : Type} `{Backend S} : S -> uba -> result V;
  ser_sget {S : Type} `{Backend S} : S -> uba -> result (uba * V);
  ser_getAt {S : Type} `{Backend S} : S -> uba -> Z -> result V;
}.

Definition is_fixed_length {P V : Type} {SP : Serial P V} : bool := bool_decide (is_Some (ser_fixed (P := P) (V := V))).
Definition ser_length {P V : Type} {SP : Serial P V} : Z := default 0 (ser_fixed (P := P) (V := V)).

(** The bytes of a value.  They are what the stream operator puts; a window that starts
    with them is read as the value they denote. *)
Class SerialOk (P V : Type) `{Serial P V} := {
  ser_ok : P -> Prop;
  ser_bytes : P -> list Z;
  denotes {S : Type} {B : Backend S} {BO : BackendOk S} : S -> V -> P -> Prop;
  ser_bytes_ok p : ser_ok p -> bytes_ok (ser_bytes p) /\ 0 <= ser_min_length (P := P) (V := V) <= zlen (ser_bytes p);
  ser_fixed_ok n : ser_fixed (P := P) (V := V) = Some n -> 0 < n < 2 ^ 32;
  ser_length_ok n p : ser_fixed (P := P) (V := V) = Some n -> ser_ok p -> zlen (ser_bytes p) = n;
  ser_integral_ok : ser_integral (P := P) (V := V) = true -> is_Some (ser_fixed (P := P) (V := V));
  ser_put_ok {S : Type} {B : Backend S} {BO : BackendOk S} (s : S) a l p :
    ser_ok p -> buf s a l -> 0 <= m_putPtr a <= zlen l -> m_offSet a + m_putPtr a + zlen (ser_bytes p) < 2 ^ 64 ->
    exists s' a', ser_put (P := P) (V := V) s a p = Ok (s', a') /\ pushed a l (ser_bytes p) s' a' /\ frame (m_offSet a) s s';
  ser_new_ok {S : Type} {B : Backend S} {BO : BackendOk S} (s : S) d p rest :
    ser_ok p -> buf s d (ser_bytes p ++ rest) -> m_getPtr d = 0 ->
    exists v, ser_new (P := P) (V := V) s d = Ok v /\ denotes s v p;
  ser_sget_ok {S : Type} {B : Backend S} {BO : BackendOk S} (s : S) d pre p rest :
    ser_ok p -> reading s d pre (ser_bytes p ++ rest) ->
    exists d' v, ser_sget (P := P) (V := V) s d = Ok (d', v) /\ denotes s v p /\ reading s d' (pre ++ ser_bytes p) rest;
  ser_getAt_ok {S : Type} {B : Backend S} {BO : BackendOk S} (s : S) d pre p rest :
    ser_support (P := P) (V := V) = true -> ser_ok p -> buf s d (pre ++ ser_bytes p ++ rest) ->
    exists v, ser_getAt (P := P) (V := V) s d (zlen pre) = Ok v /\ denotes s v p;
}.

(** ** Integers *)

Definition scalar_serial (ty : scalar) : Serial Z Z := {|
  ser_fixed := Some (scalar_len ty);
  ser_integral := true;
  ser_support := true;
  ser_min_length := scalar_len ty;
  ser_put S B s a v := uba_sput ty s a v;
  ser_new S B s d := uba_get ty s d 0;
  ser_sget S B s d := uba_sget ty s d;
  ser_getAt S B s d pos := uba_get ty s d pos;
|}.

(** ** Strings *)

Definition string_serial : Serial (list Z) (list Z) := {|
  ser_fixed := None;
  ser_integral := false;
  ser_support := true;
  ser_min_length := 0;
  ser_put S B s a str := uba_sputString s a str;
  ser_new S B s d := '(str, _) ← uba_getString s d 0; mret str;
  ser_sget S B s d := uba_sgetString s d;
  ser_getAt S B s d pos := '(str, _) ← uba_getString s d pos; mret str;
|}.

(** * Creation *)

Record array_creator := mkCreator { ac_size : Z; ac_offsets : list Z; ac_dataLenPtr : Z; ac_dataBegin : Z }.

(** [OffsetTypeSerializedLength()] *)
Definition offset_len : Z := scalar_len Offset.

Section creator.
Context {P V : Type} {SP : Serial P V} {S : Type} `{Backend S} (i128 : bool) (regression : list Z -> result (Z * Z)).
Notation fixed := (is_fixed_length (P := P) (V := V)).

Definition ac_new (s : S) (dest : uba) : result (S * uba * array_creator) :=
  '(s, dest) ← uba_sput Uint8 s dest 4;
  let dataLenPtr := m_putPtr dest in
  '(s, dest) ← uba_sput Offset s dest 0;
  mret (s, dest, mkCreator 0 [] dataLenPtr (m_putPtr dest)).

Definition ac_beginRawPut (dest : uba) (c : array_creator) : array_creator :=
  mkCreator (u64 (ac_size c + 1))
    (if fixed then ac_offsets c else ac_offsets c ++ [u64 (m_putPtr dest - ac_dataBegin c)])
    (ac_dataLenPtr c) (ac_dataBegin c).

Definition ac_put (s : S) (dest : uba) (c : array_creator) (value : P) : result (S * uba * array_creator) :=
  let c := ac_beginRawPut dest c in
  '(s, dest) ← ser_put (P := P) (V := V) s dest value;
  mret (s, dest, c).

(** The size is kept. *)
Definition ac_clear (dest : uba) (c : array_creator) : uba * array_creator :=
  (setPutPtr dest (ac_dataBegin c), mkCreator (ac_size c) [] (ac_dataLenPtr c) (ac_dataBegin c)).

Definition ac_dataAt (dest : uba) (c : array_creator) (id : Z) : result uba :=
  '(begin, len) ←
    (if fixed then Ok (u64 (id * ser_length (P := P) (V := V)), ser_length (P := P) (V := V))
     else match ac_offsets c !! Z.to_nat id with
          | None => Err StdOutOfRange
          | Some begin =>
              if id + 1 <? zlen (ac_offsets c) then
                match ac_offsets c !! Z.to_nat (id + 1) with
                | None => Err StdOutOfRange
                | Some next => Ok (begin, u64 (next - begin))
                end
              else Ok (begin, u64 (m_putPtr dest - u64 (ac_dataBegin c + begin)))
          end);
  mret (resetPtrs (uba_from_len dest (u64 (begin + ac_dataBegin c)) len)).

Definition ac_getFlushedData (dest : uba) (c : array_creator) : uba :=
  let offsetToBegin := u64 (ac_dataBegin c - 1 - offset_len) in
  resetPtrs (uba_from_len dest offsetToBegin (u64 (m_putPtr dest - offsetToBegin))).

Definition ac_flush (s : S) (dest : uba) (c : array_creator) : result (S * uba * uba) :=
  s ← uba_put Offset s dest (ac_dataLenPtr c) (u64 (m_putPtr dest - ac_dataBegin c));
  '(s, dest) ←
    (if fixed then
       if ser_integral (P := P) (V := V) then Ok (s, dest)
       else '(s, dest, _) ← uba_sputVl VlUint32 s dest (u32 (ser_length (P := P) (V := V))); mret (s, dest)
     else
       '(s, dest, ok) ← soi_create i128 regression s (ac_offsets c) dest;
       throw_if (negb ok) CreationException;;
       mret (s, dest));
  mret (s, dest, ac_getFlushedData dest c).

Fixpoint ac_puts (s : S) (dest : uba) (c : array_creator) (values : list P) : result (S * uba * array_creator) :=
  match values with
  | [] => Ok (s, dest, c)
  | v :: values => '(s, dest, c) ← ac_put s dest c v; ac_puts s dest c values
  end.

(** [destination << source] for vectors and deques *)
Definition array_put (s : S) (dest : uba) (source : list P) : result (S * uba) :=
  '(s, dest, c) ← ac_new s dest;
  '(s, dest, c) ← ac_puts s dest c source;
  '(s, dest, _) ← ac_flush s dest c;
  mret (s, dest).
End creator.

(** * The array *)

Inductive array_index := AFixed (size : Z) | AOffsets (index : soi).
Record sarray := mkArray { sa_data : uba; sa_index : array_index }.

Section array.
Context {P V : Type} {SP : Serial P V} {S : Type} `{Backend S} (i128 : bool).
Notation length_ := (ser_length (P := P) (V := V)).

Definition ai_new (s : S) (dataSize : Z) (d : uba) : result array_index :=
  if is_fixed_length (P := P) (V := V) then
    let size := dataSize / length_ in
    throw_if (negb (u64 (size * length_) =? dataSize)) CorruptDataException;;
    if ser_integral (P := P) (V := V) then Ok (AFixed size)
    else '(n, _) ← uba_getVl VlUint32 s d 0;
         throw_if (negb (n =? length_)) CorruptDataException;;
         mret (AFixed size)
  else o ← soi_init s d; mret (AOffsets o).

Definition ai_at (s : S) (ix : array_index) (pos : Z) : result Z :=
  match ix with
  | AFixed _ => Ok (u64 (length_ * pos))
  | AOffsets o => p ← narrow_check (Unsigned 32) (Unsigned 64) pos; soi_at i128 s o p
  end.

Definition ai_size (ix : array_index) : Z := match ix with AFixed n => n | AOffsets o => so_size o end.

Definition ai_getSizeInBytes (ix : array_index) : result Z :=
  match ix with
  | AFixed _ => if ser_integral (P := P) (V := V) then Ok 0 else psize_vu32 (u32 length_)
  | AOffsets o => soi_getSizeInBytes o
  end.

Definition sa_size (a : sarray) : Z := ai_size (sa_index a).

Definition sa_new (s : S) (data : uba) : result sarray :=
  dataSize ← uba_get Offset s data 1;
  version ← uba_at s data 0;
  throw_if (negb (version =? 4)) VersionMissMatchException;;
  let d := uba_from_len data (1 + offset_len) dataSize in
  index ← ai_new s (m_len d) (uba_plus data (u64 (1 + offset_len + m_len d)));
  let a := mkArray d index in
  throw_if (m_len d <? u64 (sa_size a * ser_min_length (P := P) (V := V))) CorruptDataException;;
  mret a.

Definition sa_getSizeInBytes (a : sarray) : result Z :=
  n ← ai_getSizeInBytes (sa_index a); mret (u64 (1 + offset_len + n + m_len (sa_data a))).

Definition sa_consume (s : S) (data : uba) : result (sarray * uba) :=
  a ← sa_new s data; n ← sa_getSizeInBytes a; mret (a, uba_plus_assign data n).

(** begin and length of an element *)
Definition sa_extent (s : S) (a : sarray) (pos : Z) : result (Z * Z) :=
  begin ← ai_at s (sa_index a) pos;
  if u64 (pos + 1) =? sa_size a then Ok (begin, u64 (m_len (sa_data a) - begin))
  else next ← ai_at s (sa_index a) (u64 (pos + 1)); mret (begin, u64 (next - begin)).

Definition sa_dataSize (s : S) (a : sarray) (pos : Z) : result Z :=
  if (sa_size a <=? pos) || (sa_size a =? 0) then Ok 0
  else '(_, len) ← sa_extent s a pos; mret len.

(** Outside, an adapter without storage. *)
Definition sa_dataAt (s : S) (a : sarray) (pos : Z) : result uba :=
  if (sa_size a <=? pos) || (sa_size a =? 0) then Ok (uba_new 0 0)
  else '(begin, len) ← sa_extent s a pos; mret (uba_from_len (sa_data a) begin len).

(** [operator\[\]] *)
Definition sa_get (s : S) (a : sarray) (pos : Z) : result V :=
  if is_fixed_length (P := P) (V := V) && ser_support (P := P) (V := V) then
    p ← ai_at s (sa_index a) pos; ser_getAt (P := P) (V := V) s (sa_data a) p
  else d ← sa_dataAt s a pos; ser_new (P := P) (V := V) s d.

Definition sa_at (s : S) (a : sarray) (pos : Z) : result V :=
  if (sa_size a <=? pos) || (sa_size a =? 0) then Err OutOfBoundsException else sa_get s a pos.

Definition sa_front (s : S) (a : sarray) : result V := sa_at s a 0.
Definition sa_back (s : S) (a : sarray) : result V := sa_at s a (u64 (sa_size a - 1)).

(** [find]: a linear search with a 32-bit counter. *)
Fixpoint sa_find_loop (fuel : nat) (eqb : V -> V -> bool) (s : S) (a : sarray) (value : V) (i : Z) : result Z :=
  match fuel with
  | O => Err OutOfFuel
  | Datatypes.S fuel =>
      if i <? sa_size a then
        x ← sa_at s a i;
        if eqb x value then Ok i else sa_find_loop fuel eqb s a value (u32 (i + 1))
      else Ok npos
  end.
Definition sa_find (eqb : V -> V -> bool) (s : S) (a : sarray) (value : V) : result Z :=
  sa_find_loop (Datatypes.S (Z.to_nat (sa_size a))) eqb s a value 0.
End array.

(** * The interface holds for integers and strings *)

Lemma scalar_len_pos ty : 0 < scalar_len ty <= 8.
Proof. by destruct ty. Qed.

Lemma reading_intro {S : Type} {B : Backend S} {BO : BackendOk S} (s : S) d pre bs rest :
  reading s d pre (bs ++ rest) -> reading s (advGet d (zlen bs)) (pre ++ bs) rest.
Proof.
  intros [Hb Hg]. pose proof (buf_fits _ _ _ Hb) as Hf. rewrite !length_app in Hf. split.
  - rewrite <- app_assoc. unfold advGet. apply buf_ptrs; [done|apply wrap_fits; lia|apply Hb].
  - cbn [advGet m_getPtr]. rewrite Hg, length_app, wrap_small by (unfold fits; lia). lia.
Qed.

Section scalars.
Context (ty : scalar).

Lemma scalar_bytes_ok v : scalar_ok ty v -> bytes_ok (item_bytes (IScalar ty v)) /\ zlen (item_bytes (IScalar ty v)) = scalar_len ty /\
  scalar_unpack ty (item_bytes (IScalar ty v)) = Ok v.
Proof using. intros Hv. destruct (scalar_pack_ok ty v Hv) as (bs & Hpk & Hl & Hbo & Hu). cbn [item_bytes]. by rewrite Hpk. Qed.

#[global] Program Instance scalar_serial_ok : @SerialOk Z Z (scalar_serial ty) := {|
  ser_ok := scalar_ok ty;
  ser_bytes v := item_bytes (IScalar ty v);
  denotes S B BO _ v p := v = p;
|}.
Next Obligation. intros v Hv. destruct (scalar_bytes_ok v Hv) as (? & ? & _). split; [done|]. cbn [ser_min_length scalar_serial]. pose proof (scalar_len_pos ty). lia. Qed.
Next Obligation. intros n [= <-]. pose proof (scalar_len_pos ty). lia. Qed.
Next Obligation. intros n v [= <-] Hv. by destruct (scalar_bytes_ok v Hv) as (_ & ? & _). Qed.
Next Obligation. intros _. by eexists. Qed.
Next Obligation.
  intros S B BO s a l v Hv Hb Hp Hf. pose proof (buf_fits _ _ _ Hb). cbn [ser_put scalar_serial].
  destruct (enc_put _ _ (item_encodes (IScalar ty v) Hv) s a l Hb Hp Hf) as (s' & a' & He & Hpu). cbn [put_item] in He.
  exists s', a'. split; [done|]. split; [done|]. eapply sput_frame; [| |exact He]; [lia|].
  destruct (scalar_bytes_ok v Hv) as (_ & ? & _). pose proof (scalar_len_pos ty). unfold fits. lia.
Qed.
Next Obligation.
  intros S B BO s d v rest Hv Hb Hg. destruct (scalar_bytes_ok v Hv) as (_ & Hl & Hu). exists v. split; [|done].
  by apply (buf_get_middle ty s d [] (item_bytes (IScalar ty v)) rest).
Qed.
Next Obligation.
  intros S B BO s d pre v rest Hv [Hb Hg]. destruct (scalar_bytes_ok v Hv) as (_ & Hl & Hu).
  exists (advGet d (zlen (item_bytes (IScalar ty v)))), v. cbn [ser_sget scalar_serial]. unfold uba_sget.
  rewrite Hg, (buf_get_middle ty s d pre (item_bytes (IScalar ty v)) rest v Hb Hl Hu), bind_ok_l, <- Hl.
  split; [done|]. split; [done|]. apply reading_intro. by split.
Qed.
Next Obligation.
  intros S B BO s d pre v rest _ Hv Hb. destruct (scalar_bytes_ok v Hv) as (_ & Hl & Hu). exists v. split; [|done].
  by apply (buf_get_middle ty s d pre (item_bytes (IScalar ty v)) rest).
Qed.
End scalars.

(** A string inside a window. *)
Lemma buf_getString {S : Type} {B : Backend S} {BO : BackendOk S} (s : S) d pre str rest :
  string_ok str -> buf s d (pre ++ string_bytes str ++ rest) ->
  uba_getString s d (zlen pre) = Ok (str, zlen (string_bytes str)).
Proof.
  intros Hs Hb. pose proof (string_prefix str Hs) as (Hf & Hpl & Hr & Hpk & Hu). pose proof (proj1 Hs).
  pose proof (buf_fits _ _ _ Hb) as Hbf. pose proof (buf_len _ _ _ Hb) as Hlen.
  unfold string_bytes in *. set (len := vbytes _ _) in *. rewrite <- app_assoc in Hb. rewrite !length_app in *.
  unfold uba_getString. rewrite (buf_getVl_middle VlUint32 s d pre len (str ++ rest) (zlen str) Hb Hr Hu), bind_ok_l.
  rewrite (wrap_small 32 (zlen len + zlen str)) by (unfold fits; lia).
  rewrite range_check_eq by (unfold fits; lia). rewrite (proj2 (Z.ltb_ge _ _)) by lia. rewrite bind_ok_l.
  rewrite (wrap_small 64) by (unfold fits; lia). rewrite bk_getData_ok.
  assert (vread (bk_data s) (m_offSet d + zlen pre + zlen len) (zlen str) = Ok str) as ->.
  { rewrite <- Z.add_assoc. rewrite vread_view by (apply Hb || lia). rewrite (proj2 Hb).
    rewrite app_assoc. replace (zlen pre + zlen len) with (zlen (pre ++ len)) by (rewrite length_app; lia).
    by apply vread_middle. }
  rewrite bind_ok_l, wrap_small by (unfold fits; lia). unfold mret, result_ret. do 2 f_equal. lia.
Qed.

#[global] Program Instance string_serial_ok : @SerialOk (list Z) (list Z) string_serial := {|
  ser_ok := string_ok;
  ser_bytes := string_bytes;
  denotes S B BO _ v p := v = p;
|}.
Next Obligation. intros str [_ Hs]. split; [|cbn [ser_min_length string_serial]; lia]. apply Forall_app. split; [apply vbytes_ok|done]. Qed.
Next Obligation. done. Qed.
Next Obligation. done. Qed.
Next Obligation. done. Qed.
Next Obligation.
  intros S B BO s a l v Hv Hb Hp Hf. destruct (sputString_ok s a l v Hb Hp Hv Hf) as (s' & a' & He & Hpu).
  exists s', a'. split; [done|]. split; [done|]. by eapply sputString_frame.
Qed.
Next Obligation.
  intros S B BO s d v rest Hv Hb Hg. exists v. split; [|done]. cbn [ser_new string_serial].
  pose proof (buf_getString s d [] v rest Hv Hb) as E. change (zlen []) with 0 in E. by rewrite E.
Qed.
Next Obligation.
  intros S B BO s d pre v rest Hv [Hb Hg]. exists (advGet d (zlen (string_bytes v))), v.
  pose proof (enc_get _ _ (item_encodes (IString v) Hv) s d pre rest Hb Hg) as He. cbn [get_item item_bytes] in He.
  cbn [ser_sget string_serial]. destruct (uba_sgetString s d) as [[d' x]|]; [|done]. rewrite bind_ok_l in He.
  injection He as -> ->. split; [done|]. split; [done|]. apply reading_intro. by split.
Qed.
Next Obligation.
  intros S B BO s d pre v rest _ Hv Hb. exists v. split; [|done]. cbn [ser_getAt string_serial].
  by rewrite (buf_getString s d pre v rest Hv Hb).
Qed.

(** * Blocks of bytes one after another *)

Section blocks.
Implicit Types (bs : list (list Z)).

(** Where the blocks start. *)
Fixpoint block_starts (o : Z) bs : list Z :=
  match bs with [] => [] | b :: bs => o :: block_starts (o + zlen b) bs end.

Lemma length_block_starts o bs : length (block_starts o bs) = length bs.
Proof. revert o. induction bs as [|b bs IH]; intros o; [done|]. cbn [block_starts length]. by rewrite IH. Qed.

Lemma block_starts_app o bs cs : block_starts o (bs ++ cs) = block_starts o bs ++ block_starts (o + zlen (concat bs)) cs.
Proof.
  revert o. induction bs as [|b bs IH]; intros o; cbn [app block_starts concat].
  - cbn [length]. by rewrite Z.add_0_r.
  - rewrite IH, length_app. do 3 f_equal. lia.
Qed.

(** A block between those in front of it and those behind it. *)
Lemma block_at bs i b : bs !! i = Some b ->
  concat bs = concat (take i bs) ++ b ++ concat (drop (S i) bs) /\
  block_starts 0 bs !! i = Some (zlen (concat (take i bs))) /\
  ((S i < length bs)%nat -> block_starts 0 bs !! (S i) = Some (zlen (concat (take i bs)) + zlen b)).
Proof.
  intros Hi. pose proof (lookup_lt_Some _ _ _ Hi). pose proof (take_drop_middle _ _ _ Hi) as E.
  split; [rewrite <- E at 1; by rewrite concat_app|].
  assert (forall k, block_starts 0 bs !! (i + k)%nat = block_starts (zlen (concat (take i bs))) (b :: drop (S i) bs) !! k) as Hs.
  { intros k. rewrite <- E at 1. rewrite block_starts_app, Z.add_0_l, lookup_app_r; rewrite length_block_starts, length_take; [f_equal|]; lia. }
  split; [specialize (Hs 0%nat); rewrite Nat.add_0_r in Hs; by rewrite Hs|].
  intros Hlt. replace (S i) with (i + 1)%nat at 1 by lia. rewrite Hs. cbn [block_starts].
  destruct (drop (S i) bs) eqn:D; [|done]. apply (f_equal length) in D. rewrite length_drop in D. cbn [length] in D. lia.
Qed.

Lemma block_starts_le o bs x : x ∈ block_starts o bs -> o <= x <= o + zlen (concat bs).
Proof.
  revert o. induction bs as [|b bs IH]; intros o; cbn [block_starts concat]; [by rewrite elem_of_nil|].
  rewrite length_app, elem_of_cons. intros [->|Hx]; [lia|]. specialize (IH _ Hx). lia.
Qed.

Lemma block_starts_sorted o bs : StronglySorted Z.le (block_starts o bs).
Proof.
  revert o. induction bs as [|b bs IH]; intros o; cbn [block_starts]; constructor; [done|].
  apply Forall_forall. intros x Hx. apply block_starts_le in Hx. lia.
Qed.
End blocks.

(** * The image of a sequence of values *)

Section image.
Context {P V : Type} {SP : Serial P V} {SPO : SerialOk P V}.
Implicit Types (vs : list P).

Definition data_of vs : list Z := concat (map ser_bytes vs).

(** Where the elements start. *)
Definition starts (o : Z) vs : list Z := block_starts o (map ser_bytes vs).

(** What follows the data. *)
Definition tail_image vs (tail : list Z) : Prop :=
  match ser_fixed (P := P) (V := V) with
  | Some n => tail = if ser_integral (P := P) (V := V) then [] else vl_bytes VlUint32 n
  | None => soi_image (starts 0 vs) tail
  end.

Definition array_image vs (enc : list Z) : Prop :=
  exists tail, tail_image vs tail /\
    enc = [4] ++ item_bytes (IScalar Offset (zlen (data_of vs))) ++ data_of vs ++ tail.

(** Sizes in which nothing overflows. *)
Record values_ok vs : Prop := {
  values_each : Forall ser_ok vs;
  values_data : fits 40 (zlen (data_of vs));
  values_few : zlen vs < 2 ^ 32;
}.

Lemma data_of_app vs ws : data_of (vs ++ ws) = data_of vs ++ data_of ws.
Proof using. unfold data_of. by rewrite map_app, concat_app. Qed.

Lemma length_starts o vs : length (starts o vs) = length vs.
Proof using. unfold starts. by rewrite length_block_starts, length_map. Qed.

Lemma starts_app o vs ws : starts o (vs ++ ws) = starts o vs ++ starts (o + zlen (data_of vs)) ws.
Proof using. unfold starts. by rewrite map_app, block_starts_app. Qed.

(** An element between those in front of it and those behind it. *)
Lemma element_at vs i p : vs !! i = Some p ->
  exists pre post, vs = pre ++ p :: post /\ length pre = i /\
    data_of vs = data_of pre ++ ser_bytes p ++ data_of post /\
    starts 0 vs !! i = Some (zlen (data_of pre)) /\
    (forall q, vs !! (S i) = Some q -> starts 0 vs !! (S i) = Some (zlen (data_of pre) + zlen (ser_bytes p))) /\
    (vs !! (S i) = None -> post = []).
Proof using.
  intros Hi. pose proof (lookup_lt_Some _ _ _ Hi). exists (take i vs), (drop (S i) vs).
  split; [by rewrite take_drop_middle|]. split; [rewrite length_take; lia|].
  assert (map ser_bytes vs !! i = Some (ser_bytes p)) as Hm by (change (map ser_bytes vs) with (ser_bytes <$> vs); by rewrite list_lookup_fmap, Hi).
  destruct (block_at _ _ _ Hm) as (Hc & Hs & Hn). rewrite length_map in Hn.
  change (map ser_bytes vs) with (ser_bytes <$> vs) in *. rewrite <- fmap_take, <- fmap_drop in *.
  split; [exact Hc|]. split; [exact Hs|]. split.
  - intros q Hq. apply Hn. by apply lookup_lt_Some in Hq.
  - intros Hnone. apply drop_ge. by apply lookup_ge_None_1.
Qed.

Lemma starts_le o vs x : x ∈ starts o vs -> o <= x <= o + zlen (data_of vs).
Proof using. apply block_starts_le. Qed.

Lemma starts_sorted o vs : StronglySorted Z.le (starts o vs).
Proof using. apply block_starts_sorted. Qed.

(** Elements of a fixed length. *)
Lemma fixed_data n vs : ser_fixed (P := P) (V := V) = Some n -> Forall ser_ok vs -> zlen (data_of vs) = n * zlen vs.
Proof using.
  intros Hn. induction 1 as [|v vs Hv _ IH]; [cbn; lia|].
  change (data_of (v :: vs)) with (ser_bytes v ++ data_of vs). rewrite length_app.
  pose proof (ser_length_ok n v Hn Hv). cbn [length]. lia.
Qed.

Lemma data_min vs : Forall ser_ok vs -> 0 <= zlen vs * ser_min_length (P := P) (V := V) <= zlen (data_of vs).
Proof using.
  induction 1 as [|v vs Hv _ IH]; [cbn; lia|].
  change (data_of (v :: vs)) with (ser_bytes v ++ data_of vs). rewrite length_app.
  destruct (ser_bytes_ok v Hv). cbn [length]. lia.
Qed.

Lemma data_bytes vs : Forall ser_ok vs -> bytes_ok (data_of vs).
Proof using. induction 1 as [|v vs Hv _ IH]; [constructor|]. apply Forall_app. split; [by apply ser_bytes_ok|done]. Qed.
End image.

(** * Reading *)

(** Windows keep the get position at the front. *)
Lemma uba_from_len_get a o n : m_getPtr a = 0 -> 0 <= m_len a -> 0 <= o -> 0 <= n -> m_getPtr (uba_from_len a o n) = 0.
Proof.
  intros Hg Hl Ho Hn. unfold uba_from_len. cbn [m_getPtr].
  set (o' := if m_len a <? o then m_len a else o).
  assert (0 <= o' <= m_len a) by (unfold o'; destruct (Z.ltb_spec (m_len a) o); lia).
  destruct (Z.ltb_spec 0 o'); [done|]. assert (o' = 0) as -> by lia. rewrite Hg. change (u64 (0 - 0)) with 0.
  destruct (Z.ltb_spec n (m_len a - 0)), (Z.leb_spec (if n <? m_len a - 0 then n else m_len a - 0) 0); try lia.
  all: destruct (Z.ltb_spec n (m_len a - 0)); case_match; lia.
Qed.

Section reading.
Context {P V : Type} {SP : Serial P V} {SPO : SerialOk P V} {S : Type} {B : Backend S} {BO : BackendOk S} (i128 : bool).
Implicit Types (vs : list P).

(** The array sees the data and finds every element in it. *)
Record sa_opened (s : S) (a : sarray) vs (enc : list Z) : Prop := {
  sao_values : values_ok vs;
  sao_size : sa_size a = zlen vs;
  sao_data : buf s (sa_data a) (data_of vs);
  sao_get : m_getPtr (sa_data a) = 0;
  sao_at (i : nat) x : starts 0 vs !! i = Some x -> ai_at (P := P) (V := V) i128 s (sa_index a) (Z.of_nat i) = Ok x;
  sao_bytes : sa_getSizeInBytes (P := P) (V := V) a = Ok (zlen enc);
}.

Lemma values_offsets regression vs : values_ok vs ->
  (1 < zlen vs -> exists slopenom yintercept, regression (starts 0 vs) = Ok (slopenom, yintercept) /\
    fits 61 slopenom /\ - 2 ^ 61 < yintercept < 2 ^ 61) ->
  offsets_ok regression (starts 0 vs).
Proof using.
  clear. intros [Hv Hd Hn] Hr. split.
  - apply starts_sorted.
  - apply Forall_forall. intros x Hx. apply starts_le in Hx. unfold fits in *. lia.
  - rewrite length_starts. lia.
  - by rewrite length_starts.
Qed.

Lemma ai_new_ok (s : S) vs d tail rest : values_ok vs -> tail_image vs tail -> buf s d (tail ++ rest) ->
  8 * zlen (tail ++ rest) < 2 ^ 64 - 16 ->
  exists ix, ai_new (P := P) (V := V) s (zlen (data_of vs)) d = Ok ix /\ ai_size ix = zlen vs /\
    (forall (i : nat) x, starts 0 vs !! i = Some x -> ai_at (P := P) (V := V) i128 s ix (Z.of_nat i) = Ok x) /\
    ai_getSizeInBytes (P := P) (V := V) ix = Ok (zlen tail).
Proof using SPO BO.
  intros Hok Ht Hb Hf. pose proof Hok as [Hv Hd Hn]. unfold ai_new, ai_at, ai_getSizeInBytes, ser_length, is_fixed_length, tail_image in *.
  destruct (ser_fixed (P := P) (V := V)) as [n|] eqn:Hfix; cbn [default].
  - rewrite bool_decide_eq_true_2 by (by eexists). pose proof (fixed_data n vs Hfix Hv) as Hlen.
    pose proof (ser_fixed_ok n Hfix) as Hn0. change (id n) with n.
    assert (zlen (data_of vs) / n = zlen vs) as Hsz by (rewrite Hlen, Z.mul_comm; apply Z.div_mul; lia).
    rewrite Hsz. rewrite (Z.mul_comm (zlen vs)), <- Hlen, (wrap_small 64 (zlen _)) by (unfold fits in *; lia).
    rewrite Z.eqb_refl. cbn [negb throw_if]. rewrite bind_ok_l.
    assert (forall (i : nat) x, starts 0 vs !! i = Some x -> @Ok Z (u64 (n * Z.of_nat i)) = Ok x) as Hat.
    { intros i x Hx. pose proof (lookup_lt_Some _ _ _ Hx) as Hlt. rewrite length_starts in Hlt.
      destruct (lookup_lt_is_Some_2 vs i Hlt) as [p Hp].
      destruct (element_at vs i p Hp) as (pre & post & -> & <- & Hda & Hst & _). rewrite Hst in Hx. injection Hx as <-.
      apply Forall_app in Hv as [Hpre _]. rewrite Hda, !length_app in Hd. rewrite (fixed_data n pre Hfix Hpre).
      rewrite wrap_small; [done|]. rewrite <- (fixed_data n pre Hfix Hpre). unfold fits in *. lia. }
    destruct (ser_integral (P := P) (V := V)) eqn:Hint.
    + exists (AFixed (zlen vs)). subst tail. done.
    + subst tail. destruct (front_vl VlUint32 n s d rest) as [-> _]; [cbn; unfold fits; lia|done|]. rewrite bind_ok_l, Z.eqb_refl.
      cbn [negb throw_if]. rewrite bind_ok_l. exists (AFixed (zlen vs)). split; [done|]. split; [done|]. split; [done|].
      rewrite wrap_small by (unfold fits; lia). apply vl_bytes_psize. unfold fits. lia.
  - rewrite bool_decide_eq_false_2 by (intros [? ?]; congruence).
    destruct (soi_open_ok i128 s d _ tail rest Ht Hb Hf) as (o & -> & [Hsz Hat Hout Hby]). rewrite bind_ok_l.
    exists (AOffsets o). rewrite length_starts in *. split; [done|]. split; [done|]. split; [|done].
    intros i x Hx. unfold narrow_check. cbn [ity_max ity_cast].
    pose proof (lookup_lt_Some _ _ _ Hx) as Hlt. rewrite length_starts in Hlt.
    rewrite (proj2 (Z.ltb_ge _ _)) by lia. rewrite bind_ok_l, wrap_small by (unfold fits; lia). by apply Hat.
Qed.

Lemma sa_new_ok (s : S) data vs enc rest : values_ok vs -> array_image vs enc -> buf s data (enc ++ rest) ->
  8 * zlen (enc ++ rest) < 2 ^ 64 - 16 -> exists a, sa_new (P := P) (V := V) s data = Ok a /\ sa_opened s a vs enc.
Proof using SPO BO.
  intros Hok (tail & Ht & ->) Hb Hf. pose proof Hok as [Hv Hd Hn].
  assert (scalar_ok Offset (zlen (data_of vs))) as Hdo by (cbn; unfold fits in *; lia).
  destruct (scalar_bytes_ok Offset _ Hdo) as (_ & Hol & Hou). set (off := item_bytes (IScalar Offset (zlen (data_of vs)))) in *.
  repeat rewrite <- app_assoc in Hb. pose proof (buf_len _ _ _ Hb) as Hlen. pose proof (buf_fits _ _ _ Hb) as Hbf.
  rewrite !length_app in Hf, Hlen, Hbf. cbn [length] in *. change (scalar_len Offset) with 5 in Hol.
  unfold sa_new, offset_len. change (scalar_len Offset) with 5.
  pose proof (buf_get_middle Offset s data [4] off _ (zlen (data_of vs)) Hb Hol Hou) as Hgo. change (zlen [4]) with 1 in Hgo.
  rewrite Hgo, bind_ok_l.
  rewrite (buf_at _ _ _ _ Hb) by lia. rewrite !length_app, (proj2 (Z.ltb_ge _ _)) by (cbn [length]; lia).
  cbn [app]. rewrite (vget_cons_0 4), bind_ok_l. cbn [Z.eqb Pos.eqb negb throw_if]. rewrite bind_ok_l.
  pose proof (uba_from_len_ok s data _ Hb 6 (zlen (data_of vs))) as Hw. rewrite !length_app in Hw. cbn [length] in Hw.
  specialize (Hw ltac:(lia) ltac:(lia)). set (d := uba_from_len data (1 + 5) (zlen (data_of vs))) in *.
  change (uba_from_len data 6 (zlen (data_of vs))) with d in Hw.
  assert (take (Z.to_nat (zlen (data_of vs))) (drop (Z.to_nat 6) ([4] ++ off ++ data_of vs ++ tail ++ rest)) = data_of vs) as Hwd.
  { rewrite Nat2Z.id, app_assoc. replace (Z.to_nat 6) with (length ([4] ++ off)) by (rewrite length_app; cbn [length]; lia).
    by rewrite drop_app_length, take_app_length. }
  rewrite Hwd in Hw. pose proof (buf_len _ _ _ Hw) as Hdl. rewrite Hdl.
  rewrite (wrap_small 64 (1 + 5 + zlen (data_of vs))) by (unfold fits in *; lia).
  pose proof (uba_from_ok s data _ Hb (1 + 5 + zlen (data_of vs))) as Hx. rewrite !length_app in Hx. cbn [length] in Hx.
  specialize (Hx ltac:(lia)).
  assert (drop (Z.to_nat (1 + 5 + zlen (data_of vs))) ([4] ++ off ++ data_of vs ++ tail ++ rest) = tail ++ rest) as Hxd.
  { replace ([4] ++ off ++ data_of vs ++ tail ++ rest) with (([4] ++ off ++ data_of vs) ++ tail ++ rest) by (by repeat rewrite <- app_assoc).
    replace (Z.to_nat _) with (length ([4] ++ off ++ data_of vs)) by (rewrite !length_app; cbn [length]; lia).
    by rewrite drop_app_length. }
  rewrite Hxd in Hx.
  destruct (ai_new_ok s vs (uba_plus data (1 + 5 + zlen (data_of vs))) tail rest Hok Ht Hx) as (ix & -> & Hsz & Hat & Hby);
    [rewrite length_app; lia|]. rewrite bind_ok_l. unfold sa_size at 1. cbn [sa_index]. rewrite Hsz.
  pose proof (data_min vs Hv) as Hmin.
  exists (mkArray d ix).
  assert (zlen (data_of vs) <? u64 (zlen vs * ser_min_length (P := P) (V := V)) = false) as ->.
  { rewrite wrap_small by (unfold fits in *; lia). apply Z.ltb_ge. lia. }
  cbn [throw_if]. rewrite bind_ok_l. split; [done|]. split; try done.
  - cbn [sa_data]. unfold d, uba_from_len. cbn [m_getPtr]. by rewrite (proj2 (Z.ltb_ge (m_len data) (1 + 5))) by lia.
  - unfold sa_getSizeInBytes. cbn [sa_index sa_data]. rewrite Hby, bind_ok_l, Hdl. cbn [length]. rewrite !length_app. unfold mret, result_ret, offset_len.
    change (scalar_len Offset) with 5. rewrite wrap_small by (unfold fits in *; lia). f_equal. cbn [length]. lia.
Qed.

(** ** The elements of an opened array *)

Section elements.
Context (s : S) (a : sarray) (vs : list P) (enc : list Z) (Ha : sa_opened s a vs enc).

Lemma sa_inside i p : vs !! i = Some p -> (sa_size a <=? Z.of_nat i) || (sa_size a =? 0) = false.
Proof using Ha. intros Hi. pose proof (lookup_lt_Some _ _ _ Hi). rewrite (sao_size _ _ _ _ Ha). lia. Qed.

Lemma sa_outside pos : zlen vs <= pos -> (sa_size a <=? pos) || (sa_size a =? 0) = true.
Proof using Ha. intros Hi. rewrite (sao_size _ _ _ _ Ha). lia. Qed.

Lemma sa_extent_ok i p : vs !! i = Some p ->
  exists pre post, data_of vs = data_of pre ++ ser_bytes p ++ data_of post /\
    ai_at (P := P) (V := V) i128 s (sa_index a) (Z.of_nat i) = Ok (zlen (data_of pre)) /\
    sa_extent (P := P) (V := V) i128 s a (Z.of_nat i) = Ok (zlen (data_of pre), zlen (ser_bytes p)).
Proof using Ha.
  intros Hi. pose proof (lookup_lt_Some _ _ _ Hi) as Hlt. destruct Ha as [[_ Hd Hn] Hsz Hb _ Hat _].
  destruct (element_at vs i p Hi) as (pre & post & Hvs & Hpl & Hda & Hst & Hnext & Hlast).
  exists pre, post. split; [done|]. pose proof (Hat _ _ Hst) as Hai. split; [done|].
  unfold sa_extent. rewrite Hai, bind_ok_l, Hsz, (wrap_small 64) by (unfold fits; lia).
  rewrite (buf_len _ _ _ Hb). rewrite Hda, !length_app in *. unfold fits in Hd.
  destruct (Z.eqb_spec (Z.of_nat i + 1) (zlen vs)) as [E|E].
  - assert (vs !! (Datatypes.S i) = None) as Hnone by (apply lookup_ge_None_2; lia).
    rewrite (Hlast Hnone). cbn. rewrite wrap_small by (unfold fits; lia). do 2 f_equal. lia.
  - destruct (lookup_lt_is_Some_2 vs (Datatypes.S i)) as [q Hq]; [lia|]. pose proof (Hat _ _ (Hnext q Hq)) as Hai2.
    replace (Z.of_nat i + 1) with (Z.of_nat (Datatypes.S i)) by lia. rewrite Hai2, bind_ok_l.
    rewrite wrap_small by (unfold fits; lia). unfold mret, result_ret. do 2 f_equal. lia.
Qed.

Lemma sa_dataAt_ok i p : vs !! i = Some p ->
  exists d, sa_dataAt (P := P) (V := V) i128 s a (Z.of_nat i) = Ok d /\ buf s d (ser_bytes p) /\ m_getPtr d = 0.
Proof using Ha.
  intros Hi. destruct (sa_extent_ok i p Hi) as (pre & post & Hda & _ & Hex). unfold sa_dataAt.
  rewrite (sa_inside i p Hi), Hex, bind_ok_l. eexists. split; [done|]. pose proof (sao_data _ _ _ _ Ha) as Hb. split.
  - rewrite Hda in Hb. pose proof (uba_from_len_ok s _ _ Hb (zlen (data_of pre)) (zlen (ser_bytes p))) as Hw.
    rewrite !Nat2Z.id, drop_app_length, take_app_length in Hw. apply Hw; [rewrite !length_app|]; lia.
  - apply uba_from_len_get; [apply Ha|apply Hb|lia|lia].
Qed.

Lemma sa_dataSize_ok i p : vs !! i = Some p -> sa_dataSize (P := P) (V := V) i128 s a (Z.of_nat i) = Ok (zlen (ser_bytes p)).
Proof using Ha.
  intros Hi. destruct (sa_extent_ok i p Hi) as (pre & post & _ & _ & Hex). unfold sa_dataSize.
  by rewrite (sa_inside i p Hi), Hex.
Qed.

Lemma sa_at_ok i p : vs !! i = Some p ->
  exists v, sa_at (P := P) (V := V) i128 s a (Z.of_nat i) = Ok v /\ denotes s v p.
Proof using Ha.
  intros Hi. unfold sa_at. rewrite (sa_inside i p Hi). unfold sa_get.
  assert (ser_ok p) as Hp by exact (Forall_lookup_1 _ _ _ _ (values_each _ (sao_values _ _ _ _ Ha)) Hi).
  destruct (is_fixed_length (P := P) (V := V) && ser_support (P := P) (V := V)) eqn:E.
  - apply andb_true_iff in E as [_ E]. destruct (sa_extent_ok i p Hi) as (pre & post & Hda & -> & _). rewrite bind_ok_l.
    apply (ser_getAt_ok s (sa_data a) (data_of pre) p (data_of post) E Hp). rewrite <- Hda. apply Ha.
  - destruct (sa_dataAt_ok i p Hi) as (d & -> & Hb & Hg). rewrite bind_ok_l.
    apply (ser_new_ok s d p [] Hp); [by rewrite app_nil_r|done].
Qed.

Lemma sa_at_out pos : zlen vs <= pos -> sa_at (P := P) (V := V) i128 s a pos = Err OutOfBoundsException.
Proof using Ha. intros Hp. unfold sa_at. by rewrite sa_outside. Qed.

(** The linear search returns the first position of the value. *)
Lemma sa_find_loop_ok eqb q value fuel i :
  (forall v p, denotes s v p -> eqb v value = true <-> p = q) ->
  (i <= length vs)%nat -> (forall j, (j < i)%nat -> vs !! j <> Some q) -> (length vs - i < fuel)%nat ->
  exists r, sa_find_loop (P := P) (V := V) i128 fuel eqb s a value (Z.of_nat i) = Ok r /\
    ((exists j, r = Z.of_nat j /\ vs !! j = Some q /\ forall k, (k < j)%nat -> vs !! k <> Some q) \/ (r = npos /\ q ∉ vs)).
Proof using Ha.
  intros Heq. revert i. induction fuel as [|fuel IH]; intros i Hi Hnot Hf; [lia|]. cbn [sa_find_loop].
  rewrite (sao_size _ _ _ _ Ha). pose proof (values_few _ (sao_values _ _ _ _ Ha)) as Hn.
  destruct (Z.ltb_spec (Z.of_nat i) (zlen vs)).
  - destruct (lookup_lt_is_Some_2 vs i) as [p Hp]; [lia|]. destruct (sa_at_ok i p Hp) as (v & -> & Hv). rewrite bind_ok_l.
    pose proof (Heq v p Hv) as He. destruct (eqb v value).
    + assert (p = q) as <- by (by apply He). eexists. split; [done|]. left. by exists i.
    + rewrite wrap_small by (unfold fits; lia). replace (Z.of_nat i + 1) with (Z.of_nat (Datatypes.S i)) by lia.
      apply IH; [lia| |lia]. intros j Hj. destruct (decide (j = i)) as [->|]; [|apply Hnot; lia].
      rewrite Hp. intros [= ->]. discriminate (proj2 He eq_refl).
  - eexists. split; [done|]. right. split; [done|]. intros Hin. apply list_elem_of_lookup in Hin as [j Hj].
    pose proof (lookup_lt_Some _ _ _ Hj). apply (Hnot j); [lia|done].
Qed.
End elements.
End reading.

(** * Writing *)

Lemma splice_inner (l x y y' z : list Z) p : 0 <= p <= zlen l -> length y' = length y ->
  splice (splice l p (x ++ y ++ z)) (p + zlen x) y' = splice l p (x ++ y' ++ z).
Proof.
  intros Hp Hy. assert (length (take (Z.to_nat p) l) = Z.to_nat p) as Ht by (rewrite length_take; lia).
  set (tl := drop (Z.to_nat p + length (x ++ y ++ z)) l).
  assert (splice l p (x ++ y ++ z) = (take (Z.to_nat p) l ++ x) ++ y ++ z ++ tl) as ->
    by (unfold splice; fold tl; by repeat rewrite <- app_assoc).
  assert (splice l p (x ++ y' ++ z) = (take (Z.to_nat p) l ++ x) ++ y' ++ z ++ tl) as ->.
  { unfold splice. unfold tl. rewrite !length_app, Hy. by repeat rewrite <- app_assoc. }
  assert (length (take (Z.to_nat p) l ++ x) = Z.to_nat (p + zlen x)) as Hl by (rewrite length_app, Ht; lia).
  unfold splice. rewrite <- Hl at 1. rewrite take_app_length. do 2 f_equal.
  rewrite <- Hl, Hy, app_assoc, <- length_app. apply drop_app_length.
Qed.

Section writing.
Context {P V : Type} {SP : Serial P V} {SPO : SerialOk P V} {S : Type} {B : Backend S} {BO : BackendOk S}.
Context (i128 : bool) (regression : list Z -> result (Z * Z)).
Implicit Types (vs : list P).

Lemma sput_scalar_frame ty v (s : S) a l : scalar_ok ty v -> buf s a l -> 0 <= m_putPtr a <= zlen l ->
  m_offSet a + m_putPtr a + 8 < 2 ^ 64 ->
  exists s' a', uba_sput ty s a v = Ok (s', a') /\ pushed a l (item_bytes (IScalar ty v)) s' a' /\ frame (m_offSet a) s s'.
Proof using BO.
  intros Hv Hb Hp Hf. destruct (scalar_bytes_ok ty v Hv) as (_ & Hl & _). pose proof (scalar_len_pos ty).
  apply (ser_put_ok (SerialOk := scalar_serial_ok ty) s a l v Hv Hb Hp). cbn [ser_bytes scalar_serial_ok]. lia.
Qed.

Lemma pushed_room a l b (s' : S) a' : 0 <= m_putPtr a <= zlen l -> pushed a l b s' a' ->
  0 <= m_putPtr a' <= zlen (splice l (m_putPtr a) b).
Proof using. intros Hp [_ _ _ ->]. rewrite zlen_splice_grow by done. lia. Qed.

Definition head_bytes (n : Z) : list Z := [4] ++ item_bytes (IScalar Offset n).

Lemma zlen_head n : fits 40 n -> zlen (head_bytes n) = 6.
Proof using.
  clear. intros Hn. unfold head_bytes. rewrite length_app. destruct (scalar_bytes_ok Offset n Hn) as (_ & Hl & _).
  change (scalar_len Offset) with 5 in Hl. cbn [length]. lia.
Qed.

Lemma ac_new_ok (s : S) a l : buf s a l -> 0 <= m_putPtr a <= zlen l -> m_offSet a + zlen l + 20 < 2 ^ 64 ->
  exists s' a', ac_new s a = Ok (s', a', mkCreator 0 [] (m_putPtr a + 1) (m_putPtr a + 6)) /\
    pushed a l (head_bytes 0) s' a' /\ frame (m_offSet a) s s'.
Proof using BO.
  intros Hb Hp Hf. pose proof (buf_fits _ _ _ Hb). unfold ac_new.
  destruct (sput_scalar_frame Uint8 4 s a l) as (s1 & a1 & -> & P1 & F1); [cbn; unfold fits; lia|done|done|lia|]. rewrite bind_ok_l.
  change (item_bytes (IScalar Uint8 4)) with [4] in P1. pose proof (pushed_room _ _ _ _ _ Hp P1) as Q1. pose proof P1 as [B1 O1 G1 E1].
  destruct (sput_scalar_frame Offset 0 s1 a1 (splice l (m_putPtr a) [4])) as (s2 & a2 & -> & P2 & F2); [cbn; unfold fits; lia|exact B1|done|cbn [length] in E1; lia|].
  rewrite bind_ok_l. exists s2, a2. pose proof (pushed_put _ _ _ _ _ P2) as E2. change (zlen (item_bytes (IScalar Offset 0))) with 5 in E2.
  cbn [length] in E1. split; [unfold mret, result_ret; do 3 f_equal; lia|].
  split; [by eapply pushed_app|]. eapply frame_trans; [done|]. by rewrite <- O1.
Qed.

(** The creator after some puts. *)
Definition creator (n : Z) (offs : list Z) (p : Z) : array_creator := mkCreator n offs (p + 1) (p + 6).
Definition offs_of vs : list Z := if is_fixed_length (P := P) (V := V) then [] else starts 0 vs.

Lemma ac_puts_ok p vs : forall (s : S) a l ws,
  Forall ser_ok vs -> buf s a l -> 0 <= p -> p + 6 + zlen (data_of ws) = m_putPtr a -> 0 <= m_putPtr a <= zlen l ->
  m_offSet a + m_putPtr a + zlen (data_of vs) < 2 ^ 64 -> zlen ws + zlen vs < 2 ^ 32 ->
  exists s' a', ac_puts (P := P) (V := V) s a (creator (zlen ws) (offs_of ws) p) vs = Ok (s', a', creator (zlen (ws ++ vs)) (offs_of (ws ++ vs)) p) /\
    pushed a l (data_of vs) s' a' /\ frame (m_offSet a) s s'.
Proof using SPO BO.
  induction vs as [|v vs IH]; intros s a l ws Hv Hb H0 Hp Hpl Hf Hn; cbn [ac_puts].
  { exists s, a. rewrite app_nil_r. split; [done|]. split; [|done]. change (data_of []) with (@nil Z). split; try done; [|cbn [length]; lia].
    unfold splice. cbn [app length]. by rewrite Nat.add_0_r, take_drop. }
  apply Forall_cons in Hv as [Hv Hvs]. change (data_of (v :: vs)) with (ser_bytes v ++ data_of vs) in *. rewrite length_app in Hf. cbn [length] in Hn.
  pose proof (buf_fits _ _ _ Hb) as Hbf. unfold ac_put.
  destruct (ser_put_ok s a l v Hv Hb Hpl) as (s1 & a1 & -> & P1 & F1); [lia|]. rewrite !bind_ok_l.
  assert (ac_beginRawPut (P := P) (V := V) a (creator (zlen ws) (offs_of ws) p) = creator (zlen (ws ++ [v])) (offs_of (ws ++ [v])) p) as ->.
  { unfold ac_beginRawPut, creator, offs_of. cbn [ac_size ac_offsets ac_dataBegin ac_dataLenPtr].
    rewrite (wrap_small 64 (zlen ws + 1)) by (unfold fits; lia). f_equal; [rewrite length_app; cbn [length]; lia|].
    destruct (is_fixed_length (P := P) (V := V)); [done|]. rewrite starts_app. change (starts (0 + zlen (data_of ws)) [v]) with [0 + zlen (data_of ws)].
    rewrite wrap_small by (unfold fits; lia). do 2 f_equal. lia. }
  pose proof (pushed_room _ _ _ _ _ Hpl P1) as Q1. pose proof P1 as [B1 O1 G1 E1].
  destruct (IH s1 a1 _ (ws ++ [v]) Hvs B1 H0) as (s2 & a2 & -> & P2 & F2); try done; try lia.
  { rewrite data_of_app. unfold data_of at 2. cbn [map concat]. rewrite app_nil_r, length_app. lia. }
  { rewrite length_app. cbn [length]. lia. }
  rewrite <- app_assoc. exists s2, a2. split; [done|]. split; [by eapply pushed_app|].
  eapply frame_trans; [done|]. by rewrite <- O1.
Qed.

(** The line of the offsets, if there are offsets. *)
Definition line_found vs : Prop :=
  ser_fixed (P := P) (V := V) = None -> 1 < zlen vs ->
  exists slopenom yintercept, regression (starts 0 vs) = Ok (slopenom, yintercept) /\
    fits 61 slopenom /\ - 2 ^ 61 < yintercept < 2 ^ 61.

Lemma take_drop_splice (l bs ext : list Z) p : 0 <= p <= zlen l ->
  take (Z.to_nat (zlen bs)) (drop (Z.to_nat p) (splice l p bs ++ ext)) = bs.
Proof using.
  clear. intros Hp. unfold splice. repeat rewrite <- app_assoc.
  assert (Z.to_nat p = length (take (Z.to_nat p) l)) as Ht by (rewrite length_take; lia).
  rewrite Ht at 1. by rewrite drop_app_length, Nat2Z.id, take_app_length.
Qed.

(** The place of the length is filled in. *)
Lemma put_dataLen_ok (s : S) a l p data : buf s a (splice l p (head_bytes 0 ++ data)) -> 0 <= p <= zlen l -> fits 40 (zlen data) ->
  m_offSet a + zlen l + zlen data + 20 < 2 ^ 64 ->
  exists s', uba_put Offset s a (p + 1) (zlen data) = Ok s' /\ buf s' a (splice l p (head_bytes (zlen data) ++ data)) /\ frame (m_offSet a) s s'.
Proof using BO.
  intros Hb Hp Hd Hf. pose proof (buf_fits _ _ _ Hb) as Hbf. rewrite zlen_splice_grow, length_app in Hbf by done.
  assert (fits 40 0) as H0 by (unfold fits; lia). pose proof (zlen_head 0 H0) as Hh.
  destruct (scalar_bytes_ok Offset (zlen data) Hd) as (Hok & Hl & _). destruct (scalar_bytes_ok Offset 0 H0) as (_ & Hl0 & _).
  change (scalar_len Offset) with 5 in *.
  assert (scalar_pack Offset (zlen data) = Ok (item_bytes (IScalar Offset (zlen data)))) as Hpk.
  { cbn [item_bytes]. by destruct (scalar_pack_ok Offset _ Hd) as (? & -> & _). }
  destruct (buf_put Offset s a _ (p + 1) (zlen data) (item_bytes (IScalar Offset (zlen data))) Hb ltac:(lia)) as (s' & Hput & Hb' & _);
    [change (scalar_len Offset) with 5; rewrite zlen_splice_grow, length_app by done; lia|exact Hpk|exact Hl|exact Hok|].
  exists s'. split; [done|]. split; [|eapply put_frame; [| |exact Hput]; [unfold fits; lia|lia]].
  unfold head_bytes in *. repeat rewrite <- app_assoc in *. change (p + 1) with (p + zlen [4]) in Hb'.
  rewrite splice_inner in Hb'; [exact Hb'|done|lia].
Qed.

Lemma flush_tail_ok (s : S) a l vs : values_ok vs -> line_found vs -> buf s a l -> 0 <= m_putPtr a <= zlen l ->
  small_enough a l (zlen vs * 64 + 40) ->
  exists s' a' tail ext,
    (if is_fixed_length (P := P) (V := V) then
       if ser_integral (P := P) (V := V) then Ok (s, a)
       else '(s, dest, _) ← uba_sputVl VlUint32 s a (u32 (ser_length (P := P) (V := V))); mret (s, dest)
     else
       '(s, dest, ok) ← soi_create i128 regression s (offs_of vs) a;
       throw_if (negb ok) CreationException;;
       mret (s, dest)) = Ok (s', a') /\
    tail_image vs tail /\ wrote s a l tail s' a' ext.
Proof using SPO BO.
  intros Hok Hline Hb Hp Hsm. unfold is_fixed_length, ser_length, offs_of, tail_image, line_found in *. unfold is_fixed_length.
  destruct (ser_fixed (P := P) (V := V)) as [n|] eqn:Hfix.
  - rewrite !bool_decide_eq_true_2 by (by eexists). destruct (ser_integral (P := P) (V := V)).
    + exists s, a, [], []. split; [done|]. split; [done|]. split; try done; [|cbn [length]; lia|cbn [length]; lia].
      rewrite app_nil_r. unfold splice. cbn [app length]. by rewrite Nat.add_0_r, take_drop.
    + pose proof (ser_fixed_ok n Hfix) as Hn. cbn [default from_option]. unfold id. rewrite wrap_small by (unfold fits; lia).
      unfold small_enough in Hsm.
      destruct (sput_vl_frame VlUint32 n s a l) as (s' & a' & -> & Hpu & Hf & _); [cbn; unfold fits; lia|done|done|lia|].
      rewrite bind_ok_l. exists s', a', (vl_bytes VlUint32 n), []. split; [done|]. split; [done|]. by apply pushed_wrote.
  - rewrite !bool_decide_eq_false_2 by (intros [? ?]; done).
    destruct (soi_create_ok i128 regression s a l (starts 0 vs) Hb Hp) as (s' & a' & enc & ext & -> & Him & Hw).
    + apply values_offsets; auto.
    + by rewrite length_starts.
    + rewrite bind_ok_l. cbn [negb throw_if]. rewrite bind_ok_l. by exists s', a', enc, ext.
Qed.

Lemma ac_flush_ok (s : S) a l p vs : values_ok vs -> line_found vs ->
  buf s a (splice l p (head_bytes 0 ++ data_of vs)) -> m_putPtr a = p + 6 + zlen (data_of vs) -> 0 <= p <= zlen l ->
  small_enough a l (zlen (data_of vs) + zlen vs * 64 + 60) ->
  exists s' a' fd enc ext, ac_flush (P := P) (V := V) i128 regression s a (creator (zlen vs) (offs_of vs) p) = Ok (s', a', fd) /\
    array_image vs enc /\ buf s' fd enc /\
    buf s' a' (splice l p enc ++ ext) /\ zlen ext <= zlen l - p /\ m_offSet a' = m_offSet a /\ m_getPtr a' = m_getPtr a /\
    m_putPtr a' = p + zlen enc /\ frame (m_offSet a) s s'.
Proof using SPO BO.
  intros Hok Hline Hb Hpp Hp Hsm. unfold small_enough in Hsm. pose proof Hok as [_ Hd Hn]. pose proof (buf_fits _ _ _ Hb) as Hbf.
  unfold ac_flush, creator. cbn [ac_dataLenPtr ac_dataBegin ac_offsets]. rewrite Hpp.
  rewrite (wrap_small 64 (_ - _)) by (unfold fits in *; lia). replace (p + 6 + zlen (data_of vs) - (p + 6)) with (zlen (data_of vs)) by lia.
  destruct (put_dataLen_ok s a l p (data_of vs) Hb Hp Hd) as (s1 & -> & Hb1 & Hf1); [lia|]. rewrite bind_ok_l.
  pose proof (zlen_head _ Hd) as Hh.
  destruct (flush_tail_ok s1 a _ vs Hok Hline Hb1) as (s2 & a2 & tail & ext & -> & Ht & [Hb2 He2 Ho2 Hg2 Hp2 Hf2]).
  { rewrite zlen_splice_grow, length_app by done. lia. }
  { unfold small_enough. rewrite zlen_splice_grow, length_app by done. lia. }
  rewrite bind_ok_l. set (enc := head_bytes (zlen (data_of vs)) ++ data_of vs ++ tail).
  rewrite Hpp in Hb2, He2, Hp2. rewrite zlen_splice_grow, length_app in He2 by done.
  assert (splice (splice l p (head_bytes (zlen (data_of vs)) ++ data_of vs)) (p + 6 + zlen (data_of vs)) tail = splice l p enc) as E.
  { replace (p + 6 + zlen (data_of vs)) with (p + zlen (head_bytes (zlen (data_of vs)) ++ data_of vs)) by (rewrite length_app; lia).
    rewrite splice_splice by done. unfold enc. by rewrite <- app_assoc. }
  rewrite E in Hb2. assert (zlen enc = 6 + zlen (data_of vs) + zlen tail) as Hel by (unfold enc; rewrite !length_app; lia).
  pose proof (buf_fits _ _ _ Hb2) as Hf3. rewrite length_app, Nat2Z.inj_add, zlen_splice_grow in Hf3 by done.
  eexists s2, a2, _, enc, ext. split; [done|]. split; [exists tail; split; [done|]; unfold enc, head_bytes; by repeat rewrite <- app_assoc|].
  split; [|split; [done|split; [lia|split; [done|split; [done|split; [lia|by eapply frame_trans]]]]]].
  unfold ac_getFlushedData, offset_len. cbn [ac_dataBegin]. change (scalar_len Offset) with 5. rewrite Hp2.
  rewrite (wrap_small 64 (p + 6 - 1 - 5)) by (unfold fits; lia). rewrite wrap_small by (unfold fits; lia).
  pose proof (uba_from_len_ok s2 a2 _ Hb2 p (zlen enc)) as Hw. rewrite length_app, Nat2Z.inj_add, zlen_splice_grow, take_drop_splice in Hw by done.
  specialize (Hw ltac:(lia) ltac:(lia)). replace (p + 6 - 1 - 5) with p by lia.
  replace (p + 6 + zlen (data_of vs) + zlen tail - p) with (zlen enc) by lia.
  apply (buf_ptrs s2 _ _ 0 0 Hw); unfold fits; lia.
Qed.

Lemma array_put_ok (s : S) a l vs : values_ok vs -> line_found vs -> buf s a l -> 0 <= m_putPtr a <= zlen l ->
  small_enough a l (zlen (data_of vs) + zlen vs * 64 + 60) ->
  exists s' a' enc ext, array_put (P := P) (V := V) i128 regression s a vs = Ok (s', a') /\ array_image vs enc /\ wrote s a l enc s' a' ext.
Proof using SPO BO.
  intros Hok Hline Hb Hp Hsm. pose proof Hsm as Hsm'. unfold small_enough in Hsm. pose proof Hok as [Hv Hd Hn]. pose proof (buf_fits _ _ _ Hb).
  assert (fits 40 0) as H0 by (unfold fits; lia). pose proof (zlen_head 0 H0) as Hh.
  unfold array_put. destruct (ac_new_ok s a l Hb Hp) as (s1 & a1 & -> & P1 & F1); [lia|]. rewrite bind_ok_l.
  pose proof (pushed_room _ _ _ _ _ Hp P1) as Q1. pose proof P1 as [B1 O1 G1 E1].
  assert (mkCreator 0 [] (m_putPtr a + 1) (m_putPtr a + 6) = creator (zlen (@nil P)) (offs_of []) (m_putPtr a)) as ->.
  { unfold creator, offs_of. by destruct (is_fixed_length (P := P) (V := V)). }
  destruct (ac_puts_ok (m_putPtr a) vs s1 a1 _ [] Hv B1) as (s2 & a2 & -> & P2 & F2); [lia|change (data_of []) with (@nil Z); cbn [length]; lia|done|lia|cbn [length]; lia|].
  rewrite bind_ok_l. cbn [app]. pose proof (pushed_app s1 s2 a l _ _ a1 a2 Hp P1 P2) as [B2 O2 G2 E2]. rewrite length_app in E2.
  destruct (ac_flush_ok s2 a2 l (m_putPtr a) vs Hok Hline B2) as (s3 & a3 & fd & enc & ext & -> & Him & _ & B3 & He & O3 & G3 & E3 & F3);
    [lia|done|by unfold small_enough; rewrite O2|].
  rewrite bind_ok_l. exists s3, a3, enc, ext. split; [done|]. split; [done|]. split; try done; try congruence.
  eapply frame_trans; [exact F1|]. eapply frame_trans; [rewrite <- O1; exact F2|]. by rewrite <- O2.
Qed.
End writing.

(** C7: round trip of a serialized array, for every type with the interface.
    Writing values at the put position succeeds and stores an encoding there; the rest of
    the window and the storage in front of it keep their bytes.  Any adapter that starts with the
    encoding, on any storage and whatever follows, opens as an array of as
    many values; each is read back, with its length, positions behind the last throw, the reported size is the
    length of the encoding, and the consuming constructor leaves the adapter behind it. *)
Theorem array_roundtrip {P V} {SP : Serial P V} {SPO : SerialOk P V} {S} {B : Backend S} {BO : BackendOk S}
    i128 regression (s : S) a l (vs : list P) :
  values_ok vs -> line_found (V := V) regression vs -> buf s a l -> 0 <= m_putPtr a <= zlen l ->
  small_enough a l (zlen (data_of vs) + zlen vs * 64 + 60) ->
  exists s' a' enc ext, array_put (P := P) (V := V) i128 regression s a vs = Ok (s', a') /\
    buf s' a' (splice l (m_putPtr a) enc ++ ext) /\ zlen ext <= zlen l - m_putPtr a /\
    m_putPtr a' = m_putPtr a + zlen enc /\ frame (m_offSet a) s s' /\
    forall (T : Type) (BT : Backend T) (BTO : BackendOk T) (t : T) d rest,
      buf t d (enc ++ rest) -> 8 * zlen (enc ++ rest) < 2 ^ 64 - 16 ->
      exists arr d', sa_consume (P := P) (V := V) t d = Ok (arr, d') /\ buf t d' rest /\ sa_size arr = zlen vs /\
        sa_getSizeInBytes (P := P) (V := V) arr = Ok (zlen enc) /\
        (forall (i : nat) p, vs !! i = Some p ->
           sa_dataSize (P := P) (V := V) i128 t arr (Z.of_nat i) = Ok (zlen (ser_bytes p)) /\
           exists v, sa_at (P := P) (V := V) i128 t arr (Z.of_nat i) = Ok v /\ denotes t v p) /\
        (forall pos, zlen vs <= pos -> sa_at (P := P) (V := V) i128 t arr pos = Err OutOfBoundsException).
Proof.
  intros Hok Hline Hb Hp Hsm.
  destruct (array_put_ok i128 regression s a l vs Hok Hline Hb Hp Hsm) as (s' & a' & enc & ext & Hput & Him & [Hb' He _ _ Hp' Hf]).
  exists s', a', enc, ext. do 5 (split; [done|]). intros T BT BTO t d rest Hd Hl.
  destruct (sa_new_ok i128 t d vs enc rest Hok Him Hd Hl) as (arr & Hnew & Ha).
  exists arr, (uba_plus_assign d (zlen enc)). split; [unfold sa_consume; by rewrite Hnew, bind_ok_l, (sao_bytes _ _ _ _ _ Ha)|].
  split; [by apply plus_assign_ok|]. split; [apply Ha|]. split; [apply Ha|]. split.
  - intros i p Hi. split; [by eapply sa_dataSize_ok|by eapply sa_at_ok].
  - intros pos Hpos. by eapply sa_at_out.
Qed.

(** Three strings, one of them empty, behind a byte that is kept. *)
Lemma array_roundtrip_witness :
  exists s' a' enc ext, array_put (SP := string_serial) true (fun _ => Ok (5, -1)) (Vec.mk [7]) (mkUba 0 1 0 1) [[104; 105]; []; [33]] = Ok (s', a') /\
    buf s' a' ([7] ++ enc ++ ext) /\
    exists arr d', sa_consume (SP := string_serial) s' (uba_plus_assign a' 1) = Ok (arr, d') /\ sa_size arr = 3 /\
      exists v, sa_at (SP := string_serial) true s' arr 2 = Ok v /\ v = [33].
Proof.
  destruct (array_roundtrip (SP := string_serial) true (fun _ => Ok (5, -1)) (Vec.mk [7]) (mkUba 0 1 0 1) [7] [[104; 105]; []; [33]])
    as (s' & a' & enc & ext & Hput & Hb & He & _ & _ & Hopen).
  - split; [|apply (bool_decide_unpack _); vm_compute; exact I|cbn; lia]. repeat constructor; cbn; try lia; unfold fits; lia.
  - intros _ _. exists 5, (-1). split; [reflexivity|unfold fits; lia].
  - split; [uba_wf_tac|reflexivity].
  - cbn. lia.
  - vm_compute. reflexivity.
  - exists s', a', enc, ext. split; [exact Hput|]. cbn [length m_putPtr] in *.
    change (splice [7] 1 enc) with ([7] ++ enc ++ drop (1 + length enc) [7]) in Hb.
    assert (drop (1 + length enc) [7] = []) as E by (apply drop_ge; cbn [length]; lia).
    rewrite E, app_nil_r in Hb. split; [by rewrite app_assoc|].
    rewrite <- app_assoc in Hb. pose proof (plus_assign_ok s' a' [7] _ Hb) as Hb'. change (zlen [7]) with 1 in Hb'.
    destruct (Hopen _ _ _ s' (uba_plus_assign a' 1) ext Hb') as (arr & d' & Hnew & _ & Hsz & _ & Hat & _).
    + vm_compute in Hput. injection Hput as <- <-. pose proof (buf_len _ _ _ Hb') as Hl. rewrite <- Hl. vm_compute. reflexivity.
    + exists arr, d'. split; [exact Hnew|]. split; [exact Hsz|]. exact (proj2 (Hat 2%nat [33] eq_refl)).
Defined.
