(* ===== verification/BitSets.v ===== *)
(** Bit sets: [src/containers/SimpleBitVector.cpp] over 64-bit words and
    [src/containers/DynamicBitSet.cpp] over a byte-array adapter.

    A dynamic bit set denotes the number [le_val l] of its bytes [l]: position
    [p] is set when bit [p] of this number is. *)

From S2P Require Import Prelude UtilMath PackUnpack Storage ByteArray ByteStream Bits CompactUintArray.

(** * The simple bit vector *)

Module Simple.
Record t := mk { m_d : list Z }.

Definition digits : Z := 64.

Definition new (size : Z) : t := mk (replicate (Z.to_nat (size / digits + 1)) 0).
Definition empty : t := mk [].

Definition storageSizeInBytes (v : t) : Z := zlen (m_d v) * 8.

Definition size (v : t) : Z := fold_left (fun r c => u64 (r + popCount 64 c)) (m_d v) 0.

Definition capacity (v : t) : Z := zlen (m_d v) * digits.

Definition resize (v : t) (count : Z) : t := mk (vresize (m_d v) (count / digits + 1) 0).

(** [m_d.at(i) = f(m_d.at(i))]; [at] throws out of range. *)
Definition update (d : list Z) (i : Z) (f : Z -> Z) : result (list Z) :=
  match d !! Z.to_nat i with
  | Some x => Ok (<[Z.to_nat i := f x]> d)
  | None => Err StdOutOfRange
  end.

Definition set (v : t) (pos : Z) : result t :=
  let v := if zlen (m_d v) <=? pos / digits then resize v pos else v in
  d ← update (m_d v) (pos / digits) (fun x => x ||| u64 (1 <<< (pos mod digits)));
  mret (mk d).

Definition unset (v : t) (pos : Z) : result t :=
  if zlen (m_d v) <=? pos / digits then Ok v
  else
    d ← update (m_d v) (pos / digits) (fun x => x &&& u64 (Z.lnot (u64 (1 <<< (pos mod digits)))));
    mret (mk d).

Definition isSet (v : t) (pos : Z) : bool :=
  if zlen (m_d v) <=? pos / digits then false
  else match m_d v !! Z.to_nat (pos / digits) with
       | Some x => negb (x &&& u64 (1 <<< (pos mod digits)) =? 0)
       | None => false
       end.

Definition reset (v : t) : t := mk (replicate (length (m_d v)) 0).

(** The positions of one word from [v] on: [for(myV = v; x; ++myV, x >>= 1)]. *)
Fixpoint getSet_word (fuel : nat) (x myV : Z) : result (list Z) :=
  match fuel with
  | O => Err OutOfFuel
  | S fuel =>
      if x =? 0 then Ok []
      else r ← getSet_word fuel (x >>> 1) (u64 (myV + 1));
           mret (if Z.odd x then myV :: r else r)
  end.

Fixpoint getSet_loop (ws : list Z) (v : Z) : result (list Z) :=
  match ws with
  | [] => Ok []
  | x :: ws => a ← getSet_word 65 x v; b ← getSet_loop ws (u64 (v + digits)); mret (a ++ b)
  end.

Definition getSet (v : t) : result (list Z) := getSet_loop (m_d v) 0.

Fixpoint set_all (v : t) (ps : list Z) : result t :=
  match ps with [] => Ok v | p :: ps => v ← set v p; set_all v ps end.
End Simple.

(** * The dynamic bit set *)

Section dynamic.
Context {S : Type} `{Backend S}.
Implicit Types (s t : S) (a b : uba).

Definition dbs_resize s a (size : Z) : S * uba * bool := uba_resize s a (size / 8).

Definition dbs_align s a (shift : Z) : S * uba * bool :=
  let newSize := m_len a >>> shift in
  let newSize := if negb (u64 (newSize <<< shift) &&& m_len a =? 0) then u64 (newSize + 1) else newSize in
  uba_resize s a (u64 (newSize <<< shift)).

Fixpoint smallestEntry_loop (n : nat) s a (i id : Z) : result Z :=
  match n with
  | O => Ok id
  | Datatypes.S n =>
      d ← uba_get Uint8 s a i;
      if negb (d =? 0) then m ← msb_template d; mret (u64 (id + m))
      else smallestEntry_loop n s a (i + 1) (u64 (id + 8))
  end.
Definition smallestEntry s a : result Z := smallestEntry_loop (Z.to_nat (m_len a)) s a 0 0.

Fixpoint largestEntry_loop (n : nat) s a (id : Z) : result Z :=
  match n with
  | O => Ok id
  | Datatypes.S n =>
      d ← uba_get Uint8 s a (Z.of_nat n);
      if negb (d =? 0) then m ← msb_template d; mret (u64 (id - u32 (8 - m)))
      else largestEntry_loop n s a (u64 (id - 8))
  end.
Definition largestEntry s a : result Z :=
  if m_len a =? 0 then Ok 0
  else largestEntry_loop (Z.to_nat (m_len a)) s a (u64 (m_len a * 8 - 1)).

Fixpoint upperBound_loop (n : nat) s a : result Z :=
  match n with
  | O => Ok 0
  | Datatypes.S n' =>
      d ← uba_get Uint8 s a (Z.of_nat n');
      if negb (d =? 0) then Ok (u64 (8 * Z.of_nat n)) else upperBound_loop n' s a
  end.
Definition upperBound s a : result Z :=
  if m_len a =? 0 then Ok 0 else upperBound_loop (Z.to_nat (m_len a)) s a.

Definition dbs_isSet s a (pos : Z) : result bool :=
  if pos / 8 <? m_len a then
    d ← uba_at s a (pos / 8); mret (negb (d &&& (1 <<< (pos mod 8)) =? 0))
  else Ok false.

Definition dbs_set s a (pos : Z) : result (S * uba) :=
  let offset := pos / 8 in
  let inByteOffset := pos mod 8 in
  let '(s, a, _) :=
    if m_len a <=? offset then growStorage s a (u64 (u64 (offset + 1) - m_len a)) else (s, a, true) in
  s ← modify s a offset (fun d => d ||| (1 <<< inByteOffset));
  mret (s, a).

Definition dbs_unset s a (pos : Z) : result S :=
  let offset := pos / 8 in
  if offset <? m_len a
  then modify s a offset (fun d => d &&& Z.lnot (1 <<< (pos mod 8)))
  else Ok s.

(** Four bytes at a time, then the rest; the sum is an [uint32_t]. *)
Fixpoint dbs_size_words (fuel : nat) s a (i res : Z) : result (Z * Z) :=
  match fuel with
  | O => Err OutOfFuel
  | Datatypes.S fuel =>
      if u64 (i + 4) <=? m_len a then
        w ← uba_get Uint32 s a i; dbs_size_words fuel s a (u64 (i + 4)) (u32 (res + popCount 32 w))
      else Ok (i, res)
  end.
Fixpoint dbs_size_bytes (n : nat) s a (i res : Z) : result Z :=
  match n with
  | O => Ok res
  | Datatypes.S n => d ← uba_at s a i; dbs_size_bytes n s a (i + 1) (u32 (res + popCount 8 d))
  end.
Definition dbs_size s a : result Z :=
  '(i, res) ← dbs_size_words (Datatypes.S (Z.to_nat (m_len a))) s a 0 0;
  dbs_size_bytes (Z.to_nat (m_len a - i)) s a i res.

(** [operator==]: bytes one of the sets lacks count as zero. *)
Fixpoint eq_common (n : nat) s a t b (i : Z) : result bool :=
  match n with
  | O => Ok true
  | Datatypes.S n =>
      x ← uba_at s a i; y ← uba_at t b i;
      if negb (x =? y) then Ok false else eq_common n s a t b (i + 1)
  end.
Fixpoint all_zero (n : nat) s a (i : Z) : result bool :=
  match n with
  | O => Ok true
  | Datatypes.S n =>
      x ← uba_at s a i; if negb (x =? 0) then Ok false else all_zero n s a (i + 1)
  end.
Definition dbs_eq s a t b : result bool :=
  let m := Z.min (m_len a) (m_len b) in
  c ← eq_common (Z.to_nat m) s a t b 0;
  if negb c then Ok false
  else
    z ← all_zero (Z.to_nat (m_len a - m)) s a m;
    if negb z then Ok false
    else all_zero (Z.to_nat (m_len b - Z.max m (m_len a))) t b (Z.max m (m_len a)).

(** [for(; i < s; ++i) d[i] = g(i)] *)
Fixpoint store_loop (n : nat) (g : S -> Z -> result Z) s a (i : Z) : result S :=
  match n with
  | O => Ok s
  | Datatypes.S n =>
      v ← g s i; s ← uba_set s a i (u8 v); store_loop n g s a (i + 1)
  end.
End dynamic.

Section set_operations.
Context {S : Type} `{Backend S}.
Implicit Types (s t : S) (a b : uba).

(** The two operands' bytes combined by [f]. *)
Definition both (f : Z -> Z -> Z) s a t b (i : Z) : result Z :=
  x ← uba_at s a i; y ← uba_at t b i; mret (f x y).

Definition dbs_and s a t b : result (Vec.t * uba) :=
  let m := Z.min (m_len a) (m_len b) in
  let '(d, da) := createCache m in
  d ← store_loop (Z.to_nat m) (fun _ => both Z.land s a t b) d da 0;
  mret (d, da).

(** The common bytes, then those only one operand has. *)
Definition dbs_merge (f : Z -> Z -> Z) s a t b : result (Vec.t * uba) :=
  let '(d, da) := createCache (Z.max (m_len a) (m_len b)) in
  let m := Z.min (m_len a) (m_len b) in
  d ← store_loop (Z.to_nat m) (fun _ => both f s a t b) d da 0;
  d ← store_loop (Z.to_nat (m_len a - m)) (fun _ => uba_at s a) d da m;
  let i := Z.max m (m_len a) in
  d ← store_loop (Z.to_nat (m_len b - i)) (fun _ => uba_at t b) d da i;
  mret (d, da).
Definition dbs_or := dbs_merge Z.lor.
Definition dbs_xor := dbs_merge Z.lxor.

(** Only as long as the shorter operand. *)
Definition dbs_minus s a t b : result (Vec.t * uba) :=
  let m := Z.min (m_len a) (m_len b) in
  let '(d, da) := createCache m in
  d ← store_loop (Z.to_nat m) (fun _ => both (fun x y => x &&& Z.lnot y) s a t b) d da 0;
  mret (d, da).

Definition dbs_not s a : result (Vec.t * uba) :=
  let '(d, da) := createCache (m_len a) in
  d ← store_loop (Z.to_nat (m_len a)) (fun _ i => x ← uba_at s a i; mret (Z.lnot x)) d da 0;
  mret (d, da).

(** [m_data[i] = f(m_data[i], other.m_data[i])] *)
Definition own (f : Z -> Z -> Z) a t b (s : S) (i : Z) : result Z := both f s a t b i.

Definition dbs_and_assign s a t b : result (S * uba) :=
  let '(s, a, _) := uba_resize s a (Z.min (m_len a) (m_len b)) in
  s ← store_loop (Z.to_nat (m_len a)) (own Z.land a t b) s a 0;
  mret (s, a).

Definition dbs_minus_assign s a t b : result (S * uba) :=
  s ← store_loop (Z.to_nat (Z.min (m_len a) (m_len b))) (own (fun x y => x &&& Z.lnot y) a t b) s a 0;
  mret (s, a).

(** [putData(pos, adapter)] with the source on another storage. *)
Fixpoint copy_foreign {T : Type} `{Backend T} (fuel : nat) s a (pos : Z) (t : T) (src : uba)
    (bufLen i : Z) : result S :=
  match fuel with
  | O => Err OutOfFuel
  | Datatypes.S fuel =>
      if i <? m_len src then
        let len := Z.min (m_len src - i) bufLen in
        buf ← uba_getData t src i len;
        s ← uba_putData s a (u64 (pos + i)) buf;
        copy_foreign fuel s a pos t src bufLen (i + len)
      else Ok s
  end.
Definition putData_foreign {T : Type} `{Backend T} (fuel : nat) s a (pos : Z) (t : T) (src : uba) : result S :=
  if m_len src =? 0 then Ok s
  else
    _ ← range_check a pos (m_len src);
    s ← (if bk_isContiguous (S := S)
         then d ← bk_getData t (m_offSet src) (m_len src); uba_putData s a pos d
         else Ok s);
    copy_foreign fuel s a pos t src (Z.min (m_len src) (4 * 1024 * 1024)) 0.

Definition dbs_merge_assign (f : Z -> Z -> Z) s a t b : result (S * uba) :=
  s ← store_loop (Z.to_nat (Z.min (m_len a) (m_len b))) (own f a t b) s a 0;
  if m_len a <? m_len b then
    let m := m_len a in
    let '(s, a, _) := uba_resize s a (m_len b) in
    s ← putData_foreign (Datatypes.S (Z.to_nat (m_len b))) s a m t (uba_from b m);
    mret (s, a)
  else mret (s, a).
Definition dbs_or_assign := dbs_merge_assign Z.lor.
Definition dbs_xor_assign := dbs_merge_assign Z.lxor.

(** ** The id iterator *)

Record iter := mkIter { m_off : Z; m_curId : Z; it_d : Z; m_remainingBits : Z }.

(** [for(; m_remainingBits && m_d;)]: stops at a set bit. *)
Fixpoint skip_bits (fuel : nat) (it : iter) : result (iter * bool) :=
  match fuel with
  | O => Err OutOfFuel
  | Datatypes.S fuel =>
      if negb (m_remainingBits it =? 0) && negb (it_d it =? 0) then
        if Z.odd (it_d it) then Ok (it, true)
        else skip_bits fuel (mkIter (m_off it) (u64 (m_curId it + 1)) (it_d it >>> 1) (u8 (m_remainingBits it - 1)))
      else Ok (it, false)
  end.

Fixpoint skip_bytes (n : nat) s a (it : iter) : result iter :=
  match n with
  | O => Ok it
  | Datatypes.S n =>
      d ← uba_at s a (m_off it);
      if negb (d =? 0) then Ok (mkIter (m_off it) (m_curId it) d (m_remainingBits it))
      else skip_bytes n s a (mkIter (u64 (m_off it + 1)) (u64 (m_curId it + 8)) d (m_remainingBits it))
  end.

Definition moveToNextSetBit s a (it : iter) : result iter :=
  '(it, found) ← skip_bits 9 it;
  if found : bool then Ok it
  else
    let it := mkIter (u64 (m_off it + 1)) (u64 (m_curId it + m_remainingBits it)) (it_d it) 8 in
    it ← skip_bytes (Z.to_nat (m_len a - m_off it)) s a it;
    if m_len a <=? m_off it then Ok (mkIter (m_off it) (m_curId it) (it_d it) 0)
    else
      '(it, found) ← skip_bits 9 it;
      if found : bool then Ok it else Err AssertionFailed.

Definition iter_new s a (offset : Z) : result iter :=
  if offset <? m_len a then
    d ← uba_at s a offset; moveToNextSetBit s a (mkIter offset (u64 (offset * 8)) d 8)
  else Ok (mkIter offset (u64 (offset * 8)) 0 0).

Definition iter_get (it : iter) : Z := m_curId it.

Definition iter_next s a (it : iter) : result iter :=
  if m_len a <=? m_off it then Ok it
  else moveToNextSetBit s a
         (mkIter (m_off it) (u64 (m_curId it + 1)) (it_d it >>> 1) (u8 (m_remainingBits it - 1))).

Definition iter_eq (x y : iter) : bool :=
  (m_off x =? m_off y) && (m_remainingBits x =? m_remainingBits y) &&
  (m_curId x =? m_curId y) && (it_d x =? it_d y).

(** [putInto]: the positions of the set bits in order. *)
Fixpoint putInto_loop (n : nat) s a (i id : Z) : result (list Z) :=
  match n with
  | O => Ok []
  | Datatypes.S n =>
      d ← uba_get Uint8 s a i;
      r ← Simple.getSet_word 9 d id;
      rs ← putInto_loop n s a (i + 1) (u64 (id + 8));
      mret (r ++ rs)
  end.
Definition putInto s a : result (list Z) := putInto_loop (Z.to_nat (m_len a)) s a 0 0.

(** [for(it = cbegin(); it != cend(); ++it)] *)
Fixpoint iterate (fuel : nat) s a (it fin : iter) : result (list Z) :=
  match fuel with
  | O => Err OutOfFuel
  | Datatypes.S fuel =>
      if iter_eq it fin then Ok []
      else it' ← iter_next s a it; r ← iterate fuel s a it' fin; mret (iter_get it :: r)
  end.
End set_operations.

(** * Bytes and bits of a set *)

Definition byte_at (l : list Z) (k : Z) : Z := default 0 (l !! Z.to_nat k).

Lemma byte_at_ok l k : bytes_ok l -> byte_ok (byte_at l k).
Proof.
  intros Hl. unfold byte_at. destruct (l !! Z.to_nat k) eqn:E; cbn; [|unfold fits; lia].
  exact (Forall_lookup_1 _ _ _ _ Hl E).
Qed.

Lemma byte_at_high l k : zlen l <= k -> byte_at l k = 0.
Proof. intros Hk. unfold byte_at. by rewrite lookup_ge_None_2 by lia. Qed.

Lemma byte_at_zeros n k : byte_at (replicate n 0) k = 0.
Proof.
  unfold byte_at. destruct (replicate n 0 !! Z.to_nat k) eqn:E; [|done].
  by apply lookup_replicate in E as [-> _].
Qed.

(** Bit [i] of the set is bit [i mod 8] of byte [i / 8]. *)
Lemma testbit_byte_at l i : bytes_ok l -> 0 <= i ->
  Z.testbit (le_val l) i = Z.testbit (byte_at l (i / 8)) (i mod 8).
Proof.
  intros Hl Hi. pose proof (Z.div_mod i 8 ltac:(lia)) as Hdm.
  pose proof (Z.mod_pos_bound i 8 ltac:(lia)). pose proof (Z.div_pos i 8 Hi ltac:(lia)).
  destruct (decide (i / 8 < zlen l)) as [Hlt|Hge].
  - destruct (lookup_lt_is_Some_2 l (Z.to_nat (i / 8))) as [b Hb]; [lia|].
    unfold byte_at. rewrite Hb. cbn [default option_rect from_option id].
    rewrite <- (testbit_le_val l _ b (i mod 8) Hl Hb) by lia. f_equal. lia.
  - rewrite byte_at_high by lia. rewrite Z.bits_0.
    apply (testbit_fits_high (8 * zlen l)); [by apply le_val_fits|]. lia.
Qed.

Lemma le_val_zeros n : le_val (replicate n 0) = 0.
Proof. induction n as [|n IH]; cbn; [done|]. by rewrite IH. Qed.

(** A list whose bytes are those of two others combined denotes the combined number. *)
Lemma le_val_combine F (g : bool -> bool -> bool) l l1 l2 :
  bytes_ok l -> bytes_ok l1 -> bytes_ok l2 ->
  (forall k, 0 <= k -> byte_at l k = F (byte_at l1 k) (byte_at l2 k)) ->
  (forall x y j, 0 <= j < 8 -> byte_ok x -> byte_ok y ->
     Z.testbit (F x y) j = g (Z.testbit x j) (Z.testbit y j)) ->
  forall i, 0 <= i ->
    Z.testbit (le_val l) i = g (Z.testbit (le_val l1) i) (Z.testbit (le_val l2) i).
Proof.
  intros Hl H1 H2 HF Hg i Hi. rewrite !testbit_byte_at by done.
  pose proof (Z.mod_pos_bound i 8 ltac:(lia)). pose proof (Z.div_pos i 8 Hi ltac:(lia)).
  rewrite HF by done. apply Hg; [done|by apply byte_at_ok|by apply byte_at_ok].
Qed.

Section loops.
Context {S : Type} {B : Backend S} {BO : BackendOk S}.

Lemma buf_at_byte (s : S) a l k : buf s a l -> 0 <= k < zlen l -> uba_at s a k = Ok (byte_at l k).
Proof.
  intros Hb Hk. pose proof (buf_fits _ _ _ Hb). rewrite (buf_at _ _ _ _ Hb) by lia.
  rewrite (proj2 (Z.ltb_ge _ _)) by lia. destruct (vget_lt l k Hk) as (x & -> & Hx).
  unfold byte_at. by rewrite Hx.
Qed.

Lemma buf_get8_byte (s : S) a l k : buf s a l -> 0 <= k < zlen l ->
  uba_get Uint8 s a k = Ok (byte_at l k).
Proof.
  intros Hb Hk. rewrite <- (buf_at_byte s a l k Hb Hk). unfold uba_get, uba_at. cbn [scalar_len].
  destruct (range_check a k 1); cbn [mbind result_bind]; [|done].
  rewrite bk_get_ok, bk_getUint8_ok. cbn [scalar_len scalar_unpack].
  by rewrite vget_vread, <- (reads_prefix_suffix 1 up_u8 _ _ ltac:(lia) up_u8_prefix).
Qed.

Lemma uba_set_insert (s : S) a l k b : buf s a l -> 0 <= k < zlen l -> byte_ok b ->
  exists s', uba_set s a k b = Ok s' /\ buf s' a (<[Z.to_nat k := b]> l) /\ same_outside a s s'.
Proof.
  intros Hb Hk Hbb.
  destruct (buf_put Uint8 s a l k b [u8 b] Hb) as (s' & Hput & Hb' & Hw);
    [lia|cbn [scalar_len]; lia|done|done|repeat constructor; apply wrap_fits; lia|].
  rewrite (wrap_small 8 b Hbb), splice_1 in Hb' by done.
  apply vwrite_outside in Hw; [|lia|rewrite (buf_len _ _ _ Hb); cbn [length]; lia].
  by exists s'.
Qed.

Lemma byte_at_insert l k b j : 0 <= k < zlen l -> 0 <= j ->
  byte_at (<[Z.to_nat k := b]> l) j = if j =? k then b else byte_at l j.
Proof.
  intros Hk Hj. unfold byte_at. destruct (Z.eqb_spec j k) as [->|Hne].
  - by rewrite list_lookup_insert_eq by lia.
  - by rewrite list_lookup_insert_ne by lia.
Qed.

(** The loop [for(; i < i+n; ++i) d[i] = g(i)]; [g] sees the bytes from [i] on
    as they were. *)
Lemma store_loop_ok n (g : S -> Z -> result Z) f (d : S) da l i :
  buf d da l -> 0 <= i -> i + Z.of_nat n <= zlen l ->
  (forall d' l' j, i <= j < i + Z.of_nat n -> buf d' da l' -> length l' = length l ->
     (forall k, j <= k -> byte_at l' k = byte_at l k) -> g d' j = Ok (f j)) ->
  exists d' l', store_loop n g d da i = Ok d' /\ buf d' da l' /\ length l' = length l /\
    same_outside da d d' /\
    forall k, 0 <= k -> byte_at l' k =
      if (i <=? k) && (k <? i + Z.of_nat n) then u8 (f k) else byte_at l k.
Proof.
  revert d l i. induction n as [|n IH]; intros d l i Hb Hi Hn Hg; cbn [store_loop].
  - exists d, l. split; [done|]. split; [done|]. split; [done|]. split; [apply same_outside_refl|].
    intros k Hk. destruct (Z.leb_spec i k), (Z.ltb_spec k (i + Z.of_nat 0)); cbn [andb]; done || lia.
  - rewrite (Hg d l i); [|lia|done|done|done]. rewrite bind_ok_l.
    destruct (uba_set_insert d da l i (u8 (f i)) Hb) as (d1 & -> & Hb1 & Ho1); [lia|apply wrap_fits; lia|].
    rewrite bind_ok_l.
    destruct (IH d1 (<[Z.to_nat i := u8 (f i)]> l) (i + 1) Hb1) as (d2 & l2 & Hloop & Hb2 & Hl2 & Ho2 & Hby);
      [lia|rewrite length_insert; lia| |].
    { intros d' l' j Hj Hb' Hl' Hk. apply (Hg d' l' j); [lia|done|by rewrite Hl', length_insert|].
      intros k Hjk. rewrite Hk, byte_at_insert by lia. by rewrite (proj2 (Z.eqb_neq k i)) by lia. }
    exists d2, l2. split; [done|]. split; [done|]. split; [by rewrite Hl2, length_insert|].
    split; [by eapply same_outside_trans|]. intros k Hk. rewrite Hby by done.
    rewrite byte_at_insert by lia.
    destruct (Z.leb_spec (i + 1) k), (Z.ltb_spec k (i + 1 + Z.of_nat n)), (Z.leb_spec i k),
      (Z.ltb_spec k (i + Z.of_nat (Datatypes.S n))), (Z.eqb_spec k i); cbn [andb]; subst; done || lia.
Qed.
End loops.

Lemma createCache_ok n : 0 <= n -> n + 1 < 2 ^ 64 ->
  exists d da, createCache n = (d, da) /\ buf d da (replicate (Z.to_nat (Z.max 1 n)) 0).
Proof.
  intros Hn Hf. unfold createCache. set (m := if n =? 0 then 1 else n).
  assert (m = Z.max 1 n) as -> by (unfold m; destruct (Z.eqb_spec n 0); lia).
  eexists _, _. split; [done|]. split.
  - split; cbn; unfold fits; try rewrite length_replicate; try lia.
    apply Forall_replicate. unfold fits. lia.
  - unfold view. cbn. rewrite drop_0. apply take_ge. rewrite length_replicate. lia.
Qed.

Lemma byte_at_le_val l k : bytes_ok l -> 0 <= k -> byte_at l k = wrap 8 (le_val l >>> (8 * k)).
Proof.
  intros Hl Hk. pose proof (byte_at_ok l k Hl) as Hb. apply Z.bits_inj'. intros i Hi.
  rewrite testbit_wrap, Z.shiftr_spec by lia. destruct (Z.ltb_spec i 8); cbn [andb].
  - rewrite testbit_byte_at by (done || lia). f_equal; [f_equal|].
    + replace (i + 8 * k) with (i + k * 8) by lia. rewrite Z.div_add, Z.div_small by lia. done.
    + replace (i + 8 * k) with (i + k * 8) by lia. rewrite Z.mod_add, Z.mod_small by lia. done.
  - by rewrite (testbit_fits_high 8 _ i Hb) by lia.
Qed.

Lemma le_val_ext l1 l2 : bytes_ok l1 -> bytes_ok l2 ->
  le_val l1 = le_val l2 <-> forall k, 0 <= k -> byte_at l1 k = byte_at l2 k.
Proof.
  intros H1 H2. split.
  - intros He k Hk. by rewrite !byte_at_le_val, He by done.
  - intros He. apply Z.bits_inj'. intros i Hi. rewrite !testbit_byte_at by done.
    by rewrite He by (apply Z.div_pos; lia).
Qed.

Section algebra.
Context {S : Type} {B : Backend S} {BO : BackendOk S}.

(** The set an adapter holds. *)
Definition denotes (s : S) (a : uba) (v : Z) : Prop := exists l, buf s a l /\ le_val l = v.

Section operands.
Context (s t : S) (a b : uba) (l1 l2 : list Z).
Context (Ha : buf s a l1) (Hb : buf t b l2).

Local Abbreviation n1 := (zlen l1).
Local Abbreviation n2 := (zlen l2).

Lemma both_ok f i : 0 <= i < Z.min n1 n2 -> both f s a t b i = Ok (f (byte_at l1 i) (byte_at l2 i)).
Proof using Ha Hb BO.
  intros Hi. unfold both. rewrite (buf_at_byte s a l1), (buf_at_byte t b l2) by (done || lia). done.
Qed.

Lemma eq_common_ok n i : 0 <= i -> i + Z.of_nat n <= Z.min n1 n2 ->
  exists r, eq_common n s a t b i = Ok r /\
    (r = true <-> forall k, i <= k < i + Z.of_nat n -> byte_at l1 k = byte_at l2 k).
Proof using Ha Hb BO.
  revert i. induction n as [|n IH]; intros i Hi Hn; cbn [eq_common].
  { exists true. split; [done|]. split; [lia|done]. }
  rewrite (buf_at_byte s a l1), (buf_at_byte t b l2) by (done || lia). rewrite !bind_ok_l.
  destruct (Z.eqb_spec (byte_at l1 i) (byte_at l2 i)) as [E|E]; cbn [negb].
  - destruct (IH (i + 1)) as (r & -> & Hr); [lia|lia|]. exists r. split; [done|]. rewrite Hr. split.
    + intros Hk k Hkn. destruct (decide (k = i)) as [->|]; [done|]. apply Hk. lia.
    + intros Hk k Hkn. apply Hk. lia.
  - exists false. split; [done|]. split; [done|]. intros Hk. exfalso. apply E, Hk. lia.
Qed.
End operands.

Lemma all_zero_ok (s : S) a l n i : buf s a l -> 0 <= i ->
  (0 < Z.of_nat n -> i + Z.of_nat n <= zlen l) ->
  exists r, all_zero n s a i = Ok r /\
    (r = true <-> forall k, i <= k < i + Z.of_nat n -> byte_at l k = 0).
Proof.
  intros Hb. revert i. induction n as [|n IH]; intros i Hi Hn; cbn [all_zero].
  { exists true. split; [done|]. split; [lia|done]. }
  rewrite (buf_at_byte s a l) by (done || lia). rewrite !bind_ok_l.
  destruct (Z.eqb_spec (byte_at l i) 0) as [E|E]; cbn [negb].
  - destruct (IH (i + 1)) as (r & -> & Hr); [lia|lia|]. exists r. split; [done|]. rewrite Hr. split.
    + intros Hk k Hkn. destruct (decide (k = i)) as [->|]; [done|]. apply Hk. lia.
    + intros Hk k Hkn. apply Hk. lia.
  - exists false. split; [done|]. split; [done|]. intros Hk. exfalso. apply E, Hk. lia.
Qed.

Lemma dbs_eq_ok (s t : S) a b l1 l2 : buf s a l1 -> buf t b l2 ->
  dbs_eq s a t b = Ok (bool_decide (le_val l1 = le_val l2)).
Proof.
  intros Ha Hb. unfold dbs_eq. rewrite (buf_len _ _ _ Ha), (buf_len _ _ _ Hb).
  pose proof (buf_bytes _ _ _ Ha) as H1. pose proof (buf_bytes _ _ _ Hb) as H2.
  set (m := Z.min (zlen l1) (zlen l2)).
  destruct (eq_common_ok s t a b l1 l2 Ha Hb (Z.to_nat m) 0) as (c & -> & Hc); [lia|lia|].
  rewrite bind_ok_l.
  destruct (all_zero_ok s a l1 (Z.to_nat (zlen l1 - m)) m Ha) as (z1 & -> & Hz1); [lia|lia|].
  destruct (all_zero_ok t b l2 (Z.to_nat (zlen l2 - Z.max m (zlen l1))) (Z.max m (zlen l1)) Hb)
    as (z2 & Hz2e & Hz2); [lia|lia|].
  assert (le_val l1 = le_val l2 <-> c = true /\ z1 = true /\ z2 = true) as Hiff.
  { rewrite le_val_ext, Hc, Hz1, Hz2 by done. split.
    - intros He. split; [intros; apply He; lia|]. split; intros k Hk.
      + rewrite He by lia. apply byte_at_high. lia.
      + rewrite <- He by lia. apply byte_at_high. lia.
    - intros (He1 & He2 & He3) k Hk.
      destruct (decide (k < m)); [apply He1; lia|].
      destruct (decide (k < zlen l1)).
      + rewrite He2 by lia. symmetry. apply byte_at_high. lia.
      + rewrite byte_at_high by lia. destruct (decide (k < zlen l2)).
        * symmetry. apply He3. lia.
        * symmetry. apply byte_at_high. lia. }
  destruct c; cbn [negb]; [|f_equal; symmetry; apply bool_decide_eq_false; naive_solver].
  rewrite bind_ok_l.
  destruct z1; cbn [negb]; [|f_equal; symmetry; apply bool_decide_eq_false; naive_solver].
  rewrite Hz2e. f_equal. destruct z2; symmetry.
  - apply bool_decide_eq_true. naive_solver.
  - apply bool_decide_eq_false. naive_solver.
Qed.
End algebra.

(** The number an operation on bytes gives when applied to two sets byte by byte. *)
Lemma le_val_bitwise op (g : bool -> bool -> bool) l l1 l2 :
  (forall x y i, 0 <= i -> Z.testbit (op x y) i = g (Z.testbit x i) (Z.testbit y i)) ->
  bytes_ok l -> bytes_ok l1 -> bytes_ok l2 ->
  (forall k, 0 <= k -> byte_at l k = op (byte_at l1 k) (byte_at l2 k)) ->
  le_val l = op (le_val l1) (le_val l2).
Proof.
  intros Hop Hl H1 H2 HF. apply Z.bits_inj'. intros i Hi. rewrite Hop by done.
  apply (le_val_combine op g l l1 l2); try done. intros. apply Hop. lia.
Qed.

Lemma u8_byte x : byte_ok x -> u8 x = x.
Proof. apply wrap_small. Qed.

Lemma byte_at_take l n k : 0 <= k -> byte_at (take (Z.to_nat n) l) k = if k <? n then byte_at l k else 0.
Proof.
  intros Hk. unfold byte_at. destruct (Z.ltb_spec k n).
  - by rewrite lookup_take_lt by lia.
  - by rewrite lookup_take_ge by lia.
Qed.

Lemma ldiff_byte x y : byte_ok x -> u8 (x &&& Z.lnot y) = Z.ldiff x y.
Proof.
  intros Hx. rewrite <- Z.ldiff_land. apply u8_byte.
  apply fits_testbit; [lia|apply Z.ldiff_nonneg; unfold fits in Hx; lia|]. intros i Hi. rewrite Z.ldiff_spec, (testbit_fits_high 8 x) by (done || lia). done.
Qed.

(** A fresh set filled by one loop over the first [m] bytes. *)
Lemma fresh_ok m g f : 0 <= m < 2 ^ 63 ->
  (forall d j, 0 <= j < m -> g d j = Ok (f j)) ->
  exists d da d' l, createCache m = (d, da) /\ store_loop (Z.to_nat m) g d da 0 = Ok d' /\
    buf d' da l /\ zlen l = Z.max 1 m /\
    forall k, 0 <= k -> byte_at l k = if k <? m then u8 (f k) else 0.
Proof.
  intros Hm Hg. destruct (createCache_ok m) as (d & da & Hc & Hd); [lia|lia|].
  destruct (store_loop_ok (Z.to_nat m) g f d da _ 0 Hd) as (d' & l & Hl & Hd' & Hlen & _ & Hby);
    [lia|rewrite length_replicate; lia|intros; apply Hg; lia|].
  exists d, da, d', l. split; [done|]. split; [done|]. split; [done|].
  split; [rewrite Hlen, length_replicate; lia|]. intros k Hk. rewrite Hby by done. rewrite byte_at_zeros, (proj2 (Z.leb_le 0 k)) by done.
  replace (0 + Z.of_nat (Z.to_nat m)) with m by lia. done.
Qed.

Section results.
Context {S : Type} {B : Backend S} {BO : BackendOk S}.
Context (s t : S) (a b : uba) (l1 l2 : list Z).
Context (Ha : buf s a l1) (Hb : buf t b l2).
Context (Hs1 : zlen l1 < 2 ^ 63) (Hs2 : zlen l2 < 2 ^ 63).

Lemma byte_op_ok f k : (forall x y, byte_ok x -> byte_ok y -> byte_ok (f x y)) ->
  u8 (f (byte_at l1 k) (byte_at l2 k)) = f (byte_at l1 k) (byte_at l2 k).
Proof using Ha Hb BO.
  intros Hf. apply u8_byte, Hf; apply byte_at_ok; by eapply buf_bytes.
Qed.

Lemma dbs_and_ok : exists d da, dbs_and s a t b = Ok (d, da) /\
  denotes d da (Z.land (le_val l1) (le_val l2)).
Proof using Ha Hb Hs1 Hs2 BO.
  unfold dbs_and. rewrite (buf_len _ _ _ Ha), (buf_len _ _ _ Hb).
  set (m := Z.min (zlen l1) (zlen l2)).
  destruct (fresh_ok m (fun _ => both Z.land s a t b) (fun k => byte_at l1 k &&& byte_at l2 k))
    as (d & da & d' & l & -> & -> & Hd & _ & Hby); [lia| |].
  { intros. apply (both_ok s t a b l1 l2 Ha Hb). lia. }
  rewrite bind_ok_l. exists d', da. split; [done|]. exists l. split; [done|].
  pose proof (buf_bytes _ _ _ Ha) as H1. pose proof (buf_bytes _ _ _ Hb) as H2.
  pose proof (buf_bytes _ _ _ Hd) as H3.
  apply (le_val_bitwise Z.land andb); try done; [intros; apply Z.land_spec|].
  intros k Hk. rewrite Hby by done. destruct (Z.ltb_spec k m).
  - apply (byte_op_ok Z.land). intros. by apply land_fits_l.
  - destruct (decide (zlen l1 <= k)); [by rewrite (byte_at_high l1) by lia|].
    by rewrite (byte_at_high l2), Z.land_0_r by lia.
Qed.

Lemma dbs_minus_ok : exists d da, dbs_minus s a t b = Ok (d, da) /\
  denotes d da (Z.ldiff (wrap (8 * Z.min (zlen l1) (zlen l2)) (le_val l1)) (le_val l2)).
Proof using Ha Hb Hs1 Hs2 BO.
  unfold dbs_minus. rewrite (buf_len _ _ _ Ha), (buf_len _ _ _ Hb).
  set (m := Z.min (zlen l1) (zlen l2)).
  destruct (fresh_ok m (fun _ => both (fun x y => x &&& Z.lnot y) s a t b)
    (fun k => byte_at l1 k &&& Z.lnot (byte_at l2 k))) as (d & da & d' & l & -> & -> & Hd & _ & Hby); [lia| |].
  { intros. apply (both_ok s t a b l1 l2 Ha Hb (fun x y => x &&& Z.lnot y)). lia. }
  rewrite bind_ok_l. exists d', da. split; [done|]. exists l. split; [done|].
  pose proof (buf_bytes _ _ _ Ha) as H1. pose proof (buf_bytes _ _ _ Hb) as H2.
  replace (8 * m) with (8 * Z.of_nat (Z.to_nat m)) by lia. rewrite <- le_val_take by done.
  apply (le_val_bitwise Z.ldiff (fun x y => x && negb y)); try done;
    [intros; apply Z.ldiff_spec|exact (buf_bytes _ _ _ Hd)|by apply Forall_take|].
  intros k Hk. rewrite Hby, byte_at_take by done. destruct (Z.ltb_spec k m).
  - by apply ldiff_byte, byte_at_ok.
  - by rewrite Z.ldiff_0_l.
Qed.

(** The loops of [|] and [^]: [op] has [0] as its unit. *)
Lemma dbs_merge_ok op (g : bool -> bool -> bool) :
  (forall x y i, 0 <= i -> Z.testbit (op x y) i = g (Z.testbit x i) (Z.testbit y i)) ->
  (forall x y, byte_ok x -> byte_ok y -> byte_ok (op x y)) ->
  (forall x, op x 0 = x) -> (forall x, op 0 x = x) ->
  exists d da, dbs_merge op s a t b = Ok (d, da) /\ denotes d da (op (le_val l1) (le_val l2)).
Proof using Ha Hb Hs1 Hs2 BO.
  intros Hop Hf H0r H0l. pose proof (buf_bytes _ _ _ Ha) as H1. pose proof (buf_bytes _ _ _ Hb) as H2.
  unfold dbs_merge. rewrite (buf_len _ _ _ Ha), (buf_len _ _ _ Hb).
  set (m := Z.min (zlen l1) (zlen l2)). set (i2 := Z.max m (zlen l1)).
  destruct (createCache_ok (Z.max (zlen l1) (zlen l2))) as (d & da & -> & Hd); [lia|lia|].
  destruct (store_loop_ok (Z.to_nat m) (fun _ => both op s a t b)
    (fun k => op (byte_at l1 k) (byte_at l2 k)) d da _ 0 Hd) as (d1 & r1 & -> & Hd1 & Hr1 & _ & By1);
    [lia|rewrite length_replicate; lia|intros; apply (both_ok s t a b l1 l2 Ha Hb op); lia|].
  rewrite length_replicate in Hr1. rewrite bind_ok_l.
  destruct (store_loop_ok (Z.to_nat (zlen l1 - m)) (fun _ => uba_at s a) (byte_at l1) d1 da r1 m Hd1)
    as (d2 & r2 & -> & Hd2 & Hr2 & _ & By2);
    [lia|lia|intros; apply (buf_at_byte s a l1 _ Ha); lia|].
  rewrite bind_ok_l.
  destruct (store_loop_ok (Z.to_nat (zlen l2 - i2)) (fun _ => uba_at t b) (byte_at l2) d2 da r2 i2 Hd2)
    as (d3 & r3 & -> & Hd3 & Hr3 & _ & By3);
    [lia|lia|intros; apply (buf_at_byte t b l2 _ Hb); lia|].
  rewrite bind_ok_l. exists d3, da. split; [done|]. exists r3. split; [done|].
  pose proof (buf_bytes _ _ _ Hd3) as H3. apply (le_val_bitwise op g); try done.
  intros k Hk. rewrite By3, By2, By1, byte_at_zeros by done.
  assert (u8 (byte_at l1 k) = byte_at l1 k) as E1 by (by apply u8_byte, byte_at_ok).
  assert (u8 (byte_at l2 k) = byte_at l2 k) as E2 by (by apply u8_byte, byte_at_ok).
  rewrite E1, E2, byte_op_ok by done.
  destruct (Z.ltb_spec k m).
  { rewrite (proj2 (Z.leb_gt i2 k)), (proj2 (Z.leb_gt m k)), (proj2 (Z.leb_le 0 k)) by lia. cbn [andb].
    by rewrite (proj2 (Z.ltb_lt k (0 + Z.of_nat (Z.to_nat m)))) by lia. }
  destruct (decide (k < zlen l1)).
  { rewrite (proj2 (Z.leb_gt i2 k)), (proj2 (Z.leb_le m k)) by lia. cbn [andb].
    rewrite (proj2 (Z.ltb_lt k (m + _))) by lia. by rewrite (byte_at_high l2), H0r by lia. }
  rewrite (byte_at_high l1), H0l by lia. rewrite (proj2 (Z.leb_le i2 k)) by lia. cbn [andb].
  destruct (Z.ltb_spec k (i2 + Z.of_nat (Z.to_nat (zlen l2 - i2)))); [done|].
  rewrite (proj2 (Z.ltb_ge k (m + Z.of_nat (Z.to_nat (zlen l1 - m))))) by lia. rewrite andb_false_r.
  rewrite (proj2 (Z.ltb_ge k (0 + Z.of_nat (Z.to_nat m)))) by lia. rewrite andb_false_r.
  by rewrite (byte_at_high l2) by lia.
Qed.

Lemma dbs_or_ok : exists d da, dbs_or s a t b = Ok (d, da) /\
  denotes d da (Z.lor (le_val l1) (le_val l2)).
Proof using Ha Hb Hs1 Hs2 BO.
  apply (dbs_merge_ok Z.lor orb); [intros; apply Z.lor_spec|intros; by apply lor_fits| |].
  - apply Z.lor_0_r.
  - apply Z.lor_0_l.
Qed.

Lemma dbs_xor_ok : exists d da, dbs_xor s a t b = Ok (d, da) /\
  denotes d da (Z.lxor (le_val l1) (le_val l2)).
Proof using Ha Hb Hs1 Hs2 BO.
  apply (dbs_merge_ok Z.lxor xorb); [intros; apply Z.lxor_spec|intros; by apply lxor_fits| |].
  - apply Z.lxor_0_r.
  - apply Z.lxor_0_l.
Qed.

(** The complement within the bytes of the set. *)
Lemma dbs_not_ok : exists d da, dbs_not s a = Ok (d, da) /\
  denotes d da (Z.ldiff (Z.ones (8 * zlen l1)) (le_val l1)).
Proof using Ha Hs1 BO.
  clear Hb Hs2 l2. unfold dbs_not. rewrite (buf_len _ _ _ Ha). set (m := zlen l1).
  destruct (fresh_ok m (fun _ i => x ← uba_at s a i; mret (Z.lnot x)) (fun k => Z.lnot (byte_at l1 k)))
    as (d & da & d' & l & -> & -> & Hd & _ & Hby); [lia| |].
  { intros. rewrite (buf_at_byte s a l1) by done. done. }
  rewrite bind_ok_l. exists d', da. split; [done|]. exists l. split; [done|].
  pose proof (buf_bytes _ _ _ Ha) as H1. pose proof (buf_bytes _ _ _ Hd) as H3.
  apply Z.bits_inj'. intros i Hi. rewrite Z.ldiff_spec, !testbit_byte_at by done.
  pose proof (Z.mod_pos_bound i 8 ltac:(lia)). pose proof (Z.div_mod i 8 ltac:(lia)).
  rewrite Hby by (apply Z.div_pos; lia). destruct (Z.ltb_spec (i / 8) m).
  - rewrite Z.ones_spec_low by lia. rewrite testbit_wrap, Z.lnot_spec by lia.
    by rewrite (proj2 (Z.ltb_lt _ _)) by lia.
  - rewrite Z.ones_spec_high by lia. by rewrite Z.bits_0.
Qed.
End results.

(** C35: the set operators, on sets of less than 2^63 bytes over any two
    storages: [&], [|] and [^] give sets that denote the intersection, union and
    symmetric difference of their operands; [~] the complement within the bytes of
    its operand; [==] decides whether the operands denote the same set, whatever
    their lengths; and [-] the difference, cut to the length of the shorter
    operand. *)
Theorem dbs_algebra {S : Type} {B : Backend S} {BO : BackendOk S} (s t : S) a b l1 l2 :
  buf s a l1 -> buf t b l2 -> zlen l1 < 2 ^ 63 -> zlen l2 < 2 ^ 63 ->
  let v1 := le_val l1 in
  let v2 := le_val l2 in
  (exists d da, dbs_and s a t b = Ok (d, da) /\ denotes d da (v1 &&& v2)) /\
  (exists d da, dbs_or s a t b = Ok (d, da) /\ denotes d da (v1 ||| v2)) /\
  (exists d da, dbs_xor s a t b = Ok (d, da) /\ denotes d da (v1 ^^^ v2)) /\
  (exists d da, dbs_minus s a t b = Ok (d, da) /\
     denotes d da (Z.ldiff (wrap (8 * Z.min (zlen l1) (zlen l2)) v1) v2)) /\
  (exists d da, dbs_not s a = Ok (d, da) /\ denotes d da (Z.ldiff (Z.ones (8 * zlen l1)) v1)) /\
  dbs_eq s a t b = Ok (bool_decide (v1 = v2)).
Proof.
  intros Ha Hb H1 H2 v1 v2.
  split; [by apply dbs_and_ok|]. split; [by apply dbs_or_ok|]. split; [by apply dbs_xor_ok|].
  split; [by apply dbs_minus_ok|]. split; [by apply dbs_not_ok|]. by apply dbs_eq_ok.
Qed.

Lemma dbs_algebra_witness :
  exists d da, dbs_xor (Vec.mk [5; 1]) (mkUba 0 2 0 0) (Vec.mk [0; 4]) (mkUba 1 1 0 0) = Ok (d, da) /\
    denotes d da 257.
Proof.
  destruct (dbs_algebra (Vec.mk [5; 1]) (Vec.mk [0; 4]) (mkUba 0 2 0 0) (mkUba 1 1 0 0) [5; 1] [4])
    as (_ & _ & H & _).
  - split; [uba_wf_tac|reflexivity].
  - split; [uba_wf_tac|reflexivity].
  - cbn. lia.
  - cbn. lia.
  - exact H.
Defined.

(** * Single positions *)

Lemma land_bit_testbit d j : 0 <= j -> negb (d &&& (1 <<< j) =? 0) = Z.testbit d j.
Proof.
  intros Hj. assert (d &&& (1 <<< j) = if Z.testbit d j then 2 ^ j else 0) as ->.
  { apply Z.bits_inj'. intros i Hi. rewrite Z.land_spec, Z.shiftl_1_l, Z.pow2_bits_eqb by done.
    destruct (Z.eqb_spec j i) as [<-|].
    - destruct (Z.testbit d j) eqn:E; [by rewrite Z.pow2_bits_true|by rewrite Z.bits_0].
    - destruct (Z.testbit d j); [|by rewrite Z.bits_0, andb_false_r].
      by rewrite Z.pow2_bits_false, andb_false_r by done. }
  destruct (Z.testbit d j); [|done]. pose proof (Z.pow_pos_nonneg 2 j ltac:(lia) Hj).
  by rewrite (proj2 (Z.eqb_neq _ _)) by lia.
Qed.

Lemma div8_bounds pos : 0 <= pos -> 0 <= pos / 8 /\ 0 <= pos mod 8 < 8 /\ pos = 8 * (pos / 8) + pos mod 8.
Proof.
  intros Hp. pose proof (Z.div_mod pos 8 ltac:(lia)). pose proof (Z.mod_pos_bound pos 8 ltac:(lia)).
  pose proof (Z.div_pos pos 8 Hp ltac:(lia)). done.
Qed.

(** One byte changed by an operation on its bits. *)
Lemma le_val_byte_change l k x v : bytes_ok l -> 0 <= k < zlen l -> byte_ok x ->
  (forall i, 0 <= i -> i / 8 = k -> Z.testbit x (i mod 8) = Z.testbit v i) ->
  (forall i, 0 <= i -> i / 8 <> k -> Z.testbit (le_val l) i = Z.testbit v i) ->
  le_val (<[Z.to_nat k := x]> l) = v.
Proof.
  intros Hl Hk Hx Hin Hout. apply Z.bits_inj'. intros i Hi.
  destruct (div8_bounds i Hi) as (? & ? & ?).
  rewrite testbit_byte_at by (done || by apply Forall_insert). rewrite byte_at_insert by done.
  destruct (Z.eqb_spec (i / 8) k); [by apply Hin|]. rewrite <- testbit_byte_at by done. by apply Hout.
Qed.

Section positions.
Context {S : Type} {B : Backend S} {BO : BackendOk S}.

Lemma modify_byte (s : S) a l k f : buf s a l -> 0 <= k < zlen l ->
  exists s', modify s a k f = Ok s' /\ buf s' a (<[Z.to_nat k := u8 (f (byte_at l k))]> l) /\
    same_outside a s s'.
Proof.
  intros Hb Hk. unfold modify. rewrite (buf_at_byte s a l) by done. rewrite bind_ok_l.
  apply uba_set_insert; [done|done|apply wrap_fits; lia].
Qed.

Lemma set_bit_ok (s : S) a l pos : buf s a l -> 0 <= pos < 8 * zlen l ->
  exists s' l', modify s a (pos / 8) (fun d => d ||| (1 <<< (pos mod 8))) = Ok s' /\ buf s' a l' /\
    length l' = length l /\ le_val l' = Z.setbit (le_val l) pos.
Proof.
  intros Hb Hp. destruct (div8_bounds pos) as (? & ? & Hpos); [lia|].
  destruct (modify_byte s a l (pos / 8) (fun d => d ||| (1 <<< (pos mod 8))) Hb) as (s' & -> & Hb' & _); [lia|].
  eexists s', _. split; [done|]. split; [done|]. split; [by rewrite length_insert|].
  pose proof (buf_bytes _ _ _ Hb) as Hl. apply le_val_byte_change; [done|lia|apply wrap_fits; lia| |].
  - intros i Hi Hk. destruct (div8_bounds i Hi) as (? & ? & ?).
    rewrite testbit_wrap, Z.lor_spec, Z.shiftl_1_l, Z.pow2_bits_eqb, Z.setbit_eqb by lia.
    rewrite (proj2 (Z.ltb_lt _ _)) by lia. cbn [andb]. rewrite testbit_byte_at, Hk, orb_comm by done.
    f_equal. destruct (Z.eqb_spec (pos mod 8) (i mod 8)), (Z.eqb_spec pos i); done || lia.
  - intros i Hi Hk. destruct (div8_bounds i Hi) as (? & ? & ?).
    rewrite Z.setbit_neq by (lia || congruence). done.
Qed.

Lemma dbs_isSet_ok (s : S) a l pos : buf s a l -> 0 <= pos ->
  dbs_isSet s a pos = Ok (Z.testbit (le_val l) pos).
Proof.
  intros Hb Hp. destruct (div8_bounds pos Hp) as (? & ? & Hpos). pose proof (buf_bytes _ _ _ Hb) as Hl.
  unfold dbs_isSet. rewrite (buf_len _ _ _ Hb), testbit_byte_at by done.
  destruct (Z.ltb_spec (pos / 8) (zlen l)).
  - rewrite (buf_at_byte s a l) by done. rewrite bind_ok_l. unfold mret, result_ret.
    by rewrite land_bit_testbit by lia.
  - by rewrite byte_at_high, Z.bits_0 by done.
Qed.

Lemma dbs_unset_ok (s : S) a l pos : buf s a l -> 0 <= pos ->
  exists s' l', dbs_unset s a pos = Ok s' /\ buf s' a l' /\ le_val l' = Z.clearbit (le_val l) pos.
Proof.
  intros Hb Hp. destruct (div8_bounds pos Hp) as (? & ? & Hpos). pose proof (buf_bytes _ _ _ Hb) as Hl.
  unfold dbs_unset. rewrite (buf_len _ _ _ Hb). destruct (Z.ltb_spec (pos / 8) (zlen l)).
  - destruct (modify_byte s a l (pos / 8) (fun d => d &&& Z.lnot (1 <<< (pos mod 8))) Hb)
      as (s' & -> & Hb' & _); [lia|].
    eexists s', _. split; [done|]. split; [done|].
    apply le_val_byte_change; [done|lia|apply wrap_fits; lia| |].
    + intros i Hi Hk. destruct (div8_bounds i Hi) as (? & ? & ?).
      rewrite testbit_wrap, Z.land_spec, Z.lnot_spec, Z.shiftl_1_l, Z.pow2_bits_eqb, Z.clearbit_eqb by lia.
      rewrite (proj2 (Z.ltb_lt _ _)) by lia. cbn [andb]. rewrite (testbit_byte_at l i), Hk by done.
      do 2 f_equal. destruct (Z.eqb_spec (pos mod 8) (i mod 8)), (Z.eqb_spec pos i); done || lia.
    + intros i Hi Hk. rewrite Z.clearbit_neq by (lia || congruence). done.
  - exists s, l. split; [done|]. split; [done|]. apply Z.bits_inj'. intros i Hi.
    rewrite Z.clearbit_eqb. destruct (Z.eqb_spec pos i) as [<-|]; [|by rewrite andb_true_r].
    rewrite testbit_byte_at, byte_at_high by done. by rewrite Z.bits_0.
Qed.
End positions.

(** Growing a window that ends at the end of its storage appends zeros. *)
Lemma growStorage_zeros {S : Type} {B : Backend S} {BO : BackendOk S} (s s' : S) a a' l ext n :
  buf s a l -> 0 <= n -> m_offSet a + zlen l + n < 2 ^ 64 -> m_offSet a + zlen l = zlen (bk_data s) ->
  growStorage s a n = (s', a', true) -> buf s' a' (l ++ ext) -> zlen ext = n ->
  ext = replicate (Z.to_nat n) 0.
Proof.
  intros Hb Hn Hf He Hg [Hwf' Hv'] Hext. pose proof (buf_len _ _ _ Hb) as Hl.
  pose proof (buf_fits _ _ _ Hb). destruct Hb as [[? ? ? ? ? ? ?] _].
  unfold growStorage in Hg. rewrite Hl, !(wrap_small 64) in Hg by (unfold fits; lia).
  rewrite (proj2 (Z.ltb_ge _ _)) in Hg by lia.
  destruct (bk_growStorage s (m_offSet a + zlen l + n)) as [s1 ok] eqn:Eg.
  apply bk_grow_ok in Eg as [-> Hd]; [|lia]. simplify_eq.
  transitivity (drop (length l) (l ++ ext)); [by rewrite drop_app_length|].
  rewrite <- Hv'. apply list_eq. intros i. rewrite lookup_drop, lookup_view by done. cbn.
  destruct (Z.ltb_spec (Z.of_nat (length l + i)) (zlen l + zlen ext)).
  - rewrite lookup_replicate_2 by lia. rewrite Hd, lookup_vresize, (proj2 (Z.ltb_lt _ _)) by lia.
    by rewrite lookup_ge_None_2 by lia.
  - symmetry. apply lookup_ge_None. rewrite length_replicate. lia.
Qed.

(** Positions of a dynamic bit set: [isSet] reads the bit, [unset] clears it (and
    never changes the length), [set] sets it, first growing the data to hold the
    position. What the data grows by is zero when the set's window ends at the end of
    its storage, so that exactly the position is added; otherwise it is whatever the
    storage has after the window. *)
Theorem dbs_positions {S : Type} {B : Backend S} {BO : BackendOk S} (s : S) a l pos :
  buf s a l -> fits 64 pos -> m_offSet a + pos / 8 + 1 < 2 ^ 64 ->
  dbs_isSet s a pos = Ok (Z.testbit (le_val l) pos) /\
  (exists s' l', dbs_unset s a pos = Ok s' /\ buf s' a l' /\ le_val l' = Z.clearbit (le_val l) pos) /\
  (exists s' a' l' ext, dbs_set s a pos = Ok (s', a') /\ buf s' a' l' /\
     zlen ext = Z.max 0 (pos / 8 + 1 - zlen l) /\
     le_val l' = Z.setbit (le_val (l ++ ext)) pos /\
     (m_offSet a + zlen l = zlen (bk_data s) -> le_val l' = Z.setbit (le_val l) pos)).
Proof.
  intros Hb Hp Hf. assert (0 <= pos) as H0 by (unfold fits in Hp; lia).
  destruct (div8_bounds pos H0) as (? & ? & ?).
  split; [by apply dbs_isSet_ok|]. split; [by apply dbs_unset_ok|].
  unfold dbs_set. rewrite (buf_len _ _ _ Hb). pose proof (buf_fits _ _ _ Hb).
  destruct (Z.leb_spec (zlen l) (pos / 8)).
  - rewrite (wrap_small 64 (pos / 8 + 1)) by (unfold fits; lia).
    rewrite (wrap_small 64 (pos / 8 + 1 - _)) by (unfold fits; lia).
    destruct (growStorage_ok s a l (pos / 8 + 1 - zlen l) Hb) as (s1 & ext & Eg & Hb1 & Hext); [lia|lia|].
    rewrite Eg. edestruct (set_bit_ok s1 _ (l ++ ext) pos Hb1) as (s2 & l2 & -> & Hb2 & _ & Hv);
      [rewrite length_app; lia|].
    rewrite bind_ok_l. eexists s2, _, l2, ext. split; [done|]. split; [done|]. split; [lia|].
    split; [done|]. intros He. rewrite Hv.
    erewrite (growStorage_zeros s s1 a _ l ext _ Hb _ _ He Eg Hb1 Hext).
    rewrite le_val_app, le_val_zeros, Z.shiftl_0_l, Z.lor_0_r by (by eapply buf_bytes). done.
    Unshelve. all: lia.
  - destruct (set_bit_ok s a l pos Hb) as (s2 & l2 & -> & Hb2 & _ & Hv); [lia|].
    rewrite bind_ok_l. eexists s2, a, l2, []. split; [done|]. split; [done|]. split; [cbn; lia|].
    by rewrite app_nil_r.
Qed.

Lemma dbs_positions_witness :
  exists s' a' l', dbs_set (Vec.mk [7; 1]) (mkUba 1 1 0 0) 20 = Ok (s', a') /\ buf s' a' l' /\
    le_val l' = 1 + 2 ^ 20.
Proof.
  destruct (dbs_positions (Vec.mk [7; 1]) (mkUba 1 1 0 0) [1] 20) as (_ & _ & s' & a' & l' & ext & H).
  - split; [uba_wf_tac|reflexivity].
  - unfold fits. lia.
  - reflexivity.
  - destruct H as (H1 & H2 & _ & _ & H3). exists s', a', l'. split; [exact H1|]. split; [exact H2|].
    rewrite H3; reflexivity.
Defined.

(** * Enumerating the positions *)

(** The set positions among the [n] from [lo] on, in order. *)
Definition set_positions (v lo n : Z) : list Z := filter (fun p => Z.testbit v p) (seqZ lo n).

Lemma set_positions_app v lo n m : 0 <= n -> 0 <= m ->
  set_positions v lo (n + m) = set_positions v lo n ++ set_positions v (lo + n) m.
Proof. intros. unfold set_positions. by rewrite seqZ_app, filter_app. Qed.

Lemma set_positions_none v lo n : (forall i, lo <= i < lo + n -> Z.testbit v i = false) ->
  set_positions v lo n = [].
Proof.
  intros Hn. unfold set_positions. apply elem_of_nil_inv. intros p Hp.
  apply list_elem_of_filter in Hp as [Hb Hp%elem_of_seqZ]. by rewrite Hn in Hb.
Qed.

Lemma set_positions_cons v p n : 0 < n -> Z.testbit v p = true ->
  set_positions v p n = p :: set_positions v (p + 1) (n - 1).
Proof.
  intros Hn Hb. unfold set_positions. rewrite seqZ_cons by done.
  rewrite filter_cons_True by (by rewrite Hb). by replace (Z.succ p) with (p + 1) by lia.
Qed.

Lemma set_positions_skip v p n : 0 < n -> Z.testbit v p = false ->
  set_positions v p n = set_positions v (p + 1) (n - 1).
Proof.
  intros Hn Hb. unfold set_positions. rewrite seqZ_cons by done.
  rewrite filter_cons_False by (by rewrite Hb; intros []). by replace (Z.succ p) with (p + 1) by lia.
Qed.

Lemma set_positions_length v lo n : zlen (set_positions v lo n) <= Z.max 0 n.
Proof.
  unfold set_positions. etrans; [apply inj_le, length_filter|]. rewrite length_seqZ. lia.
Qed.

(** One word [x] whose bits are the [n] bits of [V] from [v] on. *)
Lemma getSet_word_ok n x V v : fits (Z.of_nat n) x -> 0 <= v -> v + Z.of_nat n < 2 ^ 64 ->
  (forall j, 0 <= j < Z.of_nat n -> Z.testbit x j = Z.testbit V (v + j)) ->
  Simple.getSet_word (Datatypes.S n) x v = Ok (set_positions V v (Z.of_nat n)).
Proof.
  revert x v. induction n as [|n IH]; intros x v Hx Hv Hf HV; cbn [Simple.getSet_word].
  { replace x with 0 by (unfold fits in Hx; lia). done. }
  destruct (Z.eqb_spec x 0) as [->|Hne].
  { rewrite set_positions_none; [done|]. intros i Hi. replace i with (v + (i - v)) by lia.
    rewrite <- HV by lia. apply Z.bits_0. }
  assert (fits (Z.of_nat n) (x >>> 1)) as Hx'.
  { apply fits_testbit; [lia|apply Z.shiftr_nonneg; unfold fits in Hx; lia|].
    intros i Hi. rewrite Z.shiftr_spec by lia. apply (testbit_fits_high (Z.of_nat (Datatypes.S n))); [done|lia]. }
  assert (forall j, 0 <= j < Z.of_nat n -> Z.testbit (x >>> 1) j = Z.testbit V (v + 1 + j)) as HV'.
  { intros j Hj. rewrite Z.shiftr_spec, HV by lia. f_equal. lia. }
  rewrite (wrap_small 64 (v + 1)) by (unfold fits; lia).
  pose proof (IH (x >>> 1) (v + 1) Hx' ltac:(lia) ltac:(lia) HV') as Hr. cbn [Simple.getSet_word] in Hr.
  rewrite Hr, bind_ok_l. unfold mret, result_ret. f_equal.
  pose proof (HV 0 ltac:(lia)) as H0. rewrite Z.add_0_r, Z.bit0_odd in H0. rewrite H0.
  replace (Z.of_nat n) with (Z.of_nat (Datatypes.S n) - 1) by lia.
  destruct (Z.testbit V v) eqn:E; [by rewrite (set_positions_cons V v (Z.of_nat (Datatypes.S n))) by (done || lia)|].
  by rewrite (set_positions_skip V v (Z.of_nat (Datatypes.S n))) by (done || lia).
Qed.

Section enumerate.
Context {S : Type} {B : Backend S} {BO : BackendOk S}.
Context (s : S) (a : uba) (l : list Z) (Hb : buf s a l) (Hsz : 8 * zlen l < 2 ^ 64).

Lemma byte_bits k j : 0 <= k -> 0 <= j < 8 -> Z.testbit (byte_at l k) j = Z.testbit (le_val l) (8 * k + j).
Proof using Hb BO.
  intros Hk Hj. rewrite testbit_byte_at by (lia || exact (buf_bytes _ _ _ Hb)). f_equal; [f_equal|].
  - replace (8 * k + j) with (j + k * 8) by lia. rewrite Z.div_add, Z.div_small by lia. done.
  - replace (8 * k + j) with (j + k * 8) by lia. rewrite Z.mod_add, Z.mod_small by lia. done.
Qed.

Lemma putInto_loop_ok n i : 0 <= i -> i + Z.of_nat n <= zlen l ->
  putInto_loop n s a i (8 * i) = Ok (set_positions (le_val l) (8 * i) (8 * Z.of_nat n)).
Proof using Hb Hsz BO.
  revert i. induction n as [|n IH]; intros i Hi Hn; cbn [putInto_loop]; [done|].
  rewrite (buf_get8_byte s a l i Hb) by lia. rewrite bind_ok_l.
  assert (byte_ok (byte_at l i)) by (apply byte_at_ok; exact (buf_bytes _ _ _ Hb)).
  rewrite (getSet_word_ok 8 _ (le_val l)); [|done|lia|lia|intros j Hj; apply byte_bits; lia].
  rewrite bind_ok_l, (wrap_small 64) by (unfold fits; lia).
  replace (8 * i + 8) with (8 * (i + 1)) by lia. rewrite IH by lia. rewrite bind_ok_l.
  unfold mret, result_ret. replace (8 * Z.of_nat (Datatypes.S n)) with (8 + 8 * Z.of_nat n) by lia.
  rewrite set_positions_app by lia. by replace (8 * i + 8) with (8 * (i + 1)) by lia.
Qed.

(** The iterator when it stands before position [c] of byte [off]. *)
Definition it_at (off c : Z) : iter :=
  mkIter off c (byte_at l off >>> (c - 8 * off)) (8 * off + 8 - c).

(** The end iterator. *)
Definition it_end : iter := mkIter (zlen l) (8 * zlen l) 0 0.

Lemma it_at_odd off c : 0 <= off -> 8 * off <= c < 8 * off + 8 ->
  Z.odd (byte_at l off >>> (c - 8 * off)) = Z.testbit (le_val l) c.
Proof using Hb BO.
  intros Ho Hc. rewrite <- Z.bit0_odd, Z.shiftr_spec, byte_bits by lia. f_equal. lia.
Qed.

Lemma it_at_zero off c i : 0 <= off -> 8 * off <= c -> c <= i < 8 * off + 8 ->
  byte_at l off >>> (c - 8 * off) = 0 -> Z.testbit (le_val l) i = false.
Proof using Hb BO.
  intros Ho Hc Hi Hz. replace i with (8 * off + (i - 8 * off)) by lia. rewrite <- byte_bits by lia.
  replace (i - 8 * off) with (i - c + (c - 8 * off)) by lia. rewrite <- Z.shiftr_spec by lia.
  by rewrite Hz, Z.bits_0.
Qed.

Lemma it_at_step off c : 0 <= off < zlen l -> 8 * off <= c < 8 * off + 8 ->
  mkIter off (u64 (c + 1)) (byte_at l off >>> (c - 8 * off) >>> 1) (u8 (8 * off + 8 - c - 1)) =
  it_at off (c + 1).
Proof using Hsz.
  intros Ho Hc. unfold it_at.
  rewrite (wrap_small 64), (wrap_small 8), Z.shiftr_shiftr by (unfold fits; lia).
  f_equal; [f_equal|]; lia.
Qed.

(** The bit loop stops at the first set bit of the byte from [c] on, or has seen none. *)
Lemma skip_bits_ok fuel off c : 0 <= off -> off < zlen l -> 8 * off <= c <= 8 * off + 8 ->
  8 * off + 8 - c < Z.of_nat fuel ->
  exists c' found, skip_bits fuel (it_at off c) = Ok (it_at off c', found) /\
    c <= c' <= 8 * off + 8 /\ (forall i, c <= i < c' -> Z.testbit (le_val l) i = false) /\
    if found : bool then c' < 8 * off + 8 /\ Z.testbit (le_val l) c' = true
    else it_d (it_at off c') = 0 /\ forall i, c' <= i < 8 * off + 8 -> Z.testbit (le_val l) i = false.
Proof using Hb Hsz BO.
  revert c. induction fuel as [|fuel IH]; intros c Ho Hlt Hc Hf; [lia|]. cbn [skip_bits].
  cbn [it_at m_remainingBits it_d m_off m_curId].
  assert (byte_ok (byte_at l off)) as Hby by (apply byte_at_ok; exact (buf_bytes _ _ _ Hb)).
  destruct (Z.eqb_spec (8 * off + 8 - c) 0) as [He|He]; cbn [negb andb].
  { exists c, false. split; [done|]. split; [lia|]. split; [lia|]. split; [|lia].
    cbn. replace (c - 8 * off) with 8 by lia. rewrite Z.shiftr_div_pow2 by lia.
    apply Z.div_small. unfold fits in Hby. lia. }
  destruct (Z.eqb_spec (byte_at l off >>> (c - 8 * off)) 0) as [Hz|Hz]; cbn [negb].
  { exists c, false. split; [done|]. split; [lia|]. split; [lia|]. split; [done|].
    intros i Hi. eapply (it_at_zero off c); done || lia. }
  rewrite it_at_odd by lia. destruct (Z.testbit (le_val l) c) eqn:E.
  { exists c, true. split; [done|]. split; [lia|]. split; [lia|]. split; [lia|done]. }
  rewrite it_at_step by lia.
  destruct (IH (c + 1)) as (c' & found & -> & Hc' & Hn & Hr); [done|done|lia|lia|].
  exists c', found. split; [done|]. split; [lia|]. split; [|done].
  intros i Hi. destruct (decide (i = c)) as [->|]; [done|]. apply Hn. lia.
Qed.

(** The byte loop stops at the first nonzero byte from [off] on, or at the end. *)
Lemma skip_bytes_ok n off : 0 <= off -> off + Z.of_nat n = zlen l -> forall d,
  exists off', off <= off' <= zlen l /\
    (forall i, 8 * off <= i < 8 * off' -> Z.testbit (le_val l) i = false) /\
    skip_bytes n s a (mkIter off (8 * off) d 8) =
      Ok (if off' <? zlen l then it_at off' (8 * off')
          else mkIter (zlen l) (8 * zlen l) (if (n =? 0)%nat then d else 0) 8) /\
    (off' < zlen l -> byte_at l off' <> 0).
Proof using Hb Hsz BO.
  revert off. induction n as [|n IH]; intros off Ho Hn d; cbn [skip_bytes].
  { exists off. split; [lia|]. split; [lia|]. replace (zlen l) with off by lia.
    rewrite Z.ltb_irrefl. split; [done|lia]. }
  cbn [m_off m_curId m_remainingBits]. rewrite (buf_at_byte s a l off Hb) by lia. rewrite bind_ok_l.
  destruct (Z.eqb_spec (byte_at l off) 0) as [Hz|Hz]; cbn [negb].
  - rewrite !(wrap_small 64) by (unfold fits; lia).
    replace (8 * off + 8) with (8 * (off + 1)) by lia. rewrite Hz.
    destruct (IH (off + 1) ltac:(lia) ltac:(lia) 0) as (off' & Ho' & Hnone & -> & Hne).
    exists off'. split; [lia|]. split.
    { intros i Hi. destruct (decide (i < 8 * (off + 1))); [|apply Hnone; lia].
      replace i with (8 * off + (i - 8 * off)) by lia. rewrite <- byte_bits by lia.
      by rewrite Hz, Z.bits_0. }
    split; [|done]. cbn [Nat.eqb]. by destruct (n =? 0)%nat.
  - exists off. split; [lia|]. split; [lia|]. rewrite (proj2 (Z.ltb_lt _ _)) by lia.
    split; [|done]. unfold it_at. rewrite Z.sub_diag, Z.shiftr_0_r.
    by replace (8 * off + 8 - 8 * off) with 8 by lia.
Qed.

Lemma move_next_ok off c : 0 <= off < zlen l -> 8 * off <= c <= 8 * off + 8 ->
  exists p, c <= p <= 8 * zlen l /\ (forall i, c <= i < p -> Z.testbit (le_val l) i = false) /\
    moveToNextSetBit s a (it_at off c) = Ok (if p <? 8 * zlen l then it_at (p / 8) p else it_end) /\
    (p < 8 * zlen l -> Z.testbit (le_val l) p = true).
Proof using Hb Hsz BO.
  intros Ho Hc. unfold moveToNextSetBit.
  destruct (skip_bits_ok 9 off c) as (c1 & f1 & -> & Hc1 & Hn1 & H1); [lia|lia|lia|lia|].
  rewrite bind_ok_l. destruct f1.
  { exists c1. destruct H1 as [H1 H1b]. split; [lia|]. split; [done|].
    rewrite (proj2 (Z.ltb_lt _ _)) by lia. split; [|done].
    replace (c1 / 8) with off; [done|]. replace c1 with (c1 - 8 * off + off * 8) by lia.
    rewrite Z.div_add, Z.div_small by lia. lia. }
  destruct H1 as [Hd Hn2]. cbn [it_at m_off m_curId m_remainingBits it_d] in *.
  rewrite Hd, (buf_len _ _ _ Hb), !(wrap_small 64) by (unfold fits; lia).
  replace (c1 + (8 * off + 8 - c1)) with (8 * (off + 1)) by lia.
  destruct (skip_bytes_ok (Z.to_nat (zlen l - (off + 1))) (off + 1) ltac:(lia) ltac:(lia) 0)
    as (off2 & Ho2 & Hn3 & Hsk & Hne).
  cbn [m_off]. rewrite Hsk, bind_ok_l.
  assert (forall i, c <= i < 8 * off2 -> Z.testbit (le_val l) i = false) as Hnone.
  { intros i Hi. destruct (decide (i < c1)); [apply Hn1; lia|].
    destruct (decide (i < 8 * off + 8)); [apply Hn2; lia|apply Hn3; lia]. }
  destruct (Z.ltb_spec off2 (zlen l)).
  - cbn [it_at m_off]. rewrite (proj2 (Z.leb_gt (zlen l) off2)) by done.
    destruct (skip_bits_ok 9 off2 (8 * off2)) as (p & f2 & Hs2 & Hp & Hn4 & H2); [lia|lia|lia|lia|].
    fold (it_at off2 (8 * off2)). rewrite Hs2, bind_ok_l. destruct f2.
    + destruct H2 as [H2 H2b]. exists p. split; [lia|]. split.
      { intros i Hi. destruct (decide (i < 8 * off2)); [apply Hnone; lia|apply Hn4; lia]. }
      rewrite (proj2 (Z.ltb_lt _ _)) by lia. split; [|done].
      replace (p / 8) with off2; [done|]. replace p with (p - 8 * off2 + off2 * 8) by lia.
      rewrite Z.div_add, Z.div_small by lia. lia.
    + exfalso. destruct H2 as [_ H2]. apply Hne; [done|]. apply Z.bits_inj'. intros j Hj.
      rewrite Z.bits_0. destruct (decide (j < 8)).
      * rewrite byte_bits by lia. destruct (decide (8 * off2 + j < p)); [apply Hn4|apply H2]; lia.
      * apply (testbit_fits_high 8); [|lia]. apply byte_at_ok. exact (buf_bytes _ _ _ Hb).
  - cbn [m_off]. rewrite Z.leb_refl. exists (8 * zlen l). split; [lia|].
    split; [intros; apply Hnone; lia|]. rewrite Z.ltb_irrefl. split; [|lia].
    cbn. unfold it_end. by destruct (_ =? 0)%nat.
Qed.

(** The iterator before the set position [p], or at the end. *)
Definition it_pos (p : Z) : iter := if p <? 8 * zlen l then it_at (p / 8) p else it_end.

Lemma it_pos_eq p : 0 <= p <= 8 * zlen l -> iter_eq (it_pos p) it_end = (p =? 8 * zlen l).
Proof using.
  intros Hp. unfold it_pos. destruct (Z.ltb_spec p (8 * zlen l)).
  - rewrite (proj2 (Z.eqb_neq p _)) by lia. unfold iter_eq. cbn.
    rewrite (proj2 (Z.eqb_neq p _)) by lia. by rewrite andb_false_r.
  - rewrite (proj2 (Z.eqb_eq p _)) by lia. unfold iter_eq. by rewrite !Z.eqb_refl.
Qed.

Lemma set_positions_from c p : c <= p <= 8 * zlen l ->
  (forall i, c <= i < p -> Z.testbit (le_val l) i = false) ->
  set_positions (le_val l) c (8 * zlen l - c) = set_positions (le_val l) p (8 * zlen l - p).
Proof using.
  intros Hp Hn. replace (8 * zlen l - c) with (p - c + (8 * zlen l - p)) by lia.
  rewrite set_positions_app, set_positions_none by (lia || intros; apply Hn; lia).
  by replace (c + (p - c)) with p by lia.
Qed.

Lemma iter_new_begin : exists p, 0 <= p <= 8 * zlen l /\ iter_new s a 0 = Ok (it_pos p) /\
  (forall i, 0 <= i < p -> Z.testbit (le_val l) i = false) /\
  (p < 8 * zlen l -> Z.testbit (le_val l) p = true).
Proof using Hb Hsz BO.
  unfold iter_new. rewrite (buf_len _ _ _ Hb). destruct (Z.ltb_spec 0 (zlen l)).
  - rewrite (buf_at_byte s a l 0 Hb) by lia. rewrite bind_ok_l.
    destruct (move_next_ok 0 0 ltac:(lia) ltac:(lia)) as (p & Hp & Hn & Hm & Ht).
    exists p. split; [lia|]. split; [|done]. unfold it_pos. rewrite <- Hm. unfold it_at.
    by rewrite Z.shiftr_0_r.
  - exists 0. split; [lia|]. split; [|split; lia]. unfold it_pos.
    rewrite (proj2 (Z.ltb_ge 0 (8 * zlen l))) by lia. unfold it_end. by replace (zlen l) with 0 by lia.
Qed.

Lemma iter_new_end : iter_new s a (m_len a) = Ok it_end.
Proof using Hb Hsz.
  unfold iter_new. rewrite (buf_len _ _ _ Hb), Z.ltb_irrefl, (wrap_small 64) by (unfold fits; lia).
  unfold it_end. do 2 f_equal. lia.
Qed.

Lemma iterate_ok fuel p : 0 <= p <= 8 * zlen l -> 8 * zlen l - p < Z.of_nat fuel ->
  (p < 8 * zlen l -> Z.testbit (le_val l) p = true) ->
  iterate fuel s a (it_pos p) it_end = Ok (set_positions (le_val l) p (8 * zlen l - p)).
Proof using Hb Hsz BO.
  revert p. induction fuel as [|fuel IH]; intros p Hp Hf Ht; [lia|]. cbn [iterate].
  rewrite it_pos_eq by done. destruct (Z.eqb_spec p (8 * zlen l)) as [->|Hne].
  { by rewrite Z.sub_diag. }
  destruct (div8_bounds p) as (? & ? & ?); [lia|].
  unfold it_pos at 1 2. rewrite (proj2 (Z.ltb_lt p _)) by lia. unfold iter_next.
  rewrite (buf_len _ _ _ Hb). cbn [it_at m_off m_curId it_d m_remainingBits].
  rewrite (proj2 (Z.leb_gt _ _)) by lia. rewrite it_at_step by lia.
  destruct (move_next_ok (p / 8) (p + 1)) as (q & Hq & Hn & Hm & Hqt); [lia|lia|].
  rewrite Hm, bind_ok_l. fold (it_pos q). rewrite IH by (done || lia). rewrite bind_ok_l.
  unfold mret, result_ret. rewrite (set_positions_cons _ p) by (lia || apply Ht; lia). cbn [iter_get m_curId].
  rewrite <- (set_positions_from (p + 1) q) by (lia || done).
  by replace (8 * zlen l - p - 1) with (8 * zlen l - (p + 1)) by lia.
Qed.
End enumerate.

(** Both ways to list a dynamic bit set give exactly its set positions in increasing
    order: [putInto], and iterating from [cbegin] to [cend]; the iteration ends, after at
    most as many steps as the set has bits. *)
Theorem dbs_enumerates {S : Type} {B : Backend S} {BO : BackendOk S} (s : S) a l :
  buf s a l -> 8 * zlen l < 2 ^ 64 ->
  let positions := set_positions (le_val l) 0 (8 * zlen l) in
  putInto s a = Ok positions /\
  exists b e, iter_new s a 0 = Ok b /\ iter_new s a (m_len a) = Ok e /\
    forall fuel, 8 * zlen l < Z.of_nat fuel -> iterate fuel s a b e = Ok positions.
Proof.
  intros Hb Hsz positions. split.
  - unfold putInto. rewrite (buf_len _ _ _ Hb). rewrite (putInto_loop_ok s a l Hb Hsz _ 0) by lia.
    subst positions. do 2 f_equal. lia.
  - destruct (iter_new_begin s a l Hb Hsz) as (p & Hp & Hi & Hn & Ht).
    exists (it_pos l p), (it_end l). split; [done|]. split; [by apply iter_new_end|].
    intros fuel Hf. rewrite (iterate_ok s a l Hb Hsz) by (done || lia). f_equal.
    subst positions. rewrite <- (set_positions_from l 0 p) by (lia || done). by rewrite Z.sub_0_r.
Qed.

Lemma dbs_enumerates_witness :
  putInto (Vec.mk [5; 0; 128]) (mkUba 0 3 0 0) = Ok [0; 2; 23].
Proof.
  refine (proj1 (dbs_enumerates (Vec.mk [5; 0; 128]) (mkUba 0 3 0 0) [5; 0; 128] _ _)).
  - split; [uba_wf_tac|reflexivity].
  - cbn. lia.
Defined.

(** * Counting and bounds *)

Lemma popcount_positions n x V v :
  (forall j, 0 <= j < Z.of_nat n -> Z.testbit x j = Z.testbit V (v + j)) ->
  popcount_bits n x = zlen (set_positions V v (Z.of_nat n)).
Proof.
  induction n as [|n IH]; intros HV; cbn [popcount_bits]; [done|].
  rewrite IH by (intros; apply HV; lia). rewrite HV by lia.
  replace (Z.of_nat (Datatypes.S n)) with (Z.of_nat n + 1) by lia.
  rewrite set_positions_app, length_app by lia.
  destruct (Z.testbit V (v + Z.of_nat n)) eqn:E.
  - rewrite (set_positions_cons V (v + Z.of_nat n)), (set_positions_none V _ (1 - 1)) by (done || lia).
    cbn. lia.
  - rewrite (set_positions_skip V (v + Z.of_nat n)), (set_positions_none V _ (1 - 1)) by (done || lia).
    cbn. lia.
Qed.

Section counting.
Context {S : Type} {B : Backend S} {BO : BackendOk S}.
Context (s : S) (a : uba) (l : list Z) (Hb : buf s a l).

Lemma get32_bits i : 0 <= i -> i + 4 <= zlen l -> exists w, uba_get Uint32 s a i = Ok w /\
  forall j, 0 <= j < 32 -> Z.testbit w j = Z.testbit (le_val l) (8 * i + j).
Proof using Hb BO.
  intros Hi Hn. pose proof (buf_fits _ _ _ Hb). pose proof (buf_bytes _ _ _ Hb) as Hl.
  rewrite (buf_get Uint32 _ _ _ i Hb) by (cbn [scalar_len]; lia). cbn [scalar_len].
  rewrite (proj2 (Z.ltb_ge _ _)) by lia.
  destruct (vread l i 4) as [bs|e] eqn:E.
  2: { unfold vread in E. by rewrite (proj2 (in_range_spec l i 4)) in E by lia. }
  rewrite bind_ok_l. cbn [scalar_unpack]. unfold up_u32.
  pose proof (proj1 (vread_ok _ _ _ _) E) as (_ & _ & _ & Hbs).
  exists (le_val bs). split.
  { rewrite <- (app_nil_r bs) at 1. apply up_le_app. rewrite Hbs, length_take, length_drop. lia. }
  intros j Hj. rewrite (le_val_block l i 4 bs Hl E), testbit_wrap, Z.shiftr_spec by lia.
  rewrite (proj2 (Z.ltb_lt _ _)) by lia. cbn [andb]. f_equal. lia.
Qed.


(** The number of set positions below [8 * i]. *)
Local Abbreviation count i := (zlen (set_positions (le_val l) 0 (8 * i))).

Lemma count_step i n c : 0 <= i -> 0 <= n ->
  (forall j, 0 <= j < 8 * n -> Z.testbit c j = Z.testbit (le_val l) (8 * i + j)) ->
  u32 (u32 (count i) + popCount (Z.to_nat (8 * n)) c) = u32 (count (i + n)).
Proof using.
  intros Hi Hn Hc. unfold popCount. rewrite (popcount_positions _ c (le_val l) (8 * i)).
  2: { intros j Hj. apply Hc. lia. }
  rewrite wrap_add_l by lia. rewrite Z2Nat.id by lia. f_equal.
  replace (8 * (i + n)) with (8 * i + 8 * n) by lia.
  rewrite set_positions_app, length_app, Z.add_0_l by lia. lia.
Qed.

Lemma size_words_ok fuel i : 0 <= i <= zlen l -> zlen l - i < Z.of_nat fuel -> 8 * zlen l < 2 ^ 64 ->
  exists i', dbs_size_words fuel s a i (u32 (count i)) = Ok (i', u32 (count i')) /\ i <= i' <= zlen l.
Proof using Hb BO.
  revert i. induction fuel as [|fuel IH]; intros i Hi Hf Hs; [lia|]. cbn [dbs_size_words].
  rewrite (buf_len _ _ _ Hb), (wrap_small 64) by (unfold fits; lia).
  destruct (Z.leb_spec (i + 4) (zlen l)); [|exists i; split; [done|lia]].
  destruct (get32_bits i) as (w & -> & Hw); [lia|lia|]. rewrite bind_ok_l.
  change 32%nat with (Z.to_nat (8 * 4)). rewrite count_step by (lia || intros; apply Hw; lia).
  destruct (IH (i + 4)) as (i' & -> & Hi'); [lia|lia|done|]. exists i'. split; [done|lia].
Qed.

Lemma size_bytes_ok n i : 0 <= i -> i + Z.of_nat n <= zlen l ->
  dbs_size_bytes n s a i (u32 (count i)) = Ok (u32 (count (i + Z.of_nat n))).
Proof using Hb BO.
  revert i. induction n as [|n IH]; intros i Hi Hn; cbn [dbs_size_bytes].
  { by rewrite Z.add_0_r. }
  rewrite (buf_at_byte s a l i Hb) by lia. rewrite bind_ok_l.
  change 8%nat with (Z.to_nat (8 * 1)). rewrite count_step.
  - rewrite IH by lia. by replace (i + 1 + Z.of_nat n) with (i + Z.of_nat (Datatypes.S n)) by lia.
  - done.
  - lia.
  - intros j Hj. rewrite testbit_byte_at by (lia || exact (buf_bytes _ _ _ Hb)).
    replace (8 * i + j) with (j + i * 8) by lia.
    rewrite Z.div_add, Z.mod_add, Z.div_small, Z.mod_small by lia. done.
Qed.

Lemma dbs_size_ok : 8 * zlen l < 2 ^ 64 -> dbs_size s a = Ok (u32 (count (zlen l))).
Proof using Hb BO.
  intros Hs. unfold dbs_size. rewrite (buf_len _ _ _ Hb).
  destruct (size_words_ok (Datatypes.S (Z.to_nat (zlen l))) 0) as (i' & Hw & Hi'); [lia|lia|done|].
  change (u32 (count 0)) with 0 in Hw. rewrite Hw, bind_ok_l, size_bytes_ok by lia.
  do 5 f_equal. lia.
Qed.

Lemma byte_log2 k : byte_at l k <> 0 -> 0 < byte_at l k /\ 0 <= Z.log2 (byte_at l k) < 8.
Proof using Hb BO.
  intros Hne. pose proof (byte_at_ok l k (buf_bytes _ _ _ Hb)) as Hbk. unfold fits in Hbk.
  assert (0 < byte_at l k) by lia. split; [done|]. split; [apply Z.log2_nonneg|].
  apply Z.log2_lt_pow2; lia.
Qed.

(** The greatest position of a set is in its last byte that is not zero. *)
Lemma log2_top k : 0 <= k -> byte_at l k <> 0 -> (forall j, k < j -> byte_at l j = 0) ->
  Z.log2 (le_val l) = 8 * k + Z.log2 (byte_at l k) /\ 0 <= Z.log2 (byte_at l k) < 8.
Proof using Hb BO.
  intros Hk Hne Hz. pose proof (buf_bytes _ _ _ Hb) as Hl. destruct (byte_log2 k Hne).
  split; [|done]. apply Z.log2_bits_unique.
  - rewrite <- (byte_bits s a l Hb k) by lia. by apply Z.bit_log2.
  - intros i Hi. destruct (div8_bounds i) as (? & ? & ?); [lia|]. rewrite testbit_byte_at by (done || lia).
    destruct (decide (i / 8 = k)) as [Ek|].
    + rewrite Ek. apply Z.bits_above_log2; lia.
    + rewrite Hz by lia. apply Z.bits_0.
Qed.

Lemma byte_msb k : 0 <= k -> byte_at l k <> 0 -> msb_template (byte_at l k) = Ok (Z.log2 (byte_at l k)).
Proof using Hb BO.
  intros Hk Hne. destruct (byte_log2 k Hne).
  unfold msb_template. by rewrite msb_loop_log2 by lia.
Qed.

Lemma upperBound_loop_ok n : Z.of_nat n <= zlen l -> 8 * zlen l < 2 ^ 64 ->
  (forall j, Z.of_nat n <= j -> byte_at l j = 0) ->
  upperBound_loop n s a = Ok (if le_val l =? 0 then 0 else 8 * (Z.log2 (le_val l) / 8 + 1)).
Proof using Hb BO.
  induction n as [|n IH]; intros Hn Hs Hz; cbn [upperBound_loop].
  { replace (le_val l) with 0; [done|]. symmetry. apply Z.bits_inj'. intros i Hi.
    rewrite testbit_byte_at by (done || exact (buf_bytes _ _ _ Hb)).
    rewrite Hz, !Z.bits_0 by (apply Z.div_pos; lia). done. }
  rewrite (buf_get8_byte s a l _ Hb) by lia. rewrite bind_ok_l.
  destruct (Z.eqb_spec (byte_at l (Z.of_nat n)) 0) as [E|E]; cbn [negb].
  - apply IH; [lia|done|]. intros j Hj. destruct (decide (j = Z.of_nat n)) as [->|]; [done|]. apply Hz. lia.
  - destruct (log2_top (Z.of_nat n)) as [-> Hlog]; [lia|done|intros; apply Hz; lia|].
    destruct (Z.eqb_spec (le_val l) 0) as [E0|_].
    { exfalso. apply E. rewrite byte_at_le_val, E0, Z.shiftr_0_l by (lia || exact (buf_bytes _ _ _ Hb)). done. }
    rewrite (wrap_small 64) by (unfold fits; lia). f_equal.
    replace (8 * Z.of_nat n + Z.log2 (byte_at l (Z.of_nat n))) with
      (Z.log2 (byte_at l (Z.of_nat n)) + Z.of_nat n * 8) by lia.
    rewrite Z.div_add, Z.div_small by lia. lia.
Qed.

Lemma largestEntry_loop_ok n : Z.of_nat n <= zlen l -> le_val l <> 0 ->
  (forall j, Z.of_nat n <= j -> byte_at l j = 0) ->
  largestEntry_loop n s a (u64 (Z.of_nat n * 8 - 1)) = Ok (u64 (Z.log2 (le_val l) - 1)).
Proof using Hb BO.
  induction n as [|n IH]; intros Hn Hne Hz; cbn [largestEntry_loop].
  { exfalso. apply Hne. apply Z.bits_inj'. intros i Hi.
    rewrite testbit_byte_at by (done || exact (buf_bytes _ _ _ Hb)).
    rewrite Hz, !Z.bits_0 by (apply Z.div_pos; lia). done. }
  rewrite (buf_get8_byte s a l _ Hb) by lia. rewrite bind_ok_l.
  destruct (Z.eqb_spec (byte_at l (Z.of_nat n)) 0) as [E|E]; cbn [negb].
  - rewrite wrap_sub_l by lia. replace (Z.of_nat (Datatypes.S n) * 8 - 1 - 8) with (Z.of_nat n * 8 - 1) by lia.
    apply IH; [lia|done|]. intros j Hj. destruct (decide (j = Z.of_nat n)) as [->|]; [done|]. apply Hz. lia.
  - rewrite byte_msb by (done || lia). rewrite bind_ok_l. unfold mret, result_ret.
    destruct (log2_top (Z.of_nat n)) as [-> Hlog]; [lia|done|intros; apply Hz; lia|].
    rewrite (wrap_small 32 (8 - _)) by (unfold fits; lia). rewrite wrap_sub_l by lia. do 2 f_equal. lia.
Qed.

Lemma smallestEntry_loop_ok n i : 0 <= i -> i + Z.of_nat n = zlen l -> 8 * zlen l < 2 ^ 64 ->
  le_val l <> 0 -> (forall j, 0 <= j < i -> byte_at l j = 0) ->
  exists k, 0 <= k < zlen l /\ byte_at l k <> 0 /\ (forall j, 0 <= j < k -> byte_at l j = 0) /\
    smallestEntry_loop n s a i (8 * i) = Ok (8 * k + Z.log2 (byte_at l k)).
Proof using Hb BO.
  revert i. induction n as [|n IH]; intros i Hi Hn Hs Hne Hz; cbn [smallestEntry_loop].
  { exfalso. apply Hne. apply Z.bits_inj'. intros j Hj.
    rewrite testbit_byte_at by (done || exact (buf_bytes _ _ _ Hb)). destruct (decide (j / 8 < i)).
    - rewrite Hz, !Z.bits_0; [done|]. split; [apply Z.div_pos; lia|done].
    - by rewrite byte_at_high, !Z.bits_0 by lia. }
  rewrite (buf_get8_byte s a l _ Hb) by lia. rewrite bind_ok_l.
  destruct (Z.eqb_spec (byte_at l i) 0) as [E|E]; cbn [negb].
  - rewrite wrap_small by (unfold fits; lia). replace (8 * i + 8) with (8 * (i + 1)) by lia.
    apply IH; [lia|lia|done|done|]. intros j Hj. destruct (decide (j = i)) as [->|]; [done|]. apply Hz. lia.
  - exists i. rewrite byte_msb by (done || lia). rewrite bind_ok_l. split; [lia|]. split; [done|]. split; [done|].
    unfold mret, result_ret. destruct (byte_log2 i E). rewrite wrap_small by (unfold fits; lia). done.
Qed.
End counting.

(** The observers of a dynamic bit set. [size] is the number of set positions (as an
    unsigned 32-bit integer); [upperBound] is the least multiple of eight above every set
    position, 0 for the empty set. The two entry functions are off: for a set that is not
    empty [largestEntry] gives one less than the largest set position (which wraps when
    that is 0), and [smallestEntry] gives the largest position of the lowest byte that is
    not zero instead of the smallest. *)
Theorem dbs_observers {S : Type} {B : Backend S} {BO : BackendOk S} (s : S) a l :
  buf s a l -> 8 * zlen l < 2 ^ 64 ->
  dbs_size s a = Ok (u32 (zlen (set_positions (le_val l) 0 (8 * zlen l)))) /\
  upperBound s a = Ok (if le_val l =? 0 then 0 else 8 * (Z.log2 (le_val l) / 8 + 1)) /\
  (le_val l <> 0 ->
     largestEntry s a = Ok (u64 (Z.log2 (le_val l) - 1)) /\
     exists k, 0 <= k < zlen l /\ byte_at l k <> 0 /\ (forall j, 0 <= j < k -> byte_at l j = 0) /\
       smallestEntry s a = Ok (8 * k + Z.log2 (byte_at l k))).
Proof.
  intros Hb Hs. split; [by apply dbs_size_ok|].
  assert (forall j, Z.of_nat (Z.to_nat (zlen l)) <= j -> byte_at l j = 0) as Hhigh.
  { intros j Hj. apply byte_at_high. lia. }
  assert (m_len a = 0 -> le_val l = 0) as H0.
  { rewrite (buf_len _ _ _ Hb). intros E. destruct l; [done|]. cbn [length] in E. lia. }
  split.
  - unfold upperBound. destruct (Z.eqb_spec (m_len a) 0) as [E|E].
    + by rewrite (H0 E).
    + rewrite (buf_len _ _ _ Hb). apply (upperBound_loop_ok s a l Hb); [lia|done|done].
  - intros Hne. split.
    + unfold largestEntry. destruct (Z.eqb_spec (m_len a) 0) as [E|E]; [by rewrite (H0 E) in Hne|].
      rewrite (buf_len _ _ _ Hb). rewrite <- (largestEntry_loop_ok s a l Hb (Z.to_nat (zlen l))) by (done || lia).
      do 2 f_equal. lia.
    + unfold smallestEntry. rewrite (buf_len _ _ _ Hb).
      apply (smallestEntry_loop_ok s a l Hb (Z.to_nat (zlen l)) 0); (done || (intros; lia)).
Qed.

(** The set {1, 3, 9}: the entries come out as 3 and 8. *)
Lemma dbs_observers_witness :
  dbs_size (Vec.mk [10; 2; 0]) (mkUba 0 3 0 0) = Ok 3 /\
  largestEntry (Vec.mk [10; 2; 0]) (mkUba 0 3 0 0) = Ok 8 /\
  smallestEntry (Vec.mk [10; 2; 0]) (mkUba 0 3 0 0) = Ok 3.
Proof.
  destruct (dbs_observers (Vec.mk [10; 2; 0]) (mkUba 0 3 0 0) [10; 2; 0]) as (H1 & _ & H2).
  - split; [uba_wf_tac|reflexivity].
  - cbn. lia.
  - split; [exact H1|]. split; [|reflexivity]. apply H2. discriminate.
Defined.

(** * The assigning operators *)

Lemma splice_nil_r (l : list Z) p : splice l p [] = l.
Proof. unfold splice. cbn [length app]. by rewrite Nat.add_0_r, take_drop. Qed.

Lemma splice_again (l : list Z) p bs : 0 <= p -> p + zlen bs <= zlen l ->
  splice (splice l p bs) p bs = splice l p bs.
Proof.
  intros Hp Hin. apply list_eq. intros i. rewrite !lookup_splice by (rewrite ?length_splice by lia; lia).
  by repeat case_match.
Qed.

Section assigning.
Context {S : Type} {B : Backend S} {BO : BackendOk S}.
Context {T : Type} {BT : Backend T} {BOT : BackendOk T}.

Lemma copy_foreign_ok fuel (s : S) (t : T) a b l src pos bufLen i :
  buf s a l -> buf t b src -> 0 <= pos -> pos + zlen src <= zlen l -> 0 < bufLen ->
  0 <= i <= zlen src -> zlen src - i < Z.of_nat fuel ->
  exists s', copy_foreign fuel s a pos t b bufLen i = Ok s' /\
    buf s' a (splice l (pos + i) (drop (Z.to_nat i) src)).
Proof using BO BOT.
  revert s l i. induction fuel as [|fuel IH]; intros s l i Ha Hb Hp Hin Hbl Hi Hf; [lia|].
  cbn [copy_foreign]. rewrite (buf_len _ _ _ Hb). pose proof (buf_fits _ _ _ Ha).
  destruct (Z.ltb_spec i (zlen src)).
  2: { exists s. split; [done|]. rewrite drop_ge by lia. by rewrite splice_nil_r. }
  set (len := Z.min (zlen src - i) bufLen).
  set (bs := take (Z.to_nat len) (drop (Z.to_nat i) src)).
  assert (zlen bs = len) as Hbs by (subst bs; rewrite length_take, length_drop; lia).
  assert (uba_getData t b i len = Ok bs) as ->.
  { rewrite <- Hbs. replace i with (zlen (take (Z.to_nat i) src)) at 1 by (rewrite length_take; lia).
    apply (buf_getData_middle t b _ bs (drop (Z.to_nat len) (drop (Z.to_nat i) src))).
    subst bs. by rewrite !take_drop. }
  rewrite bind_ok_l, wrap_small by (unfold fits; lia).
  destruct (buf_putData s a l (pos + i) bs Ha) as (s1 & -> & Ha1); [|lia|lia|].
  { apply Forall_take, Forall_drop. exact (buf_bytes _ _ _ Hb). }
  rewrite bind_ok_l.
  destruct (IH s1 _ (i + len) Ha1 Hb) as (s2 & -> & Ha2); [lia|rewrite length_splice by lia; lia|lia|lia|lia|].
  exists s2. split; [done|]. replace (pos + (i + len)) with (pos + i + zlen bs) in Ha2 by lia.
  rewrite splice_splice in Ha2 by lia. replace (drop (Z.to_nat i) src) with (bs ++ drop (Z.to_nat (i + len)) src); [done|].
  subst bs. rewrite <- (take_drop (Z.to_nat len) (drop (Z.to_nat i) src)) at 2. f_equal.
  rewrite drop_drop. f_equal. lia.
Qed.

Lemma putData_foreign_ok fuel (s : S) (t : T) a b l src pos :
  buf s a l -> buf t b src -> 0 <= pos -> pos + zlen src <= zlen l -> zlen src < Z.of_nat fuel ->
  exists s', putData_foreign fuel s a pos t b = Ok s' /\ buf s' a (splice l pos src).
Proof using BO BOT.
  intros Ha Hb Hp Hin Hf. unfold putData_foreign. rewrite (buf_len _ _ _ Hb). pose proof (buf_fits _ _ _ Ha).
  destruct (Z.eqb_spec (zlen src) 0) as [E|E].
  { exists s. destruct src; [|cbn [length] in E; lia]. by rewrite splice_nil_r. }
  rewrite range_check_eq by (unfold fits; lia). rewrite (buf_len _ _ _ Ha).
  rewrite (proj2 (Z.ltb_ge _ _)), bind_ok_l by lia.
  assert (exists s1, (if bk_isContiguous (S := S)
    then d ← bk_getData t (m_offSet b) (zlen src); uba_putData s a pos d else Ok s) = Ok s1 /\
    (buf s1 a l \/ buf s1 a (splice l pos src))) as (s1 & -> & H1).
  { destruct (bk_isContiguous (S := S)); [|exists s; auto]. rewrite bk_getData_ok.
    assert (vread (bk_data t) (m_offSet b) (zlen src) = Ok src) as ->.
    { rewrite <- (Z.add_0_r (m_offSet b)). rewrite vread_view by (apply Hb || rewrite ?(buf_len _ _ _ Hb); lia).
      rewrite (proj2 Hb). rewrite <- (app_nil_r src) at 1. by apply (vread_middle [] src []). }
    rewrite bind_ok_l. destruct (buf_putData s a l pos src Ha) as (s1 & -> & ?);
      [exact (buf_bytes _ _ _ Hb)|lia|lia|]. exists s1. auto. }
  rewrite bind_ok_l.
  destruct H1 as [H1|H1].
  - destruct (copy_foreign_ok fuel s1 t a b l src pos (Z.min (zlen src) (4 * 1024 * 1024)) 0 H1 Hb)
      as (s2 & -> & H2); [lia..|]. rewrite Z.add_0_r, drop_0 in H2. by exists s2.
  - destruct (copy_foreign_ok fuel s1 t a b _ src pos (Z.min (zlen src) (4 * 1024 * 1024)) 0 H1 Hb)
      as (s2 & -> & H2); [lia|rewrite length_splice by lia; lia|lia..|].
    rewrite Z.add_0_r, drop_0, splice_again in H2 by lia. by exists s2.
Qed.

(** Shrinking keeps the first bytes; growing appends. *)
Lemma uba_resize_ok (s : S) a l n : buf s a l -> 0 <= n -> m_offSet a + Z.max n (zlen l) < 2 ^ 64 ->
  exists s' a' ext, uba_resize s a n = (s', a', true) /\ buf s' a' (take (Z.to_nat n) l ++ ext) /\
    m_len a' = n /\ m_offSet a' = m_offSet a /\ zlen ext = Z.max 0 (n - zlen l).
Proof using BO.
  intros Hb Hn Hf. pose proof (buf_len _ _ _ Hb) as Hlen. unfold uba_resize. rewrite Hlen.
  destruct (Z.ltb_spec n (zlen l)).
  - eexists s, _, []. split; [done|]. rewrite app_nil_r. destruct Hb as [Hwf Hv]. cbn [m_len m_offSet].
    split; [|split; [done|split; [done|cbn; lia]]]. pose proof Hwf as [].
    destruct (sub_window (bk_data s) a Hwf 0 n (mkUba (m_offSet a) n
      (if n <? m_getPtr a then n else m_getPtr a) (if n <? m_putPtr a then n else m_putPtr a)))
      as [Hwf' Hv']; cbn [m_offSet m_len m_getPtr m_putPtr]; [lia|lia|lia|lia|done| | |].
    + case_match; unfold fits in *; lia.
    + case_match; unfold fits in *; lia.
    + split; [done|]. rewrite Hv'. by rewrite drop_0, Hv.
  - destruct (growStorage_ok s a l (n - zlen l) Hb) as (s' & ext & Hg & Hb' & He); [lia|lia|].
    eexists s', _, ext. split; [exact Hg|]. rewrite take_ge by lia. split; [done|].
    cbn [m_len m_offSet]. lia.
Qed.
End assigning.

Section assigned.
Context {S : Type} {B : Backend S} {BO : BackendOk S}.
Context (s t : S) (a b : uba) (l1 l2 : list Z).
Context (Ha : buf s a l1) (Hb : buf t b l2).

Lemma own_loop_ok op n : Z.of_nat n <= Z.min (zlen l1) (zlen l2) ->
  exists s' l, store_loop n (own op a t b) s a 0 = Ok s' /\ buf s' a l /\ length l = length l1 /\
    forall k, 0 <= k -> byte_at l k =
      if k <? Z.of_nat n then u8 (op (byte_at l1 k) (byte_at l2 k)) else byte_at l1 k.
Proof using Ha Hb BO.
  intros Hn.
  destruct (store_loop_ok n (own op a t b) (fun k => op (byte_at l1 k) (byte_at l2 k)) s a l1 0 Ha)
    as (s' & l & Hl & Hbuf & Hlen & _ & Hby); [lia|lia| |].
  { intros d' l' j Hj Hd' Hl' Hk. unfold own. rewrite <- (Hk j) by lia.
    apply (both_ok d' t a b l' l2 Hd' Hb op). lia. }
  exists s', l. split; [done|]. split; [done|]. split; [done|]. intros k Hk. rewrite Hby by done.
  by rewrite (proj2 (Z.leb_le 0 k)) by done.
Qed.

Lemma dbs_minus_assign_ok : exists s' l, dbs_minus_assign s a t b = Ok (s', a) /\ buf s' a l /\
  length l = length l1 /\ le_val l = Z.ldiff (le_val l1) (le_val l2).
Proof using Ha Hb BO.
  unfold dbs_minus_assign. rewrite (buf_len _ _ _ Ha), (buf_len _ _ _ Hb).
  destruct (own_loop_ok (fun x y => x &&& Z.lnot y) (Z.to_nat (Z.min (zlen l1) (zlen l2))))
    as (s' & l & -> & Hl & Hlen & Hby); [lia|].
  rewrite bind_ok_l. exists s', l. split; [done|]. split; [done|]. split; [done|].
  apply (le_val_bitwise Z.ldiff (fun x y => x && negb y));
    [intros; apply Z.ldiff_spec|exact (buf_bytes _ _ _ Hl)|exact (buf_bytes _ _ _ Ha)|exact (buf_bytes _ _ _ Hb)|].
  intros k Hk. rewrite Hby by done. destruct (Z.ltb_spec k (Z.of_nat (Z.to_nat (Z.min (zlen l1) (zlen l2))))).
  - apply ldiff_byte, byte_at_ok. exact (buf_bytes _ _ _ Ha).
  - destruct (decide (zlen l1 <= k)); [by rewrite (byte_at_high l1) by lia|].
    by rewrite (byte_at_high l2), Z.ldiff_0_r by lia.
Qed.
End assigned.

Lemma byte_at_app l r k : 0 <= k ->
  byte_at (l ++ r) k = if k <? zlen l then byte_at l k else byte_at r (k - zlen l).
Proof.
  intros Hk. unfold byte_at. destruct (Z.ltb_spec k (zlen l)).
  - by rewrite lookup_app_l by lia.
  - rewrite lookup_app_r by lia. do 2 f_equal. lia.
Qed.

Lemma byte_at_drop l m k : 0 <= m -> 0 <= k -> byte_at (drop (Z.to_nat m) l) k = byte_at l (m + k).
Proof. intros Hm Hk. unfold byte_at. rewrite lookup_drop. do 2 f_equal. lia. Qed.

Section assigned_resized.
Context {S : Type} {B : Backend S} {BO : BackendOk S}.
Context (s t : S) (a b : uba) (l1 l2 : list Z).
Context (Ha : buf s a l1) (Hb : buf t b l2).
Context (Hroom : m_offSet a + Z.max (zlen l1) (zlen l2) < 2 ^ 64).

Lemma dbs_and_assign_ok : exists s' a' l, dbs_and_assign s a t b = Ok (s', a') /\ buf s' a' l /\
  zlen l = Z.min (zlen l1) (zlen l2) /\ le_val l = Z.land (le_val l1) (le_val l2).
Proof using Ha Hb Hroom BO.
  unfold dbs_and_assign. rewrite (buf_len _ _ _ Ha), (buf_len _ _ _ Hb).
  set (m := Z.min (zlen l1) (zlen l2)).
  destruct (uba_resize_ok s a l1 m Ha) as (s1 & a1 & ext & -> & H1 & Hl1 & _ & He); [lia|lia|].
  assert (ext = []) as -> by (destruct ext; [done|cbn [length] in He; lia]). rewrite app_nil_r in H1.
  assert (zlen (take (Z.to_nat m) l1) = m) as Htk by (rewrite length_take; lia).
  rewrite Hl1.
  destruct (own_loop_ok s1 t a1 b _ l2 H1 Hb Z.land (Z.to_nat m)) as (s' & l & -> & Hl & Hlen & Hby); [lia|].
  rewrite bind_ok_l. exists s', a1, l. split; [done|]. split; [done|]. split; [lia|].
  pose proof (buf_bytes _ _ _ Ha) as O1. pose proof (buf_bytes _ _ _ Hb) as O2.
  apply (le_val_bitwise Z.land andb); [intros; apply Z.land_spec|exact (buf_bytes _ _ _ Hl)|done|done|].
  intros k Hk. rewrite Hby, byte_at_take by done. rewrite Z2Nat.id by lia. destruct (Z.ltb_spec k m).
  - apply u8_byte. apply land_fits_l; [lia|]. by apply byte_at_ok.
  - destruct (decide (zlen l1 <= k)); [by rewrite (byte_at_high l1) by lia|].
    by rewrite (byte_at_high l2), Z.land_0_r by lia.
Qed.

Lemma dbs_merge_assign_ok op (g : bool -> bool -> bool) :
  (forall x y i, 0 <= i -> Z.testbit (op x y) i = g (Z.testbit x i) (Z.testbit y i)) ->
  (forall x y, byte_ok x -> byte_ok y -> byte_ok (op x y)) ->
  (forall x, op x 0 = x) -> (forall x, op 0 x = x) ->
  exists s' a' l, dbs_merge_assign op s a t b = Ok (s', a') /\ buf s' a' l /\
    zlen l = Z.max (zlen l1) (zlen l2) /\ le_val l = op (le_val l1) (le_val l2).
Proof using Ha Hb Hroom BO.
  intros Hop Hf H0r H0l. pose proof (buf_bytes _ _ _ Ha) as O1. pose proof (buf_bytes _ _ _ Hb) as O2.
  unfold dbs_merge_assign. rewrite (buf_len _ _ _ Ha), (buf_len _ _ _ Hb).
  set (m := Z.min (zlen l1) (zlen l2)).
  destruct (own_loop_ok s t a b l1 l2 Ha Hb op (Z.to_nat m)) as (s1 & r & -> & Hr & Hlen & Hby); [lia|].
  rewrite bind_ok_l. rewrite Z2Nat.id in Hby by lia.
  assert (forall k, 0 <= k < m -> byte_at r k = op (byte_at l1 k) (byte_at l2 k)) as Hlow.
  { intros k Hk. rewrite Hby, (proj2 (Z.ltb_lt k m)) by lia. apply u8_byte, Hf; by apply byte_at_ok. }
  destruct (Z.ltb_spec (zlen l1) (zlen l2)).
  - destruct (uba_resize_ok s1 a r (zlen l2) Hr) as (s2 & a2 & ext & -> & H2 & _ & _ & He); [lia|lia|].
    rewrite take_ge in H2 by lia.
    pose proof (uba_from_ok t b l2 Hb (zlen l1) ltac:(lia)) as Hd.
    assert (zlen (drop (Z.to_nat (zlen l1)) l2) = zlen ext) as Hdl by (rewrite length_drop; lia).
    destruct (putData_foreign_ok (Datatypes.S (Z.to_nat (zlen l2))) s2 t a2 (uba_from b (zlen l1)) _ _
      (zlen l1) H2 Hd) as (s3 & -> & H3); [lia|rewrite length_app; lia|lia|].
    rewrite bind_ok_l. eexists s3, a2, _. split; [done|]. split; [exact H3|].
    assert (splice (r ++ ext) (zlen l1) (drop (Z.to_nat (zlen l1)) l2) = r ++ drop (Z.to_nat (zlen l1)) l2) as Hs.
    { unfold splice. rewrite take_app_le, take_ge by lia. f_equal.
      rewrite (drop_ge (r ++ ext)), app_nil_r; [done|]. rewrite length_app. lia. }
    rewrite Hs in H3 |- *. split; [rewrite length_app; lia|].
    apply (le_val_bitwise op g); [done|exact (buf_bytes _ _ _ H3)|done|done|].
    intros k Hk. rewrite byte_at_app by done. rewrite Hlen. destruct (Z.ltb_spec k (zlen l1)).
    + apply Hlow. lia.
    + rewrite byte_at_drop, (byte_at_high l1), H0l by lia. f_equal. lia.
  - exists s1, a, r. split; [done|]. split; [done|]. split; [lia|].
    apply (le_val_bitwise op g); [done|exact (buf_bytes _ _ _ Hr)|done|done|].
    intros k Hk. destruct (decide (k < m)); [apply Hlow; lia|].
    rewrite Hby, (proj2 (Z.ltb_ge k m)), (byte_at_high l2), H0r by lia. done.
Qed.
End assigned_resized.

(** The assigning set operators, the operands on separate storages: [&=], [|=] and
    [^=] leave the intersection, union and symmetric difference in their left operand,
    which shrinks to the shorter or grows to the longer of the two; [-=] leaves the whole
    difference and, unlike [-], the length. Growing works wherever the window lies in its
    storage. *)
Theorem dbs_assign_algebra {S : Type} {B : Backend S} {BO : BackendOk S} (s t : S) a b l1 l2 :
  buf s a l1 -> buf t b l2 -> m_offSet a + Z.max (zlen l1) (zlen l2) < 2 ^ 64 ->
  let v1 := le_val l1 in
  let v2 := le_val l2 in
  (exists s' a' l, dbs_and_assign s a t b = Ok (s', a') /\ buf s' a' l /\
     zlen l = Z.min (zlen l1) (zlen l2) /\ le_val l = v1 &&& v2) /\
  (exists s' a' l, dbs_or_assign s a t b = Ok (s', a') /\ buf s' a' l /\
     zlen l = Z.max (zlen l1) (zlen l2) /\ le_val l = v1 ||| v2) /\
  (exists s' a' l, dbs_xor_assign s a t b = Ok (s', a') /\ buf s' a' l /\
     zlen l = Z.max (zlen l1) (zlen l2) /\ le_val l = v1 ^^^ v2) /\
  (exists s' l, dbs_minus_assign s a t b = Ok (s', a) /\ buf s' a l /\
     length l = length l1 /\ le_val l = Z.ldiff v1 v2).
Proof.
  intros Ha Hb Hr v1 v2. split; [by apply dbs_and_assign_ok|].
  split; [|split; [|by apply dbs_minus_assign_ok]].
  - apply (dbs_merge_assign_ok s t a b l1 l2 Ha Hb Hr Z.lor orb);
      [intros; apply Z.lor_spec|intros; by apply lor_fits|apply Z.lor_0_r|apply Z.lor_0_l].
  - apply (dbs_merge_assign_ok s t a b l1 l2 Ha Hb Hr Z.lxor xorb);
      [intros; apply Z.lxor_spec|intros; by apply lxor_fits|apply Z.lxor_0_r|apply Z.lxor_0_l].
Qed.

Lemma dbs_assign_algebra_witness :
  exists s' l, dbs_minus_assign (Vec.mk [7; 6]) (mkUba 0 2 0 0) (Vec.mk [5]) (mkUba 0 1 0 0)
    = Ok (s', mkUba 0 2 0 0) /\ buf s' (mkUba 0 2 0 0) l /\ length l = 2%nat /\ le_val l = 2 + 256 * 6.
Proof.
  destruct (dbs_assign_algebra (Vec.mk [7; 6]) (Vec.mk [5]) (mkUba 0 2 0 0) (mkUba 0 1 0 0) [7; 6] [5])
    as (_ & _ & _ & H).
  - split; [uba_wf_tac|reflexivity].
  - split; [uba_wf_tac|reflexivity].
  - cbn. lia.
  - exact H.
Defined.

(** Intersecting in place only shortens the window and leaves the dropped bytes in
    the storage; a later [set] that grows the window again brings the positions they held
    back. Here [{0, 9} &= {0}] gives [{0}], and setting 8 then gives [{0, 8, 9}]. *)
Theorem and_assign_resurrects :
  exists s a s' a',
    dbs_and_assign (Vec.mk [1; 2]) (mkUba 0 2 0 0) (Vec.mk [1]) (mkUba 0 1 0 0) = Ok (s, a) /\
    putInto s a = Ok [0] /\
    dbs_set s a 8 = Ok (s', a') /\ putInto s' a' = Ok [0; 8; 9].
Proof. eexists _, _, _, _. split; [reflexivity|]. split; [reflexivity|]. split; reflexivity. Qed.

(** * The simple bit vector as a number *)

Definition words_ok (ws : list Z) : Prop := Forall (fits 64) ws.

Fixpoint word_val (ws : list Z) : Z :=
  match ws with [] => 0 | x :: ws => x ||| (word_val ws <<< 64) end.

Lemma word_at_ok ws k : words_ok ws -> fits 64 (byte_at ws k).
Proof.
  intros Hl. unfold byte_at. destruct (ws !! Z.to_nat k) eqn:E; cbn; [|unfold fits; lia].
  exact (Forall_lookup_1 _ _ _ _ Hl E).
Qed.

Lemma div64_bounds pos : 0 <= pos -> 0 <= pos / 64 /\ 0 <= pos mod 64 < 64 /\ pos = 64 * (pos / 64) + pos mod 64.
Proof.
  intros Hp. pose proof (Z.div_mod pos 64 ltac:(lia)). pose proof (Z.mod_pos_bound pos 64 ltac:(lia)).
  pose proof (Z.div_pos pos 64 Hp ltac:(lia)). done.
Qed.

Lemma testbit_word_val ws i : words_ok ws -> 0 <= i ->
  Z.testbit (word_val ws) i = Z.testbit (byte_at ws (i / 64)) (i mod 64).
Proof.
  intros Hw. revert i. induction Hw as [|x ws Hx Hw IH]; intros i Hi; cbn [word_val].
  { unfold byte_at. rewrite lookup_nil. cbn. by rewrite !Z.bits_0. }
  destruct (div64_bounds i Hi) as (? & ? & ?). rewrite Z.lor_spec, testbit_shiftl' by lia.
  destruct (decide (i < 64)).
  - rewrite Z.div_small, Z.mod_small by lia. unfold byte_at. cbn.
    rewrite (proj2 (Z.leb_gt _ _)) by lia. by rewrite orb_false_r.
  - rewrite (proj2 (Z.leb_le _ _)), (testbit_fits_high 64 x) by (done || lia). cbn [andb orb].
    rewrite IH by lia. replace (i - 64) with (i + (-1) * 64) by lia.
    rewrite Z.div_add, Z.mod_add by lia. f_equal. unfold byte_at.
    replace (Z.to_nat (i / 64)) with (Datatypes.S (Z.to_nat (i / 64 + -1))) by lia. done.
Qed.

Lemma word_val_change ws k x V : words_ok ws -> 0 <= k < zlen ws -> fits 64 x ->
  (forall i, 0 <= i -> i / 64 = k -> Z.testbit x (i mod 64) = Z.testbit V i) ->
  (forall i, 0 <= i -> i / 64 <> k -> Z.testbit (word_val ws) i = Z.testbit V i) ->
  word_val (<[Z.to_nat k := x]> ws) = V.
Proof.
  intros Hl Hk Hx Hin Hout. apply Z.bits_inj'. intros i Hi. destruct (div64_bounds i Hi) as (? & ? & ?).
  rewrite testbit_word_val by (done || by apply Forall_insert). rewrite byte_at_insert by done.
  destruct (Z.eqb_spec (i / 64) k); [by apply Hin|]. rewrite <- testbit_word_val by done. by apply Hout.
Qed.

Lemma word_val_grow ws n : words_ok ws -> zlen ws <= n ->
  words_ok (vresize ws n 0) /\ word_val (vresize ws n 0) = word_val ws.
Proof.
  intros Hw Hn. assert (words_ok (vresize ws n 0)) as Hr.
  { apply Forall_vresize; [done|unfold fits; lia]. }
  split; [done|]. apply Z.bits_inj'. intros i Hi. destruct (div64_bounds i Hi) as (? & ? & ?).
  rewrite !testbit_word_val by done. f_equal. unfold byte_at. rewrite lookup_vresize by lia.
  destruct (Z.ltb_spec (Z.of_nat (Z.to_nat (i / 64))) n); [done|]. by rewrite lookup_ge_None_2 by lia.
Qed.

Section simple.
Context (ws : list Z) (Hw : words_ok ws).

Lemma word_bit pos : 0 <= pos -> u64 (1 <<< (pos mod 64)) = 2 ^ (pos mod 64).
Proof using.
  intros Hp. pose proof (Z.mod_pos_bound pos 64 ltac:(lia)). rewrite Z.shiftl_1_l.
  apply wrap_small. unfold fits. pose proof (Z.pow_lt_mono_r 2 (pos mod 64) 64). lia.
Qed.

Lemma update_at k f : 0 <= k < zlen ws ->
  Simple.update ws k f = Ok (<[Z.to_nat k := f (byte_at ws k)]> ws).
Proof using.
  intros Hk. unfold Simple.update, byte_at.
  by destruct (lookup_lt_is_Some_2 ws (Z.to_nat k)) as [x ->]; [lia|].
Qed.

Lemma simple_isSet pos : 0 <= pos -> Simple.isSet (Simple.mk ws) pos = Z.testbit (word_val ws) pos.
Proof using Hw.
  intros Hp. destruct (div64_bounds pos Hp) as (? & ? & ?). unfold Simple.isSet, Simple.digits. cbn [Simple.m_d].
  rewrite testbit_word_val by done. destruct (Z.leb_spec (zlen ws) (pos / 64)).
  - by rewrite byte_at_high, Z.bits_0 by done.
  - rewrite word_bit, <- Z.shiftl_1_l by done.
    destruct (lookup_lt_is_Some_2 ws (Z.to_nat (pos / 64))) as [x Hx]; [lia|]. unfold byte_at. rewrite Hx.
    change (default 0 (Some x)) with x. apply land_bit_testbit. lia.
Qed.

Lemma simple_set_at pos : 0 <= pos < 64 * zlen ws ->
  exists ws', Simple.update ws (pos / 64) (fun x => x ||| u64 (1 <<< (pos mod 64))) = Ok ws' /\
    words_ok ws' /\ zlen ws' = zlen ws /\ word_val ws' = Z.setbit (word_val ws) pos.
Proof using Hw.
  intros Hp. destruct (div64_bounds pos) as (? & ? & ?); [lia|]. rewrite update_at by lia.
  rewrite word_bit by lia. pose proof (word_at_ok ws (pos / 64) Hw) as Hx.
  assert (fits 64 (byte_at ws (pos / 64) ||| 2 ^ (pos mod 64))) as Hf.
  { apply lor_fits; [lia|done|]. rewrite <- word_bit by lia. apply wrap_fits. lia. }
  eexists. split; [done|]. split; [by apply Forall_insert|]. split; [by rewrite length_insert|].
  apply word_val_change; [done|lia|done| |].
  - intros i Hi Hk. destruct (div64_bounds i Hi) as (? & ? & ?).
    rewrite Z.lor_spec, Z.pow2_bits_eqb, Z.setbit_eqb, testbit_word_val, Hk, orb_comm by (done || lia).
    f_equal. destruct (Z.eqb_spec (pos mod 64) (i mod 64)), (Z.eqb_spec pos i); done || lia.
  - intros i Hi Hk. rewrite Z.setbit_neq by (lia || congruence). done.
Qed.

Lemma simple_unset_ok pos : 0 <= pos -> exists ws',
  Simple.unset (Simple.mk ws) pos = Ok (Simple.mk ws') /\ words_ok ws' /\ zlen ws' = zlen ws /\
  word_val ws' = Z.clearbit (word_val ws) pos.
Proof using Hw.
  intros Hp. destruct (div64_bounds pos) as (? & ? & ?); [lia|]. unfold Simple.unset, Simple.digits.
  cbn [Simple.m_d]. destruct (Z.leb_spec (zlen ws) (pos / 64)).
  { exists ws. split; [done|]. split; [done|]. split; [done|]. apply Z.bits_inj'. intros i Hi.
    rewrite Z.clearbit_eqb. destruct (Z.eqb_spec pos i) as [<-|]; [|by rewrite andb_true_r].
    rewrite testbit_word_val, byte_at_high by done. by rewrite Z.bits_0. }
  rewrite update_at, bind_ok_l, word_bit by lia. pose proof (word_at_ok ws (pos / 64) Hw) as Hx.
  assert (fits 64 (byte_at ws (pos / 64) &&& u64 (Z.lnot (2 ^ (pos mod 64))))) as Hf by (by apply land_fits_l).
  eexists. split; [done|]. split; [by apply Forall_insert|]. split; [by rewrite length_insert|].
  apply word_val_change; [done|lia|done| |].
  - intros i Hi Hk. destruct (div64_bounds i Hi) as (? & ? & ?).
    rewrite Z.land_spec, testbit_wrap, Z.lnot_spec, Z.pow2_bits_eqb, Z.clearbit_eqb by lia.
    rewrite testbit_word_val, Hk, (proj2 (Z.ltb_lt _ _)) by (done || lia). cbn [andb].
    do 2 f_equal. destruct (Z.eqb_spec (pos mod 64) (i mod 64)), (Z.eqb_spec pos i); done || lia.
  - intros i Hi Hk. rewrite Z.clearbit_neq by (lia || congruence). done.
Qed.
End simple.

Lemma simple_set_ok ws pos : words_ok ws -> 0 <= pos -> exists ws',
  Simple.set (Simple.mk ws) pos = Ok (Simple.mk ws') /\ words_ok ws' /\
  zlen ws' = Z.max (zlen ws) (pos / 64 + 1) /\ word_val ws' = Z.setbit (word_val ws) pos.
Proof.
  intros Hw Hp. destruct (div64_bounds pos Hp) as (? & ? & ?). unfold Simple.set, Simple.digits.
  cbn [Simple.m_d]. destruct (Z.leb_spec (zlen ws) (pos / 64)).
  - destruct (word_val_grow ws (pos / 64 + 1) Hw) as [Hw' Hv]; [lia|].
    assert (zlen (vresize ws (pos / 64 + 1) 0) = pos / 64 + 1) as Hlen by (rewrite length_vresize; lia).
    cbn [Simple.resize Simple.m_d]. unfold Simple.digits.
    destruct (simple_set_at _ Hw' pos) as (ws' & -> & Hok & Hlen' & Hval); [lia|].
    rewrite bind_ok_l. exists ws'. split; [done|]. split; [done|]. split; [lia|]. by rewrite Hval, Hv.
  - cbn [Simple.m_d]. destruct (simple_set_at ws Hw pos) as (ws' & -> & Hok & Hlen' & Hval); [lia|].
    rewrite bind_ok_l. exists ws'. split; [done|]. split; [done|]. split; [lia|done].
Qed.

Lemma word_bits_at ws i j : words_ok ws -> 0 <= i -> 0 <= j < 64 ->
  Z.testbit (byte_at ws i) j = Z.testbit (word_val ws) (64 * i + j).
Proof.
  intros Hw Hi Hj. rewrite testbit_word_val by (done || lia). replace (64 * i + j) with (j + i * 64) by lia.
  by rewrite Z.div_add, Z.mod_add, Z.div_small, Z.mod_small by lia.
Qed.

Lemma byte_at_cons_middle pre x ws : byte_at (pre ++ x :: ws) (zlen pre) = x.
Proof. unfold byte_at. rewrite Nat2Z.id. by rewrite list_lookup_middle. Qed.

Lemma getSet_loop_ok pre ws : words_ok (pre ++ ws) -> 64 * zlen (pre ++ ws) < 2 ^ 64 ->
  Simple.getSet_loop ws (64 * zlen pre) =
    Ok (set_positions (word_val (pre ++ ws)) (64 * zlen pre) (64 * zlen ws)).
Proof.
  revert pre. induction ws as [|x ws IH]; intros pre Hw Hs; cbn [Simple.getSet_loop]; [done|].
  rewrite length_app in Hs. cbn [length] in Hs.
  assert (fits 64 x) as Hx by (by eapply Forall_app in Hw as [_ [? _]%Forall_cons]).
  rewrite (getSet_word_ok 64 x (word_val (pre ++ x :: ws)));
    [|done|lia|lia|intros j Hj; rewrite <- word_bits_at by (done || lia); by rewrite byte_at_cons_middle].
  rewrite bind_ok_l. unfold Simple.digits. rewrite wrap_small by (unfold fits; lia).
  pose proof (IH (pre ++ [x])) as Hr. rewrite <- app_assoc in Hr. cbn [app] in Hr.
  rewrite !length_app in Hr. cbn [length] in Hr.
  replace (64 * zlen pre + 64) with (64 * Z.of_nat (length pre + 1)) by lia.
  rewrite Hr by (done || lia). rewrite bind_ok_l. unfold mret, result_ret. f_equal.
  cbn [length]. replace (64 * Z.of_nat (S (length ws))) with (64 + 64 * zlen ws) by lia.
  rewrite set_positions_app by lia. do 2 f_equal. lia.
Qed.

Lemma size_fold_ok pre ws : words_ok (pre ++ ws) -> 64 * zlen (pre ++ ws) < 2 ^ 64 ->
  fold_left (fun r c => u64 (r + popCount 64 c)) ws
    (zlen (set_positions (word_val (pre ++ ws)) 0 (64 * zlen pre))) =
  zlen (set_positions (word_val (pre ++ ws)) 0 (64 * zlen (pre ++ ws))).
Proof.
  revert pre. induction ws as [|x ws IH]; intros pre Hw Hs; cbn [fold_left]; [by rewrite app_nil_r|].
  pose proof (IH (pre ++ [x])) as Hr. rewrite <- app_assoc in Hr. cbn [app] in Hr.
  rewrite <- Hr by done. f_equal. unfold popCount.
  rewrite (popcount_positions 64 x (word_val (pre ++ x :: ws)) (64 * zlen pre)).
  2: { intros j Hj. rewrite <- word_bits_at by (done || lia). by rewrite byte_at_cons_middle. }
  rewrite !length_app in *. cbn [length] in *.
  replace (64 * Z.of_nat (length pre + 1)) with (64 * zlen pre + 64) by lia.
  rewrite (set_positions_app _ 0 (64 * zlen pre) 64), length_app, Z.add_0_l by lia.
  rewrite Nat2Z.inj_add. apply wrap_small.
  pose proof (set_positions_length (word_val (pre ++ x :: ws)) 0 (64 * zlen pre)).
  pose proof (set_positions_length (word_val (pre ++ x :: ws)) (64 * zlen pre) 64). unfold fits. lia.
Qed.

(** The simple bit vector, as the number whose bits are its words' bits. [isSet]
    reads a bit; [set] sets it, growing the vector when the position is beyond it, with
    zeros; [unset] clears it; [reset] clears all; [getSet] lists the set positions in
    increasing order and [size] counts them. *)
Theorem simple_positions ws pos : words_ok ws -> fits 64 pos -> 64 * zlen ws < 2 ^ 64 ->
  let v := Simple.mk ws in
  Simple.isSet v pos = Z.testbit (word_val ws) pos /\
  (exists ws', Simple.set v pos = Ok (Simple.mk ws') /\ words_ok ws' /\
     zlen ws' = Z.max (zlen ws) (pos / 64 + 1) /\ word_val ws' = Z.setbit (word_val ws) pos) /\
  (exists ws', Simple.unset v pos = Ok (Simple.mk ws') /\ words_ok ws' /\
     zlen ws' = zlen ws /\ word_val ws' = Z.clearbit (word_val ws) pos) /\
  word_val (Simple.m_d (Simple.reset v)) = 0 /\
  Simple.getSet v = Ok (set_positions (word_val ws) 0 (64 * zlen ws)) /\
  Simple.size v = zlen (set_positions (word_val ws) 0 (64 * zlen ws)).
Proof.
  intros Hw Hp Hs v. assert (0 <= pos) by (unfold fits in Hp; lia).
  split; [by apply simple_isSet|]. split; [by apply simple_set_ok|]. split; [by apply simple_unset_ok|].
  split; [|split; [exact (getSet_loop_ok [] ws Hw Hs)|exact (size_fold_ok [] ws Hw Hs)]].
  cbn [v Simple.reset Simple.m_d]. clear. induction (length ws) as [|n IH]; cbn; [done|]. by rewrite IH.
Qed.

Lemma simple_positions_witness :
  exists ws', Simple.set (Simple.mk [3]) 70 = Ok (Simple.mk ws') /\ words_ok ws' /\ zlen ws' = 2 /\
    word_val ws' = 3 + 2 ^ 70.
Proof.
  destruct (simple_positions [3] 70) as (_ & H & _).
  - repeat constructor; unfold fits; lia.
  - unfold fits; lia.
  - cbn; lia.
  - exact H.
Defined.
