(* ===== verification/RLEStream.v ===== *)
(** The run-length and delta coded stream of [src/containers/RLEStream.cpp].

    A stream is a sequence of code words; [emit] is the sequence the creator
    writes for a sequence of calls, [denote] the numbers a sequence of words
    stands for.  The creator and the reader over a byte-array adapter are shown
    to write and to read exactly these. *)

From S2P Require Import Prelude UtilMath PackUnpack Storage ByteArray ByteStream.

(** * The creator and the reader *)

Record creator := mkCreator { m_prevId : Z; m_rleDiff : Z; m_rleCount : Z }.
Record rle := mkRle { m_d : uba; m_curRleCount : Z; m_curRleDiff : Z; m_curId : Z }.

Section code.
Context {S : Type} `{Backend S}.
Implicit Types (s : S) (dest : uba) (c : creator) (r : rle).

Definition creator_new : creator := mkCreator 0 0 0.

Definition creator_flush s dest c : result (S * uba * creator) :=
  '(s, dest) ←
    (if m_rleCount c =? 1 then
       if u32 (s32 (Z.abs (m_rleDiff c))) <? m_prevId c then
         if m_rleDiff c <? 0
         then '(s, dest, _) ← uba_sputVl VlUint64 s dest (u64 (u64 (s32 (- m_rleDiff c)) <<< 2) ||| 1); mret (s, dest)
         else '(s, dest, _) ← uba_sputVl VlUint64 s dest (u64 (u64 (m_rleDiff c) <<< 2) ||| 0); mret (s, dest)
       else '(s, dest, _) ← uba_sputVl VlUint64 s dest (u64 (m_prevId c <<< 2) ||| 2); mret (s, dest)
     else if 1 <? m_rleCount c then
       '(s, dest, _) ← uba_sputVl VlUint64 s dest (u32 (m_rleCount c <<< 2) ||| 3);
       '(s, dest, _) ← uba_sputVl VlInt32 s dest (m_rleDiff c);
       mret (s, dest)
     else Ok (s, dest));
  mret (s, dest, mkCreator (m_prevId c) 0 0).

Definition creator_put s dest c (value : Z) : result (S * uba * creator) :=
  myDiff ← narrow_check (Signed 32) (Signed 64) (value - m_prevId c);
  if myDiff =? m_rleDiff c
  then Ok (s, dest, mkCreator value (m_rleDiff c) (u32 (m_rleCount c + 1)))
  else '(s, dest, _) ← creator_flush s dest c; mret (s, dest, mkCreator value myDiff 1).

Definition creator_checkpoint s dest c (value : Z) : result (S * uba * creator) :=
  '(s, dest, c) ← creator_flush s dest c;
  '(s, dest, _) ← uba_sputVl VlUint64 s dest (u64 (value <<< 2) ||| 2);
  mret (s, dest, mkCreator value (m_rleDiff c) (m_rleCount c)).

Definition rle_step r : rle :=
  let diff := m_curRleDiff r in
  mkRle (m_d r) (u32 (m_curRleCount r - 1)) diff
    (if diff <? 0 then u32 (m_curId r - u32 (s32 (- diff))) else u32 (m_curId r + diff)).

(** [operator++] *)
Definition rle_next s r : result rle :=
  if m_curRleCount r =? 0 then
    '(d, curWord) ←
      match uba_sgetVl VlUint64 s (m_d r) with
      | Err OutOfBoundsException => Ok (m_d r, 0)
      | x => x
      end;
    let tmp := u8 (curWord &&& 3) in
    let curWord := curWord >>> 2 in
    if tmp =? 0 then Ok (mkRle d 0 (m_curRleDiff r) (u32 (m_curId r + curWord)))
    else if tmp =? 1 then Ok (mkRle d 0 (m_curRleDiff r) (u32 (m_curId r - curWord)))
    else if tmp =? 2 then Ok (mkRle d 0 (m_curRleDiff r) (u32 curWord))
    else
      '(d, diff) ← uba_sgetVl VlInt32 s d;
      mret (rle_step (mkRle d (u32 curWord) diff (m_curId r)))
  else Ok (rle_step r).

Definition rle_new s (begin : uba) : result rle := rle_next s (mkRle begin 0 0 0).

Definition rle_hasNext r : bool := getPtrHasNext (m_d r).
Definition rle_deref r : Z := m_curId r.

(** The next [n] numbers: [++] and [*]. *)
Fixpoint rle_collect (n : nat) s r : result (rle * list Z) :=
  match n with
  | O => Ok (r, [])
  | Datatypes.S n =>
      r ← rle_next s r;
      '(r', vs) ← rle_collect n s r;
      mret (r', rle_deref r :: vs)
  end.

(** A use of the creator: its calls in order. *)
Inductive call := Put (value : Z) | Checkpoint (value : Z) | Flush.

Definition creator_call s dest c (op : call) : result (S * uba * creator) :=
  match op with
  | Put v => creator_put s dest c v
  | Checkpoint v => creator_checkpoint s dest c v
  | Flush => creator_flush s dest c
  end.

(** The calls and then the flush of the destructor. *)
Fixpoint creator_run s dest c (ops : list call) : result (S * uba * creator) :=
  match ops with
  | [] => creator_flush s dest c
  | op :: ops => '(s, dest, c) ← creator_call s dest c op; creator_run s dest c ops
  end.
End code.

(** * Code words *)

Inductive word := WDelta (d : Z) | WAbs (v : Z) | WRun (n d : Z).

Definition word_items (w : word) : list item :=
  match w with
  | WDelta d => [IVl VlUint64 (if d <? 0 then 4 * - d + 1 else 4 * d)]
  | WAbs v => [IVl VlUint64 (4 * v + 2)]
  | WRun n d => [IVl VlUint64 (4 * n + 3); IVl VlInt32 d]
  end.

Definition word_ok (w : word) : Prop :=
  match w with
  | WDelta d => - 2 ^ 31 < d < 2 ^ 31
  | WAbs v => fits 32 v
  | WRun n d => 1 <= n < 2 ^ 30 /\ - 2 ^ 31 < d < 2 ^ 31
  end.

(** The numbers [id + d], [id + 2 d], ... of a run. *)
Fixpoint run_vals (n : nat) (d id : Z) : list Z :=
  match n with O => [] | S n => u32 (id + d) :: run_vals n d (u32 (id + d)) end.

Definition word_vals (id : Z) (w : word) : list Z :=
  match w with
  | WDelta d => [u32 (id + d)]
  | WAbs v => [v]
  | WRun n d => run_vals (Z.to_nat n) d id
  end.

Definition last_id (id : Z) (vs : list Z) : Z := default id (last vs).

Fixpoint denote (id : Z) (ws : list word) : list Z :=
  match ws with
  | [] => []
  | w :: ws => word_vals id w ++ denote (last_id id (word_vals id w)) ws
  end.

(** What the creator writes. *)
Definition flush_words (c : creator) : list word :=
  if m_rleCount c =? 1 then
    if Z.abs (m_rleDiff c) <? m_prevId c then [WDelta (m_rleDiff c)] else [WAbs (m_prevId c)]
  else if 1 <? m_rleCount c then [WRun (m_rleCount c) (m_rleDiff c)] else [].

Fixpoint emit (c : creator) (ops : list call) : list word :=
  match ops with
  | [] => flush_words c
  | Put v :: ops =>
      if v - m_prevId c =? m_rleDiff c
      then emit (mkCreator v (m_rleDiff c) (m_rleCount c + 1)) ops
      else flush_words c ++ emit (mkCreator v (v - m_prevId c) 1) ops
  | Checkpoint v :: ops => flush_words c ++ WAbs v :: emit (mkCreator v 0 0) ops
  | Flush :: ops => flush_words c ++ emit (mkCreator (m_prevId c) 0 0) ops
  end.

(** The numbers put into the stream; a checkpoint is one of them. *)
Fixpoint values (ops : list call) : list Z :=
  match ops with
  | [] => []
  | Put v :: ops => v :: values ops
  | Checkpoint v :: ops => v :: values ops
  | Flush :: ops => values ops
  end.

(** The numbers are 32 bits wide and consecutive ones differ by a signed 32-bit number. *)
Fixpoint calls_ok (prev : Z) (ops : list call) : Prop :=
  match ops with
  | [] => True
  | Put v :: ops => fits 32 v /\ - 2 ^ 31 <= v - prev < 2 ^ 31 /\ calls_ok v ops
  | Checkpoint v :: ops => fits 32 v /\ calls_ok v ops
  | Flush :: ops => calls_ok prev ops
  end.

(** The state between two calls: [base] is the last number written, the pending run
    leads from it to the last number put. *)
Record pending (base : Z) (c : creator) : Prop := {
  pd_base : fits 32 base;
  pd_prev : fits 32 (m_prevId c);
  pd_count : 0 <= m_rleCount c;
  pd_line : m_prevId c = base + m_rleCount c * m_rleDiff c;
  pd_diff : - 2 ^ 31 <= m_rleDiff c < 2 ^ 31;
  pd_none : m_rleCount c = 0 -> m_rleDiff c = 0;
}.

Lemma run_vals_snoc n d id : run_vals (S n) d id = run_vals n d id ++ [wrap 32 (id + Z.of_nat (S n) * d)].
Proof.
  revert id. induction n as [|n IH]; intros id.
  - cbn. by rewrite Z.mul_1_l.
  - change (run_vals (S (S n)) d id) with (u32 (id + d) :: run_vals (S n) d (u32 (id + d))).
    rewrite IH. change (run_vals (S n) d id) with (u32 (id + d) :: run_vals n d (u32 (id + d))).
    rewrite wrap_add_l by lia. replace (id + d + Z.of_nat (S n) * d) with (id + Z.of_nat (S (S n)) * d) by lia.
    done.
Qed.

Lemma run_vals_last n d id0 :
  last_id id0 (run_vals (S n) d id0) = wrap 32 (id0 + Z.of_nat (S n) * d).
Proof. rewrite run_vals_snoc. unfold last_id. by rewrite last_snoc. Qed.

Lemma last_id_app id l1 l2 : last_id id (l1 ++ l2) = last_id (last_id id l1) l2.
Proof. unfold last_id. rewrite last_app. by destruct (last l2). Qed.

Lemma denote_app id w1 w2 :
  denote id (w1 ++ w2) = denote id w1 ++ denote (last_id id (denote id w1)) w2.
Proof.
  revert id. induction w1 as [|w w1 IH]; intros id; cbn [denote app]; [done|].
  by rewrite IH, <- app_assoc, last_id_app.
Qed.

Lemma denote_last_run n d id0 : 0 < Z.of_nat n ->
  last_id id0 (run_vals n d id0) = wrap 32 (id0 + Z.of_nat n * d).
Proof. destruct n as [|n]; [lia|]. intros _. apply run_vals_last. Qed.

(** The pending run as numbers, and the words that flush it. *)
Definition pending_vals (base : Z) (c : creator) : list Z :=
  run_vals (Z.to_nat (m_rleCount c)) (m_rleDiff c) base.

Lemma flush_denote base c : pending base c ->
  denote base (flush_words c) = pending_vals base c /\
  last_id base (pending_vals base c) = m_prevId c.
Proof.
  intros [Hb Hp Hc Hl Hd Hn]. unfold flush_words, pending_vals. set (n := m_rleCount c) in *.
  assert (last_id base (run_vals (Z.to_nat n) (m_rleDiff c) base) = m_prevId c) as Hlast.
  { destruct (decide (n = 0)) as [E|E].
    - rewrite E. change (base = m_prevId c). rewrite Hl, E. lia.
    - rewrite denote_last_run by lia. rewrite Z2Nat.id, <- Hl by lia. by apply wrap_small. }
  split; [|done].
  destruct (Z.eqb_spec n 1) as [E|E].
  - rewrite E in *. change (Z.to_nat 1) with 1%nat in *. cbn [run_vals] in *.
    assert (u32 (base + m_rleDiff c) = m_prevId c) as Hv.
    { replace (base + m_rleDiff c) with (m_prevId c) by lia. by apply wrap_small. }
    case_match; cbn [denote word_vals app]; by rewrite Hv.
  - destruct (Z.ltb_spec 1 n); cbn [denote word_vals]; [by rewrite app_nil_r|].
    by replace n with 0 by lia.
Qed.

Lemma emit_denote ops base c : pending base c -> calls_ok (m_prevId c) ops ->
  denote base (emit c ops) = pending_vals base c ++ values ops.
Proof.
  revert base c. induction ops as [|[v|v|] ops IH]; intros base c Hpd Hok; cbn [emit values calls_ok] in *.
  - rewrite app_nil_r. by apply flush_denote.
  - destruct Hok as (Hv & Hd & Hok). pose proof Hpd as [Hb Hp Hc Hl Hdiff Hn].
    destruct (Z.eqb_spec (v - m_prevId c) (m_rleDiff c)) as [E|E].
    + rewrite (IH base); [|split; cbn; (done || lia)|done]. unfold pending_vals. cbn [m_rleCount m_rleDiff].
      replace (Z.to_nat (m_rleCount c + 1)) with (S (Z.to_nat (m_rleCount c))) by lia.
      rewrite run_vals_snoc, <- app_assoc. cbn [app]. do 2 f_equal.
      rewrite wrap_small; [lia|]. replace (base + _) with v by lia. done.
    + rewrite denote_app. destruct (flush_denote base c Hpd) as [-> ->]. f_equal.
      rewrite IH; [|split; cbn; (done || lia)|done]. unfold pending_vals. cbn [m_rleCount m_rleDiff].
      change (Z.to_nat 1) with 1%nat. cbn [run_vals app]. f_equal.
      replace (m_prevId c + (v - m_prevId c)) with v by lia. by apply wrap_small.
  - destruct Hok as (Hv & Hok). rewrite denote_app. destruct (flush_denote base c Hpd) as [-> ->]. f_equal.
    cbn [denote word_vals app]. f_equal. change (last_id (m_prevId c) [v]) with v.
    rewrite IH; [done|split; cbn; (done || lia)|done].
  - rewrite denote_app. destruct (flush_denote base c Hpd) as [-> ->]. f_equal.
    destruct Hpd. rewrite IH; [done|split; cbn; (done || lia)|done].
Qed.

(** The words are in their ranges while a run is shorter than 2^30. *)
Lemma flush_words_ok base c : pending base c -> m_rleCount c < 2 ^ 30 -> Forall word_ok (flush_words c).
Proof.
  intros [Hb Hp Hc Hl Hd Hn] Hs. unfold flush_words. unfold fits in *.
  destruct (Z.eqb_spec (m_rleCount c) 1) as [E|E].
  - rewrite E in Hl. destruct (Z.ltb_spec (Z.abs (m_rleDiff c)) (m_prevId c));
      apply Forall_singleton; cbn; unfold fits; lia.
  - destruct (Z.ltb_spec 1 (m_rleCount c)); [|done]. apply Forall_singleton. cbn. nia.
Qed.

Lemma emit_ok ops base c : pending base c -> calls_ok (m_prevId c) ops ->
  m_rleCount c + zlen ops < 2 ^ 30 -> Forall word_ok (emit c ops).
Proof.
  revert base c. induction ops as [|[v|v|] ops IH]; intros base c Hpd Hok Hs; cbn [emit calls_ok length] in *.
  - eapply flush_words_ok; [done|lia].
  - destruct Hok as (Hv & Hd & Hok). pose proof Hpd as [Hb Hp Hc Hl Hdiff Hn]. case_match.
    + apply (IH base); [split; cbn; (done || lia)|done|cbn; lia].
    + apply Forall_app. split; [eapply flush_words_ok; [done|lia]|].
      apply (IH (m_prevId c)); [split; cbn; (done || lia)|done|cbn; lia].
  - destruct Hok as (Hv & Hok). pose proof (pd_count _ _ Hpd). apply Forall_app.
    split; [eapply flush_words_ok; [done|lia]|].
    constructor; [done|]. apply (IH v); [split; cbn; (done || lia)|done|cbn; lia].
  - pose proof Hpd as []. apply Forall_app. split; [eapply flush_words_ok; [done|lia]|].
    apply (IH (m_prevId c)); [split; cbn; (done || lia)|done|cbn; lia].
Qed.

(** * Tagged words *)

Lemma tag_lor x k : 0 <= x -> 0 <= k < 4 -> (x <<< 2) ||| k = 4 * x + k.
Proof.
  intros Hx Hk. assert (k = 0 \/ k = 1 \/ k = 2 \/ k = 3) as Hc by lia.
  destruct x as [|p|p]; [| |lia]; destruct Hc as [-> | [-> | [-> | ->]]]; reflexivity.
Qed.

Lemma untag x k : 0 <= x -> 0 <= k < 4 -> (4 * x + k) &&& 3 = k /\ (4 * x + k) >>> 2 = x.
Proof.
  intros Hx Hk. replace (4 * x + k) with (k + x * 2 ^ 2) by lia. split.
  - change 3 with (Z.ones 2). rewrite Z.land_ones, Z.mod_add, Z.mod_small by lia. done.
  - rewrite Z.shiftr_div_pow2, Z.div_add, Z.div_small by lia. lia.
Qed.

Lemma shl2_wrap w x : 0 <= 4 * x < 2 ^ w -> wrap w (x <<< 2) = x <<< 2.
Proof. intros Hx. rewrite Z.shiftl_mul_pow2 by lia. apply wrap_small. unfold fits. lia. Qed.

Lemma neg_s32 d : - 2 ^ 31 < d < 2 ^ 31 -> s32 (- d) = - d /\ s32 (Z.abs d) = Z.abs d.
Proof. intros Hd. split; apply swrap_small; unfold sfits; lia. Qed.

Section exec.
Context {S : Type} {B : Backend S} {BO : BackendOk S}.

Definition words_items (ws : list word) : list item := concat (map word_items ws).

Lemma put_items_app (s : S) a i1 i2 :
  put_items s a (i1 ++ i2) = ('(s, a) ← put_items s a i1; put_items s a i2).
Proof using.
  revert s a. induction i1 as [|it i1 IH]; intros s a; cbn [app put_items]; [done|].
  destruct (put_item s a it) as [[s1 a1]|e]; [|done]. rewrite !bind_ok_l. apply IH.
Qed.

Lemma put_one ty v (s : S) a :
  put_items s a [IVl ty v] = ('(s, a, _) ← uba_sputVl ty s a v; mret (s, a)).
Proof using.
  cbn [put_items put_item]. by destruct (uba_sputVl ty s a v) as [[[? ?] ?]|].
Qed.

Lemma flush_exec base c (s : S) a : pending base c -> m_rleCount c < 2 ^ 30 ->
  creator_flush s a c =
    ('(s, a) ← put_items s a (words_items (flush_words c)); mret (s, a, mkCreator (m_prevId c) 0 0)).
Proof using.
  intros [Hb Hp Hc Hl Hd Hn] Hs. unfold creator_flush, flush_words. unfold fits in Hp, Hb.
  destruct (Z.eqb_spec (m_rleCount c) 1) as [E|E].
  - rewrite E in Hl. destruct (decide (m_rleDiff c = - 2 ^ 31)) as [Em|Em].
    + rewrite Em. change (u32 (s32 (Z.abs (- 2 ^ 31)))) with (2 ^ 31). change (Z.abs (- 2 ^ 31)) with (2 ^ 31).
      destruct (Z.ltb_spec (2 ^ 31) (m_prevId c)); [lia|].
      rewrite shl2_wrap, tag_lor by lia. unfold words_items. cbn [map concat word_items app].
      by rewrite put_one.
    + destruct (neg_s32 (m_rleDiff c)) as [Hneg Habs]; [lia|]. rewrite Habs, (wrap_small 32) by (unfold fits; lia).
      destruct (Z.ltb_spec (Z.abs (m_rleDiff c)) (m_prevId c)); unfold words_items; cbn [map concat word_items app].
      * rewrite put_one. destruct (Z.ltb_spec (m_rleDiff c) 0).
        -- rewrite Hneg, (wrap_small 64 (- _)) by (unfold fits; lia). by rewrite shl2_wrap, tag_lor by lia.
        -- rewrite (wrap_small 64 (m_rleDiff c)) by (unfold fits; lia). rewrite shl2_wrap, tag_lor by lia.
           by rewrite Z.add_0_r.
      * rewrite put_one. by rewrite shl2_wrap, tag_lor by lia.
  - destruct (Z.ltb_spec 1 (m_rleCount c)); unfold words_items; cbn [map concat word_items app]; [|done].
    rewrite shl2_wrap, tag_lor by lia. cbn [put_items put_item].
    destruct (uba_sputVl VlUint64 s a _) as [[[s1 a1] ?]|]; [|done]. rewrite !bind_ok_l.
    destruct (uba_sputVl VlInt32 s1 a1 _) as [[[s2 a2] ?]|]; done.
Qed.

Lemma put_exec (s : S) a c v : - 2 ^ 31 <= v - m_prevId c < 2 ^ 31 ->
  creator_put s a c v =
    if v - m_prevId c =? m_rleDiff c
    then Ok (s, a, mkCreator v (m_rleDiff c) (u32 (m_rleCount c + 1)))
    else '(s, a, _) ← creator_flush s a c; mret (s, a, mkCreator v (v - m_prevId c) 1).
Proof using.
  intros Hd. unfold creator_put, narrow_check. cbn [ity_min ity_max ity_cast].
  rewrite (proj2 (Z.ltb_ge (v - m_prevId c) _)), (proj2 (Z.ltb_ge _ (v - m_prevId c))) by lia.
  cbn [orb]. rewrite bind_ok_l, swrap_small by (unfold sfits; lia). done.
Qed.

Lemma run_exec ops base c (s : S) a : pending base c -> calls_ok (m_prevId c) ops ->
  m_rleCount c + zlen ops < 2 ^ 30 ->
  exists c', creator_run s a c ops =
    ('(s, a) ← put_items s a (words_items (emit c ops)); mret (s, a, c')).
Proof using.
  revert base c s a. induction ops as [|[v|v|] ops IH]; intros base c s a Hpd Hok Hs;
    cbn [emit creator_run calls_ok length creator_call] in *; pose proof Hpd as [Hb Hp Hc Hl Hdiff Hn].
  - eexists. by rewrite (flush_exec base) by (done || lia).
  - destruct Hok as (Hv & Hd & Hok). rewrite put_exec by done. case_match eqn:E.
    + rewrite bind_ok_l, (wrap_small 32) by (unfold fits; lia).
      apply (IH base); [split; cbn; (done || lia)|done|cbn; lia].
    + rewrite (flush_exec base) by (done || lia). unfold words_items. rewrite map_app, concat_app, put_items_app.
      fold (words_items (flush_words c)).
      destruct (put_items s a (words_items (flush_words c))) as [[s1 a1]|e]; [|by eexists (mkCreator 0 0 0)].
      rewrite !bind_ok_l. apply (IH (m_prevId c)); [split; cbn; (done || lia)|done|cbn; lia].
  - destruct Hok as (Hv & Hok). unfold creator_checkpoint. rewrite (flush_exec base) by (done || lia).
    unfold words_items. rewrite map_app, concat_app, put_items_app. fold (words_items (flush_words c)).
    destruct (put_items s a (words_items (flush_words c))) as [[s1 a1]|e]; [|by eexists (mkCreator 0 0 0)].
    rewrite !bind_ok_l. cbn [map concat word_items app put_items put_item m_rleDiff m_rleCount].
    unfold fits in Hv. rewrite shl2_wrap, tag_lor by lia.
    destruct (uba_sputVl VlUint64 s1 a1 (4 * v + 2)) as [[[s2 a2] ?]|e]; [|by eexists (mkCreator 0 0 0)].
    rewrite !bind_ok_l. apply (IH v); [split; cbn; (done || lia)|done|cbn; lia].
  - rewrite (flush_exec base) by (done || lia). unfold words_items. rewrite map_app, concat_app, put_items_app.
    fold (words_items (flush_words c)).
    destruct (put_items s a (words_items (flush_words c))) as [[s1 a1]|e]; [|by eexists (mkCreator 0 0 0)].
    rewrite !bind_ok_l. apply (IH (m_prevId c)); [split; cbn; (done || lia)|done|cbn; lia].
Qed.
End exec.

(** * Reading *)

Section read.
Context {S : Type} {B : Backend S} {BO : BackendOk S}.

Lemma rle_step_eq d n df i : - 2 ^ 31 < df < 2 ^ 31 -> 1 <= n < 2 ^ 32 ->
  rle_step (mkRle d n df i) = mkRle d (n - 1) df (u32 (i + df)).
Proof using.
  intros Hd Hn. unfold rle_step. cbn [m_d m_curRleCount m_curRleDiff m_curId].
  rewrite (wrap_small 32 (n - 1)) by (unfold fits; lia). f_equal.
  destruct (Z.ltb_spec df 0); [|done]. destruct (neg_s32 df Hd) as [-> _].
  rewrite (wrap_small 32 (- df)) by (unfold fits; lia). f_equal. lia.
Qed.

Lemma run_read n (s : S) d df i : - 2 ^ 31 < df < 2 ^ 31 -> Z.of_nat n < 2 ^ 32 ->
  rle_collect n s (mkRle d (Z.of_nat n) df i) =
    Ok (mkRle d 0 df (last_id i (run_vals n df i)), run_vals n df i).
Proof using.
  revert i. induction n as [|n IH]; intros i Hd Hn; [done|]. cbn [rle_collect]. unfold rle_next.
  cbn [m_curRleCount]. rewrite (proj2 (Z.eqb_neq _ 0)) by lia. rewrite bind_ok_l, rle_step_eq by lia.
  replace (Z.of_nat (Datatypes.S n) - 1) with (Z.of_nat n) by lia. rewrite IH by lia. rewrite bind_ok_l.
  unfold mret, result_ret, rle_deref. cbn [m_curId run_vals].
  change (u32 (i + df) :: run_vals n df (u32 (i + df))) with ([u32 (i + df)] ++ run_vals n df (u32 (i + df))).
  by rewrite last_id_app.
Qed.

Lemma rle_collect_app n m (s : S) r : rle_collect (n + m) s r =
  ('(r, v1) ← rle_collect n s r; '(r, v2) ← rle_collect m s r; mret (r, v1 ++ v2)).
Proof using.
  revert r. induction n as [|n IH]; intros r; cbn [Nat.add rle_collect].
  - rewrite bind_ok_l. by destruct (rle_collect m s r) as [[? ?]|].
  - destruct (rle_next s r) as [r1|e]; [|done]. rewrite !bind_ok_l, IH.
    destruct (rle_collect n s r1) as [[r2 v1]|e]; [|done]. rewrite !bind_ok_l.
    by destruct (rle_collect m s r2) as [[r3 v2]|e].
Qed.

Definition word_bytes (w : word) : list Z := concat (map item_bytes (word_items w)).

(** Reading the header of a word. *)
Lemma next_tag x k (s : S) d df i pre rest : 0 <= x -> 0 <= k < 4 -> 4 * x + k < 2 ^ 64 ->
  reading s d pre (item_bytes (IVl VlUint64 (4 * x + k)) ++ rest) ->
  exists d', reading s d' (pre ++ item_bytes (IVl VlUint64 (4 * x + k))) rest /\
    rle_next s (mkRle d 0 df i) =
      if k =? 0 then Ok (mkRle d' 0 df (u32 (i + x)))
      else if k =? 1 then Ok (mkRle d' 0 df (u32 (i - x)))
      else if k =? 2 then Ok (mkRle d' 0 df (u32 x))
      else '(d, diff) ← uba_sgetVl VlInt32 s d'; mret (rle_step (mkRle d (u32 x) diff i)).
Proof using BO.
  intros Hx Hk Hf Hr. destruct (read_vl VlUint64 (4 * x + k) s d pre rest) as (d' & Hg & Hr'); [|done|].
  { cbn. unfold fits. lia. }
  exists d'. split; [done|]. unfold rle_next. cbn [m_curRleCount m_d]. rewrite Hg, Z.eqb_refl, bind_ok_l.
  destruct (untag x k Hx Hk) as [-> ->]. rewrite (wrap_small 8) by (unfold fits; lia). done.
Qed.

Lemma word_read w (s : S) d df i pre rest : word_ok w -> reading s d pre (word_bytes w ++ rest) ->
  exists d' df', rle_collect (length (word_vals i w)) s (mkRle d 0 df i) =
      Ok (mkRle d' 0 df' (last_id i (word_vals i w)), word_vals i w) /\
    reading s d' (pre ++ word_bytes w) rest.
Proof using BO.
  intros Hw Hr. unfold word_bytes in *. destruct w as [x|v|n x]; cbn [word_items map concat word_ok word_vals] in *.
  - rewrite app_nil_r in *. cbn [length rle_collect].
    destruct (Z.ltb_spec x 0).
    + destruct (next_tag (- x) 1 s d df i pre rest) as (d' & Hr' & ->); [lia|lia|lia|done|].
      cbn [Z.eqb Pos.eqb]. rewrite !bind_ok_l. exists d', df. split; [|done].
      unfold mret, result_ret, rle_deref, last_id. cbn. by replace (i - - x) with (i + x) by lia.
    + rewrite <- (Z.add_0_r (4 * x)) in *.
      destruct (next_tag x 0 s d df i pre rest) as (d' & Hr' & ->); [lia|lia|lia|done|].
      cbn [Z.eqb]. rewrite !bind_ok_l. by exists d', df.
  - rewrite app_nil_r in *. cbn [length rle_collect]. unfold fits in Hw.
    destruct (next_tag v 2 s d df i pre rest) as (d' & Hr' & ->); [lia|lia|lia|done|].
    cbn [Z.eqb Pos.eqb]. rewrite !bind_ok_l. exists d', df. split; [|done].
    unfold mret, result_ret, rle_deref, last_id. cbn. by rewrite wrap_small by (unfold fits; lia).
  - destruct Hw as [Hn Hx]. rewrite app_nil_r, <- app_assoc in *.
    destruct (next_tag n 3 s d df i pre _ ltac:(lia) ltac:(lia) ltac:(lia) Hr) as (d1 & Hr1 & Hnext).
    destruct (read_vl VlInt32 x s d1 _ rest ltac:(cbn; lia) Hr1) as (d2 & Hg & Hr2).
    exists d2, x. rewrite app_assoc. split; [|done].
    destruct (Z.to_nat n) as [|m] eqn:Em; [lia|]. cbn [run_vals length rle_collect].
    rewrite Hnext. cbn [Z.eqb Pos.eqb]. rewrite Hg, bind_ok_l. unfold mret at 1, result_ret. rewrite bind_ok_l.
    rewrite (wrap_small 32 n) by (unfold fits; lia). rewrite rle_step_eq by lia.
    assert (length (run_vals m x (u32 (i + x))) = m) as Hlen.
    { clear. generalize (u32 (i + x)). induction m as [|m IH]; intros j; cbn; [done|]. by rewrite IH. }
    rewrite Hlen. replace (n - 1) with (Z.of_nat m) by lia. rewrite run_read by lia. rewrite bind_ok_l.
    unfold mret, result_ret, rle_deref. cbn [m_curId].
    change (u32 (i + x) :: run_vals m x (u32 (i + x))) with ([u32 (i + x)] ++ run_vals m x (u32 (i + x))).
    by rewrite last_id_app.
Qed.

Lemma words_read ws (s : S) d df i pre rest : Forall word_ok ws ->
  reading s d pre (concat (map word_bytes ws) ++ rest) ->
  exists d' df' i', rle_collect (length (denote i ws)) s (mkRle d 0 df i) = Ok (mkRle d' 0 df' i', denote i ws) /\
    reading s d' (pre ++ concat (map word_bytes ws)) rest.
Proof using BO.
  intros Hok. revert d df i pre. induction Hok as [|w ws Hw _ IH]; intros d df i pre Hr; cbn [map concat denote] in *.
  - exists d, df, i. split; [done|]. by rewrite app_nil_r.
  - rewrite <- app_assoc in Hr. destruct (word_read w s d df i pre _ Hw Hr) as (d1 & df1 & Hc & Hr1).
    destruct (IH d1 df1 (last_id i (word_vals i w)) _ Hr1) as (d2 & df2 & i2 & Hc2 & Hr2).
    exists d2, df2, i2. rewrite length_app, rle_collect_app, Hc, bind_ok_l, Hc2, bind_ok_l.
    split; [done|]. by rewrite app_assoc.
Qed.
End read.

Lemma words_bytes ws : concat (map item_bytes (words_items ws)) = concat (map word_bytes ws).
Proof.
  unfold words_items. induction ws as [|w ws IH]; cbn [map concat]; [done|].
  by rewrite map_app, concat_app, IH.
Qed.

Lemma words_items_ok ws : Forall word_ok ws -> Forall item_ok (words_items ws).
Proof.
  unfold words_items. induction 1 as [|w ws Hw _ IH]; cbn [map concat]; [done|]. apply Forall_app. split; [|done].
  destruct w as [d|v|n d]; cbn [word_items word_ok] in *; unfold fits in *; repeat constructor; cbn; unfold fits;
    try case_match; lia.
Qed.

Lemma pending_new : pending 0 creator_new.
Proof. split; cbn; unfold fits; lia. Qed.

(** The bytes of the words a sequence of calls writes. *)
Definition stream_bytes (ops : list call) : list Z := concat (map word_bytes (emit creator_new ops)).

(** C6: round trip of a run-length coded stream. For any sequence of fewer than 2^30
    calls of the creator ([put], [checkpoint], [flush]) in which numbers are 32 bits wide
    and a put number differs from its predecessor by a signed 32-bit number, the creator
    and its destructor's flush succeed and write the code words at the put position,
    leaving the other bytes of the window unchanged; a stream opened at that position has
    the first number as its current one and advancing it yields the other numbers in
    order, ending at the put position. *)
Theorem rle_roundtrip {S : Type} {B : Backend S} {BO : BackendOk S} (s : S) a l ops v vs :
  buf s a l -> 0 <= m_putPtr a <= zlen l -> calls_ok 0 ops -> zlen ops < 2 ^ 30 ->
  m_offSet a + m_putPtr a + zlen (stream_bytes ops) < 2 ^ 64 -> values ops = v :: vs ->
  exists s' a' c r r',
    creator_run s a creator_new ops = Ok (s', a', c) /\
    buf s' a' (splice l (m_putPtr a) (stream_bytes ops)) /\
    rle_new s' (setGetPtr a' (m_putPtr a)) = Ok r /\ rle_deref r = v /\
    rle_collect (length vs) s' r = Ok (r', vs) /\ m_getPtr (m_d r') = m_putPtr a'.
Proof.
  intros Hb Hp Hok Hn Hf Hvs. pose proof (emit_ok ops 0 creator_new pending_new Hok ltac:(cbn; lia)) as Hws.
  pose proof (items_encode _ (words_items_ok _ Hws)) as Henc. unfold stream_bytes in *.
  rewrite <- words_bytes in *. set (bs := concat _) in *.
  destruct (run_exec ops 0 creator_new s a pending_new Hok) as (c & Hrun); [cbn; lia|].
  destruct (put_items_ok _ _ Henc s a l Hb Hp Hf) as (s' & a' & Hput & [Hb' Ho' Hg' Hp']). fold bs in Hb', Hp'.
  pose proof (buf_len _ _ _ Hb') as Hl. pose proof (buf_fits _ _ _ Hb') as Hfit.
  assert (zlen (splice l (m_putPtr a) bs) = Z.max (zlen l) (m_putPtr a + zlen bs)) as Hsl.
  { unfold splice. rewrite !length_app, length_take, length_drop. lia. }
  destruct (words_read (emit creator_new ops) s' (setGetPtr a' (m_putPtr a)) 0 0
    (take (Z.to_nat (m_putPtr a)) l) (drop (Z.to_nat (m_putPtr a) + length bs) l) Hws)
    as (d' & df' & i' & Hc & [_ Hgd]).
  { rewrite <- words_bytes. fold bs. unfold setGetPtr. destruct (Z.leb_spec (m_len a') (m_putPtr a)); split.
    - apply buf_ptrs; [exact Hb'|unfold fits; lia|apply Hb'].
    - cbn. rewrite length_take. lia.
    - apply buf_ptrs; [exact Hb'|unfold fits; lia|apply Hb'].
    - cbn. rewrite length_take. lia. }
  rewrite (emit_denote ops 0 creator_new pending_new Hok) in Hc. change (pending_vals 0 creator_new) with (@nil Z) in Hc.
  cbn [app] in Hc. rewrite Hvs in Hc. cbn [length rle_collect] in Hc.
  fold (rle_new s' (setGetPtr a' (m_putPtr a))) in Hc.
  destruct (rle_new s' (setGetPtr a' (m_putPtr a))) as [r|e] eqn:En; [|done]. rewrite bind_ok_l in Hc.
  destruct (rle_collect (length vs) s' r) as [[r' us]|e] eqn:Ec; [|done]. rewrite bind_ok_l in Hc.
  unfold mret, result_ret in Hc. injection Hc as -> Hd Hu. subst us.
  exists s', a', c, r, (mkRle d' 0 df' i'). rewrite Hrun, Hput, bind_ok_l. split; [done|]. split; [done|].
  split; [done|]. split; [done|]. split; [done|]. cbn [m_d]. rewrite Hgd, <- words_bytes, length_app, length_take.
  fold bs. lia.
Qed.

Lemma rle_roundtrip_witness :
  exists s' a' c, creator_run (Vec.mk [9]) (mkUba 0 1 0 1) creator_new
    [Put 3; Put 4; Put 5; Put 1; Checkpoint 7; Put 7; Flush; Put 2000000] = Ok (s', a', c).
Proof.
  destruct (rle_roundtrip (Vec.mk [9]) (mkUba 0 1 0 1) [9]
    [Put 3; Put 4; Put 5; Put 1; Checkpoint 7; Put 7; Flush; Put 2000000] 3 [4; 5; 1; 7; 7; 2000000])
    as (s' & a' & c & _ & _ & H & _).
  - split; [uba_wf_tac|reflexivity].
  - cbn. lia.
  - cbn. unfold fits. lia.
  - cbn. lia.
  - reflexivity.
  - reflexivity.
  - exists s', a', c. exact H.
Defined.

(** [hasNext] only looks at the bytes left: while a run at the end of the stream is
    delivered it is already false. Here of the numbers 5, 5, 5 the last is lost to a
    reader that asks [hasNext]. *)
Theorem rle_hasNext_early :
  exists s a c r r1 r2,
    creator_run (Vec.mk []) (mkUba 0 0 0 0) creator_new [Put 5; Put 5; Put 5] = Ok (s, a, c) /\
    rle_new s a = Ok r /\ rle_deref r = 5 /\ rle_hasNext r = true /\
    rle_next s r = Ok r1 /\ rle_deref r1 = 5 /\ rle_hasNext r1 = false /\
    rle_next s r1 = Ok r2 /\ rle_deref r2 = 5.
Proof. do 6 eexists. repeat (split; [vm_compute; reflexivity|]). vm_compute. reflexivity. Qed.

(** Putting the same number again and again only counts. *)
Lemma put_same_run {S : Type} {B : Backend S} n (s : S) a k :
  0 <= k -> k + Z.of_nat n < 2 ^ 32 ->
  creator_run s a (mkCreator 0 0 k) (replicate n (Put 0)) = creator_flush s a (mkCreator 0 0 (k + Z.of_nat n)).
Proof.
  revert k. induction n as [|n IH]; intros k Hk Hn; cbn [replicate creator_run creator_call].
  { by rewrite Z.add_0_r. }
  rewrite put_exec by (cbn; lia). cbn [m_prevId m_rleDiff m_rleCount].
  change (0 - 0 =? 0) with true. cbn iota.
  rewrite bind_ok_l, (wrap_small 32) by (unfold fits; lia). rewrite IH by lia. do 2 f_equal. lia.
Qed.

(** The header of a run is computed in 32 bits, so that a run of 2^30 equal numbers is
    written as a run of length 0; a reader takes its length for 2^32. *)
Theorem rle_long_run {S : Type} {B : Backend S} {BO : BackendOk S} (s : S) a :
  creator_run s a creator_new (replicate (Z.to_nat (2 ^ 30)) (Put 0)) =
    ('(s, a) ← put_items s a [IVl VlUint64 3; IVl VlInt32 0]; mret (s, a, mkCreator 0 0 0)) /\
  forall d pre rest i, reading s d pre (word_bytes (WRun 0 0) ++ rest) ->
    exists d', rle_next s (mkRle d 0 0 i) = Ok (mkRle d' (2 ^ 32 - 1) 0 (u32 i)).
Proof.
  split.
  - unfold creator_new. rewrite put_same_run, Z2Nat.id by (rewrite ?Z2Nat.id; lia). unfold creator_flush.
    cbn [m_prevId m_rleDiff m_rleCount]. rewrite Z.add_0_l. change (2 ^ 30 =? 1) with false. change (1 <? 2 ^ 30) with true.
    change (u32 ((2 ^ 30) <<< 2) ||| 3) with 3. cbn [put_items put_item].
    destruct (uba_sputVl VlUint64 s a 3) as [[[s1 a1] ?]|]; [|done]. rewrite !bind_ok_l.
    by destruct (uba_sputVl VlInt32 s1 a1 0) as [[[s2 a2] ?]|].
  - intros d pre rest i Hr. unfold word_bytes in Hr. cbn [map word_items concat] in Hr.
    rewrite app_nil_r, <- app_assoc in Hr.
    destruct (next_tag 0 3 s d 0 i pre _ ltac:(lia) ltac:(lia) ltac:(lia) Hr) as (d1 & Hr1 & ->).
    destruct (read_vl VlInt32 0 s d1 _ rest ltac:(cbn; lia) Hr1) as (d2 & -> & _).
    exists d2. cbn [Z.eqb]. rewrite bind_ok_l. unfold mret, result_ret, rle_step.
    cbn [m_d m_curRleCount m_curRleDiff m_curId Z.ltb Z.compare]. by rewrite Z.add_0_r.
Qed.

Lemma rle_long_run_witness :
  exists d', rle_next (Vec.mk [3; 0]) (mkRle (mkUba 0 2 0 0) 0 0 7) = Ok (mkRle d' (2 ^ 32 - 1) 0 7).
Proof.
  refine (proj2 (rle_long_run (Vec.mk [3; 0]) (mkUba 0 2 0 0)) (mkUba 0 2 0 0) [] [] 7 _).
  split; [|reflexivity]. split; [uba_wf_tac|reflexivity].
Defined.
