(* ===== verification/UnaryCode.v ===== *)
(** The unary code: [include/sserialize/iterator/UnaryCodeIterator.h] and
    [src/iterator/UnaryCodeIterator.cpp].

    A number [n] is [n] zeros and a one; the bits fill the bytes from the most significant
    one on.  [unary] is the code as a list of bits, [stream] the bits of bytes. *)

From S2P Require Import Prelude UtilMath PackUnpack Storage ByteArray ByteStream Bits CompactUintArray BitSets.

(** * The creator *)

Record ucc := mkUcc { uc_lastChunk : Z; uc_inChunkBits : Z }.
Definition uc_new : ucc := mkUcc 0 8.

Section creator.
Context {S : Type} `{Backend S}.
Implicit Types (s : S).

(** [for(;v >= chunk_bits; v -= chunk_bits) m_d.put(m_lastChunk)] *)
Fixpoint uc_zeros (fuel : nat) s (d : uba) (lastChunk v : Z) : result (S * uba * Z) :=
  match fuel with
  | O => Err OutOfFuel
  | Datatypes.S fuel =>
      if 8 <=? v then
        '(s, d) ← uba_sput Uint8 s d lastChunk;
        uc_zeros fuel s d lastChunk (u32 (v - 8))
      else Ok (s, d, v)
  end.

Definition uc_put s (d : uba) (c : ucc) (v : Z) : result (S * uba * ucc) :=
  '(s, d, c, v) ←
    (if uc_inChunkBits c <=? v then
       '(s, d) ← uba_sput Uint8 s d (uc_lastChunk c);
       let v := u32 (v - uc_inChunkBits c) in
       '(s, d, v) ← uc_zeros (Datatypes.S (Z.to_nat (v / 8))) s d 0 v;
       mret (s, d, mkUcc 0 8, v)
     else Ok (s, d, c, v));
  if uc_inChunkBits c <=? v then Err AssertionFailed
  else
    let bits := uc_inChunkBits c - (v + 1) in
    mret (s, d, mkUcc (u8 (uc_lastChunk c ||| (1 <<< bits))) bits).

Definition uc_flush s (d : uba) (c : ucc) : result (S * uba) :=
  if uc_lastChunk c =? 0 then Ok (s, d) else uba_sput Uint8 s d (uc_lastChunk c).
End creator.

(** * The iterator *)

Record uit := mkUit { ui_d : uba; ui_pos : Z; ui_last : Z; ui_lastChunk : Z; ui_chunkBitPtr : Z }.

(** Looks for the stop bit: the bit pointer behind it, the zeros counted, and whether there
    was one. *)
Fixpoint uc_scan (fuel : nat) (chunk ptr last : Z) : result (Z * Z * bool) :=
  match fuel with
  | O => Err OutOfFuel
  | Datatypes.S fuel =>
      if ptr =? 0 then Ok (ptr, last, false)
      else
        let isStopBit := negb (chunk &&& ptr =? 0) in
        let ptr := ptr >>> 1 in
        if isStopBit then Ok (ptr, last, true) else uc_scan fuel chunk ptr (u32 (last + 1))
  end.

Section iterator.
Context {S : Type} `{Backend S}.
Implicit Types (s : S).

Definition uc_loadNextChunk s (it : uit) : result uit :=
  c ← uba_get Uint8 s (ui_d it) (ui_pos it);
  mret (mkUit (ui_d it) (u64 (ui_pos it + 1)) (ui_last it) c 128).

Fixpoint uc_load_loop (fuel : nat) s (it : uit) : result uit :=
  match fuel with
  | O => Err OutOfFuel
  | Datatypes.S fuel =>
      if ui_pos it <? m_len (ui_d it) then
        it ← uc_loadNextChunk s it;
        if negb (ui_lastChunk it =? 0) then Ok it
        else uc_load_loop fuel s (mkUit (ui_d it) (ui_pos it) (u32 (ui_last it + 8)) (ui_lastChunk it) (ui_chunkBitPtr it))
      else Ok it
  end.

Definition uc_next s (it : uit) : result uit :=
  if (m_len (ui_d it) <=? ui_pos it) && (ui_chunkBitPtr it =? 0) then Ok it
  else
    '(ptr, last, stopped) ←
      (if negb (ui_chunkBitPtr it =? 128) then uc_scan 9 (ui_lastChunk it) (ui_chunkBitPtr it) 0
       else Ok (ui_chunkBitPtr it, 0, false));
    if stopped : bool then Ok (mkUit (ui_d it) (ui_pos it) last (ui_lastChunk it) ptr)
    else
      _ ← throw_if (negb (ptr =? 0)) AssertionFailed;
      it ← uc_load_loop (Datatypes.S (Z.to_nat (m_len (ui_d it) - ui_pos it))) s
             (mkUit (ui_d it) (ui_pos it) last (ui_lastChunk it) ptr);
      '(ptr, last, _) ← uc_scan 9 (ui_lastChunk it) (ui_chunkBitPtr it) (ui_last it);
      mret (mkUit (ui_d it) (ui_pos it) last (ui_lastChunk it) ptr).

Definition ui_empty : uit := mkUit (uba_new 0 0) 0 0 0 0.
Definition ui_new s (d : uba) : result uit := uc_next s (mkUit d 0 0 0 0).
End iterator.

(** Several numbers. *)
Fixpoint uc_put_all {S : Type} `{Backend S} (s : S) (d : uba) (c : ucc) (vs : list Z) : result (S * uba * ucc) :=
  match vs with
  | [] => Ok (s, d, c)
  | v :: vs => '(s, d, c) ← uc_put s d c v; uc_put_all s d c vs
  end.
Fixpoint ui_take {S : Type} `{Backend S} (n : nat) (s : S) (it : uit) : result (list Z) :=
  match n with
  | O => Ok []
  | Datatypes.S n => it' ← uc_next s it; r ← ui_take n s it'; mret (ui_last it :: r)
  end.

(** * Bits *)

(** The lowest [n] bits from the most significant one on. *)
Fixpoint msb_bits (n : nat) (x : Z) : list bool :=
  match n with O => [] | S n => Z.testbit x (Z.of_nat n) :: msb_bits n x end.
Definition stream (l : list Z) : list bool := concat (map (msb_bits 8) l).
Abbreviation zeros n := (replicate n false).
Fixpoint unary (gs : list Z) : list bool :=
  match gs with [] => [] | g :: gs => zeros (Z.to_nat g) ++ true :: unary gs end.
Definition cost (gs : list Z) : Z := zlen (unary gs).

Lemma length_msb_bits n x : length (msb_bits n x) = n.
Proof. induction n; cbn; congruence. Qed.

Lemma stream_app a b : stream (a ++ b) = stream a ++ stream b.
Proof. unfold stream. by rewrite map_app, concat_app. Qed.

Lemma length_stream l : zlen (stream l) = 8 * zlen l.
Proof.
  induction l as [|x l IH]; [done|]. change (stream (x :: l)) with (msb_bits 8 x ++ stream l).
  rewrite length_app, length_msb_bits. cbn [length]. lia.
Qed.

Lemma unary_app a b : unary (a ++ b) = unary a ++ unary b.
Proof. induction a as [|x a IH]; cbn [app unary]; [done|]. by rewrite IH, <- app_assoc. Qed.

Lemma cost_nonneg gs : 0 <= cost gs.
Proof. unfold cost. lia. Qed.

Lemma cost_app a b : cost (a ++ b) = cost a + cost b.
Proof. unfold cost. rewrite unary_app, length_app. lia. Qed.

Lemma cost_one g : 0 <= g -> cost [g] = g + 1.
Proof. intros Hg. unfold cost. cbn [unary]. rewrite length_app, length_replicate. cbn [length]. lia. Qed.

Lemma msb_bits_ext n x y : (forall i, 0 <= i < Z.of_nat n -> Z.testbit x i = Z.testbit y i) -> msb_bits n x = msb_bits n y.
Proof.
  induction n as [|n IH]; intros Hxy; [done|]. cbn [msb_bits]. rewrite Hxy by lia. f_equal. apply IH. intros i Hi. apply Hxy. lia.
Qed.

Lemma msb_bits_zero n : msb_bits n 0 = zeros n.
Proof. induction n as [|n IH]; [done|]. cbn [msb_bits]. by rewrite Z.testbit_0_l, IH. Qed.

(** A number above another. *)
Lemma msb_bits_app a b x y : fits (Z.of_nat b) y ->
  msb_bits (a + b) (x * 2 ^ Z.of_nat b + y) = msb_bits a x ++ msb_bits b y.
Proof.
  intros Hy. assert (forall i, 0 <= i -> Z.testbit (x * 2 ^ Z.of_nat b + y) i = if i <? Z.of_nat b then Z.testbit y i else Z.testbit x (i - Z.of_nat b)) as Hbit.
  { intros i Hi. destruct (Z.ltb_spec i (Z.of_nat b)).
    - rewrite <- (Z.mod_pow2_bits_low (_ + _) (Z.of_nat b) i) by lia.
      rewrite Z.add_comm, Z.mod_add by lia. by rewrite Z.mod_small by exact Hy.
    - replace i with (i - Z.of_nat b + Z.of_nat b) at 1 by lia. rewrite <- Z.div_pow2_bits by lia. f_equal.
      rewrite Z.add_comm, Z.div_add by lia. rewrite Z.div_small by exact Hy. lia. }
  induction a as [|a IH]; cbn [plus msb_bits app].
  - apply msb_bits_ext. intros i Hi. rewrite Hbit by lia. by rewrite (proj2 (Z.ltb_lt _ _)) by lia.
  - rewrite Hbit by lia. rewrite (proj2 (Z.ltb_ge _ _)) by lia. f_equal; [f_equal; lia|exact IH].
Qed.

Lemma msb_bits_one n : msb_bits (S n) 1 = zeros n ++ [true].
Proof. induction n as [|n IH]; [done|]. cbn [msb_bits] in *. rewrite IH. cbn [replicate app]. by f_equal. Qed.

(** Bits begin with a run of zeros that a one ends, or there is no one. *)
Lemma zeros_or_one (bs : list bool) : bs = zeros (length bs) \/ exists j r, bs = zeros j ++ true :: r.
Proof.
  induction bs as [|[] bs IH]; [by left|by right; exists O, bs|]. destruct IH as [E|(j & r & ->)].
  - left. cbn [length replicate]. by f_equal.
  - right. by exists (S j), r.
Qed.

Lemma zeros_inj j k (r r' : list bool) : zeros j ++ true :: r = zeros k ++ true :: r' -> j = k /\ r = r'.
Proof. revert k. induction j as [|j IH]; intros [|k] [=]; [done|]. destruct (IH k) as [-> ->]; done. Qed.

Lemma zeros_split n k (bs r : list bool) : zeros n ++ bs = zeros k ++ true :: r -> (n <= k)%nat /\ bs = zeros (k - n) ++ true :: r.
Proof.
  revert k. induction n as [|n IH]; intros k Hk; [split; [lia|by rewrite Nat.sub_0_r]|]. destruct k as [|k]; [done|].
  cbn [replicate app] in Hk. injection Hk as Hk. destruct (IH k Hk) as [? ->]. split; [lia|done].
Qed.

(** * What the creator writes *)

Section writing.
Context {S : Type} {B : Backend S} {BO : BackendOk S} (a : uba) (l : list Z) (Hp : 0 <= m_putPtr a <= zlen l).
Implicit Types (s : S).

Lemma put_byte bs s d x : pushed a l bs s d -> byte_ok x -> m_offSet a + m_putPtr a + zlen bs + 1 < 2 ^ 64 ->
  exists s' d', uba_sput Uint8 s d x = Ok (s', d') /\ pushed a l (bs ++ [x]) s' d'.
Proof using Hp BO.
  intros Hps Hx Hf. pose proof Hps as [Hb Ho Hg Hpp].
  destruct (sput_ok s d _ Hb) with (ty := Uint8) (v := x) (bs := [x]) as (s' & d' & E & Hps'); try done.
  - rewrite zlen_splice_grow; lia.
  - cbn [scalar_pack]. unfold p_u8. by rewrite wrap_small.
  - by repeat constructor; unfold fits in *; lia.
  - cbn [length]. lia.
  - exists s', d'. split; [done|]. by eapply pushed_app.
Qed.

(** The bits put so far are those of the bytes written and of the upper part [p] of the
    current chunk. *)
Definition uc_rep s d (c : ucc) (gs : list Z) : Prop :=
  exists bs p (j k : nat), pushed a l bs s d /\ (j + k = 8)%nat /\ fits (Z.of_nat j) p /\
    uc_inChunkBits c = Z.of_nat k /\ uc_lastChunk c = p * 2 ^ Z.of_nat k /\ unary gs = stream bs ++ msb_bits j p.

Lemma uc_new_rep s : buf s a l -> uc_rep s a uc_new [].
Proof using Hp.
  intros Hb. exists [], 0, O, 8%nat. split; [|split; [done|split; [unfold fits; cbn; lia|done]]].
  split; [|done|done|cbn; lia]. unfold splice. cbn [length app]. by rewrite Nat.add_0_r, take_drop.
Qed.

Lemma uc_zeros_ok fuel bs s d v : pushed a l bs s d -> fits 32 v -> v / 8 < Z.of_nat fuel ->
  m_offSet a + m_putPtr a + zlen bs + v / 8 + 1 < 2 ^ 64 ->
  exists s' d' bs', uc_zeros fuel s d 0 v = Ok (s', d', v mod 8) /\ pushed a l (bs ++ bs') s' d' /\
    stream bs' = zeros (Z.to_nat (8 * (v / 8))).
Proof using Hp BO.
  revert bs s d v. induction fuel as [|fuel IH]; intros bs s d v Hps Hv Hfu Hf; [pose proof (Z.div_pos v 8); unfold fits in Hv; lia|].
  cbn [uc_zeros]. pose proof (Z.div_mod v 8 ltac:(lia)) as Hdm. pose proof (Z.mod_pos_bound v 8 ltac:(lia)) as Hm. unfold fits in Hv.
  destruct (Z.leb_spec 8 v).
  - assert (v / 8 = (v - 8) / 8 + 1 /\ v mod 8 = (v - 8) mod 8) as [Hd1 Hm1].
    { pose proof (Z.div_mod (v - 8) 8 ltac:(lia)). pose proof (Z.mod_pos_bound (v - 8) 8 ltac:(lia)). lia. }
    assert (0 <= (v - 8) / 8) by (apply Z.div_pos; lia).
    destruct (put_byte bs s d 0 Hps) as (s1 & d1 & -> & H1); [unfold fits; lia|lia|]. rewrite bind_ok_l.
    rewrite wrap_small by (unfold fits; lia).
    destruct (IH (bs ++ [0]) s1 d1 (v - 8) H1) as (s2 & d2 & bs' & -> & H2 & Hst); [unfold fits; lia|lia|rewrite length_app; cbn [length]; lia|].
    exists s2, d2, (0 :: bs'). rewrite Hm1. split; [done|]. rewrite <- app_assoc in H2. split; [exact H2|].
    change (stream (0 :: bs')) with (msb_bits 8 0 ++ stream bs'). rewrite Hst, msb_bits_zero, <- replicate_add. f_equal. lia.
  - exists s, d, []. rewrite Z.mod_small by lia. rewrite app_nil_r. split; [done|]. split; [done|]. by rewrite Z.div_small by lia.
Qed.

(** Setting the stop bit behind [v] zeros in the current chunk. *)
Lemma stop_bit p (j k v : nat) : (j + k = 8)%nat -> fits (Z.of_nat j) p -> (v < k)%nat ->
  let p' := p * 2 ^ Z.of_nat (Datatypes.S v) + 1 in
  u8 (p * 2 ^ Z.of_nat k ||| (1 <<< (Z.of_nat k - (Z.of_nat v + 1)))) = p' * 2 ^ Z.of_nat (k - Datatypes.S v) /\
  fits (Z.of_nat (j + Datatypes.S v)) p' /\ msb_bits (j + Datatypes.S v) p' = msb_bits j p ++ zeros v ++ [true].
Proof using.
  clear Hp.
  intros Hjk Hfp Hv p'. unfold fits in *.
  assert (2 ^ Z.of_nat k = 2 ^ Z.of_nat (k - Datatypes.S v) * 2 ^ Z.of_nat (Datatypes.S v)) as Hk.
  { rewrite <- Z.pow_add_r by lia. f_equal. lia. }
  assert (2 ^ Z.of_nat (j + Datatypes.S v) = 2 ^ Z.of_nat j * 2 ^ Z.of_nat (Datatypes.S v)) as Hj.
  { rewrite <- Z.pow_add_r by lia. f_equal. lia. }
  assert (2 <= 2 ^ Z.of_nat (Datatypes.S v)) as H2 by (change 2 with (2 ^ 1) at 1; apply Z.pow_le_mono_r; lia).
  assert (0 < 2 ^ Z.of_nat (k - Datatypes.S v)) by (apply Z.pow_pos_nonneg; lia).
  assert (0 <= p' < 2 ^ Z.of_nat (j + Datatypes.S v)) as Hp' by (unfold p'; rewrite Hj; nia).
  split; [|split; [exact Hp'|]].
  - rewrite Z.shiftl_1_l. replace (Z.of_nat k - (Z.of_nat v + 1)) with (Z.of_nat (k - Datatypes.S v)) by lia.
    assert (p * 2 ^ Z.of_nat k ||| 2 ^ Z.of_nat (k - Datatypes.S v) = p' * 2 ^ Z.of_nat (k - Datatypes.S v)) as ->.
    { assert (p' * 2 ^ Z.of_nat (k - Datatypes.S v) = p * 2 ^ Z.of_nat k + 2 ^ Z.of_nat (k - Datatypes.S v)) as -> by (unfold p'; nia).
      symmetry. rewrite <- Z.lxor_lor, <- Z.add_nocarry_lxor; [done| |]; apply Z.bits_inj'; intros i Hi;
        rewrite Z.land_spec, Z.bits_0, testbit_pow2' by lia; destruct (Z.eqb_spec (Z.of_nat (k - Datatypes.S v)) i); rewrite ?andb_false_r; try done;
        rewrite Z.mul_pow2_bits_low by lia; done. }
    apply wrap_small. unfold fits. assert (2 ^ 8 = 2 ^ Z.of_nat (j + Datatypes.S v) * 2 ^ Z.of_nat (k - Datatypes.S v)) as ->.
    { rewrite <- Z.pow_add_r by lia. f_equal. lia. }
    nia.
  - unfold p'. rewrite msb_bits_app by (unfold fits; lia). by rewrite msb_bits_one.
Qed.

Lemma uc_put_ok s d c gs v : uc_rep s d c gs -> fits 32 v -> 8 * (m_offSet a + m_putPtr a) + cost gs + v + 16 < 2 ^ 64 ->
  exists s' d' c', uc_put s d c v = Ok (s', d', c') /\ uc_rep s' d' c' (gs ++ [v]).
Proof using Hp BO.
  intros (bs & p & j & k & Hps & Hjk & Hfp & Hin & Hlc & Hun) Hv Hf. unfold uc_put. rewrite Hin.
  assert (cost gs = 8 * zlen bs + Z.of_nat j) as Hc by (unfold cost; rewrite Hun, length_app, length_msb_bits; pose proof (length_stream bs); lia).
  assert (unary (gs ++ [v]) = stream bs ++ msb_bits j p ++ zeros (Z.to_nat v) ++ [true]) as Hgv.
  { rewrite unary_app, Hun. cbn [unary]. by rewrite <- app_assoc. }
  unfold fits in Hv. destruct (Z.leb_spec (Z.of_nat k) v) as [Hkv|Hkv].
  - assert (byte_ok (uc_lastChunk c)) as Hbc.
    { rewrite Hlc. unfold fits in *. assert (2 ^ 8 = 2 ^ Z.of_nat j * 2 ^ Z.of_nat k) as -> by (rewrite <- Z.pow_add_r by lia; f_equal; lia).
      assert (0 < 2 ^ Z.of_nat k) by (apply Z.pow_pos_nonneg; lia). nia. }
    destruct (put_byte bs s d _ Hps Hbc) as (s1 & d1 & -> & H1); [lia|]. rewrite bind_ok_l.
    rewrite (wrap_small 32 (v - Z.of_nat k)) by (unfold fits; lia). set (v1 := v - Z.of_nat k).
    pose proof (Z.div_mod v1 8 ltac:(lia)) as Hdm. pose proof (Z.mod_pos_bound v1 8 ltac:(lia)) as Hm.
    destruct (uc_zeros_ok (Datatypes.S (Z.to_nat (v1 / 8))) _ s1 d1 v1 H1) as (s2 & d2 & bs2 & -> & H2 & Hst);
      [unfold fits; lia|lia|rewrite length_app; cbn [length]; lia|].
    rewrite !bind_ok_l. cbn [uc_inChunkBits uc_lastChunk]. rewrite (proj2 (Z.leb_gt _ _)) by lia.
    destruct (stop_bit 0 0 8 (Z.to_nat (v1 mod 8)) eq_refl ltac:(unfold fits; cbn; lia) ltac:(lia)) as (E1 & E2 & E3).
    rewrite Z.mul_0_l, Z2Nat.id in E1 by lia. change (Z.of_nat 8) with 8 in E1. rewrite E1.
    eexists _, _, _. split; [done|]. eexists _, _, _, (8 - Datatypes.S (Z.to_nat (v1 mod 8)))%nat.
    split; [exact H2|]. split; [|split; [exact E2|split; [cbn [uc_inChunkBits]; lia|split; [done|]]]]; [lia|].
    rewrite Hgv, !stream_app, Hst, E3, <- !app_assoc. f_equal. cbn [msb_bits app].
    change (stream [uc_lastChunk c]) with (msb_bits 8 (uc_lastChunk c) ++ []). rewrite app_nil_r, Hlc.
    assert (msb_bits 8 (p * 2 ^ Z.of_nat k) = msb_bits j p ++ zeros k) as ->.
    { rewrite <- Hjk, <- (Z.add_0_r (p * _)), msb_bits_app by (unfold fits; lia). by rewrite msb_bits_zero. }
    rewrite <- app_assoc. f_equal. rewrite !app_assoc, <- !replicate_add. do 2 f_equal. lia.
  - rewrite !bind_ok_l, Hin, (proj2 (Z.leb_gt _ _)), Hlc by lia.
    destruct (stop_bit p j k (Z.to_nat v) Hjk Hfp ltac:(lia)) as (E1 & E2 & E3). rewrite Z2Nat.id in E1 by lia. rewrite E1.
    eexists _, _, _. split; [done|]. eexists _, _, _, (k - Datatypes.S (Z.to_nat v))%nat.
    split; [exact Hps|]. split; [|split; [exact E2|split; [cbn [uc_inChunkBits]; lia|split; [done|]]]]; [lia|].
    by rewrite E3, Hgv.
Qed.

(** The last chunk is filled with zeros. *)
Lemma uc_flush_ok s d c gs : uc_rep s d c gs -> 8 * (m_offSet a + m_putPtr a) + cost gs + 16 < 2 ^ 64 ->
  exists s' d' bs (k : nat), uc_flush s d c = Ok (s', d') /\ pushed a l bs s' d' /\ (k < 8)%nat /\ stream bs = unary gs ++ zeros k.
Proof using Hp BO.
  intros (bs & p & j & k & Hps & Hjk & Hfp & Hin & Hlc & Hun) Hf. unfold uc_flush.
  assert (cost gs = 8 * zlen bs + Z.of_nat j) as Hc by (unfold cost; rewrite Hun, length_app, length_msb_bits; pose proof (length_stream bs); lia).
  assert (0 < 2 ^ Z.of_nat k) by (apply Z.pow_pos_nonneg; lia).
  destruct (Z.eqb_spec (uc_lastChunk c) 0) as [E|E].
  - assert (p = 0) as -> by nia. rewrite msb_bits_zero in Hun. exists s, d, bs, O.
    split; [done|]. split; [done|]. split; [lia|]. rewrite app_nil_r. destruct j as [|j]; [by rewrite Hun, app_nil_r|].
    exfalso. destruct gs as [|g gs _] using rev_ind; [symmetry in Hun; by apply app_nil in Hun as [_ ?]|].
    rewrite unary_app in Hun. cbn [unary] in Hun. rewrite app_assoc in Hun.
    replace (Datatypes.S j) with (j + 1)%nat in Hun by lia. rewrite replicate_add, app_assoc in Hun.
    by apply app_inj_tail in Hun as [_ ?].
  - assert (byte_ok (uc_lastChunk c)) as Hbc.
    { rewrite Hlc. unfold fits in *. assert (2 ^ 8 = 2 ^ Z.of_nat j * 2 ^ Z.of_nat k) as -> by (rewrite <- Z.pow_add_r by lia; f_equal; lia). nia. }
    destruct (put_byte bs s d _ Hps Hbc) as (s1 & d1 & -> & H1); [lia|]. exists s1, d1, (bs ++ [uc_lastChunk c]), k.
    split; [done|]. split; [done|]. assert (j <> 0%nat).
    { intros ->. unfold fits in Hfp. cbn in Hfp. assert (p = 0) as -> by lia. done. }
    split; [lia|]. rewrite stream_app, Hun, <- app_assoc. f_equal. change (stream [uc_lastChunk c]) with (msb_bits 8 (uc_lastChunk c) ++ []).
    rewrite app_nil_r, Hlc, <- Hjk, <- (Z.add_0_r (p * _)), msb_bits_app by (unfold fits; lia). by rewrite msb_bits_zero.
Qed.
End writing.

(** * What the iterator reads *)

Definition ptr_of (n : nat) : Z := if decide (n = O) then 0 else 2 ^ (Z.of_nat n - 1).

Lemma ptr_of_S n : ptr_of (S n) = 2 ^ Z.of_nat n /\ ptr_of (S n) >>> 1 = ptr_of n.
Proof.
  unfold ptr_of. rewrite decide_False by done. replace (Z.of_nat (S n) - 1) with (Z.of_nat n) by lia. split; [done|].
  destruct (decide (n = O)) as [->|Hn]; [done|]. rewrite <- Z.div2_spec, Z.div2_div.
  replace (Z.of_nat n) with (Z.of_nat n - 1 + 1) at 1 by lia. rewrite Z.pow_add_r by lia. change (2 ^ 1) with 2. by rewrite Z.div_mul.
Qed.

Lemma ptr_of_0 n : ptr_of n = 0 <-> n = O.
Proof.
  unfold ptr_of. destruct (decide (n = O)) as [->|Hn]; [done|]. split; [|done]. intros E.
  pose proof (Z.pow_pos_nonneg 2 (Z.of_nat n - 1)). lia.
Qed.

(** The scan counts the zeros in front of the first one. *)
Lemma uc_scan_ok fuel n chunk last : (n < fuel)%nat -> 0 <= last -> last + Z.of_nat n < 2 ^ 32 ->
  (forall j r, msb_bits n chunk = zeros j ++ true :: r ->
     uc_scan fuel chunk (ptr_of n) last = Ok (ptr_of (length r), last + Z.of_nat j, true) /\ msb_bits (length r) chunk = r) /\
  (msb_bits n chunk = zeros n -> uc_scan fuel chunk (ptr_of n) last = Ok (0, last + Z.of_nat n, false)).
Proof.
  revert n last. induction fuel as [|fuel IH]; intros n last Hf H0 Hl; [lia|]. cbn [uc_scan]. destruct n as [|n].
  - change (ptr_of 0) with 0. cbn [Z.eqb msb_bits]. split; [by intros [|j] r|]. intros _. do 3 f_equal. lia.
  - rewrite (proj2 (Z.eqb_neq _ _)) by (rewrite ptr_of_0; lia). destruct (ptr_of_S n) as [E1 E2]. rewrite E2, E1.
    rewrite <- Z.shiftl_1_l, land_bit_testbit by lia. cbn [msb_bits].
    destruct (Z.testbit chunk (Z.of_nat n)) eqn:Hb.
    + split; [|done]. intros [|j] r [= <-]. rewrite length_msb_bits. split; [|done]. do 3 f_equal. lia.
    + rewrite wrap_small by (unfold fits; lia). destruct (IH n (last + 1)) as [I1 I2]; [lia|lia|lia|]. split.
      * intros [|j] r [= Hr]. destruct (I1 j r Hr) as [-> ?]. split; [|done]. do 3 f_equal. lia.
      * intros [= Hr]. rewrite (I2 Hr). do 3 f_equal. lia.
Qed.

Section reading.
Context {S : Type} {B : Backend S} {BO : BackendOk S} (s : S) (d : uba) (l : list Z) (Hb : buf s d l).

(** The bits in front of the iterator. *)
Record ui_rep (it : uit) (bits : list bool) : Prop := {
  ui_data : ui_d it = d;
  ui_in : 0 <= ui_pos it <= zlen l;
  ui_bits : exists n : nat, (n < 8)%nat /\ ui_chunkBitPtr it = ptr_of n /\
    bits = msb_bits n (ui_lastChunk it) ++ stream (drop (Z.to_nat (ui_pos it)) l);
}.

Lemma uc_load_ok it : ui_d it = d -> 0 <= ui_pos it < zlen l ->
  exists c, l !! Z.to_nat (ui_pos it) = Some c /\ uc_loadNextChunk s it = Ok (mkUit d (ui_pos it + 1) (ui_last it) c 128) /\
    stream (drop (Z.to_nat (ui_pos it)) l) = msb_bits 8 c ++ stream (drop (Z.to_nat (ui_pos it + 1)) l).
Proof using Hb BO.
  intros Hd Hin. destruct (lookup_lt_is_Some_2 l (Z.to_nat (ui_pos it))) as [c Hc]; [lia|]. exists c. split; [done|].
  pose proof (buf_fits _ _ _ Hb). unfold uc_loadNextChunk. rewrite Hd. split.
  - rewrite (buf_get Uint8 s d l _ Hb) by (cbn [scalar_len]; lia). cbn [scalar_len]. rewrite (proj2 (Z.ltb_ge _ _)) by lia.
    assert (vread l (ui_pos it) 1 = Ok [c]) as ->.
    { apply vread_ok. split; [lia|]. split; [lia|]. split; [lia|]. by rewrite (drop_S _ _ _ Hc). }
    rewrite bind_ok_l. cbn [scalar_unpack]. unfold up_u8. rewrite vget_cons_0, bind_ok_l, wrap_small by (unfold fits; lia). done.
  - rewrite (drop_S _ _ _ Hc). replace (Z.to_nat (ui_pos it + 1)) with (Datatypes.S (Z.to_nat (ui_pos it))) by lia. done.
Qed.

(** Skipping chunks without a one. *)
Lemma uc_load_loop_ok fuel it (g : nat) r : ui_d it = d -> 0 <= ui_pos it <= zlen l -> (Z.to_nat (zlen l - ui_pos it) < fuel)%nat ->
  0 <= ui_last it -> ui_last it + Z.of_nat g < 2 ^ 32 -> stream (drop (Z.to_nat (ui_pos it)) l) = zeros g ++ true :: r ->
  exists it' (j : nat) r', uc_load_loop fuel s it = Ok it' /\ ui_d it' = d /\ 0 <= ui_pos it' <= zlen l /\ ui_chunkBitPtr it' = ptr_of 8 /\
    ui_last it' + Z.of_nat j = ui_last it + Z.of_nat g /\ 0 <= ui_last it' /\ msb_bits 8 (ui_lastChunk it') = zeros j ++ true :: r' /\
    r = r' ++ stream (drop (Z.to_nat (ui_pos it')) l).
Proof using Hb BO.
  revert it g. induction fuel as [|fuel IH]; intros it g Hd Hin Hfu H0 Hl Hst; [lia|]. cbn [uc_load_loop].
  rewrite Hd, (buf_len _ _ _ Hb). destruct (Z.ltb_spec (ui_pos it) (zlen l)) as [Hlt|Hge].
  2: { rewrite drop_ge in Hst by lia. by destruct g. }
  destruct (uc_load_ok it Hd ltac:(lia)) as (c & Hc & -> & Hs). rewrite bind_ok_l. cbn [ui_lastChunk ui_d ui_pos ui_last ui_chunkBitPtr].
  rewrite Hst in Hs. destruct (Z.eqb_spec c 0) as [->|Hne]; cbn [negb].
  - rewrite msb_bits_zero in Hs. symmetry in Hs. apply zeros_split in Hs as [H8 Hs]. rewrite wrap_small by (unfold fits; lia).
    destruct (IH (mkUit d (ui_pos it + 1) (ui_last it + 8) 0 128) (g - 8)%nat eq_refl) as (it' & j & r' & -> & ? & ? & ? & Hj & ?);
      cbn [ui_pos ui_last] in *; try done; try lia. exists it', j, r'. split; [done|]. split; [done|]. split; [done|]. split; [done|]. split; [lia|done].
  - destruct (zeros_or_one (msb_bits 8 c)) as [E|(j & r' & E)].
    { exfalso. rewrite length_msb_bits in E. apply Hne. apply Z.bits_inj'. intros i Hi. rewrite Z.bits_0.
      destruct (Z.ltb_spec i 8); [|apply (testbit_fits_high 8); [|lia]; exact (Forall_lookup_1 _ _ _ _ (buf_bytes _ _ _ Hb) Hc)].
      cbn in E. injection E as E7 E6 E5 E4 E3 E2 E1 E0.
      assert (i = 0 \/ i = 1 \/ i = 2 \/ i = 3 \/ i = 4 \/ i = 5 \/ i = 6 \/ i = 7) as Hi8 by lia.
      destruct Hi8 as [->|[->|[->|[->|[->|[->|[->| ->]]]]]]]; done. }
    rewrite E, <- app_assoc in Hs. cbn [app] in Hs. apply zeros_inj in Hs as [<- ->].
    eexists _, g, r'. split; [done|]. cbn [ui_d ui_pos ui_chunkBitPtr ui_last ui_lastChunk].
    split; [done|]. split; [lia|]. split; [done|]. split; [done|]. split; [done|]. split; [exact E|done].
Qed.

(** [++] reads the next number. *)
Lemma uc_next_ok it (g : nat) r : ui_rep it (zeros g ++ true :: r) -> Z.of_nat g + 8 < 2 ^ 32 ->
  exists it', uc_next s it = Ok it' /\ ui_last it' = Z.of_nat g /\ ui_rep it' r.
Proof using Hb BO.
  intros [Hd Hin (n & Hn & Hptr & Hbits)] Hg. unfold uc_next. rewrite Hd, (buf_len _ _ _ Hb).
  destruct ((zlen l <=? ui_pos it) && (ui_chunkBitPtr it =? 0)) eqn:Eend.
  { apply andb_prop in Eend as [E1%Z.leb_le E2%Z.eqb_eq]. rewrite Hptr, ptr_of_0 in E2. subst n. rewrite drop_ge in Hbits by lia. by destruct g. }
  assert ((ui_chunkBitPtr it =? 128) = false) as ->.
  { apply Z.eqb_neq. rewrite Hptr. unfold ptr_of. case_decide; [done|]. change 128 with (2 ^ 7).
    assert (2 ^ (Z.of_nat n - 1) < 2 ^ 7) by (apply Z.pow_lt_mono_r; lia). lia. }
  cbn [negb]. rewrite Hptr. destruct (uc_scan_ok 9 n (ui_lastChunk it) 0) as [Hone Hnone]; [lia|lia|lia|].
  destruct (zeros_or_one (msb_bits n (ui_lastChunk it))) as [E|(j & r1 & E)].
  - rewrite length_msb_bits in E. rewrite (Hnone E), bind_ok_l. rewrite E in Hbits. symmetry in Hbits. apply zeros_split in Hbits as [Hng Hst].
    cbn [Z.eqb negb throw_if]. rewrite bind_ok_l.
    destruct (uc_load_loop_ok (Datatypes.S (Z.to_nat (zlen l - ui_pos it))) (mkUit d (ui_pos it) (0 + Z.of_nat n) (ui_lastChunk it) 0) (g - n) r)
      as (it' & j & r' & -> & Hd' & Hin' & Hptr' & Hj & H0 & Hm & ->); cbn [ui_pos ui_last ui_d] in *; try done; try lia.
    rewrite bind_ok_l, Hptr'. destruct (uc_scan_ok 9 8 (ui_lastChunk it') (ui_last it')) as [Hone' _]; [lia|lia| |].
    { assert (length (msb_bits 8 (ui_lastChunk it')) = 8%nat) as Hl8 by apply length_msb_bits. lia. }
    destruct (Hone' j r' Hm) as [-> Hr']. rewrite bind_ok_l. eexists. split; [done|]. split; [cbn [ui_last]; lia|].
    split; [done|done|]. exists (length r'). split; [|split; [done|]].
    + apply (f_equal length) in Hm. rewrite length_msb_bits, length_app, length_replicate in Hm. cbn [length] in Hm. lia.
    + cbn [ui_lastChunk ui_pos]. by rewrite Hr'.
  - destruct (Hone j r1 E) as [-> Hr1]. rewrite bind_ok_l. rewrite E, <- app_assoc in Hbits. cbn [app] in Hbits. apply zeros_inj in Hbits as [-> ->].
    eexists. split; [done|]. split; [done|]. split; [done|done|]. exists (length r1). split; [|split; [done|]].
    + apply (f_equal length) in E. rewrite length_msb_bits, length_app, length_replicate in E. cbn [length] in E. lia.
    + cbn [ui_lastChunk ui_pos]. by rewrite Hr1.
Qed.
(** Behind the last number [++] still returns. *)
Lemma uc_scan_total fuel n chunk last : (n < fuel)%nat -> exists ptr last' b, uc_scan fuel chunk (ptr_of n) last = Ok (ptr, last', b) /\ (b = false -> ptr = 0).
Proof using.
  clear Hb. revert n last. induction fuel as [|fuel IH]; intros n last Hf; [lia|]. cbn [uc_scan]. destruct n as [|n]; [by eexists _, _, _|].
  rewrite (proj2 (Z.eqb_neq _ _)) by (rewrite ptr_of_0; lia). rewrite (proj2 (ptr_of_S n)). destruct (negb _); [by eexists _, _, _|]. apply IH. lia.
Qed.

Lemma uc_load_loop_total fuel it : ui_d it = d -> 0 <= ui_pos it <= zlen l -> (Z.to_nat (zlen l - ui_pos it) < fuel)%nat ->
  ui_chunkBitPtr it = ptr_of 0 \/ ui_chunkBitPtr it = ptr_of 8 ->
  exists it', uc_load_loop fuel s it = Ok it' /\ (ui_chunkBitPtr it' = ptr_of 0 \/ ui_chunkBitPtr it' = ptr_of 8).
Proof using Hb BO.
  revert it. induction fuel as [|fuel IH]; intros it Hd Hin Hfu Hp; [lia|]. cbn [uc_load_loop]. rewrite Hd, (buf_len _ _ _ Hb).
  destruct (Z.ltb_spec (ui_pos it) (zlen l)); [|by exists it].
  destruct (uc_load_ok it Hd ltac:(lia)) as (c & _ & -> & _). rewrite bind_ok_l. cbn [ui_lastChunk ui_d ui_pos ui_last ui_chunkBitPtr].
  destruct (c =? 0); cbn [negb]; [|eexists; split; [done|by right]]. apply IH; cbn [ui_d ui_pos]; try done; [lia|lia|by right].
Qed.

Lemma uc_next_total it bits : ui_rep it bits -> exists it', uc_next s it = Ok it'.
Proof using Hb BO.
  intros [Hd Hin (n & Hn & Hptr & _)]. unfold uc_next. rewrite Hd, (buf_len _ _ _ Hb). destruct (_ && _); [by exists it|].
  assert (exists ptr last b, (if negb (ui_chunkBitPtr it =? 128) then uc_scan 9 (ui_lastChunk it) (ui_chunkBitPtr it) 0
       else Ok (ui_chunkBitPtr it, 0, false)) = Ok (ptr, last, b) /\ (b = false -> ptr = 0)) as (ptr & last & b & -> & Hz).
  { rewrite Hptr. rewrite (proj2 (Z.eqb_neq _ _)); [apply uc_scan_total; lia|]. unfold ptr_of. case_decide; [done|].
    change 128 with (2 ^ 7). assert (2 ^ (Z.of_nat n - 1) < 2 ^ 7) by (apply Z.pow_lt_mono_r; lia). lia. }
  rewrite bind_ok_l. destruct b; [by eexists|]. rewrite (Hz eq_refl). cbn [Z.eqb negb throw_if]. rewrite bind_ok_l.
  destruct (uc_load_loop_total (Datatypes.S (Z.to_nat (zlen l - ui_pos it))) (mkUit d (ui_pos it) last (ui_lastChunk it) 0))
    as (it' & -> & Hp'); cbn [ui_d ui_pos ui_chunkBitPtr]; try done; [lia|by left|]. rewrite bind_ok_l.
  assert (exists m, (m < 9)%nat /\ ui_chunkBitPtr it' = ptr_of m) as (m & Hm & ->) by (destruct Hp' as [-> | ->]; [exists O|exists 8%nat]; split; done || lia).
  destruct (uc_scan_total 9 m (ui_lastChunk it') (ui_last it') Hm) as (? & ? & ? & -> & _). rewrite bind_ok_l. by eexists.
Qed.

(** The iterator is at the first of the numbers [gs]; the last byte is filled up with zeros. *)
Definition at_gaps (it : uit) (gs : list Z) : Prop :=
  match gs with
  | [] => True
  | g :: gs => ui_last it = g /\ exists k, ui_rep it (unary gs ++ zeros k)
  end.

Lemma at_gaps_next it g gs : at_gaps it (g :: gs) -> Forall (fun g => 0 <= g < 2 ^ 32 - 8) gs ->
  exists it', uc_next s it = Ok it' /\ at_gaps it' gs.
Proof using Hb BO.
  intros [_ (k & Hr)] Hgs. destruct gs as [|g' gs].
  - destruct (uc_next_total it _ Hr) as [it' ->]. by exists it'.
  - apply Forall_cons in Hgs as [Hg Hgs]. cbn [unary] in Hr. rewrite <- app_assoc in Hr. cbn [app] in Hr.
    destruct (uc_next_ok it _ _ Hr) as (it' & -> & Hl & Hr'); [lia|]. exists it'. split; [done|]. split; [lia|by exists k].
Qed.

Lemma ui_new_ok gs k : stream l = unary gs ++ zeros k -> Forall (fun g => 0 <= g < 2 ^ 32 - 8) gs ->
  exists it, ui_new s d = Ok it /\ at_gaps it gs.
Proof using Hb BO.
  intros Hst Hgs. unfold ui_new. assert (ui_rep (mkUit d 0 0 0 0) (unary gs ++ zeros k)) as Hr.
  { split; [done|cbn [ui_pos]; lia|]. exists O. split; [lia|]. split; [done|]. cbn [ui_pos msb_bits app]. by rewrite drop_0, Hst. }
  destruct gs as [|g gs]; [destruct (uc_next_total _ _ Hr) as [it ->]; by exists it|]. apply Forall_cons in Hgs as [Hg Hgs].
  cbn [unary] in Hr. rewrite <- app_assoc in Hr. cbn [app] in Hr.
  destruct (uc_next_ok _ _ _ Hr) as (it & -> & Hl & Hr'); [lia|]. exists it. split; [done|]. split; [lia|by exists k].
Qed.

Lemma ui_take_ok gs it : at_gaps it gs -> Forall (fun g => 0 <= g < 2 ^ 32 - 8) gs -> ui_take (length gs) s it = Ok gs.
Proof using Hb BO.
  revert it. induction gs as [|g gs IH]; intros it Hit Hgs; cbn [length ui_take]; [done|]. apply Forall_cons in Hgs as [Hg Hgs].
  destruct (at_gaps_next it g gs Hit Hgs) as (it' & -> & Hit'). rewrite bind_ok_l, (IH it' Hit' Hgs), bind_ok_l.
  by destruct Hit as [-> _].
Qed.
End reading.

Lemma uc_put_all_ok {S : Type} {B : Backend S} {BO : BackendOk S} (a : uba) l (Hp : 0 <= m_putPtr a <= zlen l) vs : forall (s : S) d c gs,
  uc_rep a l s d c gs -> Forall (fits 32) vs -> 8 * (m_offSet a + m_putPtr a) + cost gs + cost vs + 16 < 2 ^ 64 ->
  exists s' d' c', uc_put_all s d c vs = Ok (s', d', c') /\ uc_rep a l s' d' c' (gs ++ vs).
Proof.
  induction vs as [|v vs IH]; intros s d c gs Hr Hvs Hf; cbn [uc_put_all]; [exists s, d, c; by rewrite app_nil_r|].
  apply Forall_cons in Hvs as [Hv Hvs]. change (v :: vs) with ([v] ++ vs) in Hf. rewrite cost_app in Hf. pose proof (cost_nonneg vs).
  rewrite cost_one in Hf by (unfold fits in Hv; lia).
  destruct (uc_put_ok a l Hp s d c gs v Hr Hv) as (s1 & d1 & c1 & -> & H1); [lia|]. rewrite bind_ok_l, (app_assoc gs [v] vs : gs ++ v :: vs = _).
  apply IH; [done|done|]. rewrite cost_app, cost_one by (unfold fits in Hv; lia). lia.
Qed.

(** * Properties *)

(** Round trip of the unary code: numbers below 2^32 - 8 put at the put position of any
    window, and flushed, are the bits of the code followed by fewer than eight zeros, and an
    iterator over these bytes returns the numbers in their order. *)
Theorem unary_roundtrip {S : Type} {B : Backend S} {BO : BackendOk S} (s : S) a l vs :
  buf s a l -> 0 <= m_putPtr a <= zlen l -> Forall (fun v => 0 <= v < 2 ^ 32 - 8) vs ->
  8 * (m_offSet a + m_putPtr a) + cost vs + 16 < 2 ^ 64 ->
  exists s1 a1 c s2 a2 bs (k : nat), uc_put_all s a uc_new vs = Ok (s1, a1, c) /\ uc_flush s1 a1 c = Ok (s2, a2) /\
    pushed a l bs s2 a2 /\ stream bs = unary vs ++ zeros k /\ (k < 8)%nat /\
    exists it, ui_new s2 (uba_from_len a2 (m_putPtr a) (zlen bs)) = Ok it /\ ui_take (length vs) s2 it = Ok vs.
Proof.
  intros Hb Hp Hvs Hf. pose proof (uc_new_rep a l Hp s Hb) as Hnew.
  destruct (uc_put_all_ok a l Hp vs s a uc_new [] Hnew) as (s1 & a1 & c & -> & H1); [|cbn [cost unary length]; unfold cost in *; cbn; lia|].
  { eapply Forall_impl; [exact Hvs|]. intros v Hv. unfold fits. cbn beta in Hv. lia. }
  destruct (uc_flush_ok a l Hp s1 a1 c _ H1) as (s2 & a2 & bs & k & Hfl & Hps & Hk & Hst); [cbn [app]; lia|].
  exists s1, a1, c, s2, a2, bs, k. split; [done|]. split; [done|]. split; [done|]. split; [done|]. split; [done|].
  pose proof (uba_from_len_ok s2 a2 _ (pushed_buf _ _ _ _ _ Hps) (m_putPtr a) (zlen bs)) as Hw.
  pose proof (zlen_splice_grow l bs (m_putPtr a) Hp) as Hsl.
  assert (drop (Z.to_nat (m_putPtr a)) (splice l (m_putPtr a) bs) = bs ++ drop (Z.to_nat (m_putPtr a) + length bs) l) as Hd.
  { unfold splice. apply drop_app_length'. rewrite length_take. lia. }
  rewrite Hd, Nat2Z.id, take_app_length in Hw. specialize (Hw ltac:(lia) ltac:(lia)).
  destruct (ui_new_ok s2 _ _ Hw vs k Hst Hvs) as (it & -> & Hit). exists it. split; [done|]. by eapply ui_take_ok.
Qed.

Lemma unary_roundtrip_witness : exists s2 a2 it, 
  (('(s, a, c) ← uc_put_all (Vec.mk [7]) (mkUba 0 1 0 1) uc_new [3; 0; 17]; uc_flush s a c) = Ok (s2, a2)) /\
  ui_new s2 (uba_from_len a2 1 3) = Ok it /\ ui_take 3 s2 it = Ok [3; 0; 17].
Proof.
  destruct (unary_roundtrip (Vec.mk [7]) (mkUba 0 1 0 1) [7] [3; 0; 17]) as (s1 & a1 & c & s2 & a2 & bs & k & H1 & H2 & H3 & H4 & H5 & it & H6 & H7).
  - split; [uba_wf_tac|reflexivity].
  - cbn. lia.
  - repeat constructor; lia.
  - vm_compute. reflexivity.
  - exists s2, a2, it. rewrite H1, bind_ok_l. split; [exact H2|]. split; [|exact H7].
    assert (zlen bs = 3) as <-; [|exact H6]. pose proof (length_stream bs) as Hl. rewrite H4, length_app, length_replicate in Hl.
    change (length (unary [3; 0; 17])) with 23%nat in Hl. lia.
Defined.
