(* ===== verification/UnionFind.v ===== *)
(** Union-find with path compression and union by rank:
    [include/sserialize/containers/UnionFind.h].

    A handle is a position of the vector [m_d], a [nat]; only storing it in the
    36-bit parent field needs its width. The abstract state is the list [rt] of
    the representatives of the elements; [refines] relates the two. *)

From Stdlib Require Import Relations.
From S2P Require Import Prelude.

Record Entry (V : Type) := mkEntry { value : V; parent : nat; rank : Z }.
Arguments mkEntry {V}.
Arguments value {V}.
Arguments parent {V}.
Arguments rank {V}.

Section code.
Context {V : Type}.
Implicit Types (d : list (Entry V)) (a b : nat).

(** The constructor of an entry: the parent has 36 bits. *)
Definition Entry_new (p : nat) (v : V) : result (Entry V) :=
  if negb (Z.of_nat p =? wrap 36 (Z.of_nat p)) then Err StdOverflowError else Ok (mkEntry v p 0).

Definition get d a : result V :=
  match d !! a with Some e => Ok (value e) | None => Err StdOutOfRange end.

Definition make_set d (v : V) : result (list (Entry V) * nat) :=
  let p := length d in e ← Entry_new p v; mret (d ++ [e], p).

Definition set_parent (p : nat) (e : Entry V) : Entry V := mkEntry (value e) p (rank e).
Definition set_rank (r : Z) (e : Entry V) : Entry V := mkEntry (value e) (parent e) r.

Fixpoint find_and_compress (fuel : nat) d a : result (list (Entry V) * nat) :=
  match fuel with
  | O => Err OutOfFuel
  | S fuel =>
      match d !! a with
      | None => Err UndefinedBehaviour
      | Some e =>
          if bool_decide (parent e = a) then Ok (d, parent e)
          else
            '(d, p) ← find_and_compress fuel d (parent e);
            mret (alter (set_parent p) a d, p)
      end
  end.

Definition find d a : result (list (Entry V) * nat) :=
  if bool_decide (length d <= a)%nat then Err StdOutOfRange
  else find_and_compress (S (length d)) d a.

(** [unite]; the ranks have 28 bits. *)
Definition unite d a b : result (list (Entry V)) :=
  '(d, pa) ← find d a;
  '(d, pb) ← find d b;
  if bool_decide (pa = pb) then Ok d
  else
    match d !! pa, d !! pb with
    | Some epa, Some epb =>
        if rank epa <? rank epb then Ok (alter (set_parent pb) pa d)
        else if rank epb <? rank epa then Ok (alter (set_parent pa) pb d)
        else
          let r := wrap 28 (rank epb + 1) in
          if r =? 0 then Err StdOverflowError
          else Ok (alter (set_rank r) pb (alter (set_parent pb) pa d))
    | _, _ => Err UndefinedBehaviour
    end.

(** A use of the structure. *)
Inductive op := MakeSet (v : V) | Unite (a b : nat) | Find (a : nat).

Definition op_step d (o : op) : result (list (Entry V)) :=
  match o with
  | MakeSet v => '(d, _) ← make_set d v; mret d
  | Unite a b => unite d a b
  | Find a => '(d, _) ← find d a; mret d
  end.

Fixpoint op_run d (os : list op) : result (list (Entry V)) :=
  match os with [] => Ok d | o :: os => d ← op_step d o; op_run d os end.
End code.

(** * The abstract partition *)

(** How many elements [r] represents. *)
Definition class_size (rt : list nat) (r : nat) : nat := length (filter (fun x => x = r) rt).

Definition merge (rt : list nat) (old new : nat) : list nat := (fun x => if decide (x = old) then new else x) <$> rt.

Record refines {V : Type} (d : list (Entry V)) (rt : list nat) : Prop := {
  rf_len : length rt = length d;
  rf_parent a e : d !! a = Some e -> rt !! parent e = rt !! a;
  rf_root a e : d !! a = Some e -> parent e = a <-> rt !! a = Some a;
  rf_rt a r : rt !! a = Some r -> rt !! r = Some r;
  rf_rank a e e' : d !! a = Some e -> parent e <> a -> d !! parent e = Some e' -> rank e < rank e';
  rf_rank_pos a e : d !! a = Some e -> 0 <= rank e;
  rf_size a e : d !! a = Some e -> parent e = a -> 2 ^ rank e <= Z.of_nat (class_size rt a);
}.

Lemma class_size_le rt r : (class_size rt r <= length rt)%nat.
Proof. unfold class_size. apply length_filter. Qed.

Section refinement.
Context {V : Type}.
Implicit Types (d : list (Entry V)) (rt : list nat).

Lemma rf_lookup d rt a r : refines d rt -> rt !! a = Some r -> exists e, d !! a = Some e.
Proof.
  intros Hr Ha. apply lookup_lt_Some in Ha. rewrite (rf_len _ _ Hr) in Ha. by apply lookup_lt_is_Some_2.
Qed.

Lemma rf_lookup_rt d rt a e : refines d rt -> d !! a = Some e -> exists r, rt !! a = Some r.
Proof.
  intros Hr Ha. apply lookup_lt_Some in Ha. rewrite <- (rf_len _ _ Hr) in Ha. by apply lookup_lt_is_Some_2.
Qed.

Lemma rank_bounded d : exists M, forall a e, d !! a = Some e -> rank e <= M.
Proof.
  induction d as [|x d [M HM]]; [by exists 0|]. exists (Z.max M (rank x)).
  intros [|a] e; cbn; intros He; [simplify_eq; lia|]. specialize (HM a e He). lia.
Qed.

(** The parent of an element that is no root is an element of the same class of a higher rank. *)
Lemma parent_step d rt a e r : refines d rt -> d !! a = Some e -> rt !! a = Some r -> parent e <> a ->
  rt !! parent e = Some r /\ exists e', d !! parent e = Some e' /\ rank e < rank e'.
Proof.
  intros Hr He Ha Hne. pose proof (rf_parent _ _ Hr _ _ He) as Hp. rewrite Ha in Hp. split; [done|].
  destruct (rf_lookup d rt _ r Hr Hp) as [e' He']. exists e'. split; [done|]. by eapply rf_rank.
Qed.

Lemma root_self d rt a e r : refines d rt -> d !! a = Some e -> rt !! a = Some r -> parent e = a <-> r = a.
Proof. intros Hr He Ha. rewrite (rf_root _ _ Hr _ _ He), Ha. naive_solver. Qed.

(** The root has the greatest rank of its class: by descent along the parents. *)
Lemma rank_le_root d rt a e r er : refines d rt ->
  d !! a = Some e -> rt !! a = Some r -> d !! r = Some er -> rank e <= rank er.
Proof.
  intros Hr He Ha Hre. destruct (rank_bounded d) as [M HM].
  remember (Z.to_nat (M - rank e)) as n eqn:En. revert a e He Ha En.
  induction n as [n IH] using lt_wf_ind. intros a e He Ha ->.
  destruct (decide (parent e = a)) as [Hp|Hp].
  - apply (root_self d rt a e r Hr He Ha) in Hp. simplify_eq. lia.
  - destruct (parent_step d rt a e r Hr He Ha Hp) as (Hrt & e' & He' & Hlt).
    pose proof (HM _ _ He'). pose proof (IH (Z.to_nat (M - rank e')) ltac:(lia) _ e' He' Hrt eq_refl). lia.
Qed.

(** Ranks grow only logarithmically. *)
Lemma rank_log d rt a e : refines d rt -> d !! a = Some e -> 0 <= rank e /\ 2 ^ rank e <= Z.of_nat (length d).
Proof.
  intros Hr He. pose proof (rf_rank_pos _ _ Hr _ _ He). split; [done|].
  destruct (rf_lookup_rt d rt a e Hr He) as [r Ha]. pose proof (rf_rt _ _ Hr _ _ Ha) as Hrr.
  destruct (rf_lookup d rt r r Hr Hrr) as [er Her].
  pose proof (rank_le_root d rt a e r er Hr He Ha Her) as Hle.
  pose proof (rf_size _ _ Hr r er Her (proj2 (rf_root _ _ Hr _ _ Her) Hrr)) as Hs.
  pose proof (class_size_le rt r). rewrite (rf_len _ _ Hr) in *.
  pose proof (Z.pow_le_mono_r 2 (rank e) (rank er) ltac:(lia) Hle). lia.
Qed.

Lemma rank_lt_length d rt a e : refines d rt -> d !! a = Some e -> rank e < Z.of_nat (length d).
Proof.
  intros Hr He. destruct (rank_log d rt a e Hr He) as [H0 H1].
  pose proof (Z.pow_gt_lin_r 2 (rank e) ltac:(lia) H0). lia.
Qed.

(** ** Path compression *)

Lemma lookup_set_parent d a r b e' : alter (set_parent r) a d !! b = Some e' ->
  exists e, d !! b = Some e /\ rank e' = rank e /\ value e' = value e /\
    parent e' = if decide (b = a) then r else parent e.
Proof.
  destruct (decide (b = a)) as [->|Hne].
  - rewrite list_lookup_alter_eq. destruct (d !! a) as [e|]; cbn; [|done]. intros [= <-]. by exists e.
  - rewrite list_lookup_alter_ne by done. intros He. by exists e'.
Qed.

Lemma set_parent_refines d rt a r e er : refines d rt -> d !! a = Some e -> rt !! a = Some r -> a <> r ->
  d !! r = Some er -> rank e < rank er -> refines (alter (set_parent r) a d) rt.
Proof.
  intros Hr He Ha Hne Her Hlt. pose proof (rf_rt _ _ Hr _ _ Ha) as Hrr. split.
  - rewrite length_alter. apply Hr.
  - intros b e' (e0 & He0 & _ & _ & Hp)%lookup_set_parent. rewrite Hp. case_decide; subst; [congruence|].
    by eapply rf_parent.
  - intros b e' (e0 & He0 & _ & _ & Hp)%lookup_set_parent. rewrite Hp. case_decide; subst; [|by eapply rf_root].
    rewrite Ha. split; congruence.
  - apply Hr.
  - intros b e' e'' (e0 & He0 & Hk & _ & Hp)%lookup_set_parent Hpne (e1 & He1 & Hk1 & _ & _)%lookup_set_parent.
    rewrite Hk, Hk1. rewrite Hp in Hpne, He1. case_decide; subst; [simplify_eq; lia|]. by eapply rf_rank.
  - intros b e' (e0 & He0 & Hk & _)%lookup_set_parent. rewrite Hk. by eapply rf_rank_pos.
  - intros b e' (e0 & He0 & Hk & _ & Hp)%lookup_set_parent Hb. rewrite Hk. rewrite Hp in Hb.
    case_decide; subst; [done|]. by eapply rf_size.
Qed.

(** The values and ranks, which finding does not change. *)
Definition payload (d : list (Entry V)) : list (V * Z) := (fun e => (value e, rank e)) <$> d.

Lemma payload_set_parent d a r : payload (alter (set_parent r) a d) = payload d.
Proof.
  apply list_eq. intros i. unfold payload. rewrite !list_lookup_fmap. destruct (decide (i = a)) as [->|].
  - rewrite list_lookup_alter_eq. by destruct (d !! a).
  - by rewrite list_lookup_alter_ne by done.
Qed.

Lemma payload_lookup d d' a e : payload d' = payload d -> d !! a = Some e ->
  exists e', d' !! a = Some e' /\ rank e' = rank e /\ value e' = value e.
Proof.
  intros Hp He. apply (f_equal (lookup a)) in Hp. unfold payload in Hp. rewrite !list_lookup_fmap, He in Hp.
  destruct (d' !! a) as [e'|]; [|done]. exists e'. cbn in Hp. by simplify_eq.
Qed.

Lemma find_and_compress_ok fuel d rt a e r er : refines d rt -> d !! a = Some e -> rt !! a = Some r ->
  d !! r = Some er -> rank er - rank e < Z.of_nat fuel ->
  exists d', find_and_compress fuel d a = Ok (d', r) /\ refines d' rt /\ payload d' = payload d.
Proof.
  revert a e. induction fuel as [|fuel IH]; intros a e Hr He Ha Her Hf.
  { pose proof (rank_le_root d rt a e r er Hr He Ha Her). lia. }
  cbn [find_and_compress]. rewrite He. case_bool_decide as Hp.
  - apply (root_self d rt a e r Hr He Ha) in Hp as Hra. exists d. by rewrite Hp, Hra.
  - destruct (parent_step d rt a e r Hr He Ha Hp) as (Hrt & e1 & He1 & Hlt).
    destruct (IH (parent e) e1 Hr He1 Hrt Her) as (d' & -> & Hr' & Hpl); [lia|]. rewrite bind_ok_l.
    exists (alter (set_parent r) a d'). split; [done|].
    split; [|by rewrite payload_set_parent].
    destruct (payload_lookup d d' a e Hpl He) as (e2 & He2 & Hk2 & _).
    destruct (payload_lookup d d' r er Hpl Her) as (e3 & He3 & Hk3 & _).
    eapply set_parent_refines; try done.
    + intros ->. apply Hp. by apply (root_self d rt r e r).
    + pose proof (rank_le_root d rt _ e1 r er Hr He1 Hrt Her). lia.
Qed.

Lemma uf_find_ok d rt a r : refines d rt -> rt !! a = Some r ->
  exists d', find d a = Ok (d', r) /\ refines d' rt /\ payload d' = payload d.
Proof.
  intros Hr Ha. destruct (rf_lookup d rt a r Hr Ha) as [e He].
  destruct (rf_lookup d rt r r Hr (rf_rt _ _ Hr _ _ Ha)) as [er Her].
  unfold find. apply lookup_lt_Some in He as Hlt. case_bool_decide; [lia|].
  eapply (find_and_compress_ok _ d rt a e r er); try done.
  pose proof (rank_lt_length d rt r er Hr Her). pose proof (rf_rank_pos _ _ Hr _ _ He). lia.
Qed.

(** ** Uniting *)

Lemma lookup_merge rt old new a : merge rt old new !! a = (fun x => if decide (x = old) then new else x) <$> rt !! a.
Proof. unfold merge. by rewrite list_lookup_fmap. Qed.

Lemma class_size_merge rt old new x : old <> new -> x <> old ->
  class_size (merge rt old new) x =
    (class_size rt x + if decide (x = new) then class_size rt old else 0)%nat.
Proof.
  intros Hne Hx. unfold class_size, merge. induction rt as [|y rt IH]; [by case_decide|].
  rewrite fmap_cons, !filter_cons. repeat case_decide; subst; cbn; try lia; congruence.
Qed.

Lemma alter_set_rank_same d new : (forall en, d !! new = Some en -> alter (set_rank (rank en)) new d = d).
Proof.
  intros en He. apply list_eq. intros i. destruct (decide (i = new)) as [->|].
  - rewrite list_lookup_alter_eq, He. by destruct en.
  - by rewrite list_lookup_alter_ne by done.
Qed.

(** Attaching the root [old] below the root [new], whose rank becomes [r]. *)
Lemma attach_refines d rt old new eo en r : refines d rt ->
  d !! old = Some eo -> d !! new = Some en -> parent eo = old -> parent en = new -> old <> new ->
  rank eo < r -> rank en <= r -> 2 ^ r <= Z.of_nat (class_size rt old + class_size rt new) ->
  refines (alter (set_rank r) new (alter (set_parent new) old d)) (merge rt old new).
Proof.
  intros Hr Ho Hn Hpo Hpn Hne Hlt Hle Hsz.
  pose proof (proj1 (rf_root _ _ Hr _ _ Ho) Hpo) as Hro. pose proof (proj1 (rf_root _ _ Hr _ _ Hn) Hpn) as Hrn.
  assert (forall b e', alter (set_rank r) new (alter (set_parent new) old d) !! b = Some e' ->
    exists e, d !! b = Some e /\ parent e' = (if decide (b = old) then new else parent e) /\
      rank e' = (if decide (b = new) then r else rank e)) as Hlk.
  { intros b e'. destruct (decide (b = new)) as [->|Hb].
    - rewrite list_lookup_alter_eq, list_lookup_alter_ne, Hn by done. intros [= <-]. exists en.
      cbn. by rewrite decide_False by done.
    - rewrite list_lookup_alter_ne by done. intros (e & He & Hk & _ & Hp)%lookup_set_parent. by exists e. }
  assert (forall b x, rt !! b = Some x -> merge rt old new !! b = Some (if decide (x = old) then new else x)) as Hmg.
  { intros b x Hb. by rewrite lookup_merge, Hb. }
  split.
  - unfold merge. rewrite length_fmap, !length_alter. apply Hr.
  - intros b e' (e & He & -> & _)%Hlk. case_decide; subst.
    + rewrite (Hmg _ _ Hro), (Hmg _ _ Hrn). by rewrite decide_False, decide_True by congruence.
    + rewrite !lookup_merge. by rewrite (rf_parent _ _ Hr _ _ He).
  - intros b e' (e & He & -> & _)%Hlk. destruct (rf_lookup_rt d rt b e Hr He) as [x Hx].
    rewrite (Hmg _ _ Hx). case_decide as Hb.
    + subst b. rewrite Hro in Hx. injection Hx as <-. rewrite decide_True by done. naive_solver.
    + rewrite (rf_root _ _ Hr _ _ He), Hx. case_decide; subst; naive_solver.
  - intros b x. rewrite lookup_merge. destruct (rt !! b) as [y|] eqn:Ey; cbn; [|done]. intros [= <-].
    pose proof (rf_rt _ _ Hr _ _ Ey) as Hy. case_decide as Hyo.
    + rewrite (Hmg _ _ Hrn). by rewrite decide_False by congruence.
    + rewrite (Hmg _ _ Hy). by rewrite decide_False by done.
  - intros b e' e'' (e & He & Hp & ->)%Hlk Hpne (e1 & He1 & _ & ->)%Hlk. rewrite Hp in Hpne, He1.
    destruct (decide (b = old)) as [->|Hb].
    + rewrite Ho in He. injection He as <-. rewrite decide_False by done. by rewrite decide_True by done.
    + rewrite (decide_False (P := b = new)); [|intros ->; congruence].
      pose proof (rf_rank _ _ Hr b e e1 He Hpne He1). case_decide as Hpb; [|done].
      rewrite <- Hp, Hpb, Hn in He1. injection He1 as <-. lia.
  - intros b e' (e & He & _ & ->)%Hlk. case_decide; [|by eapply rf_rank_pos].
    pose proof (rf_rank_pos _ _ Hr _ _ Ho). lia.
  - intros b e' (e & He & Hp & ->)%Hlk Hb. rewrite Hp in Hb. case_decide as Hbo; [congruence|].
    rewrite class_size_merge by done. destruct (decide (b = new)) as [->|]; [lia|]. rewrite Nat.add_0_r. by eapply rf_size.
Qed.

Lemma payload_values d d' : payload d' = payload d -> value <$> d' = value <$> d.
Proof.
  intros Hp. apply (f_equal (fmap fst)) in Hp. unfold payload in Hp. by rewrite <- !list_fmap_compose in Hp.
Qed.

Lemma unite_ok d rt a b ra rb : refines d rt -> rt !! a = Some ra -> rt !! b = Some rb ->
  Z.of_nat (length d) < 2 ^ 64 ->
  exists d' rt', unite d a b = Ok d' /\ refines d' rt' /\ value <$> d' = value <$> d /\
    (rt' = rt /\ ra = rb \/ ra <> rb /\ (rt' = merge rt ra rb \/ rt' = merge rt rb ra)).
Proof.
  intros Hr Ha Hb Hlen. destruct (uf_find_ok d rt a ra Hr Ha) as (d1 & Hf1 & Hr1 & Hp1).
  destruct (uf_find_ok d1 rt b rb Hr1 Hb) as (d2 & Hf2 & Hr2 & Hp2).
  assert (value <$> d2 = value <$> d) as Hval.
  { apply payload_values. congruence. }
  unfold unite. rewrite Hf1, bind_ok_l, Hf2, bind_ok_l. case_bool_decide as Hab.
  { exists d2, rt. split; [done|]. split; [done|]. split; [done|]. by left. }
  pose proof (rf_rt _ _ Hr2 _ _ Ha) as Hra. pose proof (rf_rt _ _ Hr2 _ _ Hb) as Hrb.
  destruct (rf_lookup d2 rt ra ra Hr2 Hra) as [ea Hea]. destruct (rf_lookup d2 rt rb rb Hr2 Hrb) as [eb Heb].
  rewrite Hea, Heb.
  pose proof (proj2 (rf_root _ _ Hr2 _ _ Hea) Hra) as Hpa. pose proof (proj2 (rf_root _ _ Hr2 _ _ Heb) Hrb) as Hpb.
  pose proof (rf_size _ _ Hr2 _ _ Hea Hpa) as Hsa. pose proof (rf_size _ _ Hr2 _ _ Heb Hpb) as Hsb.
  assert (forall old new, value <$> alter (set_parent new) old d2 = value <$> d) as Hv.
  { intros old new. rewrite <- Hval. apply payload_values. apply payload_set_parent. }
  destruct (Z.ltb_spec (rank ea) (rank eb)); [|destruct (Z.ltb_spec (rank eb) (rank ea))].
  - exists (alter (set_parent rb) ra d2), (merge rt ra rb). split; [done|]. split; [|by eauto].
    rewrite <- (alter_set_rank_same (alter (set_parent rb) ra d2) rb eb) by (by rewrite list_lookup_alter_ne).
    by eapply attach_refines; try done; lia.
  - exists (alter (set_parent ra) rb d2), (merge rt rb ra). split; [done|]. split; [|by eauto].
    rewrite <- (alter_set_rank_same (alter (set_parent ra) rb d2) ra ea) by (by rewrite list_lookup_alter_ne).
    by eapply attach_refines; try done; lia.
  - assert (rank eb = rank ea) as Heq by lia. pose proof (rf_rank_pos _ _ Hr2 _ _ Heb).
    assert (rank eb < 64) as Hk.
    { destruct (rank_log d2 rt rb eb Hr2 Heb) as [_ Hlog].
      rewrite <- (rf_len _ _ Hr2), (rf_len _ _ Hr) in Hlog.
      apply (Z.pow_lt_mono_r_iff 2); lia. }
    rewrite (wrap_small 28) by (unfold fits; lia). rewrite (proj2 (Z.eqb_neq _ _)) by lia.
    eexists _, (merge rt ra rb). split; [done|]. split.
    + eapply attach_refines; try done; try lia. rewrite Z.pow_add_r by lia. change (2 ^ 1) with 2.
      rewrite Heq in Hsb |- *. lia.
    + split; [|by eauto]. rewrite <- (Hv ra rb). apply list_eq. intros i. rewrite !list_lookup_fmap.
      destruct (decide (rb = i)) as [->|]; [|by rewrite list_lookup_alter_ne].
      rewrite list_lookup_alter_eq. by destruct (alter (set_parent i) ra d2 !! i).
Qed.
End refinement.

(** ** New elements *)

Lemma class_size_app rt1 rt2 x : class_size (rt1 ++ rt2) x = (class_size rt1 x + class_size rt2 x)%nat.
Proof. unfold class_size. by rewrite filter_app, length_app. Qed.

Lemma lookup_snoc_Some {A} (l : list A) x i y :
  (l ++ [x]) !! i = Some y -> l !! i = Some y \/ i = length l /\ x = y.
Proof.
  intros [H|[Hi H]]%lookup_app_Some; [by left|right]. destruct (i - length l)%nat eqn:E; [|done].
  cbn in H. split; [lia|congruence].
Qed.

Lemma make_set_ok {V : Type} (d : list (Entry V)) rt v : refines d rt -> Z.of_nat (length d) < 2 ^ 36 ->
  make_set d v = Ok (d ++ [mkEntry v (length d) 0], length d) /\
  refines (d ++ [mkEntry v (length d) 0]) (rt ++ [length d]).
Proof.
  intros Hr Hl. split.
  { unfold make_set, Entry_new. rewrite wrap_small by (unfold fits; lia). by rewrite Z.eqb_refl. }
  pose proof (rf_len _ _ Hr) as Hlen.
  assert (forall a x, rt !! a = Some x -> (rt ++ [length d]) !! a = Some x) as Hold.
  { intros a x Ha. by apply lookup_app_l_Some. }
  assert ((rt ++ [length d]) !! length d = Some (length d)) as Hnew.
  { rewrite <- Hlen. by apply list_lookup_middle. }
  assert (forall a x, rt !! a = Some x -> (a < length d)%nat /\ (x < length d)%nat) as Hlt.
  { intros a x Ha. pose proof (rf_rt _ _ Hr _ _ Ha) as Hx. apply lookup_lt_Some in Ha, Hx. lia. }
  split.
  - rewrite !length_app. cbn. lia.
  - intros a e [He|[-> <-]]%lookup_snoc_Some; [|done]. destruct (rf_lookup_rt d rt a e Hr He) as [r Ha].
    rewrite (Hold a r Ha). apply Hold. by rewrite (rf_parent _ _ Hr _ _ He).
  - intros a e [He|[-> <-]]%lookup_snoc_Some; [|cbn; by rewrite Hnew].
    destruct (rf_lookup_rt d rt a e Hr He) as [r Ha]. rewrite (Hold a r Ha), <- Ha. by apply Hr.
  - intros a r [Ha|[-> <-]]%lookup_snoc_Some; [|done]. apply Hold. by eapply rf_rt.
  - intros a e e' [He|[-> <-]]%lookup_snoc_Some Hne He'; [|done].
    destruct (rf_lookup_rt d rt a e Hr He) as [r Ha].
    destruct (parent_step d rt a e r Hr He Ha Hne) as (_ & e1 & He1 & Hk).
    rewrite (lookup_app_l_Some _ _ _ _ He1) in He'. by simplify_eq.
  - intros a e [He|[-> <-]]%lookup_snoc_Some; [by eapply rf_rank_pos|done].
  - intros a e [He|[-> <-]]%lookup_snoc_Some Hp; rewrite class_size_app.
    + pose proof (rf_size _ _ Hr _ _ He Hp). lia.
    + unfold class_size at 2. rewrite filter_cons_True by done. cbn. lia.
Qed.

(** * Sequences of operations *)

Section sequences.
Context {V : Type}.
Implicit Types (d : list (Entry V)) (os : list (op (V := V))) (us : list (nat * nat)).

(** The pairs united, and the number of elements made. *)
Fixpoint unions os : list (nat * nat) :=
  match os with [] => [] | Unite a b :: os => (a, b) :: unions os | _ :: os => unions os end.

Fixpoint count os : nat :=
  match os with [] => O | MakeSet _ :: os => S (count os) | _ :: os => count os end.

Fixpoint ops_ok (n : nat) os : Prop :=
  match os with
  | [] => True
  | MakeSet _ :: os => ops_ok (S n) os
  | Unite a b :: os => (a < n /\ b < n)%nat /\ ops_ok n os
  | Find a :: os => (a < n)%nat /\ ops_ok n os
  end.

(** Being connected by united pairs. *)
Definition connected us : relation nat := clos_refl_sym_trans nat (fun x y => (x, y) ∈ us).

Lemma connected_mono us us' x y : (forall p, p ∈ us -> p ∈ us') -> connected us x y -> connected us' x y.
Proof.
  intros Hs. induction 1; [apply rst_step; by apply Hs|apply rst_refl|by apply rst_sym|by eapply rst_trans].
Qed.

(** One more pair joins two classes. *)
Lemma connected_cons a b us x y : connected ((a, b) :: us) x y <->
  connected us x y \/ connected us x a /\ connected us b y \/ connected us x b /\ connected us a y.
Proof.
  split.
  - induction 1 as [x y Hp|x|x y _ IH|x y z _ IH1 _ IH2].
    + apply elem_of_cons in Hp as [[= -> ->]|Hp]; [right; left; split; apply rst_refl|left; by apply rst_step].
    + left. apply rst_refl.
    + destruct IH as [H|[[H1 H2]|[H1 H2]]];
        [left; by apply rst_sym|right; right; split; by apply rst_sym|right; left; split; by apply rst_sym].
    + assert (forall u v w, connected us u v -> connected us v w -> connected us u w) as T
        by (intros; by eapply rst_trans).
      assert (forall u v, connected us u v -> connected us v u) as Y by (intros; by apply rst_sym).
      destruct IH1 as [H|[[H1 H2]|[H1 H2]]], IH2 as [G|[[G1 G2]|[G1 G2]]]; eauto 10.
  - assert (forall u v, connected us u v -> connected ((a, b) :: us) u v) as M.
    { intros u v. apply connected_mono. intros. by right. }
    assert (connected ((a, b) :: us) a b) as Hab by (apply rst_step; by left).
    intros [H|[[H1 H2]|[H1 H2]]]; [by apply M| |].
    + eapply rst_trans; [by apply M|]. eapply rst_trans; [exact Hab|by apply M].
    + eapply rst_trans; [by apply M|]. eapply rst_trans; [apply rst_sym, Hab|by apply M].
Qed.

Lemma connected_bound us n x y : (forall a b, (a, b) ∈ us -> a < n /\ b < n)%nat ->
  connected us x y -> x = y \/ (x < n /\ y < n)%nat.
Proof.
  intros Hb. induction 1 as [x y Hp|x|x y _ IH|x y z _ IH1 _ IH2]; [right; by apply Hb|by left| |]; lia.
Qed.

(** The representatives say which elements are connected. *)
Record tracks d (rt : list nat) us : Prop := {
  tk_refines : refines d rt;
  tk_bound a b : (a, b) ∈ us -> (a < length d /\ b < length d)%nat;
  tk_conn x y : (x < length d)%nat -> (y < length d)%nat -> rt !! x = rt !! y <-> connected us x y;
}.

Lemma tracks_perm d rt us us' : (forall p, p ∈ us <-> p ∈ us') -> tracks d rt us -> tracks d rt us'.
Proof.
  intros Hp [H1 H2 H3]. split; [done|intros a b ?; by apply H2, Hp|].
  intros x y Hx Hy. rewrite H3 by done. split; apply connected_mono; intros p ?; by apply Hp.
Qed.

Lemma tracks_make_set d rt us v : tracks d rt us ->
  refines (d ++ [mkEntry v (length d) 0]) (rt ++ [length d]) ->
  tracks (d ++ [mkEntry v (length d) 0]) (rt ++ [length d]) us.
Proof.
  intros [Hr Hb Hc] Hr'. pose proof (rf_len _ _ Hr) as Hlen. split; [done| |].
  - intros a b Hab. rewrite length_app. specialize (Hb a b Hab). cbn. lia.
  - assert (forall x, (x < length d)%nat -> (rt ++ [length d]) !! x = rt !! x) as Hold.
    { intros x Hx. apply lookup_app_l. lia. }
    assert ((rt ++ [length d]) !! length d = Some (length d)) as Hnew.
    { rewrite <- Hlen. by apply list_lookup_middle. }
    assert (forall x, (x < length d)%nat -> rt !! x <> Some (length d)) as Hne.
    { intros x Hx E. pose proof (rf_rt _ _ Hr _ _ E) as E'. apply lookup_lt_Some in E'. lia. }
    intros x y Hx Hy. rewrite length_app in Hx, Hy. cbn in Hx, Hy.
    destruct (decide (x = length d)) as [->|], (decide (y = length d)) as [->|].
    + split; [intros _; apply rst_refl|done].
    + rewrite Hnew, Hold by lia. split.
      * intros E. exfalso. apply (Hne y); [lia|done].
      * intros Hcn. exfalso. apply (connected_bound us (length d)) in Hcn; [lia|done].
    + rewrite Hnew, Hold by lia. split.
      * intros E. exfalso. apply (Hne x); [lia|done].
      * intros Hcn. exfalso. apply (connected_bound us (length d)) in Hcn; [lia|done].
    + rewrite !Hold by lia. apply Hc; lia.
Qed.

(** Merging two classes of representatives. *)
Lemma merge_eq rt old new x y rx ry : old <> new -> rt !! x = Some rx -> rt !! y = Some ry ->
  merge rt old new !! x = merge rt old new !! y <-> rx = ry \/ rx = old /\ ry = new \/ rx = new /\ ry = old.
Proof.
  intros Hne Hx Hy. rewrite !lookup_merge, Hx, Hy. cbn. repeat case_decide; naive_solver.
Qed.

Lemma op_step_ok d rt us o os : tracks d rt us -> ops_ok (length d) (o :: os) ->
  Z.of_nat (length d + count (o :: os)) <= 2 ^ 36 ->
  exists d' rt', op_step d o = Ok d' /\ tracks d' rt' (unions [o] ++ us) /\ ops_ok (length d') os /\
    (length d' + count os = length d + count (o :: os))%nat.
Proof.
  intros [Hr Hb Hc] Hok Hs. pose proof (rf_len _ _ Hr) as Hlen. destruct o as [v|a b|a]; cbn [ops_ok count unions op_step app] in *.
  - destruct (make_set_ok d rt v Hr) as [-> Hr']; [lia|]. rewrite bind_ok_l.
    eexists _, _. split; [done|]. split; [apply tracks_make_set; [by split|done]|]. rewrite length_app. cbn.
    rewrite Nat.add_1_r. split; [done|lia].
  - destruct Hok as [[Hla Hlb] Hok].
    destruct (lookup_lt_is_Some_2 rt a) as [ra Ha]; [lia|]. destruct (lookup_lt_is_Some_2 rt b) as [rb Hbb]; [lia|].
    destruct (unite_ok d rt a b ra rb Hr Ha Hbb) as (d' & rt' & -> & Hr' & Hv & Hcase); [lia|].
    assert (length d' = length d) as Hl' by (rewrite <- (length_fmap value d'), Hv; apply length_fmap).
    exists d', rt'. split; [done|]. rewrite Hl'. split; [|done]. split; [done| |].
    + intros x y [[= -> ->]|Hp]%elem_of_cons; rewrite Hl'; [done|by apply Hb].
    + rewrite Hl'. intros x y Hx Hy. rewrite connected_cons, <- !Hc by done. rewrite Ha, Hbb.
      destruct (lookup_lt_is_Some_2 rt x) as [rx Hrx]; [lia|]. destruct (lookup_lt_is_Some_2 rt y) as [ry Hry]; [lia|].
      rewrite Hrx, Hry. destruct Hcase as [[-> ->]|[Hne [->| ->]]].
      * rewrite Hrx, Hry. naive_solver.
      * rewrite (merge_eq rt ra rb x y rx ry) by done. naive_solver.
      * rewrite (merge_eq rt rb ra x y rx ry) by done. naive_solver.
  - destruct Hok as [Hla Hok]. destruct (lookup_lt_is_Some_2 rt a) as [ra Ha]; [lia|].
    destruct (uf_find_ok d rt a ra Hr Ha) as (d' & -> & Hr' & Hp). rewrite bind_ok_l.
    assert (length d' = length d) as Hl' by (rewrite <- (rf_len _ _ Hr'); done).
    exists d', rt. split; [done|]. rewrite Hl'. split; [|done]. split; [done|by rewrite Hl'|by rewrite Hl'].
Qed.

Lemma op_run_ok os d rt us : tracks d rt us -> ops_ok (length d) os ->
  Z.of_nat (length d + count os) <= 2 ^ 36 ->
  exists d' rt', op_run d os = Ok d' /\ tracks d' rt' (unions os ++ us) /\ length d' = (length d + count os)%nat.
Proof.
  revert d rt us. induction os as [|o os IH]; intros d rt us Ht Hok Hs; cbn [op_run].
  { exists d, rt. cbn. split; [done|]. split; [done|lia]. }
  destruct (op_step_ok d rt us o os Ht Hok Hs) as (d1 & rt1 & -> & Ht1 & Hok1 & Hl1). rewrite bind_ok_l.
  destruct (IH d1 rt1 _ Ht1 Hok1) as (d2 & rt2 & -> & Ht2 & Hl2); [by rewrite Hl1|].
  exists d2, rt2. split; [done|]. split; [|lia]. eapply tracks_perm; [|exact Ht2].
  intros p. rewrite !elem_of_app. destruct o; cbn [unions]; rewrite ?elem_of_cons, ?elem_of_nil; tauto.
Qed.

Lemma tracks_empty : tracks [] [] [].
Proof. split; [split; done| |]; [intros a b Hab; by apply elem_of_nil in Hab|intros; cbn in *; lia]. Qed.

(** C34: any sequence of [make_set], [unite] and [find] on existing elements, with at most
    2^36 elements, runs without error, and afterwards [find] gives two elements the same
    representative exactly when they are connected by the pairs that were united; finding
    changes neither the classes nor the values. *)
Theorem union_find_correct os : ops_ok 0 os -> Z.of_nat (count os) <= 2 ^ 36 ->
  exists d, op_run [] os = Ok d /\ length d = count os /\
    forall x y, (x < count os)%nat -> (y < count os)%nat ->
      exists d1 rx d2 ry, find d x = Ok (d1, rx) /\ find d1 y = Ok (d2, ry) /\
        (rx = ry <-> connected (unions os) x y) /\ value <$> d2 = value <$> d.
Proof.
  intros Hok Hs. destruct (op_run_ok os [] [] [] tracks_empty Hok Hs) as (d & rt & Hrun & [Hr _ Hc] & Hl).
  exists d. split; [done|]. split; [done|]. rewrite app_nil_r in Hc. cbn in Hl. intros x y Hx Hy.
  pose proof (rf_len _ _ Hr) as Hlen.
  destruct (lookup_lt_is_Some_2 rt x) as [rx Hrx]; [lia|]. destruct (lookup_lt_is_Some_2 rt y) as [ry Hry]; [lia|].
  destruct (uf_find_ok d rt x rx Hr Hrx) as (d1 & Hf1 & Hr1 & Hp1).
  destruct (uf_find_ok d1 rt y ry Hr1 Hry) as (d2 & Hf2 & Hr2 & Hp2).
  exists d1, rx, d2, ry. split; [done|]. split; [done|]. split; [|apply payload_values; congruence].
  rewrite <- Hc, Hrx, Hry by lia. split; congruence.
Qed.

(** C37: ranks grow only logarithmically: after any such sequence an element of rank [k]
    needs at least 2^k elements, so the 28 bits of the rank field never overflow and a
    path to a representative is at most 36 steps long. *)
Theorem union_find_rank_log os d a e : ops_ok 0 os -> Z.of_nat (count os) <= 2 ^ 36 ->
  op_run [] os = Ok d -> d !! a = Some e -> 0 <= rank e <= Z.log2 (Z.of_nat (count os)) /\ rank e <= 36.
Proof.
  intros Hok Hs Hrun He. destruct (op_run_ok os [] [] [] tracks_empty Hok Hs) as (d' & rt & Hrun' & [Hr _ _] & Hl).
  rewrite Hrun in Hrun'. injection Hrun' as <-. destruct (rank_log d rt a e Hr He) as [H0 H1].
  rewrite Hl in H1. cbn in H1. assert (rank e <= Z.log2 (Z.of_nat (count os))) as Hlog.
  { pose proof (Z.pow_pos_nonneg 2 (rank e) ltac:(lia) H0). apply Z.log2_le_pow2; lia. }
  split; [lia|]. etrans; [exact Hlog|]. change 36 with (Z.log2 (2 ^ 36)). by apply Z.log2_le_mono.
Qed.
End sequences.

Lemma union_find_correct_witness :
  exists d, op_run [] [MakeSet 7; MakeSet 8; MakeSet 9; Unite 0 2; Find 2] = Ok d /\ length d = 3%nat.
Proof.
  destruct (union_find_correct [MakeSet 7; MakeSet 8; MakeSet 9; Unite 0 2; Find 2]) as (d & H1 & H2 & _).
  - cbn. lia.
  - cbn. lia.
  - exists d. split; [exact H1|exact H2].
Defined.

Lemma union_find_rank_log_witness : 1 <= 36.
Proof.
  refine (proj2 (union_find_rank_log [MakeSet 7; MakeSet 8; Unite 0 1]
    [mkEntry 7 1 0; mkEntry 8 1 1] 1 (mkEntry 8 1 1) _ _ _ _)).
  - cbn. lia.
  - cbn. lia.
  - reflexivity.
  - reflexivity.
Defined.
