(* ===== verification/HashTable.v ===== *)
(** Open addressing with double hashing: [include/sserialize/containers/OADHashTable.h].

    The values lie in the order of their insertion in one vector, the table has positions
    in this vector plus one, 0 for a free slot.  A key is looked for at [h1], [h1+h2], [h1+2*h2], ...
    modulo the size of the table, at most [m_maxCollisions] times; when it is not found and
    there is no free slot on the way, the table grows.

    The two hash functions and the default of the mapped type are parameters, as in the
    template; the comparison of keys is equality.  Doubles are IEEE numbers of 64 bits
    ([SpecFloat]).  Growing goes on until all keys have a slot: whether that ends depends on
    the hash functions, [settles] says when.  A reference into the table is the position of
    the value. *)

From stdpp Require Import list.
From Stdlib Require Import SpecFloat.
From S2P Require Import Prelude UtilMath.

(** ** Doubles *)

Definition double_of (n : Z) : spec_float := binary_normalize 53 1024 n 0 false.
Definition double_div : spec_float -> spec_float -> spec_float := SFdiv 53 1024.
Definition double_mul : spec_float -> spec_float -> spec_float := SFmul 53 1024.

(** Conversion to [uint64_t]; outside of its range undefined. *)
Definition double_to_u64 (x : spec_float) : result Z :=
  match x with
  | S754_zero _ => Ok 0
  | S754_finite s m e =>
      let a := if 0 <=? e then Z.pos m * 2 ^ e else Z.pos m / 2 ^ (- e) in
      if (s : bool) then (if a =? 0 then Ok 0 else Err UndefinedBehaviour)
      else if a <? 2 ^ 64 then Ok a else Err UndefinedBehaviour
  | _ => Err UndefinedBehaviour
  end.

(** * The table *)

Record oad (K V : Type) := mkOad {
  oa_vals : list (K * V); oa_d : list Z;
  oa_maxLoad : spec_float; oa_rehashMult : spec_float; oa_maxCollisions : Z;
}.
Arguments mkOad {K V}.
Arguments oa_vals {K V}.
Arguments oa_d {K V}.
Arguments oa_maxLoad {K V}.
Arguments oa_rehashMult {K V}.
Arguments oa_maxCollisions {K V}.

Definition findend : Z := max_u64.

Section operations.
Context {K V : Type} `{EqDecision K} (hash1 hash2 : K -> Z) (mapped_default : V) (w : Z).
Abbreviation T := (oad K V).

Definition with_d (t : T) (d : list Z) : T := mkOad (oa_vals t) d (oa_maxLoad t) (oa_rehashMult t) (oa_maxCollisions t).
Definition with_vals (t : T) (vals : list (K * V)) : T := mkOad vals (oa_d t) (oa_maxLoad t) (oa_rehashMult t) (oa_maxCollisions t).

Definition oad_new (maxLoad : spec_float) : T := mkOad [] (replicate 16 0) maxLoad (double_of 2) 100.
Definition oad_default : T := oad_new (double_div (double_of 8) (double_of 10)).
Definition oad_clear (t : T) : T := with_d (with_vals t []) (replicate 16 0).

Definition oad_size (t : T) : Z := wrap w (zlen (oa_vals t)).
Definition load (n s : Z) : spec_float := double_div (double_of n) (double_of s).
Definition load_factor (t : T) : spec_float := load (oad_size t) (zlen (oa_d t)).

(** [m_d[pos]] *)
Definition slot (t : T) (pos : Z) : result Z :=
  match oa_d t !! Z.to_nat pos with Some cp => Ok cp | None => Err UndefinedBehaviour end.

Definition value (t : T) (ptr : Z) : result (K * V) :=
  if ptr =? 0 then Err UndefinedBehaviour
  else match oa_vals t !! Z.to_nat (ptr - 1) with Some v => Ok v | None => Err UndefinedBehaviour end.

Definition oad_even (h : Z) : Z := Z.ldiff (u64 h) 1.

(** The slot is free or has the key. *)
Definition hit (t : T) (key : K) (cpos : Z) : result bool :=
  cp ← slot t cpos;
  if cp =? 0 then Ok true else v ← value t cp; mret (bool_decide (v.1 = key)).

Fixpoint findBucket_loop (fuel : nat) (t : T) (key : K) (h1 h2 s maxCollisions i : Z) : result Z :=
  match fuel with
  | O => Err OutOfFuel
  | S fuel =>
      if i <? maxCollisions then
        let cpos := u64 (h1 + u64 (i * h2)) mod s in
        b ← hit t key cpos;
        if b : bool then Ok cpos else findBucket_loop fuel t key h1 h2 s maxCollisions (i + 1)
      else Ok findend
  end.
Definition findBucket (t : T) (key : K) : result Z :=
  let s := zlen (oa_d t) in
  if s =? 0 then Ok findend
  else
    let h1 := oad_even (hash1 key) in
    let cpos := h1 mod s in
    b ← hit t key cpos;
    if b : bool then Ok cpos
    else
      let h2 := oad_even (hash2 key) in
      let maxCollisions := Z.min s (oa_maxCollisions t) in
      findBucket_loop (S (Z.to_nat maxCollisions)) t key h1 h2 s maxCollisions 1.

(** The loop of [rehash]: the remaining values, from the [i]-th on.  [None]: a key has no
    slot. *)
Fixpoint place (fuel : nat) (t : T) (i : Z) : result (option T) :=
  match fuel with
  | O => Err OutOfFuel
  | S fuel =>
      if i <=? oad_size t then
        v ← value t i;
        pos ← findBucket t v.1;
        if pos =? findend then Ok None
        else place fuel (with_d t (<[Z.to_nat pos := i]> (oa_d t))) (wrap w (i + 1))
      else Ok (Some t)
  end.

Definition grow (t : T) (count : Z) : result Z := double_to_u64 (double_mul (double_of count) (oa_rehashMult t)).

Fixpoint rehash (fuel : nat) (t : T) (count : Z) : result T :=
  match fuel with
  | O => Err OutOfFuel
  | S fuel =>
      let count := Z.lor count 1 in
      r ← place (S (length (oa_vals t))) (with_d t (replicate (Z.to_nat count) 0)) 1;
      match r with
      | Some t => Ok t
      | None => count ← grow t count; rehash fuel t count
      end
  end.

(** [operator[]]: the position of the value of the key, which is added if it is missing. *)
Fixpoint oad_index (fuel : nat) (t : T) (key : K) : result (T * Z) :=
  match fuel with
  | O => Err OutOfFuel
  | S fuel =>
      pos ← findBucket t key;
      cp ← (if pos =? findend then Ok 0 else slot t pos);
      if negb (pos =? findend) && negb (cp =? 0) then Ok (t, cp)
      else if (pos =? findend) || SFltb (oa_maxLoad t) (load (wrap w (oad_size t + 1)) (zlen (oa_d t))) then
        count ← grow t (zlen (oa_d t));
        t ← rehash fuel t count;
        oad_index fuel t key
      else
        let vals := oa_vals t ++ [(key, mapped_default)] in
        cp ← narrow_check (Unsigned w) (Unsigned 64) (zlen vals);
        mret (with_d (with_vals t vals) (<[Z.to_nat pos := cp]> (oa_d t)), cp)
  end.

(** Writing through the reference that [operator[]] returns. *)
Definition emplace (fuel : nat) (t : T) (key : K) (v : V) : result T :=
  '(t, cp) ← oad_index fuel t key;
  k ← value t cp;
  mret (with_vals t (<[Z.to_nat (cp - 1) := (k.1, v)]> (oa_vals t))).
Definition oad_insert (fuel : nat) (t : T) (key : K) : result T := '(t, _) ← oad_index fuel t key; mret t.

(** The reference to the slot is formed before the position is tested. *)
Definition oad_at (t : T) (key : K) : result V :=
  pos ← findBucket t key;
  cp ← slot t pos;
  if negb (pos =? findend) && negb (cp =? 0) then v ← value t cp; mret v.2 else Err StdOutOfRange.
Definition oad_find (t : T) (key : K) : result Z :=
  pos ← findBucket t key;
  cp ← slot t pos;
  if negb (pos =? findend) && negb (cp =? 0) then Ok (cp - 1) else Ok (zlen (oa_vals t)).
Definition oad_count (t : T) (key : K) : result bool :=
  pos ← findBucket t key;
  if pos =? findend then Ok false else cp ← slot t pos; mret (negb (cp =? 0)).

(** ** Settings *)

Definition set_maxCollisions (fuel : nat) (t : T) (count : Z) : result T :=
  rehash fuel (mkOad (oa_vals t) (oa_d t) (oa_maxLoad t) (oa_rehashMult t) count) (Z.max (zlen (oa_d t)) 16).

Fixpoint target_loop (fuel : nat) (t : T) (targetSize : Z) : result Z :=
  match fuel with
  | O => Err OutOfFuel
  | S fuel =>
      if SFltb (oa_maxLoad t) (load (oad_size t) targetSize)
      then n ← grow t targetSize; target_loop fuel t n
      else Ok targetSize
  end.
Definition max_load_factor (fuel : nat) (t : T) (f : spec_float) : result T :=
  let t := mkOad (oa_vals t) (oa_d t) f (oa_rehashMult t) (oa_maxCollisions t) in
  if SFltb f (load_factor t) then
    n ← grow t (zlen (oa_d t)); n ← target_loop fuel t n; rehash fuel t n
  else Ok t.

Definition oad_reserve (fuel : nat) (t : T) (count : Z) : result T :=
  let newTableSize := double_div (double_of count) (oa_maxLoad t) in
  if SFltb (double_div (double_of (oad_size t)) newTableSize) (oa_maxLoad t)
  then n ← double_to_u64 newTableSize; rehash fuel t n
  else Ok t.

(** [sort(op)]: [std::sort] leaves some permutation in order. *)
Definition oad_sort (sort : list (K * V) -> list (K * V)) (fuel : nat) (t : T) : result T :=
  rehash fuel (with_vals t (sort (oa_vals t))) (zlen (oa_d t)).
End operations.

(** * Probing *)

Section probing.
Context {K V : Type} `{EqDecision K} (hash1 hash2 : K -> Z) (mapped_default : V) (w : Z).
Context (Hw : 1 <= w <= 64).
Abbreviation T := (oad K V).
Abbreviation findB := (findBucket (V := V) hash1 hash2).

(** The positions a key is looked for at. *)
Definition probe (key : K) (s i : Z) : Z := u64 (oad_even (hash1 key) + u64 (i * oad_even (hash2 key))) mod s.
Definition path (t : T) (key : K) : list Z :=
  map (fun i : nat => probe key (zlen (oa_d t)) (Z.of_nat i)) (seq 0 (Z.to_nat (Z.max 1 (Z.min (zlen (oa_d t)) (oa_maxCollisions t))))).

Definition hitb (t : T) (key : K) (p : Z) : bool :=
  match oa_d t !! Z.to_nat p with
  | Some cp => (cp =? 0) || match oa_vals t !! Z.to_nat (cp - 1) with Some v => bool_decide (v.1 = key) | None => false end
  | None => false
  end.
Definition bucket (t : T) (key : K) : option Z := snd <$> list_find (fun p => hitb t key p = true) (path t key).

Record slots_ok (t : T) : Prop := {
  so_room : 0 < zlen (oa_d t) <= max_u64;
  so_slots : Forall (fun cp => 0 <= cp <= zlen (oa_vals t)) (oa_d t);
}.

Lemma oad_even_fits h : fits 64 (oad_even h).
Proof using.
  clear. unfold oad_even. apply fits_testbit; [lia| |].
  - apply Z.ldiff_nonneg. left. pose proof (wrap_fits 64 h ltac:(lia)) as Hf. unfold fits in Hf. lia.
  - intros i Hi. rewrite Z.ldiff_spec, testbit_wrap by lia. by rewrite (proj2 (Z.ltb_ge i 64)) by lia.
Qed.

Lemma probe_0 key s : probe key s 0 = oad_even (hash1 key) mod s.
Proof using.
  clear. unfold probe. rewrite Z.mul_0_l. change (u64 0) with 0. rewrite Z.add_0_r, wrap_small; [done|apply oad_even_fits].
Qed.

Lemma path_in t key p : slots_ok t -> p ∈ path t key -> 0 <= p < zlen (oa_d t).
Proof using.
  clear. intros [Hs _] Hp. apply list_elem_of_fmap in Hp as (i & -> & _). unfold probe. apply Z.mod_pos_bound. lia.
Qed.

Lemma hit_ok t key p : slots_ok t -> 0 <= p < zlen (oa_d t) -> hit t key p = Ok (hitb t key p).
Proof using.
  clear. intros [_ Hs] Hp. unfold hit, hitb, slot. destruct (lookup_lt_is_Some_2 (oa_d t) (Z.to_nat p)) as [cp Hcp]; [lia|].
  rewrite Hcp, bind_ok_l. pose proof (Forall_lookup_1 _ _ _ _ Hs Hcp) as Hr. cbv beta in Hr. unfold value. destruct (Z.eqb_spec cp 0) as [->|Hne]; [done|].
  destruct (lookup_lt_is_Some_2 (oa_vals t) (Z.to_nat (cp - 1))) as [v Hv]; [lia|]. by rewrite Hv, bind_ok_l.
Qed.

Lemma findBucket_loop_eq t key n : slots_ok t -> forall (i : nat) fuel m, (n < fuel)%nat -> m = Z.of_nat (i + n) ->
  findBucket_loop fuel t key (oad_even (hash1 key)) (oad_even (hash2 key)) (zlen (oa_d t)) m (Z.of_nat i) =
  Ok (default findend (snd <$> list_find (fun p => hitb t key p = true) (map (fun i : nat => probe key (zlen (oa_d t)) (Z.of_nat i)) (seq i n)))).
Proof using.
  clear. intros Hok. induction n as [|n IH]; intros i fuel m Hf ->; (destruct fuel as [|fuel]; [lia|]); cbn [findBucket_loop].
  - by rewrite (proj2 (Z.ltb_ge _ _)) by lia.
  - rewrite (proj2 (Z.ltb_lt _ _)) by lia. fold (probe key (zlen (oa_d t)) (Z.of_nat i)). cbn [seq map list_find].
    rewrite hit_ok; [|done|unfold probe; apply Z.mod_pos_bound; apply Hok]. rewrite bind_ok_l.
    destruct (hitb t key (probe key (zlen (oa_d t)) (Z.of_nat i))); [done|]. cbn [decide]. destruct (decide (false = true)) as [|_]; [done|].
    replace (Z.of_nat i + 1) with (Z.of_nat (S i)) by lia. rewrite (IH (S i)) by lia.
    by destruct (list_find _ _) as [[j p]|].
Qed.

Lemma findBucket_eq t key : slots_ok t -> findB t key = Ok (default findend (bucket t key)).
Proof using.
  clear. intros Hok. unfold findBucket, bucket, path. pose proof (so_room _ Hok). rewrite (proj2 (Z.eqb_neq _ _)) by lia. rewrite <- probe_0.
  destruct (Z.to_nat (Z.max 1 (Z.min (zlen (oa_d t)) (oa_maxCollisions t)))) as [|n] eqn:En; [lia|]. cbn [seq map list_find].
  change (Z.of_nat 0) with 0. rewrite hit_ok; [|done|unfold probe; apply Z.mod_pos_bound; apply Hok]. rewrite bind_ok_l.
  destruct (hitb t key (probe key (zlen (oa_d t)) 0)); [done|]. destruct (decide (false = true)) as [|_]; [done|].
  assert (Z.of_nat (1 + n) = Z.max 1 (Z.min (zlen (oa_d t)) (oa_maxCollisions t))) as En' by lia.
  destruct (Z.le_gt_cases 1 (Z.min (zlen (oa_d t)) (oa_maxCollisions t))) as [Hm|Hm].
  - change 1 with (Z.of_nat 1) at 1. rewrite (findBucket_loop_eq t key n Hok 1) by lia. by destruct (list_find _ _) as [[j p]|].
  - destruct n; [|lia]. cbn [seq map list_find fmap option_fmap option_map default].
    destruct (Z.to_nat (Z.min (zlen (oa_d t)) (oa_maxCollisions t))) as [|k] eqn:Ek; cbn [findBucket_loop]; by rewrite (proj2 (Z.ltb_ge _ _)) by lia.
Qed.

(** A position found is on the path, and free or of the key. *)
Lemma bucket_Some t key p : slots_ok t -> bucket t key = Some p ->
  0 <= p < zlen (oa_d t) /\ exists cp, oa_d t !! Z.to_nat p = Some cp /\ 0 <= cp <= zlen (oa_vals t) /\
    (cp <> 0 -> exists v, oa_vals t !! Z.to_nat (cp - 1) = Some v /\ v.1 = key).
Proof using.
  clear. intros Hok Hb. apply fmap_Some in Hb as ([i p'] & Hf & ->). apply list_find_Some in Hf as (Hi & Hh & _). cbn [snd].
  apply list_elem_of_lookup_2 in Hi. apply path_in in Hi; [|done]. split; [done|]. unfold hitb in Hh.
  destruct (oa_d t !! Z.to_nat p') as [cp|] eqn:E; [|done]. exists cp. split; [done|].
  split; [exact (Forall_lookup_1 _ _ _ _ (so_slots _ Hok) E)|]. intros Hne. rewrite (proj2 (Z.eqb_neq cp 0)) in Hh by done. cbn in Hh.
  destruct (oa_vals t !! Z.to_nat (cp - 1)) as [v|]; [|done]. apply bool_decide_eq_true in Hh. by exists v.
Qed.

(** What is found does not change as long as the slots seen on the way keep their state. *)
Lemma bucket_stable (t t' : T) key p : path t' key = path t key -> bucket t key = Some p ->
  (forall q, hitb t key q = false -> hitb t' key q = false) -> hitb t' key p = true -> bucket t' key = Some p.
Proof using.
  clear. intros Hp Hb Hno Hh. apply fmap_Some in Hb as ([i p'] & Hf & ->). apply list_find_Some in Hf as (Hi & _ & Hbefore). cbn [snd] in *.
  unfold bucket. rewrite Hp. apply fmap_Some. exists (i, p'). split; [|done]. apply list_find_Some. split; [done|]. split; [done|].
  intros j y Hy Hj. apply not_true_iff_false, Hno. specialize (Hbefore j y Hy Hj). by apply not_true_iff_false.
Qed.

(** The first [n] values are in the table, and nothing else is. *)
Record placed (n : nat) (t : T) : Prop := {
  pl_keys : NoDup (map fst (oa_vals t));
  pl_len : (n <= length (oa_vals t))%nat;
  pl_room : 0 < zlen (oa_d t) <= max_u64;
  pl_slots : Forall (fun cp => 0 <= cp <= Z.of_nat n) (oa_d t);
  pl_found (i : nat) kv : (i < n)%nat -> oa_vals t !! i = Some kv ->
    exists p, bucket t kv.1 = Some p /\ oa_d t !! Z.to_nat p = Some (Z.of_nat i + 1);
}.

Lemma placed_ok n t : placed n t -> slots_ok t.
Proof using. clear. intros []. split; [done|]. eapply Forall_impl; [done|]. cbn. intros. lia. Qed.

Lemma keys_inj (l : list (K * V)) i j a b : NoDup (map fst l) -> l !! i = Some a -> l !! j = Some b -> a.1 = b.1 -> i = j.
Proof using.
  clear. intros Hnd Ha Hb E. eapply NoDup_lookup; [exact Hnd| |]; rewrite list_lookup_fmap; [by rewrite Ha|by rewrite Hb; cbn; rewrite E].
Qed.

Lemma zto_nat_inj p q : 0 <= p -> 0 <= q -> Z.to_nat p = Z.to_nat q -> p = q.
Proof using. lia. Qed.

(** Taking the slot found for the next value. *)
Lemma placed_next n t kv p : placed n t -> oa_vals t !! n = Some kv -> bucket t kv.1 = Some p ->
  oa_d t !! Z.to_nat p = Some 0 /\ placed (S n) (with_d t (<[Z.to_nat p := Z.of_nat n + 1]> (oa_d t))).
Proof using.
  clear. intros Hpl Hkv Hb. pose proof (placed_ok n t Hpl) as Hok. destruct Hpl as [P1 P2 P3 P4 P5].
  destruct (bucket_Some t kv.1 p Hok Hb) as (Hp & cp & Hcp & Hr & Hv).
  assert (cp = 0) as ->.
  { destruct (decide (cp = 0)) as [|Hne]; [done|]. destruct (Hv Hne) as (v & Hv' & E).
    pose proof (Forall_lookup_1 _ _ _ _ P4 Hcp) as Hr'. cbv beta in Hr'. pose proof (keys_inj _ _ _ _ _ P1 Hv' Hkv E). lia. }
  split; [done|]. pose proof (lookup_lt_Some _ _ _ Hkv). set (t' := with_d t _).
  assert (zlen (oa_d t') = zlen (oa_d t)) as Hlen by (unfold t'; cbn [with_d oa_d]; by rewrite length_insert).
  assert (forall key, path t' key = path t key) as Hpath by (intros key; unfold path; rewrite Hlen; done).
  assert (forall key q, hitb t key q = false -> hitb t' key q = false) as Hno.
  { intros key q Hq. unfold hitb, t' in *. cbn [with_d oa_d oa_vals]. destruct (decide (Z.to_nat p = Z.to_nat q)) as [E|Hne].
    - rewrite E in Hcp. by rewrite Hcp in Hq.
    - by rewrite list_lookup_insert_ne. }
  assert (oa_d t' !! Z.to_nat p = Some (Z.of_nat n + 1)) as Hnew.
  { unfold t'. cbn [with_d oa_d]. rewrite list_lookup_insert_eq; [done|lia]. }
  split; try done; cbn [with_d oa_vals].
  - unfold t'. cbn [with_d oa_d]. rewrite length_insert. lia.
  - unfold t'. cbn [with_d oa_d]. apply Forall_insert; [|lia]. eapply Forall_impl; [exact P4|]. cbn. intros. lia.
  - intros i kv' Hi Hkv'. change (oa_vals t') with (oa_vals t) in Hkv'. destruct (decide (i = n)) as [Ein|Hne]; [subst i|].
    + assert (kv' = kv) as -> by congruence. exists p. split; [|done]. eapply bucket_stable; [apply Hpath|done|apply Hno|].
      unfold hitb. rewrite Hnew. cbn [oa_vals t' with_d]. replace (Z.to_nat (Z.of_nat n + 1 - 1)) with n by lia. rewrite Hkv.
      by rewrite bool_decide_true, orb_true_r.
    + destruct (P5 i kv' ltac:(lia) Hkv') as (q & Hq & Hd). exists q. destruct (bucket_Some t kv'.1 q Hok Hq) as (Hqr & _).
      assert (Z.to_nat p <> Z.to_nat q) as Hpq by (intros E; rewrite E in Hcp; rewrite Hcp in Hd; injection Hd; lia).
      assert (oa_d t' !! Z.to_nat q = Some (Z.of_nat i + 1)) as Hd' by (unfold t'; cbn [with_d oa_d]; by rewrite list_lookup_insert_ne).
      split; [|done]. eapply bucket_stable; [apply Hpath|done|apply Hno|]. unfold hitb. rewrite Hd'. cbn [oa_vals t' with_d].
      replace (Z.to_nat (Z.of_nat i + 1 - 1)) with i by lia. rewrite Hkv'. by rewrite bool_decide_true, orb_true_r.
Qed.

(** ** The loop of [rehash] *)

Definition table_ok (t : T) : Prop := placed (length (oa_vals t)) t /\ zlen (oa_vals t) < 2 ^ w - 1.

Lemma oad_size_ok (t : T) : zlen (oa_vals t) < 2 ^ w - 1 -> oad_size w t = zlen (oa_vals t).
Proof using. clear. intros H'. unfold oad_size. apply wrap_small. unfold fits. lia. Qed.

Lemma place_ok fuel : forall n t, placed n t -> zlen (oa_vals t) < 2 ^ w - 1 -> (length (oa_vals t) - n < fuel)%nat ->
  exists r, place hash1 hash2 w fuel t (Z.of_nat n + 1) = Ok r /\
    forall t', r = Some t' -> placed (length (oa_vals t)) t' /\ exists d, t' = with_d t d /\ length d = length (oa_d t).
Proof using.
  clear. induction fuel as [|fuel IH]; intros n t Hpl Hlen Hf; [lia|]. cbn [place]. rewrite oad_size_ok by done.
  destruct (Z.leb_spec (Z.of_nat n + 1) (zlen (oa_vals t))) as [Hle|Hgt].
  - destruct (lookup_lt_is_Some_2 (oa_vals t) n) as [kv Hkv]; [lia|].
    unfold value. rewrite (proj2 (Z.eqb_neq _ _)) by lia. replace (Z.to_nat (Z.of_nat n + 1 - 1)) with n by lia. rewrite Hkv, bind_ok_l.
    pose proof (placed_ok n t Hpl) as Hok. rewrite findBucket_eq, bind_ok_l by done.
    destruct (bucket t kv.1) as [p|] eqn:Eb; cbn [default].
    + change (id p) with p. destruct (bucket_Some t kv.1 p Hok Eb) as (Hp & _). pose proof (pl_room _ _ Hpl). rewrite (proj2 (Z.eqb_neq p _)) by (unfold findend; lia).
      destruct (placed_next n t kv p Hpl Hkv Eb) as [_ Hpl']. rewrite wrap_small by (unfold fits; lia). replace (Z.of_nat n + 1 + 1) with (Z.of_nat (S n) + 1) by lia.
      destruct (IH (S n) _ Hpl') as (r & -> & Hr); [cbn [with_d oa_vals]; lia..|]. exists r. split; [done|]. intros t' ->.
      destruct (Hr t' eq_refl) as (Hpl'' & d & -> & Hd). split; [done|]. exists d. split; [done|]. rewrite Hd. cbn [with_d oa_d]. by rewrite length_insert.
    + rewrite Z.eqb_refl. exists None. split; [done|]. intros t' E. discriminate.
  - exists (Some t). split; [done|]. intros t' [= <-]. pose proof (pl_len _ _ Hpl). replace (length (oa_vals t)) with n by lia.
    split; [done|]. exists (oa_d t). split; [by destruct t|done].
Qed.
(** ** Growing *)

(** The table with [c] or one more slots, all free; the sizes tried one after another. *)
Definition at_size (t : T) (c : Z) : T := with_d t (replicate (Z.to_nat (Z.lor c 1)) 0).
Fixpoint sizes (k : nat) (t : T) (c : Z) : result Z :=
  match k with O => Ok c | S k => c ← grow t (Z.lor c 1); sizes k t c end.
Definition place_at (t : T) (c : Z) : result (option T) := place hash1 hash2 w (S (length (oa_vals t))) (at_size t c) 1.

Lemma double_to_u64_fits x n : double_to_u64 x = Ok n -> fits 64 n.
Proof using.
  clear. unfold double_to_u64, fits. destruct x as [s|s| |s m e]; try discriminate; [intros [= <-]; lia|].
  set (a := if 0 <=? e then _ else _). assert (0 <= a) as Ha.
  { unfold a. destruct (Z.leb_spec 0 e); [apply Z.mul_nonneg_nonneg; [lia|by apply Z.pow_nonneg]|apply Z.div_pos; [lia|by apply Z.pow_pos_nonneg; lia]]. }
  clearbody a. destruct s; [by destruct (Z.eqb_spec a 0); [intros [= <-]; lia|]|]. destruct (Z.ltb_spec a (2 ^ 64)); [intros [= <-]; lia|discriminate].
Qed.

Lemma lor_1_room c : fits 64 c -> 0 < Z.lor c 1 <= max_u64.
Proof using.
  clear. intros Hc. assert (fits 64 (Z.lor c 1)) as Hf by (apply lor_fits; [lia|done|unfold fits; lia]). unfold fits in Hf.
  assert (Z.lor c 1 <> 0) by (intros E; apply Z.lor_eq_0_iff in E; lia). unfold max_u64. lia.
Qed.

Lemma at_size_placed t c : NoDup (map fst (oa_vals t)) -> fits 64 c ->
  placed 0 (at_size t c) /\ zlen (oa_d (at_size t c)) = Z.lor c 1.
Proof using.
  clear. intros Hnd Hc. pose proof (lor_1_room c Hc). assert (zlen (oa_d (at_size t c)) = Z.lor c 1) as Hl by (cbn; rewrite length_replicate; lia).
  split; [|done]. split; [done|lia|lia| |lia]. apply Forall_replicate. lia.
Qed.

Lemma sizes_app j m t c c2 : sizes j t c = Ok c2 -> sizes (j + m) t c = sizes m t c2.
Proof using.
  clear. revert c. induction j as [|j IH]; intros c; cbn [sizes Nat.add]; [by intros [= ->]|].
  destruct (grow t (Z.lor c 1)) as [c1|]; [|discriminate]. rewrite !bind_ok_l. apply IH.
Qed.

(** A rehashed table. *)
Record rehashed (t : T) (c : Z) (t' : T) : Prop := {
  rh_place : place_at t c = Ok (Some t');
  rh_table : placed (length (oa_vals t')) t';
  rh_vals : exists d, t' = with_d t d;
  rh_len : zlen (oa_d t') = Z.lor c 1;
}.

Lemma place_at_ok t c : NoDup (map fst (oa_vals t)) -> zlen (oa_vals t) < 2 ^ w - 1 -> fits 64 c ->
  exists r, place_at t c = Ok r /\ forall t', r = Some t' -> rehashed t c t'.
Proof using.
  clear. intros Hnd Hlen Hc. destruct (at_size_placed t c Hnd Hc) as [Hpl Hl].
  destruct (place_ok (S (length (oa_vals t))) 0 (at_size t c) Hpl) as (r & Hr & Hok); [done|cbn; lia|].
  exists r. unfold place_at. change 1 with (Z.of_nat 0 + 1). split; [done|]. intros t' E. destruct (Hok t' E) as (Hpl' & d & Et & Hd). subst r t'.
  split; [exact Hr|exact Hpl'|by exists d|]. rewrite <- Hl. cbn [with_d oa_d]. by rewrite Hd.
Qed.

Lemma rehash_ok k : forall fuel t c c' t2, NoDup (map fst (oa_vals t)) -> zlen (oa_vals t) < 2 ^ w - 1 -> fits 64 c ->
  sizes k t c = Ok c' -> place_at t c' = Ok (Some t2) -> (k < fuel)%nat ->
  exists j c2 t', (j <= k)%nat /\ sizes j t c = Ok c2 /\ rehash hash1 hash2 w fuel t c = Ok t' /\ rehashed t c2 t'.
Proof using.
  clear. induction k as [|k IH]; intros fuel t c c' t2 Hnd Hlen Hc Hs Hpl Hf; (destruct fuel as [|fuel]; [lia|]); cbn [rehash];
    change (place hash1 hash2 w (S (length (oa_vals t))) (with_d t (replicate (Z.to_nat (Z.lor c 1)) 0)) 1) with (place_at t c);
    destruct (place_at_ok t c Hnd Hlen Hc) as (r & Hr & Hok); rewrite Hr, bind_ok_l; cbn [sizes] in Hs.
  - injection Hs as <-. rewrite Hpl in Hr. injection Hr as <-. exists 0%nat, c, t2. split; [lia|]. split; [done|]. split; [done|by apply Hok].
  - destruct r as [t'|]; [exists 0%nat, c, t'; split; [lia|]; split; [done|]; split; [done|by apply Hok]|].
    destruct (grow t (Z.lor c 1)) as [c1|] eqn:Eg; [|discriminate Hs]. rewrite bind_ok_l in Hs. rewrite bind_ok_l.
    destruct (IH fuel t c1 c' t2 Hnd Hlen) as (j & c2 & t' & Hj & Hsj & Hre & Ht'); [by eapply double_to_u64_fits|done|done|lia|].
    exists (S j), c2, t'. split; [lia|]. split; [cbn [sizes]; by rewrite Eg|]. by split.
Qed.

Lemma rehashed_table t c t' : zlen (oa_vals t) < 2 ^ w - 1 -> rehashed t c t' -> table_ok t'.
Proof using. intros Hl [_ Hpl [d ->] _]. split; [exact Hpl|exact Hl]. Qed.

Lemma rehash_table fuel : forall t c t', NoDup (map fst (oa_vals t)) -> zlen (oa_vals t) < 2 ^ w - 1 -> fits 64 c ->
  rehash hash1 hash2 w fuel t c = Ok t' -> table_ok t' /\ exists d, t' = with_d t d.
Proof using.
  clear. induction fuel as [|fuel IH]; intros t c t' Hnd Hlen Hc; cbn [rehash]; [discriminate|].
  change (place hash1 hash2 w (S (length (oa_vals t))) (with_d t (replicate (Z.to_nat (Z.lor c 1)) 0)) 1) with (place_at t c).
  destruct (place_at_ok t c Hnd Hlen Hc) as (r & -> & Hok). rewrite bind_ok_l. destruct r as [t1|].
  - intros [= <-]. specialize (Hok t1 eq_refl). split; [by eapply rehashed_table|]. apply Hok.
  - intros Hr. apply bind_ok in Hr as (c1 & Hg & Hr). apply (IH t c1); try done. by eapply double_to_u64_fits.
Qed.

(** ** Adding a key *)

Definition over (t : T) : bool := SFltb (oa_maxLoad t) (load (wrap w (oad_size w t + 1)) (zlen (oa_d t))).

(** The key has a slot, or there is a free one and the table is not too full. *)
Definition ready (t : T) (key : K) : Prop :=
  exists p, bucket t key = Some p /\ (oa_d t !! Z.to_nat p <> Some 0 \/ over t = false).

(** Growing at most [n] times ends at a table that is [ready]. *)
Definition settles (n : nat) (t : T) (key : K) : Prop :=
  ready t key \/ exists k c c' t', (k < n)%nat /\ grow t (zlen (oa_d t)) = Ok c /\ sizes k t c = Ok c' /\ place_at t c' = Ok (Some t') /\ ready t' key.

Definition index_result (t : T) (key : K) (t' : T) (cp : Z) : Prop :=
  table_ok t' /\ oa_maxLoad t' = oa_maxLoad t /\ oa_rehashMult t' = oa_rehashMult t /\ oa_maxCollisions t' = oa_maxCollisions t /\
  ((exists (i : nat) v, oa_vals t !! i = Some (key, v) /\ cp = Z.of_nat i + 1 /\ oa_vals t' = oa_vals t) \/
   (key ∉ map fst (oa_vals t) /\ cp = zlen (oa_vals t) + 1 /\ oa_vals t' = oa_vals t ++ [(key, mapped_default)])).

(** A key of the table is found with its value. *)
Lemma bucket_present n t (i : nat) kv : placed n t -> (i < n)%nat -> oa_vals t !! i = Some kv ->
  exists p, findB t kv.1 = Ok p /\ bucket t kv.1 = Some p /\ p <> findend /\ oa_d t !! Z.to_nat p = Some (Z.of_nat i + 1).
Proof using.
  clear. intros Hpl Hi Hkv. pose proof (placed_ok n t Hpl) as Hok. destruct (pl_found _ _ Hpl i kv Hi Hkv) as (p & Hb & Hd).
  exists p. rewrite findBucket_eq, Hb by done. split; [done|]. split; [done|]. split; [|done].
  destruct (bucket_Some t kv.1 p Hok Hb) as [Hp _]. pose proof (pl_room _ _ Hpl). unfold findend. lia.
Qed.

Lemma key_lookup (l : list (K * V)) key : key ∈ map fst l <-> exists (i : nat) v, l !! i = Some (key, v).
Proof using.
  clear. rewrite list_elem_of_fmap. split.
  - intros ([k v] & -> & Hin). apply list_elem_of_lookup in Hin as [i Hi]. by exists i, v.
  - intros (i & v & Hi). exists (key, v). split; [done|]. by eapply list_elem_of_lookup_2.
Qed.

(** A key that is not there has no slot or a free one. *)
Lemma bucket_absent n t key p : placed n t -> (n = length (oa_vals t)) -> key ∉ map fst (oa_vals t) -> bucket t key = Some p ->
  oa_d t !! Z.to_nat p = Some 0.
Proof using.
  clear. intros Hpl -> Hk Hb. destruct (bucket_Some t key p (placed_ok _ t Hpl) Hb) as (_ & cp & Hcp & _ & Hv).
  destruct (decide (cp = 0)) as [->|Hne]; [done|]. destruct (Hv Hne) as ([k v] & Hv' & E). cbn in E. subst k.
  destruct Hk. apply key_lookup. by exists (Z.to_nat (cp - 1)), v.
Qed.

Lemma push_ok t key p : table_ok t -> zlen (oa_vals t) + 1 < 2 ^ w - 1 -> key ∉ map fst (oa_vals t) -> bucket t key = Some p ->
  table_ok (with_d (with_vals t (oa_vals t ++ [(key, mapped_default)])) (<[Z.to_nat p := zlen (oa_vals t) + 1]> (oa_d t))).
Proof using.
  clear. intros [Hpl _] Hlen Hk Hb. set (t1 := with_vals t (oa_vals t ++ [(key, mapped_default)])). set (n := length (oa_vals t)) in *.
  pose proof (placed_ok n t Hpl) as Hok.
  assert (forall k q, hitb t1 k q = hitb t k q) as Hhit.
  { intros k q. unfold hitb, t1. cbn [with_vals oa_d oa_vals]. destruct (oa_d t !! Z.to_nat q) as [cp|] eqn:E; [|done].
    pose proof (Forall_lookup_1 _ _ _ _ (so_slots _ Hok) E) as Hr. cbv beta in Hr. destruct (Z.eqb_spec cp 0); [done|]. by rewrite lookup_app_l by lia. }
  assert (forall k q, bucket t k = Some q -> bucket t1 k = Some q) as Hbk.
  { intros k q Hq. apply (bucket_stable t t1); [done|exact Hq|by intros; rewrite Hhit|]. rewrite Hhit.
    apply fmap_Some in Hq as ([j q'] & Hf & ->). by apply list_find_Some in Hf as (_ & ? & _). }
  assert (placed n t1) as Hpl1.
  { destruct Hpl as [P1 P2 P3 P4 P5]. split; try done.
    - unfold t1. cbn [with_vals oa_vals]. rewrite map_app. apply NoDup_app. split; [done|]. split; [|apply NoDup_singleton].
      intros k Hin Hin'. apply list_elem_of_singleton in Hin'. cbn in Hin'. congruence.
    - unfold t1. cbn [with_vals oa_vals]. rewrite length_app. lia.
    - intros i kv Hi Hkv. unfold t1 in Hkv. cbn [with_vals oa_vals] in Hkv. rewrite lookup_app_l in Hkv by lia.
      destruct (P5 i kv Hi Hkv) as (q & Hq & Hd). exists q. split; [by apply Hbk|done]. }
  destruct (placed_next n t1 (key, mapped_default) p Hpl1) as [_ Hpl2]; [|by apply Hbk|].
  - unfold t1. cbn [with_vals oa_vals]. rewrite lookup_app_r by lia. by replace (n - length (oa_vals t))%nat with 0%nat by lia.
  - assert (length (oa_vals t1) = S n) as El by (unfold t1; cbn [with_vals oa_vals]; rewrite length_app; cbn [length]; lia).
    split; change (oa_vals (with_d t1 ?d)) with (oa_vals t1); rewrite El; [exact Hpl2|lia].
Qed.

Lemma with_d_path t d key : bucket (with_d (with_d t d) (oa_d t)) key = bucket t key.
Proof using. by destruct t. Qed.

Lemma push_narrow (l : list (K * V)) x : zlen l + 1 < 2 ^ w - 1 -> narrow_check (Unsigned w) (Unsigned 64) (zlen (l ++ [x])) = Ok (zlen l + 1).
Proof using Hw.
  clear -Hw. intros Hl. rewrite length_app. cbn [length]. replace (Z.of_nat (length l + 1)) with (zlen l + 1) by lia.
  pose proof (Z.pow_le_mono_r 2 w 64 ltac:(lia) ltac:(lia)).
  rewrite narrow_check_exact; [|cbn; lia|done|unfold in_ity; cbn [ity_min ity_max]; lia].
  by rewrite decide_True by (unfold in_ity; cbn [ity_min ity_max]; lia).
Qed.

(** Rehashing takes a step towards the size at which the table is ready. *)
Lemma settles_step n t key c : table_ok t -> ~ ready t key -> settles n t key -> grow t (zlen (oa_d t)) = Ok c ->
  forall fuel, (n < fuel)%nat -> exists m t', (m < n)%nat /\ rehash hash1 hash2 w fuel t c = Ok t' /\ settles m t' key /\
    table_ok t' /\ exists d, t' = with_d t d.
Proof using.
  clear Hw. intros [Hpl Hlen] Hnr [Hr|(k & c1 & c' & t2 & Hk & Hg & Hs & Hp2 & Hr2)] Hc fuel Hf; [done|]. rewrite Hc in Hg. injection Hg as <-.
  pose proof (double_to_u64_fits _ _ Hc) as Hc64.
  destruct (rehash_ok k fuel t c c' t2 (pl_keys _ _ Hpl) Hlen Hc64 Hs Hp2 ltac:(lia)) as (j & c2 & t1 & Hj & Hsj & Hre & Hrh).
  pose proof (rehashed_table t c2 t1 Hlen Hrh) as Ht1. destruct Hrh as [Hp1 _ [d ->] Hl1].
  destruct (Nat.eq_dec j k) as [->|Hne].
  - exists 0%nat, (with_d t d). split; [lia|]. split; [done|]. split; [|split; [done|by exists d]]. left.
    assert (c2 = c') as -> by congruence. rewrite Hp1 in Hp2. by injection Hp2 as <-.
  - exists (k - j)%nat, (with_d t d). split; [lia|]. split; [done|]. split; [|split; [done|by exists d]]. right.
    replace k with (j + S (k - j - 1))%nat in Hs by lia. rewrite (sizes_app _ _ _ _ _ Hsj) in Hs. cbn [sizes] in Hs.
    apply bind_ok in Hs as (c3 & Hg3 & Hs3). exists (k - j - 1)%nat, c3, c', t2. split; [lia|]. rewrite Hl1. split; [exact Hg3|]. split; [|split; [exact Hp2|done]].
    clear -Hs3. revert c3 Hs3. induction (k - j - 1)%nat as [|m IH]; intros c3; cbn [sizes]; [done|].
    intros Hs. apply bind_ok in Hs as (c4 & Hg & Hs). change (grow (with_d t d) (Z.lor c3 1)) with (grow t (Z.lor c3 1)). rewrite Hg, bind_ok_l. by apply IH.
Qed.

(** [operator[]] finds the key, adds it, or grows the table and starts again. *)
Lemma oad_index_step key t : table_ok t -> zlen (oa_vals t) + 1 < 2 ^ w - 1 ->
  (exists t' cp, index_result t key t' cp /\ forall fuel, oad_index hash1 hash2 mapped_default w (S fuel) t key = Ok (t', cp)) \/
  (~ ready t key /\ forall fuel, oad_index hash1 hash2 mapped_default w (S fuel) t key =
     (count ← grow t (zlen (oa_d t)); t1 ← rehash hash1 hash2 w fuel t count; oad_index hash1 hash2 mapped_default w fuel t1 key)).
Proof using Hw.
  intros Ht Hlen. pose proof Ht as [Hpl Hlen']. pose proof (placed_ok _ t Hpl) as Hok. cbn [oad_index]. rewrite findBucket_eq by done.
  destruct (decide (key ∈ map fst (oa_vals t))) as [Hin|Hout].
  { apply key_lookup in Hin as (i & v & Hi). destruct (bucket_present _ t i (key, v) Hpl) as (p & _ & Hb & Hne & Hd); [by apply lookup_lt_Some in Hi|done|].
    cbn [fst] in Hb. rewrite Hb. cbn [default]. change (id p) with p. left. exists t, (Z.of_nat i + 1). split; [split; [done|]; do 3 (split; [done|]); left; by exists i, v|].
    intros fuel. rewrite bind_ok_l, (proj2 (Z.eqb_neq p _)) by done. unfold slot. rewrite Hd, bind_ok_l. cbn [negb andb]. by rewrite (proj2 (Z.eqb_neq _ 0)) by lia. }
  destruct (bucket t key) as [p|] eqn:Eb; cbn [default].
  - change (id p) with p. destruct (bucket_Some t key p Hok Eb) as [Hp _]. pose proof (so_room _ Hok).
    pose proof (bucket_absent _ t key p Hpl eq_refl Hout Eb) as Hd. assert (p <> findend) as Hne by (unfold findend; lia).
    destruct (over t) eqn:Eo; [right; split|left; eexists _, (zlen (oa_vals t) + 1); split].
    { intros (p' & Hp' & [Hfree|Hov]); [|congruence]. rewrite Eb in Hp'. by injection Hp' as <-. }
    2: { split; [by apply push_ok|]. do 3 (split; [done|]). by right. }
    all: intros fuel; rewrite bind_ok_l, (proj2 (Z.eqb_neq p _)) by done; unfold slot; rewrite Hd, bind_ok_l; cbn [negb andb orb Z.eqb]; fold (over t); rewrite Eo; try done.
    by rewrite push_narrow, bind_ok_l by done.
  - right. split; [intros (p' & Hp' & _); congruence|]. intros fuel. by rewrite !bind_ok_l, Z.eqb_refl.
Qed.

Lemma oad_index_ok key : forall n t fuel, table_ok t -> zlen (oa_vals t) + 1 < 2 ^ w - 1 -> settles n t key -> (n + 1 < fuel)%nat ->
  exists t' cp, oad_index hash1 hash2 mapped_default w fuel t key = Ok (t', cp) /\ index_result t key t' cp.
Proof using Hw.
  intros n. induction n as [n IH] using lt_wf_ind. intros t fuel Ht Hlen Hset Hf. destruct fuel as [|fuel]; [lia|].
  destruct (oad_index_step key t Ht Hlen) as [(t' & cp & Hr & E)|[Hnr E]]; [by exists t', cp|]. rewrite E.
  destruct (grow t (zlen (oa_d t))) as [c|] eqn:Eg; [|destruct Hset as [|(k & c & c' & t2 & _ & Hg & _)]; [done|congruence]].
  rewrite bind_ok_l. destruct (settles_step n t key c Ht Hnr Hset Eg fuel) as (m & t1 & Hm & -> & Hset1 & Ht1 & d & ->); [lia|].
  rewrite bind_ok_l. destruct (IH m Hm (with_d t d) fuel Ht1 Hlen Hset1 ltac:(lia)) as (t' & cp & E1 & Hr). by exists t', cp.
Qed.

(** Whenever [operator[]] returns, the key is there, at the position it gives. *)
Lemma index_returns key fuel : forall t t' cp, table_ok t -> zlen (oa_vals t) + 1 < 2 ^ w - 1 ->
  oad_index hash1 hash2 mapped_default w fuel t key = Ok (t', cp) -> index_result t key t' cp.
Proof using Hw.
  induction fuel as [|fuel IH]; intros t t' cp Ht Hlen; [done|].
  destruct (oad_index_step key t Ht Hlen) as [(t2 & cp2 & Hr & ->)|[_ ->]]; [by intros [= <- <-]|].
  intros (c & Hg & (t1 & Hr & E)%bind_ok)%bind_ok. destruct (rehash_table fuel t c t1 (pl_keys _ _ (proj1 Ht)) (proj2 Ht)) as (Ht1 & d & ->); [by eapply double_to_u64_fits|done|].
  exact (IH (with_d t d) t' cp Ht1 Hlen E).
Qed.

(** ** What the operations do to the association list *)

(** The specification: values in the order of insertion. *)
Definition assoc_find (l : list (K * V)) (key : K) : option (nat * V) :=
  (fun x => (x.1, x.2.2)) <$> list_find (fun kv => kv.1 = key) l.
Definition assoc_put (l : list (K * V)) (key : K) (v : V) : list (K * V) :=
  match assoc_find l key with Some (i, _) => <[i := (key, v)]> l | None => l ++ [(key, v)] end.

Lemma assoc_find_Some (l : list (K * V)) key i v : NoDup (map fst l) -> assoc_find l key = Some (i, v) <-> l !! i = Some (key, v).
Proof using.
  clear. intros Hnd. unfold assoc_find. rewrite fmap_Some. split.
  - intros ([j [k v']] & Hf & E). cbn in E. injection E as -> ->. apply list_find_Some in Hf as (Hi & Hk & _). cbn in Hk. by subst k.
  - intros Hi. exists (i, (key, v)). split; [|done]. apply list_find_Some. split; [done|]. split; [done|]. intros j y Hj Hji E.
    pose proof (keys_inj l j i y (key, v) Hnd Hj Hi E). lia.
Qed.

Lemma assoc_find_None (l : list (K * V)) key : assoc_find l key = None <-> key ∉ map fst l.
Proof using.
  clear. unfold assoc_find. rewrite fmap_None, list_find_None, Forall_forall. split.
  - intros Hf Hin. apply list_elem_of_fmap in Hin as (x & -> & Hx). by apply (Hf x).
  - intros Hk x Hx E. apply Hk, list_elem_of_fmap. by exists x.
Qed.

(** Looking up. *)
Lemma lookup_present t (i : nat) key v : table_ok t -> oa_vals t !! i = Some (key, v) ->
  oad_at hash1 hash2 t key = Ok v /\ oad_find hash1 hash2 t key = Ok (Z.of_nat i) /\ oad_count hash1 hash2 t key = Ok true.
Proof using.
  clear. intros [Hpl _] Hi. destruct (bucket_present _ t i (key, v) Hpl) as (p & Hf & _ & Hne & Hd); [by apply lookup_lt_Some in Hi|done|].
  cbn [fst] in Hf. unfold oad_at, oad_find, oad_count, slot, value. rewrite Hf, !bind_ok_l, Hd, !bind_ok_l.
  rewrite (proj2 (Z.eqb_neq p _)) by done. rewrite (proj2 (Z.eqb_neq (Z.of_nat i + 1) 0)) by lia. cbn [negb andb].
  replace (Z.of_nat i + 1 - 1) with (Z.of_nat i) by lia. rewrite Nat2Z.id, Hi. done.
Qed.

Lemma lookup_absent t key : table_ok t -> key ∉ map fst (oa_vals t) ->
  oad_count hash1 hash2 t key = Ok false /\
  match bucket t key with
  | Some _ => oad_at hash1 hash2 t key = Err StdOutOfRange /\ oad_find hash1 hash2 t key = Ok (zlen (oa_vals t))
  | None => oad_at hash1 hash2 t key = Err UndefinedBehaviour /\ oad_find hash1 hash2 t key = Err UndefinedBehaviour
  end.
Proof using.
  clear. intros [Hpl _] Hk. pose proof (placed_ok _ t Hpl) as Hok. unfold oad_at, oad_find, oad_count, slot. rewrite findBucket_eq by done.
  destruct (bucket t key) as [p|] eqn:Eb; cbn [default].
  - change (id p) with p. rewrite !bind_ok_l, (bucket_absent _ t key p Hpl eq_refl Hk Eb), !bind_ok_l. cbn [Z.eqb negb]. rewrite andb_false_r.
    by destruct (Z.eqb_spec p findend).
  - rewrite !bind_ok_l, Z.eqb_refl. split; [done|]. pose proof (pl_room _ _ Hpl). rewrite lookup_ge_None_2; [done|]. unfold findend. lia.
Qed.

(** Writing through the reference. *)
Lemma write_ok t key v t1 cp : table_ok t -> index_result t key t1 cp ->
  exists t', (k ← value t1 cp; mret (with_vals t1 (<[Z.to_nat (cp - 1) := (k.1, v)]> (oa_vals t1)))) = Ok t' /\
    table_ok t' /\ oa_vals t' = assoc_put (oa_vals t) key v.
Proof using.
  clear. intros Ht (Ht1 & _ & _ & _ & Hr). pose proof Ht as [Hpl _]. pose proof (pl_keys _ _ Hpl) as Hnd.
  assert (exists (i : nat) v0, oa_vals t1 !! i = Some (key, v0) /\ cp = Z.of_nat i + 1 /\ <[i := (key, v)]> (oa_vals t1) = assoc_put (oa_vals t) key v) as (i & v0 & Hi & -> & Hput).
  { unfold assoc_put. destruct Hr as [(i & v0 & Hi & -> & ->)|(Hk & -> & ->)].
    - rewrite (proj2 (assoc_find_Some _ _ i v0 Hnd) Hi). by exists i, v0.
    - rewrite (proj2 (assoc_find_None _ _) Hk). exists (length (oa_vals t)), mapped_default. rewrite lookup_app_r, Nat.sub_diag by lia.
      split; [done|]. split; [done|]. rewrite insert_app_r_alt by lia. by rewrite Nat.sub_diag. }
  unfold value. rewrite (proj2 (Z.eqb_neq _ 0)) by lia. replace (Z.to_nat (Z.of_nat i + 1 - 1)) with i by lia. rewrite Hi, bind_ok_l. cbn [fst].
  eexists. split; [done|]. split; [|exact Hput]. destruct Ht1 as [Hpl1 Hl1]. set (t2 := with_vals t1 _).
  assert (length (oa_vals t2) = length (oa_vals t1)) as El by (unfold t2; cbn [with_vals oa_vals]; by rewrite length_insert).
  assert (map fst (oa_vals t2) = map fst (oa_vals t1)) as Ek.
  { unfold t2. cbn [with_vals oa_vals]. change (map fst (<[i := (key, v)]> (oa_vals t1))) with (fst <$> <[i := (key, v)]> (oa_vals t1)).
    rewrite list_fmap_insert. cbn [fst]. apply list_insert_id. by rewrite list_lookup_fmap, Hi. }
  assert (forall j, fst <$> oa_vals t2 !! j = fst <$> oa_vals t1 !! j) as Ej.
  { intros j. rewrite <- !list_lookup_fmap. change (fst <$> oa_vals t2) with (map fst (oa_vals t2)). by rewrite Ek. }
  assert (forall k q, hitb t2 k q = hitb t1 k q) as Hh.
  { intros k q. unfold hitb. change (oa_d t2) with (oa_d t1). destruct (oa_d t1 !! Z.to_nat q) as [cp|]; [|done]. f_equal.
    specialize (Ej (Z.to_nat (cp - 1))). revert Ej. destruct (oa_vals t2 !! Z.to_nat (cp - 1)) as [a|], (oa_vals t1 !! Z.to_nat (cp - 1)) as [b|]; try done.
    intros Ea. injection Ea as Ea. by rewrite Ea. }
  split; rewrite El; [|done]. destruct Hpl1 as [P1 P2 P3 P4 P5]. split; try done; [by rewrite Ek|by rewrite El|].
  intros j kv Hj Hkv. specialize (Ej j). rewrite Hkv in Ej. destruct (oa_vals t1 !! j) as [kv1|] eqn:E1; [|done]. injection Ej as Ej.
  destruct (P5 j kv1 Hj E1) as (p & Hp & Hd). exists p. split; [|done]. rewrite Ej. apply (bucket_stable t1 t2); [done|done|by intros; rewrite Hh|].
  rewrite Hh. apply fmap_Some in Hp as ([m q] & Hf' & ->). by apply list_find_Some in Hf' as (_ & ? & _).
Qed.

(** Adding: it returns when growing finds a slot, and when it returns, the key has the value. *)
Lemma emplace_ok n t key v fuel : table_ok t -> zlen (oa_vals t) + 1 < 2 ^ w - 1 -> settles n t key -> (n + 1 < fuel)%nat ->
  exists t', emplace hash1 hash2 mapped_default w fuel t key v = Ok t' /\ table_ok t' /\ oa_vals t' = assoc_put (oa_vals t) key v.
Proof using Hw.
  intros Ht Hlen Hset Hf. destruct (oad_index_ok key n t fuel Ht Hlen Hset Hf) as (t1 & cp & E & Hr).
  unfold emplace. rewrite E, bind_ok_l. by apply write_ok.
Qed.

Lemma emplace_returns t key v fuel t' : table_ok t -> zlen (oa_vals t) + 1 < 2 ^ w - 1 -> emplace hash1 hash2 mapped_default w fuel t key v = Ok t' ->
  table_ok t' /\ oa_vals t' = assoc_put (oa_vals t) key v.
Proof using Hw.
  intros Ht Hlen ([t1 cp] & E & Hwr)%bind_ok. destruct (write_ok t key v t1 cp Ht) as (t2 & E2 & Ht2); [by eapply index_returns|].
  cbv beta iota in Hwr. rewrite Hwr in E2. by injection E2 as ->.
Qed.

(** ** When adding ends *)

Abbreviation ev key := (oad_even (hash1 key)).

(** Every value lies at the first place it is looked for. *)
Definition apart (t : T) : Prop := forall (p : nat) cp v, oa_d t !! p = Some cp -> cp <> 0 -> oa_vals t !! Z.to_nat (cp - 1) = Some v -> Z.of_nat p = ev v.1.
Definition hashes_apart (key : K) (t : T) : Prop := forall v, v ∈ oa_vals t -> ev v.1 = ev key -> v.1 = key.

Lemma bucket_apart t key : slots_ok t -> apart t -> ev key < zlen (oa_d t) -> hashes_apart key t -> bucket t key = Some (ev key).
Proof using.
  clear. intros Hok Hap Hs Hk. unfold bucket, path. pose proof (so_room _ Hok). pose proof (oad_even_fits (hash1 key)) as He. unfold fits in He.
  destruct (Z.to_nat (Z.max 1 (Z.min (zlen (oa_d t)) (oa_maxCollisions t)))) as [|n] eqn:En; [lia|]. cbn [seq map list_find].
  change (Z.of_nat 0) with 0. rewrite probe_0, Z.mod_small by lia.
  assert (hitb t key (ev key) = true) as ->; [|done].
  unfold hitb. destruct (lookup_lt_is_Some_2 (oa_d t) (Z.to_nat (ev key))) as [cp Hcp]; [lia|]. rewrite Hcp.
  pose proof (Forall_lookup_1 _ _ _ _ (so_slots _ Hok) Hcp) as Hr. cbv beta in Hr. destruct (Z.eqb_spec cp 0) as [|Hne]; [done|].
  destruct (lookup_lt_is_Some_2 (oa_vals t) (Z.to_nat (cp - 1))) as [v Hv]; [lia|]. rewrite Hv. cbn [orb]. apply bool_decide_eq_true.
  apply Hk; [by eapply list_elem_of_lookup_2|]. rewrite <- (Hap _ _ _ Hcp Hne Hv). lia.
Qed.

Lemma place_apart fuel : forall n t, placed n t -> apart t -> zlen (oa_vals t) < 2 ^ w - 1 -> (length (oa_vals t) - n < fuel)%nat ->
  (forall v, v ∈ oa_vals t -> ev v.1 < zlen (oa_d t) /\ hashes_apart v.1 t) ->
  exists t', place hash1 hash2 w fuel t (Z.of_nat n + 1) = Ok (Some t') /\ apart t' /\ oa_vals t' = oa_vals t.
Proof using.
  clear. induction fuel as [|fuel IH]; intros n t Hpl Hap Hlen Hf Hv; [lia|]. cbn [place]. rewrite oad_size_ok by done.
  destruct (Z.leb_spec (Z.of_nat n + 1) (zlen (oa_vals t))) as [Hle|Hgt]; [|by exists t].
  destruct (lookup_lt_is_Some_2 (oa_vals t) n) as [kv Hkv]; [lia|]. pose proof (placed_ok n t Hpl) as Hok.
  unfold value. rewrite (proj2 (Z.eqb_neq _ _)) by lia. replace (Z.to_nat (Z.of_nat n + 1 - 1)) with n by lia. rewrite Hkv, bind_ok_l.
  destruct (Hv kv) as [Hs Hk]; [by eapply list_elem_of_lookup_2|]. pose proof (bucket_apart t kv.1 Hok Hap Hs Hk) as Hb.
  rewrite findBucket_eq, bind_ok_l, Hb by done. cbn [default]. change (id (ev kv.1)) with (ev kv.1). pose proof (pl_room _ _ Hpl).
  rewrite (proj2 (Z.eqb_neq (ev kv.1) _)) by (unfold findend; lia).
  destruct (placed_next n t kv (ev kv.1) Hpl Hkv Hb) as [Hfree Hpl']. rewrite wrap_small by (unfold fits; lia).
  replace (Z.of_nat n + 1 + 1) with (Z.of_nat (S n) + 1) by lia. set (t1 := with_d t _) in *. pose proof (oad_even_fits (hash1 kv.1)) as He. unfold fits in He.
  destruct (IH (S n) t1 Hpl') as (t' & -> & Hap' & Hvals); [|done|change (oa_vals t1) with (oa_vals t); lia| |by exists t'].
  - intros p cp v Hp Hne Hvv. unfold t1 in Hp, Hvv. cbn [with_d oa_d oa_vals] in Hp, Hvv.
    destruct (decide (Z.to_nat (ev kv.1) = p)) as [<-|Hpne]; [|rewrite list_lookup_insert_ne in Hp by done; by eapply Hap].
    rewrite list_lookup_insert_eq in Hp by lia. injection Hp as <-. replace (Z.to_nat (Z.of_nat n + 1 - 1)) with n in Hvv by lia.
    rewrite Hkv in Hvv. injection Hvv as <-. lia.
  - intros v Hin. destruct (Hv v Hin) as [H1 H2]. split; [|done]. unfold t1. cbn [with_d oa_d]. by rewrite length_insert.
Qed.

(** A size larger than all hashes is enough, if the hashes of the keys differ. *)
Lemma distinct_settles k t key c c' : table_ok t -> hashes_apart key t -> (forall v, v ∈ oa_vals t -> hashes_apart v.1 t) ->
  grow t (zlen (oa_d t)) = Ok c -> sizes k t c = Ok c' -> ev key < Z.lor c' 1 -> (forall v, v ∈ oa_vals t -> ev v.1 < Z.lor c' 1) ->
  SFltb (oa_maxLoad t) (load (zlen (oa_vals t) + 1) (Z.lor c' 1)) = false ->
  settles (S k) t key.
Proof using.
  clear. intros [Hpl Hlen] Hk Hks Hg Hs Hkey Hvals Hov. pose proof (pl_keys _ _ Hpl) as Hnd.
  assert (fits 64 c') as Hc'.
  { clear -Hg Hs. apply double_to_u64_fits in Hg. revert c Hg Hs. induction k as [|k IH]; intros c Hg; cbn [sizes]; [by intros [= <-]|].
    intros Hs. apply bind_ok in Hs as (c1 & Hg1 & Hs). eapply IH; [|exact Hs]. by eapply double_to_u64_fits. }
  destruct (at_size_placed t c' Hnd Hc') as [Hpl0 Hl0].
  destruct (place_apart (S (length (oa_vals t))) 0 (at_size t c') Hpl0) as (t' & Hp & Hap & Hv').
  - intros p cp v Hp Hne _. cbn [at_size with_d oa_d] in Hp. apply lookup_replicate in Hp as [-> _]. done.
  - done.
  - change (oa_vals (at_size t c')) with (oa_vals t). lia.
  - intros v Hin. rewrite Hl0. split; [by apply Hvals|by apply Hks].
  - change (oa_vals (at_size t c')) with (oa_vals t) in Hv'. right. exists k, c, c', t'. split; [lia|]. split; [done|]. split; [done|]. split; [exact Hp|].
    destruct (place_at_ok t c' Hnd Hlen Hc') as (r & Hr & Hrh). change (place_at t c' = Ok (Some t')) in Hp. rewrite Hp in Hr. injection Hr as <-. specialize (Hrh t' eq_refl).
    destruct Hrh as [_ Hpl' [d Ed] Hl']. exists (ev key). split.
    + apply bucket_apart; [by eapply placed_ok|done|by rewrite Hl'|]. intros v Hin. apply Hk. by rewrite Hv' in Hin.
    + right. unfold over. rewrite oad_size_ok by (rewrite Hv'; lia). rewrite Hv', Hl', wrap_small by (unfold fits; lia). subst t'. exact Hov.
Qed.

(** ** When it does not *)

(** As many keys as are tried at most share both hashes. *)
Definition crowded (t : T) (key : K) (ks : list K) : Prop :=
  NoDup ks /\ Z.max 1 (oa_maxCollisions t) <= zlen ks /\ key ∉ map fst (oa_vals t) /\
  Forall (fun k => k ∈ map fst (oa_vals t) /\ ev k = ev key /\ oad_even (hash2 k) = oad_even (hash2 key)) ks.

Lemma crowded_no_bucket t key ks : table_ok t -> crowded t key ks -> bucket t key = None.
Proof using.
  clear. intros [Hpl _] (Hnd & Hlen & Hkey & Hks). pose proof (placed_ok _ t Hpl) as Hok.
  assert (exists ps, Forall2 (fun k p => exists (i : nat) v, bucket t k = Some p /\ oa_d t !! Z.to_nat p = Some (Z.of_nat i + 1) /\ oa_vals t !! i = Some (k, v)) ks ps) as [ps Hps].
  { clear Hnd Hlen. induction Hks as [|k ks (Hin & _) _ IH]; [by exists []|]. destruct IH as [ps IH].
    apply key_lookup in Hin as (i & v & Hi). destruct (bucket_present _ t i (k, v) Hpl) as (p & _ & Hb & _ & Hd); [by apply lookup_lt_Some in Hi|done|].
    exists (p :: ps). constructor; [|done]. by exists i, v. }
  pose proof (Forall2_length _ _ _ Hps) as Hpl2.
  assert (NoDup ps) as Hndp.
  { apply NoDup_alt. intros a b p Ha Hb. destruct (Forall2_lookup_r _ _ _ _ _ Hps Ha) as (ka & Hka & ia & va & _ & Hda & Hva).
    destruct (Forall2_lookup_r _ _ _ _ _ Hps Hb) as (kb & Hkb & ib & vb & _ & Hdb & Hvb). rewrite Hda in Hdb. injection Hdb as E.
    assert (ia = ib) as <- by lia. rewrite Hva in Hvb. injection Hvb as -> _. by eapply NoDup_lookup. }
  assert (path t key ⊆ ps) as Hsub.
  { intros q Hq. apply list_elem_of_In. refine (NoDup_length_incl (l := ps) (l' := path t key) _ _ _ q _).
    - by apply NoDup_ListNoDup.
    - unfold path. rewrite length_map, length_seq. lia.
    - intros p Hp%list_elem_of_In. apply list_elem_of_lookup in Hp as [a Ha]. destruct (Forall2_lookup_r _ _ _ _ _ Hps Ha) as (k & Hk & i & v & Hb & _).
      apply fmap_Some in Hb as ([j p'] & Hf & ->). apply list_find_Some in Hf as (Hj & _). apply list_elem_of_lookup_2 in Hj.
      destruct (Forall_lookup_1 _ _ _ _ Hks Hk) as (_ & E1 & E2). apply list_elem_of_In. unfold path, probe in *. by rewrite E1, E2 in Hj.
    - by apply list_elem_of_In. }
  unfold bucket. apply fmap_None, list_find_None, Forall_forall. intros q Hq Hh. apply Hsub, list_elem_of_lookup in Hq as [a Ha].
  destruct (Forall2_lookup_r _ _ _ _ _ Hps Ha) as (k & Hk & i & v & _ & Hd & Hv). unfold hitb in Hh. rewrite Hd in Hh.
  rewrite (proj2 (Z.eqb_neq _ 0)) in Hh by lia. replace (Z.to_nat (Z.of_nat i + 1 - 1)) with i in Hh by lia. rewrite Hv in Hh. cbn [orb fst] in Hh.
  apply bool_decide_eq_true in Hh. subst k. apply Hkey, key_lookup. by exists i, v.
Qed.

Lemma crowded_diverges key ks : forall fuel t r, table_ok t -> crowded t key ks -> oad_index hash1 hash2 mapped_default w fuel t key <> Ok r.
Proof using.
  clear Hw. induction fuel as [|fuel IH]; intros t r Ht Hcr; cbn [oad_index]; [done|]. pose proof Ht as [Hpl Hlen].
  rewrite findBucket_eq, (crowded_no_bucket t key ks Ht Hcr) by (by eapply placed_ok). cbn [default]. rewrite bind_ok_l, Z.eqb_refl, bind_ok_l. cbn [negb andb orb].
  intros E. apply bind_ok in E as (c & Hg & E). apply bind_ok in E as (t1 & Hr & E).
  destruct (rehash_table fuel t c t1 (pl_keys _ _ Hpl) Hlen) as (Ht1 & d & ->); [by eapply double_to_u64_fits|done|].
  by apply (IH (with_d t d) r Ht1) in E.
Qed.

(** ** Rebuilding *)

(** One of the first [k + 1] sizes from [c] on has a slot for every key. *)
Definition rebuilds (k : nat) (t : T) (c : Z) : Prop := exists c' t', sizes k t c = Ok c' /\ place_at t c' = Ok (Some t').

Lemma rebuild_ok k fuel t c : NoDup (map fst (oa_vals t)) -> zlen (oa_vals t) < 2 ^ w - 1 -> fits 64 c -> rebuilds k t c -> (k < fuel)%nat ->
  exists t', rehash hash1 hash2 w fuel t c = Ok t' /\ table_ok t' /\ oa_vals t' = oa_vals t.
Proof using.
  clear. intros Hnd Hlen Hc (c' & t2 & Hs & Hp) Hf. destruct (rehash_ok k fuel t c c' t2 Hnd Hlen Hc Hs Hp Hf) as (j & c2 & t' & _ & _ & Hre & Hrh).
  exists t'. split; [done|]. split; [by eapply rehashed_table|]. by destruct (rh_vals _ _ _ Hrh) as [d ->].
Qed.

Lemma oad_new_ok maxLoad : table_ok (oad_new (V := V) maxLoad) .
Proof using Hw.
  pose proof (Z.pow_le_mono_r 2 1 w ltac:(lia) ltac:(lia)). split; [|cbn; lia].
  split; [apply NoDup_nil_2|done|by vm_compute|apply Forall_replicate; lia|intros i kv Hi; cbn in Hi; lia].
Qed.

Lemma oad_clear_ok t : table_ok (oad_clear t).
Proof using Hw.
  pose proof (Z.pow_le_mono_r 2 1 w ltac:(lia) ltac:(lia)). split; [|cbn; lia].
  split; [apply NoDup_nil_2|done|by vm_compute|apply Forall_replicate; lia|intros i kv Hi; cbn in Hi; lia].
Qed.

(** ** Sequences of insertions *)

Fixpoint put_all (fuel : nat) (t : T) (kvs : list (K * V)) : result T :=
  match kvs with
  | [] => Ok t
  | kv :: kvs => t ← emplace hash1 hash2 mapped_default w fuel t kv.1 kv.2; put_all fuel t kvs
  end.
Fixpoint settles_all (n : nat) (t : T) (kvs : list (K * V)) : Prop :=
  match kvs with
  | [] => True
  | kv :: kvs => settles n t kv.1 /\ forall t', emplace hash1 hash2 mapped_default w (n + 2) t kv.1 kv.2 = Ok t' -> settles_all n t' kvs
  end.

Lemma assoc_put_length (l : list (K * V)) key v : zlen (assoc_put l key v) <= zlen l + 1.
Proof using.
  clear. unfold assoc_put. destruct (assoc_find l key) as [[i v0]|]; [rewrite length_insert; lia|]. rewrite length_app. cbn [length]. lia.
Qed.

Lemma put_all_returns fuel kvs : forall t t', table_ok t -> zlen (oa_vals t) + zlen kvs < 2 ^ w - 1 -> put_all fuel t kvs = Ok t' ->
  table_ok t' /\ oa_vals t' = foldl (fun l kv => assoc_put l kv.1 kv.2) (oa_vals t) kvs.
Proof using Hw.
  induction kvs as [|[key v] kvs IH]; intros t t' Ht Hlen; cbn [put_all foldl]; [by intros [= <-]|]. cbn [length fst snd] in *.
  intros (t1 & E & Hr)%bind_ok. destruct (emplace_returns t key v fuel t1 Ht) as [Ht1 Hv1]; [lia|done|].
  pose proof (assoc_put_length (oa_vals t) key v). rewrite <- Hv1. apply IH; [done|rewrite Hv1; lia|done].
Qed.

Lemma put_all_ok n kvs : forall t, table_ok t -> zlen (oa_vals t) + zlen kvs < 2 ^ w - 1 -> settles_all n t kvs ->
  exists t', put_all (n + 2) t kvs = Ok t'.
Proof using Hw.
  induction kvs as [|[key v] kvs IH]; intros t Ht Hlen Hset; cbn [put_all]; [by exists t|]. destruct Hset as [Hset Hrest]. cbn [length fst snd] in *.
  destruct (emplace_ok n t key v (n + 2) Ht) as (t1 & E & Ht1 & Hv1); [lia|done|lia|]. rewrite E, bind_ok_l.
  pose proof (assoc_put_length (oa_vals t) key v). apply IH; [done|rewrite Hv1; lia|by apply Hrest].
Qed.

(** What looking up a key gives in a table for the list [l]. *)
Definition looks_up (t : T) (l : list (K * V)) (key : K) : Prop :=
  match assoc_find l key with
  | Some (i, v) => l !! i = Some (key, v) /\ oad_at hash1 hash2 t key = Ok v /\ oad_find hash1 hash2 t key = Ok (Z.of_nat i) /\ oad_count hash1 hash2 t key = Ok true
  | None => key ∉ map fst l /\ oad_count hash1 hash2 t key = Ok false /\
      match bucket t key with
      | Some _ => oad_at hash1 hash2 t key = Err StdOutOfRange /\ oad_find hash1 hash2 t key = Ok (zlen l)
      | None => oad_at hash1 hash2 t key = Err UndefinedBehaviour /\ oad_find hash1 hash2 t key = Err UndefinedBehaviour
      end
  end.

Lemma table_looks_up t key : table_ok t -> looks_up t (oa_vals t) key.
Proof using.
  clear. intros Ht. pose proof (pl_keys _ _ (proj1 Ht)) as Hnd. unfold looks_up. destruct (assoc_find (oa_vals t) key) as [[i v]|] eqn:E.
  - apply assoc_find_Some in E; [|done]. split; [done|]. by apply lookup_present.
  - apply assoc_find_None in E. split; [done|]. by apply lookup_absent.
Qed.
End probing.

(** * Properties *)

(** C31: the table is a map that keeps the order of insertion.  When putting keys and values one
    after another into a consistent table, few enough for the width of the positions, returns,
    which it does when growing finds a slot for each key within [n] steps ([settles_all]), the
    values are those of the association list in which each put overwrites the value of its key
    or is appended.  Then [at], [find] and [count] give the value, the position and the presence
    of each of its keys; for any other key [count] is false, and when one of the slots tried is
    free [at] throws and [find] gives the end, while when none is ([bucket] is [None]), both
    read behind the table. *)
Theorem oad_refines {K V} `{EqDecision K} (hash1 hash2 : K -> Z) (mapped_default : V) w (t : oad K V) kvs :
  1 <= w <= 64 -> table_ok hash1 hash2 w t -> zlen (oa_vals t) + zlen kvs < 2 ^ w - 1 ->
  let l := foldl (fun l kv => assoc_put l kv.1 kv.2) (oa_vals t) kvs in
  (forall fuel t', put_all hash1 hash2 mapped_default w fuel t kvs = Ok t' ->
     table_ok hash1 hash2 w t' /\ oa_vals t' = l /\ forall key, looks_up hash1 hash2 t' l key) /\
  (forall n, settles_all hash1 hash2 mapped_default w n t kvs -> exists t', put_all hash1 hash2 mapped_default w (n + 2) t kvs = Ok t').
Proof.
  intros Hw Ht Hlen l. split; [|intros n; by apply put_all_ok]. intros fuel t' Hput.
  destruct (put_all_returns hash1 hash2 mapped_default w Hw fuel kvs t t' Ht Hlen Hput) as [Ht' Hv]. fold l in Hv.
  do 2 (split; [done|]). intros key. rewrite <- Hv. by eapply table_looks_up.
Qed.

(** Three keys, one of them twice, in a new table. *)
Lemma oad_refines_witness : exists t, put_all (fun k => k) (fun k => u64 (Z.lnot k)) 0 32 2 oad_default [(5, 50); (21, 210); (5, 51)] = Ok t /\
  oa_vals t = [(5, 51); (21, 210)] /\ oad_at (fun k => k) (fun k => u64 (Z.lnot k)) t 5 = Ok 51.
Proof.
  destruct (oad_refines (fun k : Z => k) (fun k => u64 (Z.lnot k)) 0 32 oad_default [(5, 50); (21, 210); (5, 51)]) as [Hret Hex].
  - lia.
  - apply oad_new_ok. lia.
  - cbn. lia.
  - destruct (Hex 0%nat) as (t & Hput).
    + cbn [settles_all fst snd]. split; [left; eexists; split; [vm_compute; reflexivity|right; vm_compute; reflexivity]|]. intros t1 E1. vm_compute in E1. injection E1 as <-.
      split; [left; eexists; split; [vm_compute; reflexivity|right; vm_compute; reflexivity]|]. intros t2 E2. vm_compute in E2. injection E2 as <-.
      split; [left; eexists; split; [vm_compute; reflexivity|right; vm_compute; reflexivity]|]. done.
    + exists t. split; [exact Hput|]. destruct (Hret _ t Hput) as (_ & Hv & Hat). split; [exact Hv|]. exact (proj1 (proj2 (Hat 5))).
Defined.

(** C32: adding ends if the hashes differ.  When the primary hashes of the keys differ in more than the lowest
    bit and one of the sizes that growing tries is larger than all of them and not too full,
    putting a key returns, whatever the secondary hashes are. *)
Theorem oad_put_terminates {K V} `{EqDecision K} (hash1 hash2 : K -> Z) (mapped_default : V) w k (t : oad K V) key v c c' fuel :
  1 <= w <= 64 -> table_ok hash1 hash2 w t -> zlen (oa_vals t) + 1 < 2 ^ w - 1 ->
  hashes_apart hash1 key t -> (forall x, x ∈ oa_vals t -> hashes_apart hash1 x.1 t) ->
  grow t (zlen (oa_d t)) = Ok c -> sizes k t c = Ok c' ->
  oad_even (hash1 key) < Z.lor c' 1 -> (forall x, x ∈ oa_vals t -> oad_even (hash1 x.1) < Z.lor c' 1) ->
  SFltb (oa_maxLoad t) (load (zlen (oa_vals t) + 1) (Z.lor c' 1)) = false -> (k + 2 < fuel)%nat ->
  exists t', emplace hash1 hash2 mapped_default w fuel t key v = Ok t' /\ table_ok hash1 hash2 w t' /\ oa_vals t' = assoc_put (oa_vals t) key v.
Proof.
  intros Hw Ht Hlen Hk Hks Hg Hs H1 H2 Hov Hf. apply (emplace_ok hash1 hash2 mapped_default w Hw (S k)); [done|done| |lia].
  by apply (distinct_settles hash1 hash2 w k t key c c').
Qed.

(** Eight keys in 16 slots: positions and steps are even, so the table is full and the next key makes it
    grow to 33. *)
Definition ex_table : oad Z Z := Eval vm_compute in
  match put_all (fun k => k) (fun k => u64 (Z.lnot k)) 0 32 2 oad_default (map (fun k => (k, k * k)) [2; 4; 6; 8; 10; 12; 14; 16]) with
  | Ok t => t | Err _ => oad_default end.

Lemma ex_table_ok : table_ok (fun k => k) (fun k => u64 (Z.lnot k)) 32 ex_table.
Proof.
  split; [|vm_compute; reflexivity]. split.
  - apply (bool_decide_unpack _). vm_compute. exact I.
  - done.
  - vm_compute. by split.
  - apply (bool_decide_unpack _). vm_compute. exact I.
  - intros i kv Hi Hkv. do 8 (destruct i as [|i]; [injection Hkv as <-; eexists; split; vm_compute; reflexivity|]). cbn in Hi. lia.
Qed.

Lemma hashes_apart_dec (hash1 : Z -> Z) key (t : oad Z Z) :
  forallb (fun v => negb (oad_even (hash1 v.1) =? oad_even (hash1 key)) || (v.1 =? key)) (oa_vals t) = true -> hashes_apart hash1 key t.
Proof.
  intros Hf v Hv E. rewrite forallb_forall in Hf. specialize (Hf v (proj1 (list_elem_of_In _ _) Hv)). rewrite E, Z.eqb_refl in Hf. cbn in Hf. lia.
Qed.

Lemma oad_put_terminates_witness : exists t', emplace (fun k => k) (fun k => u64 (Z.lnot k)) 0 32 3 ex_table 18 7 = Ok t' /\
  oa_vals t' = oa_vals ex_table ++ [(18, 7)].
Proof.
  destruct (oad_put_terminates (fun k : Z => k) (fun k => u64 (Z.lnot k)) 0 32 0 ex_table 18 7 32 32 3) as (t' & Hput & _ & Hv).
  - lia.
  - exact ex_table_ok.
  - vm_compute. reflexivity.
  - apply (hashes_apart_dec (fun k : Z => k)). vm_compute. reflexivity.
  - intros x Hx. apply (hashes_apart_dec (fun k : Z => k)). revert x Hx. apply (proj1 (Forall_forall _ _)). apply (bool_decide_unpack _). vm_compute. exact I.
  - vm_compute. reflexivity.
  - reflexivity.
  - vm_compute. reflexivity.
  - apply (proj1 (Forall_forall _ _)). apply (bool_decide_unpack _). vm_compute. exact I.
  - vm_compute. reflexivity.
  - lia.
  - exists t'. split; [exact Hput|exact Hv].
Defined.

(** C33: adding does not end if too many keys share both hashes.  When as many keys of the table as are tried at most
    have the hashes of a new key, but for their lowest bits, no size of the table has a slot for it: however
    often it grows, adding the key does not return. *)
Theorem oad_crowded_diverges {K V} `{EqDecision K} (hash1 hash2 : K -> Z) (mapped_default : V) w (t : oad K V) key ks :
  table_ok hash1 hash2 w t -> crowded hash1 hash2 t key ks ->
  bucket hash1 hash2 t key = None /\ forall fuel r, oad_index hash1 hash2 mapped_default w fuel t key <> Ok r.
Proof.
  intros Ht Hc. split; [by eapply crowded_no_bucket|]. intros fuel r. by eapply crowded_diverges.
Qed.

(** With one try, 2 and 3 cannot both be in a table. *)
Definition ex_crowded : oad Z Z := mkOad [(2, 4)] (<[2%nat := 1]> (replicate 16 0)) (oa_maxLoad (oad_default (K := Z) (V := Z))) (double_of 2) 1.
Lemma oad_crowded_diverges_witness : bucket (fun k => k) (fun k => u64 (Z.lnot k)) ex_crowded 3 = None /\
  forall fuel r, oad_index (fun k => k) (fun k => u64 (Z.lnot k)) 0 32 fuel ex_crowded 3 <> Ok r.
Proof.
  refine (oad_crowded_diverges (fun k : Z => k) (fun k => u64 (Z.lnot k)) 0 32 ex_crowded 3 [2] _ _).
  - split; [|vm_compute; reflexivity]. split.
    + apply (bool_decide_unpack _). vm_compute. exact I.
    + done.
    + vm_compute. by split.
    + apply (bool_decide_unpack _). vm_compute. exact I.
    + intros i kv Hi Hkv. destruct i as [|i]; [|cbn in Hi; lia]. injection Hkv as <-. eexists. split; vm_compute; reflexivity.
  - split; [apply (bool_decide_unpack _); vm_compute; exact I|]. split; [vm_compute; discriminate|].
    split; [apply (bool_decide_unpack _); vm_compute; exact I|]. constructor; [|constructor].
    split; [apply (bool_decide_unpack _); vm_compute; exact I|]. split; vm_compute; reflexivity.
Defined.

(** Rebuilding keeps the content.  Sorting the values, setting the number of tries, and reserving give, if one of the
    sizes tried has a slot for every key, a consistent table with the same values, in the new order. *)
Theorem oad_rebuilds {K V} `{EqDecision K} (hash1 hash2 : K -> Z) w k fuel (t : oad K V) :
  table_ok hash1 hash2 w t -> (k < fuel)%nat ->
  (forall sort, sort (oa_vals t) ≡ₚ oa_vals t -> rebuilds hash1 hash2 w k (with_vals t (sort (oa_vals t))) (zlen (oa_d t)) ->
     exists t', oad_sort hash1 hash2 w sort fuel t = Ok t' /\ table_ok hash1 hash2 w t' /\ oa_vals t' = sort (oa_vals t)) /\
  (forall count, rebuilds hash1 hash2 w k (mkOad (oa_vals t) (oa_d t) (oa_maxLoad t) (oa_rehashMult t) count) (Z.max (zlen (oa_d t)) 16) ->
     exists t', set_maxCollisions hash1 hash2 w fuel t count = Ok t' /\ table_ok hash1 hash2 w t' /\ oa_vals t' = oa_vals t) /\
  (forall count n, double_to_u64 (double_div (double_of count) (oa_maxLoad t)) = Ok n -> rebuilds hash1 hash2 w k t n ->
     exists t', oad_reserve hash1 hash2 w fuel t count = Ok t' /\ table_ok hash1 hash2 w t' /\ oa_vals t' = oa_vals t).
Proof.
  intros Ht Hf. pose proof Ht as [Hpl Hlen]. pose proof (pl_keys _ _ _ _ Hpl) as Hnd. pose proof (pl_room _ _ _ _ Hpl) as Hr. unfold max_u64 in Hr. split; [|split].
  - intros sort Hs Hre. apply (rebuild_ok hash1 hash2 w k fuel (with_vals t (sort (oa_vals t)))); try done.
    + cbn [with_vals oa_vals]. by rewrite Hs.
    + cbn [with_vals oa_vals]. by rewrite Hs.
    + unfold fits. lia.
  - intros count Hre. apply (rebuild_ok hash1 hash2 w k fuel (mkOad (oa_vals t) (oa_d t) (oa_maxLoad t) (oa_rehashMult t) count)); try done. unfold fits. lia.
  - intros count n Hn Hre. unfold oad_reserve. destruct (SFltb _ _); [|by exists t]. rewrite Hn, bind_ok_l.
    apply (rebuild_ok hash1 hash2 w k fuel t n); try done. by eapply double_to_u64_fits.
Qed.

(** Eight keys sorted from the largest to the smallest. *)
Lemma oad_rebuilds_witness : exists t', oad_sort (fun k => k) (fun k => u64 (Z.lnot k)) 32 (@rev (Z * Z)) 1 ex_table = Ok t' /\
  head (oa_vals t') = Some (16, 256) /\ oad_at (fun k => k) (fun k => u64 (Z.lnot k)) t' 6 = Ok 36.
Proof.
  destruct (proj1 (oad_rebuilds (fun k : Z => k) (fun k => u64 (Z.lnot k)) 32 0 1 ex_table ex_table_ok ltac:(lia)) (@rev (Z * Z)))
    as (t' & Hsort & Ht' & Hv).
  - symmetry. apply Permutation_rev.
  - eexists _, _. split; [reflexivity|]. vm_compute. reflexivity.
  - exists t'. split; [exact Hsort|]. split; [rewrite Hv; reflexivity|].
    apply (proj1 (lookup_present _ _ 32 t' 5 6 36 Ht' ltac:(rewrite Hv; reflexivity))).
Defined.
