(* ===== verification/SetFuncs.v ===== *)
(** Searching and comparing sorted sequences:
    [include/sserialize/algorithm/utilsetfuncs.h] and
    [include/sserialize/algorithm/find_key_in_array_functions.h].

    A range of iterators is the list of what it ranges over; the merge loops of
    the header are functions of both lists with the number of steps as fuel, and
    sets are strictly sorted lists. *)

From stdpp Require Import sorting.
From S2P Require Import Prelude UtilMath PackUnpack Storage ByteArray.

(** * Merging loops *)

Fixpoint set_intersection_size_loop (fuel : nat) (a b : list Z) (size : Z) : result Z :=
  match fuel with
  | O => Err OutOfFuel
  | S fuel =>
      match a, b with
      | x :: a', y :: b' =>
          if x <? y then set_intersection_size_loop fuel a' b size
          else if y <? x then set_intersection_size_loop fuel a b' size
          else set_intersection_size_loop fuel a' b' (u64 (size + 1))
      | _, _ => Ok size
      end
  end.
Definition set_intersection_size (a b : list Z) : result Z :=
  set_intersection_size_loop (S (length a + length b)) a b 0.

(** The loops of [subseteq_of] and [subset_of] end with what is left of both ranges. *)
Fixpoint subseteq_of_loop (fuel : nat) (a b : list Z) : result bool :=
  match fuel with
  | O => Err OutOfFuel
  | S fuel =>
      match a, b with
      | x :: a', y :: b' =>
          if x <? y then Ok false
          else if y <? x then subseteq_of_loop fuel a b'
          else subseteq_of_loop fuel a' b'
      | _, _ => Ok (bool_decide (a = []))
      end
  end.
Definition subseteq_of (a b : list Z) : result bool := subseteq_of_loop (S (length a + length b)) a b.

Fixpoint subset_of_loop (fuel : nat) (a b : list Z) (set2lg : bool) : result bool :=
  match fuel with
  | O => Err OutOfFuel
  | S fuel =>
      match a, b with
      | x :: a', y :: b' =>
          if x <? y then Ok false
          else if y <? x then subset_of_loop fuel a b' true
          else subset_of_loop fuel a' b' set2lg
      | _, _ => Ok (bool_decide (a = []) && (set2lg || bool_decide (b <> [])))
      end
  end.
Definition subset_of (a b : list Z) : result bool := subset_of_loop (S (length a + length b)) a b false.

(** * Searching *)

Definition compareWrapper (a b : Z) : Z := if a =? b then 0 else if a <? b then -1 else 1.

(** [container.at(mid)] throws beyond the end. *)
Definition at_ (c : list Z) (i : Z) : result Z :=
  match c !! Z.to_nat i with
  | Some x => if i <? 0 then Err StdOutOfRange else Ok x
  | None => Err StdOutOfRange
  end.

Fixpoint binarySearch_loop (fuel : nat) (c : list Z) (key left right mid : Z) : result Z :=
  match fuel with
  | O => Err OutOfFuel
  | S fuel =>
      if left <? right then
        x ← at_ c (u64 mid);
        let cmp := compareWrapper x key in
        if cmp =? 0 then Ok mid
        else
          let left' := if cmp <? 1 then mid + 1 else left in
          let right' := if cmp <? 1 then right else mid - 1 in
          binarySearch_loop fuel c key left' right' (Z.quot (right' - left') 2 + left')
      else x ← at_ c (u64 mid); mret (if x =? key then mid else max_u64)
  end.
Definition binarySearchKeyInArray (c : list Z) (key : Z) : result Z :=
  let len := zlen c in
  if len =? 0 then Ok max_u64
  else
    let right := s64 (len - 1) in
    binarySearch_loop 66 c key 0 right (Z.quot right 2).

Section linear.
Context {S : Type} `{Backend S}.

(** [for(i = 0; i < len; i++) if (get(i) == key) return i;], the position [None] when
    there is none. *)
Fixpoint findKey_loop (n : nat) (get : Z -> result Z) (i key : Z) : result (option Z) :=
  match n with
  | O => Ok None
  | Datatypes.S n =>
      x ← get i; if x =? key then Ok (Some i) else findKey_loop n get (i + 1) key
  end.

(** The first two compute the offset with a signed [int], the others in [uint32_t]. *)
Definition findKeyInArray (stride : Z) (s : S) (a : uba) (len key : Z) : result Z :=
  r ← findKey_loop (Z.to_nat len) (fun i => uba_at s a (u64 (s32 (stride * i)))) 0 key;
  mret (swrap 16 (default (-1) r)).
Definition findKeyInArray_uint16 (stride : Z) (s : S) (a : uba) (len key : Z) : result Z :=
  r ← findKey_loop (Z.to_nat len) (fun i => uba_get Uint16 s a (u64 (s32 (stride * i)))) 0 key;
  mret (swrap 16 (default (-1) r)).
Definition findKeyInArray_uint24 (stride : Z) (s : S) (a : uba) (len key : Z) : result Z :=
  r ← findKey_loop (Z.to_nat len) (fun i => uba_get Uint24 s a (u32 (stride * i))) 0 key;
  mret (swrap 32 (default (-1) r)).
Definition findKeyInArray_uint32 (stride : Z) (s : S) (a : uba) (len key : Z) : result Z :=
  r ← findKey_loop (Z.to_nat len) (fun i => uba_get Uint32 s a (u32 (stride * i))) 0 key;
  mret (swrap 32 (default (-1) r)).
End linear.

(** * Sorted lists as sets *)

Abbreviation sorted l := (StronglySorted Z.lt l).

Lemma sorted_cons x l : sorted (x :: l) -> sorted l /\ forall z, z ∈ l -> x < z.
Proof. intros [Hs Hf]%StronglySorted_inv. split; [done|]. intros z Hz. rewrite Forall_forall in Hf. by apply Hf. Qed.

(** Filtering by membership only looks at the elements of the list. *)
Lemma filter_mem_ext (l b b' : list Z) : (forall z, z ∈ l -> z ∈ b <-> z ∈ b') ->
  filter (fun z => z ∈ b) l = filter (fun z => z ∈ b') l.
Proof.
  induction l as [|x l IH]; intros Hz; [done|]. rewrite !filter_cons.
  rewrite IH by (intros z Hin; apply Hz; by right). specialize (Hz x ltac:(left)). repeat case_decide; tauto.
Qed.

Lemma filter_mem_nil (l : list Z) : filter (fun z => z ∈ []) l = [].
Proof. apply elem_of_nil_inv. intros z [Hz _]%list_elem_of_filter. by apply elem_of_nil in Hz. Qed.

Lemma set_intersection_size_ok fuel a b size : sorted a -> sorted b -> (length a + length b < fuel)%nat ->
  0 <= size -> size + zlen a < 2 ^ 64 ->
  set_intersection_size_loop fuel a b size = Ok (size + zlen (filter (fun z => z ∈ b) a)).
Proof.
  revert a b size. induction fuel as [|fuel IH]; intros a b size Ha Hb Hf Hs Hfit; [lia|].
  cbn [set_intersection_size_loop].
  destruct a as [|x a']; [cbn; f_equal; lia|].
  destruct b as [|y b']; [rewrite filter_mem_nil; cbn; f_equal; lia|].
  destruct (sorted_cons x a' Ha) as [Ha' Hxa]. destruct (sorted_cons y b' Hb) as [Hb' Hyb]. cbn [length] in Hf, Hfit.
  destruct (Z.ltb_spec x y); [|destruct (Z.ltb_spec y x)].
  - rewrite IH by (done || cbn [length]; lia). rewrite (filter_cons_False _ x); [done|].
    intros [->|Hin]%elem_of_cons; [lia|]. specialize (Hyb _ Hin). lia.
  - rewrite IH by (done || cbn [length]; lia). do 4 f_equal. apply filter_mem_ext.
    intros z Hz. rewrite elem_of_cons. split; [by right|]. intros [->|?]; [|done]. exfalso.
    apply elem_of_cons in Hz as [->|Hz]; [lia|]. specialize (Hxa _ Hz). lia.
  - assert (x = y) as -> by lia. rewrite (wrap_small 64) by (unfold fits; lia).
    rewrite IH by (done || lia). rewrite filter_cons_True by (by left).
    rewrite (filter_mem_ext a' (y :: b') b'); [cbn [length]; f_equal; lia|].
    intros z Hz. rewrite elem_of_cons. split; [|by right]. intros [->|?]; [|done]. specialize (Hxa _ Hz). lia.
Qed.

(** What the comparing loops keep: nothing of the first range is below the second. *)
Lemma subseteq_step (x y : Z) a b : sorted (x :: a) -> sorted (y :: b) ->
  (x < y -> ~ x :: a ⊆ y :: b) /\
  (y < x -> x :: a ⊆ y :: b <-> x :: a ⊆ b) /\
  (x = y -> x :: a ⊆ y :: b <-> a ⊆ b).
Proof.
  intros Ha Hb. destruct (sorted_cons x a Ha) as [Ha' Hxa]. destruct (sorted_cons y b Hb) as [Hb' Hyb].
  split; [|split].
  - intros Hlt Hs. specialize (Hs x ltac:(left)). apply elem_of_cons in Hs as [->|Hs]; [lia|].
    specialize (Hyb _ Hs). lia.
  - intros Hlt. split; intros Hs z Hz; [|right; by apply Hs].
    specialize (Hs z Hz). apply elem_of_cons in Hs as [->|Hs]; [|done].
    apply elem_of_cons in Hz as [->|Hz]; [lia|]. specialize (Hxa _ Hz). lia.
  - intros ->. split; intros Hs z Hz.
    + specialize (Hs z ltac:(by right)). apply elem_of_cons in Hs as [->|Hs]; [|done]. specialize (Hxa _ Hz). lia.
    + apply elem_of_cons in Hz as [->|Hz]; [by left|right; by apply Hs].
Qed.

Lemma nil_subseteq (b : list Z) : [] ⊆ b.
Proof. intros z Hz. by apply elem_of_nil in Hz. Qed.

Lemma subseteq_nil x (a : list Z) : ~ x :: a ⊆ [].
Proof. intros Hs. specialize (Hs x ltac:(left)). by apply elem_of_nil in Hs. Qed.

Lemma subseteq_of_ok fuel a b : sorted a -> sorted b -> (length a + length b < fuel)%nat ->
  exists r, subseteq_of_loop fuel a b = Ok r /\ (r = true <-> a ⊆ b).
Proof.
  revert a b. induction fuel as [|fuel IH]; intros a b Ha Hb Hf; [lia|]. cbn [subseteq_of_loop].
  destruct a as [|x a']; [exists true; split; [done|]; split; [intros; apply nil_subseteq|done]|].
  destruct b as [|y b']; [exists false; split; [done|]; split; [done|intros []%subseteq_nil]|].
  destruct (subseteq_step x y a' b' Ha Hb) as (H1 & H2 & H3). cbn [length] in Hf.
  destruct (sorted_cons x a' Ha) as [Ha' _]. destruct (sorted_cons y b' Hb) as [Hb' _].
  destruct (Z.ltb_spec x y); [|destruct (Z.ltb_spec y x)].
  - exists false. split; [done|]. split; [done|]. intros []%H1. done.
  - destruct (IH (x :: a') b') as (r & -> & Hr); [done|done|cbn [length]; lia|]. exists r. by rewrite H2.
  - destruct (IH a' b') as (r & -> & Hr); [done|done|lia|]. exists r. rewrite H3 by lia. done.
Qed.

Lemma subset_of_ok fuel a b lg : sorted a -> sorted b -> (length a + length b < fuel)%nat ->
  exists r, subset_of_loop fuel a b lg = Ok r /\ (r = true <-> a ⊆ b /\ (lg = true \/ ~ b ⊆ a)).
Proof.
  revert a b lg. induction fuel as [|fuel IH]; intros a b lg Ha Hb Hf; [lia|]. cbn [subset_of_loop].
  destruct a as [|x a'].
  { eexists. split; [done|]. rewrite bool_decide_true by done. cbn [andb]. rewrite orb_true_iff, bool_decide_eq_true.
    split; [|intros [_ Hc]]; [intros Hc; split; [apply nil_subseteq|]|].
    - destruct Hc as [->|Hne]; [by left|right]. destruct b; [done|]. apply subseteq_nil.
    - destruct Hc as [->|Hne]; [by left|right]. intros ->. apply Hne, nil_subseteq. }
  destruct b as [|y b'].
  { eexists. split; [done|]. rewrite bool_decide_false by done. split; [done|]. intros [[]%subseteq_nil _]. }
  destruct (subseteq_step x y a' b' Ha Hb) as (H1 & H2 & H3). cbn [length] in Hf.
  destruct (subseteq_step y x b' a' Hb Ha) as (G1 & G2 & G3).
  destruct (sorted_cons x a' Ha) as [Ha' _]. destruct (sorted_cons y b' Hb) as [Hb' _].
  destruct (Z.ltb_spec x y); [|destruct (Z.ltb_spec y x)].
  - exists false. split; [done|]. split; [done|]. intros [[]%H1 _]. done.
  - destruct (IH (x :: a') b' true) as (r & -> & Hr); [done|done|cbn [length]; lia|]. exists r. rewrite H2 by done.
    split; [done|]. rewrite Hr. split; [intros [? _]; split; [done|right; by apply G1]|intros [? _]; split; [done|by left]].
  - destruct (IH a' b' lg) as (r & -> & Hr); [done|done|lia|]. exists r. rewrite H3, G3 by lia. done.
Qed.

(** On strictly sorted ranges the merging loops end and compute the size of the
    intersection, the inclusion and the proper inclusion of the two sets. *)
Theorem sorted_sets_correct a b : sorted a -> sorted b -> zlen a < 2 ^ 64 ->
  set_intersection_size a b = Ok (zlen (filter (fun z => z ∈ b) a)) /\
  (exists r, subseteq_of a b = Ok r /\ (r = true <-> a ⊆ b)) /\
  (exists r, subset_of a b = Ok r /\ (r = true <-> a ⊆ b /\ ~ b ⊆ a)).
Proof.
  intros Ha Hb Hs. split; [by apply set_intersection_size_ok; try lia|]. split; [by apply subseteq_of_ok; try lia|].
  destruct (subset_of_ok (S (length a + length b)) a b false Ha Hb) as (r & Hr & Hiff); [lia|].
  exists r. split; [done|]. rewrite Hiff. naive_solver.
Qed.

Lemma sorted_sets_correct_witness : set_intersection_size [1; 3; 7] [3; 4; 7; 9] = Ok 2.
Proof.
  refine (proj1 (sorted_sets_correct [1; 3; 7] [3; 4; 7; 9] _ _ _)).
  - repeat constructor.
  - repeat constructor.
  - cbn. lia.
Defined.

(** * Binary search *)

Lemma sf_at_ok c i : 0 <= i < zlen c -> zlen c < 2 ^ 63 -> exists x, at_ c (u64 i) = Ok x /\ c !! Z.to_nat i = Some x.
Proof.
  intros Hi Hc. rewrite wrap_small by (unfold fits; lia). unfold at_.
  destruct (lookup_lt_is_Some_2 c (Z.to_nat i)) as [x Hx]; [lia|]. rewrite Hx.
  rewrite (proj2 (Z.ltb_ge i 0)) by lia. by exists x.
Qed.

(** The mid of a range that is empty or not. *)
Lemma mid_bounds left right : left <= right + 1 ->
  let mid := Z.quot (right - left) 2 + left in
  left <= mid /\ (left < right -> mid < right) /\ (mid <= right \/ mid = left).
Proof.
  intros Hl mid. subst mid. destruct (decide (right = left - 1)) as [->|].
  - replace (left - 1 - left) with (-1) by lia. change (Z.quot (-1) 2) with 0. lia.
  - rewrite Z.quot_div_nonneg by lia. pose proof (Z.div_mod (right - left) 2 ltac:(lia)).
    pose proof (Z.mod_pos_bound (right - left) 2 ltac:(lia)). lia.
Qed.

Lemma sorted_lookup c i j x y : StronglySorted Z.le c ->
  c !! i = Some x -> c !! j = Some y -> (i <= j)%nat -> x <= y.
Proof.
  intros Hs. revert i j. induction Hs as [|z c Hs IH Hf]; intros i j Hi Hj Hle; [done|].
  rewrite Forall_forall in Hf. destruct i as [|i], j as [|j]; cbn in Hi, Hj; [simplify_eq; lia| |lia|].
  - simplify_eq. apply Hf. by apply list_elem_of_lookup_2 in Hj.
  - apply (IH i j); [done|done|lia].
Qed.

Lemma binarySearch_loop_ok fuel c key left right :
  StronglySorted Z.le c -> zlen c < 2 ^ 63 ->
  0 <= left <= right + 1 -> right < zlen c ->
  0 <= Z.quot (right - left) 2 + left < zlen c ->
  (forall i, c !! i = Some key -> left <= Z.of_nat i <= right) ->
  (0 < fuel)%nat -> right - left < 2 ^ (Z.of_nat fuel - 1) ->
  exists r, binarySearch_loop fuel c key left right (Z.quot (right - left) 2 + left) = Ok r /\
    (0 <= r < zlen c /\ c !! Z.to_nat r = Some key \/ r = max_u64 /\ key ∉ c).
Proof.
  intros Hs Hc. revert left right. induction fuel as [|fuel IH]; intros left right Hl Hr Hm Hin Hf0 Hf; [lia|].
  cbn [binarySearch_loop]. set (mid := Z.quot (right - left) 2 + left) in *.
  destruct (mid_bounds left right) as (Hm1 & Hm2 & Hm3); [lia|]. fold mid in Hm1, Hm2, Hm3.
  destruct (sf_at_ok c mid Hm Hc) as (x & -> & Hx). rewrite !bind_ok_l.
  destruct (Z.ltb_spec left right).
  - unfold compareWrapper. destruct (Z.eqb_spec x key) as [->|Hne]; [exists mid; split; [done|by left]|].
    assert (fuel <> 0%nat) by (intros ->; cbn in Hf; lia).
    assert (2 ^ (Z.of_nat (S fuel) - 1) = 2 * 2 ^ (Z.of_nat fuel - 1)) as Hpow.
    { rewrite <- Z.pow_succ_r by lia. f_equal. lia. }
    assert (2 * (mid - left) <= right - left /\ 2 * (right - (mid + 1)) <= right - left) as [Hh1 Hh2].
    { unfold mid. rewrite Z.quot_div_nonneg by lia. pose proof (Z.div_mod (right - left) 2 ltac:(lia)).
      pose proof (Z.mod_pos_bound (right - left) 2 ltac:(lia)). lia. }
    destruct (Z.ltb_spec x key) as [Hlt|Hge];
      [change (-1 =? 0) with false; change (-1 <? 1) with true
      |change (1 =? 0) with false; change (1 <? 1) with false]; cbn iota.
    + destruct (mid_bounds (mid + 1) right) as (G1 & G2 & G3); [lia|]. apply IH; try lia.
      intros i Hi. specialize (Hin i Hi). split; [|lia]. destruct (Z.leb_spec (mid + 1) (Z.of_nat i)); [done|].
      pose proof (sorted_lookup c i (Z.to_nat mid) key x Hs Hi Hx). lia.
    + destruct (mid_bounds left (mid - 1)) as (G1 & G2 & G3); [lia|]. apply IH; try lia.
      intros i Hi. specialize (Hin i Hi). split; [lia|]. destruct (Z.leb_spec (Z.of_nat i) (mid - 1)); [done|].
      pose proof (sorted_lookup c (Z.to_nat mid) i x key Hs Hx Hi). lia.
  - unfold mret, result_ret. destruct (Z.eqb_spec x key) as [->|Hne]; [exists mid; split; [done|by left]|].
    exists max_u64. split; [done|]. right. split; [done|]. intros [i Hi]%list_elem_of_lookup.
    specialize (Hin i Hi). assert (right = left) as -> by lia.
    assert (mid = left) as Hml by (unfold mid; rewrite Z.sub_diag; done).
    rewrite Hml in Hx. replace (Z.to_nat left) with i in Hx by lia. congruence.
Qed.

(** Binary search in a sorted container of less than 2^63 elements ends and gives a
    position of the key, or the greatest 64-bit number when the key is not there. *)
Theorem binarySearch_correct c key : StronglySorted Z.le c -> zlen c < 2 ^ 63 ->
  exists r, binarySearchKeyInArray c key = Ok r /\
    (0 <= r < zlen c /\ c !! Z.to_nat r = Some key \/ r = max_u64 /\ key ∉ c).
Proof.
  intros Hs Hc. unfold binarySearchKeyInArray. destruct (Z.eqb_spec (zlen c) 0) as [E|E].
  { exists max_u64. split; [done|]. right. split; [done|]. destruct c; [|cbn in E; lia].
    intros Hin. by apply elem_of_nil in Hin. }
  rewrite swrap_small by (unfold sfits; lia).
  destruct (mid_bounds 0 (zlen c - 1)) as (H1 & H2 & H3); [lia|].
  destruct (binarySearch_loop_ok 66 c key 0 (zlen c - 1) Hs Hc) as (r & Hr & Hspec); try lia.
  - intros i Hi. apply lookup_lt_Some in Hi. lia.
  - exists r. rewrite Z.sub_0_r, Z.add_0_r in Hr. done.
Qed.

Lemma binarySearch_correct_witness :
  exists r, binarySearchKeyInArray [2; 3; 5; 8] 5 = Ok r.
Proof.
  destruct (binarySearch_correct [2; 3; 5; 8] 5) as (r & H & _).
  - repeat first [lia | constructor].
  - cbn. lia.
  - exists r. exact H.
Defined.

(** * Linear search *)

(** The first position below [n] where [f] has the value [key]. *)
Fixpoint first_index (n : nat) (f : Z -> Z) (i key : Z) : option Z :=
  match n with
  | O => None
  | S n => if f i =? key then Some i else first_index n f (i + 1) key
  end.

Lemma first_index_spec n f i key :
  match first_index n f i key with
  | Some j => i <= j < i + Z.of_nat n /\ f j = key /\ forall k, i <= k < j -> f k <> key
  | None => forall k, i <= k < i + Z.of_nat n -> f k <> key
  end.
Proof.
  revert i. induction n as [|n IH]; intros i; cbn [first_index]; [lia|].
  destruct (Z.eqb_spec (f i) key) as [E|E]; [split; [lia|split; [done|lia]]|].
  specialize (IH (i + 1)). destruct (first_index n f (i + 1) key) as [j|].
  - destruct IH as (H1 & H2 & H3). split; [lia|]. split; [done|]. intros k Hk.
    destruct (decide (k = i)) as [->|]; [done|apply H3; lia].
  - intros k Hk. destruct (decide (k = i)) as [->|]; [done|apply IH; lia].
Qed.

Lemma findKey_loop_ok n get f i key : (forall k, i <= k < i + Z.of_nat n -> get k = Ok (f k)) ->
  findKey_loop n get i key = Ok (first_index n f i key).
Proof.
  revert i. induction n as [|n IH]; intros i Hg; cbn [findKey_loop first_index]; [done|].
  rewrite Hg, bind_ok_l by lia. case_match; [done|]. apply IH. intros. apply Hg. lia.
Qed.

(** The number of [w] bytes at the [i]-th stride. *)
Definition key_at (w : nat) (l : list Z) (stride i : Z) : Z :=
  le_val (take w (drop (Z.to_nat (stride * i)) l)).

Section keys.
Context {S : Type} {B : Backend S} {BO : BackendOk S}.
Context (s : S) (a : uba) (l : list Z) (Hb : buf s a l).

Lemma key_get ty w stride i : scalar_len ty = Z.of_nat w -> (0 < w)%nat ->
  (forall bs, length bs = w -> scalar_unpack ty bs = Ok (le_val bs)) ->
  0 <= i -> 0 <= stride -> stride * i + Z.of_nat w <= zlen l ->
  uba_get ty s a (stride * i) = Ok (key_at w l stride i).
Proof using Hb BO.
  intros Hw H0 Hu Hi Hst Hin. pose proof (buf_fits _ _ _ Hb).
  rewrite (buf_get _ _ _ _ _ Hb) by (rewrite ?Hw; nia). rewrite Hw, (proj2 (Z.ltb_ge _ _)) by lia.
  destruct (vread l (stride * i) (Z.of_nat w)) as [bs|] eqn:E.
  2: { unfold vread in E. by rewrite (proj2 (in_range_spec l (stride * i) (Z.of_nat w))) in E by nia. }
  rewrite bind_ok_l. apply vread_ok in E as (? & ? & ? & ->). rewrite Nat2Z.id. apply Hu.
  rewrite length_take, length_drop. lia.
Qed.

Lemma up_le_exactly n (bs : list Z) : zlen bs = n -> up_le n bs = Ok (le_val bs).
Proof using. intros. rewrite <- (app_nil_r bs) at 1. by apply up_le_app. Qed.
End keys.

(** Linear search over the keys of [w] bytes stored every [stride] bytes of a
    window. While the last key lies inside the window and the offsets fit a signed
    [int], the result is the first position of the key, or -1. The positions are
    returned in 16 bits for 8- and 16-bit keys and in 32 bits for the others: the first
    position 2^15 or above of a 16-bit key comes out negative. *)
Theorem findKey_correct {S : Type} {B : Backend S} {BO : BackendOk S} (s : S) a l stride len key :
  buf s a l -> 0 < stride -> 0 <= len -> stride * len < 2 ^ 31 ->
  let pos w := default (-1) (first_index (Z.to_nat len) (key_at w l stride) 0 key) in
  (forall i, 0 <= i < len -> stride * i + 1 <= zlen l) ->
  findKeyInArray stride s a len key = Ok (swrap 16 (pos 1%nat)) /\
  ((forall i, 0 <= i < len -> stride * i + 2 <= zlen l) ->
    findKeyInArray_uint16 stride s a len key = Ok (swrap 16 (pos 2%nat))) /\
  ((forall i, 0 <= i < len -> stride * i + 3 <= zlen l) ->
    findKeyInArray_uint24 stride s a len key = Ok (pos 3%nat)) /\
  ((forall i, 0 <= i < len -> stride * i + 4 <= zlen l) ->
    findKeyInArray_uint32 stride s a len key = Ok (pos 4%nat)).
Proof.
  intros Hb Hst Hlen Hfit pos H1.
  assert (forall i, 0 <= i < len -> u64 (s32 (stride * i)) = stride * i /\ u32 (stride * i) = stride * i) as Hoff.
  { intros i Hi. rewrite swrap_small by (unfold sfits; nia). rewrite !wrap_small by (unfold fits; nia). done. }
  assert (forall w (get : Z -> result Z), (forall i, 0 <= i < len -> get i = Ok (key_at w l stride i)) ->
    findKey_loop (Z.to_nat len) get 0 key = Ok (first_index (Z.to_nat len) (key_at w l stride) 0 key)) as Hloop.
  { intros w get Hg. apply findKey_loop_ok. intros k Hk. apply Hg. lia. }
  assert (forall w, sfits 32 (pos w)) as Hpos.
  { intros w. subst pos. pose proof (first_index_spec (Z.to_nat len) (key_at w l stride) 0 key) as Hs.
    unfold sfits. cbn beta. destruct (first_index _ _ _ _) as [j|]; cbn; [nia|lia]. }
  assert (forall w, swrap 32 (pos w) = pos w) as Hsw by (intros w; apply swrap_small; [lia|apply Hpos]).
  split; [|split; [|split]].
  - unfold findKeyInArray. rewrite (Hloop 1%nat); [done|]. intros i Hi. rewrite (proj1 (Hoff i Hi)).
    pose proof (H1 i Hi). pose proof (buf_fits _ _ _ Hb). rewrite (buf_at _ _ _ _ Hb) by nia.
    rewrite (proj2 (Z.ltb_ge _ _)) by lia. destruct (vget_lt l (stride * i)) as (x & -> & Hx); [nia|].
    unfold key_at. f_equal. apply drop_S in Hx. rewrite Hx. cbn. by rewrite Z.shiftl_0_l, Z.lor_0_r.
  - intros H2. unfold findKeyInArray_uint16. rewrite (Hloop 2%nat); [done|]. intros i Hi. rewrite (proj1 (Hoff i Hi)).
    apply (key_get s a l Hb Uint16 2); try done; try lia; [|by apply H2]. intros. by apply up_le_exactly; lia.
  - intros H2. unfold findKeyInArray_uint24. rewrite (Hloop 3%nat); [exact (f_equal Ok (Hsw 3%nat))|].
    intros i Hi. rewrite (proj2 (Hoff i Hi)).
    apply (key_get s a l Hb Uint24 3); try done; try lia; [|by apply H2]. intros. by apply up_le_exactly; lia.
  - intros H2. unfold findKeyInArray_uint32. rewrite (Hloop 4%nat); [exact (f_equal Ok (Hsw 4%nat))|].
    intros i Hi. rewrite (proj2 (Hoff i Hi)).
    apply (key_get s a l Hb Uint32 4); try done; try lia; [|by apply H2]. intros. by apply up_le_exactly; lia.
Qed.

Lemma findKey_correct_witness :
  findKeyInArray 2 (Vec.mk [5; 0; 7; 0; 9; 0]) (mkUba 0 6 0 0) 3 9 = Ok 2.
Proof.
  refine (proj1 (findKey_correct (Vec.mk [5; 0; 7; 0; 9; 0]) (mkUba 0 6 0 0) [5; 0; 7; 0; 9; 0] 2 3 9 _ _ _ _ _)).
  - split; [uba_wf_tac|reflexivity].
  - lia.
  - lia.
  - lia.
  - cbn. lia.
Defined.
