(* ===== verification/IndexOps.v ===== *)
(** What the private item indexes share:
    [include/sserialize/containers/ItemIndexPrivates/ItemIndexPrivate.h] and
    [src/containers/ItemIndexPrivates/ItemIndexPrivate.cpp].

    The operation structs, the generic set operation over position iterators, the
    default implementations on top of [at] (search, [putInto]) and the conversion from
    bit sets that several index types repeat.  [merge] on sorted lists is the abstract
    set operation every implementation is compared with. *)

From stdpp Require Import sorting.
From S2P Require Import Prelude UtilMath PackUnpack Storage ByteArray ByteStream Bits CompactUintArray BitSets SetFuncs.

Definition narrow_u32 (x : Z) : result Z := narrow_check (Unsigned 32) (Unsigned 64) x.

(** [putData(adapter)] at the put position, the source on another storage. *)
Definition sputData_foreign {S T : Type} `{Backend S} `{Backend T} (s : S) (a : uba) (t : T) (src : uba)
    : result (S * uba) :=
  let needSize := m_len src in
  let '(s, a, ok) := resizeForPush s a (m_putPtr a) needSize in
  if negb ok then Err IOException
  else
    s ← putData_foreign (Datatypes.S (Z.to_nat needSize)) s a (m_putPtr a) t src;
    mret (s, advPut a needSize).

(** * Operations *)

Record set_op := mkOp {
  pushFirstSmaller : bool; pushEqual : bool; pushSecondSmaller : bool;
  pushFirstRemainder : bool; pushSecondRemainder : bool;
  (** of the sizes of the operands, with the wrap-around of [uint32_t] *)
  maxSize : Z -> Z -> Z
}.
Definition IntersectOp : set_op := mkOp false true false false false Z.min.
Definition UniteOp : set_op := mkOp true true true true true (fun first second => u32 (first + second)).
Definition DifferenceOp : set_op := mkOp true false false true false (fun first _ => first).
Definition SymmetricDifferenceOp : set_op := mkOp true false true true true (fun first second => u32 (first + second)).

(** * Creators *)

(** [push_back] of an index creator; what it writes to is part of the creator. *)
Class IndexCreator (C : Type) := ic_push : C -> Z -> result C.

Definition push_if {C : Type} `{IndexCreator C} (b : bool) (c : C) (id : Z) : result C :=
  if b then ic_push c id else Ok c.

(** The inner loop of [fromBitSet]: [for (i = 0; data; ++i)]. *)
Fixpoint from_byte {C : Type} `{IndexCreator C} (n : nat) (data i curId : Z) (c : C) : result C :=
  match n with
  | O => Ok c
  | Datatypes.S n =>
      if data =? 0 then Ok c
      else
        c ← push_if (negb (data &&& 1 =? 0)) c (u32 (curId + i));
        from_byte n (u8 (data >>> 1)) (u32 (i + 1)) curId c
  end.

(** The outer loop over the bytes [n], at most eight bits each. *)
Fixpoint from_bytes {C : Type} `{IndexCreator C} {S : Type} `{Backend S} (n : nat) (s : S) (bits : uba)
    (dataOffset curId : Z) (c : C) : result C :=
  match n with
  | O => Ok c
  | Datatypes.S n =>
      data ← uba_at s bits dataOffset;
      c ← from_byte 8 data 0 curId c;
      from_bytes n s bits (u32 (dataOffset + 1)) (u32 (curId + 8)) c
  end.

(** * The generic set operation *)

(** A position iterator together with the end it is compared with; reading it may fill
    the cache of the index. *)
Class PosIter (I : Type) := {
  pi_more : I -> bool;
  pi_get : I -> result (I * Z);
  pi_next : I -> result I;
}.

Section executer.
Context {C : Type} `{IndexCreator C} {I : Type} `{PosIter I} {J : Type} `{PosIter J}.

Fixpoint exec_loop (fuel : nat) (op : set_op) (c : C) (f : I) (s : J) : result (C * I * J) :=
  match fuel with
  | O => Err OutOfFuel
  | Datatypes.S fuel =>
      if pi_more f && pi_more s then
        '(f, fId) ← pi_get f;
        '(s, sId) ← pi_get s;
        if fId <? sId then
          c ← push_if (pushFirstSmaller op) c fId;
          f ← pi_next f;
          exec_loop fuel op c f s
        else if sId <? fId then
          c ← push_if (pushSecondSmaller op) c sId;
          s ← pi_next s;
          exec_loop fuel op c f s
        else
          c ← push_if (pushEqual op) c fId;
          f ← pi_next f;
          s ← pi_next s;
          exec_loop fuel op c f s
      else Ok (c, f, s)
  end.
End executer.

Fixpoint exec_rest {C : Type} `{IndexCreator C} {I : Type} `{PosIter I} (fuel : nat) (c : C) (f : I) : result C :=
  match fuel with
  | O => Err OutOfFuel
  | Datatypes.S fuel =>
      if pi_more f then
        '(f, id) ← pi_get f;
        c ← ic_push c id;
        f ← pi_next f;
        exec_rest fuel c f
      else Ok c
  end.

(** [execute] up to the flush; [fuel] bounds the number of ids. *)
Definition exec {C : Type} `{IndexCreator C} {I : Type} `{PosIter I} {J : Type} `{PosIter J}
    (fuel : nat) (op : set_op) (c : C) (f : I) (s : J) : result C :=
  '(c, f, s) ← exec_loop fuel op c f s;
  c ← (if pushFirstRemainder op then exec_rest fuel c f else Ok c);
  if pushSecondRemainder op then exec_rest fuel c s else Ok c.

(** * On top of [at] *)

(** An index with a size and lookups that may change its cache; [uncheckedAt] is [at]
    unless an index has its own. *)
Class AtIndex (D : Type) := {
  ai_size : D -> Z;
  ai_at : D -> Z -> result (D * Z);
  ai_uncheckedAt : D -> Z -> result (D * Z);
}.

Section at_index.
Context {D : Type} `{AtIndex D}.
Implicit Types (d : D).

(** [ItemIndexPrivate::find]: binary search with [at]. *)
Fixpoint find_loop (fuel : nat) d (id left right mid : Z) : result (D * Z) :=
  match fuel with
  | O => Err OutOfFuel
  | Datatypes.S fuel =>
      if left <? right then
        '(d, curId) ← ai_at d (u32 mid);
        if curId =? id then Ok (d, u32 mid)
        else
          let left' := if curId <? id then mid + 1 else left in
          let right' := if curId <? id then right else mid - 1 in
          find_loop fuel d id left' right' (Z.quot (right' - left') 2 + left')
      else
        '(d, curId) ← ai_at d (u32 mid);
        mret (d, if curId =? id then u32 mid else max_u32)
  end.

Definition find d (id : Z) : result (D * Z) :=
  let len := ai_size d in
  if len =? 0 then Ok (d, max_u32)
  else
    let right := u32 (len - 1) in
    find_loop 34 d id 0 right (Z.quot right 2).

(** [doPutInto] to an array and to a bit set. *)
Fixpoint put_ids (n : nat) d (i : Z) : result (D * list Z) :=
  match n with
  | O => Ok (d, [])
  | Datatypes.S n => '(d, x) ← ai_at d i; '(d, r) ← put_ids n d (u32 (i + 1)); mret (d, x :: r)
  end.
Definition doPutInto d : result (D * list Z) := put_ids (Z.to_nat (ai_size d)) d 0.

Fixpoint put_bits {T : Type} `{Backend T} (n : nat) d (i : Z) (t : T) (bits : uba) : result (D * (T * uba)) :=
  match n with
  | O => Ok (d, (t, bits))
  | Datatypes.S n =>
      '(d, x) ← ai_at d i;
      '(t, bits) ← dbs_set t bits x;
      put_bits n d (u32 (i + 1)) t bits
  end.
Definition doPutInto_bits {T : Type} `{Backend T} d (t : T) (bits : uba) : result (D * (T * uba)) :=
  put_bits (Z.to_nat (ai_size d)) d 0 t bits.

(** The position iterator of type [uint32_t]. *)
Record at_iter := mkAtIter { ati_idx : D; ati_pos : Z }.

#[export] Instance at_PosIter : PosIter at_iter := {|
  pi_more it := negb (ati_pos it =? ai_size (ati_idx it));
  pi_get it := '(d, x) ← ai_uncheckedAt (ati_idx it) (ati_pos it); mret (mkAtIter d (ati_pos it), x);
  pi_next it := Ok (mkAtIter (ati_idx it) (u32 (ati_pos it + 1)));
|}.
End at_index.
Arguments at_iter : clear implicits.
Arguments find {D H} d id : simpl never.

(** * The abstract operation on sorted lists *)

Fixpoint merge (op : set_op) (a : list Z) : list Z -> list Z :=
  fix go (b : list Z) : list Z :=
    match a, b with
    | [], _ => if pushSecondRemainder op then b else []
    | _, [] => if pushFirstRemainder op then a else []
    | x :: a', y :: b' =>
        if x =? y then (if pushEqual op then [x] else []) ++ merge op a' b'
        else if x <? y then (if pushFirstSmaller op then [x] else []) ++ merge op a' b
        else (if pushSecondSmaller op then [y] else []) ++ go b'
    end.

Lemma merge_cons op x a y b : merge op (x :: a) (y :: b) =
  if x =? y then (if pushEqual op then [x] else []) ++ merge op a b
  else if x <? y then (if pushFirstSmaller op then [x] else []) ++ merge op a (y :: b)
  else (if pushSecondSmaller op then [y] else []) ++ merge op (x :: a) b.
Proof. done. Qed.

Lemma merge_nil_l op b : merge op [] b = if pushSecondRemainder op then b else [].
Proof. by destruct b. Qed.

Lemma merge_nil_r op x a : merge op (x :: a) [] = if pushFirstRemainder op then x :: a else [].
Proof. done. Qed.

Lemma merge_length op a b : zlen (merge op a b) <= zlen a + zlen b.
Proof.
  revert b. induction a as [|x a IHa]; intros b.
  { rewrite merge_nil_l. case_match; cbn [length]; lia. }
  induction b as [|y b IHb]; [rewrite merge_nil_r; case_match; cbn [length]; lia|].
  rewrite merge_cons. specialize (IHa b) as H1. specialize (IHa (y :: b)) as H2. cbn [length] in *.
  repeat case_match; rewrite ?length_app; cbn [length]; lia.
Qed.

(** What an operation keeps: an id of both, of the first only, of the second only. *)
Definition keeps (op : set_op) (in_a in_b : Prop) : Prop :=
  (in_a /\ in_b /\ pushEqual op = true) \/ (in_a /\ ~ in_b /\ pushFirstSmaller op = true) \/
  (~ in_a /\ in_b /\ pushSecondSmaller op = true).

Definition op_wf (op : set_op) : Prop :=
  pushFirstRemainder op = pushFirstSmaller op /\ pushSecondRemainder op = pushSecondSmaller op.

(** The result of an operation has at most [maxSize] ids. *)
Definition op_sized (op : set_op) : Prop :=
  forall a b, zlen a + zlen b < 2 ^ 32 -> zlen (merge op a b) <= maxSize op (zlen a) (zlen b) <= zlen a + zlen b.

Lemma elem_of_if (b : bool) (x z : Z) : z ∈ (if b then [x] else []) <-> b = true /\ z = x.
Proof. destruct b; rewrite ?list_elem_of_singleton, ?elem_of_nil; naive_solver. Qed.

Lemma merge_spec op a b : op_wf op -> sorted a -> sorted b ->
  sorted (merge op a b) /\ forall z, z ∈ merge op a b <-> keeps op (z ∈ a) (z ∈ b).
Proof.
  intros [Hf Hs]. revert b. induction a as [|x a IHa]; intros b Ha Hb.
  { rewrite merge_nil_l, Hs. unfold keeps. destruct (pushSecondSmaller op);
      (split; [first [done|constructor]|intros z; rewrite ?elem_of_nil; naive_solver]). }
  induction b as [|y b IHb].
  { rewrite merge_nil_r, Hf. unfold keeps. destruct (pushFirstSmaller op);
      (split; [first [done|constructor]|intros z; rewrite ?elem_of_nil; naive_solver]). }
  rewrite merge_cons. destruct (sorted_cons x a Ha) as [Ha' Hxa]. destruct (sorted_cons y b Hb) as [Hb' Hyb].
  assert (forall (k : bool) p l, sorted l -> (forall z, z ∈ l -> p < z) -> sorted ((if k then [p] else []) ++ l)) as Hcons.
  { intros k p l Hl Hp. destruct k; [|done]. cbn. constructor; [done|]. by apply Forall_forall. }
  assert (forall z, z ∈ x :: a -> x <= z) as Hxa' by (intros z [->|Hz]%elem_of_cons; [lia|specialize (Hxa _ Hz); lia]).
  assert (forall z, z ∈ y :: b -> y <= z) as Hyb' by (intros z [->|Hz]%elem_of_cons; [lia|specialize (Hyb _ Hz); lia]).
  destruct (Z.eqb_spec x y) as [->|Hne]; [|destruct (Z.ltb_spec x y)].
  - destruct (IHa b Ha' Hb') as [Hso Hin]. split.
    + apply Hcons; [done|]. intros z Hz%Hin. assert (z ∈ a \/ z ∈ b) as [?|?] by (unfold keeps in Hz; tauto); auto.
    + intros z. rewrite elem_of_app, elem_of_if, Hin. unfold keeps. rewrite !elem_of_cons.
      destruct (decide (z = y)) as [->|]; [|clear -n; tauto].
      assert (y ∉ a) by (intros ?%Hxa; lia). assert (y ∉ b) by (intros ?%Hyb; lia). clear -H H0. tauto.
  - destruct (IHa (y :: b) Ha' Hb) as [Hso Hin]. split.
    + apply Hcons; [done|]. intros z Hz%Hin. unfold keeps in Hz.
      destruct Hz as [(Hz & _)|[(Hz & _)|(_ & Hz & _)]]; [by apply Hxa|by apply Hxa|]. specialize (Hyb' _ Hz). lia.
    + intros z. rewrite elem_of_app, elem_of_if, Hin. unfold keeps. rewrite (elem_of_cons a).
      destruct (decide (z = x)) as [->|]; [|clear -n; tauto].
      assert (x ∉ a) by (intros ?%Hxa; lia). assert (x ∉ y :: b) by (intros ?%Hyb'; lia). clear -H0 H1. tauto.
  - destruct (IHb Hb') as [Hso Hin]. split.
    + apply Hcons; [done|]. intros z Hz%Hin. unfold keeps in Hz.
      destruct Hz as [(_ & Hz & _)|[(Hz & _)|(_ & Hz & _)]]; [by apply Hyb| |by apply Hyb]. specialize (Hxa' _ Hz). lia.
    + intros z. rewrite elem_of_app, elem_of_if, Hin. unfold keeps. rewrite (elem_of_cons b).
      destruct (decide (z = y)) as [->|]; [|clear -n; tauto].
      assert (y ∉ b) by (intros ?%Hyb; lia). assert (y ∉ x :: a) by (intros ?%Hxa'; lia). clear -H0 H1. tauto.
Qed.


Lemma sized_sum op : maxSize op = (fun first second => u32 (first + second)) -> op_sized op.
Proof. intros Hop a b Hn. rewrite Hop, wrap_small by (unfold fits; lia). pose proof (merge_length op a b). lia. Qed.

(** Without ids of the second operand there are as many as in the first at most. *)
Lemma merge_length_first op a b : pushSecondSmaller op = false -> pushSecondRemainder op = false ->
  zlen (merge op a b) <= zlen a.
Proof.
  intros Hs Hr. revert b. induction a as [|x a IHa]; intros b; [by rewrite merge_nil_l, Hr|].
  induction b as [|y b IHb]; [rewrite merge_nil_r; case_match; cbn [length]; lia|].
  rewrite merge_cons, Hs. specialize (IHa b) as H1. specialize (IHa (y :: b)) as H2. cbn [length] in *.
  repeat case_match; rewrite ?length_app; cbn [length app] in *; lia.
Qed.

Lemma merge_length_second op a b : pushFirstSmaller op = false -> pushFirstRemainder op = false ->
  zlen (merge op a b) <= zlen b.
Proof.
  intros Hs Hr. revert b. induction a as [|x a IHa]; intros b; [rewrite merge_nil_l; case_match; cbn [length]; lia|].
  induction b as [|y b IHb]; [by rewrite merge_nil_r, Hr|].
  rewrite merge_cons, Hs. specialize (IHa b) as H1. specialize (IHa (y :: b)) as H2. cbn [length] in *.
  repeat case_match; rewrite ?length_app; cbn [length app] in *; lia.
Qed.

Lemma ops_sized : op_sized IntersectOp /\ op_sized UniteOp /\ op_sized DifferenceOp /\ op_sized SymmetricDifferenceOp.
Proof.
  split; [|split; [by apply sized_sum|split; [|by apply sized_sum]]]; intros a b Hn; cbn [maxSize IntersectOp DifferenceOp].
  - pose proof (merge_length_first IntersectOp a b eq_refl eq_refl).
    pose proof (merge_length_second IntersectOp a b eq_refl eq_refl). lia.
  - pose proof (merge_length_first DifferenceOp a b eq_refl eq_refl). lia.
Qed.

(** Common, and smaller, elements in front are handled as a block. *)
Lemma merge_common op l a b : merge op (l ++ a) (l ++ b) = (if pushEqual op then l else []) ++ merge op a b.
Proof.
  induction l as [|x l IH]; cbn [app]; [by destruct (pushEqual op)|].
  rewrite merge_cons, Z.eqb_refl, IH. by destruct (pushEqual op).
Qed.

Lemma merge_smaller_l op l a y b : Forall (fun z => z < y) l ->
  merge op (l ++ a) (y :: b) = (if pushFirstSmaller op then l else []) ++ merge op a (y :: b).
Proof.
  induction 1 as [|x l Hx _ IH]; cbn [app]; [by destruct (pushFirstSmaller op)|].
  rewrite merge_cons, (proj2 (Z.eqb_neq _ _)), (proj2 (Z.ltb_lt _ _)), IH by lia. by destruct (pushFirstSmaller op).
Qed.

Lemma merge_smaller_r op l x a b : Forall (fun z => z < x) l ->
  merge op (x :: a) (l ++ b) = (if pushSecondSmaller op then l else []) ++ merge op (x :: a) b.
Proof.
  induction 1 as [|y l Hy _ IH]; cbn [app]; [by destruct (pushSecondSmaller op)|].
  rewrite merge_cons, (proj2 (Z.eqb_neq _ _)), (proj2 (Z.ltb_ge _ _)), IH by lia. by destruct (pushSecondSmaller op).
Qed.

(** The remainder: one list is used up. *)
Lemma merge_one op a b : a = [] \/ b = [] -> merge op a b =
  if pushFirstRemainder op && bool_decide (a <> []) then a else if pushSecondRemainder op && bool_decide (b <> []) then b else [].
Proof.
  intros Hone. destruct a as [|x a].
  - rewrite merge_nil_l, (bool_decide_false ([] <> [])), andb_false_r by naive_solver.
    destruct b; [by rewrite andb_false_r; destruct (pushSecondRemainder op)|].
    rewrite bool_decide_true by done. by rewrite andb_true_r.
  - destruct Hone as [?| ->]; [done|]. rewrite merge_nil_r, bool_decide_true, andb_true_r by done.
    rewrite (bool_decide_false ([] <> [])), andb_false_r by naive_solver. done.
Qed.

Lemma sorted_le l : sorted l -> StronglySorted Z.le l.
Proof.
  induction 1 as [|x l Hl IH Hf]; constructor; [done|]. eapply Forall_impl; [exact Hf|]. cbn. lia.
Qed.

Lemma narrow_u32_ok x : fits 32 x -> narrow_u32 x = Ok x.
Proof.
  intros Hx. unfold narrow_u32, narrow_check. cbn [ity_max ity_cast]. unfold fits in Hx.
  rewrite (proj2 (Z.ltb_ge _ _)) by lia. by rewrite wrap_small.
Qed.

(** * Bytes *)

Lemma up_u32_le x : fits 32 x -> up_u32 (le_bytes 4 x) = Ok x.
Proof.
  intros Hx. unfold up_u32. rewrite <- (app_nil_r (le_bytes 4 x)).
  etrans; [exact (up_le_le_bytes 4 x [])|]. f_equal. by apply wrap_small.
Qed.

Lemma get32_vread {U : Type} {BU : Backend U} {BOU : BackendOk U} (u : U) a l pos x : buf u a l -> 0 <= pos ->
  vread l pos 4 = Ok (le_bytes 4 x) -> fits 32 x -> uba_get Uint32 u a pos = Ok x.
Proof.
  intros Hb Hp Hr Hx. pose proof (buf_fits _ _ _ Hb). pose proof (proj1 (vread_ok _ _ _ _) Hr) as (_ & _ & Hin & _).
  rewrite (buf_get Uint32 _ _ _ pos Hb) by (cbn [scalar_len]; lia). cbn [scalar_len].
  rewrite (proj2 (Z.ltb_ge _ _)) by lia. rewrite Hr, bind_ok_l. cbn [scalar_unpack]. by apply up_u32_le.
Qed.

(** Overwriting the start of what was just written. *)
Lemma splice_over {A} (l b1 b2 h : list A) p : 0 <= p <= zlen l -> length h = length b1 ->
  splice (splice l p (b1 ++ b2)) p h = splice l p (h ++ b2).
Proof.
  intros Hp Hh. unfold splice. assert (length (take (Z.to_nat p) l) = Z.to_nat p) as Ht by (rewrite length_take; lia).
  rewrite take_app_length' by done. rewrite <- !app_assoc. f_equal. f_equal.
  rewrite drop_app_ge by lia. rewrite Ht. replace (Z.to_nat p + length h - Z.to_nat p)%nat with (length b1) by lia.
  rewrite drop_app_length, !length_app, Hh. done.
Qed.

Lemma drop_splice {A} (l bs : list A) p : 0 <= p <= zlen l ->
  drop (Z.to_nat p) (splice l p bs) = bs ++ drop (Z.to_nat p + length bs) l.
Proof. intros Hp. unfold splice. apply drop_app_length'. rewrite length_take. lia. Qed.

Lemma splice_end {A} (l tail bs : list A) :
  splice (l ++ tail) (zlen l) bs = l ++ bs ++ drop (length bs) tail.
Proof. unfold splice. rewrite Nat2Z.id, take_app_length. do 2 f_equal. rewrite drop_app_ge by lia. f_equal. lia. Qed.

Section windows.
Context {S : Type} {BS : Backend S} {BOS : BackendOk S}.
Context {T : Type} {BT : Backend T} {BOT : BackendOk T}.
Implicit Types (v : S) (t : T).

(** What is left of a window behind the get position. *)
Lemma reading_shrink t d pre rest : reading t d pre rest -> buf t (shrinkToGetPtr d) rest.
Proof using.
  intros [[Hwf Hv] Hg]. pose proof (buf_len _ _ _ (conj Hwf Hv)) as Hlen. rewrite length_app in Hlen. pose proof Hwf as [].
  unfold shrinkToGetPtr. rewrite (proj2 (Z.ltb_ge (m_len d) (m_getPtr d))) by lia.
  edestruct (sub_window (bk_data t) d Hwf (zlen pre) (zlen rest)) as [Hwf' Hv'];
    [| | | | | | |split; [exact Hwf'|]]; cbn [m_offSet m_len m_getPtr m_putPtr]; try lia.
  - rewrite Hg. apply wrap_small. unfold fits in *. lia.
  - unfold fits; lia.
  - case_match; unfold fits in *; lia.
  - rewrite Hv', Hv, !Nat2Z.id, drop_app_length. by rewrite take_ge.
Qed.

Lemma sputData_foreign_ok v a l t b src : buf v a l -> 0 <= m_putPtr a <= zlen l -> buf t b src ->
  m_offSet a + m_putPtr a + zlen src < 2 ^ 64 ->
  exists v' a', sputData_foreign v a t b = Ok (v', a') /\ pushed a l src v' a'.
Proof using BOS BOT.
  intros Ha Hp Hb Hf. unfold sputData_foreign. rewrite (buf_len _ _ _ Hb).
  pose proof (buf_fits _ _ _ Ha). pose proof Ha as [[] _].
  destruct (resizeForPush_ok v a l (m_putPtr a) (zlen src) Ha Hp) as (v1 & a1 & ext & -> & H1 & He & Ho & Hg & Hpp); [lia|lia|].
  cbn [negb]. destruct (putData_foreign_ok (Datatypes.S (Z.to_nat (zlen src))) v1 t a1 b (l ++ ext) src (m_putPtr a1) H1 Hb)
    as (v2 & -> & H2); [lia|rewrite length_app; lia|lia|].
  rewrite bind_ok_l. eexists v2, _. split; [done|]. rewrite Hpp in H2. split; cbn [advPut m_offSet m_getPtr m_putPtr]; [|done|done|].
  - assert (splice (l ++ ext) (m_putPtr a) src = splice l (m_putPtr a) src) as <-.
    { unfold splice. rewrite take_app_le, drop_app by lia. rewrite (drop_ge ext), app_nil_r by lia. done. }
    unfold advPut. apply buf_ptrs; [done|apply H1|apply wrap_fits; lia].
  - rewrite Hpp. apply wrap_small. unfold fits. lia.
Qed.

End windows.

(** * Lists of ids *)

Definition ids_ok (src : list Z) : Prop := Forall (fits 32) src.

Lemma merge_ids op A B : op_wf op -> sorted A -> sorted B -> ids_ok A -> ids_ok B -> ids_ok (merge op A B).
Proof.
  intros Hop HA HB Ha Hb. apply Forall_forall. intros z Hz%(merge_spec op A B Hop HA HB).
  unfold ids_ok in *. rewrite Forall_forall in Ha, Hb. unfold keeps in Hz.
  destruct Hz as [(? & _)|[(? & _)|(_ & ? & _)]]; auto.
Qed.

(** The last id, or [prev] in front of the first. *)
Definition lastd (prev : Z) (src : list Z) : Z := default prev (last src).

Lemma lastd_cons prev x src : lastd prev (x :: src) = lastd x src.
Proof. unfold lastd. rewrite last_cons. by destruct (last src). Qed.

Lemma app_cons {A} (a : list A) x b : a ++ x :: b = (a ++ [x]) ++ b.
Proof. by rewrite <- app_assoc. Qed.

Lemma lastd_snoc prev a x : lastd prev (a ++ [x]) = x.
Proof. unfold lastd. by rewrite last_snoc. Qed.

Lemma lastd_app prev a b : lastd prev (a ++ b) = lastd (lastd prev a) b.
Proof. revert prev. induction a as [|x a IH]; intros prev; [done|]. cbn [app]. by rewrite !lastd_cons, IH. Qed.

(** * What creators, iterators and lookups promise *)

(** [cr_rep c out]: the creator [c] has got the ids [out]; it takes up to [cr_cap] ids
    below [cr_lim] in ascending order. *)
Class IndexCreatorOk (C : Type) `{IndexCreator C} := {
  cr_rep : C -> list Z -> Prop;
  cr_lim : Z;
  cr_cap : Z;
  cr_lim_u32 : cr_lim <= 2 ^ 32;
  cr_push c out id : cr_rep c out -> sorted (out ++ [id]) -> 0 <= id < cr_lim -> zlen out < cr_cap ->
    exists c', ic_push c id = Ok c' /\ cr_rep c' (out ++ [id]);
}.

(** [pi_rep i l]: the iterator [i] has the ids [l] in front of it. *)
Class PosIterOk (I : Type) `{PosIter I} := {
  pi_rep : I -> list Z -> Prop;
  pi_more_ok i l : pi_rep i l -> pi_more i = bool_decide (l <> []);
  pi_get_ok i x l : pi_rep i (x :: l) -> exists i', pi_get i = Ok (i', x) /\ pi_rep i' (x :: l);
  pi_next_ok i x l : pi_rep i (x :: l) -> exists i', pi_next i = Ok i' /\ pi_rep i' l;
}.

(** [ai_rep d l]: the index [d] holds the ids [l]. *)
Class AtIndexOk (D : Type) `{AtIndex D} := {
  ai_rep : D -> list Z -> Prop;
  ai_size_ok d l : ai_rep d l -> ai_size d = zlen l;
  ai_few d l : ai_rep d l -> zlen l < 2 ^ 32;
  ai_at_ok d l (pos : nat) x : ai_rep d l -> l !! pos = Some x ->
    exists d', ai_at d (Z.of_nat pos) = Ok (d', x) /\ ai_rep d' l;
  ai_uncheckedAt_ok d l (pos : nat) x : ai_rep d l -> l !! pos = Some x ->
    exists d', ai_uncheckedAt d (Z.of_nat pos) = Ok (d', x) /\ ai_rep d' l;
}.

Lemma sorted_app_l a b : sorted (a ++ b) -> sorted a.
Proof. apply StronglySorted_app_1_l. Qed.

Lemma sorted_app_r a b : sorted (a ++ b) -> sorted b.
Proof. apply StronglySorted_app_1_r. Qed.

Lemma sorted_lastd out id : sorted (out ++ [id]) -> out <> [] -> lastd 0 out < id.
Proof.
  intros Hs Hne. destruct (last out) as [x|] eqn:E; [|by apply last_None in E].
  apply last_Some in E as [l ->]. rewrite lastd_snoc. rewrite <- app_assoc in Hs. apply sorted_app_r in Hs. cbn [app] in Hs.
  destruct (sorted_cons x [id] Hs) as [_ Hx]. apply Hx. by left.
Qed.

(** The last id of a sorted list is the largest. *)
Lemma sorted_max l z : sorted l -> z ∈ l -> z <= lastd 0 l.
Proof.
  intros Hs Hz. destruct (last l) as [x|] eqn:E; [|apply last_None in E as ->; by apply elem_of_nil in Hz].
  apply last_Some in E as [k ->]. rewrite lastd_snoc. apply elem_of_app in Hz as [Hz|Hz%list_elem_of_singleton]; [|lia].
  apply list_elem_of_split in Hz as (k1 & k2 & ->). rewrite <- app_assoc in Hs. apply sorted_app_r in Hs. cbn [app] in Hs.
  destruct (sorted_cons z _ Hs) as [_ Hx]. specialize (Hx x). rewrite elem_of_app, list_elem_of_singleton in Hx. naive_solver lia.
Qed.

Lemma elem_of_set_positions v n z : z ∈ set_positions v 0 n <-> 0 <= z < n /\ Z.testbit v z = true.
Proof. unfold set_positions. rewrite list_elem_of_filter, elem_of_seqZ, Z.add_0_l, Is_true_true. tauto. Qed.

(** Sorted lists of the same ids are the same. *)
Lemma sorted_ext (a b : list Z) : sorted a -> sorted b -> (forall z, z ∈ a <-> z ∈ b) -> a = b.
Proof.
  revert b. induction a as [|x a IH]; intros b Ha Hb Heq.
  - destruct b as [|y b]; [done|]. assert (y ∈ []) as ?%elem_of_nil by (apply Heq; left). done.
  - destruct (sorted_cons x a Ha) as [Ha' Hxa]. destruct b as [|y b].
    { assert (x ∈ []) as ?%elem_of_nil by (apply Heq; left). done. }
    destruct (sorted_cons y b Hb) as [Hb' Hyb]. assert (x = y) as ->.
    { assert (x ∈ y :: b) as Hx by (apply Heq; left). assert (y ∈ x :: a) as Hy by (apply Heq; left).
      apply elem_of_cons in Hx as [->|Hx%Hyb]; [done|]. apply elem_of_cons in Hy as [->|Hy%Hxa]; [done|lia]. }
    f_equal. apply IH; [done|done|]. intros z. specialize (Heq z). rewrite !elem_of_cons in Heq.
    split; intros Hz; [specialize (Hxa z Hz)|specialize (Hyb z Hz)]; destruct Heq as [H1 H2];
      [destruct (H1 (or_intror Hz)) as [->|?]|destruct (H2 (or_intror Hz)) as [->|?]]; (done || lia).
Qed.

Lemma sorted_filter (P : Z -> Prop) `{!forall x, Decision (P x)} l : sorted l -> sorted (filter P l).
Proof.
  induction 1 as [|x l Hl IH Hf]; [constructor|]. rewrite filter_cons. case_decide; [|done]. constructor; [done|].
  apply Forall_forall. intros z [_ Hz]%list_elem_of_filter. by eapply Forall_forall in Hf.
Qed.

Lemma sorted_set_positions v lo n : sorted (set_positions v lo n).
Proof.
  apply sorted_filter. destruct (Z.leb_spec n 0); [rewrite seqZ_nil by lia; constructor|].
  rewrite <- (Z2Nat.id n) by lia. generalize (Z.to_nat n) as k. clear. intros k. revert lo.
  induction k as [|k IH]; intros lo; [rewrite seqZ_nil by lia; constructor|].
  rewrite Nat2Z.inj_succ, seqZ_cons, Z.pred_succ by lia. constructor; [apply IH|].
  apply Forall_forall. intros z Hz%elem_of_seqZ. lia.
Qed.

(** Between a creator and what is still to be pushed. *)
Section pushing.
Context {C : Type} `{IndexCreatorOk C}.

(** The ids [l] may be pushed after [out]. *)
Definition pushable (out l : list Z) : Prop :=
  sorted (out ++ l) /\ Forall (fun z => 0 <= z < cr_lim) l /\ zlen out + zlen l <= cr_cap.

Lemma pushable_app out a b : pushable out (a ++ b) -> pushable out a /\ pushable (out ++ a) b.
Proof using.
  intros (Hs & Hl & Hn). apply Forall_app in Hl as [Ha Hb]. rewrite length_app in Hn.
  rewrite app_assoc in Hs. split; (split; [|split]); rewrite ?length_app; try done; try lia. by eapply sorted_app_l.
Qed.

Lemma set_positions_pushable v n : (forall z, z ∈ set_positions v 0 n -> z < cr_lim) ->
  zlen (set_positions v 0 n) <= cr_cap -> pushable [] (set_positions v 0 n).
Proof using.
  intros Hz Hlen. split; [apply sorted_set_positions|]. split; [|cbn [length]; lia].
  apply Forall_forall. intros z Hin. specialize (Hz z Hin). apply elem_of_set_positions in Hin. lia.
Qed.

Lemma push_if_ok (k : bool) c out id rest : cr_rep c out -> pushable out ((if k then [id] else []) ++ rest) ->
  exists c', push_if k c id = Ok c' /\ cr_rep c' (out ++ if k then [id] else []) /\
    pushable (out ++ if k then [id] else []) rest.
Proof using.
  intros Hc [Hp Hr]%pushable_app. destruct k; cbn [push_if].
  - destruct Hp as (Hs & Hl & Hn). cbn [length] in Hn.
    destruct (cr_push c out id Hc Hs (Forall_inv Hl)) as (c' & -> & Hc'); [lia|]. by exists c'.
  - exists c. by rewrite app_nil_r in *.
Qed.

Lemma from_byte_ok n x V i curId c out rest :
  fits (Z.of_nat n) x -> 0 <= i -> i + Z.of_nat n <= 8 -> 0 <= curId -> curId + 8 <= 2 ^ 32 ->
  (forall j, 0 <= j < Z.of_nat n -> Z.testbit x j = Z.testbit V (curId + i + j)) ->
  cr_rep c out -> pushable out (set_positions V (curId + i) (Z.of_nat n) ++ rest) ->
  exists c', from_byte n x i curId c = Ok c' /\ cr_rep c' (out ++ set_positions V (curId + i) (Z.of_nat n)) /\
    pushable (out ++ set_positions V (curId + i) (Z.of_nat n)) rest.
Proof using.
  revert x i c out. induction n as [|n IH]; intros x i c out Hx Hi Hn Hc0 Hc1 HV Hc Hp; cbn [from_byte].
  { exists c. rewrite app_nil_r. done. }
  destruct (Z.eqb_spec x 0) as [->|Hne].
  { assert (set_positions V (curId + i) (Z.of_nat (Datatypes.S n)) = []) as Hsp; [|exists c; by rewrite Hsp, app_nil_r in *].
    apply set_positions_none. intros k Hk. replace k with (curId + i + (k - curId - i)) by lia. rewrite <- HV by lia. apply Z.bits_0. }
  assert (fits (Z.of_nat n) (x >>> 1)) as Hx'.
  { apply fits_testbit; [lia|apply Z.shiftr_nonneg; unfold fits in Hx; lia|].
    intros k Hk. rewrite Z.shiftr_spec by lia. apply (testbit_fits_high (Z.of_nat (Datatypes.S n))); [done|lia]. }
  assert (fits 8 (x >>> 1)) as Hx8.
  { unfold fits in *. pose proof (Z.pow_le_mono_r 2 (Z.of_nat n) 8). lia. }
  assert (forall j, 0 <= j < Z.of_nat n -> Z.testbit (x >>> 1) j = Z.testbit V (curId + (i + 1) + j)) as HV'.
  { intros j Hj. rewrite Z.shiftr_spec, HV by lia. f_equal. lia. }
  rewrite (wrap_small 8 (x >>> 1) Hx8), (wrap_small 32 (i + 1)) by (unfold fits; lia).
  pose proof (land_bit_testbit x 0 ltac:(lia)) as Hb. change (1 <<< 0) with 1 in Hb.
  pose proof (HV 0 ltac:(lia)) as Hbit. rewrite Z.add_0_r in Hbit. rewrite Hb, Hbit.
  rewrite (wrap_small 32 (curId + i)) by (unfold fits; lia).
  assert (set_positions V (curId + i) (Z.of_nat (Datatypes.S n)) =
    (if Z.testbit V (curId + i) then [curId + i] else []) ++ set_positions V (curId + (i + 1)) (Z.of_nat n)) as Hsp.
  { replace (curId + (i + 1)) with (curId + i + 1) by lia. replace (Z.of_nat n) with (Z.of_nat (Datatypes.S n) - 1) by lia.
    destruct (Z.testbit V (curId + i)) eqn:E; [by apply set_positions_cons; [lia|]|apply set_positions_skip; [lia|done]]. }
  rewrite Hsp, <- app_assoc in Hp. rewrite Hsp.
  destruct (push_if_ok (Z.testbit V (curId + i)) c out (curId + i) _ Hc Hp) as (c1 & -> & Hc' & Hp').
  rewrite bind_ok_l, app_assoc. apply IH; try done; lia.
Qed.

Context {S : Type} {B : Backend S} {BO : BackendOk S}.
Context (s : S) (a : uba) (l : list Z) (Hb : buf s a l) (Hsz : zlen l < 2 ^ 29).

Lemma from_bytes_ok n i c out : 0 <= i -> i + Z.of_nat n = zlen l -> cr_rep c out ->
  pushable out (set_positions (le_val l) (8 * i) (8 * Z.of_nat n)) ->
  exists c', from_bytes n s a i (u32 (8 * i)) c = Ok c' /\
    cr_rep c' (out ++ set_positions (le_val l) (8 * i) (8 * Z.of_nat n)).
Proof using Hb Hsz BO.
  revert i c out. induction n as [|n IH]; intros i c out Hi Hn Hc Hp; cbn [from_bytes].
  { exists c. split; [done|]. by rewrite app_nil_r. }
  rewrite (buf_at_byte s a l i Hb) by lia. rewrite bind_ok_l.
  assert (byte_ok (byte_at l i)) by (apply byte_at_ok; exact (buf_bytes _ _ _ Hb)).
  replace (8 * Z.of_nat (Datatypes.S n)) with (8 + 8 * Z.of_nat n) in * by lia.
  rewrite (wrap_small 32 (8 * i)) by (unfold fits; lia).
  rewrite set_positions_app in Hp |- * by lia.
  destruct (from_byte_ok 8 (byte_at l i) (le_val l) 0 (8 * i) c out (set_positions (le_val l) (8 * i + 8) (8 * Z.of_nat n)))
    as (c1 & -> & Hc1 & Hp1); rewrite ?Z.add_0_r in *; change (Z.of_nat 8) with 8 in *; try done; try lia.
  { intros j Hj. apply (byte_bits s a l Hb); lia. }
  rewrite bind_ok_l, (wrap_small 32 (i + 1)) by (unfold fits; lia).
  replace (8 * i + 8) with (8 * (i + 1)) in * by lia. rewrite app_assoc. apply IH; [lia|lia|done|done].
Qed.
End pushing.

(** The generic set operation pushes the merge of what its operands have in front of
    them. *)
Section executing.
Context {C : Type} `{IndexCreatorOk C} {I : Type} `{PosIterOk I} {J : Type} `{PosIterOk J}.

Lemma exec_loop_ok fuel op c (f : I) (s : J) la lb out :
  pi_rep f la -> pi_rep s lb -> cr_rep c out -> pushable out (merge op la lb) ->
  (length la + length lb < fuel)%nat ->
  exists c' f' s' la' lb' out', exec_loop fuel op c f s = Ok (c', f', s') /\
    pi_rep f' la' /\ pi_rep s' lb' /\ cr_rep c' out' /\ pushable out' (merge op la' lb') /\
    (la' = [] \/ lb' = []) /\ (length la' <= length la)%nat /\ (length lb' <= length lb)%nat /\
    out ++ merge op la lb = out' ++ merge op la' lb'.
Proof using.
  revert c f s la lb out. induction fuel as [|fuel IH]; intros c f s la lb out Hf Hs Hc Hp Hfu; [lia|].
  cbn [exec_loop]. rewrite (pi_more_ok f la Hf), (pi_more_ok s lb Hs).
  destruct la as [|x la].
  { rewrite (bool_decide_false ([] <> [])) by naive_solver. exists c, f, s, [], lb, out. naive_solver. }
  destruct lb as [|y lb].
  { rewrite (bool_decide_false ([] <> [])), andb_false_r by naive_solver. exists c, f, s, (x :: la), [], out. naive_solver. }
  rewrite !bool_decide_true by done. cbn [andb]. cbn [length] in Hfu.
  destruct (pi_get_ok f x la Hf) as (f1 & -> & Hf1). destruct (pi_get_ok s y lb Hs) as (s1 & -> & Hs1).
  rewrite !bind_ok_l. destruct (pi_next_ok f1 x la Hf1) as (f2 & Hfn & Hf2). destruct (pi_next_ok s1 y lb Hs1) as (s2 & Hsn & Hs2).
  rewrite merge_cons in *. destruct (Z.eqb_spec x y) as [<-|Hne].
  - rewrite Z.ltb_irrefl. destruct (push_if_ok (pushEqual op) c out x _ Hc Hp) as (c1 & -> & Hc1 & Hp1).
    rewrite bind_ok_l, Hfn, bind_ok_l, Hsn, bind_ok_l, app_assoc.
    destruct (IH c1 f2 s2 la lb _ Hf2 Hs2 Hc1 Hp1) as (c' & f' & s' & la' & lb' & out' & Hr); [lia|].
    exists c', f', s', la', lb', out'. cbn [length]. naive_solver lia.
  - destruct (Z.ltb_spec x y).
    + destruct (push_if_ok (pushFirstSmaller op) c out x _ Hc Hp) as (c1 & -> & Hc1 & Hp1).
      rewrite bind_ok_l, Hfn, bind_ok_l, app_assoc.
      destruct (IH c1 f2 s1 la (y :: lb) _ Hf2 Hs1 Hc1 Hp1) as (c' & f' & s' & la' & lb' & out' & Hr); [cbn [length]; lia|].
      exists c', f', s', la', lb', out'. cbn [length]. naive_solver lia.
    + rewrite (proj2 (Z.ltb_lt y x)) by lia.
      destruct (push_if_ok (pushSecondSmaller op) c out y _ Hc Hp) as (c1 & -> & Hc1 & Hp1).
      rewrite bind_ok_l, Hsn, bind_ok_l, app_assoc.
      destruct (IH c1 f1 s2 (x :: la) lb _ Hf1 Hs2 Hc1 Hp1) as (c' & f' & s' & la' & lb' & out' & Hr); [cbn [length]; lia|].
      exists c', f', s', la', lb', out'. cbn [length]. naive_solver lia.
Qed.
End executing.

Section rest.
Context {C : Type} `{IndexCreatorOk C} {I : Type} `{PosIterOk I}.

Lemma exec_rest_ok fuel c f l out : pi_rep f l -> cr_rep c out -> pushable out l -> (length l < fuel)%nat ->
  exists c', exec_rest fuel c f = Ok c' /\ cr_rep c' (out ++ l).
Proof using.
  revert c f l out. induction fuel as [|fuel IH]; intros c f l out Hf Hc Hp Hfu; [lia|].
  cbn [exec_rest]. rewrite (pi_more_ok f l Hf). destruct l as [|x l].
  { rewrite bool_decide_false by naive_solver. exists c. by rewrite app_nil_r. }
  rewrite bool_decide_true by done. destruct (pi_get_ok f x l Hf) as (f1 & -> & Hf1). rewrite bind_ok_l.
  destruct (push_if_ok true c out x l Hc Hp) as (c1 & Hpush & Hc1 & Hp1). cbn [push_if] in Hpush. rewrite Hpush, bind_ok_l.
  destruct (pi_next_ok f1 x l Hf1) as (f2 & -> & Hf2). rewrite bind_ok_l, (app_assoc out [x] l : out ++ x :: l = _).
  apply IH; [done|done|done|cbn [length] in Hfu; lia].
Qed.
End rest.

Section executed.
Context {C : Type} `{IndexCreatorOk C} {I : Type} `{PosIterOk I} {J : Type} `{PosIterOk J}.

Lemma exec_ok fuel op c (f : I) (s : J) la lb : pi_rep f la -> pi_rep s lb -> cr_rep c [] ->
  pushable [] (merge op la lb) -> (length la + length lb < fuel)%nat ->
  exists c', exec fuel op c f s = Ok c' /\ cr_rep c' (merge op la lb).
Proof using.
  intros Hf Hs Hc Hp Hfu. unfold exec.
  destruct (exec_loop_ok fuel op c f s la lb [] Hf Hs Hc Hp Hfu)
    as (c1 & f1 & s1 & la1 & lb1 & out & -> & Hf1 & Hs1 & Hc1 & Hp1 & Hone & Hla & Hlb & Hm).
  rewrite bind_ok_l. cbn [app] in Hm. rewrite Hm.
  destruct la1 as [|x la1].
  - rewrite merge_nil_l in *.
    assert (exists c2, (if pushFirstRemainder op then exec_rest fuel c1 f1 else Ok c1) = Ok c2 /\ cr_rep c2 out) as (c2 & -> & Hc2).
    { destruct (pushFirstRemainder op); [|by exists c1].
      destruct (exec_rest_ok fuel c1 f1 [] out Hf1 Hc1) as (c2 & ? & Hc2); [|cbn; lia|].
      - destruct Hp1 as (? & ? & ?). split; [rewrite app_nil_r; by eapply sorted_app_l|]. split; [done|cbn [length] in *; lia].
      - exists c2. by rewrite app_nil_r in Hc2. }
    rewrite bind_ok_l. destruct (pushSecondRemainder op); [|exists c2; by rewrite app_nil_r].
    apply exec_rest_ok; [done|done|done|lia].
  - destruct Hone as [?| ->]; [done|]. rewrite merge_nil_r in *.
    assert (exists c2, (if pushFirstRemainder op then exec_rest fuel c1 f1 else Ok c1) = Ok c2 /\
      cr_rep c2 (out ++ if pushFirstRemainder op then x :: la1 else [])) as (c2 & -> & Hc2).
    { destruct (pushFirstRemainder op); [|exists c1; by rewrite app_nil_r]. apply exec_rest_ok; [done|done|done|lia]. }
    rewrite bind_ok_l. destruct (pushSecondRemainder op); [|by exists c2].
    destruct (exec_rest_ok fuel c2 s1 [] _ Hs1 Hc2) as (c3 & ? & Hc3); [|lia|exists c3; by rewrite app_nil_r in Hc3].
    destruct Hp1 as (? & ? & ?). split; [by rewrite app_nil_r|]. rewrite length_app. split; [done|cbn [length] in *; lia].
Qed.
End executed.

(** Searching, copying and iterating on top of a lookup. *)
Section lookups.
Context {D : Type} `{AtIndexOk D}.
Implicit Types (d : D).

Lemma ai_at_pos d l pos x : ai_rep d l -> 0 <= pos -> l !! Z.to_nat pos = Some x ->
  exists d', ai_at d pos = Ok (d', x) /\ ai_rep d' l.
Proof using. intros Hd Hp Hx. rewrite <- (Z2Nat.id pos Hp). by apply ai_at_ok. Qed.

Lemma find_loop_ok fuel d src id left right :
  ai_rep d src -> sorted src -> 0 <= left <= right + 1 -> right < zlen src ->
  0 <= Z.quot (right - left) 2 + left < zlen src ->
  (forall i, src !! i = Some id -> left <= Z.of_nat i <= right) ->
  (0 < fuel)%nat -> right - left < 2 ^ (Z.of_nat fuel - 1) ->
  exists d' r, find_loop fuel d id left right (Z.quot (right - left) 2 + left) = Ok (d', r) /\ ai_rep d' src /\
    (0 <= r < zlen src /\ src !! Z.to_nat r = Some id \/ r = max_u32 /\ id ∉ src).
Proof using.
  intros Hu Hs. revert d left right Hu. induction fuel as [|fuel IH]; intros d left right Hu Hl Hr Hm Hin Hf0 Hf; [lia|].
  cbn [find_loop]. set (mid := Z.quot (right - left) 2 + left) in *. apply sorted_le in Hs as Hle.
  destruct (mid_bounds left right) as (Hm1 & Hm2 & Hm3); [lia|]. fold mid in Hm1, Hm2, Hm3.
  pose proof (ai_few _ _ Hu) as Hfew. rewrite (wrap_small 32 mid) by (unfold fits; lia).
  destruct (lookup_lt_is_Some_2 src (Z.to_nat mid)) as [x Hx]; [lia|].
  destruct (ai_at_pos d src mid x Hu) as (d1 & -> & Hu1); [lia|done|]. rewrite !bind_ok_l.
  destruct (Z.ltb_spec left right).
  - destruct (Z.eqb_spec x id) as [->|Hne]; [exists d1, mid; split; [done|]; split; [done|by left]|].
    assert (fuel <> 0%nat) by (intros ->; cbn in Hf; lia).
    assert (2 ^ (Z.of_nat (Datatypes.S fuel) - 1) = 2 * 2 ^ (Z.of_nat fuel - 1)) as Hpow.
    { rewrite <- Z.pow_succ_r by lia. f_equal. lia. }
    assert (2 * (mid - left) <= right - left /\ 2 * (right - (mid + 1)) <= right - left) as [Hh1 Hh2].
    { unfold mid. rewrite Z.quot_div_nonneg by lia. pose proof (Z.div_mod (right - left) 2 ltac:(lia)).
      pose proof (Z.mod_pos_bound (right - left) 2 ltac:(lia)). lia. }
    destruct (Z.ltb_spec x id) as [Hlt|Hge].
    + destruct (mid_bounds (mid + 1) right) as (G1 & G2 & G3); [lia|]. apply IH; try lia; [done|].
      intros i Hi. specialize (Hin i Hi). split; [|lia]. destruct (Z.leb_spec (mid + 1) (Z.of_nat i)); [done|].
      pose proof (sorted_lookup src i (Z.to_nat mid) id x Hle Hi Hx). lia.
    + destruct (mid_bounds left (mid - 1)) as (G1 & G2 & G3); [lia|]. apply IH; try lia; [done|].
      intros i Hi. specialize (Hin i Hi). split; [lia|]. destruct (Z.leb_spec (Z.of_nat i) (mid - 1)); [done|].
      pose proof (sorted_lookup src (Z.to_nat mid) i x id Hle Hx Hi). lia.
  - unfold mret, result_ret. destruct (Z.eqb_spec x id) as [->|Hne]; [exists d1, mid; split; [done|]; split; [done|by left]|].
    exists d1, max_u32. split; [done|]. split; [done|]. right. split; [done|]. intros [i Hi]%list_elem_of_lookup.
    specialize (Hin i Hi). assert (right = left) as -> by lia.
    assert (mid = left) as Hml by (unfold mid; rewrite Z.sub_diag; done).
    rewrite Hml in Hx. replace (Z.to_nat left) with i in Hx by lia. congruence.
Qed.

(** The search ends within its fuel and finds the position of the id if there is one. *)
Lemma find_ok d src id : ai_rep d src -> sorted src ->
  exists d' r, find d id = Ok (d', r) /\ ai_rep d' src /\
    (0 <= r < zlen src /\ src !! Z.to_nat r = Some id \/ r = max_u32 /\ id ∉ src).
Proof using.
  intros Hu Hs. unfold find. rewrite (ai_size_ok d src Hu).
  pose proof (ai_few d src Hu) as Hfew. destruct (Z.eqb_spec (zlen src) 0) as [E|E].
  { exists d, max_u32. split; [done|]. split; [done|]. right. split; [done|]. destruct src; [|cbn in E; lia].
    intros Hin. by apply elem_of_nil in Hin. }
  rewrite wrap_small by (unfold fits; lia). destruct (mid_bounds 0 (zlen src - 1)) as (H1 & H2 & H3); [lia|].
  destruct (find_loop_ok 34 d src id 0 (zlen src - 1) Hu Hs) as (d' & r & Hr & Hspec); try lia.
  - intros i Hi. apply lookup_lt_Some in Hi. lia.
  - exists d', r. rewrite Z.sub_0_r, Z.add_0_r in Hr. done.
Qed.

Lemma put_ids_ok n d src i : ai_rep d src -> (i + n <= length src)%nat ->
  exists d', put_ids n d (Z.of_nat i) = Ok (d', take n (drop i src)) /\ ai_rep d' src.
Proof using.
  revert d i. induction n as [|n IH]; intros d i Hd Hn; cbn [put_ids]; [by exists d|].
  destruct (lookup_lt_is_Some_2 src i) as [x Hx]; [lia|]. pose proof (ai_few _ _ Hd).
  destruct (ai_at_ok d src i x Hd Hx) as (d1 & -> & Hd1). rewrite bind_ok_l, wrap_small by (unfold fits; lia).
  replace (Z.of_nat i + 1) with (Z.of_nat (Datatypes.S i)) by lia.
  destruct (IH d1 (Datatypes.S i) Hd1) as (d2 & -> & Hd2); [lia|]. rewrite bind_ok_l. exists d2. split; [|done].
  by rewrite (drop_S _ _ _ Hx).
Qed.

Lemma doPutInto_ok d src : ai_rep d src -> exists d', doPutInto d = Ok (d', src) /\ ai_rep d' src.
Proof using.
  intros Hd. unfold doPutInto. rewrite (ai_size_ok d src Hd), Nat2Z.id.
  destruct (put_ids_ok (length src) d src 0 Hd) as (d' & Hr & Hd'); [lia|]. exists d'.
  rewrite drop_0, take_ge in Hr by lia. done.
Qed.

Definition at_rep (it : at_iter D) (l : list Z) : Prop :=
  exists pre, ai_rep (ati_idx it) (pre ++ l) /\ ati_pos it = zlen pre.

#[export] Program Instance at_PosIterOk : PosIterOk (at_iter D) := {| pi_rep := at_rep |}.
Next Obligation.
  intros it l (pre & Hd & Hp). cbn [pi_more at_PosIter]. rewrite Hp, (ai_size_ok _ _ Hd), length_app.
  destruct l; cbn [length].
  - rewrite (proj2 (Z.eqb_eq _ _)) by lia. by rewrite bool_decide_false by naive_solver.
  - rewrite (proj2 (Z.eqb_neq _ _)) by lia. by rewrite bool_decide_true.
Qed.
Next Obligation.
  intros it x l (pre & Hd & Hp). cbn [pi_get at_PosIter]. rewrite Hp.
  destruct (ai_uncheckedAt_ok _ _ (length pre) x Hd) as (d' & -> & Hd'); [by apply list_lookup_middle|].
  rewrite bind_ok_l. eexists. split; [done|]. by exists pre.
Qed.
Next Obligation.
  intros it x l (pre & Hd & Hp). cbn [pi_next at_PosIter]. eexists. split; [done|]. exists (pre ++ [x]).
  pose proof (ai_few _ _ Hd) as Hn. rewrite length_app in Hn. cbn [length] in Hn.
  cbn [ati_idx ati_pos]. rewrite Hp, <- app_assoc, length_app, wrap_small by (unfold fits; lia). cbn. split; [done|lia].
Qed.

Lemma at_begin d l : ai_rep d l -> at_rep (mkAtIter d 0) l.
Proof using. intros Hd. by exists []. Qed.
End lookups.

(** Setting the bits of a list of positions. *)
Definition set_bits (v : Z) (ps : list Z) : Z := fold_left Z.setbit ps v.

Lemma testbit_set_bits ps v i : Forall (fun p => 0 <= p) ps -> 0 <= i ->
  Z.testbit (set_bits v ps) i = Z.testbit v i || bool_decide (i ∈ ps).
Proof.
  intros Hps Hi. revert v. induction Hps as [|p ps Hp _ IH]; intros v; unfold set_bits; cbn [fold_left].
  { by rewrite bool_decide_false, orb_false_r by apply not_elem_of_nil. }
  fold (set_bits (Z.setbit v p) ps). rewrite IH, Z.setbit_eqb by done. destruct (Z.eqb_spec p i) as [->|Hne].
  - rewrite (bool_decide_true (i ∈ i :: ps)) by (left; done). by rewrite !orb_true_r.
  - rewrite (orb_comm false), orb_false_r. f_equal. apply bool_decide_ext. rewrite elem_of_cons. naive_solver.
Qed.

Lemma set_bits_app v ps qs : set_bits v (ps ++ qs) = set_bits (set_bits v ps) qs.
Proof. apply fold_left_app. Qed.

(** Neither order nor repetition matters. *)
Lemma set_bits_ext v ps qs : Forall (fun p => 0 <= p) ps -> (forall z, z ∈ ps <-> z ∈ qs) -> set_bits v ps = set_bits v qs.
Proof.
  intros Hps Heq. assert (Forall (fun p => 0 <= p) qs) as Hqs.
  { apply Forall_forall. intros z Hz%Heq. by eapply Forall_forall in Hps. }
  apply Z.bits_inj'. intros i Hi. rewrite !testbit_set_bits by done. f_equal. apply bool_decide_ext, Heq.
Qed.

Section put_bits.
Context {T : Type} {BT : Backend T} {BOT : BackendOk T}.
Implicit Types (t : T).

(** Setting one position inside the data. *)
Lemma dbs_set_in t bits l x : buf t bits l -> 0 <= x < 8 * zlen l -> x < 2 ^ 32 ->
  exists t' l', dbs_set t bits x = Ok (t', bits) /\ buf t' bits l' /\ length l' = length l /\
    le_val l' = Z.setbit (le_val l) x.
Proof using BOT.
  intros Hb Hx Hx32. unfold dbs_set. rewrite (buf_len _ _ _ Hb). destruct (div8_bounds x) as (? & ? & ?); [lia|].
  rewrite (proj2 (Z.leb_gt _ _)) by lia.
  destruct (set_bit_ok t bits l x Hb) as (t1 & l1 & -> & Hb1 & Hl1 & Hv1); [lia|]. rewrite !bind_ok_l. by exists t1, l1.
Qed.

(** The bits of a bit set that the set positions of another have been put into. *)
Lemma set_bits_lor (l m : list Z) ps : bytes_ok l -> (forall z, z ∈ ps <-> 0 <= z < 8 * zlen l /\ Z.testbit (le_val l) z = true) ->
  set_bits (le_val m) ps = Z.lor (le_val m) (le_val l).
Proof using.
  intros Hl Hps. apply Z.bits_inj'. intros i Hi.
  rewrite testbit_set_bits, Z.lor_spec by (done || apply Forall_forall; intros z Hz%Hps; lia). f_equal.
  destruct (Z.testbit (le_val l) i) eqn:E; [apply bool_decide_true|apply bool_decide_false]; rewrite Hps.
  - split; [|done]. split; [done|]. destruct (Z.ltb_spec i (8 * zlen l)); [done|].
    rewrite testbit_byte_at, byte_at_high, Z.bits_0 in E by first [done|lia|apply Z.div_le_lower_bound; lia].
    done.
  - intros [_ ?]. congruence.
Qed.

Lemma put_bits_ok {D : Type} `{AtIndexOk D} n (d : D) src i t bits l : ai_rep d src -> (i + n = length src)%nat ->
  buf t bits l -> Forall (fun p => 0 <= p < 2 ^ 32 /\ p < 8 * zlen l) src ->
  exists d' t' l', put_bits n d (Z.of_nat i) t bits = Ok (d', (t', bits)) /\ ai_rep d' src /\ buf t' bits l' /\
    length l' = length l /\ le_val l' = set_bits (le_val l) (drop i src).
Proof using BOT.
  revert d i t l. induction n as [|n IH]; intros d i t l Hd Hn Hb Hps; cbn [put_bits].
  { exists d, t, l. rewrite drop_ge by lia. done. }
  destruct (lookup_lt_is_Some_2 src i) as [x Hx]; [lia|]. pose proof (ai_few _ _ Hd).
  destruct (ai_at_ok d src i x Hd Hx) as (d1 & -> & Hd1). rewrite bind_ok_l, wrap_small by (unfold fits; lia).
  pose proof (Forall_lookup_1 _ _ _ _ Hps Hx) as [Hx1 Hx2]. cbn beta in *.
  destruct (dbs_set_in t bits l x Hb) as (t1 & l1 & -> & Hb1 & Hl1 & Hv1); [lia|lia|]. rewrite bind_ok_l.
  replace (Z.of_nat i + 1) with (Z.of_nat (Datatypes.S i)) by lia.
  destruct (IH d1 (Datatypes.S i) t1 l1 Hd1) as (d2 & t2 & l2 & -> & Hd2 & Hb2 & Hl2 & Hv2); [lia|done|by rewrite Hl1|].
  exists d2, t2, l2. split; [done|]. split; [done|]. split; [done|]. split; [congruence|].
  by rewrite Hv2, Hv1, (drop_S _ _ _ Hx).
Qed.
End put_bits.
