(* ===== verification/ItemIndexDE.v ===== *)
(** The delta-coded item index:
    [src/containers/ItemIndexPrivates/ItemIndexPrivateDE.cpp] and its header, with
    [find] of [ItemIndexPrivate.cpp] and the set operations of
    [ItemIndexPrivate.h].

    An index is the byte length of its data, the number of its ids and the
    differences of consecutive ids. [merge] is the abstract set operation on sorted
    lists that [genericOp] performs on the coded form. *)

From stdpp Require Import sorting.
From S2P Require Import Prelude UtilMath PackUnpack Storage ByteArray ByteStream Bits CompactUintArray BitSets SetFuncs IndexOps.

(** * The index *)

Record de := mkDe {
  de_data : uba; de_count : Z;
  de_dataOffset : Z; de_curId : Z;
  de_cache_mem : Vec.t; de_cache : uba; de_cacheOffset : Z
}.

Section index.
Context {S : Type} `{Backend S}.
Implicit Types (s : S) (d : de).

Definition de_new s (data : uba) : result de :=
  len ← uba_get Uint32 s data 0;
  size ← uba_get Uint32 s data 4;
  let m_data := uba_from_len data 8 len in
  let '(mem, cache) := createCache (u32 (size * 4)) in
  if m_len m_data <? size then Err CorruptDataException
  else Ok (mkDe m_data size 0 0 mem cache 0).

Definition de_size d : Z := de_count d.

(** The loop of [at]: decodes up to position [pos] into the cache. *)
Fixpoint de_decode (fuel : nat) s d (pos : Z) : result de :=
  match fuel with
  | O => Err OutOfFuel
  | Datatypes.S fuel =>
      if de_cacheOffset d <=? pos then
        '(v, len) ← uba_getVl VlUint32 s (de_data d) (de_dataOffset d);
        let curId := u32 (de_curId d + v) in
        mem ← uba_put Uint32 (de_cache_mem d) (de_cache d) (u32 (de_cacheOffset d * 4)) curId;
        de_decode fuel s
          (mkDe (de_data d) (de_count d) (u32 (de_dataOffset d + len)) curId mem (de_cache d)
             (u32 (de_cacheOffset d + 1))) pos
      else Ok d
  end.

Definition de_at s d (pos : Z) : result (de * Z) :=
  if (de_size d =? 0) || (de_size d <=? pos) then Ok (d, 0)
  else
    d ← de_decode (Datatypes.S (Z.to_nat (de_size d))) s d pos;
    v ← uba_get Uint32 (de_cache_mem d) (de_cache d) (u32 (pos * 4));
    mret (d, v).

(** The index together with its storage as something [find] can search. *)
Definition de_ai_at (w : S * de) (pos : Z) : result (S * de * Z) :=
  '(d, x) ← de_at (fst w) (snd w) pos; mret (fst w, d, x).
#[export] Instance de_AtIndex : AtIndex (S * de) := {| ai_size w := de_size (snd w); ai_at := de_ai_at; ai_uncheckedAt := de_ai_at |}.

Definition de_first s d : result (de * Z) := if de_size d =? 0 then Ok (d, 0) else de_at s d 0.
Definition de_last s d : result (de * Z) :=
  if de_size d =? 0 then Ok (d, 0) else de_at s d (u32 (de_size d - 1)).

Definition de_bpn d : result Z :=
  if de_count d =? 0 then Err UndefinedBehaviour else Ok (u8 (u64 (m_len (de_data d) * 8) / de_count d)).

Definition de_getSizeInBytes d : Z := u64 (m_len (de_data d) + 8).

(** [putInto] to an array. *)
Fixpoint de_put_loop (n : nat) s (tmp : uba) (prev : Z) : result (list Z) :=
  match n with
  | O => Ok []
  | Datatypes.S n =>
      '(tmp, v) ← uba_sgetVl VlUint32 s tmp;
      let prev := u32 (prev + v) in
      r ← de_put_loop n s tmp prev; mret (prev :: r)
  end.
Definition de_putInto s d : result (list Z) := de_put_loop (Z.to_nat (de_size d)) s (de_data d) 0.

(** [putInto] to a bit set. *)
Fixpoint de_put_bits_loop {T : Type} `{Backend T} (n : nat) s (tmp : uba) (prev : Z) (t : T) (bits : uba)
    : result (T * uba) :=
  match n with
  | O => Ok (t, bits)
  | Datatypes.S n =>
      '(tmp, v) ← uba_sgetVl VlUint32 s tmp;
      let prev := u32 (prev + v) in
      '(t, bits) ← dbs_set t bits prev;
      de_put_bits_loop n s tmp prev t bits
  end.
Definition de_putInto_bits {T : Type} `{Backend T} s d (t : T) (bits : uba) : result (T * uba) :=
  de_put_bits_loop (Z.to_nat (de_size d)) s (de_data d) 0 t bits.

(** * Creating *)

Fixpoint de_put_gaps s (dest : uba) (prevDest : Z) (src : list Z) : result (S * uba) :=
  match src with
  | [] => Ok (s, dest)
  | x :: src =>
      '(s, dest, _) ← uba_sputVl VlUint32 s dest (u32 (x - prevDest));
      de_put_gaps s dest x src
  end.

Definition de_create s (dest : uba) (src : list Z) : result (S * uba) :=
  let beginning := m_putPtr dest in
  '(s, dest) ← uba_sput Uint32 s dest 0;
  n ← narrow_u32 (zlen src);
  '(s, dest) ← uba_sput Uint32 s dest n;
  match src with
  | [] => Ok (s, dest)
  | [x] =>
      '(s, dest, _) ← uba_sputVl VlUint32 s dest x;
      n ← narrow_u32 (u64 (m_putPtr dest - u64 (beginning + 8)));
      s ← uba_put Uint32 s dest beginning n;
      mret (s, dest)
  | x :: src =>
      '(s, dest, _) ← uba_sputVl VlUint32 s dest x;
      '(s, dest) ← de_put_gaps s dest x src;
      n ← narrow_u32 (u64 (u64 (m_putPtr dest - beginning) - 8));
      s ← uba_put Uint32 s dest beginning n;
      mret (s, dest)
  end.

(** [ItemIndexPrivateDECreator]; its [m_data] is the adapter passed along. *)
Record dec := mkDec { c_beginning : Z; c_prev : Z; c_count : Z }.

Definition dec_new s (dest : uba) : result (S * uba * dec) :=
  let c := mkDec (m_putPtr dest) 0 0 in
  '(s, dest) ← uba_sput Uint32 s dest 0;
  '(s, dest) ← uba_sput Uint32 s dest 0;
  mret (s, dest, c).

Definition dec_push_back s (dest : uba) (c : dec) (id : Z) : result (S * uba * dec) :=
  '(s, dest, _) ← uba_sputVl VlUint32 s dest (u32 (id - c_prev c));
  mret (s, dest, mkDec (c_beginning c) id (u32 (c_count c + 1))).

Definition dec_flush s (dest : uba) (c : dec) : result (S * uba) :=
  s ← uba_put Uint32 s dest (c_beginning c) (u32 (u64 (m_putPtr dest - u64 (c_beginning c + 8))));
  s ← uba_put Uint32 s dest (u64 (c_beginning c + 4)) (c_count c);
  mret (s, dest).
End index.

Definition dec_flushWithData {S T : Type} `{Backend S} `{Backend T} (s : S) (dest : uba) (c : dec) (t : T) (src : uba)
    (itemcount : Z) : result (S * uba) :=
  '(s, dest) ← sputData_foreign s dest t src;
  dec_flush s dest (mkDec (c_beginning c) (c_prev c) (u32 (c_count c + itemcount))).

(** The adapter, what it is over and the state of a creator; its [push_back]. *)
Definition de_creator : Type := Vec.t * uba * dec.
Definition de_creator_push (w : de_creator) (id : Z) : result de_creator :=
  let '(v, dest, c) := w in dec_push_back v dest c id.
#[export] Instance de_IndexCreator : IndexCreator de_creator := de_creator_push.

(** * Set operations *)

Section generic.
Context {S T : Type} `{Backend S} `{Backend T}.
Implicit Types (s : S) (t : T).

(** One operand of the loop: its adapter, the position and the current id. *)
Record cursor := mkCursor { cu_data : uba; cu_it : Z; cu_id : Z }.

(** [++it; if (it < size) id += data.getVlPackedUint32();] *)
Definition cursor_next {U : Type} `{Backend U} (u : U) (size : Z) (c : cursor) : result cursor :=
  let it := u32 (cu_it c + 1) in
  if it <? size then
    '(d, v) ← uba_sgetVl VlUint32 u (cu_data c);
    mret (mkCursor d it (u32 (cu_id c + v)))
  else Ok (mkCursor (cu_data c) it (cu_id c)).

Fixpoint generic_loop (fuel : nat) (op : set_op) s t (aSize bSize : Z) (a b : cursor)
    (v : Vec.t) (dest : uba) (c : dec) : result (cursor * cursor * (Vec.t * uba * dec)) :=
  match fuel with
  | O => Err OutOfFuel
  | Datatypes.S fuel =>
      if (cu_it a <? aSize) && (cu_it b <? bSize) then
        if cu_id a =? cu_id b then
          '(v, dest, c) ← push_if (C := de_creator) (pushEqual op) (v, dest, c) (cu_id a);
          a ← cursor_next s aSize a;
          b ← cursor_next t bSize b;
          generic_loop fuel op s t aSize bSize a b v dest c
        else if cu_id a <? cu_id b then
          '(v, dest, c) ← push_if (C := de_creator) (pushFirstSmaller op) (v, dest, c) (cu_id a);
          a ← cursor_next s aSize a;
          generic_loop fuel op s t aSize bSize a b v dest c
        else
          '(v, dest, c) ← push_if (C := de_creator) (pushSecondSmaller op) (v, dest, c) (cu_id b);
          b ← cursor_next t bSize b;
          generic_loop fuel op s t aSize bSize a b v dest c
      else Ok (a, b, (v, dest, c))
  end.

(** [creator.push_back(id); ++it; data.shrinkToGetPtr(); creator.flushWithData(data, size - it)] *)
Definition push_remainder {U : Type} `{Backend U} (u : U) (size : Z) (a : cursor)
    (v : Vec.t) (dest : uba) (c : dec) : result (Vec.t * uba) :=
  '(v, dest, c) ← dec_push_back v dest c (cu_id a);
  let it := u32 (cu_it a + 1) in
  let remainderSize := u32 (size - it) in
  dec_flushWithData v dest c u (shrinkToGetPtr (cu_data a)) remainderSize.

(** [genericOp]: the data written and the index over it. *)
Definition genericOp (op : set_op) s (x : de) t (y : de) : result (Vec.t * de) :=
  let '(v, dest) := createCache 8 in
  '(v, dest, c) ← dec_new v dest;
  '(aData, aId) ← uba_sgetVl VlUint32 s (de_data x);
  '(bData, bId) ← uba_sgetVl VlUint32 t (de_data y);
  '(a, b, (v, dest, c)) ←
    generic_loop (Datatypes.S (Z.to_nat (de_count x) + Z.to_nat (de_count y))) op s t (de_count x) (de_count y)
      (mkCursor aData 0 aId) (mkCursor bData 0 bId) v dest c;
  '(v, dest) ←
    (if pushFirstRemainder op && (cu_it a <? de_count x) then push_remainder s (de_count x) a v dest c
     else if pushSecondRemainder op && (cu_it b <? de_count y) then push_remainder t (de_count y) b v dest c
     else dec_flush v dest c);
  d ← de_new v (uba_from dest (c_beginning c));
  mret (v, d).
End generic.

(** * From a bit set *)

Definition de_fromBitSet {S : Type} `{Backend S} (s : S) (bits : uba) : result (Vec.t * de) :=
  let '(v, dest) := createCache (m_len bits) in
  '(v, dest, c) ← dec_new v dest;
  myDataSize ← narrow_u32 (m_len bits);
  '(v, dest, c) ← from_bytes (C := de_creator) (Z.to_nat myDataSize) s bits 0 0 (v, dest, c);
  '(v, dest) ← dec_flush v dest c;
  d ← de_new v (uba_from dest (c_beginning c));
  mret (v, d).

(** * The coded form *)

Definition gap (prev x : Z) : list Z := item_bytes (IVl VlUint32 (u32 (x - prev))).

Fixpoint gap_bytes (prev : Z) (src : list Z) : list Z :=
  match src with [] => [] | x :: src => gap prev x ++ gap_bytes x src end.

Lemma gap_bytes_app prev a b : gap_bytes prev (a ++ b) = gap_bytes prev a ++ gap_bytes (lastd prev a) b.
Proof.
  revert prev. induction a as [|x a IH]; intros prev; cbn [gap_bytes app]; [done|].
  by rewrite IH, lastd_cons, app_assoc.
Qed.

Lemma gap_vl prev x : vl_ok VlUint32 (u32 (x - prev)).
Proof. cbn. apply wrap_fits. lia. Qed.

Lemma gap_facts prev x : 1 <= zlen (gap prev x) <= 5 /\ bytes_ok (gap prev x) /\
  vl_pack VlUint32 (u32 (x - prev)) 5 = Ok (zlen (gap prev x), gap prev x) /\
  forall rest, vl_unpack VlUint32 (gap prev x ++ rest) = Ok (u32 (x - prev), zlen (gap prev x)).
Proof.
  destruct (vl_pack_ok VlUint32 _ (gap_vl prev x)) as (bs & Hl & Hbo & Hpk & Hu & _).
  unfold gap, item_bytes. rewrite (Hpk _ (proj2 Hl)). split; [exact Hl|]. split; [done|]. split; [|done].
  apply Hpk. exact (proj2 Hl).
Qed.

Lemma gap_bytes_ok prev src : bytes_ok (gap_bytes prev src) /\ zlen src <= zlen (gap_bytes prev src) <= 5 * zlen src.
Proof.
  revert prev. induction src as [|x src IH]; intros prev; cbn [gap_bytes length]; [split; [constructor|cbn; lia]|].
  destruct (gap_facts prev x) as (Hl & Hb & _), (IH x) as [IH1 IH2]. rewrite length_app.
  split; [by apply Forall_app|lia].
Qed.

Lemma gap_sum prev x : fits 32 x -> u32 (prev + u32 (x - prev)) = x.
Proof. intros Hx. rewrite wrap_add_r by lia. replace (prev + (x - prev)) with x by lia. by apply wrap_small. Qed.

Section decode.
Context {S : Type} {B : Backend S} {BO : BackendOk S}.

(** Reading the next id. *)
Lemma read_gap (s : S) a pre prev x rest : reading s a pre (gap prev x ++ rest) ->
  exists a', uba_sgetVl VlUint32 s a = Ok (a', u32 (x - prev)) /\ reading s a' (pre ++ gap prev x) rest.
Proof using BO. apply read_vl, gap_vl. Qed.

Lemma put_loop_ok src (s : S) a pre prev rest : ids_ok src -> reading s a pre (gap_bytes prev src ++ rest) ->
  de_put_loop (length src) s a prev = Ok src.
Proof using BO.
  revert a pre prev. induction src as [|x src IH]; intros a pre prev Hok Hr; cbn [length de_put_loop gap_bytes] in *; [done|].
  apply Forall_cons in Hok as [Hx Hok]. rewrite <- app_assoc in Hr.
  destruct (read_gap s a pre prev x _ Hr) as (a' & -> & Hr'). rewrite bind_ok_l, gap_sum by done.
  by rewrite (IH a' _ x Hok Hr'), bind_ok_l.
Qed.

(** The index [d] holds the ids [src]. *)
Record holds (s : S) (d : de) (src : list Z) : Prop := {
  h_buf : buf s (de_data d) (gap_bytes 0 src);
  h_get : m_getPtr (de_data d) = 0;
  h_count : de_count d = zlen src;
  h_ids : ids_ok src;
  h_few : zlen src < 2 ^ 30;
  h_small : zlen (gap_bytes 0 src) < 2 ^ 32;
}.

(** Its first [k] ids are in the cache. *)
Record cached (d : de) (src : list Z) (k : nat) (cl : list Z) : Prop := {
  ca_le : (k <= length src)%nat;
  ca_off : de_cacheOffset d = Z.of_nat k;
  ca_data : de_dataOffset d = zlen (gap_bytes 0 (take k src));
  ca_cur : de_curId d = lastd 0 (take k src);
  ca_buf : buf (de_cache_mem d) (de_cache d) cl;
  ca_len : 4 * zlen src <= zlen cl;
  ca_ids i x : (i < k)%nat -> src !! i = Some x -> vread cl (4 * Z.of_nat i) 4 = Ok (le_bytes 4 x);
}.

Lemma decode_ok fuel (s : S) d src k cl pos : holds s d src -> cached d src k cl ->
  0 <= pos < zlen src -> Z.max 0 (pos - Z.of_nat k + 1) < Z.of_nat fuel ->
  exists d' k' cl', de_decode fuel s d pos = Ok d' /\ holds s d' src /\ cached d' src k' cl' /\ pos < Z.of_nat k'.
Proof using BO.
  revert d k cl. induction fuel as [|fuel IH]; intros d k cl Hh Hc Hp Hf; [lia|].
  cbn [de_decode]. pose proof Hc as [Hle Hoff Hda Hcu Hb Hl Hids]. rewrite Hoff.
  destruct (Z.leb_spec (Z.of_nat k) pos) as [Hkp|Hkp].
  2: { exists d, k, cl. split; [done|]. split; [done|]. split; [done|lia]. }
  destruct (lookup_lt_is_Some_2 src k) as [x Hx]; [lia|].
  pose proof (Forall_lookup_1 _ _ _ _ (h_ids _ _ _ Hh) Hx) as Hx32. cbn beta in Hx32.
  pose proof (take_S_r _ _ _ Hx) as Htk.
  destruct (gap_facts (lastd 0 (take k src)) x) as (Hgl & Hgb & _ & Hgu).
  assert (gap_bytes 0 src = gap_bytes 0 (take k src) ++ gap (lastd 0 (take k src)) x ++ gap_bytes x (drop (Datatypes.S k) src)) as Hsplit.
  { rewrite <- (take_drop_middle src k x Hx) at 1. by rewrite gap_bytes_app. }
  pose proof (h_buf _ _ _ Hh) as Hbd. rewrite Hsplit in Hbd.
  rewrite Hda, (buf_getVl_middle VlUint32 s (de_data d) _ _ _ (u32 (x - lastd 0 (take k src))) Hbd) by (cbn [vl_max_len]; done || lia).
  rewrite bind_ok_l, Hcu, gap_sum by done. pose proof (h_few _ _ _ Hh).
  rewrite (wrap_small 32 (Z.of_nat k * 4)) by (unfold fits; lia).
  destruct (buf_put Uint32 _ _ cl (Z.of_nat k * 4) x (le_bytes 4 x) Hb) as (mem & -> & Hb' & _);
    [lia|cbn [scalar_len]; lia|done|by rewrite length_le_bytes|apply le_bytes_ok|].
  rewrite bind_ok_l. pose proof (h_small _ _ _ Hh) as Hsm. rewrite Hsplit, !length_app in Hsm.
  rewrite (wrap_small 32 (zlen _ + _)) by (unfold fits; lia).
  rewrite (wrap_small 32 (Z.of_nat k + 1)) by (unfold fits; lia).
  eapply (IH _ (Datatypes.S k) (splice cl (Z.of_nat k * 4) (le_bytes 4 x))).
  - destruct Hh. by split.
  - split; cbn [de_cacheOffset de_dataOffset de_curId de_cache_mem de_cache]; [lia|lia| | |done| |].
    + rewrite Htk, gap_bytes_app, length_app. cbn [gap_bytes]. rewrite app_nil_r. lia.
    + rewrite Htk. unfold lastd. by rewrite last_snoc.
    + rewrite length_splice by (rewrite ?length_le_bytes; lia). lia.
    + intros i y Hi Hy.
      assert (vwrite cl (Z.of_nat k * 4) (le_bytes 4 x) = Ok (splice cl (Z.of_nat k * 4) (le_bytes 4 x))) as Hw.
      { apply vwrite_in; rewrite ?length_le_bytes; lia. }
      destruct (decide (i = k)) as [->|Hne].
      * assert (y = x) as -> by congruence. replace (4 * Z.of_nat k) with (Z.of_nat k * 4) by lia.
        by eapply vread_vwrite_same.
      * rewrite (vread_vwrite_other _ _ _ _ _ _ Hw) by (rewrite length_le_bytes; lia). apply Hids; [lia|done].
  - done.
  - lia.
Qed.
End decode.

Section reading_index.
Context {S : Type} {B : Backend S} {BO : BackendOk S}.

Lemma de_at_ok (s : S) d src k cl pos : holds s d src -> cached d src k cl -> 0 <= pos ->
  exists d' k' cl', de_at s d pos = Ok (d', default 0 (src !! Z.to_nat pos)) /\
    holds s d' src /\ cached d' src k' cl'.
Proof using BO.
  intros Hh Hc Hp. unfold de_at, de_size. pose proof (h_count _ _ _ Hh) as Hn. rewrite Hn.
  destruct (Z.eqb_spec (zlen src) 0); cbn [orb].
  { exists d, k, cl. rewrite lookup_ge_None_2 by lia. done. }
  destruct (Z.leb_spec (zlen src) pos); cbn [orb].
  { exists d, k, cl. rewrite lookup_ge_None_2 by lia. done. }
  pose proof (ca_le _ _ _ _ Hc).
  destruct (decode_ok (Datatypes.S (Z.to_nat (zlen src))) s d src k cl pos Hh Hc) as (d' & k' & cl' & -> & Hh' & Hc' & Hk);
    [lia|lia|].
  rewrite bind_ok_l. destruct (lookup_lt_is_Some_2 src (Z.to_nat pos)) as [x Hx]; [lia|].
  pose proof (Forall_lookup_1 _ _ _ _ (h_ids _ _ _ Hh) Hx) as Hx32. cbn beta in Hx32. pose proof (h_few _ _ _ Hh).
  rewrite (wrap_small 32) by (unfold fits; lia).
  pose proof (ca_ids _ _ _ _ Hc' (Z.to_nat pos) x ltac:(lia) Hx) as Hr.
  rewrite (get32_vread _ _ cl' (pos * 4) x (ca_buf _ _ _ _ Hc')); [|lia| |done].
  - rewrite bind_ok_l. exists d', k', cl'. rewrite Hx. done.
  - rewrite <- Hr. f_equal. lia.
Qed.

Lemma de_putInto_ok (s : S) d src : holds s d src -> de_putInto s d = Ok src.
Proof using BO.
  intros Hh. unfold de_putInto, de_size. rewrite (h_count _ _ _ Hh), Nat2Z.id.
  apply (put_loop_ok src s (de_data d) [] 0 []); [by destruct Hh|]. cbn [app]. rewrite app_nil_r.
  split; [by destruct Hh|by destruct Hh].
Qed.

(** The bytes of an index. *)
Definition de_bytes (src : list Z) : list Z :=
  le_bytes 4 (zlen (gap_bytes 0 src)) ++ le_bytes 4 (zlen src) ++ gap_bytes 0 src.

Lemma de_new_ok (s : S) data src rest : buf s data (de_bytes src ++ rest) -> ids_ok src ->
  zlen src < 2 ^ 30 -> zlen (gap_bytes 0 src) < 2 ^ 32 ->
  exists d cl, de_new s data = Ok d /\ holds s d src /\ cached d src 0 cl.
Proof using BO.
  intros Hb Hok Hn Hg. unfold de_bytes in Hb. rewrite <- !app_assoc in Hb.
  pose proof (buf_fits _ _ _ Hb) as Hf. pose proof (buf_len _ _ _ Hb) as Hlen.
  rewrite !length_app, !length_le_bytes in Hf, Hlen.
  assert (vread (le_bytes 4 (zlen (gap_bytes 0 src)) ++ le_bytes 4 (zlen src) ++ gap_bytes 0 src ++ rest) 4 4
    = Ok (le_bytes 4 (zlen src))) as H4.
  { by apply (vread_middle (le_bytes 4 (zlen (gap_bytes 0 src)))). }
  unfold de_new.
  rewrite (get32_vread s data _ 0 (zlen (gap_bytes 0 src)) Hb);
    [|lia|by apply (vread_middle [] (le_bytes 4 (zlen (gap_bytes 0 src))))|unfold fits; lia].
  rewrite bind_ok_l, (get32_vread s data _ 4 (zlen src) Hb); [|lia|exact H4|unfold fits; lia].
  rewrite bind_ok_l, (wrap_small 32) by (unfold fits; lia).
  destruct (createCache_ok (zlen src * 4)) as (mem & cache & -> & Hc); [lia|lia|].
  pose proof (proj2 (gap_bytes_ok 0 src)) as Hgl.
  assert (m_len (uba_from_len data 8 (zlen (gap_bytes 0 src))) = zlen (gap_bytes 0 src)) as Hml.
  { unfold uba_from_len. cbn [m_len]. rewrite (proj2 (Z.ltb_ge (m_len data) 8)) by lia. case_match; lia. }
  rewrite Hml. rewrite (proj2 (Z.ltb_ge _ _)) by lia.
  exists (mkDe (uba_from_len data 8 (zlen (gap_bytes 0 src))) (zlen src) 0 0 mem cache 0), (replicate (Z.to_nat (Z.max 1 (zlen src * 4))) 0).
  split; [done|]. split.
  - split; try done; cbn [de_data].
    + pose proof Hb as [Hwf Hv]. pose proof Hwf as [].
      destruct (sub_window (bk_data s) data Hwf 8 (zlen (gap_bytes 0 src)) (uba_from_len data 8 (zlen (gap_bytes 0 src))))
        as [Hwf' Hv']; [lia|lia|lia| |done| | |].
      * unfold uba_from_len. cbn [m_offSet]. rewrite (proj2 (Z.ltb_ge (m_len data) 8)) by lia.
        apply wrap_small. unfold fits in *. lia.
      * unfold uba_from_len. cbn [m_getPtr]. rewrite (proj2 (Z.ltb_ge (m_len data) 8)) by lia. unfold fits; cbn; lia.
      * unfold uba_from_len. cbn [m_putPtr]. rewrite (proj2 (Z.ltb_ge (m_len data) 8)) by lia. unfold fits; cbn; lia.
      * split; [done|]. rewrite Hv', Hv, app_assoc, Nat2Z.id.
        rewrite drop_app_length' by (by rewrite length_app, !length_le_bytes). by rewrite take_app_length.
    + unfold uba_from_len. cbn [m_getPtr]. by rewrite (proj2 (Z.ltb_ge (m_len data) 8)) by lia.
  - split; cbn [de_cacheOffset de_dataOffset de_curId de_cache_mem de_cache]; try done; try lia.
    rewrite length_replicate. lia.
Qed.
End reading_index.

(** * Creating an index *)

Fixpoint gap_items (prev : Z) (src : list Z) : list item :=
  match src with [] => [] | x :: src => IVl VlUint32 (u32 (x - prev)) :: gap_items x src end.

Lemma gap_items_bytes prev src : concat (map item_bytes (gap_items prev src)) = gap_bytes prev src.
Proof. revert prev. induction src as [|x src IH]; intros prev; cbn [gap_items map concat gap_bytes]; [done|]. by rewrite IH. Qed.

Lemma gap_items_ok prev src : Forall item_ok (gap_items prev src).
Proof. revert prev. induction src as [|x src IH]; intros prev; cbn [gap_items]; constructor; [apply gap_vl|apply IH]. Qed.

Section create.
Context {S : Type} {B : Backend S} {BO : BackendOk S}.

Lemma put_gaps_exec src (s : S) dest prev : de_put_gaps s dest prev src = put_items s dest (gap_items prev src).
Proof using.
  revert s dest prev. induction src as [|x src IH]; intros s dest prev; cbn [de_put_gaps gap_items put_items put_item]; [done|].
  destruct (uba_sputVl VlUint32 s dest _) as [[[s1 d1] ?]|]; [|done]. rewrite !bind_ok_l. apply IH.
Qed.

(** The two numbers of the header and the gaps, before the length is patched in. *)
Definition raw_items (src : list Z) : list item :=
  IScalar Uint32 0 :: IScalar Uint32 (zlen src) :: gap_items 0 src.

Lemma create_exec (s : S) dest src : ids_ok src -> zlen src < 2 ^ 30 ->
  de_create s dest src =
    ('(s, dest') ← put_items s dest (raw_items src);
     match src with
     | [] => Ok (s, dest')
     | [_] => n ← narrow_u32 (u64 (m_putPtr dest' - u64 (m_putPtr dest + 8)));
         s ← uba_put Uint32 s dest' (m_putPtr dest) n; mret (s, dest')
     | _ => n ← narrow_u32 (u64 (u64 (m_putPtr dest' - m_putPtr dest) - 8));
         s ← uba_put Uint32 s dest' (m_putPtr dest) n; mret (s, dest')
     end).
Proof using.
  intros Hok Hn. unfold de_create, raw_items. cbn [put_items put_item].
  destruct (uba_sput Uint32 s dest 0) as [[s1 d1]|]; [|done]. rewrite !bind_ok_l.
  rewrite narrow_u32_ok by (unfold fits; lia). rewrite bind_ok_l.
  destruct (uba_sput Uint32 s1 d1 (zlen src)) as [[s2 d2]|]; [|by destruct src as [|? [|? ?]]]. rewrite !bind_ok_l.
  destruct src as [|x src]; cbn [gap_items put_items put_item]; [by rewrite bind_ok_l|].
  apply Forall_cons in Hok as [Hx Hok]. rewrite (Z.sub_0_r x), (wrap_small 32 x Hx).
  destruct src as [|y src].
  - cbn [gap_items put_items]. destruct (uba_sputVl VlUint32 s2 d2 x) as [[[s3 d3] ?]|]; [|done].
    by rewrite !bind_ok_l.
  - destruct (uba_sputVl VlUint32 s2 d2 x) as [[[s3 d3] ?]|]; [|done]. rewrite !bind_ok_l. by rewrite put_gaps_exec.
Qed.

Lemma raw_items_encode src : zlen src < 2 ^ 30 ->
  Forall2 encodes (raw_items src) (map item_bytes (raw_items src)) /\
  concat (map item_bytes (raw_items src)) = le_bytes 4 0 ++ le_bytes 4 (zlen src) ++ gap_bytes 0 src.
Proof using BO.
  intros Hn. split.
  - apply items_encode. unfold raw_items. constructor; [cbn; unfold fits; lia|].
    constructor; [cbn; unfold fits; lia|]. apply gap_items_ok.
  - unfold raw_items. cbn [map concat]. by rewrite gap_items_bytes.
Qed.

Lemma create_ok (s : S) dest l src : buf s dest l -> 0 <= m_putPtr dest <= zlen l -> ids_ok src ->
  zlen src < 2 ^ 30 -> zlen (gap_bytes 0 src) < 2 ^ 32 ->
  m_offSet dest + m_putPtr dest + zlen (de_bytes src) < 2 ^ 64 ->
  exists s' dest', de_create s dest src = Ok (s', dest') /\
    buf s' dest' (splice l (m_putPtr dest) (de_bytes src)) /\
    m_putPtr dest' = m_putPtr dest + zlen (de_bytes src) /\ m_offSet dest' = m_offSet dest.
Proof using BO.
  intros Hb Hp Hok Hn Hg Hf. rewrite create_exec by done.
  destruct (raw_items_encode src Hn) as [Henc Hraw]. unfold de_bytes in *.
  assert (zlen (concat (map item_bytes (raw_items src))) = 8 + zlen (gap_bytes 0 src)) as Hrl.
  { rewrite Hraw, !length_app, !length_le_bytes. lia. }
  rewrite !length_app, !length_le_bytes in Hf. pose proof (buf_fits _ _ _ Hb).
  destruct (put_items_ok _ _ Henc s dest l Hb Hp) as (s1 & d1 & -> & [Hb1 Ho1 Hg1 Hp1]); [lia|].
  rewrite bind_ok_l. rewrite Hraw in Hb1, Hp1. rewrite <- Hraw in Hp1.
  destruct src as [|x src].
  { exists s1, d1. split; [done|]. split; [exact Hb1|]. split; [|done]. rewrite Hp1, Hraw. done. }
  set (gb := gap_bytes 0 (x :: src)) in *.
  assert (m_putPtr d1 = m_putPtr dest + 8 + zlen gb) as Hp2 by lia.
  assert (exists s', uba_put Uint32 s1 d1 (m_putPtr dest) (zlen gb) = Ok s' /\
    buf s' d1 (splice l (m_putPtr dest) (le_bytes 4 (zlen gb) ++ le_bytes 4 (zlen (x :: src)) ++ gb))) as (s' & Hput & Hb').
  { edestruct (buf_put Uint32 s1 d1 _ (m_putPtr dest) (zlen gb) (le_bytes 4 (zlen gb)) Hb1) as (s' & Hput & Hb' & _);
      [lia| |done|by rewrite length_le_bytes|apply le_bytes_ok|].
    - unfold splice. rewrite !length_app, length_take, length_drop, !length_le_bytes. cbn [scalar_len]. lia.
    - exists s'. split; [done|]. by rewrite splice_over in Hb'. }
  exists s', d1. rewrite !length_app, !length_le_bytes. split; [|split; [done|split; [lia|done]]].
  assert (u64 (m_putPtr d1 - u64 (m_putPtr dest + 8)) = zlen gb) as ->.
  { rewrite !wrap_small by (rewrite ?wrap_small; unfold fits; lia). lia. }
  assert (u64 (u64 (m_putPtr d1 - m_putPtr dest) - 8) = zlen gb) as ->.
  { rewrite (wrap_small 64 (_ - m_putPtr dest)), wrap_small by (unfold fits; lia). lia. }
  rewrite narrow_u32_ok by (unfold fits; lia). rewrite bind_ok_l, Hput. by destruct src.
Qed.
End create.

Fixpoint de_ats {S : Type} `{Backend S} (s : S) (d : de) (ps : list Z) : result (list Z) :=
  match ps with
  | [] => Ok []
  | p :: ps => '(d, v) ← de_at s d p; r ← de_ats s d ps; mret (v :: r)
  end.

Lemma de_ats_ok {S : Type} {B : Backend S} {BO : BackendOk S} ps (s : S) d src k cl :
  holds s d src -> cached d src k cl -> Forall (fun p => 0 <= p) ps ->
  de_ats s d ps = Ok (map (fun p => default 0 (src !! Z.to_nat p)) ps).
Proof.
  intros Hh Hc Hps. revert d k cl Hh Hc. induction Hps as [|p ps Hp _ IH]; intros d k cl Hh Hc; cbn [de_ats map]; [done|].
  destruct (de_at_ok s d src k cl p Hh Hc Hp) as (d' & k' & cl' & -> & Hh' & Hc'). rewrite bind_ok_l.
  by rewrite (IH d' k' cl' Hh' Hc'), bind_ok_l.
Qed.

(** Round trip of a delta-coded index: creating one at the put position from a list
    of fewer than 2^30 32-bit ids whose gaps take less than 2^32 bytes writes its bytes
    there; opening it gives an index of that size from which [putInto] returns the list
    and any sequence of lookups with [at], in any order, returns the ids at the
    positions asked for, 0 behind the end. *)
Theorem de_roundtrip {S : Type} {B : Backend S} {BO : BackendOk S} (s : S) dest l src ps :
  buf s dest l -> 0 <= m_putPtr dest <= zlen l -> ids_ok src -> zlen src < 2 ^ 30 ->
  zlen (gap_bytes 0 src) < 2 ^ 32 -> m_offSet dest + m_putPtr dest + zlen (de_bytes src) < 2 ^ 64 ->
  Forall (fun p => 0 <= p) ps ->
  exists s' dest' d, de_create s dest src = Ok (s', dest') /\
    buf s' dest' (splice l (m_putPtr dest) (de_bytes src)) /\
    de_new s' (uba_from dest' (m_putPtr dest)) = Ok d /\ de_size d = zlen src /\
    de_getSizeInBytes d = zlen (de_bytes src) /\
    de_putInto s' d = Ok src /\ de_ats s' d ps = Ok (map (fun p => default 0 (src !! Z.to_nat p)) ps).
Proof.
  intros Hb Hp Hok Hn Hg Hf Hps.
  destruct (create_ok s dest l src Hb Hp Hok Hn Hg Hf) as (s' & dest' & Hcr & Hb' & Hp' & _).
  assert (zlen (splice l (m_putPtr dest) (de_bytes src)) = Z.max (zlen l) (m_putPtr dest + zlen (de_bytes src))) as Hsl.
  { unfold splice. rewrite !length_app, length_take, length_drop. lia. }
  pose proof (uba_from_ok s' dest' _ Hb' (m_putPtr dest) ltac:(lia)) as Hfrom. rewrite drop_splice in Hfrom by done.
  destruct (de_new_ok s' _ src _ Hfrom Hok Hn Hg) as (d & cl & Hnew & Hh & Hc).
  exists s', dest', d. split; [done|]. split; [done|]. split; [done|].
  split; [by destruct Hh|]. split; [|split; [by apply de_putInto_ok|by eapply de_ats_ok]].
  unfold de_getSizeInBytes. rewrite (buf_len _ _ _ (h_buf _ _ _ Hh)), wrap_small by (unfold fits; lia).
  unfold de_bytes. rewrite !length_app, !length_le_bytes. lia.
Qed.

Lemma de_roundtrip_witness :
  exists s' dest' d, de_create (Vec.mk [1]) (mkUba 0 1 0 1) [3; 7; 300] = Ok (s', dest') /\
    de_new s' (uba_from dest' 1) = Ok d /\ de_ats s' d [2; 0; 5] = Ok [300; 3; 0].
Proof.
  destruct (de_roundtrip (Vec.mk [1]) (mkUba 0 1 0 1) [1] [3; 7; 300] [2; 0; 5])
    as (s' & dest' & d & H1 & _ & H2 & _ & _ & _ & H3).
  - split; [uba_wf_tac|reflexivity].
  - cbn. lia.
  - repeat constructor; unfold fits; lia.
  - cbn. lia.
  - reflexivity.
  - reflexivity.
  - repeat constructor; lia.
  - exists s', dest', d. split; [exact H1|]. split; [exact H2|exact H3].
Defined.

(** * The set operations on the coded form *)

(** The cursor stands at the first of the ids [rest]. *)
Definition cur_ok {U : Type} {BU : Backend U} {BOU : BackendOk U} (u : U) (size : Z) (c : cursor) (rest : list Z) : Prop :=
  cu_it c = size - zlen rest /\ zlen rest <= size < 2 ^ 30 /\ ids_ok rest /\
  match rest with
  | [] => True
  | x :: rest => cu_id c = x /\ exists pre, reading u (cu_data c) pre (gap_bytes x rest)
  end.

(** The creator has written the ids [out]; the header is still zero.  Behind the put
    position is what is left of the bytes the storage was created with. *)
Record cr_ok (v : Vec.t) (dest : uba) (c : dec) (out : list Z) : Prop := {
  cr_buf : exists tail, buf v dest ((replicate 8 0 ++ gap_bytes 0 out) ++ tail);
  cr_off : m_offSet dest = 0;
  cr_put : m_putPtr dest = 8 + zlen (gap_bytes 0 out);
  cr_beg : c_beginning c = 0;
  cr_prev : c_prev c = lastd 0 out;
  cr_cnt : c_count c = zlen out;
}.

Lemma cursor_next_ok {U : Type} {BU : Backend U} {BOU : BackendOk U} (u : U) size c x rest :
  cur_ok u size c (x :: rest) -> exists c', cursor_next u size c = Ok c' /\ cur_ok u size c' rest.
Proof.
  intros (Hit & Hsz & Hok & Hid & pre & Hr). cbn [length] in *. unfold cursor_next.
  apply Forall_cons in Hok as [_ Hok].
  rewrite Hit, (wrap_small 32) by (unfold fits; lia).
  destruct rest as [|y rest].
  - rewrite (proj2 (Z.ltb_ge _ _)) by (cbn [length]; lia). eexists. split; [done|]. split; [cbn in *; lia|]. split; [cbn in *; lia|done].
  - rewrite (proj2 (Z.ltb_lt _ _)) by (cbn [length]; lia). cbn [gap_bytes] in Hr.
    destruct (read_gap u (cu_data c) pre x y _ Hr) as (d & -> & Hr'). rewrite bind_ok_l.
    eexists. split; [done|]. pose proof (Forall_inv Hok) as Hy.
    split; [cbn [cu_it length] in *; lia|]. split; [cbn [length] in *; lia|]. split; [done|].
    cbn [cu_id cu_data]. rewrite Hid. split; [by apply gap_sum|]. by eexists.
Qed.

Lemma dec_new_ok n : 0 <= n < 2 ^ 63 ->
  exists v dest c, (let '(v, dest) := createCache n in dec_new v dest) = Ok (v, dest, c) /\ cr_ok v dest c [].
Proof.
  intros Hn. destruct (createCache_ok n) as (v & dest & Hcc & Hb); [lia|lia|].
  assert (m_offSet dest = 0 /\ m_putPtr dest = 0) as [Ho Hp] by (by unfold createCache in Hcc; injection Hcc as <- <-).
  rewrite Hcc. set (m := Z.to_nat (Z.max 1 n)) in *. unfold dec_new.
  destruct (sput_ok v dest _ Hb) with (ty := Uint32) (v := 0) (bs := replicate 4 0)
    as (v1 & d1 & -> & [Hb1 Ho1 Hg1 Hp1]); [lia|done|done|apply (le_bytes_ok 4 0)|cbn [length replicate]; lia|].
  rewrite bind_ok_l.
  destruct (sput_ok v1 d1 _ Hb1) with (ty := Uint32) (v := 0) (bs := replicate 4 0)
    as (v2 & d2 & -> & [Hb2 Ho2 Hg2 Hp2]); [unfold splice; rewrite !length_app, length_take; cbn [length replicate] in *; lia
      |done|done|apply (le_bytes_ok 4 0)|cbn [length replicate] in *; lia|].
  rewrite bind_ok_l. eexists _, _, _. split; [done|]. rewrite Hp1, Hp in Hb2.
  rewrite splice_splice in Hb2 by lia.
  cbn [length replicate] in *. split; try done; cbn [c_beginning c_prev c_count gap_bytes length]; [|lia|lia].
  eexists. exact Hb2.
Qed.

Lemma dec_push_back_ok v dest c out id : cr_ok v dest c out -> fits 32 id -> zlen out + 1 < 2 ^ 32 ->
  exists v' dest' c', dec_push_back v dest c id = Ok (v', dest', c') /\ cr_ok v' dest' c' (out ++ [id]).
Proof.
  intros [[tail Hb] Ho Hp Hbg Hpr Hc] Hid Hn. unfold dec_push_back. rewrite Hpr.
  destruct (gap_facts (lastd 0 out) id) as (Hgl & Hgb & Hpk & _).
  pose proof (proj2 (gap_bytes_ok 0 out)) as Hl.
  destruct (sputVl_ok v dest _ Hb) with (ty := VlUint32) (v := u32 (id - lastd 0 out)) (bs := gap (lastd 0 out) id)
    as (v' & dest' & -> & [Hb' Ho' Hg' Hp']); [|exact Hpk|done|lia|].
  { rewrite Hp, !length_app, length_replicate. lia. }
  rewrite bind_ok_l. eexists v', dest', _. split; [done|].
  assert (m_putPtr dest = zlen (replicate 8 0 ++ gap_bytes 0 out)) as Hend.
  { rewrite Hp, length_app, length_replicate. lia. }
  rewrite Hend, splice_end, app_assoc in Hb'.
  assert (gap_bytes 0 (out ++ [id]) = gap_bytes 0 out ++ gap (lastd 0 out) id) as Hgap.
  { rewrite gap_bytes_app. cbn [gap_bytes]. by rewrite app_nil_r. }
  split; cbn [c_beginning c_prev c_count]; try done.
  - eexists. rewrite Hgap. rewrite <- (app_assoc (replicate 8 0)) in Hb'. exact Hb'.
  - by rewrite Ho'.
  - rewrite Hp', Hgap, length_app. lia.
  - unfold lastd. by rewrite last_snoc.
  - rewrite Hc, length_app, wrap_small by (unfold fits; lia). cbn. lia.
Qed.

Lemma dec_push_if_ok (k : bool) v dest c out id : cr_ok v dest c out -> fits 32 id -> zlen out + 1 < 2 ^ 32 ->
  exists v' dest' c', push_if (C := de_creator) k (v, dest, c) id = Ok (v', dest', c') /\
    cr_ok v' dest' c' (out ++ if k then [id] else []).
Proof.
  intros Hc Hid Hn. destruct k; cbn [push_if]; [by apply dec_push_back_ok|].
  exists v, dest, c. by rewrite app_nil_r.
Qed.

Definition de_cr_rep (w : de_creator) (out : list Z) : Prop := let '(v, dest, c) := w in cr_ok v dest c out.

#[export] Program Instance de_IndexCreatorOk : IndexCreatorOk de_creator := {| cr_rep := de_cr_rep; cr_lim := 2 ^ 32; cr_cap := 2 ^ 32 - 1 |}.
Next Obligation. done. Qed.
Next Obligation.
  intros [[v dest] c] out id Hc _ Hid Hn. destruct (dec_push_back_ok v dest c out id Hc Hid ltac:(lia)) as (v' & d' & c' & ? & ?).
  by exists (v', d', c').
Qed.

Section operate.
Context {S : Type} {BS : Backend S} {BOS : BackendOk S}.
Context {T : Type} {BT : Backend T} {BOT : BackendOk T}.
Context (op : set_op) (s : S) (t : T) (aSize bSize : Z).

Lemma cur_it_lt {U : Type} {BU : Backend U} {BOU : BackendOk U} (u : U) size c rest : cur_ok u size c rest ->
  (cu_it c <? size) = bool_decide (rest <> []).
Proof using.
  intros (-> & Hs & _). destruct rest; cbn [length].
  - rewrite bool_decide_false by naive_solver. apply Z.ltb_ge. cbn. lia.
  - rewrite bool_decide_true by done. apply Z.ltb_lt. lia.
Qed.

Lemma generic_loop_ok fuel a b ra rb v dest c out :
  cur_ok s aSize a ra -> cur_ok t bSize b rb -> cr_ok v dest c out ->
  (length ra + length rb < fuel)%nat -> zlen out + zlen ra + zlen rb < 2 ^ 32 ->
  exists a' b' v' dest' c' ra' rb' out',
    generic_loop fuel op s t aSize bSize a b v dest c = Ok (a', b', (v', dest', c')) /\
    cur_ok s aSize a' ra' /\ cur_ok t bSize b' rb' /\ cr_ok v' dest' c' out' /\
    (ra' = [] \/ rb' = []) /\ out ++ merge op ra rb = out' ++ merge op ra' rb' /\
    zlen out' + zlen ra' + zlen rb' <= zlen out + zlen ra + zlen rb.
Proof using BOS BOT.
  revert a b ra rb v dest c out. induction fuel as [|fuel IH]; intros a b ra rb v dest c out Ha Hb Hc Hf Hn; [lia|].
  cbn [generic_loop]. rewrite (cur_it_lt s aSize a ra Ha), (cur_it_lt t bSize b rb Hb).
  destruct ra as [|x ra].
  { rewrite bool_decide_false by naive_solver. cbn [andb]. exists a, b, v, dest, c, [], rb, out. do 4 (split; [done|]). split; [by left|]. split; [done|lia]. }
  destruct rb as [|y rb].
  { rewrite (bool_decide_false ([] <> [])), andb_false_r by naive_solver.
    exists a, b, v, dest, c, (x :: ra), [], out. do 4 (split; [done|]). split; [by right|]. split; [done|lia]. }
  rewrite !bool_decide_true by done. cbn [andb].
  pose proof Ha as (_ & _ & Hoka & Hida & _). pose proof Hb as (_ & _ & Hokb & Hidb & _).
  apply Forall_cons in Hoka as [Hx _]. apply Forall_cons in Hokb as [Hy _]. rewrite Hida, Hidb.
  destruct (cursor_next_ok s aSize a x ra Ha) as (a1 & Hna & Ha1).
  destruct (cursor_next_ok t bSize b y rb Hb) as (b1 & Hnb & Hb1).
  cbn [length] in Hf, Hn. rewrite merge_cons.
  destruct (Z.eqb_spec x y) as [<-|Hne]; [|destruct (Z.ltb_spec x y)].
  - destruct (dec_push_if_ok (pushEqual op) v dest c out x Hc Hx) as (v1 & d1 & c1 & -> & Hc1); [lia|].
    rewrite bind_ok_l, Hna, bind_ok_l, Hnb, bind_ok_l.
    destruct (IH a1 b1 ra rb v1 d1 c1 _ Ha1 Hb1 Hc1) as (a' & b' & v' & d' & c' & ra' & rb' & out' & Hr & H1 & H2 & H3 & H4 & H5 & H6);
      [lia|rewrite length_app; destruct (pushEqual op); cbn [length]; lia|].
    exists a', b', v', d', c', ra', rb', out'. rewrite <- app_assoc in H5. do 6 (split; [done|]).
    etrans; [exact H6|]. rewrite length_app. destruct (pushEqual op); cbn [length]; lia.
  - destruct (dec_push_if_ok (pushFirstSmaller op) v dest c out x Hc Hx) as (v1 & d1 & c1 & -> & Hc1); [lia|].
    rewrite bind_ok_l, Hna, bind_ok_l.
    destruct (IH a1 b ra (y :: rb) v1 d1 c1 _ Ha1 Hb Hc1) as (a' & b' & v' & d' & c' & ra' & rb' & out' & Hr & H1 & H2 & H3 & H4 & H5 & H6);
      [cbn [length]; lia|rewrite length_app; destruct (pushFirstSmaller op); cbn [length]; lia|].
    exists a', b', v', d', c', ra', rb', out'. rewrite <- app_assoc in H5. do 6 (split; [done|]).
    etrans; [exact H6|]. rewrite length_app. destruct (pushFirstSmaller op); cbn [length]; lia.
  - destruct (dec_push_if_ok (pushSecondSmaller op) v dest c out y Hc Hy) as (v1 & d1 & c1 & -> & Hc1); [lia|].
    rewrite bind_ok_l, Hnb, bind_ok_l.
    destruct (IH a b1 (x :: ra) rb v1 d1 c1 _ Ha Hb1 Hc1) as (a' & b' & v' & d' & c' & ra' & rb' & out' & Hr & H1 & H2 & H3 & H4 & H5 & H6);
      [cbn [length]; lia|rewrite length_app; destruct (pushSecondSmaller op); cbn [length]; lia|].
    exists a', b', v', d', c', ra', rb', out'. rewrite <- app_assoc in H5. do 6 (split; [done|]).
    etrans; [exact H6|]. rewrite length_app. destruct (pushSecondSmaller op); cbn [length]; lia.
Qed.
End operate.

Section finish.
Context {T : Type} {BT : Backend T} {BOT : BackendOk T}.
Implicit Types (v : Vec.t) (t : T).

Lemma dec_flush_ok v dest c n r : buf v dest (replicate 8 0 ++ r) ->
  m_putPtr dest = 8 + n -> c_beginning c = 0 -> fits 32 (c_count c) -> fits 32 n ->
  exists v', dec_flush v dest c = Ok (v', dest) /\ buf v' dest (le_bytes 4 n ++ le_bytes 4 (c_count c) ++ r).
Proof using.
  intros Hb Hp Hbg Hc Hl. unfold fits in Hl. unfold dec_flush. rewrite Hbg, Hp.
  assert (u64 (8 + n - u64 (0 + 8)) = n) as ->.
  { rewrite (wrap_small 64 (0 + 8)), wrap_small by (unfold fits; lia). lia. }
  rewrite (wrap_small 32 n), (wrap_small 64 (0 + 4)) by (unfold fits; lia).
  destruct (buf_put Uint32 v dest _ 0 n (le_bytes 4 n) Hb) as (v1 & -> & H1 & _);
    [lia|rewrite length_app; cbn [scalar_len length replicate]; lia|done|by rewrite length_le_bytes|apply le_bytes_ok|].
  rewrite bind_ok_l.
  assert (splice (replicate 8 0 ++ r) 0 (le_bytes 4 n) = le_bytes 4 n ++ replicate 4 0 ++ r) as Hs1.
  { unfold splice. rewrite length_le_bytes. reflexivity. }
  rewrite Hs1 in H1.
  destruct (buf_put Uint32 v1 dest _ (0 + 4) (c_count c) (le_bytes 4 (c_count c)) H1) as (v2 & -> & H2 & _);
    [lia|rewrite !length_app, length_le_bytes; cbn [scalar_len length replicate]; lia|done|by rewrite length_le_bytes|apply le_bytes_ok|].
  rewrite bind_ok_l. exists v2. split; [done|]. change (0 + 4) with 4 in H2.
  assert (zlen (le_bytes 4 n) = 4) as H4 by (by rewrite length_le_bytes). rewrite <- H4, splice_end in H2 at 1.
  rewrite length_le_bytes in H2. exact H2.
Qed.

(** Flushing gives the bytes of an index, in front of what is left of the storage. *)
Lemma dec_close_ok v dest c out r : buf v dest (replicate 8 0 ++ gap_bytes 0 out ++ r) ->
  m_putPtr dest = 8 + zlen (gap_bytes 0 out) -> c_beginning c = 0 -> c_count c = zlen out -> zlen out < 2 ^ 29 ->
  exists v' tail, dec_flush v dest c = Ok (v', dest) /\ buf v' dest (de_bytes out ++ tail).
Proof using.
  intros Hb Hp Hbg Hc Hn. pose proof (proj2 (gap_bytes_ok 0 out)).
  destruct (dec_flush_ok v dest c _ _ Hb Hp Hbg) as (v' & Hfl & H'); [rewrite Hc; unfold fits; lia|unfold fits; lia|].
  exists v', r. split; [done|]. unfold de_bytes. rewrite <- !app_assoc. by rewrite <- Hc.
Qed.

Lemma push_remainder_ok t size a x rest v dest c out :
  cur_ok t size a (x :: rest) -> cr_ok v dest c out -> zlen out + zlen (x :: rest) < 2 ^ 29 ->
  exists v' dest' tail, push_remainder t size a v dest c = Ok (v', dest') /\
    buf v' dest' (de_bytes (out ++ x :: rest) ++ tail).
Proof using.
  intros Ha Hc Hn. cbn [length] in Hn. unfold push_remainder, dec_flushWithData. destruct Ha as (Hit & Hsz & Hok & Hid & pre & Hr).
  pose proof (Forall_inv Hok) as Hx. rewrite Hid, Hit. cbn [length] in *.
  destruct (dec_push_back_ok v dest c out x Hc Hx) as (v1 & d1 & c1 & -> & [[tail Hb] Ho Hp Hbg _ Hcnt]); [lia|].
  rewrite bind_ok_l. apply reading_shrink in Hr.
  pose proof (proj2 (gap_bytes_ok 0 (out ++ x :: rest))) as Hl. rewrite length_app in Hl. cbn [length] in Hl.
  assert (gap_bytes 0 (out ++ x :: rest) = gap_bytes 0 (out ++ [x]) ++ gap_bytes x rest) as Hg.
  { rewrite (app_assoc out [x] rest : out ++ x :: rest = _), gap_bytes_app. unfold lastd. by rewrite last_snoc. }
  rewrite Hg, length_app in Hl.
  destruct (sputData_foreign_ok v1 d1 _ t (shrinkToGetPtr (cu_data a)) (gap_bytes x rest) Hb) as (v2 & d2 & -> & [H2 Ho2 _ Hp2]);
    [rewrite !length_app, length_replicate; lia|done|lia|].
  rewrite bind_ok_l. rewrite Hp in H2. replace (8 + zlen (gap_bytes 0 (out ++ [x])))
    with (zlen (replicate 8 0 ++ gap_bytes 0 (out ++ [x]))) in H2 by (rewrite length_app, length_replicate; lia).
  rewrite splice_end, <- (app_assoc (replicate 8 0)), (app_assoc (gap_bytes 0 (out ++ [x]))), <- Hg in H2.
  rewrite length_app in Hcnt. cbn [length] in Hcnt.
  assert (u32 (c_count c1 + u32 (size - u32 (size - Z.of_nat (Datatypes.S (length rest)) + 1))) = zlen (out ++ x :: rest)) as ->.
  { rewrite length_app. cbn [length]. rewrite (wrap_small 32 (size - _ + 1)) by (unfold fits; lia).
    rewrite (wrap_small 32 (size - _)), wrap_small by (unfold fits; lia). lia. }
  destruct (dec_close_ok v2 d2 (mkDec (c_beginning c1) (c_prev c1) (zlen (out ++ x :: rest))) (out ++ x :: rest) _ H2)
    as (v3 & tail' & -> & H3); try done.
  - rewrite Hp2, Hp, Hg, length_app. lia.
  - rewrite length_app. cbn [length]. lia.
  - by exists v3, d2, tail'.
Qed.
End finish.

(** An index in use: the ids it holds and some of them in the cache. *)
Definition usable {S : Type} {B : Backend S} {BO : BackendOk S} (s : S) (d : de) (src : list Z) : Prop :=
  holds s d src /\ exists k cl, cached d src k cl.

Lemma usable_at {S : Type} {B : Backend S} {BO : BackendOk S} (s : S) d src pos : usable s d src -> 0 <= pos ->
  exists d', de_at s d pos = Ok (d', default 0 (src !! Z.to_nat pos)) /\ usable s d' src.
Proof.
  intros (Hh & k & cl & Hc) Hp. destruct (de_at_ok s d src k cl pos Hh Hc Hp) as (d' & k' & cl' & -> & Hh' & Hc').
  exists d'. split; [done|]. split; [done|]. by exists k', cl'.
Qed.

(** Opening what a creator has flushed. *)
Lemma de_view (v : Vec.t) dest c out tail : buf v dest (de_bytes out ++ tail) -> ids_ok out ->
  c_beginning c = 0 -> zlen out < 2 ^ 29 ->
  exists d, de_new v (uba_from dest (c_beginning c)) = Ok d /\ usable v d out.
Proof.
  intros Hb Hids -> Hn. pose proof (uba_from_ok v dest _ Hb 0 ltac:(lia)) as Hfrom. rewrite drop_0 in Hfrom.
  pose proof (proj2 (gap_bytes_ok 0 out)) as Hgl.
  destruct (de_new_ok v _ out tail Hfrom Hids) as (d & cl & -> & Hh & Hca); [lia|lia|].
  exists d. split; [done|]. split; [done|]. by exists O, cl.
Qed.

Section generic_op.
Context {S : Type} {BS : Backend S} {BOS : BackendOk S}.
Context {T : Type} {BT : Backend T} {BOT : BackendOk T}.
Context (op : set_op) (s : S) (t : T).

(** The first id of an operand. *)
Lemma cursor_start {U : Type} {BU : Backend U} {BOU : BackendOk U} (u : U) d x rest :
  holds u d (x :: rest) -> exists a, uba_sgetVl VlUint32 u (de_data d) = Ok (a, x) /\
    cur_ok u (de_count d) (mkCursor a 0 x) (x :: rest).
Proof using.
  intros [Hb Hg Hc Hok Hf Hs]. cbn [gap_bytes] in Hb.
  destruct (read_gap u (de_data d) [] 0 x (gap_bytes x rest)) as (a & Hget & Hr); [by split|].
  pose proof (Forall_inv Hok) as Hx. rewrite Z.sub_0_r, (wrap_small 32 x Hx) in Hget.
  exists a. split; [done|]. rewrite Hc. split; [cbn [cu_it]; lia|]. split; [lia|]. split; [done|].
  split; [done|]. by eexists.
Qed.

Lemma cr_final v dest c out : cr_ok v dest c out -> zlen out < 2 ^ 29 ->
  exists v' tail, dec_flush v dest c = Ok (v', dest) /\ buf v' dest (de_bytes out ++ tail).
Proof using.
  intros [[tail Hb] Ho Hp Hbg _ Hc] Hn. rewrite <- app_assoc in Hb.
  by apply (dec_close_ok v dest c out tail).
Qed.

Lemma finish_ok a b v dest c ra rb out aSize bSize : cur_ok s aSize a ra -> cur_ok t bSize b rb ->
  cr_ok v dest c out -> ra = [] \/ rb = [] -> zlen out + zlen ra + zlen rb < 2 ^ 29 ->
  exists v' dest' tail,
    (if pushFirstRemainder op && (cu_it a <? aSize) then push_remainder s aSize a v dest c
     else if pushSecondRemainder op && (cu_it b <? bSize) then push_remainder t bSize b v dest c
     else dec_flush v dest c) = Ok (v', dest') /\
    buf v' dest' (de_bytes (out ++ merge op ra rb) ++ tail).
Proof using.
  intros Ha Hb Hc Hone Hn. rewrite (cur_it_lt s aSize a ra Ha), (cur_it_lt t bSize b rb Hb).
  assert (merge op ra rb = if pushFirstRemainder op && bool_decide (ra <> []) then ra
    else if pushSecondRemainder op && bool_decide (rb <> []) then rb else []) as ->.
  { by apply merge_one. }
  destruct (pushFirstRemainder op && bool_decide (ra <> [])) eqn:E1.
  { destruct ra as [|x ra]; [by rewrite andb_false_r in E1|]. apply (push_remainder_ok s aSize a x ra); [done|done|lia]. }
  destruct (pushSecondRemainder op && bool_decide (rb <> [])) eqn:E2.
  { destruct rb as [|y rb]; [by rewrite andb_false_r in E2|]. apply (push_remainder_ok t bSize b y rb); [done|done|lia]. }
  rewrite app_nil_r. destruct (cr_final v dest c out Hc) as (v' & tail & ? & ?); [lia|]. by exists v', dest, tail.
Qed.

Lemma genericOp_ok x y A B : holds s x A -> holds t y B -> A <> [] -> B <> [] ->
  zlen A + zlen B < 2 ^ 29 -> ids_ok (merge op A B) ->
  exists v d, genericOp op s x t y = Ok (v, d) /\ usable v d (merge op A B).
Proof using.
  intros Hx Hy HA HB Hn Hids. unfold genericOp. pose proof (dec_new_ok 8 ltac:(lia)) as Hnew.
  destruct (createCache 8) as [v0 dest0]. destruct Hnew as (v & dest & c & -> & Hc). rewrite bind_ok_l.
  destruct A as [|x0 A]; [done|]. destruct B as [|y0 B]; [done|].
  destruct (cursor_start s x x0 A Hx) as (a & -> & Ha). destruct (cursor_start t y y0 B Hy) as (b & -> & Hb).
  rewrite !bind_ok_l. pose proof (h_count _ _ _ Hx) as Hcx. pose proof (h_count _ _ _ Hy) as Hcy.
  destruct (generic_loop_ok op s t (de_count x) (de_count y)
    (Datatypes.S (Z.to_nat (de_count x) + Z.to_nat (de_count y))) _ _ _ _ _ _ _ _ Ha Hb Hc)
    as (a' & b' & v' & dest' & c' & ra & rb & out & -> & Ha' & Hb' & Hc' & Hone & Hm & Hle);
    [lia|change (zlen []) with 0; lia|].
  rewrite bind_ok_l. change (zlen []) with 0 in Hle. cbn [app] in Hm.
  destruct (finish_ok a' b' v' dest' c' ra rb out _ _ Ha' Hb' Hc' Hone) as (v2 & dest2 & tail & Hfin & Hbuf); [lia|].
  rewrite Hfin, bind_ok_l. rewrite <- Hm in Hbuf.
  assert (zlen (merge op (x0 :: A) (y0 :: B)) <= zlen (x0 :: A) + zlen (y0 :: B)) as Hml by apply merge_length.
  destruct (de_view v2 dest2 c' _ tail Hbuf Hids) as (d & -> & Hu); [exact (cr_beg _ _ _ _ Hc')|lia|].
  rewrite bind_ok_l. by exists v2, d.
Qed.
End generic_op.

Section lookup.
Context {S : Type} {B : Backend S} {BO : BackendOk S}.

Definition de_ai_rep (s : S) (w : S * de) (src : list Z) : Prop := fst w = s /\ usable (fst w) (snd w) src.

Lemma de_ai_at_ok s (w : S * de) l (pos : nat) x : de_ai_rep s w l -> l !! pos = Some x ->
  exists w', de_ai_at w (Z.of_nat pos) = Ok (w', x) /\ de_ai_rep s w' l.
Proof using BO.
  destruct w as [s' d]. intros [E Hu] Hx. cbn in E, Hu. subst s'.
  destruct (usable_at s d l (Z.of_nat pos) Hu) as (d' & Ha & Hu'); [lia|]. rewrite Nat2Z.id, Hx in Ha.
  unfold de_ai_at. cbn [fst snd]. rewrite Ha, bind_ok_l. by exists (s, d').
Qed.

#[export] Program Instance de_AtIndexOk (s : S) : AtIndexOk (S * de) := {| ai_rep := de_ai_rep s |}.
Next Obligation. intros s [s' d] l [_ Hu]. exact (h_count _ _ _ (proj1 Hu)). Qed.
Next Obligation. intros s [s' d] l [_ Hu]. pose proof (h_few _ _ _ (proj1 Hu)). cbn in *. lia. Qed.
Next Obligation. exact de_ai_at_ok. Qed.
Next Obligation. exact de_ai_at_ok. Qed.
End lookup.

(** Searching an index of sorted ids always ends within its fuel, keeps the index
    usable, and gives the position of the id, or 2^32 - 1 when the index does not have
    it. *)
Theorem de_find_correct {S : Type} {B : Backend S} {BO : BackendOk S} (s : S) d src id :
  usable s d src -> sorted src ->
  exists d' r, find (s, d) id = Ok ((s, d'), r) /\ usable s d' src /\
    (0 <= r < zlen src /\ src !! Z.to_nat r = Some id \/ r = max_u32 /\ id ∉ src).
Proof.
  intros Hu Hs. destruct (@find_ok _ _ (de_AtIndexOk s) (s, d) src id (conj eq_refl Hu) Hs) as ([s' d'] & r & Hf & [Hs' Hu'] & Hr).
  cbn in Hs', Hu'. subst s'. by exists d', r.
Qed.

Lemma de_find_correct_witness :
  exists d d' r, de_new (Vec.mk [4; 0; 0; 0; 3; 0; 0; 0; 3; 4; 165; 2]) (mkUba 0 12 0 0) = Ok d /\
    find (Vec.mk [4; 0; 0; 0; 3; 0; 0; 0; 3; 4; 165; 2], d) 7 = Ok ((Vec.mk [4; 0; 0; 0; 3; 0; 0; 0; 3; 4; 165; 2], d'), r) /\ (r = 1 \/ r = max_u32).
Proof.
  destruct (de_new_ok (Vec.mk [4; 0; 0; 0; 3; 0; 0; 0; 3; 4; 165; 2]) (mkUba 0 12 0 0) [3; 7; 300] [])
    as (d & cl & Hnew & Hh & Hc).
  - split; [uba_wf_tac|reflexivity].
  - repeat constructor; unfold fits; lia.
  - cbn. lia.
  - reflexivity.
  - destruct (de_find_correct (Vec.mk [4; 0; 0; 0; 3; 0; 0; 0; 3; 4; 165; 2]) d [3; 7; 300] 7)
      as (d' & r & Hf & _ & Hr).
    + split; [exact Hh|]. exists O, cl. exact Hc.
    + repeat first [lia | constructor].
    + exists d, d', r. split; [exact Hnew|]. split; [exact Hf|].
      destruct Hr as [[Hr1 Hr2]|[-> _]]; [left|right; reflexivity].
      assert (r = 0 \/ r = 1 \/ r = 2) as [->|[->| ->]] by (cbn in Hr1; lia); [|reflexivity|]; discriminate Hr2.
Defined.

(** * Bit sets and indexes *)

Section bit_sets.
Context {S : Type} {B : Backend S} {BO : BackendOk S}.
Context (s : S) (a : uba) (l : list Z) (Hb : buf s a l) (Hsz : zlen l < 2 ^ 29).

Lemma fromBitSet_ok : zlen (set_positions (le_val l) 0 (8 * zlen l)) < 2 ^ 29 ->
  exists v d, de_fromBitSet s a = Ok (v, d) /\ usable v d (set_positions (le_val l) 0 (8 * zlen l)).
Proof using Hb Hsz BO.
  intros Hn. unfold de_fromBitSet. rewrite (buf_len _ _ _ Hb). pose proof (dec_new_ok (zlen l) ltac:(lia)) as Hnew.
  destruct (createCache (zlen l)) as [v0 dest0]. destruct Hnew as (v & dest & c & -> & Hc). rewrite bind_ok_l.
  rewrite narrow_u32_ok by (unfold fits; lia). rewrite bind_ok_l, Nat2Z.id.
  assert (cr_rep (C := de_creator) (v, dest, c) []) as Hcr by exact Hc.
  destruct (from_bytes_ok s a l Hb Hsz (length l) 0 _ [] ltac:(lia) ltac:(lia) Hcr) as ([[v1 d1] c1] & Hfb & Hc1).
  { change (8 * 0) with 0. apply set_positions_pushable; [|cbn; lia]. intros z Hz%elem_of_set_positions. cbn. lia. }
  change (u32 (8 * 0)) with 0 in Hfb. change (8 * 0) with 0 in Hc1. cbn [app cr_rep de_IndexCreatorOk de_cr_rep] in Hc1. rewrite Hfb, bind_ok_l.
  destruct (cr_final v1 d1 c1 _ Hc1 Hn) as (v2 & tail & -> & Hbuf). rewrite bind_ok_l.
  destruct (de_view v2 d1 c1 _ tail Hbuf) as (d & -> & Hu); [|exact (cr_beg _ _ _ _ Hc1)|done|].
  { apply Forall_forall. intros z Hz%elem_of_set_positions. unfold fits. lia. }
  rewrite bind_ok_l. by exists v2, d.
Qed.
End bit_sets.

Section put_bits.
Context {S : Type} {B : Backend S} {BO : BackendOk S}.
Context {T : Type} {BT : Backend T} {BOT : BackendOk T}.

Lemma put_bits_loop_ok src (s : S) d pre prev (t : T) bits l : ids_ok src -> reading s d pre (gap_bytes prev src) ->
  buf t bits l -> Forall (fun p => p < 8 * zlen l) src ->
  exists t' l', de_put_bits_loop (length src) s d prev t bits = Ok (t', bits) /\ buf t' bits l' /\
    length l' = length l /\ le_val l' = set_bits (le_val l) src.
Proof using BO BOT.
  revert d pre prev t l. induction src as [|x src IH]; intros d pre prev t l Hok Hr Hb Hps;
    cbn [length de_put_bits_loop gap_bytes] in *; [by exists t, l|].
  apply Forall_cons in Hok as [Hx Hok]. apply Forall_cons in Hps as [Hxl Hps]. unfold fits in Hx.
  destruct (read_gap s d pre prev x _ Hr) as (d' & -> & Hr'). rewrite bind_ok_l, gap_sum by done.
  destruct (dbs_set_in t bits l x Hb) as (t1 & l1 & -> & Hb1 & Hl1 & Hv1); [lia|lia|]. rewrite bind_ok_l.
  destruct (IH d' _ x t1 l1 Hok Hr' Hb1) as (t2 & l2 & -> & Hb2 & Hl2 & Hv2); [by rewrite Hl1|].
  exists t2, l2. split; [done|]. split; [done|]. split; [congruence|]. rewrite Hv2, Hv1. done.
Qed.
End put_bits.

(** Round trip of bit sets: [fromBitSet] of a bit set of less than 2^29 bytes with
    less than 2^29 set positions gives an index of exactly its set positions, and putting
    such an index into any bit set that is long enough sets exactly these bits there. *)
Theorem de_bitset_roundtrip {S : Type} {B : Backend S} {BO : BackendOk S} {T : Type} {BT : Backend T} {BOT : BackendOk T}
    (s : S) a l (t : T) bits m :
  buf s a l -> buf t bits m -> zlen l < 2 ^ 29 -> zlen l <= zlen m ->
  zlen (set_positions (le_val l) 0 (8 * zlen l)) < 2 ^ 29 ->
  exists v d, de_fromBitSet s a = Ok (v, d) /\
    de_putInto v d = Ok (set_positions (le_val l) 0 (8 * zlen l)) /\
    exists t' m', de_putInto_bits v d t bits = Ok (t', bits) /\ buf t' bits m' /\
      le_val m' = Z.lor (le_val m) (le_val l).
Proof.
  intros Hb Hm Hl Hlm Hn. destruct (fromBitSet_ok s a l Hb Hl Hn) as (v & d & -> & Hu & _).
  exists v, d. split; [done|]. split; [by apply de_putInto_ok|].
  unfold de_putInto_bits, de_size. pose proof Hu as [Hd Hg Hc Hids _ _]. rewrite Hc, Nat2Z.id.
  set (ps := set_positions _ _ _) in *.
  pose proof (elem_of_set_positions (le_val l) (8 * zlen l)) as Hps. fold ps in Hps.
  destruct (put_bits_loop_ok ps v (de_data d) [] 0 t bits m Hids) as (t' & m' & -> & Hb' & _ & Hv); [by split|done| |].
  { apply Forall_forall. intros z Hz%Hps. lia. }
  exists t', m'. split; [done|]. split; [done|]. rewrite Hv. apply set_bits_lor; [exact (buf_bytes _ _ _ Hb)|done].
Qed.

Lemma de_bitset_roundtrip_witness :
  exists v d, de_fromBitSet (Vec.mk [5; 128]) (mkUba 0 2 0 0) = Ok (v, d) /\ de_putInto v d = Ok [0; 2; 15].
Proof.
  destruct (de_bitset_roundtrip (Vec.mk [5; 128]) (mkUba 0 2 0 0) [5; 128] (Vec.mk [0; 0]) (mkUba 0 2 0 0) [0; 0])
    as (v & d & H1 & H2 & _).
  - split; [uba_wf_tac|reflexivity].
  - split; [uba_wf_tac|reflexivity].
  - cbn. lia.
  - cbn. lia.
  - vm_compute. reflexivity.
  - exists v, d. split; [exact H1|exact H2].
Defined.
