(* ===== verification/ItemIndexRleDE.v ===== *)
(** The run-length and delta-coded item index:
    [src/containers/ItemIndexPrivates/ItemIndexPrivateRleDE.cpp] and its header.

    The data is a sequence of words: [2 v] for the difference [v] to the id before, or
    [2 n + 1] and [2 v] for [n] such differences.  [rd_vals] gives a sequence of words its
    meaning; the creator writes such words, every reader and the set operations, which
    skip over whole runs, are proved against it. *)

From S2P Require Import Prelude UtilMath PackUnpack Storage ByteArray ByteStream Bits CompactUintArray BitSets SetFuncs IndexOps.

(** * The creator *)

(** [ItemIndexPrivateRleDECreator] without the reference to its destination: the words go
    to a vector of its own. *)
Record rdc := mkRdc {
  rc_mem : Vec.t; rc_data : uba;
  rc_beginning : Z; rc_rle : Z; rc_lastDiff : Z; rc_count : Z; rc_prev : Z
}.

Definition rdc_new (dest : uba) : rdc :=
  let '(mem, data) := uba_of_vector [] in mkRdc mem data (m_putPtr dest) 0 0 0 0.

(** [m_data.putVlPackedUint32] *)
Definition rdc_put (c : rdc) (x : Z) : result rdc :=
  '(mem, data, _) ← uba_sputVl VlUint32 (rc_mem c) (rc_data c) x;
  mret (mkRdc mem data (rc_beginning c) (rc_rle c) (rc_lastDiff c) (rc_count c) (rc_prev c)).

(** The pending run as a word. *)
Definition rdc_putRle (c : rdc) : result rdc :=
  if rc_rle c =? 0 then Ok c
  else if rc_rle c =? 1 then rdc_put c (u32 (rc_lastDiff c <<< 1))
  else
    c ← rdc_put c (u32 (rc_rle c <<< 1) ||| 1);
    rdc_put c (u32 (rc_lastDiff c <<< 1)).

Definition rdc_flushRle (c : rdc) : result rdc :=
  c ← rdc_putRle c;
  mret (mkRdc (rc_mem c) (rc_data c) (rc_beginning c) 0 (rc_lastDiff c) (rc_count c) (rc_prev c)).

Definition rdc_push_back (c : rdc) (id : Z) : result rdc :=
  throw_if (negb ((rc_count c =? 0) || (rc_prev c <? id))) AssertionFailed;;
  let diff := u32 (id - rc_prev c) in
  if diff =? rc_lastDiff c then
    mret (mkRdc (rc_mem c) (rc_data c) (rc_beginning c) (u32 (rc_rle c + 1)) (rc_lastDiff c) (u32 (rc_count c + 1)) id)
  else
    c ← rdc_putRle c;
    mret (mkRdc (rc_mem c) (rc_data c) (rc_beginning c) 1 diff (u32 (rc_count c + 1)) id).
#[export] Instance rdc_IndexCreator : IndexCreator rdc := rdc_push_back.

Definition rdc_push_rle (c : rdc) (nextId delta length : Z) : result rdc :=
  throw_if (negb (0 <? delta)) AssertionFailed;;
  c ← rdc_push_back c nextId;
  if length =? 0 then Ok c
  else
    c ← rdc_push_back c (u32 (nextId + delta));
    throw_if (negb (rc_lastDiff c =? delta)) AssertionFailed;;
    let length := u32 (length - 1) in
    mret (mkRdc (rc_mem c) (rc_data c) (rc_beginning c) (u32 (rc_rle c + length)) (rc_lastDiff c)
            (u32 (rc_count c + length)) (u32 (rc_prev c + u32 (delta * length)))).

(** * The index *)

Record rd := mkRd { rd_data : uba; rd_count : Z; rd_dataOffset : Z; rd_curId : Z; rd_cache : list Z }.

(** [MyIterator]; the index it belongs to is passed along. *)
Record rd_iter := mkRdIter { ri_dataOffset : Z; ri_rleCount : Z; ri_rleDiff : Z; ri_curId : Z }.

Section index.
Context {S : Type} `{Backend S}.
Implicit Types (s : S) (d : rd).

(** [flushData]: the header and the words go to the destination. *)
Definition rdc_flushData s (dest : uba) (c : rdc) : result (S * uba) :=
  let dest := setPutPtr dest (rc_beginning c) in
  '(s, dest, _) ← uba_sputVl VlUint32 s dest (rc_count c);
  '(s, dest, _) ← uba_sputVl VlUint32 s dest (u32 (m_len (rc_data c)));
  sputData_foreign s dest (rc_mem c) (rc_data c).

Definition rdc_flush s (dest : uba) (c : rdc) : result (S * uba) :=
  c ← rdc_flushRle c; rdc_flushData s dest c.

Definition rdc_flushWithData {T : Type} `{Backend T} s (dest : uba) (c : rdc) (t : T) (appendData : uba)
    (countInData : Z) : result (S * uba) :=
  c ← rdc_flushRle c;
  '(mem, data) ← sputData_foreign (rc_mem c) (rc_data c) t appendData;
  rdc_flushData s dest
    (mkRdc mem data (rc_beginning c) (rc_rle c) (rc_lastDiff c) (u32 (rc_count c + countInData)) (rc_prev c)).

Fixpoint rdc_push_all (c : rdc) (src : list Z) : result rdc :=
  match src with [] => Ok c | x :: src => c ← rdc_push_back c x; rdc_push_all c src end.

Definition rd_create s (dest : uba) (src : list Z) : result (S * uba) :=
  c ← rdc_push_all (rdc_new dest) src;
  rdc_flush s dest c.

(** Opening an index; [resize] may grow the storage. *)
Definition rd_new s (data : uba) : result (S * rd) :=
  '(m_data, size) ← uba_sgetVl VlUint32 s (resetGetPtr data);
  '(m_data, myDataSize) ← uba_sgetVl VlUint32 s m_data;
  let m_data := shrinkToGetPtr m_data in
  let '(s, m_data) :=
    if negb (m_len m_data =? myDataSize) then let '(s, a, _) := uba_resize s m_data myDataSize in (s, a)
    else (s, m_data) in
  mret (s, mkRd m_data size 0 0 []).

Definition rd_size d : Z := rd_count d.

(** [while (rle) { m_curId += value; m_cache.push_back(m_curId); --rle; }] *)
Fixpoint rd_expand (rle : nat) (curId value : Z) : Z * list Z :=
  match rle with
  | O => (curId, [])
  | Datatypes.S rle =>
      let curId := u32 (curId + value) in
      let '(last, ids) := rd_expand rle curId value in (last, curId :: ids)
  end.

(** The loop of [at]; a word takes at least one byte of the data. *)
Fixpoint rd_decode (fuel : nat) s d (pos : Z) : result rd :=
  match fuel with
  | O => Err OutOfFuel
  | Datatypes.S fuel =>
      if zlen (rd_cache d) <=? pos then
        '(value, len) ← uba_getVl VlUint32 s (rd_data d) (rd_dataOffset d);
        if negb (value &&& 1 =? 0) then
          let rle := value >>> 1 in
          let off := u32 (rd_dataOffset d + len) in
          '(value, len) ← uba_getVl VlUint32 s (rd_data d) off;
          let '(curId, ids) := rd_expand (Z.to_nat rle) (rd_curId d) (value >>> 1) in
          rd_decode fuel s (mkRd (rd_data d) (rd_count d) (u32 (off + len)) curId (rd_cache d ++ ids)) pos
        else
          let curId := u32 (rd_curId d + (value >>> 1)) in
          rd_decode fuel s (mkRd (rd_data d) (rd_count d) (u32 (rd_dataOffset d + len)) curId (rd_cache d ++ [curId])) pos
      else Ok d
  end.

Definition rd_at s d (pos : Z) : result (rd * Z) :=
  if (rd_size d =? 0) || (rd_size d <=? pos) then Ok (d, 0)
  else
    d ← rd_decode (Datatypes.S (Z.to_nat (m_len (rd_data d)))) s d pos;
    v ← vget (rd_cache d) pos;
    mret (d, v).

(** The index together with its storage as something [find] can search. *)
Definition rd_ai_at (w : S * rd) (pos : Z) : result (S * rd * Z) :=
  '(d, x) ← rd_at (fst w) (snd w) pos; mret (fst w, d, x).
#[export] Instance rd_AtIndex : AtIndex (S * rd) := {| ai_size w := rd_size (snd w); ai_at := rd_ai_at; ai_uncheckedAt := rd_ai_at |}.

Definition rd_first s d : result (rd * Z) := if rd_size d =? 0 then Ok (d, 0) else rd_at s d 0.
Definition rd_last s d : result (rd * Z) :=
  if rd_size d =? 0 then Ok (d, 0) else rd_at s d (u32 (rd_size d - 1)).

Definition rd_bpn d : Z :=
  if rd_count d =? 0 then u8 (u64 (m_len (rd_data d) * 8)) else u8 (u64 (m_len (rd_data d) * 8) / rd_count d).

Definition rd_getSizeInBytes d : result Z :=
  a ← psize_vu32 (rd_count d);
  b ← psize_vu32 (u32 (m_len (rd_data d)));
  mret (u64 (u64 (m_len (rd_data d) + a) + b)).

(** [MyIterator] *)
Definition ri_next s d (it : rd_iter) : result rd_iter :=
  if negb (ri_rleCount it =? 0) then
    Ok (mkRdIter (ri_dataOffset it) (u32 (ri_rleCount it - 1)) (ri_rleDiff it) (u32 (ri_curId it + ri_rleDiff it)))
  else if ri_dataOffset it <? m_len (rd_data d) then
    '(tmp, len) ← uba_getVl VlUint32 s (rd_data d) (ri_dataOffset it);
    let off := u64 (ri_dataOffset it + len) in
    if negb (tmp &&& 1 =? 0) then
      '(v, len) ← uba_getVl VlUint32 s (rd_data d) off;
      let diff := v >>> 1 in
      mret (mkRdIter (u64 (off + len)) (u32 ((tmp >>> 1) - 1)) diff (u32 (ri_curId it + diff)))
    else Ok (mkRdIter off (ri_rleCount it) (ri_rleDiff it) (u32 (ri_curId it + (tmp >>> 1))))
  else Ok (mkRdIter max_u32 (ri_rleCount it) (ri_rleDiff it) max_u32).

Definition ri_new s d (dataOffset : Z) : result rd_iter := ri_next s d (mkRdIter dataOffset 0 0 0).
Definition rd_cbegin s d : result rd_iter := ri_new s d 0.
Definition rd_cend s d : result rd_iter := ri_new s d max_u32.
Definition ri_get (it : rd_iter) : Z := ri_curId it.
Definition ri_notEq (a b : rd_iter) : bool := negb (ri_dataOffset b =? ri_dataOffset a).

(** The ids from an iterator to the end. *)
Fixpoint ri_collect (fuel : nat) s d (it fin : rd_iter) : result (list Z) :=
  match fuel with
  | O => Err OutOfFuel
  | Datatypes.S fuel =>
      if ri_notEq it fin then
        it' ← ri_next s d it;
        r ← ri_collect fuel s d it' fin;
        mret (ri_get it :: r)
      else Ok []
  end.

(** [putInto] to an array with room for [n] more ids. *)
Fixpoint rd_put_loop (fuel : nat) s (tmp : uba) (prev n : Z) : result (list Z) :=
  match fuel with
  | O => Err OutOfFuel
  | Datatypes.S fuel =>
      if n =? 0 then Ok []
      else
        '(tmp, val) ← uba_sgetVl VlUint32 s tmp;
        if negb (val &&& 1 =? 0) then
          let rle := val >>> 1 in
          '(tmp, val) ← uba_sgetVl VlUint32 s tmp;
          throw_if (n <? rle) UndefinedBehaviour;;
          let '(prev, ids) := rd_expand (Z.to_nat rle) prev (val >>> 1) in
          r ← rd_put_loop fuel s tmp prev (n - rle); mret (ids ++ r)
        else
          let prev := u32 (prev + (val >>> 1)) in
          r ← rd_put_loop fuel s tmp prev (n - 1); mret (prev :: r)
  end.
Definition rd_putInto s d : result (list Z) :=
  rd_put_loop (Datatypes.S (Z.to_nat (m_len (rd_data d)))) s (rd_data d) 0 (rd_count d).

(** [putInto] to a bit set: the last bit of a run is set first. *)
Fixpoint rd_set_run {T : Type} `{Backend T} (rle : nat) (prev val : Z) (t : T) (bits : uba) : result (Z * T * uba) :=
  match rle with
  | O => Ok (prev, t, bits)
  | Datatypes.S rle =>
      let prev := u32 (prev + val) in
      '(t, bits) ← dbs_set t bits prev;
      rd_set_run rle prev val t bits
  end.

Fixpoint rd_put_bits_loop {T : Type} `{Backend T} (fuel : nat) s (tmp : uba) (count prev mySize : Z) (t : T) (bits : uba)
    : result (T * uba) :=
  match fuel with
  | O => Err OutOfFuel
  | Datatypes.S fuel =>
      if count <? mySize then
        '(tmp, val) ← uba_sgetVl VlUint32 s tmp;
        if negb (val &&& 1 =? 0) then
          let rle := val >>> 1 in
          let count := u32 (count + rle) in
          '(tmp, val) ← uba_sgetVl VlUint32 s tmp;
          let val := val >>> 1 in
          '(t, bits) ← dbs_set t bits (u32 (prev + u32 (rle * val)));
          '(prev, t, bits) ← rd_set_run (Z.to_nat (u32 (rle - 1))) prev val t bits;
          rd_put_bits_loop fuel s tmp count (u32 (prev + val)) mySize t bits
        else
          let prev := u32 (prev + (val >>> 1)) in
          '(t, bits) ← dbs_set t bits prev;
          rd_put_bits_loop fuel s tmp (u32 (count + 1)) prev mySize t bits
      else Ok (t, bits)
  end.
Definition rd_putInto_bits {T : Type} `{Backend T} s d (t : T) (bits : uba) : result (T * uba) :=
  rd_put_bits_loop (Datatypes.S (Z.to_nat (m_len (rd_data d)))) s (rd_data d) 0 0 (rd_size d) t bits.

End index.

Definition rd_fromBitSet {S : Type} `{Backend S} (s : S) (bits : uba) : result (Vec.t * rd) :=
  let '(v, dest) := createCache (m_len bits) in
  myDataSize ← narrow_u32 (m_len bits);
  c ← from_bytes (Z.to_nat myDataSize) s bits 0 0 (rdc_new dest);
  '(v, dest) ← rdc_flush v dest c;
  '(mem, d) ← rd_new v (uba_from dest (rc_beginning c));
  mret (mem, d).

(** * Set operations *)

(** One operand: its adapter, the position, the ids left of the current run (0 when the
    current id is not in a run), the current difference and the current id. *)
Record rcur := mkRcur { ru_data : uba; ru_it : Z; ru_rle : Z; ru_val : Z; ru_id : Z }.

Section operand.
Context {U : Type} `{Backend U}.
Implicit Types (u : U) (c : rcur).

(** [if (val & 0x1) { rle = val >> 1; val = data.getVlPackedUint32(); } val >>= 1;] *)
Definition rcur_word u (data : uba) (val rle : Z) : result (uba * Z * Z) :=
  if negb (val &&& 1 =? 0) then
    '(data, val') ← uba_sgetVl VlUint32 u data; mret (data, val' >>> 1, val >>> 1)
  else Ok (data, val >>> 1, rle).

Definition rcur_getNext u (data : uba) (rle : Z) : result (uba * Z * Z) :=
  if m_getPtr data <? m_len data then
    '(data, val) ← uba_sgetVl VlUint32 u data; rcur_word u data val rle
  else rcur_word u data 0 rle.

(** The start: the first word. *)
Definition rcur_start u (data : uba) : result rcur :=
  '(data, val) ← uba_sgetVl VlUint32 u (resetGetPtr data);
  '(data, val, rle) ← rcur_word u data val 0;
  mret (mkRcur data 0 rle val val).

(** Past one id. *)
Definition rcur_next u c : result rcur :=
  let rle := if ru_rle c =? 0 then ru_rle c else u32 (ru_rle c - 1) in
  '(data, val, rle) ← (if rle =? 0 then rcur_getNext u (ru_data c) rle else Ok (ru_data c, ru_val c, rle));
  mret (mkRcur data (u32 (ru_it c + 1)) rle val (u32 (ru_id c + val))).

(** Past [myRle] ids of the current run. *)
Definition rcur_skip u c (myRle : Z) : result rcur :=
  let rle := u32 (ru_rle c - myRle) in
  let id := u32 (ru_id c + u32 (ru_val c * u32 (myRle - 1))) in
  '(data, val, rle) ← (if rle =? 0 then rcur_getNext u (ru_data c) rle else Ok (ru_data c, ru_val c, rle));
  mret (mkRcur data (u32 (ru_it c + myRle)) rle val (u32 (id + val))).

(** The step for the operand with the smaller id: as much of a run as is below the id
    [limit] of the other one, or one id. *)
Definition rcur_smaller u (push : bool) (c : rcur) (limit : Z) (cr : rdc) : result (rcur * rdc) :=
  if (1 <? ru_rle c) && (u32 (ru_id c + ru_val c) <? limit) then
    throw_if (ru_val c =? 0) UndefinedBehaviour;;
    let diff := u32 (limit - ru_id c) in
    let myRle := u32 (diff / ru_val c - (if 0 <? diff mod ru_val c then 0 else 1) + 1) in
    let myRle := Z.min myRle (ru_rle c) in
    throw_if (negb (1 <? myRle)) AssertionFailed;;
    throw_if (negb (myRle <=? ru_rle c)) AssertionFailed;;
    cr ← (if push then rdc_push_rle cr (ru_id c) (ru_val c) (u32 (myRle - 1)) else Ok cr);
    c ← rcur_skip u c myRle;
    mret (c, cr)
  else
    cr ← push_if push cr (ru_id c);
    c ← rcur_next u c;
    mret (c, cr).

(** [push_rle]/[push_back] of what is left of the current run, then the rest of the data. *)
Definition rcur_remainder {S : Type} `{Backend S} u (size : Z) (c : rcur) (s : S) (dest : uba) (cr : rdc)
    : result (S * uba) :=
  '(it, cr) ←
    (if negb (ru_rle c =? 0) then
       cr ← rdc_push_rle cr (ru_id c) (ru_val c) (u32 (ru_rle c - 1));
       throw_if (negb (rc_prev cr =? u32 (ru_id c + u32 (ru_val c * u32 (ru_rle c - 1))))) AssertionFailed;;
       mret (u32 (ru_it c + ru_rle c), cr)
     else
       cr ← rdc_push_back cr (ru_id c); mret (u32 (ru_it c + 1), cr));
  rdc_flushWithData s dest cr u (shrinkToGetPtr (ru_data c)) (u32 (size - it)).
End operand.

Section generic.
Context {S T : Type} `{Backend S} `{Backend T}.
Implicit Types (s : S) (t : T).

(** One round of the loop. *)
Definition rd_step (op : set_op) s t (a b : rcur) (c : rdc) : result (rcur * rcur * rdc) :=
  if ru_id a <? ru_id b then
    '(a, c) ← rcur_smaller s (pushFirstSmaller op) a (ru_id b) c; mret (a, b, c)
  else if ru_id b <? ru_id a then
    '(b, c) ← rcur_smaller t (pushSecondSmaller op) b (ru_id a) c; mret (a, b, c)
  else if (2 <? ru_rle a) && (2 <? ru_rle b) && (ru_val a =? ru_val b) then
    let myRle := Z.min (ru_rle a) (ru_rle b) in
    c ← (if pushEqual op then rdc_push_rle c (ru_id a) (ru_val a) (u32 (myRle - 1)) else Ok c);
    a ← rcur_skip s a myRle;
    b ← rcur_skip t b myRle;
    mret (a, b, c)
  else
    c ← push_if (pushEqual op) c (ru_id a);
    a ← rcur_next s a;
    b ← rcur_next t b;
    mret (a, b, c).

Fixpoint rd_loop (fuel : nat) (op : set_op) s t (aSize bSize : Z) (a b : rcur) (c : rdc) : result (rcur * rcur * rdc) :=
  match fuel with
  | O => Err OutOfFuel
  | Datatypes.S fuel =>
      if (ru_it a <? aSize) && (ru_it b <? bSize) then
        '(a, b, c) ← rd_step op s t a b c;
        rd_loop fuel op s t aSize bSize a b c
      else Ok (a, b, c)
  end.

Definition rd_genericOp (op : set_op) s (x : rd) t (y : rd) : result (Vec.t * rd) :=
  let '(v, dest) := createCache 8 in
  a ← rcur_start s (rd_data x);
  b ← rcur_start t (rd_data y);
  '(a, b, c) ← rd_loop (Datatypes.S (Z.to_nat (rd_count x) + Z.to_nat (rd_count y))) op s t (rd_count x) (rd_count y)
                 a b (rdc_new dest);
  '(v, dest) ←
    (if pushFirstRemainder op && (ru_it a <? rd_count x) then rcur_remainder s (rd_count x) a v dest c
     else if pushSecondRemainder op && (ru_it b <? rd_count y) then rcur_remainder t (rd_count y) b v dest c
     else rdc_flush v dest c);
  rd_new v (resetPtrs dest).

(** [uniteK]: at most [numItems] ids are compared; where both operands have an id, the
    difference of the second one is halved again when it came from a new word. *)
Definition rcur_next_halved t (c : rcur) : result rcur :=
  let rle := if ru_rle c =? 0 then ru_rle c else u32 (ru_rle c - 1) in
  '(data, val, rle) ←
    (if rle =? 0 then '(data, val, rle) ← rcur_getNext t (ru_data c) rle; mret (data, val >>> 1, rle)
     else Ok (ru_data c, ru_val c, rle));
  mret (mkRcur data (u32 (ru_it c + 1)) rle val (u32 (ru_id c + val))).

Fixpoint uniteK_loop (fuel : nat) s t (aSize bSize numItems : Z) (a b : rcur) (c : rdc) : result (rcur * rcur * rdc) :=
  match fuel with
  | O => Err OutOfFuel
  | Datatypes.S fuel =>
      if (ru_it a <? aSize) && (ru_it b <? bSize) && (rc_count c <? numItems) then
        if ru_id a =? ru_id b then
          c ← rdc_push_back c (ru_id a);
          a ← rcur_next s a;
          b ← rcur_next_halved t b;
          uniteK_loop fuel s t aSize bSize numItems a b c
        else if ru_id a <? ru_id b then
          c ← rdc_push_back c (ru_id a);
          a ← rcur_next s a;
          uniteK_loop fuel s t aSize bSize numItems a b c
        else
          c ← rdc_push_back c (ru_id b);
          b ← rcur_next t b;
          uniteK_loop fuel s t aSize bSize numItems a b c
      else Ok (a, b, c)
  end.

(** [while (rle && creator.size() < numItems) { push_back(id); id += val; ++it; --rle; }] *)
Fixpoint uniteK_run (n : nat) (it id val numItems : Z) (c : rdc) : result (Z * rdc) :=
  match n with
  | O => Ok (it, c)
  | Datatypes.S n =>
      if rc_count c <? numItems then
        c ← rdc_push_back c id; uniteK_run n (u32 (it + 1)) (u32 (id + val)) val numItems c
      else Ok (it, c)
  end.

Definition uniteK_remainder {U V : Type} `{Backend U} `{Backend V} (u : U) (size numItems : Z) (a : rcur) (v : V)
    (dest : uba) (c : rdc) : result (V * uba) :=
  '(it, c) ←
    (if negb (ru_rle a =? 0) then uniteK_run (Z.to_nat (ru_rle a)) (ru_it a) (ru_id a) (ru_val a) numItems c
     else c ← rdc_push_back c (ru_id a); mret (u32 (ru_it a + 1), c));
  if rc_count c <? numItems then rdc_flushWithData v dest c u (shrinkToGetPtr (ru_data a)) (u32 (size - it))
  else rdc_flush v dest c.

Definition rd_uniteK s (x : rd) t (y : rd) (numItems : Z) : result (Vec.t * rd) :=
  let '(v, dest) := createCache 8 in
  a ← rcur_start s (rd_data x);
  b ← rcur_start t (rd_data y);
  '(a, b, c) ← uniteK_loop (Datatypes.S (Z.to_nat (rd_count x) + Z.to_nat (rd_count y))) s t (rd_count x) (rd_count y)
                 numItems a b (rdc_new dest);
  '(v, dest) ←
    (if ru_it a <? rd_count x then uniteK_remainder s (rd_count x) numItems a v dest c
     else if ru_it b <? rd_count y then uniteK_remainder t (rd_count y) numItems b v dest c
     else rdc_flush v dest c);
  rd_new v (resetPtrs dest).
End generic.

(** * Words *)

(** The ids [prev + v], [prev + 2 v], ... of a run. *)
Fixpoint steps (n : nat) (v prev : Z) : list Z :=
  match n with O => [] | Datatypes.S n => prev + v :: steps n v (prev + v) end.

(** A word is a number of ids and their difference; a single id has the short form. *)
Abbreviation rword := (nat * Z)%type.

Definition vb (x : Z) : list Z := item_bytes (IVl VlUint32 x).

Definition rbytes (w : rword) : list Z :=
  if decide (fst w = 1%nat) then vb (2 * snd w) else vb (2 * Z.of_nat (fst w) + 1) ++ vb (2 * snd w).

Definition rword_ok (w : rword) : Prop :=
  1 <= Z.of_nat (fst w) < 2 ^ 31 /\ 0 <= snd w < 2 ^ 31 /\ (fst w <> 1%nat -> 1 <= snd w).

Fixpoint rd_vals (prev : Z) (ws : list rword) : list Z :=
  match ws with
  | [] => []
  | (n, v) :: ws => steps n v prev ++ rd_vals (prev + Z.of_nat n * v) ws
  end.

Definition rd_bytes (ws : list rword) : list Z := concat (map rbytes ws).

Lemma length_steps n v prev : length (steps n v prev) = n.
Proof. revert prev. induction n as [|n IH]; intros prev; cbn [steps length]; [done|]. by rewrite IH. Qed.

Lemma steps_app n m v prev : steps (n + m) v prev = steps n v prev ++ steps m v (prev + Z.of_nat n * v).
Proof.
  revert prev. induction n as [|n IH]; intros prev; cbn [steps app Nat.add]; [f_equal; lia|].
  rewrite IH. do 3 f_equal. lia.
Qed.

Lemma lastd_steps n v prev p : lastd p (steps (Datatypes.S n) v prev) = prev + (Z.of_nat n + 1) * v.
Proof.
  revert prev p. induction n as [|n IH]; intros prev p; [cbn; lia|].
  change (steps (Datatypes.S (Datatypes.S n)) v prev) with ([prev + v] ++ steps (Datatypes.S n) v (prev + v)).
  rewrite lastd_app, IH. lia.
Qed.

Lemma lastd_steps' n v prev : lastd prev (steps n v prev) = prev + Z.of_nat n * v.
Proof. destruct n; [cbn; lia|]. rewrite lastd_steps. lia. Qed.

Lemma lastd_vals ws p prev n v : lastd p (rd_vals prev (ws ++ [(Datatypes.S n, v)])) =
  lastd prev (rd_vals prev ws) + (Z.of_nat n + 1) * v.
Proof.
  revert p prev. induction ws as [|[m w] ws IH]; intros p prev; cbn [rd_vals app].
  - rewrite app_nil_r. apply lastd_steps.
  - rewrite !lastd_app, lastd_steps'. by rewrite IH.
Qed.

Lemma rd_vals_app prev a b : rd_vals prev (a ++ b) = rd_vals prev a ++ rd_vals (lastd prev (rd_vals prev a)) b.
Proof.
  revert prev. induction a as [|[n v] a IH]; intros prev; cbn [rd_vals app]; [done|].
  by rewrite IH, lastd_app, lastd_steps', app_assoc.
Qed.

Lemma rd_bytes_app a b : rd_bytes (a ++ b) = rd_bytes a ++ rd_bytes b.
Proof. unfold rd_bytes. by rewrite map_app, concat_app. Qed.

Lemma vb_facts x : fits 32 x -> 1 <= zlen (vb x) <= 5 /\ bytes_ok (vb x) /\ vl_pack VlUint32 x 5 = Ok (zlen (vb x), vb x) /\
  forall rest, vl_unpack VlUint32 (vb x ++ rest) = Ok (x, zlen (vb x)).
Proof.
  intros Hx. destruct (vl_pack_ok VlUint32 x Hx) as (bs & Hl & Hbo & Hpk & Hu & _).
  unfold vb, item_bytes. rewrite (Hpk _ (proj2 Hl)). cbn [snd]. split; [exact Hl|]. split; [done|]. split; [|done].
  apply Hpk. exact (proj2 Hl).
Qed.

(** The numbers a word is made of. *)
Lemma rword_nums n v : rword_ok (n, v) ->
  (fits 32 (2 * v) /\ 2 * v &&& 1 = 0 /\ (2 * v) >>> 1 = v) /\
  (fits 32 (2 * Z.of_nat n + 1) /\ (2 * Z.of_nat n + 1) &&& 1 = 1 /\ (2 * Z.of_nat n + 1) >>> 1 = Z.of_nat n).
Proof.
  intros (Hn & Hv & _). cbn [fst snd] in *. assert (forall x, x &&& 1 = x mod 2) as Hl by (intros x; apply (Z.land_ones x 1); lia).
  rewrite !Hl, !Z.shiftr_div_pow2 by lia. change (2 ^ 1) with 2. unfold fits.
  clear Hl. repeat split; Z.to_euclidean_division_equations; lia.
Qed.

Lemma rbytes_facts w : rword_ok w -> 1 <= zlen (rbytes w) <= 5 * Z.of_nat (fst w) /\ bytes_ok (rbytes w).
Proof.
  destruct w as [n v]. intros Hw. destruct (rword_nums n v Hw) as [(H1 & _) (H2 & _)]. pose proof (proj1 Hw) as Hn. cbn [fst] in Hn.
  destruct (vb_facts _ H1) as (? & ? & _), (vb_facts _ H2) as (? & ? & _). unfold rbytes. cbn [fst snd].
  case_decide; [by split; [lia|]|]. rewrite length_app. split; [lia|]. by apply Forall_app.
Qed.

Lemma rd_bytes_facts ws prev : Forall rword_ok ws -> bytes_ok (rd_bytes ws) /\
  zlen ws <= zlen (rd_bytes ws) <= 5 * zlen (rd_vals prev ws) /\ zlen ws <= zlen (rd_vals prev ws).
Proof.
  intros Hws. revert prev. induction Hws as [|[n v] ws Hw Hws IH]; intros prev; cbn [rd_bytes map concat rd_vals]; [split; [constructor|cbn; lia]|].
  destruct (rbytes_facts _ Hw) as [Hl Hb]. destruct (IH (prev + Z.of_nat n * v)) as (Hb' & Hl' & Hl''). rewrite !length_app, length_steps.
  pose proof (proj1 Hw). cbn [length fst] in *. fold (rd_bytes ws). split; [by apply Forall_app|]. lia.
Qed.

(** Reading one word, at the get position or at an offset. *)
Section read_words.
Context {S : Type} {B : Backend S} {BO : BackendOk S}.
Implicit Types (s : S).

Lemma vb_vl x : fits 32 x -> vl_ok VlUint32 x.
Proof using. done. Qed.

Lemma read_word s a pre n v rest : rword_ok (n, v) -> reading s a pre (rbytes (n, v) ++ rest) ->
  exists a1 x, uba_sgetVl VlUint32 s a = Ok (a1, x) /\
    ((n = 1%nat /\ x &&& 1 = 0 /\ x >>> 1 = v /\ reading s a1 (pre ++ rbytes (n, v)) rest) \/
     ((2 <= n)%nat /\ x &&& 1 = 1 /\ x >>> 1 = Z.of_nat n /\
      exists a2 y, uba_sgetVl VlUint32 s a1 = Ok (a2, y) /\ y >>> 1 = v /\ reading s a2 (pre ++ rbytes (n, v)) rest)).
Proof using BO.
  intros Hw Hr. destruct (rword_nums n v Hw) as [(H1 & L1 & S1) (H2 & L2 & S2)]. pose proof (proj1 Hw) as Hn. cbn [fst] in Hn.
  unfold rbytes in *. cbn [fst snd] in *. case_decide as Hd.
  - destruct (read_vl VlUint32 _ s a pre rest (vb_vl _ H1) Hr) as (a1 & Hg & Hr1). exists a1, (2 * v). split; [done|]. left. done.
  - rewrite <- app_assoc in Hr.
    destruct (read_vl VlUint32 _ s a pre _ (vb_vl _ H2) Hr) as (a1 & Hg & Hr1).
    destruct (read_vl VlUint32 _ s a1 _ rest (vb_vl _ H1) Hr1) as (a2 & Hg2 & Hr2). exists a1, (2 * Z.of_nat n + 1).
    split; [done|]. right. split; [lia|]. split; [done|]. split; [done|]. exists a2, (2 * v). split; [done|]. split; [done|].
    by rewrite app_assoc.
Qed.

Lemma get_word s a pre n v rest : rword_ok (n, v) -> buf s a (pre ++ rbytes (n, v) ++ rest) ->
  exists x l1, uba_getVl VlUint32 s a (zlen pre) = Ok (x, l1) /\
    ((n = 1%nat /\ x &&& 1 = 0 /\ x >>> 1 = v /\ l1 = zlen (rbytes (n, v))) \/
     ((2 <= n)%nat /\ x &&& 1 = 1 /\ x >>> 1 = Z.of_nat n /\ 0 <= l1 <= zlen (rbytes (n, v)) /\
      exists y l2, uba_getVl VlUint32 s a (zlen pre + l1) = Ok (y, l2) /\ y >>> 1 = v /\ l1 + l2 = zlen (rbytes (n, v)))).
Proof using BO.
  intros Hw Hb. destruct (rword_nums n v Hw) as [(H1 & L1 & S1) (H2 & L2 & S2)]. pose proof (proj1 Hw) as Hn. cbn [fst] in Hn.
  destruct (vb_facts _ H1) as (Hl1 & _ & _ & Hu1), (vb_facts _ H2) as (Hl2 & _ & _ & Hu2).
  unfold rbytes in *. cbn [fst snd] in *. case_decide as Hd.
  - eexists _, _. split; [apply (buf_getVl_middle VlUint32 s a pre (vb (2 * v)) rest (2 * v) Hb); cbn [vl_max_len]; [lia|done]|].
    left. done.
  - rewrite <- app_assoc in Hb. eexists _, _.
    split; [apply (buf_getVl_middle VlUint32 s a pre _ _ (2 * Z.of_nat n + 1) Hb); cbn [vl_max_len]; [lia|done]|].
    right. split; [lia|]. split; [done|]. split; [done|]. split; [rewrite length_app; lia|]. rewrite app_assoc in Hb.
    eexists _, _. split; [|split; [exact S1|rewrite length_app; rewrite Nat2Z.inj_add; reflexivity]].
    rewrite <- Nat2Z.inj_add, <- length_app. apply (buf_getVl_middle VlUint32 s a _ _ _ (2 * v) Hb); cbn [vl_max_len]; [lia|done].
Qed.
End read_words.

(** * Readers *)

(** Ids of an index of this type are below 2^31: a difference is shifted by one bit. *)
Definition ids31 (src : list Z) : Prop := Forall (fun z => 0 <= z < 2 ^ 31) src.

Lemma rd_expand_ok n prev v : ids31 (steps n v prev) -> rd_expand n prev v = (prev + Z.of_nat n * v, steps n v prev).
Proof.
  revert prev. induction n as [|n IH]; intros prev Hs; cbn [rd_expand steps]; [f_equal; lia|].
  cbn [steps] in Hs. apply Forall_cons in Hs as [Hx Hs]. rewrite wrap_small by (unfold fits; lia). rewrite IH by done.
  f_equal. lia.
Qed.

Section readers.
Context {S : Type} {B : Backend S} {BO : BackendOk S}.
Implicit Types (s : S).

(** The index [d] holds the ids of the words [ws]. *)
Record rd_words s (d : rd) (ws : list rword) : Prop := {
  rw_buf : buf s (rd_data d) (rd_bytes ws);
  rw_get : m_getPtr (rd_data d) = 0;
  rw_count : rd_count d = zlen (rd_vals 0 ws);
  rw_ok : Forall rword_ok ws;
  rw_ids : ids31 (rd_vals 0 ws);
  rw_few : zlen (rd_vals 0 ws) < 2 ^ 31;
  rw_small : zlen (rd_bytes ws) < 2 ^ 32 - 1;
}.

(** The words [k] are in its cache. *)
Record rd_cached (d : rd) (k ws : list rword) : Prop := {
  rc_off : rd_dataOffset d = zlen (rd_bytes k);
  rc_cur : rd_curId d = lastd 0 (rd_vals 0 k);
  rc_ids : rd_cache d = rd_vals 0 k;
}.

Lemma rd_put_loop_ok fuel ws s a pre prev rest : Forall rword_ok ws -> ids31 (rd_vals prev ws) ->
  reading s a pre (rd_bytes ws ++ rest) -> (length ws < fuel)%nat ->
  rd_put_loop fuel s a prev (zlen (rd_vals prev ws)) = Ok (rd_vals prev ws).
Proof using BO.
  revert ws a pre prev. induction fuel as [|fuel IH]; intros ws a pre prev Hok Hids Hr Hf; [lia|]. cbn [rd_put_loop].
  destruct ws as [|[n v] ws]; [done|]. apply Forall_cons in Hok as [Hw Hok]. cbn [rd_vals length] in *.
  apply Forall_app in Hids as [Hs Hids]. pose proof (proj1 Hw) as Hn. cbn [fst] in Hn. rewrite length_app, length_steps.
  rewrite (proj2 (Z.eqb_neq _ _)) by lia. unfold rd_bytes in Hr. cbn [map concat] in Hr. rewrite <- app_assoc in Hr.
  destruct (read_word s a pre n v _ Hw Hr) as (a1 & x & -> & [(-> & Hl & Hx & Hr')|(Hn2 & Hl & Hx & a2 & y & Hg & Hy & Hr')]).
  - rewrite bind_ok_l, Hl, Hx. cbn [Z.eqb negb steps app] in *. apply Forall_inv in Hs as Hp. rewrite wrap_small by (unfold fits; lia).
    replace (prev + Z.of_nat 1 * v) with (prev + v) in * by lia.
    replace (Z.of_nat (1 + length (rd_vals (prev + v) ws)) - 1) with (zlen (rd_vals (prev + v) ws)) by lia.
    rewrite (IH ws a1 _ (prev + v) Hok Hids Hr') by lia. done.
  - rewrite bind_ok_l, Hl. cbn [Z.eqb negb]. rewrite Hg, bind_ok_l, Hx, Hy, Nat2Z.id.
    rewrite (proj2 (Z.ltb_ge _ _)) by lia. cbn [throw_if]. rewrite bind_ok_l, rd_expand_ok by done.
    replace (Z.of_nat (n + length (rd_vals (prev + Z.of_nat n * v) ws)) - Z.of_nat n)
      with (zlen (rd_vals (prev + Z.of_nat n * v) ws)) by lia.
    rewrite (IH ws a2 _ _ Hok Hids Hr') by lia. done.
Qed.

Lemma rd_putInto_ok s d ws : rd_words s d ws -> rd_putInto s d = Ok (rd_vals 0 ws).
Proof using BO.
  intros [Hb Hg Hc Hok Hids Hf Hs]. unfold rd_putInto. rewrite Hc.
  apply (rd_put_loop_ok _ ws s (rd_data d) [] 0 [] Hok Hids); [by split; [rewrite app_nil_r|]|].
  pose proof (rd_bytes_facts ws 0 Hok). rewrite (buf_len _ _ _ Hb). lia.
Qed.

Lemma rd_decode_ok fuel s d k ws pos : rd_words s d (k ++ ws) -> rd_cached d k ws ->
  0 <= pos < zlen (rd_vals 0 (k ++ ws)) -> (length ws < fuel)%nat ->
  exists d' k' ws', rd_decode fuel s d pos = Ok d' /\ k ++ ws = k' ++ ws' /\ rd_words s d' (k ++ ws) /\
    rd_cached d' k' ws' /\ pos < zlen (rd_cache d').
Proof using BO.
  revert d k ws. induction fuel as [|fuel IH]; intros d k ws Hh Hc Hp Hf; [lia|].
  cbn [rd_decode]. pose proof Hc as [Hoff Hcur Hids]. destruct (Z.leb_spec (zlen (rd_cache d)) pos) as [Hle|Hlt].
  2: { exists d, k, ws. done. }
  rewrite Hids in Hle |- *. pose proof Hp as Hp0. rewrite rd_vals_app, length_app in Hp. destruct ws as [|[n v] ws]; [cbn in Hp; lia|].
  pose proof Hh as [Hb Hg Hcn Hok Hi Hfew Hsm]. pose proof Hok as Hok'. apply Forall_app in Hok' as [Hok1 Hok2].
  pose proof (Forall_inv Hok2) as Hw. cbn [length] in Hf.
  rewrite rd_bytes_app in Hb. unfold rd_bytes at 2 in Hb. cbn [map concat] in Hb. fold (rd_bytes ws) in Hb.
  rewrite rd_bytes_app, length_app in Hsm. unfold rd_bytes at 2 in Hsm. cbn [map concat] in Hsm. fold (rd_bytes ws) in Hsm.
  rewrite length_app in Hsm. rewrite rd_vals_app in Hi. cbn [rd_vals] in Hi. apply Forall_app in Hi as [_ Hi].
  apply Forall_app in Hi as [Hi _]. destruct (rbytes_facts _ Hw) as [Hwl _].
  pose proof (rd_vals_app 0 k [(n, v)]) as Hks. cbn [rd_vals] in Hks. rewrite app_nil_r in Hks.
  pose proof (rd_bytes_app k [(n, v)]) as Hkb. unfold rd_bytes at 3 in Hkb. cbn [map concat] in Hkb. rewrite app_nil_r in Hkb.
  assert (forall d', rd_data d' = rd_data d -> rd_count d' = rd_count d ->
    rd_dataOffset d' = zlen (rd_bytes k) + zlen (rbytes (n, v)) ->
    rd_curId d' = lastd 0 (rd_vals 0 k) + Z.of_nat n * v ->
    rd_cache d' = rd_vals 0 k ++ steps n v (lastd 0 (rd_vals 0 k)) ->
    exists d'' k' ws', rd_decode fuel s d' pos = Ok d'' /\ k ++ (n, v) :: ws = k' ++ ws' /\ rd_words s d'' (k ++ (n, v) :: ws) /\
      rd_cached d'' k' ws' /\ pos < zlen (rd_cache d'')) as Hstep.
  { intros d' E1 E2 E3 E4 E5. assert (rd_words s d' (k ++ (n, v) :: ws)) as Hh' by (destruct Hh; split; rewrite ?E1, ?E2; done).
    assert (k ++ (n, v) :: ws = (k ++ [(n, v)]) ++ ws) as Hcons by apply app_cons.
    rewrite Hcons in Hh', Hp0 |- *. apply IH; [done| |done|lia]. split.
    - rewrite E3, Hkb, length_app. lia.
    - by rewrite E4, Hks, lastd_app, lastd_steps'.
    - by rewrite E5, Hks. }
  rewrite Hoff. destruct (get_word s (rd_data d) (rd_bytes k) n v _ Hw Hb)
    as (x & l1 & -> & [(-> & Hl & Hx & ->)|(Hn2 & Hl & Hx & Hl1 & y & l2 & Hg2 & Hy & Hl2)]).
  - rewrite bind_ok_l, Hl, Hx, Hcur. cbn [Z.eqb negb]. cbn [steps] in Hi. apply Forall_inv in Hi as Hi1.
    rewrite (wrap_small 32 (lastd _ _ + v)), (wrap_small 32 (zlen _ + _)) by (unfold fits; lia).
    apply Hstep; cbn [rd_data rd_count rd_dataOffset rd_curId rd_cache steps]; try done. lia.
  - rewrite bind_ok_l, Hl, Hx, Hcur. cbn [Z.eqb negb]. rewrite (wrap_small 32 (zlen _ + l1)) by (unfold fits; lia).
    rewrite Hg2, bind_ok_l, Hy, Nat2Z.id, rd_expand_ok by done. rewrite (wrap_small 32 (_ + l1 + l2)) by (unfold fits; lia).
    apply Hstep; cbn [rd_data rd_count rd_dataOffset rd_curId rd_cache]; try done. lia.
Qed.
End readers.

(** An index in use. *)
Definition rd_usable {S : Type} {B : Backend S} {BO : BackendOk S} (s : S) (d : rd) (src : list Z) : Prop :=
  exists k ws, rd_words s d (k ++ ws) /\ rd_cached d k ws /\ src = rd_vals 0 (k ++ ws).

Section lookups.
Context {S : Type} {B : Backend S} {BO : BackendOk S}.
Implicit Types (s : S).

Lemma rd_usable_words s d src : rd_usable s d src -> exists ws, rd_words s d ws /\ src = rd_vals 0 ws.
Proof using. intros (k & ws & Hw & _ & ->). by exists (k ++ ws). Qed.

Lemma rd_usable_ids31 s d src : rd_usable s d src -> ids31 src.
Proof using. intros (ws & Hw & ->)%rd_usable_words. apply Hw. Qed.

Lemma rd_at_ok s d src pos : rd_usable s d src -> 0 <= pos ->
  exists d', rd_at s d pos = Ok (d', default 0 (src !! Z.to_nat pos)) /\ rd_usable s d' src.
Proof using BO.
  intros (k & ws & Hh & Hc & ->) Hp. unfold rd_at, rd_size. pose proof Hh as [Hb _ Hn Hok _ _ _]. rewrite Hn.
  set (src := rd_vals 0 (k ++ ws)) in *.
  destruct (Z.eqb_spec (zlen src) 0); cbn [orb]; [|destruct (Z.leb_spec (zlen src) pos); cbn [orb]].
  1, 2: exists d; rewrite lookup_ge_None_2 by lia; split; [done|]; by exists k, ws.
  pose proof (rd_bytes_facts _ 0 Hok) as Hl. rewrite length_app in Hl.
  destruct (rd_decode_ok (Datatypes.S (Z.to_nat (m_len (rd_data d)))) s d k ws pos Hh Hc)
    as (d' & k' & ws' & -> & Hk & Hh' & Hc' & Hlt); [fold src; lia|rewrite (buf_len _ _ _ Hb); lia|].
  rewrite bind_ok_l. rewrite (rc_ids _ _ _ Hc') in Hlt |- *.
  assert (src = rd_vals 0 k' ++ rd_vals (lastd 0 (rd_vals 0 k')) ws') as Hsrc by (unfold src; by rewrite Hk, rd_vals_app).
  destruct (lookup_lt_is_Some_2 (rd_vals 0 k') (Z.to_nat pos)) as [x Hx]; [lia|].
  rewrite (proj2 (vget_ok _ _ x)) by (split; [lia|done]). rewrite bind_ok_l. exists d'.
  rewrite Hsrc at 1. rewrite lookup_app_l, Hx by lia. split; [done|]. exists k', ws'. rewrite <- Hk. done.
Qed.

Definition rd_ai_rep (s : S) (w : S * rd) (src : list Z) : Prop := fst w = s /\ rd_usable (fst w) (snd w) src.

Lemma rd_ai_at_ok s (w : S * rd) l (pos : nat) x : rd_ai_rep s w l -> l !! pos = Some x ->
  exists w', rd_ai_at w (Z.of_nat pos) = Ok (w', x) /\ rd_ai_rep s w' l.
Proof using BO.
  destruct w as [s' d]. intros [E Hu] Hx. cbn in E, Hu. subst s'.
  destruct (rd_at_ok s d l (Z.of_nat pos) Hu) as (d' & Ha & Hu'); [lia|]. rewrite Nat2Z.id, Hx in Ha.
  unfold rd_ai_at. cbn [fst snd]. rewrite Ha, bind_ok_l. by exists (s, d').
Qed.

#[export] Program Instance rd_AtIndexOk (s : S) : AtIndexOk (S * rd) := {| ai_rep := rd_ai_rep s |}.
Next Obligation. intros s [s' d] l [_ (ws & [] & ->)%rd_usable_words]. done. Qed.
Next Obligation. intros s [s' d] l [_ (ws & [] & ->)%rd_usable_words]. lia. Qed.
Next Obligation. exact rd_ai_at_ok. Qed.
Next Obligation. exact rd_ai_at_ok. Qed.

(** The iterator: the current id, what is left of its run, the words behind. *)
Record ri_ok s (d : rd) (it : rd_iter) (cur : Z) (rest : list Z) : Prop := {
  ri_view : exists k n v ws, rd_words s d (k ++ ws) /\ ri_dataOffset it = zlen (rd_bytes k) /\
    ri_rleCount it = Z.of_nat n /\ (n <> 0%nat -> ri_rleDiff it = v) /\
    rest = steps n v cur ++ rd_vals (cur + Z.of_nat n * v) ws /\ Z.of_nat n < 2 ^ 31;
  ri_cur : ri_curId it = cur;
  ri_ids31 : ids31 rest;
}.

Lemma ri_next_ok s d it cur x rest : ri_ok s d it cur (x :: rest) ->
  exists it', ri_next s d it = Ok it' /\ ri_ok s d it' x rest.
Proof using BO.
  intros [(k & n & v & ws & Hw & Hoff & Hrc & Hrd & Hrest & Hn) Hcur Hids]. unfold ri_next. rewrite Hrc.
  destruct n as [|n]; cbn [steps app] in Hrest.
  - change (Z.of_nat 0) with 0. cbn [Z.eqb negb]. replace (cur + Z.of_nat 0 * v) with cur in Hrest by lia. destruct ws as [|[m w] ws]; [done|].
    pose proof Hw as [Hb _ _ Hok _ _ Hsm]. pose proof Hok as Hok'. apply Forall_app in Hok' as [_ Hok2].
    pose proof (Forall_inv Hok2) as Hwk. rewrite rd_bytes_app in Hb, Hsm. unfold rd_bytes at 2 in Hb. unfold rd_bytes at 2 in Hsm.
    cbn [map concat] in Hb, Hsm. fold (rd_bytes ws) in Hb, Hsm. rewrite !length_app in Hsm. cbn [rd_vals] in Hrest.
    destruct (rbytes_facts _ Hwk) as [Hwl _].
    rewrite Hoff, (buf_len _ _ _ Hb), !length_app, (proj2 (Z.ltb_lt _ _)) by lia.
    pose proof (rd_bytes_app k [(m, w)]) as Hkb. unfold rd_bytes at 3 in Hkb. cbn [map concat] in Hkb. rewrite app_nil_r in Hkb.
    assert (k ++ (m, w) :: ws = (k ++ [(m, w)]) ++ ws) as Hcons by apply app_cons. rewrite Hcons in Hw.
    pose proof (proj1 Hwk) as Hm. cbn [fst] in Hm. destruct m as [|m]; [lia|]. cbn [steps app] in Hrest. injection Hrest as -> ->.
    apply Forall_inv in Hids as Hx. apply Forall_inv_tail in Hids as Hids'.
    destruct (get_word s (rd_data d) (rd_bytes k) _ w _ Hwk Hb)
      as (y & l1 & -> & [([= ->] & Hl & Hx' & ->)|(Hn2 & Hl & Hx' & Hl1 & z & l2 & Hg2 & Hy & Hl2)]).
    + rewrite bind_ok_l, Hl, Hx', Hcur. cbn [Z.eqb negb]. rewrite (wrap_small 64 (zlen _ + _)), wrap_small by (unfold fits; lia).
      eexists. split; [done|]. split; [|done|done]. exists (k ++ [(1%nat, w)]), 0%nat, 0, ws. split; [done|].
      rewrite Hkb, length_app. cbn [ri_dataOffset ri_rleCount steps app]. split; [lia|]. split; [done|]. split; [done|]. split; [|lia].
      f_equal. lia.
    + rewrite bind_ok_l, Hl, Hx', Hcur. cbn [Z.eqb negb]. rewrite (wrap_small 64 (zlen _ + l1)) by (unfold fits; lia).
      rewrite Hg2, bind_ok_l, Hy, (wrap_small 64 (_ + l1 + l2)), (wrap_small 32 (cur + w)), (wrap_small 32 (_ - 1)) by (unfold fits; lia).
      eexists. split; [done|]. split; [|done|done]. exists (k ++ [(Datatypes.S m, w)]), m, w, ws. split; [done|].
      rewrite Hkb, length_app. cbn [ri_dataOffset ri_rleCount ri_rleDiff]. split; [lia|]. split; [lia|]. split; [done|]. split; [|lia].
      do 2 f_equal. lia.
  - rewrite (proj2 (Z.eqb_neq _ _)) by lia. cbn [negb]. injection Hrest as -> ->. apply Forall_inv in Hids as Hx.
    rewrite Hcur, Hrd, (wrap_small 32 (cur + v)), wrap_small by (done || unfold fits; lia). eexists. split; [done|].
    split; [|done|by apply Forall_inv_tail in Hids]. exists k, n, v, ws. split; [done|]. cbn [ri_dataOffset ri_rleCount ri_rleDiff].
    split; [done|]. split; [lia|]. split; [done|]. split; [|lia]. do 2 f_equal. lia.
Qed.

Lemma rd_vals_nil prev ws : Forall rword_ok ws -> rd_vals prev ws = [] -> ws = [].
Proof using.
  intros Hok Hv. destruct ws as [|[n v] ws]; [done|]. apply Forall_inv in Hok as [Hn _]. cbn [fst] in Hn.
  cbn [rd_vals] in Hv. destruct n; [lia|]. done.
Qed.

Lemma ri_end s d it cur : ri_ok s d it cur [] -> exists it', ri_next s d it = Ok it' /\ ri_dataOffset it' = max_u32.
Proof using BO.
  intros [(k & n & v & ws & Hw & Hoff & Hrc & Hrd & Hrest & Hn) Hcur Hids]. unfold ri_next. rewrite Hrc.
  destruct n; [|done]. change (Z.of_nat 0) with 0 at 1. cbn [Z.eqb negb]. pose proof (rw_ok _ _ _ Hw) as Hok.
  apply Forall_app in Hok as [_ Hok]. symmetry in Hrest. apply (rd_vals_nil _ ws Hok) in Hrest as ->. rewrite app_nil_r in Hw.
  rewrite Hoff, (buf_len _ _ _ (rw_buf _ _ _ Hw)), Z.ltb_irrefl. by eexists.
Qed.

Lemma ri_collect_ok fuel s d it fin cur rest : ri_ok s d it cur rest -> ri_dataOffset fin = max_u32 ->
  (length rest + 1 < fuel)%nat -> ri_collect fuel s d it fin = Ok (cur :: rest).
Proof using BO.
  revert it cur rest. induction fuel as [|fuel IH]; intros it cur rest Hit Hfin Hf; [lia|].
  cbn [ri_collect]. unfold ri_notEq, ri_get. rewrite Hfin.
  assert (max_u32 <> ri_dataOffset it) as Hne.
  { destruct (ri_view _ _ _ _ _ Hit) as (k & n & v & ws & Hw & -> & _). pose proof (rw_small _ _ _ Hw) as Hs.
    rewrite rd_bytes_app, length_app in Hs. change max_u32 with (2 ^ 32 - 1). lia. }
  rewrite (proj2 (Z.eqb_neq _ _)) by done. cbn [negb]. destruct rest as [|x rest].
  - destruct (ri_end s d it cur Hit) as (it' & -> & Ho). rewrite bind_ok_l. destruct fuel as [|fuel]; [cbn [length] in Hf; lia|].
    cbn [ri_collect]. unfold ri_notEq. rewrite Hfin, Ho, Z.eqb_refl. cbn [negb]. by rewrite bind_ok_l, (ri_cur _ _ _ _ _ Hit).
  - destruct (ri_next_ok s d it cur x rest Hit) as (it' & -> & Hit'). cbn [length] in Hf.
    rewrite bind_ok_l, (IH it' x rest Hit' Hfin) by lia. by rewrite bind_ok_l, (ri_cur _ _ _ _ _ Hit).
Qed.

Lemma rd_iterate_ok s d src : rd_usable s d src ->
  exists b e, rd_cbegin s d = Ok b /\ rd_cend s d = Ok e /\
    ri_collect (Datatypes.S (Datatypes.S (length src))) s d b e = Ok src.
Proof using BO.
  intros (ws & Hw & ->)%rd_usable_words. pose proof Hw as [Hb _ _ Hok Hids _ Hsm]. unfold rd_cbegin, rd_cend, ri_new.
  assert (ri_ok s d (mkRdIter 0 0 0 0) 0 (rd_vals 0 ws)) as Hstart.
  { split; [|done|done]. exists [], 0%nat, 0, ws. cbn [ri_dataOffset ri_rleCount steps app rd_bytes map concat]. done. }
  assert (ri_next s d (mkRdIter max_u32 0 0 0) = Ok (mkRdIter max_u32 0 0 max_u32)) as ->.
  { unfold ri_next. cbn [ri_rleCount ri_dataOffset]. rewrite (buf_len _ _ _ Hb), (proj2 (Z.ltb_ge _ _)); [done|].
    change max_u32 with (2 ^ 32 - 1). lia. }
  destruct (rd_vals 0 ws) as [|x rest].
  - destruct (ri_end _ _ _ _ Hstart) as (it & -> & Ho). eexists _, _. split; [done|]. split; [done|].
    cbn [length ri_collect]. unfold ri_notEq. by rewrite Ho.
  - destruct (ri_next_ok _ _ _ _ _ _ Hstart) as (it & -> & Hit). eexists _, _. split; [done|]. split; [done|].
    cbn [length]. apply ri_collect_ok; [done|done|lia].
Qed.
End lookups.

(** * The creator *)

(** The creator has got the ids [out]: the words [ws] are written and a run of [n]
    differences [v] is pending. *)
Record rdc_state (c : rdc) (ws : list rword) (n : nat) (v : Z) : Prop := {
  rs_buf : buf (rc_mem c) (rc_data c) (rd_bytes ws);
  rs_off : m_offSet (rc_data c) = 0;
  rs_put : m_putPtr (rc_data c) = zlen (rd_bytes ws);
  rs_ok : Forall rword_ok ws;
  rs_rle : rc_rle c = Z.of_nat n;
  rs_diff : rc_lastDiff c = v;
  rs_v : 0 <= v < 2 ^ 31;
  rs_v1 : (2 <= n)%nat -> 1 <= v;
}.

Definition rdc_rep (b : Z) (c : rdc) (out : list Z) : Prop :=
  rc_beginning c = b /\ rc_prev c = lastd 0 out /\ rc_count c = zlen out /\ ids31 out /\ zlen out < 2 ^ 32 /\
  exists ws n v, rdc_state c ws n v /\ out = rd_vals 0 ws ++ steps n v (lastd 0 (rd_vals 0 ws)).

Lemma rdc_state_fields c ws n v b cnt p : rdc_state c ws n v ->
  rdc_state (mkRdc (rc_mem c) (rc_data c) b (rc_rle c) (rc_lastDiff c) cnt p) ws n v.
Proof. intros []. by split. Qed.

Lemma rdc_new_ok dest : rdc_rep (m_putPtr dest) (rdc_new dest) [].
Proof.
  split; [done|]. split; [done|]. split; [done|]. split; [constructor|]. split; [done|].
  exists [], 0%nat, 0. split; [|done]. split; [|done|done|constructor|done|done|lia|lia].
  split; [|done]. split; cbn; unfold fits; first [done|lia|constructor].
Qed.

Lemma rdc_put_ok c l x : buf (rc_mem c) (rc_data c) l -> m_offSet (rc_data c) = 0 -> m_putPtr (rc_data c) = zlen l ->
  fits 32 x -> zlen l + 5 < 2 ^ 64 ->
  exists c', rdc_put c x = Ok c' /\ buf (rc_mem c') (rc_data c') (l ++ vb x) /\ m_offSet (rc_data c') = 0 /\
    m_putPtr (rc_data c') = zlen (l ++ vb x) /\
    c' = mkRdc (rc_mem c') (rc_data c') (rc_beginning c) (rc_rle c) (rc_lastDiff c) (rc_count c) (rc_prev c).
Proof.
  intros Hb Ho Hp Hx Hn. unfold rdc_put. destruct (vb_facts x Hx) as (Hl & Hbo & Hpk & _).
  destruct (sputVl_ok (rc_mem c) (rc_data c) l Hb) with (ty := VlUint32) (v := x) (bs := vb x)
    as (m & d & -> & [Hb' Ho' Hg' Hp']); [lia|exact Hpk|done|lia|].
  rewrite bind_ok_l. eexists. split; [done|]. cbn [rc_mem rc_data].
  pose proof (splice_end l [] (vb x)) as Hs. rewrite drop_nil, !app_nil_r in Hs. rewrite Hp, Hs in Hb'.
  rewrite length_app. split; [done|]. split; [lia|]. split; [lia|done].
Qed.

(** Writing the pending run. *)
Lemma rdc_putRle_ok c ws n v : rdc_state c ws n v -> zlen (rd_bytes ws) < 2 ^ 40 -> Z.of_nat n < 2 ^ 31 ->
  exists c' ws', rdc_putRle c = Ok c' /\ rdc_state c' ws' n v /\
    rd_vals 0 ws' = rd_vals 0 ws ++ steps n v (lastd 0 (rd_vals 0 ws)) /\
    c' = mkRdc (rc_mem c') (rc_data c') (rc_beginning c) (rc_rle c) (rc_lastDiff c) (rc_count c) (rc_prev c).
Proof.
  intros [Hb Ho Hp Hok Hr Hd Hv Hv1] Hn Hn31. unfold rdc_putRle. rewrite Hr, Hd. destruct (Z.eqb_spec (Z.of_nat n) 0) as [E|E].
  { exists c, ws. split; [done|]. destruct n; [|lia]. split; [by split|]. rewrite app_nil_r.
    split; [done|]. rewrite <- Hr, <- Hd. by destruct c. }
  assert (rword_ok (n, v)) as Hw by (split; [cbn; lia|split; [done|cbn; intros; apply Hv1; lia]]).
  pose proof (rd_vals_app 0 ws [(n, v)]) as Hks. cbn [rd_vals] in Hks. rewrite app_nil_r in Hks.
  pose proof (rd_bytes_app ws [(n, v)]) as Hkb. unfold rd_bytes at 3 in Hkb. cbn [map concat] in Hkb. rewrite app_nil_r in Hkb.
  assert (Forall rword_ok (ws ++ [(n, v)])) as Hok' by (apply Forall_app; split; [done|by constructor]).
  destruct (rword_nums n v Hw) as [(H1 & _) (H2 & _)]. pose proof (buf_fits _ _ _ Hb).
  assert (u32 (v <<< 1) = 2 * v) as Hv2 by (rewrite Z.shiftl_mul_pow2, (Z.mul_comm v) by lia; by apply wrap_small).
  assert (u32 (Z.of_nat n <<< 1) ||| 1 = 2 * Z.of_nat n + 1) as Hn2.
  { rewrite Z.shiftl_mul_pow2, (Z.mul_comm (Z.of_nat n)), wrap_small by (unfold fits in *; lia). change (2 ^ 1) with 2.
    symmetry. apply Z.add_nocarry_lor. rewrite (Z.land_ones _ 1) by lia. change (2 ^ 1) with 2.
    rewrite Z.mul_comm. apply Z.mod_mul. lia. }
  rewrite Hv2, Hn2. destruct (Z.eqb_spec (Z.of_nat n) 1) as [E1|E1].
  - destruct (rdc_put_ok c _ _ Hb Ho Hp H1) as (c' & Hput & Hb' & Ho' & Hp' & Hc'); [lia|].
    exists c', (ws ++ [(n, v)]). split; [done|]. split; [|split; [done|by rewrite <- Hr, <- Hd]].
    unfold rbytes in Hkb. cbn [fst snd] in Hkb. rewrite decide_True in Hkb by lia. rewrite Hc'. split; rewrite ?Hkb; done.
  - destruct (rdc_put_ok c _ _ Hb Ho Hp H2) as (c1 & -> & Hb1 & Ho1 & Hp1 & Hc1); [lia|]. rewrite bind_ok_l.
    destruct (vb_facts _ H2) as (Hl2 & _).
    assert (rc_lastDiff c1 = v) as -> by (rewrite Hc1; done). rewrite Hv2.
    destruct (rdc_put_ok c1 _ _ Hb1 Ho1 Hp1 H1) as (c' & -> & Hb' & Ho' & Hp' & Hc'); [rewrite length_app; lia|].
    rewrite Hc1 in Hc'. exists c', (ws ++ [(n, v)]). split; [done|]. split; [|split; [done|by rewrite <- Hr, <- Hd]].
    unfold rbytes in Hkb. cbn [fst snd] in Hkb. rewrite decide_False, app_assoc in Hkb by lia. rewrite Hc'. split; rewrite ?Hkb; done.
Qed.

Lemma lastd_ids31 out : ids31 out -> 0 <= lastd 0 out < 2 ^ 31.
Proof.
  intros Ho. unfold lastd. destruct (last out) as [x|] eqn:E; cbn; [|lia].
  apply last_Some_elem_of in E. by eapply Forall_forall in Ho.
Qed.

Lemma rdc_pending ws n v : ids31 (rd_vals 0 ws ++ steps n v (lastd 0 (rd_vals 0 ws))) -> 0 <= v -> ((2 <= n)%nat -> 1 <= v) ->
  Z.of_nat n < 2 ^ 31.
Proof.
  intros Ho Hv Hv1. destruct (decide (2 <= n)%nat) as [Hn|Hn]; [|lia]. specialize (Hv1 Hn).
  pose proof (lastd_ids31 _ Ho) as Hl. rewrite lastd_app, lastd_steps' in Hl.
  apply Forall_app in Ho as [Ho _]. pose proof (lastd_ids31 _ Ho) as Hl'. nia.
Qed.

Lemma rdc_push_back_ok b c out id : rdc_rep b c out -> sorted (out ++ [id]) -> 0 <= id < 2 ^ 31 -> zlen out + 1 < 2 ^ 32 ->
  exists c', rdc_push_back c id = Ok c' /\ rdc_rep b c' (out ++ [id]) /\ (lastd 0 out < id -> rc_lastDiff c' = id - lastd 0 out) /\
    1 <= rc_rle c'.
Proof.
  intros (Hb & Hp & Hc & Hids & Hfew & ws & n & v & Hst & Hout) Hs Hid Hn. unfold rdc_push_back. rewrite Hc, Hp.
  pose proof (lastd_ids31 _ Hids) as Hl.
  assert (out <> [] -> lastd 0 out < id) as Hlt by apply (sorted_lastd out id Hs).
  assert ((zlen out =? 0) || (lastd 0 out <? id) = true) as ->.
  { destruct out; [done|]. rewrite (proj2 (Z.ltb_lt _ _)) by (by apply Hlt). apply orb_true_r. }
  cbn [negb throw_if]. rewrite bind_ok_l. cbn [app].
  assert (lastd 0 out <= id) as Hle by (destruct out; [cbn; lia|specialize (Hlt ltac:(done)); lia]).
  rewrite (wrap_small 32 (id - _)) by (unfold fits; lia).
  assert (ids31 (out ++ [id])) as Hids' by (apply Forall_app; split; [done|by constructor]).
  pose proof Hst as [_ _ _ Hok Hr Hd Hv Hv1]. rewrite Hd.
  assert (Z.of_nat n < 2 ^ 31) as Hn31 by (apply (rdc_pending ws n v); [by rewrite <- Hout|lia|done]).
  destruct (Z.eqb_spec (id - lastd 0 out) v) as [Ev|Ev].
  - eexists. split; [done|]. unfold mret, result_ret. cbn [rc_beginning rc_prev rc_count rc_lastDiff rc_rle].
    rewrite Hr, !wrap_small by (unfold fits; lia). split; [|split; [intros; by rewrite Ev|lia]].
    split; [done|]. split; [by rewrite lastd_snoc|]. split; [rewrite length_app; cbn [length rc_count]; lia|]. split; [done|].
    split; [rewrite length_app; cbn [length]; lia|]. exists ws, (n + 1)%nat, v. split.
    + destruct Hst. split; try done; cbn [rc_rle]; [lia|]. intros H2. assert (out <> []) as Hne by (rewrite Hout; destruct n; [lia|]; destruct (rd_vals 0 ws); done).
      specialize (Hlt Hne). lia.
    + rewrite steps_app, app_assoc, <- Hout. cbn [steps]. do 2 f_equal.
      rewrite Hout, lastd_app, lastd_steps' in Ev. lia.
  - destruct (rdc_putRle_ok c ws n v Hst) as (c' & ws' & -> & Hst' & Hvals & Hc'); [|done|].
    { pose proof (rd_bytes_facts ws 0 Hok) as (_ & Hl1 & _). rewrite Hout, length_app in Hfew. lia. }
    rewrite bind_ok_l. eexists. split; [done|]. unfold mret, result_ret. cbn [rc_beginning rc_prev rc_count rc_lastDiff rc_rle].
    split; [|split; [done|lia]]. assert (rc_beginning c' = b /\ rc_count c' = zlen out) as [-> ->] by (rewrite Hc'; done).
    rewrite wrap_small by (unfold fits; lia).
    split; [done|]. split; [by rewrite lastd_snoc|]. split; [rewrite length_app; cbn [length rc_count]; lia|]. split; [done|].
    split; [rewrite length_app; cbn [length]; lia|]. exists ws', 1%nat, (id - lastd 0 out). rewrite <- Hout in Hvals. split.
    + destruct Hst'. split; try done; cbn [rc_rle]; lia.
    + rewrite Hvals. cbn [steps]. do 2 f_equal. lia.
Qed.

#[export] Program Instance rdc_IndexCreatorOk (b : Z) : IndexCreatorOk rdc := {| cr_rep := rdc_rep b; cr_lim := 2 ^ 31; cr_cap := 2 ^ 32 - 1 |}.
Next Obligation. done. Qed.
Next Obligation.
  intros b c out id Hc Hs Hid Hn. destruct (rdc_push_back_ok b c out id Hc Hs Hid ltac:(lia)) as (c' & ? & ? & _). by exists c'.
Qed.

(** Pushing a run: [len] differences after the id. *)
Lemma rdc_push_rle_ok b c out id delta len : rdc_rep b c out -> sorted (out ++ id :: steps len delta id) ->
  ids31 (id :: steps len delta id) -> zlen out + Z.of_nat len + 1 < 2 ^ 32 -> 1 <= delta -> Z.of_nat len < 2 ^ 31 ->
  exists c', rdc_push_rle c id delta (Z.of_nat len) = Ok c' /\ rdc_rep b c' (out ++ id :: steps len delta id).
Proof.
  intros Hc Hs Hids Hn Hd Hl31. unfold rdc_push_rle. rewrite (proj2 (Z.ltb_lt _ _)) by lia. cbn [negb throw_if]. rewrite bind_ok_l.
  apply Forall_cons in Hids as [Hid Hids]. assert (sorted (out ++ [id])) as Hs1.
  { rewrite app_cons in Hs. by eapply sorted_app_l. }
  destruct (rdc_push_back_ok b c out id Hc Hs1 Hid) as (c1 & -> & Hc1 & _); [lia|]. rewrite bind_ok_l.
  destruct len as [|len]; [by exists c1|]. rewrite (proj2 (Z.eqb_neq _ _)) by lia. cbn [steps] in *.
  apply Forall_cons in Hids as [Hid2 Hids]. rewrite (wrap_small 32 (id + delta)) by (unfold fits; lia).
  rewrite app_cons in Hs. rewrite app_cons.
  assert (sorted ((out ++ [id]) ++ [id + delta])) as Hs2.
  { rewrite app_cons in Hs. by eapply sorted_app_l. }
  destruct (rdc_push_back_ok b c1 _ (id + delta) Hc1 Hs2 Hid2) as (c2 & -> & Hc2 & Hdiff & Hr1); [rewrite length_app; cbn [length]; lia|].
  rewrite lastd_snoc in Hdiff. rewrite bind_ok_l, Hdiff by lia. replace (id + delta - id) with delta by lia.
  rewrite Z.eqb_refl. cbn [negb throw_if]. rewrite bind_ok_l. replace (Z.of_nat (Datatypes.S len) - 1) with (Z.of_nat len) by lia.
  destruct Hc2 as (Hb2 & Hp2 & Hcn2 & Hids2 & Hfew2 & ws & n & v & Hst & Hout).
  set (all := (out ++ [id]) ++ id + delta :: steps len delta (id + delta)).
  assert (all = ((out ++ [id]) ++ [id + delta]) ++ steps len delta (id + delta)) as Hall by (unfold all; by rewrite app_cons).
  assert (lastd 0 all = id + delta + Z.of_nat len * delta) as Hlast.
  { rewrite Hall, lastd_app, lastd_snoc. apply lastd_steps'. }
  assert (ids31 all) as Hia by (rewrite Hall; apply Forall_app; done).
  pose proof (lastd_ids31 all Hia) as Hlb. rewrite Hlast in Hlb.
  pose proof Hst as [_ _ _ _ Hr Hdd _ _]. rewrite Hdiff in Hdd by lia. subst v.
  replace (id + delta - id) with delta in * by lia.
  rewrite Hr in Hr1.
  assert (all = rd_vals 0 ws ++ steps (n + len) delta (lastd 0 (rd_vals 0 ws))) as Hall2.
  { rewrite steps_app, app_assoc, <- Hout, Hall. do 2 f_equal. rewrite <- lastd_steps', <- lastd_app, <- Hout. by rewrite lastd_snoc. }
  assert (Z.of_nat (n + len) < 2 ^ 31) as Hnl by (apply (rdc_pending ws _ delta); [by rewrite <- Hall2|lia|lia]).
  eexists. split; [done|]. unfold mret, result_ret. rewrite (wrap_small 32 (Z.of_nat len)) by (unfold fits; lia).
  assert (zlen all = zlen out + 2 + Z.of_nat len) as Hla by (unfold all; rewrite !length_app; cbn [length]; rewrite length_steps; lia).
  rewrite !length_app in Hcn2. cbn [length] in Hcn2.
  rewrite Hcn2, Hp2, lastd_snoc, Hr. rewrite (wrap_small 32 (delta * _)), !wrap_small by (unfold fits; nia).
  split; [done|]. cbn [rc_prev rc_count]. split; [lia|]. split; [lia|]. split; [done|]. split; [lia|].
  exists ws, (n + len)%nat, delta. split; [|done]. destruct Hst. split; try done; cbn [rc_rle]; lia.
Qed.

(** * Writing and opening an index *)

(** The bytes of an index. *)
Definition rd_image (cnt : Z) (ws : list rword) : list Z := vb cnt ++ vb (zlen (rd_bytes ws)) ++ rd_bytes ws.

Lemma rdc_flushRle_ok b c out : rdc_rep b c out -> exists c' ws, rdc_flushRle c = Ok c' /\
  buf (rc_mem c') (rc_data c') (rd_bytes ws) /\ m_offSet (rc_data c') = 0 /\ m_putPtr (rc_data c') = zlen (rd_bytes ws) /\
  Forall rword_ok ws /\ rd_vals 0 ws = out /\ rc_beginning c' = b /\ rc_count c' = zlen out.
Proof.
  intros (Hb & Hp & Hc & Hids & Hfew & ws & n & v & Hst & Hout). unfold rdc_flushRle. pose proof Hst as [_ _ _ Hok Hr Hd Hv Hv1].
  destruct (rdc_putRle_ok c ws n v Hst) as (c' & ws' & -> & [] & Hvals & Hc').
  - pose proof (rd_bytes_facts ws 0 Hok) as (_ & Hl1 & _). rewrite Hout, length_app in Hfew. lia.
  - apply (rdc_pending ws n v); [by rewrite <- Hout|lia|done].
  - rewrite bind_ok_l. eexists _, ws'. split; [done|]. cbn [rc_mem rc_data rc_beginning rc_count].
    repeat split; try done; [by apply rs_buf0..|by rewrite Hvals|by rewrite Hc'|by rewrite Hc'].
Qed.

Section write.
Context {S : Type} {B : Backend S} {BO : BackendOk S}.
Implicit Types (s : S).

Lemma rdc_flushData_ok s dest l c ws : buf s dest l -> 0 <= rc_beginning c <= zlen l ->
  buf (rc_mem c) (rc_data c) (rd_bytes ws) -> fits 32 (rc_count c) -> zlen (rd_bytes ws) < 2 ^ 32 ->
  m_offSet dest + rc_beginning c + zlen (rd_bytes ws) + 10 < 2 ^ 64 ->
  exists s' dest', rdc_flushData s dest c = Ok (s', dest') /\
    buf s' dest' (splice l (rc_beginning c) (rd_image (rc_count c) ws)) /\ m_offSet dest' = m_offSet dest /\
    m_putPtr dest' = rc_beginning c + zlen (rd_image (rc_count c) ws).
Proof using BO.
  intros Hb Hbg Hd Hcnt Hsm Hf. unfold rdc_flushData, setPutPtr. rewrite (buf_len _ _ _ Hb), (buf_len _ _ _ Hd).
  pose proof (buf_fits _ _ _ Hb) as Hfits. set (b := rc_beginning c) in *.
  assert ((if zlen l <=? b then zlen l else b) = b) as -> by (destruct (Z.leb_spec (zlen l) b); lia).
  assert (buf s (mkUba (m_offSet dest) (m_len dest) (m_getPtr dest) b) l) as Hb0.
  { apply buf_ptrs; [done|apply Hb|]. unfold fits. destruct Hb as [[] _]. lia. }
  destruct (vb_facts _ Hcnt) as (Hl1 & Hb1 & Hpk1 & _).
  assert (fits 32 (zlen (rd_bytes ws))) as Hw32 by (unfold fits; lia). destruct (vb_facts _ Hw32) as (Hl2 & Hb2 & Hpk2 & _).
  destruct (sputVl_ok s _ l Hb0) with (ty := VlUint32) (v := rc_count c) (bs := vb (rc_count c))
    as (s1 & d1 & Heq & [P1 O1 G1 Q1]); [cbn [m_putPtr]; lia|exact Hpk1|done|cbn [m_offSet m_putPtr]; lia|].
  rewrite (buf_len _ _ _ Hb) in Heq. rewrite Heq, bind_ok_l. cbn [m_offSet m_putPtr] in *. rewrite (wrap_small 32) by done.
  assert (zlen (splice l b (vb (rc_count c))) = Z.max (zlen l) (b + zlen (vb (rc_count c)))) as Hsl.
  { unfold splice. rewrite !length_app, length_take, length_drop. lia. }
  destruct (sputVl_ok s1 d1 _ P1) with (ty := VlUint32) (v := zlen (rd_bytes ws)) (bs := vb (zlen (rd_bytes ws)))
    as (s2 & d2 & -> & [P2 O2 G2 Q2]); [lia|exact Hpk2|done|lia|].
  rewrite bind_ok_l. rewrite Q1 in P2. rewrite splice_splice in P2 by lia.
  destruct (sputData_foreign_ok s2 d2 _ (rc_mem c) (rc_data c) (rd_bytes ws) P2) as (s3 & d3 & -> & [P3 O3 G3 Q3]);
    [unfold splice; rewrite !length_app, length_take; lia|done|lia|].
  exists s3, d3. split; [done|]. rewrite Q2, Q1 in P3, Q3.
  replace (b + zlen (vb (rc_count c)) + zlen (vb (zlen (rd_bytes ws)))) with (b + zlen (vb (rc_count c) ++ vb (zlen (rd_bytes ws)))) in P3
    by (rewrite length_app; lia).
  rewrite splice_splice, <- app_assoc in P3 by lia. split; [exact P3|]. split; [lia|].
  unfold rd_image. rewrite !length_app. lia.
Qed.
End write.

Lemma vb_size x : fits 32 x -> psize_vu32 x = Ok (zlen (vb x)).
Proof.
  intros Hx. unfold psize_vu32. rewrite psize_v_eq by (by left || done). f_equal.
  destruct (vl_pack_ok VlUint32 x Hx) as (bs & Hl & _ & Hpk & _ & Hpl).
  unfold vb, item_bytes. rewrite (Hpk _ (proj2 Hl)). cbn [snd]. by rewrite Hpl.
Qed.

(** The beginning of a window. *)
Lemma buf_take {S : Type} {B : Backend S} {BO : BackendOk S} (s : S) a l1 l2 g p : buf s a (l1 ++ l2) ->
  fits 64 g -> fits 64 p -> buf s (mkUba (m_offSet a) (zlen l1) g p) l1.
Proof.
  intros Hb Hg Hp. pose proof (buf_len _ _ _ Hb) as Hlen. rewrite length_app in Hlen. destruct Hb as [Hwf Hv].
  destruct (sub_window (bk_data s) a Hwf 0 (zlen l1) (mkUba (m_offSet a) (zlen l1) g p)) as [Hwf' Hv'];
    cbn [m_offSet m_len m_getPtr m_putPtr]; try done; try lia.
  split; [done|]. rewrite Hv', Hv, drop_0, Nat2Z.id. apply take_app_length.
Qed.

Section open.
Context {S : Type} {B : Backend S} {BO : BackendOk S}.
Implicit Types (s : S).

Lemma rd_new_ok s data ws rest : buf s data (rd_image (zlen (rd_vals 0 ws)) ws ++ rest) -> Forall rword_ok ws ->
  ids31 (rd_vals 0 ws) -> zlen (rd_vals 0 ws) < 2 ^ 31 -> zlen (rd_bytes ws) < 2 ^ 32 - 1 ->
  exists d, rd_new s data = Ok (s, d) /\ rd_usable s d (rd_vals 0 ws) /\
    rd_getSizeInBytes d = Ok (zlen (rd_image (zlen (rd_vals 0 ws)) ws)).
Proof using BO.
  intros Hb Hok Hids Hn Hsm. set (cnt := zlen (rd_vals 0 ws)) in *. unfold rd_new, rd_image in *. rewrite <- !app_assoc in Hb.
  assert (reading s (resetGetPtr data) [] (vb cnt ++ vb (zlen (rd_bytes ws)) ++ rd_bytes ws ++ rest)) as Hr.
  { split; [|done]. cbn [app]. apply buf_ptrs; [done|unfold fits; cbn; lia|apply Hb]. }
  assert (fits 32 cnt) as Hc32 by (unfold fits; lia). assert (fits 32 (zlen (rd_bytes ws))) as Hb32 by (unfold fits; lia).
  destruct (read_vl VlUint32 cnt s _ [] _ Hc32 Hr) as (a1 & -> & Hr1). rewrite bind_ok_l.
  destruct (read_vl VlUint32 _ s a1 _ _ Hb32 Hr1) as (a2 & -> & Hr2). rewrite bind_ok_l.
  apply reading_shrink in Hr2. pose proof (buf_len _ _ _ Hr2) as Hlen.
  assert (exists a, (if negb (m_len (shrinkToGetPtr a2) =? zlen (rd_bytes ws))
      then let '(s, a, _) := uba_resize s (shrinkToGetPtr a2) (zlen (rd_bytes ws)) in (s, a) else (s, shrinkToGetPtr a2)) = (s, a) /\
    buf s a (rd_bytes ws) /\ m_getPtr a = 0) as (a & -> & Ha & Hg).
  { rewrite length_app in Hlen. destruct (Z.eqb_spec (m_len (shrinkToGetPtr a2)) (zlen (rd_bytes ws))) as [E|E]; cbn [negb].
    - assert (rest = []) as -> by (destruct rest; [done|cbn [length] in Hlen; lia]). rewrite app_nil_r in Hr2. by eexists.
    - unfold uba_resize. rewrite (proj2 (Z.ltb_lt _ _)) by lia. eexists. split; [done|].
      assert (m_getPtr (shrinkToGetPtr a2) = 0) as -> by (unfold shrinkToGetPtr; by case_match).
      rewrite (proj2 (Z.ltb_ge (zlen (rd_bytes ws)) 0)) by lia. split; [|done].
      apply (buf_take s _ _ rest _ _ Hr2); [unfold fits; lia|]. case_match; [unfold fits in *; lia|apply Hr2]. }
  unfold mret, result_ret. eexists. split; [done|]. split.
  - exists [], ws. split; [by split|]. done.
  - unfold rd_getSizeInBytes. cbn [rd_data rd_count]. rewrite (vb_size cnt Hc32), bind_ok_l, (buf_len _ _ _ Ha).
    rewrite (wrap_small 32 (zlen (rd_bytes ws))), vb_size, bind_ok_l by done. destruct (vb_facts _ Hc32) as [Hl1 _], (vb_facts _ Hb32) as [Hl2 _].
    unfold mret, result_ret. rewrite !length_app, (wrap_small 64 (_ + zlen (vb cnt))), wrap_small by (unfold fits; lia). f_equal. lia.
Qed.
End open.

(** What a creator has written, opened at its beginning. *)
Lemma rdc_flush_ok {S : Type} {B : Backend S} {BO : BackendOk S} (s : S) dest l c out : buf s dest l ->
  rdc_rep (rc_beginning c) c out -> 0 <= rc_beginning c <= zlen l -> zlen out < 2 ^ 29 ->
  m_offSet dest + rc_beginning c + 5 * zlen out + 10 < 2 ^ 64 ->
  exists s' dest' ws, rdc_flush s dest c = Ok (s', dest') /\ rd_vals 0 ws = out /\ Forall rword_ok ws /\ ids31 out /\
    zlen (rd_bytes ws) < 2 ^ 32 - 1 /\
    buf s' dest' (splice l (rc_beginning c) (rd_image (zlen out) ws)) /\
    m_offSet dest' = m_offSet dest /\ m_putPtr dest' = rc_beginning c + zlen (rd_image (zlen out) ws).
Proof.
  intros Hb Hc Hbg Hn Hf. unfold rdc_flush.
  destruct (rdc_flushRle_ok _ c out Hc) as (c' & ws & -> & Hd & _ & _ & Hok & Hv & Hb' & Hcnt). rewrite bind_ok_l.
  pose proof (rd_bytes_facts ws 0 Hok) as (_ & Hl & _). rewrite Hv in Hl.
  destruct (rdc_flushData_ok s dest l c' ws Hb) as (s' & dest' & -> & Hb2 & Ho & Hp); try done;
    [lia|rewrite Hcnt; unfold fits; lia|lia|lia|].
  exists s', dest', ws. rewrite Hb', Hcnt in *. split; [done|]. split; [done|]. split; [done|]. split; [apply Hc|]. split; [lia|]. done.
Qed.

Lemma rdc_push_all_ok b src c out : rdc_rep b c out -> sorted (out ++ src) -> ids31 src -> zlen out + zlen src < 2 ^ 32 ->
  exists c', rdc_push_all c src = Ok c' /\ rdc_rep b c' (out ++ src).
Proof.
  revert c out. induction src as [|x src IH]; intros c out Hc Hs Hids Hn; cbn [rdc_push_all]; [exists c; by rewrite app_nil_r|].
  apply Forall_cons in Hids as [Hx Hids]. rewrite app_cons in Hs. cbn [length] in Hn.
  destruct (rdc_push_back_ok b c out x Hc) as (c1 & -> & Hc1 & _); [by eapply sorted_app_l|done|lia|].
  rewrite bind_ok_l, app_cons. apply IH; [done|done|done|rewrite length_app; cbn [length]; lia].
Qed.

(** Lookups in any order. *)
Fixpoint rd_ats {S : Type} `{Backend S} (s : S) (d : rd) (ps : list Z) : result (list Z) :=
  match ps with
  | [] => Ok []
  | p :: ps => '(d, v) ← rd_at s d p; r ← rd_ats s d ps; mret (v :: r)
  end.

Lemma rd_ats_ok {S : Type} {B : Backend S} {BO : BackendOk S} ps (s : S) d src : rd_usable s d src ->
  Forall (fun p => 0 <= p) ps -> rd_ats s d ps = Ok (map (fun p => default 0 (src !! Z.to_nat p)) ps).
Proof.
  intros Hu Hps. revert d Hu. induction Hps as [|p ps Hp _ IH]; intros d Hu; cbn [rd_ats map]; [done|].
  destruct (rd_at_ok s d src p Hu Hp) as (d' & -> & Hu'). rewrite bind_ok_l. by rewrite (IH d' Hu'), bind_ok_l.
Qed.

Lemma rd_create_ok {S : Type} {B : Backend S} {BO : BackendOk S} (s : S) dest l src :
  buf s dest l -> 0 <= m_putPtr dest <= zlen l -> sorted src -> ids31 src -> zlen src < 2 ^ 29 ->
  m_offSet dest + m_putPtr dest + 5 * zlen src + 10 < 2 ^ 64 ->
  exists s' dest' img, rd_create s dest src = Ok (s', dest') /\
    buf s' dest' (splice l (m_putPtr dest) img) /\ m_putPtr dest' = m_putPtr dest + zlen img /\
    m_offSet dest' = m_offSet dest /\ zlen img <= 5 * zlen src + 10 /\
    forall (T : Type) (BT : Backend T) (BTO : BackendOk T) (t : T) data rest, buf t data (img ++ rest) ->
      exists d, rd_new t data = Ok (t, d) /\ rd_usable t d src /\ rd_getSizeInBytes d = Ok (zlen img).
Proof.
  intros Hb Hp Hs Hids Hn Hf. unfold rd_create.
  destruct (rdc_push_all_ok _ src (rdc_new dest) [] (rdc_new_ok dest) Hs Hids) as (c & -> & Hc); [cbn [length]; lia|].
  rewrite bind_ok_l. cbn [app] in Hc. assert (rc_beginning c = m_putPtr dest) as Hbg by apply Hc. rewrite <- Hbg in *.
  destruct (rdc_flush_ok s dest l c src Hb Hc Hp Hn Hf) as (s' & dest' & ws & Hfl & Hv & Hok & _ & Hsm & Hb' & Ho' & Hp').
  subst src. exists s', dest', (rd_image (zlen (rd_vals 0 ws)) ws). do 4 (split; [done|]). split.
  { destruct (vb_facts (zlen (rd_vals 0 ws))) as (Hl1 & _); [unfold fits; lia|]. destruct (vb_facts (zlen (rd_bytes ws))) as (Hl2 & _); [unfold fits; lia|].
    pose proof (rd_bytes_facts ws 0 Hok) as (_ & Hl & _). unfold rd_image. rewrite !length_app. lia. }
  intros T BT BTO t data rest Ht. apply (rd_new_ok t data ws rest Ht Hok Hids); [lia|done].
Qed.

(** * The set operations *)

Lemma rd_bytes_cons n v ws : rd_bytes ((n, v) :: ws) = rbytes (n, v) ++ rd_bytes ws.
Proof. done. Qed.

Section operand.
Context {U : Type} {B : Backend U} {BO : BackendOk U}.
Implicit Types (u : U) (c : rcur).

(** The operand stands at the first of the ids [rest]: [k] more follow in its run, then
    the words [ws]. *)
Record rcur_at u (c : rcur) (x : Z) (k : nat) (v : Z) (ws : list rword) : Prop := {
  ra_id : ru_id c = x;
  ra_rle : ru_rle c = Z.of_nat k + 1 /\ ru_val c = v /\ 1 <= v \/ ru_rle c = 0 /\ k = 0%nat;
  ra_data : exists pre, reading u (ru_data c) pre (rd_bytes ws);
  ra_ok : Forall rword_ok ws;
}.

Definition rest_of (x : Z) (k : nat) (v : Z) (ws : list rword) : list Z :=
  x :: steps k v x ++ rd_vals (x + Z.of_nat k * v) ws.

Definition rcur_ok u (size : Z) (c : rcur) (rest : list Z) : Prop :=
  ru_it c = size - zlen rest /\ zlen rest <= size < 2 ^ 31 /\ ids31 rest /\
  (rest = [] \/ exists x k v ws, rest = rest_of x k v ws /\ rcur_at u c x k v ws).

Lemma rcur_it_lt u size c rest : rcur_ok u size c rest -> (ru_it c <? size) = bool_decide (rest <> []).
Proof using.
  intros (-> & Hs & _). destruct rest; cbn [length].
  - rewrite bool_decide_false by naive_solver. apply Z.ltb_ge. cbn. lia.
  - rewrite bool_decide_true by done. apply Z.ltb_lt. lia.
Qed.

Lemma rcur_word_ok u a pre n v ws : rword_ok (n, v) -> reading u a pre (rd_bytes ((n, v) :: ws)) ->
  exists a1 x, uba_sgetVl VlUint32 u a = Ok (a1, x) /\ exists a2 pre2,
    rcur_word u a1 x 0 = Ok (a2, v, if decide (n = 1%nat) then 0 else Z.of_nat n) /\ reading u a2 pre2 (rd_bytes ws).
Proof using BO.
  intros Hw Hr. rewrite rd_bytes_cons in Hr. unfold rcur_word.
  destruct (read_word u a pre n v _ Hw Hr) as (a1 & x & Hg & [(-> & Hl & Hx & Hr')|(Hn2 & Hl & Hx & a2 & y & Hg2 & Hy & Hr')]);
    exists a1, x; (split; [done|]); rewrite Hl; cbn [Z.eqb negb].
  - rewrite Hx. by eexists _, _.
  - rewrite Hg2, bind_ok_l, Hy, Hx, decide_False by lia. by eexists _, _.
Qed.

(** Behind the current run: the next word, or nothing. *)
Lemma rcur_getNext_ok u a pre ws : Forall rword_ok ws -> reading u a pre (rd_bytes ws) ->
  exists a' val rle, rcur_getNext u a 0 = Ok (a', val, rle) /\
    match ws with
    | [] => True
    | (n, v) :: ws => val = v /\ rle = (if decide (n = 1%nat) then 0 else Z.of_nat n) /\ exists pre', reading u a' pre' (rd_bytes ws)
    end.
Proof using BO.
  intros Hok Hr. unfold rcur_getNext. pose proof Hr as [Hb Hg]. rewrite Hg, (buf_len _ _ _ Hb), length_app.
  destruct ws as [|[n v] ws].
  - rewrite (proj2 (Z.ltb_ge _ _)) by (cbn; lia). cbn. by eexists _, _, _.
  - apply Forall_cons in Hok as [Hw Hok]. destruct (rbytes_facts _ Hw) as [Hl _].
    rewrite (proj2 (Z.ltb_lt _ _)) by (rewrite rd_bytes_cons, length_app; lia).
    destruct (rcur_word_ok u a pre n v ws Hw Hr) as (a1 & x & -> & a2 & pre2 & Hword & Hr2). rewrite bind_ok_l, Hword.
    eexists _, _, _. split; [done|]. split; [done|]. split; [done|]. by exists pre2.
Qed.

(** Past the last id [p] of a run of which [r] ids are left. *)
Lemma rcur_fetch_ok u a pre v ws r p it size : Forall rword_ok ws -> reading u a pre (rd_bytes ws) ->
  (r <> 0%nat -> 1 <= v) -> 0 <= p < 2 ^ 31 ->
  let rest := steps r v p ++ rd_vals (p + Z.of_nat r * v) ws in
  ids31 rest -> it = size - zlen rest -> zlen rest <= size < 2 ^ 31 -> forall val0, (r <> 0%nat -> val0 = v) ->
  exists c', ('(data, val, rle) ← (if Z.of_nat r =? 0 then rcur_getNext u a (Z.of_nat r) else Ok (a, val0, Z.of_nat r));
    mret (mkRcur data it rle val (u32 (p + val)))) = Ok c' /\ rcur_ok u size c' rest.
Proof using BO.
  intros Hok Hr Hv Hp rest Hids Hit Hsz val0 Hval. destruct r as [|r].
  - change (Z.of_nat 0) with 0 at 1 2. cbn [Z.eqb]. destruct (rcur_getNext_ok u a pre ws Hok Hr) as (a' & val & rle & -> & Hnext).
    rewrite bind_ok_l. eexists. split; [done|]. split; [done|]. split; [done|]. split; [done|].
    unfold rest in *. cbn [steps app] in *. replace (p + Z.of_nat 0 * v) with p in * by lia.
    destruct ws as [|[n w] ws]; [by left|right]. destruct Hnext as (-> & -> & pre' & Hr').
    apply Forall_cons in Hok as [Hw Hok]. pose proof Hw as (Hn & Hw0 & Hw1). cbn [fst snd] in *.
    destruct n as [|n]; [lia|]. exists (p + w), n, w, ws. cbn [rd_vals steps app] in *. apply Forall_inv in Hids as Hpw.
    split; [unfold rest_of; do 3 f_equal; lia|]. split; cbn [ru_id ru_rle ru_val ru_data]; [apply wrap_small; unfold fits; lia| |by exists pre'|done].
    case_decide as Hd; [right; split; [done|lia]|left; split; [lia|]; split; [done|apply Hw1; lia]].
  - rewrite (proj2 (Z.eqb_neq _ _)) by lia. rewrite bind_ok_l. eexists. split; [done|]. split; [done|]. split; [done|]. split; [done|].
    right. exists (p + v), r, v, ws. unfold rest in *. cbn [steps app] in *. apply Forall_inv in Hids as Hpv. rewrite Hval by done.
    split; [unfold rest_of; do 3 f_equal; lia|]. split; cbn [ru_id ru_rle ru_val ru_data]; [apply wrap_small; unfold fits; lia| |by exists pre|done].
    left. split; [lia|]. split; [done|by apply Hv].
Qed.
End operand.

(** The first [j + 1] ids and the others. *)
Lemma rest_split x k v ws j : (j <= k)%nat -> rest_of x k v ws =
  (x :: steps j v x) ++ (steps (k - j) v (x + Z.of_nat j * v) ++ rd_vals (x + Z.of_nat j * v + Z.of_nat (k - j) * v) ws).
Proof.
  intros Hj. unfold rest_of. cbn [app]. f_equal. replace k with (j + (k - j))%nat at 1 by lia.
  rewrite steps_app, <- app_assoc. do 3 f_equal. rewrite Nat2Z.inj_sub by lia. lia.
Qed.

Section operand_steps.
Context {U : Type} {B : Backend U} {BO : BackendOk U}.
Implicit Types (u : U) (c : rcur).

Lemma rcur_skip_ok u size c x k v ws j : rcur_ok u size c (rest_of x k v ws) -> rcur_at u c x k v ws ->
  ru_rle c <> 0 -> (j <= k)%nat ->
  exists c' rest, rest_of x k v ws = (x :: steps j v x) ++ rest /\
    rcur_skip u c (Z.of_nat j + 1) = Ok c' /\ rcur_ok u size c' rest.
Proof using BO.
  intros (Hit & Hsz & Hids & _) [Hid Hrle (pre & Hr) Hok] Hne Hj. pose proof (rest_split x k v ws j Hj) as Hsplit.
  destruct Hrle as [(Hrle & Hval & Hv)|[? _]]; [|done]. unfold rcur_skip. rewrite Hid, Hrle, Hval, Hit, Hsplit in *.
  apply Forall_app in Hids as [Hids1 Hids2]. set (rest := steps (k - j) v _ ++ _) in *. rewrite length_app in *.
  cbn [length] in *. rewrite length_steps in *. pose proof (lastd_ids31 _ Hids1) as Hl.
  rewrite lastd_cons, lastd_steps' in Hl. apply Forall_inv in Hids1 as Hx.
  assert (0 <= Z.of_nat j * v /\ Z.of_nat j < 2 ^ 31) as [Hjv Hj31] by nia.
  replace (Z.of_nat j + 1 - 1) with (Z.of_nat j) by lia. replace (Z.of_nat k + 1 - (Z.of_nat j + 1)) with (Z.of_nat (k - j)) by lia.
  assert (zlen rest >= Z.of_nat (k - j)) as Hkj by (unfold rest; rewrite length_app, length_steps; lia).
  rewrite (wrap_small 32 (Z.of_nat (k - j))), (wrap_small 32 (Z.of_nat j)) by (unfold fits; lia).
  rewrite (Z.mul_comm v), (wrap_small 32 (Z.of_nat j * v)), (wrap_small 32 (x + Z.of_nat j * v)) by (unfold fits; lia).
  rewrite (wrap_small 32 (size - _ + _)) by (unfold fits; lia).
  destruct (rcur_fetch_ok u (ru_data c) pre v ws (k - j) (x + Z.of_nat j * v)
    (size - Z.of_nat (Datatypes.S j + length rest) + (Z.of_nat j + 1)) size Hok Hr) with (val0 := v) as (c' & Hf & Hc');
    [done|lia|done|fold rest; lia|fold rest; lia|done|].
  exists c', rest. split; [done|]. split; [exact Hf|exact Hc'].
Qed.

Lemma rcur_next_ok u size c x rest : rcur_ok u size c (x :: rest) ->
  exists c', rcur_next u c = Ok c' /\ rcur_ok u size c' rest /\ ru_id c = x.
Proof using BO.
  intros (Hit & Hsz & Hids & [?|(y & k & v & ws & Hrest & [Hid Hrle (pre & Hr) Hok])]); [done|].
  injection Hrest as <- Hrest. unfold rcur_next. rewrite Hid, Hit. cbn [length] in *. apply Forall_cons in Hids as [Hx Hids].
  rewrite (wrap_small 32 (size - _ + 1)) by (unfold fits; lia).
  assert (Z.of_nat k <= zlen rest) as Hk by (rewrite Hrest, length_app, length_steps; lia).
  assert ((if ru_rle c =? 0 then ru_rle c else u32 (ru_rle c - 1)) = Z.of_nat k) as ->.
  { destruct Hrle as [(-> & _)|[-> ->]]; [|done]. rewrite (proj2 (Z.eqb_neq _ _)), wrap_small by (unfold fits; lia). lia. }
  destruct (rcur_fetch_ok u (ru_data c) pre v ws k x (size - Z.of_nat (Datatypes.S (length rest)) + 1) size Hok Hr)
    with (val0 := ru_val c) as (c' & Hf & Hc'); rewrite <- ?Hrest in *; [naive_solver lia|done|done|lia|lia|naive_solver|].
  exists c'. split; [exact Hf|]. split; [exact Hc'|done].
Qed.

Lemma rcur_start_ok u d x rest ws : rd_words u d ws -> rd_vals 0 ws = x :: rest ->
  exists c, rcur_start u (rd_data d) = Ok c /\ rcur_ok u (rd_count d) c (x :: rest).
Proof using BO.
  intros [Hb Hg Hc Hok Hids Hf Hs] Hv. unfold rcur_start. rewrite Hv in Hc, Hids, Hf.
  assert (reading u (resetGetPtr (rd_data d)) [] (rd_bytes ws)) as Hr.
  { split; [|done]. cbn [app]. apply buf_ptrs; [done|unfold fits; cbn; lia|apply Hb]. }
  destruct ws as [|[n w] ws]; [done|]. apply Forall_cons in Hok as [Hw Hok].
  destruct (rcur_word_ok u _ [] n w ws Hw Hr) as (a1 & y & -> & a2 & pre2 & Hword & Hr2). rewrite bind_ok_l, Hword, bind_ok_l.
  eexists. split; [done|]. split; [cbn [ru_it]; lia|]. split; [lia|]. split; [done|]. right.
  pose proof Hw as (Hn & Hw0 & Hw1). cbn [fst snd] in *. destruct n as [|n]; [lia|]. exists w, n, w, ws. split.
  - rewrite <- Hv. cbn [rd_vals steps app]. unfold rest_of. do 3 f_equal. lia.
  - split; cbn [ru_id ru_rle ru_val ru_data]; [done| |by exists pre2|done].
    case_decide as Hd; [right; split; [done|lia]|left; split; [lia|]; split; [done|apply Hw1; lia]].
Qed.

(** The fast path takes exactly the ids of the run below the limit. *)
Lemma run_below x v limit k : x < limit -> 1 <= v -> x + v < limit -> (0 < k)%nat ->
  exists j, (1 <= j <= k)%nat /\ x + Z.of_nat j * v < limit /\
    Z.min ((limit - x) / v - (if 0 <? (limit - x) mod v then 0 else 1) + 1) (Z.of_nat k + 1) = Z.of_nat j + 1.
Proof using.
  intros Hx Hv Hxv Hk. set (q := (limit - x) / v - (if 0 <? (limit - x) mod v then 0 else 1)).
  pose proof (Z.div_mod (limit - x) v ltac:(lia)) as Hdm. pose proof (Z.mod_pos_bound (limit - x) v ltac:(lia)) as Hmb.
  assert (1 <= q /\ x + q * v < limit) as [Hq Hqv].
  { unfold q. destruct (Z.ltb_spec 0 ((limit - x) mod v)); nia. }
  exists (Z.to_nat (Z.min q (Z.of_nat k))). split; [lia|]. split; [|lia]. rewrite Z2Nat.id by lia. nia.
Qed.

Lemma steps_below x v limit j : 0 <= v -> x + Z.of_nat j * v < limit -> Forall (fun z => z < limit) (x :: steps j v x).
Proof using.
  revert x. induction j as [|j IH]; intros x Hv Hl; cbn [steps]; constructor; [lia|constructor|nia|]. apply IH; [done|lia].
Qed.

Lemma rcur_smaller_ok b u size c cr out push limit x0 rest0 : rcur_ok u size c (x0 :: rest0) -> rdc_rep b cr out ->
  x0 < limit < 2 ^ 31 ->
  (push = true -> forall l l', x0 :: rest0 = l ++ l' -> Forall (fun z => z < limit) l -> sorted (out ++ l) /\ zlen out + zlen l < 2 ^ 32) ->
  exists c' cr' l rest, rcur_smaller u push c limit cr = Ok (c', cr') /\ x0 :: rest0 = l ++ rest /\ l <> [] /\
    Forall (fun z => z < limit) l /\ rcur_ok u size c' rest /\ rdc_rep b cr' (out ++ if push : bool then l else []).
Proof using BO.
  intros Hc Hcr Hx Hpush. unfold rcur_smaller. pose proof Hc as (Hit & Hsz & Hids & [?|(x & k & v & ws & Hrest & Hat)]); [done|].
  pose proof Hat as [Hid Hrle _ _]. assert (x0 = x) as -> by (unfold rest_of in Hrest; congruence). rewrite Hid.
  pose proof (Forall_inv Hids) as Hx31. cbn beta in Hx31.
  destruct ((1 <? ru_rle c) && (u32 (x + ru_val c) <? limit)) eqn:E.
  - apply andb_true_iff in E as [E1%Z.ltb_lt E2%Z.ltb_lt]. destruct Hrle as [(Hr & Hv & Hv1)|[? _]]; [|lia].
    rewrite Hv, Hr in *. rewrite Hrest in *. pose proof Hids as Hids'. unfold rest_of in Hids'. apply Forall_inv_tail in Hids'.
    destruct k as [|k]; [lia|]. cbn [steps app] in Hids'. apply Forall_inv in Hids'.
    rewrite (wrap_small 32 (x + v)) in E2 by (unfold fits; lia). rewrite (proj2 (Z.eqb_neq v 0)) by lia. cbn [throw_if]. rewrite bind_ok_l.
    destruct (run_below x v limit (Datatypes.S k)) as (j & Hj & Hjl & Hmin); try lia.
    rewrite (wrap_small 32 (limit - x)) by (unfold fits; lia).
    rewrite (wrap_small 32 (_ / v - _ + 1)).
    2: { pose proof (Z.div_mod (limit - x) v ltac:(lia)) as Hdm. pose proof (Z.mod_pos_bound (limit - x) v ltac:(lia)) as Hmb.
         unfold fits. destruct (Z.ltb_spec 0 ((limit - x) mod v)); nia. }
    rewrite Hmin. rewrite (proj2 (Z.ltb_lt _ _)), (proj2 (Z.leb_le _ _)) by lia. cbn [negb throw_if]. rewrite !bind_ok_l.
    replace (Z.of_nat j + 1 - 1) with (Z.of_nat j) by lia.
    destruct (rcur_skip_ok u size c x (Datatypes.S k) v ws j Hc Hat) as (c' & rest & Hsp & Hsk & Hc'); [lia|lia|].
    pose proof (steps_below x v limit j ltac:(lia) Hjl) as Hbel. rewrite (wrap_small 32 (Z.of_nat j)) by (unfold fits; nia).
    assert (exists cr', (if push then rdc_push_rle cr x v (Z.of_nat j) else Ok cr) = Ok cr' /\
      rdc_rep b cr' (out ++ if push then x :: steps j v x else [])) as (cr' & -> & Hcr').
    { destruct push; [|exists cr; by rewrite app_nil_r]. destruct (Hpush eq_refl _ _ Hsp Hbel) as [Hs Hn]. cbn [length] in Hn. rewrite length_steps in Hn.
      apply rdc_push_rle_ok; [done|done| |lia|lia|nia]. rewrite Hsp in Hids. by apply Forall_app in Hids as [? _]. }
    rewrite bind_ok_l, Hsk, bind_ok_l. eexists _, _, _, _. split; [done|]. split; [exact Hsp|]. done.
  - assert (exists cr', push_if push cr x = Ok cr' /\ rdc_rep b cr' (out ++ if push then [x] else [])) as (cr' & -> & Hcr').
    { destruct push; [|exists cr; by rewrite app_nil_r]. cbn [push_if].
      destruct (Hpush eq_refl [x] rest0) as [Hs Hn]; [done|repeat constructor; lia|]. cbn [length] in Hn.
      destruct (rdc_push_back_ok b cr out x Hcr Hs Hx31) as (cr' & ? & ? & _); [lia|]. by exists cr'. }
    rewrite bind_ok_l. destruct (rcur_next_ok u size c x rest0 Hc) as (c' & -> & Hc' & _). rewrite bind_ok_l.
    eexists _, _, [x], rest0. split; [done|]. split; [done|]. split; [done|]. split; [repeat constructor; lia|]. done.
Qed.
End operand_steps.

Lemma ids31_pushable op ra rb : ids31 ra -> ids31 rb -> op_wf op -> sorted ra -> sorted rb -> ids31 (merge op ra rb).
Proof.
  intros Ha Hb Hop Hsa Hsb. apply Forall_forall. intros z Hz%(merge_spec op ra rb Hop Hsa Hsb).
  unfold ids31 in *. rewrite Forall_forall in Ha, Hb. unfold keeps in Hz. naive_solver.
Qed.

Section operate.
Context {S : Type} {BS : Backend S} {BOS : BackendOk S}.
Context {T : Type} {BT : Backend T} {BOT : BackendOk T}.
Context (op : set_op) (s : S) (t : T) (aSize bSize : Z) (bg : Z).

Lemma rest_of_cons x k v ws : exists rest, rest_of x k v ws = x :: rest.
Proof using. by eexists. Qed.

(** The step for equal ids: a block of both runs, or one id. *)
Lemma equal_ok a b c out x ra rb : rcur_ok s aSize a (x :: ra) -> rcur_ok t bSize b (x :: rb) -> rdc_rep bg c out ->
  (pushEqual op = true -> forall l l', x :: ra = l ++ l' -> (exists l'', x :: rb = l ++ l'') ->
    sorted (out ++ l) /\ zlen out + zlen l < 2 ^ 32) ->
  exists a' b' c' l ra' rb', x :: ra = l ++ ra' /\ x :: rb = l ++ rb' /\ l <> [] /\
    (if (2 <? ru_rle a) && (2 <? ru_rle b) && (ru_val a =? ru_val b) then
       let myRle := Z.min (ru_rle a) (ru_rle b) in
       c ← (if pushEqual op then rdc_push_rle c (ru_id a) (ru_val a) (u32 (myRle - 1)) else Ok c);
       a ← rcur_skip s a myRle;
       b ← rcur_skip t b myRle;
       Ok (a, b, c)
     else
       c ← push_if (pushEqual op) c (ru_id a);
       a ← rcur_next s a;
       b ← rcur_next t b;
       Ok (a, b, c)) = Ok (a', b', c') /\
    rcur_ok s aSize a' ra' /\ rcur_ok t bSize b' rb' /\ rdc_rep bg c' (out ++ if pushEqual op then l else []).
Proof using BOS BOT.
  intros Ha Hb Hc Hpush. destruct ((2 <? ru_rle a) && (2 <? ru_rle b) && (ru_val a =? ru_val b)) eqn:E.
  - apply andb_true_iff in E as [[E1%Z.ltb_lt E2%Z.ltb_lt]%andb_true_iff E3%Z.eqb_eq].
    pose proof Ha as (Hita & Hsza & Hidsa & [?|(xa & ka & va & wsa & Hra & Hata)]); [done|].
    pose proof Hb as (Hitb & Hszb & Hidsb & [?|(xb & kb & vb' & wsb & Hrb & Hatb)]); [done|].
    pose proof Hata as [Hia Hrla _ _]. pose proof Hatb as [Hib Hrlb _ _].
    assert (xa = x /\ xb = x) as [-> ->] by (unfold rest_of in *; split; congruence).
    destruct Hrla as [(Hrla & Hva & Hv1)|[? _]]; [|lia]. destruct Hrlb as [(Hrlb & Hvb & _)|[? _]]; [|lia].
    rewrite Hva, Hvb in E3. subst vb'. rewrite Hra, Hrb in *. set (j := Nat.min ka kb).
    destruct (rcur_skip_ok s aSize a x ka va wsa j Ha Hata) as (a' & ra' & Hspa & Hska & Ha'); [lia|lia|].
    destruct (rcur_skip_ok t bSize b x kb va wsb j Hb Hatb) as (b' & rb' & Hspb & Hskb & Hb'); [lia|lia|].
    assert (Z.min (ru_rle a) (ru_rle b) = Z.of_nat j + 1) as -> by lia. cbv zeta. rewrite Hska, Hskb, Hia, Hva.
    replace (Z.of_nat j + 1 - 1) with (Z.of_nat j) by lia.
    assert (Z.of_nat j < 2 ^ 31) as Hj.
    { apply (f_equal length) in Hspa. rewrite length_app in Hspa. cbn [length] in Hspa. rewrite length_steps in Hspa. lia. }
    rewrite (wrap_small 32 (Z.of_nat j)) by (unfold fits; lia).
    assert (exists c', (if pushEqual op then rdc_push_rle c x va (Z.of_nat j) else Ok c) = Ok c' /\
      rdc_rep bg c' (out ++ if pushEqual op then x :: steps j va x else [])) as (c' & -> & Hc').
    { destruct (pushEqual op); [|exists c; by rewrite app_nil_r].
      destruct (Hpush eq_refl _ _ Hspa) as [Hs Hn]; [by eexists|]. cbn [length] in Hn. rewrite length_steps in Hn.
      apply rdc_push_rle_ok; [done|done| |lia|lia|lia]. rewrite Hspa in Hidsa. by apply Forall_app in Hidsa as [? _]. }
    rewrite !bind_ok_l. exists a', b', c', (x :: steps j va x), ra', rb'. done.
  - destruct (rcur_next_ok s aSize a x ra Ha) as (a' & Hna & Ha' & Hia).
    destruct (rcur_next_ok t bSize b x rb Hb) as (b' & Hnb & Hb' & _). rewrite Hia, Hna, Hnb.
    destruct Ha as (_ & _ & Hidsa & _). apply Forall_inv in Hidsa as Hx.
    assert (exists c', push_if (pushEqual op) c x = Ok c' /\ rdc_rep bg c' (out ++ if pushEqual op then [x] else [])) as (c' & -> & Hc').
    { destruct (pushEqual op); [|exists c; by rewrite app_nil_r]. cbn [push_if].
      destruct (Hpush eq_refl [x] ra) as [Hs Hn]; [done|by eexists|]. cbn [length] in Hn.
      destruct (rdc_push_back_ok bg c out x Hc Hs Hx) as (c' & ? & ? & _); [lia|]. by exists c'. }
    rewrite !bind_ok_l. exists a', b', c', [x], ra, rb. done.
Qed.

Lemma rd_step_ok a b c out x ra y rb :
  rcur_ok s aSize a (x :: ra) -> rcur_ok t bSize b (y :: rb) -> rdc_rep bg c out ->
  sorted (out ++ merge op (x :: ra) (y :: rb)) -> zlen out + zlen (x :: ra) + zlen (y :: rb) < 2 ^ 32 ->
  exists a' b' c' ra' rb' out', rd_step op s t a b c = Ok (a', b', c') /\
    rcur_ok s aSize a' ra' /\ rcur_ok t bSize b' rb' /\ rdc_rep bg c' out' /\
    out ++ merge op (x :: ra) (y :: rb) = out' ++ merge op ra' rb' /\
    (length ra' + length rb' < length (x :: ra) + length (y :: rb))%nat /\
    zlen out' + zlen ra' + zlen rb' <= zlen out + zlen (x :: ra) + zlen (y :: rb).
Proof using BOS BOT.
  intros Ha Hb Hc Hs Hn. unfold rd_step.
  assert (ru_id a = x) as Hia by (by destruct (rcur_next_ok s aSize a x ra Ha) as (? & _ & _ & ?)).
  assert (ru_id b = y) as Hib by (by destruct (rcur_next_ok t bSize b y rb Hb) as (? & _ & _ & ?)).
  pose proof Ha as (_ & _ & Hidsa & _). pose proof Hb as (_ & _ & Hidsb & _).
  apply Forall_inv in Hidsa as Hx. apply Forall_inv in Hidsb as Hy. cbn beta in Hx, Hy.
  assert (forall (p : bool) l, l <> [] -> zlen (out ++ if p then l else []) <= zlen out + zlen l /\ (0 < length l)%nat) as Hlen.
  { intros p l Hl. destruct l; [done|]. rewrite length_app. destruct p; cbn [length]; lia. }
  rewrite Hia, Hib. destruct (Z.ltb_spec x y) as [Hlt|Hge]; [|destruct (Z.ltb_spec y x) as [Hgt|Hle]].
  - destruct (rcur_smaller_ok bg s aSize a c out (pushFirstSmaller op) y x ra Ha Hc) as (a' & c' & l & ra' & -> & Hsp & Hne & Hbel & Ha' & Hc');
      [lia| |].
    { intros Hp l l' Hl Hbl. rewrite Hl in Hs, Hn. rewrite merge_smaller_l, Hp, app_assoc in Hs by done. rewrite length_app in Hn.
      split; [by eapply sorted_app_l|lia]. }
    rewrite bind_ok_l. rewrite Hsp in *. rewrite merge_smaller_l, app_assoc in * by done. rewrite length_app in *.
    destruct (Hlen (pushFirstSmaller op) l Hne). exists a', b, c', ra', (y :: rb), (out ++ if pushFirstSmaller op then l else []).
    do 5 (split; [done|]). cbn [length] in *. lia.
  - destruct (rcur_smaller_ok bg t bSize b c out (pushSecondSmaller op) x y rb Hb Hc) as (b' & c' & l & rb' & -> & Hsp & Hne & Hbel & Hb' & Hc');
      [lia| |].
    { intros Hp l l' Hl Hbl. rewrite Hl in Hs, Hn. rewrite merge_smaller_r, Hp, app_assoc in Hs by done. rewrite length_app in Hn.
      split; [by eapply sorted_app_l|lia]. }
    rewrite bind_ok_l. rewrite Hsp in *. rewrite merge_smaller_r, app_assoc in * by done. rewrite length_app in *.
    destruct (Hlen (pushSecondSmaller op) l Hne). exists a, b', c', (x :: ra), rb', (out ++ if pushSecondSmaller op then l else []).
    do 5 (split; [done|]). cbn [length] in *. lia.
  - assert (y = x) as -> by lia.
    destruct (equal_ok a b c out x ra rb Ha Hb Hc) as (a' & b' & c' & l & ra' & rb' & Hspa & Hspb & Hne & Hstep & Ha' & Hb' & Hc').
    { intros Hp l l' Hl [l'' Hl2]. rewrite Hl, Hl2 in Hs. rewrite Hl in Hn. rewrite merge_common, Hp, app_assoc in Hs. rewrite length_app in Hn.
      split; [by eapply sorted_app_l|lia]. }
    rewrite Hia in Hstep. rewrite Hspa, Hspb in *. rewrite merge_common, app_assoc in *. rewrite !length_app in *.
    destruct (Hlen (pushEqual op) l Hne). exists a', b', c', ra', rb', (out ++ if pushEqual op then l else []).
    split; [exact Hstep|]. do 4 (split; [done|]). lia.
Qed.

Lemma rd_loop_ok fuel a b ra rb c out :
  rcur_ok s aSize a ra -> rcur_ok t bSize b rb -> rdc_rep bg c out ->
  sorted (out ++ merge op ra rb) -> zlen out + zlen ra + zlen rb < 2 ^ 32 -> (length ra + length rb < fuel)%nat ->
  exists a' b' c' ra' rb' out',
    rd_loop fuel op s t aSize bSize a b c = Ok (a', b', c') /\
    rcur_ok s aSize a' ra' /\ rcur_ok t bSize b' rb' /\ rdc_rep bg c' out' /\
    (ra' = [] \/ rb' = []) /\ out ++ merge op ra rb = out' ++ merge op ra' rb' /\
    zlen out' + zlen ra' + zlen rb' <= zlen out + zlen ra + zlen rb.
Proof using BOS BOT.
  revert a b ra rb c out. induction fuel as [|fuel IH]; intros a b ra rb c out Ha Hb Hc Hs Hn Hf; [lia|].
  cbn [rd_loop]. rewrite (rcur_it_lt s aSize a ra Ha), (rcur_it_lt t bSize b rb Hb).
  destruct ra as [|x ra].
  { rewrite bool_decide_false by naive_solver. exists a, b, c, [], rb, out. naive_solver. }
  destruct rb as [|y rb].
  { rewrite (bool_decide_false ([] <> [])), andb_false_r by naive_solver. exists a, b, c, (x :: ra), [], out. naive_solver. }
  rewrite !bool_decide_true by done. cbn [andb].
  destruct (rd_step_ok a b c out x ra y rb Ha Hb Hc Hs Hn) as (a1 & b1 & c1 & ra1 & rb1 & out1 & -> & Ha1 & Hb1 & Hc1 & Hm & Hl & Hl').
  rewrite bind_ok_l, Hm in *.
  destruct (IH a1 b1 ra1 rb1 c1 out1 Ha1 Hb1 Hc1 Hs) as (a2 & b2 & c2 & ra2 & rb2 & out2 & ? & ? & ? & ? & ? & ? & Hle2); [lia|lia|].
  exists a2, b2, c2, ra2, rb2, out2. do 6 (split; [done|]). lia.
Qed.
End operate.

Section finish.
Context {T : Type} {BT : Backend T} {BOT : BackendOk T}.

(** The words of the creator and then those of other data. *)
Lemma rdc_flushWithData_ok (t : T) data ws (v : Vec.t) dest l c out n : let vals := rd_vals (lastd 0 out) ws in
  rdc_rep (rc_beginning c) c out -> buf t data (rd_bytes ws) -> Forall rword_ok ws -> n = zlen vals ->
  buf v dest l -> 0 <= rc_beginning c <= zlen l -> zlen out + zlen vals < 2 ^ 29 ->
  m_offSet dest + rc_beginning c < 2 ^ 40 ->
  exists v' dest' ws', rdc_flushWithData v dest c t data n = Ok (v', dest') /\
    rd_vals 0 ws' = out ++ vals /\ Forall rword_ok ws' /\ zlen (rd_bytes ws') < 2 ^ 32 - 1 /\
    buf v' dest' (splice l (rc_beginning c) (rd_image (zlen (out ++ vals)) ws')) /\ m_offSet dest' = m_offSet dest.
Proof using BOT.
  intros vals Hc Hr Hok -> Hb Hbg Hn Hf. unfold rdc_flushWithData.
  destruct (rdc_flushRle_ok _ c _ Hc) as (c2 & ws2 & -> & Hd2 & Ho2 & Hp2 & Hok2 & Hv2 & Hb2 & Hcnt2). rewrite bind_ok_l.
  pose proof (rd_bytes_facts ws (lastd 0 out) Hok) as (_ & Hl1 & _). fold vals in Hl1.
  pose proof (rd_bytes_facts ws2 0 Hok2) as (_ & Hl2 & _). rewrite Hv2 in Hl2.
  destruct (sputData_foreign_ok (rc_mem c2) (rc_data c2) _ t data (rd_bytes ws) Hd2) as (m & d2 & -> & [Hb3 _ _ _]);
    [lia|exact Hr|lia|].
  rewrite bind_ok_l. pose proof (splice_end (rd_bytes ws2) [] (rd_bytes ws)) as Hse. rewrite drop_nil, !app_nil_r in Hse.
  rewrite Hp2, Hse, <- rd_bytes_app in Hb3.
  assert (rd_vals 0 (ws2 ++ ws) = out ++ vals) as Hvals by (by rewrite rd_vals_app, Hv2).
  assert (u32 (rc_count c2 + zlen vals) = zlen (out ++ vals)) as ->.
  { rewrite Hcnt2, length_app, wrap_small by (unfold fits; lia). lia. }
  destruct (rdc_flushData_ok v dest l (mkRdc m d2 (rc_beginning c2) (rc_rle c2) (rc_lastDiff c2) (zlen (out ++ vals)) (rc_prev c2)) (ws2 ++ ws) Hb)
    as (v' & dest' & -> & Hbuf & Ho & _); cbn [rc_mem rc_data rc_beginning rc_count]; rewrite ?Hb2; try done;
    try (rewrite ?rd_bytes_app, ?length_app; unfold fits; lia).
  exists v', dest', (ws2 ++ ws). cbn [rc_beginning rc_count] in Hbuf. rewrite Hb2 in Hbuf.
  split; [done|]. split; [exact Hvals|]. split; [by apply Forall_app|]. split; [rewrite rd_bytes_app, length_app; lia|]. done.
Qed.

(** What is left of the current run. *)
Lemma rcur_push_run_ok (t : T) size a x k d ws c out : rcur_ok t size a (rest_of x k d ws) -> rcur_at t a x k d ws ->
  rdc_rep (rc_beginning c) c out -> sorted (out ++ x :: steps k d x) -> zlen out + Z.of_nat k + 1 < 2 ^ 32 ->
  exists c', (if negb (ru_rle a =? 0) then
      c ← rdc_push_rle c (ru_id a) (ru_val a) (u32 (ru_rle a - 1));
      throw_if (negb (rc_prev c =? u32 (ru_id a + u32 (ru_val a * u32 (ru_rle a - 1))))) AssertionFailed;;
      mret (u32 (ru_it a + ru_rle a), c)
    else c ← rdc_push_back c (ru_id a); mret (u32 (ru_it a + 1), c)) =
      Ok (size - zlen (rd_vals (x + Z.of_nat k * d) ws), c') /\
    rdc_rep (rc_beginning c) c' (out ++ x :: steps k d x).
Proof using.
  intros (Hit & Hsz & Hids & _) [Hid Hrle _ _] Hc Hs Hn. rewrite Hid, Hit. unfold rest_of in *. cbn [length] in *.
  rewrite length_app, length_steps in *. set (vals := rd_vals _ ws) in *.
  change (x :: steps k d x ++ vals) with ((x :: steps k d x) ++ vals) in Hids. apply Forall_app in Hids as [Hidr Hidw].
  apply Forall_inv in Hidr as Hx. pose proof (lastd_ids31 _ Hidr) as Hl. rewrite lastd_cons, lastd_steps' in Hl.
  destruct Hrle as [(Hr1 & Hv & Hv1)|[Hr1 Hk]]; rewrite Hr1.
  - rewrite (proj2 (Z.eqb_neq _ _)) by lia. cbn [negb]. rewrite Hv. replace (Z.of_nat k + 1 - 1) with (Z.of_nat k) by lia.
    rewrite (wrap_small 32 (Z.of_nat k)) by (unfold fits; lia).
    destruct (rdc_push_rle_ok (rc_beginning c) c out x d k Hc Hs Hidr) as (c' & -> & Hc'); [lia|lia|lia|]. rewrite bind_ok_l.
    destruct (Hc') as (_ & Hp & _). rewrite Hp, lastd_app, lastd_cons, lastd_steps'.
    rewrite (wrap_small 32 (d * _)), (wrap_small 32 (x + _)) by (unfold fits; nia).
    rewrite (Z.mul_comm d), Z.eqb_refl. cbn [negb throw_if]. rewrite bind_ok_l, (wrap_small 32 (size - _ + _)) by (unfold fits; lia).
    exists c'. split; [|exact Hc']. unfold mret, result_ret. do 2 f_equal. lia.
  - subst k. cbn [Z.eqb negb]. destruct (rdc_push_back_ok (rc_beginning c) c out x Hc Hs Hx) as (c' & -> & Hc' & _); [lia|].
    rewrite bind_ok_l, (wrap_small 32 (size - _ + _)) by (unfold fits; lia). exists c'. split; [|exact Hc'].
    unfold mret, result_ret. do 2 f_equal. lia.
Qed.

(** The remainder of an operand, its data taken over behind the current run. *)
Lemma rcur_remainder_ok (t : T) size a x rest (v : Vec.t) dest l c out :
  rcur_ok t size a (x :: rest) -> rdc_rep (rc_beginning c) c out -> sorted (out ++ x :: rest) ->
  buf v dest l -> 0 <= rc_beginning c <= zlen l -> zlen out + zlen (x :: rest) < 2 ^ 29 ->
  m_offSet dest + rc_beginning c < 2 ^ 40 ->
  exists v' dest' ws, rcur_remainder t size a v dest c = Ok (v', dest') /\
    rd_vals 0 ws = out ++ x :: rest /\ Forall rword_ok ws /\ zlen (rd_bytes ws) < 2 ^ 32 - 1 /\
    buf v' dest' (splice l (rc_beginning c) (rd_image (zlen (out ++ x :: rest)) ws)) /\ m_offSet dest' = m_offSet dest.
Proof using BOT.
  intros Ha Hc Hs Hb Hbg Hn Hf. pose proof Ha as (Hit & Hsz & Hids & [?|(x' & k & d & ws & Hrest & Hat)]); [done|].
  assert (x' = x) as -> by (unfold rest_of in Hrest; congruence). rewrite Hrest in *. unfold rcur_remainder.
  set (run := x :: steps k d x). set (vals := rd_vals (lastd 0 (out ++ run)) ws).
  assert (lastd 0 (out ++ run) = x + Z.of_nat k * d) as Hlast by (unfold run; by rewrite lastd_app, lastd_cons, lastd_steps').
  assert (rest_of x k d ws = run ++ vals) as Hsp by (unfold vals; by rewrite Hlast).
  rewrite Hsp in Hs, Hn, Hsz |- *. rewrite length_app in Hn, Hsz. rewrite (app_assoc out run) in Hs |- *. apply sorted_app_l in Hs as Hs1.
  assert (zlen run = Z.of_nat k + 1) as Hrl by (unfold run; cbn [length]; rewrite length_steps; lia).
  destruct (rcur_push_run_ok t size a x k d ws c out Ha Hat Hc Hs1) as (c' & -> & Hc'); [lia|]. rewrite bind_ok_l.
  destruct Hat as [_ _ (pre & Hr) Hok]. apply reading_shrink in Hr. assert (rc_beginning c' = rc_beginning c) as Hb' by apply Hc'.
  rewrite <- Hlast. fold vals. rewrite (wrap_small 32) by (unfold fits; lia). rewrite <- Hb' in *.
  apply (rdc_flushWithData_ok t _ ws v dest l c' (out ++ run)); try done; fold vals; rewrite ?length_app; lia.
Qed.
End finish.

Section generic_op.
Context {S : Type} {BS : Backend S} {BOS : BackendOk S}.
Context {T : Type} {BT : Backend T} {BOT : BackendOk T}.
Context (op : set_op) (s : S) (t : T).

(** Opening the result. *)
Lemma rd_view (v : Vec.t) dest l ws : buf v dest (splice l 0 (rd_image (zlen (rd_vals 0 ws)) ws)) -> Forall rword_ok ws ->
  ids31 (rd_vals 0 ws) -> zlen (rd_vals 0 ws) < 2 ^ 31 -> zlen (rd_bytes ws) < 2 ^ 32 - 1 ->
  exists d, rd_new v (resetPtrs dest) = Ok (v, d) /\ rd_usable v d (rd_vals 0 ws).
Proof using.
  intros Hb Hok Hids Hn Hsm. assert (buf v (resetPtrs dest) (splice l 0 (rd_image (zlen (rd_vals 0 ws)) ws))) as Hb'.
  { apply (buf_ptrs v dest); [done|cbn; unfold fits; lia..]. }
  pose proof (drop_splice l (rd_image (zlen (rd_vals 0 ws)) ws) 0 ltac:(lia)) as Hs. rewrite drop_0 in Hs. rewrite Hs in Hb'.
  destruct (rd_new_ok v _ ws _ Hb' Hok Hids Hn Hsm) as (d & ? & ? & _). by exists d.
Qed.

Lemma rd_finish_ok a b (v : Vec.t) dest l c ra rb out aSize bSize : rcur_ok s aSize a ra -> rcur_ok t bSize b rb ->
  rdc_rep 0 c out -> ra = [] \/ rb = [] -> zlen out + zlen ra + zlen rb < 2 ^ 29 -> sorted (out ++ merge op ra rb) ->
  buf v dest l -> m_offSet dest = 0 ->
  exists v' dest' ws,
    (if pushFirstRemainder op && (ru_it a <? aSize) then rcur_remainder s aSize a v dest c
     else if pushSecondRemainder op && (ru_it b <? bSize) then rcur_remainder t bSize b v dest c
     else rdc_flush v dest c) = Ok (v', dest') /\
    rd_vals 0 ws = out ++ merge op ra rb /\ Forall rword_ok ws /\ zlen (rd_bytes ws) < 2 ^ 32 - 1 /\
    buf v' dest' (splice l 0 (rd_image (zlen (out ++ merge op ra rb)) ws)).
Proof using BOS BOT.
  intros Ha Hb Hc Hone Hn Hs Hbuf Ho. rewrite (rcur_it_lt s aSize a ra Ha), (rcur_it_lt t bSize b rb Hb).
  assert (rc_beginning c = 0) as Hbg by apply Hc. rewrite <- Hbg in Hc.
  assert (merge op ra rb = if pushFirstRemainder op && bool_decide (ra <> []) then ra
    else if pushSecondRemainder op && bool_decide (rb <> []) then rb else []) as Hm by (by apply merge_one).
  rewrite Hm in Hs |- *.
  destruct (pushFirstRemainder op && bool_decide (ra <> [])) eqn:E1.
  { destruct ra as [|x ra]; [by rewrite andb_false_r in E1|].
    destruct (rcur_remainder_ok s aSize a x ra v dest l c out Ha Hc Hs Hbuf) as (v' & d' & ws & ? & ? & ? & ? & ? & _); [lia|lia|lia|].
    exists v', d', ws. by rewrite Hbg in *. }
  destruct (pushSecondRemainder op && bool_decide (rb <> [])) eqn:E2.
  { destruct rb as [|y rb]; [by rewrite andb_false_r in E2|].
    destruct (rcur_remainder_ok t bSize b y rb v dest l c out Hb Hc Hs Hbuf) as (v' & d' & ws & ? & ? & ? & ? & ? & _); [lia|lia|lia|].
    exists v', d', ws. by rewrite Hbg in *. }
  rewrite app_nil_r in *. destruct (rdc_flush_ok v dest l c out Hbuf Hc) as (v' & d' & ws & ? & ? & ? & _ & ? & ? & _); [lia|lia|lia|].
  exists v', d', ws. by rewrite Hbg in *.
Qed.

Lemma rd_genericOp_ok x y A B : rd_usable s x A -> rd_usable t y B -> A <> [] -> B <> [] ->
  zlen A + zlen B < 2 ^ 29 -> sorted (merge op A B) -> ids31 (merge op A B) ->
  exists v d, rd_genericOp op s x t y = Ok (v, d) /\ rd_usable v d (merge op A B).
Proof using BOS BOT.
  intros (wa & Hx & ->)%rd_usable_words (wb & Hy & ->)%rd_usable_words HA HB Hn Hs Hids. unfold rd_genericOp.
  destruct (createCache_ok 8) as (v & dest & Hcc & Hbuf); [lia|lia|].
  assert (m_offSet dest = 0 /\ m_putPtr dest = 0) as [Ho Hp] by (by unfold createCache in Hcc; injection Hcc as <- <-).
  rewrite Hcc. pose proof (rdc_new_ok dest) as Hc0. rewrite Hp in Hc0.
  pose proof (rw_count _ _ _ Hx) as Hcx. pose proof (rw_count _ _ _ Hy) as Hcy.
  destruct (rd_vals 0 wa) as [|x0 A] eqn:EA; [done|]. destruct (rd_vals 0 wb) as [|y0 B] eqn:EB; [done|].
  destruct (rcur_start_ok s x x0 A wa Hx EA) as (a & -> & Ha). destruct (rcur_start_ok t y y0 B wb Hy EB) as (b & -> & Hb).
  rewrite !bind_ok_l.
  destruct (rd_loop_ok op s t (rd_count x) (rd_count y) 0 (Datatypes.S (Z.to_nat (rd_count x) + Z.to_nat (rd_count y)))
    a b _ _ _ [] Ha Hb Hc0) as (a' & b' & c' & ra & rb & out & -> & Ha' & Hb' & Hc' & Hone & Hm & Hle);
    [done|change (zlen []) with 0; lia|lia|].
  rewrite bind_ok_l. change (zlen []) with 0 in Hle. cbn [app] in Hm. rewrite Hm in Hs, Hids.
  destruct (rd_finish_ok a' b' v dest _ c' ra rb out _ _ Ha' Hb' Hc' Hone ltac:(lia) Hs Hbuf Ho)
    as (v2 & dest2 & ws & -> & Hv & Hok & Hsm & Hb2).
  rewrite bind_ok_l, Hm. pose proof (merge_length op (x0 :: A) (y0 :: B)) as Hlen. rewrite Hm, <- Hv in Hlen. rewrite <- Hv in *.
  destruct (rd_view v2 dest2 _ ws Hb2 Hok Hids ltac:(lia) Hsm) as (d & -> & Hu). by exists v2, d.
Qed.
End generic_op.

(** * Bit sets and indexes *)

Lemma rd_fromBitSet_ok {S : Type} {B : Backend S} {BO : BackendOk S} (s : S) a l : buf s a l -> zlen l < 2 ^ 28 ->
  zlen (set_positions (le_val l) 0 (8 * zlen l)) < 2 ^ 29 ->
  exists v d, rd_fromBitSet s a = Ok (v, d) /\ rd_usable v d (set_positions (le_val l) 0 (8 * zlen l)).
Proof.
  intros Hb Hsz Hn. unfold rd_fromBitSet. rewrite (buf_len _ _ _ Hb).
  destruct (createCache_ok (zlen l)) as (v & dest & Hcc & Hbuf); [lia|lia|].
  assert (m_offSet dest = 0 /\ m_putPtr dest = 0) as [Ho Hp] by (by unfold createCache in Hcc; injection Hcc as <- <-).
  rewrite Hcc, narrow_u32_ok by (unfold fits; lia). rewrite bind_ok_l, Nat2Z.id.
  pose proof (rdc_new_ok dest) as Hc. rewrite Hp in Hc.
  destruct (@from_bytes_ok rdc _ (rdc_IndexCreatorOk 0) S B BO s a l Hb ltac:(lia) (length l) 0 (rdc_new dest) [] ltac:(lia) ltac:(lia) Hc)
    as (c' & Hfb & Hc').
  { change (8 * 0) with 0. apply set_positions_pushable; [|cbn; lia]. intros z Hz%elem_of_set_positions. cbn. lia. }
  change (u32 (8 * 0)) with 0 in Hfb. change (8 * 0) with 0 in Hc'. cbn [app cr_rep rdc_IndexCreatorOk] in Hc'. rewrite Hfb, bind_ok_l.
  assert (rc_beginning c' = 0) as Hbg by apply Hc'. rewrite <- Hbg in Hc' at 1.
  destruct (rdc_flush_ok v dest _ c' _ Hbuf Hc') as (v' & dest' & ws & -> & Hv & Hok & Hids & Hsm & Hb' & _ & _); [lia|exact Hn|lia|].
  rewrite bind_ok_l, Hbg in *. rewrite <- Hv in *.
  pose proof (uba_from_ok v' dest' _ Hb' 0 ltac:(lia)) as Hfrom. rewrite drop_splice in Hfrom by lia.
  destruct (rd_new_ok v' _ ws _ Hfrom Hok Hids) as (d & -> & Hu & _); [lia|done|]. rewrite bind_ok_l. by exists v', d.
Qed.

Section put_bits.
Context {S : Type} {B : Backend S} {BO : BackendOk S}.
Context {T : Type} {BT : Backend T} {BOT : BackendOk T}.
Context (bits : uba).

Lemma rd_set_run_ok n prev v (t : T) l : buf t bits l -> Forall (fun p => 0 <= p < 8 * zlen l /\ p < 2 ^ 31) (steps n v prev) ->
  exists t' l', rd_set_run n prev v t bits = Ok (prev + Z.of_nat n * v, t', bits) /\ buf t' bits l' /\
    length l' = length l /\ le_val l' = set_bits (le_val l) (steps n v prev).
Proof using BOT.
  revert prev t l. induction n as [|n IH]; intros prev t l Hb Hp; cbn [rd_set_run steps] in *.
  { exists t, l. split; [do 3 f_equal; lia|]. done. }
  apply Forall_cons in Hp as [[Hx Hx31] Hp]. rewrite wrap_small by (unfold fits; lia).
  destruct (dbs_set_in t bits l (prev + v) Hb Hx) as (t1 & l1 & -> & Hb1 & Hl1 & Hv1); [lia|]. rewrite bind_ok_l.
  rewrite <- Hl1 in Hp. destruct (IH _ t1 l1 Hb1 Hp) as (t2 & l2 & -> & Hb2 & Hl2 & Hv2).
  exists t2, l2. split; [do 3 f_equal; lia|]. split; [done|]. split; [lia|]. by rewrite Hv2, Hv1.
Qed.

Lemma rd_put_bits_loop_ok fuel ws (s : S) a pre prev count size (t : T) l : Forall rword_ok ws ->
  Forall (fun p => 0 <= p < 8 * zlen l /\ p < 2 ^ 31) (rd_vals prev ws) -> 0 <= prev ->
  reading s a pre (rd_bytes ws) -> count = size - zlen (rd_vals prev ws) -> 0 <= count -> size < 2 ^ 31 -> (length ws < fuel)%nat ->
  buf t bits l -> exists t' l', rd_put_bits_loop fuel s a count prev size t bits = Ok (t', bits) /\
    buf t' bits l' /\ length l' = length l /\ le_val l' = set_bits (le_val l) (rd_vals prev ws).
Proof using BO BOT.
  revert ws a pre prev count t l. induction fuel as [|fuel IH]; intros ws a pre prev count t l Hok Hps Hp0 Hr Hc Hc0 Hsz Hf Hb; [lia|].
  cbn [rd_put_bits_loop]. destruct ws as [|[n v] ws].
  { cbn in Hc. rewrite (proj2 (Z.ltb_ge _ _)) by lia. by exists t, l. }
  apply Forall_cons in Hok as [Hw Hok]. pose proof Hw as (Hn & Hv & _). cbn [fst snd rd_vals length] in *.
  apply Forall_app in Hps as [Hrun Hps]. rewrite length_app, length_steps in Hc. rewrite (proj2 (Z.ltb_lt _ _)) by lia.
  rewrite rd_bytes_cons in Hr. rewrite set_bits_app.
  destruct (read_word s a pre n v _ Hw Hr) as (a1 & x & -> & [(-> & Hl & Hx & Hr')|(Hn2 & Hl & Hx & a2 & y & Hg & Hy & Hr')]);
    rewrite bind_ok_l, Hl; cbn [Z.eqb negb].
  - rewrite Hx. cbn [steps] in *. apply Forall_inv in Hrun as [Hp1 Hp31]. rewrite (wrap_small 32 (prev + v)), wrap_small by (unfold fits; lia).
    destruct (dbs_set_in t bits l (prev + v) Hb Hp1) as (t1 & l1 & -> & Hb1 & Hl1 & Hv1); [lia|]. rewrite bind_ok_l.
    replace (prev + Z.of_nat 1 * v) with (prev + v) in * by lia. rewrite <- Hl1 in Hps.
    destruct (IH ws a1 (pre ++ rbytes (1%nat, v)) (prev + v) (count + 1) t1 l1 Hok Hps) as (t2 & l2 & -> & Hb2 & Hl2 & Hv2); try done; try lia.
    exists t2, l2. split; [done|]. split; [done|]. split; [lia|]. by rewrite Hv2, Hv1.
  - rewrite Hg, bind_ok_l, Hx, Hy. destruct n as [|n]; [lia|].
    assert (steps (Datatypes.S n) v prev = steps n v prev ++ [prev + Z.of_nat (Datatypes.S n) * v]) as Hst.
    { replace (Datatypes.S n) with (n + 1)%nat at 1 by lia. rewrite steps_app. cbn [steps]. do 2 f_equal. lia. }
    set (last := prev + Z.of_nat (Datatypes.S n) * v) in *. rewrite Hst in Hrun. apply Forall_app in Hrun as [Hrun [[Hl0 Hl31] _]%Forall_cons].
    assert (0 <= Z.of_nat (Datatypes.S n) * v) by lia.
    rewrite (wrap_small 32 (count + _)), (wrap_small 32 (_ * v)), (wrap_small 32 (prev + _)) by (unfold fits; lia).
    fold last. destruct (dbs_set_in t bits l last Hb Hl0) as (t1 & l1 & -> & Hb1 & Hl1 & Hv1); [lia|]. rewrite bind_ok_l.
    replace (Z.of_nat (Datatypes.S n) - 1) with (Z.of_nat n) by lia. rewrite (wrap_small 32 (Z.of_nat n)), Nat2Z.id by (unfold fits; lia).
    rewrite <- Hl1 in Hrun, Hps. destruct (rd_set_run_ok n prev v t1 l1 Hb1 Hrun) as (t2 & l2 & -> & Hb2 & Hl2 & Hv2). rewrite bind_ok_l.
    replace (prev + Z.of_nat n * v + v) with last by (unfold last; lia). rewrite (wrap_small 32 last) by (unfold fits; lia).
    rewrite <- Hl2 in Hps. destruct (IH ws a2 (pre ++ rbytes (Datatypes.S n, v)) last (count + Z.of_nat (Datatypes.S n)) t2 l2 Hok Hps) as (t3 & l3 & -> & Hb3 & Hl3 & Hv3);
      try done; try (fold last in Hc; lia).
    exists t3, l3. split; [done|]. split; [done|]. split; [lia|]. rewrite Hv3, Hv2, Hv1. f_equal.
    change (Z.setbit (le_val l) last) with (set_bits (le_val l) [last]). rewrite <- set_bits_app, Hst. apply set_bits_ext.
    + rewrite Hl1 in Hrun. constructor; [lia|]. eapply Forall_impl; [exact Hrun|]. cbn. lia.
    + intros z. rewrite !elem_of_app. tauto.
Qed.

Lemma rd_putInto_bits_ok (s : S) d src (t : T) l : rd_usable s d src -> buf t bits l -> Forall (fun p => p < 8 * zlen l) src ->
  exists t' l', rd_putInto_bits s d t bits = Ok (t', bits) /\ buf t' bits l' /\ length l' = length l /\
    le_val l' = set_bits (le_val l) src.
Proof using BO BOT.
  intros (ws & [Hb Hg Hc Hok Hids Hf Hs] & ->)%rd_usable_words Hbits Hps. unfold rd_putInto_bits, rd_size.
  apply (rd_put_bits_loop_ok _ ws s (rd_data d) [] 0 0); try done; try lia.
  - apply Forall_forall. intros z Hz. unfold ids31 in Hids. rewrite Forall_forall in Hids, Hps. specialize (Hids z Hz). specialize (Hps z Hz). lia.
  - pose proof (rd_bytes_facts ws 0 Hok). rewrite (buf_len _ _ _ Hb). lia.
Qed.
End put_bits.

(** * The properties *)

(** Round trip of a run-length coded index: creating one at the put position from a
    sorted list of fewer than 2^29 ids below 2^31 succeeds (no assert fails) and writes only there; opening it gives an index from
    which [putInto], iterating from [cbegin] to [cend] and any sequence of lookups return
    the ids, 0 behind the end; its size in bytes is what was written. *)
Theorem rd_roundtrip {S : Type} {B : Backend S} {BO : BackendOk S} (s : S) dest l src ps :
  buf s dest l -> 0 <= m_putPtr dest <= zlen l -> sorted src -> ids31 src -> zlen src < 2 ^ 29 ->
  m_offSet dest + m_putPtr dest + 5 * zlen src + 10 < 2 ^ 64 -> Forall (fun p => 0 <= p) ps ->
  exists s' dest' img d b e, rd_create s dest src = Ok (s', dest') /\
    buf s' dest' (splice l (m_putPtr dest) img) /\
    rd_new s' (uba_from dest' (m_putPtr dest)) = Ok (s', d) /\ rd_size d = zlen src /\ rd_getSizeInBytes d = Ok (zlen img) /\
    rd_putInto s' d = Ok src /\
    rd_cbegin s' d = Ok b /\ rd_cend s' d = Ok e /\ ri_collect (Datatypes.S (Datatypes.S (length src))) s' d b e = Ok src /\
    rd_ats s' d ps = Ok (map (fun p => default 0 (src !! Z.to_nat p)) ps).
Proof.
  intros Hb Hp Hs Hids Hn Hf Hps.
  destruct (rd_create_ok s dest l src Hb Hp Hs Hids Hn Hf) as (s' & dest' & img & Hcr & Hb' & _ & _ & _ & Hopen).
  pose proof (uba_from_ok s' dest' _ Hb' (m_putPtr dest)) as Hfrom. rewrite drop_splice in Hfrom by done.
  destruct (Hopen S B BO s' _ _ (Hfrom ltac:(unfold splice; rewrite !length_app, length_take; lia))) as (d & Hnew & Hu & Hsz).
  destruct (rd_iterate_ok s' d src Hu) as (b & e & Hb1 & He & Hit).
  exists s', dest', img, d, b, e. do 3 (split; [done|]).
  destruct (rd_usable_words s' d src Hu) as (ws & Hw & ->). split; [apply Hw|]. split; [done|]. split; [by apply rd_putInto_ok|].
  do 3 (split; [done|]). by apply rd_ats_ok.
Qed.

Lemma rd_roundtrip_witness :
  exists s' dest' d, rd_create (Vec.mk [1]) (mkUba 0 1 0 1) [0; 1; 2; 3; 10; 12; 14] = Ok (s', dest') /\
    rd_new s' (uba_from dest' 1) = Ok (s', d) /\ rd_ats s' d [6; 2; 9] = Ok [14; 2; 0].
Proof.
  destruct (rd_roundtrip (Vec.mk [1]) (mkUba 0 1 0 1) [1] [0; 1; 2; 3; 10; 12; 14] [6; 2; 9])
    as (s' & dest' & img & d & b & e & H1 & _ & H2 & _ & _ & _ & _ & _ & _ & H3).
  - split; [uba_wf_tac|reflexivity].
  - cbn. lia.
  - repeat first [lia | constructor].
  - repeat constructor; lia.
  - reflexivity.
  - reflexivity.
  - repeat constructor; lia.
  - exists s', dest', d. split; [exact H1|]. split; [exact H2|exact H3].
Defined.

(** C16: the set operations on two nonempty run-length coded indexes, of fewer than 2^29
    ids together, succeed, no assert on the runs skipped at once fails, and give an index
    whose ids are sorted and exactly those the operation keeps. *)
Theorem rd_genericOp_correct {S T : Type} {BS : Backend S} {BOS : BackendOk S} {BT : Backend T} {BOT : BackendOk T}
    op (s : S) (t : T) x y A B :
  op_wf op -> rd_usable s x A -> rd_usable t y B -> sorted A -> sorted B -> A <> [] -> B <> [] -> zlen A + zlen B < 2 ^ 29 ->
  exists v d res, rd_genericOp op s x t y = Ok (v, d) /\ rd_putInto v d = Ok res /\ sorted res /\
    forall z, z ∈ res <-> keeps op (z ∈ A) (z ∈ B).
Proof.
  intros Hop Hx Hy HA HB HAn HBn Hn. destruct (merge_spec op A B Hop HA HB) as [Hs Hin].
  assert (ids31 (merge op A B)) as Hids.
  { apply ids31_pushable; try done; [destruct (rd_usable_words s x A Hx) as (w & [] & ->)|destruct (rd_usable_words t y B Hy) as (w & [] & ->)]; done. }
  destruct (rd_genericOp_ok op s t x y A B Hx Hy HAn HBn Hn Hs Hids) as (v & d & Hop' & (ws & Hw & Hm)%rd_usable_words).
  exists v, d, (merge op A B). split; [done|]. split; [|done]. rewrite Hm. by apply rd_putInto_ok.
Qed.

Lemma rd_genericOp_correct_witness : exists d e v r res,
  rd_new (Vec.mk [6; 3; 0; 11; 2]) (mkUba 0 5 0 0) = Ok (Vec.mk [6; 3; 0; 11; 2], d) /\
  rd_new (Vec.mk [4; 3; 6; 7; 2]) (mkUba 0 5 0 0) = Ok (Vec.mk [4; 3; 6; 7; 2], e) /\
  rd_genericOp SymmetricDifferenceOp (Vec.mk [6; 3; 0; 11; 2]) d (Vec.mk [4; 3; 6; 7; 2]) e = Ok (v, r) /\
  rd_putInto v r = Ok res /\ 2 ∈ res /\ 4 ∉ res /\ 6 ∈ res.
Proof.
  destruct (rd_new_ok (Vec.mk [6; 3; 0; 11; 2]) (mkUba 0 5 0 0) [(1%nat, 0); (5%nat, 1)] []) as (d & Hd & Hu & _);
    [split; [uba_wf_tac|vm_compute; reflexivity]|repeat constructor; cbn; lia|repeat constructor; cbn; lia|reflexivity|reflexivity|].
  destruct (rd_new_ok (Vec.mk [4; 3; 6; 7; 2]) (mkUba 0 5 0 0) [(1%nat, 3); (3%nat, 1)] []) as (e & He & Hv & _);
    [split; [uba_wf_tac|vm_compute; reflexivity]|repeat constructor; cbn; lia|repeat constructor; cbn; lia|reflexivity|reflexivity|].
  destruct (@rd_genericOp_correct Vec.t Vec.t _ Vec_ok _ Vec_ok SymmetricDifferenceOp _ _ d e _ _ ltac:(split; reflexivity) Hu Hv) as (v & r & res & Hop & Hput & _ & Hz).
  - cbn. repeat first [lia|constructor].
  - cbn. repeat first [lia|constructor].
  - discriminate.
  - discriminate.
  - reflexivity.
  - exists d, e, v, r, res. split; [exact Hd|]. split; [exact He|]. split; [exact Hop|]. split; [exact Hput|].
    rewrite !Hz. unfold keeps. cbn [rd_vals steps app pushEqual pushFirstSmaller pushSecondSmaller SymmetricDifferenceOp Z.of_nat].
    rewrite !elem_of_cons, !elem_of_nil. lia.
Defined.

(** Round trip of bit sets: [fromBitSet] of a bit set of less than 2^28 bytes with less
    than 2^29 set positions gives an index of exactly its set positions, and putting it
    into any bit set that is long enough sets exactly these bits there, whatever the
    order in which the bits of a run are set. *)
Theorem rd_bitset_roundtrip {S : Type} {B : Backend S} {BO : BackendOk S} {T : Type} {BT : Backend T} {BOT : BackendOk T}
    (s : S) a l (t : T) bits m :
  buf s a l -> buf t bits m -> zlen l < 2 ^ 28 -> zlen l <= zlen m ->
  zlen (set_positions (le_val l) 0 (8 * zlen l)) < 2 ^ 29 ->
  exists v d, rd_fromBitSet s a = Ok (v, d) /\
    rd_putInto v d = Ok (set_positions (le_val l) 0 (8 * zlen l)) /\
    exists t' m', rd_putInto_bits v d t bits = Ok (t', bits) /\ buf t' bits m' /\
      le_val m' = Z.lor (le_val m) (le_val l).
Proof.
  intros Hb Hm Hl Hlm Hn. destruct (rd_fromBitSet_ok s a l Hb Hl Hn) as (v & d & -> & Hu). exists v, d. split; [done|].
  pose proof (elem_of_set_positions (le_val l) (8 * zlen l)) as Hps. set (ps := set_positions _ _ _) in *.
  split; [destruct (rd_usable_words v d ps Hu) as (ws & Hw & ->); by apply rd_putInto_ok|].
  destruct (rd_putInto_bits_ok bits v d ps t m Hu Hm) as (t' & m' & -> & Hb' & _ & Hv).
  { apply Forall_forall. intros z Hz%Hps. lia. }
  exists t', m'. split; [done|]. split; [done|]. rewrite Hv. apply set_bits_lor; [exact (buf_bytes _ _ _ Hb)|done].
Qed.

Lemma rd_bitset_roundtrip_witness :
  exists v d, rd_fromBitSet (Vec.mk [7; 129]) (mkUba 0 2 0 0) = Ok (v, d) /\ rd_putInto v d = Ok [0; 1; 2; 8; 15].
Proof.
  destruct (rd_bitset_roundtrip (Vec.mk [7; 129]) (mkUba 0 2 0 0) [7; 129] (Vec.mk [0; 0]) (mkUba 0 2 0 0) [0; 0])
    as (v & d & H1 & H2 & _).
  - split; [uba_wf_tac|reflexivity].
  - split; [uba_wf_tac|reflexivity].
  - cbn. lia.
  - cbn. lia.
  - vm_compute. reflexivity.
  - exists v, d. split; [exact H1|exact H2].
Defined.

(** ** Where the code does something else *)

(** An index created in memory from a list. *)
Definition rd_of (src : list Z) : result (Vec.t * rd) :=
  let '(v, dest) := createCache 8 in
  '(v, dest) ← rd_create v dest src; rd_new v (resetPtrs dest).

Definition uniteK_of (a b : list Z) (numItems : Z) : result (list Z) :=
  '(s, x) ← rd_of a; '(t, y) ← rd_of b; '(v, d) ← rd_uniteK s x t y numItems; rd_putInto v d.

(** [uniteK] halves the difference that the second operand has behind a common id, and
    so loses ids ([1 5] with [1 9] becomes [1 5]), and it returns up to one id more than
    asked for. *)
Theorem uniteK_loses_ids :
  uniteK_of [1; 5] [1; 9] 100 = Ok [1; 5] /\ uniteK_of [1; 5; 6] [2] 2 = Ok [1; 2; 5] /\ uniteK_of [1; 5; 6] [2; 7] 100 = Ok [1; 2; 5; 6; 7].
Proof. by vm_compute. Qed.

(** The lowest bit of a word is taken for the form of the word: a difference of 2^31 or
    more does not fit. *)
Lemma rd_wide_gap : ('(s, x) ← rd_of [3; 3 + 2 ^ 31]; rd_putInto s x) = Ok [3; 3].
Proof. by vm_compute. Qed.
