(* ===== verification/ItemIndexFused.v ===== *)
(** Intersection and difference of many run-length coded indexes at once:
    [IndexStates], [constrainedIntersect] and [fusedIntersectDifference] of
    [src/containers/ItemIndexPrivates/ItemIndexPrivateRleDE.cpp].

    Every index is read from front to back; all readers move to the largest of their
    current ids until they agree.  [inter] on lists is the specification. *)

From stdpp Require Import sorting.
From S2P Require Import Prelude UtilMath PackUnpack Storage ByteArray ByteStream Bits CompactUintArray BitSets SetFuncs IndexOps ItemIndexRleDE.

(** * The readers *)

(** [IndexStates::SingleState]; its storage is the one of the index. *)
Record sstate (S : Type) := mkSt { st_s : S; st_data : uba; st_rle : Z; st_diff : Z; st_id : Z; st_valid : bool }.
Arguments mkSt {S}. Arguments st_s {S}. Arguments st_data {S}. Arguments st_rle {S}. Arguments st_diff {S}.
Arguments st_id {S}. Arguments st_valid {S}.

Record istates (S : Type) := mkStates { is_states : list (sstate S); is_count : Z; is_valid : Z }.
Arguments mkStates {S}. Arguments is_states {S}. Arguments is_count {S}. Arguments is_valid {S}.

Section states.
Context {S : Type} `{Backend S}.
Implicit Types (x : sstate S) (st : istates S).

Definition st_next x : result (sstate S) :=
  if negb (st_rle x =? 0) then
    Ok (mkSt (st_s x) (st_data x) (u32 (st_rle x - 1)) (st_diff x) (u32 (st_id x + st_diff x)) (st_valid x))
  else if getPtrHasNext (st_data x) then
    '(data, rle) ← uba_sgetVl VlUint32 (st_s x) (st_data x);
    if negb (rle &&& 1 =? 0) then
      '(data, v) ← uba_sgetVl VlUint32 (st_s x) data;
      let diff := v >>> 1 in
      mret (mkSt (st_s x) data (u32 ((rle >>> 1) - 1)) diff (u32 (st_id x + diff)) true)
    else
      let diff := rle >>> 1 in
      mret (mkSt (st_s x) data 0 diff (u32 (st_id x + diff)) true)
  else Ok (mkSt (st_s x) (st_data x) (st_rle x) (st_diff x) (st_id x) false).

Definition st_new (s : S) (data : uba) : result (sstate S) := st_next (mkSt s (resetPtrs data) 0 0 0 true).

(** Every step consumes an id or a byte. *)
Fixpoint st_move (fuel : nat) x (inid : Z) : result (sstate S) :=
  match fuel with
  | O => Err OutOfFuel
  | Datatypes.S fuel =>
      if st_valid x && (st_id x <? inid) then x ← st_next x; st_move fuel x inid else Ok x
  end.

Definition is_new (stateCount : Z) : istates S := mkStates [] stateCount stateCount.
Definition is_push_back st (s : S) (data : uba) : result (istates S) :=
  x ← st_new s data; mret (mkStates (is_states st ++ [x]) (is_count st) (is_valid st)).

(** [states[i]] beyond the vector is undefined. *)
Definition is_get st (i : Z) : result (sstate S) := vget (is_states st) i.

Definition is_next_at st (pos : Z) : result (istates S) :=
  x ← is_get st pos;
  x ← st_next x;
  mret (mkStates (<[Z.to_nat pos := x]> (is_states st)) (is_count st)
          (if st_valid x then is_valid st else u32 (is_valid st - 1))).

Fixpoint is_next_loop (n : nat) st (i : Z) : result (istates S) :=
  match n with O => Ok st | Datatypes.S n => st ← is_next_at st i; is_next_loop n st (u32 (i + 1)) end.
Definition is_next st : result (istates S) := is_next_loop (Z.to_nat (is_count st)) st 0.

Fixpoint is_max_loop (n : nat) st (i maxId : Z) : result Z :=
  match n with
  | O => Ok maxId
  | Datatypes.S n =>
      x ← is_get st i;
      is_max_loop n st (u32 (i + 1)) (if st_valid x && (maxId <=? st_id x) then st_id x else maxId)
  end.
Definition is_findMax st : result Z := is_max_loop (Z.to_nat (is_count st)) st 0 0.

Fixpoint is_min_loop (n : nat) st (i minPos minId : Z) : result (Z * Z) :=
  match n with
  | O => Ok (minPos, minId)
  | Datatypes.S n =>
      x ← is_get st i;
      let b := st_valid x && (st_id x <=? minId) in
      is_min_loop n st (u32 (i + 1)) (if b then i else minPos) (if b then st_id x else minId)
  end.
Definition is_findMin st : result (Z * Z) := is_min_loop (Z.to_nat (is_count st)) st 0 (- 2 ^ 31) max_u32.

(** [moveTillLargerOrEqual] *)
Fixpoint is_move_loop (fuel n : nat) st (i id : Z) (allEqual oneEqual : bool) : result (istates S * bool * bool) :=
  match n with
  | O => Ok (st, allEqual, oneEqual)
  | Datatypes.S n =>
      x ← is_get st i;
      x ← st_move fuel x id;
      is_move_loop fuel n
        (mkStates (<[Z.to_nat i := x]> (is_states st)) (is_count st) (if st_valid x then is_valid st else u32 (is_valid st - 1)))
        (u32 (i + 1)) id (allEqual && (st_id x =? id)) (oneEqual || (st_id x =? id))
  end.
Definition is_move (fuel : nat) st (id : Z) : result (istates S * bool * bool) :=
  is_move_loop fuel (Z.to_nat (is_count st)) st 0 id true false.

Definition is_allValid st : bool := is_valid st =? zlen (is_states st).
Definition is_oneIsValid st : bool := negb (is_valid st =? 0).

(** [moveToNextEqual]: the loop, then [allValid]. *)
Fixpoint is_moveToNextEqual (fuel : nat) st (id : Z) (allEqual : bool) : result (istates S * Z * bool) :=
  match fuel with
  | O => Err OutOfFuel
  | Datatypes.S f =>
      if is_allValid st && negb allEqual then
        id ← is_findMax st;
        '(st, allEqual, _) ← is_move fuel st id;
        is_moveToNextEqual f st id allEqual
      else Ok (st, id, is_allValid st)
  end.

Fixpoint is_push_all st (idx : list (S * rd)) : result (istates S) :=
  match idx with [] => Ok st | (s, d) :: idx => st ← is_push_back st s (rd_data d); is_push_all st idx end.

Fixpoint constrained_loop (fuel : nat) st (id count : Z) (res : list Z) : result (list Z) :=
  match fuel with
  | O => Err OutOfFuel
  | Datatypes.S f =>
      if is_allValid st && (zlen res <? count) then
        '(st, id, eq) ← is_moveToNextEqual fuel st id false;
        if eq : bool then
          st ← is_next st; constrained_loop f st id count (res ++ [id])
        else constrained_loop f st id count res
      else Ok res
  end.

(** The fuel: one more than all ids together, and one for the last test. *)
Definition total_size (idx : list (S * rd)) : nat := sum_list_with (fun w => Z.to_nat (rd_count (snd w))) idx.
Definition constrainedIntersect (intersect : list (S * rd)) (count : Z) : result (list Z) :=
  st ← is_push_all (is_new (u32 (zlen intersect))) intersect;
  constrained_loop (Datatypes.S (Datatypes.S (total_size intersect))) st 0 count [].

Fixpoint fused_loop (fuel : nat) st (sub : istates S) (id count : Z) (res : list Z) : result (list Z) :=
  match fuel with
  | O => Err OutOfFuel
  | Datatypes.S f =>
      if is_allValid st && (zlen res <? count) then
        '(st, id, eq) ← is_moveToNextEqual fuel st id false;
        if eq : bool then
          st ← is_next st;
          '(sub, _, oneEqual) ← is_move fuel sub id;
          fused_loop f st sub id count (if oneEqual : bool then res else res ++ [id])
        else fused_loop f st sub id count res
      else Ok res
  end.

(** The loop that fills [subtractStates] runs to [intersect.size()]; reading [subtract]
    beyond its end is undefined. *)
Fixpoint is_push_first (n : nat) st (i : Z) (idx : list (S * rd)) : result (istates S) :=
  match n with
  | O => Ok st
  | Datatypes.S n =>
      '(s, d) ← vget idx i;
      st ← is_push_back st s (rd_data d);
      is_push_first n st (u32 (i + 1)) idx
  end.

(** The states of [subtract] are as many as [intersect] has indexes, but [stateCount] is the
    size of [subtract]. *)
Definition fusedIntersectDifference (intersect subtract : list (S * rd)) (count : Z) : result (list Z) :=
  st ← is_push_all (is_new (u32 (zlen intersect))) intersect;
  sub ← is_push_first (length intersect) (is_new (u32 (zlen subtract))) 0 subtract;
  fused_loop (Datatypes.S (Datatypes.S (total_size intersect + total_size subtract))) st sub 0 count [].
End states.


(** * Specification *)

(** The ids of all lists, in order. *)
Definition inter (Ls : list (list Z)) : list Z :=
  match Ls with [] => [] | l :: Ls => filter (fun z => Forall (fun k => z ∈ k) Ls) l end.

Fixpoint drop_below (m : Z) (l : list Z) : list Z :=
  match l with [] => [] | x :: r => if x <? m then drop_below m r else l end.

Definition head_is (m : Z) (l : list Z) : bool := match l with x :: _ => x =? m | [] => false end.

Lemma elem_of_inter Ls z : Ls <> [] -> z ∈ inter Ls <-> Forall (fun l => z ∈ l) Ls.
Proof. destruct Ls as [|l Ls]; [done|]. intros _. cbn [inter]. rewrite list_elem_of_filter, Forall_cons. tauto. Qed.

Lemma inter_sorted Ls : Forall (fun l => sorted l) Ls -> sorted (inter Ls).
Proof. destruct 1; cbn [inter]; [constructor|]. by apply sorted_filter. Qed.

Lemma elem_of_drop_below m l z : sorted l -> z ∈ drop_below m l <-> z ∈ l /\ m <= z.
Proof.
  induction l as [|x l IH]; intros Hs; cbn [drop_below]; [rewrite elem_of_nil; tauto|].
  destruct (sorted_cons x l Hs) as [Hs' Hx]. destruct (Z.ltb_spec x m).
  - rewrite IH, elem_of_cons by done. split; [naive_solver|]. intros [[->|?] ?]; [lia|done].
  - split; [|naive_solver]. intros Hz. split; [done|]. apply elem_of_cons in Hz as [->|Hz%Hx]; lia.
Qed.

Lemma drop_below_sorted m l : sorted l -> sorted (drop_below m l).
Proof.
  induction l as [|x l IH]; intros Hs; cbn [drop_below]; [done|]. destruct (sorted_cons x l Hs) as [Hs' _].
  case_match; [by apply IH|done].
Qed.

Lemma drop_below_length m l : (length (drop_below m l) <= length l)%nat.
Proof. induction l as [|x l IH]; cbn [drop_below length]; [done|]. case_match; cbn [length]; lia. Qed.

(** One state in front of the ids [cur :: rest]. *)
Section single.
Context {S : Type} {B : Backend S} {BO : BackendOk S}.
Implicit Types (x : sstate S).

Definition st_at x (cur : Z) (rest : list Z) : Prop :=
  st_id x = cur /\ ids31 (cur :: rest) /\ exists k v ws pre,
    reading (st_s x) (st_data x) pre (rd_bytes ws) /\ Forall rword_ok ws /\
    st_rle x = Z.of_nat k /\ (k <> 0%nat -> st_diff x = v) /\ Z.of_nat k < 2 ^ 31 /\
    rest = steps k v cur ++ rd_vals (cur + Z.of_nat k * v) ws.

(** [l] is left; an exhausted state keeps an id below [m]. *)
Definition st_rep (m : Z) x (l : list Z) : Prop :=
  match l with
  | [] => st_valid x = false /\ st_id x < m
  | y :: rest => st_valid x = true /\ st_at x y rest
  end.

Lemma st_next_end x cur : st_at x cur [] -> exists x', st_next x = Ok x' /\ st_valid x' = false /\ st_id x' = cur.
Proof using.
  intros (Hid & _ & k & v & ws & pre & [Hb Hg] & Hok & Hr & _ & _ & Hrest). destruct k as [|k]; [|done].
  cbn [steps app] in Hrest. symmetry in Hrest. apply rd_vals_nil in Hrest as ->; [|done]. unfold st_next, getPtrHasNext.
  rewrite Hr, Hg, (buf_len _ _ _ Hb), app_nil_r, Z.ltb_irrefl. by eexists.
Qed.

Lemma st_next_ok x cur y rest : st_at x cur (y :: rest) -> (st_rle x <> 0 -> st_valid x = true) ->
  exists x', st_next x = Ok x' /\ st_valid x' = true /\ st_at x' y rest.
Proof using BO.
  intros (Hid & Hids & k & v & ws & pre & Hrd & Hok & Hr & Hd & Hk & Hrest) Hval. unfold st_next. rewrite Hr, Hid in *.
  apply Forall_inv_tail in Hids. pose proof Hids as Hids0.
  destruct k as [|k].
  - change (Z.of_nat 0) with 0. cbn [Z.eqb negb]. replace (cur + Z.of_nat 0 * v) with cur in Hrest by lia. cbn [steps app] in Hrest.
    destruct ws as [|[n w] ws]; [done|]. apply Forall_cons in Hok as [Hw Hok]. pose proof Hw as (Hn & Hw0 & _). cbn [fst snd rd_vals] in *.
    pose proof Hrd as [Hb Hg]. unfold getPtrHasNext. rewrite Hg, (buf_len _ _ _ Hb), length_app.
    destruct (rbytes_facts _ Hw) as [Hl _]. rewrite rd_bytes_cons in Hrd |- *. rewrite (proj2 (Z.ltb_lt _ _)) by (rewrite length_app; lia).
    destruct n as [|n]; [lia|]. cbn [steps app] in Hrest. injection Hrest as -> Hrest. apply Forall_cons in Hids as [Hx Hids'].
    destruct (read_word _ _ pre _ w _ Hw Hrd) as (a1 & y & -> & [([= ->] & Hl1 & Hy & Hr')|(Hn2 & Hl1 & Hy & a2 & z & Hg2 & Hz & Hr')]);
      rewrite bind_ok_l, Hl1; cbn [Z.eqb negb].
    + rewrite Hy, wrap_small by (unfold fits; lia). eexists. split; [done|]. split; [done|]. split; [done|]. split; [done|].
      exists 0%nat, 0, ws, (pre ++ rbytes (1%nat, w)). do 3 (split; [done|]). split; [done|]. split; [done|]. rewrite Hrest.
      cbn [steps app]. f_equal. lia.
    + rewrite Hg2, bind_ok_l, Hy, Hz, (wrap_small 32 (cur + w)), wrap_small by (unfold fits; lia).
      eexists. split; [done|]. split; [done|]. split; [done|]. split; [done|].
      exists n, w, ws, (pre ++ rbytes (Datatypes.S n, w)). split; [done|]. split; [done|]. cbn [st_rle st_diff]. split; [lia|].
      split; [done|]. split; [lia|]. rewrite Hrest. do 2 f_equal. lia.
  - rewrite (proj2 (Z.eqb_neq _ _)) by lia. cbn [negb]. cbn [steps app] in Hrest. injection Hrest as -> Hrest.
    apply Forall_cons in Hids as [Hx Hids']. rewrite Hd, (wrap_small 32 (cur + v)), wrap_small by (done || unfold fits; lia).
    eexists. split; [done|]. split; [apply Hval; lia|]. split; [done|]. split; [done|].
    exists k, v, ws, pre. split; [done|]. split; [done|]. cbn [st_rle st_diff]. split; [lia|]. split; [done|]. split; [lia|].
    rewrite Hrest. do 2 f_equal. lia.
Qed.

(** Advancing a state that has an id. *)
Lemma st_step_ok m x y rest : st_rep m x (y :: rest) -> y < m -> exists x', st_next x = Ok x' /\ st_rep m x' rest.
Proof using BO.
  intros [Hv Hat] Hy. destruct rest as [|z rest].
  - destruct (st_next_end x y Hat) as (x' & -> & Hv' & Hid). exists x'. split; [done|]. split; [done|lia].
  - destruct (st_next_ok x y z rest Hat) as (x' & -> & Hv' & Hat'); [done|]. by exists x'.
Qed.

Lemma st_rep_mono m m' x l : st_rep m x l -> m <= m' -> st_rep m' x l.
Proof using. destruct l; cbn; [intros [? ?] ?; split; [done|lia]|done]. Qed.

Lemma st_move_ok fuel m x l : st_rep m x l -> (length l < fuel)%nat ->
  exists x', st_move fuel x m = Ok x' /\ st_rep m x' (drop_below m l) /\ (st_id x' =? m) = head_is m (drop_below m l) /\
    st_valid x' = negb (bool_decide (drop_below m l = [])).
Proof using BO.
  revert x l. induction fuel as [|fuel IH]; intros x l Hx Hf; [lia|]. cbn [st_move]. destruct l as [|y l].
  - destruct Hx as [Hv Hid]. rewrite Hv. cbn [andb]. exists x. split; [done|]. split; [done|]. split; [apply Z.eqb_neq; lia|done].
  - pose proof Hx as [Hv (Hid & _)]. rewrite Hv, Hid. cbn [andb drop_below]. destruct (Z.ltb_spec y m) as [Hlt|Hge].
    + destruct (st_step_ok m x y l Hx Hlt) as (x' & -> & Hx'). rewrite bind_ok_l. apply IH; [done|cbn [length] in Hf; lia].
    + exists x. split; [done|]. split; [done|]. split; [by rewrite Hid|]. by rewrite Hv.
Qed.

(** A fresh reader of a nonempty index. *)
Lemma st_new_ok m (s : S) d z rest : rd_usable s d (z :: rest) -> exists y, st_new s (rd_data d) = Ok y /\ st_rep m y (z :: rest).
Proof using BO.
  intros (ws & [Hb Hg Hc Hok Hids Hf Hs] & Hv)%rd_usable_words. unfold st_new.
  destruct (st_next_ok (mkSt s (resetPtrs (rd_data d)) 0 0 0 true) 0 z rest) as (y & -> & Hvy & Hat); [|done|by exists y].
  split; [done|]. split; [constructor; [lia|by rewrite Hv]|]. exists 0%nat, 0, ws, []. cbn [st_s st_data st_rle]. split; [|split; [done|]].
  - split; [|done]. apply (buf_ptrs s (rd_data d)); [done|cbn; unfold fits; lia..].
  - split; [done|]. split; [done|]. split; [done|]. cbn [steps app]. by rewrite Hv.
Qed.
End single.

(** * All states *)

Definition empties (Ls : list (list Z)) : Z := zlen (filter (fun l => l = []) Ls).

Lemma empties_bound Ls : 0 <= empties Ls <= zlen Ls.
Proof. unfold empties. pose proof (length_filter (fun l : list Z => l = []) Ls). lia. Qed.

Lemma empties_cons l Ls : empties (l :: Ls) = (if bool_decide (l = []) then 1 else 0) + empties Ls.
Proof. unfold empties. rewrite filter_cons. case_decide; case_bool_decide; cbn [length]; (done || lia). Qed.

Lemma empties_zero Ls : empties Ls = 0 <-> Forall (fun l => l <> []) Ls.
Proof.
  induction Ls as [|l Ls IH]; [split; [constructor|done]|]. rewrite empties_cons, Forall_cons, <- IH.
  pose proof (empties_bound Ls). case_bool_decide; split; [lia|naive_solver|naive_solver lia|naive_solver lia].
Qed.

Section all.
Context {S : Type} {B : Backend S} {BO : BackendOk S}.
Implicit Types (st : istates S) (xs ys : list (sstate S)).

(** The states of [st] stand in front of the lists [Ls]. *)
Definition is_rep (m : Z) st (Ls : list (list Z)) : Prop :=
  Forall2 (st_rep m) (is_states st) Ls /\ is_count st = zlen Ls /\ zlen Ls < 2 ^ 32 /\ Forall (fun l => sorted l) Ls /\ 0 <= m.

Lemma is_rep_len m st Ls : is_rep m st Ls -> zlen (is_states st) = zlen Ls.
Proof using. intros [HF _]. apply Forall2_length in HF. lia. Qed.

Lemma vget_middle {A} (pre : list A) x post : vget (pre ++ x :: post) (zlen pre) = Ok x.
Proof using. apply vget_ok. split; [lia|]. rewrite Nat2Z.id. by apply list_lookup_middle. Qed.

Lemma vget_beyond {A} (l : list A) i : zlen l <= i -> vget l i = Err UndefinedBehaviour.
Proof using. intros Hi. unfold vget. destruct (in_range l i 1) eqn:E; [|done]. apply in_range_spec in E. lia. Qed.

Lemma insert_middle {A} (pre : list A) x y post : <[Z.to_nat (zlen pre) := y]> (pre ++ x :: post) = (pre ++ [y]) ++ post.
Proof using. rewrite Nat2Z.id, insert_app_r_alt, Nat.sub_diag by lia. by rewrite <- app_assoc. Qed.

(** [moveTillLargerOrEqual] from the state [i] on. *)
Lemma is_move_loop_ok fuel m cnt pre xs Ls val aE oE : Forall2 (st_rep m) xs Ls -> Forall (fun l => (length l < fuel)%nat) Ls ->
  zlen pre + zlen xs < 2 ^ 32 -> fits 32 val ->
  exists xs', is_move_loop fuel (length xs) (mkStates (pre ++ xs) cnt val) (zlen pre) m aE oE =
      Ok (mkStates (pre ++ xs') cnt (u32 (val - empties (map (drop_below m) Ls))),
          aE && forallb (fun l => head_is m (drop_below m l)) Ls, oE || existsb (fun l => head_is m (drop_below m l)) Ls) /\
    Forall2 (st_rep m) xs' (map (drop_below m) Ls).
Proof using BO.
  intros HF. revert pre val aE oE. induction HF as [|x l xs Ls Hx HF IH]; intros pre val aE oE Hfu Hn Hv; cbn [length is_move_loop].
  { exists []. change (empties (map (drop_below m) [])) with 0. rewrite Z.sub_0_r, wrap_small by done.
    cbn [forallb existsb]. by rewrite andb_true_r, orb_false_r. }
  apply Forall_cons in Hfu as [Hfl Hfu]. unfold is_get. cbn [is_states is_count is_valid length] in *. rewrite vget_middle, bind_ok_l.
  destruct (st_move_ok fuel m x l Hx Hfl) as (y & -> & Hy & Heq & Hvy). rewrite bind_ok_l, Heq, Hvy, insert_middle.
  rewrite (wrap_small 32 (zlen pre + 1)) by (unfold fits; lia).
  replace (zlen pre + 1) with (zlen (pre ++ [y])) by (rewrite length_app; cbn; lia).
  set (val' := if negb _ then val else _).
  assert (fits 32 val') as Hv' by (unfold val'; case_match; [done|apply wrap_fits; lia]).
  destruct (IH (pre ++ [y]) val' (aE && head_is m (drop_below m l)) (oE || head_is m (drop_below m l)) Hfu) as (xs' & -> & HF');
    [rewrite length_app; cbn [length]; lia|done|].
  exists (y :: xs'). rewrite <- app_assoc. cbn [app]. split; [|by constructor]. cbn [map forallb existsb].
  rewrite empties_cons, <- andb_assoc, <- orb_assoc. unfold val'. case_bool_decide; cbn [negb]; do 4 f_equal.
  - rewrite wrap_sub_l by lia. f_equal. lia.
Qed.

Lemma is_move_ok fuel m0 m st Ls : is_rep m0 st Ls -> m0 <= m -> Forall (fun l => (length l < fuel)%nat) Ls -> fits 32 (is_valid st) ->
  exists st', is_move fuel st m = Ok (st', forallb (fun l => head_is m (drop_below m l)) Ls, existsb (fun l => head_is m (drop_below m l)) Ls) /\
    is_rep m st' (map (drop_below m) Ls) /\ is_valid st' = u32 (is_valid st - empties (map (drop_below m) Ls)).
Proof using BO.
  intros Hst Hm Hfu Hv. pose proof (is_rep_len _ _ _ Hst) as Hlen. destruct Hst as (HF & Hc & Hn & Hs & Hm0). unfold is_move. rewrite Hc, <- Hlen, Nat2Z.id.
  destruct (is_move_loop_ok fuel m (is_count st) [] (is_states st) Ls (is_valid st) true false) as (xs' & Hmv & HF'); try done.
  - eapply Forall2_impl; [exact HF|]. intros x l Hx. by eapply st_rep_mono.
  - cbn [length]. lia.
  - cbn [app] in Hmv. change (zlen []) with 0 in Hmv. destruct st as [xs cnt val]. cbn [is_states is_count is_valid] in *. rewrite Hmv.
    eexists. split; [done|]. split; [|done]. split; [done|]. cbn [is_count]. rewrite length_map. split; [done|]. split; [done|]. split; [|lia].
    apply Forall_map. eapply Forall_impl; [exact Hs|]. intros l. apply drop_below_sorted.
Qed.

Lemma is_move_loop_add fuel n k st i m aE oE : fits 32 i ->
  is_move_loop fuel (n + k) st i m aE oE =
    '(st, aE, oE) ← is_move_loop fuel n st i m aE oE; is_move_loop fuel k st (u32 (i + Z.of_nat n)) m aE oE.
Proof using.
  revert st i aE oE. induction n as [|n IH]; intros st i aE oE Hi; cbn [Nat.add is_move_loop].
  { by rewrite bind_ok_l, Z.add_0_r, wrap_small. }
  destruct (is_get st i) as [x|]; [|done]. rewrite !bind_ok_l. destruct (st_move fuel x m) as [y|]; [|done]. rewrite !bind_ok_l, IH by (apply wrap_fits; lia).
  by rewrite wrap_add_l, Nat2Z.inj_succ, <- Z.add_assoc, Z.add_1_l by lia.
Qed.

(** With a [stateCount] above the number of states, [moveTillLargerOrEqual] reads a state
    behind the last one. *)
Lemma is_move_beyond fuel m st Ls : Forall2 (st_rep m) (is_states st) Ls -> Forall (fun l => (length l < fuel)%nat) Ls ->
  zlen (is_states st) < is_count st < 2 ^ 32 -> fits 32 (is_valid st) -> is_move fuel st m = Err UndefinedBehaviour.
Proof using BO.
  intros HF Hfu Hc Hv. destruct st as [xs cnt val]. cbn [is_states is_count is_valid] in *. unfold is_move. cbn [is_count].
  replace (Z.to_nat cnt) with (length xs + Datatypes.S (Z.to_nat (cnt - zlen xs - 1)))%nat by lia.
  rewrite is_move_loop_add by (unfold fits; lia).
  destruct (is_move_loop_ok fuel m cnt [] xs Ls val true false HF Hfu) as (xs' & Hmv & HF'); [cbn [length]; lia|done|].
  cbn [app] in Hmv. change (zlen []) with 0 in Hmv. rewrite Hmv, bind_ok_l. cbn [is_move_loop]. unfold is_get. cbn [is_states].
  rewrite Z.add_0_l, wrap_small by (unfold fits; lia). apply Forall2_length in HF, HF'. rewrite length_map in HF'.
  rewrite vget_beyond by lia. done.
Qed.

(** The largest current id. *)
Lemma is_max_loop_ok st pre xs Ls m0 mx : is_states st = pre ++ xs -> Forall2 (st_rep m0) xs Ls -> Forall (fun l => l <> []) Ls ->
  zlen pre + zlen xs < 2 ^ 32 ->
  exists m, is_max_loop (length xs) st (zlen pre) mx = Ok m /\ mx <= m /\
    Forall (fun l => forall y, hd_error l = Some y -> y <= m) Ls /\ (m = mx \/ Exists (fun l => hd_error l = Some m) Ls).
Proof using.
  intros Hst HF. revert pre mx Hst. induction HF as [|x l xs Ls Hx HF IH]; intros pre mx Hst Hne Hn; cbn [length is_max_loop].
  { exists mx. split; [done|]. split; [lia|]. split; [constructor|by left]. }
  apply Forall_cons in Hne as [Hl Hne]. unfold is_get. rewrite Hst, vget_middle, bind_ok_l. destruct l as [|y l]; [done|].
  destruct Hx as [Hv (Hid & _)]. rewrite Hv, Hid. cbn [andb length] in *. rewrite (wrap_small 32) by (unfold fits; lia).
  replace (zlen pre + 1) with (zlen (pre ++ [x])) by (rewrite length_app; cbn; lia).
  destruct (IH (pre ++ [x]) (if mx <=? y then y else mx)) as (m & -> & Hge & Hall & Hex); [by rewrite <- app_assoc|done|rewrite length_app; cbn [length]; lia|].
  exists m. split; [done|]. split; [destruct (Z.leb_spec mx y); lia|]. split.
  - constructor; [|done]. intros z [= <-]. destruct (Z.leb_spec mx y); lia.
  - destruct Hex as [->|?]; [|right; by apply Exists_cons_tl]. destruct (Z.leb_spec mx y); [right; by apply Exists_cons_hd|by left].
Qed.

(** The counter counts the states that have an id. *)
Definition is_counted st (Ls : list (list Z)) : Prop := is_valid st = zlen Ls - empties Ls.

Lemma is_allValid_ok m st Ls : is_rep m st Ls -> is_counted st Ls -> is_allValid st = bool_decide (empties Ls = 0).
Proof using.
  intros Hst Hc. unfold is_allValid. rewrite Hc, (is_rep_len m st Ls Hst). apply eq_true_iff_eq.
  rewrite Z.eqb_eq, bool_decide_eq_true. lia.
Qed.

Lemma is_rep_any m m' st Ls : is_rep m st Ls -> empties Ls = 0 -> 0 <= m' -> is_rep m' st Ls.
Proof using.
  intros (HF & Hc & Hn & Hs & Hm) He Hm'. split; [|done]. apply empties_zero in He. clear -HF He.
  induction HF as [|x l xs Ls Hx HF IH]; [constructor|]. apply Forall_cons in He as [Hl He]. constructor; [by destruct l|by apply IH].
Qed.
End all.

(** Dropping what is below a current id of all states. *)
Lemma inter_drop m Ls : Forall (fun l => sorted l) Ls -> Exists (fun l => hd_error l = Some m) Ls ->
  inter (map (drop_below m) Ls) = inter Ls.
Proof.
  intros Hs Hm. assert (Ls <> []) as Hne by (intros ->; by apply Exists_nil in Hm).
  assert (Forall (fun l => sorted l) (map (drop_below m) Ls)) as Hs'.
  { apply Forall_map. eapply Forall_impl; [exact Hs|]. intros l. apply drop_below_sorted. }
  apply sorted_ext; [by apply inter_sorted..|]. intros z.
  rewrite !elem_of_inter by (done || by destruct Ls). rewrite Forall_map, !Forall_forall. apply Exists_exists in Hm as (l & Hl & Hh).
  rewrite Forall_forall in Hs. split; intros Hz k Hk.
  - specialize (Hz k Hk). apply elem_of_drop_below in Hz; [tauto|by apply Hs].
  - apply elem_of_drop_below; [by apply Hs|]. split; [by apply Hz|]. specialize (Hz l Hl). destruct l as [|y l]; [done|].
    injection Hh as ->. destruct (sorted_cons m l (Hs _ Hl)) as [_ Hgt]. apply elem_of_cons in Hz as [->|Hz%Hgt]; lia.
Qed.

Definition total (Ls : list (list Z)) : nat := length (concat Ls).

Lemma total_cons l Ls : total (l :: Ls) = (length l + total Ls)%nat.
Proof. unfold total. cbn [concat]. by rewrite length_app. Qed.

Lemma drop_total_le m Ls : (total (map (drop_below m) Ls) <= total Ls)%nat.
Proof. induction Ls as [|l Ls IH]; [done|]. cbn [map]. rewrite !total_cons. pose proof (drop_below_length m l). lia. Qed.

Lemma drop_total m Ls : Forall (fun l => l <> []) Ls -> Forall (fun l => forall y, hd_error l = Some y -> y <= m) Ls ->
  forallb (fun l => head_is m (drop_below m l)) Ls = false -> (total (map (drop_below m) Ls) < total Ls)%nat.
Proof.
  induction Ls as [|l Ls IH]; intros Hne Hle Hf; [done|]. apply Forall_cons in Hne as [Hl Hne]. apply Forall_cons in Hle as [Hy Hle].
  cbn [map forallb] in *. rewrite !total_cons. pose proof (drop_total_le m Ls). destruct l as [|y l]; [done|].
  specialize (Hy y eq_refl). pose proof (drop_below_length m l). cbn [drop_below length] in *.
  destruct (Z.ltb_spec y m); [lia|]. cbn [head_is] in Hf. rewrite (proj2 (Z.eqb_eq y m)) in Hf by lia. cbn [andb length] in *.
  specialize (IH Hne Hle Hf). lia.
Qed.

Lemma inter_empty Ls : empties Ls <> 0 -> inter Ls = [].
Proof.
  intros He. destruct (decide (Ls = [])) as [->|Hne]; [done|]. apply elem_of_nil_inv. intros z Hz. apply elem_of_inter in Hz; [|done].
  apply He, empties_zero. eapply Forall_impl; [exact Hz|]. intros l Hl ->. by apply elem_of_nil in Hl.
Qed.

Lemma lengths_total Ls n : (total Ls < n)%nat -> Forall (fun l => (length l < n)%nat) Ls.
Proof. induction Ls as [|l Ls IH]; intros Hn; constructor; rewrite total_cons in Hn; [lia|apply IH; lia]. Qed.

Section rounds.
Context {S : Type} {B : Backend S} {BO : BackendOk S}.
Implicit Types (st : istates S).

(** One round of [moveToNextEqual]. *)
Lemma round_ok fuel m0 st Ls : is_rep m0 st Ls -> is_counted st Ls -> Ls <> [] -> empties Ls = 0 -> (total Ls < fuel)%nat ->
  exists m st' Ls', is_findMax st = Ok m /\ Ls' = map (drop_below m) Ls /\
    is_move fuel st m = Ok (st', forallb (head_is m) Ls', existsb (head_is m) Ls') /\ is_rep m st' Ls' /\ is_counted st' Ls' /\
    inter Ls' = inter Ls /\ (forallb (head_is m) Ls' = false -> (total Ls' < total Ls)%nat).
Proof using BO.
  intros Hst Hc Hne He Hfu. pose proof Hst as (HF & Hcnt & Hn & Hs & Hm0). pose proof (is_rep_len _ _ _ Hst) as Hlen.
  pose proof (proj1 (empties_zero Ls) He) as Hall. unfold is_findMax. rewrite Hcnt, <- Hlen, Nat2Z.id.
  destruct (is_max_loop_ok st [] (is_states st) Ls m0 0 eq_refl HF Hall) as (m & Hmx & Hge & Hle & Hex); [cbn [length]; lia|].
  change (zlen []) with 0 in Hmx. pose proof (is_rep_any m0 m st Ls Hst He Hge) as Hst'.
  destruct (is_move_ok fuel m m st Ls Hst') as (st' & Hmv & Hr & Hv); [lia|by apply lengths_total|rewrite Hc; unfold fits; lia|].
  exists m, st', (map (drop_below m) Ls).
  assert (forallb (head_is m) (map (drop_below m) Ls) = forallb (fun l => head_is m (drop_below m l)) Ls) as Hfa.
  { clear. induction Ls as [|l Ls IH]; [done|]. cbn [map forallb]. by rewrite IH. }
  assert (existsb (head_is m) (map (drop_below m) Ls) = existsb (fun l => head_is m (drop_below m l)) Ls) as Hea.
  { clear. induction Ls as [|l Ls IH]; [done|]. cbn [map existsb]. by rewrite IH. }
  rewrite Hfa, Hea. split; [done|]. split; [done|]. split; [done|]. split; [done|]. split.
  { unfold is_counted in *. rewrite Hv, Hc, He, Z.sub_0_r. pose proof (empties_bound (map (drop_below m) Ls)) as Hb. rewrite length_map in *.
    apply wrap_small. unfold fits. lia. }
  split; [|intros; by apply drop_total]. apply inter_drop; [done|]. destruct Hex as [->|?]; [|done].
  destruct Ls as [|l Ls]; [done|]. apply Exists_cons_hd. apply Forall_inv in Hle. apply Forall_inv in Hall. destruct l as [|y l]; [done|].
  specialize (Hle y eq_refl). cbn. f_equal. inversion HF as [|x ? xs ? Hx _]. subst. destruct Hx as (_ & _ & Hids & _).
  apply Forall_inv in Hids. lia.
Qed.

Lemma next_equal_ok fuel m0 st Ls id aE : is_rep m0 st Ls -> is_counted st Ls -> Ls <> [] ->
  (aE = true -> empties Ls = 0 -> Forall (fun l => head_is id l = true) Ls /\ 0 <= id) ->
  (total Ls + (if aE then 1 else 2) <= fuel)%nat ->
  exists st' id' m Ls', is_moveToNextEqual fuel st id aE = Ok (st', id', bool_decide (empties Ls' = 0)) /\
    is_rep m st' Ls' /\ is_counted st' Ls' /\ length Ls' = length Ls /\ inter Ls' = inter Ls /\ (total Ls' <= total Ls)%nat /\
    (empties Ls' = 0 -> Forall (fun l => head_is id' l = true) Ls' /\ 0 <= id').
Proof using BO.
  revert m0 st Ls id aE. induction fuel as [|fuel IH]; intros m0 st Ls id aE Hst Hc Hne Heq Hfu; [destruct aE; lia|].
  cbn [is_moveToNextEqual]. rewrite (is_allValid_ok m0 st Ls Hst Hc).
  case_bool_decide as He; cbn [andb]; [|exists st, id, m0, Ls; by rewrite bool_decide_false].
  destruct aE; cbn [negb].
  { exists st, id, m0, Ls. rewrite bool_decide_true by done. split; [done|]. do 5 (split; [done|]). auto. }
  destruct (round_ok (Datatypes.S fuel) m0 st Ls Hst Hc Hne He) as (m & st1 & Ls1 & Hmx & HLs1 & Hmv & Hr & Hc1 & Hin & Hdec); [lia|].
  rewrite Hmx, bind_ok_l, Hmv, bind_ok_l. pose proof (drop_total_le m Ls) as Hle. rewrite <- HLs1 in Hle.
  assert (Ls1 <> [] /\ length Ls1 = length Ls) as [Hne1 Hl1] by (rewrite HLs1, length_map; split; [by destruct Ls|done]).
  destruct (IH m st1 Ls1 m (forallb (head_is m) Ls1) Hr Hc1 Hne1) as (st2 & id2 & m2 & Ls2 & -> & Hr2 & Hc2 & Hl2 & Hin2 & Hle2 & He2).
  - intros Hall _. split; [|by apply Hr]. apply Forall_forall. intros l Hl. rewrite forallb_forall in Hall. apply Hall. by apply list_elem_of_In.
  - destruct (forallb (head_is m) Ls1) eqn:E; [lia|]. specialize (Hdec eq_refl). lia.
  - exists st2, id2, m2, Ls2. split; [done|]. split; [done|]. split; [done|]. split; [congruence|]. split; [congruence|]. split; [lia|done].
Qed.

(** [next] on all states. *)
Lemma is_next_loop_ok m cnt pre xs Ls val : Forall2 (st_rep m) xs Ls ->
  Forall (fun l => exists y rest, l = y :: rest /\ y < m) Ls -> zlen pre + zlen xs < 2 ^ 32 -> fits 32 val ->
  exists xs', is_next_loop (length xs) (mkStates (pre ++ xs) cnt val) (zlen pre) =
      Ok (mkStates (pre ++ xs') cnt (u32 (val - empties (map tail Ls)))) /\ Forall2 (st_rep m) xs' (map tail Ls).
Proof using BO.
  intros HF. revert pre val. induction HF as [|x l xs Ls Hx HF IH]; intros pre val Hh Hn Hv; cbn [length is_next_loop].
  { exists []. change (empties (map tail [])) with 0. by rewrite Z.sub_0_r, wrap_small. }
  apply Forall_cons in Hh as [(y & rest & -> & Hy) Hh]. unfold is_next_at, is_get. cbn [is_states is_count is_valid length] in *.
  rewrite vget_middle, bind_ok_l. destruct (st_step_ok m x y rest Hx Hy) as (x' & -> & Hx'). rewrite bind_ok_l.
  unfold mret, result_ret. rewrite bind_ok_l, insert_middle, (wrap_small 32 (zlen pre + 1)) by (unfold fits; lia).
  replace (zlen pre + 1) with (zlen (pre ++ [x'])) by (rewrite length_app; cbn; lia).
  set (val' := if st_valid x' then val else _).
  assert (fits 32 val') as Hv' by (unfold val'; case_match; [done|apply wrap_fits; lia]).
  destruct (IH (pre ++ [x']) val' Hh) as (xs' & -> & HF'); [rewrite length_app; cbn [length]; lia|done|].
  exists (x' :: xs'). rewrite <- app_assoc. cbn [app map tail]. split; [|by constructor].
  rewrite empties_cons. unfold val'. destruct rest as [|z rest]; destruct Hx' as [-> _].
  - rewrite bool_decide_true, wrap_sub_l by (done || lia). do 3 f_equal. lia.
  - by rewrite bool_decide_false by done.
Qed.

Lemma is_next_ok m st Ls id : is_rep m st Ls -> is_counted st Ls -> empties Ls = 0 -> Forall (fun l => head_is id l = true) Ls ->
  0 <= id -> exists st', is_next st = Ok st' /\ is_rep (id + 1) st' (map tail Ls) /\ is_counted st' (map tail Ls).
Proof using BO.
  intros Hst Hc He Hh Hid. apply (is_rep_any m (id + 1)) in Hst; [|done|lia]. pose proof (is_rep_len _ _ _ Hst) as Hlen.
  destruct Hst as (HF & Hcnt & Hn & Hs & _). unfold is_next. rewrite Hcnt, <- Hlen, Nat2Z.id.
  destruct (is_next_loop_ok (id + 1) (is_count st) [] (is_states st) Ls (is_valid st) HF) as (xs' & Hnx & HF'); [|cbn [length]; lia|rewrite Hc; unfold fits; lia|].
  - eapply Forall_impl; [exact Hh|]. intros [|y l] Hl; [done|]. apply Z.eqb_eq in Hl as ->. exists id, l. split; [done|lia].
  - cbn [app] in Hnx. change (zlen []) with 0 in Hnx. destruct st as [xs cnt val]. cbn [is_states is_count is_valid] in *. rewrite Hnx.
    eexists. split; [done|]. unfold is_counted in *. cbn [is_valid] in *. pose proof (empties_bound (map tail Ls)) as Hb. rewrite length_map in *. split.
    + split; [done|]. cbn [is_count]. rewrite length_map. split; [done|]. split; [done|]. split; [|lia].
      apply Forall_map. eapply Forall_impl; [exact Hs|]. intros [|y l] Hl; [done|]. by destruct (sorted_cons y l Hl).
    + rewrite Hc, He, Z.sub_0_r. apply wrap_small. unfold fits. lia.
Qed.
End rounds.

(** Where all lists begin with [id]. *)
Lemma inter_heads id Ls : Ls <> [] -> Forall (fun l => sorted l) Ls -> Forall (fun l => head_is id l = true) Ls ->
  inter Ls = id :: inter (map tail Ls) /\ (total (map tail Ls) < total Ls)%nat.
Proof.
  intros Hne Hs Hh. assert (Forall (fun l => exists k, l = id :: k /\ sorted (id :: k)) Ls) as Hk.
  { apply Forall_forall. intros l Hl. rewrite Forall_forall in Hs, Hh. specialize (Hs l Hl). specialize (Hh l Hl).
    destruct l as [|y l]; [done|]. apply Z.eqb_eq in Hh as ->. by exists l. }
  split.
  - assert (Forall (fun l => sorted l) (map tail Ls)) as Hs'.
    { apply Forall_map. eapply Forall_impl; [exact Hk|]. intros l (k & -> & Hsk). by destruct (sorted_cons id k Hsk). }
    apply sorted_ext; [by apply inter_sorted| |].
    + constructor; [by apply inter_sorted|]. apply Forall_forall. intros z Hz. apply elem_of_inter in Hz; [|by destruct Ls].
      destruct Ls as [|l Ls]; [done|]. apply Forall_inv in Hk as (k & -> & Hsk). apply Forall_inv in Hz.
      destruct (sorted_cons id k Hsk) as [_ Hgt]. by apply Hgt.
    + intros z. rewrite elem_of_cons, !elem_of_inter by (done || by destruct Ls). rewrite Forall_map, !Forall_forall.
      rewrite Forall_forall in Hk. split.
      * intros Hz. destruct (decide (z = id)) as [->|Hzi]; [by left|right]. intros l Hl. destruct (Hk l Hl) as (k & -> & _).
        specialize (Hz _ Hl). cbn [tail]. apply elem_of_cons in Hz as [?|?]; done.
      * intros [->|Hz] l Hl; destruct (Hk l Hl) as (k & -> & _); [by left|right]. by specialize (Hz _ Hl).
  - clear Hs Hh. induction Hk as [|l Ls (k & -> & _) Hk IH]; [done|]. cbn [map tail]. rewrite !total_cons. cbn [length].
    destruct Ls; [cbn; lia|]. specialize (IH ltac:(done)). lia.
Qed.

Section many.
Context {S : Type} {B : Backend S} {BO : BackendOk S}.
Implicit Types (st : istates S).

Lemma take_pushed (res l : list Z) id count : zlen res < count ->
  take (Z.to_nat count) (res ++ id :: l) = take (Z.to_nat count) ((res ++ [id]) ++ l).
Proof using. by rewrite app_cons. Qed.

Lemma constrained_loop_ok fuel m st Ls id count res : is_rep m st Ls -> is_counted st Ls -> Ls <> [] ->
  zlen res <= count -> (total Ls + 2 <= fuel)%nat ->
  constrained_loop fuel st id count res = Ok (take (Z.to_nat count) (res ++ inter Ls)).
Proof using BO.
  revert m st Ls id res. induction fuel as [|fuel IH]; intros m st Ls id res Hst Hc Hne Hres Hfu; [lia|]. cbn [constrained_loop].
  rewrite (is_allValid_ok m st Ls Hst Hc). case_bool_decide as He; cbn [andb].
  2: { rewrite inter_empty, app_nil_r, take_ge by (done || lia). done. }
  destruct (Z.ltb_spec (zlen res) count) as [Hlt|Hge].
  2: { rewrite take_app_le, take_ge by lia. done. }
  destruct (next_equal_ok (Datatypes.S fuel) m st Ls id false Hst Hc Hne) as (st1 & id1 & m1 & Ls1 & -> & Hr & Hc1 & Hl & Hin & Hle & Hheads);
    [done|lia|].
  assert (Ls1 <> []) as Hne1 by (intros ->; by destruct Ls).
  rewrite bind_ok_l, <- Hin. case_bool_decide as He1.
  - destruct (Hheads He1) as [Hh Hid]. destruct (is_next_ok m1 st1 Ls1 id1 Hr Hc1 He1 Hh Hid) as (st2 & -> & Hr2 & Hc2). rewrite bind_ok_l.
    destruct (inter_heads id1 Ls1 Hne1) as [-> Ht]; [apply Hr|done|].
    rewrite take_pushed by done. apply (IH _ _ _ _ _ Hr2 Hc2); [by destruct Ls1|rewrite length_app; cbn [length]; lia|lia].
  - rewrite inter_empty, app_nil_r, take_ge by (done || lia). destruct fuel as [|fuel]; [lia|]. cbn [constrained_loop].
    rewrite (is_allValid_ok m1 st1 Ls1 Hr Hc1), bool_decide_false by done. done.
Qed.

(** The indexes [idx] hold the nonempty sorted lists [Ls]. *)
Definition holds_all (idx : list (S * rd)) (Ls : list (list Z)) : Prop :=
  Forall2 (fun w l => rd_usable (fst w) (snd w) l /\ sorted l /\ l <> []) idx Ls.

Lemma is_push_all_ok m cnt val pre idx Ls : holds_all idx Ls -> exists xs,
  is_push_all (mkStates pre cnt val) idx = Ok (mkStates (pre ++ xs) cnt val) /\ Forall2 (st_rep m) xs Ls.
Proof using BO.
  intros HF. revert pre. induction HF as [|[s d] l idx Ls (Hu & _ & Hl) HF IH]; intros pre; cbn [is_push_all].
  { exists []. by rewrite app_nil_r. }
  destruct l as [|z rest]; [done|]. destruct (st_new_ok m s d z rest Hu) as (y & Hy & Hrep).
  unfold is_push_back. rewrite Hy, bind_ok_l. cbn [is_states is_count is_valid]. unfold mret, result_ret. rewrite bind_ok_l.
  destruct (IH (pre ++ [y])) as (xs & -> & HF'). exists (y :: xs). rewrite <- app_assoc. split; [done|]. by constructor.
Qed.

(** Pushing [n] indexes from the position [i] on reads behind the end when there are fewer. *)
Lemma is_push_first_eq n st i idx : 0 <= i <= zlen idx -> i + Z.of_nat n < 2 ^ 32 ->
  is_push_first n st i idx = st ← is_push_all st (take n (drop (Z.to_nat i) idx)); throw_if (zlen idx <? i + Z.of_nat n) UndefinedBehaviour;; Ok st.
Proof using.
  revert st i. induction n as [|n IH]; intros st i Hi Hn; cbn [is_push_first take].
  { rewrite (proj2 (Z.ltb_ge _ _)) by lia. done. }
  destruct (decide (i < zlen idx)) as [Hlt|Hge].
  - destruct (vget_lt idx i) as ([s d] & Hg & Hl); [lia|]. rewrite Hg, bind_ok_l, (drop_S idx (s, d)) by done. cbn [take is_push_all].
    destruct (is_push_back st s (rd_data d)) as [st'|]; [|done]. rewrite !bind_ok_l, wrap_small, IH by (unfold fits; lia).
    replace (Z.to_nat (i + 1)) with (Datatypes.S (Z.to_nat i)) by lia. by replace (i + 1 + Z.of_nat n) with (i + Z.of_nat (Datatypes.S n)) by lia.
  - rewrite vget_beyond, drop_ge by lia. rewrite (proj2 (Z.ltb_lt _ _)) by lia. done.
Qed.

(** A loop whose subtrahends cannot be moved fails at the first common id. *)
Lemma fused_loop_fails fuel m st Ls sub count : is_rep m st Ls -> is_counted st Ls -> Ls <> [] -> (total Ls + 2 <= fuel)%nat ->
  (forall id, 0 <= id -> is_move fuel sub id = Err UndefinedBehaviour) ->
  fused_loop fuel st sub 0 count [] = if (0 <? count) && negb (bool_decide (inter Ls = [])) then Err UndefinedBehaviour else Ok [].
Proof using BO.
  intros Hst Hc Hne Hfu Hmv. destruct fuel as [|fuel]; [lia|]. cbn [fused_loop length]. rewrite (is_allValid_ok m st Ls Hst Hc).
  change (Z.of_nat 0) with 0. destruct (0 <? count); [|by rewrite andb_false_r]. rewrite andb_true_r. cbn [andb].
  case_bool_decide as He; [|by rewrite inter_empty]. 
  destruct (next_equal_ok (Datatypes.S fuel) m st Ls 0 false Hst Hc Hne) as (st1 & id1 & m1 & Ls1 & -> & Hr & Hc1 & Hl & Hin & Hle & Hheads);
    [done|lia|]. rewrite bind_ok_l, <- Hin. assert (Ls1 <> []) as Hne1 by (intros ->; by destruct Ls). case_bool_decide as He1.
  - destruct (Hheads He1) as [Hh Hid]. destruct (is_next_ok m1 st1 Ls1 id1 Hr Hc1 He1 Hh Hid) as (st2 & -> & _). rewrite bind_ok_l, Hmv by done.
    destruct (inter_heads id1 Ls1 Hne1) as [-> _]; [apply Hr|done|]. done.
  - rewrite inter_empty by done. destruct fuel as [|fuel]; [lia|]. cbn [fused_loop]. by rewrite (is_allValid_ok m1 st1 Ls1 Hr Hc1), bool_decide_false.
Qed.

Lemma is_start_ok m idx Ls : holds_all idx Ls -> zlen idx < 2 ^ 32 -> 0 <= m -> exists st,
  is_push_all (is_new (u32 (zlen idx))) idx = Ok st /\ is_rep m st Ls /\ is_counted st Ls /\ total_size idx = total Ls.
Proof using BO.
  intros HF Hn Hm. destruct (is_push_all_ok m (u32 (zlen idx)) (u32 (zlen idx)) [] idx Ls HF) as (xs & Hp & HF').
  unfold is_new. rewrite Hp. eexists. split; [done|]. pose proof (Forall2_length _ _ _ HF) as Hlen.
  assert (Forall (fun l => sorted l /\ l <> []) Ls) as Hall.
  { clear -HF. induction HF as [|w l idx Ls (_ & Hs & Hl) HF IH]; constructor; [done|apply IH]. }
  apply Forall_and in Hall as [Hs Hne]. split; [|split].
  - split; [done|]. cbn [is_count]. rewrite wrap_small by (unfold fits; lia). split; [lia|]. split; [lia|]. done.
  - unfold is_counted. cbn [is_valid]. rewrite wrap_small, (proj2 (empties_zero Ls) Hne) by (unfold fits; lia). lia.
  - clear -HF. induction HF as [|[s d] l idx Ls (Hu & _) HF IH]; [done|]. unfold total_size in *. cbn [sum_list_with snd].
    rewrite IH, total_cons. destruct (rd_usable_words s d l Hu) as (ws & Hw & ->). rewrite (rw_count _ _ _ Hw). lia.
Qed.

(** C24: the intersection of a nonempty list of nonempty indexes, cut off at [count] ids,
    succeeds and gives the first [count] ids that all of them have, in order. *)
Theorem constrainedIntersect_correct (idx : list (S * rd)) Ls count : holds_all idx Ls -> idx <> [] -> zlen idx < 2 ^ 32 -> 0 <= count ->
  constrainedIntersect idx count = Ok (take (Z.to_nat count) (inter Ls)) /\ sorted (inter Ls) /\
  forall z, z ∈ inter Ls <-> Forall (fun l => z ∈ l) Ls.
Proof using BO.
  intros HF Hne Hn Hc. destruct (is_start_ok 0 idx Ls HF Hn) as (st & Hp & Hst & Hcn & Ht); [lia|]. unfold constrainedIntersect.
  assert (Ls <> []) as HLs by (intros ->; inversion HF; by subst).
  rewrite Hp, bind_ok_l, Ht. split; [|split; [apply inter_sorted, Hst|intros z; by apply elem_of_inter]].
  apply (constrained_loop_ok _ 0 st Ls 0 count []); [done|done|done|cbn; lia|lia].
Qed.

(** The ids of [l] that are in none of the lists [Ks]. *)
Definition without (Ks : list (list Z)) (l : list Z) : list Z := filter (fun z => ~ Exists (fun k => z ∈ k) Ks) l.

Lemma head_drop id l : sorted l -> head_is id (drop_below id l) = bool_decide (id ∈ l).
Proof using.
  intros Hs. pose proof (elem_of_drop_below id l id Hs) as Hin. pose proof (drop_below_sorted id l Hs) as Hs'.
  apply eq_true_iff_eq. rewrite bool_decide_eq_true. destruct (drop_below id l) as [|y k] eqn:E; cbn [head_is].
  - split; [done|]. intros H. exfalso. apply (elem_of_nil id), Hin. split; [done|lia].
  - assert (id <= y) as Hy by (apply (elem_of_drop_below id l y Hs); rewrite E; left).
    destruct (sorted_cons y k Hs') as [_ Hgt]. rewrite Z.eqb_eq. split; [intros ->; apply Hin; left|].
    intros H. assert (id ∈ y :: k) as [?|?%Hgt]%elem_of_cons by (apply Hin; split; [done|lia]); lia.
Qed.

Lemma exists_drop id Ks : Forall (fun l => sorted l) Ks ->
  existsb (fun l => head_is id (drop_below id l)) Ks = bool_decide (Exists (fun k => id ∈ k) Ks).
Proof using.
  induction 1 as [|k Ks Hk _ IH]; cbn [existsb]; [symmetry; apply bool_decide_false; by intros ?%Exists_nil|].
  rewrite IH, head_drop by done. apply eq_true_iff_eq. rewrite orb_true_iff, !bool_decide_eq_true, Exists_cons. done.
Qed.

Lemma without_drop id Ks l : Forall (fun k => sorted k) Ks -> (forall z, z ∈ l -> id <= z) ->
  without (map (drop_below id) Ks) l = without Ks l.
Proof using.
  intros Hs Hl. unfold without. induction l as [|x l IH]; [done|]. rewrite !filter_cons.
  assert (Exists (fun k => x ∈ k) (map (drop_below id) Ks) <-> Exists (fun k => x ∈ k) Ks) as Hiff.
  { rewrite Exists_map, !Exists_exists. rewrite Forall_forall in Hs. specialize (Hl x ltac:(left)).
    split; intros (k & Hk & Hx); exists k; (split; [done|]); [by apply elem_of_drop_below in Hx as [? _]; [|apply Hs]|].
    apply elem_of_drop_below; [by apply Hs|done]. }
  rewrite IH by (intros z Hz; apply Hl; by right). destruct (decide (Exists (fun k => x ∈ k) Ks)) as [Hx|Hx].
  - rewrite !decide_False by naive_solver. done.
  - rewrite !decide_True by naive_solver. done.
Qed.

Lemma fused_loop_ok fuel m st Ls m0 sub Ks id count res : is_rep m st Ls -> is_counted st Ls -> Ls <> [] ->
  is_rep m0 sub Ks -> fits 32 (is_valid sub) -> (forall z, z ∈ inter Ls -> m0 <= z) ->
  zlen res <= count -> (total Ls + total Ks + 2 <= fuel)%nat ->
  fused_loop fuel st sub id count res = Ok (take (Z.to_nat count) (res ++ without Ks (inter Ls))).
Proof using BO.
  revert m st Ls m0 sub Ks id res. induction fuel as [|fuel IH]; intros m st Ls m0 sub Ks id res Hst Hc Hne Hsub Hval Hm Hres Hfu; [lia|].
  cbn [fused_loop]. rewrite (is_allValid_ok m st Ls Hst Hc). case_bool_decide as He; cbn [andb].
  2: { rewrite inter_empty, app_nil_r, take_ge by (done || lia). done. }
  destruct (Z.ltb_spec (zlen res) count) as [Hlt|Hge].
  2: { rewrite take_app_le, take_ge by lia. done. }
  destruct (next_equal_ok (Datatypes.S fuel) m st Ls id false Hst Hc Hne) as (st1 & id1 & m1 & Ls1 & -> & Hr & Hc1 & Hl & Hin & Hle & Hheads);
    [done|lia|].
  assert (Ls1 <> []) as Hne1 by (intros ->; by destruct Ls).
  rewrite bind_ok_l, <- Hin in *. case_bool_decide as He1.
  - destruct (Hheads He1) as [Hh Hid]. destruct (is_next_ok m1 st1 Ls1 id1 Hr Hc1 He1 Hh Hid) as (st2 & -> & Hr2 & Hc2). rewrite bind_ok_l.
    assert (Forall (fun l => sorted l) Ls1) as Hs1 by apply Hr. pose proof Hsub as (_ & _ & _ & HsK & _).
    destruct (inter_heads id1 Ls1 Hne1 Hs1 Hh) as [Hi Ht]. pose proof (inter_sorted Ls1 Hs1) as Hsi. rewrite Hi in Hm, Hsi |- *.
    destruct (sorted_cons _ _ Hsi) as [_ Hgt]. assert (m0 <= id1) as Hmid by (apply Hm; left).
    destruct (is_move_ok (Datatypes.S fuel) m0 id1 sub Ks Hsub Hmid) as (sub' & -> & Hsub' & Hv'); [apply lengths_total; lia|done|].
    rewrite bind_ok_l, exists_drop by done. pose proof (drop_total_le id1 Ks).
    assert (forall res', zlen res' <= count -> fused_loop fuel st2 sub' id1 count res' =
      Ok (take (Z.to_nat count) (res' ++ without Ks (inter (map tail Ls1))))) as Hrec.
    { intros res' Hres'. rewrite <- (without_drop id1 Ks) by (done || intros z Hz%Hgt; lia).
      apply (IH (id1 + 1) _ (map tail Ls1) id1); try done; [by destruct Ls1|rewrite Hv'; apply wrap_fits; lia|intros z Hz%Hgt; lia|lia]. }
    unfold without at 1. rewrite filter_cons. case_bool_decide as Hex.
    + rewrite decide_False by naive_solver. by apply Hrec.
    + rewrite decide_True by done. rewrite take_pushed by done. apply Hrec. rewrite length_app. cbn [length]. lia.
  - rewrite inter_empty, app_nil_r, take_ge by (done || lia). destruct fuel as [|fuel]; [lia|]. cbn [fused_loop].
    rewrite (is_allValid_ok m1 st1 Ls1 Hr Hc1), bool_decide_false by done. done.
Qed.

(** C29: all indexes nonempty.  With as many indexes to subtract as to intersect, the result
    has the first [count] ids that are in all of the former and none of the latter.  With
    fewer to subtract, an element beyond the end of the list is read.  With more, there are
    states only for as many as there are indexes to intersect, and the first common id makes
    [moveTillLargerOrEqual] read the one behind the last; without a common id, or with a
    [count] of 0, the result is empty. *)
Theorem fusedIntersectDifference_correct (idx kdx : list (S * rd)) Ls Ks count :
  holds_all idx Ls -> holds_all kdx Ks -> idx <> [] -> zlen idx < 2 ^ 32 -> 0 <= count ->
  (length kdx = length idx -> fusedIntersectDifference idx kdx count = Ok (take (Z.to_nat count) (without Ks (inter Ls)))) /\
  ((length kdx < length idx)%nat -> fusedIntersectDifference idx kdx count = Err UndefinedBehaviour) /\
  (zlen idx < zlen kdx < 2 ^ 32 -> fusedIntersectDifference idx kdx count =
     if (0 <? count) && negb (bool_decide (inter Ls = [])) then Err UndefinedBehaviour else Ok []).
Proof using BO.
  intros HF HK Hne Hn Hc. destruct (is_start_ok 0 idx Ls HF Hn) as (st & Hp & Hst & Hcn & Ht); [lia|]. unfold fusedIntersectDifference.
  assert (Ls <> []) as HLs by (intros ->; inversion HF; by subst). rewrite Hp, bind_ok_l, is_push_first_eq by lia. change (Z.to_nat 0) with 0%nat. rewrite drop_0, Z.add_0_l.
  split; [|split]; intros Hlen.
  - rewrite (proj2 (Z.ltb_ge _ _)) by lia. rewrite take_ge by lia.
    destruct (is_start_ok 0 kdx Ks HK ltac:(lia) ltac:(lia)) as (st' & Hp2 & Hsub & Hcn2 & Ht2). rewrite Hp2, !bind_ok_l, Ht, Ht2.
    apply (fused_loop_ok _ 0 st Ls 0 st' Ks 0 count []); try done; [| |lia].
    + unfold is_counted in Hcn2. rewrite Hcn2. pose proof (empties_bound Ks). destruct Hsub as (_ & _ & ? & _). unfold fits. lia.
    + intros z Hz. apply elem_of_inter in Hz; [|done]. destruct Ls as [|l Ls]; [done|]. apply Forall_inv in Hz.
      destruct Hst as (HFs & _). inversion HFs as [|x ? xs ? Hx _]. subst. destruct l as [|y l]; [by apply elem_of_nil in Hz|].
      destruct Hx as (_ & _ & Hids & _). unfold ids31 in Hids. rewrite Forall_forall in Hids. by apply Hids.
  - rewrite (proj2 (Z.ltb_lt _ _)), take_ge by lia. destruct (is_push_all_ok 0 (u32 (zlen kdx)) (u32 (zlen kdx)) [] kdx Ks HK) as (xs & Hp2 & _).
    unfold is_new. by rewrite Hp2, bind_ok_l.
  - rewrite (proj2 (Z.ltb_ge _ _)) by lia. pose proof (Forall2_take _ _ _ (length idx) HK) as HK'.
    assert (forall m, exists xs, is_push_all (is_new (u32 (zlen kdx))) (take (length idx) kdx) = Ok (mkStates xs (zlen kdx) (zlen kdx)) /\ Forall2 (st_rep m) xs (take (length idx) Ks)) as Hpush.
    { intros m. unfold is_new. rewrite wrap_small by (unfold fits; lia). by apply (is_push_all_ok m _ _ []). }
    destruct (Hpush 0) as (xs & Hp2 & Hxs). rewrite Hp2, !bind_ok_l, Ht. apply (fused_loop_fails _ 0); try done; [lia|]. intros id Hid.
    destruct (Hpush id) as (ys & Hp3 & Hys). rewrite Hp2 in Hp3. injection Hp3 as <-. pose proof (Forall2_length _ _ _ Hxs) as Hxl.
    pose proof (Forall2_length _ _ _ HK) as HKl. rewrite length_take in Hxl.
    apply (is_move_beyond _ _ _ (take (length idx) Ks)); cbn [is_states is_count is_valid]; [done| |lia|unfold fits; lia].
    assert (total_size kdx = total Ks) as Htk by (destruct (is_start_ok 0 kdx Ks HK) as (? & _ & _ & _ & ?); [lia|lia|done]).
    apply Forall_take, lengths_total. lia.
Qed.
End many.

(** The ids 0 2 4 6 8 10 and 6 9 10: what both have, and what only the first has. *)
Lemma constrainedIntersect_correct_witness : exists d e,
  rd_new (Vec.mk [6; 3; 0; 11; 4]) (mkUba 0 5 0 0) = Ok (Vec.mk [6; 3; 0; 11; 4], d) /\
  rd_new (Vec.mk [3; 3; 12; 6; 2]) (mkUba 0 5 0 0) = Ok (Vec.mk [3; 3; 12; 6; 2], e) /\
  constrainedIntersect [(Vec.mk [6; 3; 0; 11; 4], d); (Vec.mk [3; 3; 12; 6; 2], e)] 5 = Ok [6; 10].
Proof.
  destruct (rd_new_ok (Vec.mk [6; 3; 0; 11; 4]) (mkUba 0 5 0 0) [(1%nat, 0); (5%nat, 2)] []) as (d & Hd & Hu & _);
    [split; [uba_wf_tac|vm_compute; reflexivity]|repeat constructor; cbn; lia|repeat constructor; cbn; lia|reflexivity|reflexivity|].
  destruct (rd_new_ok (Vec.mk [3; 3; 12; 6; 2]) (mkUba 0 5 0 0) [(1%nat, 6); (1%nat, 3); (1%nat, 1)] []) as (e & He & Hv & _);
    [split; [uba_wf_tac|vm_compute; reflexivity]|repeat constructor; cbn; lia|repeat constructor; cbn; lia|reflexivity|reflexivity|].
  exists d, e. split; [exact Hd|]. split; [exact He|].
  destruct (@constrainedIntersect_correct Vec.t _ Vec_ok [(Vec.mk [6; 3; 0; 11; 4], d); (Vec.mk [3; 3; 12; 6; 2], e)] [[0; 2; 4; 6; 8; 10]; [6; 9; 10]] 5) as [H _];
    [|discriminate|reflexivity|lia|exact H].
  repeat constructor; first [exact Hu|exact Hv|cbn; lia|discriminate].
Defined.

Lemma fusedIntersectDifference_correct_witness : exists d e,
  rd_new (Vec.mk [6; 3; 0; 11; 4]) (mkUba 0 5 0 0) = Ok (Vec.mk [6; 3; 0; 11; 4], d) /\
  rd_new (Vec.mk [3; 3; 12; 6; 2]) (mkUba 0 5 0 0) = Ok (Vec.mk [3; 3; 12; 6; 2], e) /\
  fusedIntersectDifference [(Vec.mk [6; 3; 0; 11; 4], d)] [(Vec.mk [3; 3; 12; 6; 2], e)] 9 = Ok [0; 2; 4; 8] /\
  fusedIntersectDifference [(Vec.mk [6; 3; 0; 11; 4], d)] [(Vec.mk [3; 3; 12; 6; 2], e); (Vec.mk [3; 3; 12; 6; 2], e)] 9 = Err UndefinedBehaviour.
Proof.
  destruct (rd_new_ok (Vec.mk [6; 3; 0; 11; 4]) (mkUba 0 5 0 0) [(1%nat, 0); (5%nat, 2)] []) as (d & Hd & Hu & _);
    [split; [uba_wf_tac|vm_compute; reflexivity]|repeat constructor; cbn; lia|repeat constructor; cbn; lia|reflexivity|reflexivity|].
  destruct (rd_new_ok (Vec.mk [3; 3; 12; 6; 2]) (mkUba 0 5 0 0) [(1%nat, 6); (1%nat, 3); (1%nat, 1)] []) as (e & He & Hv & _);
    [split; [uba_wf_tac|vm_compute; reflexivity]|repeat constructor; cbn; lia|repeat constructor; cbn; lia|reflexivity|reflexivity|].
  exists d, e. split; [exact Hd|]. split; [exact He|].
  pose proof (fun kdx Ks => @fusedIntersectDifference_correct Vec.t _ Vec_ok [(Vec.mk [6; 3; 0; 11; 4], d)] kdx [[0; 2; 4; 6; 8; 10]] Ks 9) as H. split.
  - destruct (H [(Vec.mk [3; 3; 12; 6; 2], e)] [[6; 9; 10]]) as [H1 _]; [| |discriminate|reflexivity|lia|exact (H1 eq_refl)];
      repeat constructor; first [exact Hu|exact Hv|cbn; lia|discriminate].
  - destruct (H [(Vec.mk [3; 3; 12; 6; 2], e); (Vec.mk [3; 3; 12; 6; 2], e)] [[6; 9; 10]; [6; 9; 10]]) as (_ & _ & H3); [| |discriminate|reflexivity|lia|exact (H3 ltac:(cbn; lia))];
      repeat constructor; first [exact Hu|exact Hv|cbn; lia|discriminate].
Defined.
