(* ===== verification/ItemIndexNative.v ===== *)
(** Item indexes held in memory:
    [include/sserialize/containers/ItemIndexPrivates/ItemIndexPrivateNative.h],
    [src/containers/ItemIndexPrivates/ItemIndexPrivateNative.cpp] and
    [src/containers/ItemIndexPrivates/ItemIndexPrivateStlVector.cpp].

    A native index is its size and a view of its ids in memory, 32-bit words in the byte
    order of the machine (little endian).  [ItemIndexNativeCreator] is the creator behind
    the generic set operations of the base class.  An STL index is a vector of ids. *)

From stdpp Require Import sorting.
From S2P Require Import Prelude UtilMath PackUnpack Storage ByteArray ByteStream Bits CompactUintArray BitSets SetFuncs IndexOps.

(** * Definitions *)

(** [getMemView]: the bytes behind the pointer, or a copy of them. The views below are
    only read while nobody writes to the storage. *)
Definition getMemView {S : Type} `{Backend S} (s : S) (a : uba) (pos size : Z) : result (list Z) :=
  _ ← range_check a pos size;
  if size =? 0 then Ok []
  else if bk_isContiguous (S := S) then
    _ ← range_check a pos 1; bk_getData s (u64 (m_offSet a + pos)) size
  else uba_getData s a pos size.
Definition asMemView {S : Type} `{Backend S} (s : S) (a : uba) : result (list Z) := getMemView s a 0 (m_len a).

(** [memmove] of a word of four bytes. *)
Definition word_at (mem : list Z) (p : Z) : result Z := bs ← vread mem p 4; mret (le_val bs).

Record nat_idx := mkNat { na_size : Z; na_mem : list Z }.

Definition na_empty : nat_idx := mkNat 0 [].
Definition na_new {S : Type} `{Backend S} (s : S) (data : uba) : result nat_idx :=
  n ← uba_get Uint32 s data 0;
  mem ← asMemView s (uba_from_len data 4 (n * 4));
  mret (mkNat n mem).

Definition na_uncheckedAt (d : nat_idx) (pos : Z) : result Z := word_at (na_mem d) (4 * pos).
Definition na_at (d : nat_idx) (pos : Z) : result Z := if pos <? na_size d then na_uncheckedAt d pos else Ok 0.
Definition na_first (d : nat_idx) : result Z := na_at d 0.
Definition na_last (d : nat_idx) : result Z := na_at d (u32 (na_size d - 1)).
Definition na_getSizeInBytes (d : nat_idx) : Z := u64 (zlen (na_mem d) + 4).
Definition na_bpn (d : nat_idx) : result Z :=
  let n := u32 (na_size d + 1) in
  if n =? 0 then Err UndefinedBehaviour else Ok (u8 (u64 (na_getSizeInBytes d * 8) / n)).

#[export] Instance na_AtIndex : AtIndex nat_idx := {|
  ai_size := na_size;
  ai_at d pos := x ← na_at d pos; mret (d, x);
  ai_uncheckedAt d pos := x ← na_uncheckedAt d pos; mret (d, x);
|}.

(** The iterator is an offset into the memory. *)
Definition ni_get (d : nat_idx) (it : Z) : result Z := word_at (na_mem d) it.
Definition ni_next (it : Z) : Z := it + 4.
Definition ni_notEq (it other : Z) : bool := negb (it =? other).
Definition na_cbegin (d : nat_idx) : Z := 0.
Definition na_cend (d : nat_idx) : Z := na_size d * 4.

(** [putInto(uint32_t* )]: the bytes of the ids. *)
Definition na_putInto (d : nat_idx) : result (list Z) := vread (na_mem d) 0 (4 * na_size d).

(** [putInto] of a bit set: [destMvd[bytePos]] is a pointer into the window, [dest[bytePos]]
    is checked. *)
Fixpoint na_put_loop {T : Type} `{Backend T} (n : nat) (d : nat_idx) (p : Z) (t : T) (dest : uba) : result T :=
  match n with
  | O => Ok t
  | Datatypes.S n =>
      value ← word_at (na_mem d) p;
      let bytePos := value / 8 in
      throw_if (bk_isContiguous (S := T) && negb (bytePos <? m_len dest)) UndefinedBehaviour;;
      t ← modify t dest bytePos (fun b => b ||| (1 <<< (value mod 8)));
      na_put_loop n d (p + 4) t dest
  end.
Definition na_putInto_bits {T : Type} `{Backend T} (d : nat_idx) (t : T) (dest : uba) : result (T * uba) :=
  if na_size d =? 0 then Ok (t, dest)
  else
    last ← na_last d;
    let fdestMaxBytePos := last / 8 + (if 0 <? last mod 8 then 1 else 0) in
    let '(t, dest, _) := if m_len dest <=? fdestMaxBytePos then uba_resize t dest (fdestMaxBytePos + 1) else (t, dest, true) in
    t ← na_put_loop (Z.to_nat (na_size d)) d 0 t dest;
    mret (t, dest).

(** [create]: the ids as bytes, behind their number. *)
Definition words (ids : list Z) : list Z := concat (map (le_bytes 4) ids).
Definition na_create {S : Type} `{Backend S} (s : S) (dest : uba) (src : list Z) : result (S * uba) :=
  size ← narrow_check (Unsigned 32) (Signed 64) (zlen src);
  '(s, dest) ← uba_sput Uint32 s dest size;
  uba_sputData s dest (words src).

(** ** The set operation on two native indexes *)

(** The positions in both operands, the memory of the result and the position there. *)
Record ns := mkNs { ns_my : Z; ns_o : Z; ns_mm : list Z; ns_it : Z }.

(** [memmove] of [n] bytes to the result. *)
Definition ns_move (src : list Z) (p n : Z) (x : ns) : result ns :=
  bs ← vread src p n;
  mm ← vwrite (ns_mm x) (ns_it x) bs;
  mret (mkNs (ns_my x) (ns_o x) mm (ns_it x + n)).
Definition ns_move_if (b : bool) (src : list Z) (p n : Z) (x : ns) : result ns := if b then ns_move src p n x else Ok x.
Definition ns_adv (my o : Z) (x : ns) : ns := mkNs (ns_my x + my) (ns_o x + o) (ns_mm x) (ns_it x).

Fixpoint ns_loop (fuel : nat) (op : set_op) (my o : list Z) (x : ns) : result ns :=
  match fuel with
  | O => Err OutOfFuel
  | Datatypes.S fuel =>
      if (ns_my x <? zlen my) && (ns_o x <? zlen o) then
        myId ← word_at my (ns_my x);
        oId ← word_at o (ns_o x);
        x ← (if myId <? oId then x ← ns_move_if (pushFirstSmaller op) my (ns_my x) 4 x; mret (ns_adv 4 0 x)
             else if oId <? myId then x ← ns_move_if (pushSecondSmaller op) o (ns_o x) 4 x; mret (ns_adv 0 4 x)
             else x ← ns_move_if (pushEqual op) my (ns_my x) 4 x; mret (ns_adv 4 4 x));
        throw_if (negb (ns_it x <=? zlen (ns_mm x))) AssertionFailed;;
        ns_loop fuel op my o x
      else Ok x
  end.

Definition ns_remainder (op : set_op) (my o : list Z) (x : ns) : result ns :=
  x ← (if pushFirstRemainder op && (0 <? zlen my - ns_my x) then ns_move my (ns_my x) (zlen my - ns_my x) x
       else if pushSecondRemainder op && (0 <? zlen o - ns_o x) then ns_move o (ns_o x) (zlen o - ns_o x) x
       else Ok x);
  throw_if (negb (ns_it x <=? zlen (ns_mm x))) AssertionFailed;;
  mret x.

(** The memory is a vector of bytes; [None] is the empty index. *)
Definition na_genericSetOp (op : set_op) (a b : nat_idx) : result (option nat_idx) :=
  let maxResultSize := maxSize op (na_size a) (na_size b) in
  let mm := replicate (Z.to_nat ((maxResultSize + 1) * 4)) 0 in
  x ← ns_loop (Datatypes.S (length (na_mem a) + length (na_mem b))) op (na_mem a) (na_mem b) (mkNs 0 0 mm 4);
  x ← ns_remainder op (na_mem a) (na_mem b) x;
  tmpResultSize ← narrow_check (Unsigned 32) (Unsigned 64) (u64 (ns_it x - 4) / 4);
  throw_if (negb (tmpResultSize <=? maxResultSize)) AssertionFailed;;
  if tmpResultSize =? 0 then Ok None
  else
    let '(v, tmpD) := uba_of_vector (vresize (ns_mm x) (u32 (tmpResultSize + 1) * 4) 0) in
    v ← uba_put Uint32 v tmpD 0 tmpResultSize;
    d ← na_new v tmpD;
    mret (Some d).

(** ** The creator *)

(** The memory and the position in it; the assert of [push_back] is on the condition of the
    exception. *)
Record nc := mkNc { nc_mem : list Z; nc_it : Z }.

Definition nc_new (maxSize : Z) : result nc :=
  throw_if (negb (maxSize <? max_u32)) AssertionFailed;;
  mret (mkNc (replicate (Z.to_nat ((maxSize + 1) * 4)) 0) 4).
Definition nc_size (c : nc) : Z := u32 ((nc_it c - 4) / 4).
Definition nc_push_back (c : nc) (id : Z) : result nc :=
  if zlen (nc_mem c) <=? nc_it c then Err OutOfBoundsException
  else mem ← vwrite (nc_mem c) (nc_it c) (le_bytes 4 id); mret (mkNc mem (nc_it c + 4)).
#[export] Instance nc_IndexCreator : IndexCreator nc := nc_push_back.

(** [data()] is an adapter on the memory itself. *)
Definition nc_flush (c : nc) : result nc :=
  throw_if (negb (0 <? nc_it c)) AssertionFailed;;
  let finalSize := nc_it c in
  let '(v, data) := uba_of_vector (vresize (nc_mem c) finalSize 0) in
  v ← uba_put Uint32 v data 0 (nc_size (mkNc (nc_mem c) finalSize));
  mret (mkNc (Vec.data v) finalSize).
Definition nc_getPrivateIndex (c : nc) : result (nc * nat_idx) :=
  c ← nc_flush c;
  let '(v, data) := uba_of_vector (nc_mem c) in
  d ← na_new v data;
  mret (c, d).

(** [GenericSetOpExecuter::execute] with this creator and positions; the creator is flushed
    twice. *)
Definition execute {D E : Type} `{AtIndex D} `{AtIndex E} (op : set_op) (first : D) (second : E) : result nat_idx :=
  c ← nc_new (maxSize op (ai_size first) (ai_size second));
  c ← exec (Datatypes.S (Z.to_nat (ai_size first + ai_size second))) op c (mkAtIter first 0) (mkAtIter second 0);
  c ← nc_flush c;
  '(_, d) ← nc_getPrivateIndex c;
  mret d.

(** ** The index over a vector *)

Module Stl.
Definition size (v : list Z) : Z := u32 (zlen v).
(** An [OutOfBoundsException] is constructed behind the end, but not thrown. *)
Definition at_ (v : list Z) (pos : Z) : result Z :=
  if pos <? size v then (if pos <? zlen v then vget v pos else Err StdOutOfRange) else Ok 0.
Definition first (v : list Z) : result Z := if size v =? 0 then Ok 0 else vget v 0.
Definition last (v : list Z) : result Z := if size v =? 0 then Ok 0 else vget v (zlen v - 1).
Definition getSizeInBytes (v : list Z) : Z := u32 (size v * 4).

(** [fromBitSet]: [push_back] appends to the vector; a byte is shifted until it is zero. *)
Fixpoint bits_of (n : nat) (tmp curId : Z) (vec : list Z) : list Z :=
  match n with
  | O => vec
  | Datatypes.S n =>
      if tmp =? 0 then vec
      else bits_of n (u8 (tmp >>> 1)) (u32 (curId + 1)) (if negb (tmp &&& 1 =? 0) then vec ++ [curId] else vec)
  end.
Fixpoint bytes_loop {S : Type} `{Backend S} (n : nat) (s : S) (data : uba) (i id : Z) (vec : list Z) : result (list Z) :=
  match n with
  | O => Ok vec
  | Datatypes.S n =>
      tmp ← uba_at s data i;
      bytes_loop n s data (u64 (i + 1)) (u32 (id + 8)) (bits_of 8 tmp id vec)
  end.
Definition fromBitSet {S : Type} `{Backend S} (s : S) (data : uba) : result (list Z) :=
  bytes_loop (Z.to_nat (m_len data)) s data 0 0 [].
End Stl.

#[export] Instance stl_AtIndex : AtIndex (list Z) := {|
  ai_size := Stl.size;
  ai_at v pos := x ← Stl.at_ v pos; mret (v, x);
  ai_uncheckedAt v pos := x ← Stl.at_ v pos; mret (v, x);
|}.


(** * Words in memory *)

Lemma words_cons x l : words (x :: l) = le_bytes 4 x ++ words l.
Proof. done. Qed.

Lemma words_app a b : words (a ++ b) = words a ++ words b.
Proof. unfold words. by rewrite map_app, concat_app. Qed.

Lemma words_len l : zlen (words l) = 4 * zlen l.
Proof.
  induction l as [|x l IH]; [done|]. rewrite words_cons, length_app, length_le_bytes. cbn [length]. lia.
Qed.

Lemma na_words_bytes l : bytes_ok (words l).
Proof. induction l as [|x l IH]; [constructor|]. rewrite words_cons. apply Forall_app. split; [apply le_bytes_ok|done]. Qed.

Lemma words_drop pre post : drop (Z.to_nat (4 * zlen pre)) (words (pre ++ post)) = words post.
Proof. rewrite words_app. apply drop_app_length'. pose proof (words_len pre). lia. Qed.

(** The words [mid] are read as one block. *)
Lemma na_words_read pre mid post : vread (words (pre ++ mid ++ post)) (4 * zlen pre) (4 * zlen mid) = Ok (words mid).
Proof.
  apply vread_ok. rewrite words_len, !length_app. split; [lia|]. split; [lia|]. split; [lia|].
  rewrite words_drop, words_app, take_app_length'; [done|]. pose proof (words_len mid). lia.
Qed.

Lemma word_at_middle pre x post : fits 32 x -> word_at (words (pre ++ x :: post)) (4 * zlen pre) = Ok x.
Proof.
  intros Hx. pose proof (na_words_read pre [x] post) as Hr. cbn [length app] in Hr. change (4 * zlen [x]) with 4 in Hr.
  unfold word_at. change (4 * Z.of_nat 1) with 4 in Hr. rewrite Hr, bind_ok_l. unfold words. cbn [map concat].
  rewrite app_nil_r, le_val_le_bytes. unfold mret, result_ret. f_equal. by apply wrap_small.
Qed.

Lemma word_at_lookup l i x : ids_ok l -> l !! i = Some x -> word_at (words l) (4 * Z.of_nat i) = Ok x.
Proof.
  intros Hl Hx. pose proof (Forall_lookup_1 _ _ _ _ Hl Hx) as Hf. apply take_drop_middle in Hx as Hm.
  apply lookup_lt_Some in Hx. rewrite <- Hm. assert (zlen (take i l) = Z.of_nat i) as <- by (rewrite length_take; lia).
  by apply word_at_middle.
Qed.

(** * Native indexes *)

(** The index [d] holds the ids [ids]. *)
Record na_ok (d : nat_idx) (ids : list Z) : Prop := {
  na_ok_size : na_size d = zlen ids;
  na_ok_mem : na_mem d = words ids;
  na_ok_ids : ids_ok ids;
  na_ok_few : zlen ids < 2 ^ 32;
}.

Lemma na_unchecked_ok d ids (i : nat) x : na_ok d ids -> ids !! i = Some x -> na_uncheckedAt d (Z.of_nat i) = Ok x.
Proof. intros [Hs Hm Hi Hf] Hx. unfold na_uncheckedAt. rewrite Hm. by apply word_at_lookup. Qed.

Lemma na_at_ok d ids pos : na_ok d ids -> 0 <= pos -> na_at d pos = Ok (default 0 (ids !! Z.to_nat pos)).
Proof.
  intros Hd Hp. unfold na_at. rewrite (na_ok_size _ _ Hd). destruct (Z.ltb_spec pos (zlen ids)).
  - destruct (lookup_lt_is_Some_2 ids (Z.to_nat pos)) as [x Hx]; [lia|]. rewrite Hx.
    etrans; [|exact (na_unchecked_ok d ids _ x Hd Hx)]. f_equal. lia.
  - by rewrite lookup_ge_None_2 by lia.
Qed.

#[export] Program Instance na_AtIndexOk : AtIndexOk nat_idx := {| ai_rep := na_ok |}.
Next Obligation. intros d l []. done. Qed.
Next Obligation. intros d l []. done. Qed.
Next Obligation.
  intros d l pos x Hd Hx. cbn [ai_at na_AtIndex]. rewrite (na_at_ok d l) by (done || lia).
  rewrite Nat2Z.id, Hx, bind_ok_l. by exists d.
Qed.
Next Obligation.
  intros d l pos x Hd Hx. cbn [ai_uncheckedAt na_AtIndex]. rewrite (na_unchecked_ok d l _ x) by done. rewrite bind_ok_l. by exists d.
Qed.

Lemma na_last_ok d ids : na_ok d ids -> ids <> [] -> na_last d = Ok (lastd 0 ids).
Proof.
  intros Hd Hne. pose proof Hd as [Hs _ _ Hf]. unfold na_last. rewrite Hs. assert (0 < zlen ids) by (destruct ids; [done|cbn [length]; lia]).
  rewrite wrap_small by (unfold fits; lia). rewrite (na_at_ok d ids) by (done || lia).
  unfold lastd. rewrite last_lookup. do 3 f_equal. lia.
Qed.

(** What the iterator gives from its start to its end. *)
Fixpoint ni_collect (fuel : nat) (d : nat_idx) (it fin : Z) : result (list Z) :=
  match fuel with
  | O => Err OutOfFuel
  | Datatypes.S fuel =>
      if ni_notEq it fin then x ← ni_get d it; r ← ni_collect fuel d (ni_next it) fin; mret (x :: r) else Ok []
  end.

Lemma ni_collect_ok fuel d pre post : na_ok d (pre ++ post) -> (length post < fuel)%nat ->
  ni_collect fuel d (4 * zlen pre) (na_cend d) = Ok post.
Proof.
  revert pre post. induction fuel as [|fuel IH]; intros pre post Hd Hf; [lia|]. cbn [ni_collect].
  pose proof Hd as [Hs Hm Hi _]. rewrite length_app in Hs. unfold ni_notEq, na_cend at 1. destruct post as [|x post]; cbn [length] in *.
  - by rewrite (proj2 (Z.eqb_eq _ _)) by lia.
  - rewrite (proj2 (Z.eqb_neq _ _)) by lia. cbn [negb]. unfold ni_get.
    apply Forall_app in Hi as [_ Hi]. rewrite Hm, word_at_middle by apply (Forall_inv Hi). rewrite bind_ok_l.
    rewrite app_cons in Hd. unfold ni_next. replace (4 * zlen pre + 4) with (4 * zlen (pre ++ [x])) by (rewrite length_app; cbn; lia).
    rewrite (IH (pre ++ [x]) post Hd) by lia. done.
Qed.

Lemma na_putInto_ok d ids : na_ok d ids -> na_putInto d = Ok (words ids).
Proof.
  intros [Hs Hm _ _]. unfold na_putInto. rewrite Hs, Hm. pose proof (na_words_read [] ids []) as Hr.
  rewrite app_nil_r in Hr. exact Hr.
Qed.

(** ** Opening and creating *)

Section opening.
Context {S : Type} {B : Backend S} {BO : BackendOk S}.
Implicit Types (s : S).

Lemma asMemView_ok s a l : buf s a l -> asMemView s a = Ok l.
Proof using BO.
  intros Hb. pose proof (buf_len _ _ _ Hb) as Hl. pose proof (buf_fits _ _ _ Hb). unfold asMemView, getMemView.
  rewrite Hl, (range_check_eq a 0 (zlen l)) by (unfold fits; lia). rewrite Hl, (proj2 (Z.ltb_ge (zlen l) _)) by lia. rewrite bind_ok_l.
  destruct (Z.eqb_spec (zlen l) 0) as [E|E]; [destruct l; [done|cbn [length] in E; lia]|].
  assert (bk_getData s (u64 (m_offSet a + 0)) (zlen l) = Ok l) as Hget.
  { rewrite bk_getData_ok, Z.add_0_r, wrap_small by (unfold fits; lia). destruct Hb as [Hwf Hv].
    rewrite <- (Z.add_0_r (m_offSet a)), vread_view by (done || lia). rewrite Hv. by apply vread_all. }
  assert (0 < zlen l) as Hpos by lia. case_match.
  - rewrite (range_check_eq a 0 1), Hl, (proj2 (Z.ltb_ge (zlen l) (0 + 1))) by (unfold fits; lia). exact Hget.
  - unfold uba_getData. rewrite (range_check_eq a 0 0), Hl, (proj2 (Z.ltb_ge (zlen l) (0 + 0))) by (unfold fits; lia).
    rewrite bind_ok_l, Z.add_0_l, (wrap_small 64 (zlen l)) by (unfold fits; lia). rewrite Z.ltb_irrefl. exact Hget.
Qed.

(** The bytes of an index. *)
Definition na_image (ids : list Z) : list Z := le_bytes 4 (zlen ids) ++ words ids.

Lemma na_new_ok s a ids rest : buf s a (na_image ids ++ rest) -> ids_ok ids -> zlen ids < 2 ^ 32 ->
  exists d, na_new s a = Ok d /\ na_ok d ids.
Proof using BO.
  intros Hb Hi Hn. pose proof (buf_len _ _ _ Hb) as Hl. pose proof (buf_fits _ _ _ Hb) as Hfit. unfold na_image in *.
  pose proof (words_len ids) as Hw. rewrite <- app_assoc, !length_app, length_le_bytes in Hl, Hfit. unfold na_new.
  rewrite <- app_assoc in Hb. rewrite (get32_vread s a _ 0 (zlen ids) Hb); [|lia| |unfold fits; lia].
  2: { apply vread_ok. rewrite !length_app, length_le_bytes. split; [lia|]. split; [lia|]. split; [lia|].
       rewrite drop_0, take_app_length'; [done|]. by rewrite length_le_bytes. }
  rewrite bind_ok_l. destruct Hb as [Hwf Hv].
  assert (uba_wf (bk_data s) (uba_from_len a 4 (zlen ids * 4)) /\
    view (bk_data s) (uba_from_len a 4 (zlen ids * 4)) = take (Z.to_nat (zlen ids * 4)) (drop (Z.to_nat 4) (view (bk_data s) a))) as [Hwf' Hv']
    by (unfold uba_from_len; sub_window_tac).
  rewrite (asMemView_ok s _ (words ids)), bind_ok_l.
  - eexists. split; [done|]. done.
  - split; [exact Hwf'|]. rewrite Hv', Hv. rewrite drop_app_length' by (by rewrite length_le_bytes).
    apply take_app_length'. lia.
Qed.

Lemma na_create_ok s dest l src : buf s dest l -> 0 <= m_putPtr dest <= zlen l -> zlen src < 2 ^ 32 ->
  m_offSet dest + m_putPtr dest + 4 + 4 * zlen src < 2 ^ 64 ->
  exists s' dest', na_create s dest src = Ok (s', dest') /\ pushed dest l (na_image src) s' dest'.
Proof using BO.
  intros Hb Hp Hn Hf. unfold na_create. pose proof (buf_fits _ _ _ Hb).
  assert (narrow_check (Unsigned 32) (Signed 64) (zlen src) = Ok (zlen src)) as ->.
  { unfold narrow_check. cbn [ity_max ity_cast]. rewrite (proj2 (Z.ltb_ge (zlen src) 0)), (wrap_small 64 (zlen src)) by (unfold fits; lia).
    rewrite (proj2 (Z.ltb_ge _ _)) by lia. by rewrite wrap_small by (unfold fits; lia). }
  rewrite bind_ok_l.
  destruct (sput_ok s dest l Hb) with (ty := Uint32) (v := zlen src) (bs := le_bytes 4 (zlen src))
    as (s1 & d1 & -> & H1); [lia|done|by rewrite length_le_bytes|apply le_bytes_ok|rewrite length_le_bytes; lia|].
  rewrite bind_ok_l. pose proof H1 as [Hb1 Ho1 Hg1 Hp1]. rewrite length_le_bytes in Hp1.
  destruct (sputData_ok s1 d1 _ Hb1) with (bs := words src) as (s2 & d2 & -> & H2).
  { rewrite Hp1. unfold splice. rewrite !length_app, length_take, length_le_bytes. lia. }
  { apply na_words_bytes. }
  { rewrite Hp1, Ho1, words_len. lia. }
  eexists _, _. split; [done|]. by apply (pushed_app s1 s2 dest l _ _ d1 d2).
Qed.
End opening.

(** * Writing ids behind a header *)

(** The memory [mm] has room for [cap] ids behind the four bytes of the header, [out] are
    there up to the position [it]. *)
Definition filled (mm : list Z) (it cap : Z) (out : list Z) : Prop :=
  exists hdr rest, mm = hdr ++ words out ++ rest /\ length hdr = 4%nat /\ it = 4 + 4 * zlen out /\
    zlen mm = 4 + 4 * cap /\ bytes_ok mm.

Lemma filled_new cap : 0 <= cap -> filled (replicate (Z.to_nat ((cap + 1) * 4)) 0) 4 cap [].
Proof.
  intros Hc. exists (replicate 4 0), (replicate (Z.to_nat (cap * 4)) 0). rewrite !length_replicate. cbn [words map concat app length].
  split; [rewrite <- replicate_add; f_equal; lia|]. split; [done|]. split; [lia|]. split; [lia|].
  apply Forall_replicate. unfold fits. lia.
Qed.

Lemma filled_move mm it cap out ys : filled mm it cap out -> zlen out + zlen ys <= cap ->
  exists mm', vwrite mm it (words ys) = Ok mm' /\ filled mm' (it + 4 * zlen ys) cap (out ++ ys).
Proof.
  intros (hdr & rest & -> & Hh & -> & Hl & Hb) Hc. pose proof (words_len ys) as Hy. pose proof (words_len out) as Ho.
  eexists. split.
  - apply vwrite_ok. split; [|done]. rewrite Hl, Hy. lia.
  - exists hdr, (drop (length (words ys)) rest). assert (4 + 4 * zlen out = zlen (hdr ++ words out)) as -> by (rewrite length_app; lia).
    rewrite (app_assoc hdr), splice_end, words_app, !length_app in *.
    rewrite length_drop, <- !app_assoc.
    split; [done|]. split; [done|]. split; [lia|]. split; [lia|].
    apply Forall_app in Hb as [Hb1 Hb2]. apply Forall_app in Hb1 as [Hb0 Hb1].
    repeat (apply Forall_app; split); try done; [apply na_words_bytes|by apply Forall_drop].
Qed.

(** Cutting off what was not used and writing the number of ids. *)
Lemma filled_finish mm it cap out : filled mm it cap out -> zlen out < 2 ^ 32 -> ids_ok out ->
  exists v, (let '(v, d) := uba_of_vector (vresize mm it 0) in uba_put Uint32 v d 0 (zlen out)) = Ok v /\
    Vec.data v = na_image out /\ buf v (snd (uba_of_vector (vresize mm it 0))) (na_image out) /\
    buf v (snd (uba_of_vector (na_image out))) (na_image out).
Proof.
  intros (hdr & rest & -> & Hh & -> & Hl & Hb) Hn Hi. pose proof (words_len out) as Ho.
  assert (vresize (hdr ++ words out ++ rest) (4 + 4 * zlen out) 0 = hdr ++ words out) as ->.
  { unfold vresize. rewrite app_assoc, take_app_length' by (rewrite length_app; lia).
    replace (_ - _)%nat with 0%nat by (rewrite !length_app; lia). by rewrite app_nil_r. }
  apply Forall_app in Hb as [Hb1 Hb2]. apply Forall_app in Hb2 as [Hb2 _].
  unfold uba_of_vector. set (v0 := Vec.mk (hdr ++ words out)). set (d := uba_new 0 (zlen (hdr ++ words out))).
  assert (zlen (hdr ++ words out) = 4 + 4 * zlen out) as Hlen by (rewrite length_app; lia).
  assert (buf v0 d (hdr ++ words out)) as Hbuf.
  { split; [|unfold view, d; cbn; change (Z.to_nat 0) with 0%nat; by rewrite drop_0, Nat2Z.id, firstn_all]. split; cbn; unfold fits; try lia. by apply Forall_app. }
  destruct (buf_put Uint32 v0 d _ 0 (zlen out) (le_bytes 4 (zlen out)) Hbuf) as (v & Hput & Hbv & Hvw);
    [lia|cbn [scalar_len]; lia|done|by rewrite length_le_bytes|apply le_bytes_ok|].
  assert (splice (hdr ++ words out) 0 (le_bytes 4 (zlen out)) = na_image out) as Hsp.
  { unfold splice, na_image. change (Z.to_nat 0) with 0%nat. rewrite take_0, Nat.add_0_l, length_le_bytes, drop_app_length' by done. done. }
  rewrite Hsp in Hbv. apply vwrite_ok in Hvw as [_ Hvw]. change (m_offSet d + 0) with 0 in Hvw.
  change (bk_data v0) with (hdr ++ words out) in Hvw. rewrite Hsp in Hvw.
  exists v. split; [exact Hput|]. split; [exact Hvw|]. split; [exact Hbv|].
  assert (uba_new 0 (zlen (na_image out)) = d) as ->; [|exact Hbv].
  unfold d. do 2 f_equal. unfold na_image. rewrite !length_app, length_le_bytes. lia.
Qed.

(** * The creator and the generic operation *)

Definition nc_rep (cap : Z) (c : nc) (out : list Z) : Prop := filled (nc_mem c) (nc_it c) cap out /\ ids_ok out /\ zlen out <= cap < 2 ^ 32.

Lemma nc_push_ok cap c out id : nc_rep cap c out -> fits 32 id -> zlen out < cap ->
  exists c', nc_push_back c id = Ok c' /\ nc_rep cap c' (out ++ [id]).
Proof.
  intros (Hf & Hi & Hn) Hid Hc. destruct (filled_move _ _ _ _ [id] Hf) as (mm & Hw & Hf'); [cbn; lia|].
  unfold words in Hw. cbn [map concat length] in Hw, Hf'. rewrite app_nil_r in Hw.
  destruct Hf as (hdr & rest & _ & _ & Hit & Hl & _). unfold nc_push_back. rewrite (proj2 (Z.leb_gt _ _)) by lia. rewrite Hw, bind_ok_l.
  eexists. split; [done|]. split; [exact Hf'|]. rewrite length_app. cbn [length]. split; [|lia]. apply Forall_app. by split; [|constructor].
Qed.

Program Definition nc_IndexCreatorOk (cap : Z) : IndexCreatorOk nc := {| cr_rep := nc_rep cap; cr_lim := 2 ^ 32; cr_cap := cap |}.
Next Obligation. done. Qed.
Next Obligation. intros cap c out id Hc _ Hid Hn. by apply nc_push_ok. Qed.

(** The creator never writes beyond its memory: it throws when it is full. *)
Lemma nc_full c id out cap : nc_rep cap c out -> zlen out = cap -> nc_push_back c id = Err OutOfBoundsException.
Proof.
  intros ((hdr & rest & _ & _ & Hit & Hl & _) & _ & Hn) Hc. unfold nc_push_back. by rewrite (proj2 (Z.leb_le _ _)) by lia.
Qed.

Lemma nc_flush_ok cap c out : nc_rep cap c out -> exists c', nc_flush c = Ok c' /\
  nc_mem c' = na_image out /\ nc_rep (zlen out) c' out.
Proof.
  intros (Hf & Hi & Hn). destruct (filled_finish _ _ _ _ Hf) as (v & Hput & Hv & Hb & _); [lia|done|].
  pose proof Hf as (_ & _ & _ & _ & Hit & _ & _). unfold nc_flush. rewrite (proj2 (Z.ltb_lt 0 _)) by lia.
  cbn [negb throw_if]. rewrite bind_ok_l. unfold nc_size. cbn [nc_it].
  assert (u32 ((nc_it c - 4) / 4) = zlen out) as ->.
  { rewrite Hit. replace (4 + 4 * zlen out - 4) with (zlen out * 4) by lia. rewrite Z.div_mul by lia. apply wrap_small. unfold fits. lia. }
  unfold uba_of_vector in *. rewrite Hput, bind_ok_l. eexists. split; [done|]. cbn [nc_mem]. rewrite Hv. split; [done|].
  split; [|split; [done|lia]]. exists (le_bytes 4 (zlen out)), []. cbn [nc_mem nc_it]. pose proof (words_len out). unfold na_image.
  rewrite app_nil_r, length_app, length_le_bytes. split; [done|]. split; [done|]. split; [done|]. split; [lia|].
  apply Forall_app. split; [apply le_bytes_ok|apply na_words_bytes].
Qed.

Lemma nc_getPrivateIndex_ok cap c out : nc_rep cap c out -> exists c' d, nc_getPrivateIndex c = Ok (c', d) /\ na_ok d out.
Proof.
  intros Hc. destruct (nc_flush_ok cap c out Hc) as (c1 & Hfl & Hm & Hf & Hi & Hn). unfold nc_getPrivateIndex. rewrite Hfl, bind_ok_l, Hm.
  destruct Hc as (Hf0 & _ & Hn0). destruct (filled_finish _ _ _ _ Hf0) as (v & _ & Hv & _ & Hb); [lia|done|]. unfold uba_of_vector in *. cbn [snd] in Hb.
  destruct v as [vd]. cbn [Vec.data] in Hv. subst vd.
  destruct (na_new_ok (Vec.mk (na_image out)) (uba_new 0 (zlen (na_image out))) out []) as (d & -> & Hd); [by rewrite app_nil_r|done|lia|].
  rewrite bind_ok_l. by exists c1, d.
Qed.

Section execute.
Context {D : Type} `{AtIndexOk D} {E : Type} `{AtIndexOk E}.

(** [doIntersect], [doUnite], [doDifference] and [doSymmetricDifference]. *)
Lemma execute_ok op (d : D) (e : E) A B : op_wf op -> op_sized op -> ai_rep d A -> ai_rep e B -> sorted A -> sorted B ->
  ids_ok (merge op A B) -> zlen A + zlen B < 2 ^ 32 - 1 ->
  exists r, execute op d e = Ok r /\ na_ok r (merge op A B).
Proof using.
  intros Hop Hsz Hd He HA HB Hids Hn. unfold execute. rewrite (ai_size_ok d A Hd), (ai_size_ok e B He).
  destruct (Hsz A B) as [Hcap Hmax]; [lia|]. unfold nc_new. change max_u32 with (2 ^ 32 - 1).
  rewrite (proj2 (Z.ltb_lt _ _)) by lia. cbn [negb throw_if]. rewrite !bind_ok_l.
  set (cap := maxSize op (zlen A) (zlen B)) in *.
  destruct (@exec_ok nc _ (nc_IndexCreatorOk cap) (at_iter D) _ at_PosIterOk (at_iter E) _ at_PosIterOk
    (Datatypes.S (Z.to_nat (zlen A + zlen B))) op (mkNc (replicate (Z.to_nat ((cap + 1) * 4)) 0) 4) (mkAtIter d 0) (mkAtIter e 0) A B)
    as (c1 & -> & Hc1); [by apply at_begin|by apply at_begin| | |lia|].
  { split; [apply filled_new; lia|]. split; [constructor|cbn; lia]. }
  { split; [cbn [app]; by apply merge_spec|]. split; [exact Hids|cbn; lia]. }
  cbn [cr_rep nc_IndexCreatorOk] in Hc1. rewrite bind_ok_l.
  destruct (nc_flush_ok cap c1 _ Hc1) as (c2 & -> & _ & Hc2). rewrite bind_ok_l.
  destruct (nc_getPrivateIndex_ok _ c2 _ Hc2) as (c3 & r & -> & Hr). rewrite bind_ok_l. by exists r.
Qed.
End execute.

(** ** Two native indexes *)

(** The state of the loop: [A] and [B] were read up to [la] and [lb], [out] is written. *)
Record ns_ok (A B : list Z) (cap : Z) (x : ns) (la lb out : list Z) : Prop := {
  ns_ok_my : exists pre, A = pre ++ la /\ ns_my x = 4 * zlen pre;
  ns_ok_o : exists pre, B = pre ++ lb /\ ns_o x = 4 * zlen pre;
  ns_ok_mm : filled (ns_mm x) (ns_it x) cap out;
}.

Lemma ns_adv_l A B cap x y la lb out : ns_ok A B cap x (y :: la) lb out -> ns_ok A B cap (ns_adv 4 0 x) la lb out.
Proof.
  intros [(pre & -> & Hp) (pre2 & -> & Hp2) Hm]. split; cbn [ns_my ns_o ns_mm ns_it ns_adv]; [|exists pre2; split; [done|lia]|done].
  exists (pre ++ [y]). rewrite <- app_assoc, length_app. cbn [app length]. split; [done|lia].
Qed.

Lemma ns_adv_r A B cap x y la lb out : ns_ok A B cap x la (y :: lb) out -> ns_ok A B cap (ns_adv 0 4 x) la lb out.
Proof.
  intros [(pre & -> & Hp) (pre2 & -> & Hp2) Hm]. split; cbn [ns_my ns_o ns_mm ns_it ns_adv]; [exists pre; split; [done|lia]| |done].
  exists (pre2 ++ [y]). rewrite <- app_assoc, length_app. cbn [app length]. split; [done|lia].
Qed.

(** A block of either operand is appended to the result. *)
Lemma ns_move_ok A B cap x la lb out src pre mid post : ns_ok A B cap x la lb out -> src = words (pre ++ mid ++ post) ->
  zlen out + zlen mid <= cap ->
  exists x', ns_move src (4 * zlen pre) (4 * zlen mid) x = Ok x' /\ ns_ok A B cap x' la lb (out ++ mid) /\
    ns_it x' <= zlen (ns_mm x').
Proof.
  intros [Hmy Ho Hm] -> Hc. unfold ns_move. rewrite na_words_read, bind_ok_l.
  destruct (filled_move _ _ _ _ mid Hm Hc) as (mm & -> & Hm'). rewrite bind_ok_l. eexists. split; [done|]. split; [by split|].
  destruct Hm' as (_ & _ & _ & _ & -> & Hl & _). cbn [ns_mm ns_it]. rewrite Hl, length_app. lia.
Qed.

Lemma ns_move_if_ok (k : bool) A B cap x la lb out src pre y post : ns_ok A B cap x la lb out -> src = words (pre ++ y :: post) ->
  zlen (out ++ if k then [y] else []) <= cap ->
  exists x', ns_move_if k src (4 * zlen pre) 4 x = Ok x' /\ ns_ok A B cap x' la lb (out ++ if k then [y] else []).
Proof.
  intros Hx -> Hc. destruct k; cbn [ns_move_if]; [|exists x; by rewrite app_nil_r]. rewrite length_app in Hc. cbn [length] in Hc.
  destruct (ns_move_ok A B cap x la lb out _ pre [y] post Hx eq_refl) as (x' & Hmv & Hx' & _); [cbn; lia|]. by exists x'.
Qed.

Lemma ns_inside A B cap x la lb out : ns_ok A B cap x la lb out -> zlen out <= cap -> (ns_it x <=? zlen (ns_mm x)) = true.
Proof. intros [_ _ (_ & _ & _ & _ & -> & -> & _)] Hc. apply Z.leb_le. lia. Qed.

Lemma ns_loop_ok fuel op A B cap x la lb out : ids_ok A -> ids_ok B -> ns_ok A B cap x la lb out ->
  zlen out + zlen (merge op la lb) <= cap -> (length la + length lb < fuel)%nat ->
  exists x' la' lb' out', ns_loop fuel op (words A) (words B) x = Ok x' /\ ns_ok A B cap x' la' lb' out' /\
    (la' = [] \/ lb' = []) /\ out ++ merge op la lb = out' ++ merge op la' lb'.
Proof.
  intros HA HB. revert x la lb out. induction fuel as [|fuel IH]; intros x la lb out Hx Hc Hf; [lia|]. cbn [ns_loop].
  pose proof Hx as [(pa & Ea & Ha) (pb & Eb & Hb) _].
  pose proof (words_len A) as Hla. pose proof (words_len B) as Hlb. assert (zlen A = zlen pa + zlen la) as Hna by (rewrite Ea, length_app; lia).
  assert (zlen B = zlen pb + zlen lb) as Hnb by (rewrite Eb, length_app; lia).
  destruct la as [|y la].
  { cbn [length] in Hna. rewrite (proj2 (Z.ltb_ge _ (zlen (words A)))) by lia. cbn [andb]. exists x, [], lb, out. naive_solver. }
  destruct lb as [|z lb].
  { cbn [length] in Hnb. rewrite (proj2 (Z.ltb_ge _ (zlen (words B)))), andb_false_r by lia. exists x, (y :: la), [], out. naive_solver. }
  cbn [length] in *. rewrite (proj2 (Z.ltb_lt _ (zlen (words A)))), (proj2 (Z.ltb_lt _ (zlen (words B)))) by lia. cbn [andb].
  assert (fits 32 y /\ fits 32 z) as [Hy Hz].
  { rewrite Ea in HA. rewrite Eb in HB. apply Forall_app in HA as [_ HA]. apply Forall_app in HB as [_ HB].
    split; [exact (Forall_inv HA)|exact (Forall_inv HB)]. }
  assert (word_at (words A) (4 * zlen pa) = Ok y) as Hwy by (rewrite Ea; by apply word_at_middle).
  assert (word_at (words B) (4 * zlen pb) = Ok z) as Hwz by (rewrite Eb; by apply word_at_middle).
  rewrite Ha, Hb, Hwy, Hwz, !bind_ok_l.
  rewrite merge_cons in *. destruct (Z.eqb_spec y z) as [<-|Hne]; [|destruct (Z.ltb_spec y z)].
  - rewrite Z.ltb_irrefl. rewrite length_app in Hc.
    destruct (ns_move_if_ok (pushEqual op) A B cap x _ _ out (words A) pa y la Hx) as (x1 & Hmv & Hx1); [by rewrite Ea|rewrite length_app; lia|].
    rewrite Hmv, bind_ok_l. apply ns_adv_l, ns_adv_r in Hx1. unfold mret, result_ret. rewrite bind_ok_l.
    replace (ns_adv 0 4 (ns_adv 4 0 x1)) with (ns_adv 4 4 x1) in Hx1 by (unfold ns_adv; cbn; f_equal; lia).
    rewrite (ns_inside _ _ _ _ _ _ _ Hx1) by (rewrite length_app; lia). cbn [negb throw_if]. rewrite bind_ok_l, app_assoc.
    apply IH; [done|rewrite length_app; lia|lia].
  - rewrite length_app in Hc.
    destruct (ns_move_if_ok (pushFirstSmaller op) A B cap x _ _ out (words A) pa y la Hx) as (x1 & Hmv & Hx1); [by rewrite Ea|rewrite length_app; lia|].
    rewrite Hmv, bind_ok_l. apply ns_adv_l in Hx1. unfold mret, result_ret. rewrite bind_ok_l.
    rewrite (ns_inside _ _ _ _ _ _ _ Hx1) by (rewrite length_app; lia). cbn [negb throw_if]. rewrite bind_ok_l, app_assoc.
    apply IH; [done|rewrite length_app; lia|cbn [length]; lia].
  - rewrite (proj2 (Z.ltb_lt z y)) by lia. rewrite length_app in Hc.
    destruct (ns_move_if_ok (pushSecondSmaller op) A B cap x _ _ out (words B) pb z lb Hx) as (x1 & Hmv & Hx1); [by rewrite Eb|rewrite length_app; lia|].
    rewrite Hmv, bind_ok_l. apply ns_adv_r in Hx1. unfold mret, result_ret. rewrite bind_ok_l.
    rewrite (ns_inside _ _ _ _ _ _ _ Hx1) by (rewrite length_app; lia). cbn [negb throw_if]. rewrite bind_ok_l, app_assoc.
    apply IH; [done|rewrite length_app; lia|cbn [length]; lia].
Qed.

Lemma ns_left A pre la p : A = pre ++ la -> p = 4 * zlen pre ->
  (0 <? zlen (words A) - p) = bool_decide (la <> []) /\ zlen (words A) - p = 4 * zlen la.
Proof.
  intros -> ->. rewrite words_len, length_app. split; [|lia]. destruct la as [|y la]; cbn [length].
  - rewrite bool_decide_false by naive_solver. apply Z.ltb_ge. lia.
  - rewrite bool_decide_true by done. apply Z.ltb_lt. lia.
Qed.

Lemma ns_remainder_ok op A B cap x la lb out : ns_ok A B cap x la lb out -> la = [] \/ lb = [] ->
  zlen out + zlen (merge op la lb) <= cap ->
  exists x', ns_remainder op (words A) (words B) x = Ok x' /\ filled (ns_mm x') (ns_it x') cap (out ++ merge op la lb).
Proof.
  intros Hx Hone Hc. rewrite (merge_one op la lb Hone) in *. unfold ns_remainder.
  pose proof Hx as [(pa & Ea & Ha) (pb & Eb & Hb) Hm].
  destruct (ns_left A pa la _ Ea Ha) as [-> Hla]. destruct (ns_left B pb lb _ Eb Hb) as [-> Hlb]. rewrite Hla, Hlb, Ha, Hb.
  destruct (pushFirstRemainder op && bool_decide (la <> [])); [|destruct (pushSecondRemainder op && bool_decide (lb <> []))].
  - destruct (ns_move_ok A B cap x la lb out (words A) pa la [] Hx) as (x' & -> & [_ _ Hx'] & Hin); [by rewrite app_nil_r, <- Ea|lia|].
    rewrite bind_ok_l, (proj2 (Z.leb_le _ _)) by lia. by exists x'.
  - destruct (ns_move_ok A B cap x la lb out (words B) pb lb [] Hx) as (x' & -> & [_ _ Hx'] & Hin); [by rewrite app_nil_r, <- Eb|lia|].
    rewrite bind_ok_l, (proj2 (Z.leb_le _ _)) by lia. by exists x'.
  - cbn [length] in Hc. rewrite bind_ok_l, (ns_inside _ _ _ _ _ _ _ Hx) by lia. exists x. by rewrite app_nil_r.
Qed.

(** The set operation of two native indexes neither leaves its memory nor fails an assert. *)
Lemma na_genericSetOp_ok op a b A B : op_sized op -> na_ok a A -> na_ok b B ->
  ids_ok (merge op A B) -> zlen A + zlen B < 2 ^ 32 - 1 ->
  exists r, na_genericSetOp op a b = Ok r /\
    match r with Some d => na_ok d (merge op A B) | None => merge op A B = [] end.
Proof.
  intros Hsz [Ha Hma Hia _] [Hb Hmb Hib _] Hids Hn. unfold na_genericSetOp. rewrite Ha, Hb, Hma, Hmb.
  destruct (Hsz A B) as [Hcap Hmax]; [lia|]. set (cap := maxSize op (zlen A) (zlen B)) in *.
  pose proof (words_len A). pose proof (words_len B). cbv zeta.
  destruct (ns_loop_ok (Datatypes.S (length (words A) + length (words B))) op A B cap
    (mkNs 0 0 (replicate (Z.to_nat ((cap + 1) * 4)) 0) 4) A B []) as (x & la & lb & out & -> & Hx & Hone & Heq); try done; try lia.
  { split; [by exists []|by exists []|apply filled_new; lia]. }
  cbn [app] in Heq. rewrite bind_ok_l. assert (zlen out + zlen (merge op la lb) = zlen (merge op A B)) as Hlen.
  { rewrite Heq, length_app. lia. }
  destruct (ns_remainder_ok op A B cap x la lb out Hx Hone) as (x' & -> & Hf); [lia|]. rewrite bind_ok_l, <- Heq in *.
  set (C := merge op A B) in *. pose proof Hf as (_ & _ & _ & _ & Hit & _ & _).
  assert (u64 (ns_it x' - 4) / 4 = zlen C) as ->.
  { rewrite Hit, wrap_small by (unfold fits; lia). replace (4 + 4 * zlen C - 4) with (zlen C * 4) by lia. by apply Z.div_mul. }
  assert (narrow_check (Unsigned 32) (Unsigned 64) (zlen C) = Ok (zlen C)) as -> by (apply narrow_u32_ok; unfold fits; lia).
  rewrite bind_ok_l, (proj2 (Z.leb_le _ _)) by lia. cbn [negb throw_if]. rewrite bind_ok_l.
  destruct (Z.eqb_spec (zlen C) 0) as [E|E]; [exists None; split; [done|]; destruct C; [done|cbn [length] in E; lia]|].
  rewrite (wrap_small 32 (zlen C + 1)) by (unfold fits; lia). replace ((zlen C + 1) * 4) with (ns_it x') by lia.
  destruct (filled_finish _ _ _ _ Hf) as (v & Hput & _ & Hbuf & _); [lia|done|]. unfold uba_of_vector in *. cbn [snd] in Hbuf.
  rewrite Hput, bind_ok_l. destruct (na_new_ok v _ C [] ltac:(rewrite app_nil_r; exact Hbuf)) as (d & -> & Hd); [done|lia|].
  rewrite bind_ok_l. by exists (Some d).
Qed.

(** ** Bit sets *)

Section bit_sets.
Context {T : Type} {BT : Backend T} {BOT : BackendOk T}.
Implicit Types (t : T).

Lemma na_put_loop_ok n d pre post t bits l : na_ok d (pre ++ post) -> n = length post ->
  buf t bits l -> Forall (fun p => p < 8 * zlen l) post ->
  exists t' l', na_put_loop n d (4 * zlen pre) t bits = Ok t' /\ buf t' bits l' /\ length l' = length l /\
    le_val l' = set_bits (le_val l) post.
Proof using BOT.
  revert pre post t l. induction n as [|n IH]; intros pre post t l Hd Hn Hb Hps; cbn [na_put_loop].
  { destruct post; [|done]. by exists t, l. }
  destruct post as [|x post]; [done|]. pose proof Hd as [_ Hm Hi _]. apply Forall_app in Hi as [_ Hi]. pose proof (Forall_inv Hi) as Hx.
  rewrite Hm, word_at_middle, bind_ok_l by done. pose proof (Forall_inv Hps) as Hxl. cbn beta in Hxl. unfold fits in Hx.
  destruct (div8_bounds x) as (? & ? & ?); [lia|].
  rewrite (buf_len _ _ _ Hb), (proj2 (Z.ltb_lt _ _)), andb_false_r by lia. cbn [throw_if]. rewrite bind_ok_l.
  destruct (set_bit_ok t bits l x Hb) as (t1 & l1 & -> & Hb1 & Hl1 & Hv1); [lia|]. rewrite bind_ok_l.
  replace (4 * zlen pre + 4) with (4 * zlen (pre ++ [x])) by (rewrite length_app; cbn; lia).
  destruct (IH (pre ++ [x]) post t1 l1) as (t2 & l2 & -> & Hb2 & Hl2 & Hv2); [by rewrite <- app_assoc|by injection Hn|done| |].
  { rewrite Hl1. by apply Forall_inv_tail in Hps. }
  exists t2, l2. split; [done|]. split; [done|]. split; [congruence|]. rewrite Hv2, Hv1. done.
Qed.

(** Putting a sorted index into a bit set grows it as needed and sets the bits. *)
Lemma na_putInto_bits_ok d ids t bits l : na_ok d ids -> sorted ids -> buf t bits l ->
  m_offSet bits + zlen l = zlen (bk_data t) -> m_offSet bits + zlen l + 2 ^ 29 + 2 < 2 ^ 64 ->
  exists t' bits' l', na_putInto_bits d t bits = Ok (t', bits') /\ buf t' bits' l' /\ le_val l' = set_bits (le_val l) ids.
Proof using BOT.
  intros Hd Hs Hb He Hf. unfold na_putInto_bits. rewrite (na_ok_size _ _ Hd). pose proof (buf_fits _ _ _ Hb).
  destruct (Z.eqb_spec (zlen ids) 0) as [E|E].
  { exists t, bits, l. destruct ids; [done|cbn [length] in E; lia]. }
  assert (ids <> []) as Hne by (intros ->; done). rewrite (na_last_ok d ids) by done. rewrite bind_ok_l.
  pose proof (fun z => sorted_max ids z Hs) as Hmax. set (m := lastd 0 ids) in *.
  assert (fits 32 m) as Hm.
  { unfold m. destruct (exists_last Hne) as (k & y & ->). rewrite lastd_snoc. pose proof (na_ok_ids _ _ Hd) as Hi.
    apply Forall_app in Hi as [_ Hi]. exact (Forall_inv Hi). }
  unfold fits in Hm. destruct (div8_bounds m) as (? & ? & ?); [lia|]. set (q := m / 8 + (if 0 <? m mod 8 then 1 else 0)).
  assert (m / 8 <= q <= m / 8 + 1) as Hq by (unfold q; case_match; lia). cbv zeta. fold q.
  assert (exists t1 bits1 l1 ok, (if m_len bits <=? q then uba_resize t bits (q + 1) else (t, bits, true)) = (t1, bits1, ok) /\
    buf t1 bits1 l1 /\ m < 8 * zlen l1 /\ le_val l1 = le_val l) as (t1 & bits1 & l1 & ok & -> & Hb1 & Hl1 & Hv1).
  { rewrite (buf_len _ _ _ Hb). destruct (Z.leb_spec (zlen l) q).
    - unfold uba_resize. rewrite (buf_len _ _ _ Hb), (proj2 (Z.ltb_ge _ _)) by lia.
      destruct (growStorage_ok t bits l (q + 1 - zlen l) Hb) as (t1 & ext & Hg & Hb1 & Hext); [lia|lia|].
      pose proof (growStorage_zeros _ _ _ _ _ _ (q + 1 - zlen l) Hb ltac:(lia) ltac:(lia) He Hg Hb1 Hext) as ->.
      eexists t1, _, _, true. split; [exact Hg|]. split; [exact Hb1|]. rewrite length_app, length_replicate.
      split; [lia|]. rewrite le_val_app, le_val_zeros, Z.shiftl_0_l, Z.lor_0_r by (by eapply buf_bytes). done.
    - exists t, bits, l, true. split; [done|]. split; [done|]. split; [lia|done]. }
  rewrite Nat2Z.id. destruct (na_put_loop_ok (length ids) d [] ids t1 bits1 l1) as (t2 & l2 & Hput & Hb2 & _ & Hv2); try done.
  { apply Forall_forall. intros z Hz%Hmax. lia. }
  change (4 * zlen []) with 0 in Hput. rewrite Hput, bind_ok_l. exists t2, bits1, l2. split; [done|]. split; [done|]. by rewrite Hv2, Hv1.
Qed.
End bit_sets.

(** * The vector index *)

Lemma stl_at_ok v pos : zlen v < 2 ^ 32 -> 0 <= pos -> Stl.at_ v pos = Ok (default 0 (v !! Z.to_nat pos)).
Proof.
  intros Hn Hp. unfold Stl.at_, Stl.size. rewrite wrap_small by (unfold fits; lia). destruct (Z.ltb_spec pos (zlen v)).
  - destruct (lookup_lt_is_Some_2 v (Z.to_nat pos)) as [x Hx]; [lia|]. rewrite Hx. by apply vget_ok.
  - by rewrite lookup_ge_None_2 by lia.
Qed.

Definition stl_rep (v ids : list Z) : Prop := v = ids /\ zlen ids < 2 ^ 32.

Lemma stl_ai_at_ok (v ids : list Z) (pos : nat) x : stl_rep v ids -> ids !! pos = Some x ->
  exists v', (y ← Stl.at_ v (Z.of_nat pos); mret (v, y)) = Ok (v', x) /\ stl_rep v' ids.
Proof. intros [-> Hn] Hx. rewrite stl_at_ok by lia. rewrite Nat2Z.id, Hx, bind_ok_l. by exists ids. Qed.

#[export] Program Instance stl_AtIndexOk : AtIndexOk (list Z) := {| ai_rep := stl_rep |}.
Next Obligation. intros v l [-> Hn]. cbn. apply wrap_small. unfold fits. lia. Qed.
Next Obligation. intros v l [-> Hn]. done. Qed.
Next Obligation. exact stl_ai_at_ok. Qed.
Next Obligation. exact stl_ai_at_ok. Qed.

(** [fromBitSet] appends like a creator that never fails. *)
Definition stl_push (v : list Z) (id : Z) : result (list Z) := Ok (v ++ [id]).
Program Definition stl_creator_ok : @IndexCreatorOk (list Z) stl_push :=
  {| cr_rep v out := v = out; cr_lim := 2 ^ 32; cr_cap := 2 ^ 32 - 1 |}.
Next Obligation. done. Qed.
Next Obligation. intros v out id -> _ _ _. by exists (out ++ [id]). Qed.

Lemma stl_bits_eq n x i curId v : from_byte (H := stl_push) n x i curId v = Ok (Stl.bits_of n x (u32 (curId + i)) v).
Proof.
  revert x i v. induction n as [|n IH]; intros x i v; cbn [from_byte Stl.bits_of]; [done|]. case_match; [done|].
  assert (push_if (H := stl_push) (negb (x &&& 1 =? 0)) v (u32 (curId + i)) =
    Ok (if negb (x &&& 1 =? 0) then v ++ [u32 (curId + i)] else v)) as -> by (by destruct (negb _)).
  rewrite bind_ok_l, IH. do 2 f_equal. unfold wrap. rewrite Zplus_mod_idemp_l, Zplus_mod_idemp_r. f_equal. lia.
Qed.

Section stl_bit_set.
Context {S : Type} {B : Backend S} {BO : BackendOk S}.

Lemma stl_bytes_eq n (s : S) a l i id v : buf s a l -> 0 <= i -> i + Z.of_nat n = zlen l -> zlen l < 2 ^ 29 -> fits 32 id ->
  Stl.bytes_loop n s a i id v = from_bytes (H := stl_push) n s a i id v.
Proof using BO.
  intros Hb. revert i id v. induction n as [|n IH]; intros i id v Hi Hn Hl Hid; cbn [Stl.bytes_loop from_bytes]; [done|].
  destruct (uba_at s a i) as [x|]; [|done]. rewrite !bind_ok_l, stl_bits_eq, bind_ok_l.
  rewrite Z.add_0_r, (wrap_small 32 id), (wrap_small 64 (i + 1)), (wrap_small 32 (i + 1)) by (done || unfold fits; lia).
  apply IH; [lia|lia|done|apply wrap_fits; lia].
Qed.

(** The set positions, in order. *)
Lemma stl_fromBitSet_ok (s : S) a l : buf s a l -> zlen l < 2 ^ 29 ->
  Stl.fromBitSet s a = Ok (set_positions (le_val l) 0 (8 * zlen l)).
Proof using BO.
  intros Hb Hl. unfold Stl.fromBitSet. rewrite (buf_len _ _ _ Hb), Nat2Z.id. pose proof (buf_fits _ _ _ Hb).
  rewrite (stl_bytes_eq _ s a l) by (done || unfold fits; lia).
  destruct (@from_bytes_ok _ stl_push stl_creator_ok S B BO s a l Hb Hl (length l) 0 [] []) as (c & Hc & <-); [lia|lia|done| |exact Hc].
  change (8 * 0) with 0. apply set_positions_pushable; cbn [cr_lim cr_cap stl_creator_ok].
  - intros z Hz%elem_of_set_positions. lia.
  - pose proof (length_filter (fun z => Is_true (Z.testbit (le_val l) z)) (seqZ 0 (8 * zlen l))) as Hfl.
    rewrite length_seqZ in Hfl. unfold set_positions. lia.
Qed.
End stl_bit_set.

(** * The properties *)

(** Round trip of a native index: [create] writes only at the put position; opened
    there, the index gives every id by [at], 0 behind the end, all ids in order by its
    iterator and their bytes by [putInto], and putting a sorted index into a bit set whose
    window ends its storage grows the set as needed and sets exactly the bits of the ids. *)
Theorem native_roundtrip {S : Type} {B : Backend S} {BO : BackendOk S} {T : Type} {BT : Backend T} {BOT : BackendOk T}
    (s : S) dest l src (t : T) bits m pos :
  buf s dest l -> 0 <= m_putPtr dest <= zlen l -> m_offSet dest + m_putPtr dest + 4 + 4 * zlen src < 2 ^ 64 ->
  ids_ok src -> sorted src -> zlen src < 2 ^ 32 -> 0 <= pos ->
  buf t bits m -> m_offSet bits + zlen m = zlen (bk_data t) -> m_offSet bits + zlen m < 2 ^ 63 ->
  exists s' dest' img d t' bits' m', na_create s dest src = Ok (s', dest') /\ pushed dest l img s' dest' /\
    na_new s' (uba_from dest' (m_putPtr dest)) = Ok d /\ na_size d = zlen src /\ na_at d pos = Ok (default 0 (src !! Z.to_nat pos)) /\
    ni_collect (Datatypes.S (length src)) d (na_cbegin d) (na_cend d) = Ok src /\ na_putInto d = Ok (words src) /\
    na_putInto_bits d t bits = Ok (t', bits') /\ buf t' bits' m' /\
    forall i, 0 <= i -> Z.testbit (le_val m') i = Z.testbit (le_val m) i || bool_decide (i ∈ src).
Proof.
  intros Hb Hp Hf Hi Hs Hn Hpos Ht He Hm. destruct (na_create_ok s dest l src Hb Hp Hn Hf) as (s' & dest' & Hc & Hpu).
  destruct Hpu as [Hbuf Ho Hg Hpp]. pose proof (uba_from_ok s' dest' _ Hbuf (m_putPtr dest)) as Hfrom.
  rewrite drop_splice in Hfrom by lia.
  destruct (na_new_ok s' _ src _ (Hfrom ltac:(unfold splice; rewrite length_app, length_take; lia)) Hi Hn) as (d & Hnew & Hd).
  destruct (na_putInto_bits_ok d src t bits m Hd Hs Ht He) as (t' & bits' & m' & Hput & Hb' & Hv); [lia|].
  exists s', dest', (na_image src), d, t', bits', m'. split; [done|]. split; [done|]. split; [done|].
  split; [apply Hd|]. split; [by apply na_at_ok|].
  split; [apply (ni_collect_ok _ d [] src Hd); lia|]. split; [by apply na_putInto_ok|]. split; [done|]. split; [done|].
  intros i Hi0. rewrite Hv. apply testbit_set_bits; [|done]. eapply Forall_impl; [exact Hi|]. unfold fits. cbn. lia.
Qed.

Lemma native_roundtrip_witness :
  exists s' dest' d t' bits', na_create (Vec.mk [7]) (mkUba 0 1 0 1) [3; 9] = Ok (s', dest') /\
    na_new s' (uba_from dest' 1) = Ok d /\ na_at d 1 = Ok 9 /\ na_putInto_bits d (Vec.mk [0]) (mkUba 0 1 0 0) = Ok (t', bits').
Proof.
  destruct (native_roundtrip (Vec.mk [7]) (mkUba 0 1 0 1) [7] [3; 9] (Vec.mk [0]) (mkUba 0 1 0 0) [0] 1)
    as (s' & dest' & img & d & t' & bits' & m' & H1 & _ & H2 & _ & H3 & _ & _ & H4 & _).
  - split; [uba_wf_tac|reflexivity].
  - cbn. lia.
  - cbn. lia.
  - repeat constructor; unfold fits; lia.
  - repeat first [lia | constructor].
  - cbn. lia.
  - lia.
  - split; [uba_wf_tac|reflexivity].
  - reflexivity.
  - reflexivity.
  - exists s', dest', d, t', bits'. split; [exact H1|]. split; [exact H2|]. split; [exact H3|exact H4].
Defined.

(** The set operations on two native indexes of fewer than 2^32 - 1 ids together
    write only into the memory reserved for the result, no assert on it fails, and they
    give an index of exactly the ids the operation keeps, in ascending order, or the empty
    index when there are none. *)
Theorem native_ops_correct op (a b : nat_idx) A B :
  op_wf op -> op_sized op -> na_ok a A -> na_ok b B -> sorted A -> sorted B -> zlen A + zlen B < 2 ^ 32 - 1 ->
  exists r res, na_genericSetOp op a b = Ok r /\ sorted res /\ (forall z, z ∈ res <-> keeps op (z ∈ A) (z ∈ B)) /\
    match r with Some d => na_putInto d = Ok (words res) /\ na_size d = zlen res | None => res = [] end.
Proof.
  intros Hop Hsz Ha Hb HA HB Hn. destruct (merge_spec op A B Hop HA HB) as [Hs Hin].
  destruct (na_genericSetOp_ok op a b A B Hsz Ha Hb) as (r & Hr & Hres); [|done|].
  { apply merge_ids; try done; [apply Ha|apply Hb]. }
  exists r, (merge op A B). split; [done|]. split; [done|]. split; [done|].
  destruct r as [d|]; [|done]. split; [by apply na_putInto_ok|apply Hres].
Qed.

Lemma native_ops_correct_witness : exists r,
  na_genericSetOp SymmetricDifferenceOp (mkNat 2 (words [3; 7])) (mkNat 3 (words [7; 300; 70000])) = Ok (Some r) /\ na_size r = 3.
Proof.
  destruct (native_ops_correct SymmetricDifferenceOp (mkNat 2 (words [3; 7])) (mkNat 3 (words [7; 300; 70000])) [3; 7] [7; 300; 70000])
    as ([r|] & res & Hr & _ & _ & Hres).
  - split; reflexivity.
  - apply ops_sized.
  - split; [reflexivity|reflexivity|repeat constructor; unfold fits; lia|reflexivity].
  - split; [reflexivity|reflexivity|repeat constructor; unfold fits; lia|reflexivity].
  - repeat first [lia | constructor].
  - repeat first [lia | constructor].
  - reflexivity.
  - exists r. split; [exact Hr|]. vm_compute in Hr. injection Hr as <-. reflexivity.
  - exfalso. vm_compute in Hr. discriminate Hr.
Defined.
