(* ===== verification/ItemIndex.v ===== *)
(** The item index as its users see it: [src/containers/ItemIndex.cpp], and the virtual
    functions of [src/containers/ItemIndexPrivates/ItemIndexPrivate.cpp] behind it.

    An [ItemIndex] is a handle on a private index of some type, or the empty index. The
    set operations test for empty operands before they call the private index; over a
    list of indexes they work along a balanced tree. These are written against the
    interface [PrivIndex], with its laws [PrivIndexOk].  [priv] is the sum of the
    delta-coded, run-length coded, native and vector index: an operation on two indexes of
    the same type is the type's own, any other goes to the generic operation and yields a
    native index. *)

From stdpp Require Import sorting.
From S2P Require Import Prelude UtilMath PackUnpack Storage ByteArray ByteStream Bits CompactUintArray BitSets SetFuncs IndexOps ItemIndexDE ItemIndexRleDE ItemIndexNative.

(** * The interface of the private indexes *)

Class PrivIndex (P : Type) := {
  priv_size : P -> Z;
  (** [None] is a new [ItemIndexPrivateEmpty] *)
  priv_op : set_op -> P -> P -> result (option P);
}.

(** What an implementation promises: the index represents a sorted list of ids, and an
    operation on two nonempty indexes that are not too large gives an index of the ids
    the operation keeps. *)
Class PrivIndexOk (P : Type) `{PrivIndex P} := {
  priv_rep : P -> list Z -> Prop;
  priv_sorted p l : priv_rep p l -> sorted l;
  priv_size_ok p l : priv_rep p l -> priv_size p = zlen l;
  priv_op_ok op p q A B : op_wf op -> op_sized op -> priv_rep p A -> priv_rep q B -> A <> [] -> B <> [] ->
    zlen A + zlen B < 2 ^ 29 ->
    exists r, priv_op op p q = Ok r /\
      match r with Some r => priv_rep r (merge op A B) | None => merge op A B = [] end;
}.

(** * The index *)

Section item_index.
Context {P : Type} `{PrivIndex P}.

(** [None] is [ItemIndexPrivateEmpty]. *)
Definition item_index : Type := option P.

Definition ii_size (i : item_index) : Z := match i with Some p => priv_size p | None => 0 end.

(** [ItemIndex( a.priv()->op( b.priv() ) )]; the empty index never gets here. *)
Definition ii_priv (op : set_op) (a b : item_index) : result item_index :=
  match a, b with
  | Some p, Some q => priv_op op p q
  | _, _ => Err UnimplementedFunctionException
  end.

Definition ii_intersect (a b : item_index) : result item_index :=
  if (ii_size a =? 0) || (ii_size b =? 0) then Ok None else ii_priv IntersectOp a b.

Definition ii_unite (a b : item_index) : result item_index :=
  if ii_size a =? 0 then Ok b else if ii_size b =? 0 then Ok a else ii_priv UniteOp a b.

Definition ii_difference (a b : item_index) : result item_index :=
  if (ii_size a =? 0) || (ii_size b =? 0) then Ok a else ii_priv DifferenceOp a b.

Definition ii_symmetricDifference (a b : item_index) : result item_index :=
  if ii_size a =? 0 then Ok b else if ii_size b =? 0 then Ok a else ii_priv SymmetricDifferenceOp a b.

(** [intersectWithTree] and [uniteWithTree], which differ in the operation. *)
Fixpoint withTree (f : item_index -> item_index -> result item_index) (fuel : nat) (start fin : Z)
    (set : list item_index) : result item_index :=
  match fuel with
  | O => Err OutOfFuel
  | Datatypes.S fuel =>
      if start =? fin then match set !! Z.to_nat start with Some i => Ok i | None => Err StdOutOfRange end
      else
        let mid := u32 (start + u32 (fin - start) / 2) in
        a ← withTree f fuel start mid set;
        b ← withTree f fuel (u32 (mid + 1)) fin set;
        f a b
  end.

Definition ii_fold (f : item_index -> item_index -> result item_index) (set : list item_index) : result item_index :=
  match set with
  | [] => Ok None
  | [i] => Ok i
  | [i; j] => f i j
  | _ => withTree f (length set) 0 (u32 (u64 (zlen set - 1))) set
  end.

Definition ii_intersect_all := ii_fold ii_intersect.
Definition ii_unite_all := ii_fold ii_unite.
End item_index.
Arguments item_index : clear implicits.

(** * Correctness of the operations *)

Lemma merge_nil op A : merge op A [] = if pushFirstRemainder op then A else [].
Proof. destruct A; [|done]. rewrite merge_nil_l. by destruct (pushSecondRemainder op), (pushFirstRemainder op). Qed.

Section correct.
Context {P : Type} `{PrivIndexOk P}.
Implicit Types (a b i : item_index P).

Definition ii_rep (i : item_index P) (l : list Z) : Prop :=
  match i with Some p => priv_rep p l | None => l = [] end.

Lemma ii_rep_sorted i l : ii_rep i l -> sorted l.
Proof using. destruct i; cbn; [apply priv_sorted|intros ->; constructor]. Qed.

Lemma ii_size_ok i l : ii_rep i l -> ii_size i = zlen l.
Proof using. destruct i; cbn; [apply priv_size_ok|by intros ->]. Qed.

Lemma ii_priv_ok op a b A B : op_wf op -> op_sized op -> ii_rep a A -> ii_rep b B -> A <> [] -> B <> [] ->
  zlen A + zlen B < 2 ^ 29 -> exists r, ii_priv op a b = Ok r /\ ii_rep r (merge op A B).
Proof using.
  intros Hop Hsz Ha Hb HA HB Hn. destruct a as [p|], b as [q|]; cbn in *; try done.
  destruct (priv_op_ok op p q A B Hop Hsz Ha Hb HA HB Hn) as (r & -> & Hr). exists r. by destruct r.
Qed.

Lemma ii_op_ok a b A B : ii_rep a A -> ii_rep b B -> zlen A + zlen B < 2 ^ 29 ->
  (exists r, ii_intersect a b = Ok r /\ ii_rep r (merge IntersectOp A B)) /\
  (exists r, ii_unite a b = Ok r /\ ii_rep r (merge UniteOp A B)) /\
  (exists r, ii_difference a b = Ok r /\ ii_rep r (merge DifferenceOp A B)) /\
  (exists r, ii_symmetricDifference a b = Ok r /\ ii_rep r (merge SymmetricDifferenceOp A B)).
Proof using.
  intros Ha Hb Hn. unfold ii_intersect, ii_unite, ii_difference, ii_symmetricDifference.
  rewrite (ii_size_ok a A Ha), (ii_size_ok b B Hb).
  destruct (Z.eqb_spec (zlen A) 0) as [EA|EA]; cbn [orb].
  { destruct A; [|cbn [length] in EA; lia]. rewrite !merge_nil_l.
    split; [|split; [|split]]; eexists; (split; [reflexivity|]); first [exact Ha|exact Hb|reflexivity]. }
  destruct (Z.eqb_spec (zlen B) 0) as [EB|EB].
  { destruct B; [|cbn [length] in EB; lia]. rewrite !merge_nil.
    split; [|split; [|split]]; eexists; (split; [reflexivity|]); first [exact Ha|exact Hb|reflexivity]. }
  assert (A <> []) by (intros ->; done). assert (B <> []) by (intros ->; done).
  pose proof ops_sized as (? & ? & ? & ?). split; [|split; [|split]]; by apply ii_priv_ok.
Qed.

Lemma elem_of_intersect A B z : sorted A -> sorted B -> z ∈ merge IntersectOp A B <-> z ∈ A /\ z ∈ B.
Proof using. intros HA HB. rewrite (proj2 (merge_spec IntersectOp A B ltac:(done) HA HB)). unfold keeps. cbn. naive_solver. Qed.

Lemma elem_of_unite A B z : sorted A -> sorted B -> z ∈ merge UniteOp A B <-> z ∈ A \/ z ∈ B.
Proof using.
  intros HA HB. rewrite (proj2 (merge_spec UniteOp A B ltac:(done) HA HB)). unfold keeps. cbn.
  destruct (decide (z ∈ A)), (decide (z ∈ B)); tauto.
Qed.

(** Folding an operation over a list of indexes: [comb] says what it does to
    membership, [all] what the whole list does. *)
Section tree.
Context (f : item_index P -> item_index P -> result (item_index P)) (op : set_op).
Context (comb : Prop -> Prop -> Prop) (all : list (list Z) -> Z -> Prop).
Context (comb_proper : forall x x' y y' : Prop, (x <-> x') -> (y <-> y') -> comb x y <-> comb x' y').
Context (f_ok : forall a b A B, ii_rep a A -> ii_rep b B -> zlen A + zlen B < 2 ^ 29 ->
  exists r, f a b = Ok r /\ ii_rep r (merge op A B)).
Context (op_comb : forall A B z, sorted A -> sorted B -> z ∈ merge op A B <-> comb (z ∈ A) (z ∈ B)).
Context (all_one : forall A z, all [A] z <-> z ∈ A).
Context (all_app : forall k l z, all (k ++ l) z <-> comb (all k z) (all l z)).

Lemma f_step a b A B k l : ii_rep a A -> ii_rep b B ->
  zlen A <= zlen (concat k) -> zlen B <= zlen (concat l) -> zlen (concat (k ++ l)) < 2 ^ 29 ->
  (forall z, z ∈ A <-> all k z) -> (forall z, z ∈ B <-> all l z) ->
  exists r C, f a b = Ok r /\ ii_rep r C /\ zlen C <= zlen (concat (k ++ l)) /\ forall z, z ∈ C <-> all (k ++ l) z.
Proof using comb_proper f_ok op_comb all_app.
  intros Ha Hb HA HB Hn Hk Hl. rewrite concat_app, length_app in *.
  destruct (f_ok a b A B Ha Hb) as (r & Hr & Hrep); [lia|]. exists r, (merge op A B). split; [done|]. split; [done|].
  split; [pose proof (merge_length op A B); lia|]. intros z.
  rewrite op_comb by (by eapply ii_rep_sorted). rewrite all_app. by apply comb_proper.
Qed.

Lemma withTree_ok fuel pre m post Ls : Forall2 ii_rep m Ls -> m <> [] -> (length m <= fuel)%nat ->
  zlen (pre ++ m ++ post) < 2 ^ 32 -> zlen (concat Ls) < 2 ^ 29 ->
  exists r C, withTree f fuel (zlen pre) (zlen pre + zlen m - 1) (pre ++ m ++ post) = Ok r /\
    ii_rep r C /\ zlen C <= zlen (concat Ls) /\ forall z, z ∈ C <-> all Ls z.
Proof using comb_proper f_ok op_comb all_app all_one.
  revert pre m post Ls. induction fuel as [|fuel IH]; intros pre m post Ls Hrep Hne Hf Hlen Hn.
  { destruct m; [done|cbn [length] in Hf; lia]. }
  rewrite !length_app in Hlen. cbn [withTree]. destruct (Z.eqb_spec (zlen pre) (zlen pre + zlen m - 1)) as [E|E].
  - destruct m as [|i [|? ?]]; cbn [length] in *; [lia| |lia]. destruct Ls as [|L [|? ?]]; try (by inversion Hrep).
    2: { inversion Hrep as [|? ? ? ? ? Hr2]. inversion Hr2. }
    apply Forall2_cons in Hrep as [Hi _]. rewrite Nat2Z.id. cbn [app]. rewrite list_lookup_middle by done.
    exists i, L. cbn [concat]. rewrite app_nil_r. split; [done|]. split; [done|]. split; [lia|].
    intros z. by rewrite all_one.
  - set (h := (zlen m - 1) / 2). assert (0 < zlen m) by (destruct m; [done|cbn [length]; lia]).
    pose proof (Z.div_mod (zlen m - 1) 2 ltac:(lia)) as Hdm. pose proof (Z.mod_pos_bound (zlen m - 1) 2 ltac:(lia)).
    fold h in Hdm. set (n := Z.to_nat (h + 1)).
    rewrite <- (take_drop n m) in Hrep. apply Forall2_app_inv_l in Hrep as (k & l & Hk & Hl & ->).
    assert (length (take n m) = n /\ length (drop n m) = (length m - n)%nat) as [Hm1 Hm2]
      by (rewrite length_take, length_drop; lia).
    rewrite (wrap_small 32 (_ - zlen pre)) by (unfold fits; lia).
    replace (zlen pre + zlen m - 1 - zlen pre) with (zlen m - 1) by lia. fold h.
    rewrite (wrap_small 32 (zlen pre + h)), (wrap_small 32 (zlen pre + h + 1)) by (unfold fits; lia).
    pose proof Hn as Hn'. rewrite concat_app, length_app in Hn'.
    destruct (IH pre (take n m) (drop n m ++ post) k Hk) as (r1 & A & Hr1 & HA & HlA & HzA);
      [intros E'; rewrite E' in Hm1; cbn in Hm1; lia|lia|rewrite !length_app; lia|lia|].
    destruct (IH (pre ++ take n m) (drop n m) post l Hl) as (r2 & B & Hr2 & HB & HlB & HzB);
      [intros E'; rewrite E' in Hm2; cbn in Hm2; lia|lia|rewrite !length_app; lia|lia|].
    rewrite (app_assoc (take n m)), take_drop in Hr1. rewrite <- app_assoc, (app_assoc (take n m)), take_drop in Hr2.
    rewrite length_app in Hr2. replace (zlen pre + zlen (take n m) - 1) with (zlen pre + h) in Hr1 by lia.
    replace (Z.of_nat (length pre + length (take n m))) with (zlen pre + h + 1) in Hr2 by lia.
    replace (zlen pre + h + 1 + zlen (drop n m) - 1) with (zlen pre + zlen m - 1) in Hr2 by lia.
    rewrite Hr1, bind_ok_l, Hr2, bind_ok_l. by apply (f_step r1 r2 A B).
Qed.

Lemma ii_fold_ok set Ls : Forall2 ii_rep set Ls -> set <> [] -> zlen set < 2 ^ 32 -> zlen (concat Ls) < 2 ^ 29 ->
  exists r C, ii_fold f set = Ok r /\ ii_rep r C /\ forall z, z ∈ C <-> all Ls z.
Proof using comb_proper f_ok op_comb all_app all_one.
  intros Hrep Hne Hlen Hn. destruct set as [|i [|j [|k set]]]; [done| | |].
  - destruct (withTree_ok 1 [] [i] [] Ls Hrep) as (r & C & Hr & HC & _ & Hz); [done|cbn; lia|done|done|].
    exists r, C. cbn in Hr. by simplify_eq.
  - inversion Hrep as [|? A ? Ls' HA Hrep']; subst. inversion Hrep' as [|? B ? Ls'' HB Hnil]; subst. inversion Hnil; subst.
    cbn [concat] in Hn. rewrite app_nil_r in Hn.
    destruct (f_step i j A B [A] [B] HA HB) as (r & C & Hr & HC & _ & Hz);
      cbn [concat app]; rewrite ?app_nil_r; try done; try lia; [intros z; by rewrite all_one..|].
    by exists r, C.
  - set (s := i :: j :: k :: set) in *.
    assert (ii_fold f s = withTree f (length s) 0 (u32 (u64 (zlen s - 1))) s) as -> by done.
    rewrite (wrap_small 64), wrap_small by (unfold fits; rewrite ?wrap_small; unfold fits; subst s; cbn [length] in *; lia).
    destruct (withTree_ok (length s) [] s [] Ls Hrep) as (r & C & Hr & HC & _ & Hz); [done|lia|by rewrite app_nil_r|done|].
    rewrite app_nil_r in Hr. by exists r, C.
Qed.
End tree.
End correct.

(** * The private indexes *)

(** The storage is behind a virtual interface: an index brings its own. *)
Inductive priv :=
  | PDe (S : Type) (B : Backend S) (s : S) (d : de)
  | PRleDe (S : Type) (B : Backend S) (s : S) (d : rd)
  | PNative (d : nat_idx)
  | PStlVector (v : list Z).

Definition p_size (p : priv) : Z :=
  match p with
  | PDe U B s d => ai_size (s, d)
  | PRleDe U B s d => ai_size (s, d)
  | PNative d => ai_size d
  | PStlVector v => ai_size v
  end.
Definition p_at (p : priv) (pos : Z) : result (priv * Z) :=
  match p with
  | PDe U B s d => '((s, d), x) ← ai_at (s, d) pos; mret (PDe U B s d, x)
  | PRleDe U B s d => '((s, d), x) ← ai_at (s, d) pos; mret (PRleDe U B s d, x)
  | PNative d => '(d, x) ← ai_at d pos; mret (PNative d, x)
  | PStlVector v => '(v, x) ← ai_at v pos; mret (PStlVector v, x)
  end.
Definition p_uncheckedAt (p : priv) (pos : Z) : result (priv * Z) :=
  match p with
  | PDe U B s d => '((s, d), x) ← ai_uncheckedAt (s, d) pos; mret (PDe U B s d, x)
  | PRleDe U B s d => '((s, d), x) ← ai_uncheckedAt (s, d) pos; mret (PRleDe U B s d, x)
  | PNative d => '(d, x) ← ai_uncheckedAt d pos; mret (PNative d, x)
  | PStlVector v => '(v, x) ← ai_uncheckedAt v pos; mret (PStlVector v, x)
  end.
#[export] Instance p_AtIndex : AtIndex priv := {| ai_size := p_size; ai_at := p_at; ai_uncheckedAt := p_uncheckedAt |}.

(** [intersect], [unite], [difference] and [symmetricDifference]: [dynamic_cast] of the
    other operand, [doIntersect] and so on when that fails. *)
Definition p_op (op : set_op) (p q : priv) : result (option priv) :=
  match p, q with
  | PDe S1 B1 s x, PDe S2 B2 t y => '(v, d) ← genericOp op s x t y; mret (Some (PDe Vec.t _ v d))
  | PRleDe S1 B1 s x, PRleDe S2 B2 t y => '(v, d) ← rd_genericOp op s x t y; mret (Some (PRleDe Vec.t _ v d))
  | PNative x, PNative y => d ← na_genericSetOp op x y; mret (option_map PNative d)
  | _, _ => d ← execute op p q; mret (Some (PNative d))
  end.
#[export] Instance p_PrivIndex : PrivIndex priv := {| priv_size := p_size; priv_op := p_op |}.

Definition p_first (p : priv) : result Z :=
  match p with
  | PDe U B s d => snd <$> de_first s d
  | PRleDe U B s d => snd <$> rd_first s d
  | PNative d => na_first d
  | PStlVector v => Stl.first v
  end.
Definition p_last (p : priv) : result Z :=
  match p with
  | PDe U B s d => snd <$> de_last s d
  | PRleDe U B s d => snd <$> rd_last s d
  | PNative d => na_last d
  | PStlVector v => Stl.last v
  end.

(** [putInto(uint32_t* )] into an array; the native index copies bytes. *)
Fixpoint as_words (n : nat) (bytes : list Z) : list Z :=
  match n with O => [] | Datatypes.S n => le_val (take 4 bytes) :: as_words n (drop 4 bytes) end.
Definition p_putInto (p : priv) : result (list Z) :=
  match p with
  | PDe U B s d => de_putInto s d
  | PRleDe U B s d => rd_putInto s d
  | PNative d => bytes ← na_putInto d; mret (as_words (Z.to_nat (na_size d)) bytes)
  | PStlVector v => snd <$> doPutInto v
  end.
Definition p_putInto_bits {T : Type} `{Backend T} (p : priv) (t : T) (bits : uba) : result (T * uba) :=
  match p with
  | PDe U B s d => de_putInto_bits s d t bits
  | PRleDe U B s d => rd_putInto_bits s d t bits
  | PNative d => na_putInto_bits d t bits
  | PStlVector v => snd <$> doPutInto_bits v t bits
  end.

(** * The handle *)

Abbreviation index := (item_index priv).

Definition ii_at (i : index) (pos : Z) : result (index * Z) :=
  match i with None => Ok (None, 0) | Some p => '(p, x) ← p_at p pos; mret (Some p, x) end.
Definition ii_front (i : index) : result Z := match i with None => Ok 0 | Some p => p_first p end.
Definition ii_back (i : index) : result Z := match i with None => Ok 0 | Some p => p_last p end.
Definition ii_find (i : index) (id : Z) : result (index * Z) :=
  match i with None => Ok (None, max_u32) | Some p => '(p, r) ← find p id; mret (Some p, r) end.
Definition ii_count (i : index) (id : Z) : result (index * Z) :=
  '(i, r) ← ii_find i id; mret (i, if negb (r =? max_u32) then 1 else 0).
Definition ii_toVector (i : index) : result (list Z) :=
  match i with None => Ok [] | Some p => p_putInto p end.
Definition ii_putInto {T : Type} `{Backend T} (i : index) (t : T) (bits : uba) : result (T * uba) :=
  match i with None => Ok (t, bits) | Some p => p_putInto_bits p t bits end.

(** [ItemIndex(index, type)] for the types modelled here. *)
Inductive index_type := T_DE | T_RLE_DE | T_NATIVE | T_STL_VECTOR | T_EMPTY.
#[export] Instance index_type_eq_dec : EqDecision index_type.
Proof. solve_decision. Defined.
Definition createPrivate {S : Type} `{B : Backend S} (s : S) (data : uba) (type : index_type) : result index :=
  match type with
  | T_DE => d ← de_new s data; mret (Some (PDe S B s d))
  | T_RLE_DE => '(s, d) ← rd_new s data; mret (Some (PRleDe S B s d))
  | T_NATIVE => d ← na_new s data; mret (Some (PNative d))
  | T_STL_VECTOR | T_EMPTY => Ok None
  end.

(** [fromBitSet] without [T_MULTIPLE]. *)
Definition ii_fromBitSet {S : Type} `{Backend S} (s : S) (bits : uba) (type : index_type) : result index :=
  if m_len bits =? 0 then Ok None
  else
    match type with
    | T_DE => '(v, d) ← de_fromBitSet s bits; mret (Some (PDe Vec.t _ v d))
    | T_RLE_DE => '(v, d) ← rd_fromBitSet s bits; mret (Some (PRleDe Vec.t _ v d))
    | T_NATIVE | T_STL_VECTOR => v ← Stl.fromBitSet s bits; mret (Some (PStlVector v))
    | T_EMPTY => Ok None
    end.

(** [uniteWithVectorBackend]: lookups behind the end give 0. *)
Section vector_backend.
Fixpoint uv_loop (fuel : nat) (a b : index) (aSize bSize aIt bIt aId bId : Z) (res : list Z) : result (index * index * Z * Z * list Z) :=
  match fuel with
  | O => Err OutOfFuel
  | Datatypes.S fuel =>
      if (aIt <? aSize) && (bIt <? bSize) then
        if aId =? bId then
          '(a, aId') ← ii_at a (u32 (aIt + 1)); '(b, bId') ← ii_at b (u32 (bIt + 1));
          uv_loop fuel a b aSize bSize (u32 (aIt + 1)) (u32 (bIt + 1)) aId' bId' (res ++ [aId])
        else if aId <? bId then
          '(a, aId') ← ii_at a (u32 (aIt + 1));
          uv_loop fuel a b aSize bSize (u32 (aIt + 1)) bIt aId' bId (res ++ [aId])
        else
          '(b, bId') ← ii_at b (u32 (bIt + 1));
          uv_loop fuel a b aSize bSize aIt (u32 (bIt + 1)) aId bId' (res ++ [bId])
      else Ok (a, b, aIt, bIt, res)
  end.

(** The loops over what is left: as many steps as ids are left. *)
Fixpoint uv_rest (n : nat) (a : index) (it : Z) (res : list Z) : result (list Z) :=
  match n with
  | O => Ok res
  | Datatypes.S n => '(a, x) ← ii_at a it; uv_rest n a (u32 (it + 1)) (res ++ [x])
  end.

Definition uniteWithVectorBackend (a b : index) : result index :=
  let aSize := ii_size a in
  let bSize := ii_size b in
  '(a, aId) ← ii_at a 0; '(b, bId) ← ii_at b 0;
  '(a, b, aIt, bIt, res) ← uv_loop (Datatypes.S (Z.to_nat (aSize + bSize))) a b aSize bSize 0 0 aId bId [];
  res ← uv_rest (Z.to_nat (aSize - aIt)) a aIt res;
  res ← uv_rest (Z.to_nat (bSize - bIt)) b bIt res;
  mret (Some (PStlVector res)).
End vector_backend.

(** * Every type keeps the promises *)

Definition p_ai_rep (p : priv) (l : list Z) : Prop :=
  match p with
  | PDe U B s d => exists BO : BackendOk U, usable s d l
  | PRleDe U B s d => exists BO : BackendOk U, rd_usable s d l
  | PNative d => na_ok d l
  | PStlVector v => stl_rep v l
  end.

Definition p_rep (p : priv) (l : list Z) : Prop := p_ai_rep p l /\ sorted l /\ ids_ok l.

Lemma p_at_both p l (pos : nat) x : p_ai_rep p l -> l !! pos = Some x ->
  (exists p', p_at p (Z.of_nat pos) = Ok (p', x) /\ p_ai_rep p' l) /\
  (exists p', p_uncheckedAt p (Z.of_nat pos) = Ok (p', x) /\ p_ai_rep p' l).
Proof.
  destruct p as [U B s d|U B s d|d|v]; cbn [p_at p_uncheckedAt p_ai_rep]; intros Hp Hx.
  - destruct Hp as [BO Hu]. destruct (de_ai_at_ok s (s, d) l pos x (conj eq_refl Hu) Hx) as ([s' d'] & E & [<- Hu']).
    cbn [ai_at ai_uncheckedAt de_AtIndex]. rewrite E, bind_ok_l. split; eexists; (split; [done|by exists BO]).
  - destruct Hp as [BO Hu]. destruct (rd_ai_at_ok s (s, d) l pos x (conj eq_refl Hu) Hx) as ([s' d'] & E & [<- Hu']).
    cbn [ai_at ai_uncheckedAt rd_AtIndex]. rewrite E, bind_ok_l. split; eexists; (split; [done|by exists BO]).
  - destruct (@ai_at_ok _ _ na_AtIndexOk d l pos x Hp Hx) as (d' & -> & Hd'). destruct (@ai_uncheckedAt_ok _ _ na_AtIndexOk d l pos x Hp Hx) as (d2 & -> & Hd2).
    rewrite !bind_ok_l. split; eexists; (split; [reflexivity|done]).
  - destruct (@ai_at_ok _ _ stl_AtIndexOk v l pos x Hp Hx) as (d' & -> & Hd'). destruct (@ai_uncheckedAt_ok _ _ stl_AtIndexOk v l pos x Hp Hx) as (d2 & -> & Hd2).
    rewrite !bind_ok_l. split; eexists; (split; [reflexivity|done]).
Qed.

#[export] Program Instance p_AtIndexOk : AtIndexOk priv := {| ai_rep := p_ai_rep |}.
Next Obligation.
  intros [U B s d|U B s d|d|v] l; cbn [p_ai_rep]; [intros [BO Hu]|intros [BO Hu]|intros Hd|intros Hv].
  - exact (@ai_size_ok _ _ (de_AtIndexOk s) (s, d) l (conj eq_refl Hu)).
  - exact (@ai_size_ok _ _ (rd_AtIndexOk s) (s, d) l (conj eq_refl Hu)).
  - exact (@ai_size_ok _ _ na_AtIndexOk d l Hd).
  - exact (@ai_size_ok _ _ stl_AtIndexOk v l Hv).
Qed.
Next Obligation.
  intros [U B s d|U B s d|d|v] l; cbn [p_ai_rep]; [intros [BO Hu]|intros [BO Hu]|intros Hd|intros Hv].
  - exact (@ai_few _ _ (de_AtIndexOk s) (s, d) l (conj eq_refl Hu)).
  - exact (@ai_few _ _ (rd_AtIndexOk s) (s, d) l (conj eq_refl Hu)).
  - exact (@ai_few _ _ na_AtIndexOk d l Hd).
  - exact (@ai_few _ _ stl_AtIndexOk v l Hv).
Qed.
Next Obligation. intros p l pos x Hp Hx. by apply p_at_both. Qed.
Next Obligation. intros p l pos x Hp Hx. by apply p_at_both. Qed.

(** The generic operation on operands of different types. *)
Lemma p_execute_ok op (p q : priv) A B : op_wf op -> op_sized op -> p_rep p A -> p_rep q B -> zlen A + zlen B < 2 ^ 29 ->
  exists r, (d ← execute op p q; mret (Some (PNative d))) = Ok r /\
    match r with Some r => p_rep r (merge op A B) | None => merge op A B = [] end.
Proof.
  intros Hop Hsz (Hp & HA & HAi) (Hq & HB & HBi) Hn. pose proof (merge_ids op A B Hop HA HB HAi HBi) as Hids.
  destruct (@execute_ok _ _ p_AtIndexOk _ _ p_AtIndexOk op p q A B Hop Hsz Hp Hq HA HB Hids) as (r & -> & Hr); [lia|]. rewrite bind_ok_l.
  eexists. split; [done|]. split; [exact Hr|]. split; [by apply merge_spec|done].
Qed.

Lemma p_op_ok op (p q : priv) A B : op_wf op -> op_sized op -> p_rep p A -> p_rep q B -> A <> [] -> B <> [] ->
  zlen A + zlen B < 2 ^ 29 -> exists r, p_op op p q = Ok r /\
    match r with Some r => p_rep r (merge op A B) | None => merge op A B = [] end.
Proof.
  intros Hop Hsz Hp Hq HAn HBn Hn. pose proof (p_execute_ok op p q A B Hop Hsz Hp Hq Hn) as Hex.
  destruct Hp as (Hp & HA & HAi), Hq as (Hq & HB & HBi). pose proof (merge_ids op A B Hop HA HB HAi HBi) as Hids.
  destruct (merge_spec op A B Hop HA HB) as [Hs _].
  destruct p as [U B1 s x|U B1 s x|x|v], q as [V B2 t y|V B2 t y|y|w]; cbn [p_op]; try exact Hex; clear Hex; cbn [p_ai_rep] in *.
  - destruct Hp as [BO1 Hx], Hq as [BO2 Hy].
    destruct (genericOp_ok op s t x y A B (proj1 Hx) (proj1 Hy) HAn HBn Hn Hids) as (v & d & -> & Hu).
    rewrite bind_ok_l. eexists. split; [done|]. split; [by exists _|done].
  - destruct Hp as [BO1 Hx], Hq as [BO2 Hy].
    assert (ids31 (merge op A B)) as Hids31.
    { apply ids31_pushable; try done; [by apply (rd_usable_ids31 s x)|by apply (rd_usable_ids31 t y)]. }
    destruct (rd_genericOp_ok op s t x y A B Hx Hy HAn HBn Hn Hs Hids31) as (v & d & -> & Hu).
    rewrite bind_ok_l. eexists. split; [done|]. split; [by exists _|done].
  - destruct (na_genericSetOp_ok op x y A B Hsz Hp Hq Hids) as (r & -> & Hr); [lia|]. rewrite bind_ok_l.
    eexists. split; [done|]. by destruct r.
Qed.

#[export] Instance p_PrivIndexOk : PrivIndexOk priv.
Proof.
  refine {| priv_rep := p_rep; priv_op_ok := p_op_ok |}.
  - intros p l (_ & Hs & _). exact Hs.
  - intros p l (Hp & _). exact (@ai_size_ok _ _ p_AtIndexOk p l Hp).
Defined.

(** ** Observers *)

Lemma p_at_ok p l pos : p_ai_rep p l -> 0 <= pos -> exists p', p_at p pos = Ok (p', default 0 (l !! Z.to_nat pos)) /\ p_ai_rep p' l.
Proof.
  destruct p as [U B s d|U B s d|d|v]; cbn [p_at p_ai_rep]; intros Hp Hpos.
  - destruct Hp as [BO Hu]. destruct (usable_at s d l pos Hu Hpos) as (d' & E & Hu'). cbn [ai_at de_AtIndex]. unfold de_ai_at. cbn [fst snd].
    rewrite E, !bind_ok_l. eexists. split; [done|by exists BO].
  - destruct Hp as [BO Hu]. destruct (rd_at_ok s d l pos Hu Hpos) as (d' & E & Hu'). cbn [ai_at rd_AtIndex]. unfold rd_ai_at. cbn [fst snd].
    rewrite E, !bind_ok_l. eexists. split; [done|by exists BO].
  - cbn [ai_at na_AtIndex]. rewrite (na_at_ok d l pos Hp Hpos), !bind_ok_l. by eexists.
  - destruct Hp as [-> Hn]. cbn [ai_at stl_AtIndex]. rewrite stl_at_ok, !bind_ok_l by done. by eexists.
Qed.

Lemma as_words_ok ids : ids_ok ids -> as_words (length ids) (words ids) = ids.
Proof.
  induction 1 as [|x l Hx Hl IH]; [done|]. cbn [length as_words]. rewrite words_cons, take_app_length', drop_app_length' by (by rewrite length_le_bytes).
  rewrite le_val_le_bytes, IH. f_equal. by apply wrap_small.
Qed.

Lemma p_putInto_ok p l : p_ai_rep p l -> p_putInto p = Ok l.
Proof.
  destruct p as [U B s d|U B s d|d|v]; cbn [p_putInto p_ai_rep]; intros Hp.
  - destruct Hp as [BO Hu]. by apply de_putInto_ok, Hu.
  - destruct Hp as [BO Hu]. destruct (rd_usable_words s d l Hu) as (ws & Hw & ->). by apply rd_putInto_ok.
  - rewrite (na_putInto_ok d l Hp), bind_ok_l, (na_ok_size _ _ Hp), Nat2Z.id. unfold mret, result_ret. f_equal. apply as_words_ok, Hp.
  - destruct (@doPutInto_ok _ _ stl_AtIndexOk v l Hp) as (v' & -> & _). done.
Qed.

Lemma p_ends_ok p l : p_ai_rep p l -> l <> [] -> p_first p = Ok (default 0 (head l)) /\ p_last p = Ok (lastd 0 l).
Proof.
  intros Hp Hne. pose proof (@ai_size_ok _ _ p_AtIndexOk p l Hp) as Hs. pose proof (@ai_few _ _ p_AtIndexOk p l Hp) as Hf.
  cbn [ai_size p_AtIndex] in Hs. assert (0 < zlen l) by (destruct l; [done|cbn [length]; lia]).
  assert (default 0 (l !! Z.to_nat 0) = default 0 (head l)) as E0 by (by destruct l).
  assert (default 0 (l !! Z.to_nat (zlen l - 1)) = lastd 0 l) as E1 by (unfold lastd; rewrite last_lookup; do 2 f_equal; lia).
  destruct p as [U B s d|U B s d|d|v]; cbn [p_first p_last p_ai_rep p_size ai_size de_AtIndex rd_AtIndex na_AtIndex stl_AtIndex snd] in *.
  - destruct Hp as [BO Hu]. unfold de_first, de_last. rewrite Hs, (proj2 (Z.eqb_neq _ _)), (wrap_small 32 (zlen l - 1)) by (unfold fits; lia).
    destruct (usable_at s d l 0 Hu) as (d1 & -> & _); [lia|]. destruct (usable_at s d l (zlen l - 1) Hu) as (d2 & -> & _); [lia|].
    cbn [fmap result_fmap snd]. by rewrite E0, E1.
  - destruct Hp as [BO Hu]. unfold rd_first, rd_last. rewrite Hs, (proj2 (Z.eqb_neq _ _)), (wrap_small 32 (zlen l - 1)) by (unfold fits; lia).
    destruct (rd_at_ok s d l 0 Hu) as (d1 & -> & _); [lia|]. destruct (rd_at_ok s d l (zlen l - 1) Hu) as (d2 & -> & _); [lia|].
    cbn [fmap result_fmap snd]. by rewrite E0, E1.
  - split; [|by apply na_last_ok]. unfold na_first. rewrite (na_at_ok d l 0 Hp) by lia. by rewrite E0.
  - destruct Hp as [-> _]. unfold Stl.first, Stl.last. rewrite Hs, (proj2 (Z.eqb_neq _ _)) by lia.
    destruct (vget_lt l 0) as (x & -> & Hx); [lia|]. destruct (vget_lt l (zlen l - 1)) as (y & -> & Hy); [lia|].
    rewrite Hx in E0. rewrite Hy in E1. by rewrite <- E0, <- E1.
Qed.

Lemma ii_at_ok (i : index) l pos : ii_rep i l -> 0 <= pos ->
  exists i', ii_at i pos = Ok (i', default 0 (l !! Z.to_nat pos)) /\ ii_rep i' l.
Proof.
  destruct i as [p|]; cbn [ii_rep ii_at priv_rep p_PrivIndexOk]; [|intros -> _; by exists None].
  intros (Hp & Hs & Hi) Hpos. destruct (p_at_ok p l pos Hp Hpos) as (p' & -> & Hp'). rewrite bind_ok_l. by exists (Some p').
Qed.

Lemma ii_find_ok (i : index) l id : ii_rep i l -> exists i' r, ii_find i id = Ok (i', r) /\ ii_rep i' l /\
  (0 <= r < zlen l /\ r < max_u32 /\ l !! Z.to_nat r = Some id \/ r = max_u32 /\ id ∉ l).
Proof.
  destruct i as [p|]; cbn [ii_rep ii_find priv_rep p_PrivIndexOk].
  - intros (Hp & Hs & Hi). destruct (@find_ok _ _ p_AtIndexOk p l id Hp Hs) as (p' & r & -> & Hp' & Hr). rewrite bind_ok_l.
    exists (Some p'), r. split; [done|]. split; [done|]. pose proof (@ai_few _ _ p_AtIndexOk p l Hp). unfold max_u32 in *. naive_solver lia.
  - intros ->. exists None, max_u32. split; [done|]. split; [done|]. right. split; [done|apply not_elem_of_nil].
Qed.

(** ** The union in a vector *)

(** What is left of an operand of size [n] at the position [it]. *)
Definition at_left (i : index) (n it : Z) (rest : list Z) : Prop :=
  exists pre, ii_rep i (pre ++ rest) /\ n = zlen pre + zlen rest /\ it = zlen pre /\ n < 2 ^ 32.

Lemma at_left_start (i : index) l : ii_rep i l -> at_left i (ii_size i) 0 l.
Proof.
  intros Hi. exists []. rewrite (ii_size_ok i l Hi). cbn [app length]. split; [done|]. split; [lia|]. split; [done|].
  destruct i as [p|]; cbn in Hi; [exact (@ai_few _ _ p_AtIndexOk p l (proj1 Hi))|by subst].
Qed.

Lemma at_left_get (i : index) n it rest : at_left i n it rest ->
  exists i', ii_at i it = Ok (i', default 0 (head rest)) /\ at_left i' n it rest.
Proof.
  intros (pre & Hi & Hn & -> & Hf). destruct (ii_at_ok i _ (zlen pre) Hi) as (i' & -> & Hi'); [lia|].
  exists i'. split; [|by exists pre]. rewrite Nat2Z.id, lookup_app_r, Nat.sub_diag by lia. by destruct rest.
Qed.

Lemma at_left_skip (i : index) n it x rest : at_left i n it (x :: rest) -> at_left i n (u32 (it + 1)) rest.
Proof.
  intros (pre & Hi & Hn & -> & Hf). cbn [length] in Hn. rewrite wrap_small by (unfold fits; lia).
  exists (pre ++ [x]). rewrite <- app_assoc, length_app. cbn [length app]. split; [done|]. lia.
Qed.

Lemma at_left_more (i : index) n it rest : at_left i n it rest -> (it <? n) = bool_decide (rest <> []) /\ Z.to_nat (n - it) = length rest.
Proof.
  intros (pre & _ & -> & -> & _). split; [|lia]. destruct rest; cbn [length].
  - rewrite bool_decide_false by naive_solver. apply Z.ltb_ge. lia.
  - rewrite bool_decide_true by done. apply Z.ltb_lt. lia.
Qed.

Lemma uv_rest_ok rest (i : index) n it res : at_left i n it rest -> uv_rest (length rest) i it res = Ok (res ++ rest).
Proof.
  revert i it res. induction rest as [|x rest IH]; intros i it res Hi; cbn [uv_rest length]; [by rewrite app_nil_r|].
  destruct (at_left_get i n it _ Hi) as (i' & -> & Hi'). rewrite bind_ok_l, (IH i' _ _ (at_left_skip _ _ _ _ _ Hi')). by rewrite <- app_assoc.
Qed.

Lemma uv_loop_ok fuel (a b : index) n m it jt la lb res : at_left a n it la -> at_left b m jt lb ->
  (length la + length lb < fuel)%nat -> exists a' b' it' jt' la' lb' res',
  uv_loop fuel a b n m it jt (default 0 (head la)) (default 0 (head lb)) res = Ok (a', b', it', jt', res') /\
  at_left a' n it' la' /\ at_left b' m jt' lb' /\ (la' = [] \/ lb' = []) /\ res ++ merge UniteOp la lb = res' ++ merge UniteOp la' lb'.
Proof.
  revert a b it jt la lb res. induction fuel as [|fuel IH]; intros a b it jt la lb res Ha Hb Hf; [lia|]. cbn [uv_loop].
  destruct (at_left_more _ _ _ _ Ha) as [-> _]. destruct (at_left_more _ _ _ _ Hb) as [-> _].
  destruct la as [|x la]; [rewrite (bool_decide_false ([] <> [])) by naive_solver; by exists a, b, it, jt, [], lb, res; naive_solver|].
  destruct lb as [|y lb]; [rewrite (bool_decide_false ([] <> [])), andb_false_r by naive_solver; by exists a, b, it, jt, (x :: la), [], res; naive_solver|].
  rewrite !bool_decide_true by done. cbn [andb default head length id] in *. rewrite merge_cons.
  destruct (at_left_get _ _ _ _ (at_left_skip _ _ _ _ _ Ha)) as (a' & Ea & Ha'). destruct (at_left_get _ _ _ _ (at_left_skip _ _ _ _ _ Hb)) as (b' & Eb & Hb').
  destruct (Z.eqb_spec x y); [|destruct (Z.ltb_spec x y)]; cbn [pushEqual pushFirstSmaller pushSecondSmaller UniteOp].
  - rewrite Ea, bind_ok_l, Eb, bind_ok_l, app_assoc. apply IH; [done|done|lia].
  - rewrite Ea, bind_ok_l, app_assoc. apply (IH a' b _ _ la (y :: lb)); [done|done|cbn [length]; lia].
  - rewrite Eb, bind_ok_l, app_assoc. apply (IH a b' _ _ (x :: la) lb); [done|done|cbn [length]; lia].
Qed.

Lemma uniteWithVectorBackend_ok (a b : index) A B : ii_rep a A -> ii_rep b B -> uniteWithVectorBackend a b = Ok (Some (PStlVector (merge UniteOp A B))).
Proof.
  intros Ha%at_left_start Hb%at_left_start. unfold uniteWithVectorBackend.
  destruct (at_left_get _ _ _ _ Ha) as (a' & -> & Ha'). rewrite bind_ok_l. destruct (at_left_get _ _ _ _ Hb) as (b' & -> & Hb'). rewrite bind_ok_l.
  destruct (uv_loop_ok (Datatypes.S (Z.to_nat (ii_size a + ii_size b))) a' b' (ii_size a) (ii_size b) 0 0 A B [] Ha' Hb')
    as (a2 & b2 & it & jt & la & lb & res & -> & Ha2 & Hb2 & Hone & Heq).
  { pose proof (at_left_more _ _ _ _ Ha). pose proof (at_left_more _ _ _ _ Hb). destruct Ha as (? & _ & ? & ? & _), Hb as (? & _ & ? & ? & _). lia. }
  rewrite bind_ok_l. destruct (at_left_more _ _ _ _ Ha2) as [_ ->]. destruct (at_left_more _ _ _ _ Hb2) as [_ ->].
  rewrite (uv_rest_ok la a2 (ii_size a)), bind_ok_l, (uv_rest_ok lb b2 (ii_size b)), bind_ok_l by done.
  cbn [app] in Heq. rewrite Heq, <- app_assoc. do 4 f_equal. destruct Hone as [-> | ->]; [by destruct lb|]. by rewrite app_nil_r, merge_nil.
Qed.

(** * The properties *)

(** C9: intersection, union, difference and symmetric difference of two item indexes,
    empty ones included and of any of the types, the same or different, succeed and give an index whose ids are sorted and are exactly
    those of the operation on the sets. *)
Theorem item_index_ops (a b : index) A B :
  ii_rep a A -> ii_rep b B -> zlen A + zlen B < 2 ^ 29 ->
  (exists r C, ii_intersect a b = Ok r /\ ii_rep r C /\ sorted C /\ forall z, z ∈ C <-> z ∈ A /\ z ∈ B) /\
  (exists r C, ii_unite a b = Ok r /\ ii_rep r C /\ sorted C /\ forall z, z ∈ C <-> z ∈ A \/ z ∈ B) /\
  (exists r C, ii_difference a b = Ok r /\ ii_rep r C /\ sorted C /\ forall z, z ∈ C <-> z ∈ A /\ z ∉ B) /\
  (exists r C, ii_symmetricDifference a b = Ok r /\ ii_rep r C /\ sorted C /\
     forall z, z ∈ C <-> (z ∈ A /\ z ∉ B) \/ (z ∉ A /\ z ∈ B)).
Proof.
  intros Ha Hb Hn. destruct (ii_op_ok a b A B Ha Hb Hn) as ((r1 & E1 & R1) & (r2 & E2 & R2) & (r3 & E3 & R3) & (r4 & E4 & R4)).
  pose proof (ii_rep_sorted a A Ha) as HA. pose proof (ii_rep_sorted b B Hb) as HB.
  split; [|split; [|split]].
  - exists r1, (merge IntersectOp A B). split; [done|]. split; [done|]. split; [by eapply ii_rep_sorted|].
    intros z. by apply elem_of_intersect.
  - exists r2, (merge UniteOp A B). split; [done|]. split; [done|]. split; [by eapply ii_rep_sorted|].
    intros z. by apply elem_of_unite.
  - exists r3, (merge DifferenceOp A B). split; [done|]. split; [done|]. split; [by eapply ii_rep_sorted|].
    intros z. rewrite (proj2 (merge_spec DifferenceOp A B ltac:(done) HA HB)). unfold keeps. cbn. naive_solver.
  - exists r4, (merge SymmetricDifferenceOp A B). split; [done|]. split; [done|]. split; [by eapply ii_rep_sorted|].
    intros z. rewrite (proj2 (merge_spec SymmetricDifferenceOp A B ltac:(done) HA HB)). unfold keeps. cbn. naive_solver.
Qed.

(** C36: the intersection and the union of a nonempty list of item indexes, by a balanced
    tree when there are more than two, succeed and give an index of exactly the ids that
    all of them have, and of the ids that one of them has; this holds for every type of
    private index that keeps the promise of the interface. *)
Theorem item_index_trees {P : Type} `{PrivIndexOk P} (set : list (item_index P)) Ls :
  Forall2 ii_rep set Ls -> set <> [] -> zlen set < 2 ^ 32 -> zlen (concat Ls) < 2 ^ 29 ->
  (exists r C, ii_intersect_all set = Ok r /\ ii_rep r C /\ sorted C /\ forall z, z ∈ C <-> Forall (fun L => z ∈ L) Ls) /\
  (exists r C, ii_unite_all set = Ok r /\ ii_rep r C /\ sorted C /\ forall z, z ∈ C <-> Exists (fun L => z ∈ L) Ls).
Proof.
  intros Hrep Hne Hlen Hn. split.
  - destruct (ii_fold_ok ii_intersect IntersectOp and (fun Ls z => Forall (fun L => z ∈ L) Ls)) with (set := set) (Ls := Ls)
      as (r & C & Hr & HC & Hz); try done.
    + intros. tauto.
    + intros a b A B Ha Hb Hab. by apply (ii_op_ok a b A B).
    + intros A B z. apply elem_of_intersect.
    + intros A z. by rewrite Forall_singleton.
    + intros k l z. apply Forall_app.
    + exists r, C. split; [done|]. split; [done|]. split; [by eapply ii_rep_sorted|done].
  - destruct (ii_fold_ok ii_unite UniteOp or (fun Ls z => Exists (fun L => z ∈ L) Ls)) with (set := set) (Ls := Ls)
      as (r & C & Hr & HC & Hz); try done.
    + intros. tauto.
    + intros a b A B Ha Hb Hab. by apply (ii_op_ok a b A B).
    + intros A B z. apply elem_of_unite.
    + intros A z. rewrite Exists_cons, Exists_nil. tauto.
    + intros k l z. apply Exists_app.
    + exists r, C. split; [done|]. split; [done|]. split; [by eapply ii_rep_sorted|done].
Qed.

(** Three indexes over byte vectors. *)
Definition example_index (bytes : list Z) : result (index) :=
  d ← de_new (Vec.mk bytes) (mkUba 0 (zlen bytes) 0 0); mret (Some (PDe Vec.t _ (Vec.mk bytes) d)).

Definition bytes1 : list Z := [2; 0; 0; 0; 2; 0; 0; 0; 3; 4].
Definition bytes2 : list Z := [3; 0; 0; 0; 2; 0; 0; 0; 7; 165; 2].

Lemma example_rep bytes src : buf (Vec.mk bytes) (mkUba 0 (zlen bytes) 0 0) (de_bytes src ++ []) -> sorted src ->
  ids_ok src -> zlen src < 2 ^ 30 -> zlen (gap_bytes 0 src) < 2 ^ 32 ->
  exists i, example_index bytes = Ok i /\ ii_rep i src.
Proof.
  intros Hb Hs Hi Hn Hg. destruct (de_new_ok _ _ src [] Hb Hi Hn Hg) as (d & cl & Hnew & Hh & Hc).
  eexists. unfold example_index. rewrite Hnew, bind_ok_l. split; [reflexivity|].
  split; [|done]. exists Vec_ok. split; [exact Hh|]. by exists O, cl.
Qed.

(** A delta-coded and a vector index. *)
Lemma item_index_ops_witness : exists a r C,
  example_index bytes1 = Ok a /\ ii_symmetricDifference a (Some (PStlVector [7; 300])) = Ok r /\ ii_rep r C /\ 3 ∈ C /\ 7 ∉ C.
Proof.
  destruct (example_rep bytes1 [3; 7]) as (a & Ea & Ha);
    [split; [uba_wf_tac|reflexivity]|repeat first [lia|constructor]|repeat constructor; unfold fits; lia|cbn; lia|reflexivity|].
  destruct (item_index_ops a (Some (PStlVector [7; 300])) [3; 7] [7; 300] Ha) as (_ & _ & _ & r & C & Hr & HC & _ & Hz).
  - split; [split; [reflexivity|reflexivity]|]. split; [repeat first [lia|constructor]|repeat constructor; unfold fits; lia].
  - reflexivity.
  - exists a, r, C. split; [exact Ea|]. split; [exact Hr|]. split; [exact HC|].
    rewrite !Hz, !elem_of_cons, !elem_of_nil. split; [lia|]. lia.
Defined.

Lemma item_index_trees_witness : exists a b r C,
  example_index bytes1 = Ok a /\ example_index bytes2 = Ok b /\
  ii_intersect_all [a; b; a] = Ok r /\ ii_rep r C /\ 7 ∈ C /\ 3 ∉ C.
Proof.
  destruct (example_rep bytes1 [3; 7]) as (a & Ea & Ha);
    [split; [uba_wf_tac|reflexivity]|repeat first [lia|constructor]|repeat constructor; unfold fits; lia|cbn; lia|reflexivity|].
  destruct (example_rep bytes2 [7; 300]) as (b & Eb & Hb);
    [split; [uba_wf_tac|reflexivity]|repeat first [lia|constructor]|repeat constructor; unfold fits; lia|cbn; lia|reflexivity|].
  destruct (item_index_trees [a; b; a] [[3; 7]; [7; 300]; [3; 7]]) as ((r & C & Hr & HC & _ & Hz) & _).
  - repeat constructor; assumption.
  - discriminate.
  - reflexivity.
  - reflexivity.
  - exists a, b, r, C. split; [exact Ea|]. split; [exact Eb|]. split; [exact Hr|]. split; [exact HC|].
    rewrite !Hz, !Forall_cons, !elem_of_cons, !elem_of_nil. split; [|lia]. repeat split; try lia. constructor.
Defined.

(** The observers of an item index agree for every type: [at] gives the id at a
    position and 0 behind the end, [front] and [back] the smallest and the largest id,
    [toVector] all ids, [find] ends and gives the position of an id or [npos], and [count]
    says whether the id is there; none of them changes the index. *)
Theorem item_index_observers (i : index) l pos id : ii_rep i l -> 0 <= pos ->
  (exists i', ii_at i pos = Ok (i', default 0 (l !! Z.to_nat pos)) /\ ii_rep i' l) /\
  ii_toVector i = Ok l /\
  (exists i' r, ii_find i id = Ok (i', r) /\ ii_rep i' l /\
     (0 <= r < zlen l /\ l !! Z.to_nat r = Some id \/ r = max_u32 /\ id ∉ l)) /\
  (exists i', ii_count i id = Ok (i', if decide (id ∈ l) then 1 else 0) /\ ii_rep i' l) /\
  (l <> [] -> exists lo hi, ii_front i = Ok lo /\ ii_back i = Ok hi /\ lo ∈ l /\ hi ∈ l /\ forall z, z ∈ l -> lo <= z <= hi).
Proof.
  intros Hi Hpos. split; [by apply ii_at_ok|]. split; [|split; [|split]].
  - destruct i as [p|]; cbn in Hi |- *; [apply p_putInto_ok, Hi|by subst].
  - destruct (ii_find_ok i l id Hi) as (i' & r & Hr & Hi' & Hs). exists i', r. naive_solver.
  - destruct (ii_find_ok i l id Hi) as (i' & r & Hr & Hi' & Hs). unfold ii_count. rewrite Hr, bind_ok_l. exists i'. split; [|done].
    destruct Hs as [(_ & Hm & Hl)|[-> Hl]].
    + rewrite (proj2 (Z.eqb_neq _ _)) by lia. by rewrite decide_True by (by eapply list_elem_of_lookup_2).
    + by rewrite Z.eqb_refl, decide_False by done.
  - intros Hne. destruct i as [p|]; [|done]. destruct Hi as (Hp & Hs & _). destruct (p_ends_ok p l Hp Hne) as [Hlo Hhi].
    exists (default 0 (head l)), (lastd 0 l). split; [done|]. split; [done|]. destruct l as [|x l]; [done|]. change (default 0 (head (x :: l))) with x.
    destruct (sorted_cons x l Hs) as [_ Hx]. split; [left|]. split.
    + destruct (exists_last Hne) as (k & y & ->). rewrite lastd_snoc. apply elem_of_app. right. left.
    + intros z Hz. split; [|by apply (sorted_max (x :: l) z Hs)]. apply elem_of_cons in Hz as [->|Hz%Hx]; lia.
Qed.

Lemma item_index_observers_witness : exists i, example_index bytes2 = Ok i /\ ii_toVector i = Ok [7; 300] /\ ii_front i = Ok 7.
Proof.
  destruct (example_rep bytes2 [7; 300]) as (b & Eb & Hb);
    [split; [uba_wf_tac|reflexivity]|repeat first [lia|constructor]|repeat constructor; unfold fits; lia|cbn; lia|reflexivity|].
  destruct (item_index_observers b [7; 300] 0 7 Hb) as (_ & Hv & _ & _ & Hends); [lia|].
  destruct Hends as (lo & hi & Hlo & _ & Hin & _ & Hle); [discriminate|].
  exists b. split; [exact Eb|]. split; [exact Hv|]. rewrite Hlo. f_equal.
  assert (lo <= 7 <= hi) as ? by (apply Hle; left). apply elem_of_cons in Hin as [?|Hin%list_elem_of_singleton]; lia.
Defined.

(** [uniteWithVectorBackend] reads both operands by [at], which gives 0 behind the end,
    and returns a vector index of exactly the ids [operator+] gives. *)
Theorem unite_vector_backend (a b : index) A B : ii_rep a A -> ii_rep b B -> zlen A + zlen B < 2 ^ 29 ->
  exists r s C, uniteWithVectorBackend a b = Ok r /\ ii_unite a b = Ok s /\ ii_rep s C /\ ii_rep r C.
Proof.
  intros Ha Hb Hn. destruct (ii_op_ok a b A B Ha Hb Hn) as (_ & (s & Hs & Hrep) & _ & _).
  exists (Some (PStlVector (merge UniteOp A B))), s, (merge UniteOp A B).
  split; [by apply uniteWithVectorBackend_ok|]. split; [done|]. split; [done|]. pose proof (merge_length UniteOp A B).
  split; [by split; [|lia]|]. split; [by eapply ii_rep_sorted|].
  apply merge_ids; [done|by eapply ii_rep_sorted|by eapply ii_rep_sorted| |].
  - destruct a as [p|]; cbn in Ha; [apply Ha|subst; constructor].
  - destruct b as [p|]; cbn in Hb; [apply Hb|subst; constructor].
Qed.

Lemma unite_vector_backend_witness : exists r s,
  uniteWithVectorBackend (Some (PStlVector [3; 7])) (Some (PStlVector [5])) = Ok r /\
  ii_unite (Some (PStlVector [3; 7])) (Some (PStlVector [5])) = Ok s /\ ii_toVector r = Ok [3; 5; 7].
Proof.
  destruct (unite_vector_backend (Some (PStlVector [3; 7])) (Some (PStlVector [5])) [3; 7] [5]) as (r & s & C & Hr & Hs & _).
  - split; [split; [reflexivity|reflexivity]|]. split; [repeat first [lia|constructor]|repeat constructor; unfold fits; lia].
  - split; [split; [reflexivity|reflexivity]|]. split; [repeat first [lia|constructor]|repeat constructor; unfold fits; lia].
  - reflexivity.
  - exists r, s. split; [exact Hr|]. split; [exact Hs|]. vm_compute in Hr. injection Hr as <-. reflexivity.
Defined.

(** [fromBitSet] gives, for every type modelled, an index of exactly the set positions
    of the bit set, in order; the empty type drops them. *)
Theorem item_index_fromBitSet {S : Type} {B : Backend S} {BO : BackendOk S} (s : S) a l type :
  buf s a l -> zlen l < 2 ^ 28 -> zlen (set_positions (le_val l) 0 (8 * zlen l)) < 2 ^ 29 ->
  exists i, ii_fromBitSet s a type = Ok i /\
    ii_rep i (if decide (type = T_EMPTY) then [] else set_positions (le_val l) 0 (8 * zlen l)) /\
    forall z, z ∈ set_positions (le_val l) 0 (8 * zlen l) <-> 0 <= z < 8 * zlen l /\ Z.testbit (le_val l) z = true.
Proof.
  intros Hb Hl Hn. set (ps := set_positions (le_val l) 0 (8 * zlen l)) in *. unfold ii_fromBitSet. rewrite (buf_len _ _ _ Hb).
  assert (forall z, z ∈ ps <-> 0 <= z < 8 * zlen l /\ Z.testbit (le_val l) z = true) as Hin by (intros z; apply elem_of_set_positions).
  assert (sorted ps) as Hs by apply sorted_set_positions.
  assert (ids_ok ps) as Hi by (apply Forall_forall; intros z Hz%Hin; unfold fits; lia).
  destruct (Z.eqb_spec (zlen l) 0) as [E|E].
  { exists None. split; [done|]. split; [|done]. destruct l; [by destruct (decide _)|cbn [length] in E; lia]. }
  destruct type; first [rewrite decide_False by done|rewrite decide_True by done].
  - destruct (ItemIndexDE.fromBitSet_ok s a l Hb ltac:(lia) Hn) as (v & d & -> & Hu). rewrite bind_ok_l. eexists. split; [done|]. split; [|done]. split; [by exists Vec_ok|done].
  - destruct (rd_fromBitSet_ok s a l Hb Hl Hn) as (v & d & -> & Hu). rewrite bind_ok_l. eexists. split; [done|]. split; [|done]. split; [by exists Vec_ok|done].
  - rewrite (stl_fromBitSet_ok s a l Hb), bind_ok_l by lia. eexists. split; [done|]. split; [|done]. split; [split; [done|fold ps; lia]|done].
  - rewrite (stl_fromBitSet_ok s a l Hb), bind_ok_l by lia. eexists. split; [done|]. split; [|done]. split; [split; [done|fold ps; lia]|done].
  - exists None. done.
Qed.

Lemma item_index_fromBitSet_witness : exists i, ii_fromBitSet (Vec.mk [7; 129]) (mkUba 0 2 0 0) T_NATIVE = Ok i /\ ii_toVector i = Ok [0; 1; 2; 8; 15].
Proof.
  destruct (item_index_fromBitSet (Vec.mk [7; 129]) (mkUba 0 2 0 0) [7; 129] T_NATIVE) as (i & Hi & _).
  - split; [uba_wf_tac|reflexivity].
  - cbn. lia.
  - vm_compute. reflexivity.
  - exists i. split; [exact Hi|]. vm_compute in Hi. injection Hi as <-. reflexivity.
Defined.
