(* ===== verification/ItemIndexEF.v ===== *)
(** The Elias-Fano item index:
    [src/containers/ItemIndexPrivates/ItemIndexPrivateEliasFano.cpp] and its header.

    Of an id [x] at position [i] the number [x - i] is stored, which does not decrease: its
    lower bits in an array of that width, the differences of its upper bits in the unary code
    ([UnaryCode]).  How many bits are lower bits follows from the number of ids and an upper
    bound; the code computes the quotient of the two in floating point, which is the
    parameter [ratioLog2] here. *)

From stdpp Require Import sorting.
From S2P Require Import Prelude UtilMath PackUnpack Storage ByteArray ByteStream Bits CompactUintArray BitSets UnaryCode SetFuncs IndexOps ItemIndexNative ItemIndex.

(** * Sizes *)

Section sizes.
(** [std::floor( logTo2(upperBound) - logTo2(count) )] of the count and the bound *)
Context (ratioLog2 : Z -> Z -> Z).

Definition ef_numLowerBits (count upperBound : Z) : Z :=
  if count =? 0 then 0 else if upperBound <? count then 0 else ratioLog2 count upperBound.
End sizes.

(** The power of two from [largestElement - (count - 1)] on. *)
Definition ef_upperBoundOf (count largestElement : Z) : result Z :=
  let largestElement := u32 (largestElement - u32 (count - 1)) in
  m ← msb32 largestElement;
  let l2 := u32 (1 <<< m) in
  if l2 =? largestElement then Ok l2
  else if u32 (l2 <<< 1) =? 0 then Err StdDomainError
  else Ok (u32 (l2 <<< 1)).

Definition ef_upperBoundStorage (upperBound : Z) : result Z := msb32 upperBound.

(** [is_strong_monotone_ascending] *)
Fixpoint ascending (src : list Z) : bool :=
  match src with
  | x :: (y :: _) as src => (x <? y) && ascending src
  | _ => true
  end.

(** * The iterator *)

Record fit := mkFit {
  fi_lb : cua; fi_lbPos : Z; fi_ub : uit;
  fi_lastUb : Z; fi_baseValue : Z; fi_numLowerBits : Z
}.

Section iterator.
Context {S : Type} `{Backend S} (i128 : bool).
Implicit Types (s : S).

Definition fi_get s (it : fit) : result Z :=
  let ub := u32 (fi_lastUb it + ui_last (fi_ub it)) in
  if negb (fi_numLowerBits it =? 0) then
    lb ← cua_at i128 s (fi_lb it) (fi_lbPos it);
    mret (u32 (u64 ((u32 (ub <<< fi_numLowerBits it) ||| lb) + fi_baseValue it)))
  else mret (u32 (ub + fi_baseValue it)).

Definition fi_next s (it : fit) : result fit :=
  let lastUb := u32 (fi_lastUb it + ui_last (fi_ub it)) in
  let baseValue := u32 (fi_baseValue it + 1) in
  ub ← uc_next s (fi_ub it);
  mret (mkFit (fi_lb it) (u64 (fi_lbPos it + 1)) ub lastUb baseValue (fi_numLowerBits it)).

Definition fi_copy (it : fit) : fit :=
  mkFit (fi_lb it) (fi_lbPos it) (fi_ub it) (fi_lastUb it) 0 (fi_numLowerBits it).

(** [for(i = ...; i < m_size; ++i, ++it) *it] *)
Fixpoint fi_list (n : nat) s (it : fit) : result (list Z) :=
  match n with
  | O => Ok []
  | Datatypes.S n => x ← fi_get s it; it ← fi_next s it; r ← fi_list n s it; mret (x :: r)
  end.
Fixpoint fi_bits {T : Type} `{Backend T} (n : nat) s (it : fit) (t : T) (bits : uba) : result (T * uba) :=
  match n with
  | O => Ok (t, bits)
  | Datatypes.S n =>
      x ← fi_get s it; '(t, bits) ← dbs_set t bits x; it ← fi_next s it; fi_bits n s it t bits
  end.
End iterator.

(** * The index *)

Record ef := mkEf {
  ef_d : uba; ef_m_size : Z;
  ef_upperBoundBegin : Z; ef_lowerBitsBegin : Z; ef_upperBitsBegin : Z;
  ef_lowerBits : cua; ef_upperBits : uit;
  ef_it : fit; ef_cache : list Z
}.

Definition ef_cbegin (lb : cua) (ub : uit) : fit := mkFit lb 0 ub 0 0 (cua_bpn lb).

Section index.
Context {S : Type} `{Backend S} (i128 : bool) (ratioLog2 : Z -> Z -> Z).
Implicit Types (s : S) (e : ef).
Abbreviation numLowerBits := (ef_numLowerBits ratioLog2).

(** [upperBound()] and [upperBitsDataSize()] from the fields they read. *)
Definition ef_upperBoundAt s (d : uba) (size ubBegin : Z) : result Z :=
  if size =? 0 then Ok 0
  else
    '(v, _) ← uba_getVl VlUint32 s d ubBegin;
    if v <? 32 then Ok (u32 (1 <<< v)) else Err UndefinedBehaviour.
Definition ef_upperBitsDataSizeAt s (d : uba) (size ubBegin lbBegin : Z) : result Z :=
  if size =? 0 then Ok 0
  else
    ub ← ef_upperBoundAt s d size ubBegin;
    '(v, _) ← uba_getVl VlUint32 s d (u64 (lbBegin + minStorageBytes (numLowerBits size ub) size));
    mret v.

Definition ef_new s (d : uba) : result (S * ef) :=
  '(size, _) ← uba_getVl VlUint32 s d 0;
  n ← psize_vu32 size;
  let ubBegin := wrap 10 n in
  lbBegin ← (if size =? 0 then Ok ubBegin
             else
               ub ← ef_upperBoundAt s d size ubBegin;
               st ← ef_upperBoundStorage ub;
               n ← psize_vu32 st;
               mret (wrap 10 (ubBegin + n)));
  upBegin ← (if size =? 0 then Ok ubBegin
             else
               v ← ef_upperBitsDataSizeAt s d size ubBegin lbBegin;
               n ← psize_vu32 v;
               mret (wrap 10 n));
  totalSize ← (if size =? 0 then Ok ubBegin
               else
                 ub ← ef_upperBoundAt s d size ubBegin;
                 v ← ef_upperBitsDataSizeAt s d size ubBegin lbBegin;
                 mret (u64 (u64 (u64 (lbBegin + minStorageBytes (numLowerBits size ub) size) + upBegin) + v)));
  let '(s, d, _) := uba_resize s d totalSize in
  ub ← ef_upperBoundAt s d size ubBegin;
  let nlb := numLowerBits size ub in
  lb ← (if negb (size =? 0) && negb (nlb =? 0) then cua_new_max (uba_plus d lbBegin) nlb size else Ok (cua_empty 0));
  up ← (if negb (size =? 0)
        then ui_new s (uba_plus d (u64 (u64 (lbBegin + minStorageBytes nlb size) + upBegin)))
        else Ok ui_empty);
  mret (s, mkEf d size ubBegin lbBegin upBegin lb up (ef_cbegin lb up) []).

Definition ef_size e : Z := ef_m_size e.
Definition ef_upperBound s e : result Z := ef_upperBoundAt s (ef_d e) (ef_m_size e) (ef_upperBoundBegin e).
Definition ef_getSizeInBytes e : Z := m_len (ef_d e).
Definition ef_bpn e : result Z :=
  if negb (ef_size e =? 0) then n ← multiplyDiv64 i128 (ef_getSizeInBytes e) 8 (ef_size e); mret (u8 n) else Ok 255.

(** The loop of [at]: fills the cache. *)
Fixpoint ef_fill (fuel : nat) s e (pos : Z) : result ef :=
  match fuel with
  | O => Err OutOfFuel
  | Datatypes.S fuel =>
      if zlen (ef_cache e) <=? pos then
        x ← fi_get i128 s (ef_it e);
        it ← fi_next s (ef_it e);
        ef_fill fuel s (mkEf (ef_d e) (ef_m_size e) (ef_upperBoundBegin e) (ef_lowerBitsBegin e) (ef_upperBitsBegin e)
                          (ef_lowerBits e) (ef_upperBits e) it (ef_cache e ++ [x])) pos
      else Ok e
  end.
Definition ef_at s e (pos : Z) : result (ef * Z) :=
  if ef_m_size e <=? pos then Err StdOutOfRange
  else
    e ← ef_fill (Datatypes.S (Z.to_nat (ef_m_size e))) s e pos;
    v ← vget (ef_cache e) pos;
    mret (e, v).
Definition ef_first s e : result (ef * Z) := ef_at s e 0.
Definition ef_last s e : result (ef * Z) := ef_at s e (u32 (ef_m_size e - 1)).

Definition ef_ai_at (w : S * ef) (pos : Z) : result (S * ef * Z) :=
  '(e, x) ← ef_at (fst w) (snd w) pos; mret (fst w, e, x).
#[export] Instance ef_AtIndex : AtIndex (S * ef) := {| ai_size w := ef_size (snd w); ai_at := ef_ai_at; ai_uncheckedAt := ef_ai_at |}.

(** Both go on with a copy of the iterator of the cache. *)
Definition ef_putInto s e : result (list Z) :=
  if zlen (ef_cache e) <? ef_m_size e then
    r ← fi_list i128 (Z.to_nat (ef_m_size e - zlen (ef_cache e))) s (fi_copy (ef_it e));
    mret (ef_cache e ++ r)
  else Ok (ef_cache e).

Fixpoint ef_set_all {T : Type} `{Backend T} (ids : list Z) (t : T) (bits : uba) : result (T * uba) :=
  match ids with
  | [] => Ok (t, bits)
  | x :: ids => '(t, bits) ← dbs_set t bits x; ef_set_all ids t bits
  end.
Definition ef_putInto_bits {T : Type} `{Backend T} s e (t : T) (bits : uba) : result (T * uba) :=
  '(t, bits) ← ef_set_all (ef_cache e) t bits;
  if zlen (ef_cache e) <? ef_m_size e then
    fi_bits i128 (Z.to_nat (ef_m_size e - zlen (ef_cache e))) s (fi_copy (ef_it e)) t bits
  else Ok (t, bits).

(** ** Creating *)

(** [MyIterator] under the mask. *)
Fixpoint ef_low_values (mask i : Z) (src : list Z) : result (list Z) :=
  match src with
  | [] => Ok []
  | x :: src =>
      _ ← throw_if (x <? i) AssertionFailed;
      r ← ef_low_values mask (u32 (i + 1)) src;
      mret ((u32 (x - i) &&& mask) :: r)
  end.

Definition ef_put_lower s (dest : uba) (lowerBits : Z) (src : list Z) : result (S * uba) :=
  let spaceNeed := minStorageBytes lowerBits (zlen src) in
  let '(s, dest, ok) := reserveFromPutPtr s dest spaceNeed in
  if negb ok then Err IOException
  else
    carr ← setPrivate (shrinkToPutPtr dest) lowerBits;
    values ← ef_low_values (createMask lowerBits) 0 src;
    s ← cua_fill i128 s carr 0 values;
    mret (s, incPutPtr dest spaceNeed).

Fixpoint ef_put_gaps {T : Type} `{Backend T} (t : T) (d : uba) (ucc : ucc) (lowerBits i lastUpper : Z) (src : list Z) : result (T * uba * UnaryCode.ucc) :=
  match src with
  | [] => Ok (t, d, ucc)
  | x :: src =>
      _ ← throw_if (x <? i) AssertionFailed;
      let ub := u32 (x - i) >>> lowerBits in
      _ ← throw_if (ub <? lastUpper) AssertionFailed;
      '(t, d, ucc) ← uc_put t d ucc (u32 (ub - lastUpper));
      ef_put_gaps t d ucc lowerBits (u32 (i + 1)) ub src
  end.

Definition ef_create s (dest : uba) (src : list Z) : result (S * uba) :=
  _ ← throw_if (negb (ascending src)) AssertionFailed;
  srcSize ← narrow_u32 (zlen src);
  if srcSize =? 0 then '(s, dest, _) ← uba_sputVl VlUint32 s dest 0; mret (s, dest)
  else
    lastEntry ← narrow_u32 (lastd 0 src);
    upperBound ← ef_upperBoundOf srcSize lastEntry;
    let lowerBits := numLowerBits srcSize upperBound in
    '(s, dest, _) ← uba_sputVl VlUint32 s dest srcSize;
    st ← ef_upperBoundStorage upperBound;
    '(s, dest, _) ← uba_sputVl VlUint32 s dest st;
    '(s, dest) ← (if negb (lowerBits =? 0) then ef_put_lower s dest lowerBits src else Ok (s, dest));
    let '(v, up) := createCache srcSize in
    '(v, up, c) ← ef_put_gaps v up uc_new lowerBits 0 0 src;
    '(v, up) ← uc_flush v up c;
    let '(v, up, _) := uba_resize v up (m_putPtr up) in
    n ← narrow_u32 (m_putPtr up);
    '(s, dest, _) ← uba_sputVl VlUint32 s dest n;
    sputData_foreign s dest v up.
End index.

(** ** The creator *)

Record efc := mkEfc { efc_values : list Z }.
Definition efc_push_back (c : efc) (id : Z) : result efc :=
  _ ← throw_if (negb (zlen (efc_values c) =? 0) && (id <=? lastd 0 (efc_values c))) StdDomainError;
  mret (mkEfc (efc_values c ++ [id])).
#[export] Instance efc_IndexCreator : IndexCreator efc := efc_push_back.

(** [flush]; [m_putPtr] and the adapter are passed along. *)
Definition efc_flush {S : Type} `{Backend S} (i128 : bool) (ratioLog2 : Z -> Z -> Z) (s : S) (data : uba) (putPtr : Z) (c : efc) : result (S * uba) :=
  ef_create i128 ratioLog2 s (setPutPtr data putPtr) (efc_values c).
Definition efc_getPrivateIndex {S : Type} `{Backend S} (ratioLog2 : Z -> Z -> Z) (s : S) (data : uba) (putPtr : Z) : result (S * ef) :=
  ef_new ratioLog2 s (setGetPtr data putPtr).

(** ** Set operations *)

(** A position: the iterator, and the position of the end. *)
Record ef_pos (S : Type) := mkEfPos { ep_s : S; ep_it : fit; ep_end : Z }.
Arguments mkEfPos {S}.
Arguments ep_s {S}.
Arguments ep_it {S}.
Arguments ep_end {S}.

Section set_operations.
Context {S T : Type} `{Backend S} `{Backend T} (i128 : bool) (ratioLog2 : Z -> Z -> Z).

#[export] Instance ef_PosIter {U : Type} `{Backend U} : PosIter (ef_pos U) := {|
  pi_more p := negb (fi_lbPos (ep_it p) =? ep_end p);
  pi_get p := x ← fi_get i128 (ep_s p) (ep_it p); mret (p, x);
  pi_next p := it ← fi_next (ep_s p) (ep_it p); mret (mkEfPos (ep_s p) it (ep_end p));
|}.

Definition ef_begin {U : Type} (u : U) (e : ef) : ef_pos U :=
  mkEfPos u (ef_cbegin (ef_lowerBits e) (ef_upperBits e)) (u64 (0 + ef_m_size e)).

(** The bounds and sizes given to the creator are hints. *)
Definition ef_setOp (op : set_op) (s : S) (x : ef) (t : T) (y : ef) : result (Vec.t * ef) :=
  c ← exec (Datatypes.S (Z.to_nat (ef_m_size x + ef_m_size y))) op (mkEfc []) (ef_begin s x) (ef_begin t y);
  let '(v, data) := createCache 4 in
  '(v, data) ← efc_flush i128 ratioLog2 v data 0 c;
  efc_getPrivateIndex ratioLog2 v data 0.
End set_operations.

(** Any other operand goes to the generic operation of [ItemIndexPrivate]. *)
Definition ef_otherOp {S E : Type} `{Backend S} `{AtIndex E} (i128 : bool) (op : set_op) (s : S) (x : ef) (y : E) : result nat_idx :=
  @execute _ _ (ef_AtIndex i128) _ op (s, x) y.

(** [create] from the iterators of the bit set. *)
Definition ef_fromBitSet {S : Type} `{Backend S} (i128 : bool) (ratioLog2 : Z -> Z -> Z) (s : S) (bits : uba) : result (Vec.t * ef) :=
  let '(v, tmp) := createCache 4 in
  b ← iter_new s bits 0;
  e ← iter_new s bits (m_len bits);
  src ← iterate (Datatypes.S (Z.to_nat (8 * m_len bits))) s bits b e;
  '(v, tmp) ← ef_create i128 ratioLog2 v tmp src;
  ef_new ratioLog2 v (resetPtrs tmp).

(** * The numbers stored *)

Fixpoint shifted (i : Z) (src : list Z) : list Z :=
  match src with [] => [] | x :: src => x - i :: shifted (i + 1) src end.

(** They do not decrease. *)
Fixpoint rising (p : Z) (ys : list Z) : Prop :=
  match ys with [] => True | y :: ys => p <= y /\ rising y ys end.

(** The differences of the upper bits. *)
Fixpoint ef_gaps (lb p : Z) (ys : list Z) : list Z :=
  match ys with [] => [] | y :: ys => (y >>> lb) - (p >>> lb) :: ef_gaps lb y ys end.

Lemma length_shifted i src : length (shifted i src) = length src.
Proof. revert i. induction src; intros i; cbn; [done|by f_equal]. Qed.

Lemma length_gaps lb p ys : length (ef_gaps lb p ys) = length ys.
Proof. revert p. induction ys; intros p; cbn; [done|by f_equal]. Qed.

Lemma shifted_lookup i src (k : nat) x : src !! k = Some x -> shifted i src !! k = Some (x - (i + Z.of_nat k)).
Proof.
  revert i k. induction src as [|y src IH]; intros i [|k] Hk; cbn in *; [done|done|injection Hk as ->; f_equal; lia|].
  rewrite (IH _ _ Hk). f_equal. lia.
Qed.

Lemma lastd_shifted p i src : src <> [] -> lastd p (shifted i src) = lastd 0 src - (i + zlen src - 1).
Proof.
  revert p i. induction src as [|x src IH]; intros p i Hne; [done|]. cbn [shifted]. rewrite !lastd_cons.
  destruct src as [|y src]; [cbn; lia|]. rewrite (IH (x - i) (i + 1)) by done. rewrite !lastd_cons. cbn [length]. lia.
Qed.

Lemma rising_shifted src : sorted src -> forall p i, (forall x, head src = Some x -> p <= x - i) -> rising p (shifted i src).
Proof.
  induction src as [|x src IH]; intros Hs p i Hh; cbn [shifted rising]; [done|]. destruct (sorted_cons x src Hs) as [Hs' Hx].
  split; [by apply Hh|]. apply IH; [done|]. intros y Hy. destruct src as [|z src]; [done|]. injection Hy as ->.
  specialize (Hx y ltac:(left)). lia.
Qed.

Lemma rising_bound p ys : rising p ys -> p <= lastd p ys /\ Forall (fun y => p <= y <= lastd p ys) ys.
Proof.
  revert p. induction ys as [|y ys IH]; intros p; cbn [rising]; [split; [cbn; lia|constructor]|].
  intros [Hp Hr]. rewrite lastd_cons. destruct (IH y Hr) as [Hl Hf]. split; [lia|]. constructor; [lia|].
  eapply Forall_impl; [exact Hf|]. cbn beta. lia.
Qed.

Lemma shiftr_mono n x y : 0 <= n -> x <= y -> x >>> n <= y >>> n.
Proof. intros Hn Hxy. rewrite !Z.shiftr_div_pow2 by done. apply Z.div_le_mono; [apply Z.pow_pos_nonneg|]; lia. Qed.

Lemma shiftr_bound n y : 0 <= n -> 0 <= y -> 0 <= y >>> n <= y.
Proof.
  intros Hn Hy. rewrite Z.shiftr_div_pow2 by done. pose proof (Z.pow_pos_nonneg 2 n ltac:(lia) Hn).
  split; [apply Z.div_pos; lia|]. apply Z.div_le_upper_bound; nia.
Qed.

Lemma gaps_bound lb p ys : 0 <= lb -> 0 <= p -> rising p ys -> Forall (fun g => 0 <= g <= lastd p ys) (ef_gaps lb p ys).
Proof.
  intros Hlb. revert p. induction ys as [|y ys IH]; intros p H0; cbn [rising ef_gaps]; [constructor|]. intros [Hp Hr].
  destruct (rising_bound y ys Hr) as [Hl _]. rewrite lastd_cons. constructor; [|apply IH; done || lia].
  pose proof (shiftr_mono lb p y Hlb Hp). pose proof (shiftr_bound lb y Hlb ltac:(lia)). pose proof (shiftr_bound lb p Hlb ltac:(lia)). lia.
Qed.

Lemma cost_gaps lb p ys : 0 <= lb -> rising p ys -> cost (ef_gaps lb p ys) = zlen ys + (lastd p ys >>> lb) - (p >>> lb).
Proof.
  intros Hlb. revert p. induction ys as [|y ys IH]; intros p; cbn [rising ef_gaps].
  { change (lastd p []) with p. change (cost []) with 0. cbn [length]. lia. }
  intros [Hp Hr]. rewrite lastd_cons.
  match goal with |- cost (?g :: ?gs) = _ => change (g :: gs) with ([g] ++ gs) end. rewrite cost_app, IH by done.
  pose proof (shiftr_mono lb p y Hlb Hp). rewrite cost_one by lia. cbn [length]. lia.
Qed.

Lemma ascending_ok src : sorted src -> ascending src = true.
Proof.
  induction src as [|x src IH]; intros Hs; [done|]. destruct (sorted_cons x src Hs) as [Hs' Hx]. destruct src as [|y src]; [done|].
  cbn [ascending] in *. rewrite IH by done. rewrite (proj2 (Z.ltb_lt _ _)); [done|]. apply Hx. left.
Qed.

Lemma low_values_ok w src : 0 <= w <= 32 -> forall i, 0 <= i -> i + zlen src <= 2 ^ 32 -> ids_ok src -> rising 0 (shifted i src) ->
  ef_low_values (createMask w) i src = Ok (map (wrap w) (shifted i src)).
Proof.
  intros Hw. rewrite createMask_ones by lia. induction src as [|x src IH]; intros i Hi Hn Hids Hr; cbn [ef_low_values shifted map]; [done|].
  apply Forall_cons in Hids as [Hx Hids]. destruct Hr as [H0 Hr]. cbn [length] in Hn. unfold fits in Hx.
  rewrite (proj2 (Z.ltb_ge _ _)) by lia. cbn [throw_if]. rewrite bind_ok_l.
  assert (rising 0 (shifted (i + 1) src)) as Hr'.
  { destruct src as [|y src]; [done|]. cbn [shifted rising] in *. destruct Hr. split; [lia|done]. }
  destruct src as [|y src]; [cbn [ef_low_values shifted map]; rewrite bind_ok_l|].
  - rewrite land_ones_wrap, (wrap_small 32) by (unfold fits; lia). done.
  - rewrite (wrap_small 32 (i + 1)) by (unfold fits; cbn [length] in Hn; lia). rewrite IH by (done || lia). rewrite bind_ok_l.
    rewrite land_ones_wrap, (wrap_small 32 (x - i)) by (unfold fits; lia). done.
Qed.

Lemma put_gaps_eq {T : Type} `{Backend T} lb src : 0 <= lb -> forall (t : T) d c i p, 0 <= i -> i + zlen src <= 2 ^ 32 -> ids_ok src -> 0 <= p ->
  rising p (shifted i src) -> ef_put_gaps t d c lb i (p >>> lb) src = uc_put_all t d c (ef_gaps lb p (shifted i src)).
Proof.
  intros Hlb. induction src as [|x src IH]; intros t d c i p Hi Hn Hids H0 Hr; cbn [ef_put_gaps shifted ef_gaps uc_put_all]; [done|].
  apply Forall_cons in Hids as [Hx Hids]. destruct Hr as [Hp Hr]. cbn [length] in Hn. unfold fits in Hx.
  rewrite (proj2 (Z.ltb_ge x i)) by lia. cbn [throw_if]. rewrite bind_ok_l, (wrap_small 32 (x - i)) by (unfold fits; lia).
  pose proof (shiftr_mono lb p (x - i) Hlb Hp). pose proof (shiftr_bound lb (x - i) Hlb ltac:(lia)). pose proof (shiftr_bound lb p Hlb ltac:(lia)).
  rewrite (proj2 (Z.ltb_ge (_ >>> _) _)) by lia. cbn [throw_if]. rewrite bind_ok_l, (wrap_small 32 (_ - _)) by (unfold fits; lia).
  destruct (uc_put t d c _) as [[[t1 d1] c1]|]; [|done]. rewrite !bind_ok_l.
  destruct src as [|y src]; [done|]. rewrite (wrap_small 32 (i + 1)) by (unfold fits; cbn [length] in Hn; lia). apply IH; try done; lia.
Qed.

Lemma upperBoundOf_ok n v : 1 <= n < 2 ^ 32 -> v + (n - 1) < 2 ^ 32 -> 0 <= v <= 2 ^ 31 ->
  exists m, 0 <= m <= 31 /\ ef_upperBoundOf n (v + (n - 1)) = Ok (2 ^ m) /\ v <= 2 ^ m.
Proof.
  intros Hn Hf Hv. unfold ef_upperBoundOf. rewrite (wrap_small 32 (n - 1)), wrap_small by (unfold fits; lia).
  replace (v + (n - 1) - (n - 1)) with v by lia. rewrite msb32_log2, bind_ok_l by (unfold fits; lia).
  assert (0 <= Z.log2 v <= 31) as Hl.
  { split; [apply Z.log2_nonneg|]. transitivity (Z.log2 (2 ^ 31)); [apply Z.log2_le_mono; lia|by rewrite Z.log2_pow2]. }
  assert (2 ^ Z.log2 v <= 2 ^ 31) by (apply Z.pow_le_mono_r; lia). assert (0 < 2 ^ Z.log2 v) by (apply Z.pow_pos_nonneg; lia).
  rewrite Z.shiftl_1_l, (wrap_small 32 (2 ^ _)) by (unfold fits; lia).
  destruct (Z.eqb_spec (2 ^ Z.log2 v) v) as [E|E]; [exists (Z.log2 v); split; [lia|split; [done|lia]]|].
  assert (Z.log2 v <> 31 /\ v <= 2 ^ (Z.log2 v + 1)) as [Hne Hub].
  { destruct (Z.eqb_spec v 0) as [->|]; [split; [done|cbn; lia]|]. destruct (Z.log2_spec v ltac:(lia)) as [H1 H2]. split.
    - intros E31. rewrite E31 in *. lia.
    - rewrite <- Z.add_1_r in H2. lia. }
  rewrite Z.shiftl_mul_pow2 by lia. rewrite <- Z.pow_add_r by lia.
  assert (2 ^ (Z.log2 v + 1) <= 2 ^ 31) by (apply Z.pow_le_mono_r; lia). assert (0 < 2 ^ (Z.log2 v + 1)) by (apply Z.pow_pos_nonneg; lia).
  rewrite (wrap_small 32 (2 ^ _)) by (unfold fits; lia). rewrite (proj2 (Z.eqb_neq _ 0)) by lia.
  exists (Z.log2 v + 1). split; [lia|]. split; [done|lia].
Qed.

(** * The coded form *)

(** What can be coded: the largest id, less the number of ids in front of it, is at most 2^31. *)
Record encodable (src : list Z) : Prop := {
  en_sorted : sorted src;
  en_ids : ids_ok src;
  en_few : zlen src < 2 ^ 32;
  en_bound : lastd 0 src - (zlen src - 1) <= 2 ^ 31;
}.

(** The rounded quotient of the logarithms is below the width of an id. *)
Definition ratio_ok (ratioLog2 : Z -> Z -> Z) : Prop := forall c m, 0 <= m <= 31 -> 1 <= c <= 2 ^ m -> 0 <= ratioLog2 c (2 ^ m) < 32.

Section coded.
Context (i128 : bool) (ratioLog2 : Z -> Z -> Z) (Hratio : ratio_ok ratioLog2).
Abbreviation numLowerBits := (ef_numLowerBits ratioLog2).

(** The sections of the data, for the bound [2 ^ m]. *)
Definition ef_encodes (src bytes : list Z) : Prop :=
  match src with
  | [] => bytes = vl_bytes VlUint32 0
  | _ =>
      exists m lbody ubody (k : nat), 0 <= m <= 31 /\
        let lb := numLowerBits (zlen src) (2 ^ m) in
        bytes = vl_bytes VlUint32 (zlen src) ++ vl_bytes VlUint32 m ++ lbody ++ vl_bytes VlUint32 (zlen ubody) ++ ubody /\
        packs lb (map (wrap lb) (shifted 0 src)) lbody /\
        stream ubody = unary (ef_gaps lb 0 (shifted 0 src)) ++ zeros k /\ (k < 8)%nat
  end.

Lemma numLowerBits_ok n m : 0 < n -> 0 <= m <= 31 -> 0 <= numLowerBits n (2 ^ m) < 32.
Proof using Hratio.
  intros Hn Hm. unfold ef_numLowerBits. rewrite (proj2 (Z.eqb_neq n 0)) by lia. destruct (Z.ltb_spec (2 ^ m) n); [lia|].
  apply Hratio; lia.
Qed.

Lemma encodable_rising src : encodable src -> rising 0 (shifted 0 src) /\ lastd 0 (shifted 0 src) <= 2 ^ 31.
Proof using.
  intros [Hs Hi Hf Hb]. destruct src as [|x src]; [split; [done|cbn; lia]|]. rewrite lastd_shifted by done. split; [|lia].
  apply rising_shifted; [done|]. intros y [= <-]. apply Forall_inv in Hi. unfold fits in Hi. lia.
Qed.

Section create.
Context {S : Type} {B : Backend S} {BO : BackendOk S}.

Lemma put_lower_ok (s : S) a l lb src : buf s a l -> 0 <= m_putPtr a <= zlen l -> 1 <= lb <= 32 -> encodable src ->
  small_enough a l (zlen src * lb) ->
  exists s' a' body, ef_put_lower i128 s a lb src = Ok (s', a') /\ packs lb (map (wrap lb) (shifted 0 src)) body /\ pushed a l body s' a'.
Proof using BO.
  clear Hratio. intros Hb Hp Hlb Hen Hsm. set (ys := map (wrap lb) (shifted 0 src)).
  assert (zlen ys = zlen src) as Hys by (unfold ys; by rewrite length_map, length_shifted).
  destruct (cua_create_bits_ok i128 s a l ys lb Hb Hp) as (s' & a' & body & Hcr & Hpk & Hpu & _); [|lia|by rewrite Hys|].
  { apply Forall_forall. intros z Hz. unfold ys in Hz. apply list_elem_of_fmap in Hz as (y & -> & _).
    apply fits_mono with lb; [lia|]. apply wrap_fits. lia. }
  exists s', a', body. split; [|done]. pose proof (proj1 (encodable_rising src Hen)) as Hr. destruct Hen as [_ Hids Hfew _].
  revert Hcr. unfold cua_create_bits, ef_put_lower. rewrite Hys.
  destruct (reserveFromPutPtr s a _) as [[s1 a1] ok]. destruct ok; cbn [negb]; [|intros [= _ _ E]; lia].
  destruct (setPrivate _ _) as [c|]; [|done]. rewrite !bind_ok_l.
  rewrite low_values_ok by (done || lia). rewrite bind_ok_l. fold ys. destruct (cua_fill i128 s1 c 0 ys) as [s2|]; [|done].
  rewrite !bind_ok_l. unfold mret, result_ret. by intros [= -> ->].
Qed.

(** The upper bits, in memory of their own. *)
Lemma put_upper_ok lb src : 0 <= lb < 32 -> encodable src -> src <> [] ->
  exists v up ubody (k : nat),
    (let '(v, up) := createCache (zlen src) in
     '(v, up, c) ← ef_put_gaps v up uc_new lb 0 0 src;
     '(v, up) ← uc_flush v up c;
     let '(v, up, _) := uba_resize v up (m_putPtr up) in Ok (v, up)) = Ok (v, up) /\
    buf v up ubody /\ m_putPtr up = zlen ubody /\ zlen ubody < 2 ^ 31 /\
    stream ubody = unary (ef_gaps lb 0 (shifted 0 src)) ++ zeros k /\ (k < 8)%nat.
Proof using.
  clear Hratio. intros Hlb Hen Hne. destruct (encodable_rising src Hen) as [Hr Hl]. pose proof Hen as [_ Hids Hfew _].
  destruct (createCache_ok (zlen src)) as (v0 & up0 & Hcc & Hb0); [lia|lia|].
  assert (m_offSet up0 = 0 /\ m_putPtr up0 = 0) as [Ho Hp] by (unfold createCache in Hcc; by injection Hcc as <- <-).
  rewrite Hcc. pose proof (put_gaps_eq lb src ltac:(lia) v0 up0 uc_new 0 0 ltac:(lia) ltac:(lia) Hids ltac:(lia) Hr) as Hpg.
  rewrite Z.shiftr_0_l in Hpg. rewrite Hpg.
  set (gs := ef_gaps lb 0 (shifted 0 src)). set (l0 := replicate _ 0) in Hb0.
  assert (0 <= m_putPtr up0 <= zlen l0) as Hp0 by lia.
  assert (cost gs <= 2 ^ 32 + 2 ^ 31) as Hc.
  { unfold gs. rewrite cost_gaps, length_shifted, Z.shiftr_0_l by (done || lia).
    pose proof (shiftr_bound lb (lastd 0 (shifted 0 src)) ltac:(lia) (proj1 (rising_bound _ _ Hr))). lia. }
  destruct (uc_put_all_ok up0 l0 Hp0 gs v0 up0 uc_new []) as (v1 & up1 & c & -> & H1).
  { by apply uc_new_rep. }
  { pose proof (gaps_bound lb 0 _ ltac:(lia) ltac:(lia) Hr) as Hg. eapply Forall_impl; [exact Hg|]. intros g Hgg. cbn beta in Hgg. unfold fits. lia. }
  { change (cost []) with 0. lia. }
  rewrite bind_ok_l. destruct (uc_flush_ok up0 l0 Hp0 v1 up1 c _ H1) as (v2 & up2 & bs & k & -> & [Hb2 Ho2 Hg2 Hp2] & Hk & Hst).
  { cbn [app]. lia. }
  rewrite bind_ok_l. cbn [app] in Hst. fold gs in Hst. rewrite Hp, Z.add_0_l in Hp2. rewrite Hp in Hb2.
  assert (8 * zlen bs = cost gs + Z.of_nat k) as Hlen.
  { rewrite <- length_stream, Hst, length_app, length_replicate. unfold cost. lia. }
  destruct (uba_resize_ok v2 up2 _ (m_putPtr up2) Hb2) as (v3 & up3 & ext & Hre & Hb3 & Hm3 & Ho3 & He); [lia| |].
  { rewrite Ho2, Ho, zlen_splice_grow by lia. unfold l0. rewrite length_replicate. lia. }
  rewrite Hre. exists v3, up3, bs, k. split; [done|].
  assert (zlen (splice l0 0 bs) = Z.max (zlen l0) (0 + zlen bs)) as Hsl by (apply zlen_splice_grow; lia).
  assert (ext = []) as -> by (apply nil_length_inv; lia). rewrite app_nil_r, Hp2 in Hb3.
  assert (take (Z.to_nat (zlen bs)) (splice l0 0 bs) = bs) as Htk by (rewrite Nat2Z.id; unfold splice; change (take (Z.to_nat 0) l0) with (@nil Z); cbn [app]; apply take_app_length).
  rewrite Htk in Hb3. split; [done|]. split; [|split; [lia|done]].
  assert (m_putPtr up3 = m_putPtr up2) as ->; [|done]. pose proof (buf_len _ _ _ Hb2) as Hlen2. unfold uba_resize in Hre. rewrite Hlen2 in Hre.
  destruct (m_putPtr up2 <? zlen (splice l0 0 bs)).
  - injection Hre as _ <-. cbn [m_putPtr]. by rewrite Z.ltb_irrefl.
  - unfold growStorage in Hre. match type of Hre with (let (_, _) := ?x in _) = _ => destruct x as [v4 []] end; [by injection Hre as _ <-|done].
Qed.

(** Behind what was pushed. *)
Lemma pushed_next (s : S) a l bs a0 : 0 <= m_putPtr a0 <= zlen l -> pushed a0 l bs s a ->
  buf s a (splice l (m_putPtr a0) bs) /\ 0 <= m_putPtr a <= zlen (splice l (m_putPtr a0) bs) /\
  m_offSet a = m_offSet a0 /\ m_putPtr a = m_putPtr a0 + zlen bs /\ zlen (splice l (m_putPtr a0) bs) <= zlen l + zlen bs.
Proof using. clear Hratio. intros Hp [Hb Ho _ Hpp]. rewrite zlen_splice_grow by done. split; [done|]. lia. Qed.

Lemma packs_nil (ys : list Z) : packs 0 (map (wrap 0) ys) [].
Proof using.
  clear Hratio. split; [unfold minStorageBytes; by rewrite Z.mul_0_r|]. intros i v _. unfold field, wrap. by rewrite !Z.mod_1_r.
Qed.

Lemma ef_create_ok (s : S) dest l src : buf s dest l -> 0 <= m_putPtr dest <= zlen l -> encodable src ->
  m_offSet dest + zlen l < 2 ^ 59 ->
  exists s' dest' bytes, ef_create i128 ratioLog2 s dest src = Ok (s', dest') /\ ef_encodes src bytes /\ pushed dest l bytes s' dest'.
Proof using Hratio BO.
  intros Hb Hp Hen Hf. pose proof Hen as [Hs Hids Hfew Hbd]. pose proof (buf_fits _ _ _ Hb) as Hbf.
  unfold ef_create. rewrite ascending_ok by done. cbn [negb throw_if]. rewrite bind_ok_l, (narrow_u32_ok (zlen src)), bind_ok_l by (unfold fits; lia).
  destruct (Z.eqb_spec (zlen src) 0) as [E0|E0].
  { destruct src; [|cbn [length] in E0; lia]. pose proof (vl_bytes_len VlUint32 0 ltac:(unfold vl_ok, fits; lia)) as H0. cbn [vl_max_len] in H0.
    destruct (sput_vl VlUint32 0 s dest l) as (s1 & d1 & -> & H1); [unfold vl_ok, fits; lia|done|done|lia|]. rewrite bind_ok_l. by eexists _, _, _. }
  assert (src <> []) as Hne by (intros ->; done). destruct (encodable_rising src Hen) as [Hr Hmax]. destruct (rising_bound _ _ Hr) as [Hmin _].
  rewrite lastd_shifted in Hmin, Hmax by done. set (v := lastd 0 src - (zlen src - 1)) in *.
  assert (0 <= lastd 0 src < 2 ^ 32) as Hlast.
  { destruct (last src) as [x|] eqn:El; [|by apply last_None in El]. apply last_Some in El as [k El]. unfold ids_ok in Hids. rewrite El in *.
    rewrite lastd_snoc. by apply Forall_app in Hids as [_ [Hx _]%Forall_cons]. }
  rewrite (narrow_u32_ok (lastd 0 src)), bind_ok_l by exact Hlast. replace (lastd 0 src) with (v + (zlen src - 1)) by (subst v; lia).
  destruct (upperBoundOf_ok (zlen src) v) as (m & Hm & -> & Hvm); [lia|lia|lia|]. rewrite bind_ok_l.
  pose proof (numLowerBits_ok (zlen src) m ltac:(lia) Hm) as Hlb. set (lb := numLowerBits (zlen src) (2 ^ m)) in *.
  pose proof (vl_bytes_len VlUint32 (zlen src) ltac:(unfold vl_ok, fits; lia)) as Hl1. pose proof (vl_bytes_len VlUint32 m ltac:(unfold vl_ok, fits; lia)) as Hl2.
  cbn [vl_max_len] in Hl1, Hl2.
  destruct (sput_vl VlUint32 (zlen src) s dest l) as (s1 & d1 & -> & H1); [unfold vl_ok, fits; lia|done|done|lia|]. rewrite bind_ok_l.
  destruct (pushed_next s1 d1 l _ dest Hp H1) as (Hb1 & Hp1 & Ho1 & Hpp1 & Hz1). set (l1 := splice l _ _) in *.
  unfold ef_upperBoundStorage. assert (2 ^ m <= 2 ^ 31) by (apply Z.pow_le_mono_r; lia). assert (0 < 2 ^ m) by (apply Z.pow_pos_nonneg; lia).
  rewrite msb32_log2, bind_ok_l, Z.log2_pow2 by (unfold fits; lia).
  destruct (sput_vl VlUint32 m s1 d1 l1) as (s2 & d2 & -> & H2); [unfold vl_ok, fits; lia|done|done|lia|]. rewrite bind_ok_l.
  destruct (pushed_next s2 d2 _ _ d1 Hp1 H2) as (Hb2 & Hp2 & Ho2 & Hpp2 & Hz2). set (l2 := splice l1 _ _) in *.
  assert (0 <= zlen src * lb <= 2 ^ 32 * 32) as Hnl by nia.
  assert (exists s3 d3 lbody, (if negb (lb =? 0) then ef_put_lower i128 s2 d2 lb src else Ok (s2, d2)) = Ok (s3, d3) /\
    packs lb (map (wrap lb) (shifted 0 src)) lbody /\ pushed d2 l2 lbody s3 d3)
    as (s3 & d3 & lbody & -> & Hpk & H3).
  { destruct (Z.eqb_spec lb 0) as [->|Hlb0]; cbn [negb].
    - exists s2, d2, []. split; [done|]. split; [apply packs_nil|]. split; [|done|done|cbn; lia].
      unfold splice at 1. cbn [length app]. by rewrite Nat.add_0_r, take_drop.
    - apply put_lower_ok; try done; [lia|]. unfold small_enough. lia. }
  rewrite bind_ok_l. destruct (pushed_next s3 d3 _ _ d2 Hp2 H3) as (Hb3 & Hp3 & Ho3 & Hpp3 & Hz3). set (l3 := splice l2 _ _) in *.
  pose proof (packs_len _ _ _ Hpk) as Hpl. rewrite length_map, length_shifted in Hpl.
  destruct (minStorageBytes_ok lb (zlen src)) as (_ & _ & Hms); [lia|lia|lia|].
  destruct (put_upper_ok lb src Hlb Hen Hne) as (vv & up & ubody & k & Hup & Hbu & Hpu & Hlu & Hst & Hk).
  revert Hup. destruct (createCache (zlen src)) as [v0 up0]. destruct (ef_put_gaps v0 up0 uc_new lb 0 0 src) as [[[v1 up1] c1]|]; [|done].
  rewrite !bind_ok_l. destruct (uc_flush v1 up1 c1) as [[v2 up2]|]; [|done]. rewrite !bind_ok_l.
  destruct (uba_resize v2 up2 (m_putPtr up2)) as [[v3 up3] ok]. intros [= -> ->].
  rewrite Hpu, (narrow_u32_ok (zlen ubody)), bind_ok_l by (unfold fits; lia).
  pose proof (vl_bytes_len VlUint32 (zlen ubody) ltac:(unfold vl_ok, fits; lia)) as Hl4. cbn [vl_max_len] in Hl4.
  destruct (sput_vl VlUint32 (zlen ubody) s3 d3 l3) as (s4 & d4 & -> & H4); [unfold vl_ok, fits; lia|done|done|lia|]. rewrite bind_ok_l.
  destruct (pushed_next s4 d4 _ _ d3 Hp3 H4) as (Hb4 & Hp4 & Ho4 & Hpp4 & Hz4).
  destruct (sputData_foreign_ok s4 d4 _ vv up ubody Hb4) as (s5 & d5 & -> & H5); [lia|done|lia|].
  exists s5, d5, (vl_bytes VlUint32 (zlen src) ++ vl_bytes VlUint32 m ++ lbody ++ vl_bytes VlUint32 (zlen ubody) ++ ubody). split; [done|]. split.
  - destruct src as [|x src]; [done|]. exists m, lbody, ubody, k. split; [done|]. by split.
  - eapply pushed_app; [done|exact H1|]. eapply pushed_app; [done|exact H2|]. eapply pushed_app; [done|exact H3|]. by eapply pushed_app.
Qed.
End create.
End coded.

(** * The iterator *)

Lemma gaps_lookup lb p ys (k : nat) y : ys !! k = Some y ->
  ef_gaps lb p ys !! k = Some ((y >>> lb) - (lastd p (take k ys) >>> lb)).
Proof.
  revert p k. induction ys as [|z ys IH]; intros p [|k] Hk; cbn [lookup list_lookup ef_gaps take] in *; [done|done|by injection Hk as ->|].
  rewrite lastd_cons. exact (IH z k Hk).
Qed.

Lemma rising_take p zs (k : nat) q : zs !! k = Some q -> rising p zs -> p <= lastd p (take k zs) <= q.
Proof.
  revert p k. induction zs as [|z zs IH]; intros p [|k] Hk Hr; cbn [lookup list_lookup take] in *; [done|done| |].
  - injection Hk as ->. destruct Hr. change (lastd p []) with p. lia.
  - destruct Hr as [Hp Hr]. rewrite lastd_cons. specialize (IH z k Hk Hr). lia.
Qed.

Section iterating.
Context {S : Type} {B : Backend S} {BO : BackendOk S} (i128 : bool) (s : S).

(** The lower and upper bits of the ids [src]. *)
Record parts_ok (c : cua) (up : uit) (src : list Z) : Prop := {
  po_en : encodable src;
  po_nlb : 0 <= cua_bpn c < 32;
  po_low (i : nat) y : cua_bpn c <> 0 -> shifted 0 src !! i = Some y -> cua_at i128 s c (Z.of_nat i) = Ok (wrap (cua_bpn c) y);
  po_up : exists bs, buf s (ui_d up) bs /\ at_gaps (ui_d up) bs up (ef_gaps (cua_bpn c) 0 (shifted 0 src));
}.

(** The iterator is at position [k] and adds [base] to the number there. *)
Record it_at (c : cua) (up : uit) (src : list Z) (it : fit) (k : nat) (base : Z) : Prop := {
  ia_lb : fi_lb it = c;
  ia_pos : fi_lbPos it = Z.of_nat k;
  ia_nlb : fi_numLowerBits it = cua_bpn c;
  ia_last : fi_lastUb it = lastd 0 (take k (shifted 0 src)) >>> cua_bpn c;
  ia_base : fi_baseValue it = base;
  ia_up : exists bs, buf s (ui_d up) bs /\ at_gaps (ui_d up) bs (fi_ub it) (drop k (ef_gaps (cua_bpn c) 0 (shifted 0 src)));
}.

Context (c : cua) (up : uit) (src : list Z) (Hok : parts_ok c up src).
Abbreviation lb := (cua_bpn c).
Abbreviation ys := (shifted 0 src).

Lemma begin_at : it_at c up src (ef_cbegin c up) 0 0.
Proof using Hok. destruct Hok. split; try done. cbn [ef_cbegin fi_lastUb take]. change (lastd 0 []) with 0. by rewrite Z.shiftr_0_l. Qed.

(** A number is its upper and its lower bits. *)
Lemma join_bits (y : Z) : 0 <= y <= 2 ^ 31 -> u32 ((y >>> lb) <<< lb) ||| wrap lb y = y.
Proof using Hok.
  intros Hy. pose proof (po_nlb _ _ _ Hok). pose proof (shiftr_bound lb y ltac:(lia) ltac:(lia)).
  pose proof (wrap_div_mod lb y ltac:(lia)) as Hdm. pose proof (wrap_fits lb y ltac:(lia)) as Hw. unfold fits in Hw.
  rewrite (wrap_small 32) by (unfold fits; rewrite Z.shiftl_mul_pow2 by lia; lia).
  apply Z.bits_inj'. intros i Hi. rewrite Z.lor_spec, Z.shiftl_spec, testbit_wrap by lia.
  destruct (Z.ltb_spec i lb); cbn [andb].
  - rewrite Z.testbit_neg_r by lia. done.
  - rewrite Z.shiftr_spec, orb_false_r by lia. f_equal. lia.
Qed.

Lemma number_at (k : nat) x : src !! k = Some x ->
  ys !! k = Some (x - Z.of_nat k) /\ 0 <= x - Z.of_nat k <= 2 ^ 31 /\ fits 32 x /\ 0 <= lastd 0 (take k ys) <= x - Z.of_nat k.
Proof using Hok.
  intros Hx. pose proof (po_en _ _ _ Hok) as Hen. pose proof (encodable_rising src Hen) as [Hr Hmax].
  pose proof (shifted_lookup 0 src k x Hx) as Hy. rewrite Z.add_0_l in Hy. split; [done|].
  destruct (rising_bound _ _ Hr) as [_ Hf]. pose proof (Forall_lookup_1 _ _ _ _ Hf Hy) as Hb. cbn beta in Hb. split; [lia|].
  split; [exact (Forall_lookup_1 _ _ _ _ (en_ids _ Hen) Hx)|].
  exact (rising_take 0 ys k _ Hy Hr).
Qed.

Lemma fi_get_ok it (k : nat) base x : it_at c up src it k base -> src !! k = Some x -> 0 <= base <= Z.of_nat k ->
  fi_get i128 s it = Ok (x - Z.of_nat k + base).
Proof using Hok.
  intros [Hc Hp Hn Hl Hb (bs & _ & Hg)] Hx Hbase. destruct (number_at k x Hx) as (Hy & Hyb & Hx32 & Hpb). unfold fits in Hx32.
  pose proof (po_nlb _ _ _ Hok) as Hlb. rewrite (drop_S _ _ _ (gaps_lookup lb 0 ys k _ Hy)) in Hg. destruct Hg as [Hg _].
  unfold fi_get. rewrite Hn, Hg, Hl, Hb, Hc, Hp.
  replace (_ + (((x - Z.of_nat k) >>> lb) - _)) with ((x - Z.of_nat k) >>> lb) by lia.
  pose proof (shiftr_bound lb (x - Z.of_nat k) ltac:(lia) ltac:(lia)). rewrite (wrap_small 32 (_ >>> _)) by (unfold fits; lia).
  destruct (Z.eqb_spec lb 0) as [E|E]; cbn [negb].
  - rewrite E, Z.shiftr_0_r. rewrite wrap_small by (unfold fits; lia). done.
  - rewrite (po_low _ _ _ Hok k _ E Hy), bind_ok_l, join_bits by lia. rewrite (wrap_small 64), wrap_small by (rewrite ?wrap_small; unfold fits; lia). done.
Qed.

Lemma fi_next_ok it (k : nat) base : it_at c up src it k base -> (k < length src)%nat -> 0 <= base <= Z.of_nat k ->
  exists it', fi_next s it = Ok it' /\ it_at c up src it' (Datatypes.S k) (base + 1).
Proof using Hok BO.
  intros [Hc Hp Hn Hl Hb (bs & Hbuf & Hg)] Hk Hbase. destruct (lookup_lt_is_Some_2 src k Hk) as [x Hx].
  destruct (number_at k x Hx) as (Hy & Hyb & Hx32 & Hpb). pose proof (po_nlb _ _ _ Hok) as Hlb.
  pose proof (po_en _ _ _ Hok) as Hen. pose proof (en_few _ Hen) as Hfew. pose proof (encodable_rising src Hen) as [Hr Hmax].
  pose proof (gaps_lookup lb 0 ys k _ Hy) as Hgk. rewrite (drop_S _ _ _ Hgk) in Hg.
  destruct (at_gaps_next s (ui_d up) bs Hbuf (fi_ub it) _ _ Hg) as (ub & Hub & Hg').
  { apply Forall_drop. eapply Forall_impl; [exact (gaps_bound lb 0 ys ltac:(lia) ltac:(lia) Hr)|]. cbn beta. lia. }
  unfold fi_next. rewrite Hub, bind_ok_l. eexists. split; [done|]. destruct Hg as [Hg _].
  pose proof (shiftr_bound lb (x - Z.of_nat k) ltac:(lia) ltac:(lia)).
  split; cbn [fi_lb fi_lbPos fi_numLowerBits fi_lastUb fi_baseValue fi_ub]; try done.
  - rewrite Hp, wrap_small by (unfold fits; lia). lia.
  - rewrite Hg, Hl, (take_S_r _ _ _ Hy), lastd_snoc. rewrite wrap_small by (unfold fits; lia). lia.
  - rewrite Hb, wrap_small by (unfold fits; lia). done.
  - by exists bs.
Qed.

(** From position [k] on, the ids less the number of positions the base is behind. *)
Lemma fi_list_ok n it (k : nat) base : it_at c up src it k base -> (k + n <= length src)%nat -> 0 <= base <= Z.of_nat k ->
  fi_list i128 n s it = Ok (map (fun x => x - (Z.of_nat k - base)) (take n (drop k src))).
Proof using Hok BO.
  revert it k base. induction n as [|n IH]; intros it k base Hit Hn Hb; cbn [fi_list]; [done|].
  destruct (lookup_lt_is_Some_2 src k) as [x Hx]; [lia|]. rewrite (fi_get_ok it k base x Hit Hx Hb), bind_ok_l.
  destruct (fi_next_ok it k base Hit ltac:(lia) Hb) as (it' & -> & Hit'). rewrite bind_ok_l, (IH it' _ _ Hit') by lia.
  rewrite bind_ok_l, (drop_S _ _ _ Hx). cbn [take map]. unfold mret, result_ret. do 2 f_equal; [lia|].
  apply map_ext. intros z. lia.
Qed.

Lemma copy_at it k base : it_at c up src it k base -> it_at c up src (fi_copy it) k 0.
Proof using. clear Hok. intros []. by split. Qed.
End iterating.

(** * Opening *)

Section opening.
Context {S : Type} {B : Backend S} {BO : BackendOk S} (i128 : bool).

Lemma getVl_middle ty v (s : S) a pre rest : vl_ok ty v -> buf s a (pre ++ vl_bytes ty v ++ rest) ->
  uba_getVl ty s a (zlen pre) = Ok (v, zlen (vl_bytes ty v)).
Proof using.
  intros Hv. cbn [item_bytes]. destruct (vl_pack_ok ty v Hv) as (bs & Hl & _ & Hpk & Hu & _). rewrite (Hpk _ (proj2 Hl)). intros Hb.
  by apply (buf_getVl_middle ty s a pre bs rest v Hb).
Qed.

(** Opening a packed array at the start of a window. *)
Lemma cua_open_ok (s : S) a vals body rest w : buf s a (body ++ rest) -> packs w vals body -> 1 <= w <= 64 ->
  zlen vals * w < 2 ^ 64 - 8 -> 8 * zlen (body ++ rest) < 2 ^ 64 ->
  exists c, cua_new_max a w (zlen vals) = Ok c /\ cua_bpn c = w /\
    forall (i : nat) v, vals !! i = Some v -> cua_at i128 s c (Z.of_nat i) = Ok (wrap w v).
Proof using BO.
  intros Hb Hpk Hw Hn Hf. pose proof (buf_len _ _ _ Hb) as Hlen. pose proof (packs_len _ _ _ Hpk) as Hpl. rewrite length_app in Hlen, Hf.
  destruct (minStorageBytes_ok w (zlen vals)) as (Hm0 & Hm1 & Hm2); [lia|lia|lia|].
  destruct (setPrivate_ok a w Hw) as (k & Hset & Hk & Hkw); [lia|lia|]. unfold cua_new_max. rewrite Hset, bind_ok_l.
  rewrite (proj2 (Z.ltb_ge (m_len a) _)) by lia. eexists. split; [done|]. cbn [cua_kind_of m_data]. split; [exact Hkw|].
  intros i v Hi. pose proof (lookup_lt_Some _ _ _ Hi). unfold cua_at. cbn [m_maxCount cua_kind_of m_data].
  rewrite (proj2 (Z.leb_gt _ _)) by lia.
  assert ((Z.of_nat i + 1) * w <= zlen vals * w) by (apply Z.mul_le_mono_nonneg_r; lia).
  pose proof (buf_bytes _ _ _ Hb) as Hok.
  rewrite (priv_at_ok i128 k s a (body ++ rest) (Z.of_nat i) Hb Hok Hk), Hkw by (rewrite ?Hkw, ?length_app; lia).
  f_equal. rewrite <- (packs_at _ _ _ Hpk i v Hi). rewrite <- (take_app_length body rest) at 2. symmetry. apply field_take; try done; lia.
Qed.
End opening.

Section index.
Context (i128 : bool) (ratioLog2 : Z -> Z -> Z) (Hratio : ratio_ok ratioLog2).

(** The index holds the ids, and the first [k] of them are in the cache. *)
Record ef_holds {S : Type} {B : Backend S} {BO : BackendOk S} (s : S) (e : ef) (src : list Z) (k : nat) : Prop := {
  eh_parts : parts_ok i128 s (ef_lowerBits e) (ef_upperBits e) src;
  eh_size : ef_m_size e = zlen src;
  eh_cache : ef_cache e = take k src;
  eh_le : (k <= length src)%nat;
  eh_it : it_at s (ef_lowerBits e) (ef_upperBits e) src (ef_it e) k (Z.of_nat k);
}.

Section holding.
Context {S : Type} {B : Backend S} {BO : BackendOk S}.

Lemma holds_begin (s : S) c up src d ub lbb upb : parts_ok i128 s c up src ->
  ef_holds s (mkEf d (zlen src) ub lbb upb c up (ef_cbegin c up) []) src 0.
Proof using. clear Hratio. intros Hp. split; cbn [ef_lowerBits ef_upperBits ef_m_size ef_cache ef_it]; try done; [lia|]. by apply begin_at with (i128 := i128). Qed.

Lemma psize_vl v : fits 32 v -> psize_vu32 v = Ok (zlen (vl_bytes VlUint32 v)) /\ 1 <= zlen (vl_bytes VlUint32 v) <= 5.
Proof using. clear Hratio. intros Hv. split; [by apply vl_bytes_psize|]. apply (vl_bytes_len VlUint32). exact Hv. Qed.

Lemma ef_new_empty (s : S) d rest : buf s d (vl_bytes VlUint32 0 ++ rest) ->
  exists s' e, ef_new ratioLog2 s d = Ok (s', e) /\ ef_holds s' e [] 0 /\ ef_getSizeInBytes e = 1.
Proof using BO.
  intros Hb. assert (fits 32 0) as H0 by (unfold fits; lia). pose proof (buf_fits _ _ _ Hb) as Hf. assert (zlen (vl_bytes VlUint32 0) = 1) as H1 by done.
  unfold ef_new. rewrite (getVl_middle VlUint32 0 s d [] rest H0 Hb : uba_getVl VlUint32 s d 0 = _), bind_ok_l.
  rewrite (proj1 (psize_vl 0 H0)), bind_ok_l, H1. change (wrap 10 1) with 1. cbn [Z.eqb]. rewrite !bind_ok_l.
  destruct (uba_resize_ok s d _ 1 Hb) as (s' & d' & ext & -> & Hb' & Hl' & _); [lia|rewrite length_app in *; lia|].
  cbn [Z.eqb negb andb ef_upperBoundAt]. rewrite !bind_ok_l. eexists s', _. split; [done|]. split; [|done].
  apply (holds_begin s' (cua_empty 0) ui_empty []). split; try done.
  - split; [apply SSorted_nil|apply Forall_nil_2|done|cbn; lia].
  - exists []. split; [|done]. destruct Hb' as [[] _]. split; [|done]. split; cbn; try done; lia.
Qed.

(** The parts over the sections of the data. *)
Lemma parts_open (s : S) d n m lbody ubody k src : src <> [] -> n = zlen src -> 0 <= m <= 31 -> encodable src ->
  let lb := ef_numLowerBits ratioLog2 n (2 ^ m) in
  let b1 := vl_bytes VlUint32 n in let b2 := vl_bytes VlUint32 m in let b4 := vl_bytes VlUint32 (zlen ubody) in
  buf s d (b1 ++ b2 ++ lbody ++ b4 ++ ubody) -> zlen (b1 ++ b2 ++ lbody ++ b4 ++ ubody) < 2 ^ 40 ->
  packs lb (map (wrap lb) (shifted 0 src)) lbody -> stream ubody = unary (ef_gaps lb 0 (shifted 0 src)) ++ zeros k ->
  exists c up,
    (if negb (n =? 0) && negb (lb =? 0) then cua_new_max (uba_plus d (zlen b1 + zlen b2)) lb n else Ok (cua_empty 0)) = Ok c /\
    ui_new s (uba_plus d (zlen b1 + zlen b2 + zlen lbody + zlen b4)) = Ok up /\ parts_ok i128 s c up src.
Proof using Hratio BO.
  intros Hne -> Hm Hen lb b1 b2 b4 Hb Hlen Hpk Hst. assert (zlen src <> 0) as Hn0 by (destruct src; [done|cbn [length]; lia]).
  pose proof (numLowerBits_ok ratioLog2 Hratio (zlen src) m ltac:(lia) Hm) as Hlb. fold lb in Hlb.
  rewrite !length_app in Hlen. destruct (encodable_rising src Hen) as [Hr Hmax]. pose proof (en_few _ Hen) as Hfew.
  rewrite (proj2 (Z.eqb_neq (zlen src) 0)) by done. cbn [negb andb].
  assert (exists c, (if negb (lb =? 0) then cua_new_max (uba_plus d (zlen b1 + zlen b2)) lb (zlen src) else Ok (cua_empty 0)) = Ok c /\
    cua_bpn c = lb /\ forall (i : nat) y, lb <> 0 -> shifted 0 src !! i = Some y -> cua_at i128 s c (Z.of_nat i) = Ok (wrap lb y)) as (c & -> & Hcb & Hca).
  { destruct (Z.eqb_spec lb 0) as [E|E]; cbn [negb]; [exists (cua_empty 0); split; [done|split; [by rewrite E|done]]|].
    pose proof (uba_from_ok s d _ Hb (zlen b1 + zlen b2)) as Hw. rewrite !length_app in Hw. specialize (Hw ltac:(lia)).
    rewrite (app_assoc b1), drop_app_length' in Hw by (rewrite length_app; lia).
    set (vals := map (wrap lb) (shifted 0 src)) in *. assert (zlen vals = zlen src) as Hvl by (unfold vals; by rewrite length_map, length_shifted).
    destruct (cua_open_ok i128 s _ vals lbody _ lb Hw Hpk) as (c & Hnew & Hcb & Hca); [lia|nia|rewrite !length_app; lia|].
    rewrite Hvl in Hnew. exists c. split; [exact Hnew|]. split; [done|]. intros i y _ Hy.
    rewrite (Hca i (wrap lb y)); [by rewrite wrap_wrap|]. unfold vals. by rewrite list_lookup_fmap, Hy. }
  pose proof (uba_from_ok s d _ Hb (zlen b1 + zlen b2 + zlen lbody + zlen b4)) as Hw. rewrite !length_app in Hw. specialize (Hw ltac:(lia)).
  rewrite !app_assoc, drop_app_length' in Hw by (rewrite !length_app; lia).
  assert (Forall (fun g => 0 <= g < 2 ^ 32 - 8) (ef_gaps lb 0 (shifted 0 src))) as Hg.
  { eapply Forall_impl; [exact (gaps_bound lb 0 _ ltac:(lia) ltac:(lia) Hr)|]. cbn beta. lia. }
  destruct (ui_new_ok s _ ubody Hw _ k Hst Hg) as (up & Hup & Hat). exists c, up. split; [done|]. split; [done|].
  split; [done|by rewrite Hcb|by rewrite Hcb|]. exists ubody. rewrite Hcb.
  assert (ui_d up = uba_from d (zlen b1 + zlen b2 + zlen lbody + zlen b4)) as Hd; [|by rewrite Hd].
  destruct src as [|x src]; [done|]. cbn [shifted ef_gaps at_gaps] in Hat. destruct Hat as (_ & k' & [Hd _ _]). exact Hd.
Qed.

Lemma ef_new_ok (s : S) d bytes rest src : buf s d (bytes ++ rest) -> ef_encodes ratioLog2 src bytes -> encodable src ->
  exists s' e, ef_new ratioLog2 s d = Ok (s', e) /\ ef_holds s' e src 0 /\ ef_getSizeInBytes e = zlen bytes.
Proof using Hratio BO.
  intros Hb Henc Hen. destruct src as [|x0 src0] eqn:Esrc.
  { cbn in Henc. subst bytes. by eapply ef_new_empty. }
  rewrite <- Esrc in *. assert (src <> []) as Hne by (by rewrite Esrc). cbn [ef_encodes] in Henc. rewrite Esrc in Henc. cbn [ef_encodes] in Henc. rewrite <- Esrc in Henc.
  destruct Henc as (m & lbody & ubody & k & Hm & Henc). cbv zeta in Henc. destruct Henc as (Hbytes & Hpk & Hst & Hk).
  set (n := zlen src) in *. set (lb := ef_numLowerBits ratioLog2 n (2 ^ m)) in *.
  assert (n <> 0) as Hn0 by (unfold n; rewrite Esrc; cbn [length]; lia). pose proof (en_few _ Hen) as Hfew. fold n in Hfew.
  pose proof (numLowerBits_ok ratioLog2 Hratio n m ltac:(lia) Hm) as Hlb. fold lb in Hlb. destruct (encodable_rising src Hen) as [Hr Hmax].
  assert (fits 32 n /\ fits 32 m) as [Hfn Hfm] by (unfold fits; lia).
  pose proof (packs_len _ _ _ Hpk) as Hpl. rewrite length_map, length_shifted in Hpl. fold n in Hpl.
  destruct (minStorageBytes_ok lb n) as (_ & _ & Hms); [lia|lia|nia|].
  assert (zlen ubody < 2 ^ 31) as Hul.
  { pose proof (length_stream ubody) as Hl. rewrite Hst, length_app, length_replicate in Hl. fold (cost (ef_gaps lb 0 (shifted 0 src))) in Hl.
    assert (cost (ef_gaps lb 0 (shifted 0 src)) <= 2 ^ 32 + 2 ^ 31); [|unfold cost in *; lia].
    rewrite cost_gaps, length_shifted, Z.shiftr_0_l by (done || lia).
    pose proof (shiftr_bound lb (lastd 0 (shifted 0 src)) ltac:(lia) (proj1 (rising_bound _ _ Hr))). lia. }
  assert (fits 32 (zlen ubody)) as Hfu by (unfold fits; lia).
  destruct (psize_vl n Hfn) as [Hp1 Hl1]. destruct (psize_vl m Hfm) as [Hp2 Hl2]. destruct (psize_vl (zlen ubody) Hfu) as [Hp4 Hl4].
  set (b1 := vl_bytes VlUint32 n) in *. set (b2 := vl_bytes VlUint32 m) in *. set (b4 := vl_bytes VlUint32 (zlen ubody)) in *.
  assert (n * lb <= 2 ^ 32 * 32) as Hnl by nia.
  assert (zlen bytes = zlen b1 + zlen b2 + zlen lbody + zlen b4 + zlen ubody) as Hlb' by (rewrite Hbytes, !length_app; lia).
  assert (forall (u : S) a r, buf u a (bytes ++ r) -> uba_getVl VlUint32 u a 0 = Ok (n, zlen b1) /\
    ef_upperBoundAt u a n (zlen b1) = Ok (2 ^ m) /\
    ef_upperBitsDataSizeAt ratioLog2 u a n (zlen b1) (zlen b1 + zlen b2) = Ok (zlen ubody)) as Hread.
  { intros u a r Hu. rewrite Hbytes, <- !app_assoc in Hu. split; [exact (getVl_middle VlUint32 n u a [] _ Hfn Hu)|].
    assert (ef_upperBoundAt u a n (zlen b1) = Ok (2 ^ m)) as Hub.
    { unfold ef_upperBoundAt. rewrite (proj2 (Z.eqb_neq n 0)) by done. rewrite (getVl_middle VlUint32 m u a b1 _ Hfm Hu), bind_ok_l.
      rewrite (proj2 (Z.ltb_lt m 32)) by lia. rewrite Z.shiftl_1_l. assert (2 ^ m <= 2 ^ 31) by (apply Z.pow_le_mono_r; lia).
      rewrite wrap_small; [done|]. unfold fits. pose proof (Z.pow_pos_nonneg 2 m). lia. }
    split; [exact Hub|]. unfold ef_upperBitsDataSizeAt. rewrite (proj2 (Z.eqb_neq n 0)) by done. rewrite Hub, bind_ok_l. fold lb.
    rewrite <- Hpl, wrap_small by (unfold fits; lia).
    replace (zlen b1 + zlen b2 + zlen lbody) with (zlen (b1 ++ b2 ++ lbody)) by (rewrite !length_app; lia).
    assert (b1 ++ b2 ++ lbody ++ b4 ++ ubody ++ r = (b1 ++ b2 ++ lbody) ++ b4 ++ ubody ++ r) as Eq by (by rewrite <- !app_assoc). rewrite Eq in Hu.
    by rewrite (getVl_middle VlUint32 (zlen ubody) u a (b1 ++ b2 ++ lbody) _ Hfu Hu), bind_ok_l. }
  destruct (Hread s d rest Hb) as (R1 & R2 & R3).
  unfold ef_new. rewrite R1, bind_ok_l, Hp1, bind_ok_l. rewrite (wrap_small 10 (zlen b1)) by (unfold fits; lia).
  rewrite (proj2 (Z.eqb_neq n 0)) by done. rewrite !R2, !bind_ok_l. unfold ef_upperBoundStorage.
  assert (2 ^ m <= 2 ^ 31) by (apply Z.pow_le_mono_r; lia). assert (0 < 2 ^ m) by (apply Z.pow_pos_nonneg; lia).
  rewrite (msb32_log2 (2 ^ m)), bind_ok_l, Z.log2_pow2, Hp2, bind_ok_l by (unfold fits; lia).
  unfold mret, result_ret. rewrite bind_ok_l, (wrap_small 10 (_ + _)) by (unfold fits; lia).
  rewrite !R3, !bind_ok_l, Hp4, !bind_ok_l. rewrite (wrap_small 10 (zlen b4)) by (unfold fits; lia). fold lb. rewrite <- Hpl.
  rewrite (wrap_small 64 (zlen b1 + _ + _)), (wrap_small 64 (_ + zlen b4)), (wrap_small 64 (_ + zlen ubody)) by (unfold fits; lia).
  rewrite <- Hlb'. pose proof (buf_fits _ _ _ Hb) as Hbf. rewrite length_app in Hbf.
  destruct (uba_resize_ok s d _ (zlen bytes) Hb) as (s' & d' & ext & -> & Hb' & Hl' & _ & He); [lia|rewrite length_app; lia|].
  rewrite length_app in He. assert (ext = []) as -> by (apply nil_length_inv; lia). rewrite Nat2Z.id, take_app_length, app_nil_r in Hb'.
  destruct (Hread s' d' []) as (_ & R2' & _); [by rewrite app_nil_r|]. rewrite R2', bind_ok_l. fold lb.
  destruct (parts_open s' d' n m lbody ubody k src Hne eq_refl Hm Hen) as (c & up & Hc & Hup & Hparts).
  { fold b1 b2 b4. by rewrite <- Hbytes. }
  { fold b1 b2 b4. rewrite <- Hbytes. lia. }
  { exact Hpk. }
  { exact Hst. }
  fold lb b1 b2 b4 in Hc, Hup. rewrite (proj2 (Z.eqb_neq n 0)) in Hc by done. cbn [negb andb] in Hc |- *.
  rewrite Hc, !bind_ok_l, <- Hpl, (wrap_small 64 (_ + zlen lbody)), (wrap_small 64 (_ + zlen b4)) by (unfold fits; lia). rewrite Hup, bind_ok_l.
  eexists s', _. split; [done|]. split; [by apply holds_begin|]. unfold ef_getSizeInBytes. cbn [ef_d]. lia.
Qed.

(** ** Lookups *)

Lemma ef_fill_ok fuel (s : S) e src k pos : ef_holds s e src k -> 0 <= pos < zlen src -> Z.max 0 (pos - Z.of_nat k + 1) < Z.of_nat fuel ->
  exists e' k', ef_fill i128 fuel s e pos = Ok e' /\ ef_holds s e' src k' /\ Z.of_nat k' = Z.max (Z.of_nat k) (pos + 1).
Proof using BO.
  clear Hratio. revert e k. induction fuel as [|fuel IH]; intros e k Hh Hp Hf; [lia|]. cbn [ef_fill]. pose proof Hh as [Hpa Hsz Hca Hle Hit].
  rewrite Hca, length_take, Nat.min_l by done. destruct (Z.leb_spec (Z.of_nat k) pos) as [Hkp|Hkp]; [|exists e, k; split; [done|split; [done|lia]]].
  destruct (lookup_lt_is_Some_2 src k) as [x Hx]; [lia|].
  rewrite (fi_get_ok i128 s _ _ src Hpa (ef_it e) k _ x Hit Hx), bind_ok_l by lia.
  destruct (fi_next_ok i128 s _ _ src Hpa (ef_it e) k _ Hit) as (it' & -> & Hit'); [lia|lia|]. rewrite bind_ok_l.
  replace (x - Z.of_nat k + Z.of_nat k) with x by lia.
  match goal with |- exists e' k', ef_fill _ _ _ ?e1 _ = _ /\ _ => assert (ef_holds s e1 src (Datatypes.S k)) as Hh1 end.
  { split; cbn [ef_lowerBits ef_upperBits ef_m_size ef_cache ef_it]; [done|done|by rewrite (take_S_r _ _ _ Hx)|lia|].
    by replace (Z.of_nat (Datatypes.S k)) with (Z.of_nat k + 1) by lia. }
  destruct (IH _ (Datatypes.S k) Hh1) as (e' & k' & E & Hh' & Hk'); [lia|lia|]. exists e', k'. split; [exact E|]. split; [done|lia].
Qed.

Lemma ef_at_ok (s : S) e src k pos x : ef_holds s e src k -> 0 <= pos -> src !! Z.to_nat pos = Some x ->
  exists e' k', ef_at i128 s e pos = Ok (e', x) /\ ef_holds s e' src k' /\ Z.of_nat k' = Z.max (Z.of_nat k) (pos + 1).
Proof using BO.
  clear Hratio. intros Hh Hp Hx. pose proof (lookup_lt_Some _ _ _ Hx). pose proof (eh_size _ _ _ _ Hh) as Hsz. unfold ef_at. rewrite Hsz.
  rewrite (proj2 (Z.leb_gt _ _)) by lia. pose proof (eh_le _ _ _ _ Hh).
  destruct (ef_fill_ok (Datatypes.S (Z.to_nat (zlen src))) s e src k pos Hh) as (e' & k' & -> & Hh' & Hk'); [lia|lia|]. rewrite bind_ok_l.
  assert (vget (ef_cache e') pos = Ok x) as ->.
  { apply vget_ok. split; [done|]. rewrite (eh_cache _ _ _ _ Hh'), lookup_take_lt by lia. done. }
  rewrite bind_ok_l. by exists e', k'.
Qed.

Lemma ef_at_out (s : S) e src k pos : ef_holds s e src k -> zlen src <= pos -> ef_at i128 s e pos = Err StdOutOfRange.
Proof using. clear Hratio. intros [_ Hsz _ _ _] Hp. unfold ef_at. rewrite Hsz. by rewrite (proj2 (Z.leb_le _ _)). Qed.

(** Copying the ids: those behind the cache come out too small, by the number of ids in the
    cache. *)
Definition copied (k : nat) (src : list Z) : list Z := take k src ++ map (fun x => x - Z.of_nat k) (drop k src).

Lemma ef_putInto_ok (s : S) e src k : ef_holds s e src k -> ef_putInto i128 s e = Ok (copied k src).
Proof using BO.
  clear Hratio. intros [Hpa Hsz Hca Hle Hit]. unfold ef_putInto, copied. rewrite Hsz, Hca, length_take, Nat.min_l by done.
  destruct (Z.ltb_spec (Z.of_nat k) (zlen src)).
  - rewrite (fi_list_ok i128 s _ _ src Hpa _ _ k 0 (copy_at s _ _ src _ k _ Hit)) by lia.
    rewrite bind_ok_l. rewrite (take_ge (drop k src)) by (rewrite length_drop; lia). by rewrite Z.sub_0_r.
  - rewrite (drop_ge src) by lia. by rewrite app_nil_r.
Qed.

Section into_bits.
Context {T : Type} {BT : Backend T} {BOT : BackendOk T}.
Implicit Types (t : T).

Lemma set_all_ok ids t bits l : buf t bits l -> Forall (fun p => 0 <= p < 2 ^ 32 /\ p < 8 * zlen l) ids ->
  exists t' l', ef_set_all ids t bits = Ok (t', bits) /\ buf t' bits l' /\ length l' = length l /\ le_val l' = set_bits (le_val l) ids.
Proof using BOT.
  clear Hratio. revert t l. induction ids as [|x ids IH]; intros t l Hb Hps; cbn [ef_set_all]; [by exists t, l|].
  apply Forall_cons in Hps as [Hx Hps]. destruct (dbs_set_in t bits l x Hb) as (t1 & l1 & -> & Hb1 & Hl1 & Hv1); [lia|lia|]. rewrite bind_ok_l.
  destruct (IH t1 l1 Hb1) as (t2 & l2 & -> & Hb2 & Hl2 & Hv2); [by rewrite Hl1|]. exists t2, l2.
  split; [done|]. split; [done|]. split; [congruence|]. by rewrite Hv2, Hv1.
Qed.

Lemma fi_bits_eq (s : S) n it t bits : fi_bits i128 n s it t bits =
  match fi_list i128 n s it with Ok ids => ef_set_all ids t bits | Err e => fi_bits i128 n s it t bits end.
Proof using.
  clear Hratio. revert it t bits. induction n as [|n IH]; intros it t bits; cbn [fi_bits fi_list]; [done|].
  destruct (fi_get i128 s it) as [x|]; [|done]. rewrite !bind_ok_l. destruct (fi_next s it) as [it'|] eqn:En.
  - rewrite !bind_ok_l. destruct (fi_list i128 n s it') as [r|] eqn:El; [|done]. rewrite bind_ok_l. unfold mret, result_ret. cbn [ef_set_all].
    destruct (dbs_set t bits x) as [[t1 b1]|]; [|done]. rewrite !bind_ok_l. rewrite IH, El. done.
  - done.
Qed.

Lemma ef_putInto_bits_ok (s : S) e src k t bits l : ef_holds s e src k -> buf t bits l ->
  Forall (fun p => 0 <= p < 2 ^ 32 /\ p < 8 * zlen l) (copied k src) ->
  exists t' l', ef_putInto_bits i128 s e t bits = Ok (t', bits) /\ buf t' bits l' /\ length l' = length l /\
    le_val l' = set_bits (le_val l) (copied k src).
Proof using BO BOT.
  clear Hratio. intros [Hpa Hsz Hca Hle Hit] Hb Hps. unfold ef_putInto_bits, copied in *. apply Forall_app in Hps as [Hp1 Hp2].
  rewrite Hsz, Hca. destruct (set_all_ok (take k src) t bits l Hb Hp1) as (t1 & l1 & -> & Hb1 & Hl1 & Hv1). rewrite bind_ok_l, length_take, Nat.min_l by done.
  rewrite set_bits_app, <- Hv1. destruct (Z.ltb_spec (Z.of_nat k) (zlen src)).
  - rewrite fi_bits_eq, (fi_list_ok i128 s _ _ src Hpa _ _ k 0 (copy_at s _ _ src _ k _ Hit)) by lia.
    rewrite (take_ge (drop k src)) by (rewrite length_drop; lia). rewrite Z.sub_0_r.
    destruct (set_all_ok (map (fun x => x - Z.of_nat k) (drop k src)) t1 bits l1 Hb1) as (t2 & l2 & -> & Hb2 & Hl2 & Hv2); [by rewrite Hl1|].
    exists t2, l2. split; [done|]. split; [done|]. split; [congruence|done].
  - rewrite (drop_ge src) by lia. by exists t1, l1.
Qed.
End into_bits.

Definition ef_usable (s : S) (e : ef) (src : list Z) : Prop := exists k, ef_holds s e src k.

Definition ef_ai_rep (s : S) (w : S * ef) (src : list Z) : Prop := fst w = s /\ ef_usable s (snd w) src.

Lemma ef_ai_at_ok s (w : S * ef) l (pos : nat) x : ef_ai_rep s w l -> l !! pos = Some x ->
  exists w', ef_ai_at i128 w (Z.of_nat pos) = Ok (w', x) /\ ef_ai_rep s w' l.
Proof using BO.
  clear Hratio. destruct w as [s' e]. intros [E (k & Hh)] Hx. cbn in E, Hh. subst s'.
  destruct (ef_at_ok s e l k (Z.of_nat pos) x Hh) as (e' & k' & Ha & Hh' & _); [lia|by rewrite Nat2Z.id|].
  unfold ef_ai_at. cbn [fst snd]. rewrite Ha, bind_ok_l. exists (s, e'). split; [done|]. split; [done|by exists k'].
Qed.

Program Definition ef_AtIndexOk (s : S) : @AtIndexOk (S * ef) (ef_AtIndex i128) := {| ai_rep := ef_ai_rep s |}.
Next Obligation. intros s [s' e] l [_ (k & Hh)]. exact (eh_size _ _ _ _ Hh). Qed.
Next Obligation. intros s [s' e] l [_ (k & Hh)]. exact (en_few _ (po_en _ _ _ _ _ (eh_parts _ _ _ _ Hh))). Qed.
Next Obligation. exact ef_ai_at_ok. Qed.
Next Obligation. exact ef_ai_at_ok. Qed.

(** ** Positions *)

Definition ef_pos_rep (p : ef_pos S) (l : list Z) : Prop :=
  exists c up src k, parts_ok i128 (ep_s p) c up src /\ it_at (ep_s p) c up src (ep_it p) k (Z.of_nat k) /\ (k <= length src)%nat /\
    ep_end p = zlen src /\ l = drop k src.

Program Definition ef_PosIterOk : @PosIterOk (ef_pos S) (ef_PosIter i128) := {| pi_rep := ef_pos_rep |}.
Next Obligation.
  intros p l (c & up & src & k & Hpa & Hit & Hk & He & ->). cbn [pi_more ef_PosIter]. rewrite He, (ia_pos _ _ _ _ _ _ _ Hit).
  destruct (decide (k = length src)) as [->|Hne].
  - rewrite Z.eqb_refl, drop_all. by rewrite bool_decide_false by naive_solver.
  - rewrite (proj2 (Z.eqb_neq _ _)) by lia. rewrite bool_decide_true; [done|]. intros E. apply (f_equal length) in E.
    rewrite length_drop in E. cbn [length] in E. lia.
Qed.
Next Obligation.
  intros p x l (c & up & src & k & Hpa & Hit & Hk & He & Hl). cbn [pi_get ef_PosIter].
  assert (src !! k = Some x) as Hx by (rewrite <- (Nat.add_0_r k), <- lookup_drop, <- Hl; done).
  rewrite (fi_get_ok i128 _ _ _ src Hpa _ k _ x Hit Hx), bind_ok_l by lia. replace (x - Z.of_nat k + Z.of_nat k) with x by lia.
  eexists. split; [done|]. by exists c, up, src, k.
Qed.
Next Obligation.
  intros p x l (c & up & src & k & Hpa & Hit & Hk & He & Hl). cbn [pi_next ef_PosIter].
  assert (src !! k = Some x) as Hx by (rewrite <- (Nat.add_0_r k), <- lookup_drop, <- Hl; done). pose proof (lookup_lt_Some _ _ _ Hx).
  destruct (fi_next_ok i128 _ _ _ src Hpa _ k _ Hit) as (it' & -> & Hit'); [lia|lia|]. rewrite bind_ok_l. eexists. split; [done|].
  exists c, up, src, (Datatypes.S k). cbn [ep_s ep_it ep_end]. split; [done|]. split; [by replace (Z.of_nat (Datatypes.S k)) with (Z.of_nat k + 1) by lia|].
  split; [lia|]. split; [done|]. rewrite (drop_S _ _ _ Hx) in Hl. by injection Hl.
Qed.

Lemma ef_begin_rep (s : S) e src : ef_usable s e src -> ef_pos_rep (ef_begin s e) src.
Proof using.
  clear Hratio. intros (k & [Hpa Hsz _ _ _]). exists (ef_lowerBits e), (ef_upperBits e), src, O. unfold ef_begin. cbn [ep_s ep_it ep_end].
  pose proof (en_few _ (po_en _ _ _ _ _ Hpa)). split; [done|]. split; [by eapply begin_at|]. split; [lia|].
  split; [|done]. rewrite Hsz, wrap_small by (unfold fits; lia). lia.
Qed.
End holding.

(** ** Set operations *)

Program Definition efc_IndexCreatorOk : IndexCreatorOk efc := {| cr_rep c out := efc_values c = out; cr_lim := 2 ^ 32; cr_cap := 2 ^ 32 |}.
Next Obligation. lia. Qed.
Next Obligation.
  intros [vs] out id Hc Hs _ _. cbn in Hc. subst vs. unfold ic_push, efc_IndexCreator, efc_push_back. cbn [efc_values].
  assert (negb (zlen out =? 0) && (id <=? lastd 0 out) = false) as ->; [|cbn [throw_if]; rewrite bind_ok_l; by eexists].
  destruct (Z.eqb_spec (zlen out) 0) as [E|E]; [done|]. cbn [negb andb]. apply Z.leb_gt. apply sorted_lastd; [done|]. by intros ->.
Qed.

Section operations.
Context {S : Type} {BS : Backend S} {BOS : BackendOk S} {T : Type} {BT : Backend T} {BOT : BackendOk T}.
Implicit Types (s : S) (t : T).

(** The ids the creator has got when it is flushed. *)
Lemma setOp_exec op s x t y A B : op_wf op -> ef_usable s x A -> ef_usable t y B -> zlen (merge op A B) < 2 ^ 32 ->
  ef_setOp i128 ratioLog2 op s x t y =
    (let '(v, data) := createCache 4 in
     '(v, data) ← efc_flush i128 ratioLog2 v data 0 (mkEfc (merge op A B));
     efc_getPrivateIndex ratioLog2 v data 0).
Proof using BOS BOT.
  clear Hratio. intros Hop Hx Hy Hn. unfold ef_setOp. pose proof Hx as (kx & [Hpx Hsx _ _ _]). pose proof Hy as (ky & [Hpy Hsy _ _ _]).
  pose proof (po_en _ _ _ _ _ Hpx) as [HsA HiA _ _]. pose proof (po_en _ _ _ _ _ Hpy) as [HsB HiB _ _].
  destruct (@exec_ok efc _ efc_IndexCreatorOk (ef_pos S) _ ef_PosIterOk (ef_pos T) _ ef_PosIterOk
    (Datatypes.S (Z.to_nat (ef_m_size x + ef_m_size y))) op (mkEfc []) (ef_begin s x) (ef_begin t y) A B) as (c & -> & Hc).
  - by apply ef_begin_rep.
  - by apply ef_begin_rep.
  - done.
  - split; [cbn [app]; by apply merge_spec|]. split; [exact (merge_ids op A B Hop HsA HsB HiA HiB)|cbn; lia].
  - rewrite Hsx, Hsy. lia.
  - rewrite bind_ok_l. cbn in Hc. destruct c as [vs]. cbn in Hc. by subst vs.
Qed.

Lemma setOp_ok op s x t y A B : op_wf op -> ef_usable s x A -> ef_usable t y B -> encodable (merge op A B) ->
  exists v e, ef_setOp i128 ratioLog2 op s x t y = Ok (v, e) /\ ef_holds v e (merge op A B) 0.
Proof using Hratio BOS BOT.
  intros Hop Hx Hy Hen. rewrite (setOp_exec op s x t y A B Hop Hx Hy (en_few _ Hen)). set (C := merge op A B) in *.
  destruct (createCache_ok 4) as (v0 & d0 & Hcc & Hb0); [lia|lia|].
  assert (m_offSet d0 = 0) as Ho by (by injection Hcc as _ <-). rewrite Hcc. unfold efc_flush. cbn [efc_values].
  assert (setPutPtr d0 0 = mkUba (m_offSet d0) (m_len d0) (m_getPtr d0) 0) as Hsp.
  { unfold setPutPtr. pose proof (buf_len _ _ _ Hb0) as Hl. rewrite length_replicate in Hl. by rewrite (proj2 (Z.leb_gt _ _)) by lia. }
  rewrite Hsp. pose proof Hb0 as [[? ? ? ? Hgf ? ?] _].
  pose proof (buf_ptrs v0 d0 _ (m_getPtr d0) 0 Hb0 Hgf ltac:(unfold fits; lia)) as Hb1.
  destruct (ef_create_ok i128 ratioLog2 Hratio v0 _ _ C Hb1) as (v1 & d1 & bytes & -> & Henc & Hps); [cbn [m_putPtr]; rewrite length_replicate; lia|done| |].
  { cbn [m_offSet]. rewrite length_replicate. lia. }
  rewrite bind_ok_l. unfold efc_getPrivateIndex. pose proof (pushed_buf _ _ _ _ _ Hps) as Hb2. cbn [m_putPtr] in Hb2.
  unfold splice in Hb2. change (take (Z.to_nat 0) _) with (@nil Z) in Hb2. cbn [app] in Hb2.
  assert (buf v1 (setGetPtr d1 0) (bytes ++ drop (Z.to_nat 0 + length bytes) (replicate (Z.to_nat (Z.max 1 4)) 0))) as Hb3.
  { unfold setGetPtr. pose proof (buf_fits _ _ _ Hb2). pose proof (buf_len _ _ _ Hb2). apply buf_ptrs; [done| |by destruct Hb2 as [[] _]].
    case_match; unfold fits; lia. }
  destruct (ef_new_ok v1 _ bytes _ C Hb3 Henc Hen) as (v2 & e & -> & Hh & _). by exists v2, e.
Qed.

(** Beyond the bound nothing is written. *)
Lemma create_too_large {U : Type} {BU : Backend U} (u : U) dest src : sorted src -> ids_ok src -> zlen src < 2 ^ 32 -> src <> [] ->
  2 ^ 31 < lastd 0 src - (zlen src - 1) -> ef_create i128 ratioLog2 u dest src = Err StdDomainError.
Proof using.
  clear Hratio. intros Hs Hids Hfew Hne Hbig. unfold ef_create. rewrite ascending_ok by done. cbn [negb throw_if].
  assert (0 < zlen src) by (destruct src; [done|cbn [length]; lia]).
  rewrite bind_ok_l, (narrow_u32_ok (zlen src)), bind_ok_l by (unfold fits; lia). rewrite (proj2 (Z.eqb_neq (zlen src) 0)) by lia.
  assert (0 <= lastd 0 src < 2 ^ 32) as Hlast.
  { destruct (last src) as [x|] eqn:El; [|by apply last_None in El]. apply last_Some in El as [k El]. unfold ids_ok in Hids. rewrite El in *.
    rewrite lastd_snoc. by apply Forall_app in Hids as [_ [Hx _]%Forall_cons]. }
  rewrite (narrow_u32_ok (lastd 0 src)), bind_ok_l by exact Hlast. unfold ef_upperBoundOf.
  rewrite (wrap_small 32 (zlen src - 1)), (wrap_small 32 (_ - _)) by (unfold fits; lia). set (v := lastd 0 src - (zlen src - 1)) in *.
  rewrite msb32_log2, bind_ok_l by (unfold fits; lia). assert (Z.log2 v = 31) as -> by (apply Z.log2_unique; lia).
  change (u32 (1 <<< 31)) with (2 ^ 31). rewrite (proj2 (Z.eqb_neq _ v)) by lia. done.
Qed.
End operations.
End index.

(** * Indexes in memory as private indexes *)

(** The ids are at most 2^31, so that the result of every operation can be coded. *)
Section private.
Context (i128 : bool) (ratioLog2 : Z -> Z -> Z) (Hratio : ratio_ok ratioLog2).

Definition ef_PrivIndex : PrivIndex (Vec.t * ef) := {|
  priv_size p := ef_size (snd p);
  priv_op op p q := '(v, e) ← ef_setOp i128 ratioLog2 op (fst p) (snd p) (fst q) (snd q); mret (Some (v, e));
|}.

Definition ef_priv_rep (p : Vec.t * ef) (l : list Z) : Prop := ef_usable i128 (fst p) (snd p) l /\ Forall (fun z => z <= 2 ^ 31) l.

Lemma lastd_le (l : list Z) b : 0 <= b -> Forall (fun z => z <= b) l -> lastd 0 l <= b.
Proof using.
  clear Hratio. intros Hb Hl. destruct (last l) as [x|] eqn:El; [|apply last_None in El as ->; exact Hb]. apply last_Some in El as [k ->]. rewrite lastd_snoc.
  by apply Forall_app in Hl as [_ [Hx _]%Forall_cons].
Qed.

Lemma merge_bounded op A B b : op_wf op -> sorted A -> sorted B -> Forall (fun z => z <= b) A -> Forall (fun z => z <= b) B ->
  Forall (fun z => z <= b) (merge op A B).
Proof using.
  clear Hratio. intros Hop HA HB HbA HbB. apply Forall_forall. intros z Hz%(proj2 (merge_spec op A B Hop HA HB)).
  rewrite Forall_forall in HbA, HbB. unfold keeps in Hz. destruct Hz as [(? & _)|[(? & _)|(_ & ? & _)]]; auto.
Qed.

Lemma usable_ids {S : Type} {B : Backend S} {BO : BackendOk S} (s : S) e l : ef_usable i128 s e l -> encodable l.
Proof using. clear Hratio. intros (k & Hh). exact (po_en _ _ _ _ _ (eh_parts _ _ _ _ _ Hh)). Qed.

Lemma bounded_encodable op A B : op_wf op -> encodable A -> encodable B -> Forall (fun z => z <= 2 ^ 31) A -> Forall (fun z => z <= 2 ^ 31) B ->
  zlen A + zlen B < 2 ^ 32 -> encodable (merge op A B).
Proof using.
  clear Hratio. intros Hop [HsA HiA _ _] [HsB HiB _ _] HA HB Hn. pose proof (merge_bounded op A B _ Hop HsA HsB HA HB) as Hm.
  pose proof (merge_length op A B). split; [by apply merge_spec|by apply merge_ids|lia|].
  destruct (merge op A B) as [|x C] eqn:E; [cbn; lia|]. rewrite <- E in *. assert (1 <= zlen (merge op A B)) by (rewrite E; cbn [length]; lia).
  pose proof (lastd_le _ (2 ^ 31) ltac:(lia) Hm). lia.
Qed.

Program Definition ef_PrivIndexOk : @PrivIndexOk (Vec.t * ef) ef_PrivIndex := {| priv_rep := ef_priv_rep |}.
Next Obligation. intros p l [Hu _]. exact (en_sorted _ (usable_ids _ _ _ Hu)). Qed.
Next Obligation. intros p l [(k & Hh) _]. exact (eh_size _ _ _ _ _ Hh). Qed.
Next Obligation.
  intros op [v x] [w y] A B Hop _ [Hx HA] [Hy HB] _ _ Hn. cbn [fst snd] in *. pose proof (usable_ids _ _ _ Hx) as HeA. pose proof (usable_ids _ _ _ Hy) as HeB.
  destruct (setOp_ok i128 ratioLog2 Hratio op v x w y A B Hop Hx Hy) as (r & e & Hr & Hh).
  { apply bounded_encodable; done || lia. }
  cbn [priv_op ef_PrivIndex fst snd]. rewrite Hr, bind_ok_l. eexists. split; [done|]. split; [by exists O|].
  cbn [snd]. apply merge_bounded; try done; by apply en_sorted.
Qed.

(** The set operations on handles of such indexes. *)
Lemma ef_item_index_ops (a b : item_index (Vec.t * ef)) A B : @ii_rep _ _ ef_PrivIndexOk a A -> @ii_rep _ _ ef_PrivIndexOk b B -> zlen A + zlen B < 2 ^ 29 ->
  (exists r, @ii_intersect _ ef_PrivIndex a b = Ok r /\ @ii_rep _ _ ef_PrivIndexOk r (merge IntersectOp A B)) /\
  (exists r, @ii_unite _ ef_PrivIndex a b = Ok r /\ @ii_rep _ _ ef_PrivIndexOk r (merge UniteOp A B)) /\
  (exists r, @ii_difference _ ef_PrivIndex a b = Ok r /\ @ii_rep _ _ ef_PrivIndexOk r (merge DifferenceOp A B)) /\
  (exists r, @ii_symmetricDifference _ ef_PrivIndex a b = Ok r /\ @ii_rep _ _ ef_PrivIndexOk r (merge SymmetricDifferenceOp A B)).
Proof using. exact (@ii_op_ok _ _ ef_PrivIndexOk a b A B). Qed.
End private.

Lemma copied_0 src : copied 0 src = src.
Proof. unfold copied. change (take 0 src) with (@nil Z). rewrite drop_0. cbn [app]. induction src as [|x src IH]; [done|]. cbn [map]. rewrite IH. f_equal. lia. Qed.

(** Creating an index in memory and opening it. *)
Lemma ef_make_ok i128 ratioLog2 n src : ratio_ok ratioLog2 -> 0 <= n < 2 ^ 58 -> encodable src ->
  exists v e, (let '(v, d) := createCache n in '(v, d) ← ef_create i128 ratioLog2 v d src; ef_new ratioLog2 v (resetPtrs d)) = Ok (v, e) /\
    ef_holds i128 v e src 0.
Proof.
  intros Hratio Hn Hen. destruct (createCache_ok n) as (v0 & d0 & Hcc & Hb0); [lia|lia|].
  assert (m_offSet d0 = 0 /\ m_putPtr d0 = 0) as [Ho Hpp] by (unfold createCache in Hcc; by injection Hcc as _ <-). rewrite Hcc.
  destruct (ef_create_ok i128 ratioLog2 Hratio v0 d0 _ src Hb0) as (v1 & d1 & bytes & -> & Henc & Hps);
    [rewrite Hpp, length_replicate; lia|done|rewrite Ho, length_replicate; lia|].
  rewrite bind_ok_l. pose proof (pushed_buf _ _ _ _ _ Hps) as Hb2. rewrite Hpp in Hb2. unfold splice in Hb2.
  change (take (Z.to_nat 0) _) with (@nil Z) in Hb2. cbn [app] in Hb2.
  match type of Hb2 with buf _ _ (_ ++ ?r) => assert (buf v1 (resetPtrs d1) (bytes ++ r)) as Hb3 end.
  { unfold resetPtrs, resetPutPtr, resetGetPtr. cbn [m_offSet m_len m_getPtr m_putPtr]. apply buf_ptrs; [exact Hb2|unfold fits; lia|unfold fits; lia]. }
  destruct (ef_new_ok i128 ratioLog2 Hratio v1 _ bytes _ src Hb3 Henc Hen) as (v2 & e2 & -> & Hh & _). by exists v2, e2.
Qed.

(** A bit set of less than 2^28 bytes becomes the index of its positions. *)
Lemma ef_fromBitSet_ok {S : Type} {B : Backend S} {BO : BackendOk S} i128 ratioLog2 (s : S) a l : ratio_ok ratioLog2 -> buf s a l -> zlen l < 2 ^ 28 ->
  exists v e, ef_fromBitSet i128 ratioLog2 s a = Ok (v, e) /\ ef_holds i128 v e (set_positions (le_val l) 0 (8 * zlen l)) 0.
Proof.
  intros Hratio Hb Hl. set (C := set_positions _ _ _). pose proof (set_positions_length (le_val l) 0 (8 * zlen l)) as HlC. fold C in HlC.
  assert (Forall (fun z => z <= 2 ^ 31) C) as HbC by (apply Forall_forall; intros z Hz%elem_of_set_positions; lia).
  assert (encodable C) as Hen.
  { split; [apply sorted_set_positions|apply Forall_forall; intros z Hz%elem_of_set_positions; unfold fits; lia|lia|].
    destruct (decide (C = [])) as [->|Hne]; [cbn; lia|]. assert (1 <= zlen C) by (destruct C; [done|cbn [length]; lia]).
    pose proof (lastd_le _ (2 ^ 31) ltac:(lia) HbC). lia. }
  destruct (ef_make_ok i128 ratioLog2 4 C Hratio ltac:(lia) Hen) as (v & e & Hmk & Hh). exists v, e. split; [|done].
  unfold ef_fromBitSet. destruct (dbs_enumerates s a l Hb ltac:(lia)) as (_ & b & f & -> & -> & Hit).
  destruct (createCache 4) as [v0 d0]. rewrite !bind_ok_l, (buf_len _ _ _ Hb), Hit, bind_ok_l by lia. exact Hmk.
Qed.

(** * Properties *)

Fixpoint ef_ats {S : Type} `{Backend S} (i128 : bool) (s : S) (e : ef) (ps : list Z) : result (list Z) :=
  match ps with
  | [] => Ok []
  | p :: ps => '(e, v) ← ef_at i128 s e p; r ← ef_ats i128 s e ps; mret (v :: r)
  end.

Lemma ef_ats_ok {S : Type} {B : Backend S} {BO : BackendOk S} i128 ps (s : S) e src k : ef_holds i128 s e src k ->
  Forall (fun p => 0 <= p < zlen src) ps -> ef_ats i128 s e ps = Ok (map (fun p => default 0 (src !! Z.to_nat p)) ps).
Proof.
  intros Hh Hps. revert e k Hh. induction Hps as [|p ps Hp _ IH]; intros e k Hh; cbn [ef_ats map]; [done|].
  destruct (lookup_lt_is_Some_2 src (Z.to_nat p)) as [x Hx]; [lia|].
  destruct (ef_at_ok i128 s e src k p x Hh ltac:(lia) Hx) as (e' & k' & -> & Hh' & _). rewrite bind_ok_l, (IH e' k' Hh'), bind_ok_l. by rewrite Hx.
Qed.

(** C17: round trip of an Elias-Fano index: creating one at the put position from a sorted list of
    ids that the format can hold writes its bytes there, whatever the number of lower bits is;
    opening them gives an index of that size, from which [putInto] returns the list and any
    sequence of lookups, in any order, the ids at the positions asked for; lookups behind the end
    throw, and the search ends and finds an id exactly if it is there. *)
Theorem ef_roundtrip {S : Type} {B : Backend S} {BO : BackendOk S} i128 ratioLog2 (s : S) dest l src ps :
  ratio_ok ratioLog2 -> buf s dest l -> 0 <= m_putPtr dest <= zlen l -> encodable src -> m_offSet dest + zlen l < 2 ^ 59 ->
  Forall (fun p => 0 <= p < zlen src) ps ->
  exists s' dest' bytes s2 e, ef_create i128 ratioLog2 s dest src = Ok (s', dest') /\ ef_encodes ratioLog2 src bytes /\
    pushed dest l bytes s' dest' /\ ef_new ratioLog2 s' (uba_from dest' (m_putPtr dest)) = Ok (s2, e) /\
    ef_size e = zlen src /\ ef_getSizeInBytes e = zlen bytes /\ ef_putInto i128 s2 e = Ok src /\
    ef_ats i128 s2 e ps = Ok (map (fun p => default 0 (src !! Z.to_nat p)) ps) /\
    (forall p, zlen src <= p -> ef_at i128 s2 e p = Err StdOutOfRange) /\
    forall id, exists w r, @find _ (ef_AtIndex i128) (s2, e) id = Ok (w, r) /\
      (0 <= r < zlen src /\ src !! Z.to_nat r = Some id \/ r = max_u32 /\ id ∉ src).
Proof.
  intros Hratio Hb Hp Hen Hf Hps. destruct (ef_create_ok i128 ratioLog2 Hratio s dest l src Hb Hp Hen Hf) as (s' & dest' & bytes & Hcr & Henc & Hpu).
  pose proof (uba_from_ok s' dest' _ (pushed_buf _ _ _ _ _ Hpu) (m_putPtr dest)) as Hfrom. rewrite zlen_splice_grow, drop_splice in Hfrom by done.
  destruct (ef_new_ok i128 ratioLog2 Hratio s' _ bytes _ src (Hfrom ltac:(lia)) Henc Hen) as (s2 & e & Hnew & Hh & Hsz).
  exists s', dest', bytes, s2, e. do 4 (split; [done|]). split; [exact (eh_size _ _ _ _ _ Hh)|]. split; [done|].
  split; [|split; [by eapply ef_ats_ok|split]].
  - by rewrite (ef_putInto_ok i128 s2 e src 0 Hh), copied_0.
  - intros p Hpp. by apply (ef_at_out i128 s2 e src 0).
  - intros id. destruct (@find_ok _ _ (ef_AtIndexOk i128 s2) (s2, e) src id) as (w & r & Hr & _ & Hspec); [split; [done|by exists O]|by apply en_sorted|].
    by exists w, r.
Qed.

(** The quotient as it is without rounding errors. *)
Definition ex_ratio (c u : Z) : Z := Z.log2 u - Z.log2_up c.
Lemma ex_ratio_ok : ratio_ok ex_ratio.
Proof.
  intros c m Hm Hc. unfold ex_ratio. rewrite Z.log2_pow2 by lia. pose proof (Z.log2_up_nonneg c).
  pose proof (Z.log2_up_le_mono c (2 ^ m) ltac:(lia)) as Hl. rewrite Z.log2_up_pow2 in Hl by lia. lia.
Qed.

Lemma encodable_dec src : bool_decide (StronglySorted Z.lt src /\ Forall (fits 32) src /\ zlen src < 2 ^ 32 /\ lastd 0 src - (zlen src - 1) <= 2 ^ 31) = true -> encodable src.
Proof. intros (H1 & H2 & H3 & H4)%bool_decide_eq_true. by split. Qed.

Lemma ef_roundtrip_witness : exists s' dest' s2 e, ef_create true ex_ratio (Vec.mk [1]) (mkUba 0 1 0 1) [3; 7; 100; 300; 301; 1000] = Ok (s', dest') /\
  ef_new ex_ratio s' (uba_from dest' 1) = Ok (s2, e) /\ ef_ats true s2 e [4; 0; 5] = Ok [301; 3; 1000].
Proof.
  destruct (ef_roundtrip true ex_ratio (Vec.mk [1]) (mkUba 0 1 0 1) [1] [3; 7; 100; 300; 301; 1000] [4; 0; 5])
    as (s' & dest' & bytes & s2 & e & H1 & _ & _ & H2 & _ & _ & _ & H3 & _).
  - exact ex_ratio_ok.
  - split; [uba_wf_tac|reflexivity].
  - cbn. lia.
  - apply encodable_dec. vm_compute. reflexivity.
  - cbn. lia.
  - repeat constructor; cbn; lia.
  - exists s', dest', s2, e. split; [exact H1|]. split; [exact H2|exact H3].
Defined.

(** The four operations. *)
Definition ef_ops : list set_op := [IntersectOp; UniteOp; DifferenceOp; SymmetricDifferenceOp].
Lemma ef_ops_wf op : op ∈ ef_ops -> op_wf op /\ op_sized op.
Proof.
  pose proof ops_sized as (? & ? & ? & ?). unfold ef_ops. rewrite !elem_of_cons, elem_of_nil.
  intros [->|[->|[->|[->|[]]]]]; done.
Qed.

(** C18: the set operations on Elias-Fano indexes. For two indexes over any storages, in any
    state of their caches, an operation gives an index of exactly the ids it keeps, provided
    that the format can hold these ([ef_not_closed] shows a result it cannot hold); with an index
    of any other type it gives a native index of them, whether the format could hold them or not. *)
Theorem ef_set_operations {S : Type} {BS : Backend S} {BOS : BackendOk S} {T : Type} {BT : Backend T} {BOT : BackendOk T} {D : Type} `{AtIndexOk D}
    i128 ratioLog2 op (s : S) x (t : T) y (d : D) A B C :
  ratio_ok ratioLog2 -> op ∈ ef_ops -> ef_usable i128 s x A -> ef_usable i128 t y B ->
  ai_rep d C -> sorted C -> ids_ok C -> zlen A + zlen C < 2 ^ 32 - 1 ->
  (encodable (merge op A B) -> exists v e, ef_setOp i128 ratioLog2 op s x t y = Ok (v, e) /\ ef_usable i128 v e (merge op A B) /\
     forall z, z ∈ merge op A B <-> keeps op (z ∈ A) (z ∈ B)) /\
  (exists r, ef_otherOp i128 op s x d = Ok r /\ na_ok r (merge op A C) /\
     forall z, z ∈ merge op A C <-> keeps op (z ∈ A) (z ∈ C)).
Proof.
  intros Hratio [Hop Hsized]%ef_ops_wf Hx Hy Hd HsC HiC Hn.
  pose proof (usable_ids _ _ _ _ Hx) as [HsA HiA _ _]. pose proof (usable_ids _ _ _ _ Hy) as [HsB HiB _ _]. split.
  - intros Hen. destruct (setOp_ok i128 ratioLog2 Hratio op s x t y A B Hop Hx Hy Hen) as (v & e & Hr & Hh). exists v, e.
    split; [done|]. split; [by exists O|]. by apply merge_spec.
  - destruct (@execute_ok _ (ef_AtIndex i128) (ef_AtIndexOk i128 s) D _ _ op (s, x) d A C Hop Hsized) as (r & Hr & Hna); try done.
    { by apply merge_ids. }
    exists r. split; [exact Hr|]. split; [done|]. by apply merge_spec.
Qed.

Lemma ef_set_operations_witness : exists (v w : Vec.t) x y r e n, ef_setOp true ex_ratio DifferenceOp v x w y = Ok (r, e) /\
  ef_usable true r e [3; 1000] /\ ef_otherOp true UniteOp v x [5; 7] = Ok n /\ na_ok n [3; 5; 7; 100; 1000].
Proof.
  destruct (ef_make_ok true ex_ratio 4 [3; 7; 100; 1000] ex_ratio_ok) as (v & x & _ & Hx); [lia|apply encodable_dec; vm_compute; reflexivity|].
  destruct (ef_make_ok true ex_ratio 4 [7; 8; 100] ex_ratio_ok) as (w & y & _ & Hy); [lia|apply encodable_dec; vm_compute; reflexivity|].
  assert (ai_rep [5; 7] [5; 7]) as Hd by (split; reflexivity).
  assert (sorted [5; 7] /\ ids_ok [5; 7]) as [Hs Hi] by (split; [repeat first [lia|constructor]|repeat constructor; unfold fits; lia]).
  assert (encodable [3; 1000]) as He1 by (apply encodable_dec; vm_compute; reflexivity).
  destruct (ef_set_operations true ex_ratio DifferenceOp v x w y [5; 7] [3; 7; 100; 1000] [7; 8; 100] [5; 7]) as [Hset _];
    [exact ex_ratio_ok|right; right; left|by exists O|by exists O|exact Hd|exact Hs|exact Hi|reflexivity|]. destruct (Hset He1) as (r & e & H1 & H2 & _).
  destruct (ef_set_operations true ex_ratio UniteOp v x w y [5; 7] [3; 7; 100; 1000] [7; 8; 100] [5; 7]) as (_ & (n & H3 & H4 & _));
    [exact ex_ratio_ok|right; left|by exists O|by exists O|exact Hd|exact Hs|exact Hi|reflexivity|].
  exists v, w, x, y, r, e, n. split; [exact H1|]. split; [exact H2|]. split; [exact H3|exact H4].
Defined.

(** C27: copying out after a lookup is wrong. In an index just opened, looking at a position gives the id there,
    but then [putInto] returns the ids behind that position too small by the number of ids looked
    at: it is right only if the position was the last. *)
Theorem ef_putInto_after_at {S : Type} {B : Backend S} {BO : BackendOk S} i128 (s : S) e src pos :
  ef_holds i128 s e src 0 -> 0 <= pos < zlen src ->
  exists e' x ids, src !! Z.to_nat pos = Some x /\ ef_at i128 s e pos = Ok (e', x) /\ ef_putInto i128 s e' = Ok ids /\
    ids = take (Z.to_nat (pos + 1)) src ++ map (fun x => x - (pos + 1)) (drop (Z.to_nat (pos + 1)) src) /\
    (ids = src <-> pos = zlen src - 1).
Proof.
  intros Hh Hp. destruct (lookup_lt_is_Some_2 src (Z.to_nat pos)) as [x Hx]; [lia|].
  destruct (ef_at_ok i128 s e src 0 pos x Hh ltac:(lia) Hx) as (e' & k & Hat & Hh' & Hk). replace k with (Z.to_nat (pos + 1)) in * by lia.
  exists e', x, (copied (Z.to_nat (pos + 1)) src). split; [done|]. split; [done|]. split; [exact (ef_putInto_ok i128 s e' src _ Hh')|].
  unfold copied. rewrite Z2Nat.id by lia. split; [done|]. split.
  - intros E. destruct (src !! Z.to_nat (pos + 1)) as [y|] eqn:Ey; [|apply lookup_ge_None in Ey; lia]. exfalso.
    pose proof Ey as Ey'. rewrite <- E, lookup_app_r, length_take, list_lookup_fmap, lookup_drop in Ey' by (rewrite length_take; lia).
    apply lookup_lt_Some in Ey as Hl. replace (_ + _)%nat with (Z.to_nat (pos + 1)) in Ey' by lia. rewrite Ey in Ey'. cbn in Ey'. injection Ey'. lia.
  - intros ->. rewrite drop_ge, app_nil_r by lia. apply take_ge. lia.
Qed.

Lemma ef_putInto_after_at_witness : exists (v : Vec.t) e e', ef_at true v e 2 = Ok (e', 100) /\ ef_putInto true v e' = Ok [3; 7; 100; 297; 298; 997].
Proof.
  destruct (ef_make_ok true ex_ratio 4 [3; 7; 100; 300; 301; 1000] ex_ratio_ok) as (v & e & _ & Hh); [lia|apply encodable_dec; vm_compute; reflexivity|].
  destruct (ef_putInto_after_at true v e _ 2 Hh) as (e' & x & ids & Hx & Hat & Hput & Hids & _); [cbn; lia|].
  exists v, e, e'. injection Hx as <-. split; [exact Hat|]. rewrite Hput, Hids. reflexivity.
Defined.

(** C28: the format is not closed under the operations. When the largest id of the result, less the
    number of ids in front of it, is above 2^31, the operation throws, although its operands
    are indexes: taking ids away can make that number larger. *)
Theorem ef_not_closed {S : Type} {BS : Backend S} {BOS : BackendOk S} {T : Type} {BT : Backend T} {BOT : BackendOk T}
    i128 ratioLog2 op (s : S) x (t : T) y A B :
  op ∈ ef_ops -> ef_usable i128 s x A -> ef_usable i128 t y B -> zlen (merge op A B) < 2 ^ 32 -> merge op A B <> [] ->
  2 ^ 31 < lastd 0 (merge op A B) - (zlen (merge op A B) - 1) ->
  ef_setOp i128 ratioLog2 op s x t y = Err StdDomainError.
Proof.
  intros [Hop _]%ef_ops_wf Hx Hy Hn Hne Hbig. pose proof (usable_ids _ _ _ _ Hx) as [HsA HiA _ _]. pose proof (usable_ids _ _ _ _ Hy) as [HsB HiB _ _].
  rewrite (setOp_exec i128 ratioLog2 op s x t y A B Hop Hx Hy Hn). destruct (createCache 4) as [v d]. unfold efc_flush. cbn [efc_values].
  rewrite create_too_large; try done; [by apply merge_spec|by apply merge_ids].
Qed.

(** Without its first id the second cannot be coded. *)
Lemma ef_not_closed_witness : exists (v w : Vec.t) x y, ef_usable true v x [0; 2 ^ 31 + 1] /\ ef_usable true w y [0] /\
  ef_setOp true ex_ratio DifferenceOp v x w y = Err StdDomainError.
Proof.
  destruct (ef_make_ok true ex_ratio 4 [0; 2 ^ 31 + 1] ex_ratio_ok) as (v & x & _ & Hx); [lia|apply encodable_dec; vm_compute; reflexivity|].
  destruct (ef_make_ok true ex_ratio 4 [0] ex_ratio_ok) as (w & y & _ & Hy); [lia|apply encodable_dec; vm_compute; reflexivity|].
  exists v, w, x, y. split; [by exists O|]. split; [by exists O|].
  apply (ef_not_closed true ex_ratio DifferenceOp v x w y [0; 2 ^ 31 + 1] [0]); [|by exists O|by exists O|reflexivity|discriminate|reflexivity].
  right; right; left.
Defined.
