(* ===== verification/ItemIndexWAH.v ===== *)
(** The word-aligned hybrid item index:
    [src/containers/ItemIndexPrivates/ItemIndexPrivateWAH.cpp] and its header, with the
    iterators of [include/sserialize/iterator/UDWIterator.h] and [UDWConstrainedIterator.h].

    The ids are the set bits of a number that is cut into blocks of 31 bits.  A word holds a
    block behind a zero bit, or the length of a run of empty or full blocks behind the bits 01
    or 11.  [blocks] are the blocks of a list of words, [bval] the number. *)

From stdpp Require Import sorting.
From S2P Require Import Prelude UtilMath PackUnpack Storage ByteArray ByteStream Bits CompactUintArray StaticArray BitSets SetFuncs IndexOps ItemIndexNative.

(** * The constrained iterator *)

(** [UDWConstrainedIterator] over [UDWIteratorPrivateDirect]. *)
Record wit := mkWit { wi_priv : uba; wi_size : Z; wi_curOffset : Z }.

Definition wi_new (data : uba) (size : Z) : wit := mkWit data size 0.
Definition wi_hasNext (it : wit) : bool := wi_curOffset it <? wi_size it.
Definition wi_next {S : Type} `{Backend S} (s : S) (it : wit) : result (wit * Z) :=
  '(d, v) ← uba_sget Uint32 s (wi_priv it);
  mret (mkWit d (wi_size it) (u32 (wi_curOffset it + 1)), v).
Definition wi_dataSize (it : wit) : Z := m_len (wi_priv it).

(** * The index *)

Record wah := mkWah {
  wa_curData : wit; wa_fullData : wit; wa_size : Z;
  wa_curId : Z; wa_cache_mem : Vec.t; wa_cache : uba
}.

Section index.
Context {S : Type} `{Backend S}.
Implicit Types (s : S) (w : wah).

Definition wah_new s (data : uba) : result wah :=
  n ← uba_get Uint32 s data 0;
  let curData := wi_new (uba_plus data 8) (n / 4) in
  let fullData := wi_new data (u32 (wi_size curData + 2)) in
  size ← uba_get Uint32 s data 4;
  let '(mem, cache) := createCache (Z.min 1024 (u32 (size * 4))) in
  mret (mkWah curData fullData size 0 mem cache).

Definition wah_dataIterator s w : result wit :=
  '(tmp, _) ← wi_next s (wa_fullData w);
  '(tmp, _) ← wi_next s tmp;
  mret tmp.

(** [for(i = 0; i < count; ++i) { m_cache.putUint32(curId); ++curId; }] *)
Fixpoint wa_put_run (count : nat) (mem : Vec.t) (cache : uba) (curId : Z) : result (Vec.t * uba) :=
  match count with
  | O => Ok (mem, cache)
  | Datatypes.S count => '(mem, cache) ← uba_sput Uint32 mem cache curId; wa_put_run count mem cache (u32 (curId + 1))
  end.

(** [while (val)]: at most as many steps as [val] has bits. *)
Fixpoint wa_put_bits (fuel : nat) (mem : Vec.t) (cache : uba) (curId val : Z) : result (Vec.t * uba) :=
  if val =? 0 then Ok (mem, cache)
  else match fuel with
  | O => Err OutOfFuel
  | Datatypes.S fuel =>
      '(mem, cache) ← (if negb (val &&& 1 =? 0) then uba_sput Uint32 mem cache curId else Ok (mem, cache));
      wa_put_bits fuel mem cache (u32 (curId + 1)) (val >>> 1)
  end.

(** The body of the loop of [at]: the ids of a word, and the number behind its blocks. *)
Definition wa_put_word (mem : Vec.t) (cache : uba) (curId val : Z) : result (Vec.t * uba * Z) :=
  if negb (val &&& 1 =? 0) then
    let val := val >>> 1 in
    '(mem, cache) ← (if negb (val &&& 1 =? 0) then wa_put_run (Z.to_nat (u32 ((val >>> 1) * 31))) mem cache curId else Ok (mem, cache));
    mret (mem, cache, u32 (curId + u32 ((val >>> 1) * 31)))
  else
    '(mem, cache) ← wa_put_bits 31 mem cache curId (val >>> 1);
    mret (mem, cache, u32 (curId + 31)).

Fixpoint wa_fill (fuel : nat) s w (pos : Z) : result wah :=
  match fuel with
  | O => Err OutOfFuel
  | Datatypes.S fuel =>
      if m_putPtr (wa_cache w) / 4 <=? pos then
        '(cur, val) ← wi_next s (wa_curData w);
        '(mem, cache, curId) ← wa_put_word (wa_cache_mem w) (wa_cache w) (wa_curId w) val;
        wa_fill fuel s (mkWah cur (wa_fullData w) (wa_size w) curId mem cache) pos
      else Ok w
  end.

Definition wah_at s w (pos : Z) : result (wah * Z) :=
  if (wa_size w =? 0) || (wa_size w <=? pos) then Ok (w, 0)
  else
    w ← wa_fill (Datatypes.S (Z.to_nat (wi_size (wa_curData w)))) s w pos;
    v ← uba_get Uint32 (wa_cache_mem w) (wa_cache w) (u32 (pos * 4));
    mret (w, v).

Definition wah_first s w : result (wah * Z) := if wa_size w =? 0 then Ok (w, 0) else wah_at s w 0.
Definition wah_last s w : result (wah * Z) := if wa_size w =? 0 then Ok (w, 0) else wah_at s w (u32 (wa_size w - 1)).
Definition wah_getSizeInBytes w : Z := wi_dataSize (wa_fullData w).

(** The index with its storage, for [find] and the generic operations. *)
Definition wah_ai_at (x : S * wah) (pos : Z) : result (S * wah * Z) :=
  '(w, v) ← wah_at (fst x) (snd x) pos; mret (fst x, w, v).
#[export] Instance wah_AtIndex : AtIndex (S * wah) := {| ai_size x := wa_size (snd x); ai_at := wah_ai_at; ai_uncheckedAt := wah_ai_at |}.
End index.

(** ** To a bit set *)

Section into_bits.
Context {S T : Type} `{Backend S} `{Backend T}.
Implicit Types (s : S) (t : T).

(** [destData[pos] |= v] *)
Definition wb_or t (dest : uba) (pos v : Z) : result T := modify t dest pos (fun x => x ||| v).

(** Room for the bits in front of [fdestBitPos]. *)
Definition wb_reserve t (dest : uba) (fdestBitPos : Z) : T * uba :=
  let maxBytePos := u32 (fdestBitPos / 8 + Z.b2z (0 <? fdestBitPos mod 8)) in
  if m_len dest <=? maxBytePos then let '(t, dest, _) := uba_resize t dest (u32 (maxBytePos + 1)) in (t, dest) else (t, dest).

(** [for(i = 0; i < remainingBytes; val >>= 8, destBytePos += 1, ++i)] *)
Fixpoint wb_bytes (n : nat) t (dest : uba) (pos val : Z) : result T :=
  match n with
  | O => Ok t
  | Datatypes.S n => t ← wb_or t dest pos val; wb_bytes n t dest (u32 (pos + 1)) (val >>> 8)
  end.

Definition wb_word t (dest : uba) (destBitPos val : Z) : result (T * uba * Z) :=
  let bytePos := destBitPos / 8 in
  let inBytePos := destBitPos mod 8 in
  if negb (val &&& 1 =? 0) then
    let val := val >>> 1 in
    '(t, dest) ←
      (if negb (val &&& 1 =? 0) then
         let bitCount := u32 ((val >>> 1) * 31) in
         let '(t, dest) := wb_reserve t dest (u32 (destBitPos + bitCount)) in
         t ← wb_or t dest bytePos (u32 (Z.lnot (createMask inBytePos)));
         let bytePos := u32 (bytePos + 1) in
         let bitCount := u32 (bitCount - (8 - inBytePos)) in
         let fullBytes := bitCount / 8 in
         let bits := bitCount mod 8 in
         t ← uba_fill (Datatypes.S (Z.to_nat (m_len dest))) t dest 255 bytePos fullBytes;
         t ← (if negb (bits =? 0) then wb_or t dest (u32 (bytePos + fullBytes)) (createMask bits) else Ok t);
         mret (t, dest)
       else Ok (t, dest));
    mret (t, dest, u32 (destBitPos + u32 (31 * (val >>> 1))))
  else
    let '(t, dest) := wb_reserve t dest (u32 (destBitPos + 31)) in
    let val := val >>> 1 in
    t ← wb_or t dest bytePos (u8 (val <<< inBytePos));
    let bitCount := 31 - (8 - inBytePos) in
    t ← wb_bytes (Z.to_nat (bitCount / 8 + Z.b2z (0 <? bitCount mod 8))) t dest (u32 (bytePos + 1)) (val >>> (8 - inBytePos));
    mret (t, dest, u32 (destBitPos + 31)).

Fixpoint wb_loop (fuel : nat) s (it : wit) t (dest : uba) (destBitPos : Z) : result (T * uba) :=
  match fuel with
  | O => Err OutOfFuel
  | Datatypes.S fuel =>
      if wi_hasNext it then
        '(it, val) ← wi_next s it;
        '(t, dest, destBitPos) ← wb_word t dest destBitPos val;
        wb_loop fuel s it t dest destBitPos
      else Ok (t, dest)
  end.

Definition wah_putInto_bits s (w : wah) t (bits : uba) : result (T * uba) :=
  if wa_size w =? 0 then Ok (t, bits)
  else
    it ← wah_dataIterator s w;
    wb_loop (Datatypes.S (Z.to_nat (wi_size it))) s it t bits 0.
End into_bits.

(** ** Creating *)

Section create.
Context {S : Type} `{Backend S}.
Implicit Types (s : S).

(** The variables of [create]: the last id, the number of full blocks, the block begun and
    the number of its bits. *)
Record wcs := mkWcs { wc_prev : Z; wc_rle : Z; wc_word : Z; wc_pos : Z }.

(** [if (curRleEncWord) { ... dest.putUint32(curRleEncWord); curRleEncWord = 0; }] *)
Definition wc_flushRle s (dest : uba) (rle : Z) : result (S * uba) :=
  if rle =? 0 then Ok (s, dest) else uba_sput Uint32 s dest (u32 (rle <<< 2) ||| 3).

(** A bit at [wc_pos + skip] of the block. *)
Definition wc_setBit (word pos skip : Z) : result (Z * Z) :=
  let pos := u8 (pos + skip) in
  _ ← throw_if (32 <=? pos) UndefinedBehaviour;
  mret (word ||| u32 (1 <<< pos), u8 (pos + 1)).

Definition wc_first s (dest : uba) (prev : Z) : result (S * uba * wcs) :=
  '(s, dest, (word, pos)) ←
    (if 30 <? prev then
       '(s, dest) ← uba_sput Uint32 s dest (u32 ((prev / 31) <<< 2) ||| 1);
       b ← wc_setBit 0 (prev mod 31) 0; mret (s, dest, b)
     else b ← wc_setBit 0 0 prev; mret (s, dest, b));
  if 30 <? pos then
    '(s, dest) ← uba_sput Uint32 s dest (u32 (word <<< 1));
    mret (s, dest, mkWcs prev 0 0 0)
  else Ok (s, dest, mkWcs prev 0 word pos).

(** The bit of an id [offset] behind the last one: in the block begun, or in a later one. *)
Definition wc_place s (dest : uba) (c : wcs) (offset : Z) : result (S * uba * Z * (Z * Z)) :=
  if 31 - wc_pos c <? offset then
    let offset := offset - 1 in
    '(s, dest) ← wc_flushRle s dest (wc_rle c);
    '(s, dest, word, offset) ←
      (if negb (wc_pos c =? 0) then
         '(s, dest) ← uba_sput Uint32 s dest (u32 (wc_word c <<< 1));
         mret (s, dest, 0, u32 (offset - (31 - wc_pos c)))
       else Ok (s, dest, wc_word c, offset));
    '(s, dest, offset) ←
      (if 31 <=? offset then
         let rleCount := offset / 31 in
         '(s, dest) ← uba_sput Uint32 s dest (u32 (rleCount <<< 2) ||| 1);
         mret (s, dest, u32 (offset - rleCount * 31))
       else Ok (s, dest, offset));
    b ← wc_setBit word (offset mod 31) 0; mret (s, dest, 0, b)
  else b ← wc_setBit (wc_word c) (wc_pos c) (offset - 1); mret (s, dest, wc_rle c, b).

Definition wc_next s (dest : uba) (c : wcs) (x : Z) : result (S * uba * wcs) :=
  '(s, dest, rle, (word, pos)) ← wc_place s dest c (u32 (x - wc_prev c));
  if 30 <? pos then
    if word =? 2147483647 then Ok (s, dest, mkWcs x (u32 (rle + 1)) 0 0)
    else
      '(s, dest) ← wc_flushRle s dest rle;
      '(s, dest) ← uba_sput Uint32 s dest (u32 (word <<< 1));
      mret (s, dest, mkWcs x 0 0 0)
  else Ok (s, dest, mkWcs x rle word pos).

Fixpoint wc_loop s (dest : uba) (c : wcs) (src : list Z) : result (S * uba * wcs) :=
  match src with
  | [] => Ok (s, dest, c)
  | x :: src => '(s, dest, c) ← wc_next s dest c x; wc_loop s dest c src
  end.

Definition wc_last s (dest : uba) (c : wcs) : result (S * uba) :=
  let '(rle, word) := if wc_word c =? 2147483647 then (u32 (wc_rle c + 1), 0) else (wc_rle c, wc_word c) in
  '(s, dest) ← wc_flushRle s dest rle;
  if word =? 0 then Ok (s, dest) else uba_sput Uint32 s dest (u32 (word <<< 1)).

Definition wah_create s (dest : uba) (src : list Z) : result (S * uba) :=
  let beginning := m_putPtr dest in
  '(s, dest) ← uba_sput Uint32 s dest 0;
  n ← narrow_u32 (zlen src);
  '(s, dest) ← uba_sput Uint32 s dest n;
  match src with
  | [] => Ok (s, dest)
  | [val] =>
      if 30 <? val then
        '(s, dest) ← uba_sput Uint32 s dest (u32 ((val / 31) <<< 2) ||| 1);
        '(s, dest) ← uba_sput Uint32 s dest (u32 (u32 (1 <<< (val mod 31)) <<< 1));
        s ← uba_put Uint32 s dest beginning 8;
        mret (s, dest)
      else
        '(s, dest) ← uba_sput Uint32 s dest (u32 (1 <<< (val + 1)));
        s ← uba_put Uint32 s dest beginning 4;
        mret (s, dest)
  | prev :: src =>
      '(s, dest, c) ← wc_first s dest prev;
      '(s, dest, c) ← wc_loop s dest c src;
      '(s, dest) ← wc_last s dest c;
      n ← narrow_u32 (u64 (u64 (m_putPtr dest - beginning) - 8));
      s ← uba_put Uint32 s dest beginning n;
      mret (s, dest)
  end.

(** ** From a bit set *)

(** The inner loop of [fromBitSet]: bytes behind the first one of a block. *)
Fixpoint wf_read (fuel : nat) s (bits : uba) (size offset val curShift bitsRead : Z) : result (Z * Z) :=
  match fuel with
  | O => Err OutOfFuel
  | Datatypes.S fuel =>
      if offset <? size then
        newByte ← uba_at s bits offset;
        let val := val ||| u32 (newByte <<< curShift) in
        let bitsRead := u8 (bitsRead + 8) in
        if bitsRead <? 31 then wf_read fuel s bits size (u32 (offset + 1)) val (u8 (curShift + 8)) bitsRead
        else Ok (val, if bitsRead =? 31 then u32 (offset + 1) else offset)
      else Ok (val, offset)
  end.
End create.

(** The run that is counted and the output. *)
Definition wf_word (mem : Vec.t) (tmp : uba) (curEncWord val bitCount : Z) : result (Vec.t * uba * Z) :=
  if bitCount =? 31 then
    '(mem, tmp, cur) ← (if negb (curEncWord &&& 1 =? 0) && (curEncWord &&& 2 =? 0)
                        then '(mem, tmp) ← uba_sput Uint32 mem tmp curEncWord; mret (mem, tmp, 0)
                        else Ok (mem, tmp, curEncWord));
    mret (mem, tmp, u32 (u32 ((cur >>> 2) + 1) <<< 2) ||| 3)
  else if bitCount =? 0 then
    '(mem, tmp, cur) ← (if negb (curEncWord &&& 1 =? 0) && negb (curEncWord &&& 2 =? 0)
                        then '(mem, tmp) ← uba_sput Uint32 mem tmp curEncWord; mret (mem, tmp, 0)
                        else Ok (mem, tmp, curEncWord));
    mret (mem, tmp, u32 (u32 ((cur >>> 2) + 1) <<< 2) ||| 1)
  else
    '(mem, tmp) ← (if negb (curEncWord =? 0) then uba_sput Uint32 mem tmp curEncWord else Ok (mem, tmp));
    '(mem, tmp) ← uba_sput Uint32 mem tmp val;
    mret (mem, tmp, 0).

Fixpoint wf_loop {S : Type} `{Backend S} (fuel : nat) (s : S) (bits : uba) (size offset initShift : Z)
    (mem : Vec.t) (tmp : uba) (curEncWord count : Z) : result (Vec.t * uba * Z * Z) :=
  match fuel with
  | O => Err OutOfFuel
  | Datatypes.S fuel =>
      if offset <? size then
        byte ← uba_at s bits offset;
        '(val, offset) ← wf_read 5 s bits size (u32 (offset + 1)) (byte >>> initShift) (8 - initShift) (8 - initShift);
        let val := u32 (val <<< 1) in
        let bitCount := popCount 32 val in
        '(mem, tmp, cur) ← wf_word mem tmp curEncWord val bitCount;
        wf_loop fuel s bits size offset (u32 (initShift + 31) mod 8) mem tmp cur (u32 (count + bitCount))
      else Ok (mem, tmp, curEncWord, count)
  end.

Definition wah_fromBitSet {S : Type} `{Backend S} (s : S) (bits : uba) : result (Vec.t * wah) :=
  let '(mem, tmp) := createCache (m_len bits) in
  '(mem, tmp) ← uba_sput Uint32 mem tmp 0;
  '(mem, tmp) ← uba_sput Uint32 mem tmp 0;
  let size := u32 (m_len bits) in
  '(mem, tmp, cur, count) ← wf_loop (Datatypes.S (Z.to_nat size)) s bits size 0 0 mem tmp 0 0;
  '(mem, tmp) ← (if negb (cur =? 0) then uba_sput Uint32 mem tmp cur else Ok (mem, tmp));
  mem ← uba_put Uint32 mem tmp 0 (u32 (u64 (m_putPtr tmp - 8)));
  mem ← uba_put Uint32 mem tmp 4 count;
  w ← wah_new mem tmp;
  mret (mem, w).


(** * Words and blocks *)

(** Linear arithmetic with quotients and remainders by constants. *)
Ltac zdiv := Z.to_euclidean_division_equations; lia.

Definition full : Z := 2 ^ 31 - 1.

(** The blocks of a word. *)
Definition wblocks (w : Z) : list Z :=
  if w &&& 1 =? 0 then [w >>> 1] else replicate (Z.to_nat (w >>> 2)) (if w &&& 2 =? 0 then 0 else full).
Definition blocks (ws : list Z) : list Z := concat (map wblocks ws).

(** The number of a list of blocks. *)
Fixpoint bval (bl : list Z) : Z := match bl with [] => 0 | b :: bl => b + 2 ^ 31 * bval bl end.

Definition bids (bl : list Z) : list Z := set_positions (bval bl) 0 (31 * zlen bl).

(** A block that is neither empty nor full, and a run of at least one block. *)
Inductive wok : Z -> Prop :=
  | wok_lit b : 0 < b < full -> wok (2 * b)
  | wok_run (f : bool) n : 1 <= n < 2 ^ 30 -> wok (4 * n + if f then 3 else 1).

(** The words of an index: the blocks have less than 2^32 bits. *)
Definition wlist (ws : list Z) : Prop := Forall wok ws /\ 31 * zlen (blocks ws) < 2 ^ 32.

Section words.
Implicit Types (w b n : Z) (f : bool).

Lemma run_low f n : 0 <= n -> let w := 4 * n + if f then 3 else 1 in
  w &&& 1 = 1 /\ w &&& 2 = (if f then 2 else 0) /\ w &&& 3 = (if f then 3 else 1) /\ w >>> 2 = n /\
  (w >>> 1) &&& 1 = Z.b2z f /\ (w >>> 1) >>> 1 = n.
Proof using.
  intros Hn w. assert (w = 4 * n + 2 * Z.b2z f + 1) as Hw by (unfold w; destruct f; cbn [Z.b2z]; lia). clearbody w.
  assert (0 <= Z.b2z f <= 1) as Hf by (destruct f; cbn; lia).
  assert (w >>> 2 = n) as H2 by (rewrite Z.shiftr_div_pow2 by lia; change (2 ^ 2) with 4; zdiv).
  assert (w >>> 1 = 2 * n + Z.b2z f) as H1 by (rewrite Z.shiftr_div_pow2 by lia; change (2 ^ 1) with 2; zdiv).
  assert (w mod 4 = if f then 3 else 1) as H4 by (destruct f; cbn [Z.b2z] in *; zdiv).
  assert (w &&& 3 = if f then 3 else 1) as H3 by (change 3 with (Z.ones 2) at 1; rewrite Z.land_ones by lia; exact H4).
  split; [change 1 with (Z.ones 1) at 1; rewrite Z.land_ones by lia; change (2 ^ 1) with 2; zdiv|].
  split; [|split; [done|split; [done|]]].
  - assert (w &&& 2 = (w &&& 3) &&& 2) as -> by (rewrite <- Z.land_assoc; done). rewrite H3. by destruct f.
  - rewrite H1. split; [|rewrite Z.shiftr_div_pow2 by lia; change (2 ^ 1) with 2; destruct f; cbn [Z.b2z]; zdiv].
    change 1 with (Z.ones 1). rewrite Z.land_ones by lia. change (2 ^ 1) with 2. destruct f; cbn [Z.b2z]; zdiv.
Qed.

Lemma lit_low b : (2 * b) &&& 1 = 0 /\ (2 * b) >>> 1 = b /\ ((2 * b) &&& 3 = 0 \/ (2 * b) &&& 3 = 2).
Proof using.
  split; [change 1 with (Z.ones 1); rewrite Z.land_ones by lia; change (2 ^ 1) with 2; zdiv|].
  split; [rewrite Z.shiftr_div_pow2 by lia; change (2 ^ 1) with 2; zdiv|].
  change 3 with (Z.ones 2). rewrite !Z.land_ones by lia. change (2 ^ 2) with 4. zdiv.
Qed.

Lemma wblocks_lit b : wblocks (2 * b) = [b].
Proof using. unfold wblocks. destruct (lit_low b) as (-> & -> & _). done. Qed.

Lemma wblocks_run f n : 0 <= n -> wblocks (4 * n + if f then 3 else 1) = replicate (Z.to_nat n) (if f then full else 0).
Proof using. intros Hn. unfold wblocks. destruct (run_low f n Hn) as (-> & -> & _ & -> & _). by destruct f. Qed.

Lemma wok_fits w : wok w -> fits 32 w.
Proof using. intros [b ?|[] n ?]; unfold fits, full in *; lia. Qed.

Lemma wok_blocks w : wok w -> Forall (fits 31) (wblocks w) /\ 1 <= zlen (wblocks w).
Proof using.
  unfold fits. intros [b Hb|f n Hn]; rewrite ?wblocks_lit, ?wblocks_run by lia.
  - unfold full in Hb. split; [repeat constructor; lia|done].
  - split; [apply Forall_replicate; unfold full; destruct f; lia|rewrite length_replicate; lia].
Qed.

Lemma blocks_cons w ws : blocks (w :: ws) = wblocks w ++ blocks ws.
Proof using. done. Qed.

Lemma blocks_app ws vs : blocks (ws ++ vs) = blocks ws ++ blocks vs.
Proof using. unfold blocks. by rewrite map_app, concat_app. Qed.

Lemma blocks_ok ws : Forall wok ws -> Forall (fits 31) (blocks ws) /\ zlen ws <= zlen (blocks ws).
Proof using.
  induction 1 as [|w ws Hw _ [IH Hl]]; [done|]. rewrite blocks_cons, length_app. destruct (wok_blocks w Hw) as [Hb Hn].
  split; [by apply Forall_app|cbn [length]; lia].
Qed.

Lemma wlist_app ws vs : wlist (ws ++ vs) -> wlist ws /\ wlist vs.
Proof using.
  unfold wlist. rewrite Forall_app, blocks_app, length_app. intros [[? ?] ?]. split; (split; [done|lia]).
Qed.

(** ** The number *)

Lemma bval_app a c : bval (a ++ c) = bval a + 2 ^ (31 * zlen a) * bval c.
Proof using.
  induction a as [|x a IH]; [cbn [app bval length]; rewrite Z.mul_0_r, Z.pow_0_r; lia|]. cbn [app bval length]. rewrite IH.
  replace (31 * Z.of_nat (Datatypes.S (length a))) with (31 + 31 * zlen a) by lia. rewrite Z.pow_add_r by lia. ring.
Qed.

Lemma bval_fits bl : Forall (fits 31) bl -> fits (31 * zlen bl) (bval bl).
Proof using.
  unfold fits. induction 1 as [|x bl Hx _ IH]; [cbn; lia|]. cbn [bval length].
  replace (31 * Z.of_nat (Datatypes.S (length bl))) with (31 + 31 * zlen bl) by lia. rewrite Z.pow_add_r by lia. nia.
Qed.

Lemma bval_lor a c : Forall (fits 31) a -> bval (a ++ c) = bval a ||| (bval c <<< (31 * zlen a)).
Proof using.
  intros Ha. pose proof (bval_fits a Ha) as Hf. rewrite bval_app, Z.mul_comm, <- Z.shiftl_mul_pow2 by lia.
  rewrite Z.add_nocarry_lxor, Z.lxor_lor; [done| |]; bitwise.
Qed.

(** A bit of the blocks [a], or of those behind them. *)
Lemma bval_bit a c i : Forall (fits 31) a -> Forall (fits 31) c -> 0 <= i ->
  Z.testbit (bval (a ++ c)) i = if i <? 31 * zlen a then Z.testbit (bval a) i else Z.testbit (bval c) (i - 31 * zlen a).
Proof using.
  intros Ha Hc Hi. pose proof (bval_fits a Ha) as Hf. rewrite bval_lor by done.
  rewrite Z.lor_spec, testbit_shiftl' by lia. destruct (Z.ltb_spec i (31 * zlen a)).
  - rewrite (proj2 (Z.leb_gt _ _)), orb_false_r by lia. done.
  - rewrite (testbit_fits_high _ _ _ Hf), (proj2 (Z.leb_le _ _)) by lia. done.
Qed.

Lemma bval_nth bl i : Forall (fits 31) bl -> 0 <= i -> Z.testbit (bval bl) i = Z.testbit (nth (Z.to_nat (i / 31)) bl 0) (i mod 31).
Proof using.
  intros Hbl. revert i. induction Hbl as [|x bl Hx Hbl IH]; intros i Hi; [cbn [bval nth]; destruct (Z.to_nat (i / 31)); by rewrite !Z.bits_0|].
  change (x :: bl) with ([x] ++ bl). rewrite bval_bit by (done || by apply Forall_singleton). cbn [length bval].
  destruct (Z.ltb_spec i (31 * Z.of_nat 1)).
  - rewrite Z.div_small, Z.mod_small by lia. rewrite Z.mul_0_r, Z.add_0_r. done.
  - rewrite IH by lia. assert (i = (i - 31) + 1 * 31) as E by lia. assert ((i - 31) / 31 = i / 31 - 1 /\ (i - 31) mod 31 = i mod 31) as [E1 E2].
    { zdiv. }
    change (31 * Z.of_nat 1) with 31. rewrite E1, E2. assert (1 <= i / 31) by (apply Z.div_le_lower_bound; lia).
    replace (Z.to_nat (i / 31)) with (Datatypes.S (Z.to_nat (i / 31 - 1))) by lia. done.
Qed.
End words.

(** * Buffers of words *)

(** The window starts with the words [l] and the put position is behind them. *)
Record wbuf {S : Type} {B : Backend S} {BO : BackendOk S} (s : S) (a : uba) (l : list Z) : Prop := {
  wbuf_buf : exists tail, buf s a (words l ++ tail);
  wbuf_put : m_putPtr a = 4 * zlen l;
  wbuf_off : m_offSet a = 0;
  wbuf_get : m_getPtr a = 0;
}.

Section buffers.
Context {S : Type} {B : Backend S} {BO : BackendOk S}.
Implicit Types (s : S) (a : uba) (l : list Z).

Lemma wbuf_push s a l x : wbuf s a l -> fits 32 x -> zlen l < 2 ^ 32 ->
  exists s' a', uba_sput Uint32 s a x = Ok (s', a') /\ wbuf s' a' (l ++ [x]).
Proof using.
  intros [[tail Hb] Hp Ho Hg] Hx Hn. pose proof (words_len l) as Hl.
  destruct (scalar_bytes_ok Uint32 x Hx) as (Hok & Hbl & _).
  destruct (sput_ok s a _ Hb) with (ty := Uint32) (v := x) (bs := le_bytes 4 x) as (s' & a' & Hput & [Hb' Ho' Hg' Hp']);
    [rewrite Hp, length_app; lia|done|done|exact Hok|rewrite length_le_bytes; lia|].
  exists s', a'. split; [done|]. split; [|rewrite Hp', Hp, length_app, length_le_bytes; cbn [length]; lia|congruence|congruence].
  eexists. rewrite Hp, <- Hl, splice_end, app_assoc in Hb'. assert (words (l ++ [x]) = words l ++ le_bytes 4 x) as -> by (rewrite words_app, words_cons; change (words []) with (@nil Z); by rewrite app_nil_r). exact Hb'.
Qed.

Lemma wbuf_set s a pre x y post : wbuf s a (pre ++ x :: post) -> fits 32 y -> zlen pre < 2 ^ 32 ->
  exists s', uba_put Uint32 s a (4 * zlen pre) y = Ok s' /\ wbuf s' a (pre ++ y :: post).
Proof using.
  intros [[tail Hb] Hp Ho Hg] Hy Hn. destruct (scalar_bytes_ok Uint32 y Hy) as (Hok & Hbl & _).
  rewrite words_app, words_cons in Hb. rewrite <- (words_len pre).
  destruct (buf_put Uint32 s a _ (zlen (words pre)) y (le_bytes 4 y) Hb) as (s' & -> & Hb' & _);
    [lia|rewrite !length_app, length_le_bytes; cbn [scalar_len]; lia|done|by rewrite length_le_bytes|exact Hok|].
  exists s'. split; [done|]. split; [|rewrite Hp, !length_app; done|done|done]. exists tail.
  rewrite <- !app_assoc, splice_end in Hb'. rewrite words_app, words_cons, <- !app_assoc.
  rewrite drop_app_length' in Hb' by (by rewrite !length_le_bytes). exact Hb'.
Qed.

Lemma wbuf_read s a pre x post : wbuf s a (pre ++ x :: post) -> fits 32 x -> uba_get Uint32 s a (4 * zlen pre) = Ok x.
Proof using.
  intros [[tail Hb] _ _ _] Hx. destruct (scalar_bytes_ok Uint32 x Hx) as (_ & Hbl & Hu). rewrite <- (words_len pre).
  rewrite words_app, words_cons, <- !app_assoc in Hb. by eapply buf_get_middle.
Qed.

Lemma wbuf_new n : 0 <= n < 2 ^ 63 -> exists v d, createCache n = (v, d) /\ wbuf v d [].
Proof using.
  intros Hn. destruct (createCache_ok n) as (v & d & Hcc & Hb); [lia|lia|]. exists v, d. split; [done|].
  injection Hcc as <- <-. split; [eexists; exact Hb|done|done|done].
Qed.

(** ** Iterators *)

(** The iterator has the words [l] in front of it. *)
Record wit_at s (it : wit) (l : list Z) : Prop := {
  wit_data : exists pre tail, reading s (wi_priv it) pre (words l ++ tail);
  wit_offset : wi_curOffset it = wi_size it - zlen l;
  wit_size : zlen l <= wi_size it < 2 ^ 32;
  wit_words : Forall (fits 32) l;
}.

Lemma wi_hasNext_ok s it l : wit_at s it l -> wi_hasNext it = bool_decide (l <> []).
Proof using.
  intros [_ Ho _ _]. unfold wi_hasNext. rewrite Ho. destruct l; cbn [length].
  - rewrite bool_decide_false by naive_solver. apply Z.ltb_ge. lia.
  - rewrite bool_decide_true by done. apply Z.ltb_lt. lia.
Qed.

Lemma wi_next_ok s it x l : wit_at s it (x :: l) -> exists it', wi_next s it = Ok (it', x) /\ wit_at s it' l /\ wi_size it' = wi_size it.
Proof using.
  intros [(pre & tail & Hr) Ho Hs Hw]. apply Forall_cons in Hw as [Hx Hw]. cbn [length] in *.
  destruct (scalar_bytes_ok Uint32 x Hx) as (_ & Hbl & Hu). change (item_bytes (IScalar Uint32 x)) with (le_bytes 4 x) in *. cbn [scalar_len] in Hbl.
  rewrite words_cons, <- app_assoc in Hr. pose proof Hr as [Hb Hg]. unfold wi_next, uba_sget. rewrite Hg.
  rewrite (buf_get_middle Uint32 s _ pre (le_bytes 4 x) _ x Hb Hbl Hu), !bind_ok_l. cbn [scalar_len].
  eexists. split; [done|]. split; [|done]. split; cbn [wi_priv wi_curOffset wi_size]; [|rewrite Ho, wrap_small by (unfold fits; lia); lia|lia|done].
  exists (pre ++ le_bytes 4 x), tail. apply reading_intro in Hr. by rewrite Hbl in Hr.
Qed.
End buffers.

(** * Opening and looking up *)

Section emitting.
Implicit Types (mem : Vec.t) (cache : uba) (out : list Z).

Lemma wa_put_run_ok count V mem cache curId out : wbuf mem cache out -> 0 <= curId -> curId + Z.of_nat count < 2 ^ 32 ->
  zlen out <= curId -> (forall j, 0 <= j < Z.of_nat count -> Z.testbit V (curId + j) = true) ->
  exists mem' cache', wa_put_run count mem cache curId = Ok (mem', cache') /\ wbuf mem' cache' (out ++ set_positions V curId (Z.of_nat count)).
Proof.
  revert mem cache curId out. induction count as [|count IH]; intros mem cache curId out Hw H0 Hn Ho HV; cbn [wa_put_run].
  { exists mem, cache. split; [done|]. by rewrite set_positions_none, app_nil_r by lia. }
  destruct (wbuf_push mem cache out curId Hw) as (m1 & c1 & -> & Hw1); [unfold fits; lia|lia|]. rewrite bind_ok_l, wrap_small by (unfold fits; lia).
  destruct (IH m1 c1 (curId + 1) (out ++ [curId]) Hw1) as (m2 & c2 & -> & Hw2); [lia|lia|rewrite length_app; cbn [length]; lia| |].
  { intros j Hj. rewrite <- Z.add_assoc. apply HV. lia. }
  exists m2, c2. split; [done|]. rewrite (set_positions_cons V curId) by (first [lia|rewrite <- (Z.add_0_r curId); apply HV; lia]).
  rewrite <- app_assoc in Hw2. by replace (Z.of_nat (Datatypes.S count) - 1) with (Z.of_nat count) by lia.
Qed.

Lemma wa_put_bits_ok n V mem cache curId val out : wbuf mem cache out -> 0 <= curId -> curId + Z.of_nat n < 2 ^ 32 ->
  zlen out <= curId -> fits (Z.of_nat n) val -> (forall j, 0 <= j < Z.of_nat n -> Z.testbit val j = Z.testbit V (curId + j)) ->
  exists mem' cache', wa_put_bits n mem cache curId val = Ok (mem', cache') /\ wbuf mem' cache' (out ++ set_positions V curId (Z.of_nat n)).
Proof.
  revert mem cache curId val out. induction n as [|n IH]; intros mem cache curId val out Hw H0 Hn Ho Hf HV; cbn [wa_put_bits].
  { assert (val = 0) as -> by (unfold fits in Hf; cbn in Hf; lia). exists mem, cache. split; [done|]. by rewrite set_positions_none, app_nil_r by lia. }
  destruct (Z.eqb_spec val 0) as [->|Hne].
  { exists mem, cache. split; [done|]. rewrite set_positions_none, app_nil_r; [done|]. intros i Hi.
    replace i with (curId + (i - curId)) by lia. rewrite <- HV by lia. apply Z.bits_0. }
  pose proof (land_bit_testbit val 0 ltac:(lia)) as Hb. change (1 <<< 0) with 1 in Hb. rewrite Hb, (HV 0), Z.add_0_r by lia.
  assert (exists m1 c1, (if Z.testbit V curId then uba_sput Uint32 mem cache curId else Ok (mem, cache)) = Ok (m1, c1) /\
    wbuf m1 c1 (out ++ if Z.testbit V curId then [curId] else [])) as (m1 & c1 & -> & Hw1).
  { destruct (Z.testbit V curId); [|exists mem, cache; by rewrite app_nil_r]. apply wbuf_push; [done|unfold fits; lia|lia]. }
  rewrite bind_ok_l, wrap_small by (unfold fits; lia).
  destruct (IH m1 c1 (curId + 1) (val >>> 1) _ Hw1) as (m2 & c2 & -> & Hw2); [lia|lia|rewrite length_app; case_match; cbn [length]; lia| | |].
  { apply (shiftr_fits (Z.of_nat (Datatypes.S n)) 1); [lia|lia|lia|done]. }
  { intros j Hj. rewrite Z.shiftr_spec, HV by lia. f_equal. lia. }
  exists m2, c2. split; [done|]. rewrite <- app_assoc in Hw2. replace (Z.of_nat n) with (Z.of_nat (Datatypes.S n) - 1) in Hw2 by lia.
  destruct (Z.testbit V curId) eqn:E; [by rewrite set_positions_cons by (done || lia)|by rewrite set_positions_skip by (done || lia)].
Qed.
End emitting.

(** The words of the serialized form. *)
Definition wah_image (ws : list Z) : list Z := 4 * zlen ws :: zlen (bids (blocks ws)) :: ws.

Lemma bids_split a b : bids (a ++ b) = set_positions (bval (a ++ b)) 0 (31 * zlen a) ++ set_positions (bval (a ++ b)) (31 * zlen a) (31 * zlen b).
Proof. unfold bids. rewrite length_app, <- set_positions_app by lia. f_equal. lia. Qed.

Lemma bids_ok bl : 31 * zlen bl < 2 ^ 32 -> sorted (bids bl) /\ Forall (fun z => 0 <= z < 31 * zlen bl) (bids bl) /\ zlen (bids bl) <= 31 * zlen bl.
Proof.
  intros Hn. split; [apply sorted_set_positions|]. split; [|etrans; [apply set_positions_length|lia]].
  apply Forall_forall. intros z Hz%elem_of_set_positions. lia.
Qed.

Section index.
Context {S : Type} {B : Backend S} {BO : BackendOk S}.
Implicit Types (s : S) (w : wah) (ws : list Z).

(** The index stands for the words [pre ++ post]; [at] has read [pre] into the cache. *)
Record wah_holds s w (pre post : list Z) : Prop := {
  wh_words : wlist (pre ++ post);
  wh_few : zlen (bids (blocks (pre ++ post))) < 2 ^ 30;
  wh_size : wa_size w = zlen (bids (blocks (pre ++ post)));
  wh_cur : wit_at s (wa_curData w) post;
  wh_curSize : wi_size (wa_curData w) = zlen (pre ++ post);
  wh_full : wit_at s (wa_fullData w) (wah_image (pre ++ post));
  wh_fullSize : wi_size (wa_fullData w) = zlen (pre ++ post) + 2;
  wh_curId : wa_curId w = 31 * zlen (blocks pre);
  wh_cache : wbuf (wa_cache_mem w) (wa_cache w) (set_positions (bval (blocks (pre ++ post))) 0 (31 * zlen (blocks pre)));
}.

Lemma wlist_bound ws : wlist ws -> zlen ws < 2 ^ 28.
Proof using. intros [Hw Hn]. destruct (blocks_ok ws Hw). lia. Qed.

Lemma wah_new_ok s d ws tail : buf s d (words (wah_image ws) ++ tail) -> m_getPtr d = 0 -> wlist ws -> zlen (bids (blocks ws)) < 2 ^ 30 ->
  exists w, wah_new s d = Ok w /\ wah_holds s w [] ws.
Proof using.
  intros Hb Hg Hws Hn. pose proof (wlist_bound ws Hws) as Hlen. unfold wah_new. assert (Forall (fits 32) ws) as Hfit.
  { destruct Hws as [Hw _]. eapply Forall_impl; [exact Hw|]. exact wok_fits. }
  unfold wah_image in Hb. rewrite !words_cons, <- !app_assoc in Hb.
  destruct (scalar_bytes_ok Uint32 (4 * zlen ws)) as (_ & Hl1 & Hu1); [cbn; unfold fits; lia|].
  destruct (scalar_bytes_ok Uint32 (zlen (bids (blocks ws)))) as (_ & Hl2 & Hu2); [cbn; unfold fits; lia|].
  assert (uba_get Uint32 s d 0 = Ok (4 * zlen ws)) as -> by exact (buf_get_middle Uint32 s d [] _ _ _ Hb Hl1 Hu1). rewrite bind_ok_l.
  assert (uba_get Uint32 s d 4 = Ok (zlen (bids (blocks ws)))) as -> by exact (buf_get_middle Uint32 s d (le_bytes 4 (4 * zlen ws)) _ _ _ Hb Hl2 Hu2).
  rewrite bind_ok_l.
  destruct (wbuf_new (Z.min 1024 (u32 (zlen (bids (blocks ws)) * 4)))) as (mem & cache & -> & Hc).
  { pose proof (wrap_fits 32 (zlen (bids (blocks ws)) * 4) ltac:(lia)). unfold fits in *. lia. }
  replace (4 * zlen ws / 4) with (zlen ws) by zdiv. eexists. split; [done|]. split; cbn [wa_curData wa_fullData wa_size wa_curId wa_cache_mem wa_cache wi_new wi_size]; try done.
  - split; cbn [wi_new wi_priv wi_curOffset wi_size]; [|lia|lia|done]. exists [], tail.
    pose proof (uba_from_ok s d _ Hb 8 ltac:(rewrite !length_app, !length_le_bytes; lia)) as Hb'.
    pose proof (buf_len _ _ _ Hb) as Hdl. rewrite !length_app, !length_le_bytes in Hdl.
    split; [|unfold uba_plus, uba_from; by rewrite (proj2 (Z.ltb_ge (m_len d) 8)) by lia]. cbn [app]. unfold uba_plus.
    rewrite (app_assoc (le_bytes 4 _)), drop_app_length' in Hb' by (rewrite length_app, !length_le_bytes; done). done.
  - assert (u32 (zlen ws + 2) = zlen ws + 2) as Hw2 by (apply wrap_small; unfold fits; lia).
    split; cbn [wi_new wi_priv wi_curOffset wi_size]; rewrite ?Hw2.
    + exists [], tail. split; [|by rewrite Hg]. unfold wah_image. by rewrite !words_cons, <- !app_assoc.
    + unfold wah_image. cbn [length app]. lia.
    + unfold wah_image. cbn [length app]. lia.
    + cbn [app]. apply Forall_cons; split; [unfold fits; lia|]. apply Forall_cons; split; [unfold fits; lia|done].
  - rewrite wrap_small by (unfold fits; lia). done.
Qed.

Lemma dataIterator_ok s w pre post : wah_holds s w pre post ->
  exists it, wah_dataIterator s w = Ok it /\ wit_at s it (pre ++ post) /\ wi_size it = zlen (pre ++ post) + 2.
Proof using.
  intros Hh. unfold wah_dataIterator. destruct (wi_next_ok s _ _ _ (wh_full _ _ _ _ Hh)) as (i1 & -> & H1 & E1). rewrite bind_ok_l.
  destruct (wi_next_ok s _ _ _ H1) as (i2 & -> & H2 & E2). rewrite bind_ok_l. exists i2. split; [done|]. split; [done|].
  rewrite E2, E1. apply Hh.
Qed.
End index.

(** The bits of the blocks behind [a]. *)
Lemma bval_mid a c d i : Forall (fits 31) a -> Forall (fits 31) c -> Forall (fits 31) d -> 0 <= i < 31 * zlen c ->
  Z.testbit (bval (a ++ c ++ d)) (31 * zlen a + i) = Z.testbit (bval c) i.
Proof.
  intros Ha Hc Hd Hi. rewrite bval_bit by (done || lia || by apply Forall_app). rewrite (proj2 (Z.ltb_ge _ _)) by lia.
  replace (31 * zlen a + i - 31 * zlen a) with i by lia. rewrite bval_bit by (done || lia). by rewrite (proj2 (Z.ltb_lt _ _)) by lia.
Qed.

Lemma run_bits (f : bool) n i : 0 <= i < 31 * Z.of_nat n -> Z.testbit (bval (replicate n (if f then full else 0))) i = f.
Proof.
  revert i. induction n as [|n IH]; intros i Hi; [lia|].
  assert (fits 31 (if f then full else 0)) as Hx by (unfold fits, full; destruct f; lia).
  change (replicate (Datatypes.S n) (if f then full else 0)) with ([if f then full else 0] ++ replicate n (if f then full else 0)).
  rewrite bval_bit; [|by apply Forall_singleton|by apply Forall_replicate|lia]. cbn [length bval].
  destruct (Z.ltb_spec i (31 * Z.of_nat 1)); [|apply IH; lia]. rewrite Z.mul_0_r, Z.add_0_r. destruct f; [|apply Z.bits_0].
  change full with (Z.ones 31). apply Z.ones_spec_low. lia.
Qed.

Section lookup.
Context {S : Type} {B : Backend S} {BO : BackendOk S}.
Implicit Types (s : S) (w : wah) (ws : list Z).

(** The ids in front of position [31 * zlen (blocks pre)] are not more than the numbers there. *)
Lemma cached_few V n : 0 <= n -> zlen (set_positions V 0 n) <= n.
Proof using. intros Hn. etrans; [apply set_positions_length|lia]. Qed.

(** A word into the cache. *)
Lemma wa_put_word_ok V mem cache (a d : list Z) x : wbuf mem cache (set_positions V 0 (31 * zlen a)) -> wok x ->
  V = bval (a ++ wblocks x ++ d) -> Forall (fits 31) a -> Forall (fits 31) d -> 31 * (zlen a + zlen (wblocks x)) < 2 ^ 32 ->
  exists mem' cache', wa_put_word mem cache (31 * zlen a) x = Ok (mem', cache', 31 * zlen (a ++ wblocks x)) /\
    wbuf mem' cache' (set_positions V 0 (31 * zlen (a ++ wblocks x))).
Proof using.
  intros Hc Hx HVe Ha Hd Hlim. destruct (wok_blocks _ Hx) as [Hbx _].
  assert (forall j, 0 <= j < 31 * zlen (wblocks x) -> Z.testbit (bval (wblocks x)) j = Z.testbit V (31 * zlen a + j)) as HV.
  { intros j Hj. rewrite HVe. by rewrite bval_mid. }
  pose proof (cached_few V (31 * zlen a) ltac:(lia)) as Hcf. unfold wa_put_word.
  rewrite length_app, Nat2Z.inj_add, Z.mul_add_distr_l, set_positions_app, Z.add_0_l by lia.
  destruct Hx as [b Hb|f n Hn].
  - rewrite wblocks_lit in *. destruct (lit_low b) as (-> & -> & _). cbn [length] in *. cbn [Z.eqb negb].
    destruct (wa_put_bits_ok 31 V _ _ (31 * zlen a) b _ Hc) as (m1 & c1 & -> & Hc'); [lia|lia|done|by apply Forall_inv in Hbx| |].
    { intros j Hj. rewrite <- HV by lia. cbn [bval]. f_equal. lia. }
    rewrite bind_ok_l. exists m1, c1. split; [|done]. rewrite wrap_small by (unfold fits; lia). done.
  - rewrite wblocks_run in * by lia. destruct (run_low f n ltac:(lia)) as (-> & _ & _ & _ & -> & ->). cbn [Z.eqb negb].
    rewrite length_replicate in *. rewrite (wrap_small 32 (n * 31)), wrap_small by (unfold fits; lia).
    replace (31 * zlen a + n * 31) with (31 * zlen a + 31 * Z.of_nat (Z.to_nat n)) by lia.
    destruct f; cbn [Z.b2z Z.eqb negb].
    + destruct (wa_put_run_ok (Z.to_nat (n * 31)) V mem cache (31 * zlen a) _ Hc) as (m1 & c1 & -> & Hc'); [lia|lia|done| |].
      { intros j Hj. rewrite <- HV by lia. apply (run_bits true). lia. }
      rewrite bind_ok_l. exists m1, c1. split; [done|]. by replace (31 * Z.of_nat (Z.to_nat n)) with (Z.of_nat (Z.to_nat (n * 31))) by lia.
    + rewrite bind_ok_l. exists mem, cache. split; [done|]. rewrite (set_positions_none V (31 * zlen a)), app_nil_r; [done|].
      intros i Hi. replace i with (31 * zlen a + (i - 31 * zlen a)) by lia. rewrite <- HV by lia. apply (run_bits false). lia.
Qed.

Lemma blocks_snoc ws x : blocks (ws ++ [x]) = blocks ws ++ wblocks x.
Proof using. rewrite blocks_app, blocks_cons. change (blocks []) with (@nil Z). by rewrite app_nil_r. Qed.

Lemma wa_fill_ok fuel s w pre post pos : wah_holds s w pre post -> (length post < fuel)%nat ->
  0 <= pos < zlen (bids (blocks (pre ++ post))) ->
  exists w' pre' post', wa_fill fuel s w pos = Ok w' /\ wah_holds s w' pre' post' /\ pre' ++ post' = pre ++ post /\
    pos < zlen (set_positions (bval (blocks (pre' ++ post'))) 0 (31 * zlen (blocks pre'))).
Proof using.
  revert w pre post. induction fuel as [|fuel IH]; intros w pre post Hh Hf Hpos; [lia|]. cbn [wa_fill].
  pose proof Hh as [Hwl Hfew Hsize Hcur Hcsz Hfull Hfsz Hid Hc]. rewrite (wbuf_put _ _ _ Hc), Z.mul_comm, Z.div_mul by lia.
  destruct (Z.leb_spec (zlen (set_positions (bval (blocks (pre ++ post))) 0 (31 * zlen (blocks pre)))) pos) as [Hle|Hlt];
    [|by exists w, pre, post].
  destruct post as [|x post].
  { rewrite app_nil_r in Hle, Hpos. unfold bids in Hpos. lia. }
  destruct (wi_next_ok s _ x post Hcur) as (cur & -> & Hcur' & Hcs). rewrite bind_ok_l, Hid.
  pose proof Hwl as [[Hwp [Hx Hwq]%Forall_cons]%Forall_app Hlim]. rewrite blocks_app, blocks_cons, !length_app in Hlim.
  destruct (wa_put_word_ok (bval (blocks (pre ++ x :: post))) _ _ (blocks pre) (blocks post) x Hc Hx) as (mem & cache & -> & Hc').
  { by rewrite blocks_app, blocks_cons. } { by apply blocks_ok. } { by apply blocks_ok. } { lia. }
  rewrite bind_ok_l, <- blocks_snoc in *. pose proof (app_cons pre x post) as Happ.
  destruct (IH (mkWah cur (wa_fullData w) (wa_size w) (31 * zlen (blocks (pre ++ [x]))) mem cache) (pre ++ [x]) post)
    as (w' & pre' & post' & -> & Hh' & Heq & Hlt).
  - split; cbn [wa_curData wa_fullData wa_size wa_curId wa_cache_mem wa_cache]; rewrite <- ?Happ; try done. by rewrite Hcs.
  - cbn [length] in Hf. lia.
  - by rewrite <- Happ.
  - exists w', pre', post'. by rewrite Happ.
Qed.

Definition wah_usable s w (l : list Z) : Prop := exists pre post, wah_holds s w pre post /\ l = bids (blocks (pre ++ post)).

Lemma wah_at_ok s w l pos : wah_usable s w l -> 0 <= pos ->
  exists w', wah_at s w pos = Ok (w', default 0 (l !! Z.to_nat pos)) /\ wah_usable s w' l.
Proof using.
  intros (pre & post & Hh & ->) Hp. unfold wah_at. pose proof Hh as [Hwl Hfew Hsize Hcur Hcsz Hfull Hfsz Hid Hc]. rewrite Hsize.
  destruct (Z.leb_spec (zlen (bids (blocks (pre ++ post)))) pos) as [Hle|Hlt].
  { rewrite orb_true_r. exists w. rewrite lookup_ge_None_2 by lia. split; [done|]. by exists pre, post. }
  rewrite (proj2 (Z.eqb_neq _ 0)) by lia. cbn [orb].
  destruct (wa_fill_ok (Datatypes.S (Z.to_nat (wi_size (wa_curData w)))) s w pre post pos Hh) as (w' & pre' & post' & -> & Hh' & Heq & Hlt');
    [rewrite Hcsz, length_app; lia|done|].
  rewrite bind_ok_l. rewrite <- Heq in *. clear Hh Hwl Hfew Hsize Hcur Hcsz Hfull Hfsz Hid Hc.
  destruct Hh' as [[Hwf Hlim] Hfew Hsize Hcur Hcsz Hfull Hfsz Hid Hc]. rewrite (wrap_small 32 (pos * 4)) by (unfold fits; lia).
  destruct (lookup_lt_is_Some_2 (set_positions (bval (blocks (pre' ++ post'))) 0 (31 * zlen (blocks pre'))) (Z.to_nat pos)) as [x Hx]; [lia|].
  assert (bids (blocks (pre' ++ post')) !! Z.to_nat pos = Some x) as Hx'.
  { rewrite blocks_app, bids_split, <- blocks_app. by apply lookup_app_l_Some. }
  assert (fits 32 x) as Hfx.
  { apply list_elem_of_lookup_2 in Hx'. pose proof (proj1 (proj2 (bids_ok _ Hlim))) as Hb. rewrite Forall_forall in Hb.
    specialize (Hb x Hx'). unfold fits. lia. }
  pose proof (list_elem_of_split_length _ _ _ Hx) as (l1 & l2 & E & Hl1). rewrite E in Hc.
  replace (pos * 4) with (4 * zlen l1) by lia. rewrite (wbuf_read _ _ _ _ _ Hc Hfx), bind_ok_l. exists w'. rewrite Hx'. split; [done|].
  exists pre', post'. split; [|done]. rewrite <- E in Hc. by split.
Qed.

Definition wah_ai_rep s (x : S * wah) (l : list Z) : Prop := fst x = s /\ wah_usable s (snd x) l.
End lookup.

(** * Creating *)

(** A number above the numbers so far. *)
Lemma testbit_add_pow2 V n x i : 0 <= n <= x -> 0 <= V < 2 ^ n -> 0 <= i -> Z.testbit (V + 2 ^ x) i = Z.testbit V i || (i =? x).
Proof.
  intros Hn HV Hi. assert (V &&& 2 ^ x = 0) as Hl.
  { apply Z.bits_inj'. intros k Hk. rewrite Z.land_spec, Z.pow2_bits_eqb, Z.bits_0 by lia. destruct (Z.eqb_spec x k) as [<-|]; [|by rewrite andb_false_r].
    by rewrite (testbit_fits_high n V x HV) by lia. }
  rewrite Z.add_nocarry_lxor, Z.lxor_lor, Z.lor_spec, Z.pow2_bits_eqb by (done || lia). f_equal. apply Z.eqb_sym.
Qed.

Lemma set_positions_snoc V n x : 0 <= n <= x -> 0 <= V < 2 ^ n ->
  set_positions (V + 2 ^ x) 0 (x + 1) = set_positions V 0 n ++ [x].
Proof.
  intros Hn HV. replace (x + 1) with (n + (x - n + 1)) by lia. rewrite set_positions_app, Z.add_0_l by lia. f_equal.
  - apply sorted_ext; [apply sorted_set_positions..|]. intros i. rewrite !elem_of_set_positions.
    split; intros [Hi Hb]; (split; [done|]); [rewrite <- Hb; symmetry|rewrite <- Hb];
      rewrite (testbit_add_pow2 V n x), (proj2 (Z.eqb_neq i x)), orb_false_r by lia; done.
  - assert (forall i, n <= i < x -> Z.testbit (V + 2 ^ x) i = false) as Hz.
    { intros i Hi. rewrite (testbit_add_pow2 V n x) by lia. rewrite (testbit_fits_high n V i HV) by lia. apply Z.eqb_neq. lia. }
    replace (x - n + 1) with ((x - n) + 1) by lia. rewrite set_positions_app by lia. rewrite set_positions_none by (intros i Hi; apply Hz; lia).
    replace (n + (x - n)) with x by lia. rewrite set_positions_cons; [by rewrite set_positions_none by lia|lia|].
    rewrite (testbit_add_pow2 V n x) by lia. rewrite Z.eqb_refl. apply orb_true_r.
Qed.

Lemma run_word (f : bool) n : 0 <= n < 2 ^ 30 -> u32 (n <<< 2) ||| (if f then 3 else 1) = 4 * n + if f then 3 else 1.
Proof.
  intros Hn. rewrite Z.shiftl_mul_pow2, wrap_small by (unfold fits; lia). change (2 ^ 2) with 4.
  assert (n * 4 &&& (if f then 3 else 1) = 0) as Hl.
  { change 4 with (2 ^ 2). rewrite <- Z.shiftl_mul_pow2 by lia. destruct f; [change 3 with (Z.ones 2)|change 1 with (Z.ones 1)]; bitwise. }
  rewrite <- Z.lxor_lor, <- Z.add_nocarry_lxor by done. lia.
Qed.

Lemma lit_word b : 0 <= b < 2 ^ 31 -> u32 (b <<< 1) = 2 * b.
Proof. intros Hb. rewrite Z.shiftl_mul_pow2, wrap_small by (unfold fits; lia). change (2 ^ 1) with 2. lia. Qed.

Lemma bval_zeros n : bval (replicate n 0) = 0.
Proof. induction n as [|n IH]; [done|]. cbn [replicate bval]. rewrite IH. lia. Qed.

Lemma wc_setBit_ok word pos skip : 0 <= pos -> 0 <= skip -> pos + skip <= 30 -> fits pos word ->
  wc_setBit word pos skip = Ok (word + 2 ^ (pos + skip), pos + skip + 1) /\ fits (pos + skip + 1) (word + 2 ^ (pos + skip)) /\ 0 < word + 2 ^ (pos + skip).
Proof.
  intros H0 Hs Hn Hw. unfold wc_setBit. rewrite (wrap_small 8 (pos + skip)), (wrap_small 8 (pos + skip + 1)) by (unfold fits; lia).
  rewrite (proj2 (Z.leb_gt _ _)) by lia. cbn [throw_if]. rewrite bind_ok_l, Z.shiftl_1_l.
  pose proof (Z.pow_le_mono_r 2 pos (pos + skip) ltac:(lia) ltac:(lia)). pose proof (Z.pow_le_mono_r 2 (pos + skip) 30 ltac:(lia) ltac:(lia)).
  rewrite wrap_small by (unfold fits in *; lia). unfold fits in *.
  assert (2 ^ (pos + skip + 1) = 2 ^ (pos + skip) * 2) as E2 by (by rewrite (Z.pow_add_r 2 (pos + skip) 1) by lia).
  rewrite E2. split; [|lia].
  unfold mret, result_ret. do 2 f_equal. apply Z.bits_inj'. intros i Hi.
  rewrite (testbit_add_pow2 word pos (pos + skip) i), Z.lor_spec, Z.pow2_bits_eqb by lia. f_equal. apply Z.eqb_sym.
Qed.

(** The number of the blocks and the block begun. *)
Definition wval (bl : list Z) (word : Z) : Z := bval bl + 2 ^ (31 * zlen bl) * word.

Lemma wval_snoc bl word : bval (bl ++ [word]) = wval bl word.
Proof. rewrite bval_app. unfold wval. cbn [bval]. f_equal. f_equal. lia. Qed.

Lemma wval_zeros bl word n : wval (bl ++ [word] ++ replicate n 0) 0 = wval bl word.
Proof.
  unfold wval at 1. rewrite Z.mul_0_r, Z.add_0_r, app_assoc, bval_app, bval_zeros, Z.mul_0_r, Z.add_0_r. apply wval_snoc.
Qed.

(** What was written from the put position on. *)
Record emitted {S : Type} {B : Backend S} {BO : BackendOk S} (l : list Z) (p off get : Z) (s : S) (dest : uba) (ws : list Z) : Prop := {
  em_buf : buf s dest (splice l p (words ws));
  em_put : m_putPtr dest = p + 4 * zlen ws;
  em_off : m_offSet dest = off;
  em_get : m_getPtr dest = get;
}.

Section create.
Context {S : Type} {B : Backend S} {BO : BackendOk S}.
Context (l : list Z) (p off get : Z) (Hp : 0 <= p <= zlen l) (Hoff : off + zlen l < 2 ^ 63).
Implicit Types (s : S) (dest : uba) (ws : list Z).
Abbreviation emitted := (emitted l p off get).

Lemma wah_emit_ok s dest ws x : emitted s dest ws -> fits 32 x -> zlen ws < 2 ^ 32 ->
  exists s' dest', uba_sput Uint32 s dest x = Ok (s', dest') /\ emitted s' dest' (ws ++ [x]).
Proof using Hp Hoff.
  intros [Hb Hpt Ho Hg] Hx Hn. pose proof (words_len ws) as Hl. destruct (scalar_bytes_ok Uint32 x Hx) as (Hok & Hbl & _).
  destruct (sput_ok s dest _ Hb) with (ty := Uint32) (v := x) (bs := le_bytes 4 x) as (s' & d' & Hput & [Hb' Ho' Hg' Hp']);
    [rewrite Hpt; unfold splice; rewrite !length_app, length_take, length_drop; lia|done|done|exact Hok|rewrite length_le_bytes; lia|].
  exists s', d'. split; [done|]. split; [|rewrite Hp', Hpt, length_app, length_le_bytes; cbn [length]; lia|congruence|congruence].
  rewrite Hpt, <- Hl, splice_splice in Hb' by lia.
  assert (words (ws ++ [x]) = words ws ++ le_bytes 4 x) as -> by (rewrite words_app, words_cons; change (words []) with (@nil Z); by rewrite app_nil_r). exact Hb'.
Qed.

(** The words [ws] are written behind the header [h], a run of [rle] full blocks is counted
    and the block [word] has [pos] bits: together the blocks [bl] and a part of one. *)
Record wc_state (h : list Z) s dest (rle word pos : Z) (ws bl : list Z) : Prop := {
  ca_em : emitted s dest (h ++ ws);
  ca_wok : Forall wok ws;
  ca_rle : 0 <= rle;
  ca_bl : bl = blocks ws ++ replicate (Z.to_nat rle) full;
  ca_pos : 0 <= pos <= 31;
  ca_word : fits pos word;
  ca_top : 0 < pos -> 0 < word;
}.

Context (h : list Z) (Hh : zlen h = 2).
Abbreviation wc_at := (wc_state h).

Lemma wc_put s dest ws x : emitted s dest (h ++ ws) -> Forall wok ws -> wok x -> zlen ws < 2 ^ 28 ->
  exists s' dest', uba_sput Uint32 s dest x = Ok (s', dest') /\ emitted s' dest' (h ++ ws ++ [x]) /\ Forall wok (ws ++ [x]).
Proof using Hp Hoff Hh.
  intros He Hw Hx Hn. destruct (wah_emit_ok s dest _ x He) as (s' & d' & Hput & He'); [by apply wok_fits|rewrite length_app; lia|].
  exists s', d'. rewrite <- app_assoc in He'. split; [done|]. split; [done|]. apply Forall_app. by split; [|apply Forall_singleton].
Qed.

Lemma wc_flushRle_ok s dest rle word pos ws bl : wc_at s dest rle word pos ws bl -> zlen bl < 2 ^ 28 ->
  exists s' dest' ws', wc_flushRle s dest rle = Ok (s', dest') /\ wc_at s' dest' 0 word pos ws' bl.
Proof using Hp Hoff Hh.
  intros [He Hw Hr Hbl Hps Hwd Ht] Hn. unfold wc_flushRle. rewrite Hbl, length_app, length_replicate in Hn. pose proof (proj2 (blocks_ok ws Hw)).
  destruct (Z.eqb_spec rle 0) as [->|Hne]; [by exists s, dest, ws|]. rewrite (run_word true) by lia.
  destruct (wc_put s dest ws (4 * rle + 3) He Hw) as (s' & d' & -> & He' & Hw'); [apply (wok_run true); lia|lia|].
  exists s', d', (ws ++ [4 * rle + 3]). split; [done|]. split; try done. rewrite blocks_snoc, (wblocks_run true) by lia. cbn. by rewrite app_nil_r.
Qed.

(** A block that is neither empty nor full. *)
Lemma wc_put_lit s dest word pos ws bl : wc_at s dest 0 word pos ws bl -> 0 < word < full -> zlen bl < 2 ^ 28 ->
  exists s' dest' ws', uba_sput Uint32 s dest (u32 (word <<< 1)) = Ok (s', dest') /\ wc_at s' dest' 0 0 0 ws' (bl ++ [word]).
Proof using Hp Hoff Hh.
  intros [He Hw Hr Hbl Hps Hwd Ht] Hx Hn. rewrite Hbl, length_app, length_replicate in Hn. pose proof (proj2 (blocks_ok ws Hw)).
  rewrite lit_word by (unfold full in Hx; lia).
  destruct (wc_put s dest ws (2 * word) He Hw) as (s' & d' & -> & He' & Hw'); [by apply wok_lit|lia|].
  exists s', d', (ws ++ [2 * word]). split; [done|]. split; try done.
  rewrite blocks_snoc, wblocks_lit, Hbl. cbn. by rewrite !app_nil_r.
Qed.

Lemma wc_put_zeros s dest n ws bl : wc_at s dest 0 0 0 ws bl -> 1 <= n < 2 ^ 30 -> zlen bl < 2 ^ 28 ->
  exists s' dest' ws', uba_sput Uint32 s dest (u32 (n <<< 2) ||| 1) = Ok (s', dest') /\
    wc_at s' dest' 0 0 0 ws' (bl ++ replicate (Z.to_nat n) 0).
Proof using Hp Hoff Hh.
  intros [He Hw Hr Hbl Hps Hwd Ht] Hx Hn. rewrite Hbl, length_app, length_replicate in Hn. pose proof (proj2 (blocks_ok ws Hw)).
  rewrite (run_word false) by lia.
  destruct (wc_put s dest ws (4 * n + 1) He Hw) as (s' & d' & -> & He' & Hw'); [apply (wok_run false); lia|lia|].
  exists s', d', (ws ++ [4 * n + 1]). split; [done|]. split; try done.
  rewrite blocks_snoc, (wblocks_run false), Hbl by lia. cbn. by rewrite !app_nil_r.
Qed.

Lemma wc_place_ok s dest c ws bl x : wc_at s dest (wc_rle c) (wc_word c) (wc_pos c) ws bl -> wc_pos c <= 30 ->
  31 * zlen bl + wc_pos c <= x < 2 ^ 32 - 4 ->
  exists s' dest' rle word q ws' bl', wc_place s dest c (x - (31 * zlen bl + wc_pos c) + 1) = Ok (s', dest', rle, (word, q + 1)) /\
    wc_at s' dest' rle word (q + 1) ws' bl' /\ 31 * zlen bl' + q = x /\ 0 <= q <= 30 /\ wval bl' word = wval bl (wc_word c) + 2 ^ x.
Proof using Hp Hoff Hh.
  intros Hc Hps Hx. pose proof Hc as [_ _ _ _ Hps' Hwd Htop]. unfold wc_place. set (o := x - (31 * zlen bl + wc_pos c) + 1).
  destruct (Z.ltb_spec (31 - wc_pos c) o) as [Hlt|Hge].
  - assert (zlen bl < 2 ^ 28) as Hbl by lia.
    destruct (wc_flushRle_ok s dest _ _ _ _ _ Hc Hbl) as (s1 & d1 & ws1 & -> & Hc1). rewrite bind_ok_l.
    assert (exists s2 d2 ws2 bl2,
      (if negb (wc_pos c =? 0) then
         '(s, dest) ← uba_sput Uint32 s1 d1 (u32 (wc_word c <<< 1)); mret (s, dest, 0, u32 (o - 1 - (31 - wc_pos c)))
       else Ok (s1, d1, wc_word c, o - 1)) = Ok (s2, d2, 0, x - 31 * zlen bl2) /\ wc_at s2 d2 0 0 0 ws2 bl2 /\
      31 * zlen bl2 <= x /\ wval bl2 0 = wval bl (wc_word c)) as (s2 & d2 & ws2 & bl2 & -> & Hc2 & Hx2 & Hv2).
    { destruct (Z.eqb_spec (wc_pos c) 0) as [E|E]; cbn [negb].
      - rewrite E in *. assert (wc_word c = 0) as Ew by (unfold fits in Hwd; change (2 ^ 0) with 1 in Hwd; lia). rewrite Ew in *.
        exists s1, d1, ws1, bl. split; [unfold o; do 2 f_equal; lia|]. split; [done|]. split; [lia|done].
      - destruct (wc_put_lit s1 d1 (wc_word c) (wc_pos c) ws1 bl Hc1) as (s2 & d2 & ws2 & -> & Hc2); [|done|].
        { pose proof (Z.pow_le_mono_r 2 (wc_pos c) 30 ltac:(lia) ltac:(lia)). unfold fits, full in *. lia. }
        rewrite bind_ok_l. exists s2, d2, ws2, (bl ++ [wc_word c]). rewrite length_app. cbn [length].
        rewrite wrap_small by (unfold o, fits; lia). split; [unfold mret, result_ret; do 2 f_equal; unfold o; lia|]. split; [done|]. split; [lia|].
        exact (wval_zeros bl (wc_word c) 0). }
    clear Hc Hc1. rewrite bind_ok_l. set (y := x - 31 * zlen bl2) in *.
    assert (exists s3 d3 ws3 bl3,
      (if 31 <=? y then
         '(s, dest) ← uba_sput Uint32 s2 d2 (u32 ((y / 31) <<< 2) ||| 1); mret (s, dest, u32 (y - y / 31 * 31))
       else Ok (s2, d2, y)) = Ok (s3, d3, y mod 31) /\ wc_at s3 d3 0 0 0 ws3 bl3 /\ 31 * zlen bl3 + y mod 31 = x /\
      wval bl3 0 = wval bl2 0) as (s3 & d3 & ws3 & bl3 & -> & Hc3 & Hx3 & Hv3).
    { destruct (Z.leb_spec 31 y).
      - assert (1 <= y / 31) by (apply Z.div_le_lower_bound; lia). pose proof (Z.div_mod y 31 ltac:(lia)). pose proof (Z.mod_pos_bound y 31 ltac:(lia)).
        destruct (wc_put_zeros s2 d2 (y / 31) ws2 bl2 Hc2) as (s3 & d3 & ws3 & -> & Hc3); [lia|lia|]. rewrite bind_ok_l.
        exists s3, d3, ws3, (bl2 ++ replicate (Z.to_nat (y / 31)) 0). rewrite length_app, length_replicate, wrap_small by (unfold fits; lia).
        split; [unfold mret, result_ret; do 2 f_equal; lia|]. split; [done|]. split; [lia|].
        unfold wval. rewrite bval_app, bval_zeros. lia.
      - exists s2, d2, ws2, bl2. rewrite Z.mod_small by lia. split; [done|]. split; [done|]. split; [unfold y; lia|done]. }
    rewrite bind_ok_l, Z.mod_mod by lia. pose proof (Z.mod_pos_bound y 31 ltac:(lia)) as Hym.
    destruct (wc_setBit_ok 0 (y mod 31) 0) as (-> & Hf & Hpos); [lia|lia|lia|unfold fits; pose proof (pow2_pos (y mod 31)); lia|].
    rewrite bind_ok_l, Z.add_0_r, Z.add_0_l in *. exists s3, d3, 0, (2 ^ (y mod 31)), (y mod 31), ws3, bl3. split; [done|].
    destruct Hc3 as [He Hw Hr Hbl3 _ _ _]. split; [split; try done; lia|]. split; [done|]. split; [lia|].
    rewrite <- Hv2, <- Hv3. unfold wval. rewrite Z.mul_0_r, Z.add_0_r, <- Z.pow_add_r by lia. do 2 f_equal. lia.
  - destruct (wc_setBit_ok (wc_word c) (wc_pos c) (o - 1)) as (-> & Hf & Hpos); [lia|unfold o; lia|lia|done|]. rewrite bind_ok_l.
    exists s, dest, (wc_rle c), (wc_word c + 2 ^ (wc_pos c + (o - 1))), (wc_pos c + (o - 1)), ws, bl. split; [done|].
    destruct Hc as [He Hw Hr Hbl _ _ _]. split; [split; try done; lia|]. split; [unfold o; lia|]. split; [unfold o in *; lia|].
    unfold wval. rewrite Z.mul_add_distr_l, <- Z.pow_add_r by (unfold o; lia). rewrite Z.add_assoc. do 2 f_equal. unfold o. lia.
Qed.
End create.

Lemma wval_fits bl word pos : Forall (fits 31) bl -> 0 <= pos -> fits pos word -> 0 <= wval bl word < 2 ^ (31 * zlen bl + pos).
Proof.
  intros Hbl Hp Hw. pose proof (bval_fits bl Hbl) as Hb. unfold fits, wval in *. rewrite Z.pow_add_r by lia. nia.
Qed.

Section created.
Context {S : Type} {B : Backend S} {BO : BackendOk S}.
Context (l : list Z) (p off get : Z) (Hp : 0 <= p <= zlen l) (Hoff : off + zlen l < 2 ^ 63) (h : list Z) (Hh : zlen h = 2).
Implicit Types (s : S) (dest : uba) (ws : list Z).
Abbreviation wc_at := (wc_state l p off get h).

(** The ids [src] have been seen. *)
Record wc_inv s dest (c : wcs) (src ws bl : list Z) : Prop := {
  ci_at : wc_at s dest (wc_rle c) (wc_word c) (wc_pos c) ws bl;
  ci_pos : wc_pos c <= 30;
  ci_prev : wc_prev c + 1 = 31 * zlen bl + wc_pos c;
  ci_src : set_positions (wval bl (wc_word c)) 0 (wc_prev c + 1) = src;
}.

Lemma wc_at_bl s dest rle word pos ws bl : wc_at s dest rle word pos ws bl -> Forall (fits 31) bl /\ zlen ws <= zlen bl.
Proof using.
  intros [_ Hw _ -> _ _ _]. destruct (blocks_ok ws Hw) as [Hb Hn]. rewrite length_app. split; [|lia]. apply Forall_app. split; [done|].
  apply Forall_replicate. unfold fits, full. lia.
Qed.

(** The end of a step: a block with all its bits is written or counted. *)
Lemma wc_commit_ok s dest rle word q ws bl x : wc_at s dest rle word (q + 1) ws bl -> 0 <= q <= 30 -> 31 * zlen bl + q = x -> x < 2 ^ 32 - 4 ->
  exists s' dest' c ws' bl',
    (if 30 <? q + 1 then
       if word =? 2147483647 then Ok (s, dest, mkWcs x (u32 (rle + 1)) 0 0)
       else '(s, dest) ← wc_flushRle s dest rle; '(s, dest) ← uba_sput Uint32 s dest (u32 (word <<< 1)); mret (s, dest, mkWcs x 0 0 0)
     else Ok (s, dest, mkWcs x rle word (q + 1))) = Ok (s', dest', c) /\
    wc_prev c = x /\ wc_at s' dest' (wc_rle c) (wc_word c) (wc_pos c) ws' bl' /\ wc_pos c <= 30 /\ 31 * zlen bl' + wc_pos c = x + 1 /\
    wval bl' (wc_word c) = wval bl word.
Proof using Hp Hoff Hh.
  intros Hc Hq Hx Hlim. destruct (Z.ltb_spec 30 (q + 1)) as [Hlt|Hge].
  - assert (q = 30) as -> by lia. pose proof Hc as [He Hw Hr Hbl _ Hwd Ht]. change (30 + 1) with 31 in *.
    destruct (Z.eqb_spec word 2147483647) as [->|Hne].
    + assert (rle <= zlen bl) by (rewrite Hbl, length_app, length_replicate; lia).
      rewrite (wrap_small 32 (rle + 1)) by (unfold fits; lia). exists s, dest, (mkWcs x (rle + 1) 0 0), ws, (bl ++ [full]). split; [done|]. split; [done|].
      cbn [wc_rle wc_word wc_pos]. split; [|split; [lia|split; [rewrite length_app; cbn [length]; lia|exact (wval_zeros bl full 0)]]].
      split; try done; [lia|]. rewrite Hbl, <- app_assoc. f_equal. replace (Z.to_nat (rle + 1)) with (Z.to_nat rle + 1)%nat by lia. by rewrite replicate_add.
    + assert (0 < word < full) as Hlit by (unfold fits, full in *; lia).
      destruct (wc_flushRle_ok l p off get Hp Hoff h Hh s dest _ _ _ _ _ Hc) as (s1 & d1 & ws1 & -> & Hc1); [lia|]. rewrite bind_ok_l.
      destruct (wc_put_lit l p off get Hp Hoff h Hh s1 d1 _ _ _ _ Hc1 Hlit) as (s2 & d2 & ws2 & -> & Hc2); [lia|]. rewrite bind_ok_l.
      exists s2, d2, (mkWcs x 0 0 0), ws2, (bl ++ [word]). split; [done|]. split; [done|]. cbn [wc_rle wc_word wc_pos]. split; [done|]. split; [lia|].
      split; [rewrite length_app; cbn [length]; lia|exact (wval_zeros bl word 0)].
  - exists s, dest, (mkWcs x rle word (q + 1)), ws, bl. split; [done|]. split; [done|]. cbn [wc_rle wc_word wc_pos]. split; [done|]. split; [lia|]. split; [lia|done].
Qed.

Lemma wc_inv_snoc s dest rle word pos ws bl c s' dest' ws' bl' src x : wc_at s dest rle word pos ws bl -> 31 * zlen bl + pos <= x ->
  set_positions (wval bl word) 0 (31 * zlen bl + pos) = src -> wc_prev c = x -> wc_at s' dest' (wc_rle c) (wc_word c) (wc_pos c) ws' bl' ->
  wc_pos c <= 30 -> 31 * zlen bl' + wc_pos c = x + 1 -> wval bl' (wc_word c) = wval bl word + 2 ^ x ->
  wc_inv s' dest' c (src ++ [x]) ws' bl'.
Proof using.
  intros Hc Hx Hsrc Hpv Hc' Hps He Hv. pose proof Hc as [_ _ _ _ Hpos Hwd _]. destruct (wc_at_bl _ _ _ _ _ _ _ Hc) as [Hbl _].
  pose proof (wval_fits bl word pos Hbl ltac:(lia) Hwd). split; [done|done|lia|].
  rewrite Hpv, Hv, (set_positions_snoc _ (31 * zlen bl + pos)) by lia. by rewrite Hsrc.
Qed.

Lemma wc_next_ok s dest c src ws bl x : wc_inv s dest c src ws bl -> wc_prev c < x < 2 ^ 32 - 4 ->
  exists s' dest' c' ws' bl', wc_next s dest c x = Ok (s', dest', c') /\ wc_prev c' = x /\ wc_inv s' dest' c' (src ++ [x]) ws' bl'.
Proof using Hp Hoff Hh.
  intros [Hc Hps Hpv Hsrc] Hx. unfold wc_next. pose proof Hc as [_ _ _ _ Hps' _ _]. rewrite wrap_small by (unfold fits; lia).
  destruct (wc_place_ok l p off get Hp Hoff h Hh s dest c ws bl x Hc Hps) as (s1 & d1 & rle & word & q & ws1 & bl1 & Hpl & Hc1 & Hq1 & Hq2 & Hv1); [lia|].
  replace (x - wc_prev c) with (x - (31 * zlen bl + wc_pos c) + 1) by lia. rewrite Hpl, bind_ok_l.
  destruct (wc_commit_ok s1 d1 rle word q ws1 bl1 x Hc1 Hq2 Hq1) as (s2 & d2 & c2 & ws2 & bl2 & -> & Hp2 & Hc2 & Hps2 & He2 & Hv2); [lia|].
  exists s2, d2, c2, ws2, bl2. split; [done|]. split; [done|].
  eapply (wc_inv_snoc s dest _ _ _ ws bl); [exact Hc|lia|by rewrite <- Hpv|done|done|done|done|congruence].
Qed.

Lemma wc_first_ok s dest x : wc_at s dest 0 0 0 [] [] -> 0 <= x < 2 ^ 32 - 4 ->
  exists s' dest' c ws bl, wc_first s dest x = Ok (s', dest', c) /\ wc_prev c = x /\ wc_inv s' dest' c [x] ws bl.
Proof using Hp Hoff Hh.
  intros Hc Hx. unfold wc_first. pose proof (Z.mod_pos_bound x 31 ltac:(lia)) as Hxm. pose proof (Z.div_mod x 31 ltac:(lia)) as Hxd.
  assert (exists s1 d1 q ws1 bl1,
    (if 30 <? x then
       '(s, dest) ← uba_sput Uint32 s dest (u32 ((x / 31) <<< 2) ||| 1); b ← wc_setBit 0 (x mod 31) 0; mret (s, dest, b)
     else b ← wc_setBit 0 0 x; mret (s, dest, b)) = Ok (s1, d1, (2 ^ q, q + 1)) /\ wc_at s1 d1 0 (2 ^ q) (q + 1) ws1 bl1 /\
    0 <= q <= 30 /\ 31 * zlen bl1 + q = x /\ bval bl1 = 0) as (s1 & d1 & q & ws1 & bl1 & -> & Hc1 & Hq & Hx1 & Hb1).
  { assert (fits 0 0) as Hf0 by done. destruct (Z.ltb_spec 30 x).
    - assert (1 <= x / 31) by (apply Z.div_le_lower_bound; lia).
      destruct (wc_put_zeros l p off get Hp Hoff h Hh s dest (x / 31) [] [] Hc) as (s1 & d1 & ws1 & -> & Hc1); [lia|done|]. rewrite bind_ok_l.
      destruct (wc_setBit_ok 0 (x mod 31) 0) as (-> & Hf & Ht); [lia|lia|lia|unfold fits; pose proof (pow2_pos (x mod 31)); lia|].
      rewrite bind_ok_l, Z.add_0_r, Z.add_0_l in *. eexists s1, d1, (x mod 31), ws1, _. split; [done|]. cbn [app] in Hc1.
      destruct Hc1 as [He Hw Hr Hbl _ _ _]. split; [split; try done; lia|]. split; [lia|]. rewrite length_replicate. split; [lia|apply bval_zeros].
    - destruct (wc_setBit_ok 0 0 x) as (-> & Hf & Ht); [lia|lia|lia|done|]. rewrite bind_ok_l, !Z.add_0_l in *.
      exists s, dest, x, [], []. split; [done|]. destruct Hc as [He Hw Hr Hbl _ _ _]. split; [split; try done; lia|]. split; [lia|]. split; [cbn; lia|done]. }
  rewrite bind_ok_l. pose proof Hc as [_ _ _ _ _ _ _]. assert (wval [] 0 = 0) as Hw0 by done.
  assert (wval bl1 (2 ^ q) = wval [] 0 + 2 ^ x) as Hv1 by (unfold wval at 1; rewrite Hb1, <- Z.pow_add_r by lia; rewrite Hw0, Hx1; done).
  assert (forall c s' dest' ws' bl', wc_prev c = x -> wc_at s' dest' (wc_rle c) (wc_word c) (wc_pos c) ws' bl' -> wc_pos c <= 30 ->
    31 * zlen bl' + wc_pos c = x + 1 -> wval bl' (wc_word c) = wval bl1 (2 ^ q) -> wc_inv s' dest' c [x] ws' bl') as Hdone.
  { intros c s' d' ws' bl' H1 H2 H3 H4 H5. apply (wc_inv_snoc s dest 0 0 0 [] [] c s' d' ws' bl' [] x); try done; [cbn; lia|congruence]. }
  destruct (Z.ltb_spec 30 (q + 1)).
  - assert (q = 30) as -> by lia.
    destruct (wc_put_lit l p off get Hp Hoff h Hh s1 d1 _ _ _ _ Hc1) as (s2 & d2 & ws2 & -> & Hc2); [unfold full; lia|lia|]. rewrite bind_ok_l.
    eexists s2, d2, (mkWcs x 0 0 0), ws2, _. split; [done|]. split; [done|]. eapply Hdone; [done|exact Hc2|cbn; lia|rewrite length_app; cbn [length wc_pos]; lia|].
    exact (wval_zeros bl1 (2 ^ 30) 0).
  - exists s1, d1, (mkWcs x 0 (2 ^ q) (q + 1)), ws1, bl1. split; [done|]. split; [done|]. apply Hdone; cbn [wc_prev wc_rle wc_word wc_pos]; (done || lia).
Qed.

Lemma wc_loop_ok src s dest c done_ ws bl : wc_inv s dest c done_ ws bl -> sorted (wc_prev c :: src) -> Forall (fun x => 0 <= x < 2 ^ 32 - 4) src ->
  exists s' dest' c' ws' bl', wc_loop s dest c src = Ok (s', dest', c') /\ wc_inv s' dest' c' (done_ ++ src) ws' bl' /\
    (wc_prev c < 2 ^ 32 - 4 -> wc_prev c' < 2 ^ 32 - 4).
Proof using Hp Hoff Hh.
  revert s dest c done_ ws bl. induction src as [|x src IH]; intros s dest c dn ws bl Hc Hs Hb; cbn [wc_loop].
  { exists s, dest, c, ws, bl. by rewrite app_nil_r. }
  apply Forall_cons in Hb as [Hx Hb]. destruct (sorted_cons _ _ Hs) as [Hs' Hlt].
  destruct (wc_next_ok s dest c dn ws bl x Hc) as (s1 & d1 & c1 & ws1 & bl1 & -> & Hp1 & Hc1).
  { specialize (Hlt x ltac:(left)). lia. }
  rewrite bind_ok_l. destruct (IH s1 d1 c1 (dn ++ [x]) ws1 bl1 Hc1) as (s2 & d2 & c2 & ws2 & bl2 & -> & Hc2 & Hp2); [by rewrite Hp1|done|].
  exists s2, d2, c2, ws2, bl2. split; [done|]. rewrite <- app_assoc in Hc2. split; [done|]. intros _. apply Hp2. lia.
Qed.

(** At the end there are only words. *)
Lemma wc_last_ok s dest c src ws bl : wc_inv s dest c src ws bl -> wc_prev c < 2 ^ 32 - 4 ->
  exists s' dest' ws', wc_last s dest c = Ok (s', dest') /\ emitted l p off get s' dest' (h ++ ws') /\ wlist ws' /\ bids (blocks ws') = src.
Proof using Hp Hoff Hh.
  intros [Hc Hps Hpv Hsrc] Hlim. unfold wc_last. pose proof Hc as [_ _ _ _ Hpos Hwd Htop].
  pose proof (Z.pow_le_mono_r 2 (wc_pos c) 30 ltac:(lia) ltac:(lia)). rewrite (proj2 (Z.eqb_neq _ 2147483647)) by (unfold fits in Hwd; lia).
  destruct (wc_flushRle_ok l p off get Hp Hoff h Hh s dest _ _ _ _ _ Hc) as (s1 & d1 & ws1 & -> & Hc1); [lia|]. rewrite bind_ok_l.
  destruct (wc_at_bl _ _ _ _ _ _ _ Hc) as [Hblf _]. pose proof (wval_fits bl _ _ Hblf (proj1 Hpos) Hwd) as Hv.
  assert (forall bl2 n, bval bl2 = wval bl (wc_word c) -> 31 * zlen bl2 = wc_prev c + 1 + n -> 0 <= n -> bids bl2 = src) as Hdone.
  { intros bl2 n Hb Hn H0. unfold bids. rewrite Hb, Hn, set_positions_app, Z.add_0_l, Hsrc by lia. rewrite set_positions_none, app_nil_r; [done|].
    intros i Hi. apply (testbit_fits_high (wc_prev c + 1)); [rewrite Hpv; exact Hv|lia]. }
  destruct (Z.eqb_spec (wc_word c) 0) as [E|E].
  - assert (wc_pos c = 0) as Ep by lia. destruct Hc1 as [He Hw _ Hbl _ _ _]. change (replicate (Z.to_nat 0) full) with (@nil Z) in Hbl. rewrite app_nil_r in Hbl.
    subst bl. exists s1, d1, ws1. split; [done|]. split; [done|]. split; [split; [done|lia]|]. apply (Hdone _ 0); [|lia|lia].
    unfold wval. rewrite E. lia.
  - assert (0 < wc_word c < full) as Hlit by (unfold fits, full in *; lia).
    assert (wc_pos c <> 0) as Hp0 by (intros E0; rewrite E0 in Hwd; unfold fits in Hwd; change (2 ^ 0) with 1 in Hwd; lia).
    destruct (wc_put_lit l p off get Hp Hoff h Hh s1 d1 _ _ _ _ Hc1 Hlit) as (s2 & d2 & ws2 & -> & Hc2); [lia|].
    destruct Hc2 as [He Hw _ Hbl _ _ _]. change (replicate (Z.to_nat 0) full) with (@nil Z) in Hbl. rewrite app_nil_r in Hbl.
    exists s2, d2, ws2. split; [done|]. split; [done|]. rewrite <- Hbl. split; [split; [done|]|].
    + rewrite <- Hbl, length_app. cbn [length]. lia.
    + apply (Hdone _ (31 - wc_pos c)); [apply wval_snoc|rewrite length_app; cbn [length]; lia|lia].
Qed.
End created.

Section creating.
Context {S : Type} {B : Backend S} {BO : BackendOk S}.
Implicit Types (s : S) (dest : uba) (ws : list Z).

(** The size goes in front. *)
Lemma put_size_ok l p off get s dest n ws y : 0 <= p <= zlen l -> off + zlen l < 2 ^ 63 -> emitted l p off get s dest (0 :: n :: ws) -> fits 32 y ->
  exists s', uba_put Uint32 s dest p y = Ok s' /\ emitted l p off get s' dest (y :: n :: ws).
Proof using.
  intros Hp Hoff [Hb Hpt Ho Hg] Hy. destruct (scalar_bytes_ok Uint32 y Hy) as (Hok & Hbl & _).
  destruct (buf_put Uint32 s dest _ p y (le_bytes 4 y) Hb) as (s' & -> & Hb' & _); [lia| |done|by rewrite length_le_bytes|exact Hok|].
  { unfold splice. rewrite !length_app, length_take, words_cons, length_app, length_le_bytes. cbn [scalar_len]. lia. }
  exists s'. split; [done|]. split; [|done|done|done]. rewrite words_cons in Hb'. rewrite words_cons.
  rewrite splice_over in Hb'; [exact Hb'|lia|by rewrite !length_le_bytes].
Qed.

(** One id. *)
Lemma create_one_ok l p off get s dest h x : 0 <= p <= zlen l -> off + zlen l < 2 ^ 63 -> emitted l p off get s dest h -> zlen h = 2 -> 0 <= x < 2 ^ 32 - 4 ->
  exists s' dest' ws,
    (if 30 <? x then
       '(s, dest) ← uba_sput Uint32 s dest (u32 ((x / 31) <<< 2) ||| 1);
       '(s, dest) ← uba_sput Uint32 s dest (u32 (u32 (1 <<< (x mod 31)) <<< 1));
       mret (s, dest, 8)
     else
       '(s, dest) ← uba_sput Uint32 s dest (u32 (1 <<< (x + 1)));
       mret (s, dest, 4)) = Ok (s', dest', 4 * zlen ws) /\
    emitted l p off get s' dest' (h ++ ws) /\ wlist ws /\ bids (blocks ws) = [x].
Proof using.
  intros Hp Hoff He Hh Hx. assert (set_positions (2 ^ x) 0 (x + 1) = [x]) as Hone by exact (set_positions_snoc 0 0 x ltac:(lia) ltac:(done)).
  assert (forall q n, 31 * Z.of_nat n + q = x -> 0 <= q <= 30 -> bids (replicate n 0 ++ [2 ^ q]) = [x]) as Hids.
  { intros q n Hq H0. unfold bids. rewrite wval_snoc. unfold wval. rewrite bval_zeros, length_app, length_replicate, Z.add_0_l, <- Z.pow_add_r by lia.
    rewrite Hq. cbn [length]. replace (31 * Z.of_nat (n + 1)) with ((x + 1) + (30 - q)) by lia. rewrite set_positions_app, Z.add_0_l, Hone by lia.
    rewrite set_positions_none; [done|]. intros i Hi. rewrite Z.pow2_bits_eqb by lia. apply Z.eqb_neq. lia. }
  assert (wc_state l p off get h s dest 0 0 0 [] []) as Hc by (split; try done; by rewrite app_nil_r).
  assert (forall s1 d1 m ws1 bl, wc_state l p off get h s1 d1 0 0 0 ws1 bl -> 0 <= m <= 30 -> zlen bl < 2 ^ 28 ->
    exists s' dest' ws, uba_sput Uint32 s1 d1 (u32 (2 ^ m <<< 1)) = Ok (s', dest') /\ emitted l p off get s' dest' (h ++ ws) /\
      Forall wok ws /\ blocks ws = bl ++ [2 ^ m] /\ zlen ws = zlen ws1 + 1) as Hlit.
  { intros s1 d1 m ws1 bl [He1 Hw1 _ Hbl1 _ _ _] Hm Hbn. pose proof (Z.pow_le_mono_r 2 m 30 ltac:(lia) ltac:(lia)). pose proof (pow2_pos m ltac:(lia)).
    change (replicate (Z.to_nat 0) full) with (@nil Z) in Hbl1. rewrite app_nil_r in Hbl1. rewrite lit_word by lia. pose proof (proj2 (blocks_ok ws1 Hw1)).
    destruct (wc_put l p off get Hp Hoff h Hh s1 d1 ws1 (2 * 2 ^ m) He1 Hw1) as (s' & d' & -> & He' & Hw'); [apply wok_lit; unfold full; lia|rewrite Hbl1 in Hbn; lia|].
    exists s', d', (ws1 ++ [2 * 2 ^ m]). rewrite blocks_snoc, wblocks_lit, Hbl1, length_app. cbn [length]. split; [done|]. split; [done|]. split; [done|]. split; [done|lia]. }
  destruct (Z.ltb_spec 30 x).
  - pose proof (Z.mod_pos_bound x 31 ltac:(lia)) as Hxm. pose proof (Z.div_mod x 31 ltac:(lia)) as Hxd.
    assert (1 <= x / 31) by (apply Z.div_le_lower_bound; lia).
    pose proof Hc as [He0 _ _ _ _ _ _]. rewrite (run_word false) by lia.
    destruct (wc_put l p off get Hp Hoff h Hh s dest [] (4 * (x / 31) + 1) He0) as (s1 & d1 & -> & He1 & Hw1); [done|apply (wok_run false); lia|done|]. rewrite bind_ok_l.
    assert (wc_state l p off get h s1 d1 0 0 0 [4 * (x / 31) + 1] (replicate (Z.to_nat (x / 31)) 0)) as Hc1.
    { split; try done. unfold blocks. cbn [map concat]. by rewrite (wblocks_run false), !app_nil_r by lia. }
    pose proof (Z.pow_le_mono_r 2 (x mod 31) 30 ltac:(lia) ltac:(lia)). pose proof (pow2_pos (x mod 31) ltac:(lia)).
    rewrite Z.shiftl_1_l, (wrap_small 32 (2 ^ _)) by (unfold fits; lia).
    destruct (Hlit s1 d1 (x mod 31) _ _ Hc1) as (s2 & d2 & ws2 & -> & He2 & Hw2 & Hb2 & Hn2); [lia|rewrite length_replicate; lia|]. rewrite bind_ok_l.
    cbn [length] in Hn2.
    exists s2, d2, ws2. split; [unfold mret, result_ret; do 2 f_equal; lia|]. split; [done|]. rewrite Hb2. split; [split; [done|]|apply Hids; lia].
    rewrite Hb2, length_app, length_replicate. cbn [length]. lia.
  - rewrite Z.shiftl_1_l. replace (u32 (2 ^ (x + 1))) with (u32 (2 ^ x <<< 1)) by (rewrite Z.shiftl_mul_pow2, <- Z.pow_add_r by lia; done).
    destruct (Hlit s dest x [] [] Hc) as (s2 & d2 & ws2 & -> & He2 & Hw2 & Hb2 & Hn2); [lia|done|]. rewrite bind_ok_l.
    exists s2, d2, ws2. split; [unfold mret, result_ret; do 2 f_equal; cbn [length] in Hn2; lia|]. split; [done|]. rewrite Hb2. cbn [app].
    split; [split; [done|rewrite Hb2; cbn; lia]|apply (Hids x 0%nat); lia].
Qed.

(** A list of ids the format can hold. *)
Definition wah_src (src : list Z) : Prop := sorted src /\ Forall (fun x => 0 <= x < 2 ^ 32 - 4) src /\ zlen src < 2 ^ 30.

Lemma wah_create_ok s dest l src : buf s dest l -> 0 <= m_putPtr dest <= zlen l -> m_offSet dest + zlen l < 2 ^ 63 -> wah_src src ->
  exists s' dest' ws, wah_create s dest src = Ok (s', dest') /\ wlist ws /\ bids (blocks ws) = src /\
    emitted l (m_putPtr dest) (m_offSet dest) (m_getPtr dest) s' dest' (wah_image ws).
Proof using.
  intros Hb Hp Hoff (Hs & Hx & Hn). unfold wah_create. set (p := m_putPtr dest) in *. set (off := m_offSet dest) in *.
  assert (emitted l p off (m_getPtr dest) s dest []) as He0.
  { split; [|cbn; unfold p; lia|done|done]. unfold splice. cbn [words map concat length app]. rewrite Nat.add_0_r, take_drop. done. }
  destruct (wah_emit_ok l p off _ Hp Hoff s dest [] 0 He0) as (s1 & d1 & -> & He1); [done|done|]. rewrite bind_ok_l, narrow_u32_ok, bind_ok_l by (unfold fits; lia).
  destruct (wah_emit_ok l p off _ Hp Hoff s1 d1 _ (zlen src) He1) as (s2 & d2 & -> & He2); [unfold fits; lia|done|]. rewrite bind_ok_l. cbn [app] in He2.
  destruct src as [|x src].
  { exists s2, d2, []. split; [done|]. split; [split; [done|done]|]. split; [done|exact He2]. }
  pose proof (Forall_inv Hx) as Hx0. destruct src as [|y src].
  - destruct (create_one_ok l p off _ s2 d2 _ x Hp Hoff He2 eq_refl Hx0) as (s3 & d3 & ws & E & He3 & Hws & Hids).
    pose proof (wlist_bound ws Hws). cbn [app] in He3. destruct (put_size_ok l p off _ s3 d3 _ ws (4 * zlen ws) Hp Hoff He3) as (s4 & Hput & He4); [unfold fits; lia|].
    exists s4, d3, ws. split; [|unfold wah_image; by rewrite Hids].
    assert (forall n, (s ← uba_put Uint32 s3 d3 p n; mret (s, d3)) = ('(s, d, m) ← Ok (s3, d3, n); s ← uba_put Uint32 s d p m; mret (s, d))) as Hk by done.
    specialize (Hk (4 * zlen ws)). rewrite Hput, <- E in Hk. rewrite bind_ok_l in Hk. unfold mret at 1 in Hk. rewrite Hk at 1. clear.
    destruct (30 <? x); repeat (destruct (uba_sput _ _ _ _) as [[? ?]|]; [|done]; rewrite !bind_ok_l); done.
  - assert (wc_state l p off (m_getPtr dest) [0; zlen (x :: y :: src)] s2 d2 0 0 0 [] []) as Hc by (split; done).
    set (h := [0; zlen (x :: y :: src)]) in *. assert (zlen h = 2) as Hh by done.
    destruct (wc_first_ok l p off _ Hp Hoff h Hh s2 d2 x Hc Hx0) as (s3 & d3 & c3 & ws3 & bl3 & -> & Hpv & Hc3). rewrite bind_ok_l.
    destruct (wc_loop_ok l p off _ Hp Hoff h Hh (y :: src) s3 d3 c3 [x] ws3 bl3 Hc3) as (s4 & d4 & c4 & ws4 & bl4 & -> & Hc4 & Hp4);
      [by rewrite Hpv|by apply Forall_inv_tail in Hx|]. rewrite bind_ok_l. cbn [app] in Hc4.
    destruct (wc_last_ok l p off _ Hp Hoff h Hh s4 d4 c4 _ ws4 bl4 Hc4) as (s5 & d5 & ws & -> & He5 & Hws & Hids).
    { apply Hp4. rewrite Hpv. apply Hx0. }
    rewrite bind_ok_l. pose proof (wlist_bound ws Hws). unfold h in He5. cbn [app] in He5.
    assert (u64 (u64 (m_putPtr d5 - p) - 8) = 4 * zlen ws) as ->.
    { rewrite (em_put _ _ _ _ _ _ _ He5). cbn [length]. rewrite (wrap_small 64 (_ - p)), wrap_small by (unfold fits; lia). lia. }
    rewrite narrow_u32_ok, bind_ok_l by (unfold fits; lia).
    destruct (put_size_ok l p off _ s5 d5 _ ws (4 * zlen ws) Hp Hoff He5) as (s6 & -> & He6); [unfold fits; lia|]. rewrite bind_ok_l.
    exists s6, d5, ws. split; [done|]. split; [done|]. split; [done|]. unfold wah_image. by rewrite Hids.
Qed.
End creating.

(** * From bit sets *)

Lemma popcount_range n b : 0 <= popcount_bits n b <= Z.of_nat n.
Proof. induction n as [|n IH]; cbn [popcount_bits]; [lia|]. destruct (Z.testbit b (Z.of_nat n)); cbn [Z.b2z]; lia. Qed.

(** None of the bits, or all. *)
Lemma popcount_extreme (f : bool) n b : popcount_bits n b = (if f then Z.of_nat n else 0) <-> (forall j, 0 <= j < Z.of_nat n -> Z.testbit b j = f).
Proof.
  induction n as [|n IH]; cbn [popcount_bits]; [split; [lia|by destruct f]|]. pose proof (popcount_range n b) as Hr. split.
  - intros H j Hj. assert (Z.testbit b (Z.of_nat n) = f /\ popcount_bits n b = if f then Z.of_nat n else 0) as [Hn Hp].
    { destruct (Z.testbit b (Z.of_nat n)), f; cbn [Z.b2z] in H; lia. }
    destruct (decide (j = Z.of_nat n)) as [->|]; [done|]. apply IH; [done|lia].
  - intros H. rewrite (H (Z.of_nat n)) by lia. assert (popcount_bits n b = if f then Z.of_nat n else 0) as -> by (apply IH; intros j Hj; apply H; lia).
    destruct f; cbn [Z.b2z]; lia.
Qed.

Lemma popcount_double n b : popcount_bits (Datatypes.S n) (2 * b) = popcount_bits n b.
Proof.
  induction n as [|n IH]; [cbn [popcount_bits]; rewrite Z.testbit_even_0; done|].
  change (popcount_bits (Datatypes.S (Datatypes.S n)) (2 * b)) with (Z.b2z (Z.testbit (2 * b) (Z.of_nat (Datatypes.S n))) + popcount_bits (Datatypes.S n) (2 * b)).
  rewrite IH. cbn [popcount_bits]. by rewrite Nat2Z.inj_succ, Z.testbit_even_succ by lia.
Qed.

Lemma bits_extreme (f : bool) b : fits 31 b -> (forall j, 0 <= j < 31 -> Z.testbit b j = f) -> b = if f then full else 0.
Proof.
  intros Hb H. change full with (Z.ones 31). apply Z.bits_inj'. intros i Hi. destruct (Z.ltb_spec i 31).
  - rewrite H by lia. destruct f; [by rewrite Z.ones_spec_low by lia|by rewrite Z.bits_0].
  - rewrite (testbit_fits_high 31 b i Hb) by lia. destruct f; [by rewrite Z.ones_spec_high by lia|by rewrite Z.bits_0].
Qed.

Section from_bits.
Context {S : Type} {B : Backend S} {BO : BackendOk S} (s : S) (bits : uba) (l : list Z) (Hb : buf s bits l) (Hl : zlen l < 2 ^ 28).
Let V := le_val l.

Lemma V_high i : 8 * zlen l <= i -> Z.testbit V i = false.
Proof using Hb. intros Hi. apply (testbit_fits_high (8 * zlen l)); [apply le_val_fits; apply (buf_bytes _ _ _ Hb)|done]. Qed.

(** The bits of [val] are those of the bit set from [base] on. *)
Definition same_bits (base n val : Z) : Prop := fits n val /\ forall j, 0 <= j < n -> Z.testbit val j = Z.testbit V (base + j).

Lemma same_bits_byte base c val o : 0 <= c <= 30 -> same_bits base c val -> 8 * o = base + c -> 0 <= base -> 0 <= o < zlen l ->
  let val' := val ||| u32 (byte_at l o <<< c) in fits 32 val' /\ forall j, 0 <= j < Z.min 32 (c + 8) -> Z.testbit val' j = Z.testbit V (base + j).
Proof using Hb.
  intros Hc [Hf Hv] Ho Hbase Hin val'. split.
  - unfold val'. apply fits_testbit; [lia|apply Z.lor_nonneg; split; [unfold fits in Hf; lia|apply (wrap_fits 32); lia]|].
    intros i Hi. rewrite Z.lor_spec, testbit_wrap, (testbit_fits_high c val i Hf) by lia. by rewrite (proj2 (Z.ltb_ge _ _)) by lia.
  - intros j Hj. unfold val'. rewrite Z.lor_spec, testbit_wrap, testbit_shiftl' by lia. rewrite (proj2 (Z.ltb_lt j 32)) by lia. cbn [andb].
    destruct (Z.leb_spec c j).
    + rewrite (testbit_fits_high c val j Hf) by lia. cbn [orb andb]. rewrite (byte_bits s bits l Hb) by lia. unfold V. f_equal. lia.
    + rewrite Hv by lia. by rewrite orb_false_r.
Qed.

Lemma wf_read_ok fuel m o val c : same_bits (31 * m) c val -> 0 <= m -> 8 * o = 31 * m + c -> 1 <= c <= 30 -> o <= zlen l -> 38 <= c + 8 * Z.of_nat fuel ->
  exists val' o', wf_read fuel s bits (zlen l) o val c c = Ok (val', o') /\ fits 32 val' /\
    (forall j, 0 <= j < 31 -> Z.testbit val' j = Z.testbit V (31 * m + j)) /\ o <= o' <= zlen l /\
    (o' = zlen l /\ 8 * zlen l <= 31 * (m + 1) \/ 8 * o' <= 31 * (m + 1) < 8 * o' + 8).
Proof using Hb Hl.
  revert o val c. induction fuel as [|fuel IH]; intros o val c Hs Hm Ho Hc Hle Hf; [lia|]. cbn [wf_read]. pose proof Hs as [Hfit Hbits].
  destruct (Z.ltb_spec o (zlen l)) as [Hlt|Hge].
  - rewrite (buf_at_byte s bits l o Hb), bind_ok_l by lia. rewrite (wrap_small 8 (c + 8)) by (unfold fits; lia).
    destruct (same_bits_byte (31 * m) c val o) as [Hf' Hv']; [lia|done|lia|lia|lia|].
    destruct (Z.ltb_spec (c + 8) 31).
    + rewrite wrap_small by (unfold fits; lia). destruct (IH (o + 1) (val ||| u32 (byte_at l o <<< c)) (c + 8)) as (v & o' & -> & H1 & H2 & H3 & H4);
        [|lia|lia|lia|lia|lia|].
      * split; [|intros j Hj; apply Hv'; lia]. apply fits_testbit; [lia|unfold fits in Hf'; lia|]. intros i Hi.
        rewrite Z.lor_spec, testbit_wrap, testbit_shiftl', (testbit_fits_high c val i Hfit) by lia.
        rewrite (testbit_fits_high 8 (byte_at l o)) by (first [lia|apply byte_at_ok; exact (buf_bytes _ _ _ Hb)]). by rewrite !andb_false_r.
      * exists v, o'. split; [done|]. split; [done|]. split; [done|]. split; [lia|done].
    + eexists _, _. split; [done|]. split; [done|]. split; [intros j Hj; apply Hv'; lia|].
      destruct (Z.eqb_spec (c + 8) 31); rewrite ?wrap_small by (unfold fits; lia); split; [lia|right; lia|lia|right; lia].
  - exists val, o. split; [done|]. split; [apply (fits_mono c); [lia|done]|]. split; [|split; [lia|left; lia]].
    intros j Hj. destruct (Z.ltb_spec j c); [apply Hbits; lia|]. rewrite (testbit_fits_high c val j Hfit), V_high by lia. done.
Qed.
End from_bits.

(** The run that is counted. *)
Inductive wpend : Z -> list Z -> Prop :=
  | wpend_none : wpend 0 []
  | wpend_run (f : bool) n : 1 <= n < 2 ^ 30 -> wpend (4 * n + if f then 3 else 1) (replicate (Z.to_nat n) (if f then full else 0)).

(** The words behind the header and the run make up the blocks [bl]. *)
Record wf_at (mem : Vec.t) (tmp : uba) (cur : Z) (bl : list Z) : Prop := {
  wf_split : exists ws pl, wbuf mem tmp (0 :: 0 :: ws) /\ Forall wok ws /\ wpend cur pl /\ bl = blocks ws ++ pl;
}.

Lemma wf_push (mem : Vec.t) tmp ws x : wbuf mem tmp (0 :: 0 :: ws) -> Forall wok ws -> wok x -> zlen (blocks ws) < 2 ^ 28 ->
  exists mem' tmp', uba_sput Uint32 mem tmp x = Ok (mem', tmp') /\ wbuf mem' tmp' (0 :: 0 :: ws ++ [x]) /\ Forall wok (ws ++ [x]).
Proof.
  intros Hb Hw Hx Hn. pose proof (proj2 (blocks_ok ws Hw)). destruct (wbuf_push mem tmp _ x Hb) as (m1 & t1 & E & Hb1); [by apply wok_fits|cbn [length]; lia|].
  exists m1, t1. split; [done|]. split; [exact Hb1|]. apply Forall_app. by split; [|apply Forall_singleton].
Qed.

(** Another block of a run. *)
Lemma wf_run_ok (f : bool) (mem : Vec.t) tmp cur bl : wf_at mem tmp cur bl -> zlen bl < 2 ^ 28 ->
  exists mem' tmp' cur', ('(mem, tmp, cur) ← (if negb (cur &&& 1 =? 0) && (if f then cur &&& 2 =? 0 else negb (cur &&& 2 =? 0))
      then '(mem, tmp) ← uba_sput Uint32 mem tmp cur; mret (mem, tmp, 0) else Ok (mem, tmp, cur));
    mret (mem, tmp, u32 (u32 ((cur >>> 2) + 1) <<< 2) ||| (if f then 3 else 1))) = Ok (mem', tmp', cur') /\
    wf_at mem' tmp' cur' (bl ++ [if f then full else 0]).
Proof.
  intros [(ws & pl & Hb & Hw & Hpd & Hbl)] Hn. rewrite Hbl, length_app in Hn. destruct Hpd as [|g n Hn'].
  - change (0 &&& 1) with 0. cbn [Z.eqb negb andb]. rewrite bind_ok_l. exists mem, tmp, (4 * 1 + if f then 3 else 1). split; [by destruct f|]. split.
    exists ws, [if f then full else 0]. split; [done|]. split; [done|]. split; [exact (wpend_run f 1 ltac:(lia))|by rewrite Hbl, app_nil_r].
  - destruct (run_low g n ltac:(lia)) as (E1 & E2 & _ & E3 & _). rewrite E1, E2. cbn [Z.eqb negb andb]. rewrite length_replicate in Hn.
    destruct (decide (g = f)) as [->|Hne].
    + assert ((if f then (if f then 2 else 0) =? 0 else negb ((if f then 2 else 0) =? 0)) = false) as -> by (by destruct f).
      rewrite bind_ok_l, E3, (wrap_small 32 (n + 1)) by (unfold fits; lia). rewrite run_word by lia.
      exists mem, tmp, (4 * (n + 1) + if f then 3 else 1). split; [done|]. split.
      exists ws, (replicate (Z.to_nat (n + 1)) (if f then full else 0)). split; [done|]. split; [done|]. split; [apply wpend_run; lia|].
      rewrite Hbl, <- app_assoc. f_equal. replace (Z.to_nat (n + 1)) with (Z.to_nat n + 1)%nat by lia. by rewrite replicate_add.
    + assert ((if f then (if g then 2 else 0) =? 0 else negb ((if g then 2 else 0) =? 0)) = true) as -> by (by destruct f, g).
      destruct (wf_push mem tmp ws _ Hb Hw (wok_run g n Hn')) as (m1 & t1 & -> & Hb1 & Hw1); [lia|]. rewrite !bind_ok_l.
      exists m1, t1, (4 * 1 + if f then 3 else 1). split; [by destruct f|]. split.
      exists (ws ++ [4 * n + if g then 3 else 1]), [if f then full else 0]. split; [done|]. split; [done|].
      split; [exact (wpend_run f 1 ltac:(lia))|]. by rewrite Hbl, blocks_snoc, wblocks_run by lia.
Qed.

(** What is counted is written. *)
Lemma wf_close (mem : Vec.t) tmp cur bl : wf_at mem tmp cur bl -> zlen bl < 2 ^ 28 ->
  exists mem' tmp' ws, (if negb (cur =? 0) then uba_sput Uint32 mem tmp cur else Ok (mem, tmp)) = Ok (mem', tmp') /\
    wbuf mem' tmp' (0 :: 0 :: ws) /\ Forall wok ws /\ blocks ws = bl.
Proof.
  intros [(ws & pl & Hb & Hw & Hpd & Hbl)] Hn. rewrite Hbl, length_app in Hn. destruct Hpd as [|g n Hn'].
  - exists mem, tmp, ws. rewrite app_nil_r in Hbl. done.
  - rewrite (proj2 (Z.eqb_neq _ 0)) by (destruct g; lia). cbn [negb].
    destruct (wf_push mem tmp ws _ Hb Hw (wok_run g n Hn')) as (m1 & t1 & -> & Hb1 & Hw1); [lia|].
    exists m1, t1, (ws ++ [4 * n + if g then 3 else 1]). split; [done|]. split; [done|]. split; [done|]. by rewrite blocks_snoc, wblocks_run by lia.
Qed.

Lemma wf_word_ok (mem : Vec.t) tmp cur bl b : wf_at mem tmp cur bl -> zlen bl < 2 ^ 28 -> fits 31 b ->
  exists mem' tmp' cur', wf_word mem tmp cur (2 * b) (popCount 32 (2 * b)) = Ok (mem', tmp', cur') /\ wf_at mem' tmp' cur' (bl ++ [b]).
Proof.
  intros Hat Hn Hb. unfold wf_word, popCount. rewrite popcount_double.
  destruct (Z.eqb_spec (popcount_bits 31 b) 31) as [E|E]; [|destruct (Z.eqb_spec (popcount_bits 31 b) 0) as [E'|E']].
  - rewrite (bits_extreme true b Hb) by (by apply (popcount_extreme true 31)). exact (wf_run_ok true mem tmp cur bl Hat Hn).
  - rewrite (bits_extreme false b Hb) by (by apply (popcount_extreme false 31)). exact (wf_run_ok false mem tmp cur bl Hat Hn).
  - destruct (wf_close mem tmp cur bl Hat Hn) as (m1 & t1 & ws & -> & Hb1 & Hw1 & Hbl). rewrite bind_ok_l.
    assert (0 < b < full) as Hlit.
    { unfold fits in Hb. assert (b <> 0) by (intros ->; by apply E'). assert (b <> full) by (intros ->; by apply E). unfold full in *. lia. }
    destruct (wf_push m1 t1 ws _ Hb1 Hw1 (wok_lit b Hlit)) as (m2 & t2 & -> & Hb2 & Hw2); [by rewrite Hbl|]. rewrite bind_ok_l.
    exists m2, t2, 0. split; [done|]. split. exists (ws ++ [2 * b]), []. split; [done|]. split; [done|]. split; [constructor|].
    by rewrite blocks_snoc, wblocks_lit, Hbl, app_nil_r.
Qed.

Section bit_set.
Context {S : Type} {B : Backend S} {BO : BackendOk S} (s : S) (bits : uba) (l : list Z) (Hb : buf s bits l) (Hl : zlen l < 2 ^ 28).
Let V := le_val l.

(** The low bits of a read block. *)
Lemma read_block m val : fits 32 val -> (forall j, 0 <= j < 31 -> Z.testbit val j = Z.testbit V (31 * m + j)) -> 0 <= m ->
  exists b, u32 (val <<< 1) = 2 * b /\ fits 31 b /\ (forall j, 0 <= j < 31 -> Z.testbit b j = Z.testbit V (31 * m + j)) /\
    popCount 32 (2 * b) = zlen (set_positions V (31 * m) 31).
Proof using.
  intros Hf Hv Hm. exists (wrap 31 val). assert (forall j, 0 <= j < 31 -> Z.testbit (wrap 31 val) j = Z.testbit V (31 * m + j)) as Hw.
  { intros j Hj. rewrite testbit_wrap by lia. rewrite (proj2 (Z.ltb_lt _ _)) by lia. by apply Hv. }
  split; [|split; [apply wrap_fits; lia|split; [done|]]].
  - rewrite Z.shiftl_mul_pow2 by lia. unfold wrap. change (2 ^ 32) with (2 ^ 31 * 2 ^ 1). rewrite Z.mul_mod_distr_r by lia. lia.
  - unfold popCount. rewrite popcount_double. by apply (popcount_positions 31 _ V (31 * m)).
Qed.

Lemma bval_extend bl b : Forall (fits 31) bl -> bval bl = wrap (31 * zlen bl) V -> fits 31 b ->
  (forall j, 0 <= j < 31 -> Z.testbit b j = Z.testbit V (31 * zlen bl + j)) -> bval (bl ++ [b]) = wrap (31 * zlen (bl ++ [b])) V.
Proof using.
  intros Hbl Hv Hb' Hbits. rewrite length_app. cbn [length]. apply Z.bits_inj'. intros i Hi.
  rewrite bval_bit, testbit_wrap by (done || lia || by apply Forall_singleton). cbn [bval]. rewrite Z.mul_0_r, Z.add_0_r.
  destruct (Z.ltb_spec i (31 * zlen bl)).
  - rewrite Hv, testbit_wrap, !(proj2 (Z.ltb_lt i _)) by lia. done.
  - destruct (Z.ltb_spec i (31 * Z.of_nat (length bl + 1))).
    + rewrite Hbits by lia. cbn [andb]. f_equal. lia.
    + rewrite (testbit_fits_high 31 b) by (done || lia). done.
Qed.

Lemma wf_loop_ok fuel mem tmp cur bl count o init : wf_at mem tmp cur bl -> Forall (fits 31) bl -> bval bl = wrap (31 * zlen bl) V ->
  count = zlen (set_positions V 0 (31 * zlen bl)) -> 0 <= o <= zlen l -> 31 * zlen bl < 8 * zlen l + 31 ->
  (o = zlen l /\ 8 * zlen l <= 31 * zlen bl \/ 8 * o + init = 31 * zlen bl /\ 0 <= init < 8) -> zlen l - o < Z.of_nat fuel ->
  exists mem' tmp' cur' count' bl', wf_loop fuel s bits (zlen l) o init mem tmp cur count = Ok (mem', tmp', cur', count') /\
    wf_at mem' tmp' cur' bl' /\ Forall (fits 31) bl' /\ bval bl' = wrap (31 * zlen bl') V /\ count' = zlen (set_positions V 0 (31 * zlen bl')) /\
    8 * zlen l <= 31 * zlen bl' < 8 * zlen l + 31.
Proof using Hb Hl BO.
  revert mem tmp cur bl count o init. induction fuel as [|fuel IH]; intros mem tmp cur bl count o init Hat Hbl HV Hcnt Ho Hup Hpos Hf; [lia|]. cbn [wf_loop].
  destruct (Z.ltb_spec o (zlen l)) as [Hlt|Hge]; [|exists mem, tmp, cur, count, bl; split; [done|]; do 4 (split; [done|]); lia].
  destruct Hpos as [?|[Hpos Hi]]; [lia|]. rewrite (buf_at_byte s bits l o Hb), bind_ok_l, (wrap_small 32 (o + 1)) by (first [lia|unfold fits; lia]).
  assert (byte_ok (byte_at l o)) as Hby by (apply byte_at_ok; exact (buf_bytes _ _ _ Hb)).
  destruct (wf_read_ok s bits l Hb Hl 5 (zlen bl) (o + 1) (byte_at l o >>> init) (8 - init)) as (val & o' & -> & Hfv & Hbits & Ho' & Hend); [|lia|lia|lia|lia|lia|].
  { split; [apply (shiftr_fits 8 init); [lia|lia|lia|done]|]. intros j Hj. rewrite Z.shiftr_spec, (byte_bits s bits l Hb) by lia. f_equal. lia. }
  rewrite bind_ok_l. destruct (read_block (zlen bl) val Hfv Hbits ltac:(lia)) as (b & -> & Hfb & Hbb & Hpc). cbv zeta.
  destruct (wf_word_ok mem tmp cur bl b Hat ltac:(lia) Hfb) as (m1 & t1 & c1 & -> & Hat1). rewrite bind_ok_l, Hpc, Hcnt.
  pose proof (cached_few V (31 * zlen bl) ltac:(lia)). pose proof (set_positions_length V (31 * zlen bl) 31).
  assert (zlen (bl ++ [b]) = zlen bl + 1) as Hlen by (rewrite length_app; cbn [length]; lia).
  assert (u32 (zlen (set_positions V 0 (31 * zlen bl)) + zlen (set_positions V (31 * zlen bl) 31)) = zlen (set_positions V 0 (31 * zlen (bl ++ [b])))) as ->.
  { rewrite wrap_small by (unfold fits; lia). rewrite Hlen. replace (31 * (zlen bl + 1)) with (31 * zlen bl + 31) by lia.
    rewrite set_positions_app, Z.add_0_l, length_app by lia. lia. }
  apply (IH m1 t1 c1 (bl ++ [b])); [done|by apply Forall_app; split; [|apply Forall_singleton]|by apply bval_extend|done|lia|lia| |lia].
  rewrite Hlen. destruct Hend as [[-> ?]|Hend]; [left; lia|]. right. rewrite wrap_small by (unfold fits; lia). zdiv.
Qed.

Lemma wah_fromBitSet_ok : zlen (set_positions V 0 (8 * zlen l)) < 2 ^ 30 ->
  exists v w ws, wah_fromBitSet s bits = Ok (v, w) /\ wah_holds v w [] ws /\ bids (blocks ws) = set_positions V 0 (8 * zlen l) /\
    31 * zlen (blocks ws) < 8 * zlen l + 31.
Proof using Hb Hl BO.
  intros Hn. unfold wah_fromBitSet. rewrite (buf_len _ _ _ Hb), (wrap_small 32 (zlen l)) by (unfold fits; lia).
  destruct (wbuf_new (zlen l)) as (v0 & d0 & -> & Hb0); [lia|]. destruct (wbuf_push v0 d0 [] 0 Hb0) as (v1 & d1 & -> & Hb1); [done|done|]. rewrite bind_ok_l.
  destruct (wbuf_push v1 d1 _ 0 Hb1) as (v2 & d2 & -> & Hb2); [done|done|]. rewrite bind_ok_l. cbn [app] in Hb2. cbv zeta.
  destruct (wf_loop_ok (Datatypes.S (Z.to_nat (zlen l))) v2 d2 0 [] 0 0 0) as (v3 & d3 & cur & cnt & bl & -> & Hat & Hbl & HV & -> & Hup);
    [|done|cbn; unfold wrap; by rewrite Z.mod_1_r|cbn; by rewrite set_positions_none by lia|lia|cbn; lia|right; cbn; lia|lia|].
  { split. exists [], []. split; [done|]. split; [done|]. split; [constructor|done]. }
  rewrite bind_ok_l. destruct (wf_close v3 d3 cur bl Hat ltac:(lia)) as (v4 & d4 & ws & -> & Hb4 & Hw4 & Hbl4). rewrite bind_ok_l.
  assert (bids (blocks ws) = set_positions V 0 (8 * zlen l)) as Hids.
  { unfold bids. rewrite Hbl4, HV. apply sorted_ext; [apply sorted_set_positions..|]. intros z. rewrite !elem_of_set_positions. split; intros [Hz Ht].
    - rewrite testbit_wrap, (proj2 (Z.ltb_lt z _)) in Ht by lia. cbn [andb] in Ht. split; [|done]. split; [lia|].
      destruct (Z.ltb_spec z (8 * zlen l)); [done|]. rewrite (V_high s bits l Hb) in Ht by lia. done.
    - split; [lia|]. rewrite testbit_wrap, (proj2 (Z.ltb_lt z _)) by lia. done. }
  assert (wlist ws) as Hwl by (split; [done|rewrite Hbl4; lia]). pose proof (wlist_bound ws Hwl).
  assert (zlen (set_positions V 0 (31 * zlen bl)) = zlen (bids (blocks ws))) as ->.
  { rewrite Hids. replace (31 * zlen bl) with (8 * zlen l + (31 * zlen bl - 8 * zlen l)) by lia. rewrite set_positions_app by lia.
    rewrite (set_positions_none V (0 + 8 * zlen l)), app_nil_r; [done|]. intros i Hi. apply (V_high s bits l Hb). lia. }
  rewrite (wbuf_put _ _ _ Hb4). cbn [length].
  assert (u32 (u64 (4 * Z.of_nat (Datatypes.S (Datatypes.S (length ws))) - 8)) = 4 * zlen ws) as ->.
  { rewrite (wrap_small 64), wrap_small by (rewrite ?wrap_small; unfold fits; lia). lia. }
  destruct (wbuf_set v4 d4 [] 0 (4 * zlen ws) (0 :: ws) Hb4) as (v5 & Hp5 & Hb5); [unfold fits; lia|done|]. change (4 * zlen []) with 0 in Hp5. rewrite Hp5, bind_ok_l.
  destruct (wbuf_set v5 d4 [4 * zlen ws] 0 (zlen (bids (blocks ws))) ws Hb5) as (v6 & Hp6 & Hb6); [rewrite Hids; unfold fits; lia|done|].
  change (4 * zlen [4 * zlen ws]) with 4 in Hp6. rewrite Hp6, bind_ok_l. destruct Hb6 as [[tail Hb6] _ _ Hg].
  destruct (wah_new_ok v6 d4 ws tail Hb6 Hg Hwl) as (w & -> & Hh); [by rewrite Hids|]. rewrite bind_ok_l. exists v6, w, ws.
  do 3 (split; [done|]). rewrite Hbl4. lia.
Qed.
End bit_set.

(** * To bit sets *)

Section into.
Context {T : Type} {B : Backend T} {BO : BackendOk T} (bits : uba).
Implicit Types (t : T) (l : list Z).

(** The bits of [x] are set in addition to those of [l]. *)
Definition lors l (x : Z) t' (l' : list Z) : Prop := buf t' bits l' /\ length l' = length l /\ le_val l' = le_val l ||| x.

Lemma lors_trans l x t1 l1 y t2 l2 z : lors l x t1 l1 -> lors l1 y t2 l2 -> z = x ||| y -> lors l z t2 l2.
Proof using.
  intros (H1 & Hn1 & Hv1) (H2 & Hn2 & Hv2) ->. split; [done|]. split; [congruence|]. by rewrite Hv2, Hv1, Z.lor_assoc.
Qed.

Lemma bval_ones n : bval (replicate n full) = Z.ones (31 * Z.of_nat n).
Proof using.
  apply Z.bits_inj'. intros i Hi. destruct (Z.ltb_spec i (31 * Z.of_nat n)).
  - rewrite (run_bits true), Z.ones_spec_low by lia. done.
  - rewrite Z.ones_spec_high by lia. apply (testbit_fits_high (31 * zlen (replicate n full))); [|rewrite length_replicate; lia].
    apply bval_fits, Forall_replicate. unfold fits, full. lia.
Qed.

Lemma lors_none t l : buf t bits l -> lors l 0 t l.
Proof using. intros Hb. split; [done|]. split; [done|]. by rewrite Z.lor_0_r. Qed.

Lemma wb_or_ok t l k v : buf t bits l -> 0 <= k < zlen l -> exists t' l', wb_or t bits k v = Ok t' /\ lors l (u8 v <<< (8 * k)) t' l'.
Proof using BO.
  intros Hb Hk. destruct (modify_byte t bits l k (fun x => x ||| v) Hb Hk) as (t' & Ht & Hb' & _). eexists t', _. split; [exact Ht|].
  split; [exact Hb'|]. split; [apply length_insert|]. pose proof (buf_bytes _ _ _ Hb) as Hl.
  apply le_val_byte_change; [done|done|apply wrap_fits; lia| |]; intros i Hi Hik; destruct (div8_bounds i Hi) as (? & ? & ?).
  - rewrite testbit_wrap, !Z.lor_spec, testbit_shiftl', testbit_wrap, (testbit_byte_at l i) by (done || lia). rewrite Hik.
    replace (i - 8 * k) with (i mod 8) by lia. rewrite (proj2 (Z.ltb_lt _ _)), (proj2 (Z.leb_le _ _)) by lia. done.
  - rewrite Z.lor_spec, testbit_shiftl' by lia. destruct (Z.leb_spec (8 * k) i); [|by rewrite orb_false_r].
    rewrite testbit_wrap by lia. rewrite (proj2 (Z.ltb_ge _ _)) by lia. by rewrite orb_false_r.
Qed.

Lemma wb_bytes_ok n t l pos val : buf t bits l -> 0 <= pos -> pos + Z.of_nat n <= zlen l -> pos + Z.of_nat n < 2 ^ 32 -> fits (8 * Z.of_nat n) val ->
  exists t' l', wb_bytes n t bits pos val = Ok t' /\ lors l (val <<< (8 * pos)) t' l'.
Proof using BO.
  revert t l pos val. induction n as [|n IH]; intros t l pos val Hb H0 Hn H32 Hf; cbn [wb_bytes].
  { exists t, l. split; [done|]. assert (val = 0) as -> by (unfold fits in Hf; cbn in Hf; lia). rewrite Z.shiftl_0_l. by apply lors_none. }
  destruct (wb_or_ok t l pos val Hb ltac:(lia)) as (t1 & l1 & -> & H1). rewrite bind_ok_l, wrap_small by (unfold fits; lia). pose proof H1 as (Hb1 & Hn1 & _).
  assert (fits (8 * Z.of_nat n) (val >>> 8)) as Hf' by (apply (shiftr_fits (8 * Z.of_nat (Datatypes.S n)) 8); (done || lia)).
  destruct (IH t1 l1 (pos + 1) (val >>> 8) Hb1) as (t2 & l2 & -> & H2); [lia|lia|lia|done|]. exists t2, l2. split; [done|].
  eapply lors_trans; [exact H1|exact H2|]. unfold fits in Hf. bitwise.
Qed.

Context (Hc : bk_isContiguous (S := T) = true).

Lemma fill_ok fuel t l start n : buf t bits l -> 0 <= start < zlen l -> 0 <= n -> start + n <= zlen l ->
  exists t' l', uba_fill fuel t bits 255 start n = Ok t' /\ lors l (Z.ones (8 * n) <<< (8 * start)) t' l'.
Proof using BO Hc.
  intros Hb Hs H0 Hn. pose proof (buf_fits _ _ _ Hb) as Hf. pose proof (buf_len _ _ _ Hb) as Hlen. pose proof (buf_bytes _ _ _ Hb) as Hl.
  unfold uba_fill. rewrite Hlen, (proj2 (Z.ltb_ge _ _)), Hc, range_check_eq, Hlen, (proj2 (Z.ltb_ge _ _)), bind_ok_l by (first [lia|unfold fits; lia]).
  rewrite Z.min_l, wrap_small by (first [lia|unfold fits; lia]). set (bs := replicate (Z.to_nat n) 255).
  assert (zlen bs = n) as Hbs by (unfold bs; rewrite length_replicate; lia). assert (bytes_ok bs) as Hok by (apply Forall_replicate; unfold fits; lia).
  pose proof (bk_putData_ok t (m_offSet bits + start) bs) as Hw. rewrite vwrite_in in Hw by (destruct Hb as [[] _]; lia).
  destruct (bk_putData t (m_offSet bits + start) bs) as [t'|]; cbn in Hw; [|done].
  exists t', (splice l start bs). split; [done|]. assert (length (splice l start bs) = length l) as Hsl.
  { unfold splice. rewrite !length_app, length_take, length_drop. lia. }
  assert (bytes_ok (splice l start bs)) as Hso.
  { unfold splice. apply Forall_app. split; [by apply Forall_take|]. apply Forall_app. split; [done|by apply Forall_drop]. }
  split; [apply (buf_store t); [done|done|lia|lia|congruence]|]. split; [done|]. apply Z.bits_inj'. intros i Hi. destruct (div8_bounds i Hi) as (? & ? & ?).
  rewrite Z.lor_spec, testbit_shiftl', !testbit_byte_at by (done || lia). unfold byte_at, splice.
  destruct (Z.ltb_spec (i / 8) start).
  { rewrite lookup_app_l, lookup_take_lt by (rewrite ?length_take; lia). rewrite (proj2 (Z.leb_gt _ _)) by lia. by rewrite orb_false_r. }
  rewrite (proj2 (Z.leb_le _ _)), lookup_app_r by (rewrite ?length_take; lia). rewrite length_take, Nat.min_l by lia. cbn [andb].
  destruct (Z.ltb_spec (i / 8) (start + n)).
  - rewrite lookup_app_l by lia. unfold bs. rewrite lookup_replicate_2 by lia. cbn [default option_rect from_option id].
    rewrite (Z.ones_spec_low (8 * n)) by lia. rewrite orb_true_r. change 255 with (Z.ones 8). apply Z.ones_spec_low. lia.
  - rewrite lookup_app_r by lia. rewrite lookup_drop, Z.ones_spec_high, orb_false_r by lia. do 2 f_equal. f_equal. lia.
Qed.

(** The bits of a word, when the window has a byte more than they need. *)
Lemma wb_word_ok t l pos x : buf t bits l -> wok x -> 0 <= pos -> pos + 31 * zlen (wblocks x) <= 8 * (zlen l - 1) -> pos + 31 * zlen (wblocks x) < 2 ^ 32 ->
  exists t' l', wb_word t bits pos x = Ok (t', bits, pos + 31 * zlen (wblocks x)) /\ lors l (bval (wblocks x) <<< pos) t' l'.
Proof using BO Hc.
  intros Hb Hx H0 Hin H32. pose proof (buf_len _ _ _ Hb) as Hlen. destruct (div8_bounds pos H0) as (Hq & Hr & Hpos).
  assert (forall e, 0 <= e <= 8 * (zlen l - 1) -> e < 2 ^ 32 -> wb_reserve t bits (u32 e) = (t, bits)) as Hres.
  { intros e He He32. unfold wb_reserve. rewrite (wrap_small 32 e) by (unfold fits; lia). destruct (div8_bounds e) as (? & ? & ?); [lia|].
    assert (0 <= Z.b2z (0 <? e mod 8) <= 1 /\ (0 < e mod 8 -> Z.b2z (0 <? e mod 8) = 1)) as [? ?].
    { destruct (Z.ltb_spec 0 (e mod 8)); cbn [Z.b2z]; lia. }
    rewrite wrap_small by (unfold fits; lia). rewrite Hlen, (proj2 (Z.leb_gt _ _)); [done|]. destruct (decide (e mod 8 = 0)); [|lia].
    assert (Z.b2z (0 <? e mod 8) = 0) by (by rewrite (proj2 (Z.ltb_ge _ _)) by lia). lia. }
  unfold wb_word. destruct Hx as [b Hb'|f n Hn].
  - rewrite wblocks_lit in *. cbn [length bval] in *. destruct (lit_low b) as (-> & -> & _). cbn [Z.eqb negb].
    rewrite Hres by lia. assert (fits 31 b) as Hfb by (unfold fits, full in *; lia).
    destruct (wb_or_ok t l (pos / 8) (u8 (b <<< (pos mod 8))) Hb) as (t1 & l1 & -> & H1); [lia|]. rewrite bind_ok_l. rewrite wrap_wrap in H1.
    pose proof H1 as (Hb1 & Hn1 & _). set (r := pos mod 8) in *. rewrite (wrap_small 32 (pos / 8 + 1)) by (unfold fits; lia).
    set (n := Z.to_nat _). assert (31 - (8 - r) <= 8 * Z.of_nat n /\ 8 * Z.of_nat n < 31 - (8 - r) + 8) as [Hn Hn'].
    { unfold n. pose proof (Z.div_mod (31 - (8 - r)) 8 ltac:(lia)). pose proof (Z.mod_pos_bound (31 - (8 - r)) 8 ltac:(lia)).
      destruct (Z.ltb_spec 0 ((31 - (8 - r)) mod 8)); cbn [Z.b2z]; lia. }
    destruct (wb_bytes_ok n t1 l1 (pos / 8 + 1) (b >>> (8 - r)) Hb1) as (t2 & l2 & -> & H2); [lia|lia|lia| |].
    { apply (fits_mono (31 - (8 - r))); [lia|]. apply (shiftr_fits 31 (8 - r)); (done || lia). }
    rewrite bind_ok_l, wrap_small by (unfold fits; lia). exists t2, l2. split; [done|]. eapply lors_trans; [exact H1|exact H2|].
    rewrite Z.add_0_r. rewrite Hpos at 1. bitwise.
  - rewrite wblocks_run in * by lia. rewrite length_replicate in *. destruct (run_low f n ltac:(lia)) as (-> & _ & _ & _ & -> & ->). cbn [Z.eqb negb].
    rewrite (wrap_small 32 (n * 31)), (wrap_small 32 (31 * n)), (wrap_small 32 (pos + 31 * n)) by (unfold fits; lia).
    replace (31 * Z.of_nat (Z.to_nat n)) with (31 * n) by lia. destruct f; cbn [Z.b2z Z.eqb negb].
    + rewrite Hres by lia. set (r := pos mod 8) in *. rewrite (createMask_ones r) by lia.
      destruct (wb_or_ok t l (pos / 8) (u32 (Z.lnot (Z.ones r))) Hb) as (t1 & l1 & -> & H1); [lia|]. rewrite bind_ok_l. pose proof H1 as (Hb1 & Hn1 & _).
      rewrite (wrap_small 32 (pos / 8 + 1)), (wrap_small 32 (n * 31 - (8 - r))) by (unfold fits; lia).
      set (k := n * 31 - (8 - r)) in *. destruct (div8_bounds k) as (Hk1 & Hk2 & Hk3); [lia|].
      destruct (fill_ok (Datatypes.S (Z.to_nat (m_len bits))) t1 l1 (pos / 8 + 1) (k / 8) Hb1) as (t2 & l2 & -> & H2); [lia|lia|lia|]. rewrite bind_ok_l.
      pose proof H2 as (Hb2 & Hn2 & _).
      assert (exists t3 l3, (if negb (k mod 8 =? 0) then wb_or t2 bits (u32 (pos / 8 + 1 + k / 8)) (createMask (k mod 8)) else Ok t2) = Ok t3 /\
        lors l2 (Z.ones (k mod 8) <<< (8 * (pos / 8 + 1 + k / 8))) t3 l3) as (t3 & l3 & -> & H3).
      { rewrite (wrap_small 32 (pos / 8 + 1 + k / 8)) by (unfold fits; lia). destruct (Z.eqb_spec (k mod 8) 0) as [->|E]; cbn [negb].
        - exists t2, l2. split; [done|]. change (Z.ones 0) with 0. rewrite Z.shiftl_0_l. by apply lors_none.
        - rewrite createMask_ones by lia. destruct (wb_or_ok t2 l2 (pos / 8 + 1 + k / 8) (Z.ones (k mod 8)) Hb2) as (t3 & l3 & -> & H3); [lia|].
          exists t3, l3. split; [done|]. rewrite wrap_small in H3; [done|]. pose proof (Z.pow_le_mono_r 2 (k mod 8) 8 ltac:(lia) ltac:(lia)).
          rewrite Z.ones_equiv. unfold fits. pose proof (pow2_pos (k mod 8) ltac:(lia)). lia. }
      rewrite !bind_ok_l. exists t3, l3. split; [done|]. eapply lors_trans; [eapply lors_trans; [exact H1|exact H2|reflexivity]|exact H3|].
      rewrite bval_ones. replace (31 * Z.of_nat (Z.to_nat n)) with (31 * n) by lia. rewrite Hpos at 1.
      assert (1 <= n /\ k = n * 31 - (8 - r) /\ 0 <= r < 8) as Hkn by (unfold k; lia). clearbody k r. clear -Hk1 Hk2 Hk3 Hkn Hq.
      revert Hk1 Hk2 Hk3 Hq. generalize (k / 8) (k mod 8) (pos / 8). intros a c q ? ? ? ?. bitwise.
    + rewrite bind_ok_l. exists t, l. split; [done|]. rewrite bval_zeros, Z.shiftl_0_l. by apply lors_none.
Qed.

Lemma wb_loop_ok {S : Type} {BS : Backend S} {BOS : BackendOk S} fuel (s : S) it ws t l pos : wit_at s it ws -> Forall wok ws -> buf t bits l -> 0 <= pos ->
  pos + 31 * zlen (blocks ws) <= 8 * (zlen l - 1) -> pos + 31 * zlen (blocks ws) < 2 ^ 32 -> (length ws < fuel)%nat ->
  exists t' l', wb_loop fuel s it t bits pos = Ok (t', bits) /\ lors l (bval (blocks ws) <<< pos) t' l'.
Proof using BO Hc.
  revert it ws t l pos. induction fuel as [|fuel IH]; intros it ws t l pos Hit Hw Hb H0 Hin H32 Hf; [lia|]. cbn [wb_loop]. rewrite (wi_hasNext_ok s it ws Hit).
  destruct ws as [|x ws].
  { rewrite bool_decide_false by naive_solver. exists t, l. split; [done|]. cbn [blocks map concat bval]. rewrite Z.shiftl_0_l. by apply lors_none. }
  rewrite bool_decide_true by done. destruct (wi_next_ok s it x ws Hit) as (it' & -> & Hit' & _). rewrite bind_ok_l. apply Forall_cons in Hw as [Hx Hw].
  rewrite blocks_cons, length_app in *. destruct (wok_blocks x Hx) as [Hbx _].
  destruct (wb_word_ok t l pos x Hb Hx H0) as (t1 & l1 & -> & H1); [lia|lia|]. rewrite bind_ok_l. pose proof H1 as (Hb1 & Hn1 & _). cbn [length] in Hf.
  destruct (IH it' ws t1 l1 (pos + 31 * zlen (wblocks x)) Hit' Hw Hb1) as (t2 & l2 & -> & H2); [lia|lia|lia|lia|].
  exists t2, l2. split; [done|]. eapply lors_trans; [exact H1|exact H2|].
  rewrite bval_lor, Z.shiftl_lor, Z.shiftl_shiftl by (done || lia). do 2 f_equal. lia.
Qed.

(** The bits of the ids are set in addition; the window has room for all blocks and a byte more. *)
Lemma putInto_bits_ok {S : Type} {BS : Backend S} {BOS : BackendOk S} (s : S) w pre post t l : wah_holds s w pre post -> buf t bits l ->
  31 * zlen (blocks (pre ++ post)) <= 8 * (zlen l - 1) ->
  exists t' l', wah_putInto_bits s w t bits = Ok (t', bits) /\ buf t' bits l' /\ length l' = length l /\
    le_val l' = set_bits (le_val l) (bids (blocks (pre ++ post))).
Proof using BO Hc.
  intros Hh Hb Hin. unfold wah_putInto_bits. rewrite (wh_size _ _ _ _ Hh). pose proof (wh_words _ _ _ _ Hh) as [Hw Hlim].
  destruct (blocks_ok _ Hw) as [Hbl _]. pose proof (bval_fits _ Hbl) as Hbf. destruct (Z.eqb_spec (zlen (bids (blocks (pre ++ post)))) 0) as [E|E].
  { exists t, l. destruct (bids (blocks (pre ++ post))); [|cbn [length] in E; lia]. done. }
  destruct (dataIterator_ok s w pre post Hh) as (it & -> & Hit & Hsz). rewrite bind_ok_l.
  destruct (wb_loop_ok (Datatypes.S (Z.to_nat (wi_size it))) s it (pre ++ post) t l 0 Hit Hw Hb) as (t' & l' & Hlp & H1 & H2 & H3); [lia|lia|lia|rewrite Hsz; lia|].
  exists t', l'. split; [exact Hlp|]. split; [done|]. split; [done|]. rewrite H3, Z.shiftl_0_r. apply Z.bits_inj'. intros i Hi.
  rewrite Z.lor_spec, testbit_set_bits; [|apply Forall_forall; intros z Hz%elem_of_set_positions; lia|done]. f_equal.
  symmetry. destruct (Z.testbit (bval (blocks (pre ++ post))) i) eqn:Ei; [apply bool_decide_true|apply bool_decide_false]; unfold bids; rewrite elem_of_set_positions.
  - split; [|done]. split; [done|]. destruct (Z.ltb_spec i (31 * zlen (blocks (pre ++ post)))); [done|].
    rewrite (testbit_fits_high _ _ i Hbf) in Ei by lia. done.
  - intros [_ ?]. congruence.
Qed.
End into.

(** * Properties *)

Section usable.
Context {S : Type} {B : Backend S} {BO : BackendOk S}.
Implicit Types (s : S) (w : wah) (l : list Z).

Lemma wah_usable_ids s w l : wah_usable s w l -> sorted l /\ Forall (fun z => 0 <= z < 2 ^ 32 - 4) l /\ zlen l < 2 ^ 30 /\ wa_size w = zlen l.
Proof using.
  intros (pre & post & [[_ Hlim] Hfew Hsize _ _ _ _ _ _] & ->). destruct (bids_ok _ Hlim) as (H1 & H2 & _). split; [done|]. split; [|done].
  eapply Forall_impl; [exact H2|]. cbn. lia.
Qed.

Lemma wah_ai_at_ok s (x : S * wah) l (pos : nat) v : wah_ai_rep s x l -> l !! pos = Some v ->
  exists x', wah_ai_at x (Z.of_nat pos) = Ok (x', v) /\ wah_ai_rep s x' l.
Proof using.
  destruct x as [s' w]. intros [E Hu] Hv. cbn [fst snd] in *. subst s'.
  destruct (wah_at_ok s w l (Z.of_nat pos) Hu) as (w' & Ha & Hu'); [lia|]. rewrite Nat2Z.id, Hv in Ha.
  unfold wah_ai_at. cbn [fst snd]. rewrite Ha, bind_ok_l. by exists (s, w').
Qed.

Program Definition wah_AtIndexOk (s : S) : @AtIndexOk (S * wah) wah_AtIndex := {| ai_rep := wah_ai_rep s |}.
Next Obligation. intros s [s' w] l [_ Hu]. apply (wah_usable_ids _ _ _ Hu). Qed.
Next Obligation. intros s [s' w] l [_ Hu]. cbn [snd] in Hu. pose proof (wah_usable_ids _ _ _ Hu). lia. Qed.
Next Obligation. exact wah_ai_at_ok. Qed.
Next Obligation. exact wah_ai_at_ok. Qed.

Lemma wah_find_ok s w l id : wah_usable s w l ->
  exists x r, find (s, w) id = Ok (x, r) /\ (0 <= r < zlen l /\ l !! Z.to_nat r = Some id \/ r = max_u32 /\ id ∉ l).
Proof using.
  intros Hu. destruct (@find_ok _ _ (wah_AtIndexOk s) (s, w) l id (conj eq_refl Hu)) as (x & r & Hf & _ & Hr); [by apply (wah_usable_ids s w l)|].
  by exists x, r.
Qed.

(** Lookups one after another, through the cache. *)
Fixpoint wah_ats s w (ps : list Z) : result (list Z) :=
  match ps with
  | [] => Ok []
  | p :: ps => '(w, v) ← wah_at s w p; r ← wah_ats s w ps; mret (v :: r)
  end.

Lemma wah_ats_ok ps s w l : wah_usable s w l -> Forall (fun p => 0 <= p) ps ->
  wah_ats s w ps = Ok (map (fun p => default 0 (l !! Z.to_nat p)) ps).
Proof using.
  intros Hu Hps. revert w Hu. induction Hps as [|p ps Hp _ IH]; intros w Hu; cbn [wah_ats map]; [done|].
  destruct (wah_at_ok s w l p Hu Hp) as (w' & -> & Hu'). rewrite bind_ok_l. by rewrite (IH w' Hu'), bind_ok_l.
Qed.

Lemma wah_ends_ok s w l : wah_usable s w l ->
  (exists w', wah_first s w = Ok (w', default 0 (head l))) /\ (exists w', wah_last s w = Ok (w', lastd 0 l)).
Proof using.
  intros Hu. destruct (wah_usable_ids s w l Hu) as (_ & _ & Hn & Hsz). unfold wah_first, wah_last. rewrite Hsz. destruct (Z.eqb_spec (zlen l) 0) as [E|E].
  { destruct l; [|cbn [length] in E; lia]. split; by exists w. }
  rewrite wrap_small by (unfold fits; lia). destruct (wah_at_ok s w l 0 Hu) as (w1 & -> & _); [done|].
  destruct (wah_at_ok s w l (zlen l - 1) Hu) as (w2 & -> & _); [lia|]. split; [exists w1; by destruct l|]. exists w2. do 3 f_equal.
  unfold lastd. rewrite last_lookup. do 2 f_equal. lia.
Qed.

Lemma wah_src_dec src : bool_decide (StronglySorted Z.lt src /\ Forall (fun x => 0 <= x < 2 ^ 32 - 4) src /\ zlen src < 2 ^ 30) = true -> wah_src src.
Proof using. intros H. by apply bool_decide_eq_true in H. Qed.
End usable.

(** C19: round trip of the word-aligned hybrid index. [create] writes an ascending list of fewer
    than 2^30 ids below 2^32 - 4 behind the put position and nothing in front of it; opening
    what was written gives an index of that size, from which any sequence of lookups returns
    the ids at the positions asked for (0 behind the end), [first] and [last] return the ends,
    and [find] the position of an id or, if there is none, the largest 32-bit number. *)
Theorem wah_roundtrip {S : Type} {B : Backend S} {BO : BackendOk S} (s : S) dest l src ps id :
  buf s dest l -> 0 <= m_putPtr dest <= zlen l -> m_getPtr dest = 0 -> m_offSet dest + zlen l < 2 ^ 63 -> wah_src src ->
  Forall (fun p => 0 <= p) ps ->
  exists s' dest' w bytes, wah_create s dest src = Ok (s', dest') /\ buf s' dest' (splice l (m_putPtr dest) bytes) /\
    wah_new s' (uba_from dest' (m_putPtr dest)) = Ok w /\ wa_size w = zlen src /\
    wah_ats s' w ps = Ok (map (fun p => default 0 (src !! Z.to_nat p)) ps) /\
    (exists w', wah_first s' w = Ok (w', default 0 (head src))) /\ (exists w', wah_last s' w = Ok (w', lastd 0 src)) /\
    exists x r, find (s', w) id = Ok (x, r) /\ (0 <= r < zlen src /\ src !! Z.to_nat r = Some id \/ r = max_u32 /\ id ∉ src).
Proof.
  intros Hb Hp Hg Ho Hsrc Hps. destruct (wah_create_ok s dest l src Hb Hp Ho Hsrc) as (s' & dest' & ws & Hcr & Hws & Hids & [Hb' Hpt Hof Hgt]).
  exists s', dest'. set (p := m_putPtr dest) in *. pose proof (words_len (wah_image ws)) as Hwl.
  assert (zlen (splice l p (words (wah_image ws))) = Z.max (zlen l) (p + zlen (words (wah_image ws)))) as Hsl.
  { unfold splice. rewrite !length_app, length_take, length_drop. lia. }
  pose proof (uba_from_ok s' dest' _ Hb' p ltac:(lia)) as Hfrom. rewrite drop_splice in Hfrom by done.
  assert (m_getPtr (uba_from dest' p) = 0) as Hg0.
  { unfold uba_from. pose proof (buf_len _ _ _ Hb') as Hlen. rewrite (proj2 (Z.ltb_ge _ p)) by lia. cbn [m_getPtr]. rewrite Hgt, Hg.
    destruct (Z.ltb_spec 0 p); [done|]. replace p with 0 by lia. change (u64 (0 - 0)) with 0. rewrite (proj2 (Z.leb_gt _ _)); [done|].
    assert (8 <= zlen (words (wah_image ws))) by (rewrite Hwl; unfold wah_image; cbn [length]; lia). lia. }
  destruct (wah_new_ok s' _ ws _ Hfrom Hg0 Hws) as (w & Hnew & Hh); [rewrite Hids; apply Hsrc|].
  assert (wah_usable s' w src) as Hu by (exists [], ws; by rewrite <- Hids).
  exists w, (words (wah_image ws)). split; [done|]. split; [done|]. split; [done|]. destruct (wah_usable_ids s' w src Hu) as (_ & _ & Hn & Hsz). split; [done|].
  split; [by apply wah_ats_ok|]. destruct (wah_ends_ok s' w src Hu) as [H1 H2]. split; [done|]. split; [done|]. by apply wah_find_ok.
Qed.

Lemma wah_roundtrip_witness : exists s' dest' w, wah_create (Vec.mk [1]) (mkUba 0 1 0 1) ([3; 7; 100; 300] ++ seqZ 400 100) = Ok (s', dest') /\
  wah_new s' (uba_from dest' 1) = Ok w /\ wah_ats s' w [2; 0; 103; 200] = Ok [100; 3; 499; 0].
Proof.
  destruct (wah_roundtrip (Vec.mk [1]) (mkUba 0 1 0 1) [1] ([3; 7; 100; 300] ++ seqZ 400 100) [2; 0; 103; 200] 7)
    as (s' & dest' & w & bytes & H1 & _ & H2 & _ & H3 & _).
  - split; [uba_wf_tac|reflexivity].
  - cbn. lia.
  - reflexivity.
  - reflexivity.
  - apply wah_src_dec. vm_compute. reflexivity.
  - repeat constructor; lia.
  - exists s', dest', w. split; [exact H1|]. split; [exact H2|]. rewrite H3. vm_compute. reflexivity.
Defined.

(** Bit sets. [fromBitSet] makes an index of the positions of the set bits, and [putInto]
    copies them into a bit set with room for them and keeps the bits that are there. *)
Theorem wah_bit_sets {S : Type} {B : Backend S} {BO : BackendOk S} {T : Type} {BT : Backend T} {BOT : BackendOk T} (s : S) bits l (t : T) dest m :
  buf s bits l -> buf t dest m -> bk_isContiguous (S := T) = true -> zlen l < 2 ^ 28 -> zlen l + 5 <= zlen m ->
  zlen (set_positions (le_val l) 0 (8 * zlen l)) < 2 ^ 30 ->
  exists v w, wah_fromBitSet s bits = Ok (v, w) /\ wah_usable v w (set_positions (le_val l) 0 (8 * zlen l)) /\
    exists t' m', wah_putInto_bits v w t dest = Ok (t', dest) /\ buf t' dest m' /\ length m' = length m /\ le_val m' = le_val m ||| le_val l.
Proof.
  intros Hb Hd Hc Hl Hm Hn. destruct (wah_fromBitSet_ok s bits l Hb Hl Hn) as (v & w & ws & Hf & Hh & Hids & Hlen). exists v, w.
  split; [done|]. split; [by exists [], ws|].
  destruct (putInto_bits_ok dest Hc v w [] ws t m Hh Hd) as (t' & m' & Hp & Hb' & Hl' & Hv); [cbn [app]; lia|].
  exists t', m'. split; [done|]. split; [done|]. split; [done|]. rewrite Hv. cbn [app]. rewrite Hids. apply set_bits_lor; [exact (buf_bytes _ _ _ Hb)|].
  intros z. by rewrite elem_of_set_positions.
Qed.

Lemma wah_bit_sets_witness : exists v w t' m', wah_fromBitSet (Vec.mk [9; 0; 0; 0; 255; 255; 255; 255; 255; 255; 255; 255; 2]) (mkUba 0 13 0 0) = Ok (v, w) /\
  wah_putInto_bits v w (Vec.mk (6 :: replicate 17 0)) (mkUba 0 18 0 0) = Ok (t', mkUba 0 18 0 0) /\ buf t' (mkUba 0 18 0 0) m' /\
  le_val m' = le_val [15; 0; 0; 0; 255; 255; 255; 255; 255; 255; 255; 255; 2].
Proof.
  set (l := [9; 0; 0; 0; 255; 255; 255; 255; 255; 255; 255; 255; 2]). set (m := 6 :: replicate 17 0).
  destruct (wah_bit_sets (Vec.mk l) (mkUba 0 13 0 0) l (Vec.mk m) (mkUba 0 18 0 0) m) as (v & w & H1 & _ & t' & m' & H2 & H3 & _ & H4).
  - split; [uba_wf_tac|reflexivity].
  - split; [uba_wf_tac|reflexivity].
  - reflexivity.
  - reflexivity.
  - cbn. lia.
  - vm_compute. reflexivity.
  - exists v, w, t', m'. split; [exact H1|]. split; [exact H2|]. split; [exact H3|]. rewrite H4. vm_compute. reflexivity.
Defined.
