(* ===== verification/ItemIndexWAHOps.v ===== *)
(** The set operations of the word-aligned hybrid index, on two indexes:
    [intersect], [unite], [difference] and [symmetricDifference] of
    [src/containers/ItemIndexPrivates/ItemIndexPrivateWAH.cpp].

    The four functions walk over the words of both operands in the same way; [wah_op] is what
    they differ in.  On the numbers an index stands for ([ItemIndexWAH]) they are the bitwise
    operations. *)

From stdpp Require Import sorting.
From S2P Require Import Prelude UtilMath PackUnpack Storage ByteArray ByteStream Bits CompactUintArray StaticArray BitSets SetFuncs IndexOps ItemIndexNative ItemIndexWAH.

(** * The operations *)

(** [OutPutHandler]; the adapter it refers to belongs to it. *)
Record oph := mkOph { oh_mem : Vec.t; oh_data : uba; oh_outPutWord : Z; oh_idCount : Z }.

Definition oh_push (h : oph) : result oph :=
  let w := oh_outPutWord h in
  let idCount :=
    match w &&& 3 with
    | 1 => oh_idCount h
    | 3 => u32 (oh_idCount h + u32 (31 * (w >>> 2)))
    | _ => u32 (oh_idCount h + popCount 32 (w >>> 1))
    end in
  '(mem, data) ← uba_sput Uint32 (oh_mem h) (oh_data h) w;
  mret (mkOph mem data w idCount).

Definition oh_set (h : oph) (w : Z) : oph := mkOph (oh_mem h) (oh_data h) w (oh_idCount h).

Definition oh_append (h : oph) (nextWord : Z) : result oph :=
  let w := oh_outPutWord h in
  if negb (nextWord &&& 1 =? 0) && negb (w &&& 1 =? 0) then
    if nextWord &&& 2 =? w &&& 2 then Ok (oh_set h (u32 (w + (nextWord &&& u32 (Z.lnot 3)))))
    else h ← oh_push h; mret (oh_set h nextWord)
  else
    h ← (if negb (w =? 0) then oh_push h else Ok h);
    mret (oh_set h nextWord).

Definition oh_flush (h : oph) : result oph := if negb (oh_outPutWord h =? 0) then oh_push h else Ok h.

(** What the four functions differ in: the flags of a run that both are in, the words for a
    block of one and a run of the other and for two blocks, and whether what is left of an
    operand is appended. *)
Record wah_op := mkWahOp {
  wp_pushType : Z -> Z -> Z;
  wp_zero_lit : Z -> Z; wp_one_lit : Z -> Z;
  wp_lit_zero : Z -> Z; wp_lit_one : Z -> Z;
  wp_lit_lit : Z -> Z -> Z;
  wp_firstRest : bool; wp_secondRest : bool
}.

Definition wah_intersect : wah_op := mkWahOp
  (fun myVal oVal => if (((myVal &&& 3) <<< 2) ||| (oVal &&& 3)) =? 15 then 3 else 1)
  (fun _ => 5) (fun oVal => oVal) (fun _ => 5) (fun myVal => myVal)
  (fun myVal oVal => let pushVal := myVal &&& oVal in if pushVal =? 0 then 5 else pushVal)
  false false.

Definition wah_unite : wah_op := mkWahOp
  (fun myVal oVal => (myVal &&& 3) ||| (oVal &&& 3))
  (fun oVal => oVal) (fun _ => 7) (fun myVal => myVal) (fun _ => 7)
  (fun myVal oVal => let pushVal := myVal ||| oVal in if u32 (Z.lnot pushVal) =? 1 then 7 else pushVal)
  true true.

Definition wah_difference : wah_op := mkWahOp
  (fun myVal oVal => if (((myVal &&& 3) <<< 2) ||| (oVal &&& 3)) =? 15 then 1 else myVal &&& 3)
  (fun _ => 5) (fun oVal => u32 (Z.lnot oVal) &&& u32 (Z.lnot 1)) (fun myVal => myVal) (fun _ => 5)
  (fun myVal oVal => let pushVal := myVal &&& u32 (Z.lnot oVal) in if pushVal =? 0 then 5 else pushVal)
  true false.

Definition wah_symmetricDifference : wah_op := mkWahOp
  (fun myVal oVal => ((myVal ^^^ oVal) &&& 2) ||| 1)
  (fun oVal => oVal) (fun oVal => u32 (Z.lnot (oVal ||| 1))) (fun myVal => myVal) (fun myVal => u32 (Z.lnot (myVal ||| 1)))
  (fun myVal oVal => let pushVal := myVal ^^^ oVal in if pushVal =? 4294967294 then 7 else if pushVal =? 0 then 5 else pushVal)
  true true.

(** The [switch]: what is left of the two words. *)
Definition wo_step (op : wah_op) (h : oph) (myVal oVal : Z) : result (oph * Z * Z) :=
  let mask := u32 (Z.lnot 3) in
  match ((myVal &&& 3) <<< 2) ||| (oVal &&& 3) with
  | 15 | 5 | 7 | 13 =>
      let pushType := wp_pushType op myVal oVal in
      if oVal &&& mask <=? myVal &&& mask then
        h ← oh_append h ((oVal &&& mask) ||| pushType); mret (h, u32 (myVal - (oVal &&& mask)), 0)
      else
        h ← oh_append h ((myVal &&& mask) ||| pushType); mret (h, 0, u32 (oVal - (myVal &&& mask)))
  | 4 | 6 => h ← oh_append h (wp_zero_lit op oVal); mret (h, u32 (myVal - 4), 0)
  | 12 | 14 => h ← oh_append h (wp_one_lit op oVal); mret (h, u32 (myVal - 4), 0)
  | 9 | 1 => h ← oh_append h (wp_lit_zero op myVal); mret (h, 0, u32 (oVal - 4))
  | 3 | 11 => h ← oh_append h (wp_lit_one op myVal); mret (h, 0, u32 (oVal - 4))
  | _ => h ← oh_append h (wp_lit_lit op myVal oVal); mret (h, 0, 0)
  end.

(** An iterator and the word taken from it. *)
Definition wcur : Type := wit * Z.

(** [if (!(val >> 2)) { if (!it.hasNext()) break; val = it.next(); }] *)
Definition wo_fetch {U : Type} `{Backend U} (u : U) (c : wcur) : result (option wcur) :=
  let '(it, val) := c in
  if val >>> 2 =? 0 then
    if wi_hasNext it then c ← wi_next u it; mret (Some c) else Ok None
  else Ok (Some c).

Section set_operations.
Context {S T : Type} `{Backend S} `{Backend T}.

Fixpoint wo_loop (fuel : nat) (op : wah_op) (s : S) (t : T) (my o : wcur) (h : oph) : result (wcur * wcur * oph) :=
  match fuel with
  | O => Err OutOfFuel
  | Datatypes.S fuel =>
      my' ← wo_fetch s my;
      match my' with
      | None => Ok (my, o, h)
      | Some my =>
          o' ← wo_fetch t o;
          match o' with
          | None => Ok (my, o, h)
          | Some o =>
              '(h, myVal, oVal) ← wo_step op h (snd my) (snd o);
              wo_loop fuel op s t (fst my, myVal) (fst o, oVal) h
          end
      end
  end.
End set_operations.

Fixpoint wo_rest {U : Type} `{Backend U} (fuel : nat) (u : U) (it : wit) (h : oph) : result oph :=
  match fuel with
  | O => Err OutOfFuel
  | Datatypes.S fuel =>
      if wi_hasNext it then '(it, val) ← wi_next u it; h ← oh_append h val; wo_rest fuel u it h else Ok h
  end.

Definition wo_tail {U : Type} `{Backend U} (u : U) (c : wcur) (h : oph) : result oph :=
  let '(it, val) := c in
  h ← (if negb (val >>> 2 =? 0) || ((val &&& 1 =? 0) && negb (val >>> 1 =? 0)) then oh_append h val else Ok h);
  wo_rest (Datatypes.S (Z.to_nat (wi_size it))) u it h.

Definition wah_setOp {S T : Type} `{Backend S} `{Backend T} (op : wah_op) (s : S) (a : wah) (t : T) (b : wah) : result (Vec.t * wah) :=
  my ← wah_dataIterator s a;
  o ← wah_dataIterator t b;
  let '(mem, data) := createCache 8 in
  '(mem, data) ← uba_sput Uint32 mem data 0;
  '(mem, data) ← uba_sput Uint32 mem data 0;
  '(my, o, h) ← wo_loop (Datatypes.S (Z.to_nat (wi_size my + wi_size o))) op s t (my, 0) (o, 0) (mkOph mem data 0 0);
  h ← (if wp_firstRest op then wo_tail s my h else Ok h);
  h ← (if wp_secondRest op then wo_tail t o h else Ok h);
  h ← oh_flush h;
  mem ← uba_put Uint32 (oh_mem h) (oh_data h) 0 (u32 (u64 (m_putPtr (oh_data h) - 8)));
  mem ← uba_put Uint32 mem (oh_data h) 4 (oh_idCount h);
  w ← wah_new mem (resetPtrs (oh_data h));
  mret (mem, w).

(** Any other operand goes to the generic operation of [ItemIndexPrivate]. *)
Definition wah_otherOp {S E : Type} `{Backend S} `{AtIndex E} (op : set_op) (s : S) (x : wah) (y : E) : result nat_idx :=
  @execute _ _ wah_AtIndex _ op (s, x) y.

(** * The output *)

Lemma bids_count bl : Forall (fits 31) bl -> zlen (bids bl) = popcount_bits (31 * length bl) (bval bl).
Proof. intros Hbl. unfold bids. rewrite (popcount_positions _ (bval bl) (bval bl) 0) by done. do 2 f_equal. f_equal. lia. Qed.

Lemma bids_count_app a c : Forall (fits 31) a -> Forall (fits 31) c -> zlen (bids (a ++ c)) = zlen (bids a) + zlen (bids c).
Proof.
  intros Ha Hc. rewrite bids_split, length_app, Nat2Z.inj_add. f_equal.
  - rewrite (bids_count a Ha), (popcount_positions _ (bval a) (bval (a ++ c)) 0); [do 2 f_equal; f_equal; lia|].
    intros j Hj. rewrite bval_bit by (done || lia). by rewrite (proj2 (Z.ltb_lt _ _)) by lia.
  - rewrite (bids_count c Hc), (popcount_positions _ (bval c) (bval (a ++ c)) (31 * zlen a)); [do 2 f_equal; f_equal; lia|].
    intros j Hj. rewrite bval_bit by (done || lia). rewrite (proj2 (Z.ltb_ge _ _)) by lia. f_equal. lia.
Qed.

Lemma popcount_fits n m b : fits (Z.of_nat n) b -> popcount_bits (n + m) b = popcount_bits n b.
Proof.
  intros Hb. induction m as [|m IH]; [by rewrite Nat.add_0_r|]. rewrite Nat.add_succ_r. cbn [popcount_bits]. rewrite IH.
  by rewrite (testbit_fits_high (Z.of_nat n) b) by (done || lia).
Qed.

(** The ids of a word as [push] counts them. *)
Lemma word_count w : wok w ->
  match w &&& 3 with 1 => 0 | 3 => u32 (31 * (w >>> 2)) | _ => popCount 32 (w >>> 1) end = zlen (bids (wblocks w)) \/ 2 ^ 32 <= 31 * zlen (wblocks w).
Proof.
  intros Hw. destruct (wok_blocks w Hw) as [Hb _]. rewrite (bids_count _ Hb). destruct Hw as [b Hb'|f n Hn].
  - left. rewrite wblocks_lit. destruct (lit_low b) as (_ & -> & [-> | ->]); unfold popCount; cbn [length bval];
      rewrite Z.mul_0_r, Z.add_0_r; apply (popcount_fits 31 1); unfold fits, full in *; change (Z.of_nat 31) with 31; lia.
  - rewrite wblocks_run in * by lia. destruct (run_low f n ltac:(lia)) as (_ & _ & -> & -> & _). rewrite length_replicate.
    assert (popcount_bits (31 * Z.to_nat n) (bval (replicate (Z.to_nat n) (if f then full else 0))) = if f then Z.of_nat (31 * Z.to_nat n) else 0) as ->.
    { apply popcount_extreme. intros j Hj. apply run_bits. lia. }
    destruct f; [|by left]. destruct (decide (2 ^ 32 <= 31 * Z.of_nat (Z.to_nat n))); [by right|left]. rewrite wrap_small by (unfold fits; lia). lia.
Qed.

(** The word that is not written yet. *)
Inductive opend : Z -> list Z -> Prop :=
  | opend_none : opend 0 []
  | opend_word w : wok w -> opend w (wblocks w).

(** The output stands for the blocks [bl]. *)
Definition oh_at (h : oph) (ws pl : list Z) : Prop :=
  wbuf (oh_mem h) (oh_data h) (0 :: 0 :: ws) /\ Forall wok ws /\ opend (oh_outPutWord h) pl /\ oh_idCount h = zlen (bids (blocks ws)).
Definition oh_rep (h : oph) (bl : list Z) : Prop := exists ws pl, oh_at h ws pl /\ bl = blocks ws ++ pl.

Lemma oh_push_ok h ws : oh_at h ws (wblocks (oh_outPutWord h)) -> wok (oh_outPutWord h) -> 31 * (zlen (blocks ws) + zlen (wblocks (oh_outPutWord h))) < 2 ^ 32 ->
  exists h', oh_push h = Ok h' /\ wbuf (oh_mem h') (oh_data h') (0 :: 0 :: ws ++ [oh_outPutWord h]) /\ Forall wok (ws ++ [oh_outPutWord h]) /\
    oh_idCount h' = zlen (bids (blocks (ws ++ [oh_outPutWord h]))).
Proof.
  intros (Hb & Hw & _ & Hcnt) Hok Hn. set (w := oh_outPutWord h) in *. unfold oh_push. fold w.
  destruct (blocks_ok ws Hw) as [Hbl _]. destruct (wok_blocks w Hok) as [Hbw _].
  destruct (wf_push (oh_mem h) (oh_data h) ws w Hb Hw Hok) as (m1 & d1 & -> & Hb1 & Hw1); [lia|]. rewrite bind_ok_l. eexists. split; [done|].
  cbn [oh_mem oh_data oh_idCount]. split; [done|]. split; [done|]. rewrite blocks_snoc, bids_count_app, Hcnt by done.
  pose proof (cached_few (bval (blocks ws)) (31 * zlen (blocks ws)) ltac:(lia)) as H1. fold (bids (blocks ws)) in H1.
  pose proof (cached_few (bval (wblocks w)) (31 * zlen (wblocks w)) ltac:(lia)) as H2. fold (bids (wblocks w)) in H2.
  destruct (word_count w Hok) as [E|E]; [|lia]. rewrite <- E in *.
  destruct Hok as [b Hb'|f n Hn'].
  - destruct (lit_low b) as (_ & _ & [E3|E3]); rewrite E3 in *; rewrite wrap_small by (unfold fits; lia); done.
  - destruct (run_low f n ltac:(lia)) as (_ & _ & E3 & _). rewrite E3 in *. destruct f; [rewrite wrap_small by (unfold fits; lia); done|lia].
Qed.

Lemma mask_word w : fits 32 w -> w &&& u32 (Z.lnot 3) = 4 * (w >>> 2).
Proof.
  intros Hw. change (u32 (Z.lnot 3)) with 4294967292. replace 4294967292 with (Z.ones 30 <<< 2) by done.
  rewrite <- (Z.mul_comm _ 4). change 4 with (2 ^ 2). rewrite <- Z.shiftl_mul_pow2 by lia. bitwise.
Qed.

Lemma run_mask (f : bool) n : 0 <= n < 2 ^ 30 -> (4 * n + if f then 3 else 1) &&& u32 (Z.lnot 3) = 4 * n.
Proof. intros Hn. rewrite mask_word by (unfold fits; destruct f; lia). by destruct (run_low f n ltac:(lia)) as (_ & _ & _ & -> & _). Qed.

Lemma run_or (f : bool) n : 0 <= n < 2 ^ 30 -> 4 * n ||| (if f then 3 else 1) = 4 * n + if f then 3 else 1.
Proof. intros Hn. rewrite <- run_word by done. f_equal. rewrite Z.shiftl_mul_pow2, wrap_small by (unfold fits; lia). lia. Qed.

(** [append] adds the blocks of a word. *)
Lemma oh_append_ok h bl w : oh_rep h bl -> wok w -> 31 * (zlen bl + zlen (wblocks w)) < 2 ^ 32 ->
  exists h', oh_append h w = Ok h' /\ oh_rep h' (bl ++ wblocks w).
Proof.
  intros (ws & pl & Hat & ->) Hw Hn. pose proof Hat as (Hb & Hws & Hpd & Hcnt). rewrite length_app in Hn.
  assert (forall h', wbuf (oh_mem h') (oh_data h') (0 :: 0 :: ws ++ [oh_outPutWord h]) -> Forall wok (ws ++ [oh_outPutWord h]) ->
    oh_idCount h' = zlen (bids (blocks (ws ++ [oh_outPutWord h]))) -> oh_rep (oh_set h' w) (blocks (ws ++ [oh_outPutWord h]) ++ wblocks w)) as Hset.
  { intros h' H1 H2 H3. exists (ws ++ [oh_outPutWord h]), (wblocks w). split; [|done]. split; [done|]. split; [done|]. split; [by constructor|done]. }
  unfold oh_append. inversion Hpd as [E E'|w0 Hw0 E E']; subst pl.
  - change (0 &&& 1) with 0. change (0 =? 0) with true. cbn [negb]. rewrite andb_false_r, bind_ok_l. exists (oh_set h w). split; [done|].
    exists ws, (wblocks w). rewrite app_nil_r. split; [|done]. split; [done|]. split; [done|]. split; [by constructor|done].
  - subst w0. destruct (oh_push_ok h ws Hat Hw0) as (h1 & Hp & H1 & H2 & H3); [lia|].
    specialize (Hset h1 H1 H2 H3). rewrite blocks_snoc in Hset. rewrite <- app_assoc in *.
    assert (oh_outPutWord h <> 0) as Hnz by (destruct Hw0 as [? ?|[] ? ?]; lia). rewrite (proj2 (Z.eqb_neq (oh_outPutWord h) 0)) by done. cbn [negb]. rewrite Hp, !bind_ok_l.
    destruct (negb (w &&& 1 =? 0) && negb (oh_outPutWord h &&& 1 =? 0)) eqn:Eb; [|by exists (oh_set h1 w)].
    destruct (w &&& 2 =? oh_outPutWord h &&& 2) eqn:E2; [|by exists (oh_set h1 w)]. eexists. split; [done|].
    destruct Hw as [b ?|f n Hn1]; [by destruct (lit_low b) as (Eo & _); rewrite Eo in Eb|].
    remember (oh_outPutWord h) as o eqn:Ho. destruct Hw0 as [b ?|g m Hn2]; [destruct (lit_low b) as (Eo & _); rewrite Eo, andb_false_r in Eb; done|].
    destruct (run_low f n ltac:(lia)) as (_ & Ef & _). destruct (run_low g m ltac:(lia)) as (_ & Eg & _). rewrite Ef, Eg in E2.
    assert (g = f) as -> by (by destruct f, g). rewrite !wblocks_run, !length_replicate in * by lia. rewrite run_mask by lia.
    rewrite wrap_small by (unfold fits; destruct f; lia). replace (4 * m + (if f then 3 else 1) + 4 * n) with (4 * (m + n) + if f then 3 else 1) by lia.
    exists ws, (wblocks (4 * (m + n) + if f then 3 else 1)). split; [|rewrite wblocks_run, Z2Nat.inj_add, replicate_add by lia; done].
    split; [done|]. split; [done|]. split; [|done]. constructor. apply wok_run. lia.
Qed.

Lemma oh_flush_ok h bl : oh_rep h bl -> 31 * zlen bl < 2 ^ 32 ->
  exists h' ws, oh_flush h = Ok h' /\ wbuf (oh_mem h') (oh_data h') (0 :: 0 :: ws) /\ Forall wok ws /\ blocks ws = bl /\ oh_idCount h' = zlen (bids bl).
Proof.
  intros (ws & pl & Hat & ->) Hn. pose proof Hat as (Hb & Hws & Hpd & Hcnt). rewrite length_app in Hn. unfold oh_flush.
  inversion Hpd as [E E'|w0 Hw0 E E']; subst pl.
  - exists h, ws. rewrite app_nil_r. done.
  - subst w0. assert (oh_outPutWord h <> 0) as Hnz by (destruct Hw0 as [? ?|[] ? ?]; lia). rewrite (proj2 (Z.eqb_neq (oh_outPutWord h) 0)) by done. cbn [negb].
    destruct (oh_push_ok h ws Hat Hw0) as (h1 & Hp & H1 & H2 & H3); [lia|]. exists h1, (ws ++ [oh_outPutWord h]).
    rewrite <- blocks_snoc. done.
Qed.

(** * The operations on blocks *)

Definition fill (f : bool) : Z := if f then full else 0.

(** [op] computes the bitwise operation [F] of the boolean function [fb]. *)
Record op_does (op : wah_op) (F : Z -> Z -> Z) (fb : bool -> bool -> bool) : Prop := {
  od_bits a b i : 0 <= i -> Z.testbit (F a b) i = fb (Z.testbit a i) (Z.testbit b i);
  od_false : fb false false = false;
  od_runs (f g : bool) n m : 0 <= n < 2 ^ 30 -> 0 <= m < 2 ^ 30 -> exists e : bool,
    wp_pushType op (4 * n + if f then 3 else 1) (4 * m + if g then 3 else 1) = (if e then 3 else 1) /\ F (fill f) (fill g) = fill e;
  od_run_lit (f : bool) b : 0 < b < full -> let w := if f then wp_one_lit op (2 * b) else wp_zero_lit op (2 * b) in wok w /\ wblocks w = [F (fill f) b];
  od_lit_run (f : bool) b : 0 < b < full -> let w := if f then wp_lit_one op (2 * b) else wp_lit_zero op (2 * b) in wok w /\ wblocks w = [F b (fill f)];
  od_lit_lit a b : 0 < a < full -> 0 < b < full -> wok (wp_lit_lit op (2 * a) (2 * b)) /\ wblocks (wp_lit_lit op (2 * a) (2 * b)) = [F a b];
  od_firstRest : wp_firstRest op = fb true false;
  od_secondRest : wp_secondRest op = fb false true;
}.

(** What is left of a word that was taken from an iterator. *)
Inductive vleft : Z -> list Z -> Prop :=
  | vleft_none : vleft 0 []
  | vleft_run (f : bool) n : 0 <= n < 2 ^ 30 -> vleft (4 * n + if f then 3 else 1) (replicate (Z.to_nat n) (fill f)).

Section loop.
Context (op : wah_op) (F : Z -> Z -> Z) (fb : bool -> bool -> bool) (Hop : op_does op F fb).

Lemma run_step (f g : bool) n m h bl : oh_rep h bl -> 1 <= n < 2 ^ 30 -> 1 <= m < 2 ^ 30 -> 31 * (zlen bl + Z.min n m) < 2 ^ 32 ->
  exists h' v1 v2 p1 p2, wo_step op h (4 * n + if f then 3 else 1) (4 * m + if g then 3 else 1) = Ok (h', v1, v2) /\ vleft v1 p1 /\ vleft v2 p2 /\
    (v1 >>> 2 = 0 \/ v2 >>> 2 = 0) /\ exists k, replicate (Z.to_nat n) (fill f) = replicate k (fill f) ++ p1 /\
    replicate (Z.to_nat m) (fill g) = replicate k (fill g) ++ p2 /\ oh_rep h' (bl ++ replicate k (F (fill f) (fill g))).
Proof using Hop.
  intros Hh Hn Hm Hlim. destruct (run_low f n ltac:(lia)) as (_ & _ & E1 & _). destruct (run_low g m ltac:(lia)) as (_ & _ & E2 & _).
  destruct (od_runs _ _ _ Hop f g n m ltac:(lia) ltac:(lia)) as (e & Ep & Ee). unfold wo_step. rewrite Ep, !run_mask, E1, E2 by lia.
  assert (forall A (x : A) a b c d e', match ((if f then 3 else 1) <<< 2) ||| (if g then 3 else 1) with
    | 15 | 5 | 7 | 13 => x | 4 | 6 => a | 12 | 14 => b | 9 | 1 => c | 3 | 11 => d | _ => e' end = x) as -> by (by destruct f, g).
  assert (forall k, 1 <= k < 2 ^ 30 -> k <= Z.min n m -> exists h', oh_append h (4 * k ||| (if e then 3 else 1)) = Ok h' /\ oh_rep h' (bl ++ replicate (Z.to_nat k) (F (fill f) (fill g)))) as Happ.
  { intros k Hk Hkm. rewrite run_or by lia. destruct (oh_append_ok h bl (4 * k + if e then 3 else 1) Hh (wok_run e k Hk)) as (h' & -> & Hh').
    - rewrite wblocks_run, length_replicate by lia. lia.
    - exists h'. split; [done|]. rewrite wblocks_run in Hh' by lia. by rewrite Ee. }
  assert (forall k j x, 1 <= j <= k -> replicate (Z.to_nat k) x = replicate (Z.to_nat j) x ++ replicate (Z.to_nat (k - j)) x :> list Z) as Hrep.
  { intros k j x Hj. rewrite <- replicate_add. f_equal. lia. }
  destruct (Z.leb_spec (4 * m) (4 * n)).
  - destruct (Happ m) as (h' & -> & Hh'); [lia|lia|]. rewrite bind_ok_l. rewrite wrap_small by (unfold fits; destruct f; lia).
    replace (4 * n + (if f then 3 else 1) - 4 * m) with (4 * (n - m) + if f then 3 else 1) by lia.
    eexists h', _, _, _, _. split; [done|]. split; [apply vleft_run; lia|]. split; [apply vleft_none|]. split; [by right|].
    exists (Z.to_nat m). split; [apply Hrep; lia|]. split; [by rewrite app_nil_r|done].
  - destruct (Happ n) as (h' & -> & Hh'); [lia|lia|]. rewrite bind_ok_l. rewrite wrap_small by (unfold fits; destruct g; lia).
    replace (4 * m + (if g then 3 else 1) - 4 * n) with (4 * (m - n) + if g then 3 else 1) by lia.
    eexists h', _, _, _, _. split; [done|]. split; [apply vleft_none|]. split; [apply vleft_run; lia|]. split; [by left|].
    exists (Z.to_nat n). split; [by rewrite app_nil_r|]. split; [apply Hrep; lia|done].
Qed.

(** A step takes as many blocks from both words. *)
Lemma wo_step_ok h bl x y : oh_rep h bl -> wok x -> wok y -> 31 * (zlen bl + Z.min (zlen (wblocks x)) (zlen (wblocks y))) < 2 ^ 32 ->
  exists h' v1 v2 xa xb p1 p2, wo_step op h x y = Ok (h', v1, v2) /\ vleft v1 p1 /\ vleft v2 p2 /\ (v1 >>> 2 = 0 \/ v2 >>> 2 = 0) /\
    wblocks x = xa ++ p1 /\ wblocks y = xb ++ p2 /\ length xa = length xb /\ oh_rep h' (bl ++ zip_with F xa xb).
Proof using Hop.
  intros Hh Hx Hy Hlim.
  assert (forall w b, wok w -> wblocks w = [b] -> zlen bl + 1 <= zlen bl + Z.min (zlen (wblocks x)) (zlen (wblocks y)) ->
    exists h', oh_append h w = Ok h' /\ oh_rep h' (bl ++ [b])) as Hone.
  { intros w b Hw Hb Hn. destruct (oh_append_ok h bl w Hh Hw) as (h' & -> & Hh'); [rewrite Hb; cbn [length]; lia|]. exists h'. by rewrite <- Hb. }
  assert (forall (f : bool) n, 1 <= n < 2 ^ 30 -> u32 (4 * n + (if f then 3 else 1) - 4) = 4 * (n - 1) + if f then 3 else 1) as Hdec.
  { intros f n Hn. rewrite wrap_small by (unfold fits; destruct f; lia). lia. }
  assert (forall (f : bool) n, 1 <= n -> replicate (Z.to_nat n) (fill f) = [fill f] ++ replicate (Z.to_nat (n - 1)) (fill f)) as Hrep.
  { intros f n Hn. change [fill f] with (replicate 1 (fill f)). rewrite <- replicate_add. f_equal. lia. }
  destruct Hx as [a Ha|f n Hn], Hy as [b Hb|g m Hm].
  - destruct (od_lit_lit _ _ _ Hop a b Ha Hb) as [Hw Hwb]. destruct (Hone _ _ Hw Hwb) as (h' & Ha' & Hh'); [rewrite !wblocks_lit; cbn [length]; lia|].
    exists h', 0, 0, [a], [b], [], []. rewrite !wblocks_lit. split; [|split; [constructor|split; [constructor|split; [by left|done]]]]. unfold wo_step.
    destruct (lit_low a) as (_ & _ & [-> | ->]), (lit_low b) as (_ & _ & [-> | ->]); rewrite Ha'; done.
  - destruct (od_lit_run _ _ _ Hop g a Ha) as [Hw Hwb]. destruct (Hone _ _ Hw Hwb) as (h' & Ha' & Hh').
    { rewrite wblocks_lit, wblocks_run, length_replicate by lia. cbn [length]. lia. }
    exists h', 0, (4 * (m - 1) + if g then 3 else 1), [a], [fill g], [], (replicate (Z.to_nat (m - 1)) (fill g)). rewrite wblocks_lit, wblocks_run by lia.
    split; [|split; [exact vleft_none|split; [apply vleft_run; lia|split; [by left|split; [done|split; [apply Hrep; lia|done]]]]]]. unfold wo_step.
    destruct (run_low g m ltac:(lia)) as (_ & _ & -> & _). rewrite Hdec by done.
    destruct (lit_low a) as (_ & _ & [-> | ->]), g; cbn [Z.shiftl Z.lor] in *; change (0 <<< 2) with 0; change (2 <<< 2) with 8; rewrite Ha'; done.
  - destruct (od_run_lit _ _ _ Hop f b Hb) as [Hw Hwb]. destruct (Hone _ _ Hw Hwb) as (h' & Ha' & Hh').
    { rewrite wblocks_lit, wblocks_run, length_replicate by lia. cbn [length]. lia. }
    exists h', (4 * (n - 1) + if f then 3 else 1), 0, [fill f], [b], (replicate (Z.to_nat (n - 1)) (fill f)), []. rewrite wblocks_lit, wblocks_run by lia.
    split; [|split; [apply vleft_run; lia|split; [constructor|split; [by right|split; [apply Hrep; lia|done]]]]]. unfold wo_step.
    destruct (run_low f n ltac:(lia)) as (_ & _ & -> & _). rewrite Hdec by done.
    destruct (lit_low b) as (_ & _ & [-> | ->]), f; rewrite Ha'; done.
  - rewrite !wblocks_run, !length_replicate in * by lia.
    destruct (run_step f g n m h bl Hh Hn Hm) as (h' & v1 & v2 & p1 & p2 & E & H1 & H2 & H3 & k & Hk1 & Hk2 & Hh'); [lia|].
    exists h', v1, v2, (replicate k (fill f)), (replicate k (fill g)), p1, p2. rewrite !length_replicate. do 6 (split; [done|]). split; [done|].
    by rewrite zip_with_replicate.
Qed.
End loop.

(** A word and the words in front of the iterator stand for blocks; the word may be a rest,
    or just have been taken. *)
Definition wrest {U : Type} {BU : Backend U} {BOU : BackendOk U} (u : U) (c : wcur) (ws bl : list Z) : Prop :=
  wit_at u (fst c) ws /\ Forall wok ws /\ exists pl, vleft (snd c) pl /\ bl = pl ++ blocks ws.
Definition wtaken {U : Type} {BU : Backend U} {BOU : BackendOk U} (u : U) (c : wcur) (ws bl : list Z) : Prop :=
  wit_at u (fst c) ws /\ Forall wok ws /\ wok (snd c) /\ bl = wblocks (snd c) ++ blocks ws.

Lemma vleft_cases v pl : vleft v pl -> v >>> 2 = 0 /\ pl = [] \/ v >>> 2 <> 0 /\ wok v /\ pl = wblocks v.
Proof.
  intros [|f n Hn]; [by left|]. destruct (run_low f n ltac:(lia)) as (_ & _ & _ & -> & _). destruct (decide (n = 0)) as [->|]; [by left|right].
  split; [done|]. split; [apply wok_run; lia|]. by rewrite wblocks_run by lia.
Qed.

Lemma wo_fetch_ok {U : Type} {BU : Backend U} {BOU : BackendOk U} (u : U) c ws bl : wrest u c ws bl ->
  wo_fetch u c = Ok None /\ bl = [] \/
  exists c' ws', wo_fetch u c = Ok (Some c') /\ wtaken u c' ws' bl /\ (length ws' <= length ws)%nat /\ (snd c >>> 2 = 0 -> (length ws' < length ws)%nat).
Proof.
  destruct c as [it v]. intros (Hit & Hw & pl & Hv & ->). cbn [fst snd] in *. unfold wo_fetch.
  destruct (vleft_cases v pl Hv) as [[E ->]|(E & Hv' & ->)].
  - rewrite E. cbn [Z.eqb app]. rewrite (wi_hasNext_ok u it ws Hit). destruct ws as [|x ws]; [left; rewrite bool_decide_false by naive_solver; by split|right].
    rewrite bool_decide_true by done. destruct (wi_next_ok u it x ws Hit) as (it' & -> & Hit' & _). rewrite bind_ok_l. apply Forall_cons in Hw as [Hx Hw].
    exists (it', x), ws. split; [done|]. split; [by split|]. cbn [length]. split; [lia|intros _; lia].
  - right. rewrite (proj2 (Z.eqb_neq _ _)) by done. exists (it, v), ws. split; [done|]. split; [by split|]. split; [lia|done].
Qed.

Section loop.
Context {S : Type} {BS : Backend S} {BOS : BackendOk S} {T : Type} {BT : Backend T} {BOT : BackendOk T}.
Context (op : wah_op) (F : Z -> Z -> Z) (fb : bool -> bool -> bool) (Hop : op_does op F fb).
Implicit Types (s : S) (t : T).

(** Where the loop ends: the blocks [a] and [b] are left, of one operand none. *)
Definition wo_end s t (my o : wcur) (a b : list Z) : Prop :=
  (exists ws, wrest s my ws a \/ wtaken s my ws a) /\ (exists ws, wrest t o ws b \/ wtaken t o ws b) /\ (a = [] \/ b = []).

Lemma wo_loop_ok fuel s t my o wa wb a b h bl : wrest s my wa a -> wrest t o wb b -> oh_rep h bl -> (snd my >>> 2 = 0 \/ snd o >>> 2 = 0) ->
  31 * (zlen bl + Z.min (zlen a) (zlen b)) < 2 ^ 32 -> (length wa + length wb < fuel)%nat ->
  exists my' o' h' a1 a2 b1 b2, wo_loop fuel op s t my o h = Ok (my', o', h') /\ wo_end s t my' o' a2 b2 /\
    a = a1 ++ a2 /\ b = b1 ++ b2 /\ length a1 = length b1 /\ oh_rep h' (bl ++ zip_with F a1 b1).
Proof using Hop BOS BOT.
  revert my o wa wb a b h bl. induction fuel as [|fuel IH]; intros my o wa wb a b h bl Ha Hb Hh Hz Hlim Hf; [lia|]. cbn [wo_loop].
  destruct (wo_fetch_ok s my wa a Ha) as [[-> ->]|(my1 & wa1 & -> & Ha1 & Hn1 & Hl1)]; rewrite bind_ok_l.
  { exists my, o, h, [], [], [], b. split; [done|]. cbn [zip_with]. rewrite (app_nil_r bl). split; [|done]. split; [exists wa; by left|]. split; [exists wb; by left|by left]. }
  destruct (wo_fetch_ok t o wb b Hb) as [[-> ->]|(o1 & wb1 & -> & Hb1 & Hn2 & Hl2)]; rewrite bind_ok_l.
  { exists my1, o, h, [], a, [], []. split; [done|]. cbn [zip_with]. rewrite (app_nil_r bl). split; [|done]. split; [exists wa1; by right|]. split; [exists wb; by left|by right]. }
  destruct my1 as [it1 x], o1 as [it2 y]. destruct Ha1 as (Hi1 & Hw1 & Hx & ->), Hb1 as (Hi2 & Hw2 & Hy & ->). cbn [fst snd] in *. rewrite !length_app in Hlim.
  destruct (wo_step_ok op F fb Hop h bl x y Hh Hx Hy) as (h1 & v1 & v2 & xa & xb & p1 & p2 & -> & Hv1 & Hv2 & Hz' & E1 & E2 & Hlen & Hh1); [lia|].
  rewrite bind_ok_l. rewrite E1, E2, !length_app in *.
  destruct (IH (it1, v1) (it2, v2) wa1 wb1 (p1 ++ blocks wa1) (p2 ++ blocks wb1) h1 (bl ++ zip_with F xa xb)) as (my' & o' & h' & a1 & a2 & b1 & b2 & -> & Hend & Ea & Eb & Hl & Hh').
  - split; [done|]. split; [done|]. by exists p1.
  - split; [done|]. split; [done|]. by exists p2.
  - exact Hh1.
  - done.
  - rewrite !length_app, length_zip_with. lia.
  - destruct Hz as [E|E]; [specialize (Hl1 E)|specialize (Hl2 E)]; lia.
  - exists my', o', h', (xa ++ a1), a2, (xb ++ b1), b2. split; [done|]. split; [done|]. rewrite <- !app_assoc, Ea, Eb. split; [done|]. split; [done|].
    rewrite !length_app. split; [lia|]. by rewrite zip_with_app, app_assoc by done.
Qed.
End loop.

Section tail.
Context {U : Type} {BU : Backend U} {BOU : BackendOk U} (u : U).

Lemma wo_rest_ok fuel it ws h bl : wit_at u it ws -> Forall wok ws -> oh_rep h bl -> 31 * (zlen bl + zlen (blocks ws)) < 2 ^ 32 -> (length ws < fuel)%nat ->
  exists h', wo_rest fuel u it h = Ok h' /\ oh_rep h' (bl ++ blocks ws).
Proof using BOU.
  revert it ws h bl. induction fuel as [|fuel IH]; intros it ws h bl Hit Hw Hh Hlim Hf; [lia|]. cbn [wo_rest]. rewrite (wi_hasNext_ok u it ws Hit).
  destruct ws as [|x ws]; [exists h; rewrite bool_decide_false by naive_solver; by rewrite app_nil_r|]. rewrite bool_decide_true by done.
  destruct (wi_next_ok u it x ws Hit) as (it' & -> & Hit' & _). apply Forall_cons in Hw as [Hx Hw]. rewrite bind_ok_l. rewrite blocks_cons, length_app in *.
  destruct (oh_append_ok h bl x Hh Hx) as (h1 & -> & Hh1); [lia|]. rewrite bind_ok_l. cbn [length] in Hf.
  destruct (IH it' ws h1 _ Hit' Hw Hh1) as (h2 & -> & Hh2); [rewrite length_app; lia|lia|]. exists h2. split; [done|]. by rewrite app_assoc.
Qed.

Lemma wo_tail_ok c ws a h bl : wrest u c ws a \/ wtaken u c ws a -> oh_rep h bl -> 31 * (zlen bl + zlen a) < 2 ^ 32 ->
  exists h', wo_tail u c h = Ok h' /\ oh_rep h' (bl ++ a).
Proof using BOU.
  destruct c as [it v]. intros Hc Hh Hlim.
  assert (wit_at u it ws /\ Forall wok ws /\ exists pl, a = pl ++ blocks ws /\
    (negb (v >>> 2 =? 0) || ((v &&& 1 =? 0) && negb (v >>> 1 =? 0)) = false /\ pl = [] \/
     negb (v >>> 2 =? 0) || ((v &&& 1 =? 0) && negb (v >>> 1 =? 0)) = true /\ wok v /\ pl = wblocks v)) as (Hit & Hw & pl & -> & Hpl).
  { destruct Hc as [(Hit & Hw & pl & Hv & ->)|(Hit & Hw & Hv & ->)]; cbn [fst snd] in *; (split; [done|]; split; [done|]); eexists; (split; [reflexivity|]).
    - destruct Hv as [|f n Hn]; [by left|]. destruct (run_low f n ltac:(lia)) as (E1 & _ & _ & E2 & _). rewrite E1, E2. destruct (Z.eqb_spec n 0) as [->|].
      + left. by destruct f.
      + right. cbn [negb orb]. split; [done|]. split; [apply wok_run; lia|]. by rewrite wblocks_run by lia.
    - right. split; [|done]. destruct Hv as [b Hb|f n Hn].
      + destruct (lit_low b) as (E1 & E2 & _). rewrite E1, E2. rewrite (proj2 (Z.eqb_neq b 0)) by lia. by rewrite orb_true_r.
      + destruct (run_low f n ltac:(lia)) as (_ & _ & _ & E2 & _). rewrite E2. by rewrite (proj2 (Z.eqb_neq n 0)) by lia. }
  rewrite length_app in Hlim. pose proof (wit_size _ _ _ Hit). unfold wo_tail.
  assert (exists h1, (if negb (v >>> 2 =? 0) || ((v &&& 1 =? 0) && negb (v >>> 1 =? 0)) then oh_append h v else Ok h) = Ok h1 /\ oh_rep h1 (bl ++ pl)) as (h1 & -> & Hh1).
  { destruct Hpl as [[-> ->]|(-> & Hv & ->)]; [exists h; by rewrite app_nil_r|]. apply oh_append_ok; [done|done|lia]. }
  rewrite bind_ok_l, app_assoc. apply wo_rest_ok; [done|done|done|rewrite length_app; lia|lia].
Qed.
End tail.

Section bits.
Context (op : wah_op) (F : Z -> Z -> Z) (fb : bool -> bool -> bool) (Hop : op_does op F fb).

Lemma zip_bits a b i : length a = length b -> Forall (fits 31) a -> Forall (fits 31) b -> Forall (fits 31) (zip_with F a b) -> 0 <= i ->
  Z.testbit (bval (zip_with F a b)) i = fb (Z.testbit (bval a) i) (Z.testbit (bval b) i).
Proof using Hop.
  revert b i. induction a as [|x a IH]; intros [|y b] i Hl Ha Hb Hz Hi; try done; [cbn [zip_with bval]; by rewrite Z.bits_0, (od_false _ _ _ Hop)|].
  cbn [zip_with] in *. apply Forall_cons in Ha as [Hx Ha], Hb as [Hy Hb], Hz as [Hxy Hz].
  change (F x y :: zip_with F a b) with ([F x y] ++ zip_with F a b). change (x :: a) with ([x] ++ a). change (y :: b) with ([y] ++ b).
  rewrite !bval_bit by (done || by apply Forall_singleton). cbn [length bval]. rewrite !Z.mul_0_r, !Z.add_0_r.
  destruct (Z.ltb_spec i (31 * Z.of_nat 1)); [by apply (od_bits _ _ _ Hop)|]. apply IH; [by injection Hl|done..|lia].
Qed.

Lemma op_bits a1 a2 b1 b2 i : length a1 = length b1 -> a2 = [] \/ b2 = [] -> Forall (fits 31) (a1 ++ a2) -> Forall (fits 31) (b1 ++ b2) ->
  Forall (fits 31) (zip_with F a1 b1) -> 0 <= i ->
  Z.testbit (bval (zip_with F a1 b1 ++ (if wp_firstRest op then a2 else []) ++ (if wp_secondRest op then b2 else []))) i =
    fb (Z.testbit (bval (a1 ++ a2)) i) (Z.testbit (bval (b1 ++ b2)) i).
Proof using Hop.
  intros Hl Hone [Ha1 Ha2]%Forall_app [Hb1 Hb2]%Forall_app Hz Hi. rewrite (bval_bit a1), (bval_bit b1) by done.
  rewrite bval_bit; [|done|repeat case_match; rewrite ?app_nil_r; (done || by apply Forall_app)|done]. rewrite length_zip_with, Hl, Nat.min_id.
  destruct (Z.ltb_spec i (31 * zlen b1)); [by apply zip_bits|]. set (j := i - 31 * zlen b1).
  rewrite (od_firstRest _ _ _ Hop), (od_secondRest _ _ _ Hop). pose proof (od_false _ _ _ Hop) as Hff. destruct Hone as [-> | ->]; cbn [bval app].
  - rewrite Z.bits_0. assert ((if fb true false then [] else []) = (@nil Z)) as -> by (by case_match). cbn [app].
    destruct (fb false true) eqn:E; destruct (Z.testbit (bval b2) j) eqn:Eb; cbn [bval]; rewrite ?Z.bits_0, ?Hff, ?E, ?Eb; done.
  - rewrite Z.bits_0. assert ((if fb false true then [] else []) = (@nil Z)) as -> by (by case_match). rewrite app_nil_r.
    destruct (fb true false) eqn:E; destruct (Z.testbit (bval a2) j) eqn:Eb; cbn [bval]; rewrite ?Z.bits_0, ?Hff, ?E, ?Eb; done.
Qed.
End bits.

Lemma elem_of_bids bl z : Forall (fits 31) bl -> z ∈ bids bl <-> 0 <= z /\ Z.testbit (bval bl) z = true.
Proof.
  intros Hbl. unfold bids. rewrite elem_of_set_positions. split; [tauto|]. intros [Hz Ht]. split; [|done]. split; [done|].
  destruct (Z.ltb_spec z (31 * zlen bl)); [done|]. rewrite (testbit_fits_high _ _ z (bval_fits bl Hbl)) in Ht by lia. done.
Qed.

(** [op] is the abstract operation [sop]. *)
Definition op_is (fb : bool -> bool -> bool) (sop : set_op) : Prop :=
  fb true true = pushEqual sop /\ fb true false = pushFirstSmaller sop /\ fb false true = pushSecondSmaller sop /\ fb false false = false.

Lemma bids_merge fb sop out a b : op_wf sop -> op_is fb sop -> Forall (fits 31) out -> Forall (fits 31) a -> Forall (fits 31) b ->
  (forall i, 0 <= i -> Z.testbit (bval out) i = fb (Z.testbit (bval a) i) (Z.testbit (bval b) i)) -> bids out = merge sop (bids a) (bids b).
Proof.
  intros Hwf (H1 & H2 & H3 & H4) Ho Ha Hb Hbits. destruct (merge_spec sop (bids a) (bids b) Hwf) as [Hs Hin]; [apply sorted_set_positions..|].
  apply sorted_ext; [apply sorted_set_positions|done|]. intros z. rewrite Hin. unfold keeps. rewrite !elem_of_bids by done.
  destruct (Z.leb_spec 0 z); [|naive_solver lia]. rewrite Hbits by done.
  destruct (Z.testbit (bval a) z), (Z.testbit (bval b) z); rewrite ?H1, ?H2, ?H3, ?H4; naive_solver.
Qed.

Section operation.
Context {S : Type} {BS : Backend S} {BOS : BackendOk S} {T : Type} {BT : Backend T} {BOT : BackendOk T}.
Implicit Types (s : S) (t : T).

Lemma wah_setOp_ok op F fb sop s a t b A C : op_does op F fb -> op_wf sop -> op_is fb sop -> wah_usable s a A -> wah_usable t b C -> zlen (merge sop A C) < 2 ^ 30 ->
  exists v w, wah_setOp op s a t b = Ok (v, w) /\ wah_usable v w (merge sop A C).
Proof using BOS BOT.
  intros Hop Hwf His (pa & qa & Ha & ->) (pb & qb & Hb & ->) Hfew. unfold wah_setOp.
  destruct (dataIterator_ok s a pa qa Ha) as (my & -> & Hmy & Hmsz). rewrite bind_ok_l. destruct (dataIterator_ok t b pb qb Hb) as (o & -> & Ho & Hosz). rewrite bind_ok_l.
  pose proof (wh_words _ _ _ _ Ha) as [Hwa Hla]. pose proof (wh_words _ _ _ _ Hb) as [Hwb Hlb]. set (wa := pa ++ qa) in *. set (wb := pb ++ qb) in *. clear Ha Hb.
  destruct (wbuf_new 8) as (v0 & d0 & -> & Hb0); [lia|]. destruct (wbuf_push v0 d0 [] 0 Hb0) as (v1 & d1 & -> & Hb1); [done|done|]. rewrite bind_ok_l.
  destruct (wbuf_push v1 d1 _ 0 Hb1) as (v2 & d2 & -> & Hb2); [done|done|]. rewrite bind_ok_l. cbn [app] in Hb2.
  assert (oh_rep (mkOph v2 d2 0 0) []) as Hh0 by (exists [], []; split; [split; [done|split; [done|split; [constructor|done]]]|done]).
  destruct (wo_loop_ok op F fb Hop (Datatypes.S (Z.to_nat (wi_size my + wi_size o))) s t (my, 0) (o, 0) wa wb (blocks wa) (blocks wb) (mkOph v2 d2 0 0) [])
    as (my' & o' & h1 & a1 & a2 & b1 & b2 & -> & ((w1 & He1) & (w2 & He2) & Hone) & Ea & Eb & Hl & Hh1); [|..].
  { split; [done|]. split; [done|]. exists []. split; [constructor|done]. } { split; [done|]. split; [done|]. exists []. split; [constructor|done]. }
  { exact Hh0. } { by left. } { cbn [length]. lia. } { rewrite Hmsz, Hosz. lia. }
  rewrite bind_ok_l. cbn [app] in Hh1. rewrite Ea, Eb, !length_app in *.
  assert (zlen (zip_with F a1 b1) = zlen a1) as Hzl by (rewrite length_zip_with; lia).
  assert (exists h2, (if wp_firstRest op then wo_tail s my' h1 else Ok h1) = Ok h2 /\ oh_rep h2 (zip_with F a1 b1 ++ if wp_firstRest op then a2 else [])) as (h2 & -> & Hh2).
  { destruct (wp_firstRest op); [|exists h1; by rewrite app_nil_r]. apply (wo_tail_ok s my' w1); [done|done|lia]. }
  rewrite bind_ok_l.
  assert (exists h3, (if wp_secondRest op then wo_tail t o' h2 else Ok h2) = Ok h3 /\
    oh_rep h3 (zip_with F a1 b1 ++ (if wp_firstRest op then a2 else []) ++ if wp_secondRest op then b2 else [])) as (h3 & -> & Hh3).
  { rewrite app_assoc. destruct (wp_secondRest op); [|exists h2; by rewrite app_nil_r]. apply (wo_tail_ok t o' w2); [done|done|].
    rewrite length_app. destruct Hone as [-> | ->], (wp_firstRest op); cbn [length] in *; lia. }
  rewrite bind_ok_l. set (out := zip_with F a1 b1 ++ (if wp_firstRest op then a2 else []) ++ if wp_secondRest op then b2 else []) in *.
  assert (31 * zlen out < 2 ^ 32) as Hout.
  { unfold out. rewrite !length_app. destruct Hone as [-> | ->], (wp_firstRest op), (wp_secondRest op); cbn [length] in *; lia. }
  destruct (oh_flush_ok h3 out Hh3 Hout) as (h4 & ws & -> & Hb4 & Hw4 & Hbl4 & Hcnt). rewrite bind_ok_l.
  assert (Forall (fits 31) out) as Hfo by (rewrite <- Hbl4; by apply blocks_ok).
  assert (bids out = merge sop (bids (a1 ++ a2)) (bids (b1 ++ b2))) as Hids.
  { destruct (blocks_ok wa Hwa) as [Hfa _]. destruct (blocks_ok wb Hwb) as [Hfb _]. rewrite Ea in Hfa. rewrite Eb in Hfb.
    apply (bids_merge fb); try done. intros i Hi. apply (op_bits op F fb Hop); try done. unfold out in Hfo. by apply Forall_app in Hfo as [? _]. }
  rewrite <- Hids in *. assert (wlist ws) as Hwl by (split; [done|by rewrite Hbl4]). pose proof (wlist_bound ws Hwl).
  rewrite (wbuf_put _ _ _ Hb4), Hcnt. cbn [length].
  assert (u32 (u64 (4 * Z.of_nat (Datatypes.S (Datatypes.S (length ws))) - 8)) = 4 * zlen ws) as ->.
  { rewrite (wrap_small 64), wrap_small by (rewrite ?wrap_small; unfold fits; lia). lia. }
  destruct (wbuf_set (oh_mem h4) (oh_data h4) [] 0 (4 * zlen ws) (0 :: ws) Hb4) as (v5 & Hp5 & Hb5); [unfold fits; lia|done|]. change (4 * zlen []) with 0 in Hp5. rewrite Hp5, bind_ok_l.
  destruct (wbuf_set v5 (oh_data h4) [4 * zlen ws] 0 (zlen (bids out)) ws Hb5) as (v6 & Hp6 & Hb6); [unfold fits; lia|done|].
  change (4 * zlen [4 * zlen ws]) with 4 in Hp6. rewrite Hp6, bind_ok_l. destruct Hb6 as [[tail Hb6] _ _ Hg].
  destruct (wah_new_ok v6 (resetPtrs (oh_data h4)) ws tail) as (w & -> & Hh).
  { unfold resetPtrs, resetPutPtr, resetGetPtr. cbn [m_offSet m_len m_getPtr m_putPtr]. unfold wah_image. rewrite Hbl4. apply buf_ptrs; [exact Hb6|unfold fits; lia..]. }
  { done. } { done. } { by rewrite Hbl4. }
  rewrite bind_ok_l. exists v6, w. split; [done|]. exists [], ws. split; [done|]. cbn [app]. by rewrite Hbl4.
Qed.
End operation.

(** ** The four operations *)

Section four.
Implicit Types a b : Z.

Lemma dbl b : 2 * b = b <<< 1.
Proof. rewrite Z.shiftl_mul_pow2 by done. change (2 ^ 1) with 2. lia. Qed.

Lemma full_ones : full = Z.ones 31.
Proof. done. Qed.

(** A block is empty, full or neither. *)
Lemma block_cases b : fits 31 b -> b = 0 \/ b = full \/ 0 < b < full.
Proof. unfold fits, full. lia. Qed.

Lemma block_fits b : 0 < b < full -> fits 31 b.
Proof. unfold fits, full. lia. Qed.

Lemma wblocks_5 : wok 5 /\ wblocks 5 = [0].
Proof. split; [exact (wok_run false 1 ltac:(done))|done]. Qed.
Lemma wblocks_7 : wok 7 /\ wblocks 7 = [full].
Proof. split; [exact (wok_run true 1 ltac:(done))|done]. Qed.
Lemma wblocks_block b : 0 < b < full -> wok (2 * b) /\ wblocks (2 * b) = [b].
Proof. intros Hb. split; [by constructor|apply wblocks_lit]. Qed.

(** The word of a block as the operations find it. *)
Lemma word_zero b : fits 31 b -> b <> full -> let w := if 2 * b =? 0 then 5 else 2 * b in wok w /\ wblocks w = [b].
Proof.
  intros Hb Hf w. destruct (block_cases b Hb) as [->|[->|Hb']]; [exact wblocks_5|done|].
  unfold w. rewrite (proj2 (Z.eqb_neq _ _)) by lia. by apply wblocks_block.
Qed.

Lemma word_full b : fits 31 b -> b <> 0 -> let w := if u32 (Z.lnot (2 * b)) =? 1 then 7 else 2 * b in wok w /\ wblocks w = [b].
Proof.
  intros Hb Hz w. destruct (block_cases b Hb) as [->|[->|Hb']]; [done|exact wblocks_7|].
  unfold w. destruct (Z.eqb_spec (u32 (Z.lnot (2 * b))) 1) as [E|E]; [exfalso|by apply wblocks_block].
  unfold Z.lnot in E. assert (u32 (Z.pred (- (2 * b))) = 2 ^ 32 - 1 - 2 * b) as E'; [|unfold full in Hb'; lia].
  symmetry. unfold wrap. apply (Z.mod_unique _ _ (-1)); [unfold full in Hb'; lia|lia].
Qed.

Lemma word_xor b : fits 31 b -> let w := if 2 * b =? 4294967294 then 7 else if 2 * b =? 0 then 5 else 2 * b in wok w /\ wblocks w = [b].
Proof.
  intros Hb w. destruct (block_cases b Hb) as [->|[->|Hb']]; [exact wblocks_5|exact wblocks_7|].
  unfold w. rewrite !(proj2 (Z.eqb_neq _ _)) by (unfold full in Hb'; lia). by apply wblocks_block.
Qed.

Lemma dbl_land a b : (2 * a) &&& (2 * b) = 2 * (a &&& b).
Proof. rewrite !dbl. bitwise. Qed.
Lemma dbl_lor a b : (2 * a) ||| (2 * b) = 2 * (a ||| b).
Proof. rewrite !dbl. bitwise. Qed.
Lemma dbl_lxor a b : (2 * a) ^^^ (2 * b) = 2 * (a ^^^ b).
Proof. rewrite !dbl. bitwise. Qed.
Lemma dbl_ldiff a b : fits 31 a -> (2 * a) &&& u32 (Z.lnot (2 * b)) = 2 * Z.ldiff a b.
Proof. intros Ha. rewrite !dbl. unfold wrap. rewrite <- Z.land_ones by lia. bitwise. Qed.
Lemma dbl_not b : fits 31 b -> u32 (Z.lnot (2 * b)) &&& u32 (Z.lnot 1) = 2 * Z.ldiff full b.
Proof. intros Hb. change (u32 (Z.lnot 1)) with (Z.ones 31 <<< 1). rewrite !dbl, full_ones. unfold wrap. rewrite <- !Z.land_ones by lia. bitwise. Qed.
Lemma dbl_not_or b : fits 31 b -> u32 (Z.lnot (2 * b ||| 1)) = 2 * Z.ldiff full b.
Proof. intros Hb. rewrite !dbl, full_ones. change 1 with (Z.ones 1) at 2. unfold wrap. rewrite <- !Z.land_ones by lia. bitwise. Qed.

Lemma ldiff_full b : 0 < b < full -> 0 < Z.ldiff full b < full.
Proof.
  intros Hb. rewrite <- Z.sub_nocarry_ldiff; [lia|]. rewrite full_ones. apply Z.ldiff_ones_r_low; [lia|].
  apply Z.log2_lt_pow2; unfold full in Hb; lia.
Qed.

Lemma land_full b : fits 31 b -> full &&& b = b.
Proof. intros Hb. rewrite full_ones. bitwise. Qed.
Lemma lor_full b : fits 31 b -> full ||| b = full.
Proof. intros Hb. rewrite full_ones. bitwise. Qed.
Lemma lxor_full b : fits 31 b -> full ^^^ b = Z.ldiff full b.
Proof. intros Hb. rewrite full_ones. bitwise. Qed.
Lemma ldiff_of_full b : fits 31 b -> Z.ldiff b full = 0.
Proof. intros Hb. rewrite full_ones. bitwise. Qed.

(** The flags of two runs. *)
Lemma run_flags (f g : bool) n m : 0 <= n < 2 ^ 30 -> 0 <= m < 2 ^ 30 ->
  let x := 4 * n + (if f then 3 else 1) in let y := 4 * m + (if g then 3 else 1) in
  ((((x &&& 3) <<< 2) ||| (y &&& 3)) =? 15) = f && g /\ x &&& 3 = (if f then 3 else 1) /\ y &&& 3 = (if g then 3 else 1) /\
  (x ^^^ y) &&& 2 = if xorb f g then 2 else 0.
Proof.
  intros Hn Hm x y. destruct (run_low f n ltac:(lia)) as (_ & E1 & E2 & _), (run_low g m ltac:(lia)) as (_ & E3 & E4 & _). fold x in E1, E2. fold y in E3, E4.
  rewrite E2, E4. split; [by destruct f, g|]. split; [done|]. split; [done|].
  assert ((x ^^^ y) &&& 2 = (x &&& 2) ^^^ (y &&& 2)) as ->; [|rewrite E1, E3; by destruct f, g].
  apply Z.bits_inj'. intros i Hi. rewrite !Z.land_spec, !Z.lxor_spec, !Z.land_spec. btauto.
Qed.

Lemma land_le_l a b : 0 <= a -> 0 <= a &&& b <= a.
Proof. intros Ha. apply Z.ldiff_le; [done|]. apply Z.bits_inj'. intros i Hi. rewrite Z.ldiff_spec, Z.land_spec, Z.bits_0. btauto. Qed.

Lemma does_intersect : op_does wah_intersect Z.land andb.
Proof.
  split; try done.
  - intros a b i Hi. apply Z.land_spec.
  - intros f g n m Hn Hm. destruct (run_flags f g n m Hn Hm) as (E & _). cbn [wah_intersect wp_pushType]. rewrite E. exists (f && g). by destruct f, g.
  - intros f b Hb. pose proof (block_fits b Hb). destruct f; cbn; [rewrite land_full by done; by apply wblocks_block|exact wblocks_5].
  - intros f b Hb. pose proof (block_fits b Hb). rewrite Z.land_comm. destruct f; cbn; [rewrite land_full by done; by apply wblocks_block|exact wblocks_5].
  - intros a b Ha Hb. cbn [wah_intersect wp_lit_lit]. rewrite dbl_land. pose proof (block_fits a Ha). pose proof (block_fits b Hb). apply word_zero; [by apply land_fits_l|].
    pose proof (land_le_l a b). lia.
Qed.

Lemma does_unite : op_does wah_unite Z.lor orb.
Proof.
  split; try done.
  - intros a b i Hi. apply Z.lor_spec.
  - intros f g n m Hn Hm. destruct (run_flags f g n m Hn Hm) as (_ & E1 & E2 & _). cbn [wah_unite wp_pushType]. rewrite E1, E2. exists (f || g). by destruct f, g.
  - intros f b Hb. pose proof (block_fits b Hb). destruct f; cbn; [rewrite lor_full by done; exact wblocks_7|by apply wblocks_block].
  - intros f b Hb. pose proof (block_fits b Hb). rewrite Z.lor_comm. destruct f; cbn; [rewrite lor_full by done; exact wblocks_7|by apply wblocks_block].
  - intros a b Ha Hb. cbn [wah_unite wp_lit_lit]. rewrite dbl_lor. pose proof (block_fits a Ha). pose proof (block_fits b Hb). apply word_full; [by apply lor_fits|].
    intros [E1 E2]%Z.lor_eq_0_iff. lia.
Qed.

Lemma does_difference : op_does wah_difference Z.ldiff (fun x y => x && negb y).
Proof.
  split; try done.
  - intros a b i Hi. apply Z.ldiff_spec.
  - intros f g n m Hn Hm. destruct (run_flags f g n m Hn Hm) as (E & E1 & _). cbn [wah_difference wp_pushType]. rewrite E, E1. exists (f && negb g). by destruct f, g.
  - intros f b Hb. pose proof (block_fits b Hb). destruct f; cbn [wah_difference wp_one_lit wp_zero_lit fill]; [|exact wblocks_5].
    rewrite dbl_not by done. apply wblocks_block. by apply ldiff_full.
  - intros f b Hb. pose proof (block_fits b Hb). destruct f; cbn [wah_difference wp_lit_one wp_lit_zero fill]; [rewrite ldiff_of_full by done; exact wblocks_5|].
    rewrite Z.ldiff_0_r. by apply wblocks_block.
  - intros a b Ha Hb. cbn [wah_difference wp_lit_lit]. pose proof (block_fits a Ha). pose proof (block_fits b Hb). rewrite dbl_ldiff by done.
    assert (0 <= Z.ldiff a b <= a) as Hab by (rewrite Z.ldiff_land; apply land_le_l; lia). apply word_zero; unfold fits, full in *; lia.
Qed.

Lemma does_symmetricDifference : op_does wah_symmetricDifference Z.lxor xorb.
Proof.
  split; try done.
  - intros a b i Hi. apply Z.lxor_spec.
  - intros f g n m Hn Hm. destruct (run_flags f g n m Hn Hm) as (_ & _ & _ & E). cbn [wah_symmetricDifference wp_pushType]. rewrite E. exists (xorb f g). by destruct f, g.
  - intros f b Hb. pose proof (block_fits b Hb). destruct f; cbn [wah_symmetricDifference wp_one_lit wp_zero_lit fill]; [|by apply wblocks_block].
    rewrite dbl_not_or, lxor_full by done. apply wblocks_block. by apply ldiff_full.
  - intros f b Hb. pose proof (block_fits b Hb). rewrite Z.lxor_comm. destruct f; cbn [wah_symmetricDifference wp_lit_one wp_lit_zero fill]; [|by apply wblocks_block].
    rewrite dbl_not_or, lxor_full by done. apply wblocks_block. by apply ldiff_full.
  - intros a b Ha Hb. cbn [wah_symmetricDifference wp_lit_lit]. rewrite dbl_lxor. apply word_xor. by apply lxor_fits; [|apply block_fits..].
Qed.
End four.

(** * The set operations *)

Definition wah_ops : list (wah_op * set_op) :=
  [(wah_intersect, IntersectOp); (wah_unite, UniteOp); (wah_difference, DifferenceOp); (wah_symmetricDifference, SymmetricDifferenceOp)].

Lemma wah_ops_ok op sop : (op, sop) ∈ wah_ops -> op_wf sop /\ op_sized sop /\ exists F fb, op_does op F fb /\ op_is fb sop.
Proof.
  pose proof ops_sized as (? & ? & ? & ?). unfold wah_ops. rewrite !elem_of_cons, elem_of_nil.
  intros [[= -> ->]|[[= -> ->]|[[= -> ->]|[[= -> ->]|[]]]]]; (split; [done|]; split; [done|]).
  - exists Z.land, andb. by split; [exact does_intersect|].
  - exists Z.lor, orb. by split; [exact does_unite|].
  - exists Z.ldiff, (fun x y => x && negb y). by split; [exact does_difference|].
  - exists Z.lxor, xorb. by split; [exact does_symmetricDifference|].
Qed.

(** C20: the set operations on word-aligned hybrid indexes. For two indexes over any storages, in
    any state of their caches, an operation gives an index of exactly the ids it keeps; with an
    index of any other type it gives a native index of them. *)
Theorem wah_set_operations {S : Type} {BS : Backend S} {BOS : BackendOk S} {T : Type} {BT : Backend T} {BOT : BackendOk T} {D : Type} `{AtIndexOk D}
    op sop (s : S) x (t : T) y (d : D) A B C :
  (op, sop) ∈ wah_ops -> wah_usable s x A -> wah_usable t y B -> zlen (merge sop A B) < 2 ^ 30 ->
  ai_rep d C -> sorted C -> ids_ok C -> zlen A + zlen C < 2 ^ 32 - 1 ->
  (exists v w, wah_setOp op s x t y = Ok (v, w) /\ wah_usable v w (merge sop A B) /\
    forall z, z ∈ merge sop A B <-> keeps sop (z ∈ A) (z ∈ B)) /\
  (exists r, wah_otherOp sop s x d = Ok r /\ na_ok r (merge sop A C) /\
     forall z, z ∈ merge sop A C <-> keeps sop (z ∈ A) (z ∈ C)).
Proof.
  intros (Hop & Hsized & F & fb & Hdoes & His)%wah_ops_ok Hx Hy Hfew Hd HsC HiC Hn.
  pose proof (wah_usable_ids _ _ _ Hx) as (HsA & HiA & _ & _). pose proof (wah_usable_ids _ _ _ Hy) as (HsB & _ & _ & _). split.
  - destruct (wah_setOp_ok op F fb sop s x t y A B Hdoes Hop His Hx Hy Hfew) as (v & w & Hr & Hu). exists v, w.
    split; [done|]. split; [done|]. by apply merge_spec.
  - destruct (@execute_ok _ wah_AtIndex (wah_AtIndexOk s) D _ _ sop (s, x) d A C Hop Hsized) as (r & Hr & Hna); try done.
    { apply merge_ids; try done. eapply Forall_impl; [exact HiA|]. unfold fits. cbn. lia. }
    exists r. split; [exact Hr|]. split; [done|]. by apply merge_spec.
Qed.

(** An index of some ids, made in a cache. *)
Lemma wah_make_ok src : wah_src src -> exists (v : Vec.t) w, wah_usable v w src.
Proof.
  intros Hsrc. destruct (createCache_ok 8) as (v0 & d0 & Hcc & Hb0); [lia|lia|].
  assert (m_offSet d0 = 0 /\ m_putPtr d0 = 0) as [Ho Hpp] by (unfold createCache in Hcc; by injection Hcc as _ <-).
  destruct (wah_create_ok v0 d0 _ src Hb0) as (v1 & d1 & ws & _ & Hws & Hids & [Hb1 _ _ _]); [rewrite Hpp, length_replicate; lia|rewrite Ho, length_replicate; lia|done|].
  rewrite Hpp in Hb1. unfold splice in Hb1. change (take (Z.to_nat 0) _) with (@nil Z) in Hb1. cbn [app] in Hb1.
  destruct Hsrc as (_ & _ & Hn). match type of Hb1 with buf _ _ (_ ++ ?r) => destruct (wah_new_ok v1 (resetPtrs d1) ws r) as (w & _ & Hh) end.
  { unfold resetPtrs, resetPutPtr, resetGetPtr. cbn [m_offSet m_len m_getPtr m_putPtr]. apply buf_ptrs; [exact Hb1|unfold fits; lia|unfold fits; lia]. }
  { done. } { done. } { by rewrite Hids. }
  exists v1, w, [], ws. by rewrite <- Hids.
Qed.

Lemma wah_set_operations_witness : exists (v w : Vec.t) x y r e n, wah_setOp wah_difference v x w y = Ok (r, e) /\
  wah_usable r e (seqZ 100 100 ++ [1000]) /\ wah_otherOp UniteOp v x [5; 7] = Ok n /\ na_ok n ([5; 7] ++ seqZ 100 200 ++ [1000]).
Proof.
  destruct (wah_make_ok (seqZ 100 200 ++ [1000])) as (v & x & Hx); [apply wah_src_dec; vm_compute; reflexivity|].
  destruct (wah_make_ok (seqZ 200 150)) as (w & y & Hy); [apply wah_src_dec; vm_compute; reflexivity|].
  assert (ai_rep [5; 7] [5; 7]) as Hd by (split; reflexivity).
  assert (sorted [5; 7] /\ ids_ok [5; 7]) as [Hs Hi] by (split; [repeat first [lia|constructor]|repeat constructor; unfold fits; lia]).
  destruct (wah_set_operations wah_difference DifferenceOp v x w y [5; 7] (seqZ 100 200 ++ [1000]) (seqZ 200 150) [5; 7]) as ((r & e & H1 & H2 & _) & _);
    [right; right; left|exact Hx|exact Hy|vm_compute; reflexivity|exact Hd|exact Hs|exact Hi|vm_compute; reflexivity|].
  destruct (wah_set_operations wah_unite UniteOp v x w y [5; 7] (seqZ 100 200 ++ [1000]) (seqZ 200 150) [5; 7]) as (_ & (n & H3 & H4 & _));
    [right; left|exact Hx|exact Hy|vm_compute; reflexivity|exact Hd|exact Hs|exact Hi|vm_compute; reflexivity|].
  assert (merge DifferenceOp (seqZ 100 200 ++ [1000]) (seqZ 200 150) = seqZ 100 100 ++ [1000]) as E1 by (vm_compute; reflexivity).
  assert (merge UniteOp (seqZ 100 200 ++ [1000]) [5; 7] = [5; 7] ++ seqZ 100 200 ++ [1000]) as E2 by (vm_compute; reflexivity).
  rewrite E1 in H2. rewrite E2 in H4. exists v, w, x, y, r, e, n. split; [exact H1|]. split; [exact H2|]. split; [exact H3|exact H4].
Defined.
