(* ===== verification/ItemIndexWAHMany.v ===== *)
(** Intersection and difference of many word-aligned hybrid indexes at once:
    [constrainedIntersect] and [fusedIntersectDifference] of
    [src/containers/ItemIndexPrivates/ItemIndexPrivateWAH.cpp].

    Every round takes a block of each index and adds the ids of the block that results, until an
    index ends or there are enough ids.  [eff] is what an index that is subtracted takes away. *)

From stdpp Require Import sorting.
From S2P Require Import Prelude UtilMath PackUnpack Storage ByteArray ByteStream Bits CompactUintArray StaticArray BitSets SetFuncs IndexOps ItemIndexNative ItemIndexWAH ItemIndexWAHOps.

(** * The functions *)

(** An index in a round: its storage, its iterator and the word it is in, [intersectEncWords[i]]
    or [subtractEncWords[i]]. *)
Definition wmany (S : Type) : Type := S * wcur.

(** [!filter || filter->operator()(i)] *)
Definition wm_pass (filter : option (Z -> bool)) (i : Z) : bool := match filter with None => true | Some f => f i end.

(** The run in [val] is a block shorter: the word, and whether the run is at its end. *)
Definition wm_shorter (val : Z) : Z * bool :=
  let n := u32 ((val >>> 2) - 1) in (u32 (n <<< 2) ||| (val &&& 3), n =? 0).

Section rounds.
Context {S : Type} `{Backend S}.

Definition wm_begin1 (x : S * wah) : result (wmany S) :=
  it ← wah_dataIterator (fst x) (snd x);
  '(it, val) ← wi_next (fst x) it;
  mret (fst x, (it, val)).

Fixpoint wm_begin (xs : list (S * wah)) : result (list (wmany S)) :=
  match xs with
  | [] => Ok []
  | x :: xs => x ← wm_begin1 x; xs ← wm_begin xs; mret (x :: xs)
  end.

(** An index of the intersection: [currentWorkingWord] and [allIntersectsHaveNext] behind it. *)
Definition wm_take (x : wmany S) (cw : Z) (more : bool) : result (wmany S * Z * bool) :=
  let '(s, (it, val)) := x in
  let '(cw, val, loadNext) :=
    match val &&& 3 with
    | 1 => let '(val, stop) := wm_shorter val in (0, val, stop)
    | 3 => let '(val, stop) := wm_shorter val in (cw, val, stop)
    | _ => (cw &&& (val >>> 1), val, true)
    end in
  if loadNext then
    if wi_hasNext it then '(it, val) ← wi_next s it; mret ((s, (it, val)), cw, more)
    else Ok ((s, (it, val)), cw, false)
  else Ok ((s, (it, val)), cw, more).

Fixpoint wm_intersects (xs : list (wmany S)) (cw : Z) (more : bool) : result (list (wmany S) * Z * bool) :=
  match xs with
  | [] => Ok ([], cw, more)
  | x :: xs =>
      '(x, cw, more) ← wm_take x cw more;
      '(xs, cw, more) ← wm_intersects xs cw more;
      mret (x :: xs, cw, more)
  end.

(** An index that is subtracted; a run ends when [intersectEncWords[i]], [iw], is zero. *)
Definition wm_subtract (iw : option Z) (y : wmany S) (cw : Z) : result (wmany S * Z) :=
  let '(s, (it, val)) := y in
  let word : result (Z * Z * bool) :=
    match val &&& 3 with
    | 3 => match iw with Some w => Ok (0, fst (wm_shorter val), w =? 0) | None => Err UndefinedBehaviour end
    | 1 => match iw with Some w => Ok (cw, fst (wm_shorter val), w =? 0) | None => Err UndefinedBehaviour end
    | _ => Ok (cw &&& u32 (Z.lnot (val >>> 1)), val, true)
    end in
  '(cw, val, loadNext) ← word;
  if (loadNext : bool) then
    if wi_hasNext it then '(it, val) ← wi_next s it; mret ((s, (it, val)), cw)
    else Ok ((s, (it, 0)), cw)
  else Ok ((s, (it, val)), cw).

Fixpoint wm_subtracts (iws : list Z) (ys : list (wmany S)) (cw : Z) : result (list (wmany S) * Z) :=
  match ys with
  | [] => Ok ([], cw)
  | y :: ys =>
      '(y, cw) ← wm_subtract (head iws) y cw;
      '(ys, cw) ← wm_subtracts (tail iws) ys cw;
      mret (y :: ys, cw)
  end.
End rounds.

(** [for(i = bitOffset; currentWorkingWord && i < bitOffset+31; ++i)] *)
Fixpoint wm_emit (fuel : nat) (filter : option (Z -> bool)) (bitOffset i cw : Z) (ids : list Z) : result (list Z) :=
  match fuel with
  | O => Err OutOfFuel
  | Datatypes.S fuel =>
      if negb (cw =? 0) && (i <? u64 (bitOffset + 31)) then
        wm_emit fuel filter bitOffset (u32 (i + 1)) (cw >>> 1)
          (if negb (cw &&& 1 =? 0) && wm_pass filter i then ids ++ [i] else ids)
      else Ok ids
  end.

Section loop.
Context {S T : Type} `{Backend S} `{Backend T}.

(** The loop of both functions, which start a round with the word [ones]. *)
Fixpoint wm_loop (fuel : nat) (ones count : Z) (filter : option (Z -> bool)) (xs : list (wmany S)) (ys : list (wmany T))
    (more : bool) (bitOffset : Z) (ids : list Z) : result (list Z) :=
  match fuel with
  | O => Err OutOfFuel
  | Datatypes.S fuel =>
      if (zlen ids <? count) && more then
        '(xs, cw, more) ← wm_intersects xs ones more;
        '(ys, cw) ← wm_subtracts (map (fun x : wmany S => snd (snd x)) xs) ys cw;
        ids ← wm_emit 32 filter bitOffset (u32 bitOffset) cw ids;
        wm_loop fuel ones count filter xs ys more (u64 (bitOffset + 31)) ids
      else Ok ids
  end.

End loop.

Definition wah_constrainedIntersect {S : Type} `{Backend S} (fuel : nat) (intersect : list (S * wah)) (count : Z) (filter : option (Z -> bool)) : result (list Z) :=
  xs ← wm_begin intersect;
  wm_loop (T := S) fuel 4294967295 count filter xs [] true 0 [].

(** * One index *)

Section one.
Context {S : Type} {BS : Backend S} {BOS : BackendOk S}.

(** The index of the intersection still has the blocks [bl]. *)
Definition iat (x : wmany S) (bl : list Z) : Prop := exists ws, wtaken (fst x) (snd x) ws bl.

(** What the words of an index that is subtracted take away: the ids of the words in front of
    the first run; the run never ends. *)
Fixpoint eff (ws : list Z) : Z :=
  match ws with
  | [] => 0
  | w :: ws => match w &&& 3 with 1 => 0 | 3 => -1 | _ => (w >>> 1) ||| (eff ws <<< 31) end
  end.

(** The index that is subtracted still takes away [E]. *)
Definition sat (y : wmany S) (E : Z) : Prop :=
  exists ws, wit_at (fst y) (fst (snd y)) ws /\ Forall (fits 32) (snd (snd y) :: ws) /\ E = eff (snd (snd y) :: ws).

Lemma begin_ok x l : wah_usable (fst x) (snd x) l -> l <> [] ->
  exists y bl, wm_begin1 x = Ok y /\ iat y bl /\ Forall (fits 31) bl /\ 31 * zlen bl < 2 ^ 32 /\ l = bids bl.
Proof using BOS.
  intros (pre & post & Hh & ->) Hne. unfold wm_begin1. destruct (dataIterator_ok _ _ _ _ Hh) as (it & -> & Hit & _). rewrite bind_ok_l.
  pose proof (wh_words _ _ _ _ Hh) as [Hw Hlim]. destruct (pre ++ post) as [|w ws] eqn:E; [done|]. pose proof (blocks_ok _ Hw) as [Hbl _].
  destruct (wi_next_ok _ _ _ _ Hit) as (it' & -> & Hit' & _). rewrite bind_ok_l. eexists _, (blocks (w :: ws)). split; [done|]. apply Forall_cons in Hw as [Hw Hws].
  split; [exists ws; by split|done].
Qed.


(** The bits of [cw] that the block [b] leaves. *)
Definition cut (cw : Z) (b : Z -> bool) (cw' : Z) : Prop :=
  fits 32 cw' /\ forall i, 0 <= i < 31 -> Z.testbit cw' i = Z.testbit cw i && b i.

Lemma shorter_run (f : bool) n : 1 <= n < 2 ^ 30 -> wm_shorter (4 * n + if f then 3 else 1) = (4 * (n - 1) + (if f then 3 else 1), n - 1 =? 0).
Proof using.
  intros Hn. unfold wm_shorter. destruct (run_low f n ltac:(lia)) as (_ & _ & -> & -> & _). rewrite (wrap_small 32 (n - 1)) by (unfold fits; lia).
  f_equal. apply run_word. lia.
Qed.

Lemma fill_bits (f : bool) i : 0 <= i < 31 -> Z.testbit (fill f) i = f.
Proof using. intros Hi. destruct f; [|apply Z.bits_0]. change (fill true) with (Z.ones 31). apply Z.ones_spec_low. lia. Qed.

(** A round takes a block of the index; behind the last it ends. *)
Lemma take_ok x bl cw more : iat x bl -> fits 32 cw -> exists b rest x' cw',
  bl = b :: rest /\ wm_take x cw more = Ok (x', cw', more && negb (bool_decide (rest = []))) /\ cut cw (Z.testbit b) cw' /\
  (rest <> [] -> iat x' rest) /\ snd (snd x') <> 0.
Proof using BOS.
  destruct x as [s [it val]]. intros (ws & Hit & Hws & Hval & ->) Hcw. cbn [fst snd] in *. unfold wm_take.
  assert (forall v c, blocks ws = [] \/ blocks ws <> [] -> fits 32 c -> v <> 0 -> exists x',
    (if wi_hasNext it then '(it, val) ← wi_next s it; mret (s, (it, val), c, more) else Ok (s, (it, v), c, false)) =
      Ok (x', c, more && negb (bool_decide (blocks ws = []))) /\ (blocks ws <> [] -> iat x' (blocks ws)) /\ snd (snd x') <> 0) as Hload.
  { intros v c _ Hc Hv. rewrite (wi_hasNext_ok s it ws Hit). destruct ws as [|w ws].
    - rewrite bool_decide_false by naive_solver. eexists. rewrite bool_decide_true by done. cbn [negb]. rewrite andb_false_r. split; [done|]. by split.
    - rewrite bool_decide_true by done. destruct (wi_next_ok _ _ _ _ Hit) as (it' & -> & Hit' & _). rewrite bind_ok_l.
      apply Forall_cons in Hws as [Hw Hws]. pose proof (proj2 (wok_blocks w Hw)) as Hn. rewrite bool_decide_false.
      2: { rewrite blocks_cons. intros E%app_eq_nil. destruct E as [E _]. rewrite E in Hn. cbn [length] in Hn. lia. }
      eexists. cbn [negb]. rewrite andb_true_r. split; [done|]. split; [intros _; exists ws; by split|]. cbn [snd].
      destruct Hw as [b Hb|f n Hn']; [lia|destruct f; lia]. }
  assert (Hdec : blocks ws = [] \/ blocks ws <> []) by (destruct (blocks ws); [by left|by right]).
  destruct Hval as [b Hb|f n Hn].
  - destruct (lit_low b) as (_ & Esh & Elow). rewrite wblocks_lit, Esh. pose proof (block_fits b Hb) as Hfb.
    assert (fits 32 (cw &&& b)) as Hfc by (by apply land_fits_l). destruct (Hload (2 * b) (cw &&& b) Hdec Hfc) as (x' & E & Hx & Hnz); [lia|].
    exists b, (blocks ws), x', (cw &&& b). split; [done|]. split; [destruct Elow as [-> | ->]; exact E|]. split; [|done].
    split; [done|]. intros i Hi. apply Z.land_spec.
  - rewrite wblocks_run by lia. change (if f then full else 0) with (fill f). destruct (run_low f n ltac:(lia)) as (_ & _ & E3 & _). rewrite E3, (shorter_run f n Hn).
    assert (replicate (Z.to_nat n) (fill f) = fill f :: replicate (Z.to_nat (n - 1)) (fill f)) as ->.
    { replace (Z.to_nat n) with (Datatypes.S (Z.to_nat (n - 1))) by lia. done. }
    set (cw' := if f then cw else 0). assert (cut cw (Z.testbit (fill f)) cw') as Hcut.
    { split; [unfold cw'; destruct f; [done|unfold fits; lia]|]. intros i Hi. rewrite fill_bits by done. unfold cw'. destruct f; [by rewrite andb_true_r|].
      by rewrite Z.bits_0, andb_false_r. }
    assert (forall A (k : Z * Z * bool -> A) v st, k (match (if f then 3 else 1) with 1 => let '(val, stop) := (v, st) in (0, val, stop)
      | 3 => let '(val, stop) := (v, st) in (cw, val, stop) | _ => (cw &&& ((4 * n + (if f then 3 else 1)) >>> 1), 4 * n + (if f then 3 else 1), true) end) = k (cw', v, st)) as Hk by (by destruct f).
    rewrite (Hk _ (fun p => let '(cw, val, loadNext) := p in _)). clear Hk. destruct (Z.eqb_spec (n - 1) 0) as [E|E].
    + rewrite E. change (Z.to_nat 0) with 0%nat. cbn [replicate app].
      destruct (Hload (4 * 0 + if f then 3 else 1) cw' Hdec (proj1 Hcut)) as (x' & E' & Hx & Hnz); [by destruct f|].
      exists (fill f), (blocks ws), x', cw'. split; [done|]. split; [exact E'|]. done.
    + exists (fill f), (replicate (Z.to_nat (n - 1)) (fill f) ++ blocks ws). eexists _, cw'. split; [done|].
      rewrite bool_decide_false; [|replace (Z.to_nat (n - 1)) with (Datatypes.S (Z.to_nat (n - 2))) by lia; done].
      cbn [negb]. rewrite andb_true_r. split; [done|]. split; [done|]. split; [|cbn [snd]; destruct f; lia].
      intros _. exists ws. split; [done|]. split; [done|]. cbn [fst snd]. split; [apply wok_run; lia|]. by rewrite wblocks_run by lia.
Qed.
End one.

Section subtracting.
Context {T : Type} {BT : Backend T} {BOT : BackendOk T}.

Lemma flag_cases w : fits 32 w -> w &&& 3 = 0 \/ w &&& 3 = 1 \/ w &&& 3 = 2 \/ w &&& 3 = 3.
Proof using. intros _. change 3 with (Z.ones 2) at 1 2 3 4. rewrite Z.land_ones by lia. change (2 ^ 2) with 4. zdiv. Qed.

Lemma shorter_flag w : fits 32 w -> fits 32 (fst (wm_shorter w)) /\ fst (wm_shorter w) &&& 3 = w &&& 3.
Proof using.
  intros Hw. unfold wm_shorter. cbn [fst]. set (n := u32 ((w >>> 2) - 1)). pose proof (wrap_fits 32 (n <<< 2) ltac:(lia)) as Hf.
  assert (fits 32 (w &&& 3)) as Hl by (by apply land_fits_l). split; [by apply lor_fits|]. unfold wrap. rewrite <- Z.land_ones by lia.
  change 3 with (Z.ones 2). bitwise.
Qed.

Lemma eff_shift v ws : fits 32 v -> v &&& 3 = 0 \/ v &&& 3 = 2 -> eff (v :: ws) >>> 31 = eff ws /\ forall i, 0 <= i < 31 -> Z.testbit (eff (v :: ws)) i = Z.testbit (v >>> 1) i.
Proof using.
  intros Hv Hlow. assert (eff (v :: ws) = (v >>> 1) ||| (eff ws <<< 31)) as -> by (cbn [eff]; by destruct Hlow as [-> | ->]).
  pose proof (shiftr_fits 32 1 31 v ltac:(lia) ltac:(lia) eq_refl Hv) as Hf. split.
  - apply Z.bits_inj'. intros i Hi. rewrite Z.shiftr_spec, Z.lor_spec, (testbit_fits_high 31 _ (i + 31) Hf), Z.shiftl_spec by lia. cbn [orb]. f_equal. lia.
  - intros i Hi. rewrite Z.lor_spec, Z.shiftl_spec_low by lia. apply orb_false_r.
Qed.

(** A round takes 31 bits of what the index takes away; no word of the intersection is zero. *)
Lemma subtract_ok y E iw cw : sat y E -> iw <> 0 -> fits 32 cw ->
  exists y' cw', wm_subtract (Some iw) y cw = Ok (y', cw') /\ cut cw (fun i => negb (Z.testbit E i)) cw' /\ sat y' (E >>> 31).
Proof using BOT.
  destruct y as [t [it val]]. intros (ws & Hit & [Hv Hws]%Forall_cons & ->) Hiw Hcw. cbn [fst snd] in *. unfold wm_subtract.
  destruct (shorter_flag val Hv) as [Hsf Hsl]. rewrite (proj2 (Z.eqb_neq iw 0)) by done.
  assert (forall e, eff (val :: ws) = e -> e = 0 \/ e = -1 -> val &&& 3 = 1 \/ val &&& 3 = 3 -> sat (t, (it, fst (wm_shorter val))) (eff (val :: ws) >>> 31)) as Hrun.
  { intros e He H01 Hfl. exists ws. cbn [fst snd]. split; [done|]. split; [by constructor|]. rewrite He. cbn [eff] in *. rewrite Hsl.
    destruct Hfl as [Hfl|Hfl]; rewrite Hfl in *; subst e; done. }
  destruct (flag_cases val Hv) as [Hfl|[Hfl|[Hfl|Hfl]]]; rewrite Hfl; cbv zeta; rewrite bind_ok_l.
  2: { exists (t, (it, fst (wm_shorter val))), cw. split; [done|]. split; [|by apply (Hrun 0); [cbn [eff]; rewrite Hfl|left|left]].
    split; [done|]. intros i Hi. cbn [eff]. by rewrite Hfl, Z.bits_0, andb_true_r. }
  3: { exists (t, (it, fst (wm_shorter val))), 0. split; [done|]. split; [|by apply (Hrun (-1)); [cbn [eff]; rewrite Hfl|right|right]].
    split; [unfold fits; lia|]. intros i Hi. cbn [eff]. rewrite Hfl, Z.bits_0, Z.bits_m1 by lia. by rewrite andb_false_r. }
  all: destruct (eff_shift val ws Hv ltac:(tauto)) as [Hsh Hbits].
  all: assert (cut cw (fun i => negb (Z.testbit (eff (val :: ws)) i)) (cw &&& u32 (Z.lnot (val >>> 1)))) as Hcut by
    (split; [by apply land_fits_l|]; intros i Hi; rewrite Z.land_spec, testbit_wrap, (proj2 (Z.ltb_lt i 32)), Z.lnot_spec, Hbits by lia; done).
  all: rewrite (wi_hasNext_ok t it ws Hit), Hsh; destruct ws as [|w ws];
    [rewrite bool_decide_false by naive_solver; eexists _, _; split; [done|]; split; [done|]; exists []; split; [done|]; split; [apply Forall_singleton; unfold fits; cbn; lia|done]|];
    rewrite bool_decide_true by done; destruct (wi_next_ok _ _ _ _ Hit) as (it' & -> & Hit' & _); rewrite bind_ok_l;
    eexists _, _; split; [done|]; split; [done|]; exists ws; by split.
Qed.
End subtracting.

(** * A round *)

Lemma cut_trans cw f cw1 g cw2 : cut cw f cw1 -> cut cw1 g cw2 -> cut cw (fun i => f i && g i) cw2.
Proof. intros [_ H1] [Hf H2]. split; [done|]. intros i Hi. by rewrite H2, H1, andb_assoc by done. Qed.

Lemma cut_ext cw f g cw' : cut cw f cw' -> (forall i, 0 <= i < 31 -> f i = g i) -> cut cw g cw'.
Proof. intros [Hf H] Hfg. split; [done|]. intros i Hi. by rewrite H, Hfg. Qed.

Definition ended (bls : list (list Z)) : bool := existsb (fun bl => bool_decide (tail bl = [])) bls.

Lemma intersects_ok {S : Type} {BS : Backend S} {BOS : BackendOk S} (xs : list (wmany S)) bls cw more : Forall2 iat xs bls -> fits 32 cw -> exists xs' cw',
  wm_intersects xs cw more = Ok (xs', cw', more && negb (ended bls)) /\ cut cw (fun i => forallb (fun bl => Z.testbit (hd 0 bl) i) bls) cw' /\
  (ended bls = false -> Forall2 iat xs' (map tail bls)) /\ Forall (fun x => snd (snd x) <> 0) xs' /\ length xs' = length xs.
Proof.
  intros Hxs. revert cw more. induction Hxs as [|x bl xs bls Hx _ IH]; intros cw more Hcw; cbn [wm_intersects].
  { exists [], cw. cbn [ended existsb negb]. rewrite andb_true_r. split; [done|]. split; [|done]. split; [done|]. intros i _. by rewrite andb_true_r. }
  destruct (take_ok x bl cw more Hx Hcw) as (b & rest & x' & cw1 & -> & -> & Hc1 & Hx' & Hnz). rewrite bind_ok_l.
  destruct (IH cw1 (more && negb (bool_decide (rest = []))) (proj1 Hc1)) as (xs' & cw2 & -> & Hc2 & Hxs' & Hnzs & Hl). rewrite bind_ok_l. exists (x' :: xs'), cw2.
  unfold ended. cbn [existsb tail]. fold (ended bls). rewrite negb_orb, andb_assoc. split; [done|]. split; [exact (cut_trans _ _ _ _ _ Hc1 Hc2)|].
  split; [|split; [by constructor|cbn; by rewrite Hl]]. intros [E1 E2]%orb_false_iff. apply bool_decide_eq_false in E1. constructor; [by apply Hx'|by apply Hxs'].
Qed.

Lemma subtracts_ok {T : Type} {BT : Backend T} {BOT : BackendOk T} (ys : list (wmany T)) Es iws cw : Forall2 sat ys Es -> Forall (fun w => w <> 0) iws -> (length ys <= length iws)%nat -> fits 32 cw ->
  exists ys' cw', wm_subtracts iws ys cw = Ok (ys', cw') /\ cut cw (fun i => forallb (fun E => negb (Z.testbit E i)) Es) cw' /\
    Forall2 sat ys' (map (fun E => E >>> 31) Es).
Proof.
  intros Hys. revert iws cw. induction Hys as [|y E ys Es Hy _ IH]; intros iws cw Hw Hl Hcw; cbn [wm_subtracts].
  { exists [], cw. split; [done|]. split; [|constructor]. split; [done|]. intros i _. by rewrite andb_true_r. }
  destruct Hw as [|iw iws Hiw Hw]; [cbn in Hl; lia|]. cbn [head tail]. destruct (subtract_ok y E iw cw Hy Hiw Hcw) as (y' & cw1 & -> & Hc1 & Hy'). rewrite bind_ok_l.
  destruct (IH iws cw1 Hw) as (ys' & cw2 & -> & Hc2 & Hys'); [cbn [length] in Hl; lia|by destruct Hc1|]. rewrite bind_ok_l. exists (y' :: ys'), cw2.
  split; [done|]. split; [exact (cut_trans _ _ _ _ _ Hc1 Hc2)|by constructor].
Qed.

Definition picked (filter' : option (Z -> bool)) (V lo n : Z) : list Z := filter (fun z => wm_pass filter' z) (set_positions V lo n).

Lemma picked_length f V lo n : zlen (picked f V lo n) <= Z.max 0 n.
Proof. unfold picked. etrans; [apply inj_le, length_filter|apply set_positions_length]. Qed.

Lemma wm_emit_ok fuel V f off i cw ids : 0 <= i <= off + 31 -> off + 31 < 2 ^ 32 -> (forall j, 0 <= j < off + 31 - i -> Z.testbit cw j = Z.testbit V (i + j)) ->
  off + 31 - i < Z.of_nat fuel -> wm_emit fuel f off i cw ids = Ok (ids ++ picked f V i (off + 31 - i)).
Proof.
  revert i cw ids. induction fuel as [|fuel IH]; intros i cw ids Hi Hoff Hbits Hf; [lia|]. cbn [wm_emit]. rewrite (wrap_small 64) by (unfold fits; lia).
  destruct (Z.eqb_spec cw 0) as [->|Hz]; cbn [negb andb].
  { unfold picked. rewrite set_positions_none, filter_nil, app_nil_r; [done|]. intros z Hz. replace z with (i + (z - i)) by lia. rewrite <- Hbits by lia. apply Z.bits_0. }
  destruct (Z.ltb_spec i (off + 31)) as [Hlt|Hge].
  2: { unfold picked. rewrite set_positions_none, filter_nil, app_nil_r; [done|]. lia. }
  rewrite (wrap_small 32) by (unfold fits; lia). rewrite IH; [|lia|done| |lia].
  2: { intros j Hj. rewrite Z.shiftr_spec, Hbits by lia. f_equal. lia. }
  assert (negb (cw &&& 1 =? 0) = Z.testbit V i) as ->.
  { specialize (Hbits 0 ltac:(lia)). rewrite Z.add_0_r in Hbits. rewrite <- Hbits, Z.bit0_odd, <- Z.bit0_odd.
    change 1 with (Z.ones 1). rewrite Z.land_ones by done. change (2 ^ 1) with 2. rewrite Z.bit0_odd, Zmod_odd. by destruct (Z.odd cw). }
  f_equal. unfold picked. replace (off + 31 - (i + 1)) with (off + 31 - i - 1) by lia. destruct (Z.testbit V i) eqn:E; cbn [andb].
  - rewrite (set_positions_cons V i) by (done || lia). rewrite filter_cons. destruct (wm_pass f i); [|done]. rewrite decide_True by done. by rewrite <- app_assoc.
  - by rewrite (set_positions_skip V i) by (done || lia).
Qed.

(** * The loop *)

(** The numbers of which [V] is the rest from bit 31*[k] on. *)
Definition hits (V k : Z) (bls : list (list Z)) (Es : list Z) : Prop :=
  forall i, 0 <= i -> Z.testbit V (31 * k + i) = forallb (fun bl => Z.testbit (bval bl) i) bls && forallb (fun E => negb (Z.testbit E i)) Es.

Lemma forallb_ext {A : Type} (f g : A -> bool) l : (forall x, x ∈ l -> f x = g x) -> forallb f l = forallb g l.
Proof.
  induction l as [|x l IH]; intros H; [done|]. cbn [forallb]. rewrite (H x) by left. f_equal. apply IH. intros y Hy. apply H. by right.
Qed.

Lemma forallb_mapped {A B : Type} (f : B -> bool) (g : A -> B) l : forallb f (map g l) = forallb (fun x => f (g x)) l.
Proof. induction l as [|x l IH]; [done|]. cbn [map forallb]. by rewrite IH. Qed.

Lemma bval_tail bl i : Forall (fits 31) bl -> 0 <= i -> Z.testbit (bval bl) (31 + i) = Z.testbit (bval (tail bl)) i.
Proof.
  intros [|b rest Hb Hr] Hi; [by rewrite !Z.bits_0|]. change (b :: rest) with ([b] ++ rest). rewrite bval_bit by (done || lia || by apply Forall_singleton).
  cbn [length tail]. rewrite (proj2 (Z.ltb_ge _ _)) by lia. f_equal. lia.
Qed.

Lemma bval_hd bl i : Forall (fits 31) bl -> 0 <= i < 31 -> Z.testbit (bval bl) i = Z.testbit (hd 0 bl) i.
Proof.
  intros [|b rest Hb Hr] Hi; [done|]. change (b :: rest) with ([b] ++ rest). rewrite bval_bit by (done || lia || by apply Forall_singleton).
  cbn [length hd app bval]. rewrite (proj2 (Z.ltb_lt _ _)), Z.mul_0_r, Z.add_0_r by lia. done.
Qed.

Lemma hits_next V k bls Es : Forall (Forall (fits 31)) bls -> hits V k bls Es -> hits V (k + 1) (map tail bls) (map (fun E => E >>> 31) Es).
Proof.
  intros Hb Hh i Hi. replace (31 * (k + 1) + i) with (31 * k + (31 + i)) by lia. rewrite (Hh (31 + i)) by lia. rewrite !forallb_mapped. f_equal; apply forallb_ext.
  - intros bl Hbl. apply bval_tail; [|done]. by eapply Forall_forall in Hb.
  - intros E _. rewrite Z.shiftr_spec by done. do 2 f_equal. lia.
Qed.

Lemma hits_end V k bls Es z : Forall (Forall (fits 31)) bls -> hits V k bls Es -> ended bls = true -> 31 * (k + 1) <= z -> Z.testbit V z = false.
Proof.
  intros Hb Hh (bl & Hin & He)%existsb_exists Hz. apply bool_decide_eq_true in He. replace z with (31 * k + (31 + (z - 31 * (k + 1)))) by lia. rewrite Hh by lia.
  apply andb_false_iff. left. apply not_true_is_false. rewrite forallb_forall. intros Hall. specialize (Hall bl Hin). apply list_elem_of_In in Hin.
  rewrite bval_tail, He in Hall; [by rewrite Z.bits_0 in Hall|by eapply Forall_forall in Hb|lia].
Qed.

Section loop.
Context {S : Type} {BS : Backend S} {BOS : BackendOk S} {T : Type} {BT : Backend T} {BOT : BackendOk T}.
Context (V count ones : Z) (f : option (Z -> bool)) (Hones : fits 32 ones) (Hone : forall i, 0 <= i < 31 -> Z.testbit ones i = true).

Lemma wm_loop_ok n (xs : list (wmany S)) (ys : list (wmany T)) bl bls Es k ids : (length bl <= n)%nat -> Forall2 iat xs (bl :: bls) -> Forall (Forall (fits 31)) (bl :: bls) ->
  Forall2 sat ys Es -> (length ys <= length xs)%nat -> hits V k (bl :: bls) Es -> 0 <= k -> 31 * (k + zlen bl) < 2 ^ 32 -> zlen ids < count + 31 ->
  exists m, 0 <= m /\ let out := ids ++ picked f V (31 * k) (31 * m) in
    (forall fuel, (n < fuel)%nat -> wm_loop fuel ones count f xs ys true (31 * k) ids = Ok out) /\ zlen out < count + 31 /\
    (count <= zlen out \/ forall z, 31 * (k + m) <= z -> Z.testbit V z = false).
Proof using BOS BOT Hones Hone.
  revert xs ys bl bls Es k ids. induction n as [|n IH]; intros xs ys bl bls Es k ids Hn Hxs Hfit Hys Hlen Hh Hk Hlim Hids.
  { destruct bl; [|cbn in Hn; lia]. apply Forall2_cons_inv_r in Hxs as (x & xs' & Hx & _ & ->). destruct (take_ok x [] 0 true Hx) as (b & rest & _ & _ & E & _); [unfold fits; lia|done]. }
  destruct (Z.ltb_spec (zlen ids) count) as [Hlt|Hge].
  2: { exists 0. split; [lia|]. unfold picked. rewrite set_positions_none, filter_nil, app_nil_r by lia. split; [|split; [done|by left]].
    intros [|fuel] Hf; [lia|]. cbn [wm_loop]. by rewrite (proj2 (Z.ltb_ge _ _)). }
  destruct (intersects_ok xs _ ones true Hxs Hones) as (xs' & cw1 & Hi & Hc1 & Hxs' & Hnz & Hl'). cbn [andb] in Hi.
  destruct (subtracts_ok ys Es (map (fun x : wmany S => snd (snd x)) xs') cw1 Hys) as (ys' & cw2 & Hs & Hc2 & Hys'); [by apply Forall_map|rewrite length_map; lia|by destruct Hc1|].
  assert (1 <= zlen bl) as Hbl.
  { apply Forall2_cons_inv_r in Hxs as (x & xs2 & Hx & _ & _). destruct (take_ok x bl 0 true Hx) as (b & rest & _ & _ & -> & _); [unfold fits; lia|]. cbn [length]. lia. }
  assert (wm_emit 32 f (31 * k) (31 * k) cw2 ids = Ok (ids ++ picked f V (31 * k) 31)) as Hem.
  { rewrite (wm_emit_ok 32 V f (31 * k)); [do 3 f_equal; lia|lia|lia| |lia]. intros j Hj. destruct (cut_trans _ _ _ _ _ Hc1 Hc2) as [_ Hb].
    rewrite Hb, Hone, Hh by lia. cbn [andb]. f_equal. apply forallb_ext. intros c Hc. symmetry. apply bval_hd; [by eapply Forall_forall in Hfit|lia]. }
  assert (zlen (ids ++ picked f V (31 * k) 31) < count + 31) as Hids'.
  { rewrite length_app. pose proof (picked_length f V (31 * k) 31). lia. }
  assert (forall fuel, wm_loop (Datatypes.S fuel) ones count f xs ys true (31 * k) ids =
    wm_loop fuel ones count f xs' ys' (negb (ended (bl :: bls))) (31 * (k + 1)) (ids ++ picked f V (31 * k) 31)) as Hstep.
  { intros fuel. cbn [wm_loop]. rewrite (proj2 (Z.ltb_lt _ _)) by done. cbn [andb]. rewrite Hi, bind_ok_l, Hs, bind_ok_l, (wrap_small 32 (31 * k)), Hem, bind_ok_l by (unfold fits; lia).
    f_equal. rewrite wrap_small by (unfold fits; lia). lia. }
  destruct (ended (bl :: bls)) eqn:Eend; cbn [negb] in Hstep.
  - exists 1. split; [lia|]. change (31 * 1) with 31. split; [|split; [done|]].
    + intros [|[|fuel]] Hf; [lia|lia|]. rewrite Hstep. cbn [wm_loop]. by rewrite andb_false_r.
    + right. intros z Hz. by apply (hits_end V k (bl :: bls) Es z).
  - destruct (IH xs' ys' (tail bl) (map tail bls) (map (fun E => E >>> 31) Es) (k + 1) (ids ++ picked f V (31 * k) 31)) as (m & Hm & Hloop & Hz & Hdone).
    + destruct bl; cbn [length tail] in Hn |- *; lia.
    + by apply Hxs'.
    + change (tail bl :: map tail bls) with (map tail (bl :: bls)). apply Forall_map. eapply Forall_impl; [exact Hfit|]. intros c Hc. by destruct Hc.
    + done.
    + apply Forall2_length in Hys as E1. apply Forall2_length in Hys' as E2. rewrite length_map in E2. lia.
    + change (tail bl :: map tail bls) with (map tail (bl :: bls)). by apply hits_next.
    + lia.
    + clear - Hlim Hbl. destruct bl; cbn [length tail] in *; lia.
    + done.
    + exists (m + 1). split; [lia|]. rewrite <- app_assoc in *. unfold picked in *. rewrite <- filter_app in *.
      replace (31 * (k + 1)) with (31 * k + 31) in * by lia. rewrite <- set_positions_app in * by lia. replace (31 * (m + 1)) with (31 + 31 * m) by lia.
      split; [|split; [done|]].
      * intros [|fuel] Hf; [lia|]. rewrite Hstep. apply Hloop. lia.
      * destruct Hdone as [Hd|Hd]; [by left|]. right. intros z Hz'. apply Hd. lia.
Qed.
End loop.

(** * The results *)

Definition usable_index {S : Type} {BS : Backend S} {BOS : BackendOk S} (x : S * wah) (l : list Z) : Prop := wah_usable (fst x) (snd x) l.

(** The words of an index. *)
Definition has_words {S : Type} {BS : Backend S} {BOS : BackendOk S} (x : S * wah) (ws : list Z) : Prop :=
  exists pre post, wah_holds (fst x) (snd x) pre post /\ ws = pre ++ post.

(** What the rounds leave: of the ids [full] all, or as many as were asked for and at most 30
    more. *)
Definition constrained (run : nat -> result (list Z)) (count : Z) (full : list Z) : Prop :=
  exists ids n, 31 * Z.of_nat n < 2 ^ 32 + 31 /\ (forall fuel, (n <= fuel)%nat -> run fuel = Ok ids) /\
    ids `prefix_of` full /\ (ids = full \/ count <= zlen ids < count + 31).

Lemma wm_begin_ok {S : Type} {BS : Backend S} {BOS : BackendOk S} (xs : list (S * wah)) Ls : Forall2 usable_index xs Ls -> Forall (fun l => l <> []) Ls ->
  exists ys bls, wm_begin xs = Ok ys /\ Forall2 iat ys bls /\ Forall (fun bl => Forall (fits 31) bl /\ 31 * zlen bl < 2 ^ 32) bls /\ Ls = map bids bls.
Proof.
  induction 1 as [|x l xs Ls Hx _ IH]; intros Hne; [by exists [], []|]. apply Forall_cons in Hne as [Hl Hne]. cbn [wm_begin].
  destruct (begin_ok x l Hx Hl) as (y & bl & -> & Hy & Hf & Hlim & ->). rewrite bind_ok_l. destruct (IH Hne) as (ys & bls & -> & Hys & Hb & ->). rewrite bind_ok_l.
  exists (y :: ys), (bl :: bls). split; [done|]. split; [by constructor|]. split; [by constructor|done].
Qed.


(** The number of the ids that are in all [bls] and that no [Es] takes away. *)
Definition common (bls : list (list Z)) (Es : list Z) : Z :=
  Z.ldiff (fold_right (fun bl V => bval bl &&& V) (-1) bls) (fold_right Z.lor 0 Es).

Lemma common_bits bls Es i : 0 <= i -> Z.testbit (common bls Es) i = forallb (fun bl => Z.testbit (bval bl) i) bls && forallb (fun E => negb (Z.testbit E i)) Es.
Proof.
  intros Hi. unfold common. rewrite Z.ldiff_spec. f_equal.
  - induction bls as [|bl bls IH]; cbn [fold_right forallb]; [by apply Z.bits_m1|]. by rewrite Z.land_spec, IH.
  - induction Es as [|E Es IH]; cbn [fold_right forallb]; [by rewrite Z.bits_0|]. by rewrite Z.lor_spec, negb_orb, IH.
Qed.

Section results.
Context {S : Type} {BS : Backend S} {BOS : BackendOk S} {T : Type} {BT : Backend T} {BOT : BackendOk T}.

Lemma many_ok ones count f (xs : list (wmany S)) (ys : list (wmany T)) bl bls Es :
  fits 32 ones -> (forall i, 0 <= i < 31 -> Z.testbit ones i = true) -> 0 <= count -> Forall2 iat xs (bl :: bls) -> Forall (fun bl => Forall (fits 31) bl /\ 31 * zlen bl < 2 ^ 32) (bl :: bls) ->
  Forall2 sat ys Es -> (length ys <= length xs)%nat -> exists full, sorted full /\
    (forall z, z ∈ full <-> wm_pass f z = true /\ Forall (fun bl => z ∈ bids bl) (bl :: bls) /\ Forall (fun E => Z.testbit E z = false) Es) /\
    constrained (fun fuel => wm_loop fuel ones count f xs ys true 0 []) count full.
Proof using BOS BOT.
  intros Hones Hone Hcount Hxs Hb Hys Hlen. set (V := common (bl :: bls) Es). assert (Forall (Forall (fits 31)) (bl :: bls)) as Hfit.
  { eapply Forall_impl; [exact Hb|]. by intros c [Hc _]. }
  destruct (wm_loop_ok V count ones f Hones Hone (length bl) xs ys bl bls Es 0 []) as (m & Hm & Hrun & Hcap & Hdone); try done.
  { intros i Hi. rewrite Z.mul_0_r, Z.add_0_l. by apply common_bits. } { apply Forall_inv in Hb. lia. } { cbn [length]. lia. }
  rewrite Z.mul_0_r in *. cbn [app] in *. set (M := Z.max m (zlen bl)).
  assert (forall c z, Forall (fits 31) c -> 0 <= z -> Z.testbit (bval c) z = true <-> z ∈ bids c) as Hin by (intros c z Hc Hz; rewrite elem_of_bids by done; tauto).
  exists (picked f V 0 (31 * M)). split; [apply sorted_filter, sorted_set_positions|]. split.
  - intros z. unfold picked. rewrite list_elem_of_filter, elem_of_set_positions, Is_true_true. split.
    + intros (Hp & Hz & Hbit). split; [done|]. unfold V in Hbit. rewrite common_bits in Hbit by lia. apply andb_true_iff in Hbit as [H1 H2].
      rewrite forallb_forall in H1, H2. split; apply Forall_forall; intros c Hc.
      * apply Hin; [by eapply Forall_forall in Hfit|lia|]. apply H1. by apply list_elem_of_In.
      * apply negb_true_iff, H2. by apply list_elem_of_In.
    + intros (Hp & Ha & Hs). split; [done|]. pose proof (Forall_inv Ha) as Hz. apply elem_of_set_positions in Hz as [Hz _]. split; [lia|].
      unfold V. rewrite common_bits by lia. apply andb_true_iff. rewrite !forallb_forall. split; intros c Hc%list_elem_of_In.
      * apply Hin; [by eapply Forall_forall in Hfit|lia|by eapply Forall_forall in Ha].
      * apply negb_true_iff. by eapply Forall_forall in Hs.
  - exists (picked f V 0 (31 * m)), (Datatypes.S (length bl)). split; [apply Forall_inv in Hb; lia|]. split; [intros fuel Hf; apply Hrun; lia|].
    assert (picked f V 0 (31 * M) = picked f V 0 (31 * m) ++ picked f V (31 * m) (31 * (M - m))) as ->.
    { unfold picked. rewrite <- filter_app. rewrite <- set_positions_app by lia. do 2 f_equal. lia. }
    split; [by apply prefix_app_r|]. destruct Hdone as [Hd|Hd]; [right; lia|left].
    assert (picked f V (31 * m) (31 * (M - m)) = []) as ->; [|by rewrite app_nil_r]. unfold picked. rewrite set_positions_none; [done|]. intros z Hz. apply Hd. lia.
Qed.
End results.

(** C21: [constrainedIntersect]. For indexes that are not empty it returns after at most a round per
    block, with the ids that are in all of them and pass the filter, in order: all of them, or
    as many as were asked for and at most 30 more. *)
Theorem wah_constrainedIntersect_correct {S : Type} {BS : Backend S} {BOS : BackendOk S} (xs : list (S * wah)) Ls count f :
  Forall2 usable_index xs Ls -> Forall (fun l => l <> []) Ls -> Ls <> [] -> 0 <= count ->
  exists full, sorted full /\ (forall z, z ∈ full <-> wm_pass f z = true /\ Forall (fun l => z ∈ l) Ls) /\
    constrained (fun fuel => wah_constrainedIntersect fuel xs count f) count full.
Proof.
  intros Hxs Hne Hls Hc. destruct (wm_begin_ok xs Ls Hxs Hne) as (ys & bls & Hbeg & Hys & Hb & ->). destruct bls as [|bl bls]; [done|].
  destruct (many_ok 4294967295 count f ys (@nil (wmany S)) bl bls []) as (full & Hs & Hin & ids & n & Hrun); try done.
  { intros i Hi. change 4294967295 with (Z.ones 32). apply Z.ones_spec_low. lia. } { cbn. lia. }
  exists full. split; [done|]. split; [|exists ids, n; unfold wah_constrainedIntersect; rewrite Hbeg; exact Hrun].
  intros z. rewrite Hin, Forall_map. split; [by intros (? & ? & _)|intros [? ?]; by split].
Qed.




(** The indexes [3; 40; 100] and [40; 100; 200], and to be subtracted [1; 3] and [40]. *)
Lemma wah_words_ok src : wah_src src -> exists (v : Vec.t) w ws, has_words (v, w) ws /\ bids (blocks ws) = src /\ usable_index (v, w) src.
Proof.
  intros Hsrc. destruct (wah_make_ok src Hsrc) as (v & w & pre & post & Hh & ->). exists v, w, (pre ++ post).
  split; [by exists pre, post|]. split; [done|by exists pre, post].
Qed.

Lemma wah_constrainedIntersect_correct_witness : exists (v1 v2 : Vec.t) w1 w2 ids n,
  wah_constrainedIntersect n [(v1, w1); (v2, w2)] 5 (Some (fun z => z <? 150)) = Ok ids /\ ids = [40; 100].
Proof.
  destruct (wah_words_ok [3; 40; 100; 200]) as (v1 & w1 & _ & _ & _ & H1); [apply wah_src_dec; vm_compute; reflexivity|].
  destruct (wah_words_ok [40; 100; 200]) as (v2 & w2 & _ & _ & _ & H2); [apply wah_src_dec; vm_compute; reflexivity|].
  destruct (wah_constrainedIntersect_correct [(v1, w1); (v2, w2)] [[3; 40; 100; 200]; [40; 100; 200]] 5 (Some (fun z => z <? 150)))
    as (full & Hs & Hin & ids & n & _ & Hrun & Hpre & Hend); [constructor; [exact H1|constructor; [exact H2|constructor]]|repeat constructor; done|done|done|].
  assert (full = [40; 100]) as ->.
  { apply sorted_ext; [exact Hs|repeat first [lia|constructor]|]. intros z. rewrite Hin, Forall_cons, Forall_singleton, !elem_of_cons, !elem_of_nil. cbn [wm_pass].
    rewrite Z.ltb_lt. lia. }
  exists v1, v2, w1, w2, ids, n. split; [apply Hrun; lia|]. destruct Hend as [->|Hc]; [done|]. apply prefix_length in Hpre. cbn [length] in Hpre. lia.
Defined.

