(* ===== verification/RefCount.v ===== *)
(** Reference counting: [include/sserialize/utility/refcounting.h] and
    [src/utility/refcounting.cpp].

    [RefCountObject] keeps twice the number of references in [m_rc], the lowest bit says
    that counting is disabled.  [RCBase], the base of [RCPtrWrapper] and [RCWrapper], is a
    pointer that counts: [reset] increments the new object, decrements the old one,
    deletes it when that was its last reference and only then stores the pointer.

    Threads interleave between these atomic steps.  A handle belongs to one thread at a
    time (two threads must not use one handle at once); it can be given to another thread
    between operations.  The count of an object is shown to be the number of handles that
    hold it plus the operations that have counted it but not yet stored it. *)

From stdpp Require Import gmap.
From S2P Require Import Prelude.

(** * [RefCountObject] *)

Definition rc_new : Z := 0.
Definition rc (m_rc : Z) : Z := m_rc >>> 1.
Definition rcInc (m_rc : Z) : Z := u32 (m_rc + 2).
(** The assert, the new value, and whether [this] is deleted. *)
Definition rcDec (m_rc : Z) : result (Z * bool) :=
  if 0 <? rc m_rc then Ok (u32 (m_rc - 2), m_rc =? 2) else Err AssertionFailed.
Definition rcDecWithoutDelete (m_rc : Z) : result Z :=
  if 0 <? rc m_rc then Ok (u32 (m_rc - 2)) else Err AssertionFailed.
Definition disableRC (m_rc : Z) : Z := m_rc ||| 1.
Definition enableRC (m_rc : Z) : Z := m_rc &&& (max_u32 - 1).
Definition enabledRC (m_rc : Z) : bool := m_rc &&& 1 =? 0.
(** The assert of the destructor. *)
Definition destroy (m_rc : Z) : result () := throw_if (negb (m_rc =? 0)) AssertionFailed.

(** ** A handle that can switch counting off: [RCBase<RCObj, true>], one thread *)

Record rcbase := mkBase { b_priv : option Z; b_enabled : bool }.

(** [b_priv] is the counter of the object; no other handle changes it meanwhile. *)
Definition base_disableRC (b : rcbase) : result rcbase :=
  match b_priv b with
  | Some v =>
      if b_enabled b then v ← rcDecWithoutDelete (disableRC v); mret (mkBase (Some v) false) else Ok b
  | None => Ok b
  end.
Definition base_enableRC (b : rcbase) : rcbase :=
  match b_priv b with
  | Some v => if b_enabled b then b else mkBase (Some (enableRC (rcInc v))) true
  | None => b
  end.

(** * Threads that share objects *)

Abbreviation obj := nat. Abbreviation handle := nat. Abbreviation tid := nat.

(** Where a thread is in [reset(p)] of the handle [h]; [src] is the handle that [p] was
    read from, if any. *)
Inductive tstate :=
  | Idle
  | Reset (h : handle) (p : option obj) (src : option handle)  (** about to increment *)
  | Dec (h : handle) (p : option obj)                          (** about to decrement *)
  | Delete (h : handle) (p : option obj) (o : obj)             (** about to delete [o] *)
  | Store (h : handle) (p : option obj).                       (** about to store *)

(** The objects that are not deleted with their counter, the pointer and the owner of each
    handle, and the threads. *)
Record state := mkState { objs : gmap obj Z; privs : list (option obj); owner : list tid; threads : list tstate }.

Definition set_thread (s : state) (t : tid) (x : tstate) : state :=
  mkState (objs s) (privs s) (owner s) (<[t := x]> (threads s)).
Definition set_objs (s : state) (m : gmap obj Z) : state := mkState m (privs s) (owner s) (threads s).

(** One atomic step of a thread; using a deleted object is undefined. *)
Definition run (s : state) (t : tid) (x : tstate) : result state :=
  match x with
  | Idle => Ok s
  | Reset h None _ => Ok (set_thread s t (Dec h None))
  | Reset h (Some p) _ =>
      match objs s !! p with
      | Some v => Ok (set_thread (set_objs s (<[p := rcInc v]> (objs s))) t (Dec h (Some p)))
      | None => Err UndefinedBehaviour
      end
  | Dec h p =>
      match privs s !! h with
      | Some (Some o) =>
          match objs s !! o with
          | Some v =>
              '(v, last) ← rcDec v;
              mret (set_thread (set_objs s (<[o := v]> (objs s))) t (if last : bool then Delete h p o else Store h p))
          | None => Err UndefinedBehaviour
          end
      | Some None => Ok (set_thread s t (Store h p))
      | None => Err UndefinedBehaviour
      end
  | Delete h p o =>
      match objs s !! o with
      | Some v => _ ← destroy v; mret (set_thread (set_objs s (delete o (objs s))) t (Store h p))
      | None => Err UndefinedBehaviour
      end
  | Store h p => Ok (set_thread (mkState (objs s) (<[h := p]> (privs s)) (owner s) (threads s)) t Idle)
  end.

(** What can happen next: a thread starts to reset one of its handles to a new object, to
    the object of another of its handles, or to null; gives a handle away; or goes on. *)
Inductive label :=
  | LNew (t : tid) (h : handle) (p : obj)
  | LCopy (t : tid) (h h' : handle)
  | LClear (t : tid) (h : handle)
  | LGive (t : tid) (h : handle) (t' : tid)
  | LRun (t : tid).

Inductive step : state -> label -> result state -> Prop :=
  | step_new s t h p : threads s !! t = Some Idle -> owner s !! h = Some t -> objs s !! p = None ->
      step s (LNew t h p) (Ok (set_thread (set_objs s (<[p := rc_new]> (objs s))) t (Reset h (Some p) None)))
  | step_copy s t h h' p : threads s !! t = Some Idle -> owner s !! h = Some t -> owner s !! h' = Some t ->
      privs s !! h' = Some p -> step s (LCopy t h h') (Ok (set_thread s t (Reset h p (Some h'))))
  | step_clear s t h : threads s !! t = Some Idle -> owner s !! h = Some t ->
      step s (LClear t h) (Ok (set_thread s t (Reset h None None)))
  | step_give s t h t' : threads s !! t = Some Idle -> owner s !! h = Some t ->
      step s (LGive t h t') (Ok (mkState (objs s) (privs s) (<[h := t']> (owner s)) (threads s)))
  | step_run s t x : threads s !! t = Some x -> x <> Idle -> step s (LRun t) (run s t x).

Inductive steps : state -> list label -> state -> Prop :=
  | steps_nil s : steps s [] s
  | steps_snoc s ls s' l s'' : steps s ls s' -> step s' l (Ok s'') -> steps s (ls ++ [l]) s''.

(** Null handles, idle threads, no object. *)
Definition init (own : list tid) (n : nat) : state :=
  mkState ∅ (replicate (length own) None) own (replicate n Idle).

(** The threads run in the order of [ts]; an idle thread does nothing. *)
Fixpoint schedule (s : state) (ts : list tid) : result state :=
  match ts with
  | [] => Ok s
  | t :: ts => match threads s !! t with Some x => s ← run s t x; schedule s ts | None => schedule s ts end
  end.

(** * Counting *)

Definition zsum {A} (f : A -> Z) (l : list A) : Z := foldr (fun x a => f x + a) 0 l.

Lemma zsum_insert {A} (f : A -> Z) l i x y : l !! i = Some x -> zsum f (<[i := y]> l) = zsum f l - f x + f y.
Proof.
  unfold zsum. revert i. induction l as [|z l IH]; intros [|i] Hi; try done.
  - injection Hi as ->. cbn. lia.
  - change (<[Datatypes.S i := y]> (z :: l)) with (z :: <[i := y]> l). cbn [foldr]. rewrite (IH i Hi). lia.
Qed.

Lemma zsum_nonneg {A} (f : A -> Z) l : (forall x, 0 <= f x) -> 0 <= zsum f l.
Proof. intros Hf. induction l as [|x l IH]; [done|]. unfold zsum in *. cbn [foldr]. specialize (Hf x). lia. Qed.

Lemma zsum_elem {A} (f : A -> Z) l i x : (forall x, 0 <= f x) -> l !! i = Some x -> f x <= zsum f l.
Proof.
  intros Hf. revert i. induction l as [|y l IH]; intros [|i] Hi; try done; unfold zsum in *; cbn [foldr].
  - injection Hi as ->. pose proof (zsum_nonneg f l Hf). unfold zsum in *. lia.
  - specialize (IH i Hi). specialize (Hf y). lia.
Qed.

Lemma zsum_le {A} (f : A -> Z) l : (forall x, f x <= 1) -> zsum f l <= zlen l.
Proof. intros Hf. induction l as [|x l IH]; [done|]. unfold zsum in *. cbn [foldr length]. specialize (Hf x). lia. Qed.

(** 1 for a reference to [p]. *)
Definition one (p : obj) (q : option obj) : Z := if decide (q = Some p) then 1 else 0.

(** The references of a thread that are counted but not stored. *)
Definition pending (p : obj) (x : tstate) : Z :=
  match x with Dec _ q | Delete _ q _ | Store _ q => one p q | _ => 0 end.

(** The thread that is to give [p] its first reference, or to delete it. *)
Definition charge (p : obj) (x : tstate) : Z :=
  match x with Reset _ (Some q) None | Delete _ _ q => one p (Some q) | _ => 0 end.

(** [held h] is the pointer of [h], or null while its object is not counted any more. *)
Definition count (p : obj) (held : list (option obj)) (ts : list tstate) : Z := zsum (one p) held + zsum (pending p) ts.

Definition thread_ok (s : state) (held : list (option obj)) (t : tid) (x : tstate) : Prop :=
  match x with
  | Idle => True
  | Reset h q src => owner s !! h = Some t /\ match src with Some h' => owner s !! h' = Some t /\ privs s !! h' = Some q | None => True end
  | Dec h q => owner s !! h = Some t
  | Delete h q _ | Store h q => owner s !! h = Some t /\ held !! h = Some None
  end.

(** The thread has given up the object of [h]. *)
Definition released (h : handle) (x : tstate) : Prop :=
  match x with Delete h' _ _ | Store h' _ => h = h' | _ => False end.

Record inv (s : state) (held : list (option obj)) : Prop := {
  inv_own : length (owner s) = length (privs s);
  inv_len : length held = length (privs s);
  inv_count p : default 0 (objs s !! p) = 2 * count p held (threads s);
  inv_charge p : zsum (charge p) (threads s) = if decide (objs s !! p = Some 0) then 1 else 0;
  inv_threads t x : threads s !! t = Some x -> thread_ok s held t x;
  inv_held h : held !! h = privs s !! h \/ exists t x, owner s !! h = Some t /\ threads s !! t = Some x /\ released h x;
  inv_few : zlen (privs s) + zlen (threads s) < 2 ^ 31 - 1;
}.

Lemma one_bounds p q : 0 <= one p q <= 1.
Proof. unfold one. case_decide; lia. Qed.

Lemma pending_bounds p x : 0 <= pending p x <= 1.
Proof. destruct x; cbn [pending]; try lia; apply one_bounds. Qed.

Lemma charge_bounds p x : 0 <= charge p x <= 1.
Proof. destruct x as [|h [q|] [h'|]| | |]; cbn [charge]; try lia; apply one_bounds. Qed.

Lemma one_same p : one p (Some p) = 1.
Proof. unfold one. by rewrite decide_True. Qed.

Lemma one_other p q : p <> q -> one p (Some q) = 0.
Proof. intros. unfold one. rewrite decide_False; [done|congruence]. Qed.

Lemma one_none p : one p None = 0.
Proof. done. Qed.

Section invariant.
Context (s : state) (held : list (option obj)) (Hinv : inv s held).

Lemma count_bounds p : 0 <= count p held (threads s) < 2 ^ 31 - 1.
Proof using Hinv.
  unfold count. pose proof (zsum_nonneg (one p) held (fun q => proj1 (one_bounds p q))).
  pose proof (zsum_nonneg (pending p) (threads s) (fun q => proj1 (pending_bounds p q))).
  pose proof (zsum_le (one p) held (fun q => proj2 (one_bounds p q))).
  pose proof (zsum_le (pending p) (threads s) (fun q => proj2 (pending_bounds p q))).
  pose proof (inv_few _ _ Hinv). pose proof (inv_len _ _ Hinv). lia.
Qed.

Lemma obj_even p v : objs s !! p = Some v -> v = 2 * count p held (threads s) /\ 0 <= v < 2 ^ 32 - 2.
Proof using Hinv.
  intros Hv. pose proof (inv_count _ _ Hinv p) as Hc. rewrite Hv in Hc. change (default 0 (Some v)) with v in Hc.
  pose proof (count_bounds p). lia.
Qed.

(** The pointer of a handle is counted unless its owner is about to replace it. *)
Lemma held_own h t x : owner s !! h = Some t -> threads s !! t = Some x -> ~ released h x -> held !! h = privs s !! h.
Proof using Hinv.
  intros Ho Hx Hr. destruct (inv_held _ _ Hinv h) as [?|(t' & x' & Ho' & Hx' & Hr')]; [done|]. congruence.
Qed.

(** An object that is counted is alive and has the reference. *)
Lemma counted_alive h o : held !! h = Some (Some o) -> exists v, objs s !! o = Some v /\ 2 <= v.
Proof using Hinv.
  intros Hh. pose proof (zsum_elem (one o) held h _ (fun q => proj1 (one_bounds o q)) Hh) as H1. rewrite one_same in H1.
  pose proof (zsum_nonneg (pending o) (threads s) (fun q => proj1 (pending_bounds o q))).
  pose proof (inv_count _ _ Hinv o) as Hc. unfold count in Hc. destruct (objs s !! o) as [v|].
  - exists v. change (default 0 (Some v)) with v in Hc. split; [done|lia].
  - change (default 0 None) with 0 in Hc. lia.
Qed.

(** An object a thread is in charge of has no reference. *)
Lemma charged_zero p t x : threads s !! t = Some x -> charge p x = 1 -> objs s !! p = Some 0.
Proof using Hinv.
  intros Hx Hc. pose proof (zsum_elem (charge p) (threads s) t x (fun q => proj1 (charge_bounds p q)) Hx) as H1.
  rewrite (inv_charge _ _ Hinv p) in H1. case_decide; [done|lia].
Qed.

(** What a step of the thread [t] has to establish. *)
Lemma inv_step s' held' t x y :
  threads s !! t = Some x -> owner s' = owner s -> threads s' = <[t := y]> (threads s) ->
  length (privs s') = length (privs s) -> length held' = length held ->
  (forall h, owner s !! h <> Some t -> held' !! h = held !! h /\ privs s' !! h = privs s !! h) ->
  (forall p, default 0 (objs s' !! p) - default 0 (objs s !! p) =
     2 * (zsum (one p) held' - zsum (one p) held + pending p y - pending p x)) ->
  (forall p, (if decide (objs s' !! p = Some 0) then 1 else 0) - (if decide (objs s !! p = Some 0) then 1 else 0) = charge p y - charge p x) ->
  thread_ok s' held' t y ->
  (forall h, owner s !! h = Some t -> held' !! h = privs s' !! h \/ released h y) ->
  inv s' held'.
Proof using Hinv.
  intros Hx Ho Ht Hlp Hlh Hother Hcount Hcharge Hok Hheld. destruct Hinv as [Io Il Ic Ich It Ih If]. split.
  - by rewrite Ho, Hlp.
  - by rewrite Hlh, Hlp.
  - intros p. specialize (Hcount p). specialize (Ic p). unfold count in *. rewrite Ht, (zsum_insert _ _ _ _ _ Hx). lia.
  - intros p. specialize (Hcharge p). specialize (Ich p). rewrite Ht, (zsum_insert _ _ _ _ _ Hx). lia.
  - intros t' x' Hx'. rewrite Ht in Hx'. destruct (decide (t' = t)) as [->|Hne].
    { rewrite list_lookup_insert_eq in Hx' by (by eapply lookup_lt_Some). by injection Hx' as <-. }
    rewrite list_lookup_insert_ne in Hx' by done. specialize (It _ _ Hx').
    assert (forall h, owner s !! h = Some t' -> held' !! h = held !! h /\ privs s' !! h = privs s !! h) as Hsame.
    { intros h Hh. apply Hother. congruence. }
    destruct x' as [|h q [h'|]|h q|h q o|h q]; cbn [thread_ok] in *; rewrite ?Ho; try done.
    + destruct It as (Ho1 & Ho2 & Hp). rewrite (proj2 (Hsame h' Ho2)). done.
    + destruct It as (Ho1 & Hp). by rewrite (proj1 (Hsame h Ho1)).
    + destruct It as (Ho1 & Hp). by rewrite (proj1 (Hsame h Ho1)).
  - intros h. rewrite Ho, Ht. destruct (decide (owner s !! h = Some t)) as [Hh|Hh].
    + destruct (Hheld h Hh) as [?|Hr]; [by left|]. right. exists t, y. rewrite list_lookup_insert_eq by (by eapply lookup_lt_Some). done.
    + destruct (Hother h Hh) as [-> ->]. destruct (Ih h) as [?|(t' & x' & Ho' & Hx' & Hr)]; [by left|]. right.
      exists t', x'. rewrite list_lookup_insert_ne by congruence. done.
  - rewrite Ht, Hlp, length_insert. done.
Qed.
End invariant.

Lemma rc_pos v : 2 <= v < 2 ^ 32 -> (0 <? rc v) = true.
Proof. intros Hv. apply Z.ltb_lt. unfold rc. rewrite Z.shiftr_div_pow2 by lia. change (2 ^ 1) with 2. apply Z.div_str_pos. lia. Qed.

Lemma default_insert (m : gmap obj Z) q v p : default 0 (<[q := v]> m !! p) = if decide (p = q) then v else default 0 (m !! p).
Proof. case_decide as Hp; [by rewrite Hp, lookup_insert_eq|by rewrite lookup_insert_ne]. Qed.

Lemma zero_insert (m : gmap obj Z) q v p :
  (if decide (<[q := v]> m !! p = Some 0) then 1 else 0) = if decide (p = q) then (if decide (v = 0) then 1 else 0) else if decide (m !! p = Some 0) then 1 else 0.
Proof.
  destruct (decide (p = q)) as [->|Hp]; [rewrite lookup_insert_eq|by rewrite lookup_insert_ne].
  repeat case_decide; congruence.
Qed.

Section running.
Context (s : state) (held : list (option obj)) (Hinv : inv s held).

(** The steps left of an operation. *)
Definition rank (x : tstate) : nat := match x with Idle => 0 | Reset _ _ _ => 4 | Dec _ _ => 3 | Delete _ _ _ => 2 | Store _ _ => 1 end.

Definition runs_to (t : tid) (x : tstate) : Prop := exists s' y held', run s t x = Ok s' /\ inv s' held' /\
  owner s' = owner s /\ threads s' = <[t := y]> (threads s) /\ (rank y < rank x)%nat.

Lemma run_reset t h q src : threads s !! t = Some (Reset h q src) -> runs_to t (Reset h q src).
Proof using Hinv.
  intros Hx. pose proof (inv_threads _ _ Hinv t _ Hx) as [Ho Hsrc]. unfold runs_to. cbn [run]. destruct q as [q|].
  - assert (exists v, objs s !! q = Some v /\ (src = None -> v = 0) /\ (src <> None -> 2 <= v)) as (v & Hv & Hv0 & Hv2).
    { destruct src as [h'|].
      - destruct Hsrc as [Ho' Hp]. rewrite <- (held_own s held Hinv h' t _ Ho' Hx (fun r => r)) in Hp.
        destruct (counted_alive s held Hinv h' q Hp) as (v & Hv & ?). by exists v.
      - exists 0. split; [|done]. apply (charged_zero s held Hinv q t _ Hx). apply one_same. }
    rewrite Hv. eexists _, (Dec h (Some q)), held. split; [done|]. split; [|split; [done|split; [done|cbn; lia]]].
    destruct (obj_even s held Hinv q v Hv) as [He Hb]. pose proof (count_bounds s held Hinv q).
    assert (rcInc v = v + 2) as Hinc by (apply wrap_small; unfold fits; lia).
    eapply (inv_step s held Hinv _ _ t _ (Dec h (Some q)) Hx); cbn [objs privs owner threads set_thread set_objs pending charge thread_ok]; try done.
    + intros p. rewrite default_insert. case_decide as Hp; [|rewrite one_other by done; lia]. subst p. rewrite Hv, one_same, Hinc. cbn. lia.
    + intros p. rewrite zero_insert. destruct (decide (p = q)) as [->|Hp].
      * rewrite decide_False by lia. destruct src as [h'|].
        -- rewrite decide_False; [lia|]. rewrite Hv. specialize (Hv2 ltac:(done)). intros [= ->]. lia.
        -- rewrite (Hv0 eq_refl) in Hv. rewrite decide_True by done. rewrite one_same. lia.
      * destruct src; [lia|]. rewrite one_other by done. lia.
    + intros h1 Ho1. left. by apply (held_own s held Hinv h1 t _ Ho1 Hx (fun r => r)).
  - eexists _, (Dec h None), held. split; [done|]. split; [|split; [done|split; [done|cbn; lia]]].
    eapply (inv_step s held Hinv _ _ t _ (Dec h None) Hx); cbn [objs privs owner threads set_thread pending charge thread_ok]; try done.
    + intros p. rewrite one_none. lia.
    + intros p. lia.
    + intros h1 Ho1. left. by apply (held_own s held Hinv h1 t _ Ho1 Hx (fun r => r)).
Qed.

Lemma run_dec t h q : threads s !! t = Some (Dec h q) -> runs_to t (Dec h q).
Proof using Hinv.
  intros Hx. pose proof (inv_threads _ _ Hinv t _ Hx) as Ho. cbn [thread_ok] in Ho. unfold runs_to. cbn [run].
  pose proof (held_own s held Hinv h t _ Ho Hx (fun r => r)) as Hh.
  assert (h < length held)%nat as Hlt by (rewrite (inv_len _ _ Hinv), <- (inv_own _ _ Hinv); by eapply lookup_lt_Some).
  destruct (lookup_lt_is_Some_2 held h Hlt) as [[o|] Ho']; rewrite <- Hh, Ho'.
  - destruct (counted_alive s held Hinv h o Ho') as (v & Hv & Hv2). destruct (obj_even s held Hinv o v Hv) as [He Hb]. rewrite Hv. unfold rcDec.
    rewrite rc_pos by lia. rewrite bind_ok_l, wrap_small by (unfold fits; lia).
    set (y := if v =? 2 then Delete h q o else Store h q).
    eexists _, y, (<[h := None]> held). split; [done|].
    split; [|split; [done|split; [done|unfold y; case_match; cbn; lia]]].
    assert (forall p, pending p y = one p q) as Hpe by (intros p; unfold y; by case_match).
    assert (forall p, charge p y = if v =? 2 then one p (Some o) else 0) as Hch by (intros p; unfold y; by case_match).
    eapply (inv_step s held Hinv _ _ t _ y Hx); cbn [objs privs owner threads set_thread set_objs]; try done.
    + by rewrite length_insert.
    + intros h1 Ho1. split; [|done]. apply list_lookup_insert_ne. congruence.
    + intros p. rewrite default_insert, (zsum_insert _ _ _ _ _ Ho'), Hpe, one_none. cbn [pending]. case_decide as Hp.
      * subst p. rewrite Hv, one_same. cbn. lia.
      * rewrite one_other by done. lia.
    + intros p. rewrite zero_insert, Hch. cbn [charge]. destruct (decide (p = o)) as [->|Hp].
      * rewrite (decide_False (P := objs s !! o = Some 0)) by (rewrite Hv; intros [= ->]; lia). rewrite one_same.
        destruct (Z.eqb_spec v 2); case_decide; lia.
      * rewrite one_other by done. case_match; lia.
    + unfold y. case_match; cbn [thread_ok owner]; by rewrite list_lookup_insert_eq.
    + intros h1 Ho1. destruct (decide (h1 = h)) as [->|Hne].
      * right. unfold y. by case_match.
      * left. rewrite list_lookup_insert_ne by done. by apply (held_own s held Hinv h1 t _ Ho1 Hx (fun r => r)).
  - eexists _, (Store h q), held. split; [done|]. split; [|split; [done|split; [done|cbn; lia]]].
    eapply (inv_step s held Hinv _ _ t _ (Store h q) Hx); cbn [objs privs owner threads set_thread pending charge thread_ok]; try done.
    + intros p. lia.
    + intros p. lia.
    + intros h1 Ho1. left. by apply (held_own s held Hinv h1 t _ Ho1 Hx (fun r => r)).
Qed.

Lemma run_delete t h q o : threads s !! t = Some (Delete h q o) -> runs_to t (Delete h q o).
Proof using Hinv.
  intros Hx. pose proof (inv_threads _ _ Hinv t _ Hx) as [Ho Hh]. unfold runs_to. cbn [run].
  assert (objs s !! o = Some 0) as Hz by (apply (charged_zero s held Hinv o t _ Hx); apply one_same). rewrite Hz. cbn [destroy Z.eqb negb throw_if].
  unfold destroy. cbn [Z.eqb negb throw_if]. rewrite bind_ok_l.
  eexists _, (Store h q), held. split; [done|]. split; [|split; [done|split; [done|cbn; lia]]].
  eapply (inv_step s held Hinv _ _ t _ (Store h q) Hx); cbn [objs privs owner threads set_thread set_objs pending charge thread_ok]; try done.
  - intros p. destruct (decide (p = o)) as [->|Hp]; [rewrite lookup_delete_eq, Hz; cbn; lia|rewrite lookup_delete_ne by done; lia].
  - intros p. destruct (decide (p = o)) as [->|Hp].
    + rewrite lookup_delete_eq, (decide_False (P := None = Some 0)), decide_True, one_same by done. lia.
    + rewrite lookup_delete_ne, one_other by done. lia.
  - intros h1 Ho1. destruct (decide (h1 = h)) as [->|Hne]; [by right|]. left.
    apply (held_own s held Hinv h1 t _ Ho1 Hx). cbn. congruence.
Qed.

Lemma run_store t h q : threads s !! t = Some (Store h q) -> runs_to t (Store h q).
Proof using Hinv.
  intros Hx. pose proof (inv_threads _ _ Hinv t _ Hx) as [Ho Hh]. unfold runs_to. cbn [run].
  assert (h < length (privs s))%nat as Hlt by (rewrite <- (inv_own _ _ Hinv); by eapply lookup_lt_Some).
  eexists _, Idle, (<[h := q]> held). split; [done|]. split; [|split; [done|split; [done|cbn; lia]]].
  eapply (inv_step s held Hinv _ _ t _ Idle Hx); cbn [objs privs owner threads set_thread pending charge thread_ok]; try done.
  - by rewrite length_insert.
  - by rewrite length_insert.
  - intros h1 Ho1. rewrite !list_lookup_insert_ne by congruence. done.
  - intros p. rewrite (zsum_insert _ _ _ _ _ Hh), one_none. lia.
  - intros p. lia.
  - intros h1 Ho1. left. destruct (decide (h1 = h)) as [->|Hne].
    + rewrite !list_lookup_insert_eq by (rewrite ?(inv_len _ _ Hinv); done). done.
    + rewrite !list_lookup_insert_ne by done. apply (held_own s held Hinv h1 t _ Ho1 Hx). cbn. congruence.
Qed.

Lemma run_ok t x : threads s !! t = Some x -> x <> Idle -> runs_to t x.
Proof using Hinv.
  intros Hx Hne. destruct x as [|h q src|h q|h q o|h q]; [done|by apply run_reset|by apply run_dec|by apply run_delete|by apply run_store].
Qed.
End running.

(** * Reachable states *)

Lemma inv_idle s held t : inv s held -> threads s !! t = Some Idle -> forall y,
  (forall p, pending p y = 0) -> (forall p, charge p y = 0) -> thread_ok s held t y -> inv (set_thread s t y) held.
Proof.
  intros Hinv Hx y Hp Hc Hok. eapply (inv_step s held Hinv _ _ t _ y Hx); cbn [objs privs owner threads set_thread]; try done.
  - intros p. rewrite Hp. cbn [pending]. lia.
  - intros p. rewrite Hc. cbn [charge]. lia.
  - intros h Ho. left. by apply (held_own s held Hinv h t _ Ho Hx (fun r => r)).
Qed.

(** A step of any kind keeps the invariant and is defined. *)
Lemma rc_step_inv s l r held : inv s held -> step s l r -> exists s' held', r = Ok s' /\ inv s' held'.
Proof.
  intros Hinv Hst. destruct Hst as [s t h p Hx Ho Hp|s t h h' p Hx Ho Ho' Hp|s t h Hx Ho|s t h t' Hx Ho|s t x Hx Hne].
  - eexists _, held. split; [done|]. pose proof (inv_count _ _ Hinv p) as Hc. rewrite Hp in Hc. cbn in Hc.
    eapply (inv_step s held Hinv _ _ t _ (Reset h (Some p) None) Hx); cbn [objs privs owner threads set_thread set_objs pending charge thread_ok]; try done.
    + intros q. rewrite default_insert. case_decide as Hq; [|lia]. subst q. rewrite Hp. unfold rc_new. cbn. lia.
    + intros q. rewrite zero_insert. destruct (decide (q = p)) as [->|Hq].
      * rewrite Hp, one_same, decide_True, decide_False by done. lia.
      * rewrite one_other by done. lia.
    + intros h1 Ho1. left. by apply (held_own s held Hinv h1 t _ Ho1 Hx (fun r => r)).
  - eexists _, held. split; [done|]. apply inv_idle; try done. by intros q; cbn; destruct p.
  - eexists _, held. split; [done|]. by apply inv_idle.
  - eexists _, held. split; [done|]. destruct Hinv as [Io Il Ic Ich It Ih If].
    assert (forall h1 t1 x1, threads s !! t1 = Some x1 -> x1 <> Idle -> owner s !! h1 = Some t1 -> <[h := t']> (owner s) !! h1 = Some t1) as Hown.
    { intros h1 t1 x1 Hx1 Hne1 Ho1. rewrite list_lookup_insert_ne; [done|]. intros ->. rewrite Ho in Ho1. injection Ho1 as ->. congruence. }
    split; cbn [objs privs owner threads]; try done; [by rewrite length_insert| |].
    + intros t1 x1 Hx1. specialize (It t1 x1 Hx1). destruct x1 as [|h1 q src|h1 q|h1 q o|h1 q]; cbn [thread_ok owner privs] in *; [done|..].
      * destruct It as [It1 It2]. split; [by eapply Hown|]. destruct src as [h2|]; [|done]. destruct It2 as [It2 ?]. split; [by eapply Hown|done].
      * by eapply Hown.
      * destruct It. split; [by eapply Hown|done].
      * destruct It. split; [by eapply Hown|done].
    + intros h1. destruct (Ih h1) as [?|(t1 & x1 & Ho1 & Hx1 & Hr1)]; [by left|right]. exists t1, x1.
      split; [|done]. eapply Hown; [done| |done]. by intros ->.
  - destruct (run_ok s held Hinv t x Hx Hne) as (s' & y & held' & -> & Hi & _). by exists s', held'.
Qed.

Lemma zsum_replicate {A} (f : A -> Z) n x : f x = 0 -> zsum f (replicate n x) = 0.
Proof. intros Hf. unfold zsum. induction n as [|n IH]; [done|]. cbn [replicate foldr]. rewrite Hf, IH. done. Qed.

Lemma rc_init_inv own n : zlen own + Z.of_nat n < 2 ^ 31 - 1 -> inv (init own n) (replicate (length own) None).
Proof.
  intros Hn. split; cbn [init objs privs owner threads]; rewrite ?length_replicate; try done.
  - intros p. unfold count. rewrite !zsum_replicate by done. done.
  - intros p. rewrite zsum_replicate by done. done.
  - intros t x [-> _]%lookup_replicate. done.
  - intros h. by left.
Qed.

Lemma rc_steps_inv own n ls s : zlen own + Z.of_nat n < 2 ^ 31 - 1 -> steps (init own n) ls s -> exists held, inv s held.
Proof.
  intros Hn Hs. remember (init own n) as s0 eqn:E. induction Hs as [|s0 ls s l s' _ IH Hl]; subst.
  - eexists. by apply rc_init_inv.
  - destruct (IH eq_refl) as [held Hi]. destruct (rc_step_inv _ _ _ _ Hi Hl) as (s2 & held' & [= <-] & Hi'). by exists held'.
Qed.

Definition quiet (s : state) : Prop := Forall (fun x => x = Idle) (threads s).

(** With all threads idle the counters say which handles hold what. *)
Lemma quiet_count s held p : inv s held -> quiet s -> 
  default 0 (objs s !! p) = 2 * zsum (one p) (privs s) /\ objs s !! p <> Some 0.
Proof.
  intros Hi Hq. pose proof Hi as [Io Il Ic Ich It Ih If]. unfold quiet in Hq.
  assert (held = privs s) as <-.
  { apply list_eq. intros h. destruct (Ih h) as [?|(t & x & _ & Hx & Hr)]; [done|]. rewrite Forall_lookup in Hq. by rewrite (Hq _ _ Hx) in Hr. }
  assert (forall f : tstate -> Z, f Idle = 0 -> zsum f (threads s) = 0) as Hz.
  { intros f Hf. clear -Hq Hf. induction Hq as [|x l -> Hl IH]; [done|]. unfold zsum in *. cbn [foldr]. lia. }
  split; [rewrite Ic; unfold count; rewrite Hz by done; lia|]. intros H0. specialize (Ich p). rewrite Hz, decide_True in Ich by done. lia.
Qed.

#[export] Instance tstate_eq_dec : EqDecision tstate.
Proof. solve_decision. Defined.

#[export] Instance label_eq_dec : EqDecision label.
Proof. solve_decision. Defined.

(** How often a thread is scheduled. *)
Definition turns (t : tid) (ts : list tid) : nat := length (filter (eq t) ts).
Definition run_turns (t : tid) (ls : list label) : nat := length (filter (eq (LRun t)) ls).

Lemma schedule_ok ts s held : inv s held -> exists s' held', schedule s ts = Ok s' /\ inv s' held' /\
  length (threads s') = length (threads s) /\
  forall t x, threads s !! t = Some x -> exists x', threads s' !! t = Some x' /\ (rank x' <= rank x - turns t ts)%nat.
Proof.
  revert s held. induction ts as [|u ts IH]; intros s held Hi; cbn [schedule].
  { exists s, held. split; [done|]. split; [done|]. split; [done|]. intros t x Hx. exists x. split; [done|]. unfold turns. cbn. lia. }
  assert (exists s1 held1, (match threads s !! u with Some x => run s u x | None => Ok s end) = Ok s1 /\ inv s1 held1 /\
    length (threads s1) = length (threads s) /\
    forall t x, threads s !! t = Some x -> exists x', threads s1 !! t = Some x' /\ (rank x' <= rank x - turns t [u])%nat) as (s1 & held1 & H1 & Hi1 & Hl1 & Hr1).
  { destruct (threads s !! u) as [y|] eqn:Hy; [destruct (decide (y = Idle)) as [->|Hne]|].
    - exists s, held. split; [done|]. split; [done|]. split; [done|]. intros t x Hx. exists x. split; [done|].
      unfold turns. rewrite filter_cons, filter_nil. case_decide as Ht; [|cbn [length]; lia]. subst u. rewrite Hy in Hx. injection Hx as <-. cbn. lia.
    - destruct (run_ok s held Hi u y Hy Hne) as (s1 & z & held1 & Hr & Hi1 & _ & Ht & Hk). exists s1, held1. split; [done|]. split; [done|].
      rewrite Ht, length_insert. split; [done|]. intros t x Hx. unfold turns. rewrite filter_cons, filter_nil. case_decide as Htu.
      + subst u. rewrite Hy in Hx. injection Hx as ->. exists z. rewrite list_lookup_insert_eq by (by eapply lookup_lt_Some). split; [done|]. cbn [length]. lia.
      + exists x. rewrite list_lookup_insert_ne by done. split; [done|]. cbn [length]. lia.
    - exists s, held. split; [done|]. split; [done|]. split; [done|]. intros t x Hx. exists x. split; [done|].
      unfold turns. rewrite filter_cons, filter_nil. case_decide as Ht; [congruence|cbn [length]; lia]. }
  destruct (IH s1 held1 Hi1) as (s2 & held2 & H2 & Hi2 & Hl2 & Hr2). exists s2, held2. split.
  { destruct (threads s !! u); [by rewrite H1, bind_ok_l|]. by injection H1 as ->. }
  split; [done|]. split; [lia|]. intros t x Hx. destruct (Hr1 t x Hx) as (x1 & Hx1 & Hk1). destruct (Hr2 t x1 Hx1) as (x2 & Hx2 & Hk2).
  exists x2. split; [done|]. unfold turns in *. rewrite filter_cons, filter_nil in *. destruct (decide (t = u)); cbn [length] in *; lia.
Qed.

Lemma rank_idle x : rank x = 0%nat -> x = Idle.
Proof. by destruct x. Qed.

Lemma rank_le x : (rank x <= 4)%nat.
Proof. destruct x; cbn; lia. Qed.

(** Only its own steps change where a busy thread is. *)
Lemma step_busy s held l s' t x : inv s held -> step s l (Ok s') -> threads s !! t = Some x -> x <> Idle ->
  exists x', threads s' !! t = Some x' /\ if decide (l = LRun t) then (rank x' < rank x)%nat else x' = x.
Proof.
  intros Hi Hst Hx Hne. remember (Ok s') as r eqn:Er. destruct Hst as [s u h p Hu|s u h h' p Hu|s u h Hu|s u h t' Hu|s u y Hu Hneu].
  1, 2, 3: injection Er as <-; exists x; rewrite decide_False by done; cbn; rewrite list_lookup_insert_ne by congruence; done.
  - injection Er as <-. exists x. by rewrite decide_False by done.
  - destruct (run_ok s held Hi u y Hu Hneu) as (s1 & z & held1 & Hr & _ & _ & Ht & Hk). rewrite Hr in Er. injection Er as ->. rewrite Ht.
    destruct (decide (u = t)) as [->|Hut].
    + rewrite Hu in Hx. injection Hx as ->. exists z. rewrite list_lookup_insert_eq, decide_True by (done || by eapply lookup_lt_Some). done.
    + exists x. rewrite list_lookup_insert_ne, decide_False by (done || congruence). done.
Qed.

Lemma steps_turns s held ls s' t : inv s held -> steps s ls s' -> is_Some (threads s !! t) ->
  (exists l1 l2 s1, ls = l1 ++ l2 /\ steps s l1 s1 /\ threads s1 !! t = Some Idle) \/
  (exists x' held', inv s' held' /\ threads s' !! t = Some x' /\ x' <> Idle /\ (rank x' + run_turns t ls <= 4)%nat).
Proof.
  intros Hi Hs [x Hx]. destruct (decide (x = Idle)) as [->|Hne]; [left; exists [], ls, s; split; [done|]; split; [constructor|done]|].
  induction Hs as [s|s ls s1 l s2 Hs IH Hl].
  - right. exists x, held. split; [done|]. split; [done|]. split; [done|]. unfold run_turns. cbn. pose proof (rank_le x). lia.
  - destruct (IH Hi Hx) as [(l1 & l2 & s3 & -> & H1 & H2)|(x' & held' & Hi' & Hx' & Hne' & Hk)].
    { left. exists l1, (l2 ++ [l]), s3. by rewrite app_assoc. }
    destruct (step_busy _ _ _ _ _ _ Hi' Hl Hx' Hne') as (x2 & Hx2 & Hk2).
    destruct (rc_step_inv _ _ _ _ Hi' Hl) as (s4 & held2 & [= <-] & Hi2).
    destruct (decide (x2 = Idle)) as [->|Hne2].
    { left. exists (ls ++ [l]), [], s2. rewrite app_nil_r. split; [done|]. split; [by econstructor|done]. }
    right. exists x2, held2. split; [done|]. split; [done|]. split; [done|]. unfold run_turns in *.
    rewrite filter_app, filter_cons, filter_nil, length_app. destruct (decide (LRun t = l)) as [E|E].
    + rewrite decide_True in Hk2 by done. cbn [length]. lia.
    + rewrite decide_False in Hk2 by congruence. subst x2. cbn [length]. lia.
Qed.

Lemma run_length s t x s' : run s t x = Ok s' -> length (threads s') = length (threads s).
Proof.
  destruct x as [|h [p|] src|h p|h p o|h p]; cbn [run]; intros E.
  - by injection E as <-.
  - destruct (objs s !! p); [|done]. injection E as <-. cbn. by rewrite length_insert.
  - injection E as <-. cbn. by rewrite length_insert.
  - destruct (privs s !! h) as [[o|]|]; [| |done].
    + destruct (objs s !! o) as [v|]; [|done]. destruct (rcDec v) as [[v' last]|]; [|done]. rewrite bind_ok_l in E. injection E as <-. cbn. by rewrite length_insert.
    + injection E as <-. cbn. by rewrite length_insert.
  - destruct (objs s !! o) as [v|]; [|done]. destruct (destroy v); [|done]. rewrite bind_ok_l in E. injection E as <-. cbn. by rewrite length_insert.
  - injection E as <-. cbn. by rewrite length_insert.
Qed.

Lemma step_length s l s' : step s l (Ok s') -> length (threads s') = length (threads s).
Proof.
  intros Hst. remember (Ok s') as r eqn:E. destruct Hst as [s t h p Ht|s t h h' p Ht|s t h Ht|s t h t' Ht|s t x Ht Hne].
  1, 2, 3, 4: injection E as <-; cbn; by rewrite ?length_insert.
  by eapply run_length.
Qed.

(** * The properties *)

Section system.
Context (own : list tid) (n : nat) (Hn : zlen own + Z.of_nat n < 2 ^ 31 - 1).

(** C23: safety of reference counting.  However the threads interleave, no step uses a
    deleted object, deletes one twice or fails an assert on the counter; the object a
    handle points to is alive unless its owner is just replacing the pointer; and when no
    operation is under way, the objects that are alive are those that a handle points to,
    and [rc()] of each is the number of these handles. *)
Theorem refcount_safe ls s : steps (init own n) ls s ->
  (forall l r, step s l r -> exists s', r = Ok s') /\
  (forall h p, privs s !! h = Some (Some p) ->
     (forall t x, owner s !! h = Some t -> threads s !! t = Some x -> ~ released h x) -> is_Some (objs s !! p)) /\
  (quiet s -> forall p, match objs s !! p with
     | Some v => rc v = zsum (one p) (privs s) /\ 0 < rc v
     | None => zsum (one p) (privs s) = 0
     end).
Proof using Hn.
  intros Hs. destruct (rc_steps_inv own n ls s Hn Hs) as [held Hi]. split; [|split].
  - intros l r Hl. destruct (rc_step_inv _ _ _ _ Hi Hl) as (s' & _ & Hr & _). by exists s'.
  - intros h p Hp Hrel. destruct (inv_held _ _ Hi h) as [E|(t & x & Ho & Hx & Hr)]; [|by destruct (Hrel t x Ho Hx)].
    rewrite <- E in Hp. destruct (counted_alive s held Hi h p Hp) as (v & -> & _). by exists v.
  - intros Hq p. destruct (quiet_count s held p Hi Hq) as [Hc Hz]. destruct (objs s !! p) as [v|] eqn:Hv; cbn in Hc; [|lia].
    pose proof (zsum_nonneg (one p) (privs s) (fun q => proj1 (one_bounds p q))). unfold rc. rewrite Z.shiftr_div_pow2 by lia.
    change (2 ^ 1) with 2. rewrite Hc, Z.mul_comm, Z.div_mul by lia. split; [done|].
    assert (zsum (one p) (privs s) <> 0) by (intros E; apply Hz; f_equal; lia). lia.
Qed.

(** C25: liveness of reference counting.  No thread ever waits for another: whatever the
    others do, an operation of a thread ends within four of its own steps, and a thread
    that is in an operation can always take its next step.  So every schedule that lets
    each thread run four times ends all operations, and then exactly the objects that a
    handle points to are left. *)
Theorem refcount_live ls s : steps (init own n) ls s ->
  (forall t x, threads s !! t = Some x -> x <> Idle -> exists s', step s (LRun t) (Ok s')) /\
  (forall ls' s' t, (t < n)%nat -> steps s ls' s' -> (4 <= run_turns t ls')%nat ->
     exists l1 l2 s1, ls' = l1 ++ l2 /\ steps s l1 s1 /\ threads s1 !! t = Some Idle) /\
  (forall ts, (forall t, (t < n)%nat -> (4 <= turns t ts)%nat) ->
     exists s', schedule s ts = Ok s' /\ quiet s' /\
       forall p, is_Some (objs s' !! p) <-> exists h, privs s' !! h = Some (Some p)).
Proof using Hn.
  intros Hs. destruct (rc_steps_inv own n ls s Hn Hs) as [held Hi].
  assert (length (threads s) = n) as Hlen.
  { clear -Hs. remember (init own n) as s0 eqn:E. induction Hs as [|s0 ls s1 l s2 _ IH Hl]; subst; [apply length_replicate|].
    rewrite <- (IH eq_refl). by eapply step_length. }
  split; [|split].
  - intros t x Hx Hne. destruct (run_ok s held Hi t x Hx Hne) as (s' & _ & _ & Hr & _). exists s'. rewrite <- Hr. by constructor.
  - intros ls' s' t Ht Hs' Hk. destruct (steps_turns s held ls' s' t Hi Hs') as [?|(x & _ & _ & _ & Hne & Hr)]; [apply lookup_lt_is_Some; lia|done|].
    destruct x; cbn in Hr; (done || lia).
  - intros ts Hts. destruct (schedule_ok ts s held Hi) as (s' & held' & Hsch & Hi' & Hl & Hr). exists s'. split; [done|].
    assert (quiet s') as Hq.
    { apply Forall_lookup. intros t x' Hx'. assert (t < n)%nat as Ht by (rewrite <- Hlen, <- Hl; by eapply lookup_lt_Some).
      destruct (lookup_lt_is_Some_2 (threads s) t) as [x Hx]; [lia|]. destruct (Hr t x Hx) as (x2 & Hx2 & Hk). rewrite Hx' in Hx2. injection Hx2 as <-.
      apply rank_idle. specialize (Hts t Ht). pose proof (rank_le x). lia. }
    split; [done|]. intros p. destruct (quiet_count s' held' p Hi' Hq) as [Hc Hz]. split.
    + intros [v Hv]. rewrite Hv in Hc, Hz. cbn in Hc.
      destruct (decide (Exists (fun q => q = Some p) (privs s'))) as [Hex|Hno].
      * apply Exists_exists in Hex as (q & [h Hh]%list_elem_of_lookup & ->). by exists h.
      * exfalso. apply Hz. f_equal. assert (zsum (one p) (privs s') = 0) as E; [|lia].
        apply not_Exists_Forall in Hno; [|intros q; apply _]. clear -Hno. induction Hno as [|q l Hq _ IH]; [done|].
        unfold zsum in *. cbn [foldr]. rewrite IH. unfold one. by rewrite decide_False.
    + intros [h Hh]. pose proof (zsum_elem (one p) (privs s') h _ (fun q => proj1 (one_bounds p q)) Hh) as H1. rewrite one_same in H1.
      destruct (objs s' !! p) as [v|]; [by eexists|]. cbn in Hc. lia.
Qed.
End system.

(** Three handles of two threads: the first makes an object and copies it. *)
Definition example : state := init [0%nat; 0%nat; 1%nat] 2.
Definition example1 : state := set_thread (set_objs example (<[7%nat := rc_new]> (objs example))) 0%nat (Reset 0%nat (Some 7%nat) None).
Definition example2 : state := match run example1 0%nat (Reset 0%nat (Some 7%nat) None) with Ok s => s | Err _ => example end.

Lemma example_steps : steps example [LNew 0%nat 0%nat 7%nat; LRun 0%nat] example2.
Proof.
  apply (steps_snoc _ [LNew 0%nat 0%nat 7%nat] example1).
  - apply (steps_snoc _ [] example); [constructor|]. by constructor.
  - exact (step_run example1 0%nat (Reset 0%nat (Some 7%nat) None) eq_refl ltac:(discriminate)).
Qed.

Lemma refcount_safe_witness : steps example [LNew 0%nat 0%nat 7%nat; LRun 0%nat] example2 /\
  exists s', run example2 0%nat (Dec 0%nat (Some 7%nat)) = Ok s'.
Proof.
  split; [exact example_steps|].
  destruct (refcount_safe [0%nat; 0%nat; 1%nat] 2 ltac:(reflexivity) _ _ example_steps) as (H & _).
  apply (H (LRun 0%nat)). apply (step_run example2 0%nat (Dec 0%nat (Some 7%nat))); [reflexivity|discriminate].
Defined.

Lemma refcount_live_witness : exists s', schedule example2 [0%nat; 1%nat; 0%nat; 1%nat; 1%nat; 0%nat; 0%nat; 1%nat] = Ok s' /\ quiet s' /\
  is_Some (objs s' !! 7%nat).
Proof.
  destruct (refcount_live [0%nat; 0%nat; 1%nat] 2 ltac:(reflexivity) _ _ example_steps) as (_ & _ & H).
  destruct (H [0%nat; 1%nat; 0%nat; 1%nat; 1%nat; 0%nat; 0%nat; 1%nat]) as (s' & Hs & Hq & Ho).
  - intros [|[|t]] Ht; [vm_compute; lia|vm_compute; lia|lia].
  - exists s'. split; [exact Hs|]. split; [exact Hq|]. apply Ho. exists 0%nat. vm_compute in Hs. injection Hs as <-. reflexivity.
Defined.

(** Switching counting off and on again gives the counter back. *)
Lemma disable_enable v : 2 <= v < 2 ^ 32 - 2 -> v mod 2 = 0 -> exists b,
  base_disableRC (mkBase (Some v) true) = Ok b /\ b_enabled b = false /\ (exists w, b_priv b = Some w /\ enabledRC w = false /\ rc w = rc v - 1) /\
  base_enableRC b = mkBase (Some v) true.
Proof.
  intros Hv Hm. unfold base_disableRC. cbn [b_priv b_enabled]. unfold disableRC.
  assert (v ||| 1 = v + 1) as ->.
  { symmetry. apply Z.add_nocarry_lor. change 1 with (Z.ones 1). rewrite Z.land_ones by lia. exact Hm. }
  unfold rcDecWithoutDelete. rewrite rc_pos by lia. rewrite bind_ok_l, wrap_small by (unfold fits; lia).
  eexists. split; [done|]. cbn [b_enabled b_priv]. split; [done|]. pose proof (Z.div_mod v 2 ltac:(lia)). split.
  - exists (v + 1 - 2). split; [done|]. unfold enabledRC, rc. change 1 with (Z.ones 1) at 2. rewrite Z.land_ones, !Z.shiftr_div_pow2 by lia.
    change (2 ^ 1) with 2. assert ((v + 1 - 2) mod 2 = 1) as ->.
    { replace (v + 1 - 2) with (1 + (v / 2 - 1) * 2) by lia. by rewrite Z.mod_add. }
    split; [done|]. replace (v + 1 - 2) with (1 + (v / 2 - 1) * 2) by lia. rewrite Z.div_add by lia. change (1 / 2) with 0. lia.
  - unfold base_enableRC. cbn [b_priv b_enabled]. do 2 f_equal. unfold enableRC, rcInc. rewrite wrap_small by (unfold fits; lia).
    change (max_u32 - 1) with (Z.ldiff (Z.ones 32) (Z.ones 1)).
    replace ((v + 1 - 2 + 2) &&& Z.ldiff (Z.ones 32) (Z.ones 1)) with (Z.ldiff ((v + 1) &&& Z.ones 32) (Z.ones 1)).
    + rewrite Z.land_ones, Z.ldiff_ones_r by lia. rewrite Z.mod_small by lia. rewrite Z.shiftr_div_pow2, Z.shiftl_mul_pow2 by lia. change (2 ^ 1) with 2.
      replace (v + 1) with (1 + v / 2 * 2) by lia. rewrite Z.div_add by lia. change (1 / 2) with 0. lia.
    + replace (v + 1 - 2 + 2) with (v + 1) by lia. apply Z.bits_inj'. intros i Hi. rewrite Z.ldiff_spec, !Z.land_spec, Z.ldiff_spec. by rewrite andb_assoc.
Qed.
