(* ===== verification/RWLock.v ===== *)
(** The reader-writer lock: [include/sserialize/mt/MultiReaderSingleWriterLock.h] and
    [src/mt/MultiReaderSingleWriterLock.cpp].

    The lock is a [std::shared_mutex]; [ReadLock] and [WriteLock] are guards that remember
    whether they hold it, so that locking and unlocking twice is harmless.  The mutex is
    modelled by what the standard says of it: a shared lock excludes an exclusive one,
    releasing what is not held is undefined. *)

From S2P Require Import Prelude.

(** * The mutex *)

Record shared_mutex := mkMutex { mx_shared : Z; mx_exclusive : bool }.

(** [None]: the call blocks. *)
Definition lock_shared (m : shared_mutex) : option shared_mutex :=
  if mx_exclusive m then None else Some (mkMutex (mx_shared m + 1) false).
Definition unlock_shared (m : shared_mutex) : result shared_mutex :=
  if 0 <? mx_shared m then Ok (mkMutex (mx_shared m - 1) (mx_exclusive m)) else Err UndefinedBehaviour.
Definition lock_exclusive (m : shared_mutex) : option shared_mutex :=
  if mx_exclusive m || (0 <? mx_shared m) then None else Some (mkMutex (mx_shared m) true).
Definition unlock_exclusive (m : shared_mutex) : result shared_mutex :=
  if mx_exclusive m then Ok (mkMutex (mx_shared m) false) else Err UndefinedBehaviour.

(** * [MultiReaderSingleWriterLock] *)

Definition acquireReadLock := lock_shared.
Definition releaseReadLock := unlock_shared.
Definition acquireWriteLock := lock_exclusive.
Definition releaseWriteLock := unlock_exclusive.

(** * The guards *)

Inductive kind := Read | Write.
Record guard := mkGuard { g_kind : kind; m_locked : bool }.

Definition acquire (k : kind) (m : shared_mutex) : option shared_mutex :=
  match k with Read => acquireReadLock m | Write => acquireWriteLock m end.
Definition release (k : kind) (m : shared_mutex) : result shared_mutex :=
  match k with Read => releaseReadLock m | Write => releaseWriteLock m end.

(** [lock()] of a guard, [None] while it blocks, and [unlock()], which the destructor calls. *)
Definition guard_lock (m : shared_mutex) (g : guard) : option (shared_mutex * guard) :=
  if m_locked g then Some (m, g)
  else match acquire (g_kind g) m with Some m => Some (m, mkGuard (g_kind g) true) | None => None end.
Definition guard_unlock (m : shared_mutex) (g : guard) : result (shared_mutex * guard) :=
  if m_locked g then m ← release (g_kind g) m; mret (m, mkGuard (g_kind g) false) else Ok (m, g).

(** * Interleavings *)

Record state := mkState { mutex : shared_mutex; guards : list guard }.

(** The threads lock and unlock the guards in any order; a new guard is constructed by
    locking it, a destroyed one stays in the list unlocked. *)
Inductive step : state -> result state -> Prop :=
  | step_new s k m g : guard_lock (mutex s) (mkGuard k false) = Some (m, g) -> step s (Ok (mkState m (guards s ++ [g])))
  | step_lock s i g m g' : guards s !! i = Some g -> guard_lock (mutex s) g = Some (m, g') ->
      step s (Ok (mkState m (<[i := g']> (guards s))))
  | step_unlock s i g : guards s !! i = Some g ->
      step s (match guard_unlock (mutex s) g with Ok (m, g') => Ok (mkState m (<[i := g']> (guards s))) | Err e => Err e end).

Inductive reachable : state -> Prop :=
  | reach_init : reachable (mkState (mkMutex 0 false) [])
  | reach_step s s' : reachable s -> step s (Ok s') -> reachable s'.

(** * The invariant *)

Definition holds (k : kind) (g : guard) : Prop := g_kind g = k /\ m_locked g = true.
#[export] Instance kind_eq_dec : EqDecision kind.
Proof. solve_decision. Defined.
#[export] Instance holds_dec k g : Decision (holds k g).
Proof. unfold holds. apply _. Defined.

Definition held (k : kind) (gs : list guard) : Z := zlen (filter (holds k) gs).
Definition unit_of (k : kind) (g : guard) : Z := if decide (holds k g) then 1 else 0.

Lemma held_app k a b : held k (a ++ b) = held k a + held k b.
Proof. unfold held. rewrite filter_app, length_app. lia. Qed.

Lemma held_one k g : held k [g] = unit_of k g.
Proof. unfold held, unit_of. rewrite filter_cons, filter_nil. by case_decide. Qed.

Lemma held_nonneg k gs : 0 <= held k gs.
Proof. unfold held. lia. Qed.

Lemma held_middle k a g b : held k (a ++ g :: b) = held k a + unit_of k g + held k b.
Proof. change (g :: b) with ([g] ++ b). rewrite !held_app, held_one. lia. Qed.

Lemma held_insert k gs i g g' : gs !! i = Some g -> held k (<[i := g']> gs) = held k gs - unit_of k g + unit_of k g'.
Proof.
  intros Hg. pose proof (lookup_lt_Some _ _ _ Hg). rewrite <- (take_drop_middle gs i g Hg) at 2. rewrite insert_take_drop by done.
  rewrite !held_middle. lia.
Qed.

Lemma held_has k gs i g : gs !! i = Some g -> holds k g -> 1 <= held k gs.
Proof.
  intros Hg Hk. rewrite <- (take_drop_middle gs i g Hg), held_middle. unfold unit_of. rewrite decide_True by done.
  pose proof (held_nonneg k (take i gs)). pose proof (held_nonneg k (drop (Datatypes.S i) gs)). lia.
Qed.

(** The mutex counts the guards that hold it, and a writer is alone. *)
Record inv (s : state) : Prop := {
  inv_shared : mx_shared (mutex s) = held Read (guards s);
  inv_exclusive : (if mx_exclusive (mutex s) then 1 else 0) = held Write (guards s);
  inv_alone : mx_exclusive (mutex s) = true -> mx_shared (mutex s) = 0;
}.

Lemma unit_free k g : m_locked g = false -> unit_of k g = 0.
Proof. intros Hg. unfold unit_of. case_decide as Hh; [|done]. destruct Hh. congruence. Qed.

Lemma unit_locked k g : m_locked g = true -> unit_of k g = if decide (g_kind g = k) then 1 else 0.
Proof. intros Hg. unfold unit_of. case_decide as H1; case_decide as H2; unfold holds in *; naive_solver. Qed.

(** Acquiring and releasing change the mutex by the guard's share. *)
Definition counts (s : state) (m : shared_mutex) (r w : Z) : Prop :=
  mx_shared m = held Read (guards s) + r /\ (if mx_exclusive m then 1 else 0) = held Write (guards s) + w /\
  (mx_exclusive m = true -> mx_shared m = 0).

Lemma acquire_ok k s m : inv s -> acquire k (mutex s) = Some m ->
  counts s m (if decide (k = Read) then 1 else 0) (if decide (k = Write) then 1 else 0).
Proof.
  intros [Hr Hw Ha]. pose proof (held_nonneg Read (guards s)). unfold counts. destruct (mutex s) as [r w]. cbn in *.
  destruct k; cbn [acquire]; unfold acquireReadLock, lock_shared, acquireWriteLock, lock_exclusive; cbn [mx_exclusive mx_shared];
    destruct w; cbn [orb]; try done; [|destruct (Z.ltb_spec 0 r); [done|]]; intros [= <-]; cbn [mx_shared mx_exclusive];
    repeat case_decide; try congruence; (split; [|split]); intros; try done; lia.
Qed.

Lemma release_ok s i g : inv s -> guards s !! i = Some g -> m_locked g = true ->
  exists m, release (g_kind g) (mutex s) = Ok m /\ counts s m (- unit_of Read g) (- unit_of Write g).
Proof.
  intros [Hr Hw Ha] Hg Hl. pose proof (held_nonneg Read (guards s)). pose proof (held_has (g_kind g) _ _ _ Hg (conj eq_refl Hl)).
  rewrite !(unit_locked _ g Hl). unfold counts. destruct (mutex s) as [r w], (g_kind g); cbn in *; repeat case_decide; try congruence.
  - unfold releaseReadLock, unlock_shared. cbn. destruct (Z.ltb_spec 0 r); [|lia]. eexists. split; [done|]. cbn. destruct w; [specialize (Ha eq_refl); lia|].
    split; [lia|]. split; [lia|done].
  - unfold releaseWriteLock, unlock_exclusive. cbn. destruct w; [|lia]. eexists. split; [done|]. cbn. split; [lia|]. split; [lia|done].
Qed.

(** A guard that changes from [g] to [g'] while the mutex changes by the difference. *)
Lemma inv_update s m i g g' : guards s !! i = Some g ->
  counts s m (unit_of Read g' - unit_of Read g) (unit_of Write g' - unit_of Write g) -> inv (mkState m (<[i := g']> (guards s))).
Proof. intros Hg (Hr & Hw & Ha). split; cbn [mutex guards]; [| |done]; rewrite (held_insert _ _ _ _ g' Hg); lia. Qed.

Lemma inv_same s i g : inv s -> guards s !! i = Some g -> inv (mkState (mutex s) (<[i := g]> (guards s))).
Proof. intros [] Hg. apply (inv_update s _ _ g); [done|]. split; [lia|]. split; [lia|done]. Qed.

Lemma lock_step_inv s r : inv s -> step s r -> exists s', r = Ok s' /\ inv s'.
Proof.
  intros Hi Hs. revert Hi. destruct Hs as [s' k m g Hn | s' i g m g' Hg Hl | s' i g Hg]; intros Hi.
  - unfold guard_lock in Hn. cbn in Hn. destruct (acquire k (mutex s')) as [m'|] eqn:Ha; [|done]. injection Hn as <- <-. eexists. split; [done|].
    destruct (acquire_ok _ _ _ Hi Ha) as (Hr & Hw & Hx).
    split; cbn [mutex guards]; [| |done]; rewrite held_app, held_one, unit_locked by done; cbn [g_kind]; lia.
  - unfold guard_lock in Hl. destruct (m_locked g) eqn:Hlk.
    + injection Hl as <- <-. eexists. split; [done|]. by apply inv_same.
    + destruct (acquire (g_kind g) (mutex s')) as [m'|] eqn:Ha; [|done]. injection Hl as <- <-. eexists. split; [done|].
      apply (inv_update s' _ _ g); [done|]. rewrite !(unit_free _ g Hlk), !unit_locked by done. cbn [g_kind]. rewrite !Z.sub_0_r.
      by apply acquire_ok.
  - unfold guard_unlock. destruct (m_locked g) eqn:Hlk; [|eexists; split; [done|]; by apply inv_same].
    destruct (release_ok _ _ _ Hi Hg Hlk) as (m & Hm & Hc). rewrite Hm, bind_ok_l. eexists. split; [done|].
    apply (inv_update s' _ _ g); [done|]. by rewrite !(unit_free _ (mkGuard _ false)) by done.
Qed.

Lemma reachable_inv s : reachable s -> inv s.
Proof.
  induction 1 as [|s s' _ IH Hs]; [by split|]. destruct (lock_step_inv _ _ IH Hs) as (? & [= <-] & ?). done.
Qed.

(** Two different guards that hold the lock are counted twice. *)
Lemma held_two k gs i j g g' : i <> j -> gs !! i = Some g -> gs !! j = Some g' -> holds k g -> holds k g' -> 2 <= held k gs.
Proof.
  intros Hij Hg Hg' Hk Hk'. pose (f := mkGuard k false).
  assert (Hj : <[i := f]> gs !! j = Some g') by by rewrite list_lookup_insert_ne.
  pose proof (held_has _ _ _ _ Hj Hk') as H. rewrite (held_insert _ _ _ _ f Hg), (unit_free k f) in H by done.
  rewrite unit_locked in H by apply Hk. rewrite decide_True in H by apply Hk. lia.
Qed.

Lemma held_none k gs : (forall i g, gs !! i = Some g -> m_locked g = false) -> held k gs = 0.
Proof.
  induction gs as [|g gs IH]; intros Hf; [done|]. change (g :: gs) with ([g] ++ gs). rewrite held_app, held_one, IH.
  - rewrite unit_free; [done|]. by apply (Hf 0%nat).
  - intros i h Hh. by apply (Hf (Datatypes.S i)).
Qed.

(** * Properties *)

(** C26: the lock excludes.  However the threads interleave, a guard that holds the lock
    for writing is the only guard that holds it, and no step releases a mutex that is not
    held: locking and unlocking a guard twice is harmless. *)
Theorem rwlock_excludes s i j g g' r :
  reachable s ->
  (guards s !! i = Some g -> guards s !! j = Some g' -> holds Write g -> m_locked g' = true -> i = j) /\
  (step s r -> exists s', r = Ok s').
Proof.
  intros Hs%reachable_inv. split.
  - intros Hg Hg' Hk Hl. destruct (decide (i = j)) as [|Hij]; [done|]. exfalso. destruct Hs as [Hr Hw Ha].
    pose proof (held_has _ _ _ _ Hg Hk). assert (Hx : mx_exclusive (mutex s) = true) by (destruct (mx_exclusive _); [done|lia]).
    rewrite Hx in Hw. specialize (Ha Hx). destruct (g_kind g') eqn:Hkind.
    + pose proof (held_has Read _ _ _ Hg' (conj Hkind Hl)). lia.
    + pose proof (held_two Write _ _ _ _ _ Hij Hg Hg' Hk (conj Hkind Hl)). lia.
  - intros Hr. destruct (lock_step_inv _ _ Hs Hr) as (s' & -> & _). by exists s'.
Qed.

(** A reader came and went, a writer holds the lock. *)
Definition example : state := mkState (mkMutex 0 true) [mkGuard Read false; mkGuard Write true].
Lemma example_reachable : reachable example.
Proof.
  eapply (reach_step (mkState (mkMutex 0 false) [mkGuard Read false])).
  - eapply (reach_step (mkState (mkMutex 1 false) [mkGuard Read true])).
    + apply (reach_step _ _ reach_init). by apply (step_new (mkState (mkMutex 0 false) []) Read _ (mkGuard Read true)).
    + apply (step_unlock (mkState (mkMutex 1 false) [mkGuard Read true]) 0 (mkGuard Read true)). reflexivity.
  - by apply (step_new (mkState (mkMutex 0 false) [mkGuard Read false]) Write _ (mkGuard Write true)).
Qed.

Lemma rwlock_excludes_witness :
  1%nat = 1%nat /\ exists s', step example (Ok s') /\ mutex s' = mkMutex 0 false.
Proof.
  split.
  - exact (proj1 (rwlock_excludes example 1 1 (mkGuard Write true) (mkGuard Write true) (Ok example) example_reachable)
      eq_refl eq_refl (conj eq_refl eq_refl) eq_refl).
  - pose (s' := mkState (mkMutex 0 false) [mkGuard Read false; mkGuard Write false]).
    assert (Hs : step example (Ok s')) by by apply (step_unlock example 1 (mkGuard Write true)).
    destruct (proj2 (rwlock_excludes example 1 1 (mkGuard Write true) (mkGuard Write true) (Ok s') example_reachable) Hs) as (s & Heq).
    exists s'. by split.
Defined.

(** The mutex is free of [k] exactly when no guard conflicts. *)
Lemma held_zero k gs : held k gs = 0 -> forall i g, gs !! i = Some g -> ~ holds k g.
Proof. intros H0 i g Hg Hk. pose proof (held_has _ _ _ _ Hg Hk). lia. Qed.

Lemma held_pos k gs : 0 < held k gs -> exists i g, gs !! i = Some g /\ holds k g.
Proof.
  induction gs as [|g gs IH]; [done|]. change (g :: gs) with ([g] ++ gs). rewrite held_app, held_one. unfold unit_of.
  case_decide as Hk; intros H; [by exists 0%nat, g|]. destruct IH as (i & h & Hi & Hh); [lia|]. by exists (Datatypes.S i), h.
Qed.

(** Waiting ends exactly when the conflict does.  An unlocked guard blocks if and only
    if some guard holds the lock for writing, or it wants to write and some guard reads; a
    waiting writer blocks nobody, so readers go ahead of it (the header calls the lock
    reader preferred, and names the starvation of writers). *)
Theorem rwlock_blocks_iff s i g :
  reachable s -> guards s !! i = Some g -> m_locked g = false ->
  (guard_lock (mutex s) g = None <->
   exists j h, guards s !! j = Some h /\ m_locked h = true /\ (g_kind h = Write \/ g_kind g = Write)).
Proof.
  intros [Hr Hw Ha]%reachable_inv Hg Hl. unfold guard_lock. rewrite Hl. pose proof (held_nonneg Read (guards s)) as Hn. split.
  - intros Hb. assert (Hc : 0 < held Write (guards s) \/ g_kind g = Write /\ 0 < held Read (guards s)).
    { destruct (mutex s) as [r w], (g_kind g); cbn in *; unfold acquireReadLock, lock_shared, acquireWriteLock, lock_exclusive in Hb; cbn in Hb;
        destruct w; try done; try (left; lia). destruct (Z.ltb_spec 0 r); [|done]. right. split; [done|lia]. }
    destruct Hc as [Hc|[Hk Hc]]; destruct (held_pos _ _ Hc) as (j & h & Hj & [? ?]); exists j, h; naive_solver.
  - intros (j & h & Hj & Hh & Hk). assert (Hc : 1 <= held (g_kind h) (guards s)) by by apply (held_has _ _ _ _ Hj).
    destruct (mutex s) as [r w], (g_kind h), (g_kind g); cbn in *; unfold acquireReadLock, lock_shared, acquireWriteLock, lock_exclusive; cbn;
      destruct w; try done; try lia; try naive_solver. destruct (Z.ltb_spec 0 r); [done|lia].
Qed.

(** The writer holds the lock, the reader that left waits. *)
Lemma rwlock_blocks_iff_witness :
  guards example !! 0%nat = Some (mkGuard Read false) /\ guard_lock (mutex example) (mkGuard Read false) = None.
Proof.
  split; [done|]. apply (rwlock_blocks_iff example 0 (mkGuard Read false) example_reachable eq_refl eq_refl).
  exists 1%nat, (mkGuard Write true). split; [done|]. split; [done|]. by left.
Defined.
