(* ===== verification/ItemIndexFactory.v ===== *)
(** Creating item indexes: the static functions [create] and [range] of
    [include/sserialize/containers/ItemIndexFactory.h] and
    [src/containers/ItemIndexFactory.cpp].

    [create] writes the ids in the format of the type at the put position of an adapter;
    or it writes them to a cache of its own and opens the result.  The bytes of each type
    can be opened on any storage they are copied to: [image] says so. *)

From S2P Require Import Prelude UtilMath PackUnpack Storage ByteArray ByteStream Bits CompactUintArray BitSets SetFuncs IndexOps ItemIndexDE ItemIndexRleDE ItemIndexNative ItemIndex.

(** The types that have a serialized form and are modelled. *)
Definition create_into {S : Type} `{Backend S} (s : S) (idx : list Z) (dest : uba) (type : index_type) : result (S * uba * bool) :=
  match type with
  | T_NATIVE => '(s, dest) ← na_create s dest idx; mret (s, dest, true)
  | T_DE => '(s, dest) ← de_create s dest idx; mret (s, dest, true)
  | T_RLE_DE => '(s, dest) ← rd_create s dest idx; mret (s, dest, true)
  | T_STL_VECTOR | T_EMPTY => Ok (s, dest, false)
  end.

Definition create (idx : list Z) (type : index_type) : result index :=
  match type with
  | T_EMPTY => Ok None
  | T_STL_VECTOR => Ok (Some (PStlVector idx))
  | T_DE | T_RLE_DE | T_NATIVE =>
      let '(s, tmp) := createCache 1 in
      '(s, tmp, ok) ← create_into s idx tmp type;
      if ok : bool then createPrivate s (resetPtrs tmp) type else Err CreationException
  end.

(** [RangeGenerator(begin, end, step)] as a container. *)
Fixpoint range_from (n : nat) (begin step : Z) : list Z :=
  match n with O => [] | Datatypes.S n => begin :: range_from n (u32 (begin + step)) step end.
Definition range (begin fin step : Z) (type : index_type) : result index :=
  throw_if (negb (u32 (fin - begin) mod step =? 0)) AssertionFailed;;
  create (range_from (Z.to_nat (u32 (fin - begin) / step)) begin step) type.

(** * Correctness *)

(** The bytes [img] are an index of [src] wherever they are. *)
Definition image (type : index_type) (src img : list Z) : Prop :=
  forall (T : Type) (BT : Backend T) (BTO : BackendOk T) (t : T) data rest, buf t data (img ++ rest) ->
    exists i, createPrivate t data type = Ok i /\ ii_rep i src.

(** What can be written in every format. *)
Definition storable (src : list Z) : Prop := sorted src /\ ids31 src /\ zlen src < 2 ^ 28.

Lemma storable_ids src : storable src -> ids_ok src.
Proof. intros (_ & H & _). eapply Forall_impl; [exact H|]. intros z Hz. unfold fits. cbv beta in Hz. lia. Qed.

Definition on_disk (type : index_type) : Prop := type = T_DE \/ type = T_RLE_DE \/ type = T_NATIVE.

Lemma create_into_ok {S : Type} {B : Backend S} {BO : BackendOk S} (s : S) dest l src type :
  on_disk type -> buf s dest l -> 0 <= m_putPtr dest <= zlen l -> storable src ->
  m_offSet dest + m_putPtr dest + 5 * zlen src + 10 < 2 ^ 64 ->
  exists s' dest' img, create_into s src dest type = Ok (s', dest', true) /\
    buf s' dest' (splice l (m_putPtr dest) img) /\ m_putPtr dest' = m_putPtr dest + zlen img /\ m_offSet dest' = m_offSet dest /\
    zlen img <= 5 * zlen src + 10 /\ image type src img.
Proof.
  intros Ht Hb Hp Hsrc Hf. pose proof (storable_ids src Hsrc) as Hids. destruct Hsrc as (Hs & H31 & Hn).
  pose proof (proj2 (gap_bytes_ok 0 src)) as Hg.
  destruct Ht as [->|[->| ->]]; cbn [create_into].
  - assert (zlen (de_bytes src) = 8 + zlen (gap_bytes 0 src)) as Hlen by (unfold de_bytes; rewrite !length_app, !length_le_bytes; lia).
    destruct (create_ok s dest l src Hb Hp Hids) as (s' & dest' & -> & Hb' & Hp' & Ho'); [lia|lia|lia|]. rewrite bind_ok_l.
    exists s', dest', (de_bytes src). do 4 (split; [done|]). split; [lia|]. intros T BT BTO t data rest Hbt. cbn [createPrivate].
    destruct (de_new_ok t data src rest Hbt Hids) as (d & cl & -> & Hh & Hc); [lia|lia|]. rewrite bind_ok_l.
    eexists. split; [done|]. split; [|done]. exists BTO. split; [exact Hh|]. by exists O, cl.
  - destruct (rd_create_ok s dest l src Hb Hp Hs H31) as (s' & dest' & img & -> & Hb' & Hp' & Ho' & Hil & Hopen); [lia|lia|]. rewrite bind_ok_l.
    exists s', dest', img. do 5 (split; [done|]). intros T BT BTO t data rest Hbt. cbn [createPrivate].
    destruct (Hopen T BT BTO t data rest Hbt) as (d & -> & Hu & _). rewrite bind_ok_l. eexists. split; [done|]. split; [by exists BTO|done].
  - destruct (na_create_ok s dest l src Hb Hp) as (s' & dest' & -> & [Hb' Ho' _ Hp']); [lia|lia|]. rewrite bind_ok_l.
    exists s', dest', (na_image src). do 4 (split; [done|]). split; [pose proof (words_len src); unfold na_image; rewrite length_app, length_le_bytes; lia|]. intros T BT BTO t data rest Hbt. cbn [createPrivate].
    destruct (na_new_ok t data src rest Hbt Hids) as (d & -> & Hd); [lia|]. rewrite bind_ok_l. eexists. split; [done|]. by split.
Qed.

Lemma resetPtrs_ok {S : Type} {B : Backend S} {BO : BackendOk S} (s : S) a l : buf s a l -> buf s (resetPtrs a) l.
Proof. intros Hb. apply (buf_ptrs s a l 0 0 Hb); unfold fits; lia. Qed.

(** A type that is not [T_EMPTY] keeps the ids. *)
Lemma create_index_ok src type : type <> T_EMPTY -> storable src -> exists i, create src type = Ok i /\ ii_rep i src.
Proof.
  intros Ht Hsrc. assert (on_disk type -> exists i, create src type = Ok i /\ ii_rep i src) as Hdisk.
  { intros Hd. destruct (createCache_ok 1) as (s & tmp & Hc & Hb); [lia|lia|].
    pose proof (buf_len _ _ _ Hb) as Hlen. rewrite length_replicate in Hlen.
    assert (m_putPtr tmp = 0 /\ m_offSet tmp = 0) as [Hp Ho] by (unfold createCache in Hc; by injection Hc as <- <-).
    destruct (create_into_ok s tmp _ src type Hd Hb) as (s' & tmp' & img & Hcr & Hb' & _ & _ & _ & Himg);
      [rewrite Hp, length_replicate; lia|done|rewrite Hp, Ho; destruct Hsrc as (_ & _ & ?); lia|].
    rewrite Hp in Hb'. unfold splice in Hb'. cbn [take Z.to_nat app] in Hb'.
    destruct (Himg _ _ Vec_ok s' (resetPtrs tmp') _ (resetPtrs_ok _ _ _ Hb')) as (i & Hi & Hrep). exists i. split; [|done].
    by destruct Hd as [->|[->| ->]]; cbn [create]; rewrite Hc, Hcr, bind_ok_l. }
  destruct type; try done; try (apply Hdisk; unfold on_disk; naive_solver).
  eexists. split; [done|]. split; [split; [done|destruct Hsrc as (_ & _ & ?); lia]|]. split; [apply Hsrc|by apply storable_ids].
Qed.

Lemma range_from_ok n b : 0 <= b -> b + Z.of_nat n < 2 ^ 32 -> range_from n b 1 = seqZ b (Z.of_nat n).
Proof.
  revert b. induction n as [|n IH]; intros b Hb Hn; [done|]. cbn [range_from].
  rewrite wrap_small by (unfold fits; lia). rewrite IH by lia. rewrite (seqZ_cons b) by lia. f_equal. replace (Z.pred (Z.of_nat (Datatypes.S n))) with (Z.of_nat n) by lia. done.
Qed.

Lemma seqZ_sorted b n : sorted (seqZ b n).
Proof.
  assert (forall k b, sorted (seqZ b (Z.of_nat k))) as Hk.
  { clear. intros k. induction k as [|k IH]; intros b; [constructor|]. rewrite seqZ_cons by lia.
    constructor; [replace (Z.pred (Z.of_nat (Datatypes.S k))) with (Z.of_nat k) by lia; apply IH|].
    apply Forall_forall. intros z Hz%elem_of_seqZ. lia. }
  destruct (Z_le_gt_dec 0 n) as [Hn|Hn]; [|rewrite seqZ_nil by lia; constructor]. rewrite <- (Z2Nat.id n) by lia. apply Hk.
Qed.

(** The ids below [n]. *)
Lemma range_ok n type : type <> T_EMPTY -> 0 <= n < 2 ^ 28 -> exists i, range 0 n 1 type = Ok i /\ ii_rep i (seqZ 0 n).
Proof.
  intros Ht Hn. unfold range. rewrite Z.sub_0_r, (wrap_small 32 n) by (unfold fits; lia). rewrite Z.mod_1_r, Z.div_1_r. cbn [negb throw_if Z.eqb].
  rewrite bind_ok_l, range_from_ok by lia. rewrite Z2Nat.id by lia. apply create_index_ok; [done|].
  split; [apply seqZ_sorted|]. split; [|rewrite length_seqZ; lia]. apply Forall_forall. intros z Hz%elem_of_seqZ. lia.
Qed.
