(* ===== verification/CellMerge.v ===== *)
(** Merging two lists of cells with their items: the abstract counterpart of the loops over
    query results in [CellQuery] and [TreedQuery].

    A query result stands for a list of cells, sorted by their ids, with the sorted list of
    the items of each.  [cmerge] says which lists a loop over two of them may build,
    depending on whether it keeps the cells only one of them has and on what it makes of
    the common ones; [cmerge_ok] what is in them. *)

From S2P Require Import Prelude SetFuncs.

(** * Cells *)

(** Sorted ids of the items, cell by cell. *)
Abbreviation cells := (list (Z * list Z)).
Definition keys (m : cells) : list Z := map fst m.
Definition has (m : cells) (c z : Z) : Prop := exists l, (c, l) ∈ m /\ z ∈ l.

(** * Merging cells *)

(** What becomes of a cell of both operands: at most one cell, [f] says of which items. *)
Definition out_ok (f : Prop -> Prop -> Prop) (c : Z) (l k : list Z) (out : cells) : Prop :=
  (out = [] \/ exists l', out = [(c, l')]) /\ forall z, z ∈ concat (map snd out) <-> f (z ∈ l) (z ∈ k).

Section merging.
Context (keepA keepB : bool) (f : Z -> Prop -> Prop -> Prop).

Inductive cmerge : cells -> cells -> cells -> Prop :=
  | cm_nil_l Y : cmerge [] Y (if keepB then Y else [])
  | cm_nil_r X : cmerge X [] (if keepA then X else [])
  | cm_lt c l X d k Y R : c < d -> cmerge X ((d, k) :: Y) R ->
      cmerge ((c, l) :: X) ((d, k) :: Y) ((if keepA then [(c, l)] else []) ++ R)
  | cm_gt c l X d k Y R : d < c -> cmerge ((c, l) :: X) Y R ->
      cmerge ((c, l) :: X) ((d, k) :: Y) ((if keepB then [(d, k)] else []) ++ R)
  | cm_eq c l k X Y out R : out_ok (f c) c l k out -> cmerge X Y R -> cmerge ((c, l) :: X) ((c, k) :: Y) (out ++ R).
End merging.

Lemma has_nil c z : ~ has [] c z.
Proof. intros (l & Hl & _). by apply elem_of_nil in Hl. Qed.

Lemma has_cons d k m c z : has ((d, k) :: m) c z <-> c = d /\ z ∈ k \/ has m c z.
Proof.
  unfold has. split.
  - intros (l & [Hl|Hl]%elem_of_cons & Hz); [left; by injection Hl as -> ->|right; by exists l].
  - intros [[-> Hz]|(l & Hl & Hz)]; [exists k|exists l]; (split; [|done]); [left|by right].
Qed.

Lemma has_app m n c z : has (m ++ n) c z <-> has m c z \/ has n c z.
Proof. unfold has. setoid_rewrite elem_of_app. naive_solver. Qed.

Lemma has_exists m c z : Exists (fun cl => fst cl = c /\ z ∈ snd cl) m <-> has m c z.
Proof.
  rewrite Exists_exists. split; [intros ([d l] & Hin & <- & Hz); by exists l|]. intros (l & Hin & Hz). by exists (c, l).
Qed.

#[export] Instance has_dec m c z : Decision (has m c z).
Proof. destruct (decide (Exists (fun cl => fst cl = c /\ z ∈ snd cl) m)) as [H|H]; [left|right]; by rewrite <- has_exists. Defined.

Lemma has_key m c z : has m c z -> c ∈ keys m.
Proof. intros (l & Hl & _). unfold keys. apply list_elem_of_fmap. by exists (c, l). Qed.

Lemma out_has f c l k out d z : out_ok f c l k out -> has out d z <-> d = c /\ f (z ∈ l) (z ∈ k).
Proof.
  intros [[->|[l' ->]] Hz]; rewrite <- Hz; cbn.
  - split; [intros []%has_nil|intros [_ []%elem_of_nil]].
  - rewrite has_cons, app_nil_r. split; [intros [?|[]%has_nil]; done|by left].
Qed.

Lemma keys_cons c l X : keys ((c, l) :: X) = c :: keys X.
Proof. done. Qed.

Lemma key_has (m : cells) c l : (c, l) ∈ m -> c ∈ keys m.
Proof. intros Hl. apply list_elem_of_fmap. by exists (c, l). Qed.

Section in3.
Context (keepA keepB : bool) (f : Z -> Prop -> Prop -> Prop).

(** What a merge contains. *)
Definition in3 (X Y : cells) (c z : Z) : Prop :=
  (exists l k, (c, l) ∈ X /\ (c, k) ∈ Y /\ f c (z ∈ l) (z ∈ k)) \/
  (keepA = true /\ has X c z /\ c ∉ keys Y) \/ (keepB = true /\ has Y c z /\ c ∉ keys X).

Lemma in3_l c l X Y e z : c ∉ keys Y -> in3 ((c, l) :: X) Y e z <-> (keepA = true /\ e = c /\ z ∈ l) \/ in3 X Y e z.
Proof using.
  intros Hc. unfold in3. rewrite has_cons, keys_cons, not_elem_of_cons. setoid_rewrite elem_of_cons. split.
  - intros [(l' & k & [[= -> ->]|Hl] & Hk & Hf)|[(HA & [[-> Hz]|Hz] & He)|(HB & Hz & _ & He)]]; [|naive_solver..].
    by destruct (Hc (key_has _ _ _ Hk)).
  - intros [(HA & -> & Hz)|[(l' & k & Hl & Hk & Hf)|[(HA & Hz & He)|(HB & Hz & He)]]]; [naive_solver..|].
    right; right. split; [done|]. split; [done|]. split; [|done]. intros ->. by apply has_key in Hz.
Qed.

Lemma in3_r d k X Y e z : d ∉ keys X -> in3 X ((d, k) :: Y) e z <-> (keepB = true /\ e = d /\ z ∈ k) \/ in3 X Y e z.
Proof using.
  intros Hc. unfold in3. rewrite has_cons, keys_cons, not_elem_of_cons. setoid_rewrite elem_of_cons. split.
  - intros [(l' & k' & Hl & [[= -> ->]|Hk] & Hf)|[(HA & Hz & _ & He)|(HB & [[-> Hz]|Hz] & He)]]; [|naive_solver..].
    by destruct (Hc (key_has _ _ _ Hl)).
  - intros [(HA & -> & Hz)|[(l' & k' & Hl & Hk & Hf)|[(HA & Hz & He)|(HB & Hz & He)]]]; [naive_solver..| |naive_solver].
    right; left. split; [done|]. split; [done|]. split; [|done]. intros ->. by apply has_key in Hz.
Qed.

Lemma in3_eq c l k X Y e z : c ∉ keys X -> c ∉ keys Y ->
  in3 ((c, l) :: X) ((c, k) :: Y) e z <-> (e = c /\ f c (z ∈ l) (z ∈ k)) \/ in3 X Y e z.
Proof using.
  intros HX HY. unfold in3. rewrite !has_cons, !keys_cons, !not_elem_of_cons. setoid_rewrite elem_of_cons. split.
  - intros [(l' & k' & [Hl'|Hl] & [Hk'|Hk] & Hf)|[(HA & [[-> Hz]|Hz] & He)|(HB & [[-> Hz]|Hz] & He)]]; simplify_eq; try naive_solver; exfalso;
      first [by apply HY, (key_has Y _ _ Hk)|by apply HX, (key_has X _ _ Hl)].
  - intros [(-> & Hf)|[(l' & k' & Hl & Hk & Hf)|[(HA & Hz & He)|(HB & Hz & He)]]]; [naive_solver..| |].
    + right; left. split; [done|]. split; [by right|]. split; [|done]. intros ->. by apply has_key in Hz.
    + right; right. split; [done|]. split; [by right|]. split; [|done]. intros ->. by apply has_key in Hz.
Qed.
End in3.

(** The result of a merge is sorted, and what is in it. *)
Lemma cmerge_keys keepA keepB f X Y R : cmerge keepA keepB f X Y R -> forall c, c ∈ keys R -> c ∈ keys X \/ c ∈ keys Y.
Proof.
  induction 1 as [Y|X|c l X d k Y R Hlt _ IH|c l X d k Y R Hlt _ IH|c l k X Y out R Hout _ IH]; intros e He.
  - destruct keepB; [by right|by apply elem_of_nil in He].
  - destruct keepA; [by left|by apply elem_of_nil in He].
  - unfold keys in He. rewrite map_app in He. rewrite keys_cons. apply elem_of_app in He as [He|[He|He]%IH]; [|left; by right|by right].
    left. destruct keepA; [|by apply elem_of_nil in He]. apply list_elem_of_singleton in He as ->. left.
  - unfold keys in He. rewrite map_app in He. rewrite (keys_cons d). apply elem_of_app in He as [He|[He|He]%IH]; [|by left|right; by right].
    right. destruct keepB; [|by apply elem_of_nil in He]. apply list_elem_of_singleton in He as ->. left.
  - unfold keys in He. rewrite map_app in He. rewrite !keys_cons. apply elem_of_app in He as [He|[He|He]%IH]; [|left; by right|right; by right].
    left. destruct Hout as [[->|[l' ->]] _]; [by apply elem_of_nil in He|]. apply list_elem_of_singleton in He as ->. left.
Qed.

Lemma sorted_optional c (R : cells) out : (out = [] \/ exists l, out = [(c, l)]) -> sorted (keys R) -> (forall e, e ∈ keys R -> c < e) ->
  sorted (keys (out ++ R)).
Proof.
  intros [->|[l ->]] HR Hc; [done|]. cbn [app]. rewrite keys_cons. constructor; [done|]. by apply Forall_forall.
Qed.

Lemma cmerge_ok keepA keepB f X Y R : cmerge keepA keepB f X Y R -> sorted (keys X) -> sorted (keys Y) ->
  sorted (keys R) /\ forall c z, has R c z <-> in3 keepA keepB f X Y c z.
Proof.
  induction 1 as [Y|X|c l X d k Y R Hlt Hm IH|c l X d k Y R Hlt Hm IH|c l k X Y out R Hout Hm IH]; intros HX HY.
  - split; [destruct keepB; [done|constructor]|]. intros c z. unfold in3. pose proof (has_nil c z).
    assert (forall x : Z, x ∉ keys []) by (intros x; apply not_elem_of_nil). setoid_rewrite elem_of_nil. destruct keepB; naive_solver.
  - split; [destruct keepA; [done|constructor]|]. intros c z. unfold in3. pose proof (has_nil c z).
    assert (forall x : Z, x ∉ keys []) by (intros x; apply not_elem_of_nil). setoid_rewrite elem_of_nil. destruct keepA; naive_solver.
  - destruct (sorted_cons _ _ HX) as [HX' HgX], (sorted_cons _ _ HY) as [_ HgY]. destruct (IH HX' HY) as [HR Hin].
    assert (forall e, e ∈ keys ((d, k) :: Y) -> c < e) as Hc by (intros e [->|He%HgY]%elem_of_cons; cbn in *; lia). split.
    + apply (sorted_optional c); [destruct keepA; [right; by exists l|by left]|done|].
      intros e [He|He]%(cmerge_keys _ _ _ _ _ _ Hm); [by apply HgX|by apply Hc].
    + intros e z. rewrite has_app, Hin, in3_l by (intros Hc'%Hc; lia). destruct keepA; rewrite ?has_cons; pose proof (has_nil e z); naive_solver.
  - destruct (sorted_cons _ _ HX) as [_ HgX], (sorted_cons _ _ HY) as [HY' HgY]. destruct (IH HX HY') as [HR Hin].
    assert (forall e, e ∈ keys ((c, l) :: X) -> d < e) as Hc by (intros e [->|He%HgX]%elem_of_cons; cbn in *; lia). split.
    + apply (sorted_optional d); [destruct keepB; [right; by exists k|by left]|done|].
      intros e [He|He]%(cmerge_keys _ _ _ _ _ _ Hm); [by apply Hc|by apply HgY].
    + intros e z. rewrite has_app, Hin, in3_r by (intros Hc'%Hc; lia). destruct keepB; rewrite ?has_cons; pose proof (has_nil e z); naive_solver.
  - destruct (sorted_cons _ _ HX) as [HX' HgX], (sorted_cons _ _ HY) as [HY' HgY]. destruct (IH HX' HY') as [HR Hin]. cbn [fst] in *. split.
    + apply (sorted_optional c); [apply Hout|done|]. intros e [He|He]%(cmerge_keys _ _ _ _ _ _ Hm); [by apply HgX|by apply HgY].
    + intros e z. rewrite has_app, Hin, (out_has _ _ _ _ _ _ _ Hout), in3_eq; [done|intros Hc%HgX; lia|intros Hc%HgY; lia].
Qed.

Lemma cmerge_len keepA keepB f X Y R : cmerge keepA keepB f X Y R -> (length R <= length X + length Y)%nat /\
  (keepB = false -> (length R <= length X)%nat) /\ (keepA = false -> (length R <= length Y)%nat).
Proof.
  induction 1 as [Y|X|c l X d k Y R Hlt _ IH|c l X d k Y R Hlt _ IH|c l k X Y out R Hout _ IH]; cbn [length] in *; rewrite ?length_app.
  - destruct keepB; cbn [length]; (split; [lia|split; intros; lia || done]).
  - destruct keepA; cbn [length]; (split; [lia|split; intros; lia || done]).
  - destruct IH as (H1 & H2 & H3). destruct keepA; cbn [length]; (split; [lia|split; intros HF]); try done; try (specialize (H2 HF)); try (specialize (H3 HF)); lia.
  - destruct IH as (H1 & H2 & H3). destruct keepB; cbn [length]; (split; [lia|split; intros HF]); try done; try (specialize (H2 HF)); try (specialize (H3 HF)); lia.
  - destruct IH as (H1 & H2 & H3). assert (length out <= 1)%nat as Ho by (destruct Hout as [[->|[l' ->]] _]; cbn; lia).
    split; [lia|split; intros HF]; [specialize (H2 HF); lia|specialize (H3 HF); lia].
Qed.

(** ** Sorted cells *)

Lemma cells_unique (m : cells) c l k : sorted (keys m) -> (c, l) ∈ m -> (c, k) ∈ m -> l = k.
Proof.
  induction m as [|[d x] m IH]; intros Hs Hl Hk; [by apply elem_of_nil in Hl|]. destruct (sorted_cons _ _ Hs) as [Hs' Hgt].
  apply elem_of_cons in Hl as [Hl|Hl], Hk as [Hk|Hk]; [congruence| | |by apply IH].
  - injection Hl as -> ->. specialize (Hgt _ (key_has _ _ _ Hk)). cbn in Hgt. lia.
  - injection Hk as -> ->. specialize (Hgt _ (key_has _ _ _ Hl)). cbn in Hgt. lia.
Qed.

Lemma has_unique (m : cells) c l z : sorted (keys m) -> (c, l) ∈ m -> has m c z <-> z ∈ l.
Proof.
  intros Hs Hl. split; [|intros Hz; by exists l]. intros (k & Hk & Hz). by rewrite (cells_unique m c l k Hs Hl Hk).
Qed.

Lemma key_cell (m : cells) c : c ∈ keys m -> exists l, (c, l) ∈ m.
Proof. intros Hc. apply list_elem_of_fmap in Hc as ([d l] & -> & Hl). by exists l. Qed.

(** A merge that combines membership cell by cell: [g] says how, [d c] that nothing is lost
    at the cell [c], which is one of both. *)
Lemma in3_char keepA keepB (g : Prop -> Prop -> Prop) (d : Z -> Prop) X Y c z : sorted (keys X) -> sorted (keys Y) ->
  (forall x x' y y' : Prop, (x <-> x') -> (y <-> y') -> g x y <-> g x' y') ->
  (forall x : Prop, g x False <-> keepA = true /\ x) -> (forall y : Prop, g False y <-> keepB = true /\ y) ->
  (c ∉ keys X \/ c ∉ keys Y -> d c) ->
  in3 keepA keepB (fun c x y => g x y /\ d c) X Y c z <-> g (has X c z) (has Y c z) /\ d c.
Proof.
  intros HX HY Hg HA HB Hd. unfold in3. destruct (decide (c ∈ keys X)) as [Hx|Hx], (decide (c ∈ keys Y)) as [Hy|Hy].
  - destruct (key_cell _ _ Hx) as (l & Hl), (key_cell _ _ Hy) as (k & Hk). rewrite (Hg _ _ _ _ (has_unique X c l z HX Hl) (has_unique Y c k z HY Hk)). split.
    + intros [(l' & k' & Hl' & Hk' & H)|[(_ & _ & H)|(_ & _ & H)]]; [|done..]. by rewrite (cells_unique X c l l'), (cells_unique Y c k k').
    + intros H. left. by exists l, k.
  - assert (d c) as Hdc by tauto. assert (~ has Y c z) as Hn by (intros H; by apply has_key in H).
    rewrite (Hg _ (has X c z) _ False), HA by tauto. split; [intros [(l' & k' & Hl' & Hk' & H)|[(-> & H & _)|(_ & H & _)]]|]; [by destruct (Hy (key_has _ _ _ Hk'))|done|done|tauto].
  - assert (d c) as Hdc by tauto. assert (~ has X c z) as Hn by (intros H; by apply has_key in H).
    rewrite (Hg _ False _ (has Y c z)), HB by tauto. split; [intros [(l' & k' & Hl' & Hk' & H)|[(_ & H & _)|(-> & H & _)]]|]; [by destruct (Hx (key_has _ _ _ Hl'))|done|done|tauto].
  - assert (d c) as Hdc by tauto. assert (~ has X c z /\ ~ has Y c z) as [Hn Hn'] by (split; intros H; by apply has_key in H).
    rewrite (Hg _ False _ False) by tauto. split; [intros [(l' & k' & Hl' & Hk' & H)|[(_ & H & _)|(_ & H & _)]]; [by destruct (Hx (key_has _ _ _ Hl'))|done..]|].
    intros [H _]. rewrite HA in H. tauto.
Qed.

Lemma in3_ext keepA keepB (f f' : Z -> Prop -> Prop -> Prop) X Y c z : (forall x y, f c x y <-> f' c x y) ->
  in3 keepA keepB f X Y c z <-> in3 keepA keepB f' X Y c z.
Proof. intros Hf. unfold in3. by setoid_rewrite Hf. Qed.

(** The same when nothing is lost. *)
Lemma in3_plain keepA keepB (g : Prop -> Prop -> Prop) X Y c z : sorted (keys X) -> sorted (keys Y) ->
  (forall x x' y y' : Prop, (x <-> x') -> (y <-> y') -> g x y <-> g x' y') ->
  (forall x : Prop, g x False <-> keepA = true /\ x) -> (forall y : Prop, g False y <-> keepB = true /\ y) ->
  in3 keepA keepB (fun _ => g) X Y c z <-> g (has X c z) (has Y c z).
Proof.
  intros HX HY Hg HA HB. rewrite (in3_ext _ _ _ (fun _ x y => g x y /\ True)) by tauto.
  rewrite (in3_char keepA keepB g (fun _ => True)) by (done || tauto). tauto.
Qed.

Lemma cmerge_alone_l f Y T : cmerge true true f [] Y T -> T = Y.
Proof. inversion 1; by subst. Qed.

Lemma cmerge_alone_r f X T : cmerge true true f X [] T -> T = X.
Proof. inversion 1; by subst. Qed.
