(* ===== verification/CellQuery.v ===== *)
(** The result of a query, cell by cell: [include/sserialize/spatial/CellQueryResultPrivate.h],
    [src/spatial/CellQueryResultPrivate.cpp] and the operators of
    [src/spatial/CellQueryResult.cpp].

    A result is a sorted list of cells.  A cell is matched in full, or in part; then it has
    an index of its items, either already fetched or as an id of the index store.  The
    description of a cell and its index are in two parallel arrays; the second is raw
    memory of a union, [slot]: which member is valid follows from the description.
    Reading the other one is undefined.  Memory that was never written is an id of any
    value: [garbage] is what [malloc] leaves there. *)

From S2P Require Import Prelude UtilMath PackUnpack Storage ByteArray ByteStream Bits CompactUintArray BitSets SetFuncs IndexOps ItemIndexDE ItemIndexRleDE ItemIndexNative ItemIndex ItemIndexFactory CellMerge.

(** * The interfaces *)

(** [interfaces::ItemIndexStore], as far as query results use it: a store of indexes of one
    type. *)
Class IndexStore (St : Type) := {
  st_at : St -> Z -> result index;
  st_idxSize : St -> Z -> result Z;
  st_indexTypes : St -> index_type;
}.

(** A store stands for a list of lists of ids; the one with id 0 is empty. *)
Class IndexStoreOk (St : Type) `{IndexStore St} := {
  st_rep : St -> list (list Z) -> Prop;
  st_types_ok s L : st_rep s L -> st_indexTypes s <> T_EMPTY;
  st_at_ok s L id l : st_rep s L -> L !! id = Some l -> exists i, st_at s (Z.of_nat id) = Ok i /\ ii_rep i l;
  st_idxSize_ok s L id l : st_rep s L -> L !! id = Some l -> st_idxSize s (Z.of_nat id) = Ok (zlen l);
  st_storable s L id l : st_rep s L -> L !! id = Some l -> storable l;
  st_few s L : st_rep s L -> zlen L < 2 ^ 32;
}.

(** [interface::CQRCellInfoIface] without the boundary. *)
Record cell_info := mkInfo {
  ci_cellSize : Z;
  ci_cellItemsCount : Z -> Z;
  ci_cellItemsPtr : Z -> Z;
}.

(** * The data *)

(** [CellQueryResult::FeatureFlags] *)
Definition FF_EMPTY : Z := 1.
Definition FF_CELL_LOCAL_ITEM_IDS : Z := 2.
Definition FF_CELL_GLOBAL_ITEM_IDS : Z := 4.
Definition has_flag (flags f : Z) : bool := negb (flags &&& f =? 0).

Record cell_desc := mkDesc { fullMatch : bool; fetched : bool; cellId : Z }.
(** [CellDesc(inFullMatch, inFetched, inCellId)]: 30 bits for the cell. *)
Definition newDesc (inFullMatch inFetched : bool) (inCellId : Z) : cell_desc := mkDesc inFullMatch inFetched (wrap 30 inCellId).

(** [IndexDesc] *)
Inductive slot := SPtr (idxPtr : Z) | SIdx (idx : index).

Record cqr := mkCqr { m_flags : Z; m_desc : list cell_desc; m_idx : list slot }.

Definition at_ {A} (l : list A) (pos : Z) : result A :=
  match l !! Z.to_nat pos with Some x => if pos <? 0 then Err UndefinedBehaviour else Ok x | None => Err UndefinedBehaviour end.

Definition cellCount (c : cqr) : Z := u32 (zlen (m_desc c)).

(** [m_idx\[pos\].idxPtr] and [m_idx\[pos\].idx] *)
Definition idxPtr_at (c : cqr) (pos : Z) : result Z :=
  s ← at_ (m_idx c) pos; match s with SPtr p => Ok p | SIdx _ => Err UndefinedBehaviour end.
Definition idx_at (c : cqr) (pos : Z) : result index :=
  s ← at_ (m_idx c) pos; match s with SIdx i => Ok i | SPtr _ => Err UndefinedBehaviour end.

(** A write to the slot [pos]; behind the allocated ones it is undefined. *)
Definition set_slot (c : cqr) (pos : Z) (s : slot) : result cqr :=
  if pos <? zlen (m_idx c) then Ok (mkCqr (m_flags c) (m_desc c) (<[Z.to_nat pos := s]> (m_idx c))) else Err UndefinedBehaviour.
Definition uncheckedSet (c : cqr) (pos : Z) (i : index) : result cqr := set_slot c pos (SIdx i).
Definition push_desc (c : cqr) (d : cell_desc) : cqr := mkCqr (m_flags c) (m_desc c ++ [d]) (m_idx c).
(** A slot is set at [m_desc.size()], then the description is pushed. *)
Definition push_cell (c : cqr) (s : slot) (d : cell_desc) : result cqr :=
  c ← set_slot c (zlen (m_desc c)) s; mret (push_desc c d).

Definition flagCheck (first second : Z) : bool :=
  ((first ||| second) =? first) && negb (first &&& FF_EMPTY =? FF_EMPTY) && negb (second &&& FF_EMPTY =? FF_EMPTY).

(** The destructor: fetched indexes are destroyed where the description says they are. *)
Definition destroy_slot (d : cell_desc) (s : slot) : result () :=
  if fetched d then match s with SIdx _ => Ok () | SPtr _ => Err UndefinedBehaviour end else Ok ().
Fixpoint destroy_from (ds : list cell_desc) (ss : list slot) : result () :=
  match ds, ss with
  | [], _ => Ok ()
  | d :: ds, s :: ss => destroy_slot d s;; destroy_from ds ss
  | _ :: _, [] => Err UndefinedBehaviour
  end.
Definition cqr_destroy (c : cqr) : result () := destroy_from (m_desc c) (m_idx c).

Section operations.
Context {St : Type} `{IndexStore St} (store : St) (ci : cell_info) (garbage : nat -> Z).

Definition malloc (n : nat) : list slot := map (fun k => SPtr (garbage k)) (seq 0 n).
Definition cqr_alloc (flags : Z) (n : nat) : cqr := mkCqr flags [] (malloc n).

(** ** Access to one cell *)

Definition fullIdx (flags : Z) (cell : Z) : result index :=
  if has_flag flags FF_CELL_LOCAL_ITEM_IDS then range 0 (ci_cellItemsCount ci cell) 1 (st_indexTypes store)
  else st_at store (ci_cellItemsPtr ci cell).

(** [idx(pos)] fetches the index into the slot. *)
Definition cqr_idx (c : cqr) (pos : Z) : result (cqr * index) :=
  cd ← at_ (m_desc c) pos;
  if fetched cd then i ← idx_at c pos; mret (c, i)
  else
    i ← (if fullMatch cd then fullIdx (m_flags c) (cellId cd)
         else idxId ← idxPtr_at c pos; st_at store idxId);
    c ← uncheckedSet c pos i;
    mret (mkCqr (m_flags c) (<[Z.to_nat pos := mkDesc (fullMatch cd) true (cellId cd)]> (m_desc c)) (m_idx c), i).

Definition idxSize (c : cqr) (pos : Z) : result Z :=
  cd ← at_ (m_desc c) pos;
  if fetched cd then i ← idx_at c pos; mret (ii_size i)
  else if fullMatch cd then Ok (ci_cellItemsCount ci (cellId cd))
  else p ← idxPtr_at c pos; st_idxSize store p.

Definition idxId (c : cqr) (pos : Z) : result Z :=
  cd ← at_ (m_desc c) pos;
  if fullMatch cd then
    throw_if (has_flag (m_flags c) FF_CELL_LOCAL_ITEM_IDS) AssertionFailed;;
    mret (ci_cellItemsPtr ci (cellId cd))
  else idxPtr_at c pos.

(** ** The set operations *)

(** The index of a cell is copied to [r]: the fetched one, or its id. *)
Definition copy_cell (c : cqr) (pos : Z) (r : cqr) : result cqr :=
  cd ← at_ (m_desc c) pos;
  if fetched cd then i ← idx_at c pos; push_cell r (SIdx i) cd
  else p ← idxPtr_at c pos; push_cell r (SPtr p) cd.
Definition copy_if (keep : bool) (c : cqr) (pos : Z) (r : cqr) : result cqr := if keep then copy_cell c pos r else Ok r.

(** What is done to a cell of both operands. *)
Definition handler : Type := cqr -> cqr -> cqr -> Z -> Z -> result (cqr * cqr * cqr).

(** The loop over both operands, and those over the rest; the operations differ in the
    operands whose own cells they keep. *)
Fixpoint cell_loop (keepMy keepO : bool) (equal : handler) (fuel : nat) (a b r : cqr) (myI oI : Z) :
    result (cqr * cqr * cqr * Z * Z) :=
  match fuel with
  | O => Err OutOfFuel
  | S fuel =>
      if (myI <? zlen (m_desc a)) && (oI <? zlen (m_desc b)) then
        myCD ← at_ (m_desc a) myI;
        oCD ← at_ (m_desc b) oI;
        if cellId myCD <? cellId oCD then
          r ← copy_if keepMy a myI r; cell_loop keepMy keepO equal fuel a b r (u32 (myI + 1)) oI
        else if cellId oCD <? cellId myCD then
          r ← copy_if keepO b oI r; cell_loop keepMy keepO equal fuel a b r myI (u32 (oI + 1))
        else
          '(a, b, r) ← equal a b r myI oI;
          cell_loop keepMy keepO equal fuel a b r (u32 (myI + 1)) (u32 (oI + 1))
      else Ok (a, b, r, myI, oI)
  end.
Fixpoint copy_rest (n : nat) (c : cqr) (pos : Z) (r : cqr) : result cqr :=
  match n with O => Ok r | S n => r ← copy_cell c pos r; copy_rest n c (u32 (pos + 1)) r end.

(** Both are partial and not fetched, with the same id. *)
Definition same_ptr (a b : cqr) (i j : Z) (myCD oCD : cell_desc) : result bool :=
  if fetched myCD || fetched oCD then Ok false
  else p ← idxPtr_at a i; q ← idxPtr_at b j; mret (p =? q).

(** The fetched index of one of two fully matched cells, or the id in [c]. *)
Definition both_full (a b : cqr) (i j : Z) (myCD oCD : cell_desc) (c : cqr) (k : Z) (r : cqr) : result cqr :=
  s ← (if fetched oCD then x ← idx_at b j; mret (SIdx x)
       else if fetched myCD then x ← idx_at a i; mret (SIdx x)
       else p ← idxPtr_at c k; mret (SPtr p));
  push_cell r s (newDesc true (fetched oCD || fetched myCD) (cellId myCD)).

Definition intersect_equal : handler := fun a b r i j =>
  myCD ← at_ (m_desc a) i;
  oCD ← at_ (m_desc b) j;
  match fullMatch myCD, fullMatch oCD with
  | false, false =>
      same ← same_ptr a b i j myCD oCD;
      if same : bool then p ← idxPtr_at a i; r ← push_cell r (SPtr p) myCD; mret (a, b, r)
      else
        '(a, myPIdx) ← cqr_idx a i;
        '(b, oPIdx) ← cqr_idx b j;
        res ← ii_intersect myPIdx oPIdx;
        if negb (ii_size res =? 0) then r ← push_cell r (SIdx res) (newDesc false true (cellId myCD)); mret (a, b, r)
        else Ok (a, b, r)
  | false, true => r ← copy_cell a i r; mret (a, b, r)
  | true, false => r ← copy_cell b j r; mret (a, b, r)
  | true, true => r ← both_full a b i j myCD oCD b j r; mret (a, b, r)
  end.

Definition cqr_intersect (a b : cqr) : result (cqr * cqr * cqr) :=
  throw_if (negb (flagCheck (m_flags a) (m_flags b))) AssertionFailed;;
  let r := cqr_alloc (m_flags a) (length (m_desc a) `min` length (m_desc b)) in
  '(a, b, r, _, _) ← cell_loop false false intersect_equal (S (length (m_desc a) + length (m_desc b))) a b r 0 0;
  mret (a, b, r).

Definition unite_equal : handler := fun a b r i j =>
  myCD ← at_ (m_desc a) i;
  oCD ← at_ (m_desc b) j;
  match fullMatch myCD, fullMatch oCD with
  | false, false =>
      same ← same_ptr a b i j myCD oCD;
      if same : bool then p ← idxPtr_at a i; r ← push_cell r (SPtr p) myCD; mret (a, b, r)
      else
        '(a, myPIdx) ← cqr_idx a i;
        '(b, oPIdx) ← cqr_idx b j;
        res ← ii_unite myPIdx oPIdx;
        if ii_size res =? ci_cellItemsCount ci (cellId myCD) then
          r ← push_cell r (SPtr (ci_cellItemsPtr ci (cellId myCD))) (newDesc true false (cellId myCD)); mret (a, b, r)
        else r ← push_cell r (SIdx res) (newDesc false true (cellId myCD)); mret (a, b, r)
  | true, false => r ← copy_cell a i r; mret (a, b, r)
  | false, true => r ← copy_cell b j r; mret (a, b, r)
  | true, true => r ← both_full a b i j myCD oCD a i r; mret (a, b, r)
  end.

Definition rest (c : cqr) (pos : Z) : nat := Z.to_nat (zlen (m_desc c) - pos).

Definition cqr_unite (a b : cqr) : result (cqr * cqr * cqr) :=
  throw_if (negb (flagCheck (m_flags a) (m_flags b))) AssertionFailed;;
  let r := cqr_alloc (m_flags a) (length (m_desc a) + length (m_desc b)) in
  '(a, b, r, i, j) ← cell_loop true true unite_equal (S (length (m_desc a) + length (m_desc b))) a b r 0 0;
  r ← copy_rest (rest a i) a i r;
  r ← copy_rest (rest b j) b j r;
  throw_if (zlen (m_desc r) <? Z.max (zlen (m_desc a)) (zlen (m_desc b))) AssertionFailed;;
  mret (a, b, r).

(** The common end of difference and symmetric difference. *)
Definition push_op (f : index -> index -> result index) (myCD : cell_desc) : handler := fun a b r i j =>
  '(a, myPIdx) ← cqr_idx a i;
  '(b, oPIdx) ← cqr_idx b j;
  res ← f myPIdx oPIdx;
  if negb (ii_size res =? 0) then r ← push_cell r (SIdx res) (newDesc false true (cellId myCD)); mret (a, b, r)
  else Ok (a, b, r).

Definition diff_equal : handler := fun a b r i j =>
  myCD ← at_ (m_desc a) i;
  oCD ← at_ (m_desc b) j;
  if fullMatch oCD then Ok (a, b, r)
  else
    same ← same_ptr a b i j myCD oCD;
    if same : bool then Ok (a, b, r) else push_op ii_difference myCD a b r i j.

Definition cqr_diff (a b : cqr) : result (cqr * cqr * cqr) :=
  throw_if (negb (flagCheck (m_flags a) (m_flags b))) AssertionFailed;;
  let r := cqr_alloc (m_flags a) (length (m_desc a)) in
  '(a, b, r, i, _) ← cell_loop true false diff_equal (S (length (m_desc a) + length (m_desc b))) a b r 0 0;
  r ← copy_rest (rest a i) a i r;
  throw_if (zlen (m_desc a) <? zlen (m_desc r)) AssertionFailed;;
  mret (a, b, r).

Definition symDiff_equal : handler := fun a b r i j =>
  myCD ← at_ (m_desc a) i;
  oCD ← at_ (m_desc b) j;
  if fullMatch myCD && fullMatch oCD then Ok (a, b, r)
  else
    same ← same_ptr a b i j myCD oCD;
    if same : bool then Ok (a, b, r) else push_op ii_symmetricDifference myCD a b r i j.

Definition cqr_symDiff (a b : cqr) : result (cqr * cqr * cqr) :=
  throw_if (negb (flagCheck (m_flags a) (m_flags b))) AssertionFailed;;
  let r := cqr_alloc (m_flags a) (length (m_desc a) + length (m_desc b)) in
  '(a, b, r, i, j) ← cell_loop true true symDiff_equal (S (length (m_desc a) + length (m_desc b))) a b r 0 0;
  r ← copy_rest (rest a i) a i r;
  r ← copy_rest (rest b j) b j r;
  throw_if (zlen (m_desc a) + zlen (m_desc b) <? zlen (m_desc r)) AssertionFailed;;
  mret (a, b, r).

(** ** The constructors *)

(** The cells of [fm] are matched in full, those of [pm] in part, with their indexes or
    ids in [items]; a cell in both is matched in full.  The slot of a cell that is matched
    in full is left as it is. *)
Fixpoint merge_cells {A} (mk : A -> slot) (fetch : bool) (fuel : nat) (fm pm : list Z) (items : list A) (c : cqr) (pos : Z) : result cqr :=
  match fuel with
  | O => Err OutOfFuel
  | S fuel =>
      match fm, pm with
      | f :: fm', p :: pm' =>
          if f <? p then merge_cells mk fetch fuel fm' pm items (push_desc c (newDesc true false f)) (u32 (pos + 1))
          else if f =? p then
            merge_cells mk fetch fuel fm' pm' (tail items) (push_desc c (newDesc true false f)) (u32 (pos + 1))
          else
            x ← at_ items 0;
            c ← set_slot (push_desc c (newDesc false fetch p)) pos (mk x);
            merge_cells mk fetch fuel fm pm' (tail items) c (u32 (pos + 1))
      | f :: fm', [] => merge_cells mk fetch fuel fm' [] items (push_desc c (newDesc true false f)) pos
      | [], p :: pm' =>
          x ← at_ items 0;
          c ← set_slot (push_desc c (newDesc false fetch p)) pos (mk x);
          merge_cells mk fetch fuel [] pm' (tail items) c (u32 (pos + 1))
      | [], [] => Ok c
      end
  end.

(** [CellQueryResult(fmIdx, pmIdx, pmItemsIt, ci, idxStore, flags)], with ids of the store
    and with indexes. *)
Definition cqr_new (fm pm : list Z) (items : list Z) (flags : Z) : result cqr :=
  merge_cells SPtr false (S (length fm + length pm)) fm pm items (cqr_alloc flags (length fm + length pm)) 0.
Definition cqr_new_idx (fm pm : list Z) (items : list index) (flags : Z) : result cqr :=
  merge_cells SIdx true (S (length fm + length pm)) fm pm items (cqr_alloc flags (length fm + length pm)) 0.
(** [CellQueryResult(fmIdx, ci, idxStore, flags)] *)
Definition cqr_new_full (fm : list Z) (flags : Z) : cqr :=
  mkCqr flags (map (newDesc true false) fm) (malloc (length fm)).
(** [CellQueryResult(fullMatch, cellId, ci, idxStore, cellIdxId, flags)] *)
Definition cqr_new_cell (full : bool) (cell cellIdxId flags : Z) : result cqr :=
  let c := push_desc (cqr_alloc flags 1) (newDesc full false cell) in
  if full then Ok c else set_slot c 0 (SPtr cellIdxId).
(** [CellQueryResult()] *)
Definition cqr_empty : cqr := mkCqr FF_EMPTY [] [].

(** ** The other operations *)

Definition allToFull (c : cqr) : cqr :=
  mkCqr (m_flags c) (map (fun cd => mkDesc true false (cellId cd)) (m_desc c)) (malloc (length (m_desc c))).

Fixpoint count_empty (n : nat) (c : cqr) (i : Z) (emptyCellCount : Z) : result Z :=
  match n with
  | O => Ok emptyCellCount
  | S n =>
      cd ← at_ (m_desc c) i;
      e ← (if negb (fullMatch cd) && negb (fetched cd) then p ← idxId c i; mret (p =? 0)
           else if fetched cd then sz ← idxSize c i; mret (sz =? 0) else Ok false);
      count_empty n c (u32 (i + 1)) (if e : bool then u32 (emptyCellCount + 1) else emptyCellCount)
  end.
Fixpoint keep_nonempty (n : nat) (c r : cqr) (i : Z) : result cqr :=
  match n with
  | O => Ok r
  | S n =>
      cd ← at_ (m_desc c) i;
      r ← (if fullMatch cd then Ok (push_desc r cd)
           else if fetched cd then x ← idx_at c i; push_cell r (SIdx x) cd
           else p ← idxPtr_at c i; if negb (p =? 0) then push_cell r (SPtr p) cd else Ok r);
      keep_nonempty n c r (u32 (i + 1))
  end.
Definition removeEmpty (c : cqr) (emptyCellCount : Z) : result cqr :=
  let e := if cellCount c <? emptyCellCount then 0 else emptyCellCount in
  e ← (if e =? 0 then count_empty (length (m_desc c)) c 0 0 else Ok e);
  keep_nonempty (length (m_desc c)) c (cqr_alloc (m_flags c) (Z.to_nat (u32 (cellCount c - e)))) 0.

(** [tmp] is constructed with as many zeros as there are cells before the ids are added. *)
Definition cqr_cells (c : cqr) : list Z := replicate (length (m_desc c)) 0 ++ map cellId (m_desc c).

Fixpoint maxItems_from (n : nat) (c : cqr) (i tmp : Z) : result Z :=
  match n with O => Ok tmp | S n => sz ← idxSize c i; maxItems_from n c (u32 (i + 1)) (u32 (tmp + sz)) end.
Definition maxItems (c : cqr) : result Z := maxItems_from (length (m_desc c)) c 0 0.

(** ** The operators of the handle *)

Definition cqr_and (a b : cqr) : result cqr :=
  if has_flag (m_flags a ||| m_flags b) FF_EMPTY then Ok cqr_empty else '(_, _, r) ← cqr_intersect a b; mret r.
Definition cqr_plus (a b : cqr) : result cqr :=
  if has_flag (m_flags a) FF_EMPTY then Ok b else '(_, _, r) ← cqr_unite a b; mret r.
Definition cqr_minus (a b : cqr) : result cqr :=
  if has_flag (m_flags a ||| m_flags b) FF_EMPTY then Ok a else '(_, _, r) ← cqr_diff a b; mret r.
Definition cqr_xor (a b : cqr) : result cqr :=
  if has_flag (m_flags a) FF_EMPTY then Ok b
  else if has_flag (m_flags b) FF_EMPTY then Ok a
  else '(_, _, r) ← cqr_symDiff a b; mret r.
End operations.

(** * What a result stands for *)

Section rep.
Context {St : Type} {IS : IndexStore St} {ISO : IndexStoreOk St} (store : St) (ci : cell_info) (L : list (list Z)).

(** The items of every cell are an index of the store. *)
Record db_ok : Prop := {
  db_store : st_rep store L;
  db_cells : ci_cellSize ci <= 2 ^ 30;
  db_items c : 0 <= c < ci_cellSize ci ->
    exists id l, ci_cellItemsPtr ci c = Z.of_nat id /\ L !! id = Some l /\ ci_cellItemsCount ci c = zlen l;
}.

(** The ids of all items of a cell. *)
Definition full_items (F c : Z) : list Z :=
  if has_flag F FF_CELL_LOCAL_ITEM_IDS then seqZ 0 (ci_cellItemsCount ci c)
  else default [] (L !! Z.to_nat (ci_cellItemsPtr ci c)).

Record cell_ok (F : Z) (d : cell_desc) (s : slot) (l : list Z) : Prop := {
  co_id : 0 <= cellId d < ci_cellSize ci;
  co_sorted : sorted l;
  co_sub z : z ∈ l -> z ∈ full_items F (cellId d);
  co_full : fullMatch d = true -> l = full_items F (cellId d);
  co_slot : if fetched d then exists i, s = SIdx i /\ ii_rep i l
            else exists p, s = SPtr p /\ (fullMatch d = false -> exists id, p = Z.of_nat id /\ L !! id = Some l);
}.

(** The cells of [c] stand for [m]. *)
Record cells_rep (F : Z) (c : cqr) (m : cells) : Prop := {
  cr_flags : m_flags c = F;
  cr_len : length (m_desc c) = length m;
  cr_room : (length m <= length (m_idx c))%nat;
  cr_cell i d s : m_desc c !! i = Some d -> m_idx c !! i = Some s -> exists l, m !! i = Some (cellId d, l) /\ cell_ok F d s l;
}.
Definition cqr_rep (F : Z) (c : cqr) (m : cells) : Prop := cells_rep F c m /\ sorted (keys m).
End rep.


Lemma desc_keys ci L F c m : cells_rep ci L F c m -> map cellId (m_desc c) = keys m.
Proof.
  intros [_ Hl Hr Hc]. apply list_eq. intros i. change (map cellId ?l) with (cellId <$> l). unfold keys.
  change (map fst ?l) with (fst <$> l). rewrite !list_lookup_fmap. destruct (m_desc c !! i) as [d|] eqn:Hd.
  - pose proof (lookup_lt_Some _ _ _ Hd). destruct (lookup_lt_is_Some_2 (m_idx c) i) as (s & Hs); [lia|].
    destruct (Hc i d s Hd Hs) as (l & -> & _). done.
  - apply lookup_ge_None in Hd. rewrite (proj2 (lookup_ge_None m i)) by lia. done.
Qed.

(** * Correctness of the accesses *)

Lemma at_ok {A} (l : list A) (i : nat) x : l !! i = Some x -> at_ l (Z.of_nat i) = Ok x.
Proof. intros Hx. unfold at_. rewrite Nat2Z.id, Hx. destruct (Z.ltb_spec (Z.of_nat i) 0); [lia|done]. Qed.

Lemma sorted_nodup l : sorted l -> NoDup l.
Proof. induction 1 as [|x l Hs IH Hx]; constructor; [|done]. rewrite Forall_forall in Hx. intros Hin%Hx. lia. Qed.

Lemma sorted_sub_len l k : sorted l -> (forall z, z ∈ l -> z ∈ k) -> (length l <= length k)%nat.
Proof.
  intros Hs Hsub. apply submseteq_length, NoDup_submseteq; [by apply sorted_nodup|]. exact Hsub.
Qed.

Lemma sorted_range_len lo hi l : sorted l -> (forall z, z ∈ l -> lo <= z < hi) -> zlen l <= Z.max 0 (hi - lo).
Proof.
  intros Hs Hr. pose proof (sorted_sub_len l (seqZ lo (hi - lo)) Hs) as Hl. rewrite length_seqZ in Hl.
  assert (forall z, z ∈ l -> z ∈ seqZ lo (hi - lo)) as Hsub by (intros z Hz%Hr; apply elem_of_seqZ; lia). specialize (Hl Hsub). lia.
Qed.

(** A sorted sublist that is as long is the same. *)
Lemma sorted_full l k : sorted l -> sorted k -> (forall z, z ∈ l -> z ∈ k) -> length l = length k -> l = k.
Proof.
  intros Hl Hk Hsub Hlen. apply sorted_ext; [done|done|]. intros z. split; [apply Hsub|]. intros Hz.
  destruct (decide (z ∈ l)) as [|Hn]; [done|]. exfalso.
  assert (length (z :: l) <= length k)%nat as Hle; [|cbn [length] in Hle; lia].
  apply submseteq_length, NoDup_submseteq.
  - constructor; [done|by apply sorted_nodup].
  - intros y [->|Hy]%elem_of_cons; [done|by apply Hsub].
Qed.

(** From position [i] on the two results have the same cells. *)
Definition agree (a b : cqr) (i : nat) : Prop := forall k, (i <= k)%nat -> m_desc a !! k = m_desc b !! k /\ m_idx a !! k = m_idx b !! k.

Lemma agree_refl a i : agree a a i.
Proof. by intros k _. Qed.

Lemma agree_next a b i : agree a b i -> agree a b (S i).
Proof. intros Ha k Hk. apply Ha. lia. Qed.

Lemma agree_trans a b c i j : agree a b i -> agree b c j -> (i <= j)%nat -> agree a c j.
Proof. intros Ha Hb Hij k Hk. destruct (Ha k) as [-> ->]; [lia|]. by apply Hb. Qed.

Lemma newDesc_id full fet c : 0 <= c < 2 ^ 30 -> newDesc full fet c = mkDesc full fet c.
Proof. intros Hc. unfold newDesc. by rewrite wrap_small by (unfold fits; lia). Qed.

Section ops.
Context {St : Type} {IS : IndexStore St} {ISO : IndexStoreOk St} (store : St) (ci : cell_info).
Context (L : list (list Z)) (F : Z) (Hdb : db_ok store ci L).
Abbreviation c_ok := (cell_ok ci L F).
Abbreviation c_rep := (cells_rep ci L F).
Abbreviation q_rep := (cqr_rep ci L F).

Lemma full_items_ok c : 0 <= c < ci_cellSize ci ->
  storable (full_items ci L F c) /\ zlen (full_items ci L F c) = ci_cellItemsCount ci c.
Proof using Hdb.
  intros Hc. destruct (db_items _ _ _ Hdb c Hc) as (id & l & Hp & Hl & Hn). pose proof (st_storable _ _ _ _ (db_store _ _ _ Hdb) Hl) as Hst.
  unfold full_items. destruct (has_flag F FF_CELL_LOCAL_ITEM_IDS).
  - destruct Hst as (_ & _ & Hlen). split; [|rewrite length_seqZ; lia]. split; [apply seqZ_sorted|]. split; [|rewrite length_seqZ; lia].
    apply Forall_forall. intros z Hz%elem_of_seqZ. lia.
  - rewrite Hp, Nat2Z.id, Hl. done.
Qed.

Lemma sub_storable c l : 0 <= c < ci_cellSize ci -> sorted l -> (forall z, z ∈ l -> z ∈ full_items ci L F c) -> storable l.
Proof using Hdb.
  intros Hc Hs Hsub. destruct (full_items_ok c Hc) as [(_ & H31 & Hn) _]. split; [done|]. split.
  - apply Forall_forall. intros z Hz%Hsub. unfold ids31 in H31. rewrite Forall_forall in H31. by apply H31.
  - pose proof (sorted_sub_len l _ Hs Hsub). lia.
Qed.

Lemma fullIdx_ok c : 0 <= c < ci_cellSize ci -> exists i, fullIdx store ci F c = Ok i /\ ii_rep i (full_items ci L F c).
Proof using Hdb.
  intros Hc. destruct (db_items _ _ _ Hdb c Hc) as (id & l & Hp & Hl & Hn). pose proof (st_storable _ _ _ _ (db_store _ _ _ Hdb) Hl) as (_ & _ & Hs).
  unfold fullIdx, full_items. destruct (has_flag F FF_CELL_LOCAL_ITEM_IDS).
  - apply range_ok; [by apply (st_types_ok _ _ (db_store _ _ _ Hdb))|lia].
  - rewrite Hp, Nat2Z.id, Hl. apply (st_at_ok _ _ _ _ (db_store _ _ _ Hdb) Hl).
Qed.

Lemma c_ok_storable d s l : c_ok d s l -> storable l.
Proof using Hdb. intros Hd. apply (sub_storable (cellId d)); apply Hd. Qed.

Lemma rep_at c m i k l : c_rep c m -> m !! i = Some (k, l) ->
  exists d s, m_desc c !! i = Some d /\ m_idx c !! i = Some s /\ cellId d = k /\ c_ok d s l.
Proof using.
  intros Hc Hm. pose proof (lookup_lt_Some _ _ _ Hm) as Hi.
  destruct (lookup_lt_is_Some_2 (m_desc c) i) as [d Hd]; [by rewrite (cr_len _ _ _ _ _ Hc)|].
  destruct (lookup_lt_is_Some_2 (m_idx c) i) as [s Hs]; [pose proof (cr_room _ _ _ _ _ Hc); lia|].
  destruct (cr_cell _ _ _ _ _ Hc i d s Hd Hs) as (l' & Hm' & Hok). rewrite Hm in Hm'. injection Hm' as -> ->. by exists d, s.
Qed.

(** Changing how a cell is stored does not change what the result stands for. *)
Lemma rep_update c m i d s d' s' l : c_rep c m -> m_desc c !! i = Some d -> m_idx c !! i = Some s -> m !! i = Some (cellId d, l) ->
  cellId d' = cellId d -> c_ok d' s' l ->
  c_rep (mkCqr (m_flags c) (<[i := d']> (m_desc c)) (<[i := s']> (m_idx c))) m /\
  agree c (mkCqr (m_flags c) (<[i := d']> (m_desc c)) (<[i := s']> (m_idx c))) (S i).
Proof using.
  intros [Hf Hn Hr Hc] Hd Hs Hm Hid Hok. split.
  - split; cbn [m_flags m_desc m_idx]; rewrite ?length_insert; try done. intros j e t He Ht. destruct (decide (i = j)) as [<-|Hij].
    + rewrite list_lookup_insert_eq in He by (by eapply lookup_lt_Some). rewrite list_lookup_insert_eq in Ht by (by eapply lookup_lt_Some).
      injection He as <-. injection Ht as <-. exists l. by rewrite Hid.
    + rewrite list_lookup_insert_ne in He by done. rewrite list_lookup_insert_ne in Ht by done. by apply Hc.
  - intros j Hj. cbn [m_desc m_idx]. rewrite !list_lookup_insert_ne by lia. done.
Qed.

Lemma slot_ptr c i p : m_idx c !! i = Some (SPtr p) -> idxPtr_at c (Z.of_nat i) = Ok p.
Proof using. intros Hi. unfold idxPtr_at. by rewrite (at_ok _ _ _ Hi). Qed.

Lemma slot_idx c i x : m_idx c !! i = Some (SIdx x) -> idx_at c (Z.of_nat i) = Ok x.
Proof using. intros Hi. unfold idx_at. by rewrite (at_ok _ _ _ Hi). Qed.

Lemma cqr_idx_ok a A i c l : q_rep a A -> A !! i = Some (c, l) ->
  exists a' x, cqr_idx store ci a (Z.of_nat i) = Ok (a', x) /\ ii_rep x l /\ q_rep a' A /\ agree a a' (S i).
Proof using Hdb.
  intros [Ha Hs] Hi. destruct (rep_at a A i c l Ha Hi) as (d & s & Hd & Hsl & <- & Hok). unfold cqr_idx.
  rewrite (at_ok _ _ _ Hd), bind_ok_l. pose proof (co_slot _ _ _ _ _ _ Hok) as Hslot. destruct (fetched d) eqn:Hfet.
  - destruct Hslot as (x & -> & Hx). rewrite (slot_idx _ _ _ Hsl), bind_ok_l. exists a, x. do 3 (split; [done|]). apply agree_refl.
  - destruct Hslot as (p & -> & Hp). rewrite (slot_ptr _ _ _ Hsl), bind_ok_l.
    assert (exists x, (if fullMatch d then fullIdx store ci (m_flags a) (cellId d) else st_at store p) = Ok x /\ ii_rep x l) as (x & Hx & Hrep).
    { destruct (fullMatch d) eqn:Hfull.
      - rewrite (cr_flags _ _ _ _ _ Ha), (co_full _ _ _ _ _ _ Hok Hfull). apply fullIdx_ok, Hok.
      - destruct (Hp eq_refl) as (id & -> & Hl). apply (st_at_ok _ _ _ _ (db_store _ _ _ Hdb) Hl). }
    rewrite Hx, bind_ok_l. unfold uncheckedSet, set_slot. pose proof (lookup_lt_Some _ _ _ Hsl).
    rewrite (proj2 (Z.ltb_lt _ _)), bind_ok_l, Nat2Z.id by lia. cbn [m_flags m_desc m_idx].
    destruct (rep_update a A i d (SPtr p) (mkDesc (fullMatch d) true (cellId d)) (SIdx x) l Ha Hd Hsl Hi eq_refl) as [Hrep' Hag].
    { destruct Hok. split; try done. cbn. by exists x. }
    eexists _, x. split; [reflexivity|]. split; [done|]. by split.
Qed.

(** ** Building the result *)

Section builder.
(** [r] stands for [R] and has room for [n] more cells; [cap] slots were allocated. *)
Context (cap : nat).
Definition building (r : cqr) (R : cells) (n : nat) : Prop := c_rep r R /\ length (m_idx r) = cap /\ (length R + n <= cap)%nat.

Lemma building_less r R n k : building r R n -> (k <= n)%nat -> building r R k.
Proof using. intros (Hr & Hc & Hn) Hk. split; [done|]. split; [done|lia]. Qed.

Lemma push_cell_ok r R n s d l : building r R (S n) -> c_ok d s l ->
  exists r', push_cell r s d = Ok r' /\ building r' (R ++ [(cellId d, l)]) n.
Proof using.
  intros (Hr & Hcap & Hn) Hok. pose proof (cr_len _ _ _ _ _ Hr) as Hlen. unfold push_cell, set_slot.
  rewrite (proj2 (Z.ltb_lt _ _)), bind_ok_l, Nat2Z.id by lia. eexists. split; [done|]. unfold push_desc. cbn [m_flags m_desc m_idx].
  split; [split; cbn [m_flags m_desc m_idx]|cbn [m_idx]; rewrite length_insert, length_app; cbn [length]; split; [done|lia]].
  - apply Hr.
  - rewrite !length_app. cbn [length]. lia.
  - rewrite length_insert, length_app. cbn [length]. lia.
  - intros i e t He Ht. destruct (decide (i = length (m_desc r))) as [->|Hi].
    + rewrite list_lookup_middle in He by done. injection He as <-. rewrite list_lookup_insert_eq in Ht by lia. injection Ht as <-.
      exists l. split; [|done]. by rewrite list_lookup_middle.
    + pose proof (lookup_lt_Some _ _ _ He) as Hlt. rewrite length_app in Hlt. cbn [length] in Hlt.
      rewrite lookup_app_l in He by lia. rewrite list_lookup_insert_ne in Ht by done.
      destruct (cr_cell _ _ _ _ _ Hr i e t He Ht) as (l' & Hl' & Hok'). exists l'. split; [|done]. by apply lookup_app_l_Some.
Qed.

(** A fetched index, an id of the store, or a full match, as a cell. *)
Lemma new_partial d s l i res : c_ok d s l -> sorted res -> (forall z, z ∈ res -> z ∈ full_items ci L F (cellId d)) -> ii_rep i res ->
  c_ok (newDesc false true (cellId d)) (SIdx i) res /\ cellId (newDesc false true (cellId d)) = cellId d.
Proof using Hdb.
  intros Hd Hs Hsub Hi. pose proof (co_id _ _ _ _ _ _ Hd) as Hid. pose proof (db_cells _ _ _ Hdb).
  rewrite newDesc_id by lia. split; [|done]. split; cbn; try done. by exists i.
Qed.

Lemma copy_cell_ok a A i c l r R n : c_rep a A -> A !! i = Some (c, l) -> building r R (S n) ->
  exists r', copy_cell a (Z.of_nat i) r = Ok r' /\ building r' (R ++ [(c, l)]) n.
Proof using.
  intros Ha Hi Hr. destruct (rep_at a A i c l Ha Hi) as (d & s & Hd & Hsl & <- & Hok). unfold copy_cell.
  rewrite (at_ok _ _ _ Hd), bind_ok_l. pose proof (co_slot _ _ _ _ _ _ Hok) as Hslot. destruct (fetched d) eqn:Hfet.
  - destruct Hslot as (x & -> & Hx). rewrite (slot_idx _ _ _ Hsl), bind_ok_l. by apply push_cell_ok.
  - destruct Hslot as (p & -> & Hp). rewrite (slot_ptr _ _ _ Hsl), bind_ok_l. by apply push_cell_ok.
Qed.

Lemma copy_if_ok keep a A i c l r R m n : c_rep a A -> A !! i = Some (c, l) -> building r R m -> (n <= m)%nat -> (keep = true -> m = S n) ->
  exists r', copy_if keep a (Z.of_nat i) r = Ok r' /\ building r' (R ++ if keep then [(c, l)] else []) n.
Proof using.
  intros Ha Hi Hr Hn Hm. destruct keep; cbn [copy_if].
  - rewrite (Hm eq_refl) in Hr. by apply (copy_cell_ok a A i).
  - exists r. rewrite app_nil_r. split; [done|]. by apply (building_less r R m).
Qed.

Lemma copy_rest_ok X pre a A r R n : c_rep a A -> A = pre ++ X -> zlen A < 2 ^ 32 -> building r R (length X + n) ->
  exists r', copy_rest (length X) a (zlen pre) r = Ok r' /\ building r' (R ++ X) n.
Proof using.
  revert pre r R. induction X as [|[c l] X IH]; intros pre r R Ha HA Hn Hr; cbn [length copy_rest].
  { exists r. rewrite app_nil_r. by split. }
  destruct (copy_cell_ok a A (length pre) c l r R (length X + n) Ha) as (r1 & -> & Hr1); [by rewrite HA, list_lookup_middle|done|].
  rewrite bind_ok_l. assert (zlen pre + 1 = zlen (pre ++ [(c, l)])) as Hp by (rewrite length_app; cbn [length]; lia).
  rewrite wrap_small by (unfold fits; rewrite HA, length_app in Hn; cbn [length] in Hn; lia). rewrite Hp.
  destruct (IH (pre ++ [(c, l)]) r1 (R ++ [(c, l)]) Ha) as (r2 & -> & Hr2); [by rewrite <- app_assoc|done|done|].
  exists r2. split; [done|]. by rewrite <- app_assoc in Hr2.
Qed.

(** ** The loop *)

(** What a handler does to the common cell at positions [i] and [j]; an [exact] one always
    keeps the cell. *)
Definition handles (exact : bool) (equal : handler) (f : Z -> Prop -> Prop -> Prop) (a0 b0 : cqr) (A B : cells) : Prop :=
  forall a b r R n (i j : nat) c l k, q_rep a A -> q_rep b B -> agree a0 a i -> agree b0 b j ->
    A !! i = Some (c, l) -> B !! j = Some (c, k) -> building r R (S n) ->
    exists a' b' r' out, equal a b r (Z.of_nat i) (Z.of_nat j) = Ok (a', b', r') /\
      q_rep a' A /\ q_rep b' B /\ agree a a' (S i) /\ agree b b' (S j) /\
      (exact = true -> length out = 1%nat) /\ out_ok (f c) c l k out /\ building r' (R ++ out) n.

(** The cells the loop may still add. *)
Definition needs (keepMy keepO : bool) (X Y : cells) : nat :=
  match keepMy, keepO with
  | false, false => length X `min` length Y
  | true, false => length X
  | false, true => length Y
  | true, true => length X + length Y
  end.

Lemma snoc_pos {A} (pre : list A) x : zlen pre + 1 = zlen (pre ++ [x]).
Proof using. rewrite length_app. cbn [length]. lia. Qed.

Lemma cell_loop_ok exact keepMy keepO equal f a0 b0 A B (Hh : handles exact equal f a0 b0 A B) : zlen A < 2 ^ 31 -> zlen B < 2 ^ 31 ->
  forall fuel a b r R preA preB X Y, q_rep a A -> q_rep b B -> A = preA ++ X -> B = preB ++ Y ->
  agree a0 a (length preA) -> agree b0 b (length preB) -> building r R (needs keepMy keepO X Y) -> (length X + length Y < fuel)%nat ->
  exists a' b' r' preA' preB' X' Y' R', cell_loop keepMy keepO equal fuel a b r (zlen preA) (zlen preB) = Ok (a', b', r', zlen preA', zlen preB') /\
    q_rep a' A /\ q_rep b' B /\ A = preA' ++ X' /\ B = preB' ++ Y' /\ (X' = [] \/ Y' = []) /\
    building r' (R ++ R') (needs keepMy keepO X' Y') /\ (forall T, cmerge keepMy keepO f X' Y' T -> cmerge keepMy keepO f X Y (R' ++ T)) /\
    (exact && keepMy && keepO = true -> (length X <= length R' + length X' /\ length Y <= length R' + length Y')%nat).
Proof using.
  intros HnA HnB. induction fuel as [|fuel IH]; intros a b r R preA preB X Y Ha Hb HA HB Hga Hgb Hr Hf; [lia|]. cbn [cell_loop].
  rewrite (cr_len _ _ _ _ _ (proj1 Ha)), (cr_len _ _ _ _ _ (proj1 Hb)).
  assert (zlen A = zlen preA + zlen X /\ zlen B = zlen preB + zlen Y) as [HlA HlB] by (rewrite HA, HB, !length_app; lia).
  destruct X as [|[c l] X].
  { rewrite (proj2 (Z.ltb_ge _ _)) by (cbn [length] in HlA; lia). cbn [andb]. exists a, b, r, preA, preB, [], Y, []. rewrite (app_nil_r R).
    do 5 (split; [done|]). split; [by left|]. split; [done|]. split; [done|]. cbn [length]. lia. }
  destruct Y as [|[d k] Y].
  { rewrite (proj2 (Z.ltb_ge (zlen preB) _)), andb_false_r by (cbn [length] in HlB; lia).
    exists a, b, r, preA, preB, ((c, l) :: X), [], []. rewrite (app_nil_r R).
    do 5 (split; [done|]). split; [by right|]. split; [done|]. split; [done|]. cbn [length]. lia. }
  cbn [length] in *. rewrite !(proj2 (Z.ltb_lt _ _)) by lia. cbn [andb].
  assert (A !! length preA = Some (c, l)) as HcA by (by rewrite HA, list_lookup_middle).
  assert (B !! length preB = Some (d, k)) as HcB by (by rewrite HB, list_lookup_middle).
  destruct (rep_at a A _ c l (proj1 Ha) HcA) as (e & s & He & _ & <- & _). destruct (rep_at b B _ d k (proj1 Hb) HcB) as (g & t & Hg & _ & <- & _).
  rewrite (at_ok _ _ _ He), (at_ok _ _ _ Hg), !bind_ok_l, !wrap_small by (unfold fits; lia). rewrite (snoc_pos preA (cellId e, l)), (snoc_pos preB (cellId g, k)).
  assert (A = (preA ++ [(cellId e, l)]) ++ X) as HA' by (by rewrite <- app_assoc). assert (B = (preB ++ [(cellId g, k)]) ++ Y) as HB' by (by rewrite <- app_assoc).
  assert (agree a0 a (length (preA ++ [(cellId e, l)]))) as Hga' by (rewrite length_app, Nat.add_1_r; by apply agree_next).
  assert (agree b0 b (length (preB ++ [(cellId g, k)]))) as Hgb' by (rewrite length_app, Nat.add_1_r; by apply agree_next).
  set (XX := (cellId e, l) :: X) in *. set (YY := (cellId g, k) :: Y) in *.
  assert (length XX = S (length X) /\ length YY = S (length Y)) as [HlX HlY] by done.
  destruct (Z.ltb_spec (cellId e) (cellId g)) as [Hlt|Hge]; [|destruct (Z.ltb_spec (cellId g) (cellId e)) as [Hgt|Hle]].
  - destruct (copy_if_ok keepMy a A _ _ l r R _ (needs keepMy keepO X YY) (proj1 Ha) HcA Hr) as (r1 & -> & Hr1);
      [unfold needs; destruct keepMy, keepO; lia|intros ->; unfold needs; destruct keepO; lia|]. rewrite bind_ok_l.
    destruct (IH a b r1 _ (preA ++ [(cellId e, l)]) preB X YY Ha Hb HA' HB Hga' Hgb Hr1) as (a' & b' & r' & pA & pB & X' & Y' & R' & E & H1 & H2 & H3 & H4 & H5 & H6 & H7 & H8); [lia|].
    eexists a', b', r', pA, pB, X', Y', _. split; [exact E|]. do 5 (split; [done|]). rewrite <- app_assoc in H6. split; [exact H6|].
    split; [intros T HT; rewrite <- app_assoc; by apply cm_lt; [|apply H7]|].
    intros Hex. destruct (H8 Hex). rewrite !andb_true_iff in Hex. destruct Hex as [[_ ->] _]. rewrite length_app. cbn [length]. lia.
  - destruct (copy_if_ok keepO b B _ _ k r R _ (needs keepMy keepO XX Y) (proj1 Hb) HcB Hr) as (r1 & -> & Hr1);
      [unfold needs; destruct keepMy, keepO; lia|intros ->; unfold needs; destruct keepMy; lia|]. rewrite bind_ok_l.
    destruct (IH a b r1 _ preA (preB ++ [(cellId g, k)]) XX Y Ha Hb HA HB' Hga Hgb' Hr1) as (a' & b' & r' & pA & pB & X' & Y' & R' & E & H1 & H2 & H3 & H4 & H5 & H6 & H7 & H8); [lia|].
    eexists a', b', r', pA, pB, X', Y', _. split; [exact E|]. do 5 (split; [done|]). rewrite <- app_assoc in H6. split; [exact H6|].
    split; [intros T HT; rewrite <- app_assoc; by apply cm_gt; [|apply H7]|].
    intros Hex. destruct (H8 Hex). rewrite !andb_true_iff in Hex. destruct Hex as [[_ _] ->]. rewrite length_app. cbn [length]. lia.
  - assert (cellId g = cellId e) as Heq by lia. rewrite Heq in *. assert (needs keepMy keepO XX YY = S (Nat.pred (needs keepMy keepO XX YY))) as Hnd
      by (unfold needs; destruct keepMy, keepO; lia). rewrite Hnd in Hr.
    destruct (Hh a b r R _ _ _ _ l k Ha Hb Hga Hgb HcA HcB Hr) as (a1 & b1 & r1 & out & -> & Ha1 & Hb1 & Hsa & Hsb & Hone & Hout & Hr1). rewrite bind_ok_l.
    apply (building_less r1 (R ++ out) _ (needs keepMy keepO X Y)) in Hr1; [|unfold needs; destruct keepMy, keepO; lia].
    destruct (IH a1 b1 r1 (R ++ out) (preA ++ [(cellId e, l)]) (preB ++ [(cellId e, k)]) X Y Ha1 Hb1 HA' HB') as (a' & b' & r' & pA & pB & X' & Y' & R' & E & H1 & H2 & H3 & H4 & H5 & H6 & H7 & H8);
      [rewrite length_app, Nat.add_1_r; eapply agree_trans; [exact Hga|exact Hsa|lia]|rewrite length_app, Nat.add_1_r; eapply agree_trans; [exact Hgb|exact Hsb|lia]|done|lia|].
    eexists a', b', r', pA, pB, X', Y', _. split; [exact E|]. do 5 (split; [done|]). rewrite <- app_assoc in H6. split; [exact H6|].
    subst YY. rewrite Heq. split; [intros T HT; rewrite <- app_assoc; by apply (cm_eq keepMy keepO f (cellId e) l k X Y out (R' ++ T) Hout), H7|].
    intros Hex. destruct (H8 Hex). rewrite !andb_true_iff in Hex. destruct Hex as [[Hex _] _]. rewrite length_app, (Hone Hex). cbn [length]. lia.
Qed.

(** ** The handlers *)

(** A cell that is matched in full on one side and in part on the other, none of them
    fetched, where the slots hold the same value: for the full one it means nothing. *)
Definition clash (a b : cqr) (c : Z) : Prop := exists i j d e p,
  m_desc a !! i = Some d /\ m_idx a !! i = Some (SPtr p) /\ m_desc b !! j = Some e /\ m_idx b !! j = Some (SPtr p) /\
  cellId d = c /\ cellId e = c /\ fetched d = false /\ fetched e = false /\ fullMatch d <> fullMatch e.

Lemma key_unique (A : cells) i j c l k : sorted (keys A) -> A !! i = Some (c, l) -> A !! j = Some (c, k) -> i = j.
Proof using.
  intros Hs Hi Hj. apply (NoDup_lookup (keys A) i j c); [by apply sorted_nodup| |]; unfold keys; rewrite list_lookup_fmap.
  - by rewrite Hi.
  - by rewrite Hj.
Qed.

Lemma out_one f c l k l' : (forall z, z ∈ l' <-> f (z ∈ l) (z ∈ k)) -> out_ok f c l k [(c, l')].
Proof using. intros Hz. split; [right; by exists l'|]. intros z. cbn. by rewrite app_nil_r. Qed.

Lemma out_none f c l k : (forall z, ~ f (z ∈ l) (z ∈ k)) -> out_ok f c l k [].
Proof using. intros Hz. split; [by left|]. intros z. split; [intros []%elem_of_nil|]. by intros []%Hz. Qed.

(** Both operands at a common cell. *)
Lemma both_at a b A B i j c l k : q_rep a A -> q_rep b B -> A !! i = Some (c, l) -> B !! j = Some (c, k) ->
  exists d s e t, m_desc a !! i = Some d /\ m_idx a !! i = Some s /\ m_desc b !! j = Some e /\ m_idx b !! j = Some t /\
    cellId d = c /\ cellId e = c /\ c_ok d s l /\ c_ok e t k.
Proof using.
  intros [Ha _] [Hb _] Hi Hj. destruct (rep_at a A i c l Ha Hi) as (d & s & ? & ? & ? & ?).
  destruct (rep_at b B j c k Hb Hj) as (e & t & ? & ? & ? & ?). by exists d, s, e, t.
Qed.

Lemma same_ptr_ok a b i j d s e t l k : m_idx a !! i = Some s -> m_idx b !! j = Some t -> c_ok d s l -> c_ok e t k ->
  exists v, same_ptr a b (Z.of_nat i) (Z.of_nat j) d e = Ok v /\
    (v = true <-> fetched d = false /\ fetched e = false /\ exists p, s = SPtr p /\ t = SPtr p).
Proof using.
  intros Hs Ht Hd He. unfold same_ptr. pose proof (co_slot _ _ _ _ _ _ Hd) as Hsd. pose proof (co_slot _ _ _ _ _ _ He) as Hse.
  destruct (fetched d); [exists false; split; [done|]; split; [done|by intros []]|].
  destruct (fetched e); [exists false; split; [done|]; split; [done|by intros (_ & [] & _)]|]. cbn [orb].
  destruct Hsd as (p & -> & _), Hse as (q & -> & _). rewrite (slot_ptr _ _ _ Hs), (slot_ptr _ _ _ Ht), !bind_ok_l.
  exists (p =? q). split; [done|]. rewrite Z.eqb_eq. split; [intros ->; do 2 (split; [done|]); by exists q|].
  by intros (_ & _ & p' & [= <-] & [= <-]).
Qed.

(** Two partial cells with the same id have the same items. *)
Lemma same_items d e p l k : c_ok d (SPtr p) l -> c_ok e (SPtr p) k -> fetched d = false -> fetched e = false ->
  fullMatch d = false -> fullMatch e = false -> l = k.
Proof using.
  intros Hd He Hfd Hfe Hmd Hme. pose proof (co_slot _ _ _ _ _ _ Hd) as Hsd. pose proof (co_slot _ _ _ _ _ _ He) as Hse.
  rewrite Hfd in Hsd. rewrite Hfe in Hse. destruct Hsd as (p1 & [= <-] & H1), Hse as (p2 & [= <-] & H2).
  destruct (H1 Hmd) as (id & -> & Hl), (H2 Hme) as (id' & E & Hk). apply Nat2Z.inj in E as <-. congruence.
Qed.

(** The two indexes, fetched, and an operation on them. *)
Lemma fetch_op (g : index -> index -> result index) op a b A B i j c l k :
  (forall x y X Y, ii_rep x X -> ii_rep y Y -> zlen X + zlen Y < 2 ^ 29 -> exists r, g x y = Ok r /\ ii_rep r (merge op X Y)) ->
  op_wf op -> q_rep a A -> q_rep b B -> A !! i = Some (c, l) -> B !! j = Some (c, k) ->
  exists a' b' x y r res, cqr_idx store ci a (Z.of_nat i) = Ok (a', x) /\ cqr_idx store ci b (Z.of_nat j) = Ok (b', y) /\ g x y = Ok r /\ ii_rep r res /\
    q_rep a' A /\ q_rep b' B /\ agree a a' (S i) /\ agree b b' (S j) /\
    sorted res /\ (forall z, z ∈ res <-> keeps op (z ∈ l) (z ∈ k)) /\ (forall z, z ∈ res -> z ∈ full_items ci L F c).
Proof using Hdb.
  intros Hg Hop Ha Hb Hi Hj. destruct (both_at a b A B i j c l k Ha Hb Hi Hj) as (d & s & e & t & _ & _ & _ & _ & <- & He & Hd & Hoe).
  destruct (cqr_idx_ok a A i _ l Ha Hi) as (a' & x & -> & Hx & Ha' & Hga). destruct (cqr_idx_ok b B j _ k Hb Hj) as (b' & y & -> & Hy & Hb' & Hgb).
  destruct (c_ok_storable _ _ _ Hd) as (Hsl & _ & Hnl). destruct (c_ok_storable _ _ _ Hoe) as (Hsk & _ & Hnk).
  destruct (Hg x y l k Hx Hy) as (r & Hr & Hrep); [lia|]. exists a', b', x, y, r, (merge op l k).
  destruct (merge_spec op l k Hop Hsl Hsk) as [Hs Hz]. do 9 (split; [done|]). split; [done|].
  intros z [(Hzl & _)|[(Hzl & _)|(_ & Hzk & _)]]%Hz; [by apply Hd|by apply Hd|]. rewrite <- He. by apply Hoe.
Qed.

(** Pushing what an operation left, unless it is nothing. *)
Lemma push_res_ok r R n d s l i res f k : building r R (S n) -> c_ok d s l -> sorted res ->
  (forall z, z ∈ res -> z ∈ full_items ci L F (cellId d)) -> ii_rep i res -> (forall z, z ∈ res <-> f (z ∈ l) (z ∈ k)) ->
  forall (a b : cqr), exists r' out,
  (if negb (ii_size i =? 0) then r ← push_cell r (SIdx i) (newDesc false true (cellId d)); mret (a, b, r) else Ok (a, b, r)) = Ok (a, b, r') /\
  out_ok f (cellId d) l k out /\ building r' (R ++ out) n.
Proof using Hdb.
  intros Hr Hd Hs Hsub Hi Hz a b. rewrite (ii_size_ok i res Hi). destruct (new_partial d s l i res Hd Hs Hsub Hi) as [Hok Hid].
  destruct (Z.eqb_spec (zlen res) 0) as [E|E]; cbn [negb].
  - exists r, []. split; [done|]. rewrite app_nil_r. split; [|by apply (building_less r R (S n)); [|lia]].
    apply out_none. intros z Hfz%Hz. destruct res; [by apply elem_of_nil in Hfz|done].
  - destruct (push_cell_ok r R n _ _ _ Hr Hok) as (r' & -> & Hr'). rewrite Hid in Hr'. exists r', [(cellId d, res)].
    split; [done|]. split; [by apply out_one|done].
Qed.

Lemma both_full_ok a b d s e t l k i j c (h : nat) x r R n : m_idx a !! i = Some s -> m_idx b !! j = Some t ->
  c_ok d s l -> c_ok e t k -> cellId e = cellId d -> fullMatch d = true -> fullMatch e = true ->
  m_idx c !! h = Some x -> (fetched d = false -> fetched e = false -> exists p, x = SPtr p) -> building r R (S n) ->
  exists r', both_full a b (Z.of_nat i) (Z.of_nat j) d e c (Z.of_nat h) r = Ok r' /\ building r' (R ++ [(cellId d, l)]) n.
Proof using Hdb.
  intros Hs Ht Hd He Hid Hfd Hfe Hx Hp Hr. pose proof (co_full _ _ _ _ _ _ Hd Hfd) as Hl. pose proof (co_full _ _ _ _ _ _ He Hfe) as Hk. rewrite Hid in Hk.
  pose proof (co_slot _ _ _ _ _ _ Hd) as Hsd. pose proof (co_slot _ _ _ _ _ _ He) as Hse. pose proof (co_id _ _ _ _ _ _ Hd). pose proof (db_cells _ _ _ Hdb).
  unfold both_full. rewrite newDesc_id by lia.
  assert (exists y, (if fetched e then x ← idx_at b (Z.of_nat j); mret (SIdx x) else if fetched d then x ← idx_at a (Z.of_nat i); mret (SIdx x)
    else p ← idxPtr_at c (Z.of_nat h); mret (SPtr p)) = Ok y /\ c_ok (mkDesc true (fetched e || fetched d) (cellId d)) y l) as (y & -> & Hy).
  { destruct (fetched e); [|destruct (fetched d)]; cbn [orb].
    - destruct Hse as (z & -> & Hz). rewrite (slot_idx _ _ _ Ht), bind_ok_l. eexists. split; [done|]. destruct Hd. split; try done. cbn. exists z. by rewrite Hl, <- Hk.
    - destruct Hsd as (z & -> & Hz). rewrite (slot_idx _ _ _ Hs), bind_ok_l. eexists. split; [done|]. destruct Hd. split; try done. cbn. by exists z.
    - destruct (Hp eq_refl eq_refl) as (p & ->). rewrite (slot_ptr _ _ _ Hx), bind_ok_l. eexists. split; [done|]. destruct Hd. split; try done. cbn. by exists p. }
  rewrite bind_ok_l. destruct (push_cell_ok r R n _ _ _ Hr Hy) as (r' & -> & Hr'). by exists r'.
Qed.

Section handlers.
Context (a0 b0 : cqr) (A B : cells) (Ha0 : q_rep a0 A) (Hb0 : q_rep b0 B).

(** A clash at a cell is a clash of what is there now. *)
Lemma clash_at a b i j c d s e t l k : q_rep a A -> q_rep b B -> agree a0 a i -> agree b0 b j -> A !! i = Some (c, l) -> B !! j = Some (c, k) ->
  m_desc a !! i = Some d -> m_idx a !! i = Some s -> m_desc b !! j = Some e -> m_idx b !! j = Some t -> cellId d = c -> cellId e = c ->
  clash a0 b0 c <-> fetched d = false /\ fetched e = false /\ (exists p, s = SPtr p /\ t = SPtr p) /\ fullMatch d <> fullMatch e.
Proof using Ha0 Hb0.
  intros Ha Hb Hga Hgb Hi Hj Hd Hs He Ht Hcd Hce. destruct (Hga i (le_n i)) as [Hda Hsa]. destruct (Hgb j (le_n j)) as [Hdb' Hsb].
  rewrite Hd in Hda. rewrite Hs in Hsa. rewrite He in Hdb'. rewrite Ht in Hsb. split.
  - intros (i' & j' & d' & e' & p & H1 & H2 & H3 & H4 & H5 & H6 & H7 & H8 & H9).
    destruct (cr_cell _ _ _ _ _ (proj1 Ha0) _ _ _ H1 H2) as (l' & Hl' & _). destruct (cr_cell _ _ _ _ _ (proj1 Hb0) _ _ _ H3 H4) as (k' & Hk' & _).
    rewrite H5 in Hl'. rewrite H6 in Hk'. pose proof (key_unique A i i' c _ _ (proj2 Ha0) Hi Hl') as <-. pose proof (key_unique B j j' c _ _ (proj2 Hb0) Hj Hk') as <-.
    rewrite Hda in H1. rewrite Hsa in H2. rewrite Hdb' in H3. rewrite Hsb in H4. simplify_eq. do 2 (split; [done|]). split; [by exists p|done].
  - intros (H7 & H8 & (p & -> & ->) & H9). by exists i, j, d, e, p.
Qed.

Lemma intersect_handles : handles false (intersect_equal store ci) (fun _ x y => x /\ y) a0 b0 A B.
Proof using Hdb.
  intros a b r R n i j c l k Ha Hb _ _ Hi Hj Hr. destruct (both_at a b A B i j c l k Ha Hb Hi Hj) as (d & s & e & t & Hd & Hs & He & Ht & Hcd & Hce & Hod & Hoe).
  unfold intersect_equal. rewrite (at_ok _ _ _ Hd), (at_ok _ _ _ He), !bind_ok_l.
  destruct (fullMatch d) eqn:Hfd, (fullMatch e) eqn:Hfe.
  - assert (l = k) as <- by (rewrite (co_full _ _ _ _ _ _ Hod Hfd), (co_full _ _ _ _ _ _ Hoe Hfe); by rewrite Hcd, Hce).
    destruct (both_full_ok a b d s e t l l i j b j t r R n Hs Ht Hod Hoe) as (r' & -> & Hr'); try done; [congruence| |].
    { intros _ Hfet. pose proof (co_slot _ _ _ _ _ _ Hoe) as Hse. rewrite Hfet in Hse. destruct Hse as (p & -> & _). by exists p. }
    rewrite bind_ok_l. exists a, b, r', [(c, l)]. rewrite Hcd in Hr'. do 3 (split; [done|]). do 2 (split; [apply agree_refl|]). split; [done|].
    split; [|done]. apply out_one. naive_solver.
  - destruct (copy_cell_ok b B j c k r R n (proj1 Hb) Hj Hr) as (r' & -> & Hr'). rewrite bind_ok_l. exists a, b, r', [(c, k)].
    do 3 (split; [done|]). do 2 (split; [apply agree_refl|]). split; [done|]. split; [|done]. apply out_one. intros z. split; [|by intros []].
    intros Hz. split; [|done]. rewrite (co_full _ _ _ _ _ _ Hod Hfd), Hcd, <- Hce. by apply Hoe.
  - destruct (copy_cell_ok a A i c l r R n (proj1 Ha) Hi Hr) as (r' & -> & Hr'). rewrite bind_ok_l. exists a, b, r', [(c, l)].
    do 3 (split; [done|]). do 2 (split; [apply agree_refl|]). split; [done|]. split; [|done]. apply out_one. intros z. split; [|by intros []].
    intros Hz. split; [done|]. rewrite (co_full _ _ _ _ _ _ Hoe Hfe), Hce, <- Hcd. by apply Hod.
  - destruct (same_ptr_ok a b i j d s e t l k Hs Ht Hod Hoe) as (v & -> & Hv). rewrite bind_ok_l. destruct v.
    + destruct (proj1 Hv eq_refl) as (Hfetd & Hfete & p & -> & ->). pose proof (same_items d e p l k Hod Hoe Hfetd Hfete Hfd Hfe) as <-.
      rewrite (slot_ptr _ _ _ Hs), bind_ok_l. destruct (push_cell_ok r R n _ _ _ Hr Hod) as (r' & -> & Hr'). rewrite bind_ok_l.
      exists a, b, r', [(c, l)]. rewrite Hcd in Hr'. do 3 (split; [done|]). do 2 (split; [apply agree_refl|]). split; [done|]. split; [|done]. apply out_one. naive_solver.
    + destruct (fetch_op ii_intersect IntersectOp a b A B i j c l k) as (a' & b' & x & y & q & res & -> & -> & Hg & Hrep & Ha' & Hb' & Hga & Hgb & Hsr & Hz & Hsub); try done.
      { intros x y X Y Hx Hy Hn. by apply (ii_op_ok x y X Y). }
      rewrite !bind_ok_l, Hg, bind_ok_l. rewrite <- Hcd in Hsub. destruct (push_res_ok r R n d s l q res (fun x y => x /\ y) k Hr Hod Hsr Hsub Hrep) with (a := a') (b := b') as (r' & out & E & Hout & Hr').
      { intros z. rewrite Hz. unfold keeps. cbn. naive_solver. }
      rewrite E. rewrite Hcd in Hout. by exists a', b', r', out.
Qed.
Lemma unite_handles : handles true (unite_equal store ci) (fun _ x y => x \/ y) a0 b0 A B.
Proof using Hdb.
  intros a b r R n i j c l k Ha Hb _ _ Hi Hj Hr. destruct (both_at a b A B i j c l k Ha Hb Hi Hj) as (d & s & e & t & Hd & Hs & He & Ht & Hcd & Hce & Hod & Hoe).
  unfold unite_equal. rewrite (at_ok _ _ _ Hd), (at_ok _ _ _ He), !bind_ok_l.
  assert (forall z, z ∈ l -> z ∈ full_items ci L F c) as Hsl by (rewrite <- Hcd; apply Hod).
  assert (forall z, z ∈ k -> z ∈ full_items ci L F c) as Hsk by (rewrite <- Hce; apply Hoe).
  destruct (fullMatch d) eqn:Hfd; [|destruct (fullMatch e) eqn:Hfe].
  - pose proof (co_full _ _ _ _ _ _ Hod Hfd) as Hl. rewrite Hcd in Hl.
    assert (out_ok (fun x y => x \/ y) c l k [(c, l)]) as Hout by (apply out_one; intros z; split; [by left|intros [?|?]; [done|rewrite Hl; by apply Hsk]]).
    destruct (fullMatch e) eqn:Hfe.
    + destruct (both_full_ok a b d s e t l k i j a i s r R n Hs Ht Hod Hoe) as (r' & -> & Hr'); try done; [congruence| |].
      { intros Hfet _. pose proof (co_slot _ _ _ _ _ _ Hod) as Hse. rewrite Hfet in Hse. destruct Hse as (p & -> & _). by exists p. }
      rewrite bind_ok_l. rewrite Hcd in Hr'. exists a, b, r', [(c, l)]. do 3 (split; [done|]). do 2 (split; [apply agree_refl|]). split; [done|]. by split.
    + destruct (copy_cell_ok a A i c l r R n (proj1 Ha) Hi Hr) as (r' & -> & Hr'). rewrite bind_ok_l. exists a, b, r', [(c, l)].
      do 3 (split; [done|]). do 2 (split; [apply agree_refl|]). split; [done|]. by split.
  - destruct (copy_cell_ok b B j c k r R n (proj1 Hb) Hj Hr) as (r' & -> & Hr'). rewrite bind_ok_l. exists a, b, r', [(c, k)].
    do 3 (split; [done|]). do 2 (split; [apply agree_refl|]). split; [done|]. split; [|done]. apply out_one. intros z. split; [by right|].
    intros [Hz|Hz]; [|done]. rewrite (co_full _ _ _ _ _ _ Hoe Hfe), Hce. by apply Hsl.
  - destruct (same_ptr_ok a b i j d s e t l k Hs Ht Hod Hoe) as (v & -> & Hv). rewrite bind_ok_l. destruct v.
    + destruct (proj1 Hv eq_refl) as (Hfetd & Hfete & p & -> & ->). pose proof (same_items d e p l k Hod Hoe Hfetd Hfete Hfd Hfe) as <-.
      rewrite (slot_ptr _ _ _ Hs), bind_ok_l. destruct (push_cell_ok r R n _ _ _ Hr Hod) as (r' & -> & Hr'). rewrite bind_ok_l.
      exists a, b, r', [(c, l)]. rewrite Hcd in Hr'. do 3 (split; [done|]). do 2 (split; [apply agree_refl|]). split; [done|]. split; [|done]. apply out_one. naive_solver.
    + destruct (fetch_op ii_unite UniteOp a b A B i j c l k) as (a' & b' & x & y & q & res & -> & -> & Hg & Hrep & Ha' & Hb' & Hga & Hgb & Hsr & Hz & Hsub); try done.
      { intros x y X Y Hx Hy Hn. by apply (ii_op_ok x y X Y). }
      rewrite !bind_ok_l, Hg, bind_ok_l, (ii_size_ok q res Hrep).
      assert (forall z, z ∈ res <-> z ∈ l \/ z ∈ k) as Hz' by (intros z; rewrite Hz; unfold keeps; cbn; destruct (decide (z ∈ l)), (decide (z ∈ k)); tauto).
      pose proof (co_id _ _ _ _ _ _ Hod) as Hid. destruct (full_items_ok (cellId d) Hid) as [Hfst Hcnt]. pose proof (db_cells _ _ _ Hdb). rewrite <- Hcd in Hsub.
      assert (exists s' full fet, (if zlen res =? ci_cellItemsCount ci (cellId d)
          then r ← push_cell r (SPtr (ci_cellItemsPtr ci (cellId d))) (newDesc true false (cellId d)); mret (a', b', r)
          else r ← push_cell r (SIdx q) (newDesc false true (cellId d)); mret (a', b', r)) =
          (r ← push_cell r s' (newDesc full fet (cellId d)); mret (a', b', r)) /\ c_ok (newDesc full fet (cellId d)) s' res) as (s' & full & fet & -> & Hok).
      { destruct (Z.eqb_spec (zlen res) (ci_cellItemsCount ci (cellId d))) as [E|E].
        - eexists _, true, false. split; [done|]. rewrite newDesc_id by lia. split; cbn; try done; [|by eexists].
          intros _. apply sorted_full; [done|apply Hfst|done|lia].
        - eexists _, false, true. split; [done|]. by apply (new_partial d s l). }
      destruct (push_cell_ok r R n _ _ _ Hr Hok) as (r' & -> & Hr'). rewrite newDesc_id in Hr' by lia. cbn [cellId] in Hr'. rewrite Hcd in Hr'.
      rewrite bind_ok_l. exists a', b', r', [(c, res)]. do 6 (split; [done|]). split; [by apply out_one|done].
Qed.

(** The common part of difference and symmetric difference. *)
Lemma push_op_ok g op a b r R n i j c d s l k : 
  (forall x y X Y, ii_rep x X -> ii_rep y Y -> zlen X + zlen Y < 2 ^ 29 -> exists r, g x y = Ok r /\ ii_rep r (merge op X Y)) ->
  op_wf op -> q_rep a A -> q_rep b B -> A !! i = Some (c, l) -> B !! j = Some (c, k) -> cellId d = c -> c_ok d s l -> building r R (S n) ->
  exists a' b' r' out, push_op store ci g d a b r (Z.of_nat i) (Z.of_nat j) = Ok (a', b', r') /\
    q_rep a' A /\ q_rep b' B /\ agree a a' (S i) /\ agree b b' (S j) /\ out_ok (keeps op) c l k out /\ building r' (R ++ out) n.
Proof using Hdb.
  intros Hg Hop Ha Hb Hi Hj Hcd Hod Hr.
  destruct (fetch_op g op a b A B i j c l k) as (a' & b' & x & y & q & res & E1 & E2 & Hq & Hrep & Ha' & Hb' & Hga & Hgb & Hsr & Hz & Hsub); try done.
  unfold push_op. rewrite E1, bind_ok_l, E2, bind_ok_l, Hq, bind_ok_l. rewrite <- Hcd in Hsub.
  destruct (push_res_ok r R n d s l q res (keeps op) k Hr Hod Hsr Hsub Hrep Hz a' b') as (r' & out & E & Hout & Hr').
  rewrite E. rewrite Hcd in Hout. by exists a', b', r', out.
Qed.

Lemma diff_handles : handles false (diff_equal store ci) (fun c x y => x /\ ~ y /\ ~ clash a0 b0 c) a0 b0 A B.
Proof using Hdb Ha0 Hb0.
  intros a b r R n i j c l k Ha Hb Hga Hgb Hi Hj Hr. destruct (both_at a b A B i j c l k Ha Hb Hi Hj) as (d & s & e & t & Hd & Hs & He & Ht & Hcd & Hce & Hod & Hoe).
  pose proof (clash_at a b i j c d s e t l k Ha Hb Hga Hgb Hi Hj Hd Hs He Ht Hcd Hce) as Hcl.
  unfold diff_equal. rewrite (at_ok _ _ _ Hd), (at_ok _ _ _ He), !bind_ok_l. destruct (fullMatch e) eqn:Hfe.
  - exists a, b, r, []. rewrite app_nil_r. do 3 (split; [done|]). do 2 (split; [apply agree_refl|]). split; [done|]. split; [|by apply (building_less r R (S n)); [|lia]].
    apply out_none. intros z (Hz & Hn & _). apply Hn. rewrite (co_full _ _ _ _ _ _ Hoe Hfe), Hce, <- Hcd. by apply Hod.
  - destruct (same_ptr_ok a b i j d s e t l k Hs Ht Hod Hoe) as (v & -> & Hv). rewrite bind_ok_l. destruct v.
    + destruct (proj1 Hv eq_refl) as (Hfetd & Hfete & p & -> & ->). exists a, b, r, []. rewrite app_nil_r. do 3 (split; [done|]).
      do 2 (split; [apply agree_refl|]). split; [done|]. split; [|by apply (building_less r R (S n)); [|lia]]. apply out_none. intros z (Hz & Hn & Hnc). destruct (fullMatch d) eqn:Hfd.
      * apply Hnc, Hcl. do 2 (split; [done|]). split; [by exists p|done].
      * by rewrite (same_items d e p l k Hod Hoe Hfetd Hfete Hfd Hfe) in Hz.
    + destruct (push_op_ok ii_difference DifferenceOp a b r R n i j c d s l k) as (a' & b' & r' & out & -> & Ha' & Hb' & Hga' & Hgb' & Hout & Hr'); try done.
      { intros x y X Y Hx Hy Hn. by apply (ii_op_ok x y X Y). }
      exists a', b', r', out. do 6 (split; [done|]). split; [|done]. destruct Hout as [Hone Hz]. split; [done|]. intros z. rewrite Hz. unfold keeps. cbn.
      assert (~ clash a0 b0 c) as Hnc by (intros (H1 & H2 & H3 & _)%Hcl; assert (false = true) by (by apply Hv); done). naive_solver.
Qed.

Lemma symDiff_handles : handles false (symDiff_equal store ci) (fun c x y => (x /\ ~ y \/ ~ x /\ y) /\ ~ clash a0 b0 c) a0 b0 A B.
Proof using Hdb Ha0 Hb0.
  intros a b r R n i j c l k Ha Hb Hga Hgb Hi Hj Hr. destruct (both_at a b A B i j c l k Ha Hb Hi Hj) as (d & s & e & t & Hd & Hs & He & Ht & Hcd & Hce & Hod & Hoe).
  pose proof (clash_at a b i j c d s e t l k Ha Hb Hga Hgb Hi Hj Hd Hs He Ht Hcd Hce) as Hcl.
  unfold symDiff_equal. rewrite (at_ok _ _ _ Hd), (at_ok _ _ _ He), !bind_ok_l. destruct (fullMatch d && fullMatch e) eqn:Hfde.
  - apply andb_true_iff in Hfde as [Hfd Hfe]. exists a, b, r, []. rewrite app_nil_r. do 3 (split; [done|]). do 2 (split; [apply agree_refl|]). split; [done|].
    split; [|by apply (building_less r R (S n)); [|lia]]. apply out_none. intros z [Hz _].
    rewrite (co_full _ _ _ _ _ _ Hod Hfd), (co_full _ _ _ _ _ _ Hoe Hfe), Hcd, Hce in Hz. tauto.
  - destruct (same_ptr_ok a b i j d s e t l k Hs Ht Hod Hoe) as (v & -> & Hv). rewrite bind_ok_l. destruct v.
    + destruct (proj1 Hv eq_refl) as (Hfetd & Hfete & p & -> & ->). exists a, b, r, []. rewrite app_nil_r. do 3 (split; [done|]).
      do 2 (split; [apply agree_refl|]). split; [done|]. split; [|by apply (building_less r R (S n)); [|lia]]. apply out_none. intros z (Hz & Hnc).
      destruct (decide (fullMatch d = fullMatch e)) as [Hfeq|Hfne].
      * destruct (fullMatch d) eqn:Hfd; rewrite <- Hfeq in Hfde; [done|]. rewrite (same_items d e p l k Hod Hoe Hfetd Hfete Hfd (eq_sym Hfeq)) in Hz. tauto.
      * apply Hnc, Hcl. do 2 (split; [done|]). split; [by exists p|done].
    + destruct (push_op_ok ii_symmetricDifference SymmetricDifferenceOp a b r R n i j c d s l k) as (a' & b' & r' & out & -> & Ha' & Hb' & Hga' & Hgb' & Hout & Hr'); try done.
      { intros x y X Y Hx Hy Hn. by apply (ii_op_ok x y X Y). }
      exists a', b', r', out. do 6 (split; [done|]). split; [|done]. destruct Hout as [Hone Hz]. split; [done|]. intros z. rewrite Hz. unfold keeps. cbn.
      assert (~ clash a0 b0 c) as Hnc by (intros (H1 & H2 & H3 & _)%Hcl; assert (false = true) by (by apply Hv); done). naive_solver.
Qed.
End handlers.
End builder.

(** ** The operations *)

Section whole.
Context (garbage : nat -> Z) (a b : cqr) (A B : cells) (Ha : q_rep a A) (Hb : q_rep b B) (HF : has_flag F FF_EMPTY = false).

Lemma rep_few c m : q_rep c m -> zlen m <= 2 ^ 30.
Proof using Hdb.
  intros [Hc Hs]. pose proof (db_cells _ _ _ Hdb). assert (length m = length (keys m)) as -> by (unfold keys; by rewrite length_map).
  assert (zlen (keys m) <= Z.max 0 (2 ^ 30 - 0)); [|lia]. apply sorted_range_len; [done|]. intros k Hk.
  unfold keys in Hk. apply list_elem_of_fmap in Hk as ([k' l] & -> & Hi). apply list_elem_of_lookup in Hi as (i & Hi).
  destruct (rep_at c m i _ l Hc Hi) as (d & s & _ & _ & <- & Hok). pose proof (co_id _ _ _ _ _ _ Hok). cbn. lia.
Qed.

Lemma alloc_ok n : building n (cqr_alloc garbage F n) [] n.
Proof using.
  unfold cqr_alloc, malloc. split; [split; cbn; try done; try lia; intros i d s Hd; by rewrite lookup_nil in Hd|].
  cbn [m_idx]. rewrite length_map, length_seq. split; [done|]. cbn [length]. lia.
Qed.

Lemma flags_ok : flagCheck (m_flags a) (m_flags b) = true.
Proof using Ha Hb HF.
  rewrite (cr_flags _ _ _ _ _ (proj1 Ha)), (cr_flags _ _ _ _ _ (proj1 Hb)). unfold flagCheck. rewrite Z.lor_diag, Z.eqb_refl. cbn [andb].
  unfold has_flag in HF. apply negb_false_iff, Z.eqb_eq in HF. by rewrite HF.
Qed.

(** The loop from the start. *)
Lemma loop_ok exact keepMy keepO equal f cap n : handles cap exact equal f a b A B -> (needs keepMy keepO A B <= n)%nat -> n = cap ->
  exists a' b' r' preA' preB' X' Y' R',
    cell_loop keepMy keepO equal (S (length (m_desc a) + length (m_desc b))) a b (cqr_alloc garbage (m_flags a) n) 0 0 =
      Ok (a', b', r', zlen preA', zlen preB') /\
    q_rep a' A /\ q_rep b' B /\ A = preA' ++ X' /\ B = preB' ++ Y' /\ (X' = [] \/ Y' = []) /\ building cap r' R' (needs keepMy keepO X' Y') /\
    (forall T, cmerge keepMy keepO f X' Y' T -> cmerge keepMy keepO f A B (R' ++ T)) /\
    (exact && keepMy && keepO = true -> (length A <= length R' + length X' /\ length B <= length R' + length Y')%nat) /\
    rest a' (zlen preA') = length X' /\ rest b' (zlen preB') = length Y'.
Proof using Ha Hb Hdb.
  intros Hh Hn ->. rewrite (cr_flags _ _ _ _ _ (proj1 Ha)), (cr_len _ _ _ _ _ (proj1 Ha)), (cr_len _ _ _ _ _ (proj1 Hb)).
  pose proof (rep_few a A Ha). pose proof (rep_few b B Hb).
  destruct (cell_loop_ok cap exact keepMy keepO equal f a b A B Hh) with (fuel := S (length A + length B)) (a := a) (b := b)
    (r := cqr_alloc garbage F cap) (R := @nil (Z * list Z)) (preA := @nil (Z * list Z)) (preB := @nil (Z * list Z)) (X := A) (Y := B)
    as (a' & b' & r' & preA' & preB' & X' & Y' & R' & E & Ha' & Hb' & HA & HB & Hnil & Hr & Hm & Hlen);
    try done; try lia; [apply (building_less cap _ _ cap); [apply alloc_ok|done]|].
  exists a', b', r', preA', preB', X', Y', R'. do 9 (split; [done|]). unfold rest.
  rewrite (cr_len _ _ _ _ _ (proj1 Ha')), (cr_len _ _ _ _ _ (proj1 Hb')), HA, HB, !length_app. split; lia.
Qed.

(** The rests are copied behind the merged cells. *)
Lemma rests_ok cap c C pre X r R n : q_rep c C -> C = pre ++ X -> building cap r R (length X + n) ->
  exists r', copy_rest (length X) c (zlen pre) r = Ok r' /\ building cap r' (R ++ X) n.
Proof using Hdb.
  intros Hc HC Hr. pose proof (rep_few c C Hc). apply (copy_rest_ok cap X pre c C r R n); [apply Hc|done|lia|done].
Qed.

Lemma built keepMy keepO f cap r R n : cmerge keepMy keepO f A B R -> building cap r R n ->
  q_rep r R /\ forall c z, has R c z <-> in3 keepMy keepO f A B c z.
Proof using Ha Hb.
  intros Hm (Hr & _). destruct (cmerge_ok _ _ _ _ _ _ Hm (proj2 Ha) (proj2 Hb)) as [Hs Hin]. split; [by split|done].
Qed.

Lemma intersect_ok : exists a' b' r R, cqr_intersect store ci garbage a b = Ok (a', b', r) /\ q_rep a' A /\ q_rep b' B /\ q_rep r R /\
  forall c z, has R c z <-> in3 false false (fun _ x y => x /\ y) A B c z.
Proof using Ha Hb Hdb HF.
  unfold cqr_intersect. rewrite flags_ok. cbn [negb throw_if]. rewrite bind_ok_l.
  destruct (loop_ok false false false _ _ (length (m_desc a) `min` length (m_desc b))%nat (length (m_desc a) `min` length (m_desc b))%nat (intersect_handles _ a b A B)) as
    (a' & b' & r & pA & pB & X & Y & R & -> & Ha' & Hb' & _ & _ & Hnil & Hr & Hm & _);
    [rewrite (cr_len _ _ _ _ _ (proj1 Ha)), (cr_len _ _ _ _ _ (proj1 Hb)); cbn [needs]; lia|done|]. rewrite bind_ok_l.
  assert (cmerge false false (fun _ x y => x /\ y) A B R) as HR.
  { rewrite <- (app_nil_r R). apply Hm. destruct Hnil as [->| ->]; [apply (cm_nil_l false false)|apply (cm_nil_r false false)]. }
  destruct (built _ _ _ _ _ _ _ HR Hr) as [Hrep Hin]. by exists a', b', r, R.
Qed.

(** The end of union and symmetric difference. *)
Lemma both_rests_ok f cap a' b' r pA pB X Y R : q_rep a' A -> q_rep b' B -> A = pA ++ X -> B = pB ++ Y -> X = [] \/ Y = [] ->
  building cap r R (needs true true X Y) -> (forall T, cmerge true true f X Y T -> cmerge true true f A B (R ++ T)) ->
  rest a' (zlen pA) = length X -> rest b' (zlen pB) = length Y ->
  exists r', (r ← copy_rest (rest a' (zlen pA)) a' (zlen pA) r; copy_rest (rest b' (zlen pB)) b' (zlen pB) r) = Ok r' /\
    building cap r' (R ++ X ++ Y) 0 /\ cmerge true true f A B (R ++ X ++ Y).
Proof using Hdb.
  intros Ha' Hb' HA HB Hnil Hr Hm Hra Hrb. rewrite Hra, Hrb. cbn [needs] in Hr.
  destruct (rests_ok cap a' A pA X r R (length Y) Ha' HA Hr) as (r1 & -> & Hr1). rewrite bind_ok_l. rewrite <- (Nat.add_0_r (length Y)) in Hr1.
  destruct (rests_ok cap b' B pB Y r1 (R ++ X) 0 Hb' HB Hr1) as (r2 & -> & Hr2). exists r2. rewrite <- app_assoc in Hr2. do 2 (split; [done|]).
  apply Hm. destruct Hnil as [->| ->]; [apply (cm_nil_l true true)|rewrite app_nil_r; apply (cm_nil_r true true)].
Qed.

Lemma cqr_unite_ok : exists a' b' r R, cqr_unite store ci garbage a b = Ok (a', b', r) /\ q_rep a' A /\ q_rep b' B /\ q_rep r R /\
  forall c z, has R c z <-> in3 true true (fun _ x y => x \/ y) A B c z.
Proof using Ha Hb Hdb HF.
  unfold cqr_unite. rewrite flags_ok. cbn [negb throw_if]. rewrite bind_ok_l.
  destruct (loop_ok true true true _ _ (length (m_desc a) + length (m_desc b))%nat (length (m_desc a) + length (m_desc b))%nat (unite_handles _ a b A B)) as
    (a' & b' & r & pA & pB & X & Y & R & -> & Ha' & Hb' & HA & HB & Hnil & Hr & Hm & Hex & Hra & Hrb);
    [rewrite (cr_len _ _ _ _ _ (proj1 Ha)), (cr_len _ _ _ _ _ (proj1 Hb)); cbn [needs]; lia|done|]. rewrite bind_ok_l.
  destruct (both_rests_ok _ _ a' b' r pA pB X Y R Ha' Hb' HA HB Hnil Hr Hm Hra Hrb) as (r' & E & Hr' & HR).
  destruct (built _ _ _ _ _ _ _ HR Hr') as [Hrep Hin]. destruct (Hex eq_refl).
  revert E. destruct (copy_rest (rest a' (zlen pA)) a' (zlen pA) r) as [r1|]; [|done]. rewrite !bind_ok_l. intros ->. rewrite bind_ok_l.
  rewrite (cr_len _ _ _ _ _ (proj1 Ha')), (cr_len _ _ _ _ _ (proj1 Hb')), (cr_len _ _ _ _ _ (proj1 Hrep)), !length_app.
  rewrite (proj2 (Z.ltb_ge _ _)) by lia. cbn [throw_if]. rewrite bind_ok_l. by exists a', b', r', (R ++ X ++ Y).
Qed.

Lemma diff_ok : exists a' b' r R, cqr_diff store ci garbage a b = Ok (a', b', r) /\ q_rep a' A /\ q_rep b' B /\ q_rep r R /\
  forall c z, has R c z <-> in3 true false (fun c x y => x /\ ~ y /\ ~ clash a b c) A B c z.
Proof using Ha Hb Hdb HF.
  unfold cqr_diff. rewrite flags_ok. cbn [negb throw_if]. rewrite bind_ok_l.
  destruct (loop_ok false true false _ _ (length (m_desc a)) (length (m_desc a)) (diff_handles _ a b A B Ha Hb)) as
    (a' & b' & r & pA & pB & X & Y & R & -> & Ha' & Hb' & HA & HB & Hnil & Hr & Hm & _ & Hra & _);
    [rewrite (cr_len _ _ _ _ _ (proj1 Ha)); cbn [needs]; lia|done|]. rewrite bind_ok_l, Hra. cbn [needs] in Hr. rewrite <- (Nat.add_0_r (length X)) in Hr.
  destruct (rests_ok _ a' A pA X r R 0 Ha' HA Hr) as (r1 & -> & Hr1). rewrite bind_ok_l.
  assert (cmerge true false (fun c x y => x /\ ~ y /\ ~ clash a b c) A B (R ++ X)) as HR.
  { apply Hm. destruct Hnil as [->| ->]; [apply (cm_nil_l true false)|apply (cm_nil_r true false)]. }
  destruct (built _ _ _ _ _ _ _ HR Hr1) as [Hrep Hin]. destruct Hr1 as (_ & _ & Hcap).
  rewrite (cr_len _ _ _ _ _ (proj1 Ha')), (cr_len _ _ _ _ _ (proj1 Hrep)). rewrite (cr_len _ _ _ _ _ (proj1 Ha)) in Hcap.
  rewrite (proj2 (Z.ltb_ge _ _)) by lia. cbn [throw_if]. rewrite bind_ok_l. by exists a', b', r1, (R ++ X).
Qed.

Lemma symDiff_ok : exists a' b' r R, cqr_symDiff store ci garbage a b = Ok (a', b', r) /\ q_rep a' A /\ q_rep b' B /\ q_rep r R /\
  forall c z, has R c z <-> in3 true true (fun c x y => (x /\ ~ y \/ ~ x /\ y) /\ ~ clash a b c) A B c z.
Proof using Ha Hb Hdb HF.
  unfold cqr_symDiff. rewrite flags_ok. cbn [negb throw_if]. rewrite bind_ok_l.
  destruct (loop_ok false true true _ _ (length (m_desc a) + length (m_desc b))%nat (length (m_desc a) + length (m_desc b))%nat (symDiff_handles _ a b A B Ha Hb)) as
    (a' & b' & r & pA & pB & X & Y & R & -> & Ha' & Hb' & HA & HB & Hnil & Hr & Hm & _ & Hra & Hrb);
    [rewrite (cr_len _ _ _ _ _ (proj1 Ha)), (cr_len _ _ _ _ _ (proj1 Hb)); cbn [needs]; lia|done|]. rewrite bind_ok_l.
  destruct (both_rests_ok _ _ a' b' r pA pB X Y R Ha' Hb' HA HB Hnil Hr Hm Hra Hrb) as (r' & E & Hr' & HR).
  destruct (built _ _ _ _ _ _ _ HR Hr') as [Hrep Hin]. destruct Hr' as (_ & _ & Hcap).
  revert E. destruct (copy_rest (rest a' (zlen pA)) a' (zlen pA) r) as [r1|]; [|done]. rewrite !bind_ok_l. intros ->. rewrite bind_ok_l.
  rewrite (cr_len _ _ _ _ _ (proj1 Ha')), (cr_len _ _ _ _ _ (proj1 Hb')), (cr_len _ _ _ _ _ (proj1 Hrep)).
  rewrite (cr_len _ _ _ _ _ (proj1 Ha)), (cr_len _ _ _ _ _ (proj1 Hb)) in Hcap.
  rewrite (proj2 (Z.ltb_ge _ _)) by lia. cbn [throw_if]. rewrite bind_ok_l. by exists a', b', r', (R ++ X ++ Y).
Qed.
End whole.
(** ** The constructors *)

Section constructors.
Context (garbage : nat -> Z).

(** The slots that no cell uses yet hold ids, of any value. *)
Definition fresh (r : cqr) : Prop := forall i s, (length (m_desc r) <= i)%nat -> m_idx r !! i = Some s -> exists p, s = SPtr p.

Lemma malloc_ptr n i s : malloc garbage n !! i = Some s -> exists p, s = SPtr p.
Proof using. unfold malloc. intros Hs. apply list_lookup_fmap_Some in Hs as (k & -> & _). by eexists. Qed.

Lemma fresh_push r d : fresh r -> fresh (push_desc r d).
Proof using. intros Hr i s Hi. cbn in *. rewrite length_app in Hi. apply Hr. cbn [length] in Hi. lia. Qed.

Lemma push_cell_fresh r s d r' : fresh r -> push_cell r s d = Ok r' -> fresh r'.
Proof using.
  intros Hr. unfold push_cell, set_slot. case_match; [|done]. rewrite bind_ok_l. intros [= <-] i t Hi. cbn [push_desc m_desc m_idx] in *.
  rewrite length_app in Hi. cbn [length] in Hi. rewrite list_lookup_insert_ne by lia. apply Hr. lia.
Qed.

(** A full match needs no slot. *)
Lemma push_full_ok cap r R n c : building cap r R (S n) -> fresh r -> 0 <= c < ci_cellSize ci ->
  building cap (push_desc r (newDesc true false c)) (R ++ [(c, full_items ci L F c)]) n /\ fresh (push_desc r (newDesc true false c)).
Proof using Hdb.
  intros (Hr & Hcap & Hn) Hf Hc. pose proof (db_cells _ _ _ Hdb). rewrite newDesc_id by lia. split; [|by apply fresh_push].
  pose proof (cr_len _ _ _ _ _ Hr) as Hlen.
  split; [split; cbn [push_desc m_flags m_desc m_idx]|split; [done|rewrite length_app; cbn [length]; lia]].
  - apply Hr.
  - rewrite !length_app. cbn [length]. lia.
  - rewrite length_app. cbn [length]. lia.
  - intros i e t He Ht. destruct (decide (i = length (m_desc r))) as [->|Hi].
    + rewrite list_lookup_middle in He by done. injection He as <-. exists (full_items ci L F c). split; [by rewrite list_lookup_middle|].
      destruct (Hf _ t (le_n _) Ht) as (p & ->). split; cbn; try done; [apply full_items_ok, Hc|by exists p].
    + pose proof (lookup_lt_Some _ _ _ He) as Hlt. rewrite length_app in Hlt. cbn [length] in Hlt. rewrite lookup_app_l in He by lia.
      destruct (cr_cell _ _ _ _ _ Hr i e t He Ht) as (l' & Hl' & Hok'). exists l'. split; [|done]. by apply lookup_app_l_Some.
Qed.

(** What the items of the partial matches must be: sorted items of their cells. *)
Definition item_ok {X} (mk : X -> slot) (fetch : bool) (x : X) (cl : Z * list Z) : Prop :=
  0 <= fst cl < ci_cellSize ci /\ c_ok (mkDesc false fetch (fst cl)) (mk x) (snd cl).

Lemma push_item_ok {X} (mk : X -> slot) fetch x c l cap r R n : item_ok mk fetch x (c, l) -> building cap r R (S n) -> fresh r ->
  exists r', set_slot (push_desc r (newDesc false fetch c)) (zlen (m_desc r)) (mk x) = Ok r' /\ building cap r' (R ++ [(c, l)]) n /\
    fresh r' /\ zlen (m_desc r') = zlen (m_desc r) + 1.
Proof using Hdb.
  intros [Hc Hok] Hr Hf. cbn [fst snd] in *. pose proof (db_cells _ _ _ Hdb). rewrite newDesc_id by lia.
  destruct (push_cell_ok cap r R n _ _ _ Hr Hok) as (r' & Hp & Hr'). destruct Hr as (Hrep & Hcap & Hn). pose proof (cr_len _ _ _ _ _ Hrep) as Hlen.
  unfold push_cell, set_slot in *. cbn [push_desc m_idx m_flags m_desc] in *.
  rewrite (proj2 (Z.ltb_lt _ _)) in * by lia. rewrite bind_ok_l in Hp. injection Hp as <-. eexists. split; [reflexivity|]. split; [exact Hr'|].
  split; [|cbn [push_desc m_desc]; rewrite length_app; cbn [length]; lia]. intros i s Hi Hs. cbn [push_desc m_idx m_desc] in *.
  rewrite length_app in Hi. cbn [length] in Hi. rewrite list_lookup_insert_ne in Hs by lia. apply (Hf i s); [lia|done].
Qed.

(** Full matches go first: the abstract counterpart of the loops of the constructors. *)
Definition fulls (fm : list Z) : cells := map (fun c => (c, full_items ci L F c)) fm.

Lemma merge_cells_ok {X} (mk : X -> slot) fetch cap fuel fm pm items r R pos :
  Forall (fun c => 0 <= c < ci_cellSize ci) fm -> Forall2 (item_ok mk fetch) items pm -> building cap r R (length fm + length pm) -> fresh r ->
  (pm <> [] -> pos = zlen (m_desc r)) -> zlen (m_desc r) + zlen fm + zlen pm < 2 ^ 32 -> (length fm + length pm < fuel)%nat ->
  exists r' T, merge_cells mk fetch fuel fm (map fst pm) items r pos = Ok r' /\ building cap r' (R ++ T) 0 /\
    cmerge true true (fun _ x _ => x) (fulls fm) pm T.
Proof using Hdb.
  revert fm pm items r R pos. induction fuel as [|fuel IH]; intros fm pm items r R pos Hfm Hpm Hr Hf Hpos Hlen Hfu; [lia|]. cbn [merge_cells].
  destruct fm as [|f fm], pm as [|[p l] pm]; cbn [map fst length] in *.
  - exists r, []. rewrite app_nil_r. do 2 (split; [done|]). apply (cm_nil_l true true).
  - inversion Hpm as [|x ? items' ? Hx Hpm']; subst. rewrite (at_ok _ 0 x), bind_ok_l, Hpos by done. cbn [tail].
    destruct (push_item_ok mk fetch x p l cap r R (length pm) Hx Hr Hf) as (r1 & -> & Hr1 & Hf1 & Hd1). rewrite bind_ok_l, wrap_small by (unfold fits; lia).
    destruct (IH [] pm items' r1 (R ++ [(p, l)]) (zlen (m_desc r) + 1)) as (r' & T & -> & Hr' & HT); try done; [cbn [length]; lia|cbn [length]; lia|].
    exists r', ((p, l) :: T). rewrite <- app_assoc in Hr'. do 2 (split; [done|]). apply cmerge_alone_l in HT as ->. apply (cm_nil_l true true).
  - inversion Hpm; subst. apply Forall_cons in Hfm as [Hc Hfm]. rewrite Nat.add_0_r in Hr.
    destruct (push_full_ok cap r R (length fm) f Hr Hf Hc) as [Hr1 Hf1].
    destruct (IH fm [] [] (push_desc r (newDesc true false f)) (R ++ [(f, full_items ci L F f)]) pos Hfm Hpm) as (r' & T & E & Hr' & HT);
      try done; [by rewrite Nat.add_0_r|cbn [push_desc m_desc]; rewrite length_app; cbn [length]; lia|cbn [length]; lia|].
    cbn [map] in E. rewrite E.
    exists r', ((f, full_items ci L F f) :: T). rewrite <- app_assoc in Hr'. do 2 (split; [done|]). apply cmerge_alone_r in HT as ->. apply (cm_nil_r true true).
  - inversion Hpm as [|x ? items' ? Hx Hpm']; subst. pose proof Hfm as [Hc Hfm']%Forall_cons. rewrite Hpos in * by done. cbn [tail].
    pose proof (fun n H => push_full_ok cap r R n f H Hf Hc) as Hpush. rewrite (wrap_small 32 (_ + 1)) by (unfold fits; lia).
    assert (forall d, zlen (m_desc (push_desc r d)) = zlen (m_desc r) + 1) as Hpd by (intros d; cbn [push_desc m_desc]; rewrite length_app; cbn [length]; lia).
    destruct (Z.ltb_spec f p) as [Hlt|Hge]; [|destruct (Z.eqb_spec f p) as [<-|Hne]].
    + destruct (Hpush (length fm + S (length pm))%nat Hr) as [Hr1 Hf1].
      destruct (IH fm ((p, l) :: pm) (x :: items') _ _ (zlen (m_desc r) + 1) Hfm' Hpm Hr1 Hf1) as (r' & T & E & Hr' & HT); [by rewrite Hpd|rewrite Hpd; cbn [length]; lia|cbn [length]; lia|].
      cbn [map fst] in E. rewrite E. exists r', ((f, full_items ci L F f) :: T). rewrite <- app_assoc in Hr'. do 2 (split; [done|]). by apply (cm_lt true true).
    + destruct (Hpush (S (length fm + length pm))%nat) as [Hr1 Hf1]; [by replace (S (S (length fm + length pm))) with (S (length fm) + S (length pm))%nat by lia|].
      destruct (IH fm pm items' _ _ (zlen (m_desc r) + 1) Hfm' Hpm' (building_less _ _ _ _ _ Hr1 (Nat.le_succ_diag_r _)) Hf1) as (r' & T & -> & Hr' & HT);
        [by rewrite Hpd|rewrite Hpd; lia|lia|].
      exists r', ((f, full_items ci L F f) :: T). rewrite <- app_assoc in Hr'. do 2 (split; [done|]).
      apply (cm_eq true true (fun _ x _ => x) f (full_items ci L F f) l (fulls fm) pm [(f, full_items ci L F f)]); [by apply out_one|done].
    + rewrite (at_ok _ 0 x), bind_ok_l by done. replace (S (length fm) + S (length pm))%nat with (S (S (length fm) + length pm)) in Hr by lia.
      destruct (push_item_ok mk fetch x p l cap r R _ Hx Hr Hf) as (r1 & -> & Hr1 & Hf1 & Hd1). rewrite bind_ok_l.
      destruct (IH (f :: fm) pm items' r1 _ (zlen (m_desc r) + 1) Hfm Hpm' Hr1 Hf1) as (r' & T & -> & Hr' & HT); [done|cbn [length]; lia|cbn [length]; lia|].
      exists r', ((p, l) :: T). rewrite <- app_assoc in Hr'. do 2 (split; [done|]). apply (cm_gt true true); [lia|done].
Qed.
Lemma fulls_keys fm : keys (fulls fm) = fm.
Proof using. unfold keys, fulls. rewrite map_map. apply map_id. Qed.

Lemma has_fulls fm c z : has (fulls fm) c z <-> c ∈ fm /\ z ∈ full_items ci L F c.
Proof using.
  unfold has, fulls. split.
  - intros (l & Hl & Hz). apply list_elem_of_fmap in Hl as (d & [= -> ->] & Hd). done.
  - intros [Hc Hz]. exists (full_items ci L F c). split; [|done]. apply list_elem_of_fmap. by exists c.
Qed.

(** What such a merge contains. *)
Lemma fulls_merge fm pm T : sorted fm -> sorted (keys pm) -> cmerge true true (fun _ x _ => x) (fulls fm) pm T ->
  sorted (keys T) /\ forall c z, has T c z <-> (c ∈ fm /\ z ∈ full_items ci L F c) \/ (c ∉ fm /\ has pm c z).
Proof using.
  intros Hfs Hps HT. rewrite <- (fulls_keys fm) in Hfs. destruct (cmerge_ok _ _ _ _ _ _ HT Hfs Hps) as [Hs Hin]. split; [done|].
  intros c z. rewrite Hin. unfold in3. rewrite has_fulls, fulls_keys.
  destruct (decide (c ∈ keys pm)) as [Hc|Hc].
  - destruct (key_cell _ _ Hc) as (k & Hk). split.
    + intros [(l & k' & Hl & _ & Hz)|[(_ & _ & ?)|(_ & Hz & Hn)]]; [|done|by right]. left. apply has_fulls. by exists l.
    + intros [[Hf Hz]|[Hn Hz]]; [|by right; right]. left. exists (full_items ci L F c), k. split; [|done]. unfold fulls. apply list_elem_of_fmap. by exists c.
  - split.
    + intros [(l & k' & _ & Hk & _)|[(_ & Hz & _)|(_ & Hz & _)]]; [by destruct (Hc (key_has _ _ _ Hk))|by left|by destruct (Hc (has_key _ _ _ Hz))].
    + intros [Hz|[_ Hz]]; [by right; left|by destruct (Hc (has_key _ _ _ Hz))].
Qed.

Lemma new_ok {X} (mk : X -> slot) fetch fm pm items : sorted fm -> sorted (keys pm) -> Forall (fun c => 0 <= c < ci_cellSize ci) fm ->
  Forall2 (item_ok mk fetch) items pm ->
  exists r R, merge_cells mk fetch (S (length fm + length (keys pm))) fm (keys pm) items (cqr_alloc garbage F (length fm + length (keys pm))) 0 = Ok r /\
    q_rep r R /\ forall c z, has R c z <-> (c ∈ fm /\ z ∈ full_items ci L F c) \/ (c ∉ fm /\ has pm c z).
Proof using Hdb.
  intros Hfs Hps Hfm Hpm. assert (length (keys pm) = length pm) as Hkl by (unfold keys; by rewrite length_map). rewrite Hkl.
  pose proof (db_cells _ _ _ Hdb). assert (zlen fm <= 2 ^ 30) as Hfl.
  { rewrite Forall_forall in Hfm. pose proof (sorted_range_len 0 (2 ^ 30) fm Hfs) as Hl. enough (zlen fm <= Z.max 0 (2 ^ 30 - 0)) by lia. apply Hl. intros z Hz%Hfm. lia. }
  assert (zlen pm <= 2 ^ 30) as Hpl.
  { rewrite <- Hkl. pose proof (sorted_range_len 0 (2 ^ 30) (keys pm) Hps) as Hl. enough (zlen (keys pm) <= Z.max 0 (2 ^ 30 - 0)) by lia. apply Hl.
    intros z Hz. destruct (key_cell _ _ Hz) as (l & Hl'). apply list_elem_of_lookup in Hl' as (i & Hi).
    destruct (Forall2_lookup_r _ _ _ _ _ Hpm Hi) as (x & _ & Hx & _). cbn in Hx. lia. }
  destruct (merge_cells_ok mk fetch (length fm + length pm) (S (length fm + length pm)) fm pm items (cqr_alloc garbage F (length fm + length pm)) [] 0 Hfm Hpm)
    as (r & T & Hm & Hr & HT); [apply alloc_ok|intros i s _; apply malloc_ptr|done|cbn [cqr_alloc m_desc length]; lia|lia|].
  exists r, T. split; [exact Hm|]. destruct (fulls_merge fm pm T Hfs Hps HT) as [Hs Hin]. split; [split; [apply Hr|done]|done].
Qed.

(** ** Observers *)

Lemma destroy_ok c A : c_rep c A -> cqr_destroy c = Ok ().
Proof using.
  intros [_ Hn Hr Hc]. unfold cqr_destroy. assert (length (m_desc c) <= length (m_idx c))%nat as Hle by lia.
  assert (forall i d s, m_desc c !! i = Some d -> m_idx c !! i = Some s -> destroy_slot d s = Ok ()) as Hd.
  { intros i d s Hd Hs. destruct (Hc i d s Hd Hs) as (l & _ & Hok). pose proof (co_slot _ _ _ _ _ _ Hok) as Hsl. unfold destroy_slot.
    destruct (fetched d); [|done]. by destruct Hsl as (i' & -> & _). }
  clear Hn Hr Hc. revert Hle Hd. generalize (m_desc c) (m_idx c). induction l as [|d ds IH]; intros ss Hle Hd; [done|].
  destruct ss as [|s ss]; [cbn in Hle; lia|]. cbn [destroy_from]. rewrite (Hd 0%nat d s eq_refl eq_refl), bind_ok_l.
  apply IH; [cbn in Hle; lia|]. intros i e t He Ht. by apply (Hd (S i)).
Qed.

Lemma idxSize_ok a A i c l : q_rep a A -> A !! i = Some (c, l) -> idxSize store ci a (Z.of_nat i) = Ok (zlen l).
Proof using Hdb.
  intros [Ha _] Hi. destruct (rep_at a A i c l Ha Hi) as (d & s & Hd & Hsl & <- & Hok). unfold idxSize.
  rewrite (at_ok _ _ _ Hd), bind_ok_l. pose proof (co_slot _ _ _ _ _ _ Hok) as Hslot. destruct (fetched d).
  - destruct Hslot as (x & -> & Hx). by rewrite (slot_idx _ _ _ Hsl), bind_ok_l, (ii_size_ok x l Hx).
  - destruct (fullMatch d) eqn:Hf; [by rewrite (co_full _ _ _ _ _ _ Hok Hf), (proj2 (full_items_ok _ (co_id _ _ _ _ _ _ Hok)))|].
    destruct Hslot as (p & -> & Hp). rewrite (slot_ptr _ _ _ Hsl), bind_ok_l. destruct (Hp eq_refl) as (id & -> & Hl).
    apply (st_idxSize_ok _ _ _ _ (db_store _ _ _ Hdb) Hl).
Qed.

Definition items_sum (A : cells) : Z := foldr (fun cl n => zlen (snd cl) + n) 0 A.

Lemma maxItems_from_ok X a A pre tmp : q_rep a A -> A = pre ++ X -> zlen A < 2 ^ 32 ->
  maxItems_from store ci (length X) a (zlen pre) (u32 tmp) = Ok (u32 (tmp + items_sum X)).
Proof using Hdb.
  revert pre tmp. induction X as [|[c l] X IH]; intros pre tmp Ha HA Hn; cbn [length maxItems_from items_sum foldr snd]; [by rewrite Z.add_0_r|].
  rewrite (idxSize_ok a A (length pre) c l Ha), bind_ok_l by (by rewrite HA, list_lookup_middle).
  assert (zlen A = zlen pre + zlen X + 1) as Hl by (rewrite HA, length_app; cbn [length]; lia).
  rewrite (wrap_small 32 (zlen pre + 1)) by (unfold fits; lia). rewrite wrap_add_l by lia. rewrite (snoc_pos pre (c, l)).
  rewrite (IH (pre ++ [(c, l)]) (tmp + zlen l) Ha); [|by rewrite <- app_assoc|done]. do 2 f_equal. fold (items_sum X). lia.
Qed.

(** ** Full matches only *)

Lemma full_rep ids : sorted ids -> Forall (fun c => 0 <= c < ci_cellSize ci) ids ->
  q_rep (mkCqr F (map (mkDesc true false) ids) (malloc garbage (length ids))) (fulls ids).
Proof using Hdb.
  intros Hs Hids. split; [|by rewrite fulls_keys]. unfold fulls. split; cbn [m_flags m_desc m_idx].
  - done.
  - by rewrite !length_map.
  - unfold malloc. by rewrite !length_map, length_seq.
  - intros i d s Hd Hsl. apply list_lookup_fmap_Some in Hd as (c & -> & Hc). destruct (malloc_ptr _ _ _ Hsl) as (p & ->).
    rewrite Forall_forall in Hids. pose proof (Hids c (list_elem_of_lookup_2 _ _ _ Hc)) as Hr. exists (full_items ci L F c).
    split; [cbn [cellId]; change (map ?f ids) with (f <$> ids); by rewrite list_lookup_fmap, Hc|].
    split; cbn; try done; [apply full_items_ok, Hr|by exists p].
Qed.

(** ** Empty cells *)

(** The cells that are dropped: those with the id of the empty index. *)
Definition dead (x : Z * list Z * (cell_desc * slot)) : bool :=
  negb (fullMatch (fst (snd x))) && negb (fetched (fst (snd x))) && match snd (snd x) with SPtr p => p =? 0 | SIdx _ => false end.
Definition marked (a : cqr) (A : cells) := zip A (zip (m_desc a) (m_idx a)).
Definition alive (X : list (Z * list Z * (cell_desc * slot))) : cells := map fst (List.filter (fun x => negb (dead x)) X).
Definition deads (X : list (Z * list Z * (cell_desc * slot))) : Z := zlen (List.filter dead X).

Lemma marked_at a A i cl d s X : c_rep a A -> drop i (marked a A) = (cl, (d, s)) :: X ->
  m_desc a !! i = Some d /\ m_idx a !! i = Some s /\ A !! i = Some cl /\ fst cl = cellId d /\ c_ok d s (snd cl).
Proof using.
  intros Ha HX. assert (marked a A !! i = Some (cl, (d, s))) as Hi by (rewrite <- (Nat.add_0_r i), <- lookup_drop, HX; done).
  apply lookup_zip_Some in Hi as [HA Hi]. apply lookup_zip_Some in Hi as [Hd Hs]. cbn in *.
  destruct (cr_cell _ _ _ _ _ Ha i d s Hd Hs) as (l & Hl & Hok). rewrite Hl in HA. by injection HA as <-.
Qed.

Lemma count_dead X a A i e : c_rep a A -> drop i (marked a A) = X -> zlen A < 2 ^ 32 -> (i + length X)%nat = length A ->
  Forall (fun x => fetched (fst (snd x)) = true -> snd (fst x) <> []) X -> 0 <= e <= Z.of_nat i ->
  count_empty store ci (length X) a (Z.of_nat i) e = Ok (e + deads X).
Proof using Hdb.
  intros Ha. revert i e. induction X as [|[[c l] [d s]] X IH]; intros i e HX Hn Hlen Hne He; cbn [length count_empty]; [unfold deads; cbn; f_equal; lia|].
  destruct (marked_at a A i _ d s X Ha HX) as (Hd & Hs & Hc & Hid & Hok). cbn [fst snd] in *. apply Forall_cons in Hne as [Hx Hne]. cbn [fst snd] in Hx.
  rewrite (at_ok _ _ _ Hd), bind_ok_l. cbn [length] in Hlen.
  assert ((if negb (fullMatch d) && negb (fetched d) then p ← idxId ci a (Z.of_nat i); mret (p =? 0)
    else if fetched d then sz ← idxSize store ci a (Z.of_nat i); mret (sz =? 0) else Ok false) = Ok (dead ((c, l), (d, s)))) as ->.
  { unfold dead. cbn [fst snd]. pose proof (co_slot _ _ _ _ _ _ Hok) as Hsl. destruct (fetched d) eqn:Hf.
    - rewrite andb_false_r. unfold idxSize. rewrite (at_ok _ _ _ Hd), bind_ok_l, Hf. destruct Hsl as (x & -> & Hr).
      rewrite (slot_idx _ _ _ Hs), bind_ok_l, (ii_size_ok x l Hr). cbn. f_equal. apply Z.eqb_neq. specialize (Hx eq_refl). destruct l; [done|]. cbn. lia.
    - destruct (fullMatch d) eqn:Hm; [done|]. cbn [negb andb]. destruct Hsl as (p & -> & _). unfold idxId.
      rewrite (at_ok _ _ _ Hd), bind_ok_l, Hm. by rewrite (slot_ptr _ _ _ Hs), bind_ok_l. }
  rewrite bind_ok_l. rewrite (wrap_small 32 (Z.of_nat i + 1)) by (unfold fits; lia). rewrite (wrap_small 32 (e + 1)) by (unfold fits; lia).
  replace (Z.of_nat i + 1) with (Z.of_nat (Datatypes.S i)) by lia.
  assert (drop (Datatypes.S i) (marked a A) = X) as HX' by (change (Datatypes.S i) with (1 + i)%nat; rewrite Nat.add_comm, <- drop_drop, HX; done).
  destruct (dead (c, l, (d, s))) eqn:Hdd; rewrite (IH (Datatypes.S i) _ HX' Hn) by (done || lia); unfold deads; cbn [List.filter]; rewrite Hdd; cbn [length]; f_equal; lia.
Qed.

Lemma keep_alive X a A i cap r R n : c_rep a A -> drop i (marked a A) = X -> zlen A < 2 ^ 32 -> (i + length X)%nat = length A ->
  Forall (fun x => fetched (fst (snd x)) && fullMatch (fst (snd x)) = false) X -> building cap r R (length (alive X) + n) -> fresh r ->
  exists r', keep_nonempty (length X) a r (Z.of_nat i) = Ok r' /\ building cap r' (R ++ alive X) n.
Proof using Hdb.
  intros Ha. revert i r R. induction X as [|[[c l] [d s]] X IH]; intros i r R HX Hn Hlen Hne Hr Hfr; cbn [length keep_nonempty].
  { exists r. cbn. by rewrite app_nil_r. }
  destruct (marked_at a A i _ d s X Ha HX) as (Hd & Hs & Hc & Hid & Hok). cbn [fst snd length] in *. apply Forall_cons in Hne as [Hx Hne]. cbn [fst snd] in Hx.
  rewrite (at_ok _ _ _ Hd), bind_ok_l. rewrite (wrap_small 32 (Z.of_nat i + 1)) by (unfold fits; lia).
  replace (Z.of_nat i + 1) with (Z.of_nat (Datatypes.S i)) by lia.
  assert (drop (Datatypes.S i) (marked a A) = X) as HX' by (change (Datatypes.S i) with (1 + i)%nat; rewrite Nat.add_comm, <- drop_drop, HX; done).
  assert (forall r1, building cap r1 (R ++ [(c, l)]) (length (alive X) + n) -> fresh r1 -> alive ((c, l, (d, s)) :: X) = (c, l) :: alive X ->
    exists r', keep_nonempty (length X) a r1 (Z.of_nat (Datatypes.S i)) = Ok r' /\ building cap r' (R ++ alive ((c, l, (d, s)) :: X)) n) as Hkeep.
  { intros r1 Hr1 Hf1 ->. destruct (IH (Datatypes.S i) r1 _ HX' Hn ltac:(lia) Hne Hr1 Hf1) as (r' & -> & Hr'). exists r'. by rewrite <- app_assoc in Hr'. }
  unfold alive, dead in *. cbn [List.filter fst snd] in *. pose proof (co_slot _ _ _ _ _ _ Hok) as Hsl. subst c.
  destruct (fullMatch d) eqn:Hm; [|destruct (fetched d) eqn:Hf]; cbn [negb andb map fst length] in *.
  - rewrite andb_true_r in Hx. rewrite bind_ok_l. destruct d as [? ? k]. cbn in Hx, Hm, Hr. subst. pose proof (co_full _ _ _ _ _ _ Hok eq_refl) as ->.
    pose proof (co_id _ _ _ _ _ _ Hok) as Hk. pose proof (db_cells _ _ _ Hdb). cbn [cellId] in *. destruct (push_full_ok cap r R _ k Hr Hfr Hk) as [Hr1 Hf1].
    rewrite newDesc_id in Hr1, Hf1 by lia. by apply Hkeep.
  - destruct Hsl as (x & -> & _). rewrite (slot_idx _ _ _ Hs), bind_ok_l. destruct (push_cell_ok cap r R _ _ _ _ Hr Hok) as (r1 & E & Hr1).
    rewrite E, bind_ok_l. apply Hkeep; [done| |done]. by apply (push_cell_fresh r (SIdx x) d).
  - destruct Hsl as (p & -> & _). rewrite (slot_ptr _ _ _ Hs), bind_ok_l. destruct (Z.eqb_spec p 0) as [->|Hp]; cbn [negb] in *.
    + rewrite bind_ok_l. apply (IH (Datatypes.S i) r R HX' Hn ltac:(lia) Hne Hr Hfr).
    + destruct (push_cell_ok cap r R _ _ _ _ Hr Hok) as (r1 & E & Hr1). rewrite E, bind_ok_l. apply Hkeep; [done| |done]. by apply (push_cell_fresh r (SPtr p) d).
Qed.
Lemma alive_len X : (length (alive X) + Z.to_nat (deads X))%nat = length X.
Proof using.
  unfold alive, deads. rewrite length_map, Nat2Z.id. induction X as [|x X IH]; [done|]. cbn [List.filter length].
  destruct (dead x); cbn [negb length]; lia.
Qed.

(** [removeEmpty] of a result without fetched full matches and fetched empty cells. *)
Definition removable (a : cqr) (A : cells) : Prop :=
  Forall (fun x => (fetched (fst (snd x)) = true -> snd (fst x) <> []) /\ fetched (fst (snd x)) && fullMatch (fst (snd x)) = false) (marked a A).

Lemma alive_in x X : x ∈ alive X <-> exists y, (x, y) ∈ X /\ dead (x, y) = false.
Proof using.
  unfold alive. change (map ?f ?l) with (f <$> l). rewrite list_elem_of_fmap. split.
  - intros ([x' y] & -> & Hy). apply list_elem_of_In, filter_In in Hy as [Hy Hd]. apply negb_true_iff in Hd. exists y. split; [by apply list_elem_of_In|done].
  - intros (y & Hy & Hd). exists (x, y). split; [done|]. apply list_elem_of_In, filter_In. split; [by apply list_elem_of_In|by rewrite Hd].
Qed.

Lemma alive_sorted X : sorted (keys (map fst X)) -> sorted (keys (alive X)).
Proof using.
  unfold alive. induction X as [|x X IH]; intros Hs; [done|]. cbn [map List.filter] in *. unfold keys in *. cbn [map] in Hs.
  inversion Hs as [|? ? Hs' Hx]; subst. specialize (IH Hs'). destruct (negb (dead x)); [|done]. cbn [map]. constructor; [done|].
  rewrite Forall_forall in Hx |- *. intros z Hz. apply Hx. change (map ?f ?l) with (f <$> l) in *. apply list_elem_of_fmap in Hz as (cl & -> & Hcl).
  apply list_elem_of_fmap in Hcl as (y & -> & Hy).
  apply list_elem_of_In, filter_In in Hy as [Hy _]. do 2 apply list_elem_of_fmap_2. by apply list_elem_of_In.
Qed.

Lemma removeEmpty_ok a A : q_rep a A -> removable a A -> L !! 0%nat = Some [] ->
  exists r, removeEmpty store ci garbage a 0 = Ok r /\ q_rep r (alive (marked a A)) /\ forall c z, has (alive (marked a A)) c z <-> has A c z.
Proof using Hdb.
  intros [Ha HA] Hrem H0. pose proof (cr_len _ _ _ _ _ Ha) as Hlen. pose proof (cr_room _ _ _ _ _ Ha) as Hroom.
  pose proof (rep_few a A (conj Ha HA)) as Hfew.
  assert (length (marked a A) = length A) as Hml by (unfold marked; rewrite !length_zip_with; lia).
  assert (map fst (marked a A) = A) as Hfst.
  { change (map fst (marked a A)) with (fst <$> marked a A). unfold marked. apply fst_zip. rewrite length_zip_with. lia. }
  unfold removable in Hrem. pose proof (alive_len (marked a A)) as Hal. assert (0 <= deads (marked a A)) as Hd0 by (unfold deads; lia).
  assert (Z.of_nat (length (m_desc a)) = zlen A) as Hz by (f_equal; done).
  unfold removeEmpty, cellCount. rewrite Hz, (wrap_small 32 (zlen A)) by (unfold fits; lia). rewrite (proj2 (Z.ltb_ge _ _)) by lia. cbn [Z.eqb].
  rewrite Hlen. pose proof (count_dead (marked a A) a A 0 0 Ha) as Hcount. change (Z.of_nat 0) with 0 in Hcount. rewrite Hml in Hcount. rewrite Hcount by (done || lia || (eapply Forall_impl; [exact Hrem|naive_solver])).
  rewrite bind_ok_l, Z.add_0_l, wrap_small by (unfold fits; lia).
  replace (Z.to_nat (zlen A - deads (marked a A))) with (length (alive (marked a A))) by lia.
  rewrite (cr_flags _ _ _ _ _ Ha).
  destruct (keep_alive (marked a A) a A 0 (length (alive (marked a A))) (cqr_alloc garbage F (length (alive (marked a A)))) [] 0 Ha) as (r & E & Hr);
    [done|lia|lia|eapply Forall_impl; [exact Hrem|naive_solver]|rewrite Nat.add_0_r; apply alloc_ok|intros i s _; apply malloc_ptr|].
  rewrite Hml in E. exists r. split; [exact E|]. split; [split; [apply Hr|]|].
  - apply alive_sorted. by rewrite Hfst.
  - intros c z. unfold has. split.
    + intros (l & (y & Hy & _)%alive_in & Hz'). exists l. split; [|done]. apply (list_elem_of_fmap_2 fst) in Hy. change (fst <$> marked a A) with (map fst (marked a A)) in Hy. by rewrite Hfst in Hy.
    + intros (l & Hl & Hz'). exists l. split; [|done]. apply alive_in. rewrite <- Hfst in Hl. change (map fst (marked a A)) with (fst <$> marked a A) in Hl.
      apply list_elem_of_fmap in Hl as ([x [d s]] & Hx & Hin). cbn in Hx. subst x. exists (d, s). split; [done|].
      apply list_elem_of_lookup in Hin as (i & Hi). apply lookup_zip_Some in Hi as [HAi Hi]. apply lookup_zip_Some in Hi as [Hd Hs]. cbn in *.
      destruct (cr_cell _ _ _ _ _ Ha i d s Hd Hs) as (l' & Hl' & Hok). rewrite Hl' in HAi. injection HAi as <- <-.
      unfold dead. cbn. pose proof (co_slot _ _ _ _ _ _ Hok) as Hslot. destruct (fetched d); [by rewrite andb_false_r|].
      destruct (fullMatch d); [done|]. destruct Hslot as (p & -> & Hp). destruct (Hp eq_refl) as (id & -> & Hid). cbn. apply Z.eqb_neq. intros Hid0.
      assert (id = 0%nat) as -> by lia. rewrite H0 in Hid. injection Hid as <-. by apply elem_of_nil in Hz'.
Qed.
End constructors.
End ops.

(** * What the operations give *)

(** The operation [op] succeeds, keeps what the operands stand for and gives, cell by cell,
    what [q] says of their items. *)
Definition gives (ci : cell_info) (L : list (list Z)) F (op : cqr -> cqr -> result (cqr * cqr * cqr)) (q : Z -> Prop -> Prop -> Prop) a b A B : Prop :=
  exists a' b' r R, op a b = Ok (a', b', r) /\ cqr_rep ci L F a' A /\ cqr_rep ci L F b' B /\
    cqr_rep ci L F r R /\ forall c z, has R c z <-> q c (has A c z) (has B c z).

Section gives.
Context {St : Type} {IS : IndexStore St} {ISO : IndexStoreOk St} (store : St) (ci : cell_info) (garbage : nat -> Z) (L : list (list Z)) (F : Z) (a b : cqr) (A B : cells).
Context (Hdb : db_ok store ci L) (Ha : cqr_rep ci L F a A) (Hb : cqr_rep ci L F b B) (HF : has_flag F FF_EMPTY = false).

(** A cell that only one operand has does not clash. *)
Lemma clash_keys c : c ∉ keys A \/ c ∉ keys B -> ~ clash a b c.
Proof using Ha Hb.
  clear garbage. intros Hc (i & j & d & e & p & H1 & H2 & H3 & H4 & <- & H6 & _). destruct (cr_cell _ _ _ _ _ (proj1 Ha) _ _ _ H1 H2) as (l & Hl & _).
  destruct (cr_cell _ _ _ _ _ (proj1 Hb) _ _ _ H3 H4) as (k & Hk & _). rewrite H6 in Hk. apply list_elem_of_lookup_2, key_has in Hl, Hk. tauto.
Qed.

Lemma intersect_has : gives ci L F (cqr_intersect store ci garbage) (fun _ x y => x /\ y) a b A B.
Proof using Hdb Ha Hb HF.
  pose proof (proj2 Ha) as HA. pose proof (proj2 Hb) as HB.
  destruct (intersect_ok store ci L F Hdb garbage a b A B Ha Hb HF) as (a' & b' & r & R & ? & ? & ? & ? & Hin). exists a', b', r, R. do 4 (split; [done|]).
  intros c z. rewrite Hin. apply (in3_plain false false and); tauto || naive_solver.
Qed.

Lemma unite_has : gives ci L F (cqr_unite store ci garbage) (fun _ x y => x \/ y) a b A B.
Proof using Hdb Ha Hb HF.
  pose proof (proj2 Ha) as HA. pose proof (proj2 Hb) as HB.
  destruct (cqr_unite_ok store ci L F Hdb garbage a b A B Ha Hb HF) as (a' & b' & r & R & ? & ? & ? & ? & Hin). exists a', b', r, R. do 4 (split; [done|]).
  intros c z. rewrite Hin. apply (in3_plain true true or); tauto || naive_solver.
Qed.

Lemma diff_has : gives ci L F (cqr_diff store ci garbage) (fun c x y => (x /\ ~ y) /\ ~ clash a b c) a b A B.
Proof using Hdb Ha Hb HF.
  pose proof (proj2 Ha) as HA. pose proof (proj2 Hb) as HB. pose proof clash_keys as Hcl.
  destruct (diff_ok store ci L F Hdb garbage a b A B Ha Hb HF) as (a' & b' & r & R & ? & ? & ? & ? & Hin). exists a', b', r, R. do 4 (split; [done|]).
  intros c z. rewrite Hin, (in3_ext _ _ _ (fun c x y => (x /\ ~ y) /\ ~ clash a b c)) by tauto.
  apply (in3_char true false (fun x y => x /\ ~ y) (fun c => ~ clash a b c)); try done; try tauto; naive_solver.
Qed.

Lemma symDiff_has : gives ci L F (cqr_symDiff store ci garbage) (fun c x y => (x /\ ~ y \/ ~ x /\ y) /\ ~ clash a b c) a b A B.
Proof using Hdb Ha Hb HF.
  pose proof (proj2 Ha) as HA. pose proof (proj2 Hb) as HB.
  destruct (symDiff_ok store ci L F Hdb garbage a b A B Ha Hb HF) as (a' & b' & r & R & ? & ? & ? & ? & Hin). exists a', b', r, R. do 4 (split; [done|]).
  intros c z. rewrite Hin. apply (in3_char true true (fun x y => x /\ ~ y \/ ~ x /\ y) (fun c => ~ clash a b c)); try done; try tauto.
  by apply clash_keys.
Qed.
End gives.

(** * A store in memory, for the examples *)

Abbreviation list_store := (list (list Z)).
#[export] Instance list_IndexStore : IndexStore list_store := {|
  st_at s id := match s !! Z.to_nat id with Some l => Ok (Some (PStlVector l)) | None => Ok None end;
  st_idxSize s id := match s !! Z.to_nat id with Some l => Ok (zlen l) | None => Err OutOfBoundsException end;
  st_indexTypes _ := T_STL_VECTOR;
|}.
#[export] Program Instance list_IndexStoreOk : IndexStoreOk list_store := {|
  st_rep s L := s = L /\ Forall storable L /\ zlen L < 2 ^ 32;
|}.
Next Obligation. done. Qed.
Next Obligation.
  intros s L id l (-> & HL & _) Hl. cbn [st_at list_IndexStore]. rewrite Nat2Z.id, Hl. rewrite Forall_forall in HL. pose proof (HL l (list_elem_of_lookup_2 _ _ _ Hl)) as Hst.
  eexists. split; [done|]. split; [split; [done|destruct Hst as (_ & _ & ?); lia]|]. split; [apply Hst|by apply storable_ids].
Qed.
Next Obligation. intros s L id l (-> & _) Hl. cbn [st_idxSize list_IndexStore]. by rewrite Nat2Z.id, Hl. Qed.
Next Obligation. intros s L id l (-> & HL & _) Hl. rewrite Forall_forall in HL. apply HL. by eapply list_elem_of_lookup_2. Qed.
Next Obligation. intros s L (_ & _ & H). exact H. Qed.

(** * Properties *)

(** C10: the operations on two query results of the same kind succeed, whatever is fetched
    already, and give results whose items, cell by cell, are the intersection, the union,
    the difference and the symmetric difference of the items of the operands, which stand
    for what they stood for before; but a cell that [clash]es, one that is partial and not
    fetched on one side and an unfetched full match on the other whose unset slot happens
    to hold the id of the partial one, is missing from the two differences. *)
Theorem cqr_set_operations {St : Type} {IS : IndexStore St} {ISO : IndexStoreOk St} (store : St) ci garbage L F a b A B :
  db_ok store ci L -> cqr_rep ci L F a A -> cqr_rep ci L F b B -> has_flag F FF_EMPTY = false ->
  (exists a' b' r R, cqr_intersect store ci garbage a b = Ok (a', b', r) /\ cqr_rep ci L F a' A /\ cqr_rep ci L F b' B /\
     cqr_rep ci L F r R /\ forall c z, has R c z <-> has A c z /\ has B c z) /\
  (exists a' b' r R, cqr_unite store ci garbage a b = Ok (a', b', r) /\ cqr_rep ci L F a' A /\ cqr_rep ci L F b' B /\
     cqr_rep ci L F r R /\ forall c z, has R c z <-> has A c z \/ has B c z) /\
  (exists a' b' r R, cqr_diff store ci garbage a b = Ok (a', b', r) /\ cqr_rep ci L F a' A /\ cqr_rep ci L F b' B /\
     cqr_rep ci L F r R /\ forall c z, has R c z <-> (has A c z /\ ~ has B c z) /\ ~ clash a b c) /\
  (exists a' b' r R, cqr_symDiff store ci garbage a b = Ok (a', b', r) /\ cqr_rep ci L F a' A /\ cqr_rep ci L F b' B /\
     cqr_rep ci L F r R /\ forall c z, has R c z <-> (has A c z /\ ~ has B c z \/ ~ has A c z /\ has B c z) /\ ~ clash a b c).
Proof.
  intros Hdb Ha Hb HF. split; [|split; [|split]].
  - by apply intersect_has.
  - by apply unite_has.
  - by apply diff_has.
  - by apply symDiff_has.
Qed.

(** The constructors give the cells of the full matches with all their items and the
    cells of the partial matches, given by ids of the store or by indexes, with theirs; a
    cell in both lists is matched in full. *)
Theorem cqr_constructors {St : Type} {IS : IndexStore St} {ISO : IndexStoreOk St} (store : St) ci garbage L F fm pm :
  db_ok store ci L -> sorted fm -> sorted (keys pm) -> Forall (fun c => 0 <= c < ci_cellSize ci) fm ->
  (forall ids, Forall2 (item_ok ci L F SPtr false) ids pm -> exists r R, cqr_new garbage fm (keys pm) ids F = Ok r /\ cqr_rep ci L F r R /\
     forall c z, has R c z <-> (c ∈ fm /\ z ∈ full_items ci L F c) \/ (c ∉ fm /\ has pm c z)) /\
  (forall idx, Forall2 (item_ok ci L F SIdx true) idx pm -> exists r R, cqr_new_idx garbage fm (keys pm) idx F = Ok r /\ cqr_rep ci L F r R /\
     forall c z, has R c z <-> (c ∈ fm /\ z ∈ full_items ci L F c) \/ (c ∉ fm /\ has pm c z)) /\
  cqr_rep ci L F (cqr_new_full garbage fm F) (fulls ci L F fm).
Proof.
  intros Hdb Hfm Hpm Hin. split; [|split].
  - intros ids Hids. by apply (new_ok store ci L F Hdb garbage SPtr false).
  - intros idx Hidx. by apply (new_ok store ci L F Hdb garbage SIdx true).
  - unfold cqr_new_full. replace (map (newDesc true false) fm) with (map (mkDesc true false) fm); [by apply (full_rep store)|].
    pose proof (db_cells _ _ _ Hdb). apply map_ext_in. intros c Hc%list_elem_of_In. rewrite Forall_forall in Hin. rewrite newDesc_id; [done|].
    specialize (Hin c Hc). lia.
Qed.

(** The index of a cell can be fetched at any time and is the one of its items; its
    size, the sum of the sizes, the destructor and [allToFull] never read a slot as what
    it is not, whatever is fetched already. *)
Theorem cqr_observers {St : Type} {IS : IndexStore St} {ISO : IndexStoreOk St} (store : St) ci garbage L F a A :
  db_ok store ci L -> cqr_rep ci L F a A ->
  (forall i c l, A !! i = Some (c, l) -> idxSize store ci a (Z.of_nat i) = Ok (zlen l) /\
     exists a' x, cqr_idx store ci a (Z.of_nat i) = Ok (a', x) /\ ii_rep x l /\ cqr_rep ci L F a' A) /\
  maxItems store ci a = Ok (u32 (items_sum A)) /\ cqr_destroy a = Ok () /\
  cqr_rep ci L F (allToFull garbage a) (fulls ci L F (keys A)).
Proof.
  intros Hdb Ha. pose proof (rep_few store ci L F Hdb a A Ha) as Hfew. split; [|split; [|split]].
  - intros i c l Hi. split; [by apply (idxSize_ok store ci L F Hdb a A i c l)|].
    destruct (cqr_idx_ok store ci L F Hdb a A i c l Ha Hi) as (a' & x & ? & ? & ? & _). by exists a', x.
  - unfold maxItems. rewrite (cr_len _ _ _ _ _ (proj1 Ha)).
    pose proof (maxItems_from_ok store ci L F Hdb A a A [] 0 Ha eq_refl ltac:(lia)) as Hm. exact Hm.
  - eapply destroy_ok, Ha.
  - unfold allToFull. rewrite (cr_flags _ _ _ _ _ (proj1 Ha)). assert (map cellId (m_desc a) = keys A) as Hk by apply (desc_keys _ _ _ _ _ (proj1 Ha)).
    replace (map (fun cd => mkDesc true false (cellId cd)) (m_desc a)) with (map (mkDesc true false) (keys A)) by (rewrite <- Hk, map_map; done).
    replace (length (m_desc a)) with (length (keys A)) by (rewrite <- Hk; apply length_map).
    apply (full_rep store ci L F Hdb); [apply Ha|]. rewrite <- Hk. apply Forall_map, Forall_lookup. intros i d Hd.
    pose proof (lookup_lt_Some _ _ _ Hd). pose proof (cr_room _ _ _ _ _ (proj1 Ha)). pose proof (cr_len _ _ _ _ _ (proj1 Ha)).
    destruct (lookup_lt_is_Some_2 (m_idx a) i) as (s & Hs); [lia|].
    destruct (cr_cell _ _ _ _ _ (proj1 Ha) i d s Hd Hs) as (l & _ & Hok). apply Hok.
Qed.

(** [removeEmpty] without a count drops exactly the partial cells that have the id of the
    empty index, and no item, when no fetched cell is matched in full or empty. *)
Theorem cqr_removeEmpty {St : Type} {IS : IndexStore St} {ISO : IndexStoreOk St} (store : St) ci garbage L F a A :
  db_ok store ci L -> cqr_rep ci L F a A -> removable a A -> L !! 0%nat = Some [] ->
  exists r, removeEmpty store ci garbage a 0 = Ok r /\ cqr_rep ci L F r (alive (marked a A)) /\
    forall c z, has (alive (marked a A)) c z <-> has A c z.
Proof. intros Hdb Ha Hrem H0. by apply (removeEmpty_ok store ci L F Hdb garbage a A). Qed.

(** * Examples *)

(** Two cells with the items 1, 2, 3 and 4, 5. *)
Definition ex_L : list (list Z) := [[]; [1; 2; 3]; [2]; [4; 5]; [5]].
Definition ex_ci : cell_info :=
  mkInfo 2 (fun c => if c =? 0 then 3 else 2) (fun c => if c =? 0 then 1 else 3).
Definition ex_garbage (k : nat) : Z := 0.

Lemma ex_store : st_rep (ex_L : list_store) ex_L.
Proof.
  split; [done|]. split; [|done]. unfold ex_L, storable, ids31.
  repeat (apply Forall_cons; split); try apply Forall_nil_2; (split; [repeat constructor; lia|split; [repeat constructor; lia|cbn; lia]]).
Qed.

Lemma ex_db_ok : db_ok (ex_L : list_store) ex_ci ex_L.
Proof.
  split; [exact ex_store|cbn; lia|]. intros c Hc. cbn in Hc. assert (c = 0 \/ c = 1) as [->| ->] by lia.
  - by exists 1%nat, [1; 2; 3].
  - by exists 3%nat, [4; 5].
Qed.

(** Operands: 2 of the first cell and all of the second; all of both cells. *)
Definition ex_a : cqr := mkCqr 4 [mkDesc false false 0; mkDesc true false 1] [SPtr 2; SPtr 4].
Definition ex_A : cells := [(0, [2]); (1, [4; 5])].
Definition ex_b : cqr := mkCqr 4 [mkDesc true false 0; mkDesc false true 1] [SPtr 7; SIdx (Some (PStlVector [5]))].
Definition ex_B : cells := [(0, [1; 2; 3]); (1, [5])].

Lemma ex_rep_intro F (xs : list (cell_desc * slot * list Z)) :
  sorted (map (fun x => cellId (fst (fst x))) xs) -> Forall (fun x => cell_ok ex_ci ex_L F (fst (fst x)) (snd (fst x)) (snd x)) xs ->
  cqr_rep ex_ci ex_L F (mkCqr F (map (fun x => fst (fst x)) xs) (map (fun x => snd (fst x)) xs)) (map (fun x => (cellId (fst (fst x)), snd x)) xs).
Proof.
  intros Hs Hok. split; [split; cbn [m_flags m_desc m_idx]; rewrite ?length_map; try done; try lia|unfold keys; by rewrite map_map].
  intros i d s Hd Hsl. apply list_lookup_fmap_Some in Hd as (x & -> & Hx), Hsl as (y & -> & Hy). rewrite Hx in Hy. injection Hy as <-.
  exists (snd x). split; [apply list_lookup_fmap_Some; by exists x|]. rewrite Forall_forall in Hok. by apply Hok, (list_elem_of_lookup_2 _ i).
Qed.

Lemma ex_a_rep : cqr_rep ex_ci ex_L 4 ex_a ex_A.
Proof.
  apply (ex_rep_intro 4 [(mkDesc false false 0, SPtr 2, [2]); (mkDesc true false 1, SPtr 4, [4; 5])]); [repeat constructor|].
  repeat (apply Forall_cons; split); try apply Forall_nil_2; cbn [fst snd]; split; cbn; try done; try lia; try (repeat constructor; lia).
  - intros z [->|[]%elem_of_nil]%elem_of_cons. repeat constructor.
  - exists 2. split; [done|]. intros _. by exists 2%nat.
  - by exists 4.
Qed.

Lemma ex_b_rep : cqr_rep ex_ci ex_L 4 ex_b ex_B.
Proof.
  apply (ex_rep_intro 4 [(mkDesc true false 0, SPtr 7, [1; 2; 3]); (mkDesc false true 1, SIdx (Some (PStlVector [5])), [5])]); [repeat constructor|].
  repeat (apply Forall_cons; split); try apply Forall_nil_2; cbn [fst snd]; split; cbn; try done; try lia; try (repeat constructor; lia).
  - by exists 7.
  - intros z [->|[]%elem_of_nil]%elem_of_cons. repeat constructor.
  - eexists. split; [done|]. split; [split; [done|cbn; lia]|]. split; repeat constructor; unfold fits; lia.
Qed.

Lemma cqr_set_operations_witness :
  cqr_rep ex_ci ex_L 4 ex_a ex_A /\ cqr_rep ex_ci ex_L 4 ex_b ex_B /\
  (exists a' b' r R, cqr_intersect (ex_L : list_store) ex_ci ex_garbage ex_a ex_b = Ok (a', b', r) /\ cqr_rep ex_ci ex_L 4 a' ex_A /\
     cqr_rep ex_ci ex_L 4 b' ex_B /\ cqr_rep ex_ci ex_L 4 r R /\ has R 0 2 /\ has R 1 5).
Proof.
  pose proof (cqr_set_operations (ex_L : list_store) ex_ci ex_garbage ex_L 4 ex_a ex_b ex_A ex_B ex_db_ok ex_a_rep ex_b_rep eq_refl) as Hp.
  split; [exact ex_a_rep|]. split; [exact ex_b_rep|]. destruct Hp as ((a' & b' & r & R & H1 & H2 & H3 & H4 & H5) & _).
  exists a', b', r, R. do 4 (split; [assumption|]). split; apply H5.
  - split; [exists [2]|exists [1; 2; 3]]; split; repeat constructor.
  - split; [exists [4; 5]|exists [5]]; split; repeat constructor.
Defined.

Lemma cqr_constructors_witness : db_ok (ex_L : list_store) ex_ci ex_L /\
  cqr_rep ex_ci ex_L 4 (cqr_new_full ex_garbage [0; 1] 4) [(0, [1; 2; 3]); (1, [4; 5])] /\
  exists r R, cqr_new ex_garbage [1] [0; 1] [2; 4] 4 = Ok r /\ cqr_rep ex_ci ex_L 4 r R /\ has R 0 2 /\ has R 1 4.
Proof.
  split; [exact ex_db_ok|]. split.
  - apply (cqr_constructors (ex_L : list_store) ex_ci ex_garbage ex_L 4 [0; 1] []); [exact ex_db_ok|repeat constructor; lia|repeat constructor|repeat constructor; cbn; lia].
  - destruct (cqr_constructors (ex_L : list_store) ex_ci ex_garbage ex_L 4 [1] [(0, [2]); (1, [5])] ex_db_ok) as [Hids _];
      [repeat constructor|repeat constructor; lia|repeat constructor; cbn; lia|].
    destruct (Hids [2; 4]) as (r & R & H1 & H2 & H3).
    + constructor; [|constructor; [|constructor]]; (split; [cbn; lia|]); split; cbn; try done; try lia; try (repeat constructor; lia).
      * intros z [->|[]%elem_of_nil]%elem_of_cons. repeat constructor.
      * exists 2. split; [done|]. intros _. by exists 2%nat.
      * intros z [->|[]%elem_of_nil]%elem_of_cons. repeat constructor.
      * exists 4. split; [done|]. intros _. by exists 4%nat.
    + exists r, R. do 2 (split; [assumption|]). split; apply H3.
      * right. split; [intros [?|[]%elem_of_nil]%elem_of_cons; done|]. exists [2]. split; repeat constructor.
      * left. split; repeat constructor.
Defined.

Lemma cqr_observers_witness : cqr_rep ex_ci ex_L 4 ex_b ex_B /\ maxItems (ex_L : list_store) ex_ci ex_b = Ok 4 /\ cqr_destroy ex_b = Ok ().
Proof.
  split; [exact ex_b_rep|]. destruct (cqr_observers (ex_L : list_store) ex_ci ex_garbage ex_L 4 ex_b ex_B ex_db_ok ex_b_rep) as (_ & H1 & H2 & _). by split.
Defined.

(** The second cell has no items left. *)
Definition ex_e : cqr := mkCqr 4 [mkDesc true false 0; mkDesc false false 1] [SPtr 7; SPtr 0].
Definition ex_E : cells := [(0, [1; 2; 3]); (1, [])].

Lemma ex_e_rep : cqr_rep ex_ci ex_L 4 ex_e ex_E.
Proof.
  apply (ex_rep_intro 4 [(mkDesc true false 0, SPtr 7, [1; 2; 3]); (mkDesc false false 1, SPtr 0, [])]); [repeat constructor|].
  repeat (apply Forall_cons; split); try apply Forall_nil_2; cbn [fst snd]; split; cbn; try done; try lia; try (repeat constructor; lia).
  - by exists 7.
  - by intros z ?%elem_of_nil.
  - exists 0. split; [done|]. intros _. by exists 0%nat.
Qed.

Lemma cqr_removeEmpty_witness : cqr_rep ex_ci ex_L 4 ex_e ex_E /\
  exists r, removeEmpty (ex_L : list_store) ex_ci ex_garbage ex_e 0 = Ok r /\ cqr_rep ex_ci ex_L 4 r [(0, [1; 2; 3])].
Proof.
  split; [exact ex_e_rep|]. destruct (cqr_removeEmpty (ex_L : list_store) ex_ci ex_garbage ex_L 4 ex_e ex_E ex_db_ok ex_e_rep) as (r & H1 & H2 & _);
    [repeat (apply Forall_cons; split); done || apply Forall_nil_2|done|]. by exists r.
Defined.

(** A difference that loses an item: the slot of the full match was never written and
    happens to hold the id of the other operand's index. *)
Lemma diff_loses_cell : has ex_A 1 4 /\
  exists a' b' r, cqr_diff (ex_L : list_store) ex_ci ex_garbage ex_a (mkCqr 4 [mkDesc false false 1] [SPtr 4]) = Ok (a', b', r) /\ map cellId (m_desc r) = [0].
Proof. split; [exists [4; 5]; split; repeat constructor|]. by eexists _, _, _. Qed.

(** A fetched empty cell is counted as dropped but copied: behind the allocated slots. *)
Lemma removeEmpty_overflow :
  removeEmpty (ex_L : list_store) ex_ci ex_garbage (mkCqr 4 [mkDesc false true 0] [SIdx (Some (PStlVector []))]) 0 = Err UndefinedBehaviour.
Proof. done. Qed.

(** A fetched full match is copied without its index: the copy cannot be destroyed. *)
Lemma removeEmpty_full_fetched : exists r,
  removeEmpty (ex_L : list_store) ex_ci ex_garbage (mkCqr 4 [mkDesc true true 0] [SIdx (Some (PStlVector [1; 2; 3]))]) 0 = Ok r /\
  cqr_destroy r = Err UndefinedBehaviour.
Proof. by eexists. Qed.

(** The list of the cells starts with as many zeros as there are cells. *)
Lemma cells_zeros : cqr_cells (mkCqr 4 [mkDesc true false 3; mkDesc true false 5] []) = [0; 0; 3; 5].
Proof. done. Qed.

(** Nothing can be united with the empty handle on the right. *)
Lemma plus_empty : cqr_plus (ex_L : list_store) ex_ci ex_garbage ex_a cqr_empty = Err AssertionFailed /\
  cqr_plus (ex_L : list_store) ex_ci ex_garbage cqr_empty ex_a = Ok ex_a.
Proof. done. Qed.
