(* ===== verification/ItemIndexStore.v ===== *)
(** The index store: [src/Static/ItemIndexStore.cpp], a serialized sequence of item indexes.

    Layout: version, types, compression, length of the data; then the data of the indexes one
    after another, an offset index, the sizes of the indexes as a serialized array and,
    if the indexes have different types, the type of each.

    Stores with Huffman or LZO coded data are not modelled, nor are indexes
    of a type that [index_type] does not have: [UnimplementedFunctionException] stands for what
    happens there.  Everything else is modelled, the variable-length coding included. *)

From Stdlib Require Import Sorting.Sorted.
From S2P Require Import Prelude UtilMath PackUnpack Storage ByteArray ByteStream Bits CompactUintArray SortedOffsets StaticArray BitSets SetFuncs IndexOps ItemIndexDE ItemIndexRleDE ItemIndexNative ItemIndex ItemIndexFactory CellMerge CellQuery.

(** [ItemIndex::Types] *)
Definition type_code (t : index_type) : Z :=
  match t with T_DE => 8 | T_RLE_DE => 16 | T_NATIVE => 32 | T_EMPTY => 1024 | T_STL_VECTOR => 8192 end.
Definition T_WAH : Z := 4.
Definition T_MULTIPLE : Z := 8388608.

Definition type_of_code (c : Z) : option index_type :=
  if c =? 8 then Some T_DE else if c =? 16 then Some T_RLE_DE else if c =? 32 then Some T_NATIVE
  else if c =? 1024 then Some T_EMPTY else if c =? 8192 then Some T_STL_VECTOR else None.

(** [IndexCompressionType] *)
Definition IC_NONE : Z := 0.
Definition IC_VARUINT32 : Z := 1.
Definition IC_HUFFMAN : Z := 2.
Definition IC_LZO : Z := 4.

Record istore := mkStore {
  is_version : Z; is_type : Z; is_compression : Z;
  is_data : uba; is_index : soi; is_idxSizes : sarray; is_idxTypeInfo : cua;
}.

Section store.
Context {S : Type} `{Backend S} (i128 : bool).


Definition idxSizes_new : S -> uba -> result sarray := sa_new (SP := scalar_serial Uint32).
Definition idxSizes_size : sarray -> result Z := sa_getSizeInBytes (SP := scalar_serial Uint32).
Definition idxSizes_at : S -> sarray -> Z -> result Z := sa_at (SP := scalar_serial Uint32) i128.

Definition is_multiple (type : Z) : bool := negb (type &&& T_MULTIPLE =? 0).

(** The number of bits of an entry of the type information. *)
Definition typeBits (type : Z) : result Z :=
  m ← msb32 (u32 (type - T_MULTIPLE)); m ← msb32 m; mret (u32 (m + 1)).

(** Version, types, compression; the adapter is moved behind them. *)
Definition is_header (s : S) (data : uba) : result (Z * Z * Z * uba) :=
  version ← uba_get Uint8 s data 0;
  if (version =? 5) || (version =? 6) then
    type ← uba_get Uint16 s data 1;
    compression ← uba_get Uint8 s data 3;
    mret (version, type, compression, uba_plus_assign (resetGetPtr data) 4)
  else if version =? 4 then
    type ← uba_get Uint8 s data 1;
    compression ← uba_get Uint8 s data 2;
    mret (version, type, compression, uba_plus_assign (resetGetPtr data) 3)
  else Err VersionMissMatchException.

Definition is_new (s : S) (data : uba) : result istore :=
  '(version, type, compression, data) ← is_header s data;
  '(data, dataLength) ← uba_sget Offset s data;
  let data := shrinkToGetPtr data in
  throw_if (m_len data <? dataLength) AssertionFailed;;
  let type := if 1 <? popCount 32 type then type ||| T_MULTIPLE else type in
  let m_data := uba_from_len data 0 dataLength in
  let data := uba_plus_assign data dataLength in
  index ← soi_init s data;
  n ← soi_getSizeInBytes index;
  let data := uba_plus_assign data n in
  idxSizes ← idxSizes_new s data;
  n ← idxSizes_size idxSizes;
  let data := uba_plus_assign data n in
  if negb (compression &&& IC_HUFFMAN =? 0) then Err UnimplementedFunctionException
  else if negb (compression &&& IC_LZO =? 0) then
    if version <? 6 then Err VersionMissMatchException else Err UnimplementedFunctionException
  else if is_multiple type then
    bits ← typeBits type;
    info ← cua_new_max data bits (u32 (so_size index));
    mret (mkStore version type compression m_data index idxSizes info)
  else mret (mkStore version type compression m_data index idxSizes (cua_empty 0)).

Definition is_size (st : istore) : Z := u32 (so_size (is_index st)).
Definition is_indexTypes (st : istore) : Z := is_type st.

Definition is_indexType (s : S) (st : istore) (pos : Z) : result Z :=
  if is_multiple (is_type st) then t ← cua_at i128 s (is_idxTypeInfo st) pos; mret (s32 (1 <<< t))
  else Ok (is_type st).

Definition is_getSizeInBytes (st : istore) : result Z :=
  let r := if 5 <=? is_version st then 9 else 8 in
  let r := u64 (r + m_len (is_data st)) in
  n ← soi_getSizeInBytes (is_index st);
  m ← idxSizes_size (is_idxSizes st);
  let r := u64 (r + n + m) in
  mret (if is_multiple (is_type st) then u64 (r + cua_getSizeInBytes (is_idxTypeInfo st)) else r).

Definition is_consume (s : S) (data : uba) : result (istore * uba) :=
  st ← is_new s data; n ← is_getSizeInBytes st; mret (st, uba_plus_assign data n).

(** Start and length of the data of an index. *)
Definition is_extent (s : S) (st : istore) (pos : Z) : result (Z * Z) :=
  indexStart ← soi_at i128 s (is_index st) pos;
  if u32 (pos + 1) =? is_size st then Ok (indexStart, u64 (m_len (is_data st) - indexStart))
  else next ← soi_at i128 s (is_index st) (u32 (pos + 1)); mret (indexStart, u64 (next - indexStart)).

Definition is_dataSize (s : S) (st : istore) (pos : Z) : result Z :=
  if is_size st <=? pos then Ok 0 else '(_, len) ← is_extent s st pos; mret len.

(** Before [makeContigous]. *)
Definition is_rawDataAt (s : S) (st : istore) (pos : Z) : result uba :=
  if is_size st <=? pos then Ok (uba_new 0 0)
  else '(start, len) ← is_extent s st pos; mret (uba_from_len (is_data st) start len).

(** [ItemIndex(makeContigous(data), type)]: the data of a storage that is not contiguous is
    copied to memory. *)
Definition open_index (s : S) (data : uba) (type : Z) : result index :=
  match type_of_code type with
  | None => Err UnimplementedFunctionException
  | Some t =>
      if bk_isContiguous (S := S) then createPrivate s data t
      else bs ← uba_getData s data 0 (m_len data);
           createPrivate (Vec.mk bs) (mkUba 0 (zlen bs) (m_getPtr data) (m_putPtr data)) t
  end.

(** A store with variable-length coding gives the empty index for every type but [T_WAH]. *)
Definition is_at (s : S) (st : istore) (pos : Z) : result index :=
  if is_size st <=? pos then Ok None
  else
    type ← is_indexType s st pos;
    data ← is_rawDataAt s st pos;
    if negb (is_compression st &&& IC_VARUINT32 =? 0) then
      if type =? T_WAH then Err UnimplementedFunctionException else Ok None
    else open_index s data type.

Definition is_idxSize (s : S) (st : istore) (pos : Z) : result Z := idxSizes_at s (is_idxSizes st) pos.
End store.

(** * The image of a store *)

Abbreviation sizes_serial := (scalar_serial Uint32).
Abbreviation sizes_image := (array_image (SP := sizes_serial)).

(** The types a factory is set to: one type, or a choice. *)
Definition mtypes : list Z :=
  [8; 16; 32; T_MULTIPLE + 24; T_MULTIPLE + 40; T_MULTIPLE + 48; T_MULTIPLE + 56].
Definition type_in (mt : Z) (t : index_type) : Prop := on_disk t /\ type_code t &&& mt <> 0.
Definition type_bit (t : index_type) : Z := Z.log2 (type_code t).

Definition type_info (mt : Z) (ts : list index_type) (info : list Z) : Prop :=
  if is_multiple mt then packs 3 (map type_bit ts) info else info = [].

(** The types, the ids and the data of the indexes, and the bytes of the store. *)
Record store_image (mt : Z) (ts : list index_type) (L imgs : list (list Z)) (enc : list Z) : Prop := {
  si_mtype : mt ∈ mtypes;
  si_types : Forall (type_in mt) ts;
  si_images : Forall3 image ts L imgs;
  si_storable : Forall storable L;
  si_few : zlen L < 2 ^ 32;
  si_data : fits 40 (zlen (concat imgs));
  si_bytes : exists offs sizes info,
    soi_image (block_starts 0 imgs) offs /\ sizes_image (map (fun l => zlen l) L) sizes /\ type_info mt ts info /\
    enc = [5] ++ item_bytes (IScalar Uint16 (u16 mt)) ++ [0] ++ item_bytes (IScalar Offset (zlen (concat imgs))) ++
      concat imgs ++ offs ++ sizes ++ info;
}.

Lemma type_of_type_code t : type_of_code (type_code t) = Some t.
Proof. by destruct t. Qed.

Lemma type_bit_ok t : on_disk t -> fits 3 (type_bit t) /\ s32 (1 <<< type_bit t) = type_code t.
Proof. intros [->|[->| ->]]; vm_compute; repeat split; discriminate. Qed.

Lemma mtypes_ok mt : mt ∈ mtypes ->
  fits 16 (u16 mt) /\ (if 1 <? popCount 32 (u16 mt) then u16 mt ||| T_MULTIPLE else u16 mt) = mt /\
  (is_multiple mt = true -> typeBits mt = Ok 3) /\
  (forall t, type_in mt t -> is_multiple mt = false -> mt = type_code t).
Proof.
  intros H. apply list_elem_of_In in H.
  repeat (destruct H as [<-|H]; [repeat split; try done;
    intros t [[->|[->| ->]] Hn] Hm; first [done|by vm_compute in Hm|by vm_compute in Hn]|]). done.
Qed.

Lemma shrinkToGetPtr_ok {S : Type} {B : Backend S} {BO : BackendOk S} (s : S) a pre rest :
  buf s a (pre ++ rest) -> m_getPtr a = zlen pre -> buf s (shrinkToGetPtr a) rest /\ m_getPtr (shrinkToGetPtr a) = 0.
Proof.
  intros Hb Hg. pose proof (buf_len _ _ _ Hb) as Hl. pose proof (buf_fits _ _ _ Hb) as Hf. rewrite length_app in Hl, Hf.
  split; [|done]. pose proof Hb as [[_ _ _ _ _ Hpw _] _]. unfold fits in Hpw.
  assert (shrinkToGetPtr a = mkUba (m_offSet a + zlen pre) (zlen rest) 0 (m_putPtr a)) as ->.
  { unfold shrinkToGetPtr. rewrite Hg, Hl. rewrite (proj2 (Z.ltb_ge _ (zlen pre))) by lia.
    rewrite wrap_small by (unfold fits; lia). rewrite (proj2 (Z.ltb_ge _ 0)) by lia. f_equal; lia. }
  pose proof (buf_tail s a _ Hb (mkUba (m_offSet a + zlen pre) (zlen rest) 0 (m_putPtr a)) (zlen pre)) as Ht.
  rewrite length_app, Nat2Z.id, drop_app_length in Ht. apply Ht; cbn [m_offSet m_len m_getPtr m_putPtr]; try lia; unfold fits; lia.
Qed.

Lemma vec_buf l : bytes_ok l -> zlen l < 2 ^ 64 -> buf (Vec.mk l) (mkUba 0 (zlen l) 0 0) l.
Proof.
  intros Hl Hn. split; [split; cbn; unfold fits; done || lia|]. unfold view. cbn. rewrite drop_0, take_ge; [done|lia].
Qed.

Section opening.
Context {S : Type} {B : Backend S} {BO : BackendOk S} (i128 : bool).

(** A store opened on these bytes. *)
Record is_opened (s : S) (st : istore) (mt : Z) (ts : list index_type) (L imgs : list (list Z)) : Prop := {
  io_type : is_type st = mt;
  io_mtype : mt ∈ mtypes;
  io_types : Forall (type_in mt) ts;
  io_info (i : nat) t : is_multiple mt = true -> ts !! i = Some t -> cua_at i128 s (is_idxTypeInfo st) (Z.of_nat i) = Ok (type_bit t);
  io_plain : is_compression st = 0;
  io_data : buf s (is_data st) (concat imgs);
  io_small : fits 40 (zlen (concat imgs));
  io_images : Forall3 image ts L imgs;
  io_storable : Forall storable L;
  io_few : zlen L < 2 ^ 32;
  io_size : so_size (is_index st) = zlen L;
  io_index (i : nat) x : block_starts 0 imgs !! i = Some x -> soi_at i128 s (is_index st) (Z.of_nat i) = Ok x;
  io_sizes : exists enc, sa_opened (SP := sizes_serial) i128 s (is_idxSizes st) (map (fun l => zlen l) L) enc;
}.

Lemma is_header_ok (s : S) data c rest : fits 16 c ->
  buf s data (([5] ++ item_bytes (IScalar Uint16 c) ++ [0]) ++ rest) ->
  exists d, is_header s data = Ok (5, c, 0, d) /\ buf s d rest /\ m_getPtr d = 0.
Proof using BO.
  intros Hf Hb.
  destruct (scalar_bytes_ok Uint16 c Hf) as (_ & Hl & Hu). change (scalar_len Uint16) with 2 in Hl.
  set (tb := item_bytes (IScalar Uint16 c)) in *.
  assert (zlen ([5] ++ tb ++ [0]) = 4) as H4 by (rewrite !length_app; cbn [length]; lia).
  pose proof (buf_get_middle Uint8 s data [] [5] ((tb ++ [0]) ++ rest) 5) as G0.
  pose proof (buf_get_middle Uint16 s data [5] tb ([0] ++ rest) c) as G1.
  pose proof (buf_get_middle Uint8 s data ([5] ++ tb) [0] rest 0) as G2.
  change (zlen []) with 0 in G0. change (zlen [5]) with 1 in G1. replace (zlen ([5] ++ tb)) with 3 in G2 by (rewrite length_app; cbn [length]; lia).
  repeat rewrite <- app_assoc in *. unfold is_header.
  rewrite G0, bind_ok_l by done. cbn [Z.eqb Pos.eqb orb]. rewrite G1, bind_ok_l by done. rewrite G2, bind_ok_l by done.
  eexists. split; [done|]. split.
  - pose proof (plus_assign_ok s (resetGetPtr data) ([5] ++ tb ++ [0]) rest) as Hp. rewrite H4 in Hp. apply Hp.
    repeat rewrite <- app_assoc. unfold resetGetPtr. apply buf_ptrs; [done|unfold fits; lia|apply Hb].
  - unfold uba_plus_assign, resetGetPtr. cbn [m_getPtr m_len]. pose proof (buf_len _ _ _ Hb) as Hlen.
    rewrite !length_app in Hlen. cbn [length] in Hlen. rewrite (proj2 (Z.ltb_ge (m_len data) 4)) by lia. done.
Qed.

(** The array of the types. *)
Lemma type_array_ok (s : S) d mt ts info rest : mt ∈ mtypes -> is_multiple mt = true -> Forall (type_in mt) ts ->
  packs 3 (map type_bit ts) info -> buf s d (info ++ rest) -> 8 * zlen (info ++ rest) < 2 ^ 64 - 16 -> zlen ts < 2 ^ 32 ->
  exists c, cua_new_max d 3 (zlen ts) = Ok c /\ cua_getSizeInBytes c = zlen info /\
    forall (i : nat) t, ts !! i = Some t -> cua_at i128 s c (Z.of_nat i) = Ok (type_bit t).
Proof using BO.
  intros Hmt Hm Hts [Hil Hip] Hb Hf Hn. rewrite length_map in Hil. rewrite length_app in Hf.
  destruct (minStorageBytes_ok 3 (zlen ts)) as (Hn0 & Hn1); [lia|lia|lia|]. rewrite <- Hil in Hn0, Hn1.
  destruct (setPrivate_cua_ok s d _ 3 Hb) as (c & Hc & Hok & Hbpn & Hd & Hmx); [lia|rewrite length_app; lia|].
  unfold cua_new_max. rewrite Hc, bind_ok_l, <- Hil, (buf_len _ _ _ Hb), (proj2 (Z.ltb_ge _ (zlen info))) by (rewrite length_app; lia).
  eexists. split; [done|]. destruct Hok as [Hcb Hck Hcf Hc0 Hcr].
  assert (cua_ok s (mkCua (cua_kind_of c) (CompactUintArray.m_data c) (zlen ts)) (info ++ rest)) as Hok'.
  { split; try done; cbn [m_maxCount]; [lia|]. unfold cua_bpn in *. cbn [cua_kind_of]. rewrite Hbpn, length_app. lia. }
  split.
  - unfold cua_getSizeInBytes. unfold cua_bpn in *. cbn [m_maxCount cua_kind_of]. rewrite Hbpn, wrap_small by (unfold fits; lia).
    rewrite Hil. unfold minStorageBytes. rewrite (wrap_small 64 (zlen ts * 3)) by (unfold fits; lia).
    pose proof (Z.mod_pos_bound (zlen ts * 3) 8 ltac:(lia)). pose proof (Z.div_mod (zlen ts * 3) 8 ltac:(lia)).
    destruct (Z.eqb_spec ((zlen ts * 3) mod 8) 0) as [E|E]; [rewrite E|rewrite (proj2 (Z.ltb_lt 0 _)) by lia];
      cbn [Z.ltb Z.compare]; rewrite wrap_small by (unfold fits; lia); done.
  - intros i t Hi. pose proof (lookup_lt_Some _ _ _ Hi).
    destruct (type_bit_ok t (proj1 (Forall_lookup_1 _ _ _ _ Hts Hi))) as [Hbit _].
    unfold cua_at. cbn [m_maxCount]. rewrite (proj2 (Z.leb_gt _ _)) by lia.
    rewrite (cua_priv_at i128 s _ _ _ Hok') by (cbn [m_maxCount]; lia). unfold cua_bpn in *. cbn [cua_kind_of]. rewrite Hbpn.
    pose proof (field_take 3 (info ++ rest) (length info) (Z.of_nat i)) as Hft. rewrite take_app_length in Hft.
    rewrite <- Hft by (try (by eapply buf_bytes); lia). rewrite (Hip i (type_bit t)) by (by rewrite list_lookup_fmap, Hi).
    f_equal. by apply wrap_small.
Qed.

Lemma sizes_values L : Forall storable L -> zlen L < 2 ^ 32 -> values_ok (SP := sizes_serial) (map (fun l => zlen l) L).
Proof using.
  clear. intros Hst Hfew.
  assert (Forall (ser_ok (SerialOk := scalar_serial_ok Uint32)) (map (fun l => zlen l) L)) as Hv.
  { apply Forall_map. eapply Forall_impl; [exact Hst|]. intros l (_ & _ & Hl). cbn. unfold fits. lia. }
  split; [exact Hv| |rewrite length_map; lia].
  rewrite (fixed_data (SP := sizes_serial) 4 _ eq_refl Hv), length_map. unfold fits. lia.
Qed.

Lemma is_new_ok (s : S) data mt ts L imgs enc rest : store_image mt ts L imgs enc ->
  buf s data (enc ++ rest) -> 8 * zlen (enc ++ rest) < 2 ^ 64 - 16 ->
  exists st, is_new s data = Ok st /\ is_opened s st mt ts L imgs /\ is_getSizeInBytes st = Ok (zlen enc).
Proof using BO.
  intros [Hmt Hts Him Hst Hfew Hd (offs & sizes & info & Hoffs & Hsizes & Hinfo & ->)] Hb Hf.
  pose proof (Forall3_length_lm _ _ _ _ Him) as HtL. pose proof (Forall3_length_lr _ _ _ _ Him) as HLi.
  destruct (mtypes_ok mt Hmt) as (Htf & Hpop & Hbits & _).
  destruct (scalar_bytes_ok Offset (zlen (concat imgs)) Hd) as (_ & Hol & Hou). change (scalar_len Offset) with 5 in Hol.
  set (lb := item_bytes (IScalar Offset (zlen (concat imgs)))) in *. set (tb := item_bytes (IScalar Uint16 (u16 mt))) in *.
  assert (zlen tb = 2) as Htl by (destruct (scalar_bytes_ok Uint16 (u16 mt) Htf) as (_ & Hl & _); exact Hl).
  replace (([5] ++ tb ++ [0] ++ lb ++ concat imgs ++ offs ++ sizes ++ info) ++ rest)
    with (([5] ++ tb ++ [0]) ++ lb ++ concat imgs ++ offs ++ sizes ++ info ++ rest) in Hb by (by repeat rewrite <- app_assoc).
  rewrite !length_app in Hf. cbn [length] in Hf.
  destruct (is_header_ok s data (u16 mt) _ Htf Hb) as (d & Hhd & Hbd & Hgd).
  unfold is_new. rewrite Hhd, bind_ok_l.
  unfold uba_sget. rewrite Hgd. pose proof (buf_get_middle Offset s d [] lb _ (zlen (concat imgs)) Hbd Hol Hou) as Hgo.
  change (zlen []) with 0 in Hgo. rewrite Hgo, bind_ok_l. unfold mret at 1, result_ret at 1. rewrite bind_ok_l.
  destruct (reading_intro s d [] lb (concat imgs ++ offs ++ sizes ++ info ++ rest)) as [Hbr Hgr]; [by split|]. cbn [app] in Hbr, Hgr.
  change (scalar_len Offset) with 5. rewrite <- Hol.
  destruct (shrinkToGetPtr_ok s _ _ _ Hbr Hgr) as (Hbs & Hgs). set (d1 := shrinkToGetPtr _) in *.
  pose proof (buf_len _ _ _ Hbs) as Hl1. rewrite !length_app in Hl1. rewrite (proj2 (Z.ltb_ge (m_len d1) _)) by lia.
  cbn [throw_if]. rewrite bind_ok_l, Hpop.
  pose proof (uba_from_len_ok s d1 _ Hbs 0 (zlen (concat imgs)) ltac:(lia) ltac:(lia)) as Hbm.
  rewrite Nat2Z.id in Hbm. cbn [Z.to_nat] in Hbm. rewrite drop_0, take_app_length in Hbm.
  pose proof (plus_assign_ok s d1 _ _ Hbs) as Hb2. set (d2 := uba_plus_assign d1 (zlen (concat imgs))) in *.
  destruct (soi_open_ok i128 s d2 _ offs (sizes ++ info ++ rest) Hoffs Hb2) as (o & -> & [Hosz Hoat Hoout Hoby]); [rewrite !length_app; lia|].
  rewrite bind_ok_l, Hoby, bind_ok_l. pose proof (plus_assign_ok s d2 _ _ Hb2) as Hb3. set (d3 := uba_plus_assign d2 (zlen offs)) in *.
  destruct (sa_new_ok (SP := sizes_serial) i128 s d3 _ sizes (info ++ rest) (sizes_values L Hst Hfew) Hsizes Hb3) as (arr & Hnew & Harr); [rewrite !length_app; lia|].
  unfold idxSizes_new, idxSizes_size. rewrite Hnew, bind_ok_l, (sao_bytes _ _ _ _ _ Harr), bind_ok_l.
  pose proof (plus_assign_ok s d3 _ _ Hb3) as Hb4. set (d4 := uba_plus_assign d3 (zlen sizes)) in *.
  cbn [Z.land Z.eqb negb IC_HUFFMAN IC_LZO]. rewrite length_block_starts in Hosz.
  assert (exists c, (if is_multiple mt then bits ← typeBits mt; cua_new_max d4 bits (u32 (so_size o)) else Ok (cua_empty 0)) = Ok c /\
    (if is_multiple mt then cua_getSizeInBytes c else 0) = zlen info /\
    forall (i : nat) t, is_multiple mt = true -> ts !! i = Some t -> cua_at i128 s c (Z.of_nat i) = Ok (type_bit t)) as (c & Hc & Hcs & Hcat).
  { unfold type_info in Hinfo. destruct (is_multiple mt) eqn:Em; [|exists (cua_empty 0); by subst info].
    rewrite Hbits, bind_ok_l, Hosz, <- HLi, wrap_small by (try done; unfold fits; lia).
    destruct (type_array_ok s d4 mt ts info rest Hmt Em Hts Hinfo Hb4) as (c & -> & Hcs & Hcat); [rewrite length_app; lia|lia|].
    exists c. split; [done|]. split; [done|]. intros i t _. apply Hcat. }
  exists (mkStore 5 mt 0 (uba_from_len d1 0 (zlen (concat imgs))) o arr c). split; [|split].
  - destruct (is_multiple mt); [|by injection Hc as <-].
    apply bind_ok in Hc as (bits & -> & Hc). by rewrite bind_ok_l, Hc.
  - split; cbn; try done; [lia|by exists sizes].
  - unfold is_getSizeInBytes. cbn [is_version is_data is_index is_idxSizes is_type is_idxTypeInfo]. rewrite Hoby, bind_ok_l.
    unfold idxSizes_size. rewrite (sao_bytes _ _ _ _ _ Harr), bind_ok_l. cbn [Z.leb Z.compare Pos.compare Pos.compare_cont].
    rewrite (buf_len _ _ _ Hbm), !length_app. cbn [length]. unfold fits in Hd. unfold mret, result_ret. f_equal.
    rewrite (wrap_small 64 (9 + _)) by (unfold fits; lia). rewrite (wrap_small 64 (_ + zlen offs + _)) by (unfold fits; lia).
    destruct (is_multiple mt); [rewrite Hcs, wrap_small by (unfold fits; lia)|]; lia.
Qed.

(** ** Access to the indexes *)

Section access.
Context (s : S) (st : istore) (mt : Z) (ts : list index_type) (L imgs : list (list Z)) (Ho : is_opened s st mt ts L imgs).

Lemma is_size_ok : is_size st = zlen L.
Proof using BO Ho. destruct Ho as []. unfold is_size. rewrite io_size0. apply wrap_small. unfold fits. lia. Qed.

Lemma is_rawDataAt_ok i img : imgs !! i = Some img ->
  is_extent i128 s st (Z.of_nat i) = Ok (zlen (concat (take i imgs)), zlen img) /\
  exists d, is_rawDataAt i128 s st (Z.of_nat i) = Ok d /\ buf s d img.
Proof using BO Ho.
  intros Hi. pose proof is_size_ok as Hsz. destruct Ho as [_ _ _ _ _ Hb Hs Him _ Hfew _ Hat _].
  pose proof (lookup_lt_Some _ _ _ Hi) as Hlt. pose proof (Forall3_length_lm _ _ _ _ Him) as HtL. pose proof (Forall3_length_lr _ _ _ _ Him) as HLi.
  destruct (block_at imgs i img Hi) as (Hc & Hst & Hnext). pose proof (f_equal length Hc) as Hcl. rewrite !length_app in Hcl. unfold fits in Hs.
  assert (is_extent i128 s st (Z.of_nat i) = Ok (zlen (concat (take i imgs)), zlen img)) as Hex.
  { unfold is_extent. rewrite (Hat _ _ Hst), bind_ok_l, Hsz, (wrap_small 32) by (unfold fits; lia).
    destruct (Z.eqb_spec (Z.of_nat i + 1) (zlen L)) as [E|E].
    - rewrite (buf_len _ _ _ Hb), wrap_small by (unfold fits; lia). rewrite drop_ge in Hcl by lia. cbn [concat length] in Hcl. do 2 f_equal. lia.
    - replace (Z.of_nat i + 1) with (Z.of_nat (Datatypes.S i)) by lia. rewrite (Hat _ _ (Hnext ltac:(lia))), bind_ok_l.
      rewrite wrap_small by (unfold fits; lia). unfold mret, result_ret. do 2 f_equal. lia. }
  split; [done|]. unfold is_rawDataAt. rewrite Hsz, (proj2 (Z.leb_gt _ _)), Hex, bind_ok_l by lia. eexists. split; [done|].
  pose proof (uba_from_len_ok s (is_data st) _ Hb (zlen (concat (take i imgs))) (zlen img) ltac:(lia) ltac:(lia)) as Hw.
  rewrite !Nat2Z.id, Hc, drop_app_length, take_app_length in Hw. exact Hw.
Qed.

Lemma open_index_ok d img src t : image t src img -> buf s d img -> exists i, open_index s d (type_code t) = Ok i /\ ii_rep i src.
Proof using BO.
  intros Him Hb. unfold open_index. rewrite type_of_type_code. destruct (bk_isContiguous (S := S)).
  - apply (Him S B BO s d []). by rewrite app_nil_r.
  - pose proof (buf_getData_middle s d [] img []) as Hg. rewrite (buf_len _ _ _ Hb). change (zlen []) with 0 in Hg. cbn [app] in Hg.
    rewrite Hg, bind_ok_l by (by rewrite app_nil_r). apply (Him _ _ Vec_ok _ _ []). rewrite app_nil_r.
    pose proof (buf_fits _ _ _ Hb) as Hf. pose proof Hb as [[_ Hw _ _ Hgw Hpw _] _].
    apply (buf_ptrs _ (mkUba 0 (zlen img) 0 0) img); [|done|done].
    apply vec_buf; [by eapply buf_bytes|unfold fits; lia].
Qed.

Lemma is_indexType_ok (i : nat) t : ts !! i = Some t -> is_indexType i128 s st (Z.of_nat i) = Ok (type_code t).
Proof using BO Ho.
  intros Hi. pose proof (Forall_lookup_1 _ _ _ _ (io_types _ _ _ _ _ _ Ho) Hi) as Ht.
  unfold is_indexType. rewrite (io_type _ _ _ _ _ _ Ho). destruct (is_multiple mt) eqn:Em.
  - rewrite (io_info _ _ _ _ _ _ Ho i t Em Hi), bind_ok_l. by rewrite (proj2 (type_bit_ok t (proj1 Ht))).
  - destruct (mtypes_ok mt (io_mtype _ _ _ _ _ _ Ho)) as (_ & _ & _ & H1). by rewrite (H1 t Ht Em).
Qed.

Lemma is_at_ok i l : L !! i = Some l -> exists idx, is_at i128 s st (Z.of_nat i) = Ok idx /\ ii_rep idx l.
Proof using BO Ho.
  intros Hi. pose proof is_size_ok as Hsz. pose proof (lookup_lt_Some _ _ _ Hi) as Hlt.
  destruct (Forall3_lookup_m _ _ _ _ _ _ (io_images _ _ _ _ _ _ Ho) Hi) as (t & img & Ht & Himg & Hrel).
  destruct (is_rawDataAt_ok i img Himg) as (_ & d & Hraw & Hd).
  unfold is_at. rewrite Hsz, (proj2 (Z.leb_gt _ _)), (is_indexType_ok i t Ht), bind_ok_l, Hraw, bind_ok_l by lia.
  rewrite (io_plain _ _ _ _ _ _ Ho). cbn [Z.land Z.eqb negb]. by apply (open_index_ok d img l t).
Qed.

Lemma is_idxSize_ok i l : L !! i = Some l -> is_idxSize i128 s st (Z.of_nat i) = Ok (zlen l).
Proof using BO Ho.
  intros Hi. destruct (io_sizes _ _ _ _ _ _ Ho) as (enc & Hs). unfold is_idxSize, idxSizes_at.
  destruct (sa_at_ok (SP := sizes_serial) i128 s _ _ enc Hs i (zlen l)) as (v & -> & Hv); [by rewrite list_lookup_fmap, Hi|].
  cbn in Hv. by rewrite Hv.
Qed.

(** Behind the last index there is the empty one, without data. *)
Lemma is_at_out pos : zlen L <= pos -> is_at i128 s st pos = Ok None /\ is_dataSize i128 s st pos = Ok 0.
Proof using BO Ho. intros Hp. unfold is_at, is_dataSize. rewrite is_size_ok, (proj2 (Z.leb_le _ _) Hp). done. Qed.
End access.
End opening.

(** * The store of a query *)

(** An opened store with the memory it reads. *)
Record ostore (S : Type) := mkOstore { os_i128 : bool; os_mem : S; os_store : istore }.
Arguments mkOstore {S}.
Arguments os_i128 {S}.
Arguments os_mem {S}.
Arguments os_store {S}.

#[export] Instance ostore_IndexStore {S : Type} `{Backend S} : IndexStore (ostore S) := {|
  st_at o pos := is_at (os_i128 o) (os_mem o) (os_store o) pos;
  st_idxSize o pos := is_idxSize (os_i128 o) (os_mem o) (os_store o) pos;
  st_indexTypes o := default T_EMPTY (type_of_code (is_indexTypes (os_store o)));
|}.

(** A store of indexes of one type keeps the promises of the interface. *)
#[export] Program Instance ostore_IndexStoreOk {S : Type} {B : Backend S} {BO : BackendOk S} : IndexStoreOk (ostore S) := {|
  st_rep o L := exists t ts imgs, is_opened (os_i128 o) (os_mem o) (os_store o) (type_code t) ts L imgs /\ on_disk t;
|}.
Next Obligation.
  intros S B BO o L (t & ts & imgs & Ho & Ht). cbn. unfold is_indexTypes. rewrite (io_type _ _ _ _ _ _ _ Ho), type_of_type_code.
  by destruct Ht as [->|[->| ->]].
Qed.
Next Obligation. intros S B BO o L id l (t & ts & imgs & Ho & _) Hl. by apply (is_at_ok _ _ _ _ _ _ _ Ho). Qed.
Next Obligation. intros S B BO o L id l (t & ts & imgs & Ho & _) Hl. by apply (is_idxSize_ok _ _ _ _ _ _ _ Ho). Qed.
Next Obligation. intros S B BO o L id l (t & ts & imgs & Ho & _) Hl. exact (Forall_lookup_1 _ _ _ _ (io_storable _ _ _ _ _ _ _ Ho) Hl). Qed.
Next Obligation. intros S B BO o L (t & ts & imgs & Ho & _). apply (io_few _ _ _ _ _ _ _ Ho). Qed.

(** C5: an index store opens on its bytes.  The consuming constructor moves the adapter to the byte behind
    the store; the store has the number of lists it was made from; for every id the type, the length of
    the data and the size are those recorded, and the index at the id represents the list, whether the storage
    is contiguous or its data has to be copied; behind the last id there is the empty index, without data.  A store of
    one type is a store that cell queries can use. *)
Theorem index_store_opens {S : Type} {B : Backend S} {BO : BackendOk S} i128 (s : S) data mt ts L imgs enc rest :
  store_image mt ts L imgs enc -> buf s data (enc ++ rest) -> 8 * zlen (enc ++ rest) < 2 ^ 64 - 16 ->
  exists st d, is_consume s data = Ok (st, d) /\ buf s d rest /\ is_size st = zlen L /\ is_indexTypes st = mt /\
    (forall (i : nat) t l img, ts !! i = Some t -> L !! i = Some l -> imgs !! i = Some img ->
      is_indexType i128 s st (Z.of_nat i) = Ok (type_code t) /\ is_dataSize i128 s st (Z.of_nat i) = Ok (zlen img) /\
      is_idxSize i128 s st (Z.of_nat i) = Ok (zlen l) /\ exists idx, is_at i128 s st (Z.of_nat i) = Ok idx /\ ii_rep idx l) /\
    (forall pos, zlen L <= pos -> is_at i128 s st pos = Ok None /\ is_dataSize i128 s st pos = Ok 0) /\
    (is_multiple mt = false -> L <> [] -> st_rep (mkOstore i128 s st) L).
Proof.
  intros Him Hb Hf. destruct (is_new_ok i128 s data mt ts L imgs enc rest Him Hb Hf) as (st & Hnew & Ho & Hby).
  exists st, (uba_plus_assign data (zlen enc)). unfold is_consume. rewrite Hnew, bind_ok_l, Hby, bind_ok_l. split; [done|].
  split; [by apply plus_assign_ok|]. split; [exact (is_size_ok i128 s st mt ts L imgs Ho)|]. split; [apply Ho|]. split; [|split].
  - intros i t l img Ht Hl Himg. split; [exact (is_indexType_ok i128 s st mt ts L imgs Ho i t Ht)|].
    split; [|split; [exact (is_idxSize_ok i128 s st mt ts L imgs Ho i l Hl)|exact (is_at_ok i128 s st mt ts L imgs Ho i l Hl)]].
    unfold is_dataSize. rewrite (is_size_ok i128 s st mt ts L imgs Ho). apply lookup_lt_Some in Hl. rewrite (proj2 (Z.leb_gt _ _)) by lia.
    by rewrite (proj1 (is_rawDataAt_ok i128 s st mt ts L imgs Ho i img Himg)), bind_ok_l.
  - exact (is_at_out i128 s st mt ts L imgs Ho).
  - intros Hm HL. pose proof (io_images _ _ _ _ _ _ _ Ho) as H3. pose proof (io_types _ _ _ _ _ _ _ Ho) as Hts.
    destruct ts as [|t ts]; [inversion H3; subst; by destruct (HL eq_refl)|]. apply Forall_cons in Hts as [Ht _].
    destruct (mtypes_ok mt (io_mtype _ _ _ _ _ _ _ Ho)) as (_ & _ & _ & H1).
    exists t, (t :: ts), imgs. rewrite <- (H1 t Ht Hm). split; [exact Ho|apply Ht].
Qed.

Lemma native_image l : storable l -> image T_NATIVE l (na_image l).
Proof.
  intros Hst. pose proof (storable_ids l Hst) as Hl. destruct Hst as (Hs & _ & Hn). intros T BT BTO t data rest Hb. cbn [createPrivate]. destruct (na_new_ok t data l rest Hb Hl) as (d & -> & Hd); [lia|].
  rewrite bind_ok_l. eexists. split; [done|]. by split.
Qed.

Definition example_store : list Z := [5; 32; 0; 0; 8; 0; 0; 0; 0] ++ na_image [7] ++ [64; 0] ++ [4; 4; 0; 0; 0; 0; 1; 0; 0; 0].

Lemma example_store_image : store_image 32 [T_NATIVE] [[7]] [na_image [7]] example_store.
Proof.
  split.
  - apply list_elem_of_In. vm_compute. auto.
  - constructor; [|constructor]. split; [unfold on_disk; auto|done].
  - constructor; [|constructor]. apply native_image. split; [repeat constructor|]. split; [repeat constructor; lia|cbn; lia].
  - constructor; [|constructor]. split; [repeat constructor|]. split; [repeat constructor; lia|cbn; lia].
  - cbn. lia.
  - vm_compute. split; [discriminate|reflexivity].
  - exists (64 :: vl_bytes VlUint64 0), [4; 4; 0; 0; 0; 0; 1; 0; 0; 0], []. split; [|split; [|split]].
    + constructor. unfold fits. lia.
    + by exists [].
    + done.
    + vm_compute. reflexivity.
Qed.

Lemma index_store_opens_witness : exists st d idx,
  is_consume (Vec.mk example_store) (mkUba 0 (zlen example_store) 0 0) = Ok (st, d) /\ is_size st = 1 /\
  is_at true (Vec.mk example_store) st 0 = Ok idx /\ ii_rep idx [7].
Proof.
  destruct (index_store_opens true (Vec.mk example_store) (mkUba 0 (zlen example_store) 0 0) 32 [T_NATIVE] [[7]] [na_image [7]] example_store []
    example_store_image) as (st & d & Hst & _ & Hsz & _ & Hat & _).
  - rewrite app_nil_r. apply vec_buf; [apply (bool_decide_unpack _); vm_compute; exact I|vm_compute; reflexivity].
  - vm_compute. reflexivity.
  - destruct (Hat 0%nat T_NATIVE [7] (na_image [7]) eq_refl eq_refl eq_refl) as (_ & _ & _ & idx & Hidx & Hrep).
    exists st, d, idx. split; [exact Hst|]. split; [exact Hsz|]. split; [exact Hidx|exact Hrep].
Defined.
