(* ===== verification/Workers.v ===== *)
(** Worker threads that share a counter, the way
    [src/spatial/CellQueryResultPrivate.cpp] and [src/spatial/CellQueryResult.cpp] run
    their loops on a thread pool: every thread takes the next number from an atomic
    counter and works on it, until the numbers are used up; then it may have something
    left to do for the others.

    [job] and [post] are steps: what they read and write of the shared state is written by
    no other thread meanwhile, or is guarded by a mutex.  A schedule is the list of the
    threads in the order of their steps. *)

From stdpp Require Import gmap.
From S2P Require Import Prelude.

Section machine.
Context {R T : Type} (total : Z) (job : Z -> T -> R -> result (T * R)) (post : T -> R -> result (option T * R)).

(** At the top of the loop, with a number, behind the loop, and ended. *)
Inductive thread := Top (l : T) | Work (i : Z) (l : T) | Post (l : T) | Done.
Record wstate := mkW { w_next : Z; w_shared : R; w_threads : list thread }.

(** One step of the thread [t]; a thread that has ended does nothing. *)
Definition wstep (st : wstate) (t : nat) : result wstate :=
  match w_threads st !! t with
  | Some (Top l) =>
      let i := w_next st in
      mret (mkW (u32 (i + 1)) (w_shared st) (<[t := if total <=? i then Post l else Work i l]> (w_threads st)))
  | Some (Work i l) => '(l, r) ← job i l (w_shared st); mret (mkW (w_next st) r (<[t := Top l]> (w_threads st)))
  | Some (Post l) =>
      '(o, r) ← post l (w_shared st);
      mret (mkW (w_next st) r (<[t := match o with Some l => Post l | None => Done end]> (w_threads st)))
  | Some Done | None => Ok st
  end.
Fixpoint wrun (st : wstate) (sched : list nat) : result wstate :=
  match sched with [] => Ok st | t :: sched => st ← wstep st t; wrun st sched end.
Definition wstart (n : nat) (l : T) (r : R) : wstate := mkW 0 r (replicate n (Top l)).
Definition ended (st : wstate) : Prop := Forall (eq Done) (w_threads st).
(** No two threads work on the same number. *)
Definition apart (st : wstate) : Prop := forall t u i l k, w_threads st !! t = Some (Work i l) -> w_threads st !! u = Some (Work i k) -> t = u.

(** * Correctness *)

Definition local (th : thread) : option T := match th with Top l | Work _ l | Post l => Some l | Done => None end.
Definition locals (ths : list thread) : list (option T) := local <$> ths.

(** What the steps keep: the numbers done, the shared state and what the threads hold; and a
    measure that keeps the steps behind the loop from going on for ever. *)
Context (Inv : gset Z -> R -> list (option T) -> Prop) (ms : R -> nat).
Context (Hjob : forall D r ls t i l, Inv D r ls -> ls !! t = Some (Some l) -> 0 <= i < total -> i ∉ D ->
  exists l' r', job i l r = Ok (l', r') /\ Inv ({[ i ]} ∪ D) r' (<[t := Some l']> ls) /\ (ms r' <= ms r)%nat).
Context (Hpost : forall D r ls t l, Inv D r ls -> ls !! t = Some (Some l) ->
  exists o r', post l r = Ok (o, r') /\ Inv D r' (<[t := o]> ls) /\ (ms r' + match o with Some _ => 1 | None => 0 end <= ms r + match o with Some _ => 0 | None => 1 end)%nat).

Record good (st : wstate) (D : gset Z) : Prop := {
  g_inv : Inv D (w_shared st) (locals (w_threads st));
  g_pos : 0 <= w_next st;
  g_done i : i ∈ D <-> 0 <= i < Z.min total (w_next st) /\ forall t l, w_threads st !! t <> Some (Work i l);
  g_work t i l : w_threads st !! t = Some (Work i l) -> 0 <= i < Z.min total (w_next st);
  g_own : apart st;
  g_over : w_next st <= Z.max 0 total + Z.of_nat (length (List.filter (fun th => match th with Post _ | Done => true | _ => false end) (w_threads st)));
  g_end t th : w_threads st !! t = Some th -> match th with Post _ | Done => total <= w_next st | _ => True end;
}.

Definition weight (th : thread) : nat := match th with Top _ => 3 | Work _ _ => 4 | Post _ => 2 | Done => 0 end.
Definition todo (st : wstate) : nat := 2 * Z.to_nat (total - w_next st) + sum_list_with weight (w_threads st) + ms (w_shared st).

Definition past (th : thread) : bool := match th with Post _ | Done => true | _ => false end.

Lemma past_insert ths t th th' : ths !! t = Some th ->
  (length (List.filter past (<[t := th']> ths)) + Nat.b2n (past th) = length (List.filter past ths) + Nat.b2n (past th'))%nat.
Proof using.
  revert t. induction ths as [|x ths IH]; intros t Ht; [done|]. destruct t as [|t].
  - injection Ht as ->. cbn. destruct (past th), (past th'); cbn; lia.
  - change (<[S t := th']> (x :: ths)) with (x :: <[t := th']> ths). cbn [List.filter]. specialize (IH t Ht). destruct (past x); cbn [length]; lia.
Qed.

Lemma weight_insert ths t th th' : ths !! t = Some th ->
  (sum_list_with weight (<[t := th']> ths) + weight th = sum_list_with weight ths + weight th')%nat.
Proof using.
  revert t. induction ths as [|x ths IH]; intros t Ht; [done|]. destruct t as [|t].
  - injection Ht as ->. cbn. lia.
  - change (<[S t := th']> (x :: ths)) with (x :: <[t := th']> ths). cbn [sum_list_with]. specialize (IH t Ht). lia.
Qed.

Lemma past_le ths : (length (List.filter past ths) <= length ths)%nat.
Proof using. induction ths as [|x ths IH]; [done|]. cbn. destruct (past x); cbn; lia. Qed.

Lemma locals_insert ths t th : locals (<[t := th]> ths) = <[t := local th]> (locals ths).
Proof using. apply list_fmap_insert. Qed.

Lemma locals_at ths t th : ths !! t = Some th -> locals ths !! t = Some (local th).
Proof using. intros Ht. unfold locals. by rewrite list_lookup_fmap, Ht. Qed.

Lemma locals_same ths t th : ths !! t = Some th -> <[t := local th]> (locals ths) = locals ths.
Proof using. intros Ht. by apply list_insert_id, locals_at. Qed.

(** The threads after a step of [t]. *)
Ltac threads :=
  repeat match goal with
  | H : <[_ := _]> _ !! _ = Some _ |- _ => apply list_lookup_insert_Some in H as [(? & ? & _)|[? H]]
  end; simplify_eq; try done; try match goal with H : forall i l, Work ?x ?y <> Work i l |- _ => by destruct (H x y) end.

(** A step that takes no number changes only what [t] does. *)
Lemma good_step st D t th th' r D' : good st D -> w_threads st !! t = Some th ->
  (forall i l, th' <> Work i l) -> past th' = past th \/ total <= w_next st ->
  Inv D' r (<[t := local th']> (locals (w_threads st))) -> (past th = true -> past th' = true) ->
  (forall i, i ∈ D' <-> i ∈ D \/ exists l, th = Work i l) -> good (mkW (w_next st) r (<[t := th']> (w_threads st))) D'.
Proof using.
  intros [Hinv Hpos Hdone Hwork Hown Hover Hend] Ht Hth' Hpast Hinv' Hmono HD. pose proof (past_insert _ t _ th' Ht) as Hp. fold past in Hover.
  unfold apart in Hown. split; unfold apart; cbn [w_next w_shared w_threads]; fold past.
  - by rewrite locals_insert.
  - done.
  - intros i. rewrite HD, Hdone. split.
    + intros [[Hi Hn]|(l & ->)].
      * split; [done|]. intros u l Hu. threads. by apply (Hn u l).
      * split; [by apply (Hwork t i l)|]. intros u k Hu. threads. by destruct (Hown t u i l k Ht Hu).
    + intros [Hi Hn]. assert ((exists l, th = Work i l) \/ forall l, th <> Work i l) as [?|Hno]; [|by right|].
      { destruct th as [|j l| |]; try by right. destruct (decide (i = j)) as [->|]; [left; by eexists|right; congruence]. }
      left. split; [done|].
      intros u k Hu. destruct (decide (t = u)) as [<-|Htu]; [rewrite Ht in Hu; injection Hu as ->; by destruct (Hno k)|].
      apply (Hn u k). by rewrite list_lookup_insert_ne.
  - intros u i l Hu. threads. by apply (Hwork u i l).
  - intros u v i l k Hu Hv. threads. by eapply Hown.
  - destruct th, th'; cbn in *; try done; lia.
  - intros u th2 Hu. apply list_lookup_insert_Some in Hu as [(<- & <- & _)|[_ Hu]]; [|by apply (Hend u)]. destruct Hpast as [Hpast|Hge]; [|by destruct th'].
    specialize (Hend t th Ht). destruct th, th'; cbn in *; done.
Qed.

Lemma good_fetch st D t l : good st D -> w_threads st !! t = Some (Top l) -> w_next st < total ->
  good (mkW (w_next st + 1) (w_shared st) (<[t := Work (w_next st) l]> (w_threads st))) D.
Proof using.
  intros [Hinv Hpos Hdone Hwork Hown Hover Hend] Ht Hl. pose proof (past_insert _ t _ (Work (w_next st) l) Ht) as Hp. fold past in Hover.
  pose proof (lookup_lt_Some _ _ _ Ht) as Hlt.
  assert (forall u k, w_threads st !! u <> Some (Work (w_next st) k)) as Hnew by (intros u k Hu; pose proof (Hwork u _ _ Hu); lia).
  unfold apart in Hown. split; unfold apart; cbn [w_next w_shared w_threads]; fold past.
  - rewrite locals_insert. change (local (Work _ l)) with (local (Top l)). by rewrite (locals_same _ _ _ Ht).
  - lia.
  - intros i. rewrite Hdone. split; intros [Hi Hn].
    + split; [lia|]. intros u k Hu. threads; [lia|]. by apply (Hn u k).
    + assert (i <> w_next st) as Hne by (intros ->; apply (Hn t l), list_lookup_insert_Some; by left). split; [lia|].
      intros u k Hu. apply (Hn u k). rewrite list_lookup_insert_ne; [done|]. intros <-. by rewrite Ht in Hu.
  - intros u i k Hu. threads; [lia|]. pose proof (Hwork u i k Hu). lia.
  - intros u v i k k' Hu Hv. threads; [exfalso; eapply Hnew; eassumption|exfalso; eapply Hnew; eassumption|by eapply Hown].
  - cbn [past Nat.b2n] in Hp. lia.
  - intros u th Hu. threads. specialize (Hend u th Hu). destruct th; lia || done.
Qed.

Lemma good_over st D t l : good st D -> w_threads st !! t = Some (Top l) -> total <= w_next st ->
  good (mkW (w_next st + 1) (w_shared st) (<[t := Post l]> (w_threads st))) D.
Proof using.
  intros [Hinv Hpos Hdone Hwork Hown Hover Hend] Ht Hl. pose proof (past_insert _ t _ (Post l) Ht) as Hp. fold past in Hover.
  unfold apart in Hown. split; unfold apart; cbn [w_next w_shared w_threads]; fold past.
  - rewrite locals_insert. change (local (Post l)) with (local (Top l)). by rewrite (locals_same _ _ _ Ht).
  - lia.
  - intros i. rewrite Hdone. rewrite !Z.min_l by lia. split; intros [Hi Hn]; (split; [done|]); intros u k Hu; apply (Hn u k); threads.
    rewrite list_lookup_insert_ne; [done|]. intros <-. by rewrite Ht in Hu.
  - intros u i k Hu. threads. pose proof (Hwork u i k Hu). lia.
  - intros u v i k k' Hu Hv. threads. by eapply Hown.
  - cbn [past Nat.b2n] in Hp. lia.
  - intros u th Hu. threads; [lia|]. specialize (Hend u th Hu). destruct th; lia || done.
Qed.

(** A step of a thread that has not ended. *)
Lemma wstep_ok st D t th : good st D -> w_threads st !! t = Some th -> th <> Done -> Z.max 0 total + zlen (w_threads st) < 2 ^ 32 ->
  exists st' D', wstep st t = Ok st' /\ good st' D' /\ length (w_threads st') = length (w_threads st) /\ (todo st' < todo st)%nat.
Proof using Hjob Hpost.
  intros Hg Ht Hth Hfew. pose proof Hg as [Hinv Hpos Hdone Hwork Hown Hover Hend]. unfold wstep. rewrite Ht.
  pose proof (past_le (w_threads st)) as Hple. fold past in Hover.
  pose proof (fun th' => weight_insert _ t _ th' Ht) as Hw. pose proof (locals_at _ _ _ Ht) as Hloc.
  destruct th as [l|i l|l|]; [| | |done]; cbn [local weight] in *.
  - pose proof (past_insert _ t _ (Post l) Ht) as Hp. pose proof (past_le (<[t := Post l]> (w_threads st))) as Hpl. rewrite length_insert in Hpl. cbn [past Nat.b2n] in Hp.
    rewrite (wrap_small 32 (w_next st + 1)) by (unfold fits; lia). destruct (Z.leb_spec total (w_next st)) as [Hge|Hl]; (eexists _, D; split; [reflexivity|]).
    + split; [by apply good_over|]. split; [apply length_insert|]. unfold todo. cbn [w_next w_shared w_threads]. specialize (Hw (Post l)). cbn [weight] in Hw. lia.
    + split; [by apply good_fetch|]. split; [apply length_insert|]. unfold todo. cbn [w_next w_shared w_threads].
      specialize (Hw (Work (w_next st) l)). cbn [weight] in Hw. lia.
  - pose proof (Hwork t i l Ht) as Hi. assert (i ∉ D) as HiD by (rewrite Hdone; intros [_ Hn]; by apply (Hn t l)).
    destruct (Hjob D _ _ t i l Hinv Hloc) as (l' & r' & -> & Hinv' & Hms); [lia|done|]. rewrite bind_ok_l.
    eexists _, ({[ i ]} ∪ D). split; [reflexivity|]. split; [|split; [apply length_insert|]].
    + apply (good_step st D t (Work i l)); try done; [by left|]. intros j. split; [intros Hj; destruct (decide (j = i)) as [->|]; [right; by exists l|left; set_solver]|].
      intros [?|(k & [= -> _])]; set_solver.
    + unfold todo. cbn [w_next w_shared w_threads]. specialize (Hw (Top l')). cbn [weight] in Hw. lia.
  - destruct (Hpost D _ _ t l Hinv Hloc) as (o & r' & -> & Hinv' & Hms). rewrite bind_ok_l. eexists _, D. split; [reflexivity|].
    split; [|split; [apply length_insert|]].
    + apply (good_step st D t (Post l)); try done; [by destruct o|left; by destruct o|by destruct o|by destruct o|]. intros j. split; [by left|]. by intros [?|(k & ?)].
    + unfold todo. cbn [w_next w_shared w_threads]. specialize (Hw (match o with Some l => Post l | None => Done end)). destruct o; cbn [weight] in Hw; lia.
Qed.

Lemma wrun_app st s1 s2 : wrun st (s1 ++ s2) = st ← wrun st s1; wrun st s2.
Proof using. revert st. induction s1 as [|t s1 IH]; intros st; [done|]. cbn. destruct (wstep st t) as [st'|]; [apply IH|done]. Qed.

Lemma wrun_ok sched st D : good st D -> Z.max 0 total + zlen (w_threads st) < 2 ^ 32 ->
  exists st' D', wrun st sched = Ok st' /\ good st' D' /\ length (w_threads st') = length (w_threads st).
Proof using Hjob Hpost.
  revert st D. induction sched as [|t sched IH]; intros st D Hg Hfew; [by exists st, D|]. cbn [wrun].
  destruct (w_threads st !! t) as [th|] eqn:Ht.
  - destruct th as [l|i l|l|]; [| | |unfold wstep; rewrite Ht, bind_ok_l; by eapply IH];
      (destruct (wstep_ok st D t _ Hg Ht) as (st' & D' & -> & Hg' & Hl & _); [done|done|]; rewrite bind_ok_l;
       destruct (IH st' D' Hg') as (s2 & D2 & ? & ? & ?); [by rewrite Hl|]; exists s2, D2; split; [done|split; [done|congruence]]).
  - unfold wstep. rewrite Ht, bind_ok_l. by eapply IH.
Qed.

(** All threads can end. *)
Lemma wrun_ends st D : good st D -> Z.max 0 total + zlen (w_threads st) < 2 ^ 32 ->
  exists sched st', wrun st sched = Ok st' /\ ended st' /\ (length sched <= todo st)%nat.
Proof using Hjob Hpost.
  remember (todo st) as n eqn:Hn. revert st D Hn. induction n as [n IH] using lt_wf_ind. intros st D Hn Hg Hfew.
  destruct (decide (Exists (fun th => local th <> None) (w_threads st))) as [Hex|Hall].
  - apply list.Exists_exists in Hex as (th & Hin & Hth). apply list_elem_of_lookup in Hin as (t & Ht).
    destruct (wstep_ok st D t th Hg Ht) as (st1 & D1 & Hs & Hg1 & Hl & Hlt); [by intros ->|done|].
    destruct (IH (todo st1) ltac:(lia) st1 D1 eq_refl Hg1) as (sched & st' & Hr & He & Hsl); [by rewrite Hl|].
    exists (t :: sched), st'. cbn [wrun length]. rewrite Hs, bind_ok_l. split; [done|]. split; [done|]. lia.
  - exists [], st. split; [done|]. split; [|cbn; lia]. unfold ended. apply list.Forall_forall. intros th Hin. apply not_Exists_Forall in Hall; [|intros; apply _].
    rewrite list.Forall_forall in Hall. specialize (Hall th Hin). cbn in Hall. destruct th; try done; by destruct Hall.
Qed.

Lemma ended_all st D : good st D -> ended st -> w_threads st <> [] -> forall i, i ∈ D <-> 0 <= i < total.
Proof using.
  intros [Hinv Hpos Hdone Hwork Hown Hover Hend] He Hne i. unfold ended in He. rewrite list.Forall_forall in He.
  destruct (w_threads st) as [|th ths] eqn:Hths; [done|]. pose proof (He th ltac:(left)) as <-.
  pose proof (Hend 0%nat Done eq_refl) as Htot. cbn in Htot. rewrite Hdone, Z.min_l by lia. split; [by intros []|]. intros Hi. split; [done|].
  intros t l Ht. by specialize (He _ (list_elem_of_lookup_2 _ _ _ Ht)).
Qed.

Lemma good_start n l r : Inv ∅ r (replicate n (Some l)) -> good (wstart n l r) ∅.
Proof using.
  clear Hjob Hpost. intros Hinv. split; unfold apart; cbn [wstart w_next w_shared w_threads].
  - unfold locals. by rewrite fmap_replicate.
  - done.
  - intros i. split; [set_solver|lia].
  - intros t i k Ht. by apply lookup_replicate in Ht as [? _].
  - intros t u i k k' Ht. by apply lookup_replicate in Ht as [? _].
  - lia.
  - intros t th Ht. by apply lookup_replicate in Ht as [-> _].
Qed.

(** Whatever the threads do in whatever order, no step fails and no number is worked on by
    two threads; they can all end, within a bounded number of steps, and then every number
    has been worked on. *)
Lemma workers_ok n l r sched : Inv ∅ r (replicate n (Some l)) -> (0 < n)%nat -> Z.max 0 total + Z.of_nat n < 2 ^ 32 ->
  exists st, wrun (wstart n l r) sched = Ok st /\ apart st /\
    (exists more st', wrun st more = Ok st' /\ ended st') /\
    (ended st -> exists D, Inv D (w_shared st) (replicate n None) /\ forall i, i ∈ D <-> 0 <= i < total).
Proof using Hjob Hpost.
  intros Hinv Hn Hfew. pose proof (good_start n l r Hinv) as Hg.
  assert (length (w_threads (wstart n l r)) = n) as Hl0 by apply length_replicate.
  destruct (wrun_ok sched _ _ Hg) as (st & D & -> & Hg' & Hl); [by rewrite Hl0|]. rewrite Hl0 in Hl. exists st. split; [done|]. split; [apply Hg'|]. split.
  - destruct (wrun_ends st D Hg') as (more & st' & ? & ? & _); [by rewrite Hl|]. by exists more, st'.
  - intros He. exists D. split.
    + pose proof (g_inv _ _ Hg') as HI. replace (replicate n None) with (locals (w_threads st)); [done|].
      unfold ended in He. rewrite <- Hl. clear -He. induction (w_threads st) as [|th ths IH]; [done|]. apply Forall_cons in He as [<- He]. cbn. f_equal. by apply IH.
    + apply (ended_all st D Hg' He). intros E. rewrite E in Hl. cbn in Hl. lia.
Qed.
End machine.
Arguments thread : clear implicits.
Arguments wstate : clear implicits.
