(* ===== verification/CellQueryConv.v ===== *)
(** Converting a query result between item ids of the whole data set and ids that count
    within their cell: [items], [toGlobalItemIds], [toCellLocalItemIds] and [convert] of
    [src/spatial/CellQueryResultPrivate.cpp] and [src/spatial/CellQueryResult.cpp], with
    [selfCheck] and the comparison of two results.

    Both conversions share their cells among worker threads ([Workers]); the operand is
    only read, and the cell [i] of the result is written by the thread that took [i]. *)

From stdpp Require Import gmap.
From S2P Require Import Prelude UtilMath PackUnpack Storage ByteArray ByteStream Bits CompactUintArray BitSets SetFuncs IndexOps ItemIndexDE ItemIndexRleDE ItemIndexNative ItemIndex ItemIndexFactory CellMerge CellQuery Workers.

Section operations.
Context {St : Type} `{IndexStore St} (store : St) (ci : cell_info) (garbage : nat -> Z) (blank : nat -> cell_desc).

(** The ids of the cell at the local ids, which are replaced one by one. *)
Fixpoint globalise (cellIdx : index) (tmpidx : list Z) : result (list Z) :=
  match tmpidx with
  | [] => Ok []
  | localId :: tmpidx => '(cellIdx, globalId) ← ii_at cellIdx localId; rest ← globalise cellIdx tmpidx; mret (globalId :: rest)
  end.
(** The positions of the ids [src] among the ids of the cell. *)
Fixpoint localise (cell src : list Z) (localId : Z) : result (list Z) :=
  match src with
  | [] => Ok []
  | x :: src' =>
      match cell with
      | [] => Err UndefinedBehaviour
      | y :: cell =>
          if x =? y then rest ← localise cell src' (u32 (localId + 1)); mret (localId :: rest)
          else localise cell src (u32 (localId + 1))
      end
  end.

(** The index of all items of a cell, in ids of the data set. *)
Definition cellIdx (cell : Z) : result index := st_at store (ci_cellItemsPtr ci cell).
(** The index of a cell that is matched in part. *)
Definition partialIdx (c : cqr) (pos : Z) (cd : cell_desc) : result index :=
  if fetched cd then idx_at c pos else p ← idxId ci c pos; st_at store p.

Definition cqr_items (c : cqr) (pos : Z) : result (cqr * index) :=
  if has_flag (m_flags c) FF_CELL_GLOBAL_ITEM_IDS then cqr_idx store ci c pos
  else
    throw_if (negb (has_flag (m_flags c) FF_CELL_LOCAL_ITEM_IDS)) AssertionFailed;;
    cd ← at_ (m_desc c) pos;
    all ← cellIdx (cellId cd);
    if fullMatch cd then mret (c, all)
    else
      x ← partialIdx c pos cd;
      tmpidx ← ii_toVector x;
      tmpidx ← globalise all tmpidx;
      i ← create tmpidx (st_indexTypes store);
      mret (c, i).

(** ** The workers *)

Definition set_desc (r : cqr) (pos : Z) (d : cell_desc) : result cqr :=
  if pos <? zlen (m_desc r) then Ok (mkCqr (m_flags r) (<[Z.to_nat pos := d]> (m_desc r)) (m_idx r)) else Err UndefinedBehaviour.

(** What the worker does with the cell [i] of [c]; the thread keeps only an empty vector. *)
Definition conv_job (conv : index -> index -> result (list Z)) (c : cqr) (i : Z) (tmpidx : ()) (r : cqr) : result (() * cqr) :=
  cd ← at_ (m_desc c) i;
  if fullMatch cd then r ← set_desc r i cd; mret ((), r)
  else
    src ← partialIdx c i cd;
    all ← cellIdx (cellId cd);
    throw_if (ii_size all <? ii_size src) AssertionFailed;;
    tmpidx ← conv src all;
    r ← set_desc r i (newDesc false true (cellId cd));
    x ← create tmpidx (st_indexTypes store);
    r ← uncheckedSet r i x;
    mret ((), r).
Definition no_post (l : ()) (r : cqr) : result (option () * cqr) := Ok (None, r).

Definition conv_alloc (flags : Z) (n : nat) : cqr := mkCqr flags (map blank (seq 0 n)) (malloc garbage n).

Definition conv_global (src all : index) : result (list Z) := tmpidx ← ii_toVector src; globalise all tmpidx.
Definition conv_local (src all : index) : result (list Z) := s ← ii_toVector src; a ← ii_toVector all; localise a s 0.

(** The result is that of the state when all threads have ended. *)
Definition convert_with (conv : index -> index -> result (list Z)) (from to : Z) (c : cqr) (threadCount : nat) (sched : list nat) :
    result (wstate cqr ()) :=
  throw_if (negb (has_flag (m_flags c) from) || has_flag (m_flags c) to) TypeMissMatchException;;
  let newFlags := m_flags c - from + to in
  wrun (cellCount c) (conv_job conv c) no_post (wstart threadCount () (conv_alloc newFlags (Z.to_nat (cellCount c)))) sched.
Definition toGlobalItemIds : cqr -> nat -> list nat -> result (wstate cqr ()) :=
  convert_with conv_global FF_CELL_LOCAL_ITEM_IDS FF_CELL_GLOBAL_ITEM_IDS.
Definition toCellLocalItemIds : cqr -> nat -> list nat -> result (wstate cqr ()) :=
  convert_with conv_local FF_CELL_GLOBAL_ITEM_IDS FF_CELL_LOCAL_ITEM_IDS.

(** ** Checking and comparing *)

Fixpoint check_from (n : nat) (c : cqr) (i lastCellId : Z) : result bool :=
  match n with
  | O => Ok true
  | S n =>
      cd ← at_ (m_desc c) i;
      throw_if (ci_cellSize ci <=? cellId cd) AssertionFailed;;
      throw_if (cellId cd <? lastCellId) AssertionFailed;;
      sz ← idxSize store ci c i;
      throw_if (ci_cellItemsCount ci (cellId cd) <? sz) AssertionFailed;;
      if has_flag (m_flags c) FF_CELL_LOCAL_ITEM_IDS && negb (fullMatch cd) && negb (sz =? 0) then
        x ← partialIdx c i cd;
        f ← ii_front x;
        b ← ii_back x;
        throw_if ((ci_cellItemsCount ci (cellId cd) <=? f) || (ci_cellItemsCount ci (cellId cd) <=? b)) AssertionFailed;;
        check_from n c (u32 (i + 1)) (cellId cd)
      else check_from n c (u32 (i + 1)) (cellId cd)
  end.
Definition selfCheck (c : cqr) : result bool := check_from (length (m_desc c)) c 0 (-1).

(** Two indexes: the sizes, then the ids as the iterators give them. *)
Definition ii_eq (a b : index) : result bool :=
  if negb (ii_size a =? ii_size b) then Ok false
  else x ← ii_toVector a; y ← ii_toVector b; mret (bool_decide (x = y)).

Fixpoint eq_from (n : nat) (a b : cqr) (i : Z) : result (cqr * cqr * bool) :=
  match n with
  | O => Ok (a, b, true)
  | S n =>
      d ← at_ (m_desc a) i;
      e ← at_ (m_desc b) i;
      if negb (cellId d =? cellId e) then Ok (a, b, false)
      else if negb (Bool.eqb (fullMatch d) (fullMatch e)) then Ok (a, b, false)
      else if fullMatch d then eq_from n a b (u32 (i + 1))
      else if negb (fetched d) && negb (fetched e) then
        p ← idxId ci a i;
        q ← idxId ci b i;
        if negb (p =? q) then Ok (a, b, false) else eq_from n a b (u32 (i + 1))
      else
        '(a, x) ← cqr_idx store ci a i;
        '(b, y) ← cqr_idx store ci b i;
        same ← ii_eq x y;
        if same : bool then eq_from n a b (u32 (i + 1)) else Ok (a, b, false)
  end.
Definition cqr_eq (a b : cqr) : result (cqr * cqr * bool) :=
  if negb (cellCount a =? cellCount b) then Ok (a, b, false)
  else if negb (m_flags a =? m_flags b) then Ok (a, b, false)
  else eq_from (length (m_desc a)) a b 0.
End operations.

(** * Correctness *)

Lemma ii_toVector_ok (i : index) l : ii_rep i l -> ii_toVector i = Ok l.
Proof. destruct i as [p|]; cbn; [intros (Hp & _); by apply p_putInto_ok|by intros ->]. Qed.

Lemma ii_ends_ok (i : index) l : ii_rep i l -> l <> [] -> ii_front i = Ok (default 0 (head l)) /\ ii_back i = Ok (lastd 0 l).
Proof. destruct i as [p|]; cbn; [intros (Hp & _); by apply p_ends_ok|done]. Qed.

Lemma globalise_ok all k l : ii_rep all k -> Forall (fun i => 0 <= i) l -> globalise all l = Ok (map (fun i => default 0 (k !! Z.to_nat i)) l).
Proof.
  intros Hk Hl. revert all Hk. induction Hl as [|i l Hi Hl IH]; intros all Hk; [done|]. cbn [globalise map].
  destruct (ii_at_ok all k i Hk Hi) as (all' & -> & Hk'). by rewrite bind_ok_l, IH.
Qed.

Lemma localise_ok cell src n : sorted cell -> sorted src -> (forall z, z ∈ src -> z ∈ cell) -> 0 <= n -> n + zlen cell < 2 ^ 32 ->
  exists l, localise cell src n = Ok l /\ sorted l /\ Forall (fun i => n <= i < n + zlen cell) l /\
    map (fun i => default 0 (cell !! Z.to_nat (i - n))) l = src.
Proof.
  revert src n. induction cell as [|y cell IH]; intros src n Hc Hs Hsub Hn Hl.
  - destruct src as [|x src]; [by exists []; repeat constructor|]. specialize (Hsub x ltac:(left)). by apply elem_of_nil in Hsub.
  - destruct src as [|x src]; [by exists []; repeat constructor|]. cbn [localise]. destruct (sorted_cons y cell Hc) as [Hc' Hy].
    destruct (sorted_cons x src Hs) as [Hs' Hx]. cbn [length] in Hl. rewrite (wrap_small 32 (n + 1)) by (unfold fits; lia).
    assert (forall l, Forall (fun i => n + 1 <= i < n + 1 + zlen cell) l -> map (fun i => default 0 ((y :: cell) !! Z.to_nat (i - n))) l =
      map (fun i => default 0 (cell !! Z.to_nat (i - (n + 1)))) l) as Hshift.
    { intros l Hf. apply map_ext_in. intros i Hi%list_elem_of_In. rewrite Forall_forall in Hf. specialize (Hf i Hi).
      replace (Z.to_nat (i - n)) with (S (Z.to_nat (i - (n + 1)))) by lia. done. }
    destruct (Z.eqb_spec x y) as [->|Hne].
    + destruct (IH src (n + 1)) as (l & -> & Hsl & Hfl & Hml); [done|done| |lia|lia|].
      { intros z Hz. specialize (Hsub z ltac:(by right)). apply elem_of_cons in Hsub as [->|]; [|done]. specialize (Hx _ Hz). lia. }
      rewrite bind_ok_l. exists (n :: l). split; [done|]. split; [|split].
      * constructor; [done|]. eapply Forall_impl; [exact Hfl|]. intros i Hi. cbn in Hi. lia.
      * constructor; [cbn [length]; lia|]. eapply Forall_impl; [exact Hfl|]. intros i Hi. cbn [length] in *. lia.
      * cbn [map]. f_equal; [by rewrite Z.sub_diag|]. by rewrite Hshift.
    + destruct (IH (x :: src) (n + 1)) as (l & -> & Hsl & Hfl & Hml); [done|done| |lia|lia|].
      { assert (y < x) as Hyx. { specialize (Hsub x ltac:(left)). apply elem_of_cons in Hsub as [?|Hin]; [done|by apply Hy]. }
        intros z Hz. pose proof (Hsub z Hz) as Hz'. apply elem_of_cons in Hz' as [->|]; [|done]. apply elem_of_cons in Hz as [->|Hz]; [lia|]. specialize (Hx _ Hz). lia. }
      exists l. split; [done|]. split; [done|]. split; [|by rewrite Hshift].
      eapply Forall_impl; [exact Hfl|]. intros i Hi. cbn [length] in *. lia.
Qed.

(** Picking increasing positions of a sorted list. *)
Lemma pick_sorted k l : sorted k -> sorted l -> Forall (fun i => 0 <= i < zlen k) l ->
  sorted (map (fun i => default 0 (k !! Z.to_nat i)) l) /\ forall z, z ∈ map (fun i => default 0 (k !! Z.to_nat i)) l -> z ∈ k.
Proof.
  intros Hk. assert (forall i j x y, k !! i = Some x -> k !! j = Some y -> (i < j)%nat -> x < y) as Hmono.
  { clear l. induction Hk as [|x k Hk IH Hx]; intros i j a b Hi Hj Hij; [done|]. destruct i as [|i], j as [|j]; cbn in *; try lia.
    - injection Hi as <-. rewrite Forall_forall in Hx. by apply Hx, (list_elem_of_lookup_2 _ j).
    - by apply (IH i j); [..|lia]. }
  assert (forall i, 0 <= i < zlen k -> exists x, k !! Z.to_nat i = Some x) as Hat by (intros i Hi; apply lookup_lt_is_Some_2; lia).
  intros Hl. induction Hl as [|i l Hl IH Hi]; intros Hf; cbn [map]; [split; [constructor|by intros z ?%elem_of_nil]|].
  apply Forall_cons in Hf as [Hr Hf]. destruct (IH Hf) as [IHs IHin]. destruct (Hat i Hr) as (x & Hx). rewrite Hx. cbn [default]. split.
  - constructor; [done|]. apply Forall_forall. intros z Hz. change (map ?f l) with (f <$> l) in Hz. apply list_elem_of_fmap in Hz as (j & -> & Hj).
    rewrite Forall_forall in Hi, Hf. specialize (Hi j Hj). specialize (Hf j Hj). destruct (Hat j Hf) as (y & Hy). rewrite Hy. cbn.
    apply (Hmono _ _ _ _ Hx Hy). lia.
  - intros z [->|Hz]%elem_of_cons; [by eapply list_elem_of_lookup_2|by apply IHin].
Qed.

Lemma list_choice {A B} (P : nat -> A -> B -> Prop) l : (forall i x, l !! i = Some x -> exists y, P i x y) ->
  exists k, length k = length l /\ forall i x y, l !! i = Some x -> k !! i = Some y -> P i x y.
Proof.
  revert P. induction l as [|x l IH]; intros P HP; [by exists []|].
  destruct (HP 0%nat x eq_refl) as (y & Hy). destruct (IH (fun i => P (S i)) (fun i x H => HP (S i) x H)) as (k & Hk & Hall).
  exists (y :: k). split; [cbn; lia|]. intros [|i] a b Ha Hb; cbn in *; [congruence|by apply Hall].
Qed.

(** ** The flags *)

Lemma has_flag_bit F n : 0 <= n -> has_flag F (2 ^ n) = Z.testbit F n.
Proof.
  intros Hn. unfold has_flag. apply eq_true_iff_eq. rewrite negb_true_iff, Z.eqb_neq. split.
  - intros Hne. apply not_false_iff_true. intros Hb. apply Hne. apply Z.bits_inj'. intros k Hk. rewrite Z.land_spec, Z.pow2_bits_eqb, Z.bits_0 by done.
    destruct (Z.eqb_spec n k) as [<-|]; [by rewrite Hb|by rewrite andb_false_r].
  - intros Hb H0. apply (f_equal (fun x => Z.testbit x n)) in H0. rewrite Z.land_spec, Z.pow2_bits_true, Hb, Z.bits_0 in H0 by done. done.
Qed.

Lemma low_flags F : has_flag F FF_EMPTY = negb (F mod 2 =? 0) /\ has_flag F 2 = negb ((F / 2) mod 2 =? 0) /\ has_flag F 4 = negb ((F / 4) mod 2 =? 0).
Proof.
  assert (forall n, 0 <= n -> has_flag F (2 ^ n) = negb ((F / 2 ^ n) mod 2 =? 0)) as H.
  { intros n Hn. rewrite has_flag_bit by done. apply eq_true_iff_eq. rewrite Z.testbit_true, negb_true_iff, Z.eqb_neq by done.
    pose proof (Z.mod_pos_bound (F / 2 ^ n) 2). lia. }
  pose proof (H 0) as H0. rewrite Z.pow_0_r, Z.div_1_r in H0. split; [by apply H0|]. split; [by apply (H 1)|by apply (H 2)].
Qed.

(** Switching from one kind of ids to the other. *)
Lemma flags_local F : has_flag F FF_EMPTY = false -> has_flag F 2 = true -> has_flag F 4 = false ->
  has_flag (F - 2 + 4) FF_EMPTY = false /\ has_flag (F - 2 + 4) 2 = false /\ has_flag (F - 2 + 4) 4 = true.
Proof.
  destruct (low_flags F) as (-> & -> & ->), (low_flags (F - 2 + 4)) as (-> & -> & ->). rewrite !negb_true_iff, !negb_false_iff, !Z.eqb_eq, !Z.eqb_neq. Z.to_euclidean_division_equations. lia.
Qed.
Lemma flags_global F : has_flag F FF_EMPTY = false -> has_flag F 4 = true -> has_flag F 2 = false ->
  has_flag (F - 4 + 2) FF_EMPTY = false /\ has_flag (F - 4 + 2) 4 = false /\ has_flag (F - 4 + 2) 2 = true.
Proof.
  destruct (low_flags F) as (-> & -> & ->), (low_flags (F - 4 + 2)) as (-> & -> & ->). rewrite !negb_true_iff, !negb_false_iff, !Z.eqb_eq, !Z.eqb_neq. Z.to_euclidean_division_equations. lia.
Qed.

(** ** The conversions *)

Section conv.
Context {St : Type} {IS : IndexStore St} {ISO : IndexStoreOk St} (store : St) (ci : cell_info) (garbage : nat -> Z) (blank : nat -> cell_desc).
Context (L : list (list Z)) (Hdb : db_ok store ci L).

(** The ids of all items of a cell, in ids of the data set. *)
Definition all_items (c : Z) : list Z := default [] (L !! Z.to_nat (ci_cellItemsPtr ci c)).

Lemma cellIdx_ok c : 0 <= c < ci_cellSize ci -> exists x, cellIdx store ci c = Ok x /\ ii_rep x (all_items c).
Proof using Hdb.
  intros Hc. destruct (db_items _ _ _ Hdb c Hc) as (id & l & Hp & Hl & Hn). unfold cellIdx, all_items. rewrite Hp, Nat2Z.id, Hl.
  apply (st_at_ok _ _ _ _ (db_store _ _ _ Hdb) Hl).
Qed.

Lemma all_items_ok c : 0 <= c < ci_cellSize ci -> storable (all_items c) /\ zlen (all_items c) = ci_cellItemsCount ci c.
Proof using Hdb.
  intros Hc. destruct (db_items _ _ _ Hdb c Hc) as (id & l & Hp & Hl & Hn). unfold all_items. rewrite Hp, Nat2Z.id, Hl.
  split; [apply (st_storable _ _ _ _ (db_store _ _ _ Hdb) Hl)|done].
Qed.

Lemma partialIdx_ok F c A i d l : cqr_rep ci L F c A -> m_desc c !! i = Some d -> fullMatch d = false -> A !! i = Some (cellId d, l) ->
  exists x, partialIdx store ci c (Z.of_nat i) d = Ok x /\ ii_rep x l.
Proof using Hdb.
  intros [Hc _] Hd Hf HA. destruct (rep_at ci L F c A i _ l Hc HA) as (d' & s & Hd' & Hs & _ & Hok). rewrite Hd in Hd'. injection Hd' as <-.
  unfold partialIdx. pose proof (co_slot _ _ _ _ _ _ Hok) as Hsl. destruct (fetched d).
  - destruct Hsl as (x & -> & Hx). exists x. split; [by apply slot_idx|done].
  - destruct Hsl as (p & -> & Hp). destruct (Hp Hf) as (id & -> & Hid). unfold idxId. rewrite (at_ok _ _ _ Hd), bind_ok_l, Hf, (slot_ptr _ _ _ Hs), bind_ok_l.
    apply (st_at_ok _ _ _ _ (db_store _ _ _ Hdb) Hid).
Qed.

(** One of the conversions, from the ids of [F] to those of [F']: [Q] relates the items. *)
Section one.
Context (F F' : Z) (conv : index -> index -> result (list Z)) (Q : Z -> list Z -> list Z -> Prop).
Context (Hconv : forall c l src all, 0 <= c < ci_cellSize ci -> sorted l -> (forall z, z ∈ l -> z ∈ full_items ci L F c) -> ii_rep src l ->
  ii_rep all (all_items c) -> exists l', conv src all = Ok l' /\ sorted l' /\ (forall z, z ∈ l' -> z ∈ full_items ci L F' c) /\ Q c l l').
Context (Hfull : forall c, 0 <= c < ci_cellSize ci -> Q c (full_items ci L F c) (full_items ci L F' c)).
Context (a : cqr) (A : cells) (Ha : cqr_rep ci L F a A) (Hnf : Forall (fun d => fetched d && fullMatch d = false) (m_desc a)).

Record partly (D : gset Z) (r : cqr) : Prop := {
  pt_flags : m_flags r = F';
  pt_desc : length (m_desc r) = length A;
  pt_idx : length (m_idx r) = length A;
  pt_fresh i : (i < length A)%nat -> Z.of_nat i ∉ D -> exists p, m_idx r !! i = Some (SPtr p);
  pt_cell i c l : A !! i = Some (c, l) -> Z.of_nat i ∈ D ->
    exists d s l', m_desc r !! i = Some d /\ m_idx r !! i = Some s /\ cellId d = c /\ cell_ok ci L F' d s l' /\ Q c l l' /\ fetched d && fullMatch d = false;
}.

Lemma partly_step D r i c l d s l' : partly D r -> A !! i = Some (c, l) -> Z.of_nat i ∉ D -> cellId d = c ->
  cell_ok ci L F' d s l' -> Q c l l' -> fetched d && fullMatch d = false -> partly ({[ Z.of_nat i ]} ∪ D) (mkCqr (m_flags r) (<[i := d]> (m_desc r)) (<[i := s]> (m_idx r))).
Proof using.
  clear Hdb Hconv Hfull Ha Hnf garbage blank. intros [Hf Hd Hx Hfr Hc] HA HD Hid Hok HQ Hff. pose proof (lookup_lt_Some _ _ _ HA) as Hlt. split; cbn [m_flags m_desc m_idx]; rewrite ?length_insert; try done.
  - intros j Hj HjD. rewrite list_lookup_insert_ne by set_solver. apply Hfr; [done|set_solver].
  - intros j c' k HAj Hj. destruct (decide (i = j)) as [<-|Hij].
    + rewrite HA in HAj. injection HAj as <- <-. exists d, s, l'. rewrite !list_lookup_insert_eq by lia. done.
    + rewrite !list_lookup_insert_ne by done. apply Hc; [done|]. set_solver by lia.
Qed.

Lemma partly_alloc : partly ∅ (conv_alloc garbage blank F' (length A)).
Proof using.
  split; cbn [conv_alloc m_flags m_desc m_idx]; try done.
  - by rewrite length_map, length_seq.
  - unfold malloc. by rewrite length_map, length_seq.
  - intros i Hi _. unfold malloc. exists (garbage i). change (map ?f ?l) with (f <$> l). by rewrite list_lookup_fmap, lookup_seq_lt.
Qed.

Lemma conv_job_ok D r i : partly D r -> 0 <= i < zlen A -> i ∉ D ->
  exists r', conv_job store ci conv a i () r = Ok ((), r') /\ partly ({[ i ]} ∪ D) r'.
Proof using Hdb Hconv Hfull Ha Hnf.
  intros Hr Hi HD. destruct (lookup_lt_is_Some_2 A (Z.to_nat i)) as ([c l] & HA); [lia|]. rewrite <- (Z2Nat.id i) in * by lia.
  set (k := Z.to_nat i) in *. clearbody k. clear i. rewrite Nat2Z.id in HA.
  destruct (rep_at ci L F a A k c l (proj1 Ha) HA) as (d & s & Hd & Hs & Hid & Hok). unfold conv_job. rewrite (at_ok _ _ _ Hd), bind_ok_l.
  pose proof (pt_desc _ _ Hr) as Hld. pose proof (pt_idx _ _ Hr) as Hlx. pose proof (co_id _ _ _ _ _ _ Hok) as Hcr.
  assert (forall e, set_desc r (Z.of_nat k) e = Ok (mkCqr (m_flags r) (<[k := e]> (m_desc r)) (m_idx r))) as Hset.
  { intros e. unfold set_desc. by rewrite (proj2 (Z.ltb_lt _ _)), Nat2Z.id by lia. }
  rewrite Forall_forall in Hnf. pose proof (Hnf d (list_elem_of_lookup_2 _ _ _ Hd)) as Hnfd. rewrite Hid in Hcr. subst c.
  destruct (fullMatch d) eqn:Hf.
  - rewrite Hset, bind_ok_l. eexists. split; [reflexivity|]. rewrite andb_true_r in Hnfd. destruct (pt_fresh _ _ Hr k) as (p & Hp); [lia|done|].
    rewrite <- (list_insert_id (m_idx r) k (SPtr p)) at 1 by done. rewrite (co_full _ _ _ _ _ _ Hok Hf) in HA.
    apply (partly_step D r k (cellId d) (full_items ci L F (cellId d)) d (SPtr p) (full_items ci L F' (cellId d))); try done; [|by apply Hfull|by rewrite Hnfd].
    split; try done; [apply (full_items_ok store ci L F' Hdb _ Hcr)|]. rewrite Hnfd. exists p. split; [done|]. by rewrite Hf.
  - destruct (partialIdx_ok F a A k d l Ha Hd Hf HA) as (src & -> & Hsrc). rewrite bind_ok_l.
    destruct (cellIdx_ok (cellId d) Hcr) as (all & -> & Hall). rewrite bind_ok_l, (ii_size_ok src l Hsrc), (ii_size_ok all _ Hall).
    assert (zlen l <= zlen (all_items (cellId d))) as Hle.
    { rewrite (proj2 (all_items_ok (cellId d) Hcr)), <- (proj2 (full_items_ok store ci L F Hdb (cellId d) Hcr)).
      pose proof (sorted_sub_len l _ (co_sorted _ _ _ _ _ _ Hok) (co_sub _ _ _ _ _ _ Hok)). lia. }
    rewrite (proj2 (Z.ltb_ge _ _)) by done. cbn [throw_if]. rewrite bind_ok_l.
    destruct (Hconv (cellId d) l src all Hcr (co_sorted _ _ _ _ _ _ Hok) (co_sub _ _ _ _ _ _ Hok) Hsrc Hall) as (l' & -> & Hsl & Hsub & HQ).
    rewrite bind_ok_l, Hset, bind_ok_l.
    destruct (create_index_ok l' (st_indexTypes store)) as (x & -> & Hx); [by apply (st_types_ok _ _ (db_store _ _ _ Hdb))|by apply (sub_storable store ci L F' Hdb (cellId d))|].
    rewrite bind_ok_l. unfold uncheckedSet, set_slot. cbn [m_flags m_desc m_idx]. rewrite (proj2 (Z.ltb_lt _ _)), Nat2Z.id, bind_ok_l by lia.
    eexists. split; [reflexivity|]. pose proof (db_cells _ _ _ Hdb). rewrite newDesc_id by lia.
    apply (partly_step D r k (cellId d) l (mkDesc false true (cellId d)) (SIdx x) l'); try done. split; cbn; try done. by exists x.
Qed.

Lemma partly_all D r : partly D r -> (forall i, i ∈ D <-> 0 <= i < zlen A) ->
  exists B, cqr_rep ci L F' r B /\ Forall (fun d => fetched d && fullMatch d = false) (m_desc r) /\ length B = length A /\ forall i c l, A !! i = Some (c, l) -> exists l', B !! i = Some (c, l') /\ Q c l l'.
Proof using Ha.
  intros [Hf Hd Hx _ Hc] HD.
  destruct (list_choice (fun i (cl cl' : Z * list Z) => fst cl' = fst cl /\ Q (fst cl) (snd cl) (snd cl') /\
    exists d s, m_desc r !! i = Some d /\ m_idx r !! i = Some s /\ cellId d = fst cl /\ cell_ok ci L F' d s (snd cl') /\ fetched d && fullMatch d = false) A) as (B & HlB & HB).
  { intros i [c l] HA. destruct (Hc i c l HA) as (d & s & l' & ? & ? & ? & ? & ? & ?); [apply HD; apply lookup_lt_Some in HA; lia|].
    exists (c, l'). split; [done|]. split; [done|]. by exists d, s. }
  exists B. split; [split; [split|]|split; [|split; [done|]]].
  - done.
  - lia.
  - lia.
  - intros i d s Hdi Hsi. pose proof (lookup_lt_Some _ _ _ Hdi) as Hi. destruct (lookup_lt_is_Some_2 A i) as (cl & HAi); [lia|].
    destruct (lookup_lt_is_Some_2 B i) as ([c' l'] & HBi); [lia|]. destruct (HB i cl (c', l') HAi HBi) as (Hk & _ & d' & s' & Hd' & Hs' & Hid & Hok & _).
    cbn in *. rewrite Hdi in Hd'. rewrite Hsi in Hs'. injection Hd' as <-. injection Hs' as <-. exists l'. split; [|done]. rewrite HBi. congruence.
  - replace (keys B) with (keys A); [apply Ha|]. unfold keys. apply list_eq. intros i. change (map fst ?l) with (fst <$> l). rewrite !list_lookup_fmap.
    destruct (A !! i) as [cl|] eqn:HAi.
    + destruct (lookup_lt_is_Some_2 B i) as (cl' & HBi); [apply lookup_lt_Some in HAi; lia|]. destruct (HB i cl cl' HAi HBi) as (Hk & _). rewrite HBi. cbn. by rewrite Hk.
    + apply lookup_ge_None in HAi. rewrite (proj2 (lookup_ge_None B i)) by lia. done.
  - apply Forall_lookup. intros i d Hdi. pose proof (lookup_lt_Some _ _ _ Hdi) as Hi. destruct (lookup_lt_is_Some_2 A i) as (cl & HAi); [lia|].
    destruct (lookup_lt_is_Some_2 B i) as (cl' & HBi); [lia|]. destruct (HB i cl cl' HAi HBi) as (_ & _ & d' & s' & Hd' & _ & _ & _ & Hff). congruence.
  - intros i c l HAi. destruct (lookup_lt_is_Some_2 B i) as ([c' l'] & HBi); [apply lookup_lt_Some in HAi; lia|].
    destruct (HB i _ _ HAi HBi) as (Hk & HQ & _). cbn in *. subst c'. by exists l'.
Qed.

Lemma convert_ok from to n sched : has_flag F from = true -> has_flag F to = false -> F' = F - from + to -> (0 < n)%nat -> Z.of_nat n < 2 ^ 31 ->
  exists st, convert_with store ci garbage blank conv from to a n sched = Ok st /\ apart st /\
    (exists more st', wrun (cellCount a) (conv_job store ci conv a) no_post st more = Ok st' /\ ended st') /\
    (ended st -> exists B, cqr_rep ci L F' (w_shared st) B /\ Forall (fun d => fetched d && fullMatch d = false) (m_desc (w_shared st)) /\ length B = length A /\
       forall i c l, A !! i = Some (c, l) -> exists l', B !! i = Some (c, l') /\ Q c l l').
Proof using Hdb Hconv Hfull Ha Hnf.
  intros Hfrom Hto HF Hn Hn31. unfold convert_with. rewrite (cr_flags _ _ _ _ _ (proj1 Ha)), Hfrom, Hto. cbn [negb orb throw_if]. rewrite bind_ok_l, <- HF.
  pose proof (rep_few store ci L F Hdb a A Ha) as Hfew. assert (cellCount a = zlen A) as Hcount.
  { unfold cellCount. rewrite (cr_len _ _ _ _ _ (proj1 Ha)). apply wrap_small. unfold fits. lia. }
  rewrite Hcount, Nat2Z.id.
  destruct (workers_ok (zlen A) (conv_job store ci conv a) no_post (fun D r _ => partly D r) (fun _ => 0%nat)) with
    (n := n) (l := ()) (r := conv_alloc garbage blank F' (length A)) (sched := sched) as (st & Hst & Hone & Hmore & Hend).
  - intros D r ls t i [] Hr _ Hi HD. destruct (conv_job_ok D r i Hr Hi HD) as (r' & ? & ?). by exists (), r'.
  - intros D r ls t [] Hr _. exists None, r. split; [done|]. split; [done|]. cbn. lia.
  - apply partly_alloc.
  - done.
  - lia.
  - exists st. do 3 (split; [done|]). intros He. destruct (Hend He) as (D & Hr & HD). by apply (partly_all D).
Qed.
End one.

(** The ids at the positions [l] of a cell, and the cells with them. *)
Definition glob (c : Z) (l : list Z) : list Z := map (fun i => default 0 (all_items c !! Z.to_nat i)) l.
Definition globals (A : cells) : cells := map (fun cl => (fst cl, glob (fst cl) (snd cl))) A.

Lemma full_local F c : has_flag F FF_CELL_LOCAL_ITEM_IDS = true -> 0 <= c < ci_cellSize ci -> full_items ci L F c = seqZ 0 (zlen (all_items c)).
Proof using Hdb. intros HF Hc. unfold full_items. by rewrite HF, (proj2 (all_items_ok c Hc)). Qed.
Lemma full_global F c : has_flag F FF_CELL_LOCAL_ITEM_IDS = false -> full_items ci L F c = all_items c.
Proof using. intros HF. unfold full_items. by rewrite HF. Qed.

Lemma glob_seq c : glob c (seqZ 0 (zlen (all_items c))) = all_items c.
Proof using.
  unfold glob. apply list_eq. intros i. change (map ?f ?l) with (f <$> l). rewrite list_lookup_fmap.
  destruct (all_items c !! i) as [x|] eqn:Hx.
  - pose proof (lookup_lt_Some _ _ _ Hx). rewrite (proj2 (lookup_seqZ 0 _ i (Z.of_nat i))) by lia. cbn. by rewrite Nat2Z.id, Hx.
  - apply lookup_ge_None in Hx. rewrite lookup_seqZ_ge by lia. done.
Qed.

Lemma local_ids c l F : has_flag F FF_CELL_LOCAL_ITEM_IDS = true -> 0 <= c < ci_cellSize ci -> (forall z, z ∈ l -> z ∈ full_items ci L F c) ->
  Forall (fun i => 0 <= i < zlen (all_items c)) l.
Proof using Hdb.
  intros HF Hc Hsub. apply Forall_forall. intros z Hz%Hsub. rewrite (full_local F c HF Hc) in Hz. apply elem_of_seqZ in Hz. lia.
Qed.

Lemma glob_inj c l k F : has_flag F FF_CELL_LOCAL_ITEM_IDS = true -> 0 <= c < ci_cellSize ci -> (forall z, z ∈ l -> z ∈ full_items ci L F c) ->
  (forall z, z ∈ k -> z ∈ full_items ci L F c) -> glob c l = glob c k -> l = k.
Proof using Hdb.
  intros HF Hc Hl Hk. apply (local_ids c l F HF Hc) in Hl. apply (local_ids c k F HF Hc) in Hk. destruct (all_items_ok c Hc) as [(Hs & _) _].
  pose proof (sorted_nodup _ Hs) as Hnd. revert k Hk. induction Hl as [|x l Hx Hl IH]; intros k Hk E; destruct k as [|y k]; try done.
  apply Forall_cons in Hk as [Hy Hk]. unfold glob in E. cbn [map] in E. injection E as E1 E2. f_equal; [|by apply IH].
  destruct (lookup_lt_is_Some_2 (all_items c) (Z.to_nat x)) as (u & Hu); [lia|]. destruct (lookup_lt_is_Some_2 (all_items c) (Z.to_nat y)) as (v & Hv); [lia|].
  rewrite Hu, Hv in E1. cbn in E1. subst v. pose proof (NoDup_lookup _ _ _ _ Hnd Hu Hv). lia.
Qed.

Lemma conv_global_ok F F' c l src all : has_flag F FF_CELL_LOCAL_ITEM_IDS = true -> has_flag F' FF_CELL_LOCAL_ITEM_IDS = false ->
  0 <= c < ci_cellSize ci -> sorted l -> (forall z, z ∈ l -> z ∈ full_items ci L F c) -> ii_rep src l -> ii_rep all (all_items c) ->
  conv_global src all = Ok (glob c l) /\ sorted (glob c l) /\ forall z, z ∈ glob c l -> z ∈ full_items ci L F' c.
Proof using Hdb.
  intros HF HF' Hc Hs Hsub Hsrc Hall. unfold conv_global. pose proof (local_ids c l F HF Hc Hsub) as Hr.
  rewrite (ii_toVector_ok src l Hsrc), bind_ok_l. split; [apply globalise_ok; [done|]; eapply Forall_impl; [exact Hr|]; intros; cbv beta in *; lia|].
  rewrite (full_global F' c HF'). by apply pick_sorted; [apply (all_items_ok c Hc)|..].
Qed.

Lemma conv_local_ok F F' c l src all : has_flag F FF_CELL_LOCAL_ITEM_IDS = false -> has_flag F' FF_CELL_LOCAL_ITEM_IDS = true ->
  0 <= c < ci_cellSize ci -> sorted l -> (forall z, z ∈ l -> z ∈ full_items ci L F c) -> ii_rep src l -> ii_rep all (all_items c) ->
  exists k, conv_local src all = Ok k /\ sorted k /\ (forall z, z ∈ k -> z ∈ full_items ci L F' c) /\ glob c k = l.
Proof using Hdb.
  intros HF HF' Hc Hs Hsub Hsrc Hall. unfold conv_local. rewrite (ii_toVector_ok src l Hsrc), bind_ok_l, (ii_toVector_ok all _ Hall), bind_ok_l.
  destruct (all_items_ok c Hc) as [(Hsa & _ & Hla) _]. rewrite (full_global F c HF) in Hsub.
  destruct (localise_ok (all_items c) l 0 Hsa Hs Hsub) as (k & -> & Hsk & Hrk & Hmk); [lia|lia|]. exists k. split; [done|]. split; [done|]. split.
  - intros z Hz. rewrite Forall_forall in Hrk. specialize (Hrk z Hz). rewrite (full_local F' c HF' Hc). apply elem_of_seqZ. lia.
  - rewrite <- Hmk. unfold glob. apply map_ext. intros i. by rewrite Z.sub_0_r.
Qed.

Section both.
Context (F : Z) (a : cqr) (A : cells) (Ha : cqr_rep ci L F a A) (HE : has_flag F FF_EMPTY = false).
Context (Hnf : Forall (fun d => fetched d && fullMatch d = false) (m_desc a)).
Context (n : nat) (Hn : (0 < n)%nat) (Hn31 : Z.of_nat n < 2 ^ 31).

Lemma toGlobal_ok sched : has_flag F FF_CELL_LOCAL_ITEM_IDS = true -> has_flag F FF_CELL_GLOBAL_ITEM_IDS = false ->
  exists st, toGlobalItemIds store ci garbage blank a n sched = Ok st /\ apart st /\
    (exists more st', wrun (cellCount a) (conv_job store ci conv_global a) no_post st more = Ok st' /\ ended st') /\
    (ended st -> cqr_rep ci L (F - 2 + 4) (w_shared st) (globals A) /\ Forall (fun d => fetched d && fullMatch d = false) (m_desc (w_shared st))).
Proof using Hdb Ha HE Hnf Hn Hn31.
  intros H2 H4. destruct (flags_local F HE H2 H4) as (_ & H2' & _).
  destruct (convert_ok F (F - 2 + 4) conv_global (fun c l l' => l' = glob c l)) with
    (a := a) (A := A) (from := FF_CELL_LOCAL_ITEM_IDS) (to := FF_CELL_GLOBAL_ITEM_IDS) (n := n) (sched := sched) as (st & Hst & Hone & Hmore & Hend); try done.
  - intros c l src all Hc Hs Hsub Hsrc Hall. destruct (conv_global_ok F (F - 2 + 4) c l src all) as (? & ? & ?); try done. by exists (glob c l).
  - intros c Hc. rewrite (full_local F c H2 Hc), (full_global _ c H2'). by rewrite glob_seq.
  - exists st. do 3 (split; [done|]). intros He. destruct (Hend He) as (B & HB & Hff & Hlen & HBA). split; [|done].
    replace (globals A) with B; [done|]. unfold globals. apply list_eq. intros i. change (map ?f ?l) with (f <$> l). rewrite list_lookup_fmap.
    destruct (A !! i) as [[c l]|] eqn:HAi; cbn; [by destruct (HBA i c l HAi) as (l' & -> & ->)|].
    apply lookup_ge_None in HAi. by apply lookup_ge_None; rewrite Hlen.
Qed.

Lemma toLocal_ok sched : has_flag F FF_CELL_LOCAL_ITEM_IDS = false -> has_flag F FF_CELL_GLOBAL_ITEM_IDS = true ->
  exists st, toCellLocalItemIds store ci garbage blank a n sched = Ok st /\ apart st /\
    (exists more st', wrun (cellCount a) (conv_job store ci conv_local a) no_post st more = Ok st' /\ ended st') /\
    (ended st -> exists B, cqr_rep ci L (F - 4 + 2) (w_shared st) B /\ globals B = A).
Proof using Hdb Ha HE Hnf Hn Hn31.
  intros H2 H4. destruct (flags_global F HE H4 H2) as (_ & _ & H2').
  destruct (convert_ok F (F - 4 + 2) conv_local (fun c l l' => l = glob c l')) with
    (a := a) (A := A) (from := FF_CELL_GLOBAL_ITEM_IDS) (to := FF_CELL_LOCAL_ITEM_IDS) (n := n) (sched := sched) as (st & Hst & Hone & Hmore & Hend); try done.
  - intros c l src all Hc Hs Hsub Hsrc Hall. destruct (conv_local_ok F (F - 4 + 2) c l src all) as (k & ? & ? & ? & ?); try done. by exists k.
  - intros c Hc. rewrite (full_local _ c H2' Hc), (full_global _ c H2). by rewrite glob_seq.
  - exists st. do 3 (split; [done|]). intros He. destruct (Hend He) as (B & HB & _ & Hlen & HBA). exists B. split; [done|].
    unfold globals. apply list_eq. intros i. change (map ?f ?l) with (f <$> l). rewrite list_lookup_fmap.
    destruct (A !! i) as [[c l]|] eqn:HAi; cbn; [by destruct (HBA i c l HAi) as (l' & -> & ->)|].
    apply lookup_ge_None in HAi. by rewrite (proj2 (lookup_ge_None B i)) by (by rewrite Hlen).
Qed.
End both.

Lemma globals_inj F r s A B : has_flag F FF_CELL_LOCAL_ITEM_IDS = true -> cqr_rep ci L F r A -> cqr_rep ci L F s B -> globals A = globals B -> A = B.
Proof using Hdb.
  intros HF Hr Hs E. assert (length A = length B) as Hlen by (apply (f_equal length) in E; unfold globals in E; by rewrite !length_map in E).
  apply list_eq. intros i. assert (globals A !! i = globals B !! i) as Ei by (by rewrite E). unfold globals in Ei. change (map ?f ?l) with (f <$> l) in Ei.
  rewrite !list_lookup_fmap in Ei. destruct (A !! i) as [[c l]|] eqn:HA.
  - destruct (B !! i) as [[c' k]|] eqn:HB; [|done]. cbn in Ei. injection Ei as <- Eg. f_equal. f_equal.
    destruct (rep_at ci L F r A i c l (proj1 Hr) HA) as (d & x & _ & _ & <- & Hok). destruct (rep_at ci L F s B i _ k (proj1 Hs) HB) as (e & y & _ & _ & He & Hoke).
    pose proof (co_sub _ _ _ _ _ _ Hoke) as Hsub. rewrite He in Hsub. apply (glob_inj (cellId d) l k F HF (co_id _ _ _ _ _ _ Hok) (co_sub _ _ _ _ _ _ Hok) Hsub Eg).
  - apply lookup_ge_None in HA. by rewrite (proj2 (lookup_ge_None B i)) by lia.
Qed.

Lemma items_ok F a A i c l : cqr_rep ci L F a A -> has_flag F FF_CELL_GLOBAL_ITEM_IDS = negb (has_flag F FF_CELL_LOCAL_ITEM_IDS) -> A !! i = Some (c, l) ->
  exists a' x, cqr_items store ci a (Z.of_nat i) = Ok (a', x) /\ cqr_rep ci L F a' A /\
    ii_rep x (if has_flag F FF_CELL_LOCAL_ITEM_IDS then glob c l else l).
Proof using Hdb.
  intros Ha HF HA. unfold cqr_items. rewrite (cr_flags _ _ _ _ _ (proj1 Ha)), HF. destruct (has_flag F FF_CELL_LOCAL_ITEM_IDS) eqn:H2; cbn [negb].
  - cbn [throw_if]. rewrite bind_ok_l. destruct (rep_at ci L F a A i c l (proj1 Ha) HA) as (d & s & Hd & Hs & <- & Hok).
    pose proof (co_id _ _ _ _ _ _ Hok) as Hc. rewrite (at_ok _ _ _ Hd), bind_ok_l.
    destruct (cellIdx_ok (cellId d) Hc) as (all & -> & Hall). rewrite bind_ok_l. destruct (fullMatch d) eqn:Hf.
    + eexists _, _. split; [reflexivity|]. split; [done|]. rewrite (co_full _ _ _ _ _ _ Hok Hf), (full_local F _ H2 Hc). by rewrite glob_seq.
    + destruct (partialIdx_ok F a A i d l Ha Hd Hf HA) as (src & -> & Hsrc). rewrite bind_ok_l.
      destruct (conv_global_ok F 0 (cellId d) l src all) as (Hg & Hsg & Hsub); try done; [apply Hok|apply Hok|]. unfold conv_global in Hg.
      revert Hg. destruct (ii_toVector src) as [v|]; [|done]. rewrite !bind_ok_l. intros ->. rewrite bind_ok_l.
      destruct (create_index_ok (glob (cellId d) l) (st_indexTypes store)) as (x & -> & Hx);
        [by apply (st_types_ok _ _ (db_store _ _ _ Hdb))|by apply (sub_storable store ci L 0 Hdb (cellId d))|].
      rewrite bind_ok_l. by exists a, x.
  - destruct (cqr_idx_ok store ci L F Hdb a A i c l Ha HA) as (a' & x & -> & Hx & Ha' & _). by exists a', x.
Qed.

Lemma sorted_app_lt pre x X : sorted (pre ++ x :: X) -> forall y, y ∈ X -> x < y.
Proof using.
  clear. induction pre as [|p pre IH]; intros Hs y Hy; [by apply (sorted_cons x X Hs)|]. apply IH; [by apply (sorted_cons p (pre ++ x :: X))|done].
Qed.

Lemma lastd_in l (d : Z) : l <> [] -> lastd d l ∈ l.
Proof using. clear. intros Hne. unfold lastd. destruct (last l) as [x|] eqn:E; [by apply last_Some_elem_of|by apply last_None in E]. Qed.

Lemma check_from_ok F X a A pre la : cqr_rep ci L F a A -> A = pre ++ X -> zlen A < 2 ^ 32 -> (forall c, c ∈ keys X -> la <= c) ->
  check_from store ci (length X) a (zlen pre) la = Ok true.
Proof using Hdb.
  intros Ha. revert pre la. induction X as [|[c l] X IH]; intros pre la HA Hn Hla; [done|]. cbn [length check_from].
  assert (A !! length pre = Some (c, l)) as Hi by (by rewrite HA, list_lookup_middle).
  destruct (rep_at ci L F a A _ c l (proj1 Ha) Hi) as (d & s & Hd & Hs & Hid & Hok). pose proof (co_id _ _ _ _ _ _ Hok) as Hc. subst c.
  rewrite (at_ok _ _ _ Hd), bind_ok_l. rewrite (proj2 (Z.leb_gt _ _)) by lia. cbn [throw_if]. rewrite bind_ok_l.
  assert (la <= cellId d) as Hlad by (apply Hla; unfold keys; left). rewrite (proj2 (Z.ltb_ge _ _)) by lia. cbn [throw_if]. rewrite bind_ok_l.
  rewrite (idxSize_ok store ci L F Hdb a A _ _ l Ha Hi), bind_ok_l. destruct (full_items_ok store ci L F Hdb _ Hc) as [_ Hcnt].
  pose proof (sorted_sub_len l _ (co_sorted _ _ _ _ _ _ Hok) (co_sub _ _ _ _ _ _ Hok)) as Hle.
  rewrite (proj2 (Z.ltb_ge _ _)) by lia. cbn [throw_if]. rewrite bind_ok_l, (cr_flags _ _ _ _ _ (proj1 Ha)).
  assert (zlen A = zlen pre + zlen X + 1) as HlA by (rewrite HA, length_app; cbn [length]; lia).
  rewrite (wrap_small 32 (zlen pre + 1)) by (unfold fits; lia). rewrite (snoc_pos pre (cellId d, l)).
  assert (check_from store ci (length X) a (zlen (pre ++ [(cellId d, l)])) (cellId d) = Ok true) as Hrec.
  { apply IH; [by rewrite <- app_assoc|done|]. intros c Hcx. apply Z.lt_le_incl. pose proof (proj2 Ha) as Hsk. rewrite HA in Hsk. unfold keys in Hsk. rewrite map_app in Hsk.
    by apply (sorted_app_lt _ _ _ Hsk). }
  case_match eqn:Hcase; [|done]. apply andb_true_iff in Hcase as [Hcase Hne]. apply andb_true_iff in Hcase as [H2 Hf]. apply negb_true_iff in Hf, Hne. apply Z.eqb_neq in Hne.
  destruct (partialIdx_ok F a A _ d l Ha Hd Hf Hi) as (x & -> & Hx). rewrite bind_ok_l. assert (l <> []) as Hl by (by intros ->).
  destruct (ii_ends_ok x l Hx Hl) as [-> ->]. rewrite !bind_ok_l. pose proof (local_ids (cellId d) l F H2 Hc (co_sub _ _ _ _ _ _ Hok)) as Hr.
  rewrite (proj2 (all_items_ok _ Hc)) in Hr. rewrite Forall_forall in Hr. pose proof (Hr _ (lastd_in l 0 Hl)).
  destruct l as [|z l]; [done|]. pose proof (Hr z ltac:(left)). cbn [head default]. rewrite !(proj2 (Z.leb_gt _ _)) by (cbn; lia). cbn [orb throw_if]. by rewrite bind_ok_l.
Qed.

Lemma ii_eq_ok (x y : index) l k : ii_rep x l -> ii_rep y k -> ii_eq x y = Ok (bool_decide (l = k)).
Proof using.
  intros Hx Hy. unfold ii_eq. rewrite (ii_size_ok x l Hx), (ii_size_ok y k Hy). destruct (Z.eqb_spec (zlen l) (zlen k)) as [E|E]; cbn [negb].
  - by rewrite (ii_toVector_ok x l Hx), bind_ok_l, (ii_toVector_ok y k Hy), bind_ok_l.
  - rewrite bool_decide_false; [done|]. by intros ->.
Qed.

(** The two cells at a position are compared as: both matched in full, or with the same id,
    or with the same items. *)
Definition cell_eq (a b : cqr) (A B : cells) (i : nat) : Prop :=
  A !! i = B !! i /\ forall d e, m_desc a !! i = Some d -> m_desc b !! i = Some e ->
    fullMatch d = fullMatch e /\ (fullMatch d = false -> fetched d = false -> fetched e = false -> m_idx a !! i = m_idx b !! i).

Lemma cell_eq_agree a b a' b' A B i : agree a a' i -> agree b b' i -> cell_eq a b A B i <-> cell_eq a' b' A B i.
Proof using.
  intros Ha Hb. destruct (Ha i (le_n _)) as [E1 E2], (Hb i (le_n _)) as [E3 E4]. unfold cell_eq. by rewrite E1, E2, E3, E4.
Qed.

Lemma eq_from_ok F n a b A B i : cqr_rep ci L F a A -> cqr_rep ci L F b B -> length A = length B -> (i + n)%nat = length A ->
  exists a' b' r, eq_from store ci n a b (Z.of_nat i) = Ok (a', b', r) /\ cqr_rep ci L F a' A /\ cqr_rep ci L F b' B /\
    (r = true <-> forall k, (i <= k < length A)%nat -> cell_eq a b A B k).
Proof using Hdb.
  clear garbage blank. revert a b i. induction n as [|n IH]; intros a b i Ha Hb Hlen Hn; cbn [eq_from].
  { exists a, b, true. do 3 (split; [done|]). split; [|done]. intros _ k Hk. lia. }
  pose proof (rep_few store ci L F Hdb a A Ha) as Hfew.
  destruct (lookup_lt_is_Some_2 A i) as ([c l] & HA); [lia|]. destruct (lookup_lt_is_Some_2 B i) as ([c' k] & HB); [lia|].
  destruct (rep_at ci L F a A i c l (proj1 Ha) HA) as (d & s & Hd & Hs & Hid & Hok). destruct (rep_at ci L F b B i c' k (proj1 Hb) HB) as (e & t & He & Ht & Hie & Hoke).
  rewrite (at_ok _ _ _ Hd), bind_ok_l, (at_ok _ _ _ He), bind_ok_l. subst c c'. rewrite (wrap_small 32 (Z.of_nat i + 1)) by (unfold fits; lia).
  replace (Z.of_nat i + 1) with (Z.of_nat (S i)) by lia.
  assert (forall a1 b1, cqr_rep ci L F a1 A -> cqr_rep ci L F b1 B -> agree a a1 (S i) -> agree b b1 (S i) -> cell_eq a b A B i ->
    exists a' b' r, eq_from store ci n a1 b1 (Z.of_nat (S i)) = Ok (a', b', r) /\ cqr_rep ci L F a' A /\ cqr_rep ci L F b' B /\
      (r = true <-> forall k, (i <= k < length A)%nat -> cell_eq a b A B k)) as Hrec.
  { intros a1 b1 Ha1 Hb1 Hag Hbg Hi. destruct (IH a1 b1 (S i) Ha1 Hb1 Hlen ltac:(lia)) as (a' & b' & r & Hr & Ha' & Hb' & Hiff). exists a', b', r. do 3 (split; [done|]).
    rewrite Hiff. split; intros Hall j Hj.
    - destruct (decide (j = i)) as [->|]; [done|]. apply (cell_eq_agree a b a1 b1); [intros q Hq; apply Hag; lia|intros q Hq; apply Hbg; lia|]. apply Hall. lia.
    - apply (cell_eq_agree a b a1 b1); [intros q Hq; apply Hag; lia|intros q Hq; apply Hbg; lia|]. apply Hall. lia. }
  assert (~ cell_eq a b A B i -> forall a1 b1, cqr_rep ci L F a1 A -> cqr_rep ci L F b1 B -> exists a' b' r, Ok (a1, b1, false) = Ok (a', b', r) /\ cqr_rep ci L F a' A /\ cqr_rep ci L F b' B /\
      (r = true <-> forall k, (i <= k < length A)%nat -> cell_eq a b A B k)) as Hno.
  { intros Hni a1 b1 Ha1 Hb1. exists a1, b1, false. do 3 (split; [done|]). split; [done|]. intros Hall. destruct Hni. apply Hall. lia. }
  unfold cell_eq in Hrec at 1, Hno at 1. rewrite HA, HB in Hrec, Hno.
  destruct (Z.eqb_spec (cellId d) (cellId e)) as [Hide|Hide]; cbn [negb]; [|apply Hno; [naive_solver|done|done]].
  destruct (Bool.eqb (fullMatch d) (fullMatch e)) eqn:Hff; cbn [negb]; [apply Bool.eqb_prop in Hff|apply Bool.eqb_false_iff in Hff; apply Hno; [naive_solver|done|done]].
  destruct (fullMatch d) eqn:Hf.
  { apply Hrec; try done; try apply agree_refl. rewrite (co_full _ _ _ _ _ _ Hok Hf), (co_full _ _ _ _ _ _ Hoke (eq_sym Hff)), Hide. split; [done|].
    intros d1 e1 Hd1 He1. rewrite Hd in Hd1. rewrite He in He1. injection Hd1 as <-. injection He1 as <-. split; congruence. }
  pose proof (co_slot _ _ _ _ _ _ Hok) as Hsl. pose proof (co_slot _ _ _ _ _ _ Hoke) as Htl.
  destruct (negb (fetched d) && negb (fetched e)) eqn:Hfet.
  - apply andb_true_iff in Hfet as [Hfd Hfe]. apply negb_true_iff in Hfd, Hfe. rewrite Hfd in Hsl. rewrite Hfe in Htl.
    destruct Hsl as (p & -> & Hp), Htl as (q & -> & Hq). destruct (Hp Hf) as (id & -> & Hlid), (Hq (eq_sym Hff)) as (id' & -> & Hlid').
    unfold idxId. rewrite (at_ok _ _ _ Hd), (at_ok _ _ _ He), !bind_ok_l, Hf, <- Hff, (slot_ptr _ _ _ Hs), (slot_ptr _ _ _ Ht), !bind_ok_l.
    destruct (Z.eqb_spec (Z.of_nat id) (Z.of_nat id')) as [Eid|Eid]; cbn [negb].
    + apply Hrec; try done; try apply agree_refl. apply Nat2Z.inj in Eid as <-. rewrite Hlid in Hlid'. injection Hlid' as <-. rewrite Hide. split; [done|].
      intros d1 e1 Hd1 He1. rewrite Hd in Hd1. rewrite He in He1. injection Hd1 as <-. injection He1 as <-. split; [congruence|]. intros _ _ _. congruence.
    + apply Hno; [|done|done]. intros [_ Hform]. destruct (Hform d e Hd He) as [_ Hsame]. specialize (Hsame Hf Hfd Hfe). rewrite Hs, Ht in Hsame. congruence.
  - destruct (cqr_idx_ok store ci L F Hdb a A i _ l Ha HA) as (a1 & x & -> & Hx & Ha1 & Hag). rewrite bind_ok_l.
    destruct (cqr_idx_ok store ci L F Hdb b B i _ k Hb HB) as (b1 & y & -> & Hy & Hb1 & Hbg). rewrite bind_ok_l, (ii_eq_ok x y l k Hx Hy), bind_ok_l.
    case_bool_decide as Hlk.
    + apply Hrec; try done. subst k. rewrite Hide. split; [done|]. intros d1 e1 Hd1 He1. rewrite Hd in Hd1. rewrite He in He1. injection Hd1 as <-. injection He1 as <-.
      split; [congruence|]. intros _ H1 H2. by rewrite H1, H2 in Hfet.
    + apply Hno; [|done|done]. intros [E _]. congruence.
Qed.
End conv.

(** * Properties *)

(** C14: for a result none of whose full matches is fetched ([conversion_full_fetched] shows
    what happens to the others), whatever the number of threads and the order of their
    steps, converting it to global and to cell-local ids never fails, no two threads are
    ever given the same cell, all threads can end, and then the result stands for the same
    cells with the ids translated, in the right order.  Converting one cell is one step. *)
Theorem cqr_conversions {St : Type} {IS : IndexStore St} {ISO : IndexStoreOk St} (store : St) ci garbage blank L F a A n sched :
  db_ok store ci L -> cqr_rep ci L F a A -> has_flag F FF_EMPTY = false ->
  has_flag F FF_CELL_GLOBAL_ITEM_IDS = negb (has_flag F FF_CELL_LOCAL_ITEM_IDS) ->
  Forall (fun d => fetched d && fullMatch d = false) (m_desc a) -> (0 < n)%nat -> Z.of_nat n < 2 ^ 31 ->
  if has_flag F FF_CELL_LOCAL_ITEM_IDS then
    exists st, toGlobalItemIds store ci garbage blank a n sched = Ok st /\ apart st /\
      (exists more st', wrun (cellCount a) (conv_job store ci conv_global a) no_post st more = Ok st' /\ ended st') /\
      (ended st -> cqr_rep ci L (F - 2 + 4) (w_shared st) (globals ci L A))
  else
    exists st, toCellLocalItemIds store ci garbage blank a n sched = Ok st /\ apart st /\
      (exists more st', wrun (cellCount a) (conv_job store ci conv_local a) no_post st more = Ok st' /\ ended st') /\
      (ended st -> exists B, cqr_rep ci L (F - 4 + 2) (w_shared st) B /\ globals ci L B = A).
Proof.
  intros Hdb Ha HE HF Hnf Hn Hn31. destruct (has_flag F FF_CELL_LOCAL_ITEM_IDS) eqn:H2; cbn [negb] in HF.
  - destruct (toGlobal_ok store ci garbage blank L Hdb F a A Ha HE Hnf n Hn Hn31 sched H2 HF) as (st & ? & ? & ? & Hend). exists st.
    do 3 (split; [done|]). intros He. by apply Hend.
  - apply (toLocal_ok store ci garbage blank L Hdb F a A Ha HE Hnf n Hn Hn31 sched H2 HF).
Qed.

(** C15: converting a result with cell-local ids, none of whose full matches is fetched, to
    global ids and back gives the cells and the items it had, whatever the threads of both
    conversions do. *)
Theorem cqr_convert_roundtrip {St : Type} {IS : IndexStore St} {ISO : IndexStoreOk St} (store : St) ci garbage blank L F a A n m s1 s2 :
  db_ok store ci L -> cqr_rep ci L F a A -> has_flag F FF_EMPTY = false -> has_flag F FF_CELL_LOCAL_ITEM_IDS = true ->
  has_flag F FF_CELL_GLOBAL_ITEM_IDS = false -> Forall (fun d => fetched d && fullMatch d = false) (m_desc a) ->
  (0 < n)%nat -> Z.of_nat n < 2 ^ 31 -> (0 < m)%nat -> Z.of_nat m < 2 ^ 31 ->
  exists st, toGlobalItemIds store ci garbage blank a n s1 = Ok st /\ (ended st ->
    exists st', toCellLocalItemIds store ci garbage blank (w_shared st) m s2 = Ok st' /\ (ended st' -> cqr_rep ci L F (w_shared st') A)).
Proof.
  intros Hdb Ha HE H2 H4 Hnf Hn Hn31 Hm Hm31.
  destruct (toGlobal_ok store ci garbage blank L Hdb F a A Ha HE Hnf n Hn Hn31 s1 H2 H4) as (st & Hst & _ & _ & Hend). exists st. split; [done|]. intros He.
  destruct (Hend He) as [Hr Hnf']. destruct (flags_local F HE H2 H4) as (HE' & H2' & H4').
  destruct (toLocal_ok store ci garbage blank L Hdb (F - 2 + 4) (w_shared st) (globals ci L A) Hr HE' Hnf' m Hm Hm31 s2 H2' H4') as (st' & Hst' & _ & _ & Hend').
  exists st'. split; [done|]. intros He'. destruct (Hend' He') as (B & HB & E). replace (F - 2 + 4 - 4 + 2) with F in HB by lia.
  by rewrite (globals_inj store ci L Hdb F a (w_shared st') A B H2 Ha HB (eq_sym E)).
Qed.

(** [items] gives an index of the global ids of a cell in either kind of result;
    [selfCheck] accepts a result that is well formed; [==] on two results of the same kind
    tells whether they have the same cells, matched in the same way, with the same items or,
    where nothing is fetched, with the same index. *)
Theorem cqr_items_check_eq {St : Type} {IS : IndexStore St} {ISO : IndexStoreOk St} (store : St) ci L F a b A B :
  db_ok store ci L -> cqr_rep ci L F a A -> cqr_rep ci L F b B ->
  has_flag F FF_CELL_GLOBAL_ITEM_IDS = negb (has_flag F FF_CELL_LOCAL_ITEM_IDS) ->
  (forall i c l, A !! i = Some (c, l) -> exists a' x, cqr_items store ci a (Z.of_nat i) = Ok (a', x) /\ cqr_rep ci L F a' A /\
     ii_rep x (if has_flag F FF_CELL_LOCAL_ITEM_IDS then glob ci L c l else l)) /\
  selfCheck store ci a = Ok true /\
  exists a' b' r, cqr_eq store ci a b = Ok (a', b', r) /\ cqr_rep ci L F a' A /\ cqr_rep ci L F b' B /\
    (r = true <-> length A = length B /\ forall i, (i < length A)%nat -> cell_eq a b A B i).
Proof.
  intros Hdb Ha Hb HF. pose proof (rep_few store ci L F Hdb a A Ha) as Hfa. pose proof (rep_few store ci L F Hdb b B Hb) as Hfb. split; [|split].
  - intros i c l. by apply (items_ok store ci L Hdb).
  - unfold selfCheck. rewrite (cr_len _ _ _ _ _ (proj1 Ha)). apply (check_from_ok store ci L Hdb F A a A [] (-1) Ha eq_refl); [lia|].
    intros c Hc. destruct (key_cell _ _ Hc) as (l & Hl). apply list_elem_of_lookup in Hl as (i & Hi).
    destruct (rep_at ci L F a A i c l (proj1 Ha) Hi) as (d & s & _ & _ & <- & Hok). pose proof (co_id _ _ _ _ _ _ Hok). lia.
  - unfold cqr_eq, cellCount. rewrite (cr_len _ _ _ _ _ (proj1 Ha)), (cr_len _ _ _ _ _ (proj1 Hb)), !wrap_small by (unfold fits; lia).
    destruct (Z.eqb_spec (zlen A) (zlen B)) as [Hlen|Hlen]; cbn [negb].
    + rewrite (cr_flags _ _ _ _ _ (proj1 Ha)), (cr_flags _ _ _ _ _ (proj1 Hb)), Z.eqb_refl. cbn [negb]. apply Nat2Z.inj in Hlen.
      destruct (eq_from_ok store ci L Hdb F (length A) a b A B 0 Ha Hb Hlen eq_refl) as (a' & b' & r & Hr & ? & ? & Hiff).
      exists a', b', r. split; [exact Hr|]. do 2 (split; [done|]). rewrite Hiff. split; [intros Hall; split; [done|]; intros i Hi; apply Hall; lia|].
      intros [_ Hall] i Hi. apply Hall. lia.
    + exists a, b, false. do 3 (split; [done|]). split; [done|]. intros [? _]. lia.
Qed.

(** * Examples *)

(** Cell-local ids: the second item of the first cell, and all of the second cell. *)
Definition ex_l : cqr := mkCqr 2 [mkDesc false true 0; mkDesc true false 1] [SIdx (Some (PStlVector [1])); SPtr 4].
Definition ex_lA : cells := [(0, [1]); (1, [0; 1])].
Definition ex_blank (k : nat) : cell_desc := mkDesc false false 0.

Lemma ex_l_rep : cqr_rep ex_ci ex_L 2 ex_l ex_lA.
Proof.
  apply (ex_rep_intro 2 [(mkDesc false true 0, SIdx (Some (PStlVector [1])), [1]); (mkDesc true false 1, SPtr 4, [0; 1])]); [repeat constructor|].
  repeat (apply Forall_cons; split); try apply Forall_nil_2; cbn [fst snd]; split; cbn; try done; try lia; try (repeat constructor; lia).
  - intros z [->|[]%elem_of_nil]%elem_of_cons. repeat constructor.
  - eexists. split; [done|]. split; [split; [done|cbn; lia]|]. split; repeat constructor; unfold fits; lia.
  - by exists 4.
Qed.

(** Two threads: the second takes the first cell but is slow. *)
Lemma cqr_conversions_witness : cqr_rep ex_ci ex_L 2 ex_l ex_lA /\
  exists st, toGlobalItemIds (ex_L : list_store) ex_ci ex_garbage ex_blank ex_l 2 [1; 0; 0; 0; 1; 1; 0; 1]%nat = Ok st /\
    ended st /\ cqr_rep ex_ci ex_L 4 (w_shared st) [(0, [2]); (1, [4; 5])].
Proof.
  split; [exact ex_l_rep|].
  destruct (cqr_conversions (ex_L : list_store) ex_ci ex_garbage ex_blank ex_L 2 ex_l ex_lA 2 [1; 0; 0; 0; 1; 1; 0; 1]%nat ex_db_ok ex_l_rep eq_refl eq_refl) as (st & Hst & _ & _ & Hend);
    [repeat constructor|lia|lia|].
  assert (ended st) as He by (vm_compute in Hst; injection Hst as <-; repeat constructor). exists st. split; [exact Hst|]. split; [exact He|]. exact (Hend He).
Defined.

Lemma cqr_convert_roundtrip_witness :
  exists st st', toGlobalItemIds (ex_L : list_store) ex_ci ex_garbage ex_blank ex_l 1 [0; 0; 0; 0; 0; 0]%nat = Ok st /\
    toCellLocalItemIds (ex_L : list_store) ex_ci ex_garbage ex_blank (w_shared st) 2 [1; 0; 0; 0; 1; 1; 0; 1]%nat = Ok st' /\
    ended st' /\ cqr_rep ex_ci ex_L 2 (w_shared st') ex_lA.
Proof.
  destruct (cqr_convert_roundtrip (ex_L : list_store) ex_ci ex_garbage ex_blank ex_L 2 ex_l ex_lA 1 2 [0; 0; 0; 0; 0; 0]%nat [1; 0; 0; 0; 1; 1; 0; 1]%nat
    ex_db_ok ex_l_rep eq_refl eq_refl eq_refl) as (st & Hst & Hend); [repeat constructor|lia|lia|lia|lia|].
  assert (ended st) as He by (vm_compute in Hst; injection Hst as <-; repeat constructor). destruct (Hend He) as (st' & Hst' & Hend').
  assert (ended st') as He'.
  { assert (st = st) as _ by reflexivity. clear Hend Hend' He. vm_compute in Hst. injection Hst as <-. vm_compute in Hst'. injection Hst' as <-. repeat constructor. }
  exists st, st'. split; [exact Hst|]. split; [exact Hst'|]. split; [exact He'|]. exact (Hend' He').
Defined.

Lemma cqr_items_check_eq_witness : selfCheck (ex_L : list_store) ex_ci ex_l = Ok true /\
  exists a' b', cqr_eq (ex_L : list_store) ex_ci ex_l ex_l = Ok (a', b', true).
Proof.
  destruct (cqr_items_check_eq (ex_L : list_store) ex_ci ex_L 2 ex_l ex_l ex_lA ex_lA ex_db_ok ex_l_rep ex_l_rep eq_refl) as (_ & Hc & a' & b' & r & Hr & _ & _ & Hiff).
  split; [exact Hc|]. exists a', b'. rewrite Hr. do 2 f_equal. apply Hiff. split; [reflexivity|]. intros i _. split; [reflexivity|].
  intros d e Hd He. rewrite Hd in He. injection He as <-. split; reflexivity.
Defined.

(** A fetched full match is copied without its index: the result cannot be destroyed. *)
Lemma conversion_full_fetched : exists st,
  toGlobalItemIds (ex_L : list_store) ex_ci ex_garbage ex_blank (mkCqr 2 [mkDesc true true 1] [SIdx (Some (PStlVector [0; 1]))]) 1 [0; 0; 0; 0]%nat = Ok st /\
  ended st /\ cqr_destroy (w_shared st) = Err UndefinedBehaviour.
Proof. eexists. split; [vm_compute; reflexivity|]. split; [repeat constructor|done]. Qed.
