(* ===== verification/IndexAdder.v ===== *)
(** Filling an index store from many threads: the class [ItemIndexFactory] of
    [include/sserialize/containers/ItemIndexFactory.h] and
    [src/containers/ItemIndexFactory.cpp].

    A thread that adds an index encodes it in memory of its own; then it takes an id and a
    place in the data under one lock, lets the storage grow under a second one, copies the
    data, and writes offset and size to the tables under a third one.  [add_step] is one such
    section; [thread_step] interleaves those of all threads.  Copies of two
    threads may overlap in time; they touch different bytes, so each is one step.
    The size of the storage is read without a lock: a step of its own.

    The digest of SHA3 is a parameter; the correctness theorems say where they need that
    it separates the data. *)

From stdpp Require Import gmap.
From Stdlib Require Import Sorting.Sorted.
From S2P Require Import Prelude UtilMath PackUnpack Storage ByteArray ByteStream Bits CompactUintArray SortedOffsets StaticArray BitSets SetFuncs IndexOps ItemIndexDE ItemIndexRleDE ItemIndexNative ItemIndex ItemIndexFactory CellMerge CellQuery ItemIndexStore CellQueryConv.

(** * Encoding *)

Definition T_NULL : Z := 0.

(** The types that [create] knows and this model does not. *)
Definition other_types : list Z := [1; 2; 4; 64; 128; 256].

(** The function [c]: create an index of one type. *)
Definition create_type {S : Type} `{Backend S} (s : S) (idx : list Z) (dest : uba) (type : Z) : result (S * uba * bool) :=
  if bool_decide (type ∈ other_types) then Err UnimplementedFunctionException
  else match type_of_code type with Some t => create_into s idx dest t | None => Ok (s, dest, false) end.

(** Each type is tried in the memory [tmp]; the first smallest one is taken. *)
Fixpoint best_loop (fuel : nat) (v : Vec.t) (tmp : uba) (idx : list Z) (type ct bestType bestSize : Z) : result Z :=
  match fuel with
  | O => Err OutOfFuel
  | Datatypes.S fuel =>
      if type =? 0 then Ok bestType
      else if type &&& 1 =? 0 then best_loop fuel v tmp idx (type >>> 1) (ct <<< 1) bestType bestSize
      else
        '(v, tmp, ok) ← create_type v idx tmp ct;
        let better := ok && (m_len tmp <? bestSize) in
        let '(v, tmp', _) := uba_resize v tmp 0 in
        best_loop fuel v tmp' idx (type >>> 1) (ct <<< 1)
          (if better then ct else bestType) (if better then m_len tmp else bestSize)
  end.
Definition best_type (idx : list Z) (type : Z) : result Z :=
  best_loop 32 (Vec.mk []) (uba_new 0 0) idx (Z.ldiff type T_MULTIPLE) 1 T_NULL max_u64.

(** [create(idx, dest, type)]: the type that was created, or [T_NULL]. *)
Definition create_any {S : Type} `{Backend S} (s : S) (idx : list Z) (dest : uba) (type : Z) : result (S * uba * Z) :=
  type ← (if is_multiple type then best_type idx type else Ok type);
  '(s, dest, ok) ← create_type s idx dest type;
  mret (s, dest, if ok : bool then type else T_NULL).

(** * The factory *)

Record config := mkConfig {
  cf_checkIndex : bool; cf_useDeduplication : bool; cf_type : Z; cf_growSize : Z; cf_auxDataGrow : Z;
}.
(** The constructor: deduplication is on, 16 MiB and 4096 entries are added at once. *)
Definition default_config : config := mkConfig true true 16 (16 * 1024 * 1024) 4096.

(** Encoded data, the number of ids and the type. *)
Record job := mkJob { jb_data : list Z; jb_size : Z; jb_type : Z }.

(** The front of [addIndex(idx)]; comparing with the index compares with the ids it
    enumerates. *)
Definition check_index (v : Vec.t) (ds : uba) (idx : list Z) (type : Z) : result () :=
  match type_of_code type with
  | None => Err UnimplementedFunctionException
  | Some t =>
      sidx ← createPrivate v ds t; ids ← ii_toVector sidx;
      throw_if (negb ((ii_size sidx =? zlen idx) && bool_decide (ids = idx))) CreationException
  end.
Definition build (cf : config) (idx : list Z) : result job :=
  '(v, ds, type) ← create_any (Vec.mk []) idx (uba_new 0 0) (cf_type cf);
  if type =? T_NULL then Err CreationException
  else
    (if cf_checkIndex cf then check_index v ds idx type else Ok ());;
    n ← narrow_check (Unsigned 32) (Unsigned 64) (zlen idx);
    mret (mkJob (Vec.data v) n type).

(** [IndexId] *)
Definition INVALID : Z := max_u32.
Definition newId (v : Z) : result Z := if INVALID <=? v then Err StdOverflowError else Ok v.

(** [MMVector::at(pos) = x] *)
Definition mm_set (l : list Z) (pos x : Z) : result (list Z) :=
  if pos <? zlen l then Ok (<[Z.to_nat pos := x]> l) else Err StdOutOfRange.
Definition mm_at (l : list Z) (pos : Z) : result Z :=
  if pos <? zlen l then Ok (List.nth (Z.to_nat pos) l 0) else Err StdOutOfRange.

(** The map from digests to ids, in which a new key has the id [INVALID]. *)
Record factory (K : Type) `{Countable K} := mkFactory {
  f_header : uba; f_store : uba;
  f_dataOffset : Z; f_idCounter : Z; f_hash : gmap K Z; f_hitCount : Z;
  f_offsets : list Z; f_sizes : list Z; f_types : list Z;
}.
Arguments mkFactory {K _ _}.
Arguments f_header {K _ _}.
Arguments f_store {K _ _}.
Arguments f_dataOffset {K _ _}.
Arguments f_idCounter {K _ _}.
Arguments f_hash {K _ _}.
Arguments f_hitCount {K _ _}.
Arguments f_offsets {K _ _}.
Arguments f_sizes {K _ _}.
Arguments f_types {K _ _}.

Fixpoint msbs (l : list Z) : result (list Z) :=
  match l with [] => Ok [] | v :: l => b ← msb32 v; bs ← msbs l; mret (b :: bs) end.

(** Where a thread is. *)
Inductive pc :=
  | PMeta (j : job)                     (* takes an id *)
  | PCheck (j : job) (id offset : Z)    (* looks at the size of the storage *)
  | PGrow (j : job) (id offset : Z)     (* lets it grow *)
  | PPut (j : job) (id offset : Z)      (* copies the data *)
  | PAux (j : job) (id offset : Z)      (* fills the tables *)
  | PDone (id : Z).

Section operations.
Context {S : Type} `{Backend S} {K : Type} `{Countable K} (hashFunc : list Z -> K) (cf : config).
Context (i128 : bool) (regression : list Z -> result (Z * Z)).
Abbreviation F := (factory K).

Definition set_uba (f : F) (header store : uba) : F :=
  mkFactory header store (f_dataOffset f) (f_idCounter f) (f_hash f) (f_hitCount f) (f_offsets f) (f_sizes f) (f_types f).
Definition set_aux (f : F) (offsets sizes types : list Z) : F :=
  mkFactory (f_header f) (f_store f) (f_dataOffset f) (f_idCounter f) (f_hash f) (f_hitCount f) offsets sizes types.
Definition take_id (f : F) (hash : gmap K Z) (len : Z) : F :=
  mkFactory (f_header f) (f_store f) (u64 (f_dataOffset f + len)) (u64 (f_idCounter f + 1)) hash (f_hitCount f)
    (f_offsets f) (f_sizes f) (f_types f).
Definition add_hit (f : F) : F :=
  mkFactory (f_header f) (f_store f) (f_dataOffset f) (f_idCounter f) (f_hash f) (u64 (f_hitCount f + 1))
    (f_offsets f) (f_sizes f) (f_types f).

Definition f_size (f : F) : Z := u32 (f_idCounter f).
Definition multiple : bool := is_multiple (cf_type cf).

(** ** The sections of [addIndex(data, idxSize, type)] *)

Definition add_meta (f : F) (j : job) : result (F * pc) :=
  throw_if (jb_type j &&& cf_type cf =? 0) AssertionFailed;;
  if cf_useDeduplication cf then
    let hv := hashFunc (jb_data j) in
    let tmpId := default INVALID (f_hash f !! hv) in
    if negb (tmpId =? INVALID) then Ok (add_hit f, PDone tmpId)
    else tmpId ← newId (f_idCounter f);
         mret (take_id f (<[hv := tmpId]> (f_hash f)) (zlen (jb_data j)), PCheck j tmpId (f_dataOffset f))
  else indexId ← newId (f_idCounter f);
       mret (take_id f (f_hash f) (zlen (jb_data j)), PCheck j indexId (f_dataOffset f)).

Definition must_grow (f : F) (j : job) (offset : Z) : bool := m_len (f_store f) <=? u64 (offset + zlen (jb_data j)).

Definition add_grow (s : S) (f : F) (j : job) (offset : Z) : S * F :=
  if must_grow f j offset then
    let needSize := u64 (u64 (offset + zlen (jb_data j)) - m_len (f_store f)) in
    let '(s, store, _) := growStorage s (f_store f) (Z.max needSize (cf_growSize cf)) in
    (s, set_uba f (f_header f) store)
  else (s, f).

(** The new length of the tables has 32 bits. *)
Definition add_aux (f : F) (j : job) (id offset : Z) : result F :=
  let n := u32 (id + cf_auxDataGrow cf) in
  let f := if zlen (f_offsets f) <=? id
           then set_aux f (vresize (f_offsets f) n 0) (vresize (f_sizes f) n 0)
                  (if multiple then vresize (f_types f) n 0 else f_types f)
           else f in
  offsets ← mm_set (f_offsets f) id offset;
  sizes ← mm_set (f_sizes f) id (jb_size j);
  types ← (if multiple then mm_set (f_types f) id (u8 (jb_type j)) else Ok (f_types f));
  mret (set_aux f offsets sizes types).

Definition add_step (s : S) (f : F) (p : pc) : result (S * F * pc) :=
  match p with
  | PMeta j => '(f, p) ← add_meta f j; mret (s, f, p)
  | PCheck j id offset => Ok (s, f, if must_grow f j offset then PGrow j id offset else PPut j id offset)
  | PGrow j id offset => let '(s, f) := add_grow s f j offset in Ok (s, f, PPut j id offset)
  | PPut j id offset => s ← uba_putData s (f_store f) offset (jb_data j); mret (s, f, PAux j id offset)
  | PAux j id offset => f ← add_aux f j id offset; mret (s, f, PDone id)
  | PDone id => Ok (s, f, PDone id)
  end.

Fixpoint run_add (fuel : nat) (s : S) (f : F) (p : pc) : result (S * F * Z) :=
  match p with
  | PDone id => Ok (s, f, id)
  | _ => match fuel with O => Err OutOfFuel | Datatypes.S fuel => '(s, f, p) ← add_step s f p; run_add fuel s f p end
  end.
(** [addIndex] without other threads *)
Definition addIndex (s : S) (f : F) (idx : list Z) : result (S * F * Z) := j ← build cf idx; run_add 5 s f (PMeta j).

(** ** Setting up *)

Definition factory_new : F := mkFactory (uba_new 0 0) (uba_new 0 0) 0 0 ∅ 0 [] [] [].

Definition setIndexFile (s : S) (f : F) (data : uba) : result (S * F) :=
  let f := if f_size f =? 0 then f else mkFactory (f_header f) (f_store f) 0 0 ∅ 0 [] [] [] in
  '(s, header) ← uba_sput Uint8 s data 0;
  '(s, header) ← uba_sput Uint16 s header 0;
  '(s, header) ← uba_sput Uint8 s header 0;
  '(s, header) ← uba_sput Offset s header 0;
  let store := shrinkToPutPtr header in
  let '(s, header, _) := uba_resize s header (m_putPtr header) in
  '(s, f, _) ← addIndex s (set_uba f (resetPtrs header) store) [];
  mret (s, f).

(** ** The result *)

(** [create(begin, end, dest, bits)] of the packed array. *)
Definition cua_create_it (s : S) (src : list Z) (dest : uba) (bits : Z) : result (S * uba) :=
  '(s, dest, b) ← cua_create_bits i128 s src dest bits; throw_if (b =? 0) IOException;; mret (s, dest).

Definition put_header (s : S) (header : uba) (len : Z) : result (S * uba) :=
  '(s, header) ← uba_sput Uint8 s header 5;
  '(s, header) ← uba_sput Uint16 s header (u16 (cf_type cf));
  '(s, header) ← uba_sput Uint8 s header IC_NONE;
  uba_sput Offset s header len.

Definition put_types (s : S) (f : F) (dest : uba) : result (S * uba) :=
  if multiple then
    bits ← typeBits (cf_type cf);
    codes ← msbs (f_types f);
    cua_create_it s codes dest bits
  else Ok (s, dest).

(** The offset index is opened again; that the comparison fails is only reported. *)
Definition flush (s : S) (f : F) : result (S * F * Z) :=
  throw_if (negb (zlen (f_sizes f) =? zlen (f_offsets f))) AssertionFailed;;
  let store := setPutPtr (f_store f) (f_dataOffset f) in
  let f := set_aux f (vresize (f_offsets f) (f_idCounter f) 0) (vresize (f_sizes f) (f_idCounter f) 0)
             (if multiple then vresize (f_types f) (f_idCounter f) 0 else f_types f) in
  '(s, header) ← put_header s (resetPtrs (f_header f)) (m_putPtr store);
  let oIBegin := m_putPtr store in
  '(s, store, ok) ← soi_create i128 regression s (f_offsets f) store;
  if negb ok then Ok (s, set_uba f header store, 0)
  else
    _ ← soi_init s (uba_from store oIBegin);
    '(s, store) ← array_put (SP := sizes_serial) i128 regression s store (f_sizes f);
    '(s, store) ← put_types s f store;
    mret (s, set_uba f header store, u64 (4 + 5 + m_putPtr store)).

Definition getFlushedData (s : S) (f : F) : S * uba :=
  let '(s, fd, _) := growStorage s (f_header f) (m_putPtr (f_store f)) in (s, fd).

(** ** Access before the data is flushed *)

Definition f_type (f : F) (pos : Z) : result Z := if multiple then mm_at (f_types f) pos else Ok (cf_type cf).

(** The end of the last index is the length of the table. *)
Definition dataSizeById (f : F) (id : Z) : result Z :=
  next ← (if u32 (id + 1) <? zlen (f_offsets f) then mm_at (f_offsets f) (u32 (id + 1)) else Ok (zlen (f_offsets f)));
  start ← mm_at (f_offsets f) id;
  mret (u64 (next - start)).
Definition indexDataById (f : F) (id : Z) : result uba :=
  start ← mm_at (f_offsets f) id; n ← dataSizeById f id; mret (uba_from_len (f_store f) start n).
Definition indexById (s : S) (f : F) (id : Z) : result index :=
  d ← indexDataById f id; t ← f_type f id;
  match type_of_code t with Some t => createPrivate s d t | None => Err UnimplementedFunctionException end.
Definition f_idxSize (f : F) (id : Z) : result Z := mm_at (f_sizes f) id.

Fixpoint recalc_loop (n : nat) (s : S) (f : F) (id : Z) (hash : gmap K Z) : result (gmap K Z) :=
  match n with
  | O => Ok hash
  | Datatypes.S n =>
      d ← indexDataById f id;
      bs ← uba_getData s d 0 (m_len d);
      let hv := hashFunc bs in
      throw_if (bool_decide (is_Some (hash !! hv))) AssertionFailed;;
      recalc_loop n s f (u32 (id + 1)) (<[hv := id]> hash)
  end.
Definition recalculateDeduplicationData (s : S) (f : F) : result F :=
  hash ← recalc_loop (Z.to_nat (f_size f)) s f 0 ∅;
  mret (mkFactory (f_header f) (f_store f) (f_dataOffset f) (f_idCounter f) hash (f_hitCount f) (f_offsets f) (f_sizes f) (f_types f)).

(** ** Many threads *)

Definition state : Type := S * F * list pc.

Inductive thread_step : state -> state -> Prop :=
  | step_thread s f ps (k : nat) p s' f' p' : ps !! k = Some p -> (forall id, p <> PDone id) ->
      add_step s f p = Ok (s', f', p') -> thread_step (s, f, ps) (s', f', <[k := p']> ps).
End operations.

(** * Encoding is correct *)

(** What a job says about the ids it was made from. *)
Record job_ok (mt : Z) (src : list Z) (j : job) (t : index_type) : Prop := {
  jo_type : jb_type j = type_code t;
  jo_in : type_in mt t;
  jo_size : jb_size j = zlen src;
  jo_storable : storable src;
  jo_image : image t src (jb_data j);
  jo_bytes : bytes_ok (jb_data j);
}.

Lemma create_type_disk {S : Type} `{Backend S} (s : S) idx dest t : on_disk t -> create_type s idx dest (type_code t) = create_into s idx dest t.
Proof. by intros [->|[->| ->]]. Qed.

Lemma empty_vec : buf (Vec.mk []) (uba_new 0 0) [].
Proof. apply (vec_buf []); [constructor|cbn; lia]. Qed.

(** An index in front of other bytes. *)
Lemma image_app t src img rest : image t src img -> image t src (img ++ rest).
Proof. intros Hi T BT BTO u data more Hb. rewrite <- app_assoc in Hb. by apply (Hi T BT BTO u data (rest ++ more)). Qed.

(** Different lists have different images. *)
Lemma image_inj t src1 src2 img : bytes_ok img -> zlen img < 2 ^ 64 -> image t src1 img -> image t src2 img -> src1 = src2.
Proof.
  intros Hi Hn H1 H2. pose proof (vec_buf img Hi Hn) as Hb. rewrite <- (app_nil_r img) in Hb at 3.
  destruct (H1 _ _ Vec_ok _ _ [] Hb) as (i1 & E1 & R1). destruct (H2 _ _ Vec_ok _ _ [] Hb) as (i2 & E2 & R2).
  rewrite E1 in E2. injection E2 as <-. apply ii_toVector_ok in R1, R2. congruence.
Qed.

Section encoding.
Context (idx : list Z) (Hidx : storable idx).

(** Creating an index in empty memory. *)
Lemma create_fresh (v : Vec.t) tmp t : on_disk t -> buf v tmp [] -> m_offSet tmp = 0 -> m_putPtr tmp = 0 ->
  exists v' tmp' img, create_type v idx tmp (type_code t) = Ok (v', tmp', true) /\ buf v' tmp' img /\
    m_offSet tmp' = 0 /\ m_putPtr tmp' = zlen img /\ zlen img < 2 ^ 32 /\ image t idx img.
Proof using Hidx.
  intros Ht Hb Ho Hp. rewrite create_type_disk by done. pose proof Hidx as (_ & _ & Hn).
  destruct (create_into_ok v tmp [] idx t Ht Hb) as (v' & tmp' & img & Hc & Hb' & Hp' & Ho' & Hil & Him); [by rewrite Hp|done|lia|].
  exists v', tmp', img. split; [done|]. rewrite Hp in *. unfold splice in Hb'. rewrite drop_nil in Hb'. cbn [take Z.to_nat app] in Hb'.
  rewrite app_nil_r in Hb'. split; [done|]. split; [lia|]. split; [lia|]. split; [lia|done].
Qed.

Lemma resize_empty (v : Vec.t) tmp img : buf v tmp img -> m_offSet tmp = 0 -> m_putPtr tmp = zlen img ->
  exists v' tmp', uba_resize v tmp 0 = (v', tmp', true) /\ buf v' tmp' [] /\ m_offSet tmp' = 0 /\ m_putPtr tmp' = 0.
Proof using.
  clear idx Hidx. intros Hb Ho Hp. pose proof (buf_fits _ _ _ Hb) as Hf. pose proof (buf_len _ _ _ Hb) as Hl.
  destruct (uba_resize_ok v tmp img 0 Hb) as (v' & tmp' & ext & Hr & Hb' & _ & Ho' & He); [lia|lia|].
  exists v', tmp'. split; [done|]. destruct ext; [|cbn [length] in He; lia]. split; [done|]. split; [lia|].
  unfold uba_resize in Hr. rewrite Hl, Hp in Hr. destruct (Z.ltb_spec 0 (zlen img)); [by injection Hr as _ <-|].
  unfold growStorage in Hr. destruct (_ <? _); [done|]. destruct (bk_growStorage v _) as [? []]; [|done].
  injection Hr as _ <-. cbn. lia.
Qed.

(** The search ends with one of the types it is given. *)
Lemma best_loop_ok mt fuel (v : Vec.t) tmp type ct bestType bestSize :
  buf v tmp [] -> m_offSet tmp = 0 -> m_putPtr tmp = 0 -> 0 <= type < 2 ^ Z.of_nat fuel ->
  (forall k, 0 <= k -> Z.testbit type k = true -> exists t, type_in mt t /\ type_code t = ct <<< k) ->
  (exists t, type_in mt t /\ bestType = type_code t) \/ (bestSize = max_u64 /\ type <> 0) ->
  exists t, type_in mt t /\ best_loop (Datatypes.S fuel) v tmp idx type ct bestType bestSize = Ok (type_code t).
Proof using Hidx.
  revert v tmp type ct bestType bestSize. induction fuel as [|fuel IH]; intros v tmp type ct bt bs Hb Ho Hp Hty Hbits Hbest.
  - change (2 ^ Z.of_nat 0) with 1 in Hty. assert (type = 0) as -> by lia. destruct Hbest as [(t & Ht & ->)|[_ ?]]; [|done]. by exists t.
  - change (best_loop (Datatypes.S (Datatypes.S fuel)) v tmp idx type ct bt bs) with
      (if type =? 0 then Ok bt else if type &&& 1 =? 0 then best_loop (Datatypes.S fuel) v tmp idx (type >>> 1) (ct <<< 1) bt bs
       else '(v, tmp, ok) ← create_type v idx tmp ct;
            let better := ok && (m_len tmp <? bs) in
            let '(v, tmp', _) := uba_resize v tmp 0 in
            best_loop (Datatypes.S fuel) v tmp' idx (type >>> 1) (ct <<< 1) (if better then ct else bt) (if better then m_len tmp else bs)).
    destruct (Z.eqb_spec type 0) as [->|Hnz]; [destruct Hbest as [(t & Ht & ->)|[_ ?]]; [by exists t|done]|].
    rewrite Nat2Z.inj_succ, Z.pow_succ_r in Hty by lia.
    assert (0 <= type >>> 1 < 2 ^ Z.of_nat fuel) as Hty'.
    { rewrite Z.shiftr_div_pow2 by lia. change (2 ^ 1) with 2. split; [apply Z.div_pos; lia|apply Z.div_lt_upper_bound; lia]. }
    assert (forall k, 0 <= k -> Z.testbit (type >>> 1) k = true -> exists t, type_in mt t /\ type_code t = (ct <<< 1) <<< k) as Hbits'.
    { intros k Hk Hbit. rewrite Z.shiftr_spec in Hbit by done. destruct (Hbits (k + 1)) as (t & Ht & E); [lia|done|].
      exists t. split; [done|]. rewrite Z.shiftl_shiftl by lia. rewrite E. f_equal. lia. }
    assert ((type &&& 1 =? 0) = negb (Z.testbit type 0)) as ->.
    { change 1 with (Z.ones 1). rewrite Z.land_ones by lia. change (2 ^ 1) with 2. rewrite Z.bit0_odd, Zmod_odd. by destruct (Z.odd type). }
    destruct (Z.testbit type 0) eqn:E0; cbn [negb].
    + destruct (Hbits 0 ltac:(lia) E0) as (t & Ht & Hct). rewrite Z.shiftl_0_r in Hct. subst ct.
      destruct (create_fresh v tmp t (proj1 Ht) Hb Ho Hp) as (v1 & tmp1 & img & -> & Hb1 & Ho1 & Hp1 & Hil & _). rewrite bind_ok_l.
      destruct (resize_empty v1 tmp1 img Hb1 Ho1 Hp1) as (v2 & tmp2 & -> & Hb2 & Ho2 & Hp2).
      apply IH; try done. left. pose proof (buf_len _ _ _ Hb1). pose proof (buf_fits _ _ _ Hb1). cbn [andb].
      destruct Hbest as [Hbt|[-> _]].
      * destruct (m_len tmp1 <? bs); [by exists t|done].
      * destruct (Z.ltb_spec (m_len tmp1) max_u64); [by exists t|]. unfold max_u64 in *. lia.
    + apply IH; try done. destruct Hbest as [?|[? _]]; [by left|right]. split; [done|]. intros Hs.
      apply Hnz. apply Z.bits_inj'. intros n Hn. rewrite Z.bits_0. destruct (decide (n = 0)) as [->|]; [done|].
      replace n with ((n - 1) + 1) by lia. rewrite <- Z.shiftr_spec, Hs by lia. apply Z.bits_0.
Qed.

Lemma best_type_ok mt : mt ∈ mtypes -> is_multiple mt = true -> exists t, type_in mt t /\ best_type idx mt = Ok (type_code t).
Proof using Hidx.
  intros Hmt Hm. assert (0 <= Z.ldiff mt T_MULTIPLE < 2 ^ 6 /\ Z.ldiff mt T_MULTIPLE <> 0 /\
    forall k, 0 <= k < 6 -> Z.testbit (Z.ldiff mt T_MULTIPLE) k = true -> exists t, type_in mt t /\ type_code t = 1 <<< k) as (Hr & Hn & Hb).
  { apply list_elem_of_In in Hmt. repeat (destruct Hmt as [<-|Hmt]; [try done|]); [..|done].
    all: split; [vm_compute; split; discriminate + done|]; split; [done|]; intros k Hk Hbit.
    all: assert (k = 0 \/ k = 1 \/ k = 2 \/ k = 3 \/ k = 4 \/ k = 5) as [->|[->|[->|[->|[->| ->]]]]] by lia; try discriminate Hbit.
    all: (first [exists T_DE; split; [|reflexivity]|exists T_RLE_DE; split; [|reflexivity]|exists T_NATIVE; split; [|reflexivity]]); split; [unfold on_disk; auto|discriminate]. }
  unfold best_type. change 32%nat with (Datatypes.S 31). apply best_loop_ok; [exact empty_vec|done|done|change (Z.of_nat 31) with 31; lia| |by right].
  intros k Hk Hbit. apply Hb; [|done]. split; [done|]. destruct (Z_lt_ge_dec k 6) as [|Hge]; [done|]. exfalso.
  destruct (decide (Z.ldiff mt T_MULTIPLE = 0)) as [|Hnz]; [done|].
  rewrite Z.bits_above_log2 in Hbit; [done|lia|]. assert (Z.log2 (Z.ldiff mt T_MULTIPLE) < 6) by (apply Z.log2_lt_pow2; lia). lia.
Qed.

Lemma chosen_type mt : mt ∈ mtypes ->
  exists t, type_in mt t /\ (if is_multiple mt then best_type idx mt else Ok mt) = Ok (type_code t).
Proof using Hidx.
  intros Hmt. destruct (is_multiple mt) eqn:Em; [by apply best_type_ok|].
  apply list_elem_of_In in Hmt. repeat (destruct Hmt as [<-|Hmt]; [try discriminate Em|]); [exists T_DE|exists T_RLE_DE|exists T_NATIVE|done].
  all: split; [split; [unfold on_disk; auto|discriminate]|reflexivity].
Qed.

Lemma build_ok cf : cf_type cf ∈ mtypes -> exists j t, build cf idx = Ok j /\ job_ok (cf_type cf) idx j t.
Proof using Hidx.
  intros Hmt. pose proof Hidx as (_ & _ & Hn).
  destruct (chosen_type (cf_type cf) Hmt) as (t & Ht & Hty).
  unfold build, create_any. rewrite Hty, bind_ok_l.
  destruct (create_fresh (Vec.mk []) (uba_new 0 0) t (proj1 Ht) empty_vec eq_refl eq_refl) as (v & ds & img & -> & Hb & Ho & Hp & _ & Him).
  rewrite bind_ok_l. assert (type_code t =? T_NULL = false) as E by (by destruct t). unfold mret at 1, result_ret at 1. rewrite bind_ok_l, E.
  assert ((if cf_checkIndex cf then check_index v ds idx (type_code t) else Ok ()) = Ok ()) as ->.
  { destruct (cf_checkIndex cf); [|done]. unfold check_index. rewrite type_of_type_code.
    destruct (Him _ _ Vec_ok v ds []) as (i & -> & Hi); [by rewrite app_nil_r|]. rewrite bind_ok_l, (ii_toVector_ok i idx Hi), bind_ok_l.
    rewrite (ii_size_ok i idx Hi), Z.eqb_refl. cbn [andb]. rewrite (bool_decide_eq_true_2 _ eq_refl). done. }
  rewrite bind_ok_l. unfold narrow_check. cbn [ity_max ity_cast]. rewrite (proj2 (Z.ltb_ge _ _)) by lia. rewrite bind_ok_l, wrap_small by (unfold fits; lia).
  exists (mkJob (Vec.data v) (zlen idx) (type_code t)), t. split; [done|]. split; try done.
  - cbn [jb_data]. destruct Hb as [Hwf Hv]. rewrite <- (take_drop (Z.to_nat (m_len ds)) (Vec.data v)). apply image_app.
    unfold view in Hv. rewrite Ho in Hv. cbn [Z.to_nat] in Hv. rewrite drop_0 in Hv. change (bk_data v) with (Vec.data v) in Hv. by rewrite Hv.
  - cbn [jb_data]. apply Hb.
Qed.
End encoding.

(** * What many threads do to the factory *)

(** The ids given out so far: type, ids and data of each. *)
Record ledger := mkLedger { lg_types : list index_type; lg_lists : list (list Z); lg_imgs : list (list Z) }.

(** Where the data of an id starts. *)
Definition start (imgs : list (list Z)) (i : nat) : Z := zlen (concat (take i imgs)).
Definition lies_at (l : list Z) (off : Z) (img : list Z) : Prop :=
  forall k x, img !! k = Some x -> l !! (Z.to_nat off + k)%nat = Some x.

(** A thread that has an id and did not yet finish. *)
Definition owns (p : pc) : option (job * Z * Z) :=
  match p with
  | PCheck j id off | PGrow j id off | PPut j id off | PAux j id off => Some (j, id, off)
  | PMeta _ | PDone _ => None
  end.
Definition unwritten (p : pc) : bool := match p with PCheck _ _ _ | PGrow _ _ _ | PPut _ _ _ => true | _ => false end.
Definition is_done (p : pc) : bool := match p with PDone _ => true | _ => false end.

(** What a thread that has no id will still take. *)
Definition need (p : pc) : Z := match p with PMeta j => zlen (jb_data j) | _ => 0 end.
Definition wants (p : pc) : Z := match p with PMeta j => 1 | _ => 0 end.
(** The sections a thread has in front of it. *)
Definition left_over (p : pc) : Z :=
  match p with PMeta _ => 5 | PCheck _ _ _ => 4 | PGrow _ _ _ => 3 | PPut _ _ _ => 2 | PAux _ _ _ => 1 | PDone _ => 0 end.
Definition total (w : pc -> Z) (ps : list pc) : Z := foldr Z.add 0 (map w ps).

Lemma total_insert w ps k p p' : ps !! k = Some p -> total w (<[k := p']> ps) = total w ps - w p + w p'.
Proof.
  unfold total. revert k. induction ps as [|q ps IH]; intros k Hk; [done|].
  destruct k as [|k]; [injection Hk as ->; cbn [insert list_insert map foldr]; lia|].
  change (<[S k := p']> (q :: ps)) with (q :: <[k := p']> ps). cbn [map foldr]. rewrite (IH k Hk). lia.
Qed.

Lemma total_nonneg w ps : (forall q, 0 <= w q) -> 0 <= total w ps.
Proof. intros Hw. unfold total. induction ps as [|q ps IH]; cbn [map foldr]; [lia|]. specialize (Hw q). lia. Qed.

Lemma total_le w ps k p : (forall q, 0 <= w q) -> ps !! k = Some p -> w p <= total w ps.
Proof.
  intros Hw. revert k. induction ps as [|q ps IH]; intros k Hk; [done|]. pose proof (total_nonneg w ps Hw).
  change (total w (q :: ps)) with (w q + total w ps).
  cbn [map foldr]. destruct k as [|k]; [injection Hk as ->; lia|]. specialize (IH k Hk). specialize (Hw q). lia.
Qed.

Lemma need_nonneg q : 0 <= need q.
Proof. destruct q; cbn; lia. Qed.
Lemma wants_nonneg q : 0 <= wants q.
Proof. destruct q; cbn; lia. Qed.

(** ** Blocks *)

Lemma start_app imgs more (i : nat) : (i <= length imgs)%nat -> start (imgs ++ more) i = start imgs i.
Proof. intros Hi. unfold start. rewrite take_app_le by lia. done. Qed.

Lemma start_end imgs : start imgs (length imgs) = zlen (concat imgs).
Proof. unfold start. by rewrite take_ge. Qed.

Lemma start_next imgs (i : nat) img : imgs !! i = Some img -> start imgs (S i) = start imgs i + zlen img.
Proof. intros Hi. unfold start. rewrite (take_S_r _ _ _ Hi), concat_app, length_app. cbn [concat]. rewrite app_nil_r. lia. Qed.

Lemma start_mono imgs (i k : nat) : (i <= k)%nat -> start imgs i <= start imgs k.
Proof.
  intros Hik. unfold start. replace k with (i + (k - i))%nat by lia.
  assert (take i imgs `prefix_of` take (i + (k - i)) imgs) as [m ->] by (exists (take (k - i) (drop i imgs)); by rewrite take_take_drop).
  rewrite concat_app, length_app. lia.
Qed.

Lemma start_in imgs (i : nat) img : imgs !! i = Some img -> 0 <= start imgs i /\ start imgs i + zlen img <= zlen (concat imgs).
Proof.
  intros Hi. pose proof (lookup_lt_Some _ _ _ Hi). rewrite <- (start_next imgs i img Hi), <- start_end.
  split; [unfold start; lia|]. apply start_mono. lia.
Qed.

(** Data written to one block leaves the others alone. *)
Lemma lies_at_splice l imgs (i k : nat) a b : imgs !! i = Some a -> imgs !! k = Some b -> i <> k ->
  start imgs k + zlen b <= zlen l -> lies_at l (start imgs i) a -> lies_at (splice l (start imgs k) b) (start imgs i) a.
Proof.
  intros Ha Hb Hik Hl Hat n x Hx. pose proof (lookup_lt_Some _ _ _ Hx) as Hn. pose proof (start_in _ _ _ Ha). pose proof (start_in _ _ _ Hb).
  rewrite lookup_splice by lia. destruct (decide (i < k)%nat).
  - pose proof (start_mono imgs (S i) k ltac:(lia)). rewrite (start_next _ _ _ Ha) in *.
    rewrite (proj2 (Z.ltb_lt _ _)) by lia. cbn [orb]. by apply Hat.
  - pose proof (start_mono imgs (S k) i ltac:(lia)). rewrite (start_next _ _ _ Hb) in *.
    rewrite (proj2 (Z.leb_le _ _)), orb_true_r by lia. by apply Hat.
Qed.

Lemma lies_at_self l off b : 0 <= off -> off + zlen b <= zlen l -> lies_at (splice l off b) off b.
Proof.
  intros Ho Hl n x Hx. pose proof (lookup_lt_Some _ _ _ Hx) as Hn. rewrite lookup_splice by lia.
  rewrite (proj2 (Z.ltb_ge _ _)), (proj2 (Z.leb_gt _ _)) by lia. cbn [orb]. rewrite <- Hx. f_equal. lia.
Qed.

Lemma lies_at_app l ext off a : lies_at l off a -> lies_at (l ++ ext) off a.
Proof. intros H k x Hx. apply lookup_app_l_Some. by apply H. Qed.

(** When every block is there, the data is. *)
Lemma lies_all l imgs : (forall (i : nat) img, imgs !! i = Some img -> lies_at l (start imgs i) img) -> take (length (concat imgs)) l = concat imgs.
Proof.
  revert l. induction imgs as [|a imgs IH]; intros l Hat; [done|]. cbn [concat]. rewrite length_app.
  assert (take (length a) l = a) as Ha.
  { apply list_eq. intros k. pose proof (Hat 0%nat a eq_refl k) as Hk. destruct (decide (k < length a)%nat) as [Hlt|Hge].
    - rewrite lookup_take_lt by done. destruct (lookup_lt_is_Some_2 a k Hlt) as [x Hx]. rewrite Hx. apply (Hk x Hx).
    - rewrite lookup_take_ge, (proj2 (lookup_ge_None _ _)) by lia. done. }
  rewrite <- take_take_drop, Ha. f_equal. apply IH. intros i img Hi k x Hx.
  pose proof (Hat (S i) img Hi k x Hx) as Hk. rewrite lookup_drop, <- Hk. f_equal. unfold start. cbn [take concat]. rewrite length_app. lia.
Qed.

(** ** The window of header and data *)

Lemma splice_app_r (h l bs : list Z) p : 0 <= p -> splice (h ++ l) (zlen h + p) bs = h ++ splice l p bs.
Proof.
  intros Hp. unfold splice. replace (Z.to_nat (zlen h + p)) with (length h + Z.to_nat p)%nat by lia.
  rewrite take_app_add, <- Nat.add_assoc, drop_app_add. by rewrite <- app_assoc.
Qed.

Section windows.
Context {S : Type} {B : Backend S} {BO : BackendOk S}.

(** A window that ends where another one ends grows with it. *)
Lemma growStorage_same (s s' : S) a b n a' : growStorage s a n = (s', a', true) -> m_offSet a + m_len a = m_offSet b + m_len b ->
  growStorage s b n = (s', mkUba (m_offSet b) (u64 (m_len b + n)) (m_getPtr b) (m_putPtr b), true).
Proof using.
  unfold growStorage. intros Hg Heq. rewrite <- Heq. destruct (_ <? _); [done|].
  destruct (bk_growStorage s _) as [s1 []]; [|done]. by injection Hg as -> _.
Qed.

(** Data is put at the same place through a window that starts earlier. *)
Lemma putData_same (s : S) a b p q bs : m_offSet a + p = m_offSet b + q -> 0 <= p -> 0 <= q -> p + zlen bs <= m_len a -> q + zlen bs <= m_len b ->
  m_len a < 2 ^ 64 -> m_len b < 2 ^ 64 -> uba_putData s a p bs = uba_putData s b q bs.
Proof using.
  intros Heq Hp Hq Ha Hb Hal Hbl. unfold uba_putData. destruct (zlen bs =? 0); [done|].
  rewrite !range_check_eq by (unfold fits; lia). rewrite !(proj2 (Z.ltb_ge _ _)) by lia. by rewrite !bind_ok_l, Heq.
Qed.
End windows.

(** * The invariant *)

(** A digest that separates the data that occurs. *)
Definition separates {K : Type} (hashFunc : list Z -> K) (known : list Z -> Prop) : Prop :=
  forall x y, known x -> known y -> hashFunc x = hashFunc y -> x = y.

Section invariant.
Context {S : Type} {B : Backend S} {BO : BackendOk S} {K : Type} `{Countable K} (hashFunc : list Z -> K) (cf : config).
(** the data that the digest separates; where the header is; how many bytes and ids there will be; how large the storage gets *)
Context (known : list Z -> Prop) (o budget ids room : Z) (works : list (list Z * job)).
Context (Hmt : cf_type cf ∈ mtypes).
Context (Hhash : cf_useDeduplication cf = true -> is_multiple (cf_type cf) = false /\ separates hashFunc known).
Context (Hgrow : 0 <= cf_growSize cf) (Haux : 1 <= cf_auxDataGrow cf).
Context (Hbudget : budget < 2 ^ 40) (Hids : ids + cf_auxDataGrow cf < 2 ^ 32 - 1).
Context (Ho : 0 <= o) (Hroom : o + 9 + room < 2 ^ 58) (Hfree : budget + cf_growSize cf <= room).
Abbreviation F := (factory K).
Abbreviation mult := (is_multiple (cf_type cf)).

Definition works_ok : Prop := Forall (fun w => known (jb_data (snd w)) /\ exists t, job_ok (cf_type cf) (fst w) (snd w) t) works.

(** What is booked under an id. *)
Record entry (g : ledger) (i : nat) (w : list Z * job) : Prop := {
  en_list : lg_lists g !! i = Some (fst w);
  en_img : lg_imgs g !! i = Some (jb_data (snd w));
  en_type : exists t, lg_types g !! i = Some t /\ jb_type (snd w) = type_code t;
}.

Definition pc_ok (g : ledger) (n : Z) (w : list Z * job) (p : pc) : Prop :=
  match p with
  | PMeta j => j = snd w
  | PDone id => exists i : nat, id = Z.of_nat i /\ lg_lists g !! i = Some (fst w) /\ lg_imgs g !! i = Some (jb_data (snd w))
  | PCheck j id off | PGrow j id off | PAux j id off =>
      j = snd w /\ exists i : nat, id = Z.of_nat i /\ entry g i w /\ off = start (lg_imgs g) i
  | PPut j id off =>
      j = snd w /\ exists i : nat, id = Z.of_nat i /\ entry g i w /\ off = start (lg_imgs g) i /\ off + zlen (jb_data j) <= n
  end.

(** Some thread holds the id; some thread has not yet copied its data. *)
Definition pending (ps : list pc) (i : nat) : Prop := exists k p j off, ps !! k = Some p /\ owns p = Some (j, Z.of_nat i, off).
Definition missing (ps : list pc) (i : nat) : Prop :=
  exists k p j off, ps !! k = Some p /\ owns p = Some (j, Z.of_nat i, off) /\ unwritten p = true.

Record ledger_ok (g : ledger) : Prop := {
  lo_images : Forall3 image (lg_types g) (lg_lists g) (lg_imgs g);
  lo_types : Forall (type_in (cf_type cf)) (lg_types g);
  lo_storable : Forall storable (lg_lists g);
  lo_bytes : Forall bytes_ok (lg_imgs g);
  lo_known : Forall known (lg_imgs g);
}.

Record tables_ok (f : F) (ps : list pc) (g : ledger) : Prop := {
  to_sizes : length (f_sizes f) = length (f_offsets f);
  to_types : mult = true -> length (f_types f) = length (f_offsets f);
  to_entry (i : nat) src : ~ pending ps i -> lg_lists g !! i = Some src ->
    f_offsets f !! i = Some (start (lg_imgs g) i) /\ f_sizes f !! i = Some (zlen src) /\
    (mult = true -> exists t, lg_types g !! i = Some t /\ f_types f !! i = Some (type_code t));
}.

Definition hash_ok (f : F) (g : ledger) : Prop :=
  cf_useDeduplication cf = true -> forall hv id, f_hash f !! hv = Some id <->
    exists (i : nat) img, id = Z.of_nat i /\ lg_imgs g !! i = Some img /\ hashFunc img = hv.

Record inv (s : S) (f : F) (ps : list pc) (g : ledger) (h l : list Z) : Prop := {
  iv_window : buf s (mkUba o (9 + zlen l) 0 0) (h ++ l);
  iv_head : zlen h = 9;
  iv_header : f_header f = mkUba o 9 0 0;
  iv_store : exists gp, f_store f = mkUba (o + 9) (zlen l) gp 0 /\ fits 64 gp;
  iv_offset : f_dataOffset f = zlen (concat (lg_imgs g));
  iv_count : f_idCounter f = zlen (lg_imgs g);
  iv_ledger : ledger_ok g;
  iv_hash : hash_ok f g;
  iv_threads : Forall2 (pc_ok g (zlen l)) works ps;
  iv_owner k k' p p' j j' id off off' : ps !! k = Some p -> ps !! k' = Some p' ->
    owns p = Some (j, id, off) -> owns p' = Some (j', id, off') -> k = k';
  iv_written (i : nat) img : ~ missing ps i -> lg_imgs g !! i = Some img -> lies_at l (start (lg_imgs g) i) img;
  iv_tables : tables_ok f ps g;
  iv_budget : zlen (concat (lg_imgs g)) + total need ps <= budget;
  iv_ids : zlen (lg_imgs g) + total wants ps <= ids;
  iv_room : zlen l <= room;
}.

(** ** Frame facts *)

Definition extend (g : ledger) (t : index_type) (w : list Z * job) : ledger :=
  mkLedger (lg_types g ++ [t]) (lg_lists g ++ [fst w]) (lg_imgs g ++ [jb_data (snd w)]).

Lemma entry_extend g t w i w' : entry g i w' -> entry (extend g t w) i w'.
Proof using. intros [Hl Hi (u & Hu & E)]. split; cbn; [by apply lookup_app_l_Some..|]. exists u. by split; [apply lookup_app_l_Some|]. Qed.

Lemma pc_ok_extend g t w n w' p : pc_ok g n w' p -> pc_ok (extend g t w) n w' p.
Proof using.
  assert (forall i img, lg_imgs g !! i = Some img -> start (lg_imgs (extend g t w)) i = start (lg_imgs g) i) as Hst.
  { intros i img Hi. apply start_app. apply lookup_lt_Some in Hi. lia. }
  destruct p as [j|j id off|j id off|j id off|j id off|id]; cbn [pc_ok]; [done| | | | |].
  5: { intros (i & -> & Hl & Hi). exists i. split; [done|]. split; by apply lookup_app_l_Some. }
  all: intros (-> & i & -> & He & ?); split; [done|]; exists i; split; [done|]; split; [by apply entry_extend|].
  all: rewrite (Hst i _ (en_img _ _ _ He)); done.
Qed.

Lemma pc_ok_grow g n n' w p : n <= n' -> pc_ok g n w p -> pc_ok g n' w p.
Proof using. destruct p; cbn [pc_ok]; try done. intros Hn (-> & i & -> & He & -> & Hi). split; [done|]. exists i. repeat split; try done; [apply He..|lia]. Qed.

(** Replacing one thread by its successor. *)
Lemma threads_step g g' n n' ps k p p' w :
  (forall w q, pc_ok g n w q -> pc_ok g' n' w q) -> Forall2 (pc_ok g n) works ps -> ps !! k = Some p ->
  works !! k = Some w -> pc_ok g' n' w p' -> Forall2 (pc_ok g' n') works (<[k := p']> ps).
Proof using.
  intros Hmono Hps Hk Hw Hp'. rewrite <- (list_insert_id works k w Hw). apply Forall2_insert; [|done].
  eapply Forall2_impl; [exact Hps|done].
Qed.

Lemma lookup_step (ps : list pc) k p p' k' q : ps !! k = Some p -> <[k := p']> ps !! k' = Some q ->
  (k' = k /\ q = p') \/ (k' <> k /\ ps !! k' = Some q).
Proof using.
  intros Hk Hq. destruct (decide (k' = k)) as [->|Hne].
  - rewrite list_lookup_insert_eq in Hq by (by eapply lookup_lt_Some). left. split; [done|congruence].
  - rewrite list_lookup_insert_ne in Hq by done. by right.
Qed.

Lemma insert_keep (ps : list pc) k p p' k' q : ps !! k = Some p -> ps !! k' = Some q ->
  (k' = k /\ q = p /\ <[k := p']> ps !! k = Some p') \/ <[k := p']> ps !! k' = Some q.
Proof using.
  intros Hk Hq. destruct (decide (k' = k)) as [->|Hne]; [left|right].
  - split; [done|]. split; [congruence|]. apply list_lookup_insert_eq. by eapply lookup_lt_Some.
  - by rewrite list_lookup_insert_ne.
Qed.

Lemma missing_step ps k p p' i : ps !! k = Some p ->
  (forall j off, owns p = Some (j, Z.of_nat i, off) -> unwritten p = true ->
    exists j' off', owns p' = Some (j', Z.of_nat i, off') /\ unwritten p' = true) ->
  missing ps i -> missing (<[k := p']> ps) i.
Proof using.
  intros Hk Hst (k' & q & j & off & Hq & How & Hun). destruct (insert_keep ps k p p' k' q Hk Hq) as [(-> & -> & Hi)|Hi].
  - destruct (Hst j off How Hun) as (j' & off' & ? & ?). by exists k, p', j', off'.
  - by exists k', q, j, off.
Qed.

Lemma pending_step ps k p p' i : ps !! k = Some p ->
  (forall j off, owns p = Some (j, Z.of_nat i, off) -> exists j' off', owns p' = Some (j', Z.of_nat i, off')) ->
  pending ps i -> pending (<[k := p']> ps) i.
Proof using.
  intros Hk Hst (k' & q & j & off & Hq & How). destruct (insert_keep ps k p p' k' q Hk Hq) as [(-> & -> & Hi)|Hi].
  - destruct (Hst j off How) as (j' & off' & ?). by exists k, p', j', off'.
  - by exists k', q, j, off.
Qed.

Lemma tables_step f ps g k p p' : ps !! k = Some p -> owns p' = owns p -> tables_ok f ps g -> tables_ok f (<[k := p']> ps) g.
Proof using.
  intros Hk How [H1 H2 H3]. split; try done. intros i src Hp. apply H3. intros Hq. apply Hp.
  eapply pending_step; [exact Hk| |exact Hq]. intros j off E. exists j, off. congruence.
Qed.

(** A step that gives out no id. *)
Lemma inv_move s f ps g h l k p w s' f' p' l' : inv s f ps g h l -> ps !! k = Some p -> works !! k = Some w ->
  buf s' (mkUba o (9 + zlen l') 0 0) (h ++ l') -> f_header f' = f_header f ->
  (exists gp, f_store f' = mkUba (o + 9) (zlen l') gp 0 /\ fits 64 gp) ->
  f_dataOffset f' = f_dataOffset f /\ f_idCounter f' = f_idCounter f /\ f_hash f' = f_hash f ->
  zlen l <= zlen l' <= room -> owns p' = owns p \/ owns p' = None -> need p' <= need p /\ wants p' <= wants p ->
  pc_ok g (zlen l') w p' ->
  (forall (i : nat) img, ~ missing (<[k := p']> ps) i -> lg_imgs g !! i = Some img -> lies_at l' (start (lg_imgs g) i) img) ->
  tables_ok f' (<[k := p']> ps) g -> inv s' f' (<[k := p']> ps) g h l'.
Proof using.
  intros [] Hk Hw Hb Hh Hs (E1 & E2 & E3) Hl How [Hn Hwn] Hp Hwr Htab. split; try done; try congruence.
  - unfold hash_ok in *. by rewrite E3.
  - apply (threads_step g g (zlen l) (zlen l') ps k p p' w); try done. intros w' q. apply pc_ok_grow. lia.
  - assert (forall q q' : pc, owns q' = owns q \/ owns q' = None -> forall x, owns q' = Some x -> owns q = Some x) as Hown.
    { intros q q' [E|E] x Hx; congruence. }
    intros k1 k2 p1 p2 j1 j2 id off1 off2 H1 H2 O1 O2.
    destruct (lookup_step ps k p p' _ _ Hk H1) as [[-> ->]|[N1 H1']], (lookup_step ps k p p' _ _ Hk H2) as [[-> ->]|[N2 H2']].
    + done.
    + apply (Hown p) in O1; [|done]. by eapply iv_owner0.
    + apply (Hown p) in O2; [|done]. by eapply iv_owner0.
    + by eapply iv_owner0.
  - rewrite (total_insert need ps k p p' Hk). lia.
  - rewrite (total_insert wants ps k p p' Hk). lia.
  - lia.
Qed.

Lemma move_facts s f ps g h l k p : inv s f ps g h l -> ps !! k = Some p ->
  exists w, works !! k = Some w /\ pc_ok g (zlen l) w p.
Proof using.
  intros Hi Hk. destruct (Forall2_lookup_r _ _ _ _ _ (iv_threads _ _ _ _ _ _ Hi) Hk) as (w & Hw & Hp). by exists w.
Qed.

Lemma same_missing ps k p p' i : ps !! k = Some p -> owns p' = owns p -> unwritten p' = unwritten p ->
  ~ missing (<[k := p']> ps) i -> ~ missing ps i.
Proof using.
  intros Hk How Hun Hn Hm. apply Hn. eapply missing_step; [exact Hk| |exact Hm]. intros j off E1 E2. exists j, off. split; congruence.
Qed.

Lemma store_len s f ps g h l : inv s f ps g h l -> m_len (f_store f) = zlen l.
Proof using. intros Hi. by destruct (iv_store _ _ _ _ _ _ Hi) as (gp & -> & _). Qed.

Lemma entry_end s f ps g h l i w : inv s f ps g h l -> entry g i w ->
  0 <= start (lg_imgs g) i /\ start (lg_imgs g) i + zlen (jb_data (snd w)) <= zlen (concat (lg_imgs g)) /\
  zlen (concat (lg_imgs g)) <= budget.
Proof using.
  intros Hi He. pose proof (start_in _ _ _ (en_img _ _ _ He)). split; [lia|]. split; [lia|].
  pose proof (iv_budget _ _ _ _ _ _ Hi). pose proof (total_nonneg need ps need_nonneg). lia.
Qed.

Lemma step_check s f ps g h l k j id off : inv s f ps g h l -> ps !! k = Some (PCheck j id off) ->
  inv s f (<[k := if must_grow f j off then PGrow j id off else PPut j id off]> ps) g h l.
Proof using Hbudget.
  intros Hi Hk. destruct (move_facts _ _ _ _ _ _ _ _ Hi Hk) as (w & Hw & Hp).
  destruct Hp as (-> & i & -> & He & ->). pose proof (entry_end _ _ _ _ _ _ _ _ Hi He) as Hend.
  set (p' := if must_grow _ _ _ then _ else _).
  assert (owns p' = owns (PCheck (snd w) (Z.of_nat i) (start (lg_imgs g) i)) /\ unwritten p' = true /\ need p' = 0 /\ wants p' = 0) as (Eo & Eu & En & Ew)
    by (unfold p'; by destruct (must_grow f (snd w) _)).
  pose proof Hi as []. apply (inv_move s f ps g h l k _ w s f p' l Hi Hk Hw); try done; [by left|rewrite En, Ew; done| | |by eapply tables_step].
  - unfold p', must_grow. rewrite (store_len _ _ _ _ _ _ Hi), wrap_small by (unfold fits; lia).
    destruct (Z.leb_spec (zlen l) (start (lg_imgs g) i + zlen (jb_data (snd w)))); cbn [pc_ok]; split; try done; exists i; repeat split; try apply He; lia.
  - intros i' img Hm. apply iv_written0. by eapply same_missing.
Qed.

Lemma step_hit s f ps g h l k j id : inv s f ps g h l -> ps !! k = Some (PMeta j) ->
  (exists w, works !! k = Some w /\ pc_ok g (zlen l) w (PDone id)) -> inv s (add_hit f) (<[k := PDone id]> ps) g h l.
Proof using.
  intros Hi Hk (w & Hw & Hp). pose proof Hi as [].
  apply (inv_move s f ps g h l k _ w s (add_hit f) (PDone id) l Hi Hk Hw); try done; [by left|cbn; lia| |].
  - intros i' img Hm. apply iv_written0. exact (same_missing ps k _ (PDone id) i' Hk eq_refl eq_refl Hm).
  - destruct iv_tables0 as [H1 H2 H3]. split; try done. intros i src Hn. apply H3. intros Hq. apply Hn. eapply pending_step; [exact Hk| |exact Hq]. done.
Qed.

Lemma step_grow s f ps g h l k j id off : inv s f ps g h l -> ps !! k = Some (PGrow j id off) ->
  exists s' f' l', add_grow cf s f j off = (s', f') /\ inv s' f' (<[k := PPut j id off]> ps) g h l'.
Proof using BO Hbudget Hgrow Ho Hroom Hfree.
  intros Hi Hk. destruct (move_facts _ _ _ _ _ _ _ _ Hi Hk) as (w & Hw & Hp).
  destruct Hp as (-> & i & -> & He & ->). pose proof (entry_end _ _ _ _ _ _ _ _ Hi He) as Hend.
  unfold add_grow, must_grow. rewrite (store_len _ _ _ _ _ _ Hi), wrap_small by (unfold fits; lia).
  set (e := start (lg_imgs g) i + zlen (jb_data (snd w))) in *. pose proof Hi as []. destruct iv_store0 as (gp & Est & Hgp).
  destruct (Z.leb_spec (zlen l) e).
  - rewrite wrap_small by (unfold fits; lia). set (n := Z.max (e - zlen l) (cf_growSize cf)).
    destruct (growStorage_ok s _ _ n iv_window0) as (s' & ext & Hg & Hb' & He'); [lia|rewrite length_app; cbn [m_offSet]; lia|].
    rewrite length_app in Hg, Hb'. cbn [m_offSet m_getPtr m_putPtr] in Hg, Hb'.
    apply (growStorage_same s s' _ (f_store f)) in Hg; [|rewrite Est; cbn; lia]. rewrite Hg, Est. cbn [m_offSet m_len m_getPtr m_putPtr].
    rewrite wrap_small by (unfold fits; lia). exists s', (set_uba f (f_header f) (mkUba (o + 9) (zlen l + n) gp 0)), (l ++ ext).
    split; [done|]. assert (zlen (l ++ ext) = zlen l + n) as Hle by (rewrite length_app; lia).
    apply (inv_move s f ps g h l k _ w s' (set_uba f (f_header f) (mkUba (o + 9) (zlen l + n) gp 0))
      (PPut (snd w) (Z.of_nat i) (start (lg_imgs g) i)) (l ++ ext) Hi Hk Hw); rewrite ?Hle.
    + rewrite <- app_assoc in Hb'. by replace (9 + (zlen l + n)) with (Z.of_nat (length h + length l) + n) by lia.
    + done.
    + by exists gp.
    + done.
    + lia.
    + by left.
    + cbn; lia.
    + split; [done|]. exists i. split; [done|]. split; [done|]. split; [done|]. lia.
    + intros i' img Hm Himg. apply lies_at_app, iv_written0; [|done]. by refine (same_missing _ _ _ _ _ Hk _ _ Hm).
    + destruct iv_tables0 as [H1 H2 H3]. by eapply tables_step.
  - exists s, f, l. split; [done|].
    apply (inv_move s f ps g h l k _ w s f (PPut (snd w) (Z.of_nat i) (start (lg_imgs g) i)) l Hi Hk Hw); try done; [by exists gp|by left| | |by eapply tables_step].
    + split; [done|]. exists i. split; [done|]. split; [done|]. split; [done|]. lia.
    + intros i' img Hm. apply iv_written0. by refine (same_missing _ _ _ _ _ Hk _ _ Hm).
Qed.

Lemma step_put s f ps g h l k j id off : inv s f ps g h l -> ps !! k = Some (PPut j id off) -> bytes_ok (jb_data j) ->
  exists s', uba_putData s (f_store f) off (jb_data j) = Ok s' /\ inv s' f (<[k := PAux j id off]> ps) g h (splice l off (jb_data j)).
Proof using BO Hbudget Hroom Ho.
  intros Hi Hk Hbd. destruct (move_facts _ _ _ _ _ _ _ _ Hi Hk) as (w & Hw & Hp).
  destruct Hp as (-> & i & -> & He & -> & Hin). pose proof (entry_end _ _ _ _ _ _ _ _ Hi He) as (H0 & Hend & _).
  pose proof Hi as []. destruct iv_store0 as (gp & Est & Hgp). set (d := jb_data (snd w)) in *. set (off := start (lg_imgs g) i) in *.
  destruct (buf_putData s _ _ (9 + off) d iv_window0 Hbd) as (s' & Hput & Hb'); [lia|rewrite length_app; lia|].
  rewrite (putData_same s (f_store f) (mkUba o (9 + zlen l) 0 0) off (9 + off) d) by (rewrite ?Est; cbn [m_offSet m_len]; lia).
  exists s'. split; [done|]. assert (zlen (splice l off d) = zlen l) as Hl by (rewrite length_splice by lia; done).
  rewrite <- iv_head0, splice_app_r in Hb' by lia.
  apply (inv_move s f ps g h l k _ w s' f (PAux (snd w) (Z.of_nat i) off) (splice l off d) Hi Hk Hw); rewrite ?Hl; try done.
  - by rewrite iv_head0 in Hb'.
  - by exists gp.
  - by left.
  - split; [done|]. by exists i.
  - intros i' img Hm Himg. destruct (decide (i' = i)) as [->|Hne].
    + rewrite (en_img _ _ _ He) in Himg. injection Himg as <-. by apply lies_at_self.
    + apply (lies_at_splice l (lg_imgs g) i' i img d); try done; [apply He|]. apply iv_written0; [|done].
      intros Hq. apply Hm. eapply missing_step; [exact Hk| |exact Hq]. intros j' off' E _. cbn [owns] in E. injection E as _ E _. lia.
  - by eapply tables_step.
Qed.

(** The tables reach the id. *)
Lemma grown_table (tab : list Z) (id n : Z) : 0 <= id < n ->
  let tab' := if zlen tab <=? id then vresize tab n 0 else tab in
  id < zlen tab' /\ (forall (i : nat) x, tab !! i = Some x -> tab' !! i = Some x).
Proof using.
  clear. intros Hn. cbn zeta. destruct (Z.leb_spec (zlen tab) id); [|done]. rewrite length_vresize by lia. split; [lia|].
  intros i x Hx. pose proof (lookup_lt_Some _ _ _ Hx). rewrite lookup_vresize by lia. by rewrite (proj2 (Z.ltb_lt _ _)), Hx by lia.
Qed.

Lemma mm_set_ok (tab : list Z) (i : nat) x : Z.of_nat i < zlen tab -> mm_set tab (Z.of_nat i) x = Ok (<[i := x]> tab).
Proof using. clear. intros Hi. unfold mm_set. by rewrite (proj2 (Z.ltb_lt _ _)), Nat2Z.id. Qed.

Lemma step_aux s f ps g h l k j id off : works_ok -> inv s f ps g h l -> ps !! k = Some (PAux j id off) ->
  exists f', add_aux cf f j id off = Ok f' /\ inv s f' (<[k := PDone id]> ps) g h l.
Proof using Hhash Hids Haux.
  intros Hwk Hi Hk. destruct (move_facts _ _ _ _ _ _ _ _ Hi Hk) as (w & Hw & Hp).
  destruct Hp as (-> & i & -> & He & ->). pose proof Hi as []. destruct iv_tables0 as [T1 T2 T3].
  destruct (Forall_lookup_1 _ _ _ _ Hwk Hw) as (Hkn & t & Hj). destruct (en_type _ _ _ He) as (t' & Ht' & Etype).
  rewrite (jo_type _ _ _ _ Hj) in Etype. assert (t' = t) as -> by (by destruct t, t').
  assert (Z.of_nat i < ids) as Hlt.
  { pose proof (lookup_lt_Some _ _ _ (en_img _ _ _ He)). pose proof (total_nonneg wants ps wants_nonneg). lia. }
  unfold add_aux. rewrite wrap_small by (unfold fits; lia). set (n := Z.of_nat i + cf_auxDataGrow cf).
  destruct (grown_table (f_offsets f) (Z.of_nat i) n) as [L1 K1]; [lia|].
  pose (go := fun tab : list Z => if zlen (f_offsets f) <=? Z.of_nat i then vresize tab n 0 else tab).
  assert (forall tab, length tab = length (f_offsets f) -> length (go tab) = length (go (f_offsets f)) /\
    forall (i : nat) x, tab !! i = Some x -> go tab !! i = Some x) as Hgo.
  { intros tab Htab. destruct (grown_table tab (Z.of_nat i) n) as [_ K2]; [lia|]. rewrite Htab in K2. split; [|exact K2].
    unfold go. destruct (_ <=? _); [|done]. apply Nat2Z.inj. by rewrite !length_vresize by lia. }
  set (f1 := if zlen (f_offsets f) <=? Z.of_nat i then _ else f).
  assert (f_offsets f1 = go (f_offsets f) /\ f_sizes f1 = go (f_sizes f) /\ (mult = true -> f_types f1 = go (f_types f)) /\
    f_header f1 = f_header f /\ f_store f1 = f_store f /\ f_dataOffset f1 = f_dataOffset f /\ f_idCounter f1 = f_idCounter f /\
    f_hash f1 = f_hash f) as (F1 & F2 & F3 & F4 & F5 & F6 & F7 & F8).
  { unfold f1, go, multiple. destruct (_ <=? _); cbn; repeat split; try done. by intros ->. }
  destruct (Hgo (f_offsets f) eq_refl) as [_ G1]. destruct (Hgo (f_sizes f) T1) as [GL2 G2].
  change (Z.of_nat i < zlen (go (f_offsets f))) in L1.
  rewrite F1, F2, (mm_set_ok (go (f_offsets f))), (mm_set_ok (go (f_sizes f))), !bind_ok_l by (rewrite ?GL2; done).
  assert (exists types, (if multiple cf then mm_set (f_types f1) (Z.of_nat i) (u8 (jb_type (snd w))) else Ok (f_types f1)) = Ok types /\
    (mult = true -> length types = length (go (f_offsets f)) /\ types !! i = Some (type_code t) /\
      forall (i' : nat) x, i' <> i -> f_types f !! i' = Some x -> types !! i' = Some x)) as (types & -> & Hty).
  { unfold multiple. destruct mult eqn:Em; [|by exists (f_types f1)]. rewrite (F3 eq_refl). destruct (Hgo (f_types f) (T2 eq_refl)) as [GL3 G3].
    rewrite mm_set_ok by (by rewrite GL3). eexists. split; [done|]. intros _. rewrite length_insert. split; [done|]. split.
    - rewrite list_lookup_insert_eq by (apply Nat2Z.inj_lt; lia). f_equal. rewrite (jo_type _ _ _ _ Hj).
      destruct (proj1 (jo_in _ _ _ _ Hj)) as [->|[->| ->]]; done.
    - intros i' x Hne Hx. rewrite list_lookup_insert_ne by done. by apply G3. }
  rewrite bind_ok_l. eexists. split; [done|].
  apply (inv_move s f ps g h l k _ w s _ (PDone (Z.of_nat i)) l Hi Hk Hw); try done.
  - cbn. destruct iv_store0 as (gp & ? & ?). exists gp. by rewrite F5.
  - by right.
  - exists i. split; [done|]. split; apply He.
  - intros i' img Hm. apply iv_written0. intros Hq. apply Hm. eapply missing_step; [exact Hk| |exact Hq]. done.
  - split; cbn [f_sizes f_offsets f_types set_aux].
    + by rewrite !length_insert.
    + intros Em. rewrite length_insert. by apply Hty.
    + intros i' src Hn Hsrc. destruct (decide (i' = i)) as [->|Hne].
      * rewrite (en_list _ _ _ He) in Hsrc. injection Hsrc as <-. rewrite !list_lookup_insert_eq by (apply Nat2Z.inj_lt; lia).
        rewrite (jo_size _ _ _ _ Hj). split; [done|]. split; [done|]. intros Em. exists t. split; [done|]. exact (proj1 (proj2 (Hty Em))).
      * destruct (T3 i' src) as (E1 & E2 & E3); [|done|].
        { intros Hq. apply Hn. eapply pending_step; [exact Hk| |exact Hq]. intros j' off' E. cbn [owns] in E. injection E as _ E _. lia. }
        rewrite !list_lookup_insert_ne by done. split; [by apply G1|]. split; [by apply G2|]. intros Em.
        destruct (E3 Em) as (t2 & ? & ?). exists t2. split; [done|]. by apply (Hty Em).
Qed.

Lemma owner_below s f ps g h l k p j id off : inv s f ps g h l -> ps !! k = Some p -> owns p = Some (j, id, off) -> id < zlen (lg_imgs g).
Proof using.
  intros Hi Hk How. destruct (move_facts _ _ _ _ _ _ _ _ Hi Hk) as (w & _ & Hp).
  destruct p; try done; cbn [owns] in How; injection How as -> -> ->; destruct Hp as (_ & i & -> & He & _);
    pose proof (lookup_lt_Some _ _ _ (en_img _ _ _ He)); lia.
Qed.

Lemma hash_extend f g t w len : hash_ok f g -> cf_useDeduplication cf = true -> f_hash f !! hashFunc (jb_data (snd w)) = None ->
  hash_ok (take_id f (<[hashFunc (jb_data (snd w)) := zlen (lg_imgs g)]> (f_hash f)) len) (extend g t w).
Proof using.
  intros Hh Hd Hnone _ hv id. cbn [f_hash take_id extend lg_imgs]. specialize (Hh Hd). split.
  - intros Hl. apply lookup_insert_Some in Hl as [[<- <-]|[_ Hl]].
    + exists (length (lg_imgs g)), (jb_data (snd w)). split; [done|]. split; [|done]. by rewrite lookup_app_r, Nat.sub_diag by lia.
    + apply Hh in Hl as (i & img & -> & Hi & <-). exists i, img. split; [done|]. split; [by apply lookup_app_l_Some|done].
  - intros (i & img & -> & Hi & <-). apply lookup_app_Some in Hi as [Hi|[Hle Hi]].
    + rewrite lookup_insert_ne; [apply Hh; by exists i, img|]. intros E.
      assert (is_Some (f_hash f !! hashFunc img)) as [x Hx]; [|by rewrite <- E, Hnone in Hx]. exists (Z.of_nat i). apply Hh. by exists i, img.
    + destruct (i - length (lg_imgs g))%nat as [|m] eqn:E; [|by destruct m]. injection Hi as <-. rewrite lookup_insert_eq. f_equal. lia.
Qed.

(** A thread takes the next id. *)
Lemma inv_take s f ps g h l k w t hash : inv s f ps g h l -> ps !! k = Some (PMeta (snd w)) -> works !! k = Some w ->
  known (jb_data (snd w)) -> job_ok (cf_type cf) (fst w) (snd w) t ->
  hash_ok (take_id f hash (zlen (jb_data (snd w)))) (extend g t w) ->
  inv s (take_id f hash (zlen (jb_data (snd w)))) (<[k := PCheck (snd w) (zlen (lg_imgs g)) (f_dataOffset f)]> ps) (extend g t w) h l.
Proof using Hbudget Hids Haux.
  intros Hi Hk Hw Hkn Hj Hh. pose proof Hi as []. destruct iv_ledger0 as [G1 G2 G3 G4 G5]. set (d := jb_data (snd w)) in *.
  set (p' := PCheck (snd w) (zlen (lg_imgs g)) (f_dataOffset f)).
  pose proof (Forall3_length_lm _ _ _ _ G1) as Hlm. pose proof (Forall3_length_lr _ _ _ _ G1) as Hlr.
  pose proof (total_insert need ps k _ p' Hk) as Hneed.
  pose proof (total_insert wants ps k _ p' Hk) as Hwants. change (need p') with 0 in Hneed. change (wants p') with 0 in Hwants. cbn [need wants] in Hneed, Hwants. fold d in Hneed.
  pose proof (total_nonneg need (<[k := p']> ps) need_nonneg).
  pose proof (total_nonneg wants (<[k := p']> ps) wants_nonneg).
  assert (concat (lg_imgs (extend g t w)) = concat (lg_imgs g) ++ d) as Hcat.
  { cbn [lg_imgs extend]. rewrite concat_app. cbn [concat]. by rewrite app_nil_r. }
  assert (zlen (lg_imgs (extend g t w)) = zlen (lg_imgs g) + 1) as Hlen by (cbn [lg_imgs extend]; rewrite length_app; cbn [length]; lia).
  split; try done.
  - cbn [take_id f_dataOffset]. fold d. rewrite Hcat, length_app, iv_offset0, wrap_small by (unfold fits; lia). lia.
  - cbn [take_id f_idCounter]. rewrite Hlen, iv_count0, wrap_small by (unfold fits; lia). done.
  - split; cbn [extend lg_types lg_lists lg_imgs]; try apply Forall_app; try (split; [done|]; constructor; [first [apply Hj|exact Hkn]|constructor]).
    apply Forall3_app; [done|]. constructor; [apply Hj|constructor].
  - apply (threads_step g (extend g t w) (zlen l) (zlen l) ps k (PMeta (snd w)) p' w); try done.
    + intros w' q. apply pc_ok_extend.
    + split; [done|]. exists (length (lg_imgs g)). split; [done|]. split; [|cbn [extend lg_imgs]; rewrite start_app, start_end by lia; done].
      split; cbn [extend lg_types lg_lists lg_imgs].
      * rewrite lookup_app_r by lia. by replace (length (lg_imgs g) - length (lg_lists g))%nat with 0%nat by lia.
      * rewrite lookup_app_r by lia. by rewrite Nat.sub_diag.
      * exists t. rewrite lookup_app_r by lia. replace (length (lg_imgs g) - length (lg_types g))%nat with 0%nat by lia. split; [done|apply Hj].
  - intros k1 k2 p1 p2 j1 j2 id off1 off2 L1 L2 O1 O2.
    destruct (lookup_step ps k _ p' _ _ Hk L1) as [[-> ->]|[N1 L1']], (lookup_step ps k _ p' _ _ Hk L2) as [[-> ->]|[N2 L2']]; [done|..].
    + injection O1 as _ <- _. pose proof (owner_below _ _ _ _ _ _ _ _ _ _ _ Hi L2' O2). lia.
    + injection O2 as _ <- _. pose proof (owner_below _ _ _ _ _ _ _ _ _ _ _ Hi L1' O1). lia.
    + by eapply iv_owner0.
  - intros i img Hm Himg. cbn [extend lg_imgs] in *. apply lookup_app_Some in Himg as [Himg|[Hge Himg]].
    + pose proof (lookup_lt_Some _ _ _ Himg). rewrite start_app by lia. apply iv_written0; [|done].
      intros Hq. apply Hm. eapply missing_step; [exact Hk| |exact Hq]. done.
    + exfalso. apply Hm. assert (i = length (lg_imgs g)) as ->.
      { apply lookup_lt_Some in Himg. cbn [length] in Himg. lia. }
      eexists k, p', _, _. split; [apply list_lookup_insert_eq; by eapply lookup_lt_Some|]. by split.
  - destruct iv_tables0 as [T1 T2 T3]. split; try done. intros i src Hn Hsrc. cbn [extend lg_types lg_lists lg_imgs] in *.
    apply lookup_app_Some in Hsrc as [Hsrc|[Hge Hsrc]].
    + pose proof (lookup_lt_Some _ _ _ Hsrc). rewrite start_app by lia. destruct (T3 i src) as (E1 & E2 & E3); [|done|].
      { intros Hq. apply Hn. eapply pending_step; [exact Hk| |exact Hq]. done. }
      split; [done|]. split; [done|]. intros Em. destruct (E3 Em) as (t' & ? & ?). exists t'. split; [by apply lookup_app_l_Some|done].
    + exfalso. apply Hn. assert (i = length (lg_imgs g)) as ->.
      { apply lookup_lt_Some in Hsrc. cbn [length] in Hsrc. lia. }
      eexists k, p', _, _. split; [apply list_lookup_insert_eq; by eapply lookup_lt_Some|]. done.
  - rewrite Hcat, length_app. lia.
  - lia.
Qed.

Lemma newId_ok v : v < INVALID -> newId v = Ok v.
Proof using. clear. intros Hv. unfold newId. by rewrite (proj2 (Z.leb_gt _ _)). Qed.

Lemma step_meta s f ps g h l k j : works_ok -> inv s f ps g h l -> ps !! k = Some (PMeta j) ->
  exists f' p' g', add_meta hashFunc cf f j = Ok (f', p') /\ inv s f' (<[k := p']> ps) g' h l /\
    left_over p' < 5 /\ lg_lists g `prefix_of` lg_lists g'.
Proof using Hmt Hhash Hbudget Hids Haux.
  intros Hwk Hi Hk. destruct (move_facts _ _ _ _ _ _ _ _ Hi Hk) as (w & Hw & Hp). cbn [pc_ok] in Hp. subst j.
  destruct (Forall_lookup_1 _ _ _ _ Hwk Hw) as (Hkn & t & Hj). pose proof Hi as [].
  assert (zlen (lg_imgs g) < INVALID) as Hcnt.
  { pose proof (total_le wants ps k _ wants_nonneg Hk). cbn [wants] in *. unfold INVALID, max_u32. lia. }
  unfold add_meta. rewrite (proj2 (Z.eqb_neq _ 0)) by (rewrite (jo_type _ _ _ _ Hj); apply (jo_in _ _ _ _ Hj)).
  cbn [throw_if]. rewrite bind_ok_l, iv_count0. destruct (cf_useDeduplication cf) eqn:Ed.
  - destruct (f_hash f !! hashFunc (jb_data (snd w))) as [id|] eqn:Eh.
    + change (default INVALID (Some id)) with id. pose proof Eh as Eh'. apply (iv_hash0 Ed) in Eh as (i & img & -> & Himg & Hhv). destruct (Hhash eq_refl) as [Em Hinj].
      apply Hinj in Hhv; [|exact (Forall_lookup_1 _ _ _ _ (lo_known _ iv_ledger0) Himg)|done]. subst img.
      pose proof (lookup_lt_Some _ _ _ Himg). rewrite (proj2 (Z.eqb_neq (Z.of_nat i) INVALID)) by lia. cbn [negb].
      exists (add_hit f), (PDone (Z.of_nat i)), g. split; [done|]. split; [|split; [cbn; lia|done]]. apply (step_hit s f ps g h l k (snd w)); [done|done|].
      exists w. split; [done|]. exists i. split; [done|]. split; [|done]. destruct iv_ledger0 as [G1 G2 G3 G4 G5].
      destruct (Forall3_lookup_r _ _ _ _ _ _ G1 Himg) as (t' & src & Ht' & Hsrc & Him).
      assert (t' = t) as ->.
      { pose proof (Forall_lookup_1 _ _ _ _ G2 Ht') as Hin'. destruct (mtypes_ok _ Hmt) as (_ & _ & _ & H1).
        assert (type_code t = type_code t') as E by (rewrite <- (H1 t (jo_in _ _ _ _ Hj) Em); by apply H1). by destruct t, t'. }
      rewrite Hsrc. f_equal. apply (image_inj t src (fst w) (jb_data (snd w))); [apply Hj| |done|apply Hj].
      pose proof (start_in _ _ _ Himg). pose proof (total_nonneg need ps need_nonneg). lia.
    + change (default INVALID None) with INVALID. rewrite Z.eqb_refl. cbn [negb]. rewrite newId_ok, bind_ok_l by done.
      eexists _, _, (extend g t w). split; [done|]. split; [|split; [cbn; lia|by eexists]]. apply inv_take; try done. by apply hash_extend.
  - rewrite newId_ok, bind_ok_l by done. eexists _, _, (extend g t w). split; [done|]. split; [|split; [cbn; lia|by eexists]]. apply inv_take; try done.
    intros E. congruence.
Qed.

(** ** Every step *)

Lemma step_ok s f ps g h l k p : works_ok -> inv s f ps g h l -> ps !! k = Some p -> (forall id, p <> PDone id) ->
  exists s' f' p' g' l', add_step hashFunc cf s f p = Ok (s', f', p') /\ inv s' f' (<[k := p']> ps) g' h l' /\
    left_over p' < left_over p /\ lg_lists g `prefix_of` lg_lists g'.
Proof using BO Hmt Hhash Hgrow Haux Hbudget Hids Ho Hroom Hfree.
  intros Hwk Hi Hk Hnd. destruct p as [j|j id off|j id off|j id off|j id off|id]; cbn [add_step left_over].
  - destruct (step_meta s f ps g h l k j Hwk Hi Hk) as (f' & p' & g' & -> & Hi' & Hlo & Hpre). rewrite bind_ok_l. by exists s, f', p', g', l.
  - eexists s, f, _, g, l. split; [done|]. split; [by apply step_check|]. split; [by destruct (must_grow f j off)|done].
  - destruct (step_grow s f ps g h l k j id off Hi Hk) as (s' & f' & l' & -> & Hi'). by exists s', f', (PPut j id off), g, l'.
  - destruct (move_facts _ _ _ _ _ _ _ _ Hi Hk) as (w & Hw & Hp). destruct (Forall_lookup_1 _ _ _ _ Hwk Hw) as (Hkn & t & Hj).
    destruct (step_put s f ps g h l k j id off Hi Hk) as (s' & -> & Hi'); [destruct Hp as (-> & _); apply Hj|].
    rewrite bind_ok_l. by exists s', f, (PAux j id off), g, (splice l off (jb_data j)).
  - destruct (step_aux s f ps g h l k j id off Hwk Hi Hk) as (f' & -> & Hi'). rewrite bind_ok_l. by exists s, f', (PDone id), g, l.
  - by destruct (Hnd id).
Qed.

(** A thread alone. *)
Lemma run_add_ok fuel s f p g h l : works_ok -> inv s f [p] g h l -> left_over p <= Z.of_nat fuel ->
  exists s' f' id g' l', run_add hashFunc cf fuel s f p = Ok (s', f', id) /\ inv s' f' [PDone id] g' h l'.
Proof using BO Hmt Hhash Hgrow Haux Hbudget Hids Ho Hroom Hfree.
  intros Hwk. revert s f p g l. induction fuel as [|fuel IH]; intros s f p g l Hi Hlo.
  - destruct p as [j|j id off|j id off|j id off|j id off|id]; cbn [left_over] in Hlo; try lia. by exists s, f, id, g, l.
  - assert ((exists id, p = PDone id) \/ forall id, p <> PDone id) as [[id ->]|Hnd] by (destruct p; eauto).
    { by exists s, f, id, g, l. }
    destruct (step_ok s f [p] g h l 0 p Hwk Hi eq_refl Hnd) as (s1 & f1 & p1 & g1 & l1 & E & Hi1 & Hlt & _).
    destruct (IH s1 f1 p1 g1 l1 Hi1 ltac:(lia)) as (s' & f' & id & g' & l' & Hrun & Hi').
    exists s', f', id, g', l'. split; [|done]. assert (run_add hashFunc cf (Datatypes.S fuel) s f p =
      ('(s, f, p) ← add_step hashFunc cf s f p; run_add hashFunc cf fuel s f p)) as ->.
    { destruct p; try done. by destruct (Hnd id0). }
    by rewrite E, bind_ok_l.
Qed.

Lemma add_step_inv s f ps s' f' ps' g h l : works_ok -> inv s f ps g h l -> thread_step hashFunc cf (s, f, ps) (s', f', ps') ->
  exists g' l', inv s' f' ps' g' h l' /\ total left_over ps' < total left_over ps /\ lg_lists g `prefix_of` lg_lists g'.
Proof using BO Hmt Hhash Hgrow Haux Hbudget Hids Ho Hroom Hfree.
  intros Hwk Hi Hst. inversion Hst as [? ? ? k p ? ? p' Hk Hnd E]; subst.
  destruct (step_ok s f ps g h l k p Hwk Hi Hk Hnd) as (s1 & f1 & p1 & g' & l' & E1 & Hi' & Hlt & Hpre). rewrite E in E1. injection E1 as <- <- <-.
  exists g', l'. split; [done|]. split; [|done]. rewrite (total_insert left_over ps k p p' Hk). lia.
Qed.

Lemma add_steps_inv (x y : state) : works_ok -> rtc (thread_step hashFunc cf) x y ->
  forall g h l, inv (fst (fst x)) (snd (fst x)) (snd x) g h l -> 
    exists g' l', inv (fst (fst y)) (snd (fst y)) (snd y) g' h l' /\ lg_lists g `prefix_of` lg_lists g'.
Proof using BO Hmt Hhash Hgrow Haux Hbudget Hids Ho Hroom Hfree.
  intros Hwk Hst. induction Hst as [x|[[s f] ps] [[s1 f1] ps1] y Hxy _ IH]; intros g h l Hi; [by exists g, l|].
  destruct (add_step_inv _ _ _ _ _ _ _ _ _ Hwk Hi Hxy) as (g1 & l1 & Hi1 & _ & Hpre). destruct (IH g1 h l1 Hi1) as (g' & l' & ? & ?).
  exists g', l'. split; [done|]. by trans (lg_lists g1).
Qed.

(** Every step uses up a section of some thread. *)
Lemma nsteps_bound n (x y : state) : works_ok -> nsteps (thread_step hashFunc cf) n x y ->
  forall g h l, inv (fst (fst x)) (snd (fst x)) (snd x) g h l -> Z.of_nat n <= total left_over (snd x).
Proof using BO Hmt Hhash Hgrow Haux Hbudget Hids Ho Hroom Hfree.
  intros Hwk Hst. induction Hst as [x|n [[s f] ps] [[s1 f1] ps1] y Hxy _ IH]; intros g h l Hi; cbn [fst snd] in *.
  - apply total_nonneg. intros []; cbn; lia.
  - destruct (add_step_inv _ _ _ _ _ _ _ _ _ Hwk Hi Hxy) as (g1 & l1 & Hi1 & Hlt & _). specialize (IH g1 h l1 Hi1). lia.
Qed.

(** A thread that is not done can go on. *)
Lemma progress s f ps g h l : works_ok -> inv s f ps g h l ->
  Forall (fun p => is_done p = true) ps \/ exists y, thread_step hashFunc cf (s, f, ps) y.
Proof using BO Hmt Hhash Hgrow Haux Hbudget Hids Ho Hroom Hfree.
  intros Hwk Hi. destruct (decide (Forall (fun p => is_done p = true) ps)) as [Hd|Hd]; [by left|right].
  apply not_Forall_Exists in Hd; [|intros p; apply _]. apply Exists_exists in Hd as (p & Hin & Hp).
  apply list_elem_of_lookup in Hin as [k Hk]. assert (forall id, p <> PDone id) as Hnd by (intros id ->; by apply Hp).
  destruct (step_ok s f ps g h l k p Hwk Hi Hk Hnd) as (s' & f' & p' & g' & l' & E & _). eexists. by eapply step_thread.
Qed.
End invariant.
