(* ===== verification/IndexFlush.v ===== *)
(** What [setIndexFile] starts with and what [flush] of the index factory leaves behind: a store
    that has every list that was added, whatever the interleaving of the threads
    was ([IndexAdder] has the operations). *)

From stdpp Require Import gmap.
From Stdlib Require Import Sorting.Sorted.
From S2P Require Import Prelude UtilMath PackUnpack Storage ByteArray ByteStream Bits CompactUintArray SortedOffsets StaticArray BitSets SetFuncs IndexOps ItemIndexDE ItemIndexRleDE ItemIndexNative ItemIndex ItemIndexFactory CellMerge CellQuery ItemIndexStore CellQueryConv IndexAdder.

(** * Windows *)

Section windows.
Context {S : Type} {B : Backend S} {BO : BackendOk S}.

(** Two windows next to each other. *)
Lemma join_windows (s : S) a b la lb : buf s a la -> buf s b lb -> m_offSet b = m_offSet a + zlen la ->
  buf s (mkUba (m_offSet a) (zlen la + zlen lb) 0 0) (la ++ lb).
Proof using.
  intros Ha Hb Hab. pose proof (buf_len _ _ _ Ha) as Hla. pose proof (buf_len _ _ _ Hb) as Hlb.
  destruct Ha as [Wa Va]. destruct Hb as [Wb Vb]. pose proof Wa as []. pose proof Wb as [? ? Hin ? ? ? ?].
  assert (uba_wf (bk_data s) (mkUba (m_offSet a) (zlen la + zlen lb) 0 0)) as Hwf.
  { split; cbn; try done; try lia; unfold fits; lia. }
  split; [done|]. apply list_eq. intros i. rewrite (lookup_view _ _ _ Hwf). cbn [m_len m_offSet].
  destruct (decide (i < length la)%nat) as [Hi|Hi].
  - rewrite lookup_app_l by done. rewrite (proj2 (Z.ltb_lt _ _)) by lia. rewrite <- Va, (lookup_view _ _ _ Wa).
    by rewrite (proj2 (Z.ltb_lt _ _)) by lia.
  - rewrite lookup_app_r by lia. trans (view (bk_data s) b !! (i - length la)%nat); [|by rewrite Vb]. rewrite (lookup_view _ _ _ Wb).
    destruct (Z.ltb_spec (Z.of_nat i) (zlen la + zlen lb)), (Z.ltb_spec (Z.of_nat (i - length la)) (m_len b)); try lia; [|done].
    f_equal. lia.
Qed.

(** A number put inside the window of [a] is put inside the window of [w]. *)
Lemma sput_inside ty v (s : S) a w l : buf s w l -> m_offSet a = m_offSet w -> 0 <= m_putPtr a ->
  m_putPtr a + scalar_len ty <= m_len a -> m_len a <= zlen l -> scalar_ok ty v ->
  exists s', uba_sput ty s a v = Ok (s', mkUba (m_offSet a) (m_len a) (m_getPtr a) (m_putPtr a + scalar_len ty)) /\
    buf s' w (splice l (m_putPtr a) (item_bytes (IScalar ty v))).
Proof using BO.
  intros Hb Ho Hp Hin Hlen Hv. pose proof (buf_fits _ _ _ Hb) as Hf. pose proof Hb as [[] _]. pose proof (scalar_len_pos ty).
  destruct (scalar_bytes_ok ty v Hv) as (Hok & Hbl & _).
  assert (scalar_pack ty v = Ok (item_bytes (IScalar ty v))) as Hpk.
  { pose proof (item_encodes (IScalar ty v) Hv). cbn [item_bytes]. destruct (scalar_pack ty v) eqn:E; [done|].
    exfalso. cbn [item_bytes] in Hbl. rewrite E in Hbl. cbn in Hbl. lia. }
  destruct (buf_put ty s w l (m_putPtr a) v (item_bytes (IScalar ty v)) Hb Hp) as (s' & Hput & Hb' & _); [lia|done|done|done|].
  exists s'. split; [|done]. unfold uba_sput, resizeForPush. rewrite wrap_small by (unfold fits; lia).
  rewrite (proj2 (Z.ltb_ge _ _)) by lia.
  assert (uba_put ty s a (m_putPtr a) v = uba_put ty s w (m_putPtr a) v) as ->.
  { unfold uba_put. pose proof (buf_len _ _ _ Hb). rewrite !range_check_eq by (unfold fits; lia). rewrite !(proj2 (Z.ltb_ge _ _)) by lia. by rewrite Ho. }
  rewrite Hput, bind_ok_l. unfold advPut. by rewrite wrap_small by (unfold fits; lia).
Qed.

(** Growing up to a size the storage has changes nothing. *)
Lemma growStorage_inside (s s' : S) a n a' : growStorage s a n = (s', a', true) -> 0 <= m_offSet a + m_len a -> 0 <= n ->
  m_offSet a + m_len a + n <= zlen (bk_data s) -> zlen (bk_data s) < 2 ^ 64 -> bk_data s' = bk_data s.
Proof using BO.
  intros Hg Ha Hn Hin Hs. unfold growStorage in Hg. rewrite !(wrap_small 64) in Hg by (unfold fits; lia).
  destruct (_ <? _); [done|]. destruct (bk_growStorage s _) as [s1 b] eqn:E. apply bk_grow_ok in E as [-> Hd]; [|lia].
  injection Hg as <- _. rewrite Hd, Z.max_r by lia. unfold vresize. rewrite take_ge by lia.
  replace (Z.to_nat (zlen (bk_data s)) - length (bk_data s))%nat with 0%nat by lia. apply app_nil_r.
Qed.

(** Appending at the put position. *)
Lemma splice_append (X more bs : list Z) : splice (X ++ more) (zlen X) bs = (X ++ bs) ++ drop (length bs) more.
Proof using.
  clear. unfold splice. rewrite Nat2Z.id, take_app_length, <- app_assoc. do 2 f_equal. by rewrite drop_app_add.
Qed.

Record appended (a : uba) (X bs : list Z) (s s' : S) (a' : uba) (more more' : list Z) : Prop := {
  ap_buf : buf s' a' ((X ++ bs) ++ more');
  ap_put : m_putPtr a' = zlen (X ++ bs);
  ap_off : m_offSet a' = m_offSet a;
  ap_more : zlen more' <= 2 * zlen more;
  ap_frame : frame (m_offSet a) s s';
}.

Lemma wrote_append (s s' : S) a a' X more bs ext : m_putPtr a = zlen X -> wrote s a (X ++ more) bs s' a' ext ->
  exists more', appended a X bs s s' a' more more'.
Proof using.
  intros Hp [Hb He Ho Hg Hpp Hf]. rewrite Hp, splice_append, <- app_assoc in Hb. rewrite length_app, Hp in He.
  exists (drop (length bs) more ++ ext). split; try done; [by rewrite length_app, Hpp, Hp, Nat2Z.inj_add|rewrite length_app, length_drop; lia].
Qed.
End windows.

(** * The tables *)

Lemma vresize_table {A} (tab tab2 : list A) (x : A) : (forall i y, tab2 !! i = Some y -> tab !! i = Some y) -> vresize tab (zlen tab2) x = tab2.
Proof.
  intros Ht. apply list_eq. intros i. rewrite lookup_vresize by lia. destruct (Z.ltb_spec (Z.of_nat i) (zlen tab2)).
  - destruct (lookup_lt_is_Some_2 tab2 i) as [y Hy]; [lia|]. by rewrite Hy, (Ht i y Hy).
  - symmetry. apply lookup_ge_None_2. lia.
Qed.

Lemma block_starts_start imgs (i : nat) x : block_starts 0 imgs !! i = Some x -> x = start imgs i.
Proof.
  intros Hi. destruct (lookup_lt_is_Some_2 imgs i) as [img Himg]; [rewrite <- (length_block_starts 0); by eapply lookup_lt_Some|].
  destruct (block_at imgs i img Himg) as (_ & Hst & _). unfold start. congruence.
Qed.

Lemma msbs_ok ts : Forall on_disk ts -> msbs (map type_code ts) = Ok (map type_bit ts).
Proof.
  induction 1 as [|t ts Ht _ IH]; [done|]. cbn [map msbs]. rewrite IH.
  assert (msb32 (type_code t) = Ok (type_bit t)) as -> by (by destruct Ht as [->|[->| ->]]). done.
Qed.

(** * Flushing *)

Section flushing.
Context {S : Type} {B : Backend S} {BO : BackendOk S} {K : Type} `{Countable K} (hashFunc : list Z -> K) (cf : config).
Context (i128 : bool) (regression : list Z -> result (Z * Z)).
Context (known : list Z -> Prop) (o budget ids room : Z) (works : list (list Z * job)).
Context (Hmt : cf_type cf ∈ mtypes) (Haux : 1 <= cf_auxDataGrow cf).
Context (Hbudget : budget < 2 ^ 40) (Hids : ids + cf_auxDataGrow cf < 2 ^ 32 - 1).
Context (Ho : 0 <= o) (Hroom : o + 9 + room < 2 ^ 58).
(** The line through the offsets exists. *)
Context (Hline : forall src, StronglySorted Z.le src -> Forall (fits 40) src -> 1 < zlen src ->
  exists slopenom yintercept, regression src = Ok (slopenom, yintercept) /\ fits 61 slopenom /\ - 2 ^ 61 < yintercept < 2 ^ 61).
Abbreviation mult := (is_multiple (cf_type cf)).

Definition head_bytes (n : Z) : list Z :=
  [5] ++ item_bytes (IScalar Uint16 (u16 (cf_type cf))) ++ [0] ++ item_bytes (IScalar Offset n).

Lemma head_bytes_len n : fits 40 n -> zlen (head_bytes n) = 9.
Proof using Hmt.
  intros Hn. unfold head_bytes. destruct (scalar_bytes_ok Uint16 (u16 (cf_type cf))) as (_ & L1 & _); [by apply mtypes_ok|].
  destruct (scalar_bytes_ok Offset n Hn) as (_ & L2 & _). rewrite !length_app. cbn [length]. change (scalar_len Uint16) with 2 in L1. change (scalar_len Offset) with 5 in L2. lia.
Qed.

Lemma put_header_ok (s : S) w h l n : buf s w (h ++ l) -> m_offSet w = o -> zlen h = 9 -> fits 40 n ->
  exists s', put_header cf s (mkUba o 9 0 0) n = Ok (s', mkUba o 9 0 9) /\ buf s' w (head_bytes n ++ l).
Proof using BO Hmt.
  intros Hb Hw Hh Hn. unfold put_header. assert (9 <= zlen (h ++ l)) as Hl by (rewrite length_app; lia).
  destruct (mtypes_ok _ Hmt) as (Htf & _).
  destruct (scalar_bytes_ok Uint8 5) as (_ & L1 & _); [done|]. destruct (scalar_bytes_ok Uint16 _ Htf) as (_ & L2 & _).
  destruct (scalar_bytes_ok Uint8 0) as (_ & L3 & _); [done|]. destruct (scalar_bytes_ok Offset n Hn) as (_ & L4 & _).
  change (scalar_len Uint8) with 1 in *. change (scalar_len Uint16) with 2 in *. change (scalar_len Offset) with 5 in *.
  set (b1 := item_bytes (IScalar Uint8 5)) in *. set (b2 := item_bytes (IScalar Uint16 (u16 (cf_type cf)))) in *.
  set (b3 := item_bytes (IScalar Uint8 0)) in *. set (b4 := item_bytes (IScalar Offset n)) in *.
  destruct (sput_inside Uint8 5 s (mkUba o 9 0 0) w _ Hb) as (s1 & E1 & B1); try done.
  change (uba_sput Uint8 s (mkUba o 9 0 0) 5 = Ok (s1, mkUba o 9 0 1)) in E1. rewrite E1, bind_ok_l. fold b1 in B1.
  destruct (sput_inside Uint16 (u16 (cf_type cf)) s1 (mkUba o 9 0 1) w _ B1) as (s2 & E2 & B2); try done; [rewrite <- (buf_len _ _ _ B1), (buf_len _ _ _ Hb); cbn; lia|].
  change (uba_sput Uint16 s1 (mkUba o 9 0 1) (u16 (cf_type cf)) = Ok (s2, mkUba o 9 0 3)) in E2. rewrite E2, bind_ok_l. fold b2 in B2.
  destruct (sput_inside Uint8 0 s2 (mkUba o 9 0 3) w _ B2) as (s3 & E3 & B3); try done; [rewrite <- (buf_len _ _ _ B2), (buf_len _ _ _ Hb); cbn; lia|].
  change (uba_sput Uint8 s2 (mkUba o 9 0 3) IC_NONE = Ok (s3, mkUba o 9 0 4)) in E3. rewrite E3, bind_ok_l. fold b3 in B3.
  destruct (sput_inside Offset n s3 (mkUba o 9 0 4) w _ B3) as (s4 & E4 & B4); try done; [rewrite <- (buf_len _ _ _ B3), (buf_len _ _ _ Hb); cbn; lia|].
  exists s4. split; [done|]. fold b4 in B4. cbn [m_putPtr] in B4.
  pose proof (splice_splice (h ++ l) b1 b2 0 ltac:(lia)) as Q1. pose proof (splice_splice (h ++ l) (b1 ++ b2) b3 0 ltac:(lia)) as Q2.
  pose proof (splice_splice (h ++ l) ((b1 ++ b2) ++ b3) b4 0 ltac:(lia)) as Q3.
  replace (0 + zlen b1) with 1 in Q1 by lia. replace (0 + zlen (b1 ++ b2)) with 3 in Q2 by (rewrite length_app; lia).
  replace (0 + zlen ((b1 ++ b2) ++ b3)) with 4 in Q3 by (rewrite !length_app; lia). rewrite Q1, Q2, Q3 in B4.
  assert (splice (h ++ l) 0 (((b1 ++ b2) ++ b3) ++ b4) = head_bytes n ++ l) as E; [|by rewrite <- E].
  unfold splice, head_bytes. cbn [Z.to_nat take app]. repeat rewrite <- app_assoc. change b1 with [5]. change b3 with [0]. fold b2 b4.
  cbn [app]. do 5 f_equal. replace (0 + _)%nat with (length h) by (repeat (rewrite length_app || cbn [length]); lia). by rewrite drop_app_length.
Qed.

(** ** The parts of the body *)

Lemma put_offsets_ok (s : S) a imgs more : fits 40 (zlen (concat imgs)) -> zlen imgs < 2 ^ 32 ->
  buf s a (concat imgs ++ more) -> m_putPtr a = zlen (concat imgs) -> m_offSet a + zlen (concat imgs ++ more) < 2 ^ 58 ->
  exists s' a' offs more', soi_create i128 regression s (block_starts 0 imgs) a = Ok (s', a', true) /\
    soi_image (block_starts 0 imgs) offs /\ appended a (concat imgs) offs s s' a' more more' /\
    exists idx, soi_init s' (uba_from a' (zlen (concat imgs))) = Ok idx.
Proof using BO Hline.
  intros Hc Hn Hb Hp Hf. pose proof (buf_fits _ _ _ Hb) as Hbf. rewrite length_app in *. unfold fits in Hc.
  assert (Forall (fits 40) (block_starts 0 imgs)) as Hfit.
  { apply Forall_forall. intros x Hx. apply block_starts_le in Hx. unfold fits. lia. }
  assert (offsets_ok regression (block_starts 0 imgs)) as Hoff.
  { split; [apply block_starts_sorted| |rewrite length_block_starts; lia|].
    - eapply Forall_impl; [exact Hfit|]. unfold fits. cbn. lia.
    - intros H1. apply Hline; [apply block_starts_sorted|done|done]. }
  destruct (soi_create_ok i128 regression s a _ (block_starts 0 imgs) Hb) as (s' & a' & offs & ext & Hcr & Him & Hw); [rewrite length_app; lia|done| |].
  { unfold small_enough. rewrite length_app, length_block_starts. lia. }
  destruct (wrote_append s s' a a' _ _ _ _ Hp Hw) as (more' & Hap). exists s', a', offs, more'. do 3 (split; [done|]).
  pose proof Hap as [Hb' _ _ Hm _]. pose proof (soi_image_len _ _ Him) as Hol. rewrite length_block_starts in Hol.
  pose proof (uba_from_ok s' a' _ Hb' (zlen (concat imgs))) as Hfrom. rewrite <- app_assoc, Nat2Z.id, drop_app_length in Hfrom.
  destruct (soi_open_ok i128 s' (uba_from a' (zlen (concat imgs))) (block_starts 0 imgs) offs more' Him) as (idx & Hidx & _).
  - apply Hfrom. rewrite !length_app. lia.
  - rewrite length_app. lia.
  - by exists idx.
Qed.

Lemma put_sizes_ok (s : S) a lists X more : Forall storable lists -> zlen lists < 2 ^ 32 ->
  buf s a (X ++ more) -> m_putPtr a = zlen X -> m_offSet a + zlen (X ++ more) < 2 ^ 60 ->
  exists s' a' sizes more', array_put (SP := sizes_serial) i128 regression s a (map (fun l => zlen l) lists) = Ok (s', a') /\
    sizes_image (map (fun l => zlen l) lists) sizes /\ zlen sizes = 6 + 4 * zlen lists /\ appended a X sizes s s' a' more more'.
Proof using BO.
  intros Hst Hn Hb Hp Hf. pose proof (buf_fits _ _ _ Hb). rewrite length_app in *.
  pose proof (sizes_values lists Hst Hn) as Hv.
  assert (zlen (data_of (SP := sizes_serial) (map (fun l => zlen l) lists)) = 4 * zlen lists) as Hd.
  { rewrite (fixed_data (SP := sizes_serial) 4 _ eq_refl (values_each _ Hv)), length_map. lia. }
  destruct (array_put_ok (SP := sizes_serial) i128 regression s a (X ++ more) _ Hv) as (s' & a' & sizes & ext & Hput & Him & Hw);
    [by intros ?|done|rewrite length_app; lia| |].
  { unfold small_enough. rewrite length_app, Hd, length_map. lia. }
  destruct (wrote_append s s' a a' _ _ _ _ Hp Hw) as (more' & Hap). exists s', a', sizes, more'. split; [done|]. split; [done|]. split; [|done].
  destruct Him as (tail & Ht & ->). cbn in Ht. subst tail. rewrite !length_app.
  assert (zlen (item_bytes (IScalar Offset (zlen (data_of (SP := sizes_serial) (map (fun l => zlen l) lists))))) = 5) as H5.
  { destruct (scalar_bytes_ok Offset _ (values_data _ Hv)) as (_ & Hl & _). exact Hl. }
  cbn [length]. lia.
Qed.

Lemma put_types_ok (f : factory K) (s : S) a ts X more : Forall (type_in (cf_type cf)) ts -> (mult = true -> f_types f = map type_code ts) ->
  zlen ts < 2 ^ 32 -> buf s a (X ++ more) -> m_putPtr a = zlen X -> m_offSet a + zlen (X ++ more) < 2 ^ 60 + 2 ^ 40 ->
  exists s' a' info more', put_types cf i128 s f a = Ok (s', a') /\ type_info (cf_type cf) ts info /\
    appended a X info s s' a' more more'.
Proof using BO Hmt.
  intros Hts Hf Hn Hb Hp Hsm. rewrite length_app in Hsm. pose proof (buf_fits _ _ _ Hb). unfold put_types, multiple, type_info.
  destruct mult eqn:Em.
  - destruct (mtypes_ok _ Hmt) as (_ & _ & Hbits & _). rewrite (Hbits Em), bind_ok_l, (Hf eq_refl).
    rewrite msbs_ok, bind_ok_l by (eapply Forall_impl; [exact Hts|]; by intros t []). unfold cua_create_it.
    destruct (cua_create_bits_ok i128 s a _ (map type_bit ts) 3 Hb) as (s' & a' & body & -> & Hpk & Hpu & Hfr).
    { rewrite length_app. lia. }
    { apply Forall_map. eapply Forall_impl; [exact Hts|]. intros t [Ht _]. destruct (type_bit_ok t Ht) as [Hb3 _]. cbn. unfold fits in *. lia. }
    { lia. }
    { unfold small_enough. rewrite length_app, length_map. lia. }
    rewrite bind_ok_l. cbn [Z.eqb throw_if]. rewrite bind_ok_l.
    destruct (wrote_append s s' a a' X more body [] Hp) as (more' & Hap).
    { apply pushed_wrote; [rewrite length_app; lia|done|done]. }
    by exists s', a', body, more'.
  - exists s, a, [], more. split; [done|]. split; [done|]. split; try done; rewrite ?app_nil_r; [done|done|lia].
Qed.

(** ** The whole store *)

(** When every thread is done, every table is complete. *)
Lemma settled (s : S) (f : factory K) ps g h l : inv hashFunc cf known o budget ids room works s f ps g h l -> Forall (fun p => is_done p = true) ps ->
  (exists more, l = concat (lg_imgs g) ++ more) /\ vresize (f_offsets f) (f_idCounter f) 0 = block_starts 0 (lg_imgs g) /\
  vresize (f_sizes f) (f_idCounter f) 0 = map (fun l => zlen l) (lg_lists g) /\
  (mult = true -> vresize (f_types f) (f_idCounter f) 0 = map type_code (lg_types g)).
Proof using.
  clear. intros [] Hd. destruct iv_ledger as [G1 _ _ _ _]. destruct iv_tables as [T1 T2 T3].
  pose proof (Forall3_length_lm _ _ _ _ G1) as Hlm. pose proof (Forall3_length_lr _ _ _ _ G1) as Hlr.
  assert (forall k p, ps !! k = Some p -> owns p = None) as Hno.
  { intros k p Hk. pose proof (Forall_lookup_1 _ _ _ _ Hd Hk) as Hp. by destruct p. }
  assert (forall i, ~ pending ps i) as Hnp by (intros i (k & p & j & off & Hk & How); rewrite (Hno _ _ Hk) in How; done).
  assert (forall i, ~ missing ps i) as Hnm by (intros i (k & p & j & off & Hk & How & _); rewrite (Hno _ _ Hk) in How; done).
  split; [|split; [|split]].
  - exists (drop (length (concat (lg_imgs g))) l). rewrite <- (lies_all l (lg_imgs g)) at 1 by (intros i img; by apply iv_written). by rewrite take_drop.
  - rewrite iv_count, <- (length_block_starts 0 (lg_imgs g)). apply vresize_table. intros i y Hy.
    rewrite (block_starts_start _ _ _ Hy). apply lookup_lt_Some in Hy. rewrite length_block_starts in Hy.
    destruct (lookup_lt_is_Some_2 (lg_lists g) i) as [src Hsrc]; [lia|]. by destruct (T3 i src (Hnp i) Hsrc).
  - rewrite iv_count, <- Hlr, Hlm. rewrite <- (length_map (fun l => zlen l) (lg_lists g)). apply vresize_table. intros i y Hy.
    apply list_lookup_fmap_Some in Hy as (src & -> & Hsrc). by destruct (T3 i src (Hnp i) Hsrc) as (_ & ? & _).
  - intros Em. rewrite iv_count, <- Hlr, <- (length_map type_code (lg_types g)). apply vresize_table. intros i y Hy.
    apply list_lookup_fmap_Some in Hy as (t & -> & Ht). destruct (lookup_lt_is_Some_2 (lg_lists g) i) as [src Hsrc]; [apply lookup_lt_Some in Ht; lia|].
    destruct (T3 i src (Hnp i) Hsrc) as (_ & _ & E). destruct (E Em) as (t' & Ht' & Hty). congruence.
Qed.

Lemma flush_ok (s : S) (f : factory K) ps g h l : inv hashFunc cf known o budget ids room works s f ps g h l -> Forall (fun p => is_done p = true) ps ->
  exists s2 f2 s3 fd enc, flush cf i128 regression s f = Ok (s2, f2, zlen enc) /\ getFlushedData s2 f2 = (s3, fd) /\
    store_image (cf_type cf) (lg_types g) (lg_lists g) (lg_imgs g) enc /\ buf s3 fd enc /\ zlen enc < 2 ^ 42.
Proof using BO Hmt Haux Hbudget Hids Ho Hroom Hline.
  intros Hi Hd. destruct (settled s f ps g h l Hi Hd) as ((more & ->) & E1 & E2 & E3).
  pose proof (total_nonneg need ps need_nonneg). pose proof (total_nonneg wants ps wants_nonneg).
  pose proof Hi as []. destruct iv_ledger as [G1 G2 G3 G4 _]. destruct iv_store as (gp & Est & Hgp). set (imgs := lg_imgs g) in *.
  pose proof (Forall3_length_lm _ _ _ _ G1) as Hlm. pose proof (Forall3_length_lr _ _ _ _ G1) as Hlr. fold imgs in Hlr.
  set (X := concat imgs) in *. assert (fits 40 (zlen X)) as HX by (unfold fits; lia). rewrite !length_app in *.
  unfold flush. rewrite (proj2 (Z.eqb_eq (zlen (f_sizes f)) _)) by (f_equal; apply iv_tables). cbn [negb throw_if]. rewrite bind_ok_l.
  set (st := setPutPtr (f_store f) (f_dataOffset f)).
  assert (st = mkUba (o + 9) (zlen (X ++ more)) gp (zlen X)) as Hst.
  { unfold st, setPutPtr. rewrite Est, iv_offset, length_app. cbn [m_offSet m_len m_getPtr]. f_equal.
    destruct (Z.leb_spec (Z.of_nat (length X + length more)) (zlen X)); lia. }
  cbn [set_aux f_header f_offsets f_sizes f_types f_idCounter]. rewrite iv_header. change (resetPtrs (mkUba o 9 0 0)) with (mkUba o 9 0 0). rewrite Hst. cbn [m_putPtr].
  destruct (put_header_ok s _ h (X ++ more) (zlen X) iv_window eq_refl iv_head HX) as (s1 & -> & Hb1). rewrite bind_ok_l.
  rewrite E1, E2.
  pose proof (head_bytes_len _ HX) as Hhl. set (head := head_bytes (zlen X)) in *.
  assert (buf s1 st (X ++ more)) as Hbs.
  { rewrite Hst, length_app. pose proof (buf_tail s1 _ _ Hb1 (mkUba (o + 9) (Z.of_nat (length X + length more)) gp (zlen X)) 9) as Ht.
    replace (Z.to_nat 9) with (length head) in Ht by lia. rewrite drop_app_length, !length_app in Ht. pose proof (buf_fits _ _ _ Hb1) as Hf. rewrite !length_app in Hf. cbn [m_offSet] in Hf.
    apply Ht; cbn [m_offSet m_len m_getPtr m_putPtr]; try lia; try done. unfold fits in *. lia. }
  rewrite Hst in Hbs. set (a0 := mkUba (o + 9) (zlen (X ++ more)) gp (zlen X)) in *.
  destruct (put_offsets_ok s1 a0 imgs more HX) as (s2 & a2 & offs & more2 & -> & Hoffs & [B2 P2 O2 M2 F2] & idx & Hidx); [lia|done|done|rewrite length_app; unfold a0; cbn [m_offSet]; fold X; lia|].
  fold X in B2, P2, Hidx. rewrite bind_ok_l. cbn [negb]. rewrite Hidx, bind_ok_l. cbn [m_offSet a0] in O2, F2.
  pose proof (soi_image_len _ _ Hoffs) as Hol. rewrite length_block_starts in Hol.
  destruct (put_sizes_ok s2 a2 (lg_lists g) (X ++ offs) more2 G3) as (s3 & a3 & sizes & more3 & -> & Hsizes & Hsl & [B3 P3 O3 M3 F3]); [lia|done|done|rewrite O2, !length_app; lia|].
  rewrite bind_ok_l.
  edestruct (put_types_ok (set_aux f (block_starts 0 imgs) (map (fun l => zlen l) (lg_lists g)) (if multiple cf then vresize (f_types f) (f_idCounter f) 0 else f_types f)) s3 a3 (lg_types g) ((X ++ offs) ++ sizes) more3 G2)
    as (s4 & a4 & info & more4 & Hpt & Hinfo & [B4 P4 O4 M4 F4]); [|lia|done|done|rewrite O3, O2, !length_app; lia|].
  { intros Em. cbn [f_types set_aux]. unfold multiple. rewrite Em. by apply E3. }
  rewrite Hpt, bind_ok_l. clear Hpt.
  set (body := ((X ++ offs) ++ sizes) ++ info) in *. set (enc := head ++ body).
  assert (zlen info <= 3 * zlen (lg_types g) + 8) as Hil.
  { unfold type_info in Hinfo. destruct mult; [|subst info; cbn; lia]. rewrite (packs_len _ _ _ Hinfo), length_map.
    destruct (minStorageBytes_ok 3 (zlen (lg_types g))); [lia|lia|lia|]. lia. }
  assert (zlen body = zlen X + zlen offs + zlen sizes + zlen info) as Hbl by (unfold body; rewrite !length_app; lia).
  assert (zlen enc = 9 + zlen body) as Hel by (unfold enc; rewrite length_app; lia).
  assert (buf s4 (mkUba o 9 0 0) head) as Hh4.
  { pose proof (buf_sub s1 _ _ Hb1 (mkUba o 9 0 0) 0 9) as Hsub. cbn [Z.to_nat] in Hsub. rewrite drop_0 in Hsub.
    replace (Z.to_nat 9) with (length head) in Hsub by lia. rewrite take_app_length, length_app in Hsub.
    apply (frame_buf (o + 9) s1 s4).
    - apply Hsub; cbn [m_offSet m_len m_getPtr m_putPtr]; try lia; unfold fits; lia.
    - eapply frame_trans; [exact F2|]. rewrite <- O2. eapply frame_trans; [exact F3|]. by rewrite <- O3.
    - cbn [m_offSet]. lia.
    - apply B4.
    - apply B4. }
  pose proof (join_windows s4 _ a4 head (body ++ more4) Hh4 B4) as Hj. cbn [m_offSet] in Hj. rewrite Hhl in Hj.
  assert (m_offSet a4 = o + 9) as Ho4 by (rewrite O4, O3, O2; done). specialize (Hj Ho4).
  set (f2 := set_uba _ _ _). assert (f_header f2 = mkUba o 9 0 9 /\ f_store f2 = a4) as [Eh Es] by done.
  pose proof (buf_ptrs s4 _ _ 0 9 Hh4 ltac:(unfold fits; lia) ltac:(unfold fits; lia)) as Hhd. cbn [m_offSet m_len] in Hhd.
  destruct (growStorage_ok s4 _ _ (zlen body) Hhd) as (s5 & ext & Hg & _ & _); [lia|rewrite Hhl; cbn [m_offSet]; lia|].
  rewrite Hhl in Hg. cbn [m_offSet m_len m_getPtr m_putPtr] in Hg.
  pose proof Hj as [[_ _ Hin Hsz _ _ _] _]. cbn [m_offSet m_len] in Hin. rewrite length_app in Hin.
  pose proof (growStorage_inside s4 s5 _ _ _ Hg) as Hsame. cbn [m_offSet m_len] in Hsame. specialize (Hsame ltac:(lia) ltac:(lia) ltac:(lia) Hsz).
  exists s4, f2, s5, (mkUba o (9 + zlen body) 0 9), enc. split; [|split; [|split; [|split]]].
  - unfold mret, result_ret. do 2 f_equal. rewrite P4, Hel. fold body. rewrite wrap_small by (unfold fits; lia). lia.
  - unfold getFlushedData. rewrite Eh, Es, P4. fold body. by rewrite Hg.
  - split; try done.
    + lia.
    + exists offs, sizes, info. split; [done|]. split; [done|]. split; [done|]. unfold enc, body, head, head_bytes. fold X. by repeat rewrite <- app_assoc.
  - assert (buf s5 (mkUba o (9 + (zlen (body ++ more4))) 0 0) (head ++ body ++ more4)) as Hj5 by (unfold buf in *; by rewrite Hsame).
    pose proof (buf_sub s5 _ _ Hj5 (mkUba o (9 + zlen body) 0 9) 0 (9 + zlen body)) as Hsub. cbn [Z.to_nat] in Hsub. rewrite drop_0 in Hsub.
    replace (Z.to_nat (9 + zlen body)) with (length enc) in Hsub by lia. unfold enc in Hsub at 1. rewrite app_assoc in Hsub. rewrite take_app_length in Hsub.
    apply Hsub; cbn [m_offSet m_len m_getPtr m_putPtr]; rewrite ?length_app; try lia; unfold fits; lia.
  - lia.
Qed.
End flushing.

(** * Setting up *)

Section setting_up.
Context {S : Type} {B : Backend S} {BO : BackendOk S} {K : Type} `{Countable K} (hashFunc : list Z -> K) (cf : config).
Context (known : list Z -> Prop) (Hmt : cf_type cf ∈ mtypes).
Context (Hhash : cf_useDeduplication cf = true -> is_multiple (cf_type cf) = false /\ separates hashFunc known).
Context (Hgrow : 0 <= cf_growSize cf) (Haux : 1 <= cf_auxDataGrow cf).

Definition no_ids : ledger := mkLedger [] [] [].

(** The window behind the dummy header, before the first index. *)
Definition set_window (s : S) (data : uba) : result (S * uba * uba) :=
  '(s, header) ← put_items s data [IScalar Uint8 0; IScalar Uint16 0; IScalar Uint8 0; IScalar Offset 0];
  let '(s, header', _) := uba_resize s header (m_putPtr header) in mret (s, resetPtrs header', shrinkToPutPtr header).

Lemma setIndexFile_eq (s : S) data : setIndexFile hashFunc cf s factory_new data =
  ('(s, header, store) ← set_window s data;
   '(s, f, _) ← addIndex hashFunc cf s (set_uba factory_new header store) []; mret (s, f)).
Proof using.
  unfold setIndexFile, set_window. change (f_size factory_new =? 0) with true. cbn [put_items put_item].
  destruct (uba_sput Uint8 s data 0) as [[s1 a1]|]; [|done]. rewrite !bind_ok_l.
  destruct (uba_sput Uint16 s1 a1 0) as [[s2 a2]|]; [|done]. rewrite !bind_ok_l.
  destruct (uba_sput Uint8 s2 a2 0) as [[s3 a3]|]; [|done]. rewrite !bind_ok_l.
  destruct (uba_sput Offset s3 a3 0) as [[s4 a4]|]; [|done]. rewrite !bind_ok_l.
  destruct (uba_resize s4 a4 (m_putPtr a4)) as [[s5 a5] ok]. done.
Qed.

Lemma set_window_ok (s : S) data l : buf s data l -> m_putPtr data = 0 -> m_offSet data + 9 + zlen l < 2 ^ 64 ->
  let o := m_offSet data in
  exists s' h l' gp, set_window s data = Ok (s', mkUba o 9 0 0, mkUba (o + 9) (zlen l') gp 0) /\ fits 64 gp /\
    zlen h = 9 /\ buf s' (mkUba o (9 + zlen l') 0 0) (h ++ l') /\ zlen l' <= zlen l.
Proof using BO.
  intros Hb Hp Hf. set (o := m_offSet data). cbn zeta. pose proof (buf_fits _ _ _ Hb) as Hbf. unfold set_window.
  set (its := [IScalar Uint8 0; IScalar Uint16 0; IScalar Uint8 0; IScalar Offset 0]).
  assert (Forall2 encodes its (map item_bytes its)) as Henc by (repeat (constructor; [apply item_encodes; vm_compute; done|]); constructor).
  set (h := concat (map item_bytes its)). assert (zlen h = 9) as Hh by done.
  destruct (put_items_ok its _ Henc s data l Hb) as (s1 & a1 & -> & [B1 O1 G1 P1]); [lia|fold h; lia|]. fold h in B1, P1. rewrite Hp, Hh in *. rewrite bind_ok_l.
  set (l' := drop 9 l). assert (splice l 0 h = h ++ l') as El by (unfold splice; cbn [Z.to_nat take app]; done). rewrite El in B1.
  pose proof (buf_len _ _ _ B1) as L1. rewrite length_app in L1. pose proof (buf_fits _ _ _ B1) as F1. rewrite length_app in F1. pose proof B1 as [[_ _ Hin Hsz Hgw _ _] _].
  assert (exists s2 a2 ok, uba_resize s1 a1 (m_putPtr a1) = (s2, a2, ok) /\ bk_data s2 = bk_data s1 /\ m_offSet a2 = o /\ m_len a2 = 9) as (s2 & a2 & ok & -> & Hd & Ho2 & Hl2).
  { unfold uba_resize. rewrite P1, L1. destruct (Z.ltb_spec (0 + 9) (Z.of_nat (length h + length l'))) as [Hlt|Hge].
    - eexists s1, _, _. split; [done|]. split; [done|]. cbn [m_offSet m_len]. split; [exact O1|lia].
    - destruct (growStorage_ok s1 a1 _ (0 + 9 - Z.of_nat (length h + length l')) B1) as (s2 & ext & Hg & _ & _); [lia|rewrite length_app; lia|].
      eexists s2, _, _. split; [exact Hg|]. split; [|cbn [m_offSet m_len]; rewrite length_app; split; [exact O1|lia]].
      apply (growStorage_inside _ _ _ _ _ Hg); lia. }
  exists s2, h, l', (m_getPtr data). split; [|split; [|split; [done|split]]].
  - unfold mret, result_ret. unfold resetPtrs, resetPutPtr, resetGetPtr, shrinkToPutPtr. cbn [m_offSet m_len m_getPtr m_putPtr].
    rewrite Ho2, Hl2, P1, L1, O1, G1. rewrite (proj2 (Z.ltb_ge (Z.of_nat (length h + length l')) (0 + 9))) by lia.
    rewrite wrap_small by (unfold fits; lia). rewrite G1 in Hgw. unfold fits in Hgw. rewrite (proj2 (Z.ltb_ge (m_getPtr data) 0)) by lia.
    do 3 f_equal; lia.
  - by rewrite <- G1.
  - assert (buf s1 (mkUba o (9 + zlen l') 0 0) (h ++ l')) as Hb2.
    { pose proof (buf_ptrs s1 a1 _ 0 0 B1 ltac:(unfold fits; lia) ltac:(unfold fits; lia)) as Hb2. rewrite L1, O1 in Hb2.
      by replace (9 + zlen l') with (Z.of_nat (length h + length l')) by lia. }
    unfold buf in *. by rewrite Hd.
  - unfold l'. rewrite length_drop. lia.
Qed.

(** A factory without ids. *)
Lemma inv_fresh budget room (s : S) o h l gp j : buf s (mkUba o (9 + zlen l) 0 0) (h ++ l) -> zlen h = 9 -> fits 64 gp ->
  zlen (jb_data j) <= budget -> zlen l <= room ->
  inv hashFunc cf known o budget 1 room [([], j)] s (set_uba factory_new (mkUba o 9 0 0) (mkUba (o + 9) (zlen l) gp 0)) [PMeta j] no_ids h l.
Proof using.
  clear. intros Hb Hh Hg Hj Hl. split; try done.
  - by exists gp.
  - split; constructor.
  - intros _ hv id. cbn. rewrite lookup_empty. split; [done|]. intros (i & img & _ & E & _). by rewrite lookup_nil in E.
  - constructor; [done|constructor].
  - intros k k' p p' j1 j2 id off off' E1 E2 O1 O2. destruct k as [|k], k' as [|k']; [done|..]; cbn in E1, E2; by simplify_eq.
  - cbn. lia.
Qed.

(** Threads that start on a factory at rest. *)
Lemma inv_restart o budget ids budget' ids' room works works' (s : S) f ps g h l :
  inv hashFunc cf known o budget ids room works s f ps g h l -> Forall (fun p => is_done p = true) ps ->
  zlen (concat (lg_imgs g)) + total need (map PMeta (map snd works')) <= budget' -> zlen (lg_imgs g) + zlen works' <= ids' ->
  inv hashFunc cf known o budget' ids' room works' s f (map PMeta (map snd works')) g h l.
Proof using.
  clear. intros [] Hd Hb Hn.
  assert (forall k p, ps !! k = Some p -> owns p = None) as Hno.
  { intros k p Hk. pose proof (Forall_lookup_1 _ _ _ _ Hd Hk) as Hp. by destruct p. }
  assert (forall (js : list job) k p, map PMeta js !! k = Some p -> owns p = None) as Hno'.
  { intros js k p Hk. by apply list_lookup_fmap_Some in Hk as (j & -> & _). }
  split; try done.
  - clear. induction works' as [|w ws IH]; constructor; [done|exact IH].
  - intros k k' p p' j j' id off off' Hk _ How. by rewrite (Hno' _ _ _ Hk) in How.
  - intros i img _ Hi. apply iv_written; [|done]. intros (k & p & j & off & Hk & How & _). by rewrite (Hno _ _ Hk) in How.
  - destruct iv_tables as [T1 T2 T3]. split; try done. intros i src _ Hi. apply T3; [|done]. intros (k & p & j & off & Hk & How). by rewrite (Hno _ _ Hk) in How.
  - assert (total wants (map PMeta (map snd works')) = zlen works') as ->; [|done].
    clear. unfold total. induction works' as [|w ws IH]; [done|]. cbn [map foldr wants length]. lia.
Qed.

(** The first index is the empty one. *)
Lemma setIndexFile_ok (s : S) data l j0 room : buf s data l -> m_putPtr data = 0 -> build cf [] = Ok j0 -> known (jb_data j0) ->
  zlen (jb_data j0) < 2 ^ 40 -> 2 + cf_auxDataGrow cf < 2 ^ 32 -> m_offSet data + 9 + room < 2 ^ 58 ->
  zlen l <= room -> zlen (jb_data j0) + cf_growSize cf <= room ->
  exists s' f t h l', setIndexFile hashFunc cf s factory_new data = Ok (s', f) /\
    inv hashFunc cf known (m_offSet data) (zlen (jb_data j0)) 1 room [([], j0)] s' f [PDone 0] (mkLedger [t] [[]] [jb_data j0]) h l'.
Proof using BO Hmt Hhash Hgrow Haux.
  intros Hb Hp Hj Hkn Hsm Hid Hroom Hl Hfree. pose proof (buf_fits _ _ _ Hb).
  assert (storable []) as Hst by (split; [constructor|]; split; [constructor|cbn; lia]).
  destruct (build_ok [] Hst cf Hmt) as (j & t & Hj' & Hjo). rewrite Hj in Hj'. injection Hj' as <-.
  destruct (set_window_ok s data l Hb Hp) as (s1 & h & l1 & gp & Hw & Hgp & Hh & Hb1 & Hl1); [lia|].
  rewrite setIndexFile_eq, Hw, bind_ok_l. unfold addIndex. rewrite Hj, bind_ok_l.
  assert (works_ok cf known [([], j0)]) as Hwk by (constructor; [split; [done|by exists t]|constructor]).
  destruct (run_add_ok hashFunc cf known (m_offSet data) (zlen (jb_data j0)) 1 room [([], j0)] Hmt Hhash Hgrow Haux Hsm ltac:(lia) ltac:(lia) Hroom Hfree
    5 s1 (set_uba factory_new (mkUba (m_offSet data) 9 0 0) (mkUba (m_offSet data + 9) (zlen l1) gp 0)) (PMeta j0) no_ids h l1 Hwk)
    as (s' & f' & id & g' & l' & Hrun & Hi); [apply inv_fresh; try done; lia|cbn; lia|].
  rewrite Hrun, bind_ok_l. pose proof (iv_threads _ _ _ _ _ _ _ _ _ _ _ _ _ _ Hi) as Ht.
  apply Forall2_cons in Ht as [(i & -> & Hli & Him) _]. cbn [fst snd] in Hli, Him.
  destruct (iv_ledger _ _ _ _ _ _ _ _ _ _ _ _ _ _ Hi) as [G1 _ _ _ _]. pose proof (iv_ids _ _ _ _ _ _ _ _ _ _ _ _ _ _ Hi) as Hids.
  change (total wants [PDone (Z.of_nat i)]) with 0 in Hids.
  assert (exists t, g' = mkLedger [t] [[]] [jb_data j0] /\ i = 0%nat) as (t' & -> & ->).
  { destruct g' as [ts Ls imgs]. cbn [lg_types lg_lists lg_imgs] in *. destruct imgs as [|img [|? ?]]; cbn [length] in Hids; [done| |lia].
    destruct i; [|done]. inversion G1 as [|t1 L1 ? ts1 Ls1 ? _ Hrest]; subst. inversion Hrest; subst. cbn in Hli, Him. exists t1. by simplify_eq. }
  exists s', f', t', h, l'. done.
Qed.
End setting_up.

(** * The theorems *)

Section filled.
Context {S : Type} {B : Backend S} {BO : BackendOk S} {K : Type} `{Countable K} (hashFunc : list Z -> K) (cf : config).
Context (i128 : bool) (regression : list Z -> result (Z * Z)).

(** The data that occurs. *)
Definition encodings (j0 : job) (jobs : list job) (d : list Z) : Prop := d ∈ map jb_data (j0 :: jobs).

(** A factory set to one of the modelled types over the data [data], and what the threads
    will add: the lists [srcs], whose encodings are the [jobs].  Deduplication needs a digest
    that separates these encodings and a factory of one type.  The sizes stay in the
    ranges of the format: 40 bits for offsets, 32 for ids. *)
Record setup (s : S) (data : uba) (l : list Z) (srcs : list (list Z)) (j0 : job) (jobs : list job) : Prop := {
  su_data : buf s data l;
  su_front : m_putPtr data = 0;
  su_type : cf_type cf ∈ mtypes;
  su_hash : cf_useDeduplication cf = true -> is_multiple (cf_type cf) = false /\ separates hashFunc (encodings j0 jobs);
  su_grow : 0 <= cf_growSize cf;
  su_aux : 1 <= cf_auxDataGrow cf;
  su_lists : Forall storable srcs;
  su_first : build cf [] = Ok j0;
  su_jobs : Forall2 (fun src j => build cf src = Ok j) srcs jobs;
  su_bytes : zlen (jb_data j0) + total need (map PMeta jobs) < 2 ^ 40;
  su_ids : 1 + zlen jobs + cf_auxDataGrow cf < 2 ^ 32 - 1;
  su_room : m_offSet data + 9 + Z.max (zlen l) (zlen (jb_data j0) + total need (map PMeta jobs) + cf_growSize cf) < 2 ^ 58;
  su_line : forall offs, StronglySorted Z.le offs -> Forall (fits 40) offs -> 1 < zlen offs ->
    exists slopenom yintercept, regression offs = Ok (slopenom, yintercept) /\ fits 61 slopenom /\ - 2 ^ 61 < yintercept < 2 ^ 61;
}.

Lemma setup_runs s data l srcs j0 jobs : setup s data l srcs j0 jobs ->
  let budget := zlen (jb_data j0) + total need (map PMeta jobs) in
  let ids := 1 + zlen jobs in
  let room := Z.max (zlen l) (budget + cf_growSize cf) in
  works_ok cf (encodings j0 jobs) (zip srcs jobs) /\
  exists s0 f0 h, setIndexFile hashFunc cf s factory_new data = Ok (s0, f0) /\
    (forall s1 f1 ps, rtc (thread_step hashFunc cf) (s0, f0, map PMeta jobs) (s1, f1, ps) ->
      exists g l1, inv hashFunc cf (encodings j0 jobs) (m_offSet data) budget ids room (zip srcs jobs) s1 f1 ps g h l1 /\
        lg_lists g !! 0%nat = Some []).
Proof using BO.
  intros []. cbn zeta. pose proof (buf_fits _ _ _ su_data0). set (budget := zlen (jb_data j0) + _) in *. set (room := Z.max _ _) in *.
  pose proof (Forall2_length _ _ _ su_jobs0) as Hsj. pose proof (total_nonneg need (map PMeta jobs) need_nonneg) as Hnn.
  assert (map snd (zip srcs jobs) = jobs) as Hjobs by (apply snd_zip; lia).
  assert (works_ok cf (encodings j0 jobs) (zip srcs jobs)) as Hwk.
  { unfold works_ok. assert (Forall (fun j => encodings j0 jobs (jb_data j)) jobs) as Hkn.
    { apply Forall_forall. intros j Hj. apply list_elem_of_fmap. exists j. split; [done|]. by right. }
    revert Hkn. generalize (encodings j0 jobs). clear -su_jobs0 su_lists0 su_type0 Hsj. intros known. induction su_jobs0 as [|src j srcs jobs Hj _ IH]; [constructor|].
    intros [Hk Hks]%Forall_cons. apply Forall_cons in su_lists0 as [Hs Hss]. constructor; [|apply IH; [done|cbn in Hsj; lia|done]]. cbn. split; [done|].
    destruct (build_ok src Hs cf su_type0) as (j' & t & E & Hjo). exists t. congruence. }
  split; [exact Hwk|].
  destruct (setIndexFile_ok hashFunc cf (encodings j0 jobs) su_type0 su_hash0 su_grow0 su_aux0 s data l j0 room su_data0 su_front0 su_first0)
    as (s0 & f0 & t & h & l0 & Hset & Hi); [by left|lia|lia|done|lia|lia|].
  exists s0, f0, h. split; [done|]. intros s1 f1 ps Hst.
  pose proof (inv_restart hashFunc cf (encodings j0 jobs) (m_offSet data) _ _ budget (1 + zlen jobs) room _ (zip srcs jobs) s0 f0 [PDone 0] _ h l0 Hi) as Hi0.
  rewrite Hjobs in Hi0. specialize (Hi0 ltac:(by constructor)). cbn [lg_imgs concat] in Hi0. rewrite app_nil_r in Hi0.
  assert (Hz : zlen (zip srcs jobs) = zlen jobs) by (rewrite length_zip_with_l_eq; lia). specialize (Hi0 ltac:(lia)). cbn [length] in Hi0. specialize (Hi0 ltac:(lia)).
  destruct (add_steps_inv hashFunc cf (encodings j0 jobs) (m_offSet data) budget (1 + zlen jobs) room (zip srcs jobs) su_type0 su_hash0 su_grow0 su_aux0 su_bytes0 ltac:(lia) ltac:(lia) su_room0 ltac:(lia)
    _ _ Hwk Hst _ h l0 Hi0) as (g & l1 & Hi1 & Hpre).
  exists g, l1. split; [exact Hi1|]. cbn [lg_lists] in Hpre. destruct Hpre as [more ->]. done.
Qed.
(** A thread that is done has an id of the ledger. *)
Lemma done_entry known o budget ids room works s f ps g h l k w : inv hashFunc cf known o budget ids room works s f ps g h l ->
  Forall (fun p => is_done p = true) ps -> works !! k = Some w ->
  exists i : nat, ps !! k = Some (PDone (Z.of_nat i)) /\ lg_lists g !! i = Some (fst w) /\ lg_imgs g !! i = Some (jb_data (snd w)).
Proof using.
  intros Hi Hd Hw. destruct (Forall2_lookup_l _ _ _ _ _ (iv_threads _ _ _ _ _ _ _ _ _ _ _ _ _ _ Hi) Hw) as (p & Hp & Hpc).
  pose proof (Forall_lookup_1 _ _ _ _ Hd Hp) as Hdone. destruct p; try done. destruct Hpc as (i & -> & H1 & H2). by exists i.
Qed.

Lemma zip_lookup {A C} (la : list A) (lc : list C) k a : length la = length lc -> la !! k = Some a -> exists c, zip la lc !! k = Some (a, c).
Proof using.
  clear. intros Hl Hk. destruct (lookup_lt_is_Some_2 lc k) as [c Hc]; [apply lookup_lt_Some in Hk; lia|].
  exists c. apply lookup_zip_with_Some. by exists a, c.
Qed.
End filled.

(** C4: what many threads add to an index factory is what the store has.  A factory is set up
    over any data, then any number of threads add one list each, the sections of
    [addIndex] interleaved in any order: no thread ever fails or waits for ever, and once all
    are done, [flush] succeeds, returns the number of bytes of the flushed data,
    and this data opens as an index store of that size in which the list with id 0 is empty and
    the id that each thread got has the list that this thread added: its index enumerates
    it, and its recorded size is its length. *)
Theorem threads_fill_store {S} {B : Backend S} {BO : BackendOk S} {K} `{Countable K} (hashFunc : list Z -> K) cf i128 regression
    (s : S) data l srcs j0 jobs : setup hashFunc cf regression s data l srcs j0 jobs ->
  exists s0 f0, setIndexFile hashFunc cf s factory_new data = Ok (s0, f0) /\
    forall s1 f1 ps, rtc (thread_step hashFunc cf) (s0, f0, map PMeta jobs) (s1, f1, ps) ->
      (Forall (fun p => is_done p = true) ps \/ exists y, thread_step hashFunc cf (s1, f1, ps) y) /\
      (Forall (fun p => is_done p = true) ps ->
        exists s2 f2 n s3 fd st, flush cf i128 regression s1 f1 = Ok (s2, f2, n) /\ getFlushedData s2 f2 = (s3, fd) /\ m_len fd = n /\
          is_new s3 fd = Ok st /\ is_getSizeInBytes st = Ok n /\
          (exists e, is_at i128 s3 st 0 = Ok e /\ ii_rep e []) /\
          forall k src, srcs !! k = Some src -> exists id idx, ps !! k = Some (PDone id) /\ 0 <= id < is_size st /\
            is_at i128 s3 st id = Ok idx /\ ii_rep idx src /\ ii_toVector idx = Ok src /\ is_idxSize i128 s3 st id = Ok (zlen src)).
Proof.
  intros Hsu. destruct (setup_runs hashFunc cf regression s data l srcs j0 jobs Hsu) as (Hwk & s0 & f0 & h & Hset & Hrun).
  exists s0, f0. split; [done|]. intros s1 f1 ps Hst. destruct (Hrun s1 f1 ps Hst) as (g & l1 & Hi & H0). destruct Hsu.
  pose proof (Forall2_length _ _ _ su_jobs0) as Hsj. pose proof (buf_fits _ _ _ su_data0). split.
  { refine (progress hashFunc cf _ _ _ _ _ _ su_type0 su_hash0 su_grow0 su_aux0 su_bytes0 su_ids0 _ su_room0 _ s1 f1 ps g h l1 Hwk Hi); lia. }
  intros Hd. destruct (flush_ok hashFunc cf i128 regression _ (m_offSet data) _ _ _ _ su_type0 su_aux0 su_bytes0 su_ids0 ltac:(lia) su_room0 su_line0 s1 f1 ps g h l1 Hi Hd)
    as (s2 & f2 & s3 & fd & enc & Hfl & Hfd & Him & Hbuf & Hsm).
  destruct (is_new_ok i128 s3 fd _ _ _ _ enc [] Him) as (st & Hnew & Ho & Hby); [by rewrite app_nil_r|rewrite app_nil_r; lia|].
  exists s2, f2, (zlen enc), s3, fd, st. do 2 (split; [done|]). split; [by eapply buf_len|]. do 2 (split; [done|]). split.
  - exact (is_at_ok i128 s3 st _ _ _ _ Ho 0 [] H0).
  - intros k src Hk. destruct (zip_lookup srcs jobs k src Hsj Hk) as (j & Hz).
    destruct (done_entry hashFunc cf _ _ _ _ _ _ _ _ _ _ _ _ k _ Hi Hd Hz) as (i & Hp & Hl & _). cbn [fst] in Hl.
    destruct (is_at_ok i128 s3 st _ _ _ _ Ho i src Hl) as (idx & Hat & Hrep). exists (Z.of_nat i), idx.
    split; [done|]. rewrite (is_size_ok i128 s3 st _ _ _ _ Ho). pose proof (lookup_lt_Some _ _ _ Hl). split; [lia|].
    split; [done|]. split; [done|]. split; [by apply ii_toVector_ok|]. by apply (is_idxSize_ok i128 s3 st _ _ _ _ Ho).
Qed.

(** C22: with deduplication two threads get the same id if and only if they add the same
    list. *)
Theorem threads_dedup {S} {B : Backend S} {BO : BackendOk S} {K} `{Countable K} (hashFunc : list Z -> K) cf regression
    (s : S) data l srcs j0 jobs : setup hashFunc cf regression s data l srcs j0 jobs -> cf_useDeduplication cf = true ->
  exists s0 f0, setIndexFile hashFunc cf s factory_new data = Ok (s0, f0) /\
    forall s1 f1 ps, rtc (thread_step hashFunc cf) (s0, f0, map PMeta jobs) (s1, f1, ps) -> Forall (fun p => is_done p = true) ps ->
      forall k k' src src', srcs !! k = Some src -> srcs !! k' = Some src' -> ps !! k = ps !! k' <-> src = src'.
Proof.
  intros Hsu Hdd. destruct (setup_runs hashFunc cf regression s data l srcs j0 jobs Hsu) as (Hwk & s0 & f0 & h & Hset & Hrun).
  exists s0, f0. split; [done|]. intros s1 f1 ps Hst Hd k k' src src' Hk Hk'. destruct (Hrun s1 f1 ps Hst) as (g & l1 & Hi & _). destruct Hsu.
  pose proof (Forall2_length _ _ _ su_jobs0) as Hsj.
  destruct (zip_lookup srcs jobs k src Hsj Hk) as (j & Hz). destruct (zip_lookup srcs jobs k' src' Hsj Hk') as (j' & Hz').
  destruct (done_entry hashFunc cf _ _ _ _ _ _ _ _ _ _ _ _ k _ Hi Hd Hz) as (i & Hp & Hl & Him).
  destruct (done_entry hashFunc cf _ _ _ _ _ _ _ _ _ _ _ _ k' _ Hi Hd Hz') as (i' & Hp' & Hl' & Him'). cbn [fst snd] in *. rewrite Hp, Hp'. split.
  - intros E. injection E as E. apply Nat2Z.inj in E as <-. congruence.
  - intros <-. assert (j' = j) as ->.
    { apply lookup_zip_with_Some in Hz as (x & y & E & Hx & Hy). injection E as <- <-. apply lookup_zip_with_Some in Hz' as (x' & y' & E' & Hx' & Hy').
      injection E' as <- <-. pose proof (Forall2_lookup_lr _ _ _ _ _ _ su_jobs0 Hx Hy). pose proof (Forall2_lookup_lr _ _ _ _ _ _ su_jobs0 Hx' Hy'). congruence. }
    pose proof (iv_hash _ _ _ _ _ _ _ _ _ _ _ _ _ _ Hi Hdd (hashFunc (jb_data j))) as Hh.
    assert (f_hash f1 !! hashFunc (jb_data j) = Some (Z.of_nat i)) as E1 by (apply Hh; by exists i, (jb_data j)).
    assert (f_hash f1 !! hashFunc (jb_data j) = Some (Z.of_nat i')) as E2 by (apply Hh; by exists i', (jb_data j)). congruence.
Qed.

(** Adding terminates: however the threads are scheduled, no run has more than five
    steps per thread. *)
Theorem threads_terminate {S} {B : Backend S} {BO : BackendOk S} {K} `{Countable K} (hashFunc : list Z -> K) cf regression
    (s : S) data l srcs j0 jobs : setup hashFunc cf regression s data l srcs j0 jobs ->
  exists s0 f0, setIndexFile hashFunc cf s factory_new data = Ok (s0, f0) /\
    forall n y, nsteps (thread_step hashFunc cf) n (s0, f0, map PMeta jobs) y -> Z.of_nat n <= 5 * zlen jobs.
Proof.
  intros Hsu. destruct (setup_runs hashFunc cf regression s data l srcs j0 jobs Hsu) as (Hwk & s0 & f0 & h & Hset & Hrun).
  exists s0, f0. split; [done|]. intros n y Hn. destruct Hsu. pose proof (buf_fits _ _ _ su_data0).
  destruct (Hrun s0 f0 (map PMeta jobs) (rtc_refl _ _)) as (g & l1 & Hi & _).
  assert (total left_over (map PMeta jobs) = 5 * zlen jobs) as <-.
  { clear. unfold total. induction jobs as [|j jobs IH]; [done|]. cbn [map foldr left_over length]. lia. }
  refine (nsteps_bound hashFunc cf _ _ _ _ _ _ su_type0 su_hash0 su_grow0 su_aux0 su_bytes0 su_ids0 _ su_room0 _ n _ y Hwk Hn g h l1 Hi); lia.
Qed.

(** ** An example *)

(** Three threads; two of them add the same list.  The line is flat. *)
Definition ex_cf : config := mkConfig true true 16 64 8.
Definition ex_line (offs : list Z) : result (Z * Z) := Ok (0, 0).
Definition ex_srcs : list (list Z) := [[1; 2; 3]; [5]; [1; 2; 3]].
Definition ex_job (src : list Z) : job := match build ex_cf src with Ok j => j | Err _ => mkJob [] 0 0 end.
Definition ex_jobs : list job := Eval vm_compute in map ex_job ex_srcs.
Definition ex_first : job := Eval vm_compute in ex_job [].

Lemma ex_setup : setup (fun l => l) ex_cf ex_line (Vec.mk [9]) (uba_new 0 1) [9] ex_srcs ex_first ex_jobs.
Proof.
  split.
  - apply (vec_buf [9]); [repeat constructor; unfold fits; lia|cbn; lia].
  - done.
  - apply list_elem_of_In. vm_compute. auto.
  - intros _. split; [done|]. by intros x y _ _.
  - cbn. lia.
  - cbn. lia.
  - repeat constructor; lia.
  - vm_compute. reflexivity.
  - repeat constructor; vm_compute; reflexivity.
  - vm_compute. reflexivity.
  - vm_compute. reflexivity.
  - vm_compute. reflexivity.
  - intros offs _ _ _. exists 0, 0. split; [done|]. unfold fits. lia.
Qed.

Lemma threads_fill_store_witness : exists s0 f0, setIndexFile (fun l => l) ex_cf (Vec.mk [9]) factory_new (uba_new 0 1) = Ok (s0, f0) /\
  forall s1 f1 ps, rtc (thread_step (fun l => l) ex_cf) (s0, f0, map PMeta ex_jobs) (s1, f1, ps) ->
    Forall (fun p => is_done p = true) ps ->
    exists s2 f2 n s3 fd st, flush ex_cf true ex_line s1 f1 = Ok (s2, f2, n) /\ getFlushedData s2 f2 = (s3, fd) /\
      is_new s3 fd = Ok st /\ exists id idx, ps !! 1%nat = Some (PDone id) /\ is_at true s3 st id = Ok idx /\ ii_toVector idx = Ok [5].
Proof.
  destruct (threads_fill_store (fun l => l) ex_cf true ex_line (Vec.mk [9]) (uba_new 0 1) [9] ex_srcs ex_first ex_jobs ex_setup)
    as (s0 & f0 & Hset & Hrun). exists s0, f0. split; [exact Hset|]. intros s1 f1 ps Hst Hd.
  destruct (proj2 (Hrun s1 f1 ps Hst) Hd) as (s2 & f2 & n & s3 & fd & st & Hfl & Hfd & _ & Hnew & _ & _ & Hat).
  exists s2, f2, n, s3, fd, st. split; [exact Hfl|]. split; [exact Hfd|]. split; [exact Hnew|].
  destruct (Hat 1%nat [5] eq_refl) as (id & idx & Hp & _ & Hi & _ & Hv & _). exists id, idx. split; [exact Hp|]. split; [exact Hi|exact Hv].
Defined.

Lemma threads_dedup_witness : exists s0 f0, setIndexFile (fun l => l) ex_cf (Vec.mk [9]) factory_new (uba_new 0 1) = Ok (s0, f0) /\
  forall s1 f1 ps, rtc (thread_step (fun l => l) ex_cf) (s0, f0, map PMeta ex_jobs) (s1, f1, ps) ->
    Forall (fun p => is_done p = true) ps -> ps !! 0%nat = ps !! 2%nat.
Proof.
  destruct (threads_dedup (fun l => l) ex_cf ex_line (Vec.mk [9]) (uba_new 0 1) [9] ex_srcs ex_first ex_jobs ex_setup eq_refl)
    as (s0 & f0 & Hset & Hrun). exists s0, f0. split; [exact Hset|]. intros s1 f1 ps Hst Hd.
  exact (proj2 (Hrun s1 f1 ps Hst Hd 0%nat 2%nat [1; 2; 3] [1; 2; 3] eq_refl eq_refl) eq_refl).
Defined.

Lemma threads_terminate_witness : exists s0 f0, setIndexFile (fun l => l) ex_cf (Vec.mk [9]) factory_new (uba_new 0 1) = Ok (s0, f0) /\
  forall n y, nsteps (thread_step (fun l => l) ex_cf) n (s0, f0, map PMeta ex_jobs) y -> (n <= 15)%nat.
Proof.
  destruct (threads_terminate (fun l => l) ex_cf ex_line (Vec.mk [9]) (uba_new 0 1) [9] ex_srcs ex_first ex_jobs ex_setup)
    as (s0 & f0 & Hset & Hrun). exists s0, f0. split; [exact Hset|]. intros n y Hn.
  pose proof (Hrun n y Hn) as Hb. change (5 * zlen ex_jobs) with 15 in Hb. lia.
Defined.

(** * Where the code goes wrong *)

Definition add_all (cf : config) (L : list (list Z)) : result (Vec.t * factory (list Z) * list Z) :=
  '(s, f) ← setIndexFile (fun l => l) cf (Vec.mk []) factory_new (uba_new 0 0);
  foldl (fun acc l => '(s, f, ids) ← acc; '(s, f, i) ← addIndex (fun l => l) cf s f l; mret (s, f, ids ++ [i])) (Ok (s, f, [])) L.

(** The size of the data of the last id is wrong: the entry behind it is one of the zeros the table
    grew by.  After one list was added to a factory, the size of its data is 0 minus the offset; recomputing the
    deduplication data takes the digest of all bytes to the end of the storage, and the same list
    added again gets a second id. *)
Theorem last_index_forgotten :
  ('(s, f, ids) ← add_all ex_cf [[1; 2; 3]];
   start ← mm_at (f_offsets f) 1; size ← dataSizeById f 1;
   f ← recalculateDeduplicationData (fun l => l) s f;
   '(_, _, id) ← addIndex (fun l => l) ex_cf s f [1; 2; 3];
   mret (ids, start, size, id)) = Ok ([1], 2, 2 ^ 64 - 2, 2).
Proof. vm_compute. reflexivity. Qed.
