(* ===== verification/TreedQuery.v ===== *)
(** Query results with delayed set operations: [include/sserialize/spatial/TreedCQRImp.h]
    and [src/spatial/TreedCQRImp.cpp].

    A cell that is not matched in full or by an index of the store has a tree of
    operations, written in prefix order into one vector for all cells; the leaves are ids
    of the store, full matches and positions in a vector of fetched indexes.  The set
    operations only build trees; [toCQR] evaluates them into a [CellQuery.cqr]. *)

From S2P Require Import Prelude UtilMath PackUnpack Storage ByteArray ByteStream Bits CompactUintArray BitSets SetFuncs IndexOps ItemIndexDE ItemIndexRleDE ItemIndexNative ItemIndex ItemIndexFactory CellMerge CellQuery.

(** * The data *)

Inductive op := OIntersect | OUnite | ODiff | OSymDiff.
(** [FlatNode]: [childB] is the distance from a node to its second child; the first one is
    always next to it. *)
Inductive node := PmLeaf (pmIdxId : Z) | FmLeaf | FetchedLeaf (internalIdxId : Z) | ToFm | OpNode (o : op) (childB : Z).
#[export] Instance op_eq_dec : EqDecision op.
Proof. solve_decision. Defined.
#[export] Instance node_eq_dec : EqDecision node.
Proof. solve_decision. Defined.

(** [TreedCQRImp::CellDesc] *)
Record tcell := mkTC { t_full : bool; t_fetched : bool; t_cell : Z; t_pm : Z; t_begin : Z; t_end : Z }.
Definition notree : Z := 0xFFFFFFFF.
Definition newTC (fullMatch hasFetchedNode : bool) (cellId pmIdxId treeBegin treeEnd : Z) : tcell :=
  mkTC fullMatch hasFetchedNode (wrap 30 cellId) (wrap 32 pmIdxId) (u32 treeBegin) (u32 treeEnd).
Definition treeSize (cd : tcell) : Z := u32 (t_end cd - t_begin cd).
Definition hasTree (cd : tcell) : bool := negb (treeSize cd =? 0).

Record tcqr := mkT { q_flags : Z; q_desc : list tcell; q_trees : list node; q_fetched : list index; q_hasFetchedNodes : bool }.
Definition t_new (flags : Z) : tcqr := mkT flags [] [] [] false.

Definition push_node (r : tcqr) (n : node) : tcqr := mkT (q_flags r) (q_desc r) (q_trees r ++ [n]) (q_fetched r) (q_hasFetchedNodes r).
Definition push_tcell (r : tcqr) (cd : tcell) : tcqr := mkT (q_flags r) (q_desc r ++ [cd]) (q_trees r) (q_fetched r) (q_hasFetchedNodes r).
Definition set_childB (r : tcqr) (pos : nat) (b : Z) : result tcqr :=
  match q_trees r !! pos with
  | Some (OpNode o _) => Ok (mkT (q_flags r) (q_desc r) (<[pos := OpNode o b]> (q_trees r)) (q_fetched r) (q_hasFetchedNodes r))
  | _ => Err UndefinedBehaviour
  end.

(** * Building trees *)

(** The nodes from [b] to [e], as iterators give them. *)
Definition slice (ns : list node) (b e : Z) : result (list node) :=
  if (0 <=? b) && (b <=? e) && (e <=? zlen ns) then Ok (take (Z.to_nat (e - b)) (drop (Z.to_nat b) ns)) else Err UndefinedBehaviour.

(** Nodes that refer to the fetched indexes [src] are made to refer to copies in [dest]. *)
Fixpoint adjust (src : list index) (ns : list node) (dest : list index) : result (list node * list index) :=
  match ns with
  | [] => Ok ([], dest)
  | FetchedLeaf k :: ns =>
      i ← match src !! Z.to_nat k with Some i => Ok i | None => Err StdOutOfRange end;
      '(ns, dest') ← adjust src ns (dest ++ [i]);
      mret (FetchedLeaf (wrap 60 (zlen dest)) :: ns, dest')
  | n :: ns => '(ns, dest) ← adjust src ns dest; mret (n :: ns, dest)
  end.

Definition copyTree (src : tcqr) (cd : tcell) (dest : tcqr) : result tcqr :=
  ns ← slice (q_trees src) (t_begin cd) (t_end cd);
  if t_fetched cd then
    '(ns, fx) ← adjust (q_fetched src) ns (q_fetched dest);
    mret (mkT (q_flags dest) (q_desc dest) (q_trees dest ++ ns) fx true)
  else mret (mkT (q_flags dest) (q_desc dest) (q_trees dest ++ ns) (q_fetched dest) (q_hasFetchedNodes dest)).

Definition copyFetchedIndices (src dest : tcqr) (destCD : tcell) : result tcqr :=
  if t_fetched destCD then
    ns ← slice (q_trees dest) (t_begin destCD) (t_end destCD);
    '(ns, fx) ← adjust (q_fetched src) ns (q_fetched dest);
    mret (mkT (q_flags dest) (q_desc dest)
      (take (Z.to_nat (t_begin destCD)) (q_trees dest) ++ ns ++ drop (Z.to_nat (t_end destCD)) (q_trees dest)) fx true)
  else Ok dest.

Definition tsize (r : tcqr) : Z := zlen (q_trees r).

(** A cell with the tree of [cd], copied to the end. *)
Definition push_tree (src : tcqr) (cd : tcell) (full fetched : bool) (cell pm : Z) (r : tcqr) : result tcqr :=
  let b := tsize r in
  r ← copyTree src cd r;
  mret (push_tcell r (newTC full fetched cell pm b (tsize r))).
(** A cell of one operand only. *)
Definition tcopy (src : tcqr) (cd : tcell) (r : tcqr) : result tcqr :=
  if hasTree cd then push_tree src cd (t_full cd) (t_fetched cd) (t_cell cd) (t_pm cd) r else Ok (push_tcell r cd).

(** An operand of a new tree: its tree, or a leaf. *)
Definition operand (src : tcqr) (cd : tcell) (r : tcqr) : result tcqr :=
  if hasTree cd then copyTree src cd r
  else Ok (push_node r (if t_full cd then FmLeaf else PmLeaf (wrap 32 (t_pm cd)))).
Definition build_op (o : op) (a : tcqr) (ca : tcell) (b : tcqr) (cb : tcell) (r : tcqr) : result tcqr :=
  let treeBegin := length (q_trees r) in
  let r := push_node r (OpNode o 0) in
  r ← operand a ca r;
  r ← set_childB r treeBegin (if hasTree ca then 1 + treeSize ca else 2);
  r ← operand b cb r;
  mret (push_tcell r (newTC false (t_fetched ca || t_fetched cb) (t_cell ca) 0 (Z.of_nat treeBegin) (tsize r))).

(** * The set operations *)

Definition thandler : Type := tcell -> tcell -> tcqr -> result tcqr.

Section ops.
Context (a b : tcqr).

Fixpoint tloop (keepMy keepO : bool) (equal : thandler) (fuel : nat) (r : tcqr) (myI oI : Z) : result (tcqr * Z * Z) :=
  match fuel with
  | O => Err OutOfFuel
  | S fuel =>
      if (myI <? zlen (q_desc a)) && (oI <? zlen (q_desc b)) then
        myCD ← at_ (q_desc a) myI;
        oCD ← at_ (q_desc b) oI;
        if t_cell myCD <? t_cell oCD then
          r ← (if keepMy then tcopy a myCD r else Ok r); tloop keepMy keepO equal fuel r (u64 (myI + 1)) oI
        else if t_cell oCD <? t_cell myCD then
          r ← (if keepO then tcopy b oCD r else Ok r); tloop keepMy keepO equal fuel r myI (u64 (oI + 1))
        else r ← equal myCD oCD r; tloop keepMy keepO equal fuel r (u64 (myI + 1)) (u64 (oI + 1))
      else Ok (r, myI, oI)
  end.

(** The cells of [c] from [i] on: the descriptions, then all nodes from the first tree on,
    then the pointers of the cells into the nodes and of the nodes to the indexes. *)
Fixpoint skip_treeless (ds : list tcell) (n : nat) : nat :=
  match ds with
  | [] => n
  | cd :: ds => if hasTree cd then n else skip_treeless ds (S n)
  end.
Definition moved (treeOffsetCorrection : Z) (cd : tcell) : tcell :=
  mkTC (t_full cd) (t_fetched cd) (t_cell cd) (t_pm cd) (u32 (t_begin cd - treeOffsetCorrection)) (u32 (t_end cd - treeOffsetCorrection)).
Fixpoint fix_cells (src : tcqr) (corr : Z) (n : nat) (r : tcqr) (i : nat) : result tcqr :=
  match n with
  | O => Ok r
  | S n =>
      cd ← at_ (q_desc r) (Z.of_nat i);
      if hasTree cd then
        let cd := moved corr cd in
        r ← copyFetchedIndices src (mkT (q_flags r) (<[i := cd]> (q_desc r)) (q_trees r) (q_fetched r) (q_hasFetchedNodes r)) cd;
        fix_cells src corr n r (S i)
      else fix_cells src corr n r (S i)
  end.
Definition trest (c : tcqr) (i : Z) (r : tcqr) : result tcqr :=
  if i <? zlen (q_desc c) then
    let rDescBegin := length (q_desc r) in
    let ds := drop (Z.to_nat i) (q_desc c) in
    let r := mkT (q_flags r) (q_desc r ++ ds) (q_trees r) (q_fetched r) (q_hasFetchedNodes r) in
    let k := skip_treeless ds 0 in
    if i + Z.of_nat k <? zlen (q_desc c) then
      first ← at_ (q_desc c) (i + Z.of_nat k);
      let corr := t_begin first - tsize r in
      ns ← slice (q_trees c) (t_begin first) (tsize c);
      let r := mkT (q_flags r) (q_desc r) (q_trees r ++ ns) (q_fetched r) (q_hasFetchedNodes r) in
      fix_cells c corr (length (q_desc r) - (rDescBegin + k)) r (rDescBegin + k)
    else Ok r
  else Ok r.

Definition fuel_of : nat := S (length (q_desc a) + length (q_desc b)).

Definition t_intersect_equal : thandler := fun my o r =>
  if negb (hasTree my) && negb (hasTree o) then
    match t_full my, t_full o with
    | false, false => build_op OIntersect a my b o r
    | true, false => Ok (push_tcell r o)
    | false, true => Ok (push_tcell r my)
    | true, true => Ok (push_tcell r (newTC true false (t_cell my) 0 notree notree))
    end
  else if t_full my then push_tree b o false (t_fetched my || t_fetched o) (t_cell my) 0 r
  else if t_full o then push_tree a my false (t_fetched my || t_fetched o) (t_cell o) 0 r
  else build_op OIntersect a my b o r.
Definition t_intersect : result tcqr :=
  throw_if (negb (flagCheck (q_flags a) (q_flags b))) AssertionFailed;;
  '(r, _, _) ← tloop false false t_intersect_equal fuel_of (t_new (q_flags a)) 0 0;
  throw_if (Z.min (zlen (q_desc a)) (zlen (q_desc b)) <? zlen (q_desc r)) AssertionFailed;;
  mret r.

Definition t_unite_equal : thandler := fun my o r =>
  if t_full my || t_full o then Ok (push_tcell r (newTC true false (t_cell my) 0 notree notree))
  else build_op OUnite a my b o r.
Definition t_unite : result tcqr :=
  throw_if (negb (flagCheck (q_flags a) (q_flags b))) AssertionFailed;;
  '(r, i, j) ← tloop true true t_unite_equal fuel_of (t_new (q_flags a)) 0 0;
  r ← (if i <? zlen (q_desc a) then trest a i r else trest b j r);
  throw_if (zlen (q_desc r) <? Z.max (zlen (q_desc a)) (zlen (q_desc b))) AssertionFailed;;
  mret r.

Definition t_diff_equal : thandler := fun my o r => if negb (t_full o) then build_op ODiff a my b o r else Ok r.
Definition t_diff : result tcqr :=
  throw_if (negb (flagCheck (q_flags a) (q_flags b))) AssertionFailed;;
  '(r, i, _) ← tloop true false t_diff_equal fuel_of (t_new (q_flags a)) 0 0;
  r ← trest a i r;
  throw_if (zlen (q_desc a) <? zlen (q_desc r)) AssertionFailed;;
  mret r.

Definition t_symDiff_equal : thandler := fun my o r =>
  if negb (t_full my) || negb (t_full o) then build_op OSymDiff a my b o r else Ok r.
Definition t_symDiff : result tcqr :=
  throw_if (negb (flagCheck (q_flags a) (q_flags b))) AssertionFailed;;
  '(r, i, j) ← tloop true true t_symDiff_equal fuel_of (t_new (q_flags a)) 0 0;
  r ← (if i <? zlen (q_desc a) then trest a i r else trest b j r);
  throw_if (zlen (q_desc a) + zlen (q_desc b) <? zlen (q_desc r)) AssertionFailed;;
  mret r.
End ops.

Fixpoint toFull_cells (a : tcqr) (ds : list tcell) (r : tcqr) : result tcqr :=
  match ds with
  | [] => Ok r
  | cd :: ds =>
      if hasTree cd then
        let b := tsize r in
        r ← copyTree a cd (push_node r ToFm);
        toFull_cells a ds (push_tcell r (newTC false (t_fetched cd) (t_cell cd) 0 b (tsize r)))
      else toFull_cells a ds (push_tcell r (newTC true false (t_cell cd) 0 notree notree))
  end.
Definition t_allToFull (a : tcqr) : result tcqr :=
  r ← toFull_cells a (q_desc a) (t_new (q_flags a));
  throw_if (negb (zlen (q_desc a) =? zlen (q_desc r))) AssertionFailed;;
  mret r.

(** * The constructors *)

(** A cell with an index of its own. *)
Definition push_fetched (r : tcqr) (cell : Z) (i : index) : tcqr :=
  let b := tsize r in
  let r := push_node r (FetchedLeaf (wrap 60 (zlen (q_fetched r)))) in
  let r := mkT (q_flags r) (q_desc r) (q_trees r) (q_fetched r ++ [i]) (q_hasFetchedNodes r) in
  push_tcell r (newTC false true cell 0 b (tsize r)).
Definition push_pm (r : tcqr) (cell : Z) (id : Z) : tcqr := push_tcell r (newTC false false cell id notree notree).
Definition push_fm (r : tcqr) (cell : Z) : tcqr := push_tcell r (newTC true false cell 0 notree notree).

Fixpoint t_merge {A} (add : tcqr -> Z -> A -> tcqr) (fuel : nat) (fm pm : list Z) (items : list A) (r : tcqr) : result tcqr :=
  match fuel with
  | O => Err OutOfFuel
  | S fuel =>
      match fm, pm with
      | f :: fm', p :: pm' =>
          if f <? p then t_merge add fuel fm' pm items (push_fm r f)
          else if f =? p then t_merge add fuel fm' pm' (tail items) (push_fm r f)
          else x ← at_ items 0; t_merge add fuel fm pm' (tail items) (add r p x)
      | f :: fm', [] => t_merge add fuel fm' [] items (push_fm r f)
      | [], p :: pm' => x ← at_ items 0; t_merge add fuel [] pm' (tail items) (add r p x)
      | [], [] => Ok r
      end
  end.
Definition t_new_ids (fm pm items : list Z) (flags : Z) : result tcqr :=
  t_merge push_pm (S (length fm + length pm)) fm pm items (t_new flags).
Definition t_new_idx (fm pm : list Z) (items : list index) (flags : Z) : result tcqr :=
  t_merge push_fetched (S (length fm + length pm)) fm pm items (mkT flags [] [] [] (negb (zlen pm =? 0))).
Definition t_new_full (fm : list Z) (flags : Z) : tcqr := fold_left push_fm fm (t_new flags).
Definition t_new_cell (full : bool) (cell cellIdxId flags : Z) : tcqr :=
  push_tcell (t_new flags) (newTC full false cell (if full then 0 else cellIdxId) notree notree).

(** From a query result. *)
Fixpoint t_from (ci : cell_info) (n : nat) (c : cqr) (i : Z) (r : tcqr) : result tcqr :=
  match n with
  | O => Ok r
  | S n =>
      cd ← at_ (m_desc c) i;
      r ← (if fetched cd then x ← idx_at c i; mret (push_fetched r (cellId cd) x)
           else if fullMatch cd then Ok (push_fm r (cellId cd))
           else p ← idxId ci c i; mret (push_pm r (cellId cd) p));
      t_from ci n c (u32 (i + 1)) r
  end.
Definition t_of_cqr (ci : cell_info) (c : cqr) : result tcqr := t_from ci (length (m_desc c)) c 0 (t_new (m_flags c)).

(** * Evaluation *)

Inductive frt := FT_NONE | FT_PM | FT_FM | FT_FETCHED | FT_EMPTY.
#[export] Instance frt_eq_dec : EqDecision frt.
Proof. solve_decision. Defined.

Section evaluation.
Context {St : Type} `{IndexStore St} (store : St) (ci : cell_info) (flags : Z).

Definition fmIdx (cell : Z) : result index :=
  if has_flag flags FF_CELL_LOCAL_ITEM_IDS then range 0 (ci_cellItemsCount ci cell) 1 (st_indexTypes store)
  else
    throw_if (negb (has_flag flags FF_CELL_GLOBAL_ITEM_IDS)) AssertionFailed;;
    st_at store (ci_cellItemsPtr ci cell).

(** The index of a child for an operation that needs one. *)
Definition child_idx (x : index) (pm : Z) (f : frt) : result index := if decide (f = FT_PM) then st_at store pm else Ok x.
Definition child_or_full (cell : Z) (x : index) (pm : Z) (f : frt) : result index :=
  if decide (f = FT_PM) then st_at store pm else if decide (f = FT_FM) then fmIdx cell else Ok x.
Definition fetched_or_empty (i : index) : frt := if 0 <? ii_size i then FT_FETCHED else FT_EMPTY.

(** The end of [flattenCell] for the operation [o]: the references [idx], [pm] are left as
    they are unless set. *)
Definition combine (o : op) (cell : Z) (aIdx : index) (pmA : Z) (frtA : frt) (bIdx : index) (pmB : Z) (frtB : frt) (idx : index) (pm : Z) :
    result (index * Z * frt) :=
  throw_if (bool_decide (frtA = FT_NONE) || bool_decide (frtB = FT_NONE)) AssertionFailed;;
  match o with
  | OIntersect =>
      if bool_decide (frtA = FT_FM) && bool_decide (frtB = FT_FM) then Ok (idx, pm, FT_FM)
      else if decide (frtA = FT_FM) then Ok (bIdx, pmB, frtB)
      else if decide (frtB = FT_FM) then Ok (aIdx, pmA, frtA)
      else
        aIdx ← child_idx aIdx pmA frtA;
        bIdx ← child_idx bIdx pmB frtB;
        i ← ii_intersect aIdx bIdx;
        mret (i, pm, fetched_or_empty i)
  | OUnite =>
      if bool_decide (frtA = FT_FM) || bool_decide (frtB = FT_FM) then Ok (idx, pm, FT_FM)
      else
        aIdx ← child_idx aIdx pmA frtA;
        bIdx ← child_idx bIdx pmB frtB;
        i ← ii_unite aIdx bIdx;
        mret (i, pm, FT_FETCHED)
  | ODiff =>
      if bool_decide (frtB = FT_FM) || bool_decide (frtA = FT_EMPTY) then Ok (idx, pm, FT_EMPTY)
      else
        aIdx ← child_or_full cell aIdx pmA frtA;
        bIdx ← child_idx bIdx pmB frtB;
        i ← ii_difference aIdx bIdx;
        mret (i, pm, fetched_or_empty i)
  | OSymDiff =>
      if bool_decide (frtA = FT_FM) && bool_decide (frtB = FT_FM) then Ok (idx, pm, FT_EMPTY)
      else
        aIdx ← child_or_full cell aIdx pmA frtA;
        bIdx ← child_or_full cell bIdx pmB frtB;
        i ← ii_symmetricDifference aIdx bIdx;
        mret (i, pm, fetched_or_empty i)
  end.

(** Local variables of a call: the index is empty, the id is whatever there was. *)
Context (junk : Z).

Fixpoint flattenCell (fuel : nat) (trees : list node) (fx : list index) (n : Z) (cell : Z) (idx : index) (pm : Z) : result (index * Z * frt) :=
  match fuel with
  | O => Err OutOfFuel
  | S fuel =>
      nd ← at_ trees n;
      match nd with
      | PmLeaf id => Ok (idx, id, FT_PM)
      | FetchedLeaf k => i ← match fx !! Z.to_nat k with Some i => Ok i | None => Err StdOutOfRange end; mret (i, pm, FT_FETCHED)
      | FmLeaf => Ok (idx, pm, FT_FM)
      | ToFm =>
          '(aIdx, pmA, frtA) ← flattenCell fuel trees fx (n + 1) cell None junk;
          mret (idx, pm, if bool_decide (frtA = FT_PM) || (bool_decide (frtA = FT_FETCHED) && negb (ii_size aIdx =? 0)) then FT_FM else frtA)
      | OpNode o childB =>
          '(aIdx, pmA, frtA) ← flattenCell fuel trees fx (n + 1) cell None junk;
          '(bIdx, pmB, frtB) ← flattenCell fuel trees fx (n + childB) cell None junk;
          combine o cell aIdx pmA frtA bIdx pmB frtB idx pm
      end
  end.

(** [toCQR] on one thread, as long as the progress function [pf] says to go on; the index
    and the id are those of the cell before. *)
Fixpoint toCQR_from (pf : Z -> bool) (a : tcqr) (ds : list tcell) (i : Z) (r : cqr) (idx : index) (pm : Z) : result cqr :=
  match ds with
  | [] => Ok r
  | cd :: ds =>
      if pf i then
        if hasTree cd then
          '(idx, pm, f) ← flattenCell (S (Z.to_nat (treeSize cd))) (q_trees a) (q_fetched a) (t_begin cd) (t_cell cd) idx pm;
          throw_if (bool_decide (f = FT_NONE)) AssertionFailed;;
          r ← match f with
              | FT_FM => Ok (push_desc r (newDesc true false (t_cell cd)))
              | FT_PM => push_cell r (SPtr pm) (newDesc false false (t_cell cd))
              | FT_FETCHED => if negb (ii_size idx =? 0) then push_cell r (SIdx idx) (newDesc false true (t_cell cd)) else Ok r
              | _ => Ok r
              end;
          toCQR_from pf a ds (i + 1) r idx pm
        else
          r ← (if t_full cd then Ok (push_desc r (newDesc true false (t_cell cd)))
               else push_cell r (SPtr (t_pm cd)) (newDesc false false (t_cell cd)));
          toCQR_from pf a ds (i + 1) r idx pm
      else Ok r
  end.
End evaluation.

Definition toCQR {St : Type} `{IndexStore St} (store : St) (ci : cell_info) (garbage : nat -> Z) (junk : Z) (pf : Z -> bool) (a : tcqr) : result cqr :=
  toCQR_from store ci (q_flags a) junk pf a (q_desc a) 0 (cqr_alloc garbage (q_flags a) (length (q_desc a))) None junk.

(** The operators of the handle. *)
Definition t_and (a b : tcqr) : result tcqr := if has_flag (q_flags a ||| q_flags b) FF_EMPTY then Ok (t_new FF_EMPTY) else t_intersect a b.
Definition t_plus (a b : tcqr) : result tcqr := if has_flag (q_flags a) FF_EMPTY then Ok b else t_unite a b.
Definition t_minus (a b : tcqr) : result tcqr := if has_flag (q_flags a ||| q_flags b) FF_EMPTY then Ok a else t_diff a b.
Definition t_xor (a b : tcqr) : result tcqr :=
  if has_flag (q_flags a) FF_EMPTY then Ok b else if has_flag (q_flags b) FF_EMPTY then Ok a else t_symDiff a b.
