(* ===== verification/TreedQueryOk.v ===== *)
(** Correctness of the query results with delayed operations ([TreedQuery]): what their
    trees stand for, that the set operations build trees for the sets, and that evaluating
    them gives the query result that [CellQuery] computes at once. *)

From S2P Require Import Prelude UtilMath PackUnpack Storage ByteArray ByteStream Bits CompactUintArray BitSets SetFuncs IndexOps ItemIndexDE ItemIndexRleDE ItemIndexNative ItemIndex ItemIndexFactory CellMerge CellQuery TreedQuery.

(** * Trees *)

Inductive tree := TPm (id : nat) | TFm | TFetched (l : list Z) | TTo (t : tree) | TOp (o : op) (t u : tree).

Definition op_prop (o : op) (x y : Prop) : Prop :=
  match o with OIntersect => x /\ y | OUnite => x \/ y | ODiff => x /\ ~ y | OSymDiff => x /\ ~ y \/ ~ x /\ y end.
#[export] Instance op_prop_dec o x y `{Decision x, Decision y} : Decision (op_prop o x y).
Proof. destruct o; cbn; apply _. Defined.

Lemma op_prop_ext o x x' y y' : (x <-> x') -> (y <-> y') -> op_prop o x y <-> op_prop o x' y'.
Proof. destruct o; cbn; tauto. Qed.

(** ** Trees as nodes *)

Inductive enc (fx : list index) : list node -> tree -> Prop :=
  | enc_pm id : enc fx [PmLeaf (Z.of_nat id)] (TPm id)
  | enc_fm : enc fx [FmLeaf] TFm
  | enc_fetched k i l : fx !! k = Some i -> ii_rep i l -> enc fx [FetchedLeaf (Z.of_nat k)] (TFetched l)
  | enc_to ns t : enc fx ns t -> enc fx (ToFm :: ns) (TTo t)
  | enc_op o ns ms t u : enc fx ns t -> enc fx ms u -> enc fx (OpNode o (1 + zlen ns) :: ns ++ ms) (TOp o t u).

(** Trees without fetched indexes. *)
Fixpoint plain (t : tree) : Prop :=
  match t with TFetched _ => False | TTo t => plain t | TOp _ t u => plain t /\ plain u | _ => True end.

Lemma enc_more fx ext ns t : enc fx ns t -> enc (fx ++ ext) ns t.
Proof. induction 1; econstructor; eauto. by apply lookup_app_l_Some. Qed.

Lemma enc_plain fx fx' ns t : enc fx ns t -> plain t -> enc fx' ns t.
Proof. induction 1; cbn; intros Hp; [constructor|constructor|done|constructor; auto|constructor; naive_solver]. Qed.

Lemma enc_pos fx ns t : enc fx ns t -> (0 < length ns)%nat.
Proof. destruct 1; cbn; lia. Qed.

Lemma adjust_app src n1 n2 dest : adjust src (n1 ++ n2) dest = '(a, d) ← adjust src n1 dest; '(b, d) ← adjust src n2 d; mret (a ++ b, d).
Proof.
  revert dest. induction n1 as [|n n1 IH]; intros dest; cbn [app adjust].
  - rewrite bind_ok_l. by destruct (adjust src n2 dest) as [[b d]|].
  - destruct n; try (rewrite IH; destruct (adjust src n1 dest) as [[a d]|]; [|done]; rewrite !bind_ok_l; by destruct (adjust src n2 d) as [[b d']|]).
    destruct (src !! Z.to_nat internalIdxId) as [i|]; [|done]. rewrite !bind_ok_l, IH.
    destruct (adjust src n1 (dest ++ [i])) as [[a d]|]; [|done]. rewrite !bind_ok_l. by destruct (adjust src n2 d) as [[b d']|].
Qed.

Lemma adjust_ok src ns t dest : enc src ns t -> zlen dest + zlen ns < 2 ^ 60 ->
  exists ns' ext, adjust src ns dest = Ok (ns', dest ++ ext) /\ length ns' = length ns /\ (length ext <= length ns)%nat /\ enc (dest ++ ext) ns' t.
Proof.
  intros He. revert dest. induction He as [id| |k i l Hk Hi|ns t He IH|o ns ms t u He1 IH1 He2 IH2]; intros dest Hn; cbn [adjust].
  - rewrite bind_ok_l. exists [PmLeaf (Z.of_nat id)], []. rewrite app_nil_r. do 2 (split; [done|]). split; [cbn; lia|constructor].
  - rewrite bind_ok_l. exists [FmLeaf], []. rewrite app_nil_r. do 2 (split; [done|]). split; [cbn; lia|constructor].
  - rewrite Nat2Z.id, Hk, !bind_ok_l. cbn [length] in Hn. rewrite wrap_small by (unfold fits; lia). exists [FetchedLeaf (zlen dest)], [i].
    do 2 (split; [done|]). split; [done|]. econstructor; [by rewrite list_lookup_middle|done].
  - cbn [length] in Hn. destruct (IH dest) as (ns' & ext & -> & Hl & Hle & He'); [lia|]. rewrite bind_ok_l. exists (ToFm :: ns'), ext.
    split; [done|]. cbn [length]. split; [lia|]. split; [lia|by constructor].
  - cbn [length] in Hn. rewrite length_app in Hn. destruct (IH1 dest) as (n1 & e1 & Ha & Hl1 & Hle1 & He1'); [lia|].
    destruct (IH2 (dest ++ e1)) as (n2 & e2 & Hb & Hl2 & Hle2 & He2'); [rewrite length_app; lia|].
    rewrite adjust_app, Ha, bind_ok_l, Hb, !bind_ok_l. exists (OpNode o (1 + zlen ns) :: n1 ++ n2), (e1 ++ e2). rewrite app_assoc.
    split; [done|]. cbn [length]. rewrite !length_app. split; [lia|]. split; [lia|]. rewrite <- Hl1. constructor; [by apply enc_more|done].
Qed.

Section ok.
Context {St : Type} {IS : IndexStore St} {ISO : IndexStoreOk St} (store : St) (ci : cell_info).
Context (L : list (list Z)) (F : Z) (Hdb : db_ok store ci L).
Abbreviation full := (full_items ci L F).

(** ** What trees stand for *)

Fixpoint sem (c : Z) (t : tree) : list Z :=
  match t with
  | TPm id => default [] (L !! id)
  | TFm => full c
  | TFetched l => l
  | TTo t => if decide (sem c t = []) then [] else full c
  | TOp o t u => filter (fun z => op_prop o (z ∈ sem c t) (z ∈ sem c u)) (full c)
  end.

(** Ids of the store are not those of empty indexes; all items are of the cell. *)
Fixpoint tree_ok (c : Z) (t : tree) : Prop :=
  match t with
  | TPm id => exists l, L !! id = Some l /\ l <> [] /\ forall z, z ∈ l -> z ∈ full c
  | TFm => True
  | TFetched l => sorted l /\ forall z, z ∈ l -> z ∈ full c
  | TTo t => tree_ok c t
  | TOp _ t u => tree_ok c t /\ tree_ok c u
  end.

Lemma filter_sorted (P : Z -> Prop) `{!forall z, Decision (P z)} l : sorted l -> sorted (filter P l).
Proof using.
  clear. induction 1 as [|x l Hs IH Hx]; [constructor|]. rewrite filter_cons. destruct (decide (P x)); [|done]. constructor; [done|].
  rewrite Forall_forall in Hx |- *. intros z Hz. apply list_elem_of_filter in Hz as [_ Hz]. by apply Hx.
Qed.

Lemma full_sorted c : 0 <= c < ci_cellSize ci -> sorted (full c).
Proof using Hdb. intros Hc. apply (full_items_ok store ci L F Hdb c Hc). Qed.

Lemma sem_ok c t : 0 <= c < ci_cellSize ci -> tree_ok c t -> sorted (sem c t) /\ forall z, z ∈ sem c t -> z ∈ full c.
Proof using Hdb.
  intros Hc. pose proof (full_sorted c Hc) as Hfs. induction t as [id| |l|t IH|o t IHt u IHu]; cbn [sem tree_ok].
  - intros (l & Hl & _ & Hsub). rewrite Hl. split; [apply (st_storable _ _ _ _ (db_store _ _ _ Hdb) Hl)|done].
  - done.
  - done.
  - intros Ht. destruct (decide _); [split; [constructor|by intros z ?%elem_of_nil]|done].
  - intros _. split; [by apply filter_sorted|]. intros z Hz. by apply list_elem_of_filter in Hz as [_ ?].
Qed.

Lemma elem_of_op c o t u z : 0 <= c < ci_cellSize ci -> tree_ok c t -> tree_ok c u ->
  z ∈ sem c (TOp o t u) <-> op_prop o (z ∈ sem c t) (z ∈ sem c u).
Proof using Hdb.
  intros Hc Ht Hu. cbn [sem]. rewrite list_elem_of_filter. split; [by intros []|]. intros Ho. split; [done|].
  destruct (sem_ok c t Hc Ht) as [_ Hst], (sem_ok c u Hc Hu) as [_ Hsu]. destruct o; cbn in Ho; naive_solver.
Qed.

(** ** Evaluation *)

(** What [flattenCell] may answer; the index stays as it was at most when nothing is left. *)
Definition flat (c : Z) (l : list Z) (idx idx' : index) (pm' : Z) (f : frt) : Prop :=
  match f with
  | FT_FM => l = full c
  | FT_PM => exists id, pm' = Z.of_nat id /\ L !! id = Some l /\ l <> []
  | FT_FETCHED => ii_rep idx' l \/ (idx' = idx /\ l = [])
  | FT_EMPTY => l = [] /\ (ii_rep idx' l \/ idx' = idx)
  | FT_NONE => False
  end.

Context (HFk : has_flag F FF_CELL_LOCAL_ITEM_IDS = false -> has_flag F FF_CELL_GLOBAL_ITEM_IDS = true).

Lemma fmIdx_ok c : 0 <= c < ci_cellSize ci -> exists i, fmIdx store ci F c = Ok i /\ ii_rep i (full c).
Proof using Hdb HFk.
  intros Hc. destruct (fullIdx_ok store ci L F Hdb c Hc) as (i & Hi & Hrep). exists i. split; [|done]. unfold fmIdx, fullIdx in *.
  destruct (has_flag F FF_CELL_LOCAL_ITEM_IDS); [done|]. rewrite HFk by done. cbn [negb throw_if]. by rewrite bind_ok_l.
Qed.

(** The children's indexes. *)
Lemma child_or_full_ok c l x pm f : 0 <= c < ci_cellSize ci -> flat c l None x pm f ->
  exists i, child_or_full store ci F c x pm f = Ok i /\ ii_rep i l.
Proof using Hdb HFk.
  intros Hc Hf. unfold child_or_full. destruct f; cbn in Hf; try done.
  - destruct Hf as (id & -> & Hl & _). rewrite decide_True by done. apply (st_at_ok _ _ _ _ (db_store _ _ _ Hdb) Hl).
  - rewrite decide_False, decide_True by done. subst l. by apply fmIdx_ok.
  - rewrite !decide_False by done. exists x. split; [done|]. by destruct Hf as [?|[-> ->]].
  - rewrite !decide_False by done. exists x. split; [done|]. by destruct Hf as [-> [?| ->]].
Qed.

Lemma child_idx_ok c l x pm f : f <> FT_FM -> 0 <= c < ci_cellSize ci -> flat c l None x pm f ->
  exists i, child_idx store x pm f = Ok i /\ ii_rep i l.
Proof using Hdb HFk.
  intros Hn Hc Hf. destruct (child_or_full_ok c l x pm f Hc Hf) as (i & Hi & Hrep). exists i. split; [|done].
  unfold child_or_full, child_idx in *. destruct (decide (f = FT_PM)); [done|]. by rewrite decide_False in Hi.
Qed.

Lemma fetched_or_empty_ok c l idx i pm : ii_rep i l -> flat c l idx i pm (fetched_or_empty i).
Proof using.
  intros Hi. unfold fetched_or_empty. rewrite (ii_size_ok i l Hi). destruct (Z.ltb_spec 0 (zlen l)); cbn; [by left|].
  assert (l = []) as -> by (destruct l; [done|cbn [length] in *; lia]). split; [done|by left].
Qed.

Lemma small_lists c l k : 0 <= c < ci_cellSize ci -> sorted l -> sorted k -> (forall z, z ∈ l -> z ∈ full c) -> (forall z, z ∈ k -> z ∈ full c) ->
  zlen l + zlen k < 2 ^ 29.
Proof using Hdb.
  intros Hc Hl Hk Hsl Hsk. pose proof (sub_storable store ci L F Hdb c l Hc Hl Hsl) as (_ & _ & ?).
  pose proof (sub_storable store ci L F Hdb c k Hc Hk Hsk) as (_ & _ & ?). lia.
Qed.

(** The set operation on the indexes of the children. *)
Lemma op_index c o t u x y : 0 <= c < ci_cellSize ci -> tree_ok c t -> tree_ok c u -> ii_rep x (sem c t) -> ii_rep y (sem c u) ->
  exists r, (match o with OIntersect => ii_intersect | OUnite => ii_unite | ODiff => ii_difference | OSymDiff => ii_symmetricDifference end) x y = Ok r /\
    ii_rep r (sem c (TOp o t u)).
Proof using Hdb.
  intros Hc Ht Hu Hx Hy. destruct (sem_ok c t Hc Ht) as [Hst Hsubt], (sem_ok c u Hc Hu) as [Hsu Hsubu].
  destruct (ii_op_ok x y _ _ Hx Hy (small_lists c _ _ Hc Hst Hsu Hsubt Hsubu)) as ((r1 & E1 & H1) & (r2 & E2 & H2) & (r3 & E3 & H3) & (r4 & E4 & H4)).
  assert (forall P r, ii_rep r P -> (forall z, z ∈ P <-> op_prop o (z ∈ sem c t) (z ∈ sem c u)) -> ii_rep r (sem c (TOp o t u))) as Hext.
  { intros P r HP Hin. rewrite <- (sorted_ext P (sem c (TOp o t u))); [done|by eapply ii_rep_sorted|by apply sem_ok|].
    intros z. by rewrite Hin, elem_of_op. }
  assert (forall f z, op_wf f -> z ∈ merge f (sem c t) (sem c u) <-> keeps f (z ∈ sem c t) (z ∈ sem c u)) as Hm by (intros f z Hw; apply (merge_spec f _ _ Hw Hst Hsu)).
  destruct o; eexists; (split; [eassumption|]); eapply Hext; try eassumption; intros z; rewrite Hm by done;
    unfold keeps; cbn; destruct (decide (z ∈ sem c t)), (decide (z ∈ sem c u)); naive_solver.
Qed.

Lemma combine_ok c o t u xA pA fA xB pB fB idx pm : 0 <= c < ci_cellSize ci -> tree_ok c t -> tree_ok c u ->
  flat c (sem c t) None xA pA fA -> flat c (sem c u) None xB pB fB ->
  exists idx' pm' f, combine store ci F o c xA pA fA xB pB fB idx pm = Ok (idx', pm', f) /\ flat c (sem c (TOp o t u)) idx idx' pm' f.
Proof using Hdb HFk.
  intros Hc Ht Hu HA HB. destruct (sem_ok c t Hc Ht) as [Hst Hsubt], (sem_ok c u Hc Hu) as [Hsu Hsubu].
  pose proof (fun z => elem_of_op c o t u z Hc Ht Hu) as Hin. assert (tree_ok c (TOp o t u)) as Htu by done. destruct (sem_ok c _ Hc Htu) as [Hs _].
  assert (fA <> FT_NONE /\ fB <> FT_NONE) as [HnA HnB] by (split; intros ->; [exact HA|exact HB]). unfold combine.
  rewrite (bool_decide_false (fA = FT_NONE)), (bool_decide_false (fB = FT_NONE)) by done. cbn [orb throw_if]. rewrite bind_ok_l.
  assert (forall l, sorted l -> (forall z, z ∈ l <-> op_prop o (z ∈ sem c t) (z ∈ sem c u)) -> sem c (TOp o t u) = l) as Hext.
  { intros l Hl Hll. apply sorted_ext; [done|done|]. intros z. by rewrite Hin, Hll. }
  assert (sorted (@nil Z)) as Hnil by constructor. assert (forall z : Z, z ∉ []) as Hno by (intros z; apply not_elem_of_nil).
  pose proof (child_or_full_ok c _ xA pA fA Hc HA) as HfA. pose proof (child_or_full_ok c _ xB pB fB Hc HB) as HfB.
  pose proof (child_idx_ok c (sem c t) xA pA fA) as HiA. pose proof (child_idx_ok c (sem c u) xB pB fB) as HiB.
  destruct o.
  - destruct (decide (fA = FT_FM)) as [->|NA]; [cbn in HA|rewrite (bool_decide_false (fA = FT_FM)) by done]; cbn [andb].
    + rewrite (bool_decide_true (FT_FM = FT_FM)) by done. destruct (decide (fB = FT_FM)) as [->|NB]; [rewrite bool_decide_true by done|rewrite (bool_decide_false (fB = FT_FM)) by done]; cbn [andb].
      * eexists _, _, _. split; [done|]. cbn [flat] in *. apply Hext; [by apply full_sorted|]. intros z. cbn. rewrite HA, HB. tauto.
      * eexists _, _, _. split; [done|]. rewrite (Hext (sem c u)); [|done|intros z; cbn; rewrite HA; naive_solver].
        destruct fB; cbn in *; try done; naive_solver.
    + destruct (decide (fB = FT_FM)) as [->|NB].
      * eexists _, _, _. split; [done|]. cbn in HB. rewrite (Hext (sem c t)); [|done|intros z; cbn; rewrite HB; naive_solver].
        destruct fA; cbn in *; try done; naive_solver.
      * destruct HiA as (x & -> & Hx); [done|done|done|]. destruct HiB as (y & -> & Hy); [done|done|done|]. rewrite !bind_ok_l.
        destruct (op_index c OIntersect t u x y Hc Ht Hu Hx Hy) as (r & -> & Hr). rewrite bind_ok_l. eexists _, _, _. split; [done|]. by apply fetched_or_empty_ok.
  - destruct (bool_decide (fA = FT_FM) || bool_decide (fB = FT_FM)) eqn:E.
    + eexists _, _, _. split; [done|]. cbn [flat]. apply Hext; [by apply full_sorted|]. intros z. cbn. apply orb_true_iff in E as [E|E]; apply bool_decide_eq_true in E as ->; cbn in *.
      * rewrite HA. naive_solver.
      * rewrite HB. naive_solver.
    + apply orb_false_iff in E as [EA EB]. apply bool_decide_eq_false in EA, EB.
      destruct HiA as (x & -> & Hx); [done|done|done|]. destruct HiB as (y & -> & Hy); [done|done|done|]. rewrite !bind_ok_l.
      destruct (op_index c OUnite t u x y Hc Ht Hu Hx Hy) as (r & -> & Hr). rewrite bind_ok_l. eexists _, _, _. split; [done|]. by left.
  - destruct (bool_decide (fB = FT_FM) || bool_decide (fA = FT_EMPTY)) eqn:E.
    + eexists _, _, _. split; [done|]. cbn [flat]. split; [|by right]. apply Hext; [done|]. intros z. cbn.
      apply orb_true_iff in E as [E|E]; apply bool_decide_eq_true in E as ->; cbn in *; [rewrite HB|destruct HA as [-> _]]; specialize (Hno z); naive_solver.
    + apply orb_false_iff in E as [EB EA]. apply bool_decide_eq_false in EA, EB.
      destruct HfA as (x & -> & Hx). destruct HiB as (y & -> & Hy); [done|done|done|]. rewrite !bind_ok_l.
      destruct (op_index c ODiff t u x y Hc Ht Hu Hx Hy) as (r & -> & Hr). rewrite bind_ok_l. eexists _, _, _. split; [done|]. by apply fetched_or_empty_ok.
  - destruct (bool_decide (fA = FT_FM) && bool_decide (fB = FT_FM)) eqn:E.
    + apply andb_true_iff in E as [EA EB]. apply bool_decide_eq_true in EA as ->, EB as ->. cbn in HA, HB. eexists _, _, _. split; [done|]. cbn [flat]. split; [|by right].
      apply Hext; [done|]. intros z. cbn. rewrite HA, HB. specialize (Hno z). tauto.
    + destruct HfA as (x & -> & Hx). destruct HfB as (y & -> & Hy). rewrite !bind_ok_l.
      destruct (op_index c OSymDiff t u x y Hc Ht Hu Hx Hy) as (r & -> & Hr). rewrite bind_ok_l. eexists _, _, _. split; [done|]. by apply fetched_or_empty_ok.
Qed.

(** [flattenCell] ends, stays inside the tree and gives what the tree stands for. *)
Lemma flatten_ok junk fx ns t c : enc fx ns t -> tree_ok c t -> 0 <= c < ci_cellSize ci -> forall pre post fuel idx pm, (length ns <= fuel)%nat ->
  exists idx' pm' f, flattenCell store ci F junk fuel (pre ++ ns ++ post) fx (zlen pre) c idx pm = Ok (idx', pm', f) /\ flat c (sem c t) idx idx' pm' f.
Proof using Hdb HFk.
  intros He. induction He as [id| |k i l Hk Hi|ns t He IH|o ns ms t u He1 IH1 He2 IH2]; intros Ht Hc pre post fuel idx pm Hf;
    (destruct fuel as [|fuel]; [cbn in Hf; lia|]); cbn [flattenCell app]; 
    (match goal with |- context [at_ (pre ++ ?n :: ?r) _] => rewrite (at_ok (pre ++ n :: r) (length pre) n), bind_ok_l by (by apply list_lookup_middle) end).
  - cbn [tree_ok] in Ht. destruct Ht as (l & Hl & Hne & _). eexists _, _, _. split; [done|]. cbn [flat sem]. exists id. by rewrite Hl.
  - eexists _, _, _. done.
  - rewrite Nat2Z.id, Hk, bind_ok_l. eexists _, _, _. split; [done|]. by left.
  - cbn [length] in Hf. destruct (IH Ht Hc (pre ++ [ToFm]) post fuel None junk) as (x & p & f & E & Hfl); [lia|].
    rewrite <- app_assoc, length_app in E. cbn [app length] in E. replace (Z.of_nat (length pre + 1)) with (zlen pre + 1) in E by lia. rewrite E, bind_ok_l.
    eexists _, _, _. split; [reflexivity|]. cbn [sem]. destruct f; cbn in Hfl |- *; try done.
    + destruct Hfl as (id & _ & _ & Hne). by rewrite decide_False.
    + rewrite Hfl. by case_decide.
    + destruct Hfl as [Hr|[-> Hr]].
      * rewrite (ii_size_ok x _ Hr). destruct (Z.eqb_spec (zlen (sem c t)) 0) as [E0|E0]; cbn.
        -- assert (sem c t = []) as -> by (destruct (sem c t); [done|cbn [length] in E0; lia]). right. by rewrite decide_True.
        -- rewrite decide_False; [done|]. intros E1. by rewrite E1 in E0.
      * cbn. right. by rewrite Hr, decide_True.
    + destruct Hfl as [-> _]. rewrite decide_True by done. split; [done|by right].
  - cbn [length] in Hf. rewrite length_app in Hf. destruct Ht as [Ht Hu].
    destruct (IH1 Ht Hc (pre ++ [OpNode o (1 + zlen ns)]) (ms ++ post) fuel None junk) as (xA & pA & fA & EA & HA); [lia|].
    rewrite <- app_assoc, length_app in EA. cbn [app length] in EA. replace (Z.of_nat (length pre + 1)) with (zlen pre + 1) in EA by lia.
    destruct (IH2 Hu Hc (pre ++ OpNode o (1 + zlen ns) :: ns) post fuel None junk) as (xB & pB & fB & EB & HB); [lia|].
    rewrite <- app_assoc, length_app in EB. cbn [app length] in EB. replace (Z.of_nat (length pre + S (length ns))) with (zlen pre + (1 + zlen ns)) in EB by lia.
    rewrite <- !app_assoc, EA, bind_ok_l, EB, bind_ok_l. by apply combine_ok.
Qed.

(** ** What a result stands for *)

Definition tree_of (ts : list node) (d : tcell) : list node := take (Z.to_nat (t_end d - t_begin d)) (drop (Z.to_nat (t_begin d)) ts).
Definition inside (ts : list node) (d : tcell) : Prop := 0 <= t_begin d < t_end d /\ t_end d <= zlen ts /\ zlen ts < 2 ^ 32.

(** A cell in the nodes [ts] with the indexes [fx]. *)
Record tcell_ok (ts : list node) (fx : list index) (d : tcell) (cl : Z * list Z) : Prop := {
  tc_cell : t_cell d = fst cl;
  tc_id : 0 <= t_cell d < ci_cellSize ci;
  tc_tree : if hasTree d then
      t_full d = false /\ inside ts d /\
      exists t, enc fx (tree_of ts d) t /\ tree_ok (t_cell d) t /\ sem (t_cell d) t = snd cl /\ (t_fetched d = false -> plain t)
    else t_fetched d = false /\
      if t_full d then snd cl = full (t_cell d)
      else exists id, t_pm d = Z.of_nat id /\ tree_ok (t_cell d) (TPm id) /\ sem (t_cell d) (TPm id) = snd cl;
}.

(** The trees come in the order of the cells, from [lo] to [hi]. *)
Fixpoint layout (lo : Z) (ds : list tcell) (hi : Z) : Prop :=
  match ds with
  | [] => lo <= hi
  | d :: ds => if hasTree d then lo <= t_begin d < t_end d /\ layout (t_end d) ds hi else layout lo ds hi
  end.

Record tcells_rep (r : tcqr) (R : cells) : Prop := {
  tr_flags : q_flags r = F;
  tr_cells : Forall2 (tcell_ok (q_trees r) (q_fetched r)) (q_desc r) R;
  tr_layout : layout 0 (q_desc r) (tsize r);
  tr_fetched : zlen (q_fetched r) <= tsize r;
}.
Definition treed_rep (r : tcqr) (R : cells) : Prop := tcells_rep r R /\ sorted (keys R) /\ tsize r < 2 ^ 32.

Lemma hasTree_size ts d : inside ts d -> hasTree d = true /\ treeSize d = t_end d - t_begin d.
Proof using.
  intros (H1 & H2 & H3). unfold hasTree, treeSize. rewrite wrap_small by (unfold fits; lia). split; [|done].
  apply negb_true_iff, Z.eqb_neq. lia.
Qed.

Lemma inside_len ts d : inside ts d -> zlen (tree_of ts d) = t_end d - t_begin d.
Proof using. intros (H1 & H2 & H3). unfold tree_of. rewrite length_take, length_drop. lia. Qed.

Lemma slice_ok ts d : inside ts d -> slice ts (t_begin d) (t_end d) = Ok (tree_of ts d).
Proof using. intros (H1 & H2 & H3). unfold slice. rewrite !(proj2 (Z.leb_le _ _)) by lia. done. Qed.

Lemma tree_of_app ts ext d : inside ts d -> tree_of (ts ++ ext) d = tree_of ts d.
Proof using.
  intros (H1 & H2 & H3). unfold tree_of. rewrite drop_app_le by lia. rewrite take_app_le; [done|]. rewrite length_drop. lia.
Qed.

(** More nodes and indexes do not change what a cell stands for. *)
Lemma tcell_ok_more ts fx d cl ext more : tcell_ok ts fx d cl -> zlen (ts ++ ext) < 2 ^ 32 -> tcell_ok (ts ++ ext) (fx ++ more) d cl.
Proof using.
  intros [Hc Hid Ht] Hl. split; [done|done|]. destruct (hasTree d); [|done]. destruct Ht as (Hf & Hin & t & He & Hok & Hsem & Hp).
  split; [done|]. split; [destruct Hin as (? & ? & _); split; [done|]; rewrite length_app in *; lia|]. exists t. rewrite tree_of_app by done. split; [by apply enc_more|done].
Qed.

Lemma layout_le lo ds hi hi' : layout lo ds hi -> hi <= hi' -> layout lo ds hi'.
Proof using. revert lo. induction ds as [|d ds IH]; intros lo; cbn; [lia|]. destruct (hasTree d); [intros []; split; [done|by apply IH]|intros; by apply IH]. Qed.

Lemma layout_app lo ds hi es : layout lo (ds ++ es) hi <-> exists mid, layout lo ds mid /\ layout mid es hi.
Proof using.
  revert lo. induction ds as [|d ds IH]; intros lo; cbn [app layout].
  - split; [intros He; exists lo; split; [lia|done]|]. intros (mid & Hl & He). clear -Hl He. revert lo mid Hl He.
    induction es as [|e es IH]; intros lo mid Hl; cbn; [lia|]. destruct (hasTree e); [intros []; split; [lia|done]|by apply IH].
  - destruct (hasTree d); rewrite IH; naive_solver.
Qed.

Lemma layout_bound lo ds hi : layout lo ds hi -> lo <= hi.
Proof using. revert lo. induction ds as [|d ds IH]; intros lo; cbn; [done|]. destruct (hasTree d); [intros [? ?%IH]; lia|apply IH]. Qed.

(** A cell at the end, with a tree at the end. *)
Lemma push_end r R ns ext d cl : tcells_rep r R -> tsize r + zlen ns < 2 ^ 32 -> zlen ext <= zlen ns ->
  tcell_ok (q_trees r ++ ns) (q_fetched r ++ ext) d cl -> (hasTree d = true -> t_begin d = tsize r /\ t_end d = tsize r + zlen ns) ->
  forall h, tcells_rep (mkT (q_flags r) (q_desc r ++ [d]) (q_trees r ++ ns) (q_fetched r ++ ext) h) (R ++ [cl]).
Proof using.
  intros [Hf Hcs Hl Hx] Hn He Hd Ht h. unfold tsize in *. split; cbn [q_flags q_desc q_trees q_fetched].
  - done.
  - apply Forall2_app; [|by constructor]. eapply Forall2_impl; [exact Hcs|]. intros. apply tcell_ok_more; [done|]. rewrite length_app. lia.
  - unfold tsize. cbn [q_trees]. apply layout_app. exists (zlen (q_trees r)). split; [done|]. cbn [layout]. rewrite length_app.
    pose proof (tc_tree _ _ _ _ Hd) as Htree. destruct (hasTree d); [|lia]. destruct Htree as (_ & (? & ? & _) & _). destruct (Ht eq_refl) as [-> ->]. lia.
  - unfold tsize. cbn [q_trees]. rewrite !length_app. lia.
Qed.

Lemma drop_cur {A} (l ns : list A) k : drop (length l) (l ++ ns) = ns /\ take (length ns + k) ns = ns.
Proof using. clear. rewrite drop_app_length. split; [done|]. apply take_ge. lia. Qed.

Lemma tree_at_end ts ns d : t_begin d = zlen ts -> t_end d = zlen ts + zlen ns -> tree_of (ts ++ ns) d = ns.
Proof using.
  intros Hb He. unfold tree_of. rewrite Hb, He, Nat2Z.id, drop_app_length. apply take_ge. lia.
Qed.

(** The number of nodes an operand needs in a tree, at most. *)
Definition cost (d : tcell) : Z := (if hasTree d then t_end d - t_begin d else 0) + 1.

(** Copying the tree of a cell of the operand [src] to nodes with the indexes [fx]. *)
Lemma copy_tree_ok src d cl r : tcell_ok (q_trees src) (q_fetched src) d cl -> hasTree d = true -> zlen (q_fetched r) <= tsize r -> tsize r + cost d <= 2 ^ 32 ->
  exists ns ext h, copyTree src d r = Ok (mkT (q_flags r) (q_desc r) (q_trees r ++ ns) (q_fetched r ++ ext) h) /\
    zlen ns + 1 = cost d /\ zlen ns = treeSize d /\ zlen ext <= zlen ns /\
    exists t, enc (q_fetched r ++ ext) ns t /\ tree_ok (t_cell d) t /\ sem (t_cell d) t = snd cl /\ (t_fetched d = false -> plain t).
Proof using.
  intros [Hc Hid Ht] Hh Hx Hn. unfold cost in *. rewrite Hh in *. destruct Ht as (_ & Hin & t & He & Hok & Hsem & Hp).
  unfold copyTree. rewrite (slice_ok _ _ Hin), bind_ok_l. pose proof (inside_len _ _ Hin) as Hlen. destruct (hasTree_size _ _ Hin) as [_ Hts].
  destruct (t_fetched d) eqn:Hf.
  - destruct (adjust_ok _ _ _ (q_fetched r) He) as (ns' & ext & -> & Hl & Hle & He'); [lia|]. rewrite bind_ok_l.
    exists ns', ext, true. split; [done|]. split; [lia|]. split; [lia|]. split; [lia|]. by exists t.
  - exists (tree_of (q_trees src) d), [], (q_hasFetchedNodes r). rewrite app_nil_r. split; [done|]. split; [lia|]. split; [lia|]. split; [cbn; lia|].
    exists t. split; [by apply (enc_plain (q_fetched src)), Hp|done].
Qed.

Lemma cost_pos ts fx d cl : tcell_ok ts fx d cl -> 1 <= cost d.
Proof using. intros [_ _ Ht]. unfold cost. destruct (hasTree d); [|lia]. destruct Ht as (_ & (? & _) & _). lia. Qed.

(** An operand of a new tree. *)
Lemma operand_ok src d cl r : tcell_ok (q_trees src) (q_fetched src) d cl -> zlen (q_fetched r) <= tsize r -> tsize r + cost d <= 2 ^ 32 ->
  exists ns ext h, operand src d r = Ok (mkT (q_flags r) (q_desc r) (q_trees r ++ ns) (q_fetched r ++ ext) h) /\
    zlen ns <= cost d /\ zlen ns = (if hasTree d then treeSize d else 1) /\ zlen ext <= zlen ns /\
    exists t, enc (q_fetched r ++ ext) ns t /\ tree_ok (t_cell d) t /\ sem (t_cell d) t = snd cl /\ (t_fetched d = false -> plain t).
Proof using Hdb.
  intros Hd Hx Hn. unfold operand. destruct (hasTree d) eqn:Hh.
  - destruct (copy_tree_ok src d cl r Hd Hh Hx Hn) as (ns & ext & h & -> & H1 & H2 & H3 & H4). exists ns, ext, h. split; [done|]. split; [lia|]. by split.
  - destruct Hd as [Hc Hid Ht]. unfold cost in *. rewrite Hh in *. destruct Ht as [Hff Ht]. unfold push_node.
    eexists [_], [], (q_hasFetchedNodes r). rewrite app_nil_r. split; [done|]. do 3 (split; [cbn; lia|]).
    destruct (t_full d); [exists TFm; split; [constructor|done]|]. destruct Ht as (id & -> & Hok & Hsem).
    cbn [tree_ok] in Hok. pose proof Hok as (l & Hl & _). pose proof (lookup_lt_Some _ _ _ Hl). pose proof (st_few _ _ (db_store _ _ _ Hdb)).
    rewrite (wrap_small 32) by (unfold fits; lia). exists (TPm id). split; [constructor|done].
Qed.

(** [r] stands for [R] and may grow by [n] nodes. *)
Definition growing (r : tcqr) (R : cells) (n : Z) : Prop := tcells_rep r R /\ tsize r + n < 2 ^ 32.

Lemma growing_less r R n k : growing r R n -> k <= n -> growing r R k.
Proof using. intros [Hr Hn] Hk. split; [done|lia]. Qed.

Lemma new_cell_ok full fet c pm b e : 0 <= c < ci_cellSize ci -> fits 32 b -> fits 32 e -> t_cell (newTC full fet c pm b e) = c /\
  t_begin (newTC full fet c pm b e) = b /\ t_end (newTC full fet c pm b e) = e.
Proof using Hdb.
  intros Hc Hb He. pose proof (db_cells _ _ _ Hdb). unfold newTC. cbn [t_cell t_begin t_end].
  rewrite (wrap_small 30 c), (wrap_small 32 b), (wrap_small 32 e) by (done || unfold fits; lia). done.
Qed.

(** A new cell for the nodes just written. *)
Lemma push_new_ok r R ns ext h c t fet pm n : tcells_rep r R -> 0 < zlen ns -> tsize r + zlen ns + n < 2 ^ 32 -> 0 <= n -> zlen ext <= zlen ns -> 0 <= c < ci_cellSize ci ->
  enc (q_fetched r ++ ext) ns t -> tree_ok c t -> (fet = false -> plain t) ->
  growing (push_tcell (mkT (q_flags r) (q_desc r) (q_trees r ++ ns) (q_fetched r ++ ext) h)
    (newTC false fet c pm (tsize r) (zlen (q_trees r ++ ns)))) (R ++ [(c, sem c t)]) n.
Proof using Hdb.
  intros Hr Hns Hn Hn0 Hext Hc He Hok Hp. unfold push_tcell. cbn [q_flags q_desc q_trees q_fetched q_hasFetchedNodes]. rewrite length_app.
  replace (Z.of_nat (length (q_trees r) + length ns)) with (tsize r + zlen ns) by (unfold tsize; lia).
  destruct (new_cell_ok false fet c pm (tsize r) (tsize r + zlen ns) Hc) as (E1 & E2 & E3); [unfold fits, tsize in *; lia|unfold fits, tsize in *; lia|].
  assert (inside (q_trees r ++ ns) (newTC false fet c pm (tsize r) (tsize r + zlen ns))) as Hin.
  { split; [rewrite E2, E3; unfold tsize; lia|]. rewrite E3, length_app. unfold tsize in *. lia. }
  destruct (hasTree_size _ _ Hin) as [Hh _]. split; [|unfold tsize in *; cbn [q_trees]; rewrite length_app; lia].
  apply push_end; try done; [lia|]. split; [done|by rewrite E1|]. rewrite Hh, E1. split; [done|]. split; [done|]. exists t. by rewrite tree_at_end.
Qed.

Lemma growing_fetched r R n : growing r R n -> zlen (q_fetched r) <= tsize r.
Proof using. intros [Hr _]. apply Hr. Qed.

(** A tree of an operation. *)
Lemma build_op_ok o a ca b cb c l k r R n : tcell_ok (q_trees a) (q_fetched a) ca (c, l) -> tcell_ok (q_trees b) (q_fetched b) cb (c, k) ->
  0 <= n -> growing r R (cost ca + cost cb + 1 + n) ->
  exists r' l', build_op o a ca b cb r = Ok r' /\ growing r' (R ++ [(c, l')]) n /\ forall z, z ∈ l' <-> op_prop o (z ∈ l) (z ∈ k).
Proof using Hdb.
  intros Ha Hb Hn0 [Hr Hn]. pose proof (tr_fetched _ _ Hr) as Hx. pose proof (cost_pos _ _ _ _ Ha) as Hpa. pose proof (cost_pos _ _ _ _ Hb) as Hpb.
  pose proof (tc_cell _ _ _ _ Ha) as Hca. pose proof (tc_cell _ _ _ _ Hb) as Hcb. pose proof (tc_id _ _ _ _ Ha) as Hid. cbn [fst] in *. unfold tsize in *.
  unfold build_op, push_node.
  destruct (operand_ok a ca (c, l) (mkT (q_flags r) (q_desc r) (q_trees r ++ [OpNode o 0]) (q_fetched r) (q_hasFetchedNodes r)) Ha) as
    (n1 & e1 & h1 & E1 & Hn1 & Hl1 & He1 & t & Ht & Hokt & Hst & Hpt); unfold tsize in *; cbn [q_flags q_desc q_trees q_fetched q_hasFetchedNodes] in *;
    [rewrite length_app; cbn [length]; lia|rewrite length_app; cbn [length]; lia|]. rewrite E1, bind_ok_l.
  rewrite <- app_assoc. cbn [app]. unfold set_childB at 1. cbn [q_flags q_desc q_trees q_fetched q_hasFetchedNodes].
  rewrite list_lookup_middle by done. rewrite insert_app_r_alt by lia. rewrite Nat.sub_diag. cbn [insert list_insert]. rewrite bind_ok_l.
  replace (if hasTree ca then 1 + treeSize ca else 2) with (1 + zlen n1) by (rewrite Hl1; by destruct (hasTree ca)).
  destruct (operand_ok b cb (c, k) (mkT (q_flags r) (q_desc r) (q_trees r ++ OpNode o (1 + zlen n1) :: n1) (q_fetched r ++ e1) h1) Hb) as
    (n2 & e2 & h2 & E2 & Hn2 & Hl2 & He2 & u & Hu & Hoku & Hsu & Hpu); unfold tsize in *; cbn [q_flags q_desc q_trees q_fetched q_hasFetchedNodes] in *;
    [rewrite !length_app; cbn [length]; lia|rewrite !length_app; cbn [length]; lia|]. rewrite E2, bind_ok_l. rewrite <- !app_assoc in *. cbn [app].
  rewrite Hca in *. rewrite Hcb in *. cbn [snd] in *. subst l k.
  assert (tree_ok c (TOp o t u)) as Htu by done. eexists _, (sem c (TOp o t u)). split; [reflexivity|]. split; [|intros z; by apply elem_of_op].
  apply push_new_ok; try done.
  - cbn [length]. rewrite length_app. unfold tsize. lia.
  - cbn [length]. rewrite !length_app. lia.
  - rewrite app_assoc. constructor; [by apply enc_more|by rewrite <- app_assoc].
  - intros [Hfa Hfb]%orb_false_iff. cbn [plain]. auto.
Qed.

Lemma tcell_full ts fx d cl : tcell_ok ts fx d cl -> t_full d = true -> hasTree d = false /\ t_fetched d = false /\ snd cl = full (t_cell d).
Proof using. intros [_ _ Ht] Hf. destruct (hasTree d); [by destruct Ht as [? _]; congruence|]. destruct Ht as [Hff Ht]. by rewrite Hf in Ht. Qed.

(** A cell with the tree of another one. *)
Lemma push_tree_ok src d c l fet pm r R n : tcell_ok (q_trees src) (q_fetched src) d (c, l) -> hasTree d = true -> (fet = false -> t_fetched d = false) ->
  0 <= n -> growing r R (cost d + n) -> exists r', push_tree src d false fet c pm r = Ok r' /\ growing r' (R ++ [(c, l)]) n.
Proof using Hdb.
  intros Hd Hh Hfet Hn0 [Hr Hn]. pose proof (cost_pos _ _ _ _ Hd) as Hpd. unfold push_tree.
  destruct (copy_tree_ok src d (c, l) r Hd Hh (tr_fetched _ _ Hr)) as (ns & ext & h & -> & H1 & H2 & H3 & t & He & Hok & Hsem & Hp); [lia|].
  rewrite bind_ok_l. pose proof (tc_cell _ _ _ _ Hd) as Hc. pose proof (tc_id _ _ _ _ Hd) as Hid. cbn [fst snd] in *. rewrite Hc in *. subst l.
  eexists. split; [reflexivity|]. pose proof (enc_pos _ _ _ He). apply push_new_ok; try done; [lia|lia|auto].
Qed.

(** A cell without a tree is the same everywhere. *)
Lemma push_treeless_ok ts fx d cl r R n : tcell_ok ts fx d cl -> hasTree d = false -> 0 <= n -> growing r R n -> growing (push_tcell r d) (R ++ [cl]) n.
Proof using.
  intros [Hc Hid Ht] Hh Hn0 [Hr Hn]. split; [|done]. unfold push_tcell.
  assert (tcell_ok (q_trees r ++ []) (q_fetched r ++ []) d cl) as Hd by (split; [done|done|]; by rewrite Hh in *).
  pose proof (push_end r R [] [] d cl Hr ltac:(cbn; lia) ltac:(cbn; lia) Hd ltac:(by rewrite Hh) (q_hasFetchedNodes r)) as Hp. by rewrite !app_nil_r in Hp.
Qed.

Lemma push_fm_ok c r R n : 0 <= c < ci_cellSize ci -> 0 <= n -> growing r R n ->
  growing (push_tcell r (newTC true false c 0 notree notree)) (R ++ [(c, full c)]) n.
Proof using Hdb.
  intros Hc Hn0 Hr. destruct (new_cell_ok true false c 0 notree notree Hc) as (E1 & _ & _); [done|done|].
  apply (push_treeless_ok [] []); try done. split; cbn [fst snd]; [done|by rewrite E1|]. split; [done|]. by rewrite E1.
Qed.

(** A cell of one operand only. *)
Lemma tcopy_ok src d c l r R n : tcell_ok (q_trees src) (q_fetched src) d (c, l) -> 0 <= n -> growing r R (cost d + n) ->
  exists r', tcopy src d r = Ok r' /\ growing r' (R ++ [(c, l)]) n.
Proof using Hdb.
  intros Hd Hn0 Hr. pose proof (cost_pos _ _ _ _ Hd) as Hpd. unfold tcopy. destruct (hasTree d) eqn:Hh.
  - pose proof (tc_tree _ _ _ _ Hd) as Ht. rewrite Hh in Ht. destruct Ht as [Hf _]. pose proof (tc_cell _ _ _ _ Hd) as Hc. cbn [fst] in Hc. rewrite Hf, Hc.
    destruct (push_tree_ok src d c l (t_fetched d) (t_pm d) r R n Hd Hh (fun H => H) Hn0 Hr) as (r' & Hp & Hr').
    by exists r'.
  - eexists. split; [done|]. apply (push_treeless_ok (q_trees src) (q_fetched src)); try done. eapply growing_less; [exact Hr|lia].
Qed.

(** ** The loop over two results *)

(** The nodes that the cells [ds] with the trees from [lo] on may add, at most. *)
Definition budget (src : tcqr) (lo : Z) (ds : list tcell) : Z := tsize src - lo + 2 * zlen ds.

(** The cells of [src] from position [i] on: [ds] for [X], with the trees from [lo] on. *)
Record left (src : tcqr) (i : Z) (lo : Z) (ds : list tcell) (X : cells) : Prop := {
  lf_desc : exists pre, q_desc src = pre ++ ds /\ i = zlen pre;
  lf_cells : Forall2 (tcell_ok (q_trees src) (q_fetched src)) ds X;
  lf_layout : layout lo ds (tsize src);
  lf_len : zlen (q_desc src) < 2 ^ 32;
  lf_lo : 0 <= lo;
}.

Lemma left_next src i lo d ds c l X : left src i lo (d :: ds) ((c, l) :: X) -> 
  i <? zlen (q_desc src) = true /\ at_ (q_desc src) i = Ok d /\ tcell_ok (q_trees src) (q_fetched src) d (c, l) /\
  exists lo', left src (u64 (i + 1)) lo' ds X /\ cost d + 1 + budget src lo' ds <= budget src lo (d :: ds) /\ 0 <= budget src lo' ds.
Proof using.
  intros [(pre & Hpre & ->) Hc Hl Hn Hlo0]. inversion Hc as [|? ? ? ? Hd Hc']; subst. pose proof Hn as Hn'. rewrite Hpre, length_app in Hn'. cbn [length] in Hn'.
  split; [apply Z.ltb_lt; rewrite Hpre, length_app; cbn [length]; lia|]. split; [apply at_ok; by rewrite Hpre, list_lookup_middle|]. split; [done|].
  cbn [layout] in Hl. rewrite (wrap_small 64) by (unfold fits; lia).
  assert (forall lo', 0 <= lo' -> layout lo' ds (tsize src) -> left src (zlen pre + 1) lo' ds X) as Hleft.
  { intros lo' Hlo0' Hlo'. split; try done. exists (pre ++ [d]). rewrite <- app_assoc, length_app. cbn [length app]. split; [done|lia]. }
  pose proof (cost_pos _ _ _ _ Hd). unfold budget, cost. cbn [length]. destruct (hasTree d) eqn:Hh.
  - destruct Hl as [Hlo Hl]. exists (t_end d). split; [apply Hleft; [lia|done]|]. pose proof (layout_bound _ _ _ Hl). lia.
  - exists lo. split; [by apply Hleft|]. pose proof (layout_bound _ _ _ Hl). lia.
Qed.

Lemma left_nil src i lo ds X : left src i lo ds X -> (i <? zlen (q_desc src)) = bool_decide (ds <> []) /\ length ds = length X.
Proof using.
  intros [(pre & Hpre & ->) Hc Hl Hn _]. split; [|by apply Forall2_length in Hc]. rewrite Hpre, length_app. destruct ds.
  - rewrite bool_decide_false by naive_solver. apply Z.ltb_ge. cbn [length]. lia.
  - rewrite bool_decide_true by done. apply Z.ltb_lt. cbn [length]. lia.
Qed.

(** [exact]: there is a cell in any case. *)
Definition thandles (exact : bool) (a b : tcqr) (equal : thandler) (f : Z -> Prop -> Prop -> Prop) : Prop := forall my o c l k r R n,
  tcell_ok (q_trees a) (q_fetched a) my (c, l) -> tcell_ok (q_trees b) (q_fetched b) o (c, k) -> 0 <= n -> growing r R (cost my + cost o + 1 + n) ->
  exists r' out, equal my o r = Ok r' /\ growing r' (R ++ out) n /\ out_ok (f c) c l k out /\ (exact = true -> length out = 1%nat).

Lemma tloop_ok exact a b keepMy keepO equal f (Hh : thandles exact a b equal f) fuel : forall ds es X Y i j la lb r R,
  left a i la ds X -> left b j lb es Y -> growing r R (budget a la ds + budget b lb es) -> (length ds + length es < fuel)%nat ->
  exists r' R' i' j' la' lb' ds' es' X' Y', tloop a b keepMy keepO equal fuel r i j = Ok (r', i', j') /\
    left a i' la' ds' X' /\ left b j' lb' es' Y' /\ (X' = [] \/ Y' = []) /\
    growing r' (R ++ R') (budget a la' ds' + budget b lb' es') /\
    (forall T, cmerge keepMy keepO f X' Y' T -> cmerge keepMy keepO f X Y (R' ++ T)) /\
    (exact && keepMy && keepO = true -> (length X <= length R' + length X')%nat /\ (length Y <= length R' + length Y')%nat).
Proof using Hdb.
  induction fuel as [|fuel IH]; intros ds es X Y i j la lb r R Ha Hb Hr Hf; [lia|]. cbn [tloop].
  destruct (left_nil _ _ _ _ _ Ha) as [Hia Hla], (left_nil _ _ _ _ _ Hb) as [Hjb Hlb].
  assert (X = [] \/ Y = [] -> exists r' R' i' j' la' lb' ds' es' X' Y', Ok (r, i, j) = Ok (r', i', j') /\
    left a i' la' ds' X' /\ left b j' lb' es' Y' /\ (X' = [] \/ Y' = []) /\
    growing r' (R ++ R') (budget a la' ds' + budget b lb' es') /\
    (forall T, cmerge keepMy keepO f X' Y' T -> cmerge keepMy keepO f X Y (R' ++ T)) /\
    (exact && keepMy && keepO = true -> (length X <= length R' + length X')%nat /\ (length Y <= length R' + length Y')%nat)) as Hdone.
  { intros Hnil. exists r, [], i, j, la, lb, ds, es, X, Y. rewrite app_nil_r. do 6 (split; [done|]). cbn [length]. lia. }
  destruct ds as [|d ds], X as [|[c l] X]; try done.
  { rewrite Hia, bool_decide_false by naive_solver. apply Hdone. by left. }
  destruct es as [|e es], Y as [|[c' k] Y]; try done.
  { rewrite Hjb, (bool_decide_false ([] <> [])), andb_false_r by naive_solver. apply Hdone. by right. }
  destruct (left_next _ _ _ _ _ _ _ _ Ha) as (-> & -> & Hd & la' & Ha' & Hba & Hba0), (left_next _ _ _ _ _ _ _ _ Hb) as (-> & -> & He & lb' & Hb' & Hbb & Hbb0).
  cbn [andb]. rewrite !bind_ok_l. pose proof (tc_cell _ _ _ _ Hd) as Hc. pose proof (tc_cell _ _ _ _ He) as Hc'. cbn [fst length] in *. rewrite Hc, Hc'.
  pose proof (cost_pos _ _ _ _ Hd). pose proof (cost_pos _ _ _ _ He).
  destruct (Z.ltb_spec c c') as [Hlt|Hge]; [|destruct (Z.ltb_spec c' c) as [Hlt|Hge']].
  - assert (exists r1, (if keepMy then tcopy a d r else Ok r) = Ok r1 /\
      growing r1 (R ++ (if keepMy then [(c, l)] else [])) (budget a la' ds + budget b lb (e :: es))) as (r1 & -> & Hr1).
    { destruct keepMy; [|exists r; rewrite app_nil_r; split; [done|]; eapply growing_less; [exact Hr|lia]].
      apply (tcopy_ok a d c l r R _ Hd); [lia|]. eapply growing_less; [exact Hr|lia]. }
    rewrite bind_ok_l. destruct (IH ds (e :: es) X ((c', k) :: Y) (u64 (i + 1)) j la' lb r1 _ Ha' Hb Hr1) as
      (r' & R' & i' & j' & la1 & lb1 & ds' & es' & X' & Y' & E & H1 & H2 & H3 & H4 & H5 & H6); [cbn [length]; lia|].
    eexists r', _, i', j', la1, lb1, ds', es', X', Y'. split; [exact E|]. do 3 (split; [done|]). rewrite <- app_assoc in H4. split; [exact H4|].
    split; [intros T HT; rewrite <- app_assoc; by apply cm_lt, H5|]. intros He1. destruct (H6 He1) as [H7 H8]. apply andb_true_iff in He1 as [[_ ->]%andb_true_iff ->].
    rewrite length_app. cbn [length] in *. lia.
  - assert (exists r1, (if keepO then tcopy b e r else Ok r) = Ok r1 /\
      growing r1 (R ++ (if keepO then [(c', k)] else [])) (budget a la (d :: ds) + budget b lb' es)) as (r1 & -> & Hr1).
    { destruct keepO; [|exists r; rewrite app_nil_r; split; [done|]; eapply growing_less; [exact Hr|lia]].
      apply (tcopy_ok b e c' k r R _ He); [lia|]. eapply growing_less; [exact Hr|lia]. }
    rewrite bind_ok_l. destruct (IH (d :: ds) es ((c, l) :: X) Y i (u64 (j + 1)) la lb' r1 _ Ha Hb' Hr1) as
      (r' & R' & i' & j' & la1 & lb1 & ds' & es' & X' & Y' & E & H1 & H2 & H3 & H4 & H5 & H6); [cbn [length]; lia|].
    eexists r', _, i', j', la1, lb1, ds', es', X', Y'. split; [exact E|]. do 3 (split; [done|]). rewrite <- app_assoc in H4. split; [exact H4|].
    split; [intros T HT; rewrite <- app_assoc; by apply cm_gt, H5|]. intros He1. destruct (H6 He1) as [H7 H8]. apply andb_true_iff in He1 as [[_ ->]%andb_true_iff ->].
    rewrite length_app. cbn [length] in *. lia.
  - assert (c' = c) as -> by lia. destruct (Hh d e c l k r R (budget a la' ds + budget b lb' es) Hd He) as (r1 & out & -> & Hr1 & Hout & Hex); [lia|eapply growing_less; [exact Hr|lia]|].
    rewrite bind_ok_l. destruct (IH ds es X Y (u64 (i + 1)) (u64 (j + 1)) la' lb' r1 _ Ha' Hb' Hr1) as
      (r' & R' & i' & j' & la1 & lb1 & ds' & es' & X' & Y' & E & H1 & H2 & H3 & H4 & H5 & H6); [lia|].
    eexists r', _, i', j', la1, lb1, ds', es', X', Y'. split; [exact E|]. do 3 (split; [done|]). rewrite <- app_assoc in H4. split; [exact H4|].
    split; [intros T HT; rewrite <- app_assoc; by apply (cm_eq keepMy keepO f c l k X Y out), H5|]. intros He1. destruct (H6 He1) as [H7 H8].
    apply andb_true_iff in He1 as [[-> _]%andb_true_iff _]. specialize (Hex eq_refl). rewrite length_app. cbn [length] in *. lia.
Qed.

(** ** The cells behind the loop *)

Lemma skip_treeless_ok ds n : exists p q, ds = p ++ q /\ skip_treeless ds n = (n + length p)%nat /\ Forall (fun d => hasTree d = false) p /\
  match q with [] => True | d :: _ => hasTree d = true end.
Proof using.
  clear. revert n. induction ds as [|d ds IH]; intros n; cbn [skip_treeless].
  - exists [], []. split; [done|]. split; [cbn; lia|done].
  - destruct (hasTree d) eqn:Hh.
    + exists [], (d :: ds). split; [done|]. split; [cbn; lia|]. split; [constructor|done].
    + destruct (IH (S n)) as (p & q & -> & -> & Hp & Hq). exists (d :: p), q. split; [done|]. split; [cbn [length]; lia|]. split; [by constructor|done].
Qed.

Lemma rep_more D P fx h R gap : tcells_rep (mkT F D P fx h) R -> zlen (P ++ gap) < 2 ^ 32 -> tcells_rep (mkT F D (P ++ gap) fx h) R.
Proof using.
  intros [Hf Hc Hl Hx] Hn. unfold tsize in *. cbn [q_flags q_desc q_trees q_fetched] in *. split; unfold tsize; cbn [q_flags q_desc q_trees q_fetched]; [done| | |].
  - eapply Forall2_impl; [exact Hc|]. intros d cl Hd. rewrite <- (app_nil_r fx). by apply tcell_ok_more.
  - apply (layout_le _ _ _ _ Hl). rewrite length_app. lia.
  - rewrite length_app. lia.
Qed.

(** Where the nodes of a cell have gone to. *)
Lemma moved_tree src P lo d cl : tcell_ok (q_trees src) (q_fetched src) d cl -> hasTree d = true -> 0 <= lo <= t_begin d -> zlen P + (tsize src - lo) < 2 ^ 32 ->
  let d' := moved (lo - zlen P) d in let N := P ++ drop (Z.to_nat lo) (q_trees src) in
  inside N d' /\ hasTree d' = true /\ t_begin d' = zlen P + (t_begin d - lo) /\ t_end d' = zlen P + (t_end d - lo) /\ tree_of N d' = tree_of (q_trees src) d /\
  take (Z.to_nat (t_begin d')) N = P ++ take (Z.to_nat (t_begin d - lo)) (drop (Z.to_nat lo) (q_trees src)) /\
  drop (Z.to_nat (t_end d')) N = drop (Z.to_nat (t_end d)) (q_trees src).
Proof using.
  intros Hd Hh Hlo Hn d' N. pose proof (tc_tree _ _ _ _ Hd) as Ht. rewrite Hh in Ht. destruct Ht as (_ & (Hbe & Hel & Hl) & _). unfold tsize in *.
  assert (t_begin d' = zlen P + (t_begin d - lo)) as Eb by (unfold d', moved; cbn [t_begin]; rewrite wrap_small by (unfold fits; lia); lia).
  assert (t_end d' = zlen P + (t_end d - lo)) as Ee by (unfold d', moved; cbn [t_end]; rewrite wrap_small by (unfold fits; lia); lia).
  assert (forall x, lo <= x -> drop (Z.to_nat (zlen P + (x - lo))) N = drop (Z.to_nat x) (q_trees src)) as Hdrop.
  { intros x Hx. unfold N. rewrite drop_app_ge by lia. rewrite drop_drop. f_equal. lia. }
  assert (inside N d') as Hin by (unfold N; split; [lia|]; rewrite length_app, length_drop; lia).
  split; [done|]. split; [apply (hasTree_size N d' Hin)|]. split; [done|]. split; [done|]. rewrite Ee, (Hdrop (t_end d)) by lia. split; [|split; [|done]].
  - unfold tree_of. rewrite Eb, Ee, Hdrop by lia. f_equal. lia.
  - rewrite Eb. unfold N. rewrite take_app_ge by lia. f_equal. f_equal. lia.
Qed.

Lemma fix_cells_ok src corr : forall es X D P fx h R lo, Forall2 (tcell_ok (q_trees src) (q_fetched src)) es X -> layout lo es (tsize src) ->
  tcells_rep (mkT F D P fx h) R -> 0 <= lo -> corr = lo - zlen P -> zlen P + (tsize src - lo) < 2 ^ 32 ->
  exists r', fix_cells src corr (length es) (mkT F (D ++ es) (P ++ drop (Z.to_nat lo) (q_trees src)) fx h) (length D) = Ok r' /\
    tcells_rep r' (R ++ X) /\ tsize r' < 2 ^ 32 /\ length (q_desc r') = (length D + length es)%nat.
Proof using.
  induction es as [|d es IH]; intros X D P fx h R lo Hc Hl Hr Hlo Hcorr Hn.
  { inversion Hc; subst. exists (mkT F (D ++ []) (P ++ drop (Z.to_nat lo) (q_trees src)) fx h). rewrite !app_nil_r. split; [done|].
    pose proof (layout_bound _ _ _ Hl). unfold tsize in *. cbn [q_trees q_desc length].
    assert (zlen (P ++ drop (Z.to_nat lo) (q_trees src)) < 2 ^ 32) by (rewrite length_app, length_drop; lia). split; [by apply rep_more|]. split; [done|lia]. }
  inversion Hc as [|? [c l] ? X' Hd Hc']; subst. cbn [length fix_cells q_desc]. rewrite (at_ok _ _ d), bind_ok_l by (by apply list_lookup_middle).
  cbn [layout] in Hl. replace (D ++ d :: es) with ((D ++ [d]) ++ es) by (by rewrite <- app_assoc).
  destruct (hasTree d) eqn:Hh.
  - destruct Hl as [Hlob Hl]. pose proof (layout_bound _ _ _ Hl).
    destruct (moved_tree src P lo d (c, l) Hd Hh) as (Hin & Hh' & Eb & Ee & Htree & Htake & Hdrop); [lia|done|].
    set (d' := moved (lo - zlen P) d) in *. set (gap := take (Z.to_nat (t_begin d - lo)) (drop (Z.to_nat lo) (q_trees src))) in *.
    pose proof (tc_tree _ _ _ _ Hd) as Ht. rewrite Hh in Ht. destruct Ht as (Hf & Hins & t & He & Hok & Hsem & Hp).
    assert (t_cell d' = t_cell d /\ t_full d' = t_full d /\ t_fetched d' = t_fetched d) as (Ec & Ef & Eft) by done.
    cbn [q_flags q_desc q_trees q_fetched q_hasFetchedNodes].
    assert (<[length D := d']> ((D ++ [d]) ++ es) = (D ++ [d']) ++ es) as -> by (rewrite <- !app_assoc; by apply insert_app_r_alt' || (rewrite insert_app_r_alt by lia; by rewrite Nat.sub_diag)).
    assert (zlen gap = t_begin d - lo) as Hgap by (unfold gap; rewrite length_take, length_drop; unfold tsize, inside in *; lia).
    pose proof (inside_len _ _ Hins) as Hlen.
    assert (forall ns ext h', enc (fx ++ ext) ns t -> zlen ns = t_end d - t_begin d -> zlen ext <= zlen ns ->
      tcells_rep (mkT F (D ++ [d']) (P ++ gap ++ ns) (fx ++ ext) h') (R ++ [(c, l)])) as Hpush.
    { intros ns ext h' Hens Hns Hext. assert (zlen (P ++ gap) < 2 ^ 32) as Hpg by (rewrite length_app; unfold tsize in *; lia).
      pose proof (rep_more D P fx h R gap Hr Hpg) as Hr'. rewrite app_assoc.
      assert (inside ((P ++ gap) ++ ns) d') as Hin' by (unfold inside in *; rewrite !length_app in *; unfold tsize in *; lia).
      apply (push_end (mkT F D (P ++ gap) fx h) R ns ext d' (c, l) Hr'); unfold tsize in *; cbn [q_trees q_fetched];
        [rewrite length_app in *; lia|done| |intros _; rewrite length_app; lia].
      split; [rewrite Ec; apply Hd|rewrite Ec; apply Hd|]. rewrite Hh'. split; [by rewrite Ef|]. split; [done|].
      exists t. rewrite Eft, Ec. rewrite tree_at_end by (rewrite length_app; lia). done. }
    unfold copyFetchedIndices. cbn [q_flags q_desc q_trees q_fetched q_hasFetchedNodes]. rewrite Eft. destruct (t_fetched d) eqn:Hfe.
    + rewrite (slice_ok _ _ Hin), bind_ok_l, Htree. pose proof (tr_fetched _ _ Hr) as Hxl. unfold tsize in *. cbn [q_fetched q_trees] in Hxl.
      destruct (adjust_ok _ _ _ fx He) as (ns & ext & -> & Hl1 & Hl2 & He'); [lia|]. rewrite !bind_ok_l, Htake, Hdrop.
      destruct (IH X' (D ++ [d']) (P ++ gap ++ ns) (fx ++ ext) true (R ++ [(c, l)]) (t_end d) Hc' Hl) as (r' & E & Hr' & Hs & Hld);
        [apply Hpush; [done|lia|lia]|lia|rewrite !length_app; lia|rewrite !length_app; unfold tsize in *; lia|].
      rewrite length_app in E. cbn [length] in E. rewrite Nat.add_1_r in E. repeat rewrite <- app_assoc in E. repeat rewrite <- app_assoc. cbn [app] in *. exists r'. split; [exact E|].
      rewrite <- app_assoc in Hr'. split; [done|]. split; [done|]. rewrite Hld, length_app. cbn [length]. lia.
    + rewrite bind_ok_l. destruct (IH X' (D ++ [d']) (P ++ gap ++ tree_of (q_trees src) d) fx h (R ++ [(c, l)]) (t_end d) Hc' Hl) as (r' & E & Hr' & Hs & Hld);
        [rewrite <- (app_nil_r fx); apply Hpush; [rewrite app_nil_r; by apply (enc_plain (q_fetched src)), Hp|lia|cbn; lia]|lia|rewrite !length_app; lia|rewrite !length_app; unfold tsize in *; lia|].
      rewrite length_app in E. cbn [length] in E. rewrite Nat.add_1_r in E. exists r'. split; [|rewrite <- app_assoc in Hr'; split; [done|]; split; [done|]; rewrite Hld, length_app; cbn [length]; lia].
      rewrite <- E. do 2 f_equal. rewrite <- !app_assoc. f_equal. unfold gap, tree_of.
      rewrite <- (take_drop (Z.to_nat (t_begin d - lo)) (drop (Z.to_nat lo) (q_trees src))) at 1. f_equal. rewrite drop_drop.
      replace (Z.to_nat lo + Z.to_nat (t_begin d - lo))%nat with (Z.to_nat (t_begin d)) by lia.
      rewrite <- (take_drop (Z.to_nat (t_end d - t_begin d)) (drop (Z.to_nat (t_begin d)) (q_trees src))) at 1. f_equal. rewrite drop_drop. f_equal. lia.
  - destruct (IH X' (D ++ [d]) P fx h (R ++ [(c, l)]) lo Hc' Hl) as (r' & E & Hr' & Hs & Hld); [|done|done|done|].
    + pose proof (layout_bound _ _ _ Hl). apply (push_treeless_ok (q_trees src) (q_fetched src) d (c, l) (mkT F D P fx h) R 0 Hd Hh); [lia|]. split; [done|]. unfold tsize in *. cbn [q_trees]. lia.
    + rewrite length_app in E. cbn [length] in E. rewrite Nat.add_1_r in E. exists r'. split; [exact E|]. rewrite <- app_assoc in Hr'. split; [done|]. split; [done|].
      rewrite Hld, length_app. cbn [length]. lia.
Qed.

Lemma push_treeless_list src p Xp D P fx h R n : Forall2 (tcell_ok (q_trees src) (q_fetched src)) p Xp -> Forall (fun d => hasTree d = false) p -> 0 <= n ->
  growing (mkT F D P fx h) R n -> growing (mkT F (D ++ p) P fx h) (R ++ Xp) n.
Proof using.
  intros Hc. revert D R. induction Hc as [|d cl p Xp Hd Hc IH]; intros D R Hp Hn Hr; [by rewrite !app_nil_r|]. apply Forall_cons in Hp as [Hh Hp].
  replace (D ++ d :: p) with ((D ++ [d]) ++ p) by (by rewrite <- app_assoc). replace (R ++ cl :: Xp) with ((R ++ [cl]) ++ Xp) by (by rewrite <- app_assoc).
  apply IH; [done|done|]. apply (push_treeless_ok _ _ d cl _ _ _ Hd Hh Hn Hr).
Qed.

Lemma trest_ok src i lo ds X r R : left src i lo ds X -> growing r R (budget src lo ds) ->
  exists r', trest src i r = Ok r' /\ tcells_rep r' (R ++ X) /\ tsize r' < 2 ^ 32 /\ length (q_desc r') = (length (q_desc r) + length X)%nat.
Proof using.
  intros Hl [Hr Hn]. destruct (left_nil _ _ _ _ _ Hl) as [Hi HlX]. destruct Hl as [(pre & Hpre & ->) Hc Hl Hlen Hlo]. unfold trest. rewrite Hi.
  unfold budget in Hn. pose proof (layout_bound _ _ _ Hl) as Hb. destruct (decide (ds = [])) as [->|Hne].
  { rewrite bool_decide_false by naive_solver. destruct X; [|done]. exists r. rewrite app_nil_r. split; [done|]. split; [done|]. split; [unfold tsize in *; cbn [length] in Hn; lia|cbn; lia]. }
  rewrite bool_decide_true by done. rewrite Hpre. rewrite Nat2Z.id, drop_app_length.
  destruct (skip_treeless_ok ds 0) as (p & q & Hds & -> & Hp & Hq). cbn [Nat.add]. destruct r as [f D P fx h]. pose proof (tr_flags _ _ Hr) as Hf. cbn in Hf. subst f.
  cbn [q_flags q_desc q_trees q_fetched q_hasFetchedNodes] in *. rewrite Hds in Hc. apply Forall2_app_inv_l in Hc as (Xp & Xq & Hcp & Hcq & ->).
  assert (growing (mkT F (D ++ p) P fx h) (R ++ Xp) (tsize src - lo)) as Hg.
  { apply (push_treeless_list src); try done; [lia|]. split; [done|]. unfold tsize in *. cbn [q_trees] in *. lia. }
  rewrite length_app. destruct q as [|d q].
  - rewrite app_nil_r in Hds. subst p. rewrite (proj2 (Z.ltb_ge _ _)) by lia. inversion Hcq; subst. rewrite app_nil_r. eexists. split; [reflexivity|].
    destruct Hg as [Hg Hgn]. split; [done|]. apply Forall2_length in Hcp. cbn [q_desc]. unfold tsize in *. cbn [q_trees] in *. rewrite length_app. split; lia.
  - rewrite Hds, length_app in *. cbn [length] in *. rewrite (proj2 (Z.ltb_lt _ _)) by lia.
    replace (zlen pre + zlen p) with (Z.of_nat (length (pre ++ p))) by (rewrite length_app; lia).
    rewrite (at_ok _ _ d) by (rewrite app_assoc; by apply list_lookup_middle). rewrite bind_ok_l.
    apply layout_app in Hl as (mid & Hl1 & Hl2). cbn [layout] in Hl2. rewrite Hq in Hl2. destruct Hl2 as [Hmid Hl2]. pose proof (layout_bound _ _ _ Hl1). pose proof (layout_bound _ _ _ Hl2).
    unfold slice, tsize in *. cbn [q_trees q_flags q_desc q_fetched q_hasFetchedNodes] in *. rewrite !(proj2 (Z.leb_le _ _)) by lia. cbn [andb]. rewrite bind_ok_l.
    replace (take (Z.to_nat (zlen (q_trees src) - t_begin d)) (drop (Z.to_nat (t_begin d)) (q_trees src))) with (drop (Z.to_nat (t_begin d)) (q_trees src))
      by (symmetry; apply take_ge; rewrite length_drop; lia).
    destruct Hg as [Hg Hgn]. unfold tsize in Hgn. cbn [q_trees] in Hgn.
    destruct (fix_cells_ok src (t_begin d - zlen P) (d :: q) Xq (D ++ p) P fx h (R ++ Xp) (t_begin d) Hcq) as (r' & E & Hr' & Hs & Hld);
      [cbn [layout]; rewrite Hq; split; [lia|done]|done|lia|done|unfold tsize; lia|].
    exists r'. cbn [length] in E, Hld. rewrite length_app in E, Hld. repeat rewrite <- app_assoc in E. repeat rewrite <- app_assoc in Hr'.
    replace (length D + (length p + S (length q)) - (length D + length p))%nat with (S (length q)) by lia. rewrite !length_app. cbn [length].
    replace (length D + (length p + S (length q)) - (length D + length p))%nat with (S (length q)) by lia.
    split; [exact E|]. split; [done|]. split; [done|]. rewrite Hld. apply Forall2_length in Hcp, Hcq. cbn [length] in Hcq. lia.
Qed.

(** ** The operations on cells of both results *)

Lemma build_op_handles o a b my oc c l k r R n : tcell_ok (q_trees a) (q_fetched a) my (c, l) -> tcell_ok (q_trees b) (q_fetched b) oc (c, k) -> 0 <= n ->
  growing r R (cost my + cost oc + 1 + n) ->
  exists r' out, build_op o a my b oc r = Ok r' /\ growing r' (R ++ out) n /\ out_ok (op_prop o) c l k out /\ length out = 1%nat.
Proof using Hdb.
  intros Ha Hb Hn Hr. destruct (build_op_ok o a my b oc c l k r R n Ha Hb Hn Hr) as (r' & l' & -> & Hr' & Hin).
  exists r', [(c, l')]. do 2 (split; [done|]). split; [by apply out_one|done].
Qed.

(** A full match has no tree and all items; the items are of the cell. *)
Lemma full_cell ts fx d c l : tcell_ok ts fx d (c, l) -> t_full d = true -> hasTree d = false /\ t_fetched d = false /\ l = full c.
Proof using.
  intros [Hc _ Ht] Hf. cbn [fst snd] in *. destruct (hasTree d); [by destruct Ht as [Hf' _]; rewrite Hf in Hf'|]. destruct Ht as [Hx Ht]. rewrite Hf, Hc in Ht. done.
Qed.

Lemma cell_items ts fx d c l : tcell_ok ts fx d (c, l) -> forall z, z ∈ l -> z ∈ full c.
Proof using Hdb.
  intros [Hc Hid Ht] z. cbn [fst snd] in *. subst c. destruct (hasTree d).
  - destruct Ht as (_ & _ & t & _ & Hok & <- & _). apply (sem_ok _ t Hid Hok).
  - destruct Ht as [_ Ht]. destruct (t_full d); [by subst l|]. destruct Ht as (id & _ & Hok & <-). apply (sem_ok _ (TPm id) Hid Hok).
Qed.

Lemma t_intersect_handles a b : thandles false a b (t_intersect_equal a b) (fun _ => op_prop OIntersect).
Proof using Hdb.
  intros my o c l k r R n Ha Hb Hn Hr. pose proof (cost_pos _ _ _ _ Ha). pose proof (cost_pos _ _ _ _ Hb). unfold t_intersect_equal.
  pose proof (full_cell _ _ _ _ _ Ha) as Hfa. pose proof (full_cell _ _ _ _ _ Hb) as Hfb. pose proof (cell_items _ _ _ _ _ Ha) as Hla. pose proof (cell_items _ _ _ _ _ Hb) as Hlb.
  pose proof (tc_cell _ _ _ _ Ha) as Hca. pose proof (tc_cell _ _ _ _ Hb) as Hcb. pose proof (tc_id _ _ _ _ Ha) as Hid. cbn [fst] in *. rewrite Hca in *.
  destruct (negb (hasTree my) && negb (hasTree o)) eqn:Hh.
  - apply andb_true_iff in Hh as [Hma%negb_true_iff Hmb%negb_true_iff]. destruct (t_full my), (t_full o).
    + destruct Hfa as (_ & _ & ->), Hfb as (_ & _ & ->); [done..|]. exists (push_tcell r (newTC true false c 0 notree notree)), [(c, full c)]. split; [done|].
      split; [|split; [apply out_one; cbn; tauto|done]]. apply push_fm_ok; [done..|]. eapply growing_less; [exact Hr|lia].
    + destruct Hfa as (_ & _ & ->); [done|]. exists (push_tcell r o), [(c, k)]. split; [done|]. split; [|split; [apply out_one; cbn; naive_solver|done]].
      apply (push_treeless_ok _ _ o (c, k) _ _ _ Hb Hmb Hn). eapply growing_less; [exact Hr|lia].
    + destruct Hfb as (_ & _ & ->); [done|]. exists (push_tcell r my), [(c, l)]. split; [done|]. split; [|split; [apply out_one; cbn; naive_solver|done]].
      apply (push_treeless_ok _ _ my (c, l) _ _ _ Ha Hma Hn). eapply growing_less; [exact Hr|lia].
    + destruct (build_op_handles OIntersect a b my o c l k r R n Ha Hb Hn Hr) as (r' & out & ? & ? & ? & ?). by exists r', out.
  - apply andb_false_iff in Hh. destruct (t_full my) eqn:Em; [|destruct (t_full o) eqn:Eo].
    + destruct Hfa as (Hma & Hxa & ->); [done|]. destruct Hh as [Hh%negb_false_iff|Hh%negb_false_iff]; [congruence|].
      destruct (push_tree_ok b o c k (t_fetched my || t_fetched o) 0 r R n Hb Hh) as (r' & -> & Hr'); [by intros []%orb_false_iff|done|eapply growing_less; [exact Hr|lia]|].
      exists r', [(c, k)]. do 2 (split; [done|]). split; [|done]. apply out_one. cbn. naive_solver.
    + destruct Hfb as (Hmb & Hxb & ->); [done|]. destruct Hh as [Hh%negb_false_iff|Hh%negb_false_iff]; [|congruence]. rewrite Hcb.
      destruct (push_tree_ok a my c l (t_fetched my || t_fetched o) 0 r R n Ha Hh) as (r' & -> & Hr'); [by intros []%orb_false_iff|done|eapply growing_less; [exact Hr|lia]|].
      exists r', [(c, l)]. do 2 (split; [done|]). split; [|done]. apply out_one. cbn. naive_solver.
    + destruct (build_op_handles OIntersect a b my o c l k r R n Ha Hb Hn Hr) as (r' & out & ? & ? & ? & ?). by exists r', out.
Qed.

Lemma t_unite_handles a b : thandles true a b (t_unite_equal a b) (fun _ => op_prop OUnite).
Proof using Hdb.
  intros my o c l k r R n Ha Hb Hn Hr. pose proof (cost_pos _ _ _ _ Ha). pose proof (cost_pos _ _ _ _ Hb). unfold t_unite_equal.
  pose proof (cell_items _ _ _ _ _ Ha) as Hla. pose proof (cell_items _ _ _ _ _ Hb) as Hlb. destruct (t_full my || t_full o) eqn:Hf.
  - pose proof (tc_cell _ _ _ _ Ha) as Hca. pose proof (tc_id _ _ _ _ Ha) as Hid. cbn [fst] in Hca. rewrite Hca in *. eexists _, [(c, full c)]. split; [done|]. split.
    + apply push_fm_ok; [done..|]. eapply growing_less; [exact Hr|lia].
    + split; [|done]. apply out_one. cbn. apply orb_true_iff in Hf as [Hf|Hf]; [destruct (full_cell _ _ _ _ _ Ha Hf) as (_ & _ & ->)|destruct (full_cell _ _ _ _ _ Hb Hf) as (_ & _ & ->)]; naive_solver.
  - destruct (build_op_handles OUnite a b my o c l k r R n Ha Hb Hn Hr) as (r' & out & ? & ? & ? & ?). by exists r', out.
Qed.

Lemma t_diff_handles a b : thandles false a b (t_diff_equal a b) (fun _ => op_prop ODiff).
Proof using Hdb.
  intros my o c l k r R n Ha Hb Hn Hr. pose proof (cost_pos _ _ _ _ Ha). pose proof (cost_pos _ _ _ _ Hb). unfold t_diff_equal. destruct (t_full o) eqn:Hf.
  - destruct (full_cell _ _ _ _ _ Hb Hf) as (_ & _ & ->). exists r, []. rewrite app_nil_r. split; [done|]. split; [eapply growing_less; [exact Hr|lia]|].
    split; [|done]. apply out_none. intros z [Hz Hnz]. by apply Hnz, (cell_items _ _ _ _ _ Ha).
  - destruct (build_op_handles ODiff a b my o c l k r R n Ha Hb Hn Hr) as (r' & out & ? & ? & ? & ?). by exists r', out.
Qed.

Lemma t_symDiff_handles a b : thandles false a b (t_symDiff_equal a b) (fun _ => op_prop OSymDiff).
Proof using Hdb.
  intros my o c l k r R n Ha Hb Hn Hr. pose proof (cost_pos _ _ _ _ Ha). pose proof (cost_pos _ _ _ _ Hb). unfold t_symDiff_equal. destruct (negb (t_full my) || negb (t_full o)) eqn:Hf.
  - destruct (build_op_handles OSymDiff a b my o c l k r R n Ha Hb Hn Hr) as (r' & out & ? & ? & ? & ?). by exists r', out.
  - apply orb_false_iff in Hf as [Hf%negb_false_iff Hf'%negb_false_iff].
    destruct (full_cell _ _ _ _ _ Ha Hf) as (_ & _ & ->), (full_cell _ _ _ _ _ Hb Hf') as (_ & _ & ->). exists r, []. rewrite app_nil_r.
    split; [done|]. split; [eapply growing_less; [exact Hr|lia]|]. split; [|done]. apply out_none. cbn. tauto.
Qed.

(** ** The set operations *)

Section whole.
Context (a b : tcqr) (A B : cells) (Ha : treed_rep a A) (Hb : treed_rep b B) (HF : has_flag F FF_EMPTY = false).
Context (Hsize : tsize a + tsize b + 2 * (zlen A + zlen B) < 2 ^ 32).

Lemma t_flags_ok : flagCheck (q_flags a) (q_flags b) = true.
Proof using Ha Hb HF.
  rewrite (tr_flags _ _ (proj1 Ha)), (tr_flags _ _ (proj1 Hb)). unfold flagCheck. rewrite Z.lor_diag, Z.eqb_refl. cbn [andb].
  unfold has_flag in HF. apply negb_false_iff, Z.eqb_eq in HF. by rewrite HF.
Qed.

Lemma t_len r R : tcells_rep r R -> length (q_desc r) = length R.
Proof using. intros Hr. by apply Forall2_length with (1 := tr_cells _ _ Hr). Qed.

Lemma left_start r R : treed_rep r R -> zlen R < 2 ^ 32 -> left r 0 0 (q_desc r) R.
Proof using.
  intros (Hr & _) Hn. split; [exists []; done|apply Hr|apply Hr|by rewrite (t_len r R Hr)|done].
Qed.

Lemma t_new_ok n : n < 2 ^ 32 -> growing (t_new (q_flags a)) [] n.
Proof using Ha. intros Hn. clear Hsize Hb HF. split; [|unfold tsize; cbn; lia]. split; [apply (tr_flags _ _ (proj1 Ha))|apply List.Forall2_nil|unfold tsize; cbn; lia..]. Qed.

(** The loop from the start. *)
Lemma t_loop exact keepMy keepO equal f : thandles exact a b equal f ->
  exists r R i j la lb ds es X Y, tloop a b keepMy keepO equal (fuel_of a b) (t_new (q_flags a)) 0 0 = Ok (r, i, j) /\
    left a i la ds X /\ left b j lb es Y /\ (X = [] \/ Y = []) /\ growing r R (budget a la ds + budget b lb es) /\
    (forall T, cmerge keepMy keepO f X Y T -> cmerge keepMy keepO f A B (R ++ T)) /\
    (exact && keepMy && keepO = true -> (length A <= length R + length X)%nat /\ (length B <= length R + length Y)%nat).
Proof using Ha Hb Hdb Hsize.
  intros Hh. pose proof (t_len _ _ (proj1 Ha)) as Hla. pose proof (t_len _ _ (proj1 Hb)) as Hlb.
  destruct (tloop_ok exact a b keepMy keepO equal f Hh (fuel_of a b) (q_desc a) (q_desc b) A B 0 0 0 0 (t_new (q_flags a)) []) as
    (r & R & i & j & la & lb & ds & es & X & Y & H1 & H2 & H3 & H4 & H5 & H6 & H7);
    [apply left_start; [done|unfold tsize in *; lia]|apply left_start; [done|unfold tsize in *; lia]|apply t_new_ok; unfold budget; lia|unfold fuel_of; lia|].
  by exists r, R, i, j, la, lb, ds, es, X, Y.
Qed.

Lemma t_built keepMy keepO f r R : cmerge keepMy keepO f A B R -> tcells_rep r R -> tsize r < 2 ^ 32 ->
  treed_rep r R /\ forall c z, has R c z <-> in3 keepMy keepO f A B c z.
Proof using Ha Hb.
  intros Hm Hr Hn. destruct (cmerge_ok _ _ _ _ _ _ Hm (proj1 (proj2 Ha)) (proj1 (proj2 Hb))) as [Hs Hin]. done.
Qed.

Lemma t_intersect_ok : exists r R, t_intersect a b = Ok r /\ treed_rep r R /\ forall c z, has R c z <-> in3 false false (fun _ => op_prop OIntersect) A B c z.
Proof using Ha Hb HF Hdb Hsize.
  unfold t_intersect. rewrite t_flags_ok. cbn [negb throw_if]. rewrite bind_ok_l.
  destruct (t_loop _ false false _ _ (t_intersect_handles a b)) as (r & R & i & j & la & lb & ds & es & X & Y & -> & HX & HY & Hnil & [Hr Hn] & Hm & _). rewrite bind_ok_l.
  assert (cmerge false false (fun _ => op_prop OIntersect) A B R) as HR.
  { rewrite <- (app_nil_r R). apply Hm. destruct Hnil as [->| ->]; [apply (cm_nil_l false false)|apply (cm_nil_r false false)]. }
  pose proof (cmerge_len _ _ _ _ _ _ HR) as (_ & H1 & H2). rewrite (t_len _ _ Hr), (t_len _ _ (proj1 Ha)), (t_len _ _ (proj1 Hb)).
  rewrite (proj2 (Z.ltb_ge _ _)) by (specialize (H1 eq_refl); specialize (H2 eq_refl); lia). cbn [throw_if]. rewrite bind_ok_l.
  exists r, R. split; [done|]. apply (t_built _ _ _ _ _ HR Hr). pose proof (lf_layout _ _ _ _ _ HX) as Hl1%layout_bound. pose proof (lf_layout _ _ _ _ _ HY) as Hl2%layout_bound.
  unfold budget in Hn. lia.
Qed.

(** The cells of one operand behind the loop. *)
Lemma t_rest_ok keepMy keepO f r R i j la lb ds es X Y : left a i la ds X -> left b j lb es Y -> X = [] \/ Y = [] ->
  growing r R (budget a la ds + budget b lb es) -> keepMy = true -> keepO = true ->
  (forall T, cmerge keepMy keepO f X Y T -> cmerge keepMy keepO f A B (R ++ T)) ->
  exists r', (if i <? zlen (q_desc a) then trest a i r else trest b j r) = Ok r' /\ tcells_rep r' (R ++ X ++ Y) /\ tsize r' < 2 ^ 32 /\
    cmerge keepMy keepO f A B (R ++ X ++ Y).
Proof using Hdb.
  intros HX HY Hnil Hr -> -> Hm. pose proof (layout_bound _ _ _ (lf_layout _ _ _ _ _ HX)). pose proof (layout_bound _ _ _ (lf_layout _ _ _ _ _ HY)).
  destruct (left_nil _ _ _ _ _ HX) as [-> HlX]. assert (cmerge true true f A B (R ++ X ++ Y)) as HR.
  { apply Hm. destruct Hnil as [->| ->]; [apply (cm_nil_l true true)|rewrite app_nil_r; apply (cm_nil_r true true)]. }
  destruct (decide (ds = [])) as [->|Hne].
  - destruct X; [|done]. rewrite bool_decide_false by naive_solver. destruct (trest_ok b j lb es Y r R HY) as (r' & -> & H1 & H2 & _).
    { eapply growing_less; [exact Hr|]. unfold budget. lia. }
    by exists r'.
  - assert (Y = []) as -> by (destruct Hnil as [->|]; [by destruct ds|done]). rewrite bool_decide_true by done.
    destruct (trest_ok a i la ds X r R HX) as (r' & -> & H1 & H2 & _).
    { eapply growing_less; [exact Hr|]. unfold budget. lia. }
    exists r'. rewrite app_nil_r in *. done.
Qed.

Lemma t_unite_ok : exists r R, t_unite a b = Ok r /\ treed_rep r R /\ forall c z, has R c z <-> in3 true true (fun _ => op_prop OUnite) A B c z.
Proof using Ha Hb HF Hdb Hsize.
  unfold t_unite. rewrite t_flags_ok. cbn [negb throw_if]. rewrite bind_ok_l.
  destruct (t_loop _ true true _ _ (t_unite_handles a b)) as (r & R & i & j & la & lb & ds & es & X & Y & -> & HX & HY & Hnil & Hr & Hm & Hex). rewrite bind_ok_l.
  destruct (t_rest_ok true true _ r R i j la lb ds es X Y HX HY Hnil Hr eq_refl eq_refl Hm) as (r' & -> & Hr' & Hn & HR). rewrite bind_ok_l.
  destruct (Hex eq_refl) as [H1 H2]. rewrite (t_len _ _ Hr'), (t_len _ _ (proj1 Ha)), (t_len _ _ (proj1 Hb)), !length_app.
  rewrite (proj2 (Z.ltb_ge _ _)) by lia. cbn [throw_if]. rewrite bind_ok_l. exists r', (R ++ X ++ Y). split; [done|]. by apply (t_built true true).
Qed.

Lemma t_symDiff_ok : exists r R, t_symDiff a b = Ok r /\ treed_rep r R /\ forall c z, has R c z <-> in3 true true (fun _ => op_prop OSymDiff) A B c z.
Proof using Ha Hb HF Hdb Hsize.
  unfold t_symDiff. rewrite t_flags_ok. cbn [negb throw_if]. rewrite bind_ok_l.
  destruct (t_loop _ true true _ _ (t_symDiff_handles a b)) as (r & R & i & j & la & lb & ds & es & X & Y & -> & HX & HY & Hnil & Hr & Hm & _). rewrite bind_ok_l.
  destruct (t_rest_ok true true _ r R i j la lb ds es X Y HX HY Hnil Hr eq_refl eq_refl Hm) as (r' & -> & Hr' & Hn & HR). rewrite bind_ok_l.
  pose proof (cmerge_len _ _ _ _ _ _ HR) as (H1 & _). rewrite (t_len _ _ Hr'), (t_len _ _ (proj1 Ha)), (t_len _ _ (proj1 Hb)).
  rewrite (proj2 (Z.ltb_ge _ _)) by lia. cbn [throw_if]. rewrite bind_ok_l. exists r', (R ++ X ++ Y). split; [done|]. by apply (t_built true true).
Qed.

Lemma t_diff_ok : exists r R, t_diff a b = Ok r /\ treed_rep r R /\ forall c z, has R c z <-> in3 true false (fun _ => op_prop ODiff) A B c z.
Proof using Ha Hb HF Hdb Hsize.
  unfold t_diff. rewrite t_flags_ok. cbn [negb throw_if]. rewrite bind_ok_l.
  destruct (t_loop _ true false _ _ (t_diff_handles a b)) as (r & R & i & j & la & lb & ds & es & X & Y & -> & HX & HY & Hnil & Hr & Hm & _). rewrite bind_ok_l.
  pose proof (layout_bound _ _ _ (lf_layout _ _ _ _ _ HX)). pose proof (layout_bound _ _ _ (lf_layout _ _ _ _ _ HY)).
  destruct (trest_ok a i la ds X r R HX) as (r' & -> & Hr' & Hn & _); [eapply growing_less; [exact Hr|unfold budget; lia]|]. rewrite bind_ok_l.
  assert (cmerge true false (fun _ => op_prop ODiff) A B (R ++ X)) as HR.
  { apply Hm. destruct Hnil as [->| ->]; [apply (cm_nil_l true false)|apply (cm_nil_r true false)]. }
  pose proof (cmerge_len _ _ _ _ _ _ HR) as (_ & H1 & _). specialize (H1 eq_refl). rewrite (t_len _ _ Hr'), (t_len _ _ (proj1 Ha)).
  rewrite (proj2 (Z.ltb_ge _ _)) by lia. cbn [throw_if]. rewrite bind_ok_l. exists r', (R ++ X). split; [done|]. by apply (t_built true false).
Qed.
End whole.
End ok.
