(* ===== verification/TreedEval.v ===== *)
(** Into and out of the query results with delayed operations: the constructors,
    [allToFull] and the evaluation by [toCQR], and the theorems about [TreedQuery]. *)

From S2P Require Import Prelude UtilMath PackUnpack Storage ByteArray ByteStream Bits CompactUintArray BitSets SetFuncs IndexOps ItemIndexDE ItemIndexRleDE ItemIndexNative ItemIndex ItemIndexFactory CellMerge CellQuery TreedQuery TreedQueryOk.

Lemma sublist_sorted (l k : list Z) : l `sublist_of` k -> sorted k -> sorted l.
Proof.
  induction 1 as [|x l k Hs IH|x l k Hs IH]; [done|intros [Hk Hx]%sorted_cons|intros [Hk _]%sorted_cons; by apply IH].
  constructor; [by apply IH|]. apply Forall_forall. intros z Hz. apply Hx. by eapply elem_of_sublist.
Qed.

Section eval.
Context {St : Type} {IS : IndexStore St} {ISO : IndexStoreOk St} (store : St) (ci : cell_info).
Context (L : list (list Z)) (F : Z) (Hdb : db_ok store ci L).
Context (HFk : has_flag F FF_CELL_LOCAL_ITEM_IDS = false -> has_flag F FF_CELL_GLOBAL_ITEM_IDS = true).
Abbreviation t_rep := (treed_rep ci L F).
Abbreviation t_cells := (tcells_rep ci L F).

(** * Evaluation *)

(** A fetched index never comes from the variable of the caller, unless the tree starts
    with [ToFm]. *)
Lemma combine_fetched o c xA pA fA xB pB fB idx pm i p : combine store ci F o c xA pA fA xB pB fB idx pm = Ok (i, p, FT_FETCHED) ->
  combine store ci F o c xA pA fA xB pB fB None pm = Ok (i, p, FT_FETCHED).
Proof using.
  unfold combine. destruct (throw_if _ _); [|done]. rewrite !bind_ok_l. destruct o; repeat case_match; try done; by intros [=].
Qed.

Lemma flatten_fetched junk fuel ts fx n c idx pm i p : flattenCell store ci F junk fuel ts fx n c idx pm = Ok (i, p, FT_FETCHED) ->
  at_ ts n <> Ok ToFm -> flattenCell store ci F junk fuel ts fx n c None pm = Ok (i, p, FT_FETCHED).
Proof using.
  destruct fuel as [|fuel]; [done|]. cbn [flattenCell]. destruct (at_ ts n) as [nd|]; [|done]. rewrite !bind_ok_l. intros Hf Hn. destruct nd; try done.
  revert Hf. destruct (flattenCell _ _ _ _ fuel ts fx (n + 1) c None junk) as [[[xA pA] fA]|]; [|done]. rewrite !bind_ok_l.
  destruct (flattenCell _ _ _ _ fuel ts fx (n + childB) c None junk) as [[[xB pB] fB]|]; [|done]. rewrite !bind_ok_l. apply combine_fetched.
Qed.

(** The evaluation of a cell with a tree. *)
Lemma flatten_cell_ok junk ts fx d c l idx pm : tcell_ok ci L F ts fx d (c, l) -> hasTree d = true ->
  exists idx' pm' f, flattenCell store ci F junk (S (Z.to_nat (treeSize d))) ts fx (t_begin d) (t_cell d) idx pm = Ok (idx', pm', f) /\
    flat ci L F c l idx idx' pm' f /\ (ts !! Z.to_nat (t_begin d) <> Some ToFm -> f = FT_FETCHED -> ii_rep idx' l).
Proof using Hdb HFk.
  intros [Hc Hid Ht] Hh. rewrite Hh in Ht. destruct Ht as (_ & Hin & t & He & Hok & Hsem & _). cbn [fst snd] in *. subst c l.
  pose proof (inside_len ts d Hin) as Hlen. destruct (hasTree_size ts d Hin) as [_ Hsz]. destruct Hin as (Hb & Hel & Hts).
  set (pre := take (Z.to_nat (t_begin d)) ts). set (post := drop (Z.to_nat (t_end d)) ts).
  assert (ts = pre ++ tree_of ts d ++ post) as Hsplit.
  { unfold pre, post, tree_of. rewrite <- (take_drop (Z.to_nat (t_begin d)) ts) at 1. f_equal.
    rewrite <- (take_drop (Z.to_nat (t_end d - t_begin d)) (drop (Z.to_nat (t_begin d)) ts)) at 1. f_equal. rewrite drop_drop. f_equal. lia. }
  assert (zlen pre = t_begin d) as Hpre by (unfold pre; rewrite length_take; lia).
  assert (forall idx, exists idx' pm' f, flattenCell store ci F junk (S (Z.to_nat (treeSize d))) ts fx (t_begin d) (t_cell d) idx pm = Ok (idx', pm', f) /\
    flat ci L F (t_cell d) (sem ci L F (t_cell d) t) idx idx' pm' f) as Hfl.
  { intros x. destruct (flatten_ok store ci L F Hdb HFk junk fx _ t _ He Hok Hid pre post (S (Z.to_nat (treeSize d))) x pm) as (i & p & f & E & Hf); [lia|].
    rewrite <- Hsplit, Hpre in E. by exists i, p, f. }
  destruct (Hfl idx) as (i & p & f & Ef & Hf). exists i, p, f. do 2 (split; [done|]). intros Hn ->.
  destruct (Hfl None) as (i' & p' & f' & Ef' & Hf'). apply flatten_fetched in Ef.
  - rewrite Ef' in Ef. simplify_eq. cbn [flat] in Hf'. destruct Hf' as [Hr|[-> Hr]]; [done|]. cbn. exact Hr.
  - unfold at_. destruct (Z.ltb_spec (t_begin d) 0); [lia|]. destruct (ts !! Z.to_nat (t_begin d)) eqn:E; congruence.
Qed.

(** The cells before the progress function says to stop. *)
Fixpoint until (pf : Z -> bool) (i : Z) (X : cells) : cells :=
  match X with [] => [] | x :: X => if pf i then x :: until pf (i + 1) X else [] end.

(** No tree that starts with [ToFm] is empty. *)
Definition not_stale (ts : list node) (d : tcell) (cl : Z * list Z) : Prop :=
  hasTree d = true -> ts !! Z.to_nat (t_begin d) = Some ToFm -> snd cl <> [].

(** [T] has the cells of [X] but for some empty ones. *)
Definition thinned (T X : cells) : Prop := T `sublist_of` X /\ forall cl, cl ∈ X -> snd cl <> [] -> cl ∈ T.

Lemma thinned_keep T X x : thinned T X -> thinned (x :: T) (x :: X).
Proof using. intros [Hs Hin]. split; [by constructor|]. intros cl [->|Hcl]%elem_of_cons Hne; [left|right; by apply Hin]. Qed.

Lemma thinned_drop T X c : thinned T X -> thinned T ((c, []) :: X).
Proof using. intros [Hs Hin]. split; [by constructor|]. intros cl [->|Hcl]%elem_of_cons Hne; [done|by apply Hin]. Qed.

Lemma thinned_has T X c z : thinned T X -> has T c z <-> has X c z.
Proof using.
  intros [Hs Hin]. split; intros (l & Hl & Hz); exists l; (split; [|done]).
  - by eapply elem_of_sublist.
  - apply Hin; [done|]. cbn. intros ->. by apply elem_of_nil in Hz.
Qed.

Lemma thinned_keys T X : thinned T X -> sorted (keys X) -> sorted (keys T).
Proof using. intros [Hs _]. apply sublist_sorted. induction Hs; by constructor. Qed.

Context (garbage : nat -> Z).

Lemma toCQR_from_ok junk pf a cap : forall ds X i r R idx pm, Forall2 (tcell_ok ci L F (q_trees a) (q_fetched a)) ds X -> Forall2 (not_stale (q_trees a)) ds X ->
  building ci L F cap r R (length X) -> fresh r ->
  exists r' T, toCQR_from store ci F junk pf a ds i r idx pm = Ok r' /\ building ci L F cap r' (R ++ T) 0 /\ thinned T (until pf i X).
Proof using Hdb HFk.
  intros ds X. revert ds. induction X as [|[c l] X IH]; intros ds i r R idx pm Hc Hst Hr Hf.
  { inversion Hc; subst. exists r, []. rewrite app_nil_r. split; [done|]. split; [done|]. by split. }
  inversion Hc as [|d ? ds' ? Hd Hc']; subst. apply Forall2_cons in Hst as [Hs Hst]. cbn [toCQR_from until length] in *.
  destruct (pf i); [|exists r, []; rewrite app_nil_r; split; [done|]; split; [by eapply building_less; [exact Hr|lia]|by split]].
  pose proof (tc_cell _ _ _ _ _ _ _ Hd) as Hcell. pose proof (tc_id _ _ _ _ _ _ _ Hd) as Hid. cbn [fst] in Hcell. subst c. pose proof (db_cells _ _ _ Hdb) as Hcells.
  assert (forall r1 idx1 pm1, building ci L F cap r1 (R ++ [(t_cell d, l)]) (length X) -> fresh r1 ->
    exists r' T, toCQR_from store ci F junk pf a ds' (i + 1) r1 idx1 pm1 = Ok r' /\ building ci L F cap r' (R ++ T) 0 /\ thinned T ((t_cell d, l) :: until pf (i + 1) X)) as Hkeep.
  { intros r1 idx1 pm1 Hr1 Hf1. destruct (IH ds' (i + 1) r1 _ idx1 pm1 Hc' Hst Hr1 Hf1) as (r' & T & -> & Hr' & HT). exists r', ((t_cell d, l) :: T).
    rewrite <- app_assoc in Hr'. do 2 (split; [done|]). by apply thinned_keep. }
  assert (forall idx1 pm1, l = [] ->
    exists r' T, toCQR_from store ci F junk pf a ds' (i + 1) r idx1 pm1 = Ok r' /\ building ci L F cap r' (R ++ T) 0 /\ thinned T ((t_cell d, l) :: until pf (i + 1) X)) as Hdrop.
  { intros idx1 pm1 ->. destruct (IH ds' (i + 1) r R idx1 pm1 Hc' Hst) as (r' & T & -> & Hr' & HT); [eapply building_less; [exact Hr|lia]|done|].
    exists r', T. do 2 (split; [done|]). by apply thinned_drop. }
  assert (sorted l /\ forall z, z ∈ l -> z ∈ full_items ci L F (t_cell d)) as [Hsl Hsub].
  { split; [|apply (cell_items store ci L F Hdb _ _ _ _ _ Hd)]. pose proof (tc_tree _ _ _ _ _ _ _ Hd) as Ht. cbn [snd] in Ht. destruct (hasTree d).
    - destruct Ht as (_ & _ & t & _ & Hok & <- & _). apply (sem_ok store ci L F Hdb _ t Hid Hok).
    - destruct Ht as [_ Ht]. destruct (t_full d); [subst l; by apply (full_sorted store)|]. destruct Ht as (id & _ & Hok & <-). apply (sem_ok store ci L F Hdb _ (TPm id) Hid Hok). }
  assert (forall (s : slot) (fet : bool), (if fet then exists i, s = SIdx i /\ ii_rep i l else exists id, s = SPtr (Z.of_nat id) /\ L !! id = Some l) ->
    exists r1, push_cell r s (newDesc false fet (t_cell d)) = Ok r1 /\ building ci L F cap r1 (R ++ [(t_cell d, l)]) (length X) /\ fresh r1) as Hpush.
  { intros s fet Hs'. rewrite newDesc_id by lia. destruct (push_cell_ok ci L F cap r R (length X) s (mkDesc false fet (t_cell d)) l Hr) as (r1 & Hp & Hr1).
    - split; cbn; try done. destruct fet; [done|]. destruct Hs' as (id & -> & Hl). exists (Z.of_nat id). split; [done|]. intros _. by exists id.
    - exists r1. do 2 (split; [done|]). by eapply push_cell_fresh. }
  destruct (push_full_ok store ci L F Hdb cap r R (length X) (t_cell d) Hr Hf Hid) as [Hfull Hffull].
  destruct (hasTree d) eqn:Hh.
  - destruct (flatten_cell_ok junk _ _ d _ l idx pm Hd Hh) as (idx' & pm' & f & E & Hfl & Hfet). rewrite E, bind_ok_l.
    destruct f; cbn [flat] in Hfl; [done|..]; rewrite bool_decide_false by done; cbn [throw_if]; rewrite bind_ok_l.
    + destruct Hfl as (id & -> & Hl & _). destruct (Hpush (SPtr (Z.of_nat id)) false) as (r1 & -> & ? & ?); [by exists id|]. rewrite bind_ok_l. by apply Hkeep.
    + rewrite bind_ok_l. subst l. by apply Hkeep.
    + destruct (decide (q_trees a !! Z.to_nat (t_begin d) = Some ToFm)) as [Hto|Hto].
      * destruct Hfl as [Hrep|[-> ->]]; [|by destruct (Hs Hh Hto)]. rewrite (ii_size_ok idx' l Hrep).
        rewrite (proj2 (Z.eqb_neq _ _)) by (specialize (Hs Hh Hto); cbn [snd] in Hs; destruct l; [done|cbn [length]; lia]). cbn [negb].
        destruct (Hpush (SIdx idx') true) as (r1 & -> & ? & ?); [by exists idx'|]. rewrite bind_ok_l. by apply Hkeep.
      * specialize (Hfet Hto eq_refl). rewrite (ii_size_ok idx' l Hfet). destruct (Z.eqb_spec (zlen l) 0) as [E0|E0]; cbn [negb].
        -- rewrite bind_ok_l. apply Hdrop. destruct l; [done|cbn [length] in E0; lia].
        -- destruct (Hpush (SIdx idx') true) as (r1 & -> & ? & ?); [by exists idx'|]. rewrite bind_ok_l. by apply Hkeep.
    + rewrite bind_ok_l. apply Hdrop, Hfl.
  - pose proof (tc_tree _ _ _ _ _ _ _ Hd) as Ht. rewrite Hh in Ht. destruct Ht as [_ Ht]. cbn [snd] in Ht. destruct (t_full d).
    + rewrite bind_ok_l. subst l. by apply Hkeep.
    + destruct Ht as (id & -> & (k & Hk & _) & Hsem). cbn [sem] in Hsem. rewrite Hk in Hsem. cbn in Hsem. subst k.
      destruct (Hpush (SPtr (Z.of_nat id)) false) as (r1 & -> & ? & ?); [by exists id|]. rewrite bind_ok_l. by apply Hkeep.
Qed.

(** [toCQR] gives a query result for the cells before the one the progress function stops
    at, without some of the empty ones. *)
Lemma toCQR_ok junk pf a X : t_rep a X -> Forall2 (not_stale (q_trees a)) (q_desc a) X ->
  exists r T, toCQR store ci garbage junk pf a = Ok r /\ cqr_rep ci L F r T /\ thinned T (until pf 0 X).
Proof using Hdb HFk.
  intros (Ha & Hs & _) Hst. unfold toCQR. rewrite (tr_flags _ _ _ _ _ Ha). rewrite (Forall2_length _ _ _ (tr_cells _ _ _ _ _ Ha)).
  destruct (toCQR_from_ok junk pf a (length X) (q_desc a) X 0 (cqr_alloc garbage F (length X)) [] None junk) as (r & T & -> & Hr & HT);
    [apply Ha|done|apply alloc_ok|intros i s _; apply malloc_ptr|]. exists r, T. split; [done|]. split; [|done]. split; [apply Hr|].
  apply (thinned_keys _ _ HT). eapply sublist_sorted; [|exact Hs]. clear. generalize 0. induction X as [|x X IH]; intros i; cbn; [done|].
  destruct (pf i); [by constructor|]. apply sublist_nil_l.
Qed.

Lemma until_all pf X : (forall i, pf i = true) -> forall i, until pf i X = X.
Proof using. intros Hpf. induction X as [|x X IH]; intros i; cbn; [done|]. by rewrite Hpf, IH. Qed.

(** * All items of the cells *)

Definition to_full (cl : Z * list Z) : Z * list Z := (fst cl, if decide (snd cl = []) then [] else full_items ci L F (fst cl)).

Lemma toFull_cells_ok a : forall ds X lo r R, Forall2 (tcell_ok ci L F (q_trees a) (q_fetched a)) ds X -> layout lo ds (tsize a) ->
  growing ci L F r R (tsize a - lo + zlen ds) ->
  exists r', toFull_cells a ds r = Ok r' /\ growing ci L F r' (R ++ map to_full X) 0 /\ length (q_desc r') = (length (q_desc r) + length ds)%nat.
Proof using Hdb.
  intros ds X lo r R Hc. revert lo r R. induction Hc as [|d [c l] ds X Hd Hc IH]; intros lo r R Hl Hr; cbn [toFull_cells map].
  { exists r. rewrite app_nil_r. split; [done|]. cbn in Hl. split; [|cbn; lia]. eapply growing_less; [exact Hr|cbn [length]; lia]. }
  cbn [layout length] in *. pose proof (tc_cell _ _ _ _ _ _ _ Hd) as Hcell. pose proof (tc_id _ _ _ _ _ _ _ Hd) as Hid. cbn [fst] in Hcell. subst c.
  pose proof (tc_tree _ _ _ _ _ _ _ Hd) as Ht. destruct (hasTree d) eqn:Hh.
  - destruct Hl as [Hlo Hl]. pose proof (layout_bound _ _ _ Hl). destruct Hr as [Hr Hn]. pose proof (tr_fetched _ _ _ _ _ Hr) as Hx.
    unfold push_node. destruct (copy_tree_ok ci L F a d (t_cell d, l) (mkT (q_flags r) (q_desc r) (q_trees r ++ [ToFm]) (q_fetched r) (q_hasFetchedNodes r)) Hd Hh) as
      (ns & ext & h & -> & H1 & H2 & H3 & t & He & Hok & Hsem & Hp);
      [unfold tsize in *; cbn [q_trees q_fetched]; rewrite length_app; cbn [length]; lia|unfold cost; rewrite Hh; unfold tsize in *; cbn [q_trees]; rewrite length_app; cbn [length]; lia|].
    rewrite bind_ok_l. cbn [q_flags q_desc q_trees q_fetched q_hasFetchedNodes snd] in *. unfold cost in H1. rewrite Hh in H1. unfold tsize at 2. cbn [q_trees].
    rewrite <- app_assoc. cbn [app].
    assert (growing ci L F (push_tcell (mkT (q_flags r) (q_desc r) (q_trees r ++ ToFm :: ns) (q_fetched r ++ ext) h)
      (newTC false (t_fetched d) (t_cell d) 0 (tsize r) (zlen (q_trees r ++ ToFm :: ns)))) (R ++ [to_full (t_cell d, l)]) (tsize a - t_end d + zlen ds)) as Hg.
    { subst l. apply (push_new_ok store ci L F Hdb r R (ToFm :: ns) ext h (t_cell d) (TTo t)); try done; cbn [length]; try lia; by constructor. }
    destruct (IH (t_end d) _ _ Hl Hg) as (r' & -> & Hr' & Hlen). exists r'. rewrite <- app_assoc in Hr'. do 2 (split; [done|]).
    rewrite Hlen. cbn [push_tcell q_desc]. rewrite length_app. cbn [length]. lia.
  - assert (to_full (t_cell d, l) = (t_cell d, full_items ci L F (t_cell d))) as ->.
    { unfold to_full. cbn [fst snd]. destruct Ht as [_ Ht]. cbn [snd] in Ht. destruct (decide (l = [])) as [El|]; [|done]. destruct (t_full d).
      - by rewrite <- Ht, El.
      - destruct Ht as (id & _ & (k & Hk & Hne & _) & Hsem). cbn [sem] in Hsem. rewrite Hk in Hsem. cbn in Hsem. congruence. }
    pose proof (layout_bound _ _ _ Hl).
    assert (growing ci L F r R (tsize a - lo + zlen ds)) as Hg by (eapply growing_less; [exact Hr|lia]).
    destruct (IH lo _ _ Hl (push_fm_ok store ci L F Hdb (t_cell d) r R (tsize a - lo + zlen ds) Hid ltac:(lia) Hg)) as (r' & -> & Hr' & Hlen).
    exists r'. rewrite <- app_assoc in Hr'. do 2 (split; [done|]). rewrite Hlen. cbn [push_tcell q_desc]. rewrite length_app. cbn [length]. lia.
Qed.

Lemma t_allToFull_ok a X : t_rep a X -> tsize a + zlen X < 2 ^ 32 -> exists r, t_allToFull a = Ok r /\ t_rep r (map to_full X).
Proof using Hdb.
  intros (Ha & Hs & Hn) Hlen. pose proof (Forall2_length _ _ _ (tr_cells _ _ _ _ _ Ha)) as Hl. unfold t_allToFull.
  destruct (toFull_cells_ok a (q_desc a) X 0 (t_new (q_flags a)) []) as (r & -> & [Hr Hnr] & Hd); [apply Ha|apply Ha| |].
  { split; [|unfold tsize in *; cbn; lia]. split; [apply Ha|apply List.Forall2_nil|unfold tsize; cbn; lia..]. }
  rewrite bind_ok_l. cbn [t_new q_desc length] in Hd. rewrite Hd. cbn [Nat.add]. rewrite Z.eqb_refl. cbn [negb throw_if]. rewrite bind_ok_l. exists r. split; [done|].
  split; [done|]. split; [|lia]. replace (keys (map to_full X)) with (keys X); [done|]. unfold keys. by rewrite map_map.
Qed.

(** * The constructors *)

(** What an item of a partial match must be for [add] to add it. *)
Definition adds {A} (add : tcqr -> Z -> A -> tcqr) (ok : A -> Z * list Z -> Prop) : Prop := forall x c l r R n, ok x (c, l) -> 0 <= n ->
  growing ci L F r R (1 + n) -> growing ci L F (add r c x) (R ++ [(c, l)]) n.

Definition pm_ok (id : Z) (cl : Z * list Z) : Prop := item_ok ci L F SPtr false id cl /\ snd cl <> [].

Lemma push_pm_adds : adds push_pm pm_ok.
Proof using Hdb.
  intros id c l r R n [[Hc Hok] Hne] Hn Hr. cbn [fst snd] in *. pose proof (co_slot _ _ _ _ _ _ Hok) as Hsl. cbn in Hsl. destruct Hsl as (p & [= <-] & Hp).
  destruct (Hp eq_refl) as (k & -> & Hk). pose proof (co_sub _ _ _ _ _ _ Hok) as Hsub. cbn [cellId] in Hsub. unfold push_pm.
  destruct (new_cell_ok store ci L Hdb false false c (Z.of_nat k) notree notree Hc) as (E1 & _ & _); [done|done|]. pose proof (lookup_lt_Some _ _ _ Hk). pose proof (st_few _ _ (db_store _ _ _ Hdb)).
  apply (push_treeless_ok ci L F [] []); [|done|done|eapply growing_less; [exact Hr|lia]]. split; cbn [fst snd]; [done|by rewrite E1|]. split; [done|].
  cbn [newTC t_full]. exists k. cbn [newTC t_pm]. rewrite (wrap_small 32) by (unfold fits; lia). split; [done|]. cbn [tree_ok sem]. rewrite Hk. split; [|done].
  exists l. split; [done|]. split; [done|]. by rewrite E1.
Qed.

Lemma push_fetched_adds : adds push_fetched (item_ok ci L F SIdx true).
Proof using Hdb.
  intros i c l r R n [Hc Hok] Hn [Hr Hnr]. cbn [fst snd] in *. pose proof (co_slot _ _ _ _ _ _ Hok) as Hsl. cbn in Hsl. destruct Hsl as (i' & [= <-] & Hi).
  pose proof (co_sub _ _ _ _ _ _ Hok) as Hsub. cbn [cellId] in Hsub. pose proof (tr_fetched _ _ _ _ _ Hr) as Hx. unfold push_fetched, push_node.
  cbn [q_flags q_desc q_trees q_fetched q_hasFetchedNodes]. rewrite (wrap_small 60) by (unfold fits, tsize in *; lia). unfold tsize at 2. cbn [q_trees].
  pose proof (co_sorted _ _ _ _ _ _ Hok).
  apply (push_new_ok store ci L F Hdb r R [FetchedLeaf (zlen (q_fetched r))] [i] (q_hasFetchedNodes r) c (TFetched l)); try done; cbn [length]; try lia.
  econstructor; [by apply list_lookup_middle|done].
Qed.

Lemma t_merge_ok {A} (add : tcqr -> Z -> A -> tcqr) ok (Hadd : adds add ok) fuel : forall fm pm items r R,
  Forall (fun c => 0 <= c < ci_cellSize ci) fm -> Forall2 ok items pm -> growing ci L F r R (zlen pm) -> (length fm + length pm < fuel)%nat ->
  exists r' T, t_merge add fuel fm (map fst pm) items r = Ok r' /\ growing ci L F r' (R ++ T) 0 /\ cmerge true true (fun _ x _ => x) (fulls ci L F fm) pm T.
Proof using Hdb.
  induction fuel as [|fuel IH]; intros fm pm items r R Hfm Hpm Hr Hfu; [lia|]. cbn [t_merge].
  assert (forall f n, 0 <= f < ci_cellSize ci -> 0 <= n -> growing ci L F r R n -> growing ci L F (push_fm r f) (R ++ [(f, full_items ci L F f)]) n) as Hfull
    by (intros; by apply (push_fm_ok store)).
  destruct fm as [|f fm], pm as [|[p l] pm]; cbn [map fst length] in *.
  - exists r, []. rewrite app_nil_r. do 2 (split; [done|]). apply (cm_nil_l true true).
  - inversion Hpm as [|x ? items' ? Hx Hpm']; subst. rewrite (at_ok _ 0 x), bind_ok_l by done. cbn [tail].
    destruct (IH [] pm items' (add r p x) (R ++ [(p, l)])) as (r' & T & -> & Hr' & HT); try done; [apply Hadd; [done|lia|eapply growing_less; [exact Hr|lia]]|cbn [length]; lia|].
    exists r', ((p, l) :: T). rewrite <- app_assoc in Hr'. do 2 (split; [done|]). apply cmerge_alone_l in HT as ->. apply (cm_nil_l true true).
  - inversion Hpm; subst. apply Forall_cons in Hfm as [Hc Hfm].
    destruct (IH fm [] [] (push_fm r f) (R ++ [(f, full_items ci L F f)]) Hfm Hpm) as (r' & T & E & Hr' & HT); [apply Hfull; [done|cbn; lia|done]|cbn [length]; lia|].
    cbn [map] in E. rewrite E.
    exists r', ((f, full_items ci L F f) :: T). rewrite <- app_assoc in Hr'. do 2 (split; [done|]). apply cmerge_alone_r in HT as ->. apply (cm_nil_r true true).
  - inversion Hpm as [|x ? items' ? Hx Hpm']; subst. pose proof Hfm as [Hc Hfm']%Forall_cons. cbn [tail].
    destruct (Z.ltb_spec f p) as [Hlt|Hge]; [|destruct (Z.eqb_spec f p) as [<-|Hne]].
    + destruct (IH fm ((p, l) :: pm) (x :: items') (push_fm r f) (R ++ [(f, full_items ci L F f)]) Hfm' Hpm) as (r' & T & E & Hr' & HT);
        [apply Hfull; [done|lia|done]|cbn [length]; lia|].
      cbn [map fst] in E. rewrite E. exists r', ((f, full_items ci L F f) :: T). rewrite <- app_assoc in Hr'. do 2 (split; [done|]). by apply (cm_lt true true).
    + destruct (IH fm pm items' (push_fm r f) (R ++ [(f, full_items ci L F f)]) Hfm' Hpm') as (r' & T & -> & Hr' & HT);
        [apply Hfull; [done|lia|eapply growing_less; [exact Hr|lia]]|lia|].
      exists r', ((f, full_items ci L F f) :: T). rewrite <- app_assoc in Hr'. do 2 (split; [done|]).
      apply (cm_eq true true (fun _ x _ => x) f (full_items ci L F f) l (fulls ci L F fm) pm [(f, full_items ci L F f)]); [by apply out_one|done].
    + rewrite (at_ok _ 0 x), bind_ok_l by done.
      destruct (IH (f :: fm) pm items' (add r p x) (R ++ [(p, l)]) Hfm Hpm') as (r' & T & -> & Hr' & HT);
        [apply Hadd; [done|lia|eapply growing_less; [exact Hr|lia]]|cbn [length]; lia|].
      exists r', ((p, l) :: T). rewrite <- app_assoc in Hr'. do 2 (split; [done|]). apply (cm_gt true true); [lia|done].
Qed.

Lemma sorted_few (ids : list Z) : sorted ids -> Forall (fun c => 0 <= c < ci_cellSize ci) ids -> zlen ids <= 2 ^ 30.
Proof using Hdb.
  intros Hs Hids. pose proof (db_cells _ _ _ Hdb). pose proof (sorted_range_len 0 (2 ^ 30) ids Hs) as Hl.
  enough (zlen ids <= Z.max 0 (2 ^ 30 - 0)) by lia. apply Hl. rewrite Forall_forall in Hids. intros z Hz%Hids. lia.
Qed.

Lemma t_empty_ok h n : n < 2 ^ 32 -> growing ci L F (mkT F [] [] [] h) [] n.
Proof using. intros Hn. split; [|unfold tsize; cbn; lia]. split; [done|apply List.Forall2_nil|unfold tsize; cbn; lia..]. Qed.

Lemma t_constructor {A} (add : tcqr -> Z -> A -> tcqr) ok (Hadd : adds add ok) fm pm items h : sorted fm -> sorted (keys pm) ->
  Forall (fun c => 0 <= c < ci_cellSize ci) fm -> Forall (fun c => 0 <= c < ci_cellSize ci) (keys pm) -> Forall2 ok items pm ->
  exists r R, t_merge add (S (length fm + length (keys pm))) fm (keys pm) items (mkT F [] [] [] h) = Ok r /\ t_rep r R /\
    forall c z, has R c z <-> (c ∈ fm /\ z ∈ full_items ci L F c) \/ (c ∉ fm /\ has pm c z).
Proof using Hdb.
  intros Hfs Hps Hfm Hpi Hpm. pose proof (sorted_few _ Hfs Hfm) as Hfl. pose proof (sorted_few _ Hps Hpi) as Hpl.
  assert (length (keys pm) = length pm) as Hkl by (unfold keys; by rewrite length_map). rewrite Hkl in *.
  destruct (t_merge_ok add ok Hadd (S (length fm + length pm)) fm pm items (mkT F [] [] [] h) [] Hfm Hpm) as (r & T & E & [Hr Hn] & HT); [apply t_empty_ok; lia|lia|].
  change (map fst pm) with (keys pm) in E. rewrite E.
  exists r, T. split; [done|]. destruct (fulls_merge ci L F fm pm T Hfs Hps HT) as [Hs Hin]. split; [|done]. split; [done|]. split; [done|]. lia.
Qed.

(** From a query result, which has no id of an empty index. *)
Definition no_empty_id (c : cqr) (m : cells) : Prop := forall i d l, m_desc c !! i = Some d -> m !! i = Some (cellId d, l) ->
  fullMatch d = false -> fetched d = false -> l <> [].

Lemma t_from_ok c m : cqr_rep ci L F c m -> no_empty_id c m -> forall X pre r, m = pre ++ X -> growing ci L F r pre (zlen X) ->
  exists r', t_from ci (length X) c (zlen pre) r = Ok r' /\ growing ci L F r' m 0.
Proof using Hdb.
  intros Hc Hne. pose proof (rep_few store ci L F Hdb c m Hc) as Hfew. induction X as [|[k l] X IH]; intros pre r Hm Hr; cbn [length t_from].
  { exists r. rewrite app_nil_r in Hm. subst m. done. }
  assert (m !! length pre = Some (k, l)) as Hi by (by rewrite Hm, list_lookup_middle).
  destruct (rep_at ci L F c m (length pre) k l (proj1 Hc) Hi) as (d & s & Hd & Hs & <- & Hok). rewrite (at_ok _ _ _ Hd), bind_ok_l.
  pose proof (co_id _ _ _ _ _ _ Hok) as Hid. pose proof (co_slot _ _ _ _ _ _ Hok) as Hsl.
  assert (exists r1, (if fetched d then x ← idx_at c (zlen pre); mret (push_fetched r (cellId d) x)
     else if fullMatch d then Ok (push_fm r (cellId d)) else p ← idxId ci c (zlen pre); mret (push_pm r (cellId d) p)) = Ok r1 /\
     growing ci L F r1 (pre ++ [(cellId d, l)]) (zlen X)) as (r1 & -> & Hr1).
  { cbn [length] in Hr. destruct (fetched d) eqn:Hf; [|destruct (fullMatch d) eqn:Hfull].
    - destruct Hsl as (i & -> & Hrep). rewrite (slot_idx c _ i Hs), bind_ok_l. eexists. split; [done|].
      apply push_fetched_adds; [|lia|eapply growing_less; [exact Hr|lia]]. split; [done|]. split; cbn; try done; [apply Hok|apply Hok|by exists i].
    - eexists. split; [done|]. rewrite (co_full _ _ _ _ _ _ Hok Hfull). apply (push_fm_ok store); [done|done|lia|eapply growing_less; [exact Hr|lia]].
    - destruct Hsl as (p & -> & Hp). unfold idxId. rewrite (at_ok _ _ _ Hd), bind_ok_l, Hfull, (slot_ptr c _ p Hs), bind_ok_l. eexists. split; [done|].
      apply push_pm_adds; [|lia|eapply growing_less; [exact Hr|lia]]. split; [|by apply (Hne _ d l Hd Hi)]. split; [done|]. split; cbn; try done; [apply Hok|apply Hok|].
      exists p. split; [done|]. intros _. by apply Hp. }
  rewrite bind_ok_l. assert (zlen pre + 1 = zlen (pre ++ [(cellId d, l)])) as Hp by (rewrite length_app; cbn [length]; lia).
  rewrite wrap_small by (unfold fits; rewrite Hm, length_app in Hfew; cbn [length] in Hfew; lia). rewrite Hp.
  apply IH; [by rewrite <- app_assoc|done].
Qed.

Lemma t_of_cqr_ok c m : cqr_rep ci L F c m -> no_empty_id c m -> exists r, t_of_cqr ci c = Ok r /\ t_rep r m.
Proof using Hdb.
  intros Hc Hne. pose proof (rep_few store ci L F Hdb c m Hc). unfold t_of_cqr. rewrite (cr_len _ _ _ _ _ (proj1 Hc)), (cr_flags _ _ _ _ _ (proj1 Hc)).
  destruct (t_from_ok c m Hc Hne m [] (t_new F) eq_refl) as (r & Hr & Hg & Hn); [apply t_empty_ok; lia|]. exists r. split; [exact Hr|].
  split; [done|]. split; [apply Hc|lia].
Qed.

Lemma t_new_full_ok fm : Forall (fun c => 0 <= c < ci_cellSize ci) fm -> forall r R, growing ci L F r R 0 ->
  growing ci L F (fold_left push_fm fm r) (R ++ fulls ci L F fm) 0.
Proof using Hdb.
  induction 1 as [|c fm Hc Hfm IH]; intros r R Hr; cbn [fold_left fulls map]; [by rewrite app_nil_r|].
  replace (R ++ (c, full_items ci L F c) :: map (fun c => (c, full_items ci L F c)) fm) with ((R ++ [(c, full_items ci L F c)]) ++ fulls ci L F fm) by (by rewrite <- app_assoc).
  apply IH. by apply (push_fm_ok store).
Qed.

Lemma t_new_cell_ok (full : bool) c id l : 0 <= c < ci_cellSize ci -> (if full then l = full_items ci L F c else pm_ok id (c, l)) -> t_rep (t_new_cell full c id F) [(c, l)].
Proof using Hdb.
  intros Hc Hl. assert (growing ci L F (t_new_cell full c id F) ([] ++ [(c, l)]) 0) as [Hr Hn]; [|split; [done|split; [repeat constructor|lia]]].
  unfold t_new_cell. destruct full.
  - subst l. apply (push_fm_ok store); [done|done|done|by apply t_empty_ok].
  - apply (push_pm_adds id c l (t_new F) [] 0 Hl); [done|by apply t_empty_ok].
Qed.

(** * Trees without [ToFm] *)

Definition no_to (r : tcqr) : Prop := ToFm ∉ q_trees r.

Lemma adjust_no src ns dest ns' d : adjust src ns dest = Ok (ns', d) -> ToFm ∉ ns -> ToFm ∉ ns'.
Proof using.
  revert dest ns' d. induction ns as [|n ns IH]; intros dest ns' d; cbn [adjust]; [by intros [= <- <-]|].
  rewrite not_elem_of_cons. intros Ha [Hn Hns].
  assert (forall ds nd, ('(ns, d) ← adjust src ns ds; mret (nd :: ns, d)) = Ok (ns', d) -> nd <> ToFm -> ToFm ∉ ns') as Hgo.
  { intros ds nd (x & Hx & E)%bind_ok Hnd. destruct x as [ns1 d1]. injection E as <- <-. rewrite not_elem_of_cons. split; [done|]. by apply (IH ds ns1 d1). }
  destruct n; try (by eapply Hgo). apply bind_ok in Ha as (i & _ & Ha). by eapply Hgo.
Qed.

Lemma slice_no ns b e ms : slice ns b e = Ok ms -> ToFm ∉ ns -> ToFm ∉ ms.
Proof using.
  unfold slice. case_match; [|done]. intros [= <-] Hn Hin. apply Hn. apply (subseteq_drop (Z.to_nat b)). by apply (subseteq_take (Z.to_nat (e - b))).
Qed.

Lemma no_to_one n : n <> ToFm -> ToFm ∉ [n].
Proof using. intros Hn Hin. by apply list_elem_of_singleton in Hin. Qed.

Lemma no_to_app r1 r2 : ToFm ∉ r1 -> ToFm ∉ r2 -> ToFm ∉ r1 ++ r2.
Proof using. rewrite not_elem_of_app. done. Qed.

Lemma copyTree_no src d r r' : copyTree src d r = Ok r' -> no_to src -> no_to r -> no_to r'.
Proof using.
  unfold copyTree, no_to. intros (ns & Hs & H)%bind_ok Hsrc Hr. pose proof (slice_no _ _ _ _ Hs Hsrc). destruct (t_fetched d).
  - apply bind_ok in H as ([ns' fx] & Ha & [= <-]). apply no_to_app; [done|]. by eapply adjust_no.
  - injection H as <-. by apply no_to_app.
Qed.

Lemma operand_no src d r r' : operand src d r = Ok r' -> no_to src -> no_to r -> no_to r'.
Proof using.
  unfold operand. case_match; [apply copyTree_no|]. intros [= <-] _ Hr. apply no_to_app; [done|]. case_match; by apply no_to_one.
Qed.

Lemma build_op_no o a ca b cb r r' : build_op o a ca b cb r = Ok r' -> no_to a -> no_to b -> no_to r -> no_to r'.
Proof using.
  unfold build_op. intros (r1 & H1 & (r2 & H2 & (r3 & H3 & [= <-])%bind_ok)%bind_ok)%bind_ok Ha Hb Hr.
  apply (operand_no _ _ _ _ H3 Hb). unfold set_childB in H2. destruct (q_trees r1 !! length (q_trees r)) as [n|]; [|done].
  destruct n; try done. injection H2 as <-. unfold no_to. cbn [q_trees]. assert (no_to r1) as Hn1.
  { apply (operand_no _ _ _ _ H1 Ha). apply no_to_app; [done|]. by apply no_to_one. }
  intros [i Hi]%list_elem_of_lookup. apply list_lookup_insert_Some in Hi as [(_ & ? & _)|[_ Hi]]; [done|]. by apply Hn1, (list_elem_of_lookup_2 _ i).
Qed.

Lemma push_tree_no src d f x c p r r' : push_tree src d f x c p r = Ok r' -> no_to src -> no_to r -> no_to r'.
Proof using. unfold push_tree. intros (r1 & H1 & [= <-])%bind_ok Hs Hr. by apply (copyTree_no _ _ _ _ H1). Qed.

Lemma tcopy_no src d r r' : tcopy src d r = Ok r' -> no_to src -> no_to r -> no_to r'.
Proof using. unfold tcopy. case_match; [apply push_tree_no|]. by intros [= <-]. Qed.

Lemma tloop_no a b keepMy keepO equal : (forall my o r r', equal my o r = Ok r' -> no_to r -> no_to r') -> no_to a -> no_to b ->
  forall fuel r i j r' i' j', tloop a b keepMy keepO equal fuel r i j = Ok (r', i', j') -> no_to r -> no_to r'.
Proof using.
  intros Heq Ha Hb. induction fuel as [|fuel IH]; [done|]. intros r i j r' i' j'. cbn [tloop]. case_match; [|by intros [= <- _ _]].
  intros (my & _ & (o & _ & Hs)%bind_ok)%bind_ok Hr. case_match; [|case_match].
  - apply bind_ok in Hs as (r1 & Hs & Hl). apply (IH _ _ _ _ _ _ Hl). destruct keepMy; [by apply (tcopy_no _ _ _ _ Hs)|by injection Hs as <-].
  - apply bind_ok in Hs as (r1 & Hs & Hl). apply (IH _ _ _ _ _ _ Hl). destruct keepO; [by apply (tcopy_no _ _ _ _ Hs)|by injection Hs as <-].
  - apply bind_ok in Hs as (r1 & Hs & Hl). apply (IH _ _ _ _ _ _ Hl). by apply (Heq _ _ _ _ Hs).
Qed.

Lemma fix_cells_no src corr n : forall r i r', fix_cells src corr n r i = Ok r' -> no_to r -> no_to r'.
Proof using.
  induction n as [|n IH]; intros r i r'; cbn [fix_cells]; [by intros [= <-]|]. intros (cd & _ & H)%bind_ok Hr. destruct (hasTree cd); [|by apply (IH _ _ _ H)].
  apply bind_ok in H as (r1 & H1 & H). apply (IH _ _ _ H). unfold copyFetchedIndices in H1. destruct (t_fetched _); [|by injection H1 as <-].
  apply bind_ok in H1 as (ns & Hs & ([ns' fx] & Hj & [= <-])%bind_ok). cbn [q_trees] in *. unfold no_to in *. cbn [q_trees].
  apply no_to_app; [|apply no_to_app].
  - intros Hin. apply Hr. by apply (subseteq_take (Z.to_nat (t_begin (moved corr cd)))).
  - eapply adjust_no; [exact Hj|]. by eapply slice_no.
  - intros Hin. apply Hr. by apply (subseteq_drop (Z.to_nat (t_end (moved corr cd)))).
Qed.

Lemma trest_no c i r r' : trest c i r = Ok r' -> no_to c -> no_to r -> no_to r'.
Proof using.
  unfold trest. destruct (i <? _); [|by intros [= <-]]. intros H Hc Hr. destruct (_ <? _); [|by injection H as <-].
  apply bind_ok in H as (first & _ & (ns & Hs & H)%bind_ok). apply (fix_cells_no _ _ _ _ _ _ H). cbn [q_trees]. apply no_to_app; [done|]. by eapply slice_no.
Qed.

Lemma equal_no a b my o r r' : no_to a -> no_to b -> no_to r ->
  t_intersect_equal a b my o r = Ok r' \/ t_unite_equal a b my o r = Ok r' \/ t_diff_equal a b my o r = Ok r' \/ t_symDiff_equal a b my o r = Ok r' -> no_to r'.
Proof using.
  intros Ha Hb Hr [H|[H|[H|H]]]; unfold t_intersect_equal, t_unite_equal, t_diff_equal, t_symDiff_equal in H;
    repeat case_match; try (injection H as <-; exact Hr); first [by eapply build_op_no|by eapply push_tree_no].
Qed.

Lemma t_op_no a b r : no_to a -> no_to b -> t_intersect a b = Ok r \/ t_unite a b = Ok r \/ t_diff a b = Ok r \/ t_symDiff a b = Ok r -> no_to r.
Proof using.
  intros Ha Hb H. assert (no_to (t_new (q_flags a))) as Hnew by exact (not_elem_of_nil ToFm).
  assert (forall kA kB equal r i j, (forall my o r r', equal my o r = Ok r' -> no_to r -> no_to r') ->
    tloop a b kA kB equal (fuel_of a b) (t_new (q_flags a)) 0 0 = Ok (r, i, j) -> no_to r) as Hloop
    by (intros kA kB equal r0 i j Heq Hl; exact (tloop_no a b kA kB equal Heq Ha Hb _ _ _ _ _ _ _ Hl Hnew)).
  destruct H as [H|[H|[H|H]]]; apply bind_ok in H as (? & _ & ([[r1 i] j] & Hl & H)%bind_ok); (assert (no_to r1) as H1 by (eapply Hloop; [|exact Hl]; intros my o r0 r0' ? ?; apply (equal_no a b my o r0 r0'); tauto));
    inv_result; simplify_eq; try done; repeat case_match; by eapply trest_no.
Qed.

Lemma t_of_cqr_no c r : t_of_cqr ci c = Ok r -> no_to r.
Proof using.
  unfold t_of_cqr. assert (no_to (t_new (m_flags c))) as Hnew by exact (not_elem_of_nil ToFm). revert Hnew. generalize (t_new (m_flags c)) 0.
  induction (length (m_desc c)) as [|n IH]; intros r0 i Hr; cbn [t_from]; [by intros [= <-]|].
  intros (cd & _ & (r1 & H1 & H)%bind_ok)%bind_ok. eapply IH; [|exact H]. repeat case_match; inv_result; simplify_eq; try done.
  apply no_to_app; [done|]. by apply no_to_one.
Qed.

Lemma t_of_cqr_small c r : t_of_cqr ci c = Ok r -> tsize r <= zlen (m_desc c).
Proof using.
  assert (forall n r0 i, t_from ci n c i r0 = Ok r -> tsize r <= tsize r0 + Z.of_nat n) as Hfrom.
  { induction n as [|n IH]; intros r0 i; cbn [t_from]; [intros [= <-]; lia|]. intros (cd & _ & (r1 & H1 & H)%bind_ok)%bind_ok. apply IH in H.
    enough (tsize r1 <= tsize r0 + 1) by lia. repeat case_match; inv_result; simplify_eq; unfold tsize; cbn; rewrite ?length_app; cbn; lia. }
  intros H. apply Hfrom in H. cbn in H. unfold tsize in *. cbn in H. lia.
Qed.

Lemma no_to_fresh a X : t_cells a X -> no_to a -> Forall2 (not_stale (q_trees a)) (q_desc a) X.
Proof using.
  intros Ha Hn. eapply Forall2_impl; [apply Ha|]. intros d cl _ _ Hto. destruct Hn. by eapply list_elem_of_lookup_2.
Qed.
End eval.

(** * Properties *)

Definition only_kind (F : Z) : Prop := has_flag F FF_CELL_LOCAL_ITEM_IDS = false -> has_flag F FF_CELL_GLOBAL_ITEM_IDS = true.

(** The operation [o], with the handler's answer in terms of cells. *)
Lemma op_in3 (o : op) A B R keepA keepB c z : sorted (keys A) -> sorted (keys B) ->
  (keepA, keepB) = match o with OIntersect => (false, false) | ODiff => (true, false) | _ => (true, true) end ->
  (has R c z <-> in3 keepA keepB (fun _ => op_prop o) A B c z) -> (has R c z <-> op_prop o (has A c z) (has B c z)).
Proof.
  intros HA HB Hk ->. apply in3_plain; [done|done|intros; by apply op_prop_ext|destruct o; simplify_eq; cbn; naive_solver..].
Qed.

Lemma treed_op {St : Type} {IS : IndexStore St} {ISO : IndexStoreOk St} (store : St) ci L F (o : op) a b A B :
  db_ok store ci L -> treed_rep ci L F a A -> treed_rep ci L F b B -> has_flag F FF_EMPTY = false ->
  tsize a + tsize b + 2 * (zlen A + zlen B) < 2 ^ 32 ->
  exists r R, (match o with OIntersect => t_intersect | OUnite => t_unite | ODiff => t_diff | OSymDiff => t_symDiff end) a b = Ok r /\
    treed_rep ci L F r R /\ forall c z, has R c z <-> op_prop o (has A c z) (has B c z).
Proof.
  intros Hdb Ha Hb HF Hn. pose proof (proj1 (proj2 Ha)) as HA. pose proof (proj1 (proj2 Hb)) as HB.
  assert (forall m kA kB, (kA, kB) = match o with OIntersect => (false, false) | ODiff => (true, false) | _ => (true, true) end ->
    (exists r R, m = Ok r /\ treed_rep ci L F r R /\ forall c z, has R c z <-> in3 kA kB (fun _ => op_prop o) A B c z) ->
    exists r R, m = Ok r /\ treed_rep ci L F r R /\ forall c z, has R c z <-> op_prop o (has A c z) (has B c z)) as Hgo.
  { intros m kA kB Hk (r & R & Hm & Hr & Hin). exists r, R. do 2 (split; [done|]). intros c z. by eapply op_in3. }
  destruct o; eapply Hgo; try done; [by apply (t_intersect_ok store)|by apply (t_unite_ok store)|by apply (t_diff_ok store)|by apply (t_symDiff_ok store)].
Qed.

(** C11: the delayed set operations on two results of the same kind succeed when the nodes of
    both and two for each cell fit 32 bits, and give results that stand, cell by cell, for
    the intersection, the union, the difference and the symmetric difference. *)
Theorem treed_set_operations {St : Type} {IS : IndexStore St} {ISO : IndexStoreOk St} (store : St) ci L F a b A B :
  db_ok store ci L -> treed_rep ci L F a A -> treed_rep ci L F b B -> has_flag F FF_EMPTY = false ->
  tsize a + tsize b + 2 * (zlen A + zlen B) < 2 ^ 32 ->
  (exists r R, t_intersect a b = Ok r /\ treed_rep ci L F r R /\ forall c z, has R c z <-> has A c z /\ has B c z) /\
  (exists r R, t_unite a b = Ok r /\ treed_rep ci L F r R /\ forall c z, has R c z <-> has A c z \/ has B c z) /\
  (exists r R, t_diff a b = Ok r /\ treed_rep ci L F r R /\ forall c z, has R c z <-> has A c z /\ ~ has B c z) /\
  (exists r R, t_symDiff a b = Ok r /\ treed_rep ci L F r R /\ forall c z, has R c z <-> has A c z /\ ~ has B c z \/ ~ has A c z /\ has B c z).
Proof.
  intros Hdb Ha Hb HF Hn. pose proof (fun o => treed_op store ci L F o a b A B Hdb Ha Hb HF Hn) as Ho.
  split; [apply (Ho OIntersect)|]. split; [apply (Ho OUnite)|]. split; [apply (Ho ODiff)|apply (Ho OSymDiff)].
Qed.

(** C13: [toCQR] evaluates the trees of the cells before the one at which the progress
    function stops it: every evaluation ends, and the query result has the same items, when
    no tree that starts with [ToFm] is empty. *)
Theorem treed_toCQR {St : Type} {IS : IndexStore St} {ISO : IndexStoreOk St} (store : St) ci garbage junk pf L F a X :
  db_ok store ci L -> only_kind F -> treed_rep ci L F a X -> Forall2 (not_stale (q_trees a)) (q_desc a) X ->
  exists r R, toCQR store ci garbage junk pf a = Ok r /\ cqr_rep ci L F r R /\ R `sublist_of` until pf 0 X /\
    forall c z, has R c z <-> has (until pf 0 X) c z.
Proof.
  intros Hdb HFk Ha Hst. destruct (toCQR_ok store ci L F Hdb HFk garbage junk pf a X Ha Hst) as (r & R & H1 & H2 & H3).
  exists r, R. do 2 (split; [done|]). split; [apply H3|]. intros c z. by apply thinned_has.
Qed.

(** What the delayed operation [top] gives is what [q] says of the operands' items. *)
Definition delayed {St : Type} `{IndexStore St} (store : St) ci garbage junk (L : list (list Z)) F (top : tcqr -> tcqr -> result tcqr) (q : Prop -> Prop -> Prop)
    (a b : cqr) (A B : cells) : Prop :=
  exists ta tb t r R, t_of_cqr ci a = Ok ta /\ t_of_cqr ci b = Ok tb /\ top ta tb = Ok t /\ toCQR store ci garbage junk (fun _ => true) t = Ok r /\
    cqr_rep ci L F r R /\ forall c z, has R c z <-> q (has A c z) (has B c z).

Lemma delayed_ok {St : Type} {IS : IndexStore St} {ISO : IndexStoreOk St} (store : St) ci garbage junk L F top q a b A B :
  db_ok store ci L -> only_kind F -> cqr_rep ci L F a A -> no_empty_id a A -> cqr_rep ci L F b B -> no_empty_id b B ->
  (forall ta tb, treed_rep ci L F ta A -> treed_rep ci L F tb B -> tsize ta + tsize tb + 2 * (zlen A + zlen B) < 2 ^ 32 -> exists r R, top ta tb = Ok r /\
     treed_rep ci L F r R /\ forall c z, has R c z <-> q (has A c z) (has B c z)) ->
  (forall ta tb r, no_to ta -> no_to tb -> top ta tb = Ok r -> no_to r) -> zlen A + zlen B < 2 ^ 30 ->
  delayed store ci garbage junk L F top q a b A B.
Proof.
  intros Hdb HFk Ha Hae Hb Hbe Htop Hno Hfew. destruct (t_of_cqr_ok store ci L F Hdb a A Ha Hae) as (ta & Eta & Hta).
  destruct (t_of_cqr_ok store ci L F Hdb b B Hb Hbe) as (tb & Etb & Htb).
  destruct (Htop ta tb Hta Htb) as (t & R & Et & Ht & Hin).
  { pose proof (t_of_cqr_small ci a ta Eta) as H1. pose proof (t_of_cqr_small ci b tb Etb) as H2.
    rewrite (cr_len _ _ _ _ _ (proj1 Ha)) in H1. rewrite (cr_len _ _ _ _ _ (proj1 Hb)) in H2. lia. }
  assert (no_to t) as Hnt by (apply (Hno ta tb); [by eapply t_of_cqr_no|by eapply t_of_cqr_no|done]).
  destruct (toCQR_ok store ci L F Hdb HFk garbage junk (fun _ => true) t R Ht) as (r & T & Er & Hr & HT); [apply (no_to_fresh ci L F); [apply Ht|done]|].
  exists ta, tb, t, r, T. do 5 (split; [done|]). intros c z. rewrite (thinned_has _ _ _ _ HT), until_all by done. apply Hin.
Qed.

(** The operation [op] on the query results and the delayed operation [top] on the trees made
    from them both succeed, the second gives what [q] says of the operands' items, and the
    first gives the same but for the cells that are [lost]. *)
Definition agrees {St : Type} `{IndexStore St} (store : St) ci garbage junk (L : list (list Z)) F (op : cqr -> cqr -> result (cqr * cqr * cqr))
    (top : tcqr -> tcqr -> result tcqr) (lost : Z -> Prop) (q : Prop -> Prop -> Prop) (a b : cqr) (A B : cells) : Prop :=
  exists a' b' r R ta tb t s T,
    op a b = Ok (a', b', r) /\ cqr_rep ci L F a' A /\ cqr_rep ci L F b' B /\ cqr_rep ci L F r R /\
    t_of_cqr ci a = Ok ta /\ t_of_cqr ci b = Ok tb /\ top ta tb = Ok t /\ toCQR store ci garbage junk (fun _ => true) t = Ok s /\ cqr_rep ci L F s T /\
    (forall c z, has T c z <-> q (has A c z) (has B c z)) /\ forall c z, has R c z <-> has T c z /\ ~ lost c.

Lemma agrees_intro {St : Type} `{IndexStore St} (store : St) ci garbage junk L F op top lost q0 (q : Prop -> Prop -> Prop) a b A B :
  gives ci L F op q0 a b A B -> delayed store ci garbage junk L F top q a b A B ->
  (forall c x y, q0 c x y <-> q x y /\ ~ lost c) -> agrees store ci garbage junk L F op top lost q a b A B.
Proof.
  intros (a' & b' & r & R & H1 & H2 & H3 & H4 & H5) (ta & tb & t & s & T & H6 & H7 & H8 & H9 & H10 & H11) Hq.
  exists a', b', r, R, ta, tb, t, s, T. do 10 (split; [assumption|]). intros c z. by rewrite H5, Hq, H11.
Qed.

(** C12: for query results of the same kind, local or global, with fewer than 2^30 cells
    together, in which every partial match that is not fetched has an item: the operations on the query results, and building trees from them, combining the trees
    and evaluating the outcome both succeed, the delayed way with exactly the items of the
    set operation.  For intersection and union the two ways have the same items; for the
    differences the immediate one has the same but for the cells that [clash]. *)
Theorem treed_equals_immediate {St : Type} {IS : IndexStore St} {ISO : IndexStoreOk St} (store : St) ci garbage junk L F a b A B :
  db_ok store ci L -> only_kind F -> has_flag F FF_EMPTY = false -> cqr_rep ci L F a A -> no_empty_id a A -> cqr_rep ci L F b B -> no_empty_id b B -> zlen A + zlen B < 2 ^ 30 ->
  agrees store ci garbage junk L F (cqr_intersect store ci garbage) t_intersect (fun _ => False) (fun x y => x /\ y) a b A B /\
  agrees store ci garbage junk L F (cqr_unite store ci garbage) t_unite (fun _ => False) (fun x y => x \/ y) a b A B /\
  agrees store ci garbage junk L F (cqr_diff store ci garbage) t_diff (clash a b) (fun x y => x /\ ~ y) a b A B /\
  agrees store ci garbage junk L F (cqr_symDiff store ci garbage) t_symDiff (clash a b) (fun x y => x /\ ~ y \/ ~ x /\ y) a b A B.
Proof.
  intros Hdb HFk HF Ha Hae Hb Hbe Hfew.
  assert (forall o, delayed store ci garbage junk L F (match o with OIntersect => t_intersect | OUnite => t_unite | ODiff => t_diff | OSymDiff => t_symDiff end) (op_prop o) a b A B) as Ho.
  { intros o. apply delayed_ok; try done; [|intros ta tb r H1 H2 H3; apply (t_op_no ta tb r H1 H2); destruct o; tauto].
    intros ta tb Hta Htb Hn. exact (treed_op store ci L F o ta tb A B Hdb Hta Htb HF Hn). }
  split; [|split; [|split]].
  - eapply agrees_intro; [by apply intersect_has|exact (Ho OIntersect)|tauto].
  - eapply agrees_intro; [by apply unite_has|exact (Ho OUnite)|tauto].
  - eapply agrees_intro; [by apply diff_has|exact (Ho ODiff)|tauto].
  - eapply agrees_intro; [by apply symDiff_has|exact (Ho OSymDiff)|tauto].
Qed.

(** The constructors give the cells of full matches all their items and those of partial
    matches, by id or by index, theirs; a result made from a query result stands for the
    same. *)
Theorem treed_constructors {St : Type} {IS : IndexStore St} {ISO : IndexStoreOk St} (store : St) ci L F fm pm :
  db_ok store ci L -> sorted fm -> sorted (keys pm) -> Forall (fun c => 0 <= c < ci_cellSize ci) fm -> Forall (fun c => 0 <= c < ci_cellSize ci) (keys pm) ->
  (forall ids, Forall2 (pm_ok ci L F) ids pm -> exists r R, t_new_ids fm (keys pm) ids F = Ok r /\ treed_rep ci L F r R /\
     forall c z, has R c z <-> (c ∈ fm /\ z ∈ full_items ci L F c) \/ (c ∉ fm /\ has pm c z)) /\
  (forall idx, Forall2 (item_ok ci L F SIdx true) idx pm -> exists r R, t_new_idx fm (keys pm) idx F = Ok r /\ treed_rep ci L F r R /\
     forall c z, has R c z <-> (c ∈ fm /\ z ∈ full_items ci L F c) \/ (c ∉ fm /\ has pm c z)) /\
  treed_rep ci L F (t_new_full fm F) (fulls ci L F fm) /\
  (forall full c id l, 0 <= c < ci_cellSize ci -> (if full : bool then l = full_items ci L F c else pm_ok ci L F id (c, l)) ->
     treed_rep ci L F (t_new_cell full c id F) [(c, l)]) /\
  (forall q m, cqr_rep ci L F q m -> no_empty_id q m -> exists r, t_of_cqr ci q = Ok r /\ treed_rep ci L F r m).
Proof.
  intros Hdb Hfs Hps Hfm Hpm. split; [|split; [|split; [|split]]].
  - intros ids Hids. by apply (t_constructor store ci L F Hdb push_pm (pm_ok ci L F) (push_pm_adds store ci L F Hdb)).
  - intros idx Hidx. by apply (t_constructor store ci L F Hdb push_fetched (item_ok ci L F SIdx true) (push_fetched_adds store ci L F Hdb)).
  - destruct (t_new_full_ok store ci L F Hdb fm Hfm (t_new F) []) as [Hr Hn]; [by apply t_empty_ok|]. split; [exact Hr|]. split; [by rewrite fulls_keys|]. unfold t_new_full. lia.
  - intros full c id l Hc Hl. by apply (t_new_cell_ok store).
  - intros q m Hq Hne. by apply (t_of_cqr_ok store).
Qed.

(** [allToFull] gives a result for all items of the cells that have some, and evaluating
    it is right when no cell is empty. *)
Theorem treed_allToFull {St : Type} {IS : IndexStore St} {ISO : IndexStoreOk St} (store : St) ci garbage junk L F a X :
  db_ok store ci L -> only_kind F -> treed_rep ci L F a X -> tsize a + zlen X < 2 ^ 32 ->
  exists r, t_allToFull a = Ok r /\ treed_rep ci L F r (map (to_full ci L F) X) /\
    (Forall (fun cl => snd cl <> []) X -> exists q R, toCQR store ci garbage junk (fun _ => true) r = Ok q /\ cqr_rep ci L F q R /\
       forall c z, has R c z <-> c ∈ keys X /\ z ∈ full_items ci L F c).
Proof.
  intros Hdb HFk Ha Hn. destruct (t_allToFull_ok store ci L F Hdb a X Ha Hn) as (r & Er & Hr). exists r. do 2 (split; [done|]). intros Hne.
  assert (map (to_full ci L F) X = fulls ci L F (keys X)) as EX.
  { unfold fulls, keys. rewrite map_map. apply map_ext_in. intros [c l] Hin%list_elem_of_In. rewrite Forall_forall in Hne. specialize (Hne _ Hin).
    unfold to_full. cbn [fst snd] in *. by rewrite decide_False. }
  assert (forall c z, has (map (to_full ci L F) X) c z <-> c ∈ keys X /\ z ∈ full_items ci L F c) as Hhas by (intros c z; rewrite EX; apply has_fulls).
  destruct (toCQR_ok store ci L F Hdb HFk garbage junk (fun _ => true) r _ Hr) as (q & R & Hq & HR & HT).
  { pose proof (tr_cells _ _ _ _ _ (proj1 Hr)) as Hc. rewrite EX in Hc |- *. apply Forall2_same_length_lookup. split; [by eapply Forall2_length|].
    intros i d cl Hd Hcl _ _. unfold fulls in Hcl. apply list_lookup_fmap_Some in Hcl as (c & -> & Hk). cbn [snd]. intros E0.
    apply list_lookup_fmap_Some in Hk as ([c' l] & -> & Hi). cbn [fst] in E0. rewrite Forall_forall in Hne.
    destruct l as [|z l]; [by destruct (Hne _ (list_elem_of_lookup_2 _ _ _ Hi))|].
    destruct (Forall2_lookup_r _ _ _ _ _ (tr_cells _ _ _ _ _ (proj1 Ha)) Hi) as (d' & _ & Hd').
    pose proof (cell_items store ci L F Hdb _ _ _ _ _ Hd' z ltac:(left)) as Hz. rewrite E0 in Hz. by apply elem_of_nil in Hz. }
  exists q, R. do 2 (split; [done|]). intros c z. rewrite (thinned_has _ _ _ _ HT), until_all by done. apply Hhas.
Qed.

(** * Examples *)

Lemma ex_a_ids : no_empty_id ex_a ex_A.
Proof. intros [|[|i]] d l Hd Hl Hf Hfe; cbn in *; simplify_eq; done. Qed.

Lemma ex_b_ids : no_empty_id ex_b ex_B.
Proof. intros [|[|i]] d l Hd Hl Hf Hfe; cbn in *; simplify_eq; done. Qed.

(** The operands of the examples of [CellQuery], as trees. *)
Definition ex_ta : tcqr := mkT 4 [newTC false false 0 2 notree notree; newTC true false 1 0 notree notree] [] [] false.
Definition ex_tb : tcqr := mkT 4 [newTC true false 0 0 notree notree; newTC false true 1 0 0 1] [FetchedLeaf 0] [Some (PStlVector [5])] false.

Lemma ex_ta_rep : treed_rep ex_ci ex_L 4 ex_ta ex_A.
Proof. destruct (t_of_cqr_ok (ex_L : list_store) ex_ci ex_L 4 ex_db_ok ex_a ex_A ex_a_rep ex_a_ids) as (r & Hr & Hrep). vm_compute in Hr. by injection Hr as <-. Qed.

Lemma ex_tb_rep : treed_rep ex_ci ex_L 4 ex_tb ex_B.
Proof. destruct (t_of_cqr_ok (ex_L : list_store) ex_ci ex_L 4 ex_db_ok ex_b ex_B ex_b_rep ex_b_ids) as (r & Hr & Hrep). vm_compute in Hr. by injection Hr as <-. Qed.

Lemma treed_set_operations_witness : treed_rep ex_ci ex_L 4 ex_ta ex_A /\ treed_rep ex_ci ex_L 4 ex_tb ex_B /\
  exists r R, t_symDiff ex_ta ex_tb = Ok r /\ treed_rep ex_ci ex_L 4 r R /\ has R 0 1 /\ has R 1 4 /\ ~ has R 1 5.
Proof.
  split; [exact ex_ta_rep|]. split; [exact ex_tb_rep|].
  destruct (treed_set_operations (ex_L : list_store) ex_ci ex_L 4 ex_ta ex_tb ex_A ex_B ex_db_ok ex_ta_rep ex_tb_rep eq_refl eq_refl) as (_ & _ & _ & r & R & H1 & H2 & H3).
  exists r, R. do 2 (split; [assumption|]). rewrite !H3. split; [|split]; apply (bool_decide_unpack _); vm_compute; exact I.
Defined.

Lemma treed_toCQR_witness : exists r R, toCQR (ex_L : list_store) ex_ci ex_garbage 0 (fun _ => true) ex_tb = Ok r /\ cqr_rep ex_ci ex_L 4 r R /\ has R 1 5.
Proof.
  assert (Forall2 (not_stale (q_trees ex_tb)) (q_desc ex_tb) ex_B) as Hst by (repeat constructor; intros H; vm_compute in H; done).
  destruct (treed_toCQR (ex_L : list_store) ex_ci ex_garbage 0 (fun _ => true) ex_L 4 ex_tb ex_B ex_db_ok (fun _ => eq_refl) ex_tb_rep Hst) as (r & R & H1 & H2 & _ & H4).
  exists r, R. do 2 (split; [assumption|]). apply H4. exists [5]. split; repeat constructor.
Defined.

Lemma treed_equals_immediate_witness : cqr_rep ex_ci ex_L 4 ex_a ex_A /\ cqr_rep ex_ci ex_L 4 ex_b ex_B /\
  agrees (ex_L : list_store) ex_ci ex_garbage 0 ex_L 4 (cqr_diff (ex_L : list_store) ex_ci ex_garbage) t_diff (clash ex_a ex_b) (fun x y => x /\ ~ y) ex_a ex_b ex_A ex_B.
Proof.
  split; [exact ex_a_rep|]. split; [exact ex_b_rep|].
  apply (treed_equals_immediate (ex_L : list_store) ex_ci ex_garbage 0 ex_L 4 ex_a ex_b ex_A ex_B ex_db_ok (fun _ => eq_refl) eq_refl ex_a_rep ex_a_ids ex_b_rep ex_b_ids).
  reflexivity.
Defined.

Lemma treed_constructors_witness : treed_rep ex_ci ex_L 4 (t_new_full [0; 1] 4) [(0, [1; 2; 3]); (1, [4; 5])] /\
  treed_rep ex_ci ex_L 4 (t_new_cell true 1 0 4) [(1, [4; 5])] /\ exists r, t_of_cqr ex_ci ex_a = Ok r /\ treed_rep ex_ci ex_L 4 r ex_A.
Proof.
  destruct (treed_constructors (ex_L : list_store) ex_ci ex_L 4 [0; 1] [] ex_db_ok) as (_ & _ & H1 & H2 & H3);
    [repeat constructor; lia|constructor|repeat constructor; cbn; lia|constructor|].
  split; [exact H1|]. split; [apply H2; [cbn; lia|reflexivity]|]. apply H3; [exact ex_a_rep|exact ex_a_ids].
Defined.

Lemma treed_allToFull_witness : treed_rep ex_ci ex_L 4 ex_tb ex_B /\
  exists r, t_allToFull ex_tb = Ok r /\ treed_rep ex_ci ex_L 4 r [(0, [1; 2; 3]); (1, [4; 5])].
Proof.
  split; [exact ex_tb_rep|]. destruct (treed_allToFull (ex_L : list_store) ex_ci ex_garbage 0 ex_L 4 ex_tb ex_B ex_db_ok (fun _ => eq_refl) ex_tb_rep eq_refl) as (r & H1 & H2 & _).
  exists r. split; [exact H1|exact H2].
Defined.

(** The evaluation of [ToFm] says that there is a fetched index when the one below is empty,
    and does not set it: the cell gets the index of the cell before. *)
Example toCQR_stale :
  let e := mkT 4 [newTC false true 1 0 0 1] [FetchedLeaf 0] [None] true in
  let s := mkT 4 [newTC false true 0 0 0 1] [FetchedLeaf 0] [Some (PStlVector [2])] true in
  (full ← t_allToFull e; r ← t_unite s full; toCQR (ex_L : list_store) ex_ci ex_garbage 0 (fun _ => true) r) =
    Ok (mkCqr 4 [mkDesc false true 0; mkDesc false true 1] [SIdx (Some (PStlVector [2])); SIdx (Some (PStlVector [2]))]).
Proof. vm_compute. reflexivity. Qed.
